(* ===== verification/_CoqProject ===== *)
-Q . S2P
Prelude.v
Stake.v
Stakes.v
StakesCorrect.v
Trs.v
TrsCorrect.v
Ars.v
Merkle.v
Hashes.v
Superblock.v
SuperblockCorrect.v
Epoch.v
Versioning.v
Tapi.v
TapiCorrect.v
Rad.v
Transaction.v
DataRequest.v
DataRequestCorrect.v
Float.v
Priority.v
TxPool.v
TxPoolCorrect.v
TxPoolBlock.v
RepEngine.v
RepEngineCorrect.v
Eligibility.v
EligibilityCorrect.v
Storage.v
UtxoDb.v
UtxoDbCorrect.v
Utxo.v
UtxoCorrect.v
RadScript.v
TxFactory.v
TxFactoryCorrect.v
Consensus.v
ConsensusCorrect.v
Validation.v
BlockValidation.v
ValidationCorrect.v
BuiltTransfer.v
BlockValidationCorrect.v
BlockRequests.v
BlockExamples.v
Consolidation.v
StakeChanges.v
StakeExamples.v
ConsolidationCorrect.v
AcceptedBlocks.v
ConsolidationExamples.v
ChainManager.v
ChainManagerCorrect.v
Snapshot.v
SnapshotCorrect.v
Peers.v
Sessions.v
PeersManager.v
SessionsManager.v
Session.v
PeersCorrect.v
SessionsCorrect.v
SessionsManagerCorrect.v
SessionCorrect.v
NetworkExamples.v
Sync.v
SyncCorrect.v
SyncChain.v
SyncExamples.v
SuperblockRound.v
SuperblockRoundCorrect.v
RoundExamples.v
StalledChain.v
Mining.v
MiningCorrect.v
MiningExamples.v
Propose.v
Witnessing.v
Admission.v
NodeExamples.v
