(* ===== verification/Prelude.v ===== *)
(** * Verification library for witnet-rust

    witnet-rust is the node of a decentralized oracle network: validators stake
    coins, data requests are witnessed through a commit, reveal and tally
    protocol, witnesses earn and lose reputation, and a committee signs
    superblocks that finalize the chain.  This library models the data
    structures that carry the consensus rules and proves that they do what their
    interfaces promise.  Definitions keep the names of the Rust code; where two
    of them share a name in one file the type is prefixed ([state_add_commit] is
    [DataRequestState::add_commit]).

    ** Conventions

    - [Prelude]: [result] is a Rust [Result] plus [Panic]; [exec] is the outcome
      of a method with [&mut self], which keeps the state on errors since Rust
      does not roll mutations back ([Ret], [Fail], [Crash]).  Where a function
      has no error but may panic, [None] is the panic.
    - Integers are [Z].  [wadd], [wsub] and [wmul] wrap at a width, as the
      release profile does (Cargo.toml enables no overflow checks); [sat_add] and
      [checked_add] and the like are the saturating and checked operators.
      Theorems about values state the bounds under which nothing wraps.
    - Hash maps and sets are [gmap] and [gset]; B-tree maps are read in key order
      ([btree_entries]).  Results that depend on the iteration order of a hash
      table are stated for every order (has_consensus takes it as an argument) or
      up to permutation.
    - SHA-256, the [hex] and [bincode] crates, and the hashes of generated
      protocol-buffer bytes are parameters; what the proofs need of them (lengths
      of digests, decoding undoes encoding) are named hypotheses or classes with
      a concrete instance in a witness.  The same holds for the order of the
      ordered_float crate ([FloatOrd]), the visiting order of hash maps
      ([visit], a permutation of the entries) and [f64::powf] (the positive powers that
      occur of a factor between zero and one stay there, [const_powf]).
    - Doubles are the [spec_float] values of the Standard Library, with the
      rounding of binary64.

    ** Files, and the code they model

    - [Stake], [Stakes]: staking/stake.rs, staking/stakes.rs, staking/helpers.rs,
      wit.rs, capabilities.rs under data_structures/src.  The tracker keeps one
      entry per validator and withdrawer behind three indexes that share cells;
      [Stakes] has an explicit store of cells, and each method is one definition.
      [StakesCorrect]: an abstract map from keys to stakes, refinement of adding
      and removing stake with every outcome written out, the invariant of the
      indexes over sequences of operations that succeed or fail, with the failing
      first stake that breaks it, ranking, queries, age resets and cloning.
    - [Trs]: reputation/src/trs.rs, the queue of expiring reputation packets and
      its cache; [TrsCorrect]: the cache is the sum of the packets in every
      reachable set, and what gain, expire and penalize_many do.
    - [Ars]: reputation/src/ars.rs, the window of active identities, with its
      refinement of an append-only log.
    - [Merkle]: crypto/src/merkle.rs over an abstract hash function: the three
      tree implementations agree, inclusion proofs are complete and binding.
    - [Hashes]: byte forms of hashes and keys (data_structures/src/chain/mod.rs).
    - [Superblock]: data_structures/src/superblock.rs with the predicates it uses
      from chain/tapi.rs; [SuperblockCorrect]: the voting protocol as a status
      per committee member, consensus decisions, committees, superblock bytes.
    - [Versioning]: proto/versioning.rs and the global protocol information of
      lib.rs: the version in force at an epoch, activation times.
    - [Tapi]: chain/tapi.rs, the voting of blocks on protocol upgrades;
      [TapiCorrect]: the outcome of a signaling period, empty epochs, the shape of
      the table of counters in every reachable engine, initialization.
    - [Rad], [Transaction]: the types of data request scripts and transactions
      (chain/mod.rs, transaction.rs, vrf.rs), their values and weights.
    - [DataRequest]: data_request.rs and DataRequestState of chain/mod.rs;
      [DataRequestCorrect]: every request reaches its tally, the index of
      requests by epoch is exact in every reachable pool, tallies conserve value.
    - [Float]: the IEEE doubles the pool uses for priorities.
    - [Priority]: chain/priority.rs, the queue of the priorities of blocks and the
      estimates of fees, with what is kept of a block.
    - [TxPool]: TransactionsPool of chain/mod.rs, the transactions waiting for a
      block; [TxPoolCorrect]: its indexes agree with the transactions in every
      pool that is reached without the operations shown to break this (clearing
      the stakes or unstakes, inserting twice), and what a consolidated
      transaction and the weight limit drop;
      [TxPoolBlock]: the order of iteration and the commits chosen for a block.
    - [RepEngine]: ReputationEngine of chain/mod.rs with its cache of thresholds,
      and the update of the reputation for a block (update_reputation and
      ReputationInfo of chain_manager/mod.rs); [RepEngineCorrect]: the cache is
      invisible, thresholds give enough witnesses, the trapezoid conserves
      eligibility and the supply of reputation is exactly what was issued.
    - [Eligibility]: validations/src/eligibility and the comparison of block
      candidates of validations.rs; [EligibilityCorrect]: who may mine, fairness
      and bounds of witnessing, slots, and that candidates are totally ordered.
    - [Epoch]: EpochConstants of chain/mod.rs; epochs and timestamps round trip
      across the change of period of version 2.0.
    - [Storage]: storage/src/storage.rs as a type class with laws, and the
      in-memory backend as an instance.
    - [UtxoDb]: utxo_pool/utxo_db.rs: the trait of databases of unspent outputs
      as a class with laws ([UtxoDbLaws]); [UtxoDbCorrect]: the wrapper over any
      storage and the cache over any database are instances, so their stack is.
    - [Utxo]: utxo_pool.rs, generic in the database; [UtxoCorrect]: the pool is a
      map for its readers; block diffs and persistence refine that map.
    - [RadScript]: rad/src/script.rs and the codes of operators, filters and
      reducers: unpacking of scripts, as far as validation needs them.
    - [TxFactory]: transaction_factory.rs and fee.rs: selection of outputs behind
      the interface [OutputsCollection], relative fees, the builders of transfers,
      requests, collaterals and stakes; [TxFactoryCorrect]: what is selected, that
      a transfer pays exactly its outputs and fee, and that its fee search ends.
    - [Consensus]: constants, blocks, rewards and deferred signatures
      (chain/mod.rs, validations.rs); [ConsensusCorrect]: the supply of rewards.
    - [Validation]: the functions of validations.rs that validate one transaction;
      [ValidationCorrect]: what acceptance means, per kind.  [BlockValidation]:
      those that validate a block; [BlockValidationCorrect]: a ledger invariant
      kept by every step of the loops, which gives the exact value of the outputs
      after an accepted block; it spends once and only with the signature of the
      owner;
      [BlockRequests]: its effect on the pool of data requests, its tallies and
      its Merkle roots.  [BuiltTransfer]: a transfer of the factory passes the
      validation unless it weighs too much.  [BlockExamples]: concrete blocks, on which the theorems above
      are applied and which show the behaviours reported as findings.
    - [Consolidation]: the functions of chain_manager/mod.rs that apply an accepted
      block, process_wit2_stakes_changes and update_pools, with the keys and
      statistics they update; [StakeChanges]: the changes of stakes account for
      every coin; [ConsolidationCorrect], [AcceptedBlocks]: what validation accepts
      update_pools records without an error; [StakeExamples] and
      [ConsolidationExamples] evaluate blocks.
    - [ChainManager]: the state of the node and the functions around the
      consolidation, process_validations, consolidate_block,
      process_requested_block and process_candidate; [ChainManagerCorrect]: the
      chain grows at its tip.
    - [Snapshot]: ChainStateSnapshot and persist_chain_state, committee sizes and
      ranges of blocks; [SnapshotCorrect]: superblocks are persisted in order.
    - [Mining]: build_block and create_tally_transactions of
      chain_manager/mining.rs; [MiningCorrect]: what the miner puts in a block is
      what the validation accepts; [StalledChain]: a request that is short of
      validators stops the chain.  [MiningExamples] builds a block.
    - [Propose]: try_mine_block, tapi_signals_mask and future_process_validations;
      what is proposed has passed the validation of blocks.  [Witnessing]:
      try_mine_data_request, its loop and then the events of each request in any
      order; the retrievals stay within their limit and the commits are accepted.
      [Admission]: add_transaction of chain_manager/mod.rs before and after the
      verification of signatures; what enters the pool was valid.
      [NodeExamples] evaluates the three.
    - [Peers], [Sessions]: p2p/src/peers and p2p/src/sessions, the buckets of known
      addresses and the tables of connections; [PeersManager], [SessionsManager],
      [Session]: the handlers of node/src/actors/peers_manager, sessions_manager
      and session, each a function from a message to the next state and the
      messages that are sent; [PeersCorrect], [SessionsCorrect],
      [SessionsManagerCorrect], [SessionCorrect]: invariants of the buckets and of
      the tables over all runs, the beacons of an epoch are sent at most once and when
      the scheduled closure runs, the handshake
      ends in whatever order messages arrive.  [NetworkExamples] evaluates them.
    - [Sync]: the state machine of chain_manager/handlers.rs (PeersBeacons,
      EpochNotification, AddBlocks, AddSuperBlock) over an interface to the chain,
      the classes [ChainOps] and [ChainLaws]; [SyncCorrect]: when peers agree,
      and that a node mines only after consensus; [SyncChain]: the chain manager is an
      instance, and a batch of blocks extends its chain, each block naming the hash of
      the one before; [SyncExamples] runs a node.
    - [SuperblockRound]: construct_superblock, votes and the consolidation of
      superblocks of chain_manager/mod.rs, over [ChainManager] and [Snapshot];
      [SuperblockRoundCorrect]: a synced node builds on a superblock only with the
      votes of its committee, and round after round the confirmation of a superblock does not
      panic ([steady]); [RoundExamples] runs rounds.

    ** How the parts interact

    A block is a sequence of calls: its transactions become a [UtxoDiff] applied
    to the [UnspentOutputsPool], its data request transactions go to the
    [DataRequestPool], its stake transactions to [Stakes]; the tally pays the
    witnesses that the pool recorded; at the end of an epoch the reputation sets
    are updated, and every few epochs [build_superblock] hashes the blocks and
    the reputation set with the merkle trees and starts a vote.  The clients of a
    component use its interface: the pool of outputs is proved against
    [UtxoDbLaws], the database against [StorageLaws].  The chain manager ties them
    together: [process_requested_block] validates a block, which changes the pool of
    requests, and hands the diff to [consolidate_block], which pays stakes
    ([process_wit2_stakes_changes]), updates the pools ([update_pools]), reputation
    or stakes, the votes on upgrades and the stages of the requests; the state of
    the chain is kept in a snapshot until the superblock over it is final.  Sessions
    report the beacons of their peers to the sessions manager, which sends them
    at most once per epoch to the chain manager; there the state machine of [Sync] decides
    whether to synchronize or to mine, and asks for blocks, which it processes with
    the chain.  Each actor is a function on its own state; what it sends to others
    is a list of effects, and runs are sequences of events in any order
    ([sessions_run], [peers_run], [sync_run], [deliveries]).

    ** Bounds and fuel

    Loops are structural recursions or folds, except: the root of a merkle tree
    and the layers of a full tree recurse with the number of leaves as fuel, the
    partition of a committee with its size, and the prefix iterator of the
    in-memory storage with the number of its entries; lemmas show that the fuel
    never runs out ([merkle_tree_root_total], [partition_loop_picks],
    [backend_prefix_spec]).  The counting of empty epochs by [update_bit_counter]
    recurses two levels deep ([empty_epochs_signal_nothing]), and the eviction loop
    of the pool of transactions runs at most once per transaction
    ([limit_evicts_cheapest]).  Ten digits are enough for a [u32].  The schedule of
    block rewards halves a 64-bit reward, so 64 rounds suffice
    ([total_block_reward_exact]); the search for a relative fee has the bound of
    the code itself, after which the code panics ([built_transfer_pays]).

    ** Validation

    A function of the validation returns the signatures it collected, which the
    caller verifies later ([verify_signatures]); [validate_block_transactions]
    also returns the pool of data requests it leaves behind, on errors too.
    Verification and parsing of secp256k1 keys and signatures, VRF proofs, CBOR
    decoding, the hashes of transactions and headers, and the execution of the
    tally script ([run_tally_panic_safe]) are parameters without hypotheses, except
    where a theorem names one; where the miner and the validation meet, both run one
    script with their own fallback for a panic ([tally_panic_safe]).  The consolidation adds the hash of a VRF proof
    ([proof_to_hash]), the check of bn256 keys and the test for the bytes of the
    error for too many witnesses ([is_too_many]).

    ** What is not modelled

    Network and disk access, timers and the runtime of the actors, JSON-RPC, the
    inventory, the wallet, the bridge and the command line; cryptographic
    primitives; generated serialization code; the signature, vrf and rad managers,
    whose answers are arguments of [Propose] and [Witnessing]; the execution of
    RADON scripts (rad/src), which is floating point and parsing of documents. *)

From stdpp Require Import base tactics numbers list list_numbers sorting gmap.
From Stdlib Require Import ZArith Lia.

(** ** Results of Rust functions *)

(** The value of a Rust expression of type [Result<A, E>]; [Panic] stands for
    an evaluation that unwinds ([unwrap] on [None], a failed [assert!], an
    index out of bounds, a division by zero). *)
Inductive result (E A : Type) : Type :=
  | Ok (a : A)
  | Err (e : E)
  | Panic.
Arguments Ok {E A} a.
Arguments Err {E A} e.
Arguments Panic {E A}.

Definition rbind {E A B} (m : result E A) (k : A → result E B) : result E B :=
  match m with Ok a => k a | Err e => Err e | Panic => Panic end.

Definition is_panic {E A} (m : result E A) : bool :=
  match m with Panic => true | _ => false end.

(** [Option::ok_or] and [Option::unwrap]. *)
Definition ok_or {E A} (o : option A) (e : E) : result E A :=
  match o with Some a => Ok a | None => Err e end.
Definition unwrap {E A} (o : option A) : result E A :=
  match o with Some a => Ok a | None => Panic end.
Definition map_err {E F A} (f : E → F) (m : result E A) : result F A :=
  match m with Ok a => Ok a | Err e => Err (f e) | Panic => Panic end.
Definition assert_that {E} (b : bool) : result E unit :=
  if b then Ok tt else Panic.

Declare Scope rust_scope.
Delimit Scope rust_scope with rust.
Notation "'let?' x := m 'in' k" := (rbind m (fun x => k))
  (at level 10, x pattern, m at level 100, k at level 200)
  : rust_scope.

(** A method with [&mut self] that may fail: the state after the call is kept
    when the method returns [Err], since Rust does not roll mutations back. *)
Inductive exec (S E A : Type) : Type :=
  | Ret (s : S) (a : A)
  | Fail (s : S) (e : E)
  | Crash.
Arguments Ret {S E A} s a.
Arguments Fail {S E A} s e.
Arguments Crash {S E A}.

Definition ebind {S E A B} (m : exec S E A) (k : S → A → exec S E B) : exec S E B :=
  match m with Ret s a => k s a | Fail s e => Fail s e | Crash => Crash end.

Notation "'let!' ( s , x ) := m 'in' k" := (ebind m (fun s x => k))
  (at level 10, s name, x pattern, m at level 100, k at level 200) : rust_scope.

(** Lift a pure fallible computation into a method that has state [s]. *)
Definition lift_exec {S E A} (s : S) (m : result E A) : exec S E A :=
  match m with Ok a => Ret s a | Err e => Fail s e | Panic => Crash end.

(** ** Machine integers

    Unsigned integers are [Z] values; the operators below are those of the
    release profile (Cargo.toml enables no [overflow-checks]), where [+], [-]
    and [*] wrap around. *)
Definition U16 : Z := 2 ^ 16.
Definition U32 : Z := 2 ^ 32.
Definition U64 : Z := 2 ^ 64.

Definition wadd (m a b : Z) : Z := (a + b) mod m.
Definition wsub (m a b : Z) : Z := (a - b) mod m.
Definition wmul (m a b : Z) : Z := (a * b) mod m.

(** [saturating_sub], [saturating_add] and [saturating_mul] of an unsigned
    type with [m] values, and [checked_add]/[checked_mul]. *)
Definition sat_sub (a b : Z) : Z := Z.max 0 (a - b).
Definition sat_add (m a b : Z) : Z := Z.min (m - 1) (a + b).
Definition sat_mul (m a b : Z) : Z := Z.min (m - 1) (a * b).
Definition checked_add (m a b : Z) : option Z :=
  if decide (a + b < m)%Z then Some (a + b)%Z else None.
Definition checked_mul (m a b : Z) : option Z :=
  if decide (a * b < m)%Z then Some (a * b)%Z else None.

(** [a] is a value of the unsigned type with [m] values. *)
Definition fits (m a : Z) : Prop := (0 ≤ a < m)%Z.

Create HintDb machine.

Lemma wadd_small m a b : (0 ≤ a + b < m → wadd m a b = a + b)%Z.
Proof. unfold wadd. intros. by apply Z.mod_small. Qed.
Lemma wsub_small m a b : (0 ≤ a - b < m → wsub m a b = a - b)%Z.
Proof. unfold wsub. intros. by apply Z.mod_small. Qed.
Lemma wmul_small m a b : (0 ≤ a * b < m → wmul m a b = a * b)%Z.
Proof. unfold wmul. intros. by apply Z.mod_small. Qed.

Lemma wadd_fits m a b : (0 < m → fits m (wadd m a b))%Z.
Proof. intros. by apply Z.mod_pos_bound. Qed.
Lemma wsub_fits m a b : (0 < m → fits m (wsub m a b))%Z.
Proof. intros. by apply Z.mod_pos_bound. Qed.
Lemma wmul_fits m a b : (0 < m → fits m (wmul m a b))%Z.
Proof. intros. by apply Z.mod_pos_bound. Qed.

Lemma U32_pos : (0 < U32)%Z. Proof. reflexivity. Qed.
Lemma U64_pos : (0 < U64)%Z. Proof. reflexivity. Qed.
Lemma U16_pos : (0 < U16)%Z. Proof. reflexivity. Qed.

#[export] Hint Resolve wadd_fits wsub_fits wmul_fits U16_pos U32_pos U64_pos : machine.

(** Evaluate the moduli so that [lia] sees numerals. *)
Ltac unfold_moduli :=
  repeat match goal with
         | H : context [U16] |- _ => change U16 with 65536%Z in H
         | H : context [U32] |- _ => change U32 with 4294967296%Z in H
         | H : context [U64] |- _ => change U64 with 18446744073709551616%Z in H
         | |- context [U16] => change U16 with 65536%Z
         | |- context [U32] => change U32 with 4294967296%Z
         | |- context [U64] => change U64 with 18446744073709551616%Z
         end.
Ltac machine := unfold fits in *; unfold_moduli; lia.

(** ** Sums over lists and finite maps of [Z] values *)

Definition zsum (l : list Z) : Z := foldr Z.add 0%Z l.

Lemma zsum_cons {A} (f : A → Z) x l : zsum (f <$> x :: l) = (f x + zsum (f <$> l))%Z.
Proof. reflexivity. Qed.

Lemma zsum_Zcons x l : zsum (x :: l) = (x + zsum l)%Z.
Proof. reflexivity. Qed.
Lemma zsum_app l k : zsum (l ++ k) = (zsum l + zsum k)%Z.
Proof. induction l as [|x l IH]; simpl; [lia | rewrite IH; lia]. Qed.

#[export] Instance zsum_Permutation : Proper ((≡ₚ) ==> (=)) zsum.
Proof. intros l k H. induction H; simpl; lia. Qed.

Lemma zsum_nonneg l : Forall (λ x, 0 ≤ x)%Z l → (0 ≤ zsum l)%Z.
Proof. induction 1; simpl; lia. Qed.

Lemma zsum_elem_le l x : Forall (λ x, 0 ≤ x)%Z l → x ∈ l → (x ≤ zsum l)%Z.
Proof.
  induction 1 as [|y l Hy Hl IH]; [by intros ?%elem_of_nil|].
  intros [->|Hx]%elem_of_cons; simpl.
  - pose proof (zsum_nonneg l Hl). lia.
  - specialize (IH Hx). lia.
Qed.

Lemma zsum_const {A} (l : list A) (c : Z) :
  zsum ((λ _, c) <$> l) = (c * Z.of_nat (length l))%Z.
Proof. induction l as [|x l IH]; csimpl; [lia|]. rewrite IH. lia. Qed.

(** A wrapping left fold equals the exact sum when the sum fits. *)
Lemma foldl_wadd m l acc :
  Forall (λ x, 0 ≤ x)%Z l → (0 ≤ acc)%Z → (acc + zsum l < m)%Z →
  foldl (wadd m) acc l = (acc + zsum l)%Z.
Proof.
  intros Hl. revert acc. induction Hl as [|x l Hx Hl IH]; simpl; intros acc Ha Hs; [lia|].
  pose proof (zsum_nonneg l Hl). rewrite wadd_small by lia. rewrite IH; lia.
Qed.

Section map_sum.
Context `{Countable K} {V : Type} (f : V → Z).
Implicit Types m : gmap K V.

(** The sum of [f] over the values of a map. *)
Definition msum m : Z := zsum ((λ kv, f kv.2) <$> map_to_list m).

Lemma msum_empty : msum ∅ = 0%Z.
Proof. unfold msum. by rewrite map_to_list_empty. Qed.
Lemma msum_insert_new m k v : m !! k = None → msum (<[k:=v]> m) = (f v + msum m)%Z.
Proof. intros Hk. unfold msum. by rewrite map_to_list_insert. Qed.
Lemma msum_delete m k v : m !! k = Some v → msum m = (f v + msum (delete k m))%Z.
Proof.
  intros Hk. rewrite <-(insert_delete_id m k v Hk) at 1.
  apply msum_insert_new, lookup_delete_eq.
Qed.
Lemma msum_insert m k v v' :
  m !! k = Some v → msum (<[k:=v']> m) = (msum m - f v + f v')%Z.
Proof.
  intros Hk. rewrite (msum_delete m k v Hk), <-insert_delete_eq.
  rewrite msum_insert_new by apply lookup_delete_eq. lia.
Qed.
Lemma msum_nonneg m : (∀ k v, m !! k = Some v → 0 ≤ f v)%Z → (0 ≤ msum m)%Z.
Proof.
  intros Hm. apply zsum_nonneg, Forall_forall. intros x ([k v] & -> & Hv)%list_elem_of_fmap.
  apply elem_of_map_to_list in Hv. by eapply Hm.
Qed.
Lemma msum_lookup_le m k v :
  (∀ k v, m !! k = Some v → 0 ≤ f v)%Z → m !! k = Some v → (f v ≤ msum m)%Z.
Proof.
  intros Hm Hk. rewrite (msum_delete m k v Hk).
  assert (0 ≤ msum (delete k m))%Z; [|lia].
  apply msum_nonneg. intros k' v' [_ ?]%lookup_delete_Some. by eapply Hm.
Qed.
End map_sum.

Lemma msum_fmap `{Countable K} {V W} (f : W → Z) (g : V → W) (m : gmap K V) :
  msum f (g <$> m) = msum (λ v, f (g v)) m.
Proof. unfold msum. by rewrite map_to_list_fmap, <-list_fmap_compose. Qed.

(** ** Ordered types (Rust's [Ord]) *)

Class OrdType (A : Type) := {
  ole : relation A;
  ole_dec :: RelDecision ole;
  ole_po :: PartialOrder ole;
  ole_total :: Total ole;
}.
#[export] Instance Z_ord : OrdType Z := {| ole := Z.le |}.

(** The entries of a [BTreeMap] in iteration order: by increasing key. *)
Section btree.
Context `{Countable K, !OrdType K} {V : Type}.
Definition key_le : relation (K * V) := λ x y, ole x.1 y.1.
#[export] Instance key_le_dec : RelDecision key_le := λ x y, ole_dec x.1 y.1.
Definition btree_entries (m : gmap K V) : list (K * V) :=
  merge_sort key_le (map_to_list m).
Lemma btree_entries_perm m : btree_entries m ≡ₚ map_to_list m.
Proof. apply merge_sort_Permutation. Qed.
Lemma elem_of_btree_entries m k v : (k, v) ∈ btree_entries m ↔ m !! k = Some v.
Proof. rewrite btree_entries_perm. apply elem_of_map_to_list. Qed.
Lemma NoDup_btree_entries m : NoDup (btree_entries m).*1.
Proof. rewrite btree_entries_perm. apply NoDup_fst_map_to_list. Qed.
Lemma btree_entries_sorted m : StronglySorted key_le (btree_entries m).
Proof.
  apply StronglySorted_merge_sort.
  - intros x y z. unfold key_le. apply transitivity.
  - intros x y. apply (total ole).
Qed.
End btree.

(** ** Automation *)

(** Split every [match] whose scrutinee is not a variable in hypothesis [H]. *)
Ltac case_in H :=
  repeat match type of H with
         | context [match ?x with _ => _ end] =>
             let E := fresh "E" in destruct x eqn:E; simplify_eq/=
         end.

(** Take one step into a computation that returned [Ok]: the result of a bound
    computation, or the branch of a test that did not fail. *)
Ltac step_ok H :=
  match type of H with
  | rbind ?m _ = Ok _ => let E := fresh "E" in destruct m eqn:E; cbn [rbind] in H; [|discriminate H..]
  | (if decide ?P then _ else _) = Ok _ => destruct (decide P); try discriminate H
  | (if ?b then _ else _) = Ok _ => let E := fresh "E" in destruct b eqn:E; try discriminate H
  | match ?x with _ => _ end = Ok _ => let E := fresh "E" in destruct x eqn:E; try discriminate H
  end.

Lemma map_err_ok {E F A} (f : E → F) (m : result E A) a : map_err f m = Ok a ↔ m = Ok a.
Proof. destruct m; simpl; split; congruence. Qed.
Lemma ok_or_ok {E A} (o : option A) (e : E) a : ok_or o e = Ok a ↔ o = Some a.
Proof. destruct o; simpl; split; congruence. Qed.
Lemma unwrap_ok {E A} (o : option A) a : unwrap (E:=E) o = Ok a ↔ o = Some a.
Proof. destruct o; simpl; split; congruence. Qed.

(** Filtering the entries of a map, in any order, gives the entries of the
    filtered map. *)
Lemma filter_entries_perm `{Countable K} {V} (P : K * V → Prop) `{!∀ kv, Decision (P kv)} (m : gmap K V) l :
  l ≡ₚ map_to_list m → filter P l ≡ₚ map_to_list (filter P m).
Proof.
  intros ->. apply NoDup_Permutation.
  - apply NoDup_filter, NoDup_map_to_list.
  - apply NoDup_map_to_list.
  - intros [k v]. rewrite list_elem_of_filter, !elem_of_map_to_list, map_lookup_filter_Some. naive_solver.
Qed.

(** The entries of a disjoint union. *)
Lemma map_to_list_union_perm `{Countable K} {V} (m1 m2 : gmap K V) :
  m1 ##ₘ m2 → map_to_list (m1 ∪ m2) ≡ₚ map_to_list m1 ++ map_to_list m2.
Proof.
  intros Hd. apply NoDup_Permutation; [apply NoDup_map_to_list| |].
  - apply NoDup_app. split_and!; [apply NoDup_map_to_list| |apply NoDup_map_to_list].
    intros [k v] H1%elem_of_map_to_list H2%elem_of_map_to_list. by apply (map_disjoint_spec m1 m2) with k v v in Hd.
  - intros [k v]. rewrite elem_of_app, !elem_of_map_to_list. by rewrite lookup_union_Some.
Qed.

(** Filters that agree on the elements of a list. *)
Lemma filter_ext_in {A} (P Q : A → Prop) `{!∀ x, Decision (P x), !∀ x, Decision (Q x)} (l : list A) :
  (∀ x, x ∈ l → P x ↔ Q x) → filter P l = filter Q l.
Proof.
  induction l as [|x l IH]; intros HPQ; [done|]. rewrite !filter_cons.
  assert (P x ↔ Q x) by (apply HPQ; by left). rewrite IH by (intros y ?; apply HPQ; by right).
  repeat case_decide; naive_solver.
Qed.

(** [Vec::swap_remove]: the last element takes the place of the removed one. *)
Definition swap_remove {A} (pos : nat) (l : list A) : list A :=
  match last l with
  | Some x => take (length l - 1) (<[pos := x]> l)
  | None => l
  end.

Lemma swap_remove_perm {A} (l : list A) pos x : l !! pos = Some x → l ≡ₚ x :: swap_remove pos l.
Proof.
  intros Hp. destruct l as [|y l _] using rev_ind; [done|]. unfold swap_remove. rewrite last_snoc, length_app.
  simpl length. replace (length l + 1 - 1)%nat with (length l) by lia.
  destruct (decide (pos < length l)%nat) as [Hlt|Hge].
  - rewrite insert_app_l, take_app_length' by (done || by rewrite length_insert).
    rewrite lookup_app_l in Hp by done. rewrite <-Permutation_cons_append.
    rewrite <-(take_drop_middle l pos x Hp) at 1. rewrite insert_take_drop by done.
    by rewrite <-!Permutation_middle, Permutation_swap.
  - apply lookup_lt_Some in Hp as Hlen. rewrite length_app in Hlen. simpl in Hlen.
    assert (pos = length l) as -> by lia. rewrite lookup_app_r, Nat.sub_diag in Hp by done. simplify_eq/=.
    rewrite insert_app_r_alt, Nat.sub_diag by lia. simpl.
    rewrite take_app_length' by done. by rewrite <-Permutation_cons_append.
Qed.

Lemma StronglySorted_reverse {A} (R : relation A) l :
  StronglySorted R l → StronglySorted (flip R) (reverse l).
Proof.
  induction 1 as [|x l Hl IH Hx]; [constructor|]. rewrite reverse_cons.
  clear Hl. assert (Forall (λ y, flip R y x) (reverse l)) as Hr by by apply Forall_reverse.
  induction IH as [|y k Hk IHk Hy]; simpl; [by repeat constructor|].
  inversion_clear Hr. constructor; [by apply IHk|]. apply Forall_app. by split; [|constructor].
Qed.
