(* ===== verification/Stake.v ===== *)
(** * Units of value and single stake entries

    Models data_structures/src/wit.rs ([Wit]), data_structures/src/capabilities.rs
    ([Capability], [CapabilityMap]), data_structures/src/staking/errors.rs,
    the key and policy types of data_structures/src/staking/helpers.rs, and the
    [Stake] entry of data_structures/src/staking/stake.rs.  Amounts of coins are
    nanowits ([u64]), epochs are [u32], nonces and powers are [u64], as in the
    [StakesTracker] instance that the node uses. *)

From S2P Require Import Prelude.
From stdpp Require Import base tactics numbers list gmap.
From Stdlib Require Import ZArith Lia.
Local Open Scope Z_scope.
Local Open Scope rust_scope.

(** ** wit.rs *)

Definition NANOWITS_PER_WIT : Z := 1000000000.
Definition WIT_DECIMAL_PLACES : Z := 9.

(** [Wit::from_wits]: the multiplication is checked and [expect]ed. *)
Definition from_wits (wits : Z) : result unit Z :=
  unwrap (checked_mul U64 wits NANOWITS_PER_WIT).

(** [Wit::wits_and_nanowits]. *)
Definition wits_and_nanowits (w : Z) : Z * Z :=
  (w / NANOWITS_PER_WIT, w mod NANOWITS_PER_WIT).

Definition wit_add (a b : Z) : Z := wadd U64 a b.
Definition wit_sub (a b : Z) : Z := wsub U64 a b.

(** [Mul<Epoch> for Wit]: coins times epochs give power. *)
Definition wit_mul_epoch (a e : Z) : Z := wmul U64 a e.

(** [Sum for Wit]. *)
Definition wit_sum (ws : list Z) : Z := foldl wit_add 0 ws.

(** [PrecisionLoss for u64] and for [Wit].  [10_u64.pow(digits)] is exact for
    the number of digits in use (9 in the tracker, 0 in tests). *)
Definition lose_precision (w digits : Z) : Z := w / 10 ^ digits.

(** ** capabilities.rs *)

Inductive Capability := Mining | Witnessing.
#[export] Instance Capability_eq_dec : EqDecision Capability.
Proof. solve_decision. Defined.

Definition ALL_CAPABILITIES : list Capability := [Mining; Witnessing].

Record CapabilityMap := { mining : Z; witnessing : Z }.

Definition cap_get (m : CapabilityMap) (c : Capability) : Z :=
  match c with Mining => mining m | Witnessing => witnessing m end.
Definition cap_update (m : CapabilityMap) (c : Capability) (v : Z) : CapabilityMap :=
  match c with
  | Mining => {| mining := v; witnessing := witnessing m |}
  | Witnessing => {| mining := mining m; witnessing := v |}
  end.
Definition cap_update_all (m : CapabilityMap) (v : Z) : CapabilityMap :=
  {| mining := v; witnessing := v |}.
Definition cap_default : CapabilityMap := {| mining := 0; witnessing := 0 |}.

(** ** staking/helpers.rs and staking/errors.rs *)

Record StakeKey (Address : Type) := MkKey { validator : Address; withdrawer : Address }.
Arguments MkKey {Address} validator withdrawer.
Arguments validator {Address} _.
Arguments withdrawer {Address} _.

Inductive NoncePolicy := SetFromEpoch (epoch : Z) | KeepAsIs.

Inductive StakesError (Address : Type) : Type :=
  | AmountIsBelowMinimum (amount minimum : Z)
  | EpochInThePast (epoch latest : Z)
  | EpochOverflow (computed maximum : Z)
  | EntryNotFound (key : StakeKey Address)
  | PoisonedLock
  | InvalidAuthentication
  | ValidatorNotFound (validator : Address)
  | WithdrawerNotFound (withdrawer : Address)
  | DifferentWithdrawer (validator : Address)
  | EmptyQuery.
Arguments AmountIsBelowMinimum {Address} amount minimum.
Arguments EpochInThePast {Address} epoch latest.
Arguments EpochOverflow {Address} computed maximum.
Arguments EntryNotFound {Address} key.
Arguments PoisonedLock {Address}.
Arguments InvalidAuthentication {Address}.
Arguments ValidatorNotFound {Address} validator.
Arguments WithdrawerNotFound {Address} withdrawer.
Arguments DifferentWithdrawer {Address} validator.
Arguments EmptyQuery {Address}.

(** ** staking/stake.rs *)

Record Stake := MkStake { coins : Z; epochs : CapabilityMap; nonce : Z }.

(** [Stake::default()]. *)
Definition stake_default : Stake :=
  {| coins := 0; epochs := cap_default; nonce := 0 |}.

(** The nonce update shared by staking and unstaking. *)
Definition apply_nonce (policy : NoncePolicy) (n : Z) : Z :=
  match policy with SetFromEpoch e => e | KeepAsIs => n end.

Section stake.
Context {Address : Type}.
(** The [const UNIT: u8] generic: decimal places dropped before computing
    power. *)
Context (UNIT : Z).

(** The body of the loop over the capabilities in [Stake::add_stake]. *)
Definition average_epoch (coins_before coins_added epoch_before epoch : Z) :
    result (StakesError Address) Z :=
  let product_before := wit_mul_epoch (lose_precision coins_before UNIT) epoch_before in
  let product_added := wit_mul_epoch (lose_precision coins_added UNIT) epoch in
  let divisor := lose_precision (wit_add coins_before coins_added) UNIT in
  if decide (divisor = 0) then Panic
  else Ok ((wadd U64 product_before product_added / divisor) mod U32).

Fixpoint average_epochs (caps : list Capability) (coins_before coins_added epoch : Z)
    (es : CapabilityMap) : result (StakesError Address) CapabilityMap :=
  match caps with
  | [] => Ok es
  | c :: caps =>
      let? e := average_epoch coins_before coins_added (cap_get es c) epoch in
      average_epochs caps coins_before coins_added epoch (cap_update es c e)
  end.

(** [Stake::add_stake]: the entry after the call (the returned coins are its
    [coins]). *)
Definition stake_add_stake (s : Stake) (added epoch : Z) (policy : NoncePolicy)
    (minimum_stakeable : Z) : result (StakesError Address) Stake :=
  if decide (added < minimum_stakeable)
  then Err (AmountIsBelowMinimum added minimum_stakeable)
  else
    let? es := average_epochs ALL_CAPABILITIES (coins s) added epoch (epochs s) in
    Ok {| coins := wit_add (coins s) added;
          epochs := es;
          nonce := apply_nonce policy (nonce s) |}.

(** [Stake::power]. *)
Definition power (s : Stake) (c : Capability) (current_epoch : Z) : Z :=
  wit_mul_epoch (lose_precision (coins s) UNIT)
    (sat_sub current_epoch (cap_get (epochs s) c)).

(** [Stake::remove_stake]. *)
Definition stake_remove_stake (s : Stake) (removed : Z) (policy : NoncePolicy)
    (minimum_stakeable : Z) : result (StakesError Address) Stake :=
  let coins_after := wit_sub (coins s) removed in
  if decide (coins_after > 0 ∧ coins_after < minimum_stakeable)
  then Err (AmountIsBelowMinimum coins_after minimum_stakeable)
  else Ok {| coins := coins_after;
             epochs := epochs s;
             nonce := apply_nonce policy (nonce s) |}.

(** [Stake::reset_age]. *)
Definition stake_reset_age (s : Stake) (c : Capability) (reset_epoch : Z) : Stake :=
  {| coins := coins s; epochs := cap_update (epochs s) c reset_epoch; nonce := nonce s |}.
End stake.

(** [totalize_stakes]. *)
Definition totalize_stakes (ss : list Stake) : Z :=
  foldl (λ a b, wit_add a (coins b)) 0 ss.

(** ** Theorems *)

(** A stake entry whose fields are values of their Rust types. *)
Definition stake_typed (s : Stake) : Prop :=
  fits U64 (coins s) ∧ (∀ c, fits U32 (cap_get (epochs s) c)).

Lemma cap_get_update m c v c' :
  cap_get (cap_update m c v) c' = if decide (c = c') then v else cap_get m c'.
Proof. by destruct c, c'. Qed.

Section stake_facts.
Context {Address : Type} (UNIT : Z).
Hypothesis HUNIT : 0 ≤ UNIT.
Abbreviation lp w := (lose_precision w UNIT).

Lemma pow10_pos : 0 < 10 ^ UNIT.
Proof using HUNIT. apply Z.pow_pos_nonneg; lia. Qed.

Lemma lp_nonneg w : 0 ≤ w → 0 ≤ lp w.
Proof using HUNIT. intros. pose proof pow10_pos. by apply Z.div_pos. Qed.
Lemma lp_mono v w : v ≤ w → lp v ≤ lp w.
Proof using HUNIT. intros. pose proof pow10_pos. by apply Z.div_le_mono. Qed.
Lemma lp_whole w : lp (w * 10 ^ UNIT) = w.
Proof using HUNIT. pose proof pow10_pos. unfold lose_precision. apply Z.div_mul; lia. Qed.
Lemma lp_superadd v w : lp v + lp w ≤ lp (v + w) ≤ lp v + lp w + 1.
Proof using HUNIT.
  pose proof pow10_pos. unfold lose_precision. set (p := 10 ^ UNIT) in *.
  pose proof (Z.div_mod v p ltac:(lia)). pose proof (Z.div_mod w p ltac:(lia)).
  pose proof (Z.mod_pos_bound v p ltac:(lia)). pose proof (Z.mod_pos_bound w p ltac:(lia)).
  split; [apply Z.div_le_lower_bound; nia|].
  enough (((v + w) / p) < v / p + w / p + 2) by lia.
  apply Z.div_lt_upper_bound; nia.
Qed.

(** Products of whole units below [2^32] and epochs never wrap. *)
Lemma wit_mul_epoch_exact a e : fits U32 a → fits U32 e → wit_mul_epoch a e = a * e.
Proof. intros [] []. unfold wit_mul_epoch. apply wmul_small. unfold_moduli. nia. Qed.

(** The averaged epoch, without the wrap-around and truncation of the code. *)
Lemma average_epoch_exact cb ca eb e :
  0 ≤ cb → 0 ≤ ca → cb + ca < U64 → fits U32 (lp (cb + ca)) → 0 < lp (cb + ca) →
  fits U32 eb → fits U32 e →
  average_epoch (Address:=Address) UNIT cb ca eb e
    = Ok ((lp cb * eb + lp ca * e) / lp (cb + ca))
  ∧ 0 ≤ (lp cb * eb + lp ca * e) / lp (cb + ca) ≤ Z.max eb e.
Proof using HUNIT.
  intros Hcb Hca Hsum Hlp Hpos Heb He. unfold average_epoch, wit_add.
  pose proof (lp_superadd cb ca). pose proof (lp_nonneg cb Hcb). pose proof (lp_nonneg ca Hca).
  rewrite wadd_small by lia. rewrite decide_False by lia.
  rewrite !wit_mul_epoch_exact by machine.
  assert (0 ≤ lp cb * eb + lp ca * e ≤ lp (cb + ca) * Z.max eb e) as Hprod.
  { unfold fits in *. split; [nia|]. transitivity ((lp cb + lp ca) * Z.max eb e); nia. }
  assert (0 ≤ (lp cb * eb + lp ca * e) / lp (cb + ca) ≤ Z.max eb e) as Hq.
  { split; [apply Z.div_pos; lia|]. apply Z.div_le_upper_bound; lia. }
  rewrite wadd_small by (split; [lia|]; unfold fits in *; unfold_moduli; nia).
  rewrite Z.mod_small by machine. done.
Qed.

(** [Stake::add_stake] on an entry below [2^32] units: it succeeds, adds the
    amounts and moves every epoch to the weighted average. *)
Lemma stake_add_stake_exact s added epoch policy minimum :
  stake_typed s → minimum ≤ added → 0 ≤ added → coins s + added < U64 →
  fits U32 (lp (coins s + added)) → 0 < lp (coins s + added) → fits U32 epoch →
  ∃ s', stake_add_stake (Address:=Address) UNIT s added epoch policy minimum = Ok s'
    ∧ coins s' = coins s + added
    ∧ nonce s' = apply_nonce policy (nonce s)
    ∧ (∀ c, cap_get (epochs s') c
            = (lp (coins s) * cap_get (epochs s) c + lp added * epoch) / lp (coins s + added))
    ∧ stake_typed s'.
Proof using HUNIT.
  intros [[] Hep] Hmin Hadd Hsum Hlp Hpos He. unfold stake_add_stake.
  rewrite decide_False by lia.
  destruct (average_epoch_exact (coins s) added (cap_get (epochs s) Mining) epoch)
    as [Em [Hm1 Hm2]]; try done.
  destruct (average_epoch_exact (coins s) added (cap_get (epochs s) Witnessing) epoch)
    as [Ew [Hw1 Hw2]]; try done.
  eexists. split; [|split; [|split; [|split]]].
  - cbn [ALL_CAPABILITIES average_epochs]. rewrite Em. cbn [rbind].
    change (cap_get (cap_update (epochs s) Mining ?x) Witnessing)
      with (cap_get (epochs s) Witnessing).
    rewrite Ew. reflexivity.
  - simpl. unfold wit_add. apply wadd_small. lia.
  - reflexivity.
  - by intros [].
  - pose proof (Hep Mining). pose proof (Hep Witnessing).
    split; simpl; [apply wadd_fits; reflexivity|]. intros []; simpl in *; machine.
Qed.

Lemma power_exact s c t :
  fits U32 (lp (coins s)) → fits U32 (cap_get (epochs s) c) → fits U32 t →
  power UNIT s c t = lp (coins s) * Z.max 0 (t - cap_get (epochs s) c).
Proof. intros. unfold power, sat_sub. apply wit_mul_epoch_exact; machine. Qed.
End stake_facts.

(** power accounting.  Adding a whole number of units to an entry that holds
    a whole number of units keeps, up to the rounding of one division, the
    power that the two deposits would have separately: the merged power is
    never lower, and exceeds the sum by less than the units staked.  This is
    the sense in which an averaged entry replaces the record of all deposits. *)
Theorem add_stake_preserves_power {Address} UNIT s a b epoch policy minimum c t :
  0 ≤ UNIT → stake_typed s → coins s = a * 10 ^ UNIT → 0 ≤ a → 0 ≤ b → 0 < a + b < U32 →
  (a + b) * 10 ^ UNIT < U64 → minimum ≤ b * 10 ^ UNIT → fits U32 epoch → fits U32 t →
  cap_get (epochs s) c ≤ t → epoch ≤ t →
  ∃ s', stake_add_stake (Address:=Address) UNIT s (b * 10 ^ UNIT) epoch policy minimum = Ok s'
    ∧ let separate := power UNIT s c t + b * (t - epoch) in
      separate ≤ power UNIT s' c t < separate + (a + b).
Proof.
  intros HU Hs Hc Ha Hb Hab Hmax Hmin He Ht Hec Het.
  pose proof (pow10_pos UNIT HU) as Hp.
  assert (coins s + b * 10 ^ UNIT = (a + b) * 10 ^ UNIT) as Hsum by lia.
  assert (lose_precision (coins s + b * 10 ^ UNIT) UNIT = a + b) as Hlp
    by (rewrite Hsum; by apply lp_whole).
  destruct (stake_add_stake_exact (Address:=Address) UNIT HU s (b * 10 ^ UNIT) epoch policy minimum)
    as (s' & Hadd & Hc' & _ & He' & Hs'); try done; try (rewrite ?Hlp; unfold fits; nia).
  exists s'. split; [done|]. cbn zeta.
  assert (lose_precision (coins s') UNIT = a + b) as Hlp' by (rewrite Hc'; done).
  assert (lose_precision (coins s) UNIT = a) as Hlpa by (rewrite Hc; by apply lp_whole).
  destruct Hs as [_ Hse]. destruct Hs' as [_ Hse'].
  rewrite !power_exact by (rewrite ?Hlp', ?Hlpa; unfold fits in *; auto; lia).
  rewrite Hlp', Hlpa. specialize (He' c).
  rewrite Hlpa, lp_whole, Hlp in He' by done.
  set (e0 := cap_get (epochs s) c) in *. set (e1 := cap_get (epochs s') c) in *.
  pose proof (Z.div_mod (a * e0 + b * epoch) (a + b) ltac:(lia)) as Hdm.
  pose proof (Z.mod_pos_bound (a * e0 + b * epoch) (a + b) ltac:(lia)) as Hmb.
  rewrite <-He' in Hdm.
  assert (e1 ≤ t) by nia.
  rewrite !Z.max_r by lia. nia.
Qed.

Lemma add_stake_preserves_power_witness :
  ∃ s', stake_add_stake (Address:=Z) 9 (MkStake 10000000000000 {| mining := 100; witnessing := 100 |} 100)
      (20000 * 10 ^ 9) 400 (SetFromEpoch 400) 10000000000000 = Ok s'
    ∧ let separate := power 9 (MkStake 10000000000000 {| mining := 100; witnessing := 100 |} 100) Mining 500
                      + 20000 * (500 - 400) in
      separate ≤ power 9 s' Mining 500 < separate + (10000 + 20000).
Proof.
  apply (add_stake_preserves_power 9 _ 10000 20000); try done; try (unfold fits; simpl; lia).
  split; [done|]. by intros [].
Defined.

(** The entry of a validator that stakes 10000.5 coins and then 50.5 coins at
    the same epoch [3000000], at which neither deposit has any age. *)
Definition drift_before : Stake :=
  MkStake 10000500000000 {| mining := 3000000; witnessing := 3000000 |} 0.

(** precision loss.  With fractional amounts the divisor can exceed the sum
    of the weights, so the average falls before both epochs: a validator whose
    two deposits have zero age at epoch [3000000] gets the power of 299 epochs
    of age.  The averaging is then not equivalent to the record of deposits. *)
Theorem add_stake_fractional_drift :
  power 9 drift_before Mining 3000000 = 0
  ∧ ∃ s', stake_add_stake (Address:=Z) 9 drift_before 50500000000 3000000 KeepAsIs 0 = Ok s'
      ∧ mining (epochs s') = 2999701
      ∧ power 9 s' Mining 3000000 = 10051 * 299.
Proof. split; [reflexivity|]. eexists. split; [reflexivity|]. split; reflexivity. Qed.
