(* ===== verification/Stakes.v ===== *)
(** * The stakes tracker

    Models data_structures/src/staking/stakes.rs ([Stakes], [index_addresses],
    the processing of stake and unstake transactions) and the shared entries of
    data_structures/src/staking/helpers.rs ([StakeEntry], [SyncStakeEntry],
    [CensusStrategy]).

    The three indexes of the Rust structure hold reference-counted, locked
    entries ([Rc<RwLock<..>>]), so a write through one index is seen through
    the others.  The model keeps that sharing: an entry is a location of a
    store, and the indexes hold locations.  [by_key], [by_validator] and
    [by_withdrawer] are [BTreeMap]s; their iteration order is
    [btree_entries]. *)

From S2P Require Import Prelude Stake.
From stdpp Require Import base tactics numbers list sorting gmap.
From Stdlib Require Import ZArith Lia.
Local Open Scope Z_scope.
Local Open Scope rust_scope.

#[export] Instance StakeKey_eq_dec `{EqDecision A} : EqDecision (StakeKey A).
Proof. solve_decision. Defined.
#[export] Instance StakeKey_countable `{Countable A} : Countable (StakeKey A).
Proof.
  refine (inj_countable' (λ k, (validator k, withdrawer k)) (λ p, MkKey p.1 p.2) _).
  by intros [].
Defined.

(** The derived [Ord] of [StakeKey]: validator first, then withdrawer. *)
Section key_order.
Context `{EqDecision A, !OrdType A}.
Definition stake_key_le (x y : StakeKey A) : Prop :=
  (validator x ≠ validator y ∧ ole (validator x) (validator y))
  ∨ (validator x = validator y ∧ ole (withdrawer x) (withdrawer y)).
#[export] Instance stake_key_le_dec : RelDecision stake_key_le.
Proof. intros x y. unfold stake_key_le. apply _. Defined.
#[export] Instance stake_key_le_po : PartialOrder stake_key_le.
Proof.
  split; [split|].
  - intros [v w]. right. by split.
  - intros [v1 w1] [v2 w2] [v3 w3] [[N1 L1]|[E1 L1]] [[N2 L2]|[E2 L2]]; simpl in *; subst.
    + left. split; simpl; [|by etrans]. intros ->. apply N1. by apply (anti_symm ole).
    + by left.
    + by left.
    + right. split; [done|]. by etrans.
  - intros [v1 w1] [v2 w2] [[N1 L1]|[E1 L1]] [[N2 L2]|[E2 L2]]; simpl in *; subst; try done.
    + destruct N1. by apply (anti_symm ole).
    + f_equal. by apply (anti_symm ole).
Qed.
#[export] Instance stake_key_le_total : Total stake_key_le.
Proof.
  intros [v1 w1] [v2 w2]. destruct (decide (v1 = v2)) as [->|N].
  - destruct (total ole w1 w2); [left|right]; right; by split.
  - destruct (total ole v1 v2); [left|right]; left; by split.
Qed.
#[export] Instance stake_key_ord : OrdType (StakeKey A) := {| ole := stake_key_le |}.
End key_order.

(** ** State *)

Section stakes.
Context `{Countable Address, !OrdType Address}.
Context (UNIT : Z).

Record StakeEntry := MkEntry { ekey : StakeKey Address; evalue : Stake }.

(** [SyncStakeEntry]: a pair of shared cells, here one location. *)
Definition SyncStakeEntry := nat.

Record Stakes := MkStakes {
  store : gmap nat StakeEntry;         (* the cells behind the [Rc]s *)
  fresh_loc : nat;                      (* the next cell to allocate *)
  by_key : gmap (StakeKey Address) nat;
  by_validator : gmap Address (list nat);
  by_withdrawer : gmap Address (list nat);
}.

Definition stakes_default : Stakes := MkStakes ∅ 0 ∅ ∅ ∅.

(** [SyncStakeEntry::read_entry], [read_key] and [read_value].  A location
    held by an index always has a cell ([wf_cell] below); Rust has no
    reference to a missing one. *)
Definition read_entry (st : Stakes) (l : nat) : option StakeEntry := store st !! l.
Definition read_value (st : Stakes) (l : nat) : Stake :=
  default stake_default (evalue <$> store st !! l).
Definition read_entries (st : Stakes) (ls : list nat) : list StakeEntry :=
  omap (read_entry st) ls.

(** [PartialEq for SyncStakeEntry]: the epochs and nonces compared are both
    those of the other entry, as in the code. *)
Definition sync_entry_eqb (a b : Stake) : bool :=
  bool_decide (coins a = coins b)
  && (bool_decide (mining (epochs b) = mining (epochs b))
      && bool_decide (witnessing (epochs b) = witnessing (epochs b)))
  && bool_decide (nonce b = nonce b).

(** A write through [value.write()]: seen by every index holding [l]. *)
Definition write_value (st : Stakes) (l : nat) (v : Stake) : Stakes :=
  MkStakes (alter (λ e, MkEntry (ekey e) v) l (store st)) (fresh_loc st)
    (by_key st) (by_validator st) (by_withdrawer st).

(** [SyncStakeEntry::from(StakeEntry)] put into [by_key]. *)
Definition alloc_entry (st : Stakes) (k : StakeKey Address) (v : Stake) : Stakes :=
  MkStakes (<[fresh_loc st := MkEntry k v]> (store st)) (S (fresh_loc st))
    (<[k := fresh_loc st]> (by_key st)) (by_validator st) (by_withdrawer st).

(** ** Indexing *)

(** One half of [index_addresses]: push to the vector of [a], or insert a
    vector with one element. *)
Definition index_push (idx : gmap Address (list nat)) (a : Address) (l : nat) :
    gmap Address (list nat) :=
  match idx !! a with
  | Some ls => <[a := ls ++ [l]]> idx
  | None => <[a := [l]]> idx
  end.

Definition index_addresses (bv bw : gmap Address (list nat)) (key : StakeKey Address)
    (l : nat) : gmap Address (list nat) * gmap Address (list nat) :=
  (index_push bv (validator key) l, index_push bw (withdrawer key) l).

Definition with_indexes (st : Stakes)
    (ix : gmap Address (list nat) * gmap Address (list nat)) : Stakes :=
  MkStakes (store st) (fresh_loc st) (by_key st) ix.1 ix.2.

(** [Stakes::reindex] and [Stakes::with_entries]. *)
Definition reindex (st : Stakes) : Stakes :=
  with_indexes st
    (foldl (λ ix kl, index_addresses ix.1 ix.2 kl.1 kl.2) (∅, ∅)
       (btree_entries (by_key st))).
Definition with_entries (cells : gmap nat StakeEntry) (next : nat)
    (entries : gmap (StakeKey Address) nat) : Stakes :=
  reindex (MkStakes cells next entries ∅ ∅).

(** [Clone for Stakes]: fresh cells for every entry of [by_key], whose key
    cell is the index key, then [reindex]. *)
Definition stakes_clone (st : Stakes) : Stakes :=
  reindex (foldl (λ acc kl, alloc_entry acc kl.1 (read_value st kl.2))
             stakes_default (btree_entries (by_key st))).

(** ** Staking and unstaking *)

Definition nonce_policy (set_nonce : bool) (epoch : Z) : NoncePolicy :=
  if set_nonce then SetFromEpoch epoch else KeepAsIs.

(** [self.by_key.entry(key).or_insert(..)]. *)
Definition find_or_insert (st : Stakes) (key : StakeKey Address) (epoch : Z) :
    Stakes * nat :=
  match by_key st !! key with
  | Some l => (st, l)
  | None => (alloc_entry st key (MkStake 0 cap_default epoch), fresh_loc st)
  end.

(** [Stakes::add_stake].  When the inner call fails the [?] returns early,
    after the entry was inserted into [by_key] and before it is indexed. *)
Definition add_stake (st : Stakes) (key : StakeKey Address) (added epoch : Z)
    (set_nonce : bool) (minimum_stakeable : Z) :
    exec Stakes (StakesError Address) Stake :=
  let stake_found := bool_decide (is_Some (by_key st !! key)) in
  let '(st1, l) := find_or_insert st key epoch in
  match stake_add_stake UNIT (read_value st1 l) added epoch
          (nonce_policy set_nonce epoch) minimum_stakeable with
  | Panic => Crash
  | Err e => Fail st1 e
  | Ok v =>
      let st2 := write_value st1 l v in
      let st3 := if stake_found then st2
                 else with_indexes st2
                        (index_addresses (by_validator st2) (by_withdrawer st2) key l) in
      Ret st3 v
  end.

(** [stakes.remove(stakes.iter().position(|s| coins == 0).unwrap())]. *)
Fixpoint remove_first_zero (st : Stakes) (ls : list nat) : option (list nat) :=
  match ls with
  | [] => None
  | l :: ls =>
      if decide (coins (read_value st l) = 0) then Some ls
      else cons l <$> remove_first_zero st ls
  end.

(** The removal of a zeroed entry from one index; [None] is the panic of
    [unwrap]. *)
Definition index_remove_zero (st : Stakes) (idx : gmap Address (list nat)) (a : Address) :
    option (gmap Address (list nat)) :=
  match idx !! a with
  | None => Some idx
  | Some ls =>
      match remove_first_zero st ls with
      | None => None
      | Some [] => Some (delete a idx)
      | Some ls' => Some (<[a := ls']> idx)
      end
  end.

(** [Stakes::remove_stake]. *)
Definition remove_stake (st : Stakes) (key : StakeKey Address) (removed epoch : Z)
    (set_nonce : bool) (minimum_stakeable : Z) :
    exec Stakes (StakesError Address) Z :=
  match by_key st !! key with
  | None => Fail st (EntryNotFound key)
  | Some l =>
      match stake_remove_stake (read_value st l) removed
              (nonce_policy set_nonce epoch) minimum_stakeable with
      | Panic => Crash
      | Err e => Fail st e
      | Ok v =>
          let st1 := write_value st l v in
          if decide (coins v = 0) then
            match index_remove_zero st1 (by_validator st1) (validator key) with
            | None => Crash
            | Some bv =>
                match index_remove_zero st1 (by_withdrawer st1) (withdrawer key) with
                | None => Crash
                | Some bw =>
                    Ret (MkStakes (store st1) (fresh_loc st1)
                           (delete key (by_key st1)) bv bw) (coins v)
                end
            end
          else Ret st1 (coins v)
      end
  end.

(** ** Queries *)

Definition stakes_count (st : Stakes) : nat := size (by_key st).
Definition validator_count (st : Stakes) : nat := size (by_validator st).

(** The comparison of [by_rank]: by power, ties by validator, then by
    withdrawer. *)
Definition rank_le (x y : StakeKey Address * Z) : Prop :=
  if decide (x.2 = y.2) then stake_key_le x.1 y.1 else x.2 ≤ y.2.
#[export] Instance rank_le_dec : RelDecision rank_le.
Proof. intros x y. unfold rank_le. destruct (decide (x.2 = y.2)); apply _. Defined.

Definition by_rank (st : Stakes) (c : Capability) (current_epoch : Z) :
    list (StakeKey Address * Z) :=
  reverse (merge_sort rank_le
    ((λ kl, (kl.1, power UNIT (read_value st kl.2) c current_epoch))
       <$> btree_entries (by_key st))).

Inductive CensusStrategy := All | StepBy (n : nat) | Take (n : nat) | Evenly (n : nat).

(** [Iterator::step_by]: the first element and then every [step]-th; it
    asserts that the step is not zero. *)
Fixpoint every {A} (skip step : nat) (l : list A) : list A :=
  match l with
  | [] => []
  | x :: l => match skip with
              | O => x :: every (step - 1) step l
              | S skip => every skip step l
              end
  end.
Definition step_by {A} (step : nat) (l : list A) : result unit (list A) :=
  if decide (step = O) then Panic else Ok (every 0 step l).

Definition census (st : Stakes) (c : Capability) (epoch : Z) (strategy : CensusStrategy) :
    result unit (list (StakeKey Address)) :=
  let iterator := (by_rank st c epoch).*1 in
  match strategy with
  | All => Ok iterator
  | StepBy step => step_by step iterator
  | Take head => Ok (take head iterator)
  | Evenly count =>
      if decide (count = O) then Panic (* division by zero *)
      else let? l := step_by (length iterator / count)%nat iterator in
           Ok (take count l)
  end.

Definition zmax (l : list Z) : Z := foldr Z.max 0 l.

Definition query_power (st : Stakes) (v : Address) (c : Capability) (epoch : Z) :
    result (StakesError Address) Z :=
  let? ls := ok_or (by_validator st !! v) (ValidatorNotFound v) in
  Ok (zmax ((λ l, power UNIT (read_value st l) c epoch) <$> ls)).

Definition query_nonce (st : Stakes) (key : StakeKey Address) :
    result (StakesError Address) Z :=
  let? l := ok_or (by_key st !! key) (EntryNotFound key) in
  Ok (nonce (read_value st l)).

Inductive QueryStakesKey :=
  | QValidator (v : Address) | QWithdrawer (w : Address) | QKey (k : StakeKey Address) | QAll.

(** [TryFrom<(Option<T>, Option<T>)> for QueryStakesKey]. *)
Definition query_try_from (v w : option Address) : option QueryStakesKey :=
  match v, w with
  | Some v, Some w => Some (QKey (MkKey v w))
  | Some v, None => Some (QValidator v)
  | None, Some w => Some (QWithdrawer w)
  | None, None => None
  end.

Definition query_by_key (st : Stakes) (k : StakeKey Address) :
    result (StakesError Address) (list StakeEntry) :=
  let? l := ok_or (by_key st !! k) (EntryNotFound k) in Ok (read_entries st [l]).
Definition query_by_validator (st : Stakes) (v : Address) :
    result (StakesError Address) (list StakeEntry) :=
  let? ls := ok_or (by_validator st !! v) (ValidatorNotFound v) in Ok (read_entries st ls).
Definition query_by_withdrawer (st : Stakes) (w : Address) :
    result (StakesError Address) (list StakeEntry) :=
  let? ls := ok_or (by_withdrawer st !! w) (WithdrawerNotFound w) in Ok (read_entries st ls).
Definition query_all (st : Stakes) : result (StakesError Address) (list StakeEntry) :=
  Ok (read_entries st (btree_entries (by_key st)).*2).

Definition query_stakes (st : Stakes) (q : option QueryStakesKey) :
    result (StakesError Address) (list StakeEntry) :=
  match q with
  | Some (QKey k) => query_by_key st k
  | Some (QValidator v) => query_by_validator st v
  | Some (QWithdrawer w) => query_by_withdrawer st w
  | Some QAll => query_all st
  | None => Err EmptyQuery
  end.

Definition query_total_stake (st : Stakes) (q : option QueryStakesKey) :
    result (StakesError Address) Z :=
  let? es := query_stakes st q in Ok (totalize_stakes (evalue <$> es)).

Definition total_staked (st : Stakes) : Z :=
  wit_sum ((λ kl, coins (read_value st kl.2)) <$> btree_entries (by_key st)).

Definition check_validator_withdrawer (st : Stakes) (v w : Address) :
    result (StakesError Address) unit :=
  match by_validator st !! v with
  | None => Ok tt
  | Some _ =>
      match by_key st !! MkKey v w with
      | Some _ => Ok tt
      | None => Err (DifferentWithdrawer v)
      end
  end.

(** ** Age resets, rewards and collateral *)

(** The loop of [reset_mining_age] over the stakers, with the index [i]. *)
Fixpoint reset_mining_loop (st : Stakes) (winner_rank i : nat) (current_epoch : Z)
    (stakers : list (StakeKey Address)) : Stakes :=
  match stakers with
  | [] => st
  | k :: stakers =>
      let st1 :=
        match by_key st !! k with
        | None => st
        | Some l =>
            let penalty_epochs := Z.of_nat (1 + winner_rank - i) in
            write_value st l
              (stake_reset_age (read_value st l) Mining (wadd U32 current_epoch penalty_epochs))
        end in
      reset_mining_loop st1 winner_rank (S i) current_epoch stakers
  end.

(** [Iterator::position] of the first entry of validator [v]. *)
Definition rank_position (v : Address) (l : list (StakeKey Address * Z)) : option nat :=
  fst <$> list_find (λ kp, validator kp.1 = v) l.

Definition reset_mining_age (st : Stakes) (v : Address) (current_epoch : Z) : Stakes :=
  let ranking := by_rank st Mining current_epoch in
  match rank_position v ranking with
  | None => st
  | Some winner_rank =>
      reset_mining_loop st winner_rank 0 current_epoch (take (winner_rank + 1) ranking).*1
  end.

(** [Stakes::reset_age]; the division by [reset_factor] panics on zero. *)
Definition reset_age (st : Stakes) (v : Address) (c : Capability)
    (current_epoch reset_factor : Z) : exec Stakes (StakesError Address) unit :=
  match by_validator st !! v with
  | None => Fail st (ValidatorNotFound v)
  | Some ls =>
      if decide (reset_factor = 0 ∧ ls ≠ []) then Crash
      else Ret (foldl (λ st l,
             let s := read_value st l in
             let old_epoch := cap_get (epochs s) c in
             let update_epoch := wsub U32 current_epoch old_epoch / reset_factor in
             write_value st l (stake_reset_age s c (wadd U32 old_epoch update_epoch)))
           st ls) tt
  end.

(** [Stakes::add_reward]: the result of the inner call is discarded. *)
Definition add_reward (st : Stakes) (v : Address) (reward current_epoch : Z) :
    exec Stakes (StakesError Address) unit :=
  match by_validator st !! v with
  | None => Fail st (ValidatorNotFound v)
  | Some [] => Crash
  | Some (l :: _) =>
      match stake_add_stake (Address:=Address) UNIT (read_value st l) reward current_epoch
              KeepAsIs 0 with
      | Ok s => Ret (write_value st l s) tt
      | Err _ => Ret st tt
      | Panic => Crash
      end
  end.

(** [Stakes::reserve_collateral]: likewise. *)
Definition reserve_collateral (st : Stakes) (v : Address) (amount minimum_stakeable : Z) :
    exec Stakes (StakesError Address) unit :=
  match by_validator st !! v with
  | None => Fail st (ValidatorNotFound v)
  | Some [] => Crash
  | Some (l :: _) =>
      match stake_remove_stake (Address:=Address) (read_value st l) amount KeepAsIs
              minimum_stakeable with
      | Ok s => Ret (write_value st l s) tt
      | Err _ => Ret st tt
      | Panic => Crash
      end
  end.

(** ** Stake and unstake transactions *)

(** The fields of [StakeTransaction] and [UnstakeTransaction] that matter to
    the tracker. *)
Record StakeTransaction := { st_key : StakeKey Address; st_value : Z }.
Record UnstakeTransaction := {
  ut_operator : Address; ut_withdrawal_pkh : Address;
  ut_withdrawal_value : Z; ut_fee : Z }.

Definition process_stake_transaction (st : Stakes) (tx : StakeTransaction)
    (epoch minimum_stakeable : Z) : exec Stakes (StakesError Address) unit :=
  let! (st', _) := add_stake st (st_key tx) (st_value tx) epoch true minimum_stakeable in
  Ret st' tt.

Definition process_unstake_transaction (st : Stakes) (tx : UnstakeTransaction)
    (epoch minimum_stakeable : Z) : exec Stakes (StakesError Address) unit :=
  let key := MkKey (ut_operator tx) (ut_withdrawal_pkh tx) in
  let amount := wadd U64 (ut_withdrawal_value tx) (ut_fee tx) in
  let! (st', _) := remove_stake st key amount epoch true minimum_stakeable in
  Ret st' tt.

Fixpoint process_stake_transactions (st : Stakes) (txs : list StakeTransaction)
    (epoch minimum_stakeable : Z) : exec Stakes (StakesError Address) unit :=
  match txs with
  | [] => Ret st tt
  | tx :: txs =>
      let! (st', _) := process_stake_transaction st tx epoch minimum_stakeable in
      process_stake_transactions st' txs epoch minimum_stakeable
  end.

Fixpoint process_unstake_transactions (st : Stakes) (txs : list UnstakeTransaction)
    (epoch minimum_stakeable : Z) : exec Stakes (StakesError Address) unit :=
  match txs with
  | [] => Ret st tt
  | tx :: txs =>
      let! (st', _) := process_unstake_transaction st tx epoch minimum_stakeable in
      process_unstake_transactions st' txs epoch minimum_stakeable
  end.
End stakes.
