(* ===== verification/StakesCorrect.v ===== *)
(** * Correctness of the stakes tracker

    The abstract specification of the tracker is a finite map from stake keys
    to stake entries ([view]).  This file states the invariant of the indexes
    ([wf]), shows that the operations of Stakes.v preserve it and implement the
    updates and queries of the map, and studies the paths on which they do
    not. *)

From S2P Require Import Prelude Stake Stakes.
From stdpp Require Import base tactics numbers list sorting gmap.
From Stdlib Require Import ZArith Lia.
Local Open Scope Z_scope.

Section correct.
Context `{Countable Address, !OrdType Address}.
Context (UNIT : Z).
Abbreviation Stakes := (Stakes (Address:=Address)).
Implicit Types st : Stakes.

(** ** Abstraction and invariant *)

(** The stake entry of every key. *)
Definition view st : gmap (StakeKey Address) Stake :=
  omap (λ l, evalue <$> store st !! l) (by_key st).

(** What an index holds for address [a]: nothing when no key selects [a],
    and otherwise exactly the cells of those keys, once each. *)
Definition slot_ok (sel : StakeKey Address → Address) (bk : gmap (StakeKey Address) nat)
    (a : Address) (slot : option (list nat)) : Prop :=
  match slot with
  | None => ∀ k l, bk !! k = Some l → sel k ≠ a
  | Some ls => ls ≠ [] ∧ NoDup ls ∧ ∀ l, l ∈ ls ↔ ∃ k, bk !! k = Some l ∧ sel k = a
  end.
Definition index_ok (sel : StakeKey Address → Address)
    (bk : gmap (StakeKey Address) nat) (idx : gmap Address (list nat)) : Prop :=
  ∀ a, slot_ok sel bk a (idx !! a).

Record wf st : Prop := {
  wf_cell : ∀ k l, by_key st !! k = Some l →
            ∃ e, store st !! l = Some e ∧ ekey e = k;
  wf_fresh : ∀ l, is_Some (store st !! l) → (l < fresh_loc st)%nat;
  wf_validator : index_ok validator (by_key st) (by_validator st);
  wf_withdrawer : index_ok withdrawer (by_key st) (by_withdrawer st);
}.

(** No entry has run out of coins. *)
Definition positive st : Prop := ∀ k s, view st !! k = Some s → 0 < coins s < U64.

Lemma wf_inj st k1 k2 l : wf st → by_key st !! k1 = Some l → by_key st !! k2 = Some l → k1 = k2.
Proof. intros Hwf (e1 & ? & <-)%(wf_cell st Hwf) (e2 & ? & <-)%(wf_cell st Hwf). congruence. Qed.

Lemma view_lookup st k l : wf st → by_key st !! k = Some l →
  view st !! k = Some (read_value st l).
Proof.
  intros Hwf Hk. destruct (wf_cell st Hwf k l Hk) as (e & He & _).
  unfold view, read_value. rewrite lookup_omap, Hk. simpl. by rewrite He.
Qed.
Lemma view_lookup_None st k : by_key st !! k = None → view st !! k = None.
Proof. intros Hk. unfold view. by rewrite lookup_omap, Hk. Qed.
Lemma view_lookup_Some st k s : wf st → view st !! k = Some s →
  ∃ l, by_key st !! k = Some l ∧ read_value st l = s.
Proof.
  intros Hwf Hv. destruct (by_key st !! k) as [l|] eqn:Hk.
  - exists l. split; [done|]. rewrite (view_lookup st k l Hwf Hk) in Hv. congruence.
  - by rewrite view_lookup_None in Hv.
Qed.

Lemma wf_default : wf stakes_default.
Proof. split; simpl; try by intros ?. all: by intros ? [? ?]%lookup_empty_is_Some || by intros a; rewrite lookup_empty. Qed.

(** ** Writes to a cell *)

Lemma lookup_write st l v l' e :
  store (write_value st l v) !! l' = Some e ↔
  ∃ e0, store st !! l' = Some e0 ∧ ekey e = ekey e0
        ∧ evalue e = (if decide (l' = l) then v else evalue e0).
Proof.
  unfold write_value; simpl. destruct (decide (l' = l)) as [->|Hne].
  - rewrite lookup_alter_eq. destruct (store st !! l) as [e0|]; simpl; split.
    + intros [= <-]. eexists. done.
    + intros (e1 & [= <-] & ? & ?). destruct e; simpl in *. congruence.
    + done.
    + by intros (? & ? & _).
  - rewrite lookup_alter_ne by done. split.
    + intros ->. by exists e.
    + intros (e0 & -> & ? & ?). destruct e, e0; simpl in *. congruence.
Qed.

Lemma read_write st l v l' : is_Some (store st !! l') →
  read_value (write_value st l v) l' = if decide (l' = l) then v else read_value st l'.
Proof.
  intros [e He]. unfold read_value, write_value; simpl.
  destruct (decide (l' = l)) as [->|Hne].
  - by rewrite lookup_alter_eq, He.
  - by rewrite lookup_alter_ne.
Qed.

Lemma wf_write st l v : wf st → wf (write_value st l v).
Proof.
  intros Hwf. split; simpl; [| |apply Hwf|apply Hwf].
  - intros k l' Hk. destruct (wf_cell st Hwf k l' Hk) as (e & He & <-).
    eexists (MkEntry (ekey e) (if decide (l' = l) then v else evalue e)).
    split; [|done]. apply lookup_write. eauto.
  - intros l' [e (e0 & He & _)%lookup_write]. apply (wf_fresh st Hwf). by exists e0.
Qed.

Lemma view_write st k l v : wf st → by_key st !! k = Some l →
  view (write_value st l v) = <[k := v]> (view st).
Proof.
  intros Hwf Hk. apply map_eq. intros k'. rewrite lookup_insert.
  destruct (by_key st !! k') as [l'|] eqn:Hk'.
  - rewrite (view_lookup (write_value st l v) k' l') by (by apply wf_write || done).
    destruct (wf_cell st Hwf k' l' Hk') as (e & He & _).
    rewrite read_write by eauto. case_decide as Hl; subst.
    + rewrite decide_True by (by eapply wf_inj). done.
    + rewrite decide_False by (intros ->; congruence). symmetry. by apply view_lookup.
  - rewrite decide_False by congruence. by rewrite !view_lookup_None.
Qed.

(** ** Indexing *)

Lemma index_ok_push sel bk idx k l :
  index_ok sel bk idx → bk !! k = None → (∀ k', bk !! k' ≠ Some l) →
  index_ok sel (<[k := l]> bk) (index_push idx (sel k) l).
Proof.
  intros Hix Hk Hl a. unfold index_push, slot_ok. pose proof (Hix (sel k)) as Hsel.
  assert (∀ k' l', <[k:=l]> bk !! k' = Some l' ↔ (k' = k ∧ l' = l) ∨ bk !! k' = Some l') as Hins.
  { intros k' l'. rewrite lookup_insert_Some. split; [naive_solver|].
    intros [[-> ->]|Hb]; [by left|]. right. split; [by intros ->; congruence|done]. }
  destruct (decide (sel k = a)) as [<-|Hne].
  - destruct (idx !! sel k) as [ls|] eqn:Eidx; rewrite lookup_insert_eq.
    + destruct Hsel as (Hn & Hnd & Hmem). split; [by destruct ls|]. split.
      * apply NoDup_app. split; [done|]. split; [|by apply NoDup_singleton].
        intros x Hx ->%list_elem_of_singleton. apply Hmem in Hx as (k' & ? & _). by eapply Hl.
      * intros x. rewrite elem_of_app, list_elem_of_singleton, Hmem. setoid_rewrite Hins. naive_solver.
    + split; [done|]. split; [by apply NoDup_singleton|]. intros x.
      rewrite list_elem_of_singleton. setoid_rewrite Hins. split.
      * intros ->. exists k. auto.
      * intros (k' & [[-> ->]|Hb] & Hs); [done|]. by destruct (Hsel k' x).
  - pose proof (Hix a) as Ha.
    assert ((match idx !! sel k with Some ls => <[sel k:=ls ++ [l]]> idx
             | None => <[sel k:=[l]]> idx end) !! a = idx !! a) as ->
      by (destruct (idx !! sel k); by rewrite lookup_insert_ne).
    destruct (idx !! a).
    + destruct Ha as (? & ? & Hmem). split; [done|]. split; [done|]. intros x.
      rewrite Hmem. setoid_rewrite Hins. naive_solver.
    + intros k' l' [[-> ->]|Hb]%Hins; [done|]. by eapply Ha.
Qed.

Lemma remove_first_zero_spec st ls l :
  NoDup ls → l ∈ ls → coins (read_value st l) = 0 →
  (∀ l', l' ∈ ls → l' ≠ l → coins (read_value st l') ≠ 0) →
  ∃ ls', remove_first_zero st ls = Some ls' ∧ NoDup ls' ∧ ∀ x, x ∈ ls' ↔ x ∈ ls ∧ x ≠ l.
Proof.
  intros Hnd Hl Hz Hnz. induction Hnd as [|x ls Hx Hnd IH]; [by apply not_elem_of_nil in Hl|].
  simpl. destruct (decide (x = l)) as [->|Hne].
  - rewrite decide_True by done. exists ls. split_and!; [done..|].
    intros y. rewrite elem_of_cons. split; [|naive_solver]. intros Hy. split; [by right|]. by intros ->.
  - rewrite decide_False by (apply Hnz; [apply elem_of_cons; by left|done]).
    apply elem_of_cons in Hl as [->|Hl]; [done|].
    destruct IH as (ls' & -> & Hnd' & Hmem); [done|by intros; apply Hnz; [apply elem_of_cons; right|]|].
    exists (x :: ls'). split_and!; [done|constructor; [|done]|].
    + rewrite Hmem. naive_solver.
    + intros y. rewrite !elem_of_cons, Hmem. naive_solver.
Qed.

Lemma index_ok_remove st sel bk idx k l :
  index_ok sel bk idx → bk !! k = Some l → (∀ k', bk !! k' = Some l → k' = k) →
  coins (read_value st l) = 0 →
  (∀ k' l', bk !! k' = Some l' → l' ≠ l → coins (read_value st l') ≠ 0) →
  ∃ idx', index_remove_zero st idx (sel k) = Some idx' ∧ index_ok sel (delete k bk) idx'.
Proof.
  intros Hix Hk Hinj Hz Hnz. unfold index_remove_zero. pose proof (Hix (sel k)) as Hsel.
  destruct (idx !! sel k) as [ls|] eqn:Eidx; [|by destruct (Hsel k l)].
  destruct Hsel as (_ & Hnd & Hmem).
  destruct (remove_first_zero_spec st ls l) as (ls' & -> & Hnd' & Hmem'); try done.
  { apply Hmem. by exists k. }
  { intros l' (k' & ? & _)%Hmem ?. by eapply Hnz. }
  assert (∀ x, x ∈ ls' ↔ ∃ k', delete k bk !! k' = Some x ∧ sel k' = sel k) as Hls'.
  { intros x. rewrite Hmem', Hmem. setoid_rewrite lookup_delete_Some. split.
    - intros [(k' & Hb & Hs) Hx]. exists k'. split; [split; [|done]|done]. intros <-. congruence.
    - intros (k' & [Hkk Hb] & Hs). split; [by exists k'|]. intros ->. apply Hkk. symmetry. by apply Hinj. }
  assert (∀ a, a ≠ sel k → slot_ok sel (delete k bk) a (idx !! a)) as Hother.
  { intros a Ha. specialize (Hix a). destruct (idx !! a) as [ls0|].
    - destruct Hix as (? & ? & Hm). split; [done|]. split; [done|]. intros x. rewrite Hm.
      setoid_rewrite lookup_delete_Some. naive_solver.
    - intros k' l' [_ Hb]%lookup_delete_Some. by eapply Hix. }
  destruct ls' as [|x ls'].
  - eexists. split; [done|]. intros a. unfold slot_ok. destruct (decide (a = sel k)) as [->|Ha].
    + rewrite lookup_delete_eq. intros k' l' Hd Hs. apply (not_elem_of_nil l'). apply Hls'. by exists k'.
    + rewrite lookup_delete_ne by done. by apply Hother.
  - eexists. split; [done|]. intros a. destruct (decide (a = sel k)) as [->|Ha].
    + rewrite lookup_insert_eq. done.
    + rewrite lookup_insert_ne by done. by apply Hother.
Qed.

(** ** Allocation of a new entry *)

Lemma alter_insert_cell (m : gmap nat StakeEntry) l k v v' :
  alter (λ e, MkEntry (Address:=Address) (ekey e) v') l (<[l := MkEntry k v]> m)
  = <[l := MkEntry k v']> m.
Proof.
  apply map_eq. intros l'. destruct (decide (l = l')) as [->|Hl].
  - by rewrite lookup_alter_eq, !lookup_insert_eq.
  - by rewrite lookup_alter_ne, !lookup_insert_ne.
Qed.

Definition alloc_indexed st (k : StakeKey Address) (v : Stake) : Stakes :=
  with_indexes (alloc_entry st k v)
    (index_addresses (by_validator st) (by_withdrawer st) k (fresh_loc st)).

Lemma wf_fresh_unused st k : wf st → by_key st !! k ≠ Some (fresh_loc st).
Proof. intros Hwf (e & He & _)%(wf_cell st Hwf). apply mk_is_Some, (wf_fresh st Hwf) in He. lia. Qed.

Lemma wf_alloc_indexed st k v : wf st → by_key st !! k = None → wf (alloc_indexed st k v).
Proof.
  intros Hwf Hk. split; simpl.
  - intros k' l' [[<- <-]|[Hne Hk']]%lookup_insert_Some.
    + rewrite lookup_insert_eq. by eexists.
    + destruct (wf_cell st Hwf k' l' Hk') as (e & He & <-).
      rewrite lookup_insert_ne; [by exists e|]. intros <-. by eapply wf_fresh_unused.
  - intros l' [e [[<- _]|[_ He]]%lookup_insert_Some]; [lia|].
    apply mk_is_Some, (wf_fresh st Hwf) in He. lia.
  - apply index_ok_push; [apply Hwf|done|]. intros k'. by apply wf_fresh_unused.
  - apply index_ok_push; [apply Hwf|done|]. intros k'. by apply wf_fresh_unused.
Qed.

Lemma view_alloc_indexed st k v : wf st → by_key st !! k = None →
  view (alloc_indexed st k v) = <[k := v]> (view st).
Proof.
  intros Hwf Hk. apply map_eq. intros k'. unfold view; simpl. rewrite lookup_omap, !lookup_insert.
  case_decide as Hkk; simpl; [by rewrite lookup_insert_eq|]. rewrite lookup_omap.
  destruct (by_key st !! k') as [l'|] eqn:Hk'; simpl; [|done].
  rewrite lookup_insert_ne; [done|]. intros <-. by eapply wf_fresh_unused.
Qed.

(** ** Specification of staking and unstaking on the abstract map *)

(** The entry that staking works on: the existing one, or a new empty one
    whose nonce is the epoch. *)
Definition spec_entry (m : gmap (StakeKey Address) Stake) (k : StakeKey Address) (epoch : Z) :
    Stake :=
  default (MkStake 0 cap_default epoch) (m !! k).

Definition spec_unstake (m : gmap (StakeKey Address) Stake) (k : StakeKey Address) (s : Stake) :
    gmap (StakeKey Address) Stake :=
  if decide (coins s = 0) then delete k m else <[k := s]> m.

(** An entry that is in [by_key] and not in the other indexes. *)
Lemma alloc_entry_not_wf st k v : wf st → by_key st !! k = None → ¬ wf (alloc_entry st k v).
Proof.
  intros Hwf Hk Hwf'. pose proof (wf_validator _ Hwf' (validator k)) as Hs.
  pose proof (wf_validator _ Hwf (validator k)) as Hs0. unfold slot_ok in *. simpl in Hs.
  destruct (by_validator st !! validator k) as [ls|].
  - destruct Hs as (_ & _ & Hs), Hs0 as (_ & _ & Hs0).
    assert (fresh_loc st ∈ ls) as (k' & Hk' & _)%Hs0
      by (apply Hs; exists k; by rewrite lookup_insert_eq).
    by eapply (wf_fresh_unused st k').
  - apply (Hs k (fresh_loc st)); [by rewrite lookup_insert_eq|done].
Qed.

Lemma add_stake_outcome st k added epoch set_nonce minimum :
  wf st →
  match stake_add_stake UNIT (spec_entry (view st) k epoch) added epoch
          (nonce_policy set_nonce epoch) minimum with
  | Ok s => ∃ st', add_stake UNIT st k added epoch set_nonce minimum = Ret st' s
                   ∧ wf st' ∧ view st' = <[k := s]> (view st)
  | Err e => ∃ st', add_stake UNIT st k added epoch set_nonce minimum = Fail st' e
                    ∧ view st' = <[k := spec_entry (view st) k epoch]> (view st)
                    ∧ (if decide (is_Some (view st !! k)) then st' = st else ¬ wf st')
  | Panic => add_stake UNIT st k added epoch set_nonce minimum = Crash
  end.
Proof.
  intros Hwf. unfold add_stake, find_or_insert, spec_entry.
  destruct (by_key st !! k) as [l|] eqn:Hk.
  - rewrite (view_lookup st k l Hwf Hk); simpl.
    destruct (stake_add_stake _ _ _ _ _ _) as [s|e|].
    + eexists. split; [done|]. split; [by apply wf_write|by apply view_write].
    + eexists. split; [done|]. split; [|done]. by rewrite insert_id by (by apply view_lookup).
    + done.
  - rewrite (view_lookup_None st k Hk); simpl.
    assert (read_value (alloc_entry st k (MkStake 0 cap_default epoch)) (fresh_loc st)
            = MkStake 0 cap_default epoch) as ->.
    { unfold read_value; simpl. by rewrite lookup_insert_eq. }
    destruct (stake_add_stake _ _ _ _ _ _) as [s|e|];
      [|eexists; split; [done|]; split; [by apply (view_alloc_indexed st k)|by apply alloc_entry_not_wf]|done].
    eexists. split; [|split; [by apply (wf_alloc_indexed st k s)|by apply view_alloc_indexed]].
    unfold alloc_indexed, write_value, alloc_entry, with_indexes; simpl. by rewrite alter_insert_cell.
Qed.

Lemma remove_stake_outcome st k removed epoch set_nonce minimum :
  wf st → positive st →
  match view st !! k with
  | None => remove_stake st k removed epoch set_nonce minimum = Fail st (EntryNotFound k)
  | Some s =>
      match stake_remove_stake (Address:=Address) s removed (nonce_policy set_nonce epoch) minimum with
      | Ok s' => ∃ st', remove_stake st k removed epoch set_nonce minimum = Ret st' (coins s')
                        ∧ wf st' ∧ view st' = spec_unstake (view st) k s'
      | Err e => remove_stake st k removed epoch set_nonce minimum = Fail st e
      | Panic => False
      end
  end.
Proof.
  intros Hwf Hpos. unfold remove_stake, spec_unstake.
  destruct (by_key st !! k) as [l|] eqn:Hk; [|by rewrite (view_lookup_None st k Hk)].
  rewrite (view_lookup st k l Hwf Hk).
  destruct (stake_remove_stake (read_value st l) _ _ _) as [s'|e|] eqn:Erm; [|done|].
  2: { unfold stake_remove_stake in Erm. by case_decide. }
  case_decide as Hz; [|eexists; split; [done|]; split; [by apply wf_write|by apply view_write]].
  set (st1 := write_value st l s').
  assert (wf st1) as Hwf1 by by apply wf_write.
  assert (is_Some (store st !! l)) as Hl by (destruct (wf_cell st Hwf k l Hk) as (e & ? & _); eauto).
  assert (coins (read_value st1 l) = 0) as Hz1 by (unfold st1; rewrite read_write, decide_True by done; done).
  assert (∀ k' l', by_key st1 !! k' = Some l' → l' ≠ l → coins (read_value st1 l') ≠ 0) as Hnz.
  { intros k' l' Hk' Hne. destruct (wf_cell st Hwf k' l' Hk') as (e & He & _).
    unfold st1. rewrite read_write, decide_False by eauto.
    pose proof (Hpos k' _ (view_lookup st k' l' Hwf Hk')). lia. }
  assert (∀ k', by_key st1 !! k' = Some l → k' = k) as Hinj by (intros k' ?; by eapply (wf_inj st)).
  destruct (index_ok_remove st1 validator (by_key st1) (by_validator st1) k l)
    as (bv & -> & Hbv); [apply Hwf1|done..|].
  destruct (index_ok_remove st1 withdrawer (by_key st1) (by_withdrawer st1) k l)
    as (bw & -> & Hbw); [apply Hwf1|done..|].
  eexists. split; [done|]. split.
  - split; simpl; [|apply Hwf1|done|done].
    intros k' l' [_ Hk']%lookup_delete_Some. by apply (wf_cell st1 Hwf1).
  - assert (view st1 = <[k := s']> (view st)) as Hv by by apply view_write.
    transitivity (delete k (view st1)).
    + apply map_eq. intros k'. unfold view at 1; simpl. rewrite lookup_omap, !lookup_delete.
      case_decide; [done|]. by rewrite <-lookup_omap.
    + rewrite Hv. by rewrite delete_insert_eq.
Qed.

(** ** Queries *)

Lemma view_fmap st : wf st → view st = read_value st <$> by_key st.
Proof.
  intros Hwf. apply map_eq. intros k. rewrite lookup_fmap.
  destruct (by_key st !! k) as [l|] eqn:Hk; simpl.
  - by rewrite (view_lookup st k l).
  - by rewrite view_lookup_None.
Qed.

(** The entries of [by_key], read through their cells, are the abstract map. *)
Lemma view_entries st : wf st →
  (λ kl, (kl.1, read_value st kl.2)) <$> btree_entries (by_key st) ≡ₚ map_to_list (view st).
Proof.
  intros Hwf. rewrite view_fmap by done. rewrite map_to_list_fmap, btree_entries_perm.
  apply reflexive_eq, list_fmap_ext. by intros ? [].
Qed.

Lemma total_staked_view st : wf st →
  (∀ k s, view st !! k = Some s → 0 ≤ coins s) → msum coins (view st) < U64 →
  total_staked st = msum coins (view st).
Proof.
  intros Hwf Hpos Hmax. unfold total_staked, wit_sum, wit_add.
  assert ((λ kl, coins (read_value st kl.2)) <$> btree_entries (by_key st)
          ≡ₚ (λ kv, coins kv.2) <$> map_to_list (view st)) as Hperm.
  { rewrite <-(view_entries st Hwf). by rewrite <-list_fmap_compose. }
  assert (zsum ((λ kl, coins (read_value st kl.2)) <$> btree_entries (by_key st))
          = msum coins (view st)) as Hz by (unfold msum; by rewrite Hperm).
  rewrite foldl_wadd; [lia| |done|lia].
  rewrite Hperm. apply Forall_forall. intros x ([k s] & -> & Hk)%list_elem_of_fmap.
  apply elem_of_map_to_list in Hk. by eapply Hpos.
Qed.

(** What a slot of an index gives when read: the entries selecting it. *)
Lemma read_slot st sel a ls : wf st → slot_ok sel (by_key st) a (Some ls) →
  read_entries st ls ≠ [] ∧ NoDup (ekey <$> read_entries st ls)
  ∧ ∀ k s, MkEntry k s ∈ read_entries st ls ↔ view st !! k = Some s ∧ sel k = a.
Proof.
  intros Hwf (Hne & Hnd & Hmem).
  assert (∀ l, l ∈ ls → ∃ e, store st !! l = Some e ∧ by_key st !! ekey e = Some l ∧ sel (ekey e) = a)
    as Hcell.
  { intros l (k & Hk & Ha)%Hmem. destruct (wf_cell st Hwf k l Hk) as (e & He & <-). by exists e. }
  split; [|split].
  - destruct ls as [|l ls]; [done|]. destruct (Hcell l) as (e & He & _); [by apply elem_of_cons; left|].
    unfold read_entries, read_entry. simpl. by rewrite He.
  - clear Hne Hmem. induction Hnd as [|l ls Hl Hnd IH]; [by constructor|].
    destruct (Hcell l) as (e & He & Hk & _); [by apply elem_of_cons; left|].
    unfold read_entries, read_entry in *. simpl. rewrite He. csimpl. constructor.
    + intros (e' & Heq & (l' & Hl' & He')%list_elem_of_omap)%list_elem_of_fmap.
      destruct (Hcell l') as (e'' & He'' & Hk' & _); [by apply elem_of_cons; right|].
      assert (e'' = e') as -> by congruence. rewrite <-Heq in Hk'. congruence.
    + apply IH. intros l' Hl'. apply Hcell, elem_of_cons. by right.
  - intros k s. unfold read_entries, read_entry. rewrite list_elem_of_omap. split.
    + intros (l & Hl & Hs). destruct (Hcell l Hl) as (e & He & Hk & Ha).
      assert (e = MkEntry k s) as -> by congruence. simpl in *. split; [|done].
      rewrite (view_lookup st k l Hwf Hk). unfold read_value. by rewrite Hs.
    + intros [(l & Hk & Hs)%view_lookup_Some Ha]; [|done]. exists l. split; [apply Hmem; eauto|].
      destruct (wf_cell st Hwf k l Hk) as (e & He & Hek). unfold read_value in Hs.
      rewrite He in *. destruct e; simpl in *. congruence.
Qed.

(** ** Ranking *)

#[export] Instance rank_le_po : PartialOrder (rank_le (Address:=Address)).
Proof.
  split; [split|].
  - intros [k p]. unfold rank_le. by rewrite decide_True.
  - intros [k1 p1] [k2 p2] [k3 p3]. unfold rank_le; simpl.
    repeat case_decide; subst; try lia; try done. by intros; etrans.
  - intros [k1 p1] [k2 p2]. unfold rank_le; simpl.
    repeat case_decide; subst; try lia; try done. intros. f_equal. by apply (anti_symm stake_key_le).
Qed.
#[export] Instance rank_le_total : Total (rank_le (Address:=Address)).
Proof.
  intros [k1 p1] [k2 p2]. unfold rank_le; simpl. repeat case_decide; subst; try lia; try done.
  apply (total stake_key_le).
Qed.

Lemma by_rank_perm st c t : wf st →
  by_rank UNIT st c t ≡ₚ (λ ks, (ks.1, power UNIT ks.2 c t)) <$> map_to_list (view st).
Proof.
  intros Hwf. unfold by_rank. rewrite reverse_Permutation, merge_sort_Permutation.
  rewrite <-(view_entries st Hwf). by rewrite <-list_fmap_compose.
Qed.

Lemma by_rank_elem st c t k p : wf st →
  (k, p) ∈ by_rank UNIT st c t ↔ ∃ s, view st !! k = Some s ∧ p = power UNIT s c t.
Proof.
  intros Hwf. rewrite by_rank_perm by done. rewrite list_elem_of_fmap. split.
  - intros ([k' s] & [= -> ->] & Hk%elem_of_map_to_list). eauto.
  - intros (s & Hs & ->). exists (k, s). split; [done|]. by apply elem_of_map_to_list.
Qed.

Lemma by_rank_sorted st c t : StronglySorted (flip rank_le) (by_rank UNIT st c t).
Proof. unfold by_rank. apply StronglySorted_reverse, StronglySorted_merge_sort; apply _. Qed.

(** ** Rewards, collateral and age resets *)

Lemma slot_head st v ls : wf st → by_validator st !! v = Some ls →
  ∃ l ls' k, ls = l :: ls' ∧ by_key st !! k = Some l ∧ validator k = v.
Proof.
  intros Hwf Hv. pose proof (wf_validator st Hwf v) as Hs. rewrite Hv in Hs.
  destruct Hs as (Hne & _ & Hmem). destruct ls as [|l ls]; [done|].
  destruct (proj1 (Hmem l)) as (k & ? & ?); [by apply elem_of_cons; left|]. by exists l, ls, k.
Qed.

Lemma add_reward_outcome st v reward epoch st' :
  wf st → add_reward UNIT st v reward epoch = Ret st' tt →
  ∃ k s s', validator k = v ∧ view st !! k = Some s ∧ wf st' ∧ view st' = <[k := s']> (view st)
    ∧ (stake_add_stake (Address:=Address) UNIT s reward epoch KeepAsIs 0 = Ok s' ∨ s' = s).
Proof.
  intros Hwf Hr. unfold add_reward in Hr.
  destruct (by_validator st !! v) as [ls|] eqn:Hv; [|done].
  destruct (slot_head st v ls Hwf Hv) as (l & ls' & k & -> & Hk & <-).
  pose proof (view_lookup st k l Hwf Hk) as Hview.
  destruct (stake_add_stake _ _ _ _ _ _) as [s'|e|] eqn:Ea; simplify_eq/=.
  - exists k, (read_value st l), s'. split_and!; auto using wf_write, view_write.
  - exists k, (read_value st' l), (read_value st' l). split_and!; auto. by rewrite insert_id.
Qed.

Lemma reserve_collateral_outcome st v amount minimum st' :
  wf st → reserve_collateral st v amount minimum = Ret st' tt →
  ∃ k s s', validator k = v ∧ view st !! k = Some s ∧ wf st' ∧ view st' = <[k := s']> (view st)
    ∧ (stake_remove_stake (Address:=Address) s amount KeepAsIs minimum = Ok s' ∨ s' = s).
Proof.
  intros Hwf Hr. unfold reserve_collateral in Hr.
  destruct (by_validator st !! v) as [ls|] eqn:Hv; [|done].
  destruct (slot_head st v ls Hwf Hv) as (l & ls' & k & -> & Hk & <-).
  pose proof (view_lookup st k l Hwf Hk) as Hview.
  destruct (stake_remove_stake _ _ _ _) as [s'|e|] eqn:Ea; simplify_eq/=.
  - exists k, (read_value st l), s'. split_and!; auto using wf_write, view_write.
  - exists k, (read_value st' l), (read_value st' l). split_and!; auto. by rewrite insert_id.
Qed.

(** The effect on one entry of being at rank [i] when rank [w] wins. *)
Definition mining_penalty (w i : nat) (t : Z) (s : Stake) : Stake :=
  stake_reset_age s Mining (wadd U32 t (Z.of_nat (1 + w - i))).

Lemma reset_mining_loop_spec w t ks : ∀ st i,
  wf st → NoDup ks → (∀ k, k ∈ ks → is_Some (by_key st !! k)) →
  let st' := reset_mining_loop st w i t ks in
  wf st'
  ∧ (∀ j k, ks !! j = Some k → view st' !! k = mining_penalty w (i + j) t <$> view st !! k)
  ∧ (∀ k, k ∉ ks → view st' !! k = view st !! k).
Proof.
  induction ks as [|k ks IH]; intros st i Hwf Hnd Hin; simpl; [by split_and!|].
  inversion_clear Hnd as [|?? Hk Hks].
  destruct (Hin k) as [l Hl]; [by apply elem_of_cons; left|]. rewrite Hl.
  set (v := stake_reset_age _ _ _). set (st1 := write_value st l v).
  assert (view st1 = <[k := v]> (view st)) as Hv1 by by apply view_write.
  destruct (IH st1 (S i)) as (Hwf' & Hupd & Hsame); [by apply wf_write|done| |].
  { intros k' ?. apply (Hin k'), elem_of_cons. by right. }
  split_and!; [done| |].
  - intros [|j] k' Hj; simplify_eq/=.
    + rewrite (Hsame k' Hk), Hv1, lookup_insert_eq, (view_lookup st k' l Hwf Hl).
      by rewrite Nat.add_0_r.
    + rewrite (Hupd j k' Hj), Hv1, lookup_insert_ne, Nat.add_succ_r; [done|].
      intros ->. apply Hk. by eapply list_elem_of_lookup_2.
  - intros k' [? ?]%not_elem_of_cons. by rewrite Hsame, Hv1, lookup_insert_ne.
Qed.

Lemma reset_mining_loop_coins w t ks st :
  wf st → NoDup ks → (∀ k, k ∈ ks → is_Some (by_key st !! k)) →
  ∀ k, coins <$> view (reset_mining_loop st w 0 t ks) !! k = coins <$> view st !! k.
Proof.
  intros Hwf Hnd Hin k.
  destruct (reset_mining_loop_spec w t ks st 0 Hwf Hnd Hin) as (_ & Hupd & Hsame).
  destruct (decide (k ∈ ks)) as [[j Hj]%list_elem_of_lookup_1|Hk]; [|by rewrite Hsame].
  rewrite (Hupd j k Hj). by destruct (view st !! k).
Qed.

Lemma by_rank_keys_NoDup st c t : wf st → NoDup (by_rank UNIT st c t).*1.
Proof.
  intros Hwf. rewrite by_rank_perm, <-list_fmap_compose by done. apply NoDup_fst_map_to_list.
Qed.

Lemma ranked_known st c t n k : wf st →
  k ∈ (take n (by_rank UNIT st c t)).*1 → is_Some (by_key st !! k).
Proof.
  intros Hwf ([k' p] & -> & (i & Hi%list_elem_of_lookup_2 & _)%elem_of_take)%list_elem_of_fmap.
  apply (by_rank_elem st c t k' p Hwf) in Hi as (s & (l & Hl & _)%view_lookup_Some & _);
    [by eexists|done].
Qed.

Lemma ranked_prefix_NoDup st c t n : wf st → NoDup (take n (by_rank UNIT st c t)).*1.
Proof. intros Hwf. rewrite fmap_take. eapply sublist_NoDup, sublist_take. by apply by_rank_keys_NoDup. Qed.

Lemma reset_mining_age_outcome st v t w :
  wf st → rank_position v (by_rank UNIT st Mining t) = Some w →
  let st' := reset_mining_age UNIT st v t in
  wf st' ∧ ∀ i k p, by_rank UNIT st Mining t !! i = Some (k, p) →
    view st' !! k = (if decide (i ≤ w)%nat then mining_penalty w i t else id) <$> view st !! k.
Proof.
  intros Hwf Hw. unfold reset_mining_age. rewrite Hw.
  set (rk := by_rank UNIT st Mining t) in *.
  pose proof (by_rank_keys_NoDup st Mining t Hwf) as Hnd. fold rk in Hnd.
  destruct (reset_mining_loop_spec w t (take (w + 1) rk).*1 st 0) as (Hwf' & Hupd & Hsame).
  - done.
  - by apply ranked_prefix_NoDup.
  - intros k. by apply ranked_known.
  - split; [done|]. intros i k p Hi. case_decide as Hiw.
    + apply (Hupd i k). rewrite list_lookup_fmap, lookup_take_lt, Hi by lia. done.
    + rewrite Hsame; [by rewrite option_fmap_id|].
      rewrite fmap_take. intros (j & Hj & Hjw)%elem_of_take.
      assert (j = i); [|lia]. eapply (NoDup_lookup rk.*1); [done..|].
      by rewrite list_lookup_fmap, Hi.
Qed.

(** The effect of [reset_age] on one entry. *)
Definition age_reset (c : Capability) (t factor : Z) (s : Stake) : Stake :=
  let old := cap_get (epochs s) c in
  stake_reset_age s c (wadd U32 old (wsub U32 t old / factor)).

Lemma reset_age_loop_spec (f : Stake → Stake) ls : ∀ st,
  wf st → NoDup ls →
  let st' := foldl (λ st l, write_value st l (f (read_value st l))) st ls in
  wf st' ∧ by_key st' = by_key st
  ∧ ∀ k l, by_key st !! k = Some l →
      view st' !! k = (if decide (l ∈ ls) then f else id) <$> view st !! k.
Proof.
  induction ls as [|x ls IH]; intros st Hwf Hnd; simpl.
  { split_and!; [done..|]. intros k l _. by rewrite option_fmap_id. }
  inversion_clear Hnd as [|?? Hx Hls].
  destruct (IH (write_value st x (f (read_value st x)))) as (Hwf' & Hbk & Hv); [by apply wf_write|done|].
  split_and!; [done..|]. intros k l Hk. rewrite (Hv k l Hk). clear Hv.
  destruct (wf_cell st Hwf k l Hk) as (e & He & _).
  rewrite (view_lookup (write_value _ _ _) k l) by (by apply wf_write || done).
  rewrite (view_lookup st k l) by done. rewrite read_write by eauto. simpl.
  destruct (decide (l = x)) as [->|Hne].
  - by rewrite decide_False, decide_True by (done || set_solver).
  - destruct (decide (l ∈ ls)); [rewrite decide_True by set_solver|rewrite decide_False by set_solver]; done.
Qed.

Lemma reset_age_outcome st v c t factor :
  wf st → factor ≠ 0 →
  match by_validator st !! v with
  | None => reset_age st v c t factor = Fail st (ValidatorNotFound v)
  | Some _ => ∃ st', reset_age st v c t factor = Ret st' tt ∧ wf st'
      ∧ view st' = map_imap (λ k s, Some (if decide (validator k = v) then age_reset c t factor s else s))
                     (view st)
  end.
Proof.
  intros Hwf Hf. unfold reset_age. pose proof (wf_validator st Hwf v) as Hs.
  destruct (by_validator st !! v) as [ls|] eqn:Hv; [|done]. destruct Hs as (_ & Hnd & Hmem).
  rewrite decide_False by naive_solver. eexists. split; [done|].
  destruct (reset_age_loop_spec (age_reset c t factor) ls st Hwf Hnd) as (Hwf' & Hbk & Hview).
  split; [done|]. apply map_eq. intros k. rewrite map_lookup_imap.
  destruct (by_key st !! k) as [l|] eqn:Hk.
  - etrans; [by apply (Hview k l Hk)|]. rewrite (view_lookup st k l Hwf Hk). simpl.
    destruct (decide (validator k = v)); [rewrite decide_True by (apply Hmem; eauto); done|].
    rewrite decide_False; [done|]. intros (k' & Hk' & <-)%Hmem. by rewrite (wf_inj st k k' l Hwf Hk Hk') in *.
  - rewrite (view_lookup_None st k Hk). apply view_lookup_None. etrans; [|exact Hk].
    exact (f_equal (lookup k) Hbk).
Qed.

(** ** Reachable trackers

    The operations that the chain applies to the tracker, whether they
    succeed or fail.  The side conditions are those that the validation of
    blocks gives: amounts within the coin supply (below [LIMIT] coins in
    total), a first stake of at least the minimum, no unstaking of more than
    the entry holds, and a collateral that does not take all of it. *)

Definition LIMIT : Z := Z.min U64 (U32 * 10 ^ UNIT).

(** The state that a call leaves when it returns, with a value or an error. *)
Definition leaves {A} (m : exec Stakes (StakesError Address) A) st' : Prop :=
  (∃ a, m = Ret st' a) ∨ (∃ e, m = Fail st' e).

Inductive tracker_step (minimum : Z) : Stakes → Stakes → Prop :=
  | step_stake st tx epoch st' :
      0 ≤ st_value tx → msum coins (view st) + st_value tx < LIMIT →
      minimum ≤ st_value tx ∨ is_Some (view st !! st_key tx) →
      leaves (process_stake_transaction UNIT st tx epoch minimum) st' →
      tracker_step minimum st st'
  | step_unstake st tx epoch st' :
      0 ≤ ut_withdrawal_value tx → 0 ≤ ut_fee tx →
      (∀ s, view st !! MkKey (ut_operator tx) (ut_withdrawal_pkh tx) = Some s →
        ut_withdrawal_value tx + ut_fee tx ≤ coins s) →
      leaves (process_unstake_transaction st tx epoch minimum) st' →
      tracker_step minimum st st'
  | step_reward st v reward epoch st' :
      0 ≤ reward → msum coins (view st) + reward < LIMIT →
      leaves (add_reward UNIT st v reward epoch) st' →
      tracker_step minimum st st'
  | step_collateral st v amount st' :
      0 ≤ amount →
      (∀ k s, view st !! k = Some s → validator k = v → amount < coins s) →
      leaves (reserve_collateral st v amount minimum) st' →
      tracker_step minimum st st'
  | step_reset_mining st v epoch :
      tracker_step minimum st (reset_mining_age UNIT st v epoch)
  | step_reset_age st v c epoch factor st' :
      leaves (reset_age st v c epoch factor) st' →
      tracker_step minimum st st'.

Definition reachable (minimum : Z) st : Prop := rtc (tracker_step minimum) stakes_default st.

Record tracker_inv st : Prop := {
  inv_wf : wf st;
  inv_positive : positive st;
  inv_total : msum coins (view st) < LIMIT;
}.

Lemma positive_nonneg st k s : positive st → view st !! k = Some s → 0 ≤ coins s.
Proof. intros Hp Hk. apply Hp in Hk. lia. Qed.

Lemma LIMIT_U64 : LIMIT ≤ U64.
Proof. unfold LIMIT. lia. Qed.

(** Changing one entry keeps the invariant when the new amount is positive
    and the total stays within the limit. *)
Lemma inv_insert st st' k s' :
  tracker_inv st → wf st' → view st' = <[k := s']> (view st) → 0 < coins s' →
  msum coins (view st) - coins (default stake_default (view st !! k)) + coins s' < LIMIT →
  tracker_inv st'.
Proof.
  intros [Hwf Hpos Htot] Hwf' Hv Hs Hlim. pose proof LIMIT_U64.
  assert (coins (default stake_default (view st !! k)) ≤ msum coins (view st)) as Hle.
  { destruct (view st !! k) as [s|] eqn:Hk; simpl.
    - apply (msum_lookup_le coins (view st) k s); [|done]. intros. by eapply positive_nonneg.
    - apply msum_nonneg. intros. by eapply positive_nonneg. }
  split; [done| |].
  - intros k0 s0. rewrite Hv. intros [[<- <-]|[_ Hk0]]%lookup_insert_Some; [lia|]. by eapply Hpos.
  - rewrite Hv. destruct (view st !! k) as [s|] eqn:Hk; simpl in Hlim.
    + rewrite (msum_insert coins (view st) k s s' Hk). lia.
    + rewrite (msum_insert_new coins (view st) k s' Hk). lia.
Qed.

Lemma stake_add_stake_inv s added epoch policy minimum s' :
  stake_add_stake (Address:=Address) UNIT s added epoch policy minimum = Ok s' →
  minimum ≤ added ∧ coins s' = wit_add (coins s) added.
Proof.
  unfold stake_add_stake. case_decide; [done|].
  destruct (average_epochs _ _ _ _ _ _); simpl; [|done..]. intros [= <-]. simpl. lia.
Qed.

Lemma stake_add_stake_err s added epoch policy minimum e :
  stake_add_stake (Address:=Address) UNIT s added epoch policy minimum = Err e →
  added < minimum ∧ e = AmountIsBelowMinimum added minimum.
Proof.
  unfold stake_add_stake. case_decide; [by intros [= <-]|].
  cbn [ALL_CAPABILITIES average_epochs]. unfold average_epoch. by repeat case_decide.
Qed.

(** A total of less than one unit divides by zero. *)
Lemma stake_add_stake_small s added epoch policy minimum :
  0 ≤ coins s → 0 ≤ added → minimum ≤ added → coins s + added < U64 → coins s + added < 10 ^ UNIT →
  stake_add_stake (Address:=Address) UNIT s added epoch policy minimum = Panic.
Proof.
  intros. unfold stake_add_stake. rewrite decide_False by lia. cbn [ALL_CAPABILITIES average_epochs].
  unfold average_epoch, wit_add. rewrite wadd_small, decide_True; [done| |lia].
  apply Z.div_small. lia.
Qed.

Lemma wsub_wraps a b : 0 ≤ a < U64 → 0 ≤ b < U64 →
  wit_sub a b = if decide (b ≤ a) then a - b else a - b + U64.
Proof.
  intros. unfold wit_sub. case_decide; [apply wsub_small; lia|].
  unfold wsub. symmetry. apply (Zmod_unique _ U64 (-1)); lia.
Qed.

Lemma stake_remove_stake_inv s removed policy minimum s' :
  stake_remove_stake (Address:=Address) s removed policy minimum = Ok s' →
  coins s' = wit_sub (coins s) removed.
Proof. unfold stake_remove_stake. case_decide; [done|]. by intros [= <-]. Qed.

Lemma entry_le_total st k : tracker_inv st →
  0 ≤ coins (default stake_default (view st !! k)) ≤ msum coins (view st).
Proof.
  intros [_ Hpos _]. destruct (view st !! k) as [s|] eqn:Hk; simpl.
  - split; [by eapply positive_nonneg|]. eapply msum_lookup_le; [|done]. intros. by eapply positive_nonneg.
  - split; [done|]. apply msum_nonneg. intros. by eapply positive_nonneg.
Qed.

(** Adding to an existing or a new entry within the limit keeps the
    invariant. *)
Lemma inv_added st st' k added s' :
  tracker_inv st → wf st' → view st' = <[k := s']> (view st) → 0 ≤ added →
  0 < coins (default stake_default (view st !! k)) + added →
  msum coins (view st) + added < LIMIT →
  coins s' = wit_add (coins (default stake_default (view st !! k))) added →
  tracker_inv st'.
Proof.
  intros Hinv Hwf' Hv Hadd Hpos Hlim Hc. pose proof LIMIT_U64.
  pose proof (entry_le_total st k Hinv). unfold wit_add in Hc. rewrite wadd_small in Hc by lia.
  eapply inv_insert; [done..|lia|lia].
Qed.

Lemma spec_entry_coins m k epoch : coins (spec_entry m k epoch) = coins (default stake_default (m !! k)).
Proof. unfold spec_entry. by destruct (m !! k). Qed.

Lemma inv_stake minimum st tx epoch st' :
  0 < minimum → tracker_inv st → 0 ≤ st_value tx → msum coins (view st) + st_value tx < LIMIT →
  minimum ≤ st_value tx ∨ is_Some (view st !! st_key tx) →
  leaves (process_stake_transaction UNIT st tx epoch minimum) st' → tracker_inv st'.
Proof.
  intros Hmin Hinv Hv Hlim Hfirst Hp. unfold process_stake_transaction in Hp.
  pose proof (add_stake_outcome st (st_key tx) (st_value tx) epoch true minimum (inv_wf st Hinv)) as Ho.
  destruct (stake_add_stake _ _ _ _ _ _) as [s|e|] eqn:Ea.
  - destruct Ho as (st1 & Ha & Hwf & Hview). rewrite Ha in Hp. destruct Hp as [[? Hp]|[? Hp]]; simplify_eq/=.
    apply stake_add_stake_inv in Ea as [? Hc]. rewrite spec_entry_coins in Hc.
    pose proof (entry_le_total st (st_key tx) Hinv). eapply inv_added; [done..|lia|done|done].
  - destruct Ho as (st1 & Ha & _ & Hsame). rewrite Ha in Hp.
    apply stake_add_stake_err in Ea as [Hlt _]. rewrite decide_True in Hsame by (destruct Hfirst; [lia|done]).
    destruct Hp as [[? Hp]|[? Hp]]; simplify_eq/=. done.
  - rewrite Ho in Hp. by destruct Hp as [[? ?]|[? ?]].
Qed.

Lemma inv_total_staked st : tracker_inv st → total_staked st = msum coins (view st).
Proof.
  intros [Hwf Hpos Htot]. apply total_staked_view; [done|by intros; eapply positive_nonneg|].
  pose proof LIMIT_U64. lia.
Qed.

(** Unstaking at most what the entry holds, on every outcome. *)
Lemma unstake_outcome minimum st tx epoch s :
  tracker_inv st → 0 ≤ ut_withdrawal_value tx → 0 ≤ ut_fee tx →
  view st !! MkKey (ut_operator tx) (ut_withdrawal_pkh tx) = Some s →
  ut_withdrawal_value tx + ut_fee tx ≤ coins s →
  match process_unstake_transaction st tx epoch minimum with
  | Ret st' _ => tracker_inv st' ∧
      msum coins (view st') = msum coins (view st) - (ut_withdrawal_value tx + ut_fee tx)
  | Fail st' _ => st' = st
  | Crash => False
  end.
Proof.
  intros Hinv Hv Hf Hk Hle. unfold process_unstake_transaction.
  set (k := MkKey _ _) in *. pose proof (inv_positive st Hinv k s Hk) as Hs.
  rewrite wadd_small by lia. set (amount := _ + _) in *.
  pose proof (remove_stake_outcome st k amount epoch true minimum (inv_wf st Hinv) (inv_positive st Hinv)) as Ho.
  rewrite Hk in Ho. destruct (stake_remove_stake _ _ _ _) as [s'|e|] eqn:Er; [|by rewrite Ho|done].
  destruct Ho as (st1 & -> & Hwf & Hview). simpl.
  apply stake_remove_stake_inv in Er. unfold wit_sub in Er. rewrite wsub_small in Er by lia.
  unfold spec_unstake in Hview. case_decide as Hz.
  - pose proof (msum_delete coins (view st) k s Hk) as Hsum. destruct Hinv as [_ Hpos Htot].
    rewrite Hview. split; [|lia]. split; [done| |rewrite Hview; lia].
    intros k0 s0. rewrite Hview. intros [_ ?]%lookup_delete_Some. by eapply Hpos.
  - pose proof (inv_total st Hinv). split.
    + eapply inv_insert; [done..|lia|]. rewrite Hk. simpl. lia.
    + rewrite Hview, (msum_insert coins (view st) k s s' Hk). lia.
Qed.

Lemma inv_reward st v reward epoch st' :
  tracker_inv st → 0 ≤ reward → msum coins (view st) + reward < LIMIT →
  add_reward UNIT st v reward epoch = Ret st' tt → tracker_inv st'.
Proof.
  intros Hinv Hr Hlim (k & s & s' & _ & Hk & Hwf & Hview & Hs)%add_reward_outcome; [|apply Hinv].
  pose proof (inv_positive st Hinv k s Hk). pose proof (inv_total st Hinv). destruct Hs as [[_ Hc]%stake_add_stake_inv| ->].
  - eapply inv_added; [done..|rewrite Hk; simpl; lia|done|by rewrite Hk].
  - eapply inv_insert; [done..|lia|]. rewrite Hk. simpl. lia.
Qed.

Lemma inv_collateral minimum st v amount st' :
  0 < minimum → tracker_inv st → 0 ≤ amount →
  (∀ k s, view st !! k = Some s → validator k = v → amount < coins s) →
  reserve_collateral st v amount minimum = Ret st' tt → tracker_inv st'.
Proof.
  intros Hmin Hinv Ha Hle (k & s & s' & Hkv & Hk & Hwf & Hview & Hs)%reserve_collateral_outcome; [|apply Hinv].
  pose proof (inv_positive st Hinv k s Hk). pose proof (inv_total st Hinv). pose proof (Hle k s Hk Hkv).
  destruct Hs as [Hc%stake_remove_stake_inv| ->].
  - unfold wit_sub in Hc. rewrite wsub_small in Hc by lia.
    eapply inv_insert; [done..|lia|]. rewrite Hk. simpl. lia.
  - eapply inv_insert; [done..|lia|]. rewrite Hk. simpl. lia.
Qed.

Lemma inv_same_coins st st' :
  tracker_inv st → wf st' → (∀ k, coins <$> view st' !! k = coins <$> view st !! k) →
  tracker_inv st'.
Proof.
  intros [_ Hpos Htot] Hwf' Hc. split; [done| |].
  - intros k s Hk. specialize (Hc k). rewrite Hk in Hc.
    destruct (view st !! k) as [s0|] eqn:Hk0; simplify_eq/=. rewrite Hc. by eapply Hpos.
  - assert (coins <$> view st' = coins <$> view st) as Heq
      by (apply map_eq; intros k; rewrite !lookup_fmap; apply Hc).
    change (msum (λ s, id (coins s)) (view st') < LIMIT). rewrite <-msum_fmap, Heq, msum_fmap. done.
Qed.

Lemma inv_unstake minimum st tx epoch st' :
  tracker_inv st → 0 ≤ ut_withdrawal_value tx → 0 ≤ ut_fee tx →
  (∀ s, view st !! MkKey (ut_operator tx) (ut_withdrawal_pkh tx) = Some s →
    ut_withdrawal_value tx + ut_fee tx ≤ coins s) →
  leaves (process_unstake_transaction st tx epoch minimum) st' → tracker_inv st'.
Proof.
  intros Hinv Hv Hf Hle Hp. set (k := MkKey _ _) in Hle.
  destruct (view st !! k) as [s|] eqn:Hk.
  - pose proof (unstake_outcome minimum st tx epoch s Hinv Hv Hf Hk (Hle s eq_refl)) as Ho.
    destruct Hp as [[a Hp]|[e Hp]]; rewrite Hp in Ho; [apply Ho|by subst].
  - pose proof (remove_stake_outcome st k (wadd U64 (ut_withdrawal_value tx) (ut_fee tx)) epoch true minimum
                  (inv_wf st Hinv) (inv_positive st Hinv)) as Ho.
    rewrite Hk in Ho. unfold process_unstake_transaction in Hp. fold k in Hp. rewrite Ho in Hp.
    destruct Hp as [[? Hp]|[? Hp]]; simplify_eq/=. done.
Qed.

Lemma reset_age_failed st v c t f st' e : reset_age st v c t f = Fail st' e → st' = st.
Proof. unfold reset_age. destruct (by_validator st !! v); [by case_decide|]. by intros [= <- _]. Qed.

Lemma inv_step minimum st st' :
  0 < minimum → tracker_step minimum st st' → tracker_inv st → tracker_inv st'.
Proof.
  intros Hmin Hstep Hinv. pose proof (inv_wf st Hinv) as Hwf.
  destruct Hstep as [st tx epoch st'|st tx epoch st' ?? Hle Hst|st v r epoch st' ?? Hst|st v a st' ?? Hst|st v epoch
                    |st v c t f st' Hst].
  - by eapply inv_stake.
  - by eapply inv_unstake.
  - destruct Hst as [[[] ?]|[e He]]; [by eapply inv_reward|].
    unfold add_reward in He. destruct (by_validator st !! v) as [[|l ls]|]; simplify_eq/=; [|done].
    by destruct (stake_add_stake _ _ _ _ _ _).
  - destruct Hst as [[[] ?]|[e He]]; [by eapply inv_collateral|].
    unfold reserve_collateral in He. destruct (by_validator st !! v) as [[|l ls]|]; simplify_eq/=; [|done].
    by destruct (stake_remove_stake _ _ _ _).
  - destruct (rank_position v (by_rank UNIT st Mining epoch)) as [w|] eqn:Hw.
    + apply (inv_same_coins st); [done|by eapply reset_mining_age_outcome|].
      unfold reset_mining_age. rewrite Hw. apply reset_mining_loop_coins; [done|by apply ranked_prefix_NoDup|].
      intros k. by apply ranked_known.
    + unfold reset_mining_age. by rewrite Hw.
  - destruct Hst as [[[] Hst]|[e He]]; [|by eapply reset_age_failed in He as ->].
    assert (f ≠ 0 ∨ f = 0) as [Hf|Hf] by lia.
    + pose proof (reset_age_outcome st v c t f Hwf Hf) as Ho.
      destruct (by_validator st !! v); [|congruence]. destruct Ho as (st1 & Heq & Hwf1 & Hv).
      assert (st1 = st') as -> by congruence. apply (inv_same_coins st); [done..|]. intros k.
      rewrite Hv, map_lookup_imap. destruct (view st !! k); simpl; [|done]. by case_decide.
    + unfold reset_age in *. destruct (by_validator st !! v) as [ls|] eqn:Hv; [|done].
      destruct (slot_head st v ls Hwf Hv) as (? & ? & ? & -> & _).
      rewrite decide_True in * by done. done.
Qed.

Lemma reachable_tracker_inv minimum st : 0 ≤ UNIT → 0 < minimum → reachable minimum st → tracker_inv st.
Proof.
  intros HU Hmin. apply (rtc_ind_r (λ st, tracker_inv st)); [|by intros; eapply inv_step].
  split; [apply wf_default|by intros ??; rewrite view_lookup_None|].
  unfold LIMIT. replace (view stakes_default) with (∅ : gmap (StakeKey Address) Stake)
    by (apply map_eq; intros; by rewrite view_lookup_None).
  rewrite msum_empty. pose proof (pow10_pos UNIT HU). unfold_moduli. lia.
Qed.

(** ** Rebuilding the indexes *)

Lemma index_ok_fold sel kls :
  NoDup kls.*1 → NoDup kls.*2 →
  index_ok sel (list_to_map kls) (foldl (λ idx (kl : StakeKey Address * nat), index_push idx (sel kl.1) kl.2) ∅ kls).
Proof.
  induction kls as [|[k l] kls IH] using rev_ind; intros Hk Hl.
  { intros a. simpl. rewrite lookup_empty. intros k l Hkl. by rewrite lookup_empty in Hkl. }
  rewrite (fmap_app fst) in Hk. rewrite (fmap_app snd) in Hl.
  apply NoDup_app in Hk as (Hk & Hdk & _), Hl as (Hl & Hdl & _).
  assert (k ∉ kls.*1) as Hk' by (intros Hin; apply (Hdk k Hin), list_elem_of_singleton; done).
  assert (l ∉ kls.*2) as Hl' by (intros Hin; apply (Hdl l Hin), list_elem_of_singleton; done).
  rewrite foldl_app, list_to_map_snoc by done. simpl.
  apply index_ok_push; [by apply IH|by apply not_elem_of_list_to_map_1|].
  intros k0 Hk0. apply elem_of_list_to_map_2 in Hk0. apply Hl', list_elem_of_fmap. by exists (k0, l).
Qed.

Lemma fold_index_addresses kls bv bw :
  foldl (λ ix (kl : StakeKey Address * nat), index_addresses ix.1 ix.2 kl.1 kl.2) (bv, bw) kls
  = (foldl (λ idx kl, index_push idx (validator kl.1) kl.2) bv kls,
     foldl (λ idx kl, index_push idx (withdrawer kl.1) kl.2) bw kls).
Proof. revert bv bw. induction kls as [|kl kls IH]; intros; simpl; [done|]. apply IH. Qed.

Lemma list_to_map_btree {V} (m : gmap (StakeKey Address) V) : list_to_map (btree_entries m) = m.
Proof.
  rewrite <-(list_to_map_to_list m) at 2. apply list_to_map_proper; [apply NoDup_btree_entries|].
  apply btree_entries_perm.
Qed.

(** [reindex] restores the indexes of any state whose cells are well formed. *)
Lemma wf_reindex st :
  (∀ k l, by_key st !! k = Some l → ∃ e, store st !! l = Some e ∧ ekey e = k) →
  (∀ l, is_Some (store st !! l) → (l < fresh_loc st)%nat) →
  wf (reindex st) ∧ view (reindex st) = view st.
Proof.
  intros Hcell Hfresh. split; [|done].
  assert (NoDup (btree_entries (by_key st)).*2) as Hnd.
  { apply NoDup_fmap_2_strong; [|apply (NoDup_fmap_1 fst), NoDup_btree_entries].
    intros [k1 l1] [k2 l2] (e1 & He1 & <-)%elem_of_btree_entries%Hcell
      (e2 & He2 & <-)%elem_of_btree_entries%Hcell Hl; simpl in *; subst. congruence. }
  unfold reindex. rewrite fold_index_addresses. split; simpl; [done..| |].
  - rewrite <-(list_to_map_btree (by_key st)) at 1.
    by apply (index_ok_fold validator); [apply NoDup_btree_entries|].
  - rewrite <-(list_to_map_btree (by_key st)) at 1.
    by apply (index_ok_fold withdrawer); [apply NoDup_btree_entries|].
Qed.

Lemma clone_cells (f : nat → Stake) kls :
  NoDup kls.*1 →
  let acc := foldl (λ acc (kl : StakeKey Address * nat), alloc_entry acc kl.1 (f kl.2)) stakes_default kls in
  (∀ k l, by_key acc !! k = Some l → ∃ e, store acc !! l = Some e ∧ ekey e = k)
  ∧ (∀ l, is_Some (store acc !! l) → (l < fresh_loc acc)%nat)
  ∧ view acc = f <$> list_to_map kls.
Proof.
  induction kls as [|[k l] kls IH] using rev_ind; intros Hnd; simpl.
  { split_and!; [intros k l Hk; by rewrite lookup_empty in Hk|intros l [e He]; by rewrite lookup_empty in He|].
    rewrite fmap_empty. apply map_eq. intros. by rewrite view_lookup_None. }
  rewrite fmap_app in Hnd. apply NoDup_app in Hnd as (Hnd & Hd & _).
  assert (k ∉ kls.*1) as Hk by (intros Hin; apply (Hd k Hin), list_elem_of_singleton; done).
  specialize (IH Hnd). cbv zeta in IH. rewrite foldl_app, list_to_map_snoc by done.
  destruct IH as (Hcell & Hfresh & Hview). set (acc := foldl _ _ kls) in *. simpl.
  assert (∀ k', by_key acc !! k' ≠ Some (fresh_loc acc)) as Hunused.
  { intros k' (e & He & _)%Hcell. apply mk_is_Some, Hfresh in He. lia. }
  split_and!.
  - intros k' l' [[<- <-]|[Hne Hk']]%lookup_insert_Some; [rewrite lookup_insert_eq; by eexists|].
    destruct (Hcell k' l' Hk') as (e & He & <-). exists e. split; [|done].
    rewrite lookup_insert_ne; [done|]. intros <-. by eapply Hunused.
  - intros l' [e [[<- _]|[_ He]]%lookup_insert_Some]; [lia|]. apply mk_is_Some, Hfresh in He. lia.
  - rewrite fmap_insert, <-Hview. apply map_eq. intros k'. unfold view; simpl.
    rewrite lookup_omap, !lookup_insert. case_decide; simpl; [by rewrite lookup_insert_eq|].
    rewrite lookup_omap. destruct (by_key acc !! k') as [l'|] eqn:Hk'; simpl; [|done].
    rewrite lookup_insert_ne; [done|]. intros <-. by eapply Hunused.
Qed.

Lemma stakes_clone_outcome st : wf st → wf (stakes_clone st) ∧ view (stakes_clone st) = view st.
Proof.
  intros Hwf. unfold stakes_clone.
  destruct (clone_cells (read_value st) (btree_entries (by_key st))) as (Hc & Hf & Hv);
    [apply NoDup_btree_entries|].
  destruct (wf_reindex _ Hc Hf) as [? Hv']. split; [done|].
  by rewrite Hv', Hv, list_to_map_btree, view_fmap.
Qed.
End correct.

(** ** Theorems about the tracker *)

Section theorems.
Context `{Countable Address, !OrdType Address}.
Context (UNIT : Z).
Abbreviation Stakes := (Stakes (Address:=Address)).
Implicit Types st : Stakes.

(** C10: refinement of [Stakes::add_stake] to the map from keys to stakes.
    Let [s] be the entry of the key, an empty one with the epoch as its nonce
    when there is none, and [total] its coins with the added ones, within
    [u64] and below [2^32] units.  The call fails exactly when less than the
    minimum is added: the map then has [s] under the key, so that a tracker
    with the key is unchanged, and one without it is left with an empty entry
    that the indexes by address do not list ([¬ wf]).  It panics, dividing by
    zero, exactly when enough is added and the total is not one unit.
    Otherwise the entry has the total, the nonce of the policy and the
    averages of its epochs and the current one, weighted by whole units, and
    the three indexes agree. *)
Theorem add_stake_refines st k added epoch set_nonce minimum :
  let s := spec_entry (view st) k epoch in
  let total := coins s + added in
  wf st → 0 ≤ UNIT → stake_typed s → fits U32 epoch → 0 ≤ added →
  total < U64 → lose_precision total UNIT < U32 →
  match add_stake UNIT st k added epoch set_nonce minimum with
  | Fail st' e =>
      added < minimum ∧ e = AmountIsBelowMinimum added minimum
      ∧ view st' = <[k := s]> (view st)
      ∧ (if decide (is_Some (view st !! k)) then st' = st else ¬ wf st')
  | Crash => minimum ≤ added ∧ total < 10 ^ UNIT
  | Ret st' s' =>
      minimum ≤ added ∧ 10 ^ UNIT ≤ total
      ∧ wf st' ∧ view st' = <[k := s']> (view st)
      ∧ coins s' = total
      ∧ nonce s' = (if set_nonce then epoch else nonce s)
      ∧ ∀ c, cap_get (epochs s') c
             = (lose_precision (coins s) UNIT * cap_get (epochs s) c + lose_precision added UNIT * epoch)
               / lose_precision total UNIT
  end.
Proof.
  intros s total Hwf HU Hs He Hadd Hu64 Hu32.
  pose proof (add_stake_outcome UNIT st k added epoch set_nonce minimum Hwf) as Ho. fold s in Ho.
  pose proof (pow10_pos UNIT HU) as Hp.
  assert (0 ≤ coins s) by apply Hs.
  assert (0 ≤ lose_precision total UNIT) by (apply lp_nonneg; lia).
  destruct (stake_add_stake UNIT s added epoch (nonce_policy set_nonce epoch) minimum) as [s'|e|] eqn:Ea.
  - destruct Ho as (st' & -> & Hwf' & Hv). pose proof (stake_add_stake_inv UNIT _ _ _ _ _ _ Ea) as [? _].
    destruct (decide (total < 10 ^ UNIT)) as [Hlt|Hge].
    { rewrite stake_add_stake_small in Ea by (unfold total in *; lia || done). done. }
    assert (0 < lose_precision total UNIT) as Hlp by (apply Z.div_str_pos; lia).
    destruct (stake_add_stake_exact (Address:=Address) UNIT HU s added epoch (nonce_policy set_nonce epoch) minimum)
      as (s1 & Hs1 & Hc & Hn & Hes & _); try done.
    assert (s1 = s') as -> by congruence. split_and!; try done; [lia|].
    rewrite Hn. by destruct set_nonce.
  - destruct Ho as (st' & -> & Hv & Hsame). by apply stake_add_stake_err in Ea as [? ->].
  - rewrite Ho. destruct (decide (added < minimum)) as [Hlt|].
    { unfold stake_add_stake in Ea. by rewrite decide_True in Ea. }
    split; [lia|]. destruct (decide (total < 10 ^ UNIT)) as [|Hge]; [done|].
    assert (0 < lose_precision total UNIT) as Hlp by (apply Z.div_str_pos; lia).
    destruct (stake_add_stake_exact (Address:=Address) UNIT HU s added epoch (nonce_policy set_nonce epoch) minimum)
      as (s1 & Hs1 & _); try done; [lia|]. congruence.
Qed.

(** C11: refinement of [Stakes::remove_stake] to the map from keys to stakes.
    When the indexes agree and no entry is empty, an unknown key fails
    without effect.  For a known one let [rest] be its coins less the removed
    ones, which wraps to [2^64] more when more than the coins is removed.
    The call fails without effect exactly when the rest is positive and below
    the minimum, and otherwise returns the rest: the key is deleted when it is
    zero, and keeps its epochs with the coins and the nonce replaced when it
    is not.  The indexes agree after it and their [unwrap]s do not panic. *)
Theorem remove_stake_refines st k removed epoch set_nonce minimum :
  wf st → positive st → fits U64 removed →
  match view st !! k with
  | None => remove_stake st k removed epoch set_nonce minimum = Fail st (EntryNotFound k)
  | Some s =>
      let rest := if decide (removed ≤ coins s) then coins s - removed else coins s - removed + U64 in
      match remove_stake st k removed epoch set_nonce minimum with
      | Fail st' e => 0 < rest < minimum ∧ st' = st ∧ e = AmountIsBelowMinimum rest minimum
      | Ret st' returned =>
          (rest = 0 ∨ minimum ≤ rest) ∧ returned = rest ∧ wf st'
          ∧ view st' = if decide (rest = 0) then delete k (view st)
                       else <[k := MkStake rest (epochs s) (if set_nonce then epoch else nonce s)]> (view st)
      | Crash => False
      end
  end.
Proof.
  intros Hwf Hpos Hrem. pose proof (remove_stake_outcome st k removed epoch set_nonce minimum Hwf Hpos) as Ho.
  destruct (view st !! k) as [s|] eqn:Hk; [|done]. cbv zeta.
  set (rest := if decide (removed ≤ coins s) then _ else _).
  pose proof (Hpos k s Hk). destruct Hrem.
  assert (wit_sub (coins s) removed = rest) as Hrest by (apply wsub_wraps; lia).
  assert (0 ≤ rest) by (unfold rest; case_decide; lia).
  unfold stake_remove_stake in Ho. rewrite Hrest in Ho. clearbody rest.
  destruct (decide (rest > 0 ∧ rest < minimum)) as [|Hok]; [rewrite Ho; split_and!; [lia..|done|done]|].
  destruct Ho as (st' & -> & Hwf' & Hv). simpl in *. split_and!; [lia|done|done|].
  rewrite Hv. unfold spec_unstake. simpl. by destruct set_nonce.
Qed.

(** C38: invariant of the tracker.  Take any sequence of stake and unstake
    transactions, rewards, collateral reservations and age resets, each of
    which succeeds or fails, in which the total stays within the limit, the
    first stake of a key is not below the minimum, no more is unstaked than
    the entry holds and no collateral takes all of an entry.  The indexes
    agree with [by_key], every entry holds a positive amount and
    [total_staked] is the exact sum of the entries.  The condition on first
    stakes is needed: one below the minimum fails and leaves indexes that do
    not agree. *)
Theorem reachable_invariant minimum st :
  0 ≤ UNIT → 0 < minimum → reachable UNIT minimum st →
  (wf st ∧ positive st ∧ total_staked st = msum coins (view st))
  ∧ ∀ tx epoch, st_value tx < minimum → view st !! st_key tx = None →
      ∃ st', process_stake_transaction UNIT st tx epoch minimum
               = Fail st' (AmountIsBelowMinimum (st_value tx) minimum) ∧ ¬ wf st'.
Proof.
  intros HU Hmin Hr. pose proof (reachable_tracker_inv UNIT minimum st HU Hmin Hr) as Hinv.
  split; [split_and!; [apply Hinv..|]; by apply (inv_total_staked UNIT)|].
  intros tx epoch Hlt Hk. unfold process_stake_transaction.
  pose proof (add_stake_outcome UNIT st (st_key tx) (st_value tx) epoch true minimum (inv_wf UNIT st Hinv)) as Ho.
  unfold stake_add_stake in Ho. rewrite decide_True in Ho by done.
  destruct Ho as (st' & -> & _ & Hn). exists st'. split; [done|].
  rewrite Hk, decide_False in Hn by (by intros [? ?]). done.
Qed.

(** unstaking is safe.  In a reachable tracker, processing an unstake
    transaction of at most the staked amount never panics, and when it
    succeeds the total stake drops by exactly the withdrawal and the fee. *)
Theorem unstake_safe minimum st tx epoch s :
  0 ≤ UNIT → 0 < minimum → reachable UNIT minimum st →
  0 ≤ ut_withdrawal_value tx → 0 ≤ ut_fee tx →
  view st !! MkKey (ut_operator tx) (ut_withdrawal_pkh tx) = Some s →
  ut_withdrawal_value tx + ut_fee tx ≤ coins s →
  match process_unstake_transaction st tx epoch minimum with
  | Ret st' _ => total_staked st' = total_staked st - (ut_withdrawal_value tx + ut_fee tx)
  | Fail st' _ => st' = st
  | Crash => False
  end.
Proof.
  intros HU Hmin Hr Hv Hf Hk Hle.
  pose proof (reachable_tracker_inv UNIT minimum st HU Hmin Hr) as Hinv.
  pose proof (unstake_outcome UNIT minimum st tx epoch s Hinv Hv Hf Hk Hle) as Ho.
  destruct (process_unstake_transaction st tx epoch minimum) as [st' []|st' e|]; [|done..].
  destruct Ho as [Hinv' Hsum]. by rewrite !(inv_total_staked UNIT).
Qed.

(** the ranking.  [by_rank] lists every entry once with its power, from
    the most to the least powerful, ties broken by validator and then
    withdrawer; it depends only on the entries, not on the order in which
    they were added nor on the indexes. *)
Theorem by_rank_spec st c t :
  wf st →
  by_rank UNIT st c t ≡ₚ (λ ks, (ks.1, power UNIT ks.2 c t)) <$> map_to_list (view st)
  ∧ StronglySorted (flip rank_le) (by_rank UNIT st c t)
  ∧ ∀ st2, wf st2 → view st2 = view st → by_rank UNIT st2 c t = by_rank UNIT st c t.
Proof.
  intros Hwf. split; [by apply by_rank_perm|]. split; [apply by_rank_sorted|].
  intros st2 Hwf2 Hv.
  assert (AntiSymm (=) (flip (rank_le (Address:=Address))))
    by (intros x y ??; by apply (anti_symm rank_le)).
  apply (StronglySorted_unique (flip rank_le)); [apply by_rank_sorted..|].
  by rewrite !by_rank_perm, Hv.
Qed.

(** queries by validator.  On a well-formed tracker the query returns
    each entry of the validator once and nothing else, and fails exactly when
    the validator has no entry; the query by withdrawer does the same for the
    withdrawer. *)
Theorem query_by_address_exact st a :
  wf st →
  match query_by_validator st a with
  | Ok es => es ≠ [] ∧ NoDup (ekey <$> es)
             ∧ ∀ k s, MkEntry k s ∈ es ↔ view st !! k = Some s ∧ validator k = a
  | Err e => e = ValidatorNotFound a ∧ ∀ k, is_Some (view st !! k) → validator k ≠ a
  | Panic => False
  end
  ∧ match query_by_withdrawer st a with
    | Ok es => es ≠ [] ∧ NoDup (ekey <$> es)
               ∧ ∀ k s, MkEntry k s ∈ es ↔ view st !! k = Some s ∧ withdrawer k = a
    | Err e => e = WithdrawerNotFound a ∧ ∀ k, is_Some (view st !! k) → withdrawer k ≠ a
    | Panic => False
    end.
Proof.
  intros Hwf. pose proof (wf_validator st Hwf a) as Hv. pose proof (wf_withdrawer st Hwf a) as Hw.
  unfold query_by_validator, query_by_withdrawer. split.
  - destruct (by_validator st !! a) as [ls|]; simpl; [by eapply read_slot|].
    split; [done|]. intros k [s (l & Hk & _)%view_lookup_Some]; [by eapply Hv|done].
  - destruct (by_withdrawer st !! a) as [ls|]; simpl; [by eapply read_slot|].
    split; [done|]. intros k [s (l & Hk & _)%view_lookup_Some]; [by eapply Hw|done].
Qed.

(** age reset after mining.  When the validator of rank [w] proposes a
    block at epoch [t], the entry of rank [i <= w] has no mining power until
    epoch [t + 1 + w - i], so that a better rank is paused for longer, and
    every entry of a worse rank is unchanged. *)
Theorem reset_mining_age_pauses st v t w i k p t' :
  wf st → 0 ≤ t → t + 1 + Z.of_nat w < U32 → 0 ≤ t' →
  rank_position v (by_rank UNIT st Mining t) = Some w →
  by_rank UNIT st Mining t !! i = Some (k, p) →
  ∃ s s', view st !! k = Some s ∧ view (reset_mining_age UNIT st v t) !! k = Some s'
    ∧ ((i ≤ w)%nat → t' ≤ t + 1 + Z.of_nat w - Z.of_nat i → power UNIT s' Mining t' = 0)
    ∧ ((w < i)%nat → s' = s).
Proof.
  intros Hwf Ht Hmax Ht' Hw Hi.
  destruct (reset_mining_age_outcome UNIT st v t w Hwf Hw) as [_ Hview].
  specialize (Hview i k p Hi). apply list_elem_of_lookup_2 in Hi as Hin.
  apply by_rank_elem in Hin as (s & Hs & _); [|done]. rewrite Hs in Hview.
  exists s. case_decide as Hiw.
  - eexists. split_and!; [done|exact Hview| |lia]. intros _ Hle.
    unfold power, sat_sub, mining_penalty. simpl.
    rewrite wadd_small by lia. rewrite Z.max_l by lia.
    unfold wit_mul_epoch, wmul. by rewrite Z.mul_0_r.
  - exists s. split_and!; [done|exact Hview|lia|done].
Qed.

(** cloning and loading.  A clone of a well-formed tracker has its own
    cells but the same entries and consistent indexes. *)
Theorem stakes_clone_same st : wf st → wf (stakes_clone st) ∧ view (stakes_clone st) = view st.
Proof. apply stakes_clone_outcome. Qed.
End theorems.

(** ** Concrete trackers *)

Abbreviation ZStakes := (Stakes.Stakes (Address:=Z)).

(** The state in which an operation leaves the tracker. *)
Definition state_of {A} (m : exec ZStakes (StakesError Z) A) : ZStakes :=
  match m with Ret s _ => s | Fail s _ => s | Crash => stakes_default end.

Definition MIN_STAKE : Z := 10000 * NANOWITS_PER_WIT.

Definition ex_tx1 : StakeTransaction := {| st_key := MkKey 1 7; st_value := 20000 * NANOWITS_PER_WIT |}.
Definition ex_tx2 : StakeTransaction := {| st_key := MkKey 2 7; st_value := 50000 * NANOWITS_PER_WIT |}.
Definition ex_state1 : ZStakes := state_of (process_stake_transaction 9 stakes_default ex_tx1 100 MIN_STAKE).
Definition ex_state : ZStakes := state_of (process_stake_transaction 9 ex_state1 ex_tx2 110 MIN_STAKE).

Lemma ex_state_reachable : reachable 9 MIN_STAKE ex_state.
Proof.
  apply rtc_l with ex_state1; [|apply rtc_once].
  - apply step_stake with ex_tx1 100; [done|vm_compute; reflexivity|left; vm_compute; discriminate|].
    left. exists tt. vm_compute; reflexivity.
  - apply step_stake with ex_tx2 110; [done|vm_compute; reflexivity|left; vm_compute; discriminate|].
    left. exists tt. vm_compute; reflexivity.
Qed.

Lemma ex_state_inv : tracker_inv 9 ex_state.
Proof. by apply (reachable_tracker_inv 9 MIN_STAKE); [| |apply ex_state_reachable]. Qed.

Lemma add_stake_refines_witness :
  ∃ st' s, add_stake 9 ex_state (MkKey 1 7) (60000 * NANOWITS_PER_WIT) 120 true MIN_STAKE = Ret st' s
    ∧ wf st' ∧ view st' !! MkKey 1 7 = Some s
    ∧ coins s = 80000 * NANOWITS_PER_WIT ∧ cap_get (epochs s) Mining = 115.
Proof.
  pose proof (add_stake_refines 9 ex_state (MkKey 1 7) (60000 * NANOWITS_PER_WIT) 120 true MIN_STAKE) as Hr.
  cbv zeta in Hr.
  replace (spec_entry (view ex_state) (MkKey 1 7) 120)
    with (MkStake (20000 * NANOWITS_PER_WIT) {| mining := 100; witnessing := 100 |} 100) in Hr
    by (vm_compute; reflexivity).
  specialize (Hr (inv_wf 9 ex_state ex_state_inv)).
  destruct (add_stake 9 ex_state (MkKey 1 7) (60000 * NANOWITS_PER_WIT) 120 true MIN_STAKE) as [st' s|st' e|].
  - destruct Hr as (_ & _ & Hwf & Hv & Hc & _ & He);
      [lia|split; [split; vm_compute; congruence|by intros []]|split; vm_compute; congruence
      |vm_compute; congruence|vm_compute; reflexivity..|].
    exists st', s. split_and!; [reflexivity|exact Hwf|rewrite Hv; apply lookup_insert_eq|exact Hc|].
    rewrite (He Mining). vm_compute. reflexivity.
  - destruct Hr as (Hlt & _);
      [lia|split; [split; vm_compute; congruence|by intros []]|split; vm_compute; congruence
      |vm_compute; congruence|vm_compute; reflexivity..|]. vm_compute in Hlt. discriminate Hlt.
  - destruct Hr as (_ & Hlt);
      [lia|split; [split; vm_compute; congruence|by intros []]|split; vm_compute; congruence
      |vm_compute; congruence|vm_compute; reflexivity..|]. vm_compute in Hlt. discriminate Hlt.
Defined.

Lemma remove_stake_refines_witness :
  ∃ st', remove_stake ex_state (MkKey 1 7) (20000 * NANOWITS_PER_WIT) 120 true MIN_STAKE = Ret st' 0
    ∧ wf st' ∧ view st' = delete (MkKey 1 7) (view ex_state).
Proof.
  pose proof (remove_stake_refines ex_state (MkKey 1 7) (20000 * NANOWITS_PER_WIT) 120 true MIN_STAKE
                (inv_wf 9 ex_state ex_state_inv) (inv_positive 9 ex_state ex_state_inv)) as Hr.
  replace (view ex_state !! MkKey 1 7)
    with (Some (MkStake (20000 * NANOWITS_PER_WIT) {| mining := 100; witnessing := 100 |} 100)) in Hr
    by (vm_compute; reflexivity).
  specialize (Hr ltac:(split; vm_compute; congruence)). cbv zeta in Hr.
  destruct (remove_stake ex_state (MkKey 1 7) (20000 * NANOWITS_PER_WIT) 120 true MIN_STAKE) as [st' n|st' e|].
  - destruct Hr as (_ & -> & Hwf & Hv). exists st'. split_and!; [reflexivity|exact Hwf|exact Hv].
  - destruct Hr as ((Hlt & _) & _). vm_compute in Hlt. discriminate Hlt.
  - destruct Hr.
Defined.

Definition ex_small : StakeTransaction := {| st_key := MkKey 5 6; st_value := 5000 * NANOWITS_PER_WIT |}.

Lemma reachable_invariant_witness :
  (wf ex_state ∧ total_staked ex_state = 70000 * NANOWITS_PER_WIT)
  ∧ ∃ st' e, process_stake_transaction 9 ex_state ex_small 150 MIN_STAKE = Fail st' e ∧ ¬ wf st'.
Proof.
  destruct (reachable_invariant 9 MIN_STAKE ex_state) as ((Hwf & _ & Ht) & Hn);
    [lia|reflexivity|exact ex_state_reachable|].
  split; [split; [exact Hwf|]; rewrite Ht; vm_compute; reflexivity|].
  destruct (Hn ex_small 150) as (st' & He & Hbad); [vm_compute; reflexivity..|].
  exists st', (AmountIsBelowMinimum (st_value ex_small) MIN_STAKE). split; [exact He|exact Hbad].
Defined.

Definition ex_utx : UnstakeTransaction :=
  {| ut_operator := 2; ut_withdrawal_pkh := 7; ut_withdrawal_value := 30000 * NANOWITS_PER_WIT; ut_fee := 1 |}.

Lemma unstake_safe_witness :
  match process_unstake_transaction ex_state ex_utx 130 MIN_STAKE with
  | Ret st' _ => total_staked st' = total_staked ex_state - (30000 * NANOWITS_PER_WIT + 1)
  | Fail st' _ => st' = ex_state
  | Crash => False
  end.
Proof.
  apply (unstake_safe 9 MIN_STAKE ex_state ex_utx 130
           (MkStake (50000 * NANOWITS_PER_WIT) {| mining := 110; witnessing := 110 |} 110));
    [lia|reflexivity|exact ex_state_reachable|vm_compute; discriminate..| |vm_compute; discriminate].
  vm_compute. reflexivity.
Defined.

Lemma by_rank_spec_witness :
  by_rank 9 ex_state Mining 200 = [(MkKey 2 7, 4500000); (MkKey 1 7, 2000000)]
  ∧ StronglySorted (flip rank_le) (by_rank 9 ex_state Mining 200).
Proof.
  split; [vm_compute; reflexivity|].
  apply (by_rank_spec 9 ex_state Mining 200 (inv_wf 9 ex_state ex_state_inv)).
Defined.

Lemma query_by_address_exact_witness :
  match query_by_withdrawer ex_state 7 with
  | Ok es => es ≠ [] ∧ NoDup (ekey <$> es)
             ∧ ∀ k s, MkEntry k s ∈ es ↔ view ex_state !! k = Some s ∧ withdrawer k = 7
  | Err e => e = WithdrawerNotFound 7 ∧ ∀ k, is_Some (view ex_state !! k) → withdrawer k ≠ 7
  | Panic => False
  end.
Proof. apply (query_by_address_exact ex_state 7 (inv_wf 9 ex_state ex_state_inv)). Defined.

Lemma reset_mining_age_pauses_witness :
  ∃ s s', view ex_state !! MkKey 2 7 = Some s
    ∧ view (reset_mining_age 9 ex_state 1 200) !! MkKey 2 7 = Some s'
    ∧ ((0 ≤ 1)%nat → 202 ≤ 200 + 1 + 1 - 0 → power 9 s' Mining 202 = 0)
    ∧ ((1 < 0)%nat → s' = s).
Proof.
  apply (reset_mining_age_pauses 9 ex_state 1 200 1 0 (MkKey 2 7) 4500000 202
           (inv_wf 9 ex_state ex_state_inv)); try lia; vm_compute; reflexivity.
Defined.

Lemma stakes_clone_same_witness :
  wf (stakes_clone ex_state) ∧ view (stakes_clone ex_state) = view ex_state.
Proof. apply (stakes_clone_same ex_state (inv_wf 9 ex_state ex_state_inv)). Defined.

(** ** Paths on which the tracker goes wrong *)

Definition below_minimum : ZStakes :=
  state_of (add_stake 9 ex_state (MkKey 5 6) (5000 * NANOWITS_PER_WIT) 150 true MIN_STAKE).
Definition staked_again : ZStakes :=
  state_of (add_stake 9 below_minimum (MkKey 5 6) MIN_STAKE 151 true MIN_STAKE).
Definition second_withdrawer : ZStakes :=
  state_of (add_stake 9 staked_again (MkKey 5 9) MIN_STAKE 152 true MIN_STAKE).

(** a rejected first stake corrupts the indexes.  When the first stake of a
      key is below the minimum, [Stakes::add_stake] fails after inserting an
      empty entry into [by_key] and before indexing it.  A later valid stake
      finds the key and does not index it either: the coins count in the total
      but the validator has no power and cannot be found, and once the
      validator has another, indexed entry, unstaking everything from the
      first one panics on the [unwrap] of the index position. *)
Theorem rejected_stake_corrupts_indexes :
  add_stake 9 ex_state (MkKey 5 6) (5000 * NANOWITS_PER_WIT) 150 true MIN_STAKE
    = Fail below_minimum (AmountIsBelowMinimum (5000 * NANOWITS_PER_WIT) MIN_STAKE)
  ∧ view below_minimum !! MkKey 5 6 = Some (MkStake 0 cap_default 150)
  ∧ total_staked staked_again = total_staked ex_state + MIN_STAKE
  ∧ query_power 9 staked_again 5 Mining 1000 = Err (ValidatorNotFound 5)
  ∧ remove_stake second_withdrawer (MkKey 5 6) MIN_STAKE 160 true MIN_STAKE = Crash.
Proof. split_and!; vm_compute; reflexivity. Qed.

(** collateral that is not reserved.  [Stakes::reserve_collateral] discards
    the result of [Stake::remove_stake]: when the remaining stake would be
    positive and below the minimum it reports success and reserves nothing. *)
Theorem reserve_collateral_ignores_minimum `{Countable Address, !OrdType Address}
    (st : Stakes (Address:=Address)) v l ls amount minimum :
  by_validator st !! v = Some (l :: ls) →
  0 < wit_sub (coins (read_value st l)) amount < minimum →
  reserve_collateral st v amount minimum = Ret st tt.
Proof.
  intros Hv Hlt. unfold reserve_collateral, stake_remove_stake. rewrite Hv.
  by rewrite decide_True by lia.
Qed.

Lemma reserve_collateral_ignores_minimum_witness :
  reserve_collateral ex_state 1 (15000 * NANOWITS_PER_WIT) MIN_STAKE = Ret ex_state tt.
Proof.
  apply (reserve_collateral_ignores_minimum ex_state 1 0%nat []);
    [vm_compute; reflexivity|]. split; vm_compute; reflexivity.
Defined.

Lemma length_every {A} step (l : list A) skip :
  (1 ≤ step → length l ≤ skip + length (every skip step l) * step)%nat.
Proof.
  intros Hstep. revert skip. induction l as [|x l IH]; intros skip; simpl; [lia|].
  destruct skip as [|skip]; simpl.
  - specialize (IH (step - 1)%nat). lia.
  - specialize (IH skip). lia.
Qed.

(** an even census.  With the strategy [Evenly(count)] the step is the
    integer quotient of the number of entries by [count].  With at least
    [count] entries the census has exactly [count] members; with fewer entries
    the step is zero and [step_by] panics instead of returning all of them. *)
Theorem census_evenly `{Countable Address, !OrdType Address}
    UNIT (st : Stakes (Address:=Address)) c t count :
  ((length (by_rank UNIT st c t) < count)%nat → census UNIT st c t (Evenly count) = Panic)
  ∧ ((0 < count ≤ length (by_rank UNIT st c t))%nat →
     ∃ l, census UNIT st c t (Evenly count) = Ok l ∧ length l = count).
Proof.
  unfold census, step_by. rewrite length_fmap. set (n := length _). split; intros Hn.
  - rewrite decide_False by lia. by rewrite Nat.div_small.
  - rewrite decide_False by lia. pose proof (Nat.div_str_pos n count ltac:(lia)) as Hpos.
    rewrite decide_False by lia. eexists. split; [done|].
    pose proof (length_every (n / count) (by_rank UNIT st c t).*1 0 ltac:(lia)) as Hl.
    rewrite length_fmap in Hl. fold n in Hl. rewrite length_take.
    pose proof (Nat.Div0.mul_div_le n count) as Hm. apply Nat.min_l.
    apply (Nat.mul_le_mono_pos_r _ _ (n / count)); lia.
Qed.

Lemma census_evenly_witness :
  census 9 ex_state Mining 200 (Evenly 3) = Panic
  ∧ ∃ l, census 9 ex_state Mining 200 (Evenly 2) = Ok l ∧ length l = 2%nat.
Proof.
  split.
  - apply (census_evenly 9 ex_state Mining 200 3). vm_compute. lia.
  - apply (census_evenly 9 ex_state Mining 200 2). vm_compute. lia.
Defined.

(** comparison of shared entries.  [PartialEq for SyncStakeEntry] holds
    exactly when the coins are equal: epochs and nonces are never compared,
    since the code compares those of the other entry with themselves. *)
Theorem sync_entry_eqb_ignores_epochs (a b : Stake) :
  sync_entry_eqb a b = true ↔ coins a = coins b.
Proof. unfold sync_entry_eqb. rewrite !andb_true_iff, !bool_decide_eq_true. naive_solver. Qed.
