(* ===== verification/Trs.v ===== *)
(** * The total reputation set

    Models reputation/src/trs.rs and its errors in reputation/src/error.rs: the
    cache from identities to their total reputation, and the queue of
    reputation packets ordered by expiration.  The node instantiates the
    reputation type with [Reputation(u32)] and the expiration with
    [Alpha(u32)] (data_structures/src/chain/mod.rs), so that [+=] and [-=] are
    the wrapping operations of [u32].

    A [HashMap] is a [gmap]; the loops over one visit its entries in the order
    of [map_to_list], and none of the results below depends on that order. *)

From S2P Require Import Prelude.
From stdpp Require Import base tactics numbers list gmap.
From Stdlib Require Import ZArith Lia.
Local Open Scope Z_scope.
Local Open Scope rust_scope.

Record NonSortedAlpha := { alpha : Z; max_alpha : Z }.
Record RepError := { old_rep : Z; new_rep : Z }.
Inductive InconsistentCacheError := Inconsistent.

Section trs.
Context `{Countable K}.
Implicit Types m : gmap K Z.

(** ** The cache *)

(** [*map.entry(k).or_default() += v], at the width [w] of the values. *)
Definition entry_add (w : Z) m (k : K) (v : Z) : gmap K Z :=
  <[k := wadd w (default 0 (m !! k)) v]> m.

Definition increment_cache (w : Z) m (k : K) (v : Z) : gmap K Z :=
  if decide (v = 0) then m else entry_add w m k v.

Definition decrement_cache (w : Z) m (k : K) (v : Z) : result InconsistentCacheError (gmap K Z) :=
  if decide (v = 0) then Ok m
  else match m !! k with
       | Some x =>
           match x ?= v with
           | Gt => Ok (<[k := wsub w x v]> m)
           | Eq => Ok (delete k m)
           | Lt => Err Inconsistent
           end
       | None => Err Inconsistent
       end.

(** ** State *)

Record TotalReputationSet := MkTrs {
  map : gmap K Z;
  queue : list (Z * gmap K Z);          (* front first *)
}.

(** [TotalReputationSet::new] and [with_hasher]. *)
Definition trs_new : TotalReputationSet := MkTrs ∅ [].

(** ** Gaining reputation *)

(** The body of the loops of [gain] over the positive part of [diff]: the
    cache and the packet being filled. *)
Definition gain_step (acc : gmap K Z * gmap K Z) (kv : K * Z) : gmap K Z * gmap K Z :=
  (increment_cache U32 acc.1 kv.1 kv.2, entry_add U32 acc.2 kv.1 kv.2).

Definition positive_diff (diff : list (K * Z)) : list (K * Z) :=
  filter (λ kv, kv.2 > 0) diff.

Definition gain (t : TotalReputationSet) (expiration : Z) (diff : list (K * Z)) :
    exec TotalReputationSet NonSortedAlpha unit :=
  match last (queue t) with
  | Some (max, back) =>
      if decide (max > expiration) then
        Fail t {| alpha := expiration; max_alpha := max |}
      else if decide (max = expiration) then
        let '(m, back') := foldl gain_step (map t, back) (positive_diff diff) in
        Ret (MkTrs m (removelast (queue t) ++ [(max, back')])) tt
      else
        let '(m, back') := foldl gain_step (map t, ∅) (positive_diff diff) in
        Ret (MkTrs m (queue t ++ [(expiration, back')])) tt
  | None =>
      let '(m, back') := foldl gain_step (map t, ∅) (positive_diff diff) in
      Ret (MkTrs m (queue t ++ [(expiration, back')])) tt
  end.

(** [from_queue] and [from_queue_with_hasher]. *)
Fixpoint from_queue_onto (t : TotalReputationSet) (q : list (Z * list (K * Z))) :
    exec TotalReputationSet NonSortedAlpha unit :=
  match q with
  | [] => Ret t tt
  | (a, diff) :: q => let! (t', _) := gain t a diff in from_queue_onto t' q
  end.
Definition from_queue (q : list (Z * list (K * Z))) :
    exec TotalReputationSet NonSortedAlpha unit := from_queue_onto trs_new q.

(** ** Expiration *)

(** The inner loop of [expire] over the entries of one packet; [None] is the
    panic of the [unwrap]. *)
Fixpoint expire_entries m (total : Z) (entries : list (K * Z)) : option (gmap K Z * Z) :=
  match entries with
  | [] => Some (m, total)
  | (k, v) :: entries =>
      match decrement_cache U32 m k v with
      | Ok m' => expire_entries m' (wadd U32 total v) entries
      | _ => None
      end
  end.

Fixpoint expire_loop (a : Z) m (total : Z) (q : list (Z * gmap K Z)) :
    option (TotalReputationSet * Z) :=
  match q with
  | [] => Some (MkTrs m [], total)
  | (expiration, front) :: q' =>
      if decide (expiration > a) then Some (MkTrs m q, total)
      else match expire_entries m total (map_to_list front) with
           | Some (m', total') => expire_loop a m' total' q'
           | None => None
           end
  end.

Definition expire (t : TotalReputationSet) (a : Z) : exec TotalReputationSet Empty_set Z :=
  match expire_loop a (map t) 0 (queue t) with
  | Some (t', total) => Ret t' total
  | None => Crash
  end.

(** ** Queries *)

Definition get (t : TotalReputationSet) (id : K) : Z := default 0 (map t !! id).
Definition get_sum (t : TotalReputationSet) (ids : list K) : Z :=
  foldl (λ acc id, wadd U32 acc (get t id)) 0 ids.
Definition get_total_sum (t : TotalReputationSet) : Z :=
  foldl (λ acc kv, wadd U32 acc kv.2) 0 (map_to_list (map t)).
Definition num_identities (t : TotalReputationSet) : nat := size (map t).
Definition trs_clear (t : TotalReputationSet) : TotalReputationSet := MkTrs ∅ [].

(** ** Penalization *)

(** [spend_coin]: the new values of the coin and of the amount to subtract,
    with the two [retain] flags. *)
Definition spend_coin (x ts : Z) : (Z * bool) * (Z * bool) :=
  match x ?= ts with
  | Gt => ((wsub U32 x ts, true), (ts, false))
  | Eq => ((x, false), (ts, false))
  | Lt => ((x, false), (wsub U32 ts x, true))
  end.

(** Keep or drop the entry of [k] in a map, as [retain] and
    [Entry::remove] do. *)
Definition set_entry m (k : K) (vr : Z * bool) : gmap K Z :=
  if vr.2 then <[k := vr.1]> m else delete k m.

(** [to_subtract.retain(..)], visiting the entries of [to_subtract]. *)
Definition retain_ts_step (acc : gmap K Z * gmap K Z) (kt : K * Z) : gmap K Z * gmap K Z :=
  let '(rep_diff, to_subtract) := acc in
  match rep_diff !! kt.1 with
  | Some x =>
      let '(xr, tr) := spend_coin x kt.2 in
      (set_entry rep_diff kt.1 xr, set_entry to_subtract kt.1 tr)
  | None => acc
  end.

(** [rep_diff.retain(..)], visiting the entries of [rep_diff]. *)
Definition retain_rep_step (acc : gmap K Z * gmap K Z) (kx : K * Z) : gmap K Z * gmap K Z :=
  let '(rep_diff, to_subtract) := acc in
  match to_subtract !! kx.1 with
  | Some ts =>
      let '(xr, tr) := spend_coin kx.2 ts in
      (set_entry rep_diff kx.1 xr, set_entry to_subtract kx.1 tr)
  | None => acc
  end.

Definition expire_packets (rep_diff to_subtract : gmap K Z) : gmap K Z * gmap K Z :=
  if decide (size to_subtract < size rep_diff)%nat
  then foldl retain_ts_step (rep_diff, to_subtract) (map_to_list to_subtract)
  else foldl retain_rep_step (rep_diff, to_subtract) (map_to_list rep_diff).

(** The loop of [penalize_many] over the queue, back to front: on the
    reversed queue. *)
Fixpoint penalize_queue (rq : list (Z * gmap K Z)) (to_subtract : gmap K Z) :
    list (Z * gmap K Z) * gmap K Z :=
  match rq with
  | [] => ([], to_subtract)
  | (a, rep_diff) :: rq =>
      let '(rep_diff', ts') := expire_packets rep_diff to_subtract in
      if decide (ts' = ∅) then ((a, rep_diff') :: rq, ts')
      else let '(rq', ts'') := penalize_queue rq ts' in ((a, rep_diff') :: rq', ts'')
  end.

(** The first phase of [penalize_many]: the lazy [filter_map] collected into
    a [Result].  Identities are handled in order and the cache is updated on
    the way; the first error stops the iteration with the cache updates made
    so far. *)
Fixpoint penalize_cache m (total : Z) (ts : gmap K Z) (ids_fs : list (K * (Z → Z))) :
    gmap K Z * result RepError (Z * gmap K Z) :=
  match ids_fs with
  | [] => (m, Ok (total, ts))
  | (id, next_v) :: ids_fs =>
      let old_v := default 0 (m !! id) in
      let new_v := next_v old_v in
      match new_v ?= old_v with
      | Gt => (m, Err {| old_rep := old_v; new_rep := new_v |})
      | Eq => penalize_cache m total ts ids_fs
      | Lt =>
          let d := wsub U32 old_v new_v in
          match decrement_cache U32 m id d with
          | Ok m' => penalize_cache m' (wadd U32 total d) (<[id := d]> ts) ids_fs
          | _ => (m, Panic)
          end
      end
  end.

Definition penalize_many (t : TotalReputationSet) (ids_fs : list (K * (Z → Z))) :
    exec TotalReputationSet RepError Z :=
  match penalize_cache (map t) 0 ∅ ids_fs with
  | (m, Err e) => Fail (MkTrs m (queue t)) e
  | (_, Panic) => Crash
  | (m, Ok (total, ts)) =>
      let '(rq, rest) := penalize_queue (reverse (queue t)) ts in
      if decide (rest = ∅) then Ret (MkTrs m (reverse rq)) total
      else Crash (* assert!(to_subtract.is_empty()) *)
  end.

Definition penalize (t : TotalReputationSet) (id : K) (next_v : Z → Z) :
    exec TotalReputationSet RepError Z := penalize_many t [(id, next_v)].
End trs.
Arguments TotalReputationSet K {_ _}.
