(* ===== verification/TrsCorrect.v ===== *)
(** * Correctness of the total reputation set

    The invariant of the set ([consistent]) ties the cache to the queue: the
    cached reputation of an identity is the sum of its unexpired packets.  The
    operations of Trs.v preserve it and have the expected effect on the
    reputation of every identity. *)

From stdpp Require Import base tactics numbers list sorting gmap.
From Stdlib Require Import ZArith Lia.
From S2P Require Import Prelude Trs.
Local Open Scope Z_scope.

Section correct.
Context `{Countable K}.
Implicit Types (m : gmap K Z) (q : list (Z * gmap K Z)) (t : TotalReputationSet K).

(** ** The invariant *)

(** The packet value of identity [k], zero when it has none. *)
Definition packet_of (k : K) (p : Z * gmap K Z) : Z := default 0 (p.2 !! k).
(** The reputation of [k] in a queue, and of all identities together. *)
Definition owed (k : K) q : Z := zsum (packet_of k <$> q).
Definition qtotal q : Z := zsum ((λ p, msum id p.2) <$> q).

(** A cache entry: absent when the reputation is zero. *)
Definition nz (x : Z) : option Z := if decide (x = 0) then None else Some x.

Definition packets_positive q : Prop :=
  Forall (λ p, ∀ k v, p.2 !! k = Some v → 0 < v) q.
Definition cache_ok m q : Prop := ∀ k, m !! k = nz (owed k q).

Record consistent t : Prop := {
  cons_cache : cache_ok (map t) (queue t);
  cons_positive : packets_positive (queue t);
  cons_sorted : StronglySorted Z.lt (queue t).*1;
  cons_total : qtotal (queue t) < U32;
}.

Lemma default_nz x : default 0 (nz x) = x.
Proof. unfold nz. case_decide; simpl; lia. Qed.

Lemma packet_nonneg k p q : packets_positive q → p ∈ q → 0 ≤ packet_of k p.
Proof.
  intros Hq Hp. unfold packet_of. destruct (p.2 !! k) as [v|] eqn:Hv; simpl; [|lia].
  eapply (Forall_forall _ q) in Hq; [|done]. apply Hq in Hv. lia.
Qed.

Lemma packet_le_total k p q : packets_positive q → p ∈ q → packet_of k p ≤ msum id p.2.
Proof.
  intros Hq Hp. eapply (Forall_forall _ q) in Hq; [|done]. unfold packet_of.
  assert (∀ k v, p.2 !! k = Some v → 0 ≤ id v) as Hnn by (intros k' v Hv; apply Hq in Hv; unfold id; lia).
  destruct (p.2 !! k) as [v|] eqn:Hv; simpl; [|by apply msum_nonneg].
  by apply (msum_lookup_le id p.2 k v).
Qed.

Lemma owed_bounds k q : packets_positive q → 0 ≤ owed k q ≤ qtotal q.
Proof.
  intros Hq. unfold owed, qtotal. induction q as [|p q IH]; csimpl; [lia|].
  inversion Hq as [|?? Hp Hq']; subst. specialize (IH Hq').
  assert (p ∈ p :: q) as Hin by (apply elem_of_cons; by left).
  pose proof (packet_nonneg k p _ Hq Hin). pose proof (packet_le_total k p _ Hq Hin). lia.
Qed.

Lemma qtotal_nonneg q : packets_positive q → 0 ≤ qtotal q.
Proof.
  unfold packets_positive, qtotal. induction 1 as [|p q Hp Hq IH]; csimpl; [lia|].
  assert (0 ≤ msum id p.2); [|lia]. apply msum_nonneg. intros k v Hv. apply Hp in Hv. unfold id. lia.
Qed.

Lemma owed_app k q1 q2 : owed k (q1 ++ q2) = owed k q1 + owed k q2.
Proof. unfold owed. by rewrite fmap_app, zsum_app. Qed.
Lemma qtotal_app q1 q2 : qtotal (q1 ++ q2) = qtotal q1 + qtotal q2.
Proof. unfold qtotal. by rewrite fmap_app, zsum_app. Qed.
Lemma owed_reverse k q : owed k (reverse q) = owed k q.
Proof. unfold owed. by rewrite reverse_Permutation. Qed.

Lemma qtotal_snoc_empty q a : qtotal (q ++ [(a, ∅)]) = qtotal q.
Proof. rewrite qtotal_app. unfold qtotal at 2. rewrite zsum_cons. simpl. rewrite msum_empty. lia. Qed.
Lemma owed_snoc_empty k q a : owed k (q ++ [(a, ∅)]) = owed k q.
Proof.
  rewrite owed_app. unfold owed at 2, packet_of. rewrite zsum_cons. simpl. rewrite lookup_empty. simpl. lia.
Qed.

Lemma get_owed t k : consistent t → get t k = owed k (queue t).
Proof. intros Ht. unfold get. rewrite (cons_cache t Ht). apply default_nz. Qed.

Lemma trs_new_consistent : consistent trs_new.
Proof. split; [by intros k|constructor|constructor|reflexivity]. Qed.

(** ** Cache operations *)

Lemma decrement_cache_spec w m k s v :
  m !! k = nz s → 0 < v → v ≤ s → s < w →
  ∃ m', decrement_cache w m k v = Ok m' ∧ m' !! k = nz (s - v) ∧ ∀ k', k' ≠ k → m' !! k' = m !! k'.
Proof.
  intros Hk Hv Hs Hmax. unfold decrement_cache. rewrite decide_False by lia.
  rewrite Hk. unfold nz at 1. rewrite decide_False by lia.
  destruct (Z.compare_spec s v) as [->|Hlt|Hgt]; [|lia|].
  - eexists. split; [done|]. split.
    + rewrite lookup_delete_eq, Z.sub_diag. done.
    + intros. by rewrite lookup_delete_ne.
  - eexists. split; [done|]. rewrite wsub_small by lia. split.
    + rewrite lookup_insert_eq. unfold nz. by rewrite decide_False by lia.
    + intros. by rewrite lookup_insert_ne.
Qed.

Lemma lookup_entry_add U32 m k v k' :
  default 0 (entry_add U32 m k v !! k')
  = if decide (k = k') then wadd U32 (default 0 (m !! k)) v else default 0 (m !! k').
Proof. unfold entry_add. rewrite lookup_insert. by case_decide. Qed.

Lemma msum_entry_add U32 m k v :
  (∀ k v, m !! k = Some v → 0 < v) → 0 < v → msum id m + v < U32 →
  msum id (entry_add U32 m k v) = msum id m + v ∧ ∀ k' v', entry_add U32 m k v !! k' = Some v' → 0 < v'.
Proof.
  intros Hm Hv Hmax. unfold entry_add.
  assert (∀ k v, m !! k = Some v → 0 ≤ id v) as Hnn by (intros k' v' Hv'; apply Hm in Hv'; unfold id; lia).
  assert (0 ≤ default 0 (m !! k) ≤ msum id m) as Hb.
  { destruct (m !! k) as [x|] eqn:Hx; simpl.
    - pose proof (msum_lookup_le id m k x Hnn Hx). apply Hm in Hx. unfold id in *. lia.
    - split; [done|]. by apply msum_nonneg. }
  rewrite wadd_small by lia. split.
  - destruct (m !! k) as [x|] eqn:Hx; simpl in *.
    + rewrite (msum_insert id m k x) by done. unfold id. lia.
    + rewrite msum_insert_new by done. unfold id. lia.
  - intros k' v' [[<- <-]|[_ Hk']]%lookup_insert_Some; [lia|]. by eapply Hm.
Qed.

(** ** Gain *)

(** The reputation that [diff] gives to [k]. *)
Definition gained (k : K) (diff : list (K * Z)) : Z :=
  zsum ((λ kv, if decide (kv.1 = k) then kv.2 else 0) <$> diff).

(** The cache [m] is right for the queue [q] with the packet [b] at its end. *)
Definition filling (q : list (Z * gmap K Z)) (a : Z) (mb : gmap K Z * gmap K Z) : Prop :=
  cache_ok mb.1 (q ++ [(a, mb.2)]) ∧ packets_positive (q ++ [(a, mb.2)]).

Lemma gain_step_spec q a mb k v :
  filling q a mb → 0 < v → qtotal (q ++ [(a, mb.2)]) + v < U32 →
  filling q a (gain_step mb (k, v))
  ∧ (∀ k', owed k' (q ++ [(a, (gain_step mb (k, v)).2)])
           = owed k' (q ++ [(a, mb.2)]) + if decide (k = k') then v else 0)
  ∧ qtotal (q ++ [(a, (gain_step mb (k, v)).2)]) = qtotal (q ++ [(a, mb.2)]) + v.
Proof.
  destruct mb as [m b]. intros [Hc Hp] Hv Hmax. simpl in *.
  pose proof Hp as Hp0. apply Forall_app in Hp as [Hq Hb].
  inversion_clear Hb as [|?? Hb' _]. simpl in Hb'.
  rewrite !qtotal_app in *. unfold qtotal at 2 in Hmax. unfold qtotal at 2 4. csimpl in *.
  pose proof (qtotal_nonneg q Hq).
  destruct (msum_entry_add U32 b k v Hb' Hv) as [Hsum Hpos]; [lia|]. rewrite Hsum.
  assert (∀ k', owed k' (q ++ [(a, entry_add U32 b k v)])
                = owed k' (q ++ [(a, b)]) + if decide (k = k') then v else 0) as How.
  { intros k'. rewrite !owed_app. unfold owed at 2 4, packet_of. csimpl.
    rewrite lookup_entry_add.
    pose proof (owed_bounds k (q ++ [(a, b)]) Hp0) as Hbound.
    rewrite qtotal_app, owed_app in Hbound. unfold owed at 2 4, qtotal at 2, packet_of in Hbound.
    csimpl in Hbound.
    pose proof (owed_bounds k q Hq).
    assert (0 ≤ default 0 (b !! k)).
    { destruct (b !! k) as [x|] eqn:Hx; simpl; [apply Hb' in Hx; lia|lia]. }
    case_decide; subst; [rewrite wadd_small by lia; lia|lia]. }
  split; [|split; [done|lia]]. split; simpl.
  - intros k'. rewrite How. unfold increment_cache. rewrite decide_False by lia.
    unfold entry_add. rewrite lookup_insert. case_decide as Hk; subst.
    + rewrite (Hc k'), default_nz.
      pose proof (owed_bounds k' _ Hp0) as Hbd. rewrite qtotal_app in Hbd. unfold qtotal at 2 in Hbd. csimpl in Hbd.
      rewrite wadd_small by lia. unfold nz. by rewrite decide_False by lia.
    + rewrite Z.add_0_r. apply Hc.
  - apply Forall_app. split; [done|]. by constructor.
Qed.

Lemma gain_fold_spec q a l : ∀ mb,
  filling q a mb → Forall (λ kv, 0 < kv.2) l → qtotal (q ++ [(a, mb.2)]) + zsum l.*2 < U32 →
  let mb' := foldl gain_step mb l in
  filling q a mb'
  ∧ (∀ k, owed k (q ++ [(a, mb'.2)]) = owed k (q ++ [(a, mb.2)]) + gained k l)
  ∧ qtotal (q ++ [(a, mb'.2)]) = qtotal (q ++ [(a, mb.2)]) + zsum l.*2.
Proof.
  induction l as [|[k v] l IH]; intros mb Hf Hl Hmax.
  { split_and!; [done|intros k; unfold gained; simpl; lia|simpl; lia]. }
  inversion_clear Hl as [|?? Hv Hl']. csimpl in *.
  assert (0 ≤ zsum l.*2).
  { apply zsum_nonneg, Forall_fmap. eapply Forall_impl; [done|]. intros [] ?; simpl in *; lia. }
  destruct (gain_step_spec q a mb k v Hf Hv) as (Hf' & How & Htot); [lia|].
  destruct (IH (gain_step mb (k, v))) as (Hf'' & How' & Htot'); [done..|lia|].
  split_and!; [done| |lia].
  intros k'. rewrite How', How. unfold gained. csimpl. lia.
Qed.

Lemma positive_diff_spec diff :
  Forall (λ kv, 0 ≤ kv.2) diff →
  Forall (λ kv, 0 < kv.2) (positive_diff diff)
  ∧ zsum (positive_diff diff).*2 = zsum diff.*2
  ∧ ∀ k, gained k (positive_diff diff) = gained k diff.
Proof.
  unfold positive_diff. induction 1 as [|[k v] diff Hv Hd (IH1 & IH2 & IH3)]; [by split_and!|].
  simpl in Hv. rewrite filter_cons. case_decide as Hp; simpl in Hp.
  - split_and!.
    + constructor; [simpl; lia|done].
    + rewrite !zsum_cons, IH2. done.
    + intros k'. specialize (IH3 k'). unfold gained in *. by rewrite !zsum_cons, IH3.
  - split_and!; [done|rewrite zsum_cons; simpl; lia|]. intros k'. rewrite IH3. unfold gained. rewrite zsum_cons. simpl. case_decide; lia.
Qed.

Lemma filling_new t a : consistent t → filling (queue t) a (map t, ∅).
Proof.
  intros Ht. split; simpl.
  - intros k. by rewrite (cons_cache t Ht), owed_snoc_empty.
  - apply Forall_app. split; [apply Ht|]. constructor; [|done]. intros k v Hv. simpl in Hv. by rewrite lookup_empty in Hv.
Qed.

Lemma StronglySorted_snoc (l : list Z) x y :
  StronglySorted Z.lt (l ++ [x]) → x < y → StronglySorted Z.lt (l ++ [x; y]).
Proof.
  induction l as [|z l IH]; simpl; intros Hs Hlt; inversion_clear Hs as [|?? Hs' Hf].
  - repeat constructor. done.
  - constructor; [by apply IH|]. apply Forall_app in Hf as [Hf1 Hf2]. inversion_clear Hf2.
    apply Forall_app. split; [done|]. repeat constructor; lia.
Qed.

Lemma removelast_snoc_last q x : last q = Some x → removelast q ++ [x] = q.
Proof.
  intros Hl. apply last_Some in Hl as [q' ->]. by rewrite removelast_last.
Qed.

(** A filled packet at the end of a queue gives a consistent set. *)
Lemma filling_consistent t q0 a mb l :
  consistent t → filling q0 a mb →
  (∀ k, owed k (q0 ++ [(a, mb.2)]) = owed k (queue t) + gained k l) →
  qtotal (q0 ++ [(a, mb.2)]) = qtotal (queue t) + zsum l.*2 →
  qtotal (queue t) + zsum l.*2 < U32 →
  StronglySorted Z.lt (q0 ++ [(a, mb.2)]).*1 →
  let t' := MkTrs mb.1 (q0 ++ [(a, mb.2)]) in
  consistent t' ∧ (∀ k, get t' k = get t k + gained k l) ∧ qtotal (queue t') = qtotal (queue t) + zsum l.*2.
Proof.
  intros Ht [Hc Hpos] How Htot Hmax Hsort t'.
  assert (consistent t') as Hcons by (split; simpl; [done..|lia]).
  split_and!; [done| |done]. intros k. by rewrite !get_owed by done.
Qed.

(** A new packet is appended. *)
Lemma gain_new_packet t a l :
  consistent t → Forall (λ kv, 0 < kv.2) l → qtotal (queue t) + zsum l.*2 < U32 →
  match last (queue t) with Some (max, _) => max < a | None => True end →
  let mb := foldl gain_step (map t, ∅) l in
  let t' := MkTrs mb.1 (queue t ++ [(a, mb.2)]) in
  consistent t' ∧ (∀ k, get t' k = get t k + gained k l) ∧ qtotal (queue t') = qtotal (queue t) + zsum l.*2.
Proof.
  intros Ht Hl Hmax Hlast mb.
  destruct (gain_fold_spec (queue t) a l (map t, ∅)) as (Hf & How & Htot); [by apply filling_new|done| |].
  { simpl. rewrite qtotal_snoc_empty. lia. }
  fold mb in Hf, How, Htot. simpl in How, Htot. rewrite qtotal_snoc_empty in Htot.
  apply filling_consistent; [done..| |done|done|].
  - intros k. by rewrite How, owed_snoc_empty.
  - pose proof (cons_sorted t Ht) as Hs. destruct (last (queue t)) as [[max back]|] eqn:El.
    + rewrite <-(removelast_snoc_last _ _ El) in Hs |- *. rewrite !fmap_app in *. simpl in *.
      rewrite <-app_assoc. by apply StronglySorted_snoc.
    + apply last_None in El. rewrite El. simpl. by repeat constructor.
Qed.

(** The last packet is extended. *)
Lemma gain_same_packet t a back l :
  consistent t → Forall (λ kv, 0 < kv.2) l → qtotal (queue t) + zsum l.*2 < U32 →
  last (queue t) = Some (a, back) →
  let mb := foldl gain_step (map t, back) l in
  let t' := MkTrs mb.1 (removelast (queue t) ++ [(a, mb.2)]) in
  consistent t' ∧ (∀ k, get t' k = get t k + gained k l) ∧ qtotal (queue t') = qtotal (queue t) + zsum l.*2.
Proof.
  intros Ht Hl Hmax El mb. pose proof (removelast_snoc_last _ _ El) as Hq.
  set (q0 := removelast (queue t)) in *.
  destruct (gain_fold_spec q0 a l (map t, back)) as (Hf & How & Htot); simpl.
  - split; simpl; rewrite Hq; apply Ht.
  - done.
  - rewrite Hq. lia.
  - fold mb in Hf, How, Htot. simpl in How, Htot. rewrite Hq in How, Htot.
    apply filling_consistent; [done..|].
    pose proof (cons_sorted t Ht) as Hs. rewrite <-Hq in Hs. by rewrite fmap_app in *.
Qed.

(** [gain] with an expiration that is not before the last one. *)
Lemma gain_outcome t a diff :
  consistent t → Forall (λ kv, 0 ≤ kv.2) diff → qtotal (queue t) + zsum diff.*2 < U32 →
  match last (queue t) with Some (max, _) => max ≤ a | None => True end →
  ∃ t', gain t a diff = Ret t' tt ∧ consistent t'
    ∧ (∀ k, get t' k = get t k + gained k diff)
    ∧ qtotal (queue t') = qtotal (queue t) + zsum diff.*2.
Proof.
  intros Ht Hd Hmax Hlast. destruct (positive_diff_spec diff Hd) as (Hp & Hsum & Hg).
  setoid_rewrite <-Hg. rewrite <-Hsum in *. unfold gain. set (l := positive_diff diff) in *.
  pose proof (gain_new_packet t a l Ht Hp Hmax) as Hnew.
  destruct (last (queue t)) as [[max back]|] eqn:El.
  - rewrite decide_False by lia. case_decide as Heq; subst.
    + pose proof (gain_same_packet t a back l Ht Hp Hmax El) as Hsame.
      destruct (foldl gain_step (map t, back) l) as [m back']. by eexists.
    + destruct (foldl gain_step (map t, ∅) l) as [m back']. eexists. split; [done|]. apply Hnew. lia.
  - destruct (foldl gain_step (map t, ∅) l) as [m back']. eexists. split; [done|]. by apply Hnew.
Qed.

(** ** Expiration *)

(** Decrementing the cache by the entries of a packet leaves the cache of the
    other packets. *)
Lemma expire_entries_spec q es : ∀ m total,
  packets_positive q → NoDup es.*1 → Forall (λ kv, 0 < kv.2) es →
  (∀ k, m !! k = nz (owed k q + default 0 (list_to_map (M:=gmap K Z) es !! k))) →
  qtotal q + zsum es.*2 < U32 → 0 ≤ total → total + zsum es.*2 < U32 →
  ∃ m', expire_entries m total es = Some (m', total + zsum es.*2) ∧ cache_ok m' q.
Proof.
  induction es as [|[k v] es IH]; intros m total Hq Hnd Hpos Hm Hmax Ht Htmax.
  { exists m. split; [simpl; do 2 f_equal; lia|]. intros k. rewrite Hm. simpl. rewrite lookup_empty. simpl.
    by rewrite Z.add_0_r. }
  inversion_clear Hnd as [|?? Hk Hnd']. inversion_clear Hpos as [|?? Hv Hpos']. simpl in Hv.
  rewrite zsum_cons in *. simpl in Hmax, Htmax |- *.
  assert (0 ≤ zsum es.*2).
  { apply zsum_nonneg, Forall_fmap. eapply Forall_impl; [done|]. intros [] ?; simpl in *; lia. }
  pose proof (owed_bounds k q Hq) as Hbd.
  destruct (decrement_cache_spec U32 m k (owed k q + v) v) as (m1 & -> & Hm1 & Hother); [|lia..|].
  { rewrite Hm. simpl. by rewrite lookup_insert_eq. }
  rewrite wadd_small by lia.
  destruct (IH m1 (total + v)) as (m' & -> & Hc); [done..| |lia|lia|lia|].
  - intros k'. destruct (decide (k' = k)) as [->|Hne].
    + rewrite Hm1, not_elem_of_list_to_map_1 by done. simpl. f_equal. lia.
    + rewrite Hother, Hm by done. simpl. by rewrite lookup_insert_ne.
  - exists m'. split; [|done]. do 2 f_equal. lia.
Qed.

(** The queue after expiring everything up to [a]. *)
Definition unexpired (a : Z) q : list (Z * gmap K Z) := filter (λ p, a < p.1) q.

Lemma unexpired_sorted a p q : StronglySorted Z.lt (p :: q).*1 → a < p.1 → unexpired a (p :: q) = p :: q.
Proof.
  intros Hs Ha. inversion_clear Hs as [|?? _ Hf]. unfold unexpired. rewrite filter_cons_True by done.
  f_equal. rewrite Forall_fmap in Hf. induction Hf as [|p' q Hp' Hf IH]; [done|].
  simpl in Hp'. rewrite filter_cons_True by lia. by rewrite IH.
Qed.

Lemma expire_loop_spec a q : ∀ m total,
  cache_ok m q → packets_positive q → StronglySorted Z.lt q.*1 →
  0 ≤ total → total + qtotal q < U32 →
  ∃ m', expire_loop a m total q
        = Some (MkTrs m' (unexpired a q), total + (qtotal q - qtotal (unexpired a q)))
    ∧ cache_ok m' (unexpired a q).
Proof.
  induction q as [|[e front] q IH]; intros m total Hc Hpos Hsort Ht Hmax; simpl.
  { exists m. split; [|done]. replace (unexpired a []) with (@nil (Z * gmap K Z)) by done.
    do 2 f_equal. lia. }
  case_decide as He.
  - exists m. rewrite unexpired_sorted by (done || simpl; lia). split; [|done]. do 2 f_equal. lia.
  - inversion_clear Hpos as [|?? Hf Hq]. inversion_clear Hsort as [|?? Hsort' _]. simpl in Hf.
    unfold unexpired. rewrite filter_cons_False by (simpl; lia). fold (unexpired a q).
    assert (qtotal ((e, front) :: q) = msum id front + qtotal q) as Htot by done.
    assert (zsum (map_to_list front).*2 = msum id front) as Hz by done.
    pose proof (qtotal_nonneg q Hq).
    assert (0 ≤ msum id front) by (apply msum_nonneg; intros k v Hv; apply Hf in Hv; unfold id; lia).
    destruct (expire_entries_spec q (map_to_list front) m total) as (m1 & -> & Hc1); try done; try lia.
    + apply NoDup_fst_map_to_list.
    + apply Forall_forall. intros [k v] Hkv%elem_of_map_to_list. by apply (Hf k).
    + intros k. rewrite list_to_map_to_list, Hc. f_equal. unfold owed. rewrite zsum_cons. unfold packet_of at 1.
      simpl. lia.
    + rewrite Hz. destruct (IH m1 (total + msum id front)) as (m' & -> & Hc'); [done..|lia|lia|].
      exists m'. split; [|done]. do 2 f_equal. lia.
Qed.

Lemma qtotal_unexpired a q : packets_positive q → qtotal (unexpired a q) ≤ qtotal q.
Proof.
  unfold unexpired. induction q as [|p q IH]; intros Hq; [done|].
  pose proof (qtotal_nonneg [p]) as Hp. inversion_clear Hq as [|?? H1 H2]. specialize (IH H2).
  assert (0 ≤ msum id p.2) by (apply msum_nonneg; intros k v Hv; apply H1 in Hv; unfold id; lia).
  rewrite filter_cons. unfold qtotal in *. case_decide; rewrite !zsum_cons; lia.
Qed.

Lemma unexpired_positive a q : packets_positive q → packets_positive (unexpired a q).
Proof.
  intros Hq. apply Forall_forall. intros p [_ Hp]%list_elem_of_filter.
  by eapply (Forall_forall _ q) in Hq.
Qed.

Lemma unexpired_keeps_order a q : StronglySorted Z.lt q.*1 → StronglySorted Z.lt (unexpired a q).*1.
Proof.
  unfold unexpired. induction q as [|p q IH]; intros Hs; [done|]. inversion_clear Hs as [|?? Hs' Hf].
  rewrite filter_cons. case_decide; [|by apply IH]. csimpl. constructor; [by apply IH|].
  apply Forall_fmap, Forall_forall. intros p' [_ Hp']%list_elem_of_filter.
  rewrite Forall_fmap in Hf. by eapply (Forall_forall _ q) in Hf.
Qed.

Lemma expire_outcome t a :
  consistent t →
  ∃ t', expire t a = Ret t' (qtotal (queue t) - qtotal (unexpired a (queue t)))
    ∧ queue t' = unexpired a (queue t) ∧ consistent t'.
Proof.
  intros [Hc Hpos Hsort Htot]. unfold expire.
  destruct (expire_loop_spec a (queue t) (map t) 0) as (m' & -> & Hc'); [done..|].
  eexists. split; [done|]. split; [done|]. split; simpl; [done| | |].
  - by apply unexpired_positive.
  - by apply unexpired_keeps_order.
  - pose proof (qtotal_unexpired a (queue t) Hpos). lia.
Qed.
(** ** Sums over a set of keys *)

Lemma zsum_fmap_add (f g : K → Z) l : zsum ((λ k, f k + g k) <$> l) = zsum (f <$> l) + zsum (g <$> l).
Proof. induction l as [|k l IH]; [done|]. rewrite !zsum_cons, IH. lia. Qed.
Lemma zsum_fmap_le (f g : K → Z) l : (∀ k, f k ≤ g k) → zsum (f <$> l) ≤ zsum (g <$> l).
Proof. intros Hle. induction l as [|k l IH]; [done|]. rewrite !zsum_cons. specialize (Hle k). lia. Qed.
Lemma zsum_fmap_ext (f g : K → Z) l : (∀ k, k ∈ l → f k = g k) → zsum (f <$> l) = zsum (g <$> l).
Proof. intros Heq. f_equal. apply list_fmap_ext. intros i k Hk. apply Heq. by eapply list_elem_of_lookup_2. Qed.

Lemma msum_keys l : ∀ m, NoDup l → (∀ k, is_Some (m !! k) → k ∈ l) →
  msum id m = zsum ((λ k, default 0 (m !! k)) <$> l).
Proof.
  induction l as [|k l IH]; intros m Hnd Hdom.
  { assert (m = ∅) as ->; [|apply msum_empty]. apply map_empty. intros k. apply eq_None_not_Some.
    intros Hk%Hdom. by apply elem_of_nil in Hk. }
  apply NoDup_cons in Hnd as [Hk Hnd]. rewrite zsum_cons.
  assert (zsum ((λ k, default 0 (m !! k)) <$> l) = msum id (delete k m)) as ->.
  { rewrite (IH (delete k m)) by (done || intros k' [v [Hne Hk']%lookup_delete_Some];
      assert (k' ∈ k :: l) as [->|?]%elem_of_cons by (apply Hdom; by exists v); done).
    apply zsum_fmap_ext. intros k' Hk'. rewrite lookup_delete_ne by (intros ->; done). done. }
  destruct (m !! k) as [v|] eqn:Hv; simpl.
  - by rewrite (msum_delete id m k v Hv).
  - by rewrite delete_id.
Qed.

(** Every identity with a packet in [q] is in [l]. *)
Definition covers (l : list K) q : Prop := ∀ p k, p ∈ q → is_Some (p.2 !! k) → k ∈ l.

Lemma qtotal_keys l q : NoDup l → covers l q → qtotal q = zsum ((λ k, owed k q) <$> l).
Proof.
  intros Hnd. induction q as [|p q IH]; intros Hc.
  { unfold owed, qtotal. simpl. by rewrite zsum_const. }
  unfold qtotal. rewrite zsum_cons. fold (qtotal q).
  rewrite IH by (intros p' k' Hp'; apply Hc; by apply elem_of_cons; right).
  rewrite (msum_keys l) by (done || intros k; apply Hc; apply elem_of_cons; by left).
  rewrite <-zsum_fmap_add. done.
Qed.

Lemma covers_exists q (m1 : gmap K Z) : ∃ l, NoDup l ∧ covers l q ∧ ∀ k, is_Some (m1 !! k) → k ∈ l.
Proof.
  exists (elements (dom m1 ∪ ⋃ ((λ p, dom p.2) <$> q))). split; [apply NoDup_elements|]. split.
  - intros p k Hp Hk. apply elem_of_elements, elem_of_union_r, elem_of_union_list.
    exists (dom p.2). split; [|by apply elem_of_dom]. apply list_elem_of_fmap. by exists p.
  - intros k Hk. by apply elem_of_elements, elem_of_union_l, elem_of_dom.
Qed.

Lemma msum_le_qtotal m q : (∀ k, default 0 (m !! k) ≤ owed k q) → msum id m ≤ qtotal q.
Proof.
  intros Hle. destruct (covers_exists q m) as (l & Hnd & Hc & Hm).
  rewrite (qtotal_keys l), (msum_keys l) by done. by apply zsum_fmap_le.
Qed.

Lemma cache_total m q : cache_ok m q → msum id m = qtotal q.
Proof.
  intros Hok. destruct (covers_exists q m) as (l & Hnd & Hc & Hm).
  rewrite (qtotal_keys l), (msum_keys l) by done. apply zsum_fmap_ext. intros k _.
  by rewrite (Hok k), default_nz.
Qed.

Lemma get_total_sum_qtotal t : consistent t → get_total_sum t = qtotal (queue t).
Proof.
  intros Ht. rewrite <-(cache_total _ _ (cons_cache t Ht)). unfold get_total_sum, msum, id.
  assert (∀ (l : list (K * Z)) acc, foldl (λ acc kv, wadd U32 acc kv.2) acc l = foldl (wadd U32) acc l.*2) as ->
    by (intros l; induction l; simpl; auto).
  pose proof (cache_total _ _ (cons_cache t Ht)) as Hsum. pose proof (cons_total t Ht). unfold msum, id in Hsum.
  rewrite foldl_wadd; [done| |done|change ((map_to_list (map t)).*2) with ((λ kv : K * Z, kv.2) <$> map_to_list (map t)); lia].
  apply Forall_fmap, Forall_forall. intros [k v] Hkv%elem_of_map_to_list. simpl.
  rewrite (cons_cache t Ht) in Hkv. unfold nz in Hkv. case_decide; simplify_eq.
  apply owed_bounds, Ht.
Qed.

(** ** Penalization *)

(** What [spend_coin] makes of a coin and of the amount to subtract when
    either may be absent. *)
Definition spend_rep (x ts : option Z) : option Z :=
  match x, ts with
  | Some x, Some ts => if decide (ts < x) then Some (x - ts) else None
  | _, _ => x
  end.
Definition spend_ts (x ts : option Z) : option Z :=
  match x, ts with
  | Some x, Some ts => if decide (x < ts) then Some (ts - x) else None
  | _, _ => ts
  end.

(** The declarative form of [expire_packets]: both maps are processed key by
    key. *)
Definition expire_packets_spec (rep_diff to_subtract : gmap K Z) : gmap K Z * gmap K Z :=
  (merge spend_rep rep_diff to_subtract, merge spend_ts rep_diff to_subtract).

Definition small_values m : Prop := ∀ k v, m !! k = Some v → 0 < v < U32.

(** One step of either [retain] loop acts on its own key only. *)
Definition local_at (k : K) (rt rt' : gmap K Z * gmap K Z) : Prop :=
  rt'.1 !! k = spend_rep (rt.1 !! k) (rt.2 !! k)
  ∧ rt'.2 !! k = spend_ts (rt.1 !! k) (rt.2 !! k)
  ∧ ∀ k', k' ≠ k → rt'.1 !! k' = rt.1 !! k' ∧ rt'.2 !! k' = rt.2 !! k'.

Lemma spend_coin_local (r ts : gmap K Z) k (x t : Z) :
  0 < x < U32 → 0 < t < U32 → r !! k = Some x → ts !! k = Some t →
  local_at k (r, ts) (set_entry r k (spend_coin x t).1, set_entry ts k (spend_coin x t).2).
Proof.
  intros Hx Ht Hr Hts. unfold local_at, spend_coin, set_entry, spend_rep, spend_ts. simpl. rewrite Hr, Hts.
  destruct (Z.compare_spec x t); simpl; repeat case_decide; try lia; rewrite ?wsub_small by lia;
    split_and!; intros; by simplify_map_eq.
Qed.

Lemma retain_ts_step_local (r ts : gmap K Z) k (t : Z) :
  small_values r → small_values ts → ts !! k = Some t → local_at k (r, ts) (retain_ts_step (r, ts) (k, t)).
Proof.
  intros Hr Hts Hk. unfold retain_ts_step. simpl. destruct (r !! k) as [x|] eqn:Hx.
  - pose proof (spend_coin_local r ts k x t (Hr _ _ Hx) (Hts _ _ Hk) Hx Hk) as Hl.
    by destruct (spend_coin x t).
  - unfold local_at. simpl. rewrite Hx, Hk. done.
Qed.

Lemma retain_rep_step_local r ts k x :
  small_values r → small_values ts → r !! k = Some x → local_at k (r, ts) (retain_rep_step (r, ts) (k, x)).
Proof.
  intros Hr Hts Hk. unfold retain_rep_step. simpl. destruct (ts !! k) as [t|] eqn:Ht.
  - pose proof (spend_coin_local r ts k x t (Hr _ _ Hk) (Hts _ _ Ht) Hk Ht) as Hl.
    by destruct (spend_coin x t).
  - unfold local_at. simpl. rewrite Hk, Ht. done.
Qed.

Lemma spend_small (x ts : option Z) v :
  (∀ v, x = Some v → 0 < v < U32) → (∀ v, ts = Some v → 0 < v < U32) →
  spend_rep x ts = Some v ∨ spend_ts x ts = Some v → 0 < v < U32.
Proof.
  intros Hx Ht. unfold spend_rep, spend_ts.
  destruct x as [x|], ts as [t|]; try specialize (Hx _ eq_refl); try specialize (Ht _ eq_refl);
    repeat case_decide; intros [?|?]; simplify_eq; lia.
Qed.

Lemma local_small k rt rt' :
  local_at k rt rt' → small_values rt.1 → small_values rt.2 → small_values rt'.1 ∧ small_values rt'.2.
Proof.
  intros (H1 & H2 & Ho) Hr Hts.
  split; intros k' v Hv; (destruct (decide (k' = k)) as [->|Hne];
    [|destruct (Ho k' Hne) as [E1 E2]; rewrite ?E1, ?E2 in Hv; eauto]).
  - rewrite H1 in Hv. eapply spend_small; [intros ? Hx; by eapply Hr|intros ? Hx; by eapply Hts|eauto].
  - rewrite H2 in Hv. eapply spend_small; [intros ? Hx; by eapply Hr|intros ? Hx; by eapply Hts|eauto].
Qed.

(** A loop of local steps over distinct keys. *)
Lemma local_fold step (sel : gmap K Z * gmap K Z → gmap K Z) l :
  (∀ rt k v, small_values rt.1 → small_values rt.2 → sel rt !! k = Some v → local_at k rt (step rt (k, v))) →
  (∀ k rt rt' k', local_at k rt rt' → k' ≠ k → sel rt' !! k' = sel rt !! k') →
  ∀ rt, small_values rt.1 → small_values rt.2 → NoDup l.*1 → (∀ k v, (k, v) ∈ l → sel rt !! k = Some v) →
  let rt' := foldl step rt l in
  ∀ k, (k ∈ l.*1 → rt'.1 !! k = spend_rep (rt.1 !! k) (rt.2 !! k) ∧ rt'.2 !! k = spend_ts (rt.1 !! k) (rt.2 !! k))
     ∧ (k ∉ l.*1 → rt'.1 !! k = rt.1 !! k ∧ rt'.2 !! k = rt.2 !! k).
Proof.
  intros Hstep Hsel. induction l as [|[k v] l IH]; intros rt Hr Hts Hnd Hin rt' k0; subst rt'; simpl.
  { split; [by intros ?%elem_of_nil|done]. }
  apply NoDup_cons in Hnd as [Hk Hnd].
  assert (local_at k rt (step rt (k, v))) as Hloc.
  { apply Hstep; [done..|]. apply Hin, elem_of_cons. by left. }
  destruct (local_small _ _ _ Hloc Hr Hts) as [Hr' Hts'].
  destruct (IH (step rt (k, v)) Hr' Hts' Hnd) with (k := k0) as [IHin IHout].
  { intros k1 v1 Hl. rewrite (Hsel k rt) by (done || intros ->; apply Hk, list_elem_of_fmap; by exists (k, v1)).
    apply Hin, elem_of_cons. by right. }
  destruct Hloc as (H1 & H2 & Ho). split.
  - intros [->|Hk0]%elem_of_cons.
    + destruct (IHout Hk) as [-> ->]. done.
    + destruct (IHin Hk0) as [-> ->]. destruct (Ho k0) as [-> ->]; [by intros ->|done].
  - intros [Hne Hk0]%not_elem_of_cons. destruct (IHout Hk0) as [-> ->]. by apply Ho.
Qed.

Lemma spend_none_l (t : option Z) : spend_rep None t = None ∧ spend_ts None t = t.
Proof. by destruct t. Qed.
Lemma spend_none_r x : spend_rep x None = x ∧ spend_ts x None = None.
Proof. by destruct x. Qed.

Lemma not_in_map_to_list m k : k ∉ (map_to_list m).*1 → m !! k = None.
Proof.
  intros Hk. apply eq_None_not_Some. intros [v Hv]. apply Hk, list_elem_of_fmap.
  exists (k, v). split; [done|]. by apply elem_of_map_to_list.
Qed.

Lemma map_merge_eq (f : option Z → option Z → option Z) (m m1 m2 : gmap K Z) :
  f None None = None → (∀ k, m !! k = f (m1 !! k) (m2 !! k)) → m = merge f m1 m2.
Proof.
  intros Hf Hm. apply map_eq. intros k. rewrite Hm, lookup_merge.
  by destruct (m1 !! k), (m2 !! k).
Qed.

Lemma local_fold_merge (D : list K) (r ts : gmap K Z) rt' :
  (∀ k, (k ∈ D → rt'.1 !! k = spend_rep (r !! k) (ts !! k) ∧ rt'.2 !! k = spend_ts (r !! k) (ts !! k))
      ∧ (k ∉ D → rt'.1 !! k = r !! k ∧ rt'.2 !! k = ts !! k)) →
  (∀ k, k ∉ D → r !! k = None ∨ ts !! k = None) →
  rt' = expire_packets_spec r ts.
Proof.
  intros Hf HD.
  assert (∀ k, rt'.1 !! k = spend_rep (r !! k) (ts !! k) ∧ rt'.2 !! k = spend_ts (r !! k) (ts !! k)) as Hk.
  { intros k. destruct (Hf k) as [Hin Hout]. destruct (decide (k ∈ D)) as [Hk|Hk]; [by apply Hin|].
    destruct (Hout Hk) as [-> ->]. destruct (HD k Hk) as [E|E]; rewrite E.
    - by destruct (spend_none_l (ts !! k)) as [-> ->].
    - by destruct (spend_none_r (r !! k)) as [-> ->]. }
  destruct rt' as [r' ts']. unfold expire_packets_spec.
  f_equal; apply map_merge_eq; try done; intros k; apply Hk.
Qed.

Lemma retain_ts_loop (r ts : gmap K Z) :
  small_values r → small_values ts →
  foldl retain_ts_step (r, ts) (map_to_list ts) = expire_packets_spec r ts.
Proof.
  intros Hr Hts.
  apply (local_fold_merge (map_to_list ts).*1); [|intros k Hk; right; by apply not_in_map_to_list].
  apply (local_fold retain_ts_step snd); try done.
  - intros [r' ts'] k v ???. by apply retain_ts_step_local.
  - intros k rt rt' k' (_ & _ & Hl) Hne. by apply Hl.
  - apply NoDup_fst_map_to_list.
  - intros k v. apply elem_of_map_to_list.
Qed.

Lemma retain_rep_loop (r ts : gmap K Z) :
  small_values r → small_values ts →
  foldl retain_rep_step (r, ts) (map_to_list r) = expire_packets_spec r ts.
Proof.
  intros Hr Hts.
  apply (local_fold_merge (map_to_list r).*1); [|intros k Hk; left; by apply not_in_map_to_list].
  apply (local_fold retain_rep_step fst); try done.
  - intros [r' ts'] k v ???. by apply retain_rep_step_local.
  - intros k rt rt' k' (_ & _ & Hl) Hne. by apply Hl.
  - apply NoDup_fst_map_to_list.
  - intros k v. apply elem_of_map_to_list.
Qed.

Lemma expire_packets_merge (r ts : gmap K Z) :
  small_values r → small_values ts → expire_packets r ts = expire_packets_spec r ts.
Proof.
  intros Hr Hts. unfold expire_packets. case_decide; [by apply retain_ts_loop|by apply retain_rep_loop].
Qed.

(** Spending an amount on a list of coins, first coin first. *)
Fixpoint spend (amount : Z) (coins : list Z) : list Z :=
  match coins with
  | [] => []
  | x :: coins => (x - Z.min x amount) :: spend (amount - Z.min x amount) coins
  end.

Lemma spend_zero l : Forall (λ x, 0 ≤ x) l → spend 0 l = l.
Proof. induction 1 as [|x l Hx Hl IH]; simpl; [done|]. rewrite Z.min_r by lia. by rewrite !Z.sub_0_r, IH. Qed.

Lemma zsum_spend l : ∀ a, Forall (λ x, 0 ≤ x) l → 0 ≤ a ≤ zsum l → zsum (spend a l) = zsum l - a.
Proof.
  induction l as [|x l IH]; intros a Hl Ha; simpl in *; [lia|].
  inversion_clear Hl as [|?? Hx Hl']. pose proof (zsum_nonneg l Hl'). rewrite IH by (done || lia). lia.
Qed.

(** The effect of one packet on the coins and debts of every identity. *)
Lemma expire_packets_values (r ts : gmap K Z) k :
  small_values r → small_values ts →
  let x := default 0 (r !! k) in let t := default 0 (ts !! k) in
  default 0 ((expire_packets_spec r ts).1 !! k) = x - Z.min x t
  ∧ default 0 ((expire_packets_spec r ts).2 !! k) = t - Z.min x t.
Proof.
  intros Hr Hts. specialize (Hr k). specialize (Hts k). simpl. rewrite !lookup_merge.
  destruct (r !! k) as [x|], (ts !! k) as [t|]; simpl;
    try specialize (Hr _ eq_refl); try specialize (Hts _ eq_refl); repeat case_decide; simpl; lia.
Qed.

Lemma expire_packets_small (r ts : gmap K Z) :
  small_values r → small_values ts →
  small_values (expire_packets_spec r ts).1 ∧ small_values (expire_packets_spec r ts).2.
Proof.
  intros Hr Hts. split; intros k v Hv; simpl in Hv; rewrite lookup_merge in Hv;
    apply (spend_small (r !! k) (ts !! k)); eauto;
    destruct (r !! k) as [x|], (ts !! k) as [t|]; simpl in Hv; auto; done.
Qed.

(** The loop over the queue: each identity's packets are spent in loop order
    and nothing is left to subtract when the packets cover the debts. *)
Lemma penalize_queue_spec rq : ∀ ts : gmap K Z,
  Forall (λ p, small_values p.2) rq → small_values ts →
  (∀ k, default 0 (ts !! k) ≤ owed k rq) →
  ∃ rq', penalize_queue rq ts = (rq', ∅)
    ∧ (∀ k, packet_of k <$> rq' = spend (default 0 (ts !! k)) (packet_of k <$> rq))
    ∧ Forall (λ p, small_values p.2) rq' ∧ rq'.*1 = rq.*1.
Proof.
  assert (∀ (x : option Z), (∀ v, x = Some v → 0 < v < U32) → 0 ≤ default 0 x) as Hdef.
  { intros [x|] Hx; simpl; [|lia]. specialize (Hx x eq_refl). lia. }
  induction rq as [|[a r] rq IH]; intros ts Hrq Hts Hle.
  { assert (ts = ∅) as ->.
    { apply map_empty. intros k. specialize (Hle k). destruct (ts !! k) as [v|] eqn:Hv; [|done].
      apply Hts in Hv. unfold owed in Hle. simpl in Hle. lia. }
    by exists []. }
  inversion_clear Hrq as [|?? Hr Hrq']. simpl in Hr.
  destruct (expire_packets_small r ts Hr Hts) as [Hr1 Hts1].
  pose proof (λ k, expire_packets_values r ts k Hr Hts) as Hval. cbv zeta in Hval.
  simpl penalize_queue. rewrite expire_packets_merge by done.
  destruct (expire_packets_spec r ts) as [r1 ts1]. simpl in Hval, Hr1, Hts1.
  assert (∀ k, Forall (λ x, 0 ≤ x) (packet_of k <$> rq)) as Hnn.
  { intros k. apply Forall_fmap. eapply Forall_impl; [exact Hrq'|]. intros p Hp. apply Hdef. apply Hp. }
  case_decide as He.
  - exists ((a, r1) :: rq). split; [by rewrite He|]. split; [|split; [by constructor|done]].
    intros k. destruct (Hval k) as [H1 H2]. rewrite He, lookup_empty in H2. simpl in H2.
    csimpl. rewrite (eq_refl : packet_of k (a, r1) = default 0 (r1 !! k)), H1.
    rewrite (eq_refl : packet_of k (a, r) = default 0 (r !! k)), <-H2. by rewrite spend_zero.
  - destruct (IH ts1) as (rq' & Heq & Hsp & Hsm & Hfst); [done..| |].
    { intros k. destruct (Hval k) as [_ ->]. specialize (Hle k). unfold owed in *. rewrite zsum_cons in Hle.
      unfold packet_of at 1 in Hle. simpl in Hle.
      pose proof (zsum_nonneg _ (Hnn k)). lia. }
    rewrite Heq. exists ((a, r1) :: rq'). split; [done|]. split; [|split; [by constructor|by csimpl; f_equal]].
    intros k. destruct (Hval k) as [H1 H2]. csimpl. rewrite Hsp, H2.
    by rewrite (eq_refl : packet_of k (a, r1) = default 0 (r1 !! k)), H1.
Qed.

(** The first phase.  [s] gives the reputation of every identity before the
    call; the debts in [ts] are already taken from the cache. *)
Definition requests_ok (s : K → Z) (ids_fs : list (K * (Z → Z))) : Prop :=
  Forall (λ idf, 0 ≤ idf.2 (s idf.1) ≤ s idf.1) ids_fs.
Definition cache_after (s : K → Z) (ts m : gmap K Z) : Prop :=
  ∀ k, m !! k = nz (s k - default 0 (ts !! k)).

Lemma penalize_cache_spec (s : K → Z) bound l : ∀ m total (ts : gmap K Z),
  (∀ k, 0 ≤ s k < U32) → (∀ ts : gmap K Z, (∀ k, default 0 (ts !! k) ≤ s k) → msum id ts ≤ bound) → bound < U32 →
  NoDup l.*1 → requests_ok s l → cache_after s ts m → (∀ k, 0 ≤ default 0 (ts !! k) ≤ s k) →
  small_values ts → total = msum id ts → (∀ k, k ∈ l.*1 → ts !! k = None) →
  ∃ m' ts', penalize_cache m total ts l = (m', Ok (msum id ts', ts'))
    ∧ cache_after s ts' m' ∧ (∀ k, 0 ≤ default 0 (ts' !! k) ≤ s k) ∧ small_values ts'
    ∧ (∀ id f, (id, f) ∈ l → default 0 (ts' !! id) = s id - f (s id))
    ∧ (∀ k, k ∉ l.*1 → ts' !! k = ts !! k).
Proof.
  induction l as [|[k f] l IH]; intros m total ts Hs Hbound Hb Hnd Hreq Hm Hts Hsm -> Hnew.
  { exists m, ts. split_and!; try done. by intros ?? ?%elem_of_nil. }
  apply NoDup_cons in Hnd as [Hk Hnd]. inversion_clear Hreq as [|?? Hf Hreq']. simpl in Hf.
  assert (ts !! k = None) as Htk by (apply Hnew, elem_of_cons; by left).
  assert (m !! k = nz (s k)) as Hmk by (rewrite (Hm k), Htk; simpl; by rewrite Z.sub_0_r).
  assert (∀ k', k' ∈ l.*1 → ts !! k' = None) as Hnew' by (intros k' Hk'; apply Hnew, elem_of_cons; by right).
  simpl. rewrite Hmk, default_nz. destruct (Z.compare_spec (f (s k)) (s k)) as [Heq|Hlt|Hgt]; [|clear Hmk|lia].
  - destruct (IH m (msum id ts) ts) as (m' & ts' & -> & ? & ? & ? & Hin & Hout); [done..|].
    exists m', ts'. split_and!; try done.
    + intros k' f' [[= -> ->]|Hin']%elem_of_cons; [|by apply Hin]. rewrite Hout by done. rewrite Htk. simpl. lia.
    + intros k' [_ Hk']%not_elem_of_cons. by apply Hout.
  - specialize (Hs k) as Hsk. rewrite wsub_small by lia.
    destruct (decrement_cache_spec U32 m k (s k) (s k - f (s k))) as (m1 & -> & Hm1 & Hother); try lia.
    { rewrite (Hm k), Htk. simpl. by rewrite Z.sub_0_r. }
    assert (msum id (<[k := s k - f (s k)]> ts) = msum id ts + (s k - f (s k))) as Hsum
      by (rewrite msum_insert_new by done; unfold id; lia).
    assert (∀ k', 0 ≤ default 0 (<[k := s k - f (s k)]> ts !! k') ≤ s k') as Hts'.
    { intros k'. destruct (decide (k = k')) as [<-|Hne]; [rewrite lookup_insert_eq; simpl; lia|].
      by rewrite lookup_insert_ne. }
    assert (0 ≤ msum id ts) by (apply msum_nonneg; intros k' v Hv; apply Hsm in Hv; unfold id; lia).
    rewrite wadd_small by (pose proof (Hbound _ (λ k, proj2 (Hts' k))); lia). rewrite <-Hsum.
    destruct (IH m1 (msum id (<[k := s k - f (s k)]> ts)) (<[k := s k - f (s k)]> ts))
      as (m' & ts' & -> & ? & ? & ? & Hin & Hout); try done.
    + intros k'. destruct (decide (k = k')) as [<-|Hne]; [by rewrite Hm1, lookup_insert_eq|].
      by rewrite Hother, lookup_insert_ne by done.
    + intros k' v [[<- <-]|[_ Hv]]%lookup_insert_Some; [lia|by eapply Hsm].
    + intros k' Hk'. rewrite lookup_insert_ne by (by intros ->). by apply Hnew'.
    + exists m', ts'. split_and!; try done.
      * intros k' f' [[= -> ->]|Hin']%elem_of_cons; [|by apply Hin]. rewrite Hout by done. by rewrite lookup_insert_eq.
      * intros k' [Hne Hk']%not_elem_of_cons. rewrite Hout by done. by rewrite lookup_insert_ne.
Qed.

Lemma packets_small q : packets_positive q → qtotal q < U32 → Forall (λ p, small_values p.2) q.
Proof.
  intros Hpos Htot. apply Forall_forall. intros p Hp k v Hv.
  pose proof Hpos as Hpos'. eapply (Forall_forall _ q) in Hpos'; [|done]. split; [by eapply Hpos'|].
  assert (packet_of k p ≤ owed k q).
  { unfold owed. apply zsum_elem_le; [|apply list_elem_of_fmap; by exists p].
    apply Forall_fmap, Forall_forall. intros p' Hp'. by apply (packet_nonneg k p' q). }
  pose proof (owed_bounds k q Hpos). unfold packet_of in *. rewrite Hv in *. simpl in *. lia.
Qed.

Lemma owed_spend k q q' a :
  packets_positive q → 0 ≤ a ≤ owed k q →
  packet_of k <$> reverse q' = spend a (packet_of k <$> reverse q) → owed k q' = owed k q - a.
Proof.
  intros Hpos Ha Hq. rewrite <-(owed_reverse k q'), <-(owed_reverse k q) in *. unfold owed in *. rewrite Hq.
  apply zsum_spend; [|done]. apply Forall_fmap, Forall_forall. intros p Hp.
  rewrite reverse_Permutation in Hp. by apply (packet_nonneg k p q).
Qed.

Lemma qtotal_subtract q q' (ts : gmap K Z) :
  (∀ k, owed k q' = owed k q - default 0 (ts !! k)) → qtotal q' = qtotal q - msum id ts.
Proof.
  intros Hk. destruct (covers_exists (q ++ q') ts) as (l & Hnd & Hc & Hm).
  rewrite (qtotal_keys l q), (qtotal_keys l q'), (msum_keys l ts); try assumption.
  - enough (zsum ((λ k, owed k q) <$> l)
            = zsum ((λ k, owed k q') <$> l) + zsum ((λ k, default 0 (ts !! k)) <$> l)) by lia.
    rewrite <-zsum_fmap_add. apply zsum_fmap_ext. intros k _. rewrite Hk. lia.
  - intros p k Hp. apply Hc, elem_of_app. by right.
  - intros p k Hp. apply Hc, elem_of_app. by left.
Qed.

Lemma penalize_outcome t l :
  consistent t → NoDup l.*1 → requests_ok (get t) l →
  ∃ t', penalize_many t l = Ret t' (qtotal (queue t) - qtotal (queue t')) ∧ consistent t'
    ∧ (∀ id f, (id, f) ∈ l → get t' id = f (get t id))
    ∧ (∀ id, id ∉ l.*1 → get t' id = get t id)
    ∧ (queue t').*1 = (queue t).*1
    ∧ ∀ k, packet_of k <$> reverse (queue t') = spend (get t k - get t' k) (packet_of k <$> reverse (queue t)).
Proof.
  intros Ht Hnd Hreq. pose proof (cons_positive t Ht) as Hpos. pose proof (cons_total t Ht) as Htot.
  pose proof (λ k, get_owed t k Ht) as Hget.
  destruct (penalize_cache_spec (get t) (qtotal (queue t)) l (map t) 0 ∅)
    as (m' & ts & Hcache & Hm' & Hts & Hsm & Hin & Hout); try done.
  { intros k. rewrite Hget. pose proof (owed_bounds k _ Hpos). lia. }
  { intros ts' Hle. apply msum_le_qtotal. intros k. by rewrite <-Hget. }
  { intros k. rewrite lookup_empty. simpl. rewrite Z.sub_0_r, Hget. apply Ht. }
  { intros k. rewrite lookup_empty. simpl. rewrite Hget. pose proof (owed_bounds k _ Hpos). lia. }
  destruct (penalize_queue_spec (reverse (queue t)) ts) as (rq & Hrq & Hsp & Hrsm & Hfst).
  { apply Forall_reverse. by apply packets_small. }
  { done. }
  { intros k. rewrite owed_reverse, <-Hget. apply Hts. }
  unfold penalize_many. rewrite Hcache, Hrq. rewrite decide_True by done.
  set (t' := MkTrs m' (reverse rq)).
  assert (∀ k, owed k (reverse rq) = owed k (queue t) - default 0 (ts !! k)) as How.
  { intros k. apply owed_spend; [done| |by rewrite reverse_involutive]. rewrite <-Hget. apply Hts. }
  pose proof (qtotal_subtract _ _ _ How) as Hq'.
  assert (0 ≤ msum id ts) by (apply msum_nonneg; intros k v Hv; apply Hsm in Hv; unfold id; lia).
  assert (consistent t') as Ht'.
  { split; simpl.
    - intros k. rewrite How, <-Hget. apply Hm'.
    - apply Forall_reverse. eapply Forall_impl; [exact Hrsm|]. intros p Hp k v Hv. apply Hp in Hv. lia.
    - rewrite fmap_reverse, Hfst, fmap_reverse, reverse_involutive. apply Ht.
    - lia. }
  assert (∀ k, get t' k = get t k - default 0 (ts !! k)) as Hget'.
  { intros k. rewrite (get_owed t' k Ht'), Hget. apply How. }
  exists t'. split_and!.
  - f_equal. simpl. lia.
  - done.
  - intros id f Hid. rewrite Hget', (Hin id f Hid). lia.
  - intros id Hid. rewrite Hget', (Hout id Hid), lookup_empty. simpl. lia.
  - simpl. by rewrite fmap_reverse, Hfst, fmap_reverse, reverse_involutive.
  - intros k. simpl. rewrite reverse_involutive, Hsp, Hget'. do 2 f_equal. lia.
Qed.

(** ** The specification *)

(** The reputation of [k] that is left at time [a]. *)
Definition remaining (a : Z) (k : K) q : Z :=
  zsum ((λ p, if decide (a < p.1) then packet_of k p else 0) <$> q).

Lemma owed_unexpired a k q : owed k (unexpired a q) = remaining a k q.
Proof.
  unfold owed, unexpired, remaining. induction q as [|p q IH]; [done|].
  rewrite filter_cons. rewrite zsum_cons. case_decide; [rewrite zsum_cons|]; lia.
Qed.

(** [gain] rejects an expiration earlier than the last one and leaves
    the set as it was; otherwise it adds to every identity exactly what the
    argument gives it, and keeps the cache and the queue consistent, as long
    as the total reputation fits in 32 bits. *)
Theorem gain_adds_reputation t a diff :
  consistent t → Forall (λ kv, 0 ≤ kv.2) diff → get_total_sum t + zsum diff.*2 < U32 →
  match last (queue t) with
  | Some (max, _) => if decide (a < max) then gain t a diff = Fail t {| alpha := a; max_alpha := max |} else
      ∃ t', gain t a diff = Ret t' tt ∧ consistent t' ∧ (∀ k, get t' k = get t k + gained k diff)
            ∧ get_total_sum t' = get_total_sum t + zsum diff.*2
  | None =>
      ∃ t', gain t a diff = Ret t' tt ∧ consistent t' ∧ (∀ k, get t' k = gained k diff)
            ∧ get_total_sum t' = zsum diff.*2
  end.
Proof.
  intros Ht Hd Hmax. rewrite get_total_sum_qtotal in * by done.
  pose proof (gain_outcome t a diff Ht Hd Hmax) as Ho.
  destruct (last (queue t)) as [[max back]|] eqn:El; [case_decide as Ha|].
  - unfold gain. rewrite El, decide_True by lia. done.
  - destruct Ho as (t' & Hg & Hc & Hget & Htot); [lia|]. exists t'. rewrite get_total_sum_qtotal by done. done.
  - destruct Ho as (t' & Hg & Hc & Hget & Htot); [done|]. exists t'. rewrite get_total_sum_qtotal by done.
    apply last_None in El. split_and!; [done..| |].
    + intros k. rewrite Hget, (get_owed t k Ht), El. done.
    + rewrite Htot, El. done.
Qed.

(** [expire] never fails on a consistent set: it drops the packets whose
    expiration has passed, leaves every identity with the sum of the others,
    and returns the amount of reputation that it destroyed. *)
Theorem expire_drops_old_packets t a :
  consistent t →
  ∃ t', expire t a = Ret t' (get_total_sum t - get_total_sum t') ∧ consistent t'
    ∧ queue t' = unexpired a (queue t)
    ∧ ∀ k, get t' k = remaining a k (queue t).
Proof.
  intros Ht. destruct (expire_outcome t a Ht) as (t' & -> & Hq & Ht'). exists t'.
  rewrite !get_total_sum_qtotal by done. rewrite Hq. split_and!; [done..|].
  intros k. rewrite (get_owed t' k Ht'), Hq. apply owed_unexpired.
Qed.

(** [penalize_many] on distinct identities with admissible penalties
    never fails: each identity is left with what its function returns, every
    other identity is untouched, the penalty is taken from the packets that
    expire last, and the returned value is the total reputation destroyed. *)
Theorem penalize_many_spec t l :
  consistent t → NoDup l.*1 → requests_ok (get t) l →
  ∃ t', penalize_many t l = Ret t' (get_total_sum t - get_total_sum t') ∧ consistent t'
    ∧ (∀ id f, (id, f) ∈ l → get t' id = f (get t id))
    ∧ (∀ id, id ∉ l.*1 → get t' id = get t id)
    ∧ (queue t').*1 = (queue t).*1
    ∧ ∀ k, packet_of k <$> reverse (queue t') = spend (get t k - get t' k) (packet_of k <$> reverse (queue t)).
Proof.
  intros Ht Hnd Hreq. destruct (penalize_outcome t l Ht Hnd Hreq) as (t' & Hp & Ht' & Hrest). exists t'.
  rewrite !get_total_sum_qtotal by done. done.
Qed.

(** The two loops of [expire_packets], over the smaller of the two maps,
    compute the same thing: the key-by-key merge of the coins with the amounts
    to subtract. *)
Theorem expire_packets_equiv (r ts : gmap K Z) :
  small_values r → small_values ts →
  expire_packets r ts = expire_packets_spec r ts
  ∧ foldl retain_ts_step (r, ts) (map_to_list ts) = foldl retain_rep_step (r, ts) (map_to_list r).
Proof.
  intros Hr Hts. split; [by apply expire_packets_merge|].
  trans (expire_packets_spec r ts); [|symmetry].
  - by apply retain_ts_loop.
  - by apply retain_rep_loop.
Qed.

(** ** Reachable sets *)

Inductive trs_step : TotalReputationSet K → TotalReputationSet K → Prop :=
  | step_gain t a diff t' :
      Forall (λ kv, 0 ≤ kv.2) diff → get_total_sum t + zsum diff.*2 < U32 →
      gain t a diff = Ret t' tt → trs_step t t'
  | step_gain_error t a diff t' e : gain t a diff = Fail t' e → trs_step t t'
  | step_expire t a t' v : expire t a = Ret t' v → trs_step t t'
  | step_penalize t l t' v :
      NoDup l.*1 → requests_ok (get t) l → penalize_many t l = Ret t' v → trs_step t t'
  | step_clear t : trs_step t (trs_clear t).

Lemma gain_fail_same t a diff t' e : gain t a diff = Fail t' e → t' = t.
Proof.
  unfold gain. intros Hg. case_in Hg; try done; by inversion Hg.
Qed.

Lemma trs_step_consistent t t' : consistent t → trs_step t t' → consistent t'.
Proof.
  intros Ht Hs. destruct Hs as [t a diff t' Hd Hm Hg|t a diff t' e Hg|t a t' v He|t l t' v Hnd Hr Hp|t].
  - rewrite get_total_sum_qtotal in Hm by done.
    destruct (last (queue t)) as [[max back]|] eqn:El.
    + destruct (decide (max > a)) as [Hgt|]; [unfold gain in Hg; by rewrite El, decide_True in Hg|].
      destruct (gain_outcome t a diff Ht Hd Hm) as (t1 & Hg1 & Hc & _); [rewrite El; lia|].
      rewrite Hg1 in Hg. by simplify_eq.
    + destruct (gain_outcome t a diff Ht Hd Hm) as (t1 & Hg1 & Hc & _); [by rewrite El|].
      rewrite Hg1 in Hg. by simplify_eq.
  - by apply gain_fail_same in Hg as ->.
  - destruct (expire_outcome t a Ht) as (t1 & He1 & _ & Hc).
    rewrite He1 in He. by simplify_eq.
  - destruct (penalize_outcome t l Ht Hnd Hr) as (t1 & Hp1 & Hc & _).
    rewrite Hp1 in Hp. by simplify_eq.
  - apply trs_new_consistent.
Qed.

(** In every set that the operations can produce, the cached reputation
    of an identity is the sum of its packets, the packets are positive and
    strictly ordered by expiration, and the total of the cache is the total of
    the queue. *)
Theorem trs_reachable_consistent t :
  rtc trs_step trs_new t →
  (∀ k, get t k = owed k (queue t)) ∧ packets_positive (queue t)
  ∧ StronglySorted Z.lt (queue t).*1 ∧ get_total_sum t = qtotal (queue t).
Proof.
  intros Hr. assert (consistent t) as Ht.
  { revert t Hr. apply (rtc_ind_r (R:=trs_step) consistent trs_new); [apply trs_new_consistent|].
    intros t1 t2 _ Hs Hc. by eapply trs_step_consistent. }
  split_and!; [intros k; by apply get_owed|apply Ht|apply Ht|by apply get_total_sum_qtotal].
Qed.
End correct.

(** ** Concrete sets *)

Definition rep_example : TotalReputationSet Z :=
  MkTrs {[ 1 := 30; 2 := 5 ]} [(10, {[ 1 := 10 ]}); (20, {[ 1 := 20; 2 := 5 ]})].

Lemma rep_example_steps : rtc trs_step trs_new rep_example.
Proof.
  eapply rtc_l; [|eapply rtc_l; [|apply rtc_refl]].
  - eapply (step_gain _ 10 [(1, 10)]); [repeat constructor; done|vm_compute; done|vm_compute; done].
  - eapply (step_gain _ 20 [(1, 20); (2, 5); (3, 0)]); [repeat constructor; done|vm_compute; done|].
    vm_compute. done.
Defined.

Lemma rep_example_consistent : consistent rep_example.
Proof.
  assert (∀ t : TotalReputationSet Z, rtc trs_step trs_new t → consistent t) as Hc.
  { apply (rtc_ind_r (R:=trs_step) consistent trs_new); [apply trs_new_consistent|].
    intros t1 t2 _ Hs Ht. by eapply trs_step_consistent. }
  apply Hc, rep_example_steps.
Qed.

Lemma gain_adds_reputation_witness :
  gain rep_example 15 [(2, 1)] = Fail rep_example {| alpha := 15; max_alpha := 20 |}
  ∧ ∃ t', gain rep_example 25 [(2, 7); (1, 1); (2, 1)] = Ret t' tt ∧ get t' 2 = 13.
Proof.
  split.
  - apply (gain_adds_reputation rep_example 15 [(2, 1)] rep_example_consistent); [repeat constructor; done|by vm_compute].
  - destruct (gain_adds_reputation rep_example 25 [(2, 7); (1, 1); (2, 1)] rep_example_consistent)
      as (t' & Hg & _ & Hget & _); [repeat constructor; done|by vm_compute|].
    exists t'. split; [done|]. by rewrite Hget.
Defined.

Lemma expire_drops_old_packets_witness :
  ∃ t', expire rep_example 10 = Ret t' 10 ∧ get t' 1 = 20 ∧ get t' 2 = 5.
Proof.
  destruct (expire_drops_old_packets rep_example 10 rep_example_consistent) as (t' & He & _ & Hq & Hget).
  assert (∃ T, expire rep_example 10 = Ret T 10) as [T HT] by (eexists; by vm_compute).
  exists t'. rewrite !Hget. split; [|done]. rewrite HT in He |- *. by injection He as ->.
Defined.

Lemma penalize_many_spec_witness :
  ∃ t', penalize_many rep_example [(1, λ v, v / 4); (2, λ _, 0)] = Ret t' 28
    ∧ get t' 1 = 7 ∧ get t' 2 = 0 ∧ packet_of 1 <$> reverse (queue t') = [0; 7].
Proof.
  destruct (penalize_many_spec rep_example [(1, λ v, v / 4); (2, λ _, 0)] rep_example_consistent)
    as (t' & Hp & _ & Hin & _ & _ & Hsp).
  - apply (bool_decide_unpack _). by vm_compute.
  - repeat constructor; by vm_compute.
  - assert (get t' 1 = 7) as H1 by (rewrite (Hin 1 (λ v, v / 4)) by (apply elem_of_cons; by left); done).
    assert (get t' 2 = 0) as H2 by (rewrite (Hin 2 (λ _, 0)) by (apply elem_of_cons; right; apply elem_of_cons; by left); done).
    assert (∃ T, penalize_many rep_example [(1, λ v, v / 4); (2, λ _, 0)] = Ret T 28) as [T HT]
      by (eexists; by vm_compute).
    exists t'. rewrite Hsp, H1, H2. split_and!; [|done..]. rewrite HT in Hp |- *. by injection Hp as ->.
Defined.

Lemma expire_packets_equiv_witness :
  expire_packets {[ 1 := 10; 2 := 5; 3 := 4 ]} {[ 1 := 3; 2 := 9 ]}
  = ({[ 1 := 7; 3 := 4 ]}, {[ 2 := 4 ]} : gmap Z Z).
Proof.
  destruct (expire_packets_equiv {[ 1 := 10; 2 := 5; 3 := 4 ]} ({[ 1 := 3; 2 := 9 ]} : gmap Z Z)) as [-> _].
  - apply map_Forall_to_list. repeat constructor.
  - apply map_Forall_to_list. repeat constructor.
  - by vm_compute.
Defined.

Lemma trs_reachable_consistent_witness :
  rtc trs_step trs_new rep_example ∧ get rep_example 1 = 10 + 20.
Proof.
  split; [apply rep_example_steps|].
  rewrite (proj1 (trs_reachable_consistent rep_example rep_example_steps) 1). by vm_compute.
Defined.

(** A request of [penalize_many] that would increase a reputation stops
    the call with an error, but the cache has already been lowered for the
    identities before it while their packets stay in the queue: the next
    [expire] of those packets panics. *)
Theorem penalize_error_leaves_mismatch :
  ∃ t' e, penalize_many rep_example [(2, λ _, 0); (1, λ _, 50)] = Fail t' e
    ∧ queue t' = queue rep_example ∧ get t' 2 = 0 ∧ owed 2 (queue t') = 5
    ∧ expire t' 20 = Crash.
Proof. eexists _, _. split; [by vm_compute|]. split_and!; by vm_compute. Qed.

(** When an identity is listed twice, [penalize_many] lowers the cache by
    both penalties but collects only the second amount to subtract from the
    packets: the cache and the queue no longer agree. *)
Theorem penalize_duplicate_leaves_mismatch :
  ∃ t', penalize_many rep_example [(1, λ v, v - 6); (1, λ v, v - 4)] = Ret t' 10
    ∧ get t' 1 = 20 ∧ owed 1 (queue t') = 26 ∧ expire t' 20 = Crash.
Proof. eexists. split; [by vm_compute|]. split_and!; by vm_compute. Qed.
