(* ===== verification/Ars.v ===== *)
(** * The active reputation set

    Models reputation/src/ars.rs: a sliding window over the identities that were
    active in the last epochs, with a cache of the number of window slots that
    contain each identity.  A [HashSet] is a [gset], visited in the order of
    [elements]; the counters of the cache are [u16].

    The specification is a log of the updates made so far; [tracks] relates a set
    to such a log, and every operation preserves it. *)

From stdpp Require Import base tactics numbers list sorting gmap.
From Stdlib Require Import ZArith Lia.
From S2P Require Import Prelude Trs TrsCorrect.
Local Open Scope Z_scope.
Local Open Scope rust_scope.

Inductive ReputationError := InvalidUpdateTime (new_time current_time : Z).

Section ars.
Context `{Countable K}.

Record ActiveReputationSet := MkArs {
  ars_map : gmap K Z;
  ars_queue : list (gset K);            (* front first *)
  capacity : nat;
  last_update : Z;
}.

(** [ActiveReputationSet::new]. *)
Definition ars_new (cap : nat) : ActiveReputationSet := MkArs ∅ [] cap 0.

(** [ActiveReputationSet::clear]. *)
Definition ars_clear (a : ActiveReputationSet) : ActiveReputationSet :=
  MkArs ∅ [] (capacity a) (last_update a).

Definition buffer_capacity (a : ActiveReputationSet) : nat := capacity a.
Definition buffer_size (a : ActiveReputationSet) : nat := length (ars_queue a).
Definition contains (a : ActiveReputationSet) (k : K) : bool := bool_decide (is_Some (ars_map a !! k)).
Definition active_identities (a : ActiveReputationSet) : list K := (map_to_list (ars_map a)).*1.
Definition active_identities_number (a : ActiveReputationSet) : nat := size (ars_map a).

(** The loop over the identities of the slot that leaves the window; [None] is
    the panic of the [unwrap]. *)
Fixpoint decrement_all (m : gmap K Z) (ids : list K) : option (gmap K Z) :=
  match ids with
  | [] => Some m
  | id :: ids =>
      match decrement_cache U16 m id 1 with
      | Ok m' => decrement_all m' ids
      | _ => None
      end
  end.

Definition increment_all (m : gmap K Z) (ids : list K) : gmap K Z :=
  foldl (λ m id, increment_cache U16 m id 1) m ids.

Definition push_activity (a : ActiveReputationSet) (identities : list K) :
    exec ActiveReputationSet ReputationError unit :=
  let ids : gset K := list_to_set identities in
  let popped :=
    if decide (capacity a ≤ length (ars_queue a))%nat then
      match ars_queue a with
      | [] => None                       (* pop_front().unwrap() *)
      | front :: q => m ← decrement_all (ars_map a) (elements front); Some (m, q)
      end
    else Some (ars_map a, ars_queue a) in
  match popped with
  | None => Crash
  | Some (m, q) =>
      Ret (MkArs (increment_all m (elements ids)) (q ++ [ids]) (capacity a) (last_update a)) tt
  end.

(** [for _i in 0..n { self.push_activity(vec![]) }]. *)
Fixpoint push_empties (n : nat) (a : ActiveReputationSet) : exec ActiveReputationSet ReputationError unit :=
  match n with
  | O => Ret a tt
  | S n => let! (a', _) := push_activity a [] in push_empties n a'
  end.

Definition update (a : ActiveReputationSet) (identities : list K) (block_epoch : Z) :
    exec ActiveReputationSet ReputationError unit :=
  if decide (block_epoch > last_update a) then
    let difference := Z.to_nat (block_epoch - last_update a) in
    let! (a1, _) :=
      if decide (capacity a ≤ difference)%nat then Ret (ars_clear a) tt
      else if decide (1 < difference)%nat then push_empties (difference - 1) a
      else Ret a tt in
    let! (a2, _) := push_activity a1 identities in
    Ret (MkArs (ars_map a2) (ars_queue a2) (capacity a2) block_epoch) tt
  else if decide (block_epoch = 0) then Ret a tt
  else Fail a (InvalidUpdateTime block_epoch (last_update a)).

(** ** Invariant *)

(** The number of slots that contain [k]. *)
Definition slots (k : K) (q : list (gset K)) : Z :=
  zsum ((λ s, if decide (k ∈ s) then 1 else 0) <$> q).

Record ars_ok (a : ActiveReputationSet) : Prop := {
  ok_cache : ∀ k, ars_map a !! k = nz (slots k (ars_queue a));
  ok_length : (length (ars_queue a) ≤ capacity a)%nat;
  ok_capacity : (0 < capacity a)%nat ∧ Z.of_nat (capacity a) < U16;
}.

Lemma slots_bounds k q : 0 ≤ slots k q ≤ Z.of_nat (length q).
Proof.
  unfold slots. induction q as [|s q IH]; [simpl; lia|]. rewrite zsum_cons. simpl length.
  case_decide; lia.
Qed.

Lemma slots_cons k s q : slots k (s :: q) = (if decide (k ∈ s) then 1 else 0) + slots k q.
Proof. done. Qed.

Lemma slots_snoc k q s : slots k (q ++ [s]) = slots k q + if decide (k ∈ s) then 1 else 0.
Proof. unfold slots. rewrite fmap_app, zsum_app. simpl. lia. Qed.

Lemma slots_pos k q : 0 < slots k q ↔ ∃ s, s ∈ q ∧ k ∈ s.
Proof.
  induction q as [|s q IH].
  { split; [unfold slots; simpl; lia|]. by intros (? & ?%elem_of_nil & _). }
  rewrite slots_cons. pose proof (slots_bounds k q). case_decide as Hk.
  - split; [|lia]. intros _. exists s. split; [apply elem_of_cons; by left|done].
  - rewrite Z.add_0_l, IH. split.
    + intros (s' & Hs & Hk'). exists s'. split; [apply elem_of_cons; by right|done].
    + intros (s' & [->|Hs]%elem_of_cons & Hk'); [done|]. by exists s'.
Qed.

Lemma nz_some x v : nz x = Some v ↔ x = v ∧ x ≠ 0.
Proof. unfold nz. case_decide; naive_solver. Qed.

Lemma contains_slots a k : ars_ok a → contains a k = true ↔ ∃ s, s ∈ ars_queue a ∧ k ∈ s.
Proof.
  intros Ha. unfold contains. rewrite bool_decide_eq_true, (ok_cache a Ha), <-slots_pos.
  pose proof (slots_bounds k (ars_queue a)). split.
  - intros [v [? ?]%nz_some]. lia.
  - intros Hpos. eexists. apply nz_some. split; [done|lia].
Qed.

Lemma decrement_all_spec ids (c : K → Z) : ∀ m,
  NoDup ids → (∀ k, 0 ≤ c k < U16 - 1) →
  (∀ k, m !! k = nz ((if decide (k ∈ ids) then 1 else 0) + c k)) →
  ∃ m', decrement_all m ids = Some m' ∧ ∀ k, m' !! k = nz (c k).
Proof.
  induction ids as [|id ids IH]; intros m Hnd Hc Hm.
  { exists m. split; [done|]. intros k. rewrite Hm. rewrite decide_False by apply not_elem_of_nil. done. }
  apply NoDup_cons in Hnd as [Hid Hnd]. pose proof (Hc id). simpl.
  destruct (decrement_cache_spec U16 m id (1 + c id) 1) as (m1 & -> & Hm1 & Ho); try lia.
  { rewrite Hm, decide_True by (apply elem_of_cons; by left). done. }
  apply (IH m1 Hnd Hc). intros k. destruct (decide (k = id)) as [->|Hne].
  - rewrite Hm1, decide_False by done. f_equal. lia.
  - rewrite Ho, Hm by done. do 2 f_equal.
    destruct (decide (k ∈ ids)), (decide (k ∈ id :: ids)) as [Hin|Hin]; try done.
    + exfalso. apply Hin, elem_of_cons. by right.
    + by apply elem_of_cons in Hin as [?|?].
Qed.

Lemma increment_cache_spec w m (k : K) s v :
  m !! k = nz s → 0 < v → 0 ≤ s → s + v < w →
  increment_cache w m k v !! k = nz (s + v) ∧ ∀ k', k' ≠ k → increment_cache w m k v !! k' = m !! k'.
Proof.
  intros Hk Hv Hs Hw. unfold increment_cache, entry_add. rewrite decide_False by lia.
  rewrite Hk, default_nz, wadd_small by lia. split.
  - rewrite lookup_insert_eq. unfold nz. by rewrite decide_False by lia.
  - intros k' Hne. by rewrite lookup_insert_ne.
Qed.

Definition one_if (P : Prop) `{Decision P} : Z := if decide P then 1 else 0.

Lemma increment_all_spec ids : ∀ (c : K → Z) m,
  NoDup ids → (∀ k, 0 ≤ c k) → (∀ k, c k + one_if (k ∈ ids) < U16) → (∀ k, m !! k = nz (c k)) →
  ∀ k, increment_all m ids !! k = nz (c k + one_if (k ∈ ids)).
Proof.
  unfold one_if. induction ids as [|id ids IH]; intros c m Hnd Hc Hb Hm k.
  { rewrite decide_False by apply not_elem_of_nil. rewrite Z.add_0_r. apply Hm. }
  apply NoDup_cons in Hnd as [Hid Hnd]. pose proof (Hc id). pose proof (Hb id) as Hbid.
  rewrite decide_True in Hbid by (apply elem_of_cons; by left).
  destruct (increment_cache_spec U16 m id (c id) 1) as [H1 Ho]; [by rewrite Hm|lia..|].
  assert (∀ k, c k + (if decide (k ∈ id :: ids) then 1 else 0)
               = (c k + if decide (k = id) then 1 else 0) + if decide (k ∈ ids) then 1 else 0) as Heq.
  { intros k'. destruct (decide (k' = id)) as [->|Hne].
    - rewrite decide_True by (apply elem_of_cons; by left). rewrite decide_False by done. lia.
    - destruct (decide (k' ∈ ids)) as [Hin|Hin].
      + rewrite decide_True by (apply elem_of_cons; by right). lia.
      + rewrite decide_False by (apply not_elem_of_cons; done). lia. }
  rewrite Heq. set (c' := λ k, c k + if decide (k = id) then 1 else 0).
  apply (IH c'); unfold c'; [done| | |].
  - intros k'. specialize (Hc k'). case_decide; lia.
  - intros k'. rewrite <-Heq. apply Hb.
  - intros k'. case_decide as Hk; subst; [done|]. rewrite Ho, Z.add_0_r by done. apply Hm.
Qed.

Lemma pop_spec a front q :
  ars_ok a → ars_queue a = front :: q →
  ∃ m, decrement_all (ars_map a) (elements front) = Some m ∧ ∀ k, m !! k = nz (slots k q).
Proof.
  intros [Hc Hl [_ Hcap]] Hq. rewrite Hq in Hc, Hl. simpl in Hl. apply decrement_all_spec.
  - apply NoDup_elements.
  - intros k. pose proof (slots_bounds k q). lia.
  - intros k. rewrite Hc, slots_cons. do 2 f_equal.
    destruct (decide (k ∈ front)) as [Hk|Hk], (decide (k ∈ elements front)) as [Hk'|Hk']; try done;
      rewrite elem_of_elements in Hk'; done.
Qed.

(** A push on a good set: the newest slots are kept, up to the capacity. *)
Lemma push_activity_outcome a ids :
  ars_ok a →
  ∃ a', push_activity a ids = Ret a' tt ∧ ars_ok a'
    ∧ reverse (ars_queue a') = take (capacity a) (list_to_set ids :: reverse (ars_queue a))
    ∧ capacity a' = capacity a ∧ last_update a' = last_update a.
Proof.
  intros Ha. pose proof Ha as [Hc Hl [Hcap0 Hcap]]. unfold push_activity.
  set (s := list_to_set ids : gset K).
  assert (∀ m q, (∀ k, m !! k = nz (slots k q)) → (length q < capacity a)%nat →
            ars_ok (MkArs (increment_all m (elements s)) (q ++ [s]) (capacity a) (last_update a))) as Hok.
  { intros m q Hm Hq. split; simpl; [|rewrite length_app; simpl; lia|done].
    intros k. rewrite slots_snoc.
    assert ((if decide (k ∈ s) then 1 else 0) = one_if (k ∈ elements s)) as ->.
    { unfold one_if. destruct (decide (k ∈ s)) as [Hk|Hk], (decide (k ∈ elements s)) as [Hk'|Hk']; try done;
        rewrite elem_of_elements in Hk'; done. }
    apply (increment_all_spec _ (λ k, slots k q)); [apply NoDup_elements|intros; apply slots_bounds| |done].
    intros k'. pose proof (slots_bounds k' q). unfold one_if. case_decide; lia. }
  case_decide as Hfull.
  - destruct (ars_queue a) as [|front q] eqn:Hq; [simpl in *; lia|].
    destruct (pop_spec a front q Ha Hq) as (m & -> & Hm). simpl.
    eexists. split; [done|]. simpl in Hl, Hfull. split_and!; [apply Hok; [done|lia]| |done..].
    simpl. rewrite reverse_app. simpl. destruct (capacity a) as [|c]; [lia|]. simpl. f_equal.
    rewrite reverse_cons, take_app_length'; [done|]. rewrite length_reverse. lia.
  - eexists. split; [done|]. split_and!; [apply Hok; [done|lia]| |done..].
    simpl. rewrite reverse_app. simpl. symmetry. apply take_ge. simpl. rewrite length_reverse. lia.
Qed.

Lemma push_empties_outcome n : ∀ a,
  ars_ok a →
  ∃ a', push_empties n a = Ret a' tt ∧ ars_ok a'
    ∧ reverse (ars_queue a') = take (capacity a) (replicate n ∅ ++ reverse (ars_queue a))
    ∧ capacity a' = capacity a ∧ last_update a' = last_update a.
Proof.
  induction n as [|n IH]; intros a Ha; simpl.
  { exists a. split_and!; try done. symmetry. apply take_ge. rewrite length_reverse. apply Ha. }
  destruct (push_activity_outcome a [] Ha) as (a1 & -> & Ha1 & Hq1 & Hc1 & Hu1). simpl.
  destruct (IH a1 Ha1) as (a2 & -> & Ha2 & Hq2 & Hc2 & Hu2). exists a2.
  split_and!; [done|done| |congruence..]. rewrite Hq2, Hq1, Hc1.
  change (∅ :: replicate n ∅ ++ reverse (ars_queue a)) with (replicate (S n) ∅ ++ reverse (ars_queue a)).
  rewrite replicate_S_end, <-app_assoc. simpl.
  set (l := list_to_set [] :: reverse (ars_queue a)).
  rewrite !take_app, take_take. do 2 f_equal. lia.
Qed.

(** ** The log of updates *)

(** The identities active at epoch [e] according to the log. *)
Definition logged (log : list (Z * list K)) (e : Z) (k : K) : Prop :=
  ∃ ids, (e, ids) ∈ log ∧ k ∈ ids.
(** The identities in the slot that is [i] epochs old. *)
Definition in_slot (q : list (gset K)) (i : nat) (k : K) : Prop :=
  ∃ s, reverse q !! i = Some s ∧ k ∈ s.

Record tracks (a : ActiveReputationSet) (log : list (Z * list K)) : Prop := {
  tr_ok : ars_ok a;
  tr_past : ∀ e ids, (e, ids) ∈ log → e ≤ last_update a;
  tr_slots : ∀ i k, (i < capacity a)%nat →
    in_slot (ars_queue a) i k ↔ logged log (last_update a - Z.of_nat i) k;
}.

Lemma tracks_new cap : (0 < cap)%nat → Z.of_nat cap < U16 → tracks (ars_new cap) [].
Proof.
  intros Hc Hu. split.
  - split; simpl; [by intros k|lia|done].
  - by intros ?? ?%elem_of_nil.
  - intros i k _. split; [by intros (? & ? & ?)|by intros (? & ?%elem_of_nil & ?)].
Qed.

(** The slots after an update that is [d] epochs after the last one. *)
Lemma window_shift a log s ids e d (q' : list (gset K)) :
  tracks a log → e = last_update a + Z.of_nat d → (0 < d)%nat → (∀ k, k ∈ s ↔ k ∈ ids) →
  reverse q' = take (capacity a) (s :: replicate (d - 1) ∅ ++ reverse (ars_queue a)) →
  ∀ i k, (i < capacity a)%nat →
    in_slot q' i k ↔ logged (log ++ [(e, ids)]) (e - Z.of_nat i) k.
Proof.
  intros [Hok Hpast Hslots] -> Hd Hs Hq' i k Hi. unfold in_slot. rewrite Hq', lookup_take_lt by done.
  assert (logged (log ++ [(last_update a + Z.of_nat d, ids)]) (last_update a + Z.of_nat d - Z.of_nat i) k
          ↔ logged log (last_update a + Z.of_nat d - Z.of_nat i) k ∨ i = 0%nat ∧ k ∈ ids) as ->.
  { unfold logged. setoid_rewrite elem_of_app. setoid_rewrite list_elem_of_singleton. split.
    - intros (ids' & [Hin|[= Heq ->]] & Hk); [left; by exists ids'|right; split; [lia|done]].
    - intros [(ids' & Hin & Hk)|[-> Hk]]; [exists ids'; auto|exists ids]. split; [|done]. right. f_equal. lia. }
  destruct i as [|i].
  - simpl. split.
    + intros (s' & [= <-] & Hk). right. by rewrite <-Hs.
    + intros [(ids' & Hin & _)|[_ Hk]]; [apply Hpast in Hin; lia|]. exists s. by rewrite Hs.
  - change ((s :: replicate (d - 1) ∅ ++ reverse (ars_queue a)) !! S i)
      with ((replicate (d - 1) ∅ ++ reverse (ars_queue a)) !! i).
    destruct (decide (i < d - 1)%nat) as [Hlt|Hge].
    + rewrite lookup_app_l, lookup_replicate_2 by (rewrite ?length_replicate; lia). split.
      * intros (s' & [= <-] & []%not_elem_of_empty).
      * intros [(ids' & Hin & _)|[? _]]; [|done]. apply Hpast in Hin. lia.
    + rewrite lookup_app_r, length_replicate by (rewrite length_replicate; lia).
      specialize (Hslots (i - (d - 1))%nat k) as Hsl. unfold in_slot in Hsl. rewrite Hsl by lia.
      replace (last_update a + Z.of_nat d - Z.of_nat (S i)) with (last_update a - Z.of_nat (i - (d - 1))) by lia.
      naive_solver.
Qed.

(** Same shift when the whole window is dropped. *)
Lemma window_clear a log s ids (e : Z) (q' : list (gset K)) :
  tracks a log → last_update a + Z.of_nat (capacity a) ≤ e → (∀ k, k ∈ s ↔ k ∈ ids) →
  reverse q' = [s] →
  ∀ i k, (i < capacity a)%nat →
    in_slot q' i k ↔ logged (log ++ [(e, ids)]) (e - Z.of_nat i) k.
Proof.
  intros [Hok Hpast _] He Hs Hq' i k Hi. pose proof (ok_capacity a Hok) as [Hc _].
  unfold in_slot, logged. rewrite Hq'. setoid_rewrite elem_of_app. setoid_rewrite list_elem_of_singleton.
  destruct i as [|i]; simpl.
  - split.
    + intros (s' & [= <-] & Hk). exists ids. rewrite <-Hs. split; [right; f_equal; lia|done].
    + intros (ids' & [Hin|[= _ ->]] & Hk); [apply Hpast in Hin; lia|]. exists s. by rewrite Hs.
  - split; [by intros (s' & ? & _)|]. intros (ids' & [Hin|[= ? ->]] & Hk); [apply Hpast in Hin|]; lia.
Qed.

Lemma ars_clear_ok a : ars_ok a → ars_ok (ars_clear a).
Proof. intros [_ _ Hc]. split; simpl; [by intros k|lia|done]. Qed.

Lemma with_last_update_ok a e :
  ars_ok a → ars_ok (MkArs (ars_map a) (ars_queue a) (capacity a) e).
Proof. by intros [Hc Hl Hcap]. Qed.

Lemma update_forward a log ids e :
  tracks a log → last_update a < e →
  ∃ a', update a ids e = Ret a' tt ∧ tracks a' (log ++ [(e, ids)])
    ∧ last_update a' = e ∧ capacity a' = capacity a.
Proof.
  intros Htr He. pose proof (tr_ok _ _ Htr) as Hok. unfold update. rewrite decide_True by lia.
  set (d := Z.to_nat (e - last_update a)).
  assert (∀ k, k ∈ (list_to_set ids : gset K) ↔ k ∈ ids) as Hset by (intros k; apply elem_of_list_to_set).
  assert (∀ e' ids', (e', ids') ∈ log ++ [(e, ids)] → e' ≤ e) as Hpast.
  { intros e' ids' [Hin|Hin]%elem_of_app; [apply (tr_past _ _ Htr) in Hin; lia|].
    apply list_elem_of_singleton in Hin as [= -> _]. lia. }
  case_decide as Hbig.
  - simpl. destruct (push_activity_outcome (ars_clear a) ids (ars_clear_ok a Hok)) as (a2 & -> & Hok2 & Hq & Hc & _).
    simpl in *. eexists. split; [done|]. split_and!; [|done|done].
    split; simpl; [by apply with_last_update_ok|done|].
    rewrite Hc. apply (window_clear a log (list_to_set ids)); [done|lia|done|].
    rewrite Hq. destruct (ok_capacity a Hok) as [? _]. destruct (capacity a); [lia|]. rewrite reverse_nil. simpl. by rewrite take_nil.
  - assert (∃ a1, (if decide (1 < d)%nat then push_empties (d - 1) a else Ret a tt) = Ret a1 tt ∧ ars_ok a1
              ∧ reverse (ars_queue a1) = take (capacity a) (replicate (d - 1) ∅ ++ reverse (ars_queue a))
              ∧ capacity a1 = capacity a) as (a1 & -> & Hok1 & Hq1 & Hc1).
    { case_decide.
      - destruct (push_empties_outcome (d - 1) a Hok) as (a1 & ? & ? & ? & ? & _). by exists a1.
      - exists a. replace (d - 1)%nat with 0%nat by lia. split_and!; try done. symmetry. apply take_ge.
        simpl. rewrite length_reverse. apply Hok. }
    simpl. destruct (push_activity_outcome a1 ids Hok1) as (a2 & -> & Hok2 & Hq & Hc & _). simpl.
    eexists. split; [done|]. split_and!; [|done|simpl; congruence].
    split; simpl; [by apply with_last_update_ok|done|].
    rewrite Hc, Hc1. apply (window_shift a log (list_to_set ids) ids e d); [done|lia|lia|done|].
    rewrite Hq, Hq1, Hc1. destruct (capacity a) as [|c] eqn:Hcap; [lia|]. simpl. f_equal.
    rewrite take_take. f_equal. lia.
Qed.

(** Consecutive updates. *)
Fixpoint run_updates (a : ActiveReputationSet) (l : list (Z * list K)) :
    exec ActiveReputationSet ReputationError unit :=
  match l with
  | [] => Ret a tt
  | (e, ids) :: l => let! (a', _) := update a ids e in run_updates a' l
  end.

Lemma run_updates_tracks l : ∀ a log,
  tracks a log → StronglySorted Z.lt (last_update a :: l.*1) →
  ∃ a', run_updates a l = Ret a' tt ∧ tracks a' (log ++ l) ∧ capacity a' = capacity a.
Proof.
  induction l as [|[e ids] l IH]; intros a log Htr Hs.
  { exists a. by rewrite app_nil_r. }
  inversion_clear Hs as [|?? Hs' Hf]. csimpl in *. inversion_clear Hf as [|?? He _].
  destruct (update_forward a log ids e Htr He) as (a1 & -> & Htr1 & Hu & Hc). simpl.
  destruct (IH a1 _ Htr1) as (a2 & -> & Htr2 & Hc2); [by rewrite Hu|].
  exists a2. rewrite <-app_assoc in Htr2. split_and!; [done..|congruence].
Qed.

(** [update] implements the log of activity: an update at a later epoch
    appends to the log and never panics, whatever the gap between the epochs;
    an update at the current or at an earlier epoch is rejected, and one at
    epoch zero is ignored, without any change. *)
Theorem update_refines_log a log ids e :
  tracks a log →
  if decide (last_update a < e) then
    ∃ a', update a ids e = Ret a' tt ∧ tracks a' (log ++ [(e, ids)]) ∧ last_update a' = e
  else update a ids e = if decide (e = 0) then Ret a tt else Fail a (InvalidUpdateTime e (last_update a)).
Proof.
  intros Htr. case_decide as He.
  - destruct (update_forward a log ids e Htr He) as (a' & ? & ? & ? & _). by exists a'.
  - unfold update. by rewrite decide_False by lia.
Qed.

(** After any sequence of updates at increasing epochs, an identity is
    active exactly when it took part in an update of the last [capacity]
    epochs. *)
Theorem active_window_exact cap l :
  (0 < cap)%nat → Z.of_nat cap < U16 → StronglySorted Z.lt (0 :: l.*1) →
  ∃ a, run_updates (ars_new cap) l = Ret a tt
    ∧ ∀ k, contains a k = true ↔ ∃ e ids, (e, ids) ∈ l ∧ k ∈ ids ∧ last_update a - Z.of_nat cap < e.
Proof.
  intros Hc Hu Hs. destruct (run_updates_tracks l (ars_new cap) [] (tracks_new cap Hc Hu) Hs) as (a & -> & Htr & Hcap).
  exists a. split; [done|]. intros k. simpl in Hcap, Htr. rewrite contains_slots by apply Htr.
  assert ((∃ s, s ∈ ars_queue a ∧ k ∈ s) ↔ ∃ i, (i < capacity a)%nat ∧ in_slot (ars_queue a) i k) as ->.
  { unfold in_slot. split.
    - intros (s & Hin & Hk). rewrite <-reverse_Permutation in Hin. apply list_elem_of_lookup_1 in Hin as [i Hi].
      exists i. split; [|by exists s]. apply lookup_lt_Some in Hi. rewrite length_reverse in Hi.
      pose proof (ok_length a (tr_ok _ _ Htr)). lia.
    - intros (i & _ & s & Hi & Hk). exists s. split; [|done].
      rewrite <-reverse_Permutation. by eapply list_elem_of_lookup_2. }
  split.
  - intros (i & Hi & Hk%(tr_slots _ _ Htr i k Hi)). destruct Hk as (ids & Hin & Hk).
    exists (last_update a - Z.of_nat i), ids. split_and!; [done..|lia].
  - intros (e & ids & Hin & Hk & He). pose proof (tr_past _ _ Htr e ids Hin).
    exists (Z.to_nat (last_update a - e)). split; [lia|]. apply (tr_slots _ _ Htr); [lia|].
    exists ids. split; [|done]. by replace (last_update a - _) with e by lia.
Qed.
End ars.
Arguments ActiveReputationSet K {_ _}.

(** ** Concrete sets *)

Lemma update_refines_log_witness :
  tracks (ars_new (K:=Z) 3) [] ∧ ∃ a', update (ars_new (K:=Z) 3) [7; 8] 5 = Ret a' tt ∧ last_update a' = 5.
Proof.
  assert (tracks (ars_new (K:=Z) 3) []) as Htr by (apply tracks_new; [lia|reflexivity]).
  split; [done|].
  destruct (update_refines_log (ars_new (K:=Z) 3) [] [7; 8] 5 Htr) as (a' & Hu & _ & Hl). by exists a'.
Defined.

Lemma active_window_exact_witness :
  ∃ a, run_updates (ars_new (K:=Z) 3) [(1, [7]); (2, [8]); (4, [9])] = Ret a tt ∧ contains a 8 = true.
Proof.
  destruct (active_window_exact (K:=Z) 3 [(1, [7]); (2, [8]); (4, [9])]) as (a & Hr & Hk);
    [lia|reflexivity|repeat constructor|].
  exists a. split; [done|]. apply Hk. exists 2, [8]. split_and!; [set_solver..|].
  assert (∃ a', run_updates (ars_new (K:=Z) 3) [(1, [7]); (2, [8]); (4, [9])] = Ret a' tt ∧ last_update a' = 4) as (a' & Hr' & Hl')
    by (eexists; split; [vm_compute; reflexivity|reflexivity]).
  rewrite Hr in Hr'. injection Hr' as ->. rewrite Hl'. lia.
Defined.
