(* ===== verification/Merkle.v ===== *)
(** * Merkle trees

    Models crypto/src/merkle.rs: the recursive root of a list of hashes, the
    progressive tree that is updated one leaf at a time, the full tree with all
    its layers, and inclusion proofs.  The code is generic in the type of hashes
    and in the function that concatenates and hashes two of them, and so is the
    model: the node instantiates them with [Sha256], with the SHA-256 of the
    concatenation of two hashes and with the hash of the empty string.

    The three computations of the root are shown to agree, inclusion proofs are
    shown complete, and the root and the proofs are shown binding: whoever opens
    a root in two ways exhibits a collision of the hash function. *)

From stdpp Require Import base tactics numbers list.
From Stdlib Require Import Arith ZArith Lia.
From S2P Require Import Prelude.
Local Open Scope nat_scope.

(** [usize::next_power_of_two]. *)
Definition next_power_of_two (n : nat) : nat := 2 ^ Nat.log2_up n.

Section merkle.
Context {T : Type} (hash_concat : T → T → T) (empty_hash : T).

(** ** Recursive root *)

(** The recursion is on the length of the slice, so the length is enough
    fuel; [None] is the panic on an empty slice. *)
Fixpoint root_loop (fuel : nat) (hashes : list T) : option T :=
  match fuel with
  | O => None
  | S fuel =>
      match hashes with
      | [] => None
      | [x] => Some x
      | [x; y] => Some (hash_concat x y)
      | _ =>
          let n := length hashes in
          let mid := next_power_of_two ((n + 1) / 2) in
          left_hash ← root_loop fuel (take mid hashes);
          right_hash ← root_loop fuel (drop mid hashes);
          Some (hash_concat left_hash right_hash)
      end
  end.
Definition merkle_tree_root_with_hashing_function (hashes : list T) : option T :=
  root_loop (length hashes) hashes.

Definition merkle_tree_root (hashes : list T) : option T :=
  match hashes with
  | [] => Some empty_hash
  | _ => merkle_tree_root_with_hashing_function hashes
  end.

(** ** Progressive tree *)

Record ProgressiveMerkleTree := MkProgressive { leaves : list (option T) }.

Definition progressive_new : ProgressiveMerkleTree := MkProgressive [].

(** The [try_fold] of [push] over the slots, from the last to the first: the
    slots after it and the hash that is left over, if any. *)
Fixpoint push_slots (h1 : T) (slots : list (option T)) : list (option T) * option T :=
  match slots with
  | [] => ([], Some h1)
  | None :: slots => (Some h1 :: slots, None)
  | Some h0 :: slots =>
      let '(slots', rest) := push_slots (hash_concat h0 h1) slots in
      (None :: slots', rest)
  end.

Definition push (t : ProgressiveMerkleTree) (x : T) : ProgressiveMerkleTree :=
  let '(slots, rest) := push_slots x (reverse (leaves t)) in
  match rest with
  | Some h1 => MkProgressive (<[0 := Some h1]> (reverse slots ++ [None]))
  | None => MkProgressive (reverse slots)
  end.

(** The body of the fold of [root]. *)
Definition join_slot (h1 : option T) (h0 : option T) : option T :=
  match h0, h1 with
  | h0, None => h0
  | None, h1 => h1
  | Some h0, Some h1 => Some (hash_concat h0 h1)
  end.

Definition progressive_root (t : ProgressiveMerkleTree) : T :=
  default empty_hash (foldl join_slot None (reverse (leaves t))).

(** ** Full tree *)

Record FullMerkleTree := MkFull { nodes : list (list T) }.

(** The closure [next_layer] of [build], over [chunks(2)]. *)
Fixpoint next_layer (l : list T) : list T :=
  match l with
  | x :: y :: l => hash_concat x y :: next_layer l
  | [hash] => [hash]
  | [] => []
  end.

(** The [while] loop of [build], which starts with [l] as last layer; each
    layer is shorter than the one before, so its length is enough fuel. *)
Fixpoint build_loop (fuel : nat) (l : list T) : list (list T) :=
  match fuel with
  | O => [l]
  | S fuel => if decide (1 < length l) then l :: build_loop fuel (next_layer l) else [l]
  end.
Definition build (leaves : list T) : list (list T) :=
  match leaves with [] => [] | _ => build_loop (length leaves) leaves end.

Definition full_new (leaves : list T) : FullMerkleTree := MkFull (build leaves).

(** [None] is the panic of [x[0]] on an empty layer. *)
Definition full_root (t : FullMerkleTree) : option T :=
  match last (nodes t) with
  | Some layer => layer !! 0
  | None => Some empty_hash
  end.

(** ** Inclusion proofs *)

Record InclusionProof := MkProof { index : nat; lemma : list T }.

(** The loop of [inclusion_proof] over the layers. *)
Fixpoint proof_loop (layers : list (list T)) (i : nat) (v : list T) (proof_index : nat) :
    list T * nat :=
  match layers with
  | [] => (v, proof_index)
  | layer :: layers =>
      let '(v', proof_index') :=
        match layer !! Nat.lxor i 1 with
        | Some x => (v ++ [x], Nat.lor proof_index (Nat.shiftl (Nat.land i 1) (length v)))
        | None => (v, proof_index)
        end in
      proof_loop layers (Nat.shiftr i 1) v' proof_index'
  end.

Definition inclusion_proof (t : FullMerkleTree) (i : nat) : option InclusionProof :=
  match nodes t with
  | [] => None
  | layer0 :: _ =>
      if decide (length layer0 ≤ i) then None
      else let '(v, proof_index) := proof_loop (nodes t) i [] 0 in
           Some (MkProof proof_index v)
  end.

(** The loop of [InclusionProof::root], from a given level on. *)
Fixpoint proof_root_loop (ix : nat) (level : nat) (lem : list T) (elem : T) : T :=
  match lem with
  | [] => elem
  | h :: lem =>
      let h_on_the_left := bool_decide (Nat.land (Nat.shiftr ix level) 1 = 1) in
      proof_root_loop ix (S level) lem (if h_on_the_left then hash_concat h elem else hash_concat elem h)
  end.
Definition proof_root (p : InclusionProof) (element : T) : T :=
  proof_root_loop (index p) 0 (lemma p) element.

Definition verify `{EqDecision T} (p : InclusionProof) (element root : T) : bool :=
  bool_decide (proof_root p element = root).

(** ** The layered root *)

(** The root reached by collapsing the layers one after the other. *)
Fixpoint layered (fuel : nat) (l : list T) : option T :=
  match fuel with
  | O => None
  | S fuel =>
      match l with
      | [] => None
      | [x] => Some x
      | _ => layered fuel (next_layer l)
      end
  end.
Definition layered_root (l : list T) : option T := layered (length l) l.

Lemma next_layer_ind (P : list T → Prop) :
  P [] → (∀ x, P [x]) → (∀ x y l, P l → P (x :: y :: l)) → ∀ l, P l.
Proof.
  intros H0 H1 H2. assert (∀ n l, length l ≤ n → P l) as Hn; [|intros l; by apply (Hn (length l))].
  intros n. induction n as [|n IH]; intros [|x [|y l]] Hl; simpl in Hl; auto; try lia.
  apply H2, IH. lia.
Qed.

Lemma length_next_layer l : length (next_layer l) = (length l + 1) / 2.
Proof.
  induction l as [|x|x y l IH] using next_layer_ind; [done..|].
  simpl next_layer. simpl length. rewrite IH.
  replace (S (S (length l)) + 1) with (1 * 2 + (length l + 1)) by lia.
  rewrite Nat.div_add_l by lia. lia.
Qed.

Lemma length_next_layer_bounds l :
  length l ≤ 2 * length (next_layer l) ≤ length l + 1.
Proof. induction l as [|x|x y l IH] using next_layer_ind; simpl in *; lia. Qed.

Lemma layered_enough l : ∀ n m, length l ≤ n → length l ≤ m → layered n l = layered m l.
Proof.
  assert (∀ k l n m, length l ≤ k → length l ≤ n → length l ≤ m → layered n l = layered m l) as Hk;
    [|intros n m; by apply (Hk (length l))].
  clear l. intros k. induction k as [|k IH]; intros l n m Hl Hn Hm.
  { destruct l; [|simpl in Hl; lia]. by destruct n, m. }
  destruct l as [|x [|y l]]; [by destruct n, m|destruct n, m; simpl in *; try lia; done|].
  destruct n as [|n], m as [|m]; [simpl in *; lia..|].
  pose proof (length_next_layer_bounds (x :: y :: l)) as Hb.
  simpl layered. apply IH; simpl in *; lia.
Qed.

(** The root of a list is the root of its next layer. *)
Lemma layered_root_next l : layered_root (next_layer l) = layered_root l.
Proof.
  destruct l as [|x [|y l]]; [done..|]. unfold layered_root at 2. simpl length.
  change (layered (S (S (length l))) (x :: y :: l)) with (layered (S (length l)) (next_layer (x :: y :: l))).
  pose proof (length_next_layer_bounds (x :: y :: l)). apply layered_enough; simpl in *; lia.
Qed.

Lemma next_layer_app l1 l2 k : length l1 = 2 * k → next_layer (l1 ++ l2) = next_layer l1 ++ next_layer l2.
Proof.
  revert k. induction l1 as [|x|x y l1 IH] using next_layer_ind; intros k Hk; simpl in *; [done|lia|].
  f_equal. apply (IH (k - 1)). lia.
Qed.

(** A complete left subtree and a right part that is not deeper. *)
Lemma layered_root_app k : ∀ l1 l2 r1 r2,
  length l1 = 2 ^ k → 1 ≤ length l2 ≤ 2 ^ k → layered_root l1 = Some r1 → layered_root l2 = Some r2 →
  layered_root (l1 ++ l2) = Some (hash_concat r1 r2).
Proof.
  induction k as [|k IH]; intros l1 l2 r1 r2 H1 H2 Hr1 Hr2.
  - destruct l1 as [|x [|]]; simpl in H1; try lia. destruct l2 as [|y [|]]; simpl in H2; try lia.
    unfold layered_root in *. simpl in *. by simplify_eq.
  - rewrite Nat.pow_succ_r' in *. rewrite <-layered_root_next, (next_layer_app l1 l2 (2 ^ k)) by done.
    pose proof (length_next_layer_bounds l1). pose proof (length_next_layer_bounds l2).
    apply IH; [lia|lia| |]; by rewrite layered_root_next.
Qed.

Lemma layered_root_some l : l ≠ [] → is_Some (layered_root l).
Proof.
  intros Hl. assert (∀ n l, l ≠ [] → length l ≤ n → is_Some (layered n l)) as Hn; [|by apply Hn].
  clear l Hl. intros n. induction n as [|n IH]; intros l Hl Hn; [by destruct l; simpl in *; [|lia]|].
  destruct l as [|x [|y l]]; [done|by eexists|]. simpl layered.
  pose proof (length_next_layer_bounds (x :: y :: l)). apply IH; [done|simpl in *; lia].
Qed.

(** ** The three roots agree *)

(** The split point is a power of two, is inside the slice (so that [split_at]
    does not panic) and leaves the larger part on the left. *)
Lemma mid_bounds n :
  3 ≤ n → let mid := next_power_of_two ((n + 1) / 2) in
  mid < n ∧ n - mid ≤ mid ∧ 1 ≤ mid ∧ ∃ k, mid = 2 ^ k.
Proof.
  intros Hn mid. unfold next_power_of_two in mid. set (m := (n + 1) / 2) in *.
  assert (n ≤ 2 * m ≤ n + 1) as Hm.
  { pose proof (Nat.div_mod (n + 1) 2). pose proof (Nat.mod_upper_bound (n + 1) 2). subst m. lia. }
  destruct (Nat.log2_up_spec m) as [Hlo Hhi]; [lia|].
  pose proof (Nat.log2_up_pos m) as Hpos. subst mid.
  destruct (Nat.log2_up m) as [|k]; [lia|]. simpl pred in Hlo. rewrite Nat.pow_succ_r' in *.
  split_and!; [lia..|]. exists (S k). by rewrite Nat.pow_succ_r'.
Qed.

Lemma root_loop_layered fuel : ∀ l, l ≠ [] → length l ≤ fuel → root_loop fuel l = layered_root l.
Proof.
  induction fuel as [|fuel IH]; intros l Hne Hl; [by destruct l; simpl in *; [|lia]|].
  destruct l as [|x [|y [|z l]]]; [done|done|done|].
  remember (x :: y :: z :: l) as hs eqn:Ehs.
  assert (3 ≤ length hs) as Hlen by (subst; simpl; lia).
  destruct (mid_bounds (length hs) Hlen) as (Hlt & Hle & Hpos & k & Hk).
  set (mid := next_power_of_two ((length hs + 1) / 2)) in *.
  assert (root_loop (S fuel) hs = (left_hash ← root_loop fuel (take mid hs);
           right_hash ← root_loop fuel (drop mid hs); Some (hash_concat left_hash right_hash))) as -> by (by subst).
  assert (take mid hs ≠ [] ∧ drop mid hs ≠ []) as [H1 H2].
  { split; intros Hnil; apply (f_equal length) in Hnil; rewrite ?length_take, ?length_drop in Hnil; simpl in Hnil; lia. }
  rewrite !IH by (done || rewrite ?length_take, ?length_drop; lia).
  destruct (layered_root_some _ H1) as [r1 Hr1], (layered_root_some _ H2) as [r2 Hr2]. rewrite Hr1, Hr2. simpl.
  rewrite <-(take_drop mid hs). symmetry.
  apply (layered_root_app k); [rewrite length_take; lia|rewrite length_drop; lia|done|done].
Qed.

Lemma merkle_tree_root_layered l : l ≠ [] → merkle_tree_root l = layered_root l.
Proof. intros Hl. destruct l; [done|]. by apply root_loop_layered. Qed.

Lemma full_root_layered l : l ≠ [] → full_root (full_new l) = layered_root l.
Proof.
  intros Hl. unfold full_new, full_root. simpl.
  assert (∀ n l, l ≠ [] → length l ≤ n →
            ∃ layer, last (build_loop n l) = Some layer ∧ layer !! 0 = layered_root l) as Hn.
  { intros n. induction n as [|n IH]; intros l' Hne Hn; [by destruct l'; simpl in *; [|lia]|].
    simpl build_loop. case_decide as Hlen.
    - pose proof (length_next_layer_bounds l').
      destruct (IH (next_layer l')) as (layer & Hlast & Hroot);
        [intros Hnil; rewrite Hnil in *; simpl in *; lia|lia|].
      exists layer. rewrite last_cons, Hlast, <-layered_root_next. done.
    - destruct l' as [|x [|]]; simpl in Hlen; [done| |lia]. by exists [x]. }
  destruct l as [|x l]; [done|]. unfold build.
  destruct (Hn (length (x :: l)) (x :: l)) as (layer & Hlast & Hroot); [done..|].
  by rewrite Hlast.
Qed.

(** Slots from the last to the first hold the roots of complete subtrees, the
    first slot of the list being at height [k]. *)
Inductive holds : nat → list (option T) → list T → Prop :=
  | holds_nil k : holds k [] []
  | holds_empty k slots l : holds (S k) slots l → holds k (None :: slots) l
  | holds_full k slots l b h :
      holds (S k) slots l → length b = 2 ^ k → layered_root b = Some h →
      holds k (Some h :: slots) (l ++ b).

Lemma pow2_pos k : 1 ≤ 2 ^ k.
Proof. pose proof (Nat.pow_nonzero 2 k). lia. Qed.

Lemma push_slots_holds slots : ∀ k l b h slots' rest,
  holds k slots l → length b = 2 ^ k → layered_root b = Some h →
  push_slots h slots = (slots', rest) →
  match rest with
  | None => holds k slots' (l ++ b) ∧ length slots' = length slots
  | Some h' => slots' = replicate (length slots) None
               ∧ length (l ++ b) = 2 ^ (k + length slots) ∧ layered_root (l ++ b) = Some h'
  end.
Proof.
  induction slots as [|[h0|] slots IH]; intros k l b h slots' rest Hh Hb Hr Hp; simpl in Hp.
  - inversion Hh; subst. simplify_eq. simpl. by rewrite Nat.add_0_r.
  - inversion Hh as [| |? ? l0 b0 ? Hh0 Hb0 Hr0]; subst.
    destruct (push_slots (hash_concat h0 h) slots) as [s1 r1] eqn:E. injection Hp as <- <-.
    apply (IH (S k) l0 (b0 ++ b)) in E; [|done|rewrite length_app, Nat.pow_succ_r'; lia|].
    + rewrite <-app_assoc. destruct r1 as [h'|].
      * destruct E as (-> & Hlen & Hroot). simpl. split_and!; [done| |done]. rewrite Hlen. f_equal. lia.
      * destruct E as [E El]. simpl. split; [by constructor|by rewrite El].
    + apply (layered_root_app k); try done. pose proof (pow2_pos k). lia.
  - inversion Hh; subst. injection Hp as <- <-. split; [by constructor|done].
Qed.

Lemma replicate_holds n : ∀ k b h,
  length b = 2 ^ (k + n) → layered_root b = Some h → holds k (replicate n None ++ [Some h]) b.
Proof.
  induction n as [|n IH]; intros k b h Hb Hr; simpl.
  - rewrite Nat.add_0_r in Hb. apply (holds_full k [] [] b h); [constructor|done..].
  - constructor. apply IH; [|done]. rewrite Hb. f_equal. lia.
Qed.

Lemma push_holds t l x : holds 0 (reverse (leaves t)) l → holds 0 (reverse (leaves (push t x))) (l ++ [x]).
Proof.
  intros Hh. unfold push. destruct (push_slots x (reverse (leaves t))) as [slots rest] eqn:E.
  apply (push_slots_holds _ 0 l [x]) in E; [|done..].
  destruct rest as [h|]; simpl.
  - destruct E as (-> & Hlen & Hroot). rewrite length_reverse in *.
    assert (reverse (<[0 := Some h]> (reverse (replicate (length (leaves t)) None) ++ [None]))
            = replicate (length (leaves t)) None ++ [Some h]) as ->.
    { rewrite reverse_replicate. change [None] with (replicate 1 (@None T)).
      rewrite <-replicate_add, Nat.add_comm. simpl. rewrite reverse_cons, reverse_replicate. done. }
    by apply replicate_holds.
  - rewrite reverse_involutive. apply E.
Qed.

Lemma pushes_holds l : ∀ t l0,
  holds 0 (reverse (leaves t)) l0 → holds 0 (reverse (leaves (foldl push t l))) (l0 ++ l).
Proof.
  induction l as [|x l IH]; intros t l0 Hh; simpl; [by rewrite app_nil_r|].
  rewrite (cons_middle x l0 l), app_assoc. apply IH. by apply push_holds.
Qed.

(** Joining the slots, given the root of what is below them. *)
Lemma join_slots_holds k slots l : holds k slots l → ∀ b,
  length b ≤ 2 ^ k →
  foldl join_slot (match b with [] => None | _ => layered_root b end) slots
  = match l ++ b with [] => None | _ => layered_root (l ++ b) end.
Proof.
  induction 1 as [k|k slots l Hh IH|k slots l b0 h Hh IH Hb0 Hr0]; intros b Hb.
  - done.
  - simpl foldl. rewrite <-IH by (rewrite Nat.pow_succ_r'; lia). f_equal. destruct b as [|x b]; [done|].
    destruct (layered_root_some (x :: b)) as [r ->]; [done|]. done.
  - simpl foldl. rewrite <-app_assoc, <-(IH (b0 ++ b)) by (rewrite length_app, Nat.pow_succ_r'; lia). f_equal.
    pose proof (pow2_pos k). destruct b0 as [|y b0]; [simpl in *; lia|].
    destruct b as [|x b]; [by rewrite app_nil_r, Hr0|].
    destruct (layered_root_some (x :: b)) as [r Hr]; [done|]. rewrite Hr. simpl.
    symmetry. apply (layered_root_app k (y :: b0) (x :: b)); [done|simpl in *; lia|done|done].
Qed.

Lemma progressive_root_layered l :
  l ≠ [] → layered_root l = Some (progressive_root (foldl push progressive_new l)).
Proof.
  intros Hl. unfold progressive_root.
  assert (holds 0 (reverse (leaves progressive_new)) []) as H0 by constructor.
  pose proof (pushes_holds l progressive_new [] H0) as Hh. simpl in Hh.
  apply join_slots_holds with (b := []) in Hh; [|simpl; lia]. rewrite app_nil_r in Hh. rewrite Hh.
  destruct l as [|x l]; [done|]. by destruct (layered_root_some (x :: l)) as [r ->].
Qed.

(** ** Inclusion proofs *)

(** One proof step: the bit tells on which side the lemma node goes. *)
Definition apply_step (elem : T) (step : bool * T) : T :=
  if step.1 then hash_concat step.2 elem else hash_concat elem step.2.

(** The steps of the proof of position [i], layer by layer. *)
Fixpoint path (layers : list (list T)) (i : nat) : list (bool * T) :=
  match layers with
  | [] => []
  | layer :: layers =>
      match layer !! Nat.lxor i 1 with
      | Some x => [(Nat.odd i, x)]
      | None => []
      end ++ path layers (Nat.div2 i)
  end.

Lemma land_one n : Nat.land n 1 = Nat.b2n (Nat.odd n).
Proof.
  change 1 with (Nat.ones 1). rewrite Nat.land_ones. change (2 ^ 1) with 2.
  rewrite <-Nat.bit0_mod. by rewrite Nat.bit0_odd.
Qed.

Lemma bit_test ix level : bool_decide (Nat.land (Nat.shiftr ix level) 1 = 1) = Nat.testbit ix level.
Proof.
  rewrite land_one, <-Nat.bit0_odd, Nat.shiftr_spec', Nat.add_0_l. by destruct (Nat.testbit ix level).
Qed.

(** The bits of an index from a level on are those of the steps. *)
Definition bits_are (ix level : nat) (steps : list (bool * T)) : Prop :=
  ∀ j b, steps.*1 !! j = Some b → Nat.testbit ix (level + j) = b.

Lemma proof_root_steps ix steps : ∀ level elem,
  bits_are ix level steps → proof_root_loop ix level steps.*2 elem = foldl apply_step elem steps.
Proof.
  induction steps as [|[b h] steps IH]; intros level elem Hb; [done|].
  change (((b, h) :: steps).*2) with (h :: steps.*2). simpl proof_root_loop. rewrite bit_test.
  pose proof (Hb 0 b eq_refl) as Hb0. rewrite Nat.add_0_r in Hb0. rewrite Hb0. apply (IH (S level)).
  intros j b' Hj. rewrite Nat.add_succ_comm. by apply Hb.
Qed.

(** The loop appends the steps to the lemma and sets one bit per step. *)
Lemma proof_loop_path layers : ∀ i v pi,
  (∀ j, length v ≤ j → Nat.testbit pi j = false) →
  ∃ pi', proof_loop layers i v pi = (v ++ (path layers i).*2, pi')
    ∧ (∀ j, j < length v → Nat.testbit pi' j = Nat.testbit pi j)
    ∧ bits_are pi' (length v) (path layers i).
Proof.
  induction layers as [|layer layers IH]; intros i v pi Hpi; simpl.
  { exists pi. rewrite app_nil_r. split_and!; [done..|]. by intros j b ?. }
  change (Nat.shiftr i 1) with (Nat.div2 i).
  destruct (layer !! Nat.lxor i 1) as [x|] eqn:Ex.
  - set (pi1 := Nat.lor pi (Nat.shiftl (Nat.land i 1) (length v))).
    assert (∀ j, Nat.testbit pi1 j = Nat.testbit pi j || (bool_decide (j = length v) && Nat.odd i)) as Hpi1.
    { intros j. unfold pi1. rewrite Nat.lor_spec. f_equal. rewrite land_one.
      destruct (Nat.lt_ge_cases j (length v)) as [Hlt|Hge].
      - rewrite Nat.shiftl_spec_low by done. by rewrite bool_decide_false by lia.
      - rewrite Nat.shiftl_spec_high' by done. destruct (Nat.odd i); simpl Nat.b2n.
        + rewrite andb_true_r. destruct (j - length v) as [|m] eqn:Em.
          * by rewrite bool_decide_true by lia.
          * rewrite bool_decide_false by lia. simpl. apply Nat.bits_0.
        + by rewrite Nat.bits_0, andb_false_r. }
    destruct (IH (Nat.div2 i) (v ++ [x]) pi1) as (pi' & -> & Hlow & Hbits).
    { intros j Hj. rewrite length_app in Hj. simpl in Hj. rewrite Hpi1, Hpi by lia.
      by rewrite bool_decide_false by lia. }
    rewrite length_app in Hlow, Hbits. simpl in Hlow, Hbits.
    exists pi'. rewrite <-app_assoc. split_and!; [done| |].
    + intros j Hj. rewrite Hlow, Hpi1, bool_decide_false by lia. simpl. by rewrite orb_false_r.
    + intros [|j] b Hj; simpl in Hj.
      * simplify_eq. rewrite Nat.add_0_r, Hlow, Hpi1, Hpi by lia. by rewrite bool_decide_true.
      * rewrite <-Nat.add_succ_comm, <-Nat.add_1_r. by apply Hbits.
  - destruct (IH (Nat.div2 i) v pi Hpi) as (pi' & -> & Hlow & Hbits). by exists pi'.
Qed.

Lemma lxor_even k : Nat.lxor (2 * k) 1 = 2 * k + 1.
Proof.
  symmetry. apply Nat.add_nocarry_lxor. rewrite land_one. by rewrite Nat.odd_mul.
Qed.
Lemma lxor_odd k : Nat.lxor (2 * k + 1) 1 = 2 * k.
Proof. by rewrite <-lxor_even, Nat.lxor_assoc, Nat.lxor_nilpotent, Nat.lxor_0_r. Qed.

(** One layer up, the element at half the position is the element combined
    with its sibling, or the element itself. *)
Lemma next_layer_lookup l : ∀ i x, l !! i = Some x →
  next_layer l !! Nat.div2 i
  = Some (match l !! Nat.lxor i 1 with
          | Some y => apply_step x (Nat.odd i, y)
          | None => x
          end).
Proof.
  assert (∀ k, 2 * S k = S (S (2 * k))) as Hs by lia.
  induction l as [|a|a b l IH] using next_layer_ind; intros i x Hx; [done| |].
  - destruct i; [|done]. by simplify_eq/=.
  - destruct (Nat.Even_or_Odd i) as [[k ->]|[k ->]].
    + rewrite lxor_even, Nat.odd_mul, Nat.div2_double. simpl andb.
      destruct k as [|k]; [by simplify_eq/=|]. rewrite Hs in Hx |- *.
      change ((a :: b :: l) !! S (S (2 * k))) with (l !! (2 * k)) in Hx.
      change ((a :: b :: l) !! (S (S (2 * k)) + 1)) with (l !! (2 * k + 1)).
      specialize (IH _ _ Hx). rewrite lxor_even, Nat.odd_mul, Nat.div2_double in IH. exact IH.
    + rewrite lxor_odd. assert (Nat.odd (2 * k + 1) = true) as Hodd by (apply Nat.odd_spec; by exists k).
      rewrite Hodd. assert (Nat.div2 (2 * k + 1) = k) as -> by (rewrite Nat.add_1_r; apply Nat.div2_succ_double).
      destruct k as [|k]; [by simplify_eq/=|]. rewrite Hs in Hx |- *.
      change ((a :: b :: l) !! (S (S (2 * k)) + 1)) with (l !! (2 * k + 1)) in Hx.
      change ((a :: b :: l) !! S (S (2 * k))) with (l !! (2 * k)).
      specialize (IH _ _ Hx). rewrite lxor_odd in IH.
      assert (Nat.odd (2 * k + 1) = true) as Hodd' by (apply Nat.odd_spec; by exists k). rewrite Hodd' in IH.
      rewrite Nat.add_1_r, Nat.div2_succ_double in IH. exact IH.
Qed.

Lemma path_root n : ∀ l i x,
  length l ≤ n → l !! i = Some x →
  layered_root l = Some (foldl apply_step x (path (build_loop n l) i)).
Proof.
  induction n as [|n IH]; intros l i x Hn Hx.
  { destruct l; [done|simpl in Hn; lia]. }
  simpl build_loop. case_decide as Hlen.
  - pose proof (length_next_layer_bounds l). apply next_layer_lookup in Hx as Hnext.
    rewrite <-layered_root_next. rewrite (IH (next_layer l) (Nat.div2 i) _ ltac:(lia) Hnext).
    simpl path. destruct (l !! Nat.lxor i 1) as [y|]; [|done]. by rewrite foldl_app.
  - destruct l as [|a [|]]; simpl in Hlen; [done| |lia]. destruct i as [|i]; [|done]. by simplify_eq/=.
Qed.

Lemma inclusion_proof_outcome l i x :
  l !! i = Some x →
  ∃ p, inclusion_proof (full_new l) i = Some p ∧ layered_root l = Some (proof_root p x).
Proof.
  intros Hx. assert (i < length l) as Hi by by eapply lookup_lt_Some.
  destruct l as [|a l0] eqn:El; [done|]. rewrite <-El in *.
  assert (nodes (full_new l) = build_loop (length l) l) as Hnodes by (by subst).
  assert (inclusion_proof (full_new l) i
          = let '(v, pi) := proof_loop (build_loop (length l) l) i [] 0 in Some (MkProof pi v)) as ->.
  { unfold inclusion_proof. rewrite Hnodes.
    assert (∃ rest, build_loop (length l) l = l :: rest) as [rest ->].
    { destruct (length l) as [|n]; simpl; [by eexists|]. case_decide; by eexists. }
    by rewrite decide_False by lia. }
  destruct (proof_loop_path (build_loop (length l) l) i [] 0) as (pi & -> & _ & Hbits).
  { intros j _. apply Nat.bits_0. }
  eexists. split; [done|]. unfold proof_root. simpl. rewrite proof_root_steps by exact Hbits.
  by apply path_root.
Qed.

(** ** Binding *)

(** Two different pairs with the same hash. *)
Definition collision : Prop :=
  ∃ a b c d, (a, b) ≠ (c, d) ∧ hash_concat a b = hash_concat c d.

Lemma hash_concat_binding `{EqDecision T} a b c d :
  hash_concat a b = hash_concat c d → a = c ∧ b = d ∨ collision.
Proof.
  intros Hh. destruct (decide (a = c)) as [->|Hne]; [destruct (decide (b = d)) as [->|Hne]; [by left|]|];
    right; eexists _, _, _, _; (split; [|exact Hh]); congruence.
Qed.

Lemma proof_loop_binding `{EqDecision T} ix lem1 : ∀ lem2 level x y,
  length lem1 = length lem2 →
  proof_root_loop ix level lem1 x = proof_root_loop ix level lem2 y → x = y ∨ collision.
Proof.
  induction lem1 as [|h1 lem1 IH]; intros [|h2 lem2] level x y Hlen Hr; simpl in *; try lia; [by left|].
  apply IH in Hr as [Hr|Hc]; [|by right|lia].
  case_bool_decide; apply hash_concat_binding in Hr as [[? ?]|?]; auto.
Qed.

Lemma next_layer_binding `{EqDecision T} l1 : ∀ l2,
  length l1 = length l2 → next_layer l1 = next_layer l2 → l1 = l2 ∨ collision.
Proof.
  induction l1 as [|x|x y l1 IH] using next_layer_ind; intros [|x' [|y' l2]] Hlen Hn; simpl in *; try lia;
    [by left|by left|]. injection Hn as Hh Hn.
  apply hash_concat_binding in Hh as [[-> ->]|?]; [|by right].
  destruct (IH l2) as [->|?]; [lia|done|by left|by right].
Qed.

Lemma layered_binding `{EqDecision T} n : ∀ l1 l2,
  length l1 ≤ n → length l1 = length l2 → l1 ≠ [] →
  layered_root l1 = layered_root l2 → l1 = l2 ∨ collision.
Proof.
  induction n as [|n IH]; intros l1 l2 Hn Hlen Hne Hr; [by destruct l1; simpl in *; [|lia]|].
  destruct l1 as [|x [|y l1]]; [done| |].
  - destruct l2 as [|x' [|]]; simpl in Hlen; try lia. unfold layered_root in Hr. simpl in Hr. left. congruence.
  - rewrite <-(layered_root_next (x :: y :: l1)), <-(layered_root_next l2) in Hr.
    pose proof (length_next_layer_bounds (x :: y :: l1)).
    apply IH in Hr as [Hr|?]; [|by right| |by rewrite !length_next_layer, Hlen|done].
    + by apply next_layer_binding.
    + simpl in *. lia.
Qed.

Lemma merkle_tree_root_total l :
  merkle_tree_root l = Some (progressive_root (foldl push progressive_new l))
  ∧ full_root (full_new l) = merkle_tree_root l.
Proof.
  destruct l as [|x l]; [done|].
  rewrite full_root_layered, merkle_tree_root_layered, <-progressive_root_layered by done. done.
Qed.

(** The recursive root, the root of a progressive tree after pushing the
    leaves one by one and the root of the full tree are the same, for every
    list of leaves; in particular none of the three panics. *)
Theorem merkle_roots_agree l :
  merkle_tree_root l = Some (progressive_root (foldl push progressive_new l))
  ∧ full_root (full_new l) = merkle_tree_root l.
Proof. apply merkle_tree_root_total. Qed.

(** Inclusion proofs are complete: every position of a tree has a proof,
    which verifies for the leaf at that position against the root of the tree;
    a position out of bounds has none. *)
Theorem inclusion_proof_complete `{EqDecision T} l i :
  match l !! i with
  | Some x => ∃ p r, inclusion_proof (full_new l) i = Some p ∧ merkle_tree_root l = Some r ∧ verify p x r = true
  | None => inclusion_proof (full_new l) i = None
  end.
Proof.
  destruct (l !! i) as [x|] eqn:Hx.
  - destruct (inclusion_proof_outcome l i x Hx) as (p & Hp & Hr). exists p, (proof_root p x).
    split; [done|]. rewrite merkle_tree_root_layered by (by intros ->). split; [done|].
    by apply bool_decide_eq_true.
  - apply lookup_ge_None in Hx. destruct l as [|a l]; [done|]. unfold inclusion_proof, full_new, build.
    assert (∃ rest, build_loop (length (a :: l)) (a :: l) = (a :: l) :: rest) as [rest E].
    { simpl. case_decide; by eexists. }
    cbv [nodes]. rewrite E. by rewrite decide_True.
Qed.

(** Inclusion proofs are binding: two proofs with the same index and
    length that verify two different elements against one root exhibit two
    different pairs of hashes that [hash_concat] maps to the same hash. *)
Theorem inclusion_proof_binding `{EqDecision T} p1 p2 x y r :
  index p1 = index p2 → length (lemma p1) = length (lemma p2) → x ≠ y →
  verify p1 x r = true → verify p2 y r = true → collision.
Proof.
  intros Hi Hl Hne H1%bool_decide_eq_true H2%bool_decide_eq_true.
  unfold proof_root in *. rewrite Hi in H1.
  destruct (proof_loop_binding (index p2) (lemma p1) (lemma p2) 0 x y) as [?|?]; [done|congruence|done|done].
Qed.

(** The root is binding: two different lists of leaves of the same length
    with the same root exhibit a collision of [hash_concat]. *)
Theorem merkle_root_binding `{EqDecision T} l1 l2 :
  length l1 = length l2 → l1 ≠ l2 → merkle_tree_root l1 = merkle_tree_root l2 → collision.
Proof.
  intros Hlen Hne Hr. destruct l1 as [|x l1], l2 as [|y l2]; try done.
  rewrite !merkle_tree_root_layered in Hr by done.
  destruct (layered_binding (length (x :: l1)) (x :: l1) (y :: l2)) as [?|?]; done.
Qed.
End merkle.

(** ** Concrete trees *)

Lemma inclusion_proof_binding_witness :
  verify Nat.add (MkProof 0 [1]) 1 2 = true ∧ verify Nat.add (MkProof 0 [0]) 2 2 = true ∧ collision Nat.add.
Proof.
  split; [reflexivity|]. split; [reflexivity|].
  apply (inclusion_proof_binding Nat.add (MkProof 0 [1]) (MkProof 0 [0]) 1 2 2); reflexivity || lia.
Defined.

Lemma merkle_root_binding_witness :
  merkle_tree_root Nat.add 0 [1; 2; 3] = merkle_tree_root Nat.add 0 [2; 1; 3] ∧ collision Nat.add.
Proof.
  split; [reflexivity|]. apply (merkle_root_binding Nat.add 0 [1; 2; 3] [2; 1; 3]); [reflexivity|congruence|reflexivity].
Defined.

(** The five-leaf tree of the comments: its proof indexes are 0, 1, 2, 3, 1. *)
Example five_leaves :
  (λ i, index <$> inclusion_proof (full_new (λ x y, 10 * x + y) [0; 1; 2; 3; 4]) i) <$> [0; 1; 2; 3; 4; 5]
  = [Some 0; Some 1; Some 2; Some 3; Some 1; None].
Proof. reflexivity. Qed.
