(* ===== verification/Hashes.v ===== *)
(** * Hashes, keys and identities

    Models the parts of data_structures/src/chain/mod.rs that give bytes to
    hashes, public keys and public key hashes.  Bytes are [Z] values below 256;
    a [Hash] is its list of 32 bytes and a [PublicKeyHash] its list of 20 bytes.
    SHA-256 itself belongs to the [sha2] crate and is a parameter of what uses
    it. *)

From stdpp Require Import base tactics numbers list countable.
From Stdlib Require Import ZArith Lia.
From S2P Require Import Prelude.
Local Open Scope Z_scope.

Definition Hash : Type := list Z.
Definition PublicKeyHash : Type := list Z.
#[export] Instance Hash_eq_dec : EqDecision Hash := _.
#[export] Instance Hash_countable : Countable Hash := _.
#[export] Instance PublicKeyHash_eq_dec : EqDecision PublicKeyHash := _.
#[export] Instance PublicKeyHash_countable : Countable PublicKeyHash := _.

(** A list of [n] bytes. *)
Definition bytes_of_len (n : nat) (l : list Z) : Prop := length l = n ∧ Forall (fits 256) l.

(** ** Big-endian encodings *)

(** [x.to_be_bytes()] of an unsigned integer of [n] bytes. *)
Fixpoint to_be_bytes (n : nat) (x : Z) : list Z :=
  match n with
  | O => []
  | S n => to_be_bytes n (x / 256) ++ [x mod 256]
  end.

(** [U256::from_big_endian] and its inverse. *)
Definition from_big_endian (l : list Z) : Z := foldl (λ acc b, acc * 256 + b) 0 l.

(** ** [Hash] *)

(** [Hash::default] and [Hash::min]: all bytes zero. *)
Definition Hash_min : Hash := replicate 32 0.
Definition Hash_max : Hash := replicate 32 255.

Definition with_first_u32 (x : Z) : Hash := to_be_bytes 4 x ++ replicate 28 255.

(** [Hash::div_mod]; [None] is the panic when [n] is zero. *)
Definition div_mod (h : Hash) (n : Z) : option (Hash * Z) :=
  if decide (n = 0) then None
  else let x := from_big_endian h in Some (to_be_bytes 32 (x / n), x mod n).

(** ** Keys *)

Record PublicKey := MkPublicKey { compressed : Z; pk_bytes : list Z }.
#[export] Instance PublicKey_eq_dec : EqDecision PublicKey.
Proof. solve_decision. Defined.
#[export] Instance PublicKey_countable : Countable PublicKey.
Proof.
  apply (inj_countable' (λ k, (compressed k, pk_bytes k)) (λ '(c, b), MkPublicKey c b)). by intros [].
Defined.

Inductive Secp256k1ConversionError := FailPublicKeyFromSlice (size : nat).

(** [PublicKey::to_bytes]. *)
Definition pk_to_bytes (k : PublicKey) : list Z := compressed k :: pk_bytes k.

Definition try_from_slice (serialized : list Z) : result Secp256k1ConversionError PublicKey :=
  match serialized with
  | c :: rest =>
      if decide (length serialized = 33%nat) then Ok (MkPublicKey c rest)
      else Err (FailPublicKeyFromSlice (length serialized))
  | [] => Err (FailPublicKeyFromSlice 0)
  end.

(** [PublicKey::from_bytes]: the [unwrap] of [try_from_slice]. *)
Definition pk_from_bytes (serialized : list Z) : option PublicKey :=
  match try_from_slice serialized with Ok k => Some k | _ => None end.

(** The derived [Ord] of byte arrays, for hashes and addresses: lexicographic. *)
Fixpoint bytes_le (a b : list Z) : Prop :=
  match a, b with
  | [], _ => True
  | _ :: _, [] => False
  | x :: a, y :: b => x < y ∨ x = y ∧ bytes_le a b
  end.
#[export] Instance bytes_le_dec : RelDecision bytes_le.
Proof. intros a. induction a as [|x a IH]; intros [|y b]; simpl; apply _. Defined.
#[export] Instance bytes_le_trans : Transitive bytes_le.
Proof. intros a. induction a as [|x a IH]; intros [|y b] [|z c]; simpl; try done. intuition (lia || naive_solver). Qed.
#[export] Instance bytes_ord : OrdType (list Z).
Proof.
  refine {| ole := bytes_le |}.
  - split; [split|].
    + intros a. induction a; simpl; [done|]. by right.
    + exact bytes_le_trans.
    + intros a. induction a as [|x a IH]; intros [|y b]; simpl; try done. intros Hxy Hyx.
      destruct Hxy as [|[-> Hab]], Hyx as [|[? Hba]]; try lia. f_equal. by apply IH.
  - intros a. induction a as [|x a IH]; intros [|y b]; simpl; [by left..|by right|].
    destruct (Z.lt_trichotomy x y) as [|[->|]]; [by left; left| |by right; left].
    destruct (IH b); [left|right]; by right.
Defined.

Section pkh.
Context (calculate_sha256 : list Z → Hash).
(** [PublicKeyHash::from_public_key] over [PublicKey::hash]. *)
Definition pkh (k : PublicKey) : PublicKeyHash := take 20 (calculate_sha256 (pk_to_bytes k)).
End pkh.

(** ** Properties of the encodings *)

Lemma length_to_be_bytes n x : length (to_be_bytes n x) = n.
Proof. revert x. induction n as [|n IH]; intros x; simpl; [done|]. rewrite length_app, IH. simpl. lia. Qed.

Lemma to_be_bytes_fits n x : Forall (fits 256) (to_be_bytes n x).
Proof.
  revert x. induction n as [|n IH]; intros x; simpl; [done|]. apply Forall_app. split; [apply IH|].
  constructor; [|done]. apply Z.mod_pos_bound. lia.
Qed.

Lemma from_big_endian_snoc l b : from_big_endian (l ++ [b]) = from_big_endian l * 256 + b.
Proof. unfold from_big_endian. by rewrite foldl_app. Qed.

Lemma from_to_be_bytes n x : 0 ≤ x < 256 ^ Z.of_nat n → from_big_endian (to_be_bytes n x) = x.
Proof.
  revert x. induction n as [|n IH]; intros x Hx; simpl; [simpl in Hx; change (from_big_endian []) with 0; lia|].
  rewrite from_big_endian_snoc. rewrite Nat2Z.inj_succ, Z.pow_succ_r in Hx by lia.
  rewrite IH; [pose proof (Z.div_mod x 256); lia|].
  split; [apply Z.div_pos; lia|]. apply Z.div_lt_upper_bound; lia.
Qed.

Lemma to_be_bytes_inj n x y :
  0 ≤ x < 256 ^ Z.of_nat n → 0 ≤ y < 256 ^ Z.of_nat n → to_be_bytes n x = to_be_bytes n y → x = y.
Proof. intros Hx Hy Heq. rewrite <-(from_to_be_bytes n x Hx), <-(from_to_be_bytes n y Hy). by rewrite Heq. Qed.

Lemma from_big_endian_bound l : Forall (fits 256) l → 0 ≤ from_big_endian l < 256 ^ Z.of_nat (length l).
Proof.
  induction l as [|b l IH] using rev_ind; intros Hl; [unfold from_big_endian; simpl; lia|].
  apply Forall_app in Hl as [Hl Hb]. inversion_clear Hb as [|?? Hb' _]. specialize (IH Hl).
  rewrite from_big_endian_snoc, length_app. simpl length. rewrite Nat.add_1_r, Nat2Z.inj_succ, Z.pow_succ_r by lia.
  unfold fits in Hb'. lia.
Qed.

Lemma to_from_big_endian l : Forall (fits 256) l → to_be_bytes (length l) (from_big_endian l) = l.
Proof.
  induction l as [|b l IH] using rev_ind; intros Hl; [done|].
  apply Forall_app in Hl as [Hl Hb]. inversion_clear Hb as [|?? Hb' _]. unfold fits in Hb'.
  rewrite length_app, from_big_endian_snoc. simpl length. rewrite Nat.add_1_r. simpl.
  rewrite Z.div_add_l, (Z.div_small b 256), Z.add_0_r by lia.
  rewrite (Z.add_comm (_ * _) b), Z.mod_add, Z.mod_small by lia. by rewrite IH.
Qed.

Lemma u32_bytes x : fits U32 x → 0 ≤ x < 256 ^ Z.of_nat 4.
Proof. intros Hx. change (256 ^ Z.of_nat 4) with 4294967296. machine. Qed.
