(* ===== verification/Superblock.v ===== *)
(** * Superblocks

    Models data_structures/src/superblock.rs, with the types it takes from
    data_structures/src/chain/mod.rs and the committees of chain/tapi.rs: the
    mempool of superblock votes, the selection of the signing committee, the
    vote count that decides the consensus and the construction of superblocks.

    What is not code of the repository is a parameter: SHA-256, the decompression
    of BN256 keys, the bech32 parser of addresses and the hash of block headers
    (a hash of generated protocol-buffer bytes).  The environment and the
    protocol version, which the code reads from process-wide configuration, are
    arguments.  The iteration order of the hash tables is a parameter too: any
    function that lists the entries. *)

From stdpp Require Import base tactics numbers list gmap strings.
From Stdlib Require Import ZArith Lia.
From S2P Require Import Prelude Hashes Merkle.
Local Open Scope Z_scope.
Local Open Scope rust_scope.

(** ** Data *)

Inductive Environment := Mainnet | Testnet | Development.
#[export] Instance Environment_eq_dec : EqDecision Environment.
Proof. solve_decision. Defined.

Record KeyedSignature := MkSignature { signature : list Z; public_key : PublicKey }.
#[export] Instance KeyedSignature_eq_dec : EqDecision KeyedSignature.
Proof. solve_decision. Defined.
#[export] Instance KeyedSignature_countable : Countable KeyedSignature.
Proof.
  apply (inj_countable' (λ k, (signature k, public_key k)) (λ '(c, b), MkSignature c b)). by intros [].
Defined.

Record SuperBlockVote := MkVote {
  bn256_signature : list Z;
  secp256k1_signature : KeyedSignature;
  superblock_hash : Hash;
  superblock_index : Z;
}.
#[export] Instance SuperBlockVote_eq_dec : EqDecision SuperBlockVote.
Proof. solve_decision. Defined.
#[export] Instance SuperBlockVote_countable : Countable SuperBlockVote.
Proof.
  apply (inj_countable' (λ v, (bn256_signature v, secp256k1_signature v, superblock_hash v, superblock_index v))
    (λ '(a, b, c, d), MkVote a b c d)). by intros [].
Defined.

(** The messages that a vote signs. *)
Definition bn256_signature_message (v : SuperBlockVote) : list Z := to_be_bytes 4 (superblock_index v) ++ superblock_hash v.
Definition secp256k1_signature_message (v : SuperBlockVote) : list Z :=
  to_be_bytes 4 (superblock_index v) ++ superblock_hash v ++ bn256_signature v.

Record CheckpointBeacon := MkBeacon { checkpoint : Z; hash_prev_block : Hash }.

Record BlockMerkleRoots := {
  mint_hash : Hash;
  vt_hash_merkle_root : Hash;
  dr_hash_merkle_root : Hash;
  commit_hash_merkle_root : Hash;
  reveal_hash_merkle_root : Hash;
  tally_hash_merkle_root : Hash;
  stake_hash_merkle_root : Hash;
  unstake_hash_merkle_root : Hash;
}.
Record BlockHeader := {
  signals : Z;
  beacon : CheckpointBeacon;
  merkle_roots : BlockMerkleRoots;
  proof : list Z * PublicKey;
  bn256_public_key : option (list Z);
}.

Record SuperBlock := MkSuperBlock {
  signing_committee_length : Z;
  ars_root : Hash;
  data_request_root : Hash;
  sb_index : Z;
  last_block : Hash;
  last_block_in_previous_superblock : Hash;
  tally_root : Hash;
}.

(** [SuperBlock::serialize_as_bytes]. *)
Definition serialize_as_bytes (sb : SuperBlock) : list Z :=
  to_be_bytes 4 (signing_committee_length sb) ++ ars_root sb ++ data_request_root sb
  ++ to_be_bytes 4 (sb_index sb) ++ last_block sb ++ last_block_in_previous_superblock sb ++ tally_root sb.

Inductive AddSuperBlockVote :=
  | AlreadySeen
  | DoubleVote
  | InvalidIndex
  | MaybeValid
  | NotInSigningCommittee
  | ValidButDifferentHash
  | ValidWithSameHash.

Inductive SuperBlockConsensus :=
  | SameAsLocal
  | Different (h : Hash)
  | NoConsensus
  | Unknown.

Record ARSIdentities := MkArsIdentities {
  identities : gset PublicKeyHash;
  ordered_identities : list PublicKeyHash;
}.
(** [ARSIdentities::new], [len] and [is_empty]. *)
Definition ars_identities_new (l : list PublicKeyHash) : ARSIdentities := MkArsIdentities (list_to_set l) l.
Definition ars_len (a : ARSIdentities) : nat := size (identities a).
Definition ars_is_empty (a : ARSIdentities) : bool := bool_decide (identities a = ∅).

Definition AltKeys : Type := gmap PublicKeyHash (list Z).

Definition get_rep_ordered_bn256_list (a : ARSIdentities) (alt_keys : AltKeys) : list (list Z) :=
  omap (λ p, alt_keys !! p) (ordered_identities a).

Record SuperBlockVotesMempool := MkMempool {
  penalized_identities : gset PublicKeyHash;
  received_votes : gset SuperBlockVote;
  votes_of_each_identity : gmap PublicKeyHash SuperBlockVote;
  votes_on_each_superblock : gmap Hash (list SuperBlockVote);
}.
Definition mempool_default : SuperBlockVotesMempool := MkMempool ∅ ∅ ∅ ∅.

Record SuperBlockState := MkState {
  ars_current_identities : ARSIdentities;
  ars_previous_identities : ARSIdentities;
  current_superblock : option SuperBlock;
  current_superblock_beacon : CheckpointBeacon;
  signing_committee : gset PublicKeyHash;
  votes_mempool : SuperBlockVotesMempool;
}.

Definition with_mempool (st : SuperBlockState) (mp : SuperBlockVotesMempool) : SuperBlockState :=
  MkState (ars_current_identities st) (ars_previous_identities st) (current_superblock st)
    (current_superblock_beacon st) (signing_committee st) mp.

(** ** Hard-coded committees *)

Definition WIT2_BOOTSTRAP_COMMITTEE : list string := [].
Definition WIT2_BOOTSTRAP_COMMITTEE_TEST : list string :=
  ["twit1f0am8c97q2ygkz3q6jyd2x29s8zaxqlxcqltxx"; "twit1pc8jzqph4t0md02e6fgwgsw26yll20p98c3pgh";
   "twit1mseplfttj5vvm8r7d5pn5je9dd02el4hw4w4cp"; "twit1najvm34rta4vnkpfax8kk0vhpntg5lgdz8wc33"]%string.
Definition FIRST_EMERGENCY_COMMITTEE : list string :=
  ["wit1asdpcspwysf0hg5kgwvgsp2h6g65y5kg9gj5dz"; "wit13l337znc5yuualnxfg9s2hu9txylntq5pyazty";
   "wit17nnjuxmfuu92l6rxhque2qc3u2kvmx2fske4l9"; "wit1drcpu0xc2akfcqn8r69vw70pj8fzjhjypdcfsq";
   "wit1cyrlc64hyu0rux7hclmg9rxwxpa0v9pevyaj2c"; "wit1g0rkajsgwqux9rnmkfca5tz6djg0f87x7ms5qx";
   "wit1etherz02v4fvqty6jhdawefd0pl33qtevy7s4z"]%string.
Definition SECOND_EMERGENCY_COMMITTEE : list string :=
  ["wit1drcpu0xc2akfcqn8r69vw70pj8fzjhjypdcfsq"; "wit1drcpu3x42y5vp7w3pe203xrwpnth2pnt6c0dm9";
   "wit1asdpcspwysf0hg5kgwvgsp2h6g65y5kg9gj5dz"; "wit1cyrlc64hyu0rux7hclmg9rxwxpa0v9pevyaj2c";
   "wit1etherz02v4fvqty6jhdawefd0pl33qtevy7s4z"; "wit13l337znc5yuualnxfg9s2hu9txylntq5pyazty"]%string.
Definition THIRD_EMERGENCY_COMMITTEE : list string :=
  ["wit1asdpcspwysf0hg5kgwvgsp2h6g65y5kg9gj5dz"; "wit1drcpu0xc2akfcqn8r69vw70pj8fzjhjypdcfsq";
   "wit1drcpu3x42y5vp7w3pe203xrwpnth2pnt6c0dm9"; "wit1fkps4hsrvadr2u9veyk27xrv8yhmldaj8zdlpj";
   "wit1gnw6gvmkzfwe5tyjd55h7t2j4s68xappl85g5v"; "wit1q679r2d8yk0ntmk48k6nprc3fervd627vqe39l";
   "wit1wl200uau9zp072ps0wfpq74kd0a65uhd5c4dfk"]%string.
Definition FOURTH_EMERGENCY_COMMITTEE : list string :=
  ["wit1c0ucz2u9hwgqflkn4xjeyxtla9tqp0sderzkjr"; "wit1drcpu0xc2akfcqn8r69vw70pj8fzjhjypdcfsq";
   "wit1drcpu3x42y5vp7w3pe203xrwpnth2pnt6c0dm9"; "wit1llz4vw9mszjqud5pqavf84208entwz73lxekzm";
   "wit1nawuk8f2hckz6ct9wlzg95fhg3kyjzlrrd99qz"; "wit1sp8xnclrhm4j5lrzxwnxerdetzsjqw88kwr05f"]%string.

Definition FIRST_HARD_FORK : Z := 192000.
Definition SECOND_HARD_FORK : Z := 376320.
Definition THIRD_HARD_FORK : Z := 445440.
Definition after_first_hard_fork (epoch : Z) (environment : Environment) : bool :=
  match environment with Mainnet => bool_decide (FIRST_HARD_FORK ≤ epoch) | _ => true end.
Definition after_second_hard_fork (epoch : Z) (environment : Environment) : bool :=
  match environment with Mainnet => bool_decide (SECOND_HARD_FORK ≤ epoch) | _ => true end.
Definition after_third_hard_fork (epoch : Z) (environment : Environment) : bool :=
  bool_decide (THIRD_HARD_FORK ≤ epoch) && bool_decide (environment = Mainnet).

(** ** Vote counting *)

Definition two_thirds_consensus (votes identities : Z) : bool :=
  let required_votes := wmul U64 identities 2 / 3 in
  bool_decide (required_votes ≤ votes).

(** [Iterator::max_by_key]: the last of the maximal elements. *)
Definition max_by_key {A} (key : A → Z) (l : list A) : option A :=
  foldl (λ best x, match best with
                   | None => Some x
                   | Some y => if decide (key y ≤ key x) then Some x else Some y
                   end) None l.

(** [iter().position(|x| *x == v)]. *)
Fixpoint position {A} `{EqDecision A} (v : A) (l : list A) : option nat :=
  match l with
  | [] => None
  | x :: l => if decide (x = v) then Some O else S <$> position v l
  end.

(** ** Committees *)

(** The [while] loop of [magic_partition], [n] elements before its end. *)
Fixpoint partition_loop {T} (v : list T) (each : nat) (n : nat) (a : nat) : option (list T) :=
  match n with
  | O => Some []
  | S n =>
      x ← v !! a;
      rest ← partition_loop v each n ((a + each) mod length v)%nat;
      Some (x :: rest)
  end.

(** [None] is a panic: a division by zero when [size] is zero. *)
Definition magic_partition {T} (v : list T) (first size : nat) : option (list T) :=
  if decide (length v ≤ first)%nat then Some []
  else if decide (size = 0)%nat then None
  else
    let each := (length v / size)%nat in
    x ← v !! first;
    rest ← partition_loop v each (size - 1) ((first + each) mod length v)%nat;
    Some (x :: rest).

(** [None] is a panic: the assertion, a division by zero or an index out of
    bounds. *)
Definition magic_partition_2 {T} (v : list T) (first size : nat) (rand_distribution : list Z) : option (list T) :=
  let v_len := length v in
  if decide (v_len ≤ first)%nat then Some []
  else if decide (v_len < size)%nat then None
  else if decide (size = 0)%nat then None
  else
    let each := (v_len / size)%nat in
    let rand_len := length rand_distribution in
    mapM (λ i,
      if decide (rand_len = 0)%nat then None else
      r ← rand_distribution !! (i mod rand_len)%nat;
      let rand_offset := (Z.to_nat r mod each)%nat in
      let position := ((first + i * each + rand_offset) mod v_len)%nat in
      v !! position) (seq 0 size).

Section superblock.
Context (calculate_sha256 : list Z → Hash).
Context (to_uncompressed : list Z → option (list Z)).
Context (parse_address : string → option PublicKeyHash).
Context (versioned_hash : Z → BlockHeader → Hash).
Context (votes_iter : gmap Hash (list SuperBlockVote) → list (Hash * list SuperBlockVote)).
Context (votes_drain : gset SuperBlockVote → list SuperBlockVote).

Definition voter (sbv : SuperBlockVote) : PublicKeyHash :=
  pkh calculate_sha256 (public_key (secp256k1_signature sbv)).

Definition in_emergency_period (superblock_index : Z) (environment : Environment) :
    option (list string) :=
  if decide (environment = Mainnet ∧ superblock_index > 750 ∧ superblock_index < 1344)
  then Some FIRST_EMERGENCY_COMMITTEE
  else if decide (environment = Mainnet ∧ superblock_index > 44165 ∧ superblock_index < 45509)
  then Some SECOND_EMERGENCY_COMMITTEE
  else if decide (environment = Mainnet ∧ superblock_index > 144200 ∧ superblock_index < 145500)
  then Some THIRD_EMERGENCY_COMMITTEE
  else if decide (environment = Mainnet ∧ superblock_index > 224300 ∧ superblock_index < 292224)
  then Some FOURTH_EMERGENCY_COMMITTEE
  else None.

(** [.map(|address| address.parse().expect(..)).collect()]. *)
Definition parse_committee (addresses : list string) : option (gset PublicKeyHash) :=
  list_to_set <$> mapM parse_address addresses.

(** *** The mempool *)

Definition mempool_contains (mp : SuperBlockVotesMempool) (sbv : SuperBlockVote) : bool :=
  bool_decide (sbv ∈ received_votes mp).

Definition mempool_insert (mp : SuperBlockVotesMempool) (sbv : SuperBlockVote) : SuperBlockVotesMempool :=
  MkMempool (penalized_identities mp) ({[ sbv ]} ∪ received_votes mp)
    (votes_of_each_identity mp) (votes_on_each_superblock mp).

Definition check_double_vote (mp : SuperBlockVotesMempool) (p : PublicKeyHash) (sbv_hash : Hash) : bool :=
  if decide (p ∈ penalized_identities mp) then true
  else match votes_of_each_identity mp !! p with
       | Some vote => bool_decide (sbv_hash ≠ superblock_hash vote)
       | None => false
       end.

(** [None] is the panic of one of the two [unwrap]s. *)
Definition override_vote (mp : SuperBlockVotesMempool) (p : PublicKeyHash) : option SuperBlockVotesMempool :=
  match votes_of_each_identity mp !! p with
  | Some old_sbv =>
      v ← votes_on_each_superblock mp !! superblock_hash old_sbv;
      pos ← position old_sbv v;
      let v' := swap_remove pos v in
      Some (MkMempool ({[ p ]} ∪ penalized_identities mp) (received_votes mp)
              (delete p (votes_of_each_identity mp))
              (if decide (v' = []) then delete (superblock_hash old_sbv) (votes_on_each_superblock mp)
               else <[superblock_hash old_sbv := v']> (votes_on_each_superblock mp)))
  | None =>
      Some (MkMempool ({[ p ]} ∪ penalized_identities mp) (received_votes mp)
              (votes_of_each_identity mp) (votes_on_each_superblock mp))
  end.

(** [SuperBlockVotesMempool::insert_vote]. *)
Definition mempool_insert_vote (mp : SuperBlockVotesMempool) (sbv : SuperBlockVote) : SuperBlockVotesMempool :=
  let p := voter sbv in
  MkMempool (penalized_identities mp) (received_votes mp)
    (<[p := sbv]> (votes_of_each_identity mp))
    (match votes_of_each_identity mp !! p with
     | None => <[superblock_hash sbv :=
                   default [] (votes_on_each_superblock mp !! superblock_hash sbv) ++ [sbv]]>
                 (votes_on_each_superblock mp)
     | Some _ => votes_on_each_superblock mp
     end).

(** [clear_and_remove_votes]: the cleared mempool and the drained votes. *)
Definition clear_and_remove_votes (mp : SuperBlockVotesMempool) :
    SuperBlockVotesMempool * list SuperBlockVote :=
  (mempool_default, votes_drain (received_votes mp)).

Definition most_voted_superblock (mp : SuperBlockVotesMempool) : option (Hash * Z) :=
  max_by_key snd ((λ hv, (hv.1, Z.of_nat (length hv.2))) <$> votes_iter (votes_on_each_superblock mp)).

Definition valid_votes_counter (mp : SuperBlockVotesMempool) : Z :=
  Z.of_nat (size (votes_of_each_identity mp)).
Definition invalid_votes_counter (mp : SuperBlockVotesMempool) : Z :=
  Z.of_nat (size (penalized_identities mp)).
Definition votes_counter_from_superblock (mp : SuperBlockVotesMempool) (h : Hash) : Z :=
  Z.of_nat (length (default [] (votes_on_each_superblock mp !! h))).

(** *** The state *)

(** [SuperBlockState::new]. *)
Definition superblock_state_new (genesis_hash : Hash) (bootstrap_committee : list PublicKeyHash) :
    SuperBlockState :=
  MkState (ars_identities_new bootstrap_committee) (ars_identities_new bootstrap_committee) None
    (MkBeacon 0 genesis_hash) (list_to_set bootstrap_committee) mempool_default.

(** [SuperBlockState::insert_vote]. *)
Definition insert_vote (st : SuperBlockState) (sbv : SuperBlockVote) :
    exec SuperBlockState Empty_set AddSuperBlockVote :=
  let p := voter sbv in
  if check_double_vote (votes_mempool st) p (superblock_hash sbv) then
    match override_vote (votes_mempool st) p with
    | Some mp => Ret (with_mempool st mp) DoubleVote
    | None => Crash
    end
  else
    let votes_for_our_tip :=
      bool_decide (superblock_hash sbv = hash_prev_block (current_superblock_beacon st)) in
    Ret (with_mempool st (mempool_insert_vote (votes_mempool st) sbv))
      (if votes_for_our_tip then ValidWithSameHash else ValidButDifferentHash).

Definition is_valid (st : SuperBlockState) (sbv : SuperBlockVote) (current_superblock_index : Z) : option bool :=
  if decide (current_superblock_index = superblock_index sbv) then
    Some (bool_decide (voter sbv ∈ signing_committee st))
  else if decide (superblock_index sbv = sat_add U32 current_superblock_index 1) then None
  else Some false.

Definition add_vote (st : SuperBlockState) (sbv : SuperBlockVote) (current_superblock_index : Z) :
    exec SuperBlockState Empty_set AddSuperBlockVote :=
  if mempool_contains (votes_mempool st) sbv then Ret st AlreadySeen
  else
    let st1 := with_mempool st (mempool_insert (votes_mempool st) sbv) in
    match is_valid st1 sbv current_superblock_index with
    | Some true => insert_vote st1 sbv
    | Some false =>
        if bool_decide (superblock_index sbv = current_superblock_index)
           || ars_is_empty (ars_previous_identities st1)
        then Ret st1 NotInSigningCommittee
        else Ret st1 InvalidIndex
    | None => Ret st1 MaybeValid
    end.

Definition has_consensus (st : SuperBlockState) : SuperBlockConsensus :=
  if decide (signing_committee st = ∅) then SameAsLocal
  else
    let mp := votes_mempool st in
    let n := Z.of_nat (size (signing_committee st)) in
    match most_voted_superblock mp with
    | None => Unknown
    | Some (most_voted, num_votes) =>
        if two_thirds_consensus num_votes n then
          if decide (most_voted = hash_prev_block (current_superblock_beacon st)) then SameAsLocal
          else Different most_voted
        else
          let num_missing_votes :=
            wsub U64 (wsub U64 n (valid_votes_counter mp)) (invalid_votes_counter mp) in
          if two_thirds_consensus (wadd U64 num_votes num_missing_votes) n then Unknown else NoConsensus
    end.

(** *** Committee selection *)

Definition calculate_superblock_signing_committee (ars : ARSIdentities) (signing_committee_size : Z)
    (current_superblock_index : Z) (superblock_hash : Hash) (block_epoch : Z) (environment : Environment) :
    option (gset PublicKeyHash) :=
  if decide (Z.of_nat (ars_len ars) < signing_committee_size) then Some (identities ars)
  else if after_second_hard_fork block_epoch environment then
    let hashed := calculate_sha256 (superblock_hash ++ to_be_bytes 4 current_superblock_index) in
    dm ← div_mod hashed (Z.of_nat (ars_len ars));
    subset ← magic_partition_2 (ordered_identities ars) (Z.to_nat dm.2) (Z.to_nat signing_committee_size) hashed;
    Some (list_to_set subset)
  else
    let index_hash := calculate_sha256 (to_be_bytes 4 current_superblock_index) in
    first_byte_sb_hash ← superblock_hash !! O;
    first_byte_index_hash ← index_hash !! O;
    if decide (ars_len ars = 0)%nat then None else
    let first := (first_byte_sb_hash + first_byte_index_hash) mod Z.of_nat (ars_len ars) in
    subset ← magic_partition (ordered_identities ars) (Z.to_nat first) (Z.to_nat signing_committee_size);
    Some (list_to_set subset).

(** *** Superblock construction *)

Definition sha256_concat (a b : Hash) : Hash := calculate_sha256 (a ++ b).
Definition EMPTY_SHA256 : Hash :=
  [227; 176; 196; 66; 152; 252; 28; 20; 154; 251; 244; 200; 153; 111; 185; 36; 39; 174; 65; 228;
   100; 155; 147; 76; 164; 149; 153; 27; 120; 82; 184; 85].
Definition hash_merkle_tree_root (hashes : list Hash) : option Hash :=
  merkle_tree_root sha256_concat EMPTY_SHA256 hashes.

(** The hash of a BN256 key is that of its uncompressed form; [None] is the
    panic of its [unwrap]. *)
Definition hash_key_leaves (keys : list (list Z)) : option (list Hash) :=
  mapM (λ k, calculate_sha256 <$> to_uncompressed k) keys.

Definition mining_build_superblock (block_headers : list BlockHeader) (ars_ordered_hash_leaves : list Hash)
    (index : Z) (last_block_in_previous : Hash) (committee_length : Z) (protocol_version : Z) :
    option SuperBlock :=
  match last block_headers with
  | None =>
      root ← hash_merkle_tree_root ars_ordered_hash_leaves;
      Some (MkSuperBlock committee_length root Hash_min index last_block_in_previous last_block_in_previous Hash_min)
  | Some last_block_header =>
      let last_block_hash := versioned_hash protocol_version last_block_header in
      root ← hash_merkle_tree_root ars_ordered_hash_leaves;
      drs ← hash_merkle_tree_root ((λ b, dr_hash_merkle_root (merkle_roots b)) <$> block_headers);
      tallies ← hash_merkle_tree_root ((λ b, tally_hash_merkle_root (merkle_roots b)) <$> block_headers);
      Some (MkSuperBlock committee_length root drs index last_block_hash last_block_in_previous tallies)
  end.

(** [SuperBlock::hash]. *)
Definition superblock_hash_of (sb : SuperBlock) : Hash := calculate_sha256 (serialize_as_bytes sb).

(** The loop of [build_superblock] over the votes received before. *)
Fixpoint reinsert_votes (st : SuperBlockState) (index : Z) (old_votes : list SuperBlockVote) :
    exec SuperBlockState Empty_set unit :=
  match old_votes with
  | [] => Ret st tt
  | sbv :: old_votes =>
      if decide (is_valid st sbv index = Some true) then
        let! (st', _) := insert_vote st sbv in reinsert_votes st' index old_votes
      else reinsert_votes st index old_votes
  end.

(** The signing committee of superblock [index]; [None] is a panic. *)
Definition select_committee (previous : ARSIdentities) (committee_size : Z) (index : Z) (tip : Hash)
    (block_epoch : Z) (environment : Environment) : option (gset PublicKeyHash) :=
  committee ← calculate_superblock_signing_committee previous committee_size index tip block_epoch environment;
  emergency_committee ← match in_emergency_period index environment with
                        | Some addresses => parse_committee addresses
                        | None => Some committee
                        end;
  match environment with
  | Mainnet =>
      if decide (292224 ≤ index ∧ index < 299712) then parse_committee WIT2_BOOTSTRAP_COMMITTEE
      else Some emergency_committee
  | Testnet => parse_committee WIT2_BOOTSTRAP_COMMITTEE_TEST
  | Development => Some emergency_committee
  end.

Definition build_superblock (st : SuperBlockState) (block_headers : list BlockHeader) (ars : ARSIdentities)
    (signing_committee_size : Z) (index : Z) (last_block_in_previous : Hash) (alt_keys : AltKeys)
    (sync_superblock : option SuperBlock) (block_epoch : Z) (environment : Environment)
    (protocol_version : Z) : exec SuperBlockState Empty_set SuperBlock :=
  match hash_key_leaves (get_rep_ordered_bn256_list ars alt_keys) with
  | None => Crash
  | Some key_leaves =>
      let previous := ars_current_identities st in
      let committee_size :=
        match sync_superblock with
        | Some sb => signing_committee_length sb
        | None => signing_committee_size
        end in
      match select_committee previous committee_size index
              (hash_prev_block (current_superblock_beacon st)) block_epoch environment with
      | None => Crash
      | Some committee =>
          match (match sync_superblock with
                 | Some sb => Some sb
                 | None => mining_build_superblock block_headers key_leaves index last_block_in_previous
                             (Z.of_nat (size committee) mod U32) protocol_version
                 end) with
          | None => Crash
          | Some superblock =>
              let '(mp, old_votes) := clear_and_remove_votes (votes_mempool st) in
              let st1 := MkState ars previous (current_superblock st)
                           (MkBeacon index (superblock_hash_of superblock)) committee mp in
              let! (st2, _) := reinsert_votes st1 index old_votes in
              Ret st2 superblock
          end
      end
  end.

(** *** Queries and simple updates *)

Definition get_beacon (st : SuperBlockState) : CheckpointBeacon := current_superblock_beacon st.
Definition get_current_superblock_votes (st : SuperBlockState) : gset SuperBlockVote :=
  list_to_set (concat (votes_iter (votes_on_each_superblock (votes_mempool st))).*2).
Definition get_committee_length (st : SuperBlockState) : Z :=
  Z.of_nat (size (signing_committee st)) mod U32.
Definition set_current_superblock (st : SuperBlockState) (new : SuperBlock) :
    SuperBlockState * option SuperBlock :=
  (MkState (ars_current_identities st) (ars_previous_identities st) (Some new)
     (current_superblock_beacon st) (signing_committee st) (votes_mempool st),
   current_superblock st).
End superblock.
