(* ===== verification/SuperblockCorrect.v ===== *)
(** * Correctness of the superblock votes

    The mempool keeps the votes twice, by identity and by superblock; [mp_ok] says
    that the two agree.  Its abstract view is the [status] of each member of the
    signing committee, which one vote changes by [cast].  The consensus of
    [has_consensus] is stated over the number of members whose status is a vote
    for a given superblock. *)

From stdpp Require Import base tactics numbers list gmap strings.
From Stdlib Require Import ZArith Lia.
From S2P Require Import Prelude Hashes Merkle Superblock.
Local Open Scope Z_scope.

(** ** List lemmas *)

Lemma position_Some {A} `{EqDecision A} (v : A) l pos : position v l = Some pos → l !! pos = Some v.
Proof.
  revert pos. induction l as [|x l IH]; intros pos Hp; simpl in Hp; [done|].
  case_decide; simplify_eq; [done|]. apply fmap_Some in Hp as (i & Hi & ->). by apply IH.
Qed.

Lemma position_is_Some {A} `{EqDecision A} (v : A) l : v ∈ l → is_Some (position v l).
Proof.
  induction l as [|x l IH]; [by intros ?%elem_of_nil|]. intros [->|Hv]%elem_of_cons; simpl.
  - rewrite decide_True by done. by eexists.
  - case_decide; [by eexists|]. by apply fmap_is_Some, IH.
Qed.

Lemma max_by_key_spec {A} (key : A → Z) (l : list A) :
  match max_by_key key l with
  | None => l = []
  | Some x => x ∈ l ∧ ∀ y, y ∈ l → key y ≤ key x
  end.
Proof.
  unfold max_by_key. set (f := λ (best : option A) x, _).
  assert (∀ l best, match foldl f best l with
    | None => best = None ∧ l = []
    | Some x => (x ∈ l ∨ best = Some x) ∧ (∀ y, y ∈ l → key y ≤ key x) ∧ ∀ y, best = Some y → key y ≤ key x
    end) as Hf.
  { clear l. intros l. induction l as [|x l IH]; intros best; simpl.
    - destruct best as [y|]; [|done]. split_and!; [by right|by intros ? ?%elem_of_nil|]. intros ? [= ->]. done.
    - specialize (IH (f best x)). destruct (foldl f (f best x) l) as [z|].
      + destruct IH as (Hin & Hle & Hb).
        assert (key x ≤ key z ∧ ∀ y, best = Some y → key y ≤ key z) as [Hx Hy].
        { unfold f in Hb. destruct best as [y|].
          - case_decide; specialize (Hb _ eq_refl); split; try lia; intros ? [= <-]; lia.
          - specialize (Hb _ eq_refl). by split. }
        split_and!; [|by intros y [->|Hin']%elem_of_cons; auto|done].
        destruct Hin as [Hin|Hf]; [left; by apply elem_of_cons; right|].
        unfold f in Hf. destruct best as [y|]; [case_decide|]; simplify_eq; auto; left; apply elem_of_cons; by left.
      + destruct IH as [Hf _]. unfold f in Hf. destruct best; [case_decide|]; done. }
  specialize (Hf l None). destruct (foldl f None l); naive_solver.
Qed.

Section correct.
Context (calculate_sha256 : list Z → Hash).
Local Abbreviation voter := (voter calculate_sha256).

(** ** The invariant of the mempool *)

Inductive Status := NotVoted | Voted (h : Hash) | Penalized.
#[global] Instance Status_eq_dec : EqDecision Status.
Proof. solve_decision. Defined.

Definition status (mp : SuperBlockVotesMempool) (p : PublicKeyHash) : Status :=
  if decide (p ∈ penalized_identities mp) then Penalized
  else match votes_of_each_identity mp !! p with
       | Some v => Voted (superblock_hash v)
       | None => NotVoted
       end.

(** The effect of one vote on the status of its author. *)
Definition cast (s : Status) (h : Hash) : Status :=
  match s with
  | NotVoted => Voted h
  | Voted h' => if decide (h = h') then Voted h else Penalized
  | Penalized => Penalized
  end.

Definition voters_of (mp : SuperBlockVotesMempool) (h : Hash) : list PublicKeyHash :=
  voter <$> default [] (votes_on_each_superblock mp !! h).

Record mp_ok (committee : gset PublicKeyHash) (mp : SuperBlockVotesMempool) : Prop := {
  mp_lists : ∀ h l, votes_on_each_superblock mp !! h = Some l →
    l ≠ [] ∧ NoDup (voter <$> l) ∧ ∀ x, x ∈ l → superblock_hash x = h;
  mp_link : ∀ p h, (superblock_hash <$> votes_of_each_identity mp !! p = Some h) ↔ p ∈ voters_of mp h;
  mp_members : ∀ p v, votes_of_each_identity mp !! p = Some v →
    voter v = p ∧ p ∈ committee ∧ p ∉ penalized_identities mp;
  mp_penalized : penalized_identities mp ⊆ committee;
}.

(** The vote recorded for [p], if any, is one of the votes that are counted. *)
Definition exact_at (mp : SuperBlockVotesMempool) (p : PublicKeyHash) : Prop :=
  ∀ v, votes_of_each_identity mp !! p = Some v →
    v ∈ default [] (votes_on_each_superblock mp !! superblock_hash v).

Lemma mp_ok_default committee : mp_ok committee mempool_default.
Proof.
  split.
  - intros h l Hl. simpl in Hl. by rewrite lookup_empty in Hl.
  - intros p h. unfold voters_of. simpl. rewrite !lookup_empty. simpl. split; [done|by intros ?%elem_of_nil].
  - intros p v Hv. simpl in Hv. by rewrite lookup_empty in Hv.
  - set_solver.
Qed.

Lemma mp_ok_received committee mp r :
  mp_ok committee mp →
  mp_ok committee (MkMempool (penalized_identities mp) r (votes_of_each_identity mp) (votes_on_each_superblock mp)).
Proof. by intros []. Qed.

Lemma status_voted mp p h :
  status mp p = Voted h ↔
  p ∉ penalized_identities mp ∧ superblock_hash <$> votes_of_each_identity mp !! p = Some h.
Proof.
  unfold status. case_decide; [naive_solver|].
  destruct (votes_of_each_identity mp !! p); naive_solver.
Qed.

Lemma voters_of_status committee mp p h :
  mp_ok committee mp → p ∈ voters_of mp h ↔ status mp p = Voted h.
Proof.
  intros Hok. rewrite status_voted, <-(mp_link _ _ Hok). split; [|by intros [_ ?]].
  intros Hv. split; [|done]. apply fmap_Some in Hv as (v & Hv & _). by apply (mp_members _ _ Hok p v).
Qed.

Lemma voters_of_NoDup committee mp h : mp_ok committee mp → NoDup (voters_of mp h).
Proof.
  intros Hok. unfold voters_of. destruct (votes_on_each_superblock mp !! h) as [l|] eqn:El; simpl; [|constructor].
  by apply (mp_lists _ _ Hok) in El as (_ & ? & _).
Qed.

(** ** Recording a vote *)

(** Lookup in the votes per superblock after a first vote. *)
Lemma voters_of_insert mp sbv h :
  votes_of_each_identity mp !! voter sbv = None →
  voters_of (mempool_insert_vote calculate_sha256 mp sbv) h
  = voters_of mp h ++ (if decide (h = superblock_hash sbv) then [voter sbv] else []).
Proof.
  intros Hnone. unfold voters_of, mempool_insert_vote. simpl. rewrite Hnone.
  case_decide as Hh; subst.
  - rewrite lookup_insert_eq. simpl. by rewrite fmap_app.
  - rewrite lookup_insert_ne by done. by rewrite app_nil_r.
Qed.

Lemma insert_new_ok committee mp sbv :
  mp_ok committee mp → voter sbv ∈ committee → voter sbv ∉ penalized_identities mp →
  votes_of_each_identity mp !! voter sbv = None →
  mp_ok committee (mempool_insert_vote calculate_sha256 mp sbv).
Proof.
  intros Hok Hc Hp Hnone. pose proof Hok as [Hl Hlink Hmem Hpen].
  assert (∀ h, voter sbv ∉ voters_of mp h) as Hfresh.
  { intros h Hin. apply Hlink in Hin. by rewrite Hnone in Hin. }
  split.
  - intros h l. unfold mempool_insert_vote. simpl. rewrite Hnone.
    intros [[<- <-]|[Hne Hl']]%lookup_insert_Some; [|by apply Hl].
    destruct (votes_on_each_superblock mp !! superblock_hash sbv) as [l0|] eqn:El; simpl.
    + apply Hl in El as El'. destruct El' as (_ & Hnd & Hh). split_and!.
      * by destruct l0.
      * rewrite fmap_app. apply NoDup_app. split_and!; [done| |apply NoDup_singleton].
        intros p Hin Hp'. apply list_elem_of_singleton in Hp' as ->. apply (Hfresh (superblock_hash sbv)).
        unfold voters_of. by rewrite El.
      * intros x [Hx|Hx]%elem_of_app; [by apply Hh|]. by apply list_elem_of_singleton in Hx as ->.
    + split_and!; [done|apply NoDup_singleton|]. by intros x ->%list_elem_of_singleton.
  - intros p h. rewrite voters_of_insert by done. rewrite elem_of_app, <-Hlink.
    unfold mempool_insert_vote. simpl. destruct (decide (p = voter sbv)) as [->|Hne].
    + rewrite lookup_insert_eq, Hnone. simpl. case_decide; [subst|].
      * split; [right; by apply list_elem_of_singleton|done].
      * split; [intros [= <-]; done|intros [?|?%elem_of_nil]; done].
    + rewrite lookup_insert_ne by done. split; [by left|]. intros [?|Hin]; [done|].
      case_decide; [by apply list_elem_of_singleton in Hin|by apply elem_of_nil in Hin].
  - intros p v. unfold mempool_insert_vote. simpl. intros [[<- <-]|[_ Hv]]%lookup_insert_Some; [done|by apply Hmem].
  - done.
Qed.

Lemma insert_again_ok committee mp sbv v :
  mp_ok committee mp → votes_of_each_identity mp !! voter sbv = Some v →
  superblock_hash v = superblock_hash sbv →
  mp_ok committee (mempool_insert_vote calculate_sha256 mp sbv).
Proof.
  intros Hok Hv Hh. pose proof Hok as [Hl Hlink Hmem Hpen]. unfold mempool_insert_vote. rewrite Hv.
  split; simpl; [done| | |done].
  - intros p h. unfold voters_of. simpl. fold (voters_of mp h). rewrite <-Hlink.
    destruct (decide (p = voter sbv)) as [->|Hne]; [rewrite lookup_insert_eq, Hv; simpl; by rewrite Hh|].
    by rewrite lookup_insert_ne.
  - intros p w [[<- <-]|[_ Hw]]%lookup_insert_Some; [|by apply Hmem]. split; [done|]. by apply (Hmem _ v).
Qed.

(** The lists after the vote [v] of [p] for [h] is removed from [l]. *)
Definition without (mp : SuperBlockVotesMempool) (h : Hash) (l' : list SuperBlockVote) :
    gmap Hash (list SuperBlockVote) :=
  if decide (l' = []) then delete h (votes_on_each_superblock mp)
  else <[h := l']> (votes_on_each_superblock mp).

Lemma without_lookup mp h l' h' :
  default [] (without mp h l' !! h') = if decide (h' = h) then l' else default [] (votes_on_each_superblock mp !! h').
Proof.
  unfold without. repeat case_decide; subst; by simplify_map_eq.
Qed.

Lemma override_voted committee mp p v :
  mp_ok committee mp → p ∈ committee → exact_at mp p → votes_of_each_identity mp !! p = Some v →
  ∃ mp', override_vote mp p = Some mp' ∧ mp_ok committee mp'
    ∧ penalized_identities mp' = {[ p ]} ∪ penalized_identities mp
    ∧ votes_of_each_identity mp' = delete p (votes_of_each_identity mp)
    ∧ received_votes mp' = received_votes mp
    ∧ (∀ q, q ≠ p → exact_at mp q → exact_at mp' q).
Proof.
  intros Hok Hpc Hex Hv. pose proof Hok as [Hl Hlink Hmem Hpen]. unfold override_vote. rewrite Hv.
  specialize (Hex v Hv). set (h := superblock_hash v) in *.
  destruct (votes_on_each_superblock mp !! h) as [l|] eqn:El; [|simpl in Hex; by apply elem_of_nil in Hex].
  simpl in Hex. destruct (position_is_Some v l Hex) as [pos Hpos]. simpl. rewrite Hpos. simpl.
  apply position_Some, swap_remove_perm in Hpos. set (l' := swap_remove pos l) in *.
  apply Hl in El as El'. destruct El' as (_ & Hnd & Hhs).
  pose proof Hnd as Hnd'. rewrite Hpos in Hnd'. apply NoDup_cons in Hnd' as [Hpl Hndl].
  destruct (Hmem p v Hv) as (Hvp & _ & _).
  eexists. split; [done|]. fold (without mp h l'). split_and!; simpl; [|done..|].
  - split; simpl.
    + intros h' l0. unfold without. case_decide as Hl'.
      * intros [_ Hl0]%lookup_delete_Some. by apply Hl.
      * intros [[<- <-]|[_ Hl0]]%lookup_insert_Some; [|by apply Hl]. split_and!; [done..|].
        intros x Hx. apply Hhs. rewrite Hpos. apply elem_of_cons. by right.
    + intros q h'. unfold voters_of. simpl. rewrite without_lookup.
      destruct (decide (q = p)) as [->|Hne].
      * rewrite lookup_delete_eq. simpl. split; [done|]. intros Hin. exfalso. case_decide as Hh'.
        -- apply Hpl. by rewrite Hvp.
        -- apply (Hlink p h') in Hin. rewrite Hv in Hin. simpl in Hin. by injection Hin as <-.
      * rewrite lookup_delete_ne, Hlink by done. unfold voters_of. case_decide as Hh'; [subst h'|done].
        rewrite El. simpl. rewrite Hpos. csimpl. rewrite elem_of_cons, Hvp. naive_solver.
    + intros q w [Hne Hw]%lookup_delete_Some. apply Hmem in Hw as (? & ? & ?). set_solver.
    + set_solver.
  - intros q Hne Hexq w Hw. simpl in *. apply lookup_delete_Some in Hw as [_ Hw]. rewrite without_lookup.
    specialize (Hexq w Hw). case_decide as Hh'; [|done]. rewrite Hh', El in Hexq. simpl in Hexq.
    rewrite Hpos in Hexq. apply elem_of_cons in Hexq as [->|?]; [|done].
    apply Hmem in Hw as (Hw & _). congruence.
Qed.

(** What [insert_vote] reports for a vote for [h], given the status of its
    author after the vote. *)
Definition vote_report (s : Status) (h tip : Hash) : AddSuperBlockVote :=
  match s with
  | Penalized => DoubleVote
  | _ => if decide (h = tip) then ValidWithSameHash else ValidButDifferentHash
  end.

(** The vote is not a second copy, with other signatures, of a vote of the same
    identity for the same superblock. *)
Definition not_resigned (mp : SuperBlockVotesMempool) (sbv : SuperBlockVote) : Prop :=
  ∀ v, votes_of_each_identity mp !! voter sbv = Some v → superblock_hash v = superblock_hash sbv → v = sbv.

#[global] Instance not_resigned_dec mp sbv : Decision (not_resigned mp sbv).
Proof.
  unfold not_resigned. destruct (votes_of_each_identity mp !! voter sbv) as [v|].
  - destruct (decide (superblock_hash v = superblock_hash sbv → v = sbv)) as [Hd|Hd]; [left; by intros ? [= <-]|right].
    intros Hn. apply Hd. by apply Hn.
  - left. by intros ? ?.
Defined.

(** The effect of [insert_vote] on the mempool. *)
Record voted (committee : gset PublicKeyHash) (mp mp' : SuperBlockVotesMempool) (sbv : SuperBlockVote) : Prop := {
  vt_ok : mp_ok committee mp';
  vt_status : ∀ q, status mp' q
              = if decide (q = voter sbv) then cast (status mp q) (superblock_hash sbv) else status mp q;
  vt_received : received_votes mp' = received_votes mp;
  vt_exact : ∀ q, exact_at mp q → q ≠ voter sbv ∨ not_resigned mp sbv → exact_at mp' q;
  vt_origin : ∀ q v, votes_of_each_identity mp' !! q = Some v → v = sbv ∨ votes_of_each_identity mp !! q = Some v;
}.

Lemma override_outcome committee mp sbv :
  mp_ok committee mp → voter sbv ∈ committee → exact_at mp (voter sbv) →
  check_double_vote mp (voter sbv) (superblock_hash sbv) = true →
  ∃ mp', override_vote mp (voter sbv) = Some mp' ∧ voted committee mp mp' sbv
    ∧ status mp' (voter sbv) = Penalized.
Proof.
  intros Hok Hc Hex Hd. set (p := voter sbv) in *.
  destruct (votes_of_each_identity mp !! p) as [v|] eqn:Hv.
  - destruct (mp_members _ _ Hok p v Hv) as (_ & _ & Hnp).
    destruct (override_voted committee mp p v Hok Hc Hex Hv) as (mp' & Ho & Hok' & Hpen & Hof & Hrec & Hex').
    assert (status mp' p = Penalized) as Hst
      by (unfold status; rewrite Hpen; by rewrite decide_True by set_solver).
    exists mp'. split; [done|]. split; [|done]. split; [done| |done| |].
    + intros q. fold p. case_decide as Hq; [subst q|].
      * rewrite Hst. unfold status. rewrite decide_False by done. rewrite Hv. simpl.
        unfold check_double_vote in Hd. rewrite decide_False, Hv in Hd by done.
        apply bool_decide_eq_true in Hd. by rewrite decide_False.
      * unfold status. rewrite Hpen, Hof, lookup_delete_ne by done.
        destruct (decide (q ∈ penalized_identities mp)); [by rewrite decide_True by set_solver|].
        by rewrite decide_False by set_solver.
    + intros q Hexq _. destruct (decide (q = p)) as [->|]; [|by apply Hex'].
      intros w Hw. by rewrite Hof, lookup_delete_eq in Hw.
    + intros q w Hw. right. rewrite Hof in Hw. by apply lookup_delete_Some in Hw as [_ ?].
  - unfold check_double_vote in Hd. rewrite Hv in Hd. case_decide as Hp; [|done].
    unfold override_vote. rewrite Hv. eexists. split; [done|].
    replace ({[p]} ∪ penalized_identities mp) with (penalized_identities mp) by set_solver.
    assert (status mp p = Penalized) as Hst by (unfold status; by rewrite decide_True).
    split; [|unfold status; simpl; by rewrite decide_True]. split; simpl; try done; [by destruct Hok| |auto].
    intros q. fold p. case_decide as Hq; [|done]. subst q. rewrite Hst. done.
Qed.

Lemma record_outcome committee mp sbv :
  mp_ok committee mp → voter sbv ∈ committee →
  check_double_vote mp (voter sbv) (superblock_hash sbv) = false →
  let mp' := mempool_insert_vote calculate_sha256 mp sbv in
  voted committee mp mp' sbv ∧ status mp' (voter sbv) = Voted (superblock_hash sbv).
Proof.
  intros Hok Hc Hd mp'. unfold check_double_vote in Hd. case_decide as Hnp; [done|].
  assert (status mp' (voter sbv) = Voted (superblock_hash sbv)) as Hst.
  { unfold status. simpl. rewrite decide_False by done. by rewrite lookup_insert_eq. }
  assert (∀ q, q ≠ voter sbv → status mp' q = status mp q) as Hother.
  { intros q Hne. unfold status. simpl. by rewrite lookup_insert_ne. }
  assert (∀ q v, votes_of_each_identity mp' !! q = Some v →
            v = sbv ∨ votes_of_each_identity mp !! q = Some v) as Horigin.
  { intros q v Hv. simpl in Hv. apply lookup_insert_Some in Hv as [[_ <-]|[_ ?]]; auto. }
  split; [|done]. destruct (votes_of_each_identity mp !! voter sbv) as [v|] eqn:Hv.
  - apply bool_decide_eq_false in Hd. assert (superblock_hash v = superblock_hash sbv) as Hh by (by apply dec_stable; naive_solver).
    split; [by eapply insert_again_ok| |done| |done].
    + intros q. case_decide as Hq; [subst q|by apply Hother]. rewrite Hst. unfold status.
      rewrite decide_False, Hv by done. simpl. by rewrite decide_True by congruence.
    + intros q Hex Hcond w Hw. unfold mp', mempool_insert_vote in Hw |- *. simpl in *. rewrite Hv.
      apply lookup_insert_Some in Hw as [[<- <-]|[Hne Hw]]; [|by apply Hex].
      destruct Hcond as [?|Hres]; [done|]. specialize (Hex v Hv). by rewrite (Hres v Hv Hh) in Hex.
  - split; [by apply insert_new_ok| |done| |done].
    + intros q. case_decide as Hq; [subst q|by apply Hother]. rewrite Hst. unfold status.
      by rewrite decide_False, Hv by done.
    + intros q Hex _ w Hw. unfold mp', mempool_insert_vote in Hw |- *. simpl in *. rewrite Hv.
      assert (∀ h, h = superblock_hash w →
        default [] (<[superblock_hash sbv := default [] (votes_on_each_superblock mp !! superblock_hash sbv) ++ [sbv]]>
           (votes_on_each_superblock mp) !! h)
        = default [] (votes_on_each_superblock mp !! h) ++ (if decide (h = superblock_hash sbv) then [sbv] else [])) as Hlk.
      { intros h _. case_decide; subst; [by rewrite lookup_insert_eq|]. rewrite lookup_insert_ne by done. by rewrite app_nil_r. }
      rewrite Hlk by done. apply lookup_insert_Some in Hw as [[<- <-]|[Hne Hw]].
      * rewrite decide_True by done. apply elem_of_app. right. by apply list_elem_of_singleton.
      * apply elem_of_app. left. by apply Hex.
Qed.

Lemma insert_vote_outcome st sbv :
  mp_ok (signing_committee st) (votes_mempool st) → voter sbv ∈ signing_committee st →
  (∀ v, votes_of_each_identity (votes_mempool st) !! voter sbv = Some v → superblock_hash v ≠ superblock_hash sbv →
     v ∈ default [] (votes_on_each_superblock (votes_mempool st) !! superblock_hash v)) →
  ∃ mp', insert_vote calculate_sha256 st sbv
         = Ret (with_mempool st mp')
             (vote_report (status mp' (voter sbv)) (superblock_hash sbv) (hash_prev_block (current_superblock_beacon st)))
    ∧ voted (signing_committee st) (votes_mempool st) mp' sbv.
Proof.
  intros Hok Hc Hex. unfold insert_vote.
  destruct (check_double_vote _ _ _) eqn:Hd.
  - assert (exact_at (votes_mempool st) (voter sbv)) as Hexact.
    { intros v Hv. apply Hex; [done|]. destruct (mp_members _ _ Hok _ _ Hv) as (_ & _ & Hnp).
      unfold check_double_vote in Hd. rewrite decide_False, Hv in Hd by done. apply bool_decide_eq_true in Hd. by intros ?. }
    destruct (override_outcome _ _ _ Hok Hc Hexact Hd) as (mp' & -> & Hv & Hst). exists mp'. by rewrite Hst.
  - destruct (record_outcome _ _ _ Hok Hc Hd) as [Hv Hst]. eexists. split; [|done]. rewrite Hst. simpl.
    f_equal. by case_bool_decide; case_decide.
Qed.

(** ** Counting votes *)

Definition with_status (committee : gset PublicKeyHash) (mp : SuperBlockVotesMempool) (s : Status) :
    gset PublicKeyHash := filter (λ p, status mp p = s) committee.
(** The number of members of the committee with a given status. *)
Definition count (committee : gset PublicKeyHash) (mp : SuperBlockVotesMempool) (s : Status) : Z :=
  Z.of_nat (size (with_status committee mp s)).

Lemma votes_counter_count committee mp h :
  mp_ok committee mp → votes_counter_from_superblock mp h = count committee mp (Voted h).
Proof.
  intros Hok. unfold votes_counter_from_superblock, count. f_equal.
  rewrite <-(length_fmap voter). fold (voters_of mp h).
  rewrite <-(size_list_to_set (C:=gset PublicKeyHash)) by (by eapply voters_of_NoDup).
  f_equal. apply set_eq. intros p. unfold with_status.
  rewrite elem_of_list_to_set, elem_of_filter, (voters_of_status committee) by done.
  split; [|by intros [? _]]. intros Hs. split; [done|].
  apply status_voted in Hs as [_ (v & Hv & _)%fmap_Some]. by apply (mp_members _ _ Hok) in Hv as (_ & ? & _).
Qed.

Lemma members_partition committee mp :
  mp_ok committee mp →
  Z.of_nat (size committee)
  = valid_votes_counter mp + invalid_votes_counter mp + count committee mp NotVoted.
Proof.
  intros Hok. unfold valid_votes_counter, invalid_votes_counter, count.
  rewrite <-size_dom. rewrite <-!Nat2Z.inj_add. f_equal.
  assert (committee = dom (votes_of_each_identity mp) ∪ penalized_identities mp ∪ with_status committee mp NotVoted) as Heq.
  { apply set_eq. intros p. unfold with_status. rewrite !elem_of_union, elem_of_filter, elem_of_dom. split.
    - intros Hp. unfold status. case_decide; [auto|]. destruct (votes_of_each_identity mp !! p); naive_solver.
    - intros [[[v Hv]|Hp]|[_ ?]]; [|by apply (mp_penalized _ _ Hok)|done].
      by apply (mp_members _ _ Hok) in Hv as (_ & ? & _). }
  rewrite Heq at 1. rewrite !size_union; [done| |].
  - intros p Hp%elem_of_dom Hp'. destruct Hp as [v Hv]. by apply (mp_members _ _ Hok) in Hv as (_ & _ & ?).
  - intros p Hp [Hs _]%elem_of_filter. unfold status in Hs. case_decide as Hpen; [done|].
    apply elem_of_union in Hp as [[v Hv]%elem_of_dom|?]; [|done]. by rewrite Hv in Hs.
Qed.

(** The sum of the counts of two different statuses. *)
Lemma count_two committee mp s1 s2 :
  s1 ≠ s2 → count committee mp s1 + count committee mp s2 ≤ Z.of_nat (size committee).
Proof.
  intros Hne. unfold count. rewrite <-Nat2Z.inj_add. apply Nat2Z.inj_le. rewrite <-size_union.
  - apply subseteq_size. intros p [Hp|Hp]%elem_of_union; by apply elem_of_filter in Hp as [_ ?].
  - intros p [H1 _]%elem_of_filter [H2 _]%elem_of_filter. congruence.
Qed.

Section consensus.
Context (votes_iter : gmap Hash (list SuperBlockVote) → list (Hash * list SuperBlockVote)).
Hypothesis votes_iter_perm : ∀ m, votes_iter m ≡ₚ map_to_list m.

Lemma most_voted_spec committee mp :
  mp_ok committee mp →
  match most_voted_superblock votes_iter mp with
  | None => ∀ h, count committee mp (Voted h) = 0
  | Some (h, k) => k = count committee mp (Voted h) ∧ 0 < k ∧ ∀ h', count committee mp (Voted h') ≤ k
  end.
Proof.
  intros Hok. unfold most_voted_superblock.
  assert (∀ h l, votes_on_each_superblock mp !! h = Some l →
            Z.of_nat (length l) = count committee mp (Voted h)) as Hlen.
  { intros h l Hl. rewrite <-votes_counter_count by done. unfold votes_counter_from_superblock. by rewrite Hl. }
  assert (∀ h, votes_on_each_superblock mp !! h = None → count committee mp (Voted h) = 0) as Hnone.
  { intros h Hl. rewrite <-votes_counter_count by done. unfold votes_counter_from_superblock. by rewrite Hl. }
  pose proof (max_by_key_spec snd ((λ hv : Hash * list SuperBlockVote, (hv.1, Z.of_nat (length hv.2))) <$> votes_iter (votes_on_each_superblock mp))) as Hmax.
  destruct (max_by_key _ _) as [[h k]|].
  - destruct Hmax as [Hin Hle]. apply list_elem_of_fmap in Hin as ([h' l] & [= -> ->] & Hin).
    rewrite votes_iter_perm in Hin. apply elem_of_map_to_list in Hin. simpl.
    apply (mp_lists _ _ Hok) in Hin as Hl. destruct Hl as (Hne & _).
    split_and!; [by apply Hlen|destruct l; [done|simpl; lia]|].
    intros h2. destruct (votes_on_each_superblock mp !! h2) as [l2|] eqn:E2; [|rewrite Hnone by done; lia].
    rewrite <-(Hlen h2 l2 E2). apply (Hle (h2, Z.of_nat (length l2))). apply list_elem_of_fmap.
    exists (h2, l2). split; [done|]. rewrite votes_iter_perm. by apply elem_of_map_to_list.
  - apply fmap_nil_inv in Hmax. intros h. apply Hnone.
    assert (map_to_list (votes_on_each_superblock mp) = []) as Hnil.
    { apply Permutation_nil_r. by rewrite <-votes_iter_perm, Hmax. }
    apply map_to_list_empty_iff in Hnil. rewrite Hnil. apply lookup_empty.
Qed.

Lemma two_thirds_spec votes n :
  0 ≤ n → n * 2 < U64 → two_thirds_consensus votes n = bool_decide (n * 2 / 3 ≤ votes).
Proof. intros Hn Hm. unfold two_thirds_consensus. by rewrite wmul_small by lia. Qed.

Lemma has_consensus_cases st :
  mp_ok (signing_committee st) (votes_mempool st) → signing_committee st ≠ ∅ →
  let n := Z.of_nat (size (signing_committee st)) in
  let tip := hash_prev_block (current_superblock_beacon st) in
  let votes h := count (signing_committee st) (votes_mempool st) (Voted h) in
  let missing := count (signing_committee st) (votes_mempool st) NotVoted in
  n * 2 < U64 →
  (has_consensus votes_iter st = Unknown ∧ ∀ h, votes h = 0)
  ∨ ∃ h, 0 < votes h ∧ (∀ h', votes h' ≤ votes h)
      ∧ has_consensus votes_iter st
        = if decide (n * 2 / 3 ≤ votes h) then (if decide (h = tip) then SameAsLocal else Different h)
          else if decide (n * 2 / 3 ≤ votes h + missing) then Unknown else NoConsensus.
Proof.
  intros Hok Hne n tip votes missing Hmax. unfold has_consensus. rewrite decide_False by done.
  pose proof (most_voted_spec _ _ Hok) as Hmv. fold votes in Hmv.
  destruct (most_voted_superblock _ _) as [[h k]|]; [|by left]. right. exists h.
  destruct Hmv as (-> & Hpos & Hle). split_and!; [done..|]. fold n.
  assert (0 ≤ n) by (unfold n; lia).
  rewrite !two_thirds_spec by lia.
  change (count (signing_committee st) (votes_mempool st) (Voted h)) with (votes h) in *. fold tip.
  pose proof (members_partition _ _ Hok) as Hpart. fold n missing in Hpart.
  assert (0 ≤ missing ∧ 0 ≤ valid_votes_counter (votes_mempool st) ∧ 0 ≤ invalid_votes_counter (votes_mempool st)) as (? & ? & ?)
    by (unfold missing, count, valid_votes_counter, invalid_votes_counter; lia).
  rewrite (wsub_small U64 n), wsub_small by lia.
  assert (votes h + missing ≤ n) by (by apply count_two).
  replace (n - valid_votes_counter (votes_mempool st) - invalid_votes_counter (votes_mempool st)) with missing by lia.
  rewrite wadd_small by lia.
  destruct (decide (n * 2 / 3 ≤ votes h)); [rewrite bool_decide_true by done; done|].
  rewrite bool_decide_false by done.
  destruct (decide (n * 2 / 3 ≤ votes h + missing)); [by rewrite bool_decide_true|by rewrite bool_decide_false].
Qed.


(** With a committee of three or of at least five members, a superblock
    with two thirds of the votes (rounded down) is the answer of
    [has_consensus], in whatever order the votes are stored: two superblocks
    cannot both have them. *)
Theorem has_consensus_decisive st h :
  mp_ok (signing_committee st) (votes_mempool st) →
  let n := Z.of_nat (size (signing_committee st)) in
  n = 3 ∨ 5 ≤ n → n * 2 < U64 →
  n * 2 / 3 ≤ votes_counter_from_superblock (votes_mempool st) h →
  has_consensus votes_iter st
  = if decide (h = hash_prev_block (current_superblock_beacon st)) then SameAsLocal else Different h.
Proof.
  intros Hok n Hn Hmax Hq. rewrite (votes_counter_count (signing_committee st)) in Hq by done.
  assert (n * 2 = 3 * (n * 2 / 3) + n * 2 mod 3 ∧ 0 ≤ n * 2 mod 3 < 3) as [Hdiv Hmod]
    by (split; [apply Z.div_mod; lia|apply Z.mod_pos_bound; lia]).
  assert (n < 2 * (n * 2 / 3) ∧ 0 < n * 2 / 3) as [Htwo Hpos] by (destruct Hn as [->|?]; [done|lia]).
  assert (signing_committee st ≠ ∅) as Hne by (intros He; unfold n in Hn; rewrite He, size_empty in Hn; lia).
  destruct (has_consensus_cases st Hok Hne Hmax) as [[_ H0]|(h' & _ & Hle & ->)]; [specialize (H0 h); simpl in H0; lia|].
  specialize (Hle h). simpl in Hle. fold n. rewrite decide_True by lia.
  assert (h' = h) as ->; [|done]. apply dec_stable. intros Hneq.
  pose proof (count_two (signing_committee st) (votes_mempool st) (Voted h) (Voted h') ltac:(congruence)).
  fold n in H. lia.
Qed.
End consensus.

(** ** Adding votes *)

(** The vote is new, for the current superblock, by a member of the committee. *)
Definition counted (st : SuperBlockState) (sbv : SuperBlockVote) (index : Z) : Prop :=
  sbv ∉ received_votes (votes_mempool st) ∧ superblock_index sbv = index ∧ voter sbv ∈ signing_committee st.
#[global] Instance counted_dec st sbv index : Decision (counted st sbv index) := _.

Definition status_after (st : SuperBlockState) (sbv : SuperBlockVote) (index : Z) (p : PublicKeyHash) : Status :=
  let s := status (votes_mempool st) p in
  if decide (counted st sbv index ∧ p = voter sbv) then cast s (superblock_hash sbv) else s.

Definition add_vote_report (st : SuperBlockState) (sbv : SuperBlockVote) (index : Z) : AddSuperBlockVote :=
  if decide (sbv ∈ received_votes (votes_mempool st)) then AlreadySeen
  else if decide (superblock_index sbv = index) then
    if decide (voter sbv ∈ signing_committee st)
    then vote_report (status_after st sbv index (voter sbv)) (superblock_hash sbv)
           (hash_prev_block (current_superblock_beacon st))
    else NotInSigningCommittee
  else if decide (superblock_index sbv = sat_add U32 index 1) then MaybeValid
  else if ars_is_empty (ars_previous_identities st) then NotInSigningCommittee
  else InvalidIndex.

Definition all_exact (mp : SuperBlockVotesMempool) : Prop := ∀ p, exact_at mp p.

(** The vote is counted as a second vote of its author for another superblock,
    and the first vote that is recorded is not among the counted ones. *)
Definition add_vote_panics (st : SuperBlockState) (sbv : SuperBlockVote) (index : Z) : Prop :=
  counted st sbv index ∧
  match votes_of_each_identity (votes_mempool st) !! voter sbv with
  | Some v => superblock_hash v ≠ superblock_hash sbv
              ∧ v ∉ default [] (votes_on_each_superblock (votes_mempool st) !! superblock_hash v)
  | None => False
  end.
#[global] Instance add_vote_panics_dec st sbv index : Decision (add_vote_panics st sbv index).
Proof. unfold add_vote_panics. apply and_dec; [apply _|]. case_match; apply _. Defined.

Lemma insert_vote_panics st sbv v :
  mp_ok (signing_committee st) (votes_mempool st) →
  votes_of_each_identity (votes_mempool st) !! voter sbv = Some v → superblock_hash v ≠ superblock_hash sbv →
  v ∉ default [] (votes_on_each_superblock (votes_mempool st) !! superblock_hash v) →
  insert_vote calculate_sha256 st sbv = Crash.
Proof.
  intros Hok Hv Hne Hout. destruct (mp_members _ _ Hok _ _ Hv) as (_ & _ & Hnp).
  unfold insert_vote, check_double_vote, override_vote. rewrite decide_False, Hv by done.
  rewrite bool_decide_true by (by intros ?). destruct (votes_on_each_superblock _ !! _) as [l|]; [|done]. simpl in *.
  destruct (position v l) as [pos|] eqn:Hp; [|done]. apply position_Some in Hp. by apply list_elem_of_lookup_2 in Hp.
Qed.

(** A recorded vote that is replaced by one with other signatures is no longer
    one of the counted votes. *)
Lemma resigned_not_exact mp sbv :
  mp_ok (signing_committee mp) (votes_mempool mp) → all_exact (votes_mempool mp) →
  ¬ not_resigned (votes_mempool mp) sbv →
  ¬ exact_at (mempool_insert_vote calculate_sha256 (votes_mempool mp) sbv) (voter sbv).
Proof.
  intros Hok Hex Hres Hex'. apply Hres. intros v Hv Hh. pose proof (Hex _ v Hv) as Hin.
  assert (sbv ∈ default [] (votes_on_each_superblock (votes_mempool mp) !! superblock_hash sbv)) as Hin'.
  { specialize (Hex' sbv). unfold mempool_insert_vote in Hex'. simpl in Hex'. rewrite lookup_insert_eq, Hv in Hex'. by apply Hex'. }
  rewrite Hh in Hin. destruct (votes_on_each_superblock _ !! _) as [l|] eqn:Hl; [|by apply not_elem_of_nil in Hin]. simpl in *.
  destruct (mp_lists _ _ Hok _ _ Hl) as (_ & Hnd & _). destruct (mp_members _ _ Hok _ _ Hv) as (Hvp & _).
  apply list_elem_of_lookup in Hin as [i Hi], Hin' as [j Hj].
  assert (i = j) as ->; [|congruence]. eapply NoDup_lookup; [exact Hnd|by rewrite list_lookup_fmap, Hi|].
  rewrite list_lookup_fmap, Hj. simpl. by rewrite Hvp.
Qed.

Lemma add_vote_returns st sbv index :
  mp_ok (signing_committee st) (votes_mempool st) → ¬ add_vote_panics st sbv index →
  ∃ mp', add_vote calculate_sha256 st sbv index = Ret (with_mempool st mp') (add_vote_report st sbv index)
    ∧ mp_ok (signing_committee st) mp'
    ∧ (∀ p, status mp' p = status_after st sbv index p)
    ∧ received_votes mp' = {[ sbv ]} ∪ received_votes (votes_mempool st)
    ∧ (all_exact (votes_mempool st) → (all_exact mp' ↔ (counted st sbv index → not_resigned (votes_mempool st) sbv))).
Proof.
  intros Hok Hnp. unfold add_vote, mempool_contains, add_vote_report, status_after.
  assert (∀ mp', votes_of_each_identity mp' = votes_of_each_identity (votes_mempool st) →
            votes_on_each_superblock mp' = votes_on_each_superblock (votes_mempool st) → ¬ counted st sbv index →
            all_exact (votes_mempool st) →
            (all_exact mp' ↔ (counted st sbv index → not_resigned (votes_mempool st) sbv))) as Hkeep.
  { intros mp' He Hs Hn Hex. split; [by intros _ ?|]. intros _ p v. rewrite He, Hs. apply Hex. }
  destruct (decide (sbv ∈ received_votes (votes_mempool st))) as [Hin|Hout].
  { rewrite bool_decide_true by done. exists (votes_mempool st). split_and!; [by destruct st|done| |set_solver|].
    - intros p. rewrite decide_False; [done|]. intros [[? _] _]. done.
    - apply Hkeep; [done|done|]. by intros [? _]. }
  rewrite bool_decide_false by done.
  set (mp1 := mempool_insert (votes_mempool st) sbv).
  assert (mp_ok (signing_committee st) mp1) as Hok1 by (by apply mp_ok_received).
  unfold is_valid. simpl signing_committee. simpl ars_previous_identities.
  destruct (decide (superblock_index sbv = index)) as [Hi|Hi].
  - rewrite (decide_True (P:=index = superblock_index sbv)) by done.
    destruct (decide (voter sbv ∈ signing_committee st)) as [Hc|Hc].
    + rewrite bool_decide_true by done. assert (counted st sbv index) as Hcnt by done.
      destruct (insert_vote_outcome (with_mempool st mp1) sbv) as (mp' & Hins & Hv); [done..| |].
      { intros v Hv Hne. apply dec_stable. intros Hnot. apply Hnp. split; [done|]. simpl in Hv. by rewrite Hv. }
      rewrite Hins. destruct Hv as [Hok' Hst Hrec Hex' _]. simpl in *.
      assert (∀ p, status mp1 p = status (votes_mempool st) p) as Heq by done.
      exists mp'. split_and!; [|done| |by rewrite Hrec|].
      * rewrite Hst, Heq, decide_True by done. by rewrite decide_True.
      * intros p. rewrite Hst, Heq. case_decide as Hp; [by rewrite decide_True|].
        rewrite decide_False; [done|]. by intros [_ ?].
      * intros Hall. split.
        -- intros Hall' _. apply dec_stable. intros Hres. revert Hins. unfold insert_vote.
           assert (check_double_vote mp1 (voter sbv) (superblock_hash sbv) = false) as Hd.
           { apply not_true_is_false. intros Hd. apply Hres. intros v Hv Hh. exfalso. revert Hd. unfold check_double_vote.
             destruct (mp_members _ _ Hok _ _ Hv) as (_ & _ & Hpen). rewrite decide_False by done. simpl. rewrite Hv.
             intros Hd%bool_decide_eq_true. by apply Hd. }
           simpl votes_mempool. rewrite Hd. intros [= Hmp _].
           by apply (resigned_not_exact (with_mempool st mp1) sbv); [..|simpl; rewrite Hmp; apply Hall'].
        -- intros Hres q. apply Hex'; [by apply Hall|right; by apply Hres].
    + rewrite bool_decide_false by done. rewrite bool_decide_true by done. exists mp1. split_and!; [done..| |done|].
      * intros p. rewrite decide_False; [done|]. intros [(_ & _ & ?) _]. done.
      * apply Hkeep; [done|done|]. by intros (_ & _ & ?).
  - rewrite (decide_False (P:=index = superblock_index sbv)) by done.
    assert (∀ p, status mp1 p = if decide (counted st sbv index ∧ p = voter sbv)
               then cast (status (votes_mempool st) p) (superblock_hash sbv) else status (votes_mempool st) p) as Hst.
    { intros p. rewrite decide_False; [done|]. intros [(_ & ? & _) _]. done. }
    assert (all_exact (votes_mempool st) →
            (all_exact mp1 ↔ (counted st sbv index → not_resigned (votes_mempool st) sbv))) as Hex1
      by (apply Hkeep; [done|done|]; by intros (_ & ? & _)).
    exists mp1. case_decide as Hn; [done|]. rewrite bool_decide_false by done. simpl.
    by destruct (ars_is_empty _).
Qed.

(** (C20) [add_vote] on every branch, over a consistent mempool.  It panics
    exactly when a member that was already counted for one superblock votes
    for another, and its recorded vote is a copy with other signatures of the
    counted one.  Otherwise it implements the voting protocol over the status
    of the members: a new vote for the current superblock by a member is cast
    (a second vote for another superblock disqualifies its author), any other
    vote changes no status, the answer follows from the same cases, and the
    mempool stays consistent.  While every recorded vote is one of the counted
    ones there is no panic, and a vote keeps it that way exactly when it is
    not such a copy. *)
Theorem add_vote_refines st sbv index :
  mp_ok (signing_committee st) (votes_mempool st) →
  (add_vote calculate_sha256 st sbv index = Crash ↔ add_vote_panics st sbv index)
  ∧ (all_exact (votes_mempool st) → ¬ add_vote_panics st sbv index)
  ∧ (¬ add_vote_panics st sbv index →
     ∃ mp', add_vote calculate_sha256 st sbv index = Ret (with_mempool st mp') (add_vote_report st sbv index)
       ∧ mp_ok (signing_committee st) mp'
       ∧ (∀ p, status mp' p = status_after st sbv index p)
       ∧ received_votes mp' = {[ sbv ]} ∪ received_votes (votes_mempool st)
       ∧ (all_exact (votes_mempool st) →
          (all_exact mp' ↔ (counted st sbv index → not_resigned (votes_mempool st) sbv)))).
Proof.
  intros Hok.
  assert (¬ add_vote_panics st sbv index →
     ∃ mp', add_vote calculate_sha256 st sbv index = Ret (with_mempool st mp') (add_vote_report st sbv index)
       ∧ mp_ok (signing_committee st) mp' ∧ (∀ p, status mp' p = status_after st sbv index p)
       ∧ received_votes mp' = {[ sbv ]} ∪ received_votes (votes_mempool st)
       ∧ (all_exact (votes_mempool st) →
          (all_exact mp' ↔ (counted st sbv index → not_resigned (votes_mempool st) sbv)))) as Hret by (by apply add_vote_returns).
  split_and!; [split|..|exact Hret].
  - intros Hcrash. destruct (decide (add_vote_panics st sbv index)) as [|Hn]; [done|].
    destruct (Hret Hn) as (mp' & Heq & _). congruence.
  - intros [(Hout & Hi & Hc) Hv]. unfold add_vote, mempool_contains, is_valid. rewrite bool_decide_false by done.
    simpl signing_committee. rewrite decide_True, bool_decide_true by done.
    destruct (votes_of_each_identity _ !! _) as [v|] eqn:Hl; [|done]. destruct Hv as [Hne Hnot].
    by apply (insert_vote_panics _ sbv v); [apply mp_ok_received| | |].
  - intros Hex [_ Hv]. destruct (votes_of_each_identity _ !! _) as [v|] eqn:Hl; [|done]. destruct Hv as [_ Hnot]. apply Hnot. by eapply Hex.
Qed.

(** ** Rebuilding the mempool for the next superblock *)

(** The status that a set of votes gives to [p], in whatever order they are
    counted. *)
Definition tallied (votes : list SuperBlockVote) (p : PublicKeyHash) (s : Status) : Prop :=
  match s with
  | NotVoted => ∀ v, v ∈ votes → voter v ≠ p
  | Voted h => (∃ v, v ∈ votes ∧ voter v = p) ∧ ∀ v, v ∈ votes → voter v = p → superblock_hash v = h
  | Penalized => ∃ v w, v ∈ votes ∧ w ∈ votes ∧ voter v = p ∧ voter w = p ∧ superblock_hash v ≠ superblock_hash w
  end.

(** No two of the votes differ in their signatures only. *)
Definition no_resigned (votes : list SuperBlockVote) : Prop :=
  ∀ v w, v ∈ votes → w ∈ votes → voter v = voter w → superblock_hash v = superblock_hash w → v = w.

Lemma tallied_snoc votes p s sbv :
  tallied votes p s →
  tallied (votes ++ [sbv]) p (if decide (p = voter sbv) then cast s (superblock_hash sbv) else s).
Proof.
  assert (∀ v, v ∈ votes ++ [sbv] ↔ v ∈ votes ∨ v = sbv) as Hin
    by (intros v; by rewrite elem_of_app, list_elem_of_singleton).
  intros Ht. case_decide as Hp.
  - subst p. destruct s as [|h|]; simpl in *.
    + split; [exists sbv; naive_solver|]. intros v [Hv| ->]%Hin Hvp; [by apply Ht in Hv|done].
    + destruct Ht as [(v & Hv & Hvp) Hall]. case_decide as Hh; simpl.
      * split; [exists sbv; naive_solver|]. intros w [Hw| ->]%Hin Hwp; [subst; by apply Hall|done].
      * exists v, sbv. rewrite !Hin. split_and!; auto. rewrite (Hall v Hv Hvp). congruence.
    + destruct Ht as (v & w & ? & ? & ?). exists v, w. rewrite !Hin. naive_solver.
  - destruct s as [|h|]; simpl in *.
    + intros v [Hv| ->]%Hin; [by apply Ht|congruence].
    + destruct Ht as [(v & Hv & Hvp) Hall]. split; [exists v; naive_solver|].
      intros w [Hw| ->]%Hin Hwp; [by apply Hall|congruence].
    + destruct Ht as (v & w & ? & ? & ?). exists v, w. rewrite !Hin. naive_solver.
Qed.

(** The votes of a list that the loop counts. *)
Definition eligible (committee : gset PublicKeyHash) (index : Z) (votes : list SuperBlockVote) : list SuperBlockVote :=
  filter (λ v, superblock_index v = index ∧ voter v ∈ committee) votes.

Lemma is_valid_true st sbv index :
  is_valid calculate_sha256 st sbv index = Some true ↔ superblock_index sbv = index ∧ voter sbv ∈ signing_committee st.
Proof.
  unfold is_valid. case_decide as Hi; [|case_decide; naive_solver].
  rewrite (inj_iff Some), bool_decide_eq_true. naive_solver.
Qed.

Lemma reinsert_votes_outcome index votes : ∀ st done,
  mp_ok (signing_committee st) (votes_mempool st) → all_exact (votes_mempool st) →
  (∀ p, tallied done p (status (votes_mempool st) p)) →
  (∀ q v, votes_of_each_identity (votes_mempool st) !! q = Some v → v ∈ done) →
  no_resigned (done ++ eligible (signing_committee st) index votes) →
  ∃ mp', reinsert_votes calculate_sha256 st index votes = Ret (with_mempool st mp') tt
    ∧ mp_ok (signing_committee st) mp' ∧ all_exact mp'
    ∧ received_votes mp' = received_votes (votes_mempool st)
    ∧ ∀ p, tallied (done ++ eligible (signing_committee st) index votes) p (status mp' p).
Proof.
  induction votes as [|sbv votes IH]; intros st dn Hok Hex Ht Horig Hnr; simpl.
  { exists (votes_mempool st). rewrite app_nil_r. split_and!; try done. by destruct st. }
  unfold eligible in *. rewrite filter_cons in *.
  destruct (decide (is_valid calculate_sha256 st sbv index = Some true)) as [Hv|Hv]; rewrite is_valid_true in Hv;
    [rewrite !(decide_True (P:=_ ∧ _)) in * by done|rewrite !(decide_False (P:=_ ∧ _)) in * by done; by apply IH].
  destruct Hv as [Hi Hc].
  destruct (insert_vote_outcome st sbv Hok Hc (λ v Hv _, Hex _ v Hv)) as (mp1 & -> & [Hok1 Hst1 Hrec1 Hex1 Horig1]). simpl.
  rewrite cons_middle, app_assoc in Hnr |- *.
  assert (not_resigned (votes_mempool st) sbv) as Hres.
  { intros v Hv Hh. apply Hnr; [|set_solver| |done].
    - apply Horig in Hv. set_solver.
    - by apply (mp_members _ _ Hok) in Hv as (? & _). }
  destruct (IH (with_mempool st mp1) (dn ++ [sbv])) as (mp' & -> & ? & ? & Hrec & Ht'); simpl; try done.
  - intros q. apply Hex1; [apply Hex|by right].
  - intros p. rewrite Hst1. by apply tallied_snoc.
  - intros q v [->|Hv%Horig]%Horig1; set_solver.
  - exists mp'. split_and!; try done. simpl in Hrec. congruence.
Qed.

Section build.
Context (to_uncompressed : list Z → option (list Z)) (parse_address : string → option PublicKeyHash).
Context (versioned_hash : Z → BlockHeader → Hash).
Context (votes_drain : gset SuperBlockVote → list SuperBlockVote).
Hypothesis votes_drain_perm : ∀ s, votes_drain s ≡ₚ elements s.

Lemma hash_merkle_tree_root_total l : is_Some (hash_merkle_tree_root calculate_sha256 l).
Proof.
  unfold hash_merkle_tree_root. rewrite (proj1 (merkle_tree_root_total _ _ l)). by eexists.
Qed.

Lemma mining_build_total headers leaves index prev len pv :
  is_Some (mining_build_superblock calculate_sha256 versioned_hash headers leaves index prev len pv).
Proof.
  unfold mining_build_superblock.
  destruct (hash_merkle_tree_root_total leaves) as [r ->].
  destruct (last headers) as [hd|]; simpl; [|by eexists].
  destruct (hash_merkle_tree_root_total ((λ b, dr_hash_merkle_root (merkle_roots b)) <$> headers)) as [r1 ->].
  destruct (hash_merkle_tree_root_total ((λ b, tally_hash_merkle_root (merkle_roots b)) <$> headers)) as [r2 ->].
  by eexists.
Qed.

(** When the superblock moves on, the mempool is rebuilt from the votes
    received early: the new committee is in place, only votes of its members
    for the new index count, each member's status is the one given by its
    votes whatever the order in which the table is drained, and the call
    does not panic unless a member signed the same vote twice. *)
Theorem build_superblock_tallies st headers ars size_ index prev alt_keys sync epoch env pv committee leaves :
  hash_key_leaves calculate_sha256 to_uncompressed (get_rep_ordered_bn256_list ars alt_keys) = Some leaves →
  select_committee calculate_sha256 parse_address (ars_current_identities st)
    (match sync with Some sb => signing_committee_length sb | None => size_ end) index
    (hash_prev_block (current_superblock_beacon st)) epoch env = Some committee →
  let early := eligible committee index (elements (received_votes (votes_mempool st))) in
  no_resigned early →
  ∃ st' sb, build_superblock calculate_sha256 to_uncompressed parse_address versioned_hash votes_drain
              st headers ars size_ index prev alt_keys sync epoch env pv = Ret st' sb
    ∧ signing_committee st' = committee ∧ mp_ok committee (votes_mempool st')
    ∧ current_superblock_beacon st' = MkBeacon index (superblock_hash_of calculate_sha256 sb)
    ∧ (∀ p, tallied early p (status (votes_mempool st') p))
    ∧ match sync with Some sb' => sb = sb' | None => sb_index sb = index end.
Proof.
  intros Hleaves Hcomm early Hnr. unfold build_superblock. rewrite Hleaves, Hcomm.
  assert (∃ sb, match sync with Some sb => Some sb | None =>
            mining_build_superblock calculate_sha256 versioned_hash headers leaves index prev
              (Z.of_nat (size committee) mod U32) pv end = Some sb
            ∧ match sync with Some sb' => sb = sb' | None => sb_index sb = index end) as (sb & -> & Hsb).
  { destruct sync as [sb|]; [by eexists|].
    destruct (mining_build_total headers leaves index prev (Z.of_nat (size committee) mod U32) pv) as [sb Hsb].
    exists sb. split; [done|]. revert Hsb. unfold mining_build_superblock.
    destruct (last headers) as [hd|]; intros Hsb; repeat (apply bind_Some in Hsb as (? & _ & Hsb)); by simplify_eq. }
  unfold clear_and_remove_votes.
  set (st1 := MkState _ _ _ _ _ _). set (old := votes_drain _).
  assert (∀ v, v ∈ eligible committee index old ↔ v ∈ early) as Hperm.
  { intros v. unfold early, eligible. rewrite !list_elem_of_filter. unfold old. by rewrite (votes_drain_perm (received_votes (votes_mempool st))). }
  destruct (reinsert_votes_outcome index old st1 []) as (mp' & -> & Hok & _ & _ & Ht).
  - apply mp_ok_default.
  - intros p v Hv. simpl in Hv. by rewrite lookup_empty in Hv.
  - intros p. unfold status. simpl. rewrite decide_False by set_solver. rewrite lookup_empty.
    by intros v ?%elem_of_nil.
  - intros q v Hv. simpl in Hv. by rewrite lookup_empty in Hv.
  - simpl. intros v w Hv Hw. apply Hnr; by apply Hperm.
  - simpl. eexists _, sb. split; [done|]. simpl. split_and!; try done.
    intros p. specialize (Ht p). simpl in Ht. destruct (status mp' p) as [|h|]; simpl in *.
    + intros v Hv. apply Ht. by apply Hperm.
    + destruct Ht as [(v & Hv & ?) Hall]. split; [exists v; split; [by apply Hperm|done]|].
      intros w Hw. apply Hall. by apply Hperm.
    + destruct Ht as (v & w & Hv & Hw & ?). exists v, w. split_and!; [by apply Hperm..|tauto|tauto|tauto].
Qed.
End build.
End correct.

(** ** The signing committee *)

(** Elements picked at positions [first + g i] modulo the length, where [g i]
    stays in the [i]-th of [size] consecutive blocks. *)
Section picks.
Context {T : Type} (v : list T) (first size each : nat) (g : nat → nat).
Hypothesis first_ok : (first < length v)%nat.
Hypothesis blocks_fit : (size * each ≤ length v)%nat.
Hypothesis g_block : ∀ i, (i < size)%nat → (i * each ≤ g i < (i + 1) * each)%nat.

Definition pick (i : nat) : option T := v !! ((first + g i) mod length v)%nat.

Lemma g_small i : (i < size)%nat → (g i < length v)%nat.
Proof. intros Hi. pose proof (g_block i Hi). nia. Qed.

Lemma pick_inj i j x : NoDup v → (i < size)%nat → (j < size)%nat → pick i = Some x → pick j = Some x → i = j.
Proof.
  intros Hnd Hi Hj Hpi Hpj. pose proof (NoDup_lookup _ _ _ _ Hnd Hpi Hpj) as Heq.
  pose proof (g_small i Hi). pose proof (g_small j Hj).
  assert (g i = g j) as Hg.
  { assert (∀ a, (a < length v)%nat → (first + a) mod length v
              = (if decide (first + a < length v)%nat then first + a else first + a - length v))%nat as Hmod.
    { intros a Ha. case_decide; [by apply Nat.mod_small|].
      rewrite <-(Nat.mod_small (first + a - length v) (length v)) by lia.
      replace (first + a)%nat with (first + a - length v + 1 * length v)%nat at 1 by lia. by rewrite Nat.Div0.mod_add. }
    rewrite !Hmod in Heq by done. repeat case_decide; lia. }
  pose proof (g_block i Hi). pose proof (g_block j Hj).
  destruct (Nat.lt_trichotomy i j) as [?|[?|?]]; [|done|]; nia.
Qed.

Lemma picks_total ks : (∀ k, k ∈ ks → (k < size)%nat) → ∃ l, mapM pick ks = Some l.
Proof.
  intros Hks. induction ks as [|k ks IH]; [by exists []|].
  destruct IH as [l Hl]; [intros k' Hk'; apply Hks; set_solver|].
  destruct (lookup_lt_is_Some_2 v ((first + g k) mod length v)) as [x Hx]; [apply Nat.mod_upper_bound; lia|].
  exists (x :: l). assert (pick k = Some x) as Hk by exact Hx. cbn [mapM]. rewrite Hk. simpl. by rewrite Hl.
Qed.

Lemma picks_spec : NoDup v → ∃ l, mapM pick (seq 0 size) = Some l ∧ NoDup l ∧ length l = size ∧ l ⊆ v.
Proof.
  intros Hnd. destruct (picks_total (seq 0 size)) as [l Hl]; [intros k Hk%elem_of_seq; lia|].
  exists l. split; [done|]. apply mapM_Some in Hl. split_and!.
  - apply NoDup_alt. intros i j x Hi Hj.
    eapply (Forall2_lookup_r _ _ _ _ _ Hl) in Hi as (i' & Hi' & Hpi).
    eapply (Forall2_lookup_r _ _ _ _ _ Hl) in Hj as (j' & Hj' & Hpj).
    apply lookup_seq in Hi' as [-> ?]. apply lookup_seq in Hj' as [-> ?].
    by eapply (pick_inj i j x).
  - apply Forall2_length in Hl. by rewrite <-Hl, length_seq.
  - intros x Hx. apply list_elem_of_lookup_1 in Hx as [i Hi].
    eapply (Forall2_lookup_r _ _ _ _ _ Hl) in Hi as (i' & _ & Hp). by eapply list_elem_of_lookup_2.
Qed.
End picks.

Lemma partition_loop_picks {T} (v : list T) first each n : ∀ k,
  (0 < length v)%nat →
  partition_loop v each n ((first + k * each) mod length v)%nat
  = mapM (pick v first (λ i, i * each)%nat) (seq k n).
Proof.
  induction n as [|n IH]; intros k Hv; [done|]. cbn [partition_loop seq mapM].
  assert ((((first + k * each) mod length v + each) mod length v) = (first + S k * each) mod length v)%nat as ->.
  { rewrite Nat.Div0.add_mod_idemp_l. f_equal. lia. }
  rewrite IH by done. done.
Qed.

Lemma magic_partition_spec {T} (v : list T) first size :
  NoDup v → (first < length v)%nat → (0 < size ≤ length v)%nat →
  ∃ l, magic_partition v first size = Some l ∧ NoDup l ∧ length l = size ∧ l ⊆ v.
Proof.
  intros Hnd Hf Hs. unfold magic_partition. rewrite !decide_False by lia.
  set (each := (length v / size)%nat).
  assert (size * each ≤ length v)%nat as Hfit by (apply Nat.Div0.mul_div_le).
  assert (0 < each)%nat as Heach by (apply Nat.div_str_pos; lia).
  destruct (picks_spec v first size each (λ i, i * each)%nat) as (l & Hl & Hrest); [done|done|intros; lia|done|].
  exists l. split; [|done]. rewrite <-Hl. destruct size as [|n]; [lia|].
  replace (S n - 1)%nat with n by lia. cbn [seq mapM].
  replace (first + each)%nat with (first + 1 * each)%nat by lia.
  rewrite (partition_loop_picks v first each n 1) by lia.
  assert (pick v first (λ i, i * each)%nat 0 = v !! first) as ->; [|done].
  unfold pick. by rewrite Nat.mul_0_l, Nat.add_0_r, Nat.mod_small by done.
Qed.

Lemma magic_partition_2_spec {T} (v : list T) first size rand :
  NoDup v → (first < length v)%nat → (0 < size ≤ length v)%nat → rand ≠ [] →
  ∃ l, magic_partition_2 v first size rand = Some l ∧ NoDup l ∧ length l = size ∧ l ⊆ v.
Proof.
  intros Hnd Hf Hs Hr. unfold magic_partition_2. rewrite !decide_False by lia.
  set (each := (length v / size)%nat).
  assert (size * each ≤ length v)%nat as Hfit by (apply Nat.Div0.mul_div_le).
  assert (0 < each)%nat as Heach by (apply Nat.div_str_pos; lia).
  set (off i := (Z.to_nat (default 0%Z (rand !! (i mod length rand)%nat)) mod each)%nat).
  assert (∀ i, off i < each)%nat as Hoff by (intros i; apply Nat.mod_upper_bound; lia).
  destruct (picks_spec v first size each (λ i, i * each + off i)%nat) as (l & Hl & Hrest); [done|done| |done|].
  { intros i Hi. specialize (Hoff i). lia. }
  exists l. split; [|done]. rewrite <-Hl. apply mapM_ext. intros i. unfold pick.
  assert (length rand ≠ 0)%nat by (by destruct rand). rewrite decide_False by done.
  destruct (lookup_lt_is_Some_2 rand (i mod length rand)) as [r Hrand]; [by apply Nat.mod_upper_bound|].
  subst off. simpl. rewrite Hrand. simpl. by rewrite Nat.add_assoc.
Qed.

Lemma bind_exists {A B} (o : option A) (a : A) (k : A → option B) (P : B → Prop) :
  o = Some a → (∃ b, k a = Some b ∧ P b) → ∃ b, o ≫= k = Some b ∧ P b.
Proof. by intros ->. Qed.

Section committee.
Context (calculate_sha256 : list Z → Hash).
(** SHA-256 returns 32 bytes. *)
Hypothesis sha256_bytes : ∀ l, bytes_of_len 32 (calculate_sha256 l).

(** The signing committee has the requested number of members, all of
    them from the reputation set (all of the set when it is smaller), and its
    computation does not panic, before and after the second hard fork. *)
Theorem signing_committee_spec l n index tip epoch env :
  NoDup l → bytes_of_len 32 tip → 0 < n →
  ∃ c, calculate_superblock_signing_committee calculate_sha256 (ars_identities_new l) n index tip epoch env = Some c
    ∧ c ⊆ list_to_set l ∧ Z.of_nat (size c) = Z.min n (Z.of_nat (length l)).
Proof.
  intros Hnd Htip Hn. unfold calculate_superblock_signing_committee, ars_len.
  cbn [identities ordered_identities ars_identities_new].
  rewrite size_list_to_set by done. case_decide as Hlt.
  { eexists. split; [done|]. split; [done|]. rewrite size_list_to_set by done. lia. }
  assert (∀ first sub, (first < length l)%nat →
            sub = magic_partition l first (Z.to_nat n) ∨ (∃ rand, rand ≠ [] ∧ sub = magic_partition_2 l first (Z.to_nat n) rand) →
            ∃ c : gset PublicKeyHash, (subset ← sub; Some (list_to_set subset)) = Some c ∧ c ⊆ list_to_set l
              ∧ Z.of_nat (size c) = Z.min n (Z.of_nat (length l))) as Hpart.
  { intros first sub Hf Hsub.
    assert (∃ s, sub = Some s ∧ NoDup s ∧ length s = Z.to_nat n ∧ s ⊆ l) as (s & -> & Hs & Hlen & Hsl).
    { destruct Hsub as [->|(rand & Hr & ->)]; [apply magic_partition_spec|apply magic_partition_2_spec]; done || lia. }
    eexists. split; [done|]. split; [set_solver|]. rewrite size_list_to_set by done. lia. }
  destruct (after_second_hard_fork epoch env).
  - set (hashed := calculate_sha256 (tip ++ to_be_bytes 4 index)).
    unfold div_mod. rewrite decide_False by lia. cbn [mbind option_bind snd].
    apply (Hpart (Z.to_nat (from_big_endian hashed mod Z.of_nat (length l)))).
    + pose proof (Z.mod_pos_bound (from_big_endian hashed) (Z.of_nat (length l)) ltac:(lia)). lia.
    + right. exists hashed. split; [|done]. intros Hnil. destruct (sha256_bytes (tip ++ to_be_bytes 4 index)) as [Hl _].
      fold hashed in Hl. by rewrite Hnil in Hl.
  - destruct Htip as [Htip _]. assert (is_Some (tip !! O)) as [b1 Hb1] by (apply lookup_lt_is_Some_2; lia).
    eapply bind_exists; [exact Hb1|].
    set (hashed := calculate_sha256 (to_be_bytes 4 index)).
    destruct (sha256_bytes (to_be_bytes 4 index)) as [Hsha _]. fold hashed in Hsha.
    assert (is_Some (hashed !! O)) as [b2 Hb2] by (apply lookup_lt_is_Some_2; lia).
    eapply bind_exists; [exact Hb2|].
    rewrite decide_False by lia.
    apply (Hpart (Z.to_nat ((b1 + b2) mod Z.of_nat (length l)))); [|by left].
    pose proof (Z.mod_pos_bound (b1 + b2) (Z.of_nat (length l)) ltac:(lia)). lia.
Qed.
End committee.

(** ** Serialization *)

Definition superblock_fits (sb : SuperBlock) : Prop :=
  fits U32 (signing_committee_length sb) ∧ fits U32 (sb_index sb)
  ∧ length (ars_root sb) = 32%nat ∧ length (data_request_root sb) = 32%nat ∧ length (last_block sb) = 32%nat
  ∧ length (last_block_in_previous_superblock sb) = 32%nat ∧ length (tally_root sb) = 32%nat.

(** The bytes of a superblock determine it, so that two different
    superblocks with one hash are a collision of SHA-256. *)
Theorem serialize_as_bytes_inj sb1 sb2 :
  superblock_fits sb1 → superblock_fits sb2 → serialize_as_bytes sb1 = serialize_as_bytes sb2 → sb1 = sb2.
Proof.
  intros (Hc1 & Hi1 & Ha1 & Hd1 & Hl1 & Hp1 & Ht1) (Hc2 & Hi2 & Ha2 & Hd2 & Hl2 & Hp2 & Ht2) Heq.
  unfold serialize_as_bytes in Heq.
  apply app_inj_1 in Heq as [E1 Heq]; [|by rewrite !length_to_be_bytes].
  apply app_inj_1 in Heq as [E2 Heq]; [|congruence]. apply app_inj_1 in Heq as [E3 Heq]; [|congruence].
  apply app_inj_1 in Heq as [E4 Heq]; [|by rewrite !length_to_be_bytes].
  apply app_inj_1 in Heq as [E5 Heq]; [|congruence]. apply app_inj_1 in Heq as [E6 E7]; [|congruence].
  apply to_be_bytes_inj in E1; [|by apply u32_bytes..]. apply to_be_bytes_inj in E4; [|by apply u32_bytes..].
  destruct sb1, sb2. simpl in *. congruence.
Qed.

(** ** Concrete states *)

(** A stand-in for SHA-256 with 32 bytes of output. *)
Definition toy_sha256 (l : list Z) : Hash := take 32 (((λ b, b mod 256) <$> l) ++ replicate 32 0).
Lemma toy_sha256_bytes l : bytes_of_len 32 (toy_sha256 l).
Proof.
  unfold toy_sha256. split.
  - rewrite length_take, length_app, length_replicate. lia.
  - apply Forall_take, Forall_app. split.
    + apply Forall_fmap, Forall_forall. intros b _. apply Z.mod_pos_bound. lia.
    + apply Forall_replicate. done.
Qed.

(** Short keys and hashes keep the tables small. *)
Definition toy_key (k : Z) : PublicKey := MkPublicKey k [].
Definition toy_pkh (k : Z) : PublicKeyHash := pkh toy_sha256 (toy_key k).
Definition toy_hash (h : Z) : Hash := [h].
(** A vote for superblock 5 by identity [k] for [h], with a given signature. *)
Definition toy_vote (k h sig : Z) : SuperBlockVote :=
  MkVote [] (MkSignature [sig] (toy_key k)) (toy_hash h) 5.
Definition toy_state (committee : list Z) : SuperBlockState :=
  superblock_state_new (toy_hash 1) (toy_pkh <$> committee).
Definition toy_add (st : SuperBlockState) (v : SuperBlockVote) : exec SuperBlockState Empty_set AddSuperBlockVote :=
  add_vote toy_sha256 st v 5.
Definition toy_voted (committee : list Z) (votes : list SuperBlockVote) : SuperBlockState :=
  foldl (λ st v, match toy_add st v with Ret st' _ => st' | _ => st end) (toy_state committee) votes.

(** The answers to a sequence of votes; [None] is a panic. *)
Fixpoint toy_reports (st : SuperBlockState) (votes : list SuperBlockVote) : list (option AddSuperBlockVote) :=
  match votes with
  | [] => []
  | v :: votes => match toy_add st v with
                  | Ret st' r => Some r :: toy_reports st' votes
                  | _ => [None]
                  end
  end.

(** A committee member that signs the same vote twice and then votes for
    another superblock makes [add_vote] panic: the second copy replaces the vote
    recorded for the identity, but not the one counted for the superblock, and
    removing the recorded vote from the counted ones fails. *)
Theorem resigned_vote_panics :
  toy_reports (toy_state [10; 11; 12]) [toy_vote 10 1 7; toy_vote 10 1 8; toy_vote 10 2 9]
  = [Some ValidWithSameHash; Some ValidWithSameHash; None].
Proof. by vm_compute. Qed.

(** With a committee of four, two superblocks with two votes each both have
    the required two votes, although neither has more than two thirds of the
    members: the answer depends on the order in which the table of votes is
    visited. *)
Theorem four_member_committee_ties :
  let st := toy_voted [10; 11; 12; 13] [toy_vote 10 1 0; toy_vote 11 1 0; toy_vote 12 2 0; toy_vote 13 2 0] in
  has_consensus map_to_list st ≠ has_consensus (λ m, reverse (map_to_list m)) st
  ∧ two_thirds_consensus 2 4 = true.
Proof. split; [by vm_compute|done]. Qed.

(** ** Witnesses *)

Lemma no_resigned_check votes :
  bool_decide (Forall (λ v, Forall (λ w, voter toy_sha256 v = voter toy_sha256 w →
    superblock_hash v = superblock_hash w → v = w) votes) votes) = true → no_resigned toy_sha256 votes.
Proof.
  intros Hb%bool_decide_eq_true v w Hv Hw. rewrite Forall_forall in Hb. specialize (Hb v Hv).
  rewrite Forall_forall in Hb. by apply Hb.
Qed.

(** The mempool after counting some votes. *)
Definition toy_mempool (committee : list Z) (votes : list SuperBlockVote) : SuperBlockVotesMempool :=
  match reinsert_votes toy_sha256 (toy_state committee) 5 votes with
  | Ret st _ => votes_mempool st
  | _ => mempool_default
  end.

Lemma toy_mempool_ok committee votes :
  no_resigned toy_sha256 (eligible toy_sha256 (list_to_set (toy_pkh <$> committee)) 5 votes) →
  mp_ok toy_sha256 (list_to_set (toy_pkh <$> committee)) (toy_mempool committee votes)
  ∧ all_exact (toy_mempool committee votes).
Proof.
  intros Hnr. unfold toy_mempool.
  destruct (reinsert_votes_outcome toy_sha256 5 votes (toy_state committee) []) as (mp' & -> & Hok & Hex & _); try done.
  - apply mp_ok_default.
  - intros p. unfold status. simpl. rewrite decide_False by set_solver. rewrite lookup_empty. by intros v ?%elem_of_nil.
Qed.

Definition toy_votes : list SuperBlockVote := [toy_vote 10 2 0; toy_vote 11 2 0].
Definition toy_majority : SuperBlockState := with_mempool (toy_state [10; 11; 12]) (toy_mempool [10; 11; 12] toy_votes).
Lemma toy_majority_ok :
  mp_ok toy_sha256 (signing_committee toy_majority) (votes_mempool toy_majority) ∧ all_exact (votes_mempool toy_majority).
Proof. apply toy_mempool_ok, no_resigned_check. by vm_compute. Qed.


Lemma has_consensus_decisive_witness :
  has_consensus (λ m, reverse (map_to_list m)) toy_majority = Different (toy_hash 2).
Proof.
  rewrite (has_consensus_decisive toy_sha256 (λ m, reverse (map_to_list m)) (λ m, reverse_Permutation _)
             toy_majority (toy_hash 2) (proj1 toy_majority_ok)).
  - by vm_compute.
  - left. by vm_compute.
  - by vm_compute.
  - by vm_compute.
Defined.

Lemma add_vote_refines_witness :
  ∃ mp', add_vote toy_sha256 toy_majority (toy_vote 10 3 1) 5 = Ret (with_mempool toy_majority mp') DoubleVote
    ∧ status mp' (toy_pkh 10) = Penalized ∧ status mp' (toy_pkh 11) = Voted (toy_hash 2).
Proof.
  destruct (add_vote_refines toy_sha256 toy_majority (toy_vote 10 3 1) 5 (proj1 toy_majority_ok))
    as (_ & Hno & Hret).
  destruct (Hret (Hno (proj2 toy_majority_ok))) as (mp' & Ha & _ & Hst & _).
  exists mp'. rewrite !Hst, Ha. split_and!; [f_equal; by vm_compute|by vm_compute|by vm_compute].
Defined.

Lemma signing_committee_spec_witness :
  ∃ c, calculate_superblock_signing_committee toy_sha256 (ars_identities_new (toy_pkh <$> [1; 2; 3; 4; 5])) 2 9
         (replicate 32 7) 400000 Mainnet = Some c ∧ Z.of_nat (size c) = 2.
Proof.
  destruct (signing_committee_spec toy_sha256 toy_sha256_bytes (toy_pkh <$> [1; 2; 3; 4; 5]) 2 9 (replicate 32 7)
              400000 Mainnet) as (c & Hc & _ & Hs).
  - apply (bool_decide_unpack _). by vm_compute.
  - split; [done|]. apply Forall_replicate. done.
  - lia.
  - exists c. split; [exact Hc|]. rewrite Hs. reflexivity.
Defined.

Lemma build_superblock_tallies_witness :
  ∃ st' sb, build_superblock toy_sha256 (λ k, Some k) (λ _, None) (λ _ _, toy_hash 4) elements
              (toy_voted [10; 11; 12] [MkVote [] (MkSignature [1] (toy_key 11)) (toy_hash 3) 6])
              [] (ars_identities_new []) 100 6 (toy_hash 0) ∅ None 400000 Development 2 = Ret st' sb
    ∧ tallied toy_sha256 [MkVote [] (MkSignature [1] (toy_key 11)) (toy_hash 3) 6] (toy_pkh 11)
        (status (votes_mempool st') (toy_pkh 11)).
Proof.
  destruct (build_superblock_tallies toy_sha256 (λ k, Some k) (λ _, None) (λ _ _, toy_hash 4) elements
              (λ s, reflexivity _)
              (toy_voted [10; 11; 12] [MkVote [] (MkSignature [1] (toy_key 11)) (toy_hash 3) 6])
              [] (ars_identities_new []) 100 6 (toy_hash 0) ∅ None 400000 Development 2
              (list_to_set (toy_pkh <$> [10; 11; 12])) []) as (st' & sb & Hb & _ & _ & _ & Ht & _).
  - done.
  - by vm_compute.
  - apply no_resigned_check. by vm_compute.
  - exists st', sb. split; [done|]. apply Ht.
Defined.

Lemma serialize_as_bytes_inj_witness :
  MkSuperBlock 3 (replicate 32 1) (replicate 32 2) 5 (replicate 32 3) (replicate 32 4) (replicate 32 5)
  = MkSuperBlock (1 + 2) (replicate 32 1) (replicate 32 2) 5 (replicate 32 3) (replicate 32 4) (replicate 32 5).
Proof.
  apply serialize_as_bytes_inj; [repeat split; vm_compute; congruence..|reflexivity].
Defined.
