(* ===== verification/Epoch.v ===== *)
(** * Epochs and timestamps

    Models [EpochConstants] of data_structures/src/chain/mod.rs: the conversion
    between epochs ([u32]) and UNIX timestamps ([i64], wrapping in the release
    profile), across the change of the checkpoint period at the activation of
    version 2.0. *)

From stdpp Require Import base tactics numbers.
From Stdlib Require Import ZArith Lia.
From S2P Require Import Prelude.
Local Open Scope Z_scope.
Local Open Scope rust_scope.

(** ** Machine operations *)

Definition I64_MAX : Z := 2 ^ 63 - 1.
(** Wrapping [i64] arithmetic and [checked_add]. *)
Definition wrap_i64 (x : Z) : Z := (x + 2 ^ 63) mod 2 ^ 64 - 2 ^ 63.
Definition checked_add_i64 (a b : Z) : option Z :=
  if decide (- 2 ^ 63 ≤ a + b ≤ I64_MAX) then Some (a + b) else None.
(** [Epoch::try_from] an [i64]. *)
Definition epoch_try_from (x : Z) : option Z := if decide (0 ≤ x < U32) then Some x else None.

Inductive EpochCalculationError := CheckpointZeroInTheFuture (t : Z) | EpochOverflow.

Record EpochConstants := MkEpochConstants {
  checkpoint_zero_timestamp : Z;
  checkpoints_period : Z;
  checkpoint_zero_timestamp_wit2 : Z;
  checkpoints_period_wit2 : Z;
}.

Definition epoch_at (c : EpochConstants) (timestamp : Z) : result EpochCalculationError Z :=
  let future := CheckpointZeroInTheFuture (checkpoint_zero_timestamp c) in
  if decide (checkpoint_zero_timestamp_wit2 c ≤ timestamp) then
    let? pre := ok_or (epoch_try_from
                  (wrap_i64 (checkpoint_zero_timestamp_wit2 c - checkpoint_zero_timestamp c))) future in
    if decide (checkpoints_period c = 0) then Panic else
    let? post := ok_or (epoch_try_from (wrap_i64 (timestamp - checkpoint_zero_timestamp_wit2 c))) future in
    if decide (checkpoints_period_wit2 c = 0) then Panic else
    Ok (wadd U32 (pre / checkpoints_period c) (post / checkpoints_period_wit2 c))
  else
    let? x := ok_or (epoch_try_from (wrap_i64 (timestamp - checkpoint_zero_timestamp c))) future in
    if decide (checkpoints_period c = 0) then Panic else Ok (x / checkpoints_period c).

Definition epoch_timestamp (c : EpochConstants) (epoch : Z) : result EpochCalculationError (Z * bool) :=
  let? timestamp := ok_or (x ← checked_mul U32 (checkpoints_period c) epoch;
                           checked_add_i64 x (checkpoint_zero_timestamp c)) EpochOverflow in
  if decide (checkpoint_zero_timestamp_wit2 c ≤ timestamp) then
    if decide (checkpoints_period c = 0) then Panic else
    let? pre := ok_or (epoch_try_from
                  (Z.quot (wrap_i64 (checkpoint_zero_timestamp_wit2 c - checkpoint_zero_timestamp c))
                     (checkpoints_period c))) EpochOverflow in
    Ok (wrap_i64 (checkpoint_zero_timestamp_wit2 c
                  + wmul U32 (wsub U32 epoch pre) (checkpoints_period_wit2 c)), true)
  else Ok (timestamp, false).

Definition block_mining_timestamp (c : EpochConstants) (epoch : Z) : result EpochCalculationError Z :=
  let? ts := epoch_timestamp c epoch in
  let period := if ts.2 then checkpoints_period_wit2 c else checkpoints_period c in
  let seconds_before_next_epoch := period / 2 in
  ok_or (checked_add_i64 ts.1 (period - seconds_before_next_epoch)) EpochOverflow.

Definition get_epoch_period (c : EpochConstants) (epoch : Z) : result EpochCalculationError Z :=
  let? ts := epoch_timestamp c epoch in
  Ok (if ts.2 then checkpoints_period_wit2 c else checkpoints_period c).

Definition set_values_for_wit2 (c : EpochConstants) (period epoch : Z) :
    exec EpochConstants EpochCalculationError unit :=
  let c1 := MkEpochConstants (checkpoint_zero_timestamp c) (checkpoints_period c)
              (checkpoint_zero_timestamp_wit2 c) period in
  match epoch_timestamp c1 epoch with
  | Ok (timestamp, _) =>
      Ret (MkEpochConstants (checkpoint_zero_timestamp c1) (checkpoints_period c1) timestamp period) tt
  | Err e => Fail c1 e
  | Panic => Crash
  end.

(** ** Properties *)

(** Constants of a chain whose version 2.0 is not scheduled yet. *)
Record before_activation (c : EpochConstants) : Prop := {
  ba_period : 0 < checkpoints_period c < U16;
  ba_zero : 0 ≤ checkpoint_zero_timestamp c < 2 ^ 62;
  ba_wit2 : checkpoint_zero_timestamp_wit2 c = I64_MAX;
}.

(** Constants of a chain with version 2.0 at epoch [E]. *)
Record activated (c : EpochConstants) (E : Z) : Prop := {
  ac_period : 0 < checkpoints_period c < U16;
  ac_period_wit2 : 0 < checkpoints_period_wit2 c < U16;
  ac_zero : 0 ≤ checkpoint_zero_timestamp c < 2 ^ 62;
  ac_epoch : 0 ≤ E ∧ checkpoints_period c * E < U32;
  ac_wit2 : checkpoint_zero_timestamp_wit2 c = checkpoint_zero_timestamp c + checkpoints_period c * E;
}.

Lemma wrap_i64_small x : - 2 ^ 63 ≤ x < 2 ^ 63 → wrap_i64 x = x.
Proof. intros Hx. unfold wrap_i64. rewrite Z.mod_small by lia. lia. Qed.

Lemma epoch_try_from_small x : 0 ≤ x < U32 → epoch_try_from x = Some x.
Proof. intros. unfold epoch_try_from. by rewrite decide_True. Qed.

Lemma set_values_activates c period E :
  before_activation c → 0 < period < U16 → 0 ≤ E → checkpoints_period c * E < U32 →
  ∃ c', set_values_for_wit2 c period E = Ret c' tt ∧ activated c' E.
Proof.
  intros [Hp Hz Hw] Hper HE Hmax. unfold set_values_for_wit2, epoch_timestamp, checked_mul, checked_add_i64. simpl.
  assert (0 ≤ checkpoints_period c * E) by nia. unfold I64_MAX in *. unfold_moduli.
  rewrite decide_True by done. simpl. rewrite decide_True by lia. simpl. rewrite decide_False by lia.
  eexists. split; [done|]. split; simpl; unfold_moduli; lia.
Qed.

Lemma activated_timestamp c E e :
  activated c E → 0 ≤ e → checkpoints_period c * e < U32 → (E ≤ e → (e - E) * checkpoints_period_wit2 c < U32) →
  epoch_timestamp c e
  = Ok (if decide (E ≤ e) then (checkpoint_zero_timestamp_wit2 c + (e - E) * checkpoints_period_wit2 c, true)
        else (checkpoint_zero_timestamp c + checkpoints_period c * e, false)).
Proof.
  intros [Hp Hp2 Hz [HE HEm] Hw] He Hm Hm2. unfold epoch_timestamp, checked_mul, checked_add_i64, I64_MAX.
  assert (0 ≤ checkpoints_period c * e) by nia. assert (0 ≤ checkpoints_period c * E) by nia. unfold_moduli.
  rewrite decide_True by done. simpl. rewrite decide_True by lia. simpl. rewrite Hw.
  destruct (decide (E ≤ e)) as [HEe|HEe].
  - rewrite decide_True by nia. rewrite decide_False by lia.
    replace (checkpoint_zero_timestamp c + checkpoints_period c * E - checkpoint_zero_timestamp c) with (E * checkpoints_period c) by lia.
    rewrite wrap_i64_small by lia. rewrite Z.quot_mul by lia.
    rewrite epoch_try_from_small by (unfold_moduli; nia). simpl.
    specialize (Hm2 HEe). rewrite wsub_small by (unfold_moduli; nia). rewrite wmul_small by (unfold_moduli; nia).
    rewrite wrap_i64_small by nia. do 2 f_equal.
  - rewrite decide_False by nia. do 2 f_equal. lia.
Qed.

Lemma activated_epoch_at c E e t :
  activated c E → 0 ≤ e → checkpoints_period c * (e + 1) ≤ U32 → (E ≤ e → (e - E + 1) * checkpoints_period_wit2 c ≤ U32) →
  (if decide (E ≤ e)
   then (e - E) * checkpoints_period_wit2 c ≤ t - checkpoint_zero_timestamp_wit2 c < (e - E + 1) * checkpoints_period_wit2 c
   else checkpoints_period c * e ≤ t - checkpoint_zero_timestamp c < checkpoints_period c * (e + 1)) →
  epoch_at c t = Ok e.
Proof.
  intros [Hp Hp2 Hz [HE HEm] Hw] He Hm Hm2. unfold epoch_at. unfold_moduli.
  assert (0 ≤ checkpoints_period c * E) by nia.
  destruct (decide (E ≤ e)) as [HEe|HEe]; intros Ht.
  - specialize (Hm2 HEe). rewrite decide_True by nia. rewrite Hw in *.
    replace (checkpoint_zero_timestamp c + checkpoints_period c * E - checkpoint_zero_timestamp c) with (E * checkpoints_period c) by lia.
    rewrite (wrap_i64_small (E * _)) by lia. rewrite epoch_try_from_small by (unfold_moduli; lia). simpl.
    rewrite !decide_False by lia.
    rewrite wrap_i64_small by nia. rewrite epoch_try_from_small by (unfold_moduli; nia). simpl.
    rewrite Z.div_mul by lia.
    assert ((t - (checkpoint_zero_timestamp c + checkpoints_period c * E)) / checkpoints_period_wit2 c = e - E) as ->.
    { symmetry. apply Z.div_unique with (r := t - (checkpoint_zero_timestamp c + checkpoints_period c * E) - (e - E) * checkpoints_period_wit2 c); nia. }
    rewrite wadd_small by (unfold_moduli; nia). rewrite decide_False by lia. f_equal. lia.
  - rewrite Hw. rewrite decide_False by nia.
    rewrite wrap_i64_small by nia. rewrite epoch_try_from_small by (unfold_moduli; nia). simpl.
    rewrite decide_False by lia. f_equal. symmetry.
    apply Z.div_unique with (r := t - checkpoint_zero_timestamp c - checkpoints_period c * e); nia.
Qed.

(** The intervals are the only timestamps of an epoch: the sum of the epochs
    before and after the activation does not wrap when the periods are at least
    two seconds, and a timestamp before the start of the chain is refused even
    where the subtraction of [i64] wraps. *)
Lemma activated_epoch_at_inv c E e t :
  activated c E → 1 < checkpoints_period c → 1 < checkpoints_period_wit2 c → - 2 ^ 63 ≤ t < 2 ^ 63 →
  epoch_at c t = Ok e →
  if decide (E ≤ e)
  then (e - E) * checkpoints_period_wit2 c ≤ t - checkpoint_zero_timestamp_wit2 c < (e - E + 1) * checkpoints_period_wit2 c
  else checkpoints_period c * e ≤ t - checkpoint_zero_timestamp c < checkpoints_period c * (e + 1).
Proof.
  intros [Hp Hp2 Hz [HE HEm] Hw] H1 H2 Ht. unfold epoch_at. unfold_moduli.
  assert (0 ≤ checkpoints_period c * E) by nia.
  destruct (decide (checkpoint_zero_timestamp_wit2 c ≤ t)) as [Hge|Hlt].
  - rewrite Hw in *.
    replace (checkpoint_zero_timestamp c + checkpoints_period c * E - checkpoint_zero_timestamp c) with (E * checkpoints_period c) by lia.
    rewrite (wrap_i64_small (E * _)) by lia. rewrite epoch_try_from_small by (unfold_moduli; lia). simpl.
    rewrite decide_False by lia. rewrite wrap_i64_small by lia. rewrite Z.div_mul by lia.
    unfold epoch_try_from. unfold_moduli. case_decide as Hr; [|done]. simpl. rewrite decide_False by lia.
    set (q := (t - (checkpoint_zero_timestamp c + checkpoints_period c * E)) / checkpoints_period_wit2 c).
    pose proof (Z.div_mod (t - (checkpoint_zero_timestamp c + checkpoints_period c * E)) (checkpoints_period_wit2 c) ltac:(lia)) as Hdm.
    pose proof (Z.mod_pos_bound (t - (checkpoint_zero_timestamp c + checkpoints_period c * E)) (checkpoints_period_wit2 c) ltac:(lia)) as Hmb.
    fold q in Hdm. assert (0 ≤ q) by nia. rewrite wadd_small by (unfold_moduli; nia). intros [= <-].
    rewrite decide_True by lia. nia.
  - rewrite Hw in *. unfold epoch_try_from. case_decide as Hr; [|done]. simpl. rewrite decide_False by lia. intros [= He].
    assert (wrap_i64 (t - checkpoint_zero_timestamp c) = t - checkpoint_zero_timestamp c) as Hwr.
    { destruct (decide (- 2 ^ 63 ≤ t - checkpoint_zero_timestamp c)); [apply wrap_i64_small; lia|].
      revert Hr. unfold wrap_i64. unfold_moduli.
      rewrite <- (Z_mod_plus_full _ 1), Z.mod_small by lia. lia. }
    rewrite Hwr in *.
    pose proof (Z.div_mod (t - checkpoint_zero_timestamp c) (checkpoints_period c) ltac:(lia)) as Hdm.
    pose proof (Z.mod_pos_bound (t - checkpoint_zero_timestamp c) (checkpoints_period c) ltac:(lia)) as Hmb.
    rewrite He in Hdm. rewrite decide_False by nia. nia.
Qed.

(** (C39) Once version 2.0 is scheduled for epoch [E], every epoch has a start
    and a period, and a timestamp ([i64]) has that epoch exactly when it lies in
    the interval, on both sides of the activation, for periods of at least two
    seconds and while the seconds since the origins fit [u32]. *)
Theorem epoch_timestamp_roundtrip c period E e :
  before_activation c → 1 < checkpoints_period c → 1 < period < U16 → 0 ≤ E → checkpoints_period c * E < U32 →
  0 ≤ e → checkpoints_period c * (e + 1) ≤ U32 → (e - E + 1) * period ≤ U32 →
  ∃ c' start v2 len, set_values_for_wit2 c period E = Ret c' tt
    ∧ epoch_timestamp c' e = Ok (start, v2) ∧ v2 = bool_decide (E ≤ e) ∧ get_epoch_period c' e = Ok len
    ∧ len = (if v2 then period else checkpoints_period c)
    ∧ ∀ t, - 2 ^ 63 ≤ t < 2 ^ 63 → epoch_at c' t = Ok e ↔ start ≤ t < start + len.
Proof.
  intros Hb Hper1 Hper HE HEm He Hm Hm2.
  destruct (set_values_activates c period E Hb ltac:(lia) HE HEm) as (c' & Hset & Hac). exists c'.
  assert (checkpoints_period c' = checkpoints_period c ∧ checkpoints_period_wit2 c' = period) as [Hp1 Hp2].
  { revert Hset. unfold set_values_for_wit2. destruct (epoch_timestamp _ _) as [[ts b]| |]; [|done..]. by intros [= <-]. }
  assert (epoch_timestamp c' e = Ok (if decide (E ≤ e) then (checkpoint_zero_timestamp_wit2 c' + (e - E) * period, true)
        else (checkpoint_zero_timestamp c' + checkpoints_period c * e, false))) as Hts.
  { rewrite (activated_timestamp c' E e Hac He); [by rewrite Hp1, Hp2|rewrite Hp1; lia|rewrite Hp2; lia]. }
  assert (∀ t, - 2 ^ 63 ≤ t < 2 ^ 63 → epoch_at c' t = Ok e ↔
     if decide (E ≤ e) then (e - E) * period ≤ t - checkpoint_zero_timestamp_wit2 c' < (e - E + 1) * period
     else checkpoints_period c * e ≤ t - checkpoint_zero_timestamp c' < checkpoints_period c * (e + 1)) as Hat.
  { intros t Ht. rewrite <- Hp1, <- Hp2. split.
    - apply activated_epoch_at_inv; rewrite ?Hp1, ?Hp2; done || lia.
    - apply (activated_epoch_at c' E e t Hac He); rewrite ?Hp1, ?Hp2; lia. }
  unfold get_epoch_period. rewrite Hts. case_decide as HEe; simpl.
  - eexists _, _, _. split_and!; [done|done|by rewrite bool_decide_true|done|done|]. intros t Ht. rewrite (Hat t Ht), Hp2. lia.
  - eexists _, _, _. split_and!; [done|done|by rewrite bool_decide_false|done|done|]. intros t Ht. rewrite (Hat t Ht), Hp1. lia.
Qed.

Lemma epoch_timestamp_roundtrip_witness :
  ∃ c' start v2 len, set_values_for_wit2 (MkEpochConstants 1602666000 45 I64_MAX 1) 20 2922240 = Ret c' tt
    ∧ epoch_timestamp c' 2922250 = Ok (start, v2) ∧ v2 = bool_decide (2922240 ≤ 2922250)
    ∧ get_epoch_period c' 2922250 = Ok len
    ∧ len = (if v2 then 20 else 45)
    ∧ ∀ t, - 2 ^ 63 ≤ t < 2 ^ 63 → epoch_at c' t = Ok 2922250 ↔ start ≤ t < start + len.
Proof.
  apply (epoch_timestamp_roundtrip (MkEpochConstants 1602666000 45 I64_MAX 1) 20 2922240 2922250);
    try (simpl; unfold_moduli; lia). split; simpl; unfold_moduli; lia || done.
Defined.
