(* ===== verification/Versioning.v ===== *)
(** * Protocol versions

    Models [ProtocolVersion], [VersionsMap] and [ProtocolInfo] of
    data_structures/src/proto/versioning.rs and the functions of
    data_structures/src/lib.rs over the process-wide [PROTOCOL], which is a state
    that each of them takes and returns. *)

From stdpp Require Import base tactics numbers list gmap sorting.
From Stdlib Require Import ZArith Lia.
From S2P Require Import Prelude Epoch.
Local Open Scope Z_scope.

(** ** Versions *)

Inductive ProtocolVersion := V1_7 | V1_8 | V2_0.
#[export] Instance ProtocolVersion_eq_dec : EqDecision ProtocolVersion.
Proof. solve_decision. Defined.
#[export] Instance ProtocolVersion_countable : Countable ProtocolVersion.
Proof.
  apply (inj_countable'
    (λ v, match v with V1_7 => 0%nat | V1_8 => 1%nat | V2_0 => 2%nat end)
    (λ n, match n with O => V1_7 | 1%nat => V1_8 | _ => V2_0 end)).
  by intros [].
Defined.

Definition version_default : ProtocolVersion := V1_7.
Definition version_MIN : ProtocolVersion := V1_7.
Definition version_MAX : ProtocolVersion := V2_0.
Definition version_next (v : ProtocolVersion) : ProtocolVersion := match v with V1_7 => V1_8 | _ => V2_0 end.
Definition version_prev (v : ProtocolVersion) : ProtocolVersion := match v with V2_0 => V1_8 | _ => V1_7 end.

(** [PartialOrd::partial_cmp]; the last case is the unreachable one. *)
Definition partial_cmp (x y : ProtocolVersion) : comparison :=
  if decide (x = y) then Eq
  else match x, y with
       | V1_7, _ => Lt
       | V2_0, _ => Gt
       | V1_8, V1_7 => Gt
       | V1_8, V2_0 => Lt
       | V1_8, V1_8 => Eq
       end.
(** [x < y], and the common [x < ProtocolVersion::V2_0]. *)
Definition version_lt (x y : ProtocolVersion) : bool := match partial_cmp x y with Lt => true | _ => false end.
Definition before_v2 (v : ProtocolVersion) : bool := version_lt v V2_0.

(** ** When each version is in force *)

Record VersionsMap := MkVersions { efv : gmap ProtocolVersion Z; vfe : gmap Z ProtocolVersion }.
Definition versions_new : VersionsMap := MkVersions ∅ ∅.

Definition versions_register (m : VersionsMap) (epoch : Z) (version : ProtocolVersion) : VersionsMap :=
  MkVersions (<[version := epoch]> (efv m)) (<[epoch := version]> (vfe m)).

(** [iter().rev().find(..)]: the last entry not after the epoch. *)
Definition version_for_epoch (m : VersionsMap) (queried_epoch : Z) : ProtocolVersion :=
  default version_default
    (snd <$> head (filter (λ ev : Z * ProtocolVersion, ev.1 ≤ queried_epoch) (reverse (btree_entries (vfe m))))).

Definition try_get_activation_epoch (m : VersionsMap) (version : ProtocolVersion) : option Z := efv m !! version.
Definition get_activation_epoch (m : VersionsMap) (version : ProtocolVersion) : Z :=
  match try_get_activation_epoch m version with Some epoch => epoch | None => U32 - 1 end.

Record ProtocolInfo := MkProtocol {
  current_version : ProtocolVersion;
  all_versions : VersionsMap;
  all_checkpoints_periods : gmap ProtocolVersion Z;
}.
Definition protocol_default : ProtocolInfo := MkProtocol version_default versions_new ∅.

Definition protocol_register (p : ProtocolInfo) (epoch : Z) (version : ProtocolVersion) (period : Z) : ProtocolInfo :=
  MkProtocol (current_version p) (versions_register (all_versions p) epoch version)
    (<[version := period]> (all_checkpoints_periods p)).
Definition clear_versions (p : ProtocolInfo) : ProtocolInfo := MkProtocol version_default versions_new ∅.

(** [derive_activation_timestamp], by recursion on the number of versions before
    this one; [checkpoint_zero] and [period_zero] are those of the consensus
    constants.  [u32] and [i64] arithmetic wraps. *)
Fixpoint derive_from (n : nat) (p : ProtocolInfo) (version : ProtocolVersion) (checkpoint_zero period_zero : Z) :
    option Z :=
  match n with
  | O => Some checkpoint_zero
  | S n =>
      let previous := version_prev version in
      let previous_timestamp := derive_from n p previous checkpoint_zero period_zero in
      period ← (if decide (previous = version_MIN) then Some period_zero else all_checkpoints_periods p !! previous);
      activation ← try_get_activation_epoch (all_versions p) version;
      let span_epochs := sat_sub activation (default 0 (try_get_activation_epoch (all_versions p) previous)) in
      let span_seconds := wmul U32 span_epochs period in
      t ← previous_timestamp;
      Some (wrap_i64 (t + span_seconds))
  end.
Definition derive_activation_timestamp (p : ProtocolInfo) (version : ProtocolVersion) (checkpoint_zero period_zero : Z) :
    option Z :=
  derive_from (match version with V1_7 => 0 | V1_8 => 1 | V2_0 => 2 end)%nat p version checkpoint_zero period_zero.

(** ** The process-wide protocol *)

Definition get_protocol_version (p : ProtocolInfo) (epoch : option Z) : ProtocolVersion :=
  match epoch with Some e => version_for_epoch (all_versions p) e | None => current_version p end.
Definition register_protocol_version (p : ProtocolInfo) (version : ProtocolVersion) (epoch period : Z) : ProtocolInfo :=
  protocol_register p epoch version period.
Definition set_protocol_version (p : ProtocolInfo) (version : ProtocolVersion) : ProtocolInfo :=
  MkProtocol version (all_versions p) (all_checkpoints_periods p).
Definition load_protocol_info (p info : ProtocolInfo) : ProtocolInfo := info.
Definition initialize_default (p : ProtocolInfo) (default_period : Z) : ProtocolInfo :=
  register_protocol_version p version_default 0 default_period.
Definition clear_protocol_info (p : ProtocolInfo) : ProtocolInfo := clear_versions p.
Definition refresh_protocol_version (p : ProtocolInfo) (current_epoch : Z) : ProtocolInfo :=
  set_protocol_version p (get_protocol_version p (Some current_epoch)).
Definition get_protocol_version_activation_epoch (p : ProtocolInfo) (version : ProtocolVersion) : Z :=
  get_activation_epoch (all_versions p) version.
Definition get_protocol_version_period (p : ProtocolInfo) (version : ProtocolVersion) : Z :=
  match all_checkpoints_periods p !! version with Some period => period | None => U16 - 1 end.

(** ** Properties *)

(** The last of the entries of a sorted list that satisfy a predicate. *)
Lemma find_last_sorted {A} (R : relation A) (P : A → Prop) `{!∀ x, Decision (P x)} l :
  StronglySorted R l →
  match head (filter P (reverse l)) with
  | Some x => x ∈ l ∧ P x ∧ ∀ y, y ∈ l → P y → y = x ∨ R y x
  | None => ∀ y, y ∈ l → ¬ P y
  end.
Proof.
  induction l as [|x l IH] using rev_ind; intros Hs; [by intros y ?%elem_of_nil|].
  rewrite reverse_snoc, filter_cons. apply StronglySorted_app in Hs as (Hl & Hx & _).
  assert (∀ y, y ∈ l ++ [x] ↔ y ∈ l ∨ y = x) as Hin by (intros y; by rewrite elem_of_app, list_elem_of_singleton).
  case_decide as Hp.
  - cbn [head]. split_and!; [apply Hin; by right|done|]. intros y [Hy|Hy]%Hin _; [|by left].
    right. apply Hl; [done|]. by left.
  - specialize (IH Hx). destruct (head _) as [z|].
    + destruct IH as (Hz & Hpz & Hmax). split_and!; [apply Hin; by left|done|].
      intros y [Hy|Hy]%Hin Hpy; [by apply Hmax|by subst].
    + intros y [Hy|Hy]%Hin; [by apply IH|by subst].
Qed.

Lemma version_for_epoch_spec m q :
  (∃ e v, vfe m !! e = Some v ∧ e ≤ q ∧ (∀ e', is_Some (vfe m !! e') → e' ≤ q → e' ≤ e) ∧ version_for_epoch m q = v)
  ∨ ((∀ e, is_Some (vfe m !! e) → q < e) ∧ version_for_epoch m q = version_default).
Proof.
  pose proof (find_last_sorted key_le (λ ev : Z * ProtocolVersion, ev.1 ≤ q) _ (btree_entries_sorted (vfe m))) as Hf.
  unfold version_for_epoch. destruct (head _) as [[e v]|]; [left|right]; cbn [fmap option_fmap option_map default snd] in *.
  - destruct Hf as (Hin%elem_of_btree_entries & Hle & Hmax). exists e, v. split_and!; [done..| |done].
    intros e' [v' Hv'] He'. destruct (Hmax (e', v')) as [[= -> ->]|Hk]; [by apply elem_of_btree_entries|done|lia|].
    apply Hk.
  - split; [|done]. intros e [v Hv]. apply elem_of_btree_entries, Hf in Hv. simpl in Hv. lia.
Qed.

(** A schedule: each version once, no two at the same epoch. *)
Definition schedule (l : list (Z * ProtocolVersion)) : Prop := NoDup l.*1 ∧ NoDup l.*2.
Definition register_all (m : VersionsMap) (l : list (Z * ProtocolVersion)) : VersionsMap :=
  foldl (λ m ev, versions_register m ev.1 ev.2) m l.

Lemma register_all_lookup l : ∀ m,
  schedule l → (∀ ev, ev ∈ l → vfe m !! ev.1 = None ∧ efv m !! ev.2 = None) →
  (∀ e v, vfe (register_all m l) !! e = Some v ↔ vfe m !! e = Some v ∨ (e, v) ∈ l)
  ∧ ∀ e v, efv (register_all m l) !! v = Some e ↔ efv m !! v = Some e ∨ (e, v) ∈ l.
Proof.
  induction l as [|[e0 v0] l IH]; intros m [He Hv] Hnew; cbn [register_all foldl].
  - split; intros; rewrite elem_of_nil; tauto.
  - rewrite fmap_cons in He. rewrite fmap_cons in Hv. apply NoDup_cons in He as [He0 He], Hv as [Hv0 Hv]. cbn [fst snd] in *.
    destruct (Hnew (e0, v0)) as [Hm1 Hm2]; [by left|]. cbn [fst snd] in *.
    destruct (IH (versions_register m e0 v0)) as [IH1 IH2]; [done| |].
    + intros [e v] Hin. destruct (Hnew (e, v)) as [? ?]; [by right|]. cbn [fst snd versions_register vfe efv] in *.
      split; rewrite lookup_insert_ne; try done; intros <-.
      * apply He0, list_elem_of_fmap. by exists (e0, v).
      * apply Hv0, list_elem_of_fmap. by exists (e, v0).
    + split; intros e v; [etrans; [apply IH1|]|etrans; [apply IH2|]]; cbn [versions_register vfe efv];
        rewrite elem_of_cons, lookup_insert_Some; naive_solver.
Qed.

(** Versions in force.  When every version is registered once and at its own
    epoch, in any order, the two tables agree: each version starts at its
    activation epoch, and the version of an epoch is the last one activated by
    then, or the first version before any activation.  If later versions are
    scheduled later, the version in force never goes back. *)
Theorem version_for_epoch_exact l :
  schedule l →
  let m := register_all versions_new l in
  (∀ e v, (e, v) ∈ l → try_get_activation_epoch m v = Some e ∧ version_for_epoch m e = v)
  ∧ (∀ q, (∃ e v, (e, v) ∈ l ∧ e ≤ q ∧ (∀ e' v', (e', v') ∈ l → e' ≤ q → e' ≤ e) ∧ version_for_epoch m q = v)
          ∨ ((∀ e v, (e, v) ∈ l → q < e) ∧ version_for_epoch m q = version_default))
  ∧ ((∀ e v e' v', (e, v) ∈ l → (e', v') ∈ l → e ≤ e' → version_lt v' v = false) →
     ∀ q q', q ≤ q' → version_lt (version_for_epoch m q') (version_for_epoch m q) = false).
Proof.
  intros Hl m. destruct (register_all_lookup l versions_new Hl) as [Hvfe Hefv].
  { intros ev _. split; apply lookup_empty. }
  fold m in Hvfe, Hefv. cbn [versions_new vfe efv] in *. setoid_rewrite lookup_empty in Hvfe. setoid_rewrite lookup_empty in Hefv.
  assert (∀ e v, vfe m !! e = Some v ↔ (e, v) ∈ l) as Hin by naive_solver.
  assert (∀ q, (∃ e v, (e, v) ∈ l ∧ e ≤ q ∧ (∀ e' v', (e', v') ∈ l → e' ≤ q → e' ≤ e) ∧ version_for_epoch m q = v)
          ∨ ((∀ e v, (e, v) ∈ l → q < e) ∧ version_for_epoch m q = version_default)) as Hspec.
  { intros q. destruct (version_for_epoch_spec m q) as [(e & v & Hv & Hle & Hmax & Heq)|[Hnone Heq]].
    - left. exists e, v. split_and!; [by apply Hin|done| |done]. intros e' v' Hv'%Hin. apply Hmax. by eexists.
    - right. split; [|done]. intros e v Hv%Hin. apply Hnone. by eexists. }
  split_and!; [|done|].
  - intros e v Hev. split; [apply Hefv; by right|].
    destruct (Hspec e) as [(e' & v' & Hev' & Hle & Hmax & ->)|[Hnone _]]; [|specialize (Hnone e v Hev); lia].
    assert (e' = e) as -> by (specialize (Hmax e v Hev); lia). apply Hin in Hev, Hev'. congruence.
  - intros Hmono q q' Hq.
    destruct (Hspec q) as [(e & v & Hev & Hle & Hmax & ->)|[Hnone ->]].
    + destruct (Hspec q') as [(e' & v' & Hev' & Hle' & Hmax' & ->)|[Hnone' ->]].
      * apply (Hmono e v e' v'); [done..|]. apply (Hmax' e v); [done|lia].
      * specialize (Hnone' e v Hev). lia.
    + by destruct (version_for_epoch m q').
Qed.

Lemma version_for_epoch_exact_witness :
  schedule [(2949141, V1_8); (0, V1_7); (3000000, V2_0)]
  ∧ let m := register_all versions_new [(2949141, V1_8); (0, V1_7); (3000000, V2_0)] in
    version_for_epoch m 2949141 = V1_8 ∧ version_lt (version_for_epoch m 3000001) (version_for_epoch m 2949142) = false.
Proof.
  assert (schedule [(2949141, V1_8); (0, V1_7); (3000000, V2_0)]) as Hs.
  { split; apply (bool_decide_unpack _); by vm_compute. }
  split; [exact Hs|]. destruct (version_for_epoch_exact _ Hs) as (H1 & _ & H3). split.
  - apply (H1 2949141 V1_8). by left.
  - apply H3; [|lia]. intros e v e' v' Hv Hv'.
    repeat (apply elem_of_cons in Hv as [[= -> ->]|Hv]; [|]); try by apply elem_of_nil in Hv.
    all: repeat (apply elem_of_cons in Hv' as [[= -> ->]|Hv']; [intros ?; first [by vm_compute|lia]|]); by apply elem_of_nil in Hv'.
Defined.

Lemma set_values_keeps c period E c' :
  set_values_for_wit2 c period E = Ret c' tt →
  checkpoint_zero_timestamp c' = checkpoint_zero_timestamp c ∧ checkpoints_period c' = checkpoints_period c.
Proof.
  unfold set_values_for_wit2. destruct (epoch_timestamp _ _) as [[ts b]| |]; [|done..]. by intros [= <-].
Qed.

(** The two places that compute when version 2.0 starts agree: the
    timestamp derived from the registered versions is the one that the epoch
    constants take when version 2.0 is scheduled, provided the transitional
    version keeps the original period. *)
Theorem activation_timestamps_agree p c e1 e2 period :
  before_activation c → 0 < period < U16 → 0 ≤ e1 ≤ e2 → checkpoints_period c * e2 < U32 →
  default 0 (try_get_activation_epoch (all_versions p) V1_7) = 0 →
  try_get_activation_epoch (all_versions p) V1_8 = Some e1 →
  try_get_activation_epoch (all_versions p) V2_0 = Some e2 →
  all_checkpoints_periods p !! V1_8 = Some (checkpoints_period c) →
  ∃ c', set_values_for_wit2 c period e2 = Ret c' tt
    ∧ derive_activation_timestamp p V2_0 (checkpoint_zero_timestamp c) (checkpoints_period c)
      = Some (checkpoint_zero_timestamp_wit2 c').
Proof.
  intros Hb Hper He Hmax H7 H8 H2 Hp8. pose proof Hb as [Hp Hz _].
  destruct (set_values_activates c period e2 Hb Hper) as (c' & Hset & Hac); [lia|done|].
  exists c'. split; [done|]. destruct (set_values_keeps c period e2 c' Hset) as [Hz' Hp'].
  rewrite (ac_wit2 c' e2 Hac), Hz', Hp'. unfold derive_activation_timestamp. cbn [derive_from version_prev].
  rewrite (decide_False (P := V1_8 = version_MIN)), (decide_True (P := V1_7 = version_MIN)) by done.
  rewrite H8, H2, Hp8, H7. cbn [mbind option_bind default from_option id]. unfold sat_sub.
  assert (0 ≤ checkpoints_period c * e1 ≤ checkpoints_period c * e2) by nia. unfold_moduli.
  rewrite !Z.max_r by lia. rewrite (wmul_small _ (e1 - 0)), (wmul_small _ (e2 - e1)) by (unfold_moduli; nia).
  rewrite (wrap_i64_small (_ + (e1 - 0) * _)) by lia. rewrite wrap_i64_small by lia. f_equal. ring.
Qed.

Lemma activation_timestamps_agree_witness :
  let p := protocol_register (protocol_register protocol_default 100 V1_8 45) 200 V2_0 20 in
  ∃ c', set_values_for_wit2 (MkEpochConstants 10000 45 I64_MAX 1) 20 200 = Ret c' tt
    ∧ derive_activation_timestamp p V2_0 10000 45 = Some (checkpoint_zero_timestamp_wit2 c').
Proof.
  apply (activation_timestamps_agree _ (MkEpochConstants 10000 45 I64_MAX 1) 100 200 20);
    try (simpl; unfold_moduli; lia); try by vm_compute.
Defined.

(** A version that is registered again keeps its first epoch in the table by
    epoch, where it is still found. *)
Theorem rescheduled_version_stays v e1 e2 :
  e1 < e2 →
  let m := versions_register (versions_register versions_new e1 v) e2 v in
  get_activation_epoch m v = e2 ∧ version_for_epoch m e1 = v.
Proof.
  intros He m. split; [unfold get_activation_epoch, try_get_activation_epoch; simpl; by rewrite lookup_insert_eq|].
  destruct (version_for_epoch_spec m e1) as [(e & v' & Hv & _ & _ & ->)|[Hnone _]].
  - simpl in Hv. apply lookup_insert_Some in Hv as [[_ <-]|[_ [[_ <-]|[_ Hv]]%lookup_insert_Some]]; try done.
  - specialize (Hnone e1). assert (e1 < e1); [|lia]. apply Hnone. simpl.
    rewrite lookup_insert_ne, lookup_insert_eq by lia. by eexists.
Qed.
