(* ===== verification/Tapi.v ===== *)
(** * Voting on protocol upgrades

    Models data_structures/src/chain/tapi.rs: the counters of the votes that
    block versions carry for improvement proposals (WIPs), the engine that
    schedules their activation, and the table of active proposals.  An
    activation of WIP0028 also registers protocol version 1.8, in the
    process-wide protocol and in that of the chain state; both are part of the
    state.  [None] is a panic (a division by zero). *)

From stdpp Require Import base tactics numbers list gmap strings.
From Stdlib Require Import ZArith Lia.
From S2P Require Import Prelude Hashes Superblock Epoch Versioning.
Local Open Scope Z_scope.

(** ** Counters *)

Record BitVotesCounter := MkCounter {
  votes : Z;
  period : Z;
  wip : string;
  init : Z;
  bv_end : Z;
  bit : nat;
}.
#[export] Instance BitVotesCounter_eq_dec : EqDecision BitVotesCounter.
Proof. solve_decision. Defined.
Definition set_votes (b : BitVotesCounter) (n : Z) : BitVotesCounter :=
  MkCounter n (period b) (wip b) (init b) (bv_end b) (bit b).

Record BitTapiCounter := MkBits {
  info : list (option BitVotesCounter);
  last_epoch : Z;
  current_length : nat;
}.
Definition bits_default : BitTapiCounter := MkBits (replicate 32 None) 0 0.

(** [get] and [get_mut]: the counter of a bit at an epoch of its vote. *)
Definition bits_get (t : BitTapiCounter) (n : nat) (epoch : Z) : option BitVotesCounter :=
  match info t !! n with
  | Some (Some b) => if decide (init b ≤ epoch < bv_end b) then Some b else None
  | _ => None
  end.

Definition bits_insert (t : BitTapiCounter) (b : BitVotesCounter) : BitTapiCounter :=
  let k := bit b in
  if decide (length (info t) ≤ k)%nat then t
  else MkBits (<[k := Some b]> (info t)) (last_epoch t)
         (if decide (current_length t ≤ k)%nat then S k else current_length t).

(** [update_current_length]: the last counter in the array. *)
Definition update_current_length (t : BitTapiCounter) : BitTapiCounter :=
  MkBits (info t) (last_epoch t) (foldl (λ len (o : option BitVotesCounter),
    match o with Some b => S (bit b) | None => len end) 0%nat (info t)).

Definition bits_remove (t : BitTapiCounter) (n : nat) : BitTapiCounter :=
  if decide (length (info t) ≤ n)%nat then t
  else
    let t' := MkBits (<[n := None]> (info t)) (last_epoch t) (current_length t) in
    if decide (S n = current_length t') then update_current_length t' else t'.

Definition bits_contains (t : BitTapiCounter) (n : nat) (w : BitVotesCounter) : bool :=
  match info t !! n with
  | Some (Some b) => bool_decide (set_votes b 0 = w)
  | _ => false
  end.

Definition bits_len (t : BitTapiCounter) : nat := current_length t.
Definition bits_is_empty (t : BitTapiCounter) : bool := bool_decide (current_length t = 0%nat).

Definition bits_info (t : BitTapiCounter) (active_wips : gmap string Z) : list BitVotesCounter :=
  omap (λ x : option BitVotesCounter, b ← x; if decide (is_Some (active_wips !! wip b)) then None else Some b)
    (take (current_length t) (info t)).

Definition is_bit_n_activated (v : Z) (n : nat) : bool :=
  bool_decide (Z.land v (Z.shiftl 1 (Z.of_nat n)) ≠ 0).

(** ** The engine *)

Record TapiEngine := MkEngine {
  bit_tapi_counter : BitTapiCounter;
  wip_activation : gmap string Z;
}.
Definition engine_default : TapiEngine := MkEngine bits_default ∅.

(** The engine with the two copies of the protocol information that
    [update_bit_counter] changes. *)
Record TapiState := MkTapi {
  engine : TapiEngine;
  protocol : ProtocolInfo;
  chain_protocol : ProtocolInfo;
}.

Definition counter (s : TapiState) (n : nat) : option (option BitVotesCounter) := info (bit_tapi_counter (engine s)) !! n.

Definition with_bits (s : TapiState) (t : BitTapiCounter) : TapiState :=
  MkTapi (MkEngine t (wip_activation (engine s))) (protocol s) (chain_protocol s).
Definition put_counter (s : TapiState) (n : nat) (b : BitVotesCounter) : TapiState :=
  let t := bit_tapi_counter (engine s) in
  with_bits s (MkBits (<[n := Some b]> (info t)) (last_epoch t) (current_length t)).

(** The activation of a proposal. *)
Definition activate (s : TapiState) (w : string) (scheduled_epoch checkpoints_period : Z) : TapiState :=
  let e := MkEngine (bit_tapi_counter (engine s)) (<[w := scheduled_epoch]> (wip_activation (engine s))) in
  if decide (w = "WIP0028"%string) then
    MkTapi e (register_protocol_version (protocol s) V1_8 scheduled_epoch checkpoints_period)
      (protocol_register (chain_protocol s) scheduled_epoch V1_8 checkpoints_period)
  else MkTapi e (protocol s) (chain_protocol s).

(** One bit of the loop of [update_bit_counter]. *)
Definition count_bit (v epoch_to_update block_epoch : Z) (avoid_wip_list : gset string) (checkpoints_period : Z)
    (s : TapiState) (n : nat) : option TapiState :=
  match bits_get (bit_tapi_counter (engine s)) n epoch_to_update with
  | None => Some s
  | Some b =>
      if decide (is_Some (wip_activation (engine s) !! wip b) ∨ wip b ∈ avoid_wip_list) then Some s
      else
        let b := if is_bit_n_activated v n then set_votes b (wadd U32 (votes b) 1) else b in
        if decide (period b = 0) then None
        else if decide (wsub U32 epoch_to_update (init b) mod period b = 0) then
          let s := if decide (80 ≤ wmul U32 (votes b) 100 / period b)
                   then activate s (wip b) (wadd U32 block_epoch 21) checkpoints_period else s in
          Some (put_counter s n (set_votes b 0))
        else Some (put_counter s n b)
  end.

(** The loop over the bits and the last epoch: one epoch. *)
Definition count_epoch (v epoch_to_update block_epoch : Z) (avoid_wip_list : gset string) (checkpoints_period : Z)
    (s : TapiState) : option TapiState :=
  s ← foldl (λ acc n, s ← acc; count_bit v epoch_to_update block_epoch avoid_wip_list checkpoints_period s n)
        (Some s) (seq 0 (bits_len (bit_tapi_counter (engine s))));
  let t := bit_tapi_counter (engine s) in
  Some (with_bits s (MkBits (info t) epoch_to_update (current_length t))).

(** [update_bit_counter] calls itself for the epochs without blocks; the calls
    do not nest further, so a fuel of two is enough ([empty_epochs_signal_nothing]). *)
Fixpoint update_rec (fuel : nat) (v epoch_to_update block_epoch : Z) (avoid_wip_list : gset string)
    (checkpoints_period : Z) (s : TapiState) : option TapiState :=
  match fuel with
  | O => None
  | S fuel =>
      let last := last_epoch (bit_tapi_counter (engine s)) in
      s ← (if decide (last ≠ 0 ∧ epoch_to_update > wadd U32 last 1) then
             foldl (λ acc i, s ← acc; update_rec fuel 0 i block_epoch avoid_wip_list checkpoints_period s)
               (Some s) (seqZ (wadd U32 last 1) (epoch_to_update - wadd U32 last 1))
           else Some s);
      count_epoch v epoch_to_update block_epoch avoid_wip_list checkpoints_period s
  end.
Definition update_bit_counter (v epoch_to_update block_epoch : Z) (avoid_wip_list : gset string)
    (checkpoints_period : Z) (s : TapiState) : option TapiState :=
  update_rec 2 v epoch_to_update block_epoch avoid_wip_list checkpoints_period s.

(** The blocks of a chain in order, as the chain manager counts them when it
    consolidates blocks and when it counts old blocks for a new proposal. *)
Definition count_blocks (avoid_wip_list : gset string) (checkpoints_period : Z) (blocks : list (Z * Z)) (s : TapiState) :
    option TapiState :=
  foldl (λ acc ev, s ← acc; update_bit_counter ev.2 ev.1 ev.1 avoid_wip_list checkpoints_period s) (Some s) blocks.

Definition ONE_HOUR : Z := 80.
Definition TWO_WEEKS : Z := 26880.

Definition wip_info : gmap string Z := list_to_map
  [("WIP0008"%string, FIRST_HARD_FORK); ("WIP0009-0011-0012"%string, SECOND_HARD_FORK);
   ("THIRD_HARD_FORK"%string, THIRD_HARD_FORK); ("WIP0014-0016"%string, 549141);
   ("WIP0017-0018-0019"%string, 683541); ("WIP0020-0021"%string, 1059861); ("WIP0022"%string, 1708901);
   ("WIP0023"%string, 1708901); ("WIP0024"%string, 1708901); ("WIP0025"%string, 1708901);
   ("WIP0026"%string, 1708901); ("WIP0027"%string, 1708901)].
Definition test_wip_info : gmap string Z := list_to_map
  [("WIP0008"%string, 0); ("WIP0009-0011-0012"%string, 0); ("THIRD_HARD_FORK"%string, 0);
   ("WIP0014-0016"%string, 0); ("WIP0017-0018-0019"%string, 0); ("WIP0020-0021"%string, 0);
   ("WIP0022"%string, 0); ("WIP0023"%string, 0); ("WIP0024"%string, 0); ("WIP0025"%string, 0);
   ("WIP0026"%string, 0); ("WIP0027"%string, 0)].

(** The counters of the proposals that are being voted, by bit. *)
Definition wip_0028 (environment : Environment) : BitVotesCounter :=
  match environment with
  | Mainnet => MkCounter 0 TWO_WEEKS "WIP0028" 2922240 (U32 - 1) 9
  | _ => MkCounter 0 ONE_HOUR "WIP0028" 0 (U32 - 1) 9
  end.
Definition voting_wips (environment : Environment) : list (option BitVotesCounter) :=
  <[9%nat := Some (wip_0028 environment)]> (replicate 32 None).

(** The assessment of one bit in [initialize_wip_information]. *)
Definition assess_wip (acc : BitTapiCounter * (Z * gset string)) (activation : gmap string Z)
    (i : nat) (w : option BitVotesCounter) : BitTapiCounter * (Z * gset string) :=
  let '(t, (min_epoch, old_wips)) := acc in
  match w with
  | Some w =>
      if bits_contains t i w then
        let alleged_activation := default (U32 - 1) (activation !! wip w) in
        let minimum_activation := wadd U32 (init w) (period w) in
        (t, (min_epoch, if decide (alleged_activation > minimum_activation) then {[ wip w ]} ∪ old_wips else old_wips))
      else (bits_insert t w, (if decide (init w < min_epoch) then init w else min_epoch, old_wips))
  | None => (bits_remove t i, (min_epoch, old_wips))
  end.

Definition hardcoded_wips (environment : Environment) : gmap string Z :=
  match environment with Mainnet => wip_info | _ => test_wip_info end.

Definition initialize_wip_information (e : TapiEngine) (environment : Environment) : TapiEngine * (Z * gset string) :=
  let activation := hardcoded_wips environment ∪ wip_activation e in
  let '(t, r) := foldl (λ acc iw, assess_wip acc activation iw.1 iw.2) (bit_tapi_counter e, (U32 - 1, ∅))
                   (imap pair (voting_wips environment)) in
  (MkEngine t activation, r).

Definition in_voting_range (e : TapiEngine) (epoch : Z) (w : string) : bool :=
  existsb (λ i, match bits_get (bit_tapi_counter e) i epoch with
                | Some b => bool_decide (wip b = w)
                | None => false
                end) (seq 0 (bits_len (bit_tapi_counter e))).

(** ** Active proposals *)

Record ActiveWips := MkActive { active_wips : gmap string Z; block_epoch : Z }.

Definition wip_active (a : ActiveWips) (w : string) : bool :=
  match active_wips a !! w with
  | Some activation_epoch => bool_decide (activation_epoch ≤ block_epoch a)
  | None => false
  end.
Definition wip_0008 (a : ActiveWips) : bool := wip_active a "WIP0008".
Definition wips_0009_0011_0012 (a : ActiveWips) : bool := wip_active a "WIP0009-0011-0012".
Definition third_hard_fork (a : ActiveWips) : bool := wip_active a "THIRD_HARD_FORK".
Definition wip0014 (a : ActiveWips) : bool := wip_active a "WIP0014-0016".
Definition wip0016 (a : ActiveWips) : bool := wip_active a "WIP0014-0016".
Definition wip0017 (a : ActiveWips) : bool := wip_active a "WIP0017-0018-0019".
Definition wip0018 (a : ActiveWips) : bool := wip_active a "WIP0017-0018-0019".
Definition wip0019 (a : ActiveWips) : bool := wip_active a "WIP0017-0018-0019".
Definition wip0020 (a : ActiveWips) : bool := wip_active a "WIP0020-0021".
Definition wip0021 (a : ActiveWips) : bool := wip_active a "WIP0020-0021".
Definition wip0022 (a : ActiveWips) : bool := wip_active a "WIP0022".
Definition wip0023 (a : ActiveWips) : bool := wip_active a "WIP0023".
Definition wip0024 (a : ActiveWips) : bool := wip_active a "WIP0024".
Definition wip0025 (a : ActiveWips) : bool := wip_active a "WIP0025".
Definition wip0026 (a : ActiveWips) : bool := wip_active a "WIP0026".
Definition wip0027 (a : ActiveWips) : bool := wip_active a "WIP0027".
Definition wip0028 (a : ActiveWips) : bool := wip_active a "WIP0028".
Definition insert_wip (a : ActiveWips) (w : string) (activation_epoch : Z) : ActiveWips :=
  MkActive (<[w := activation_epoch]> (active_wips a)) (block_epoch a).
Definition set_epoch (a : ActiveWips) (epoch : Z) : ActiveWips := MkActive (active_wips a) epoch.
Definition current_active_wips : ActiveWips := MkActive wip_info (U32 - 1).
Definition all_wips_active : ActiveWips := insert_wip current_active_wips "WIP0028" 0.
