(* ===== verification/TapiCorrect.v ===== *)
(** * Voting on protocol upgrades: correctness

    The table of counters is exact under insertions and removals; a vote over one
    whole period schedules its proposal exactly when 80% of the epochs signalled
    for it; and epochs without a block count as blocks that signal nothing. *)

From stdpp Require Import base tactics numbers list gmap strings sorting.
From Stdlib Require Import ZArith Lia.
From S2P Require Import Prelude Hashes Superblock Epoch Versioning Tapi.
Local Open Scope Z_scope.

(** ** One bit *)

(** Counters are independent: what an epoch does to a bit depends on its counter
    and on whether its proposal is scheduled. *)
Definition bit_step (v epoch_to_update be : Z) (avoid : gset string) (n : nat) (x : BitVotesCounter * option Z) :
    BitVotesCounter * option Z :=
  let '(b, activation) := x in
  if decide (init b ≤ epoch_to_update < bv_end b) then
    if decide (is_Some activation ∨ wip b ∈ avoid) then x
    else
      let b := if is_bit_n_activated v n then set_votes b (wadd U32 (votes b) 1) else b in
      if decide (wsub U32 epoch_to_update (init b) mod period b = 0) then
        (set_votes b 0,
         if decide (80 ≤ wmul U32 (votes b) 100 / period b) then Some (wadd U32 be 21) else activation)
      else (b, activation)
  else x.

#[local] Arguments bit_step : simpl never.

Definition activation (s : TapiState) (w : string) : option Z := wip_activation (engine s) !! w.
Definition bits (s : TapiState) : BitTapiCounter := bit_tapi_counter (engine s).

(** The counters without their votes. *)
Definition no_votes (o : option BitVotesCounter) : option BitVotesCounter := (λ b, set_votes b 0) <$> o.
Definition skeleton (s : TapiState) : list (option BitVotesCounter) :=
  no_votes <$> info (bits s).

Definition sane (s : TapiState) : Prop := ∀ n b, counter s n = Some (Some b) → 0 < period b.
(** The proposal of the bit [n] is voted in no other bit. *)
Definition own_bit (s : TapiState) (n : nat) (w : string) : Prop :=
  ∀ m b, m ≠ n → counter s m = Some (Some b) → wip b ≠ w.

Record same_shape (s s' : TapiState) : Prop := {
  ss_skeleton : skeleton s' = skeleton s;
  ss_length : current_length (bits s') = current_length (bits s);
  ss_last : last_epoch (bits s') = last_epoch (bits s);
}.

Lemma skeleton_counter s s' n b' :
  skeleton s' = skeleton s → counter s' n = Some (Some b') →
  ∃ b, counter s n = Some (Some b) ∧ set_votes b' 0 = set_votes b 0.
Proof.
  unfold skeleton, counter, bits. intros Hs Hb'.
  assert ((no_votes <$> info (bit_tapi_counter (engine s'))) !! n
          = Some (Some (set_votes b' 0))) as Hl by (by rewrite list_lookup_fmap, Hb').
  rewrite Hs, list_lookup_fmap in Hl.
  destruct (info (bit_tapi_counter (engine s)) !! n) as [[b|]|]; simpl in Hl; [|done..].
  exists b. split; congruence.
Qed.

Lemma sane_shape s s' : skeleton s' = skeleton s → sane s → sane s'.
Proof.
  intros Hs Hsane n b' Hb'. destruct (skeleton_counter s s' n b' Hs Hb') as (b & Hb & Heq).
  apply Hsane in Hb. injection Heq as Hp _ _ _ _. lia.
Qed.
Lemma own_bit_shape s s' n w : skeleton s' = skeleton s → own_bit s n w → own_bit s' n w.
Proof.
  intros Hs Ho m b' Hm Hb'. destruct (skeleton_counter s s' m b' Hs Hb') as (b & Hb & Heq).
  apply Ho in Hb; [|done]. injection Heq as _ Hw _ _ _. by rewrite Hw.
Qed.

Lemma put_counter_shape s n b b' :
  counter s n = Some (Some b) → set_votes b' 0 = set_votes b 0 → same_shape s (put_counter s n b').
Proof.
  intros Hb Heq. split; [|done..]. unfold skeleton, bits, put_counter. simpl. unfold counter in Hb.
  rewrite list_fmap_insert. simpl. rewrite Heq. apply list_insert_id. by rewrite list_lookup_fmap, Hb.
Qed.

Lemma activate_bits s w e cp : bits (activate s w e cp) = bits s.
Proof. unfold activate. by case_decide. Qed.
Lemma activate_activation s w e cp w' :
  activation (activate s w e cp) w' = if decide (w' = w) then Some e else activation s w'.
Proof.
  unfold activation, activate. case_decide; case_decide; simpl; subst.
  all: (by rewrite lookup_insert_eq) || (by rewrite lookup_insert_ne).
Qed.

Section epoch.
Context (v e be : Z) (avoid : gset string) (cp : Z).

(** [count_bit] is total on sane states, changes only its own counter and the
    activation of its own proposal, and changes these as [bit_step]. *)
Lemma count_bit_spec s n :
  sane s →
  ∃ s', count_bit v e be avoid cp s n = Some s' ∧ same_shape s s'
    ∧ (∀ m, m ≠ n → counter s' m = counter s m)
    ∧ (∀ w, (∀ b, counter s n = Some (Some b) → wip b ≠ w) → activation s' w = activation s w)
    ∧ (∀ b, counter s n = Some (Some b) →
         let x := bit_step v e be avoid n (b, activation s (wip b)) in
         counter s' n = Some (Some x.1) ∧ activation s' (wip b) = x.2).
Proof.
  intros Hs. unfold count_bit, bits_get. fold (counter s n).
  destruct (counter s n) as [[b|]|] eqn:Hb; [|by exists s; split_and!..].
  unfold bit_step. case_decide as Hr.
  2: { exists s. split_and!; [done..|]. intros b0 [= <-]. by rewrite decide_False. }
  case_decide as Ha.
  { exists s. split_and!; [done..|]. intros b0 [= <-]. by rewrite decide_True, decide_True. }
  set (b1 := if is_bit_n_activated v n then set_votes b (wadd U32 (votes b) 1) else b).
  assert (period b1 = period b ∧ wip b1 = wip b ∧ init b1 = init b ∧ set_votes b1 0 = set_votes b 0) as (Hp & Hw & Hi & Hz).
  { unfold b1. by case_match. }
  assert (0 < period b) as Hpos by (by apply (Hs n)). rewrite decide_False by lia.
  assert (n < length (info (bits s)))%nat as Hlen by (apply lookup_lt_is_Some; unfold counter in Hb; by eexists).
  case_decide as Hm.
  - set (s1 := if decide (80 ≤ wmul U32 (votes b1) 100 / period b1) then activate s (wip b1) (wadd U32 be 21) cp else s).
    assert (bits s1 = bits s) as Hbits by (unfold s1; case_decide; [apply activate_bits|done]).
    assert (∀ w, activation s1 w = if decide (w = wip b ∧ 80 ≤ wmul U32 (votes b1) 100 / period b1)
      then Some (wadd U32 be 21) else activation s w) as Hact.
    { intros w. unfold s1. rewrite <-Hw. case_decide as H80; [|by rewrite decide_False by tauto].
      rewrite activate_activation. by repeat case_decide; try tauto. }
    eexists. split; [done|]. split_and!.
    + destruct (put_counter_shape s1 n b (set_votes b1 0)) as [H1 H2 H3];
        [unfold counter; fold (bits s1); by rewrite Hbits|done|].
      split; [rewrite H1; unfold skeleton; by rewrite Hbits|by rewrite H2, Hbits|by rewrite H3, Hbits].
    + intros m Hne. unfold counter, put_counter. simpl. fold (bits s1). rewrite Hbits. by rewrite list_lookup_insert_ne.
    + intros w Hne. etrans; [apply (Hact w)|]. rewrite decide_False; [done|]. intros [-> _]. by apply (Hne b).
    + intros b0 [= <-]. rewrite decide_True, decide_False by done. fold b1. rewrite decide_True by done. cbn [fst snd]. split.
      * unfold counter, put_counter. simpl. fold (bits s1). rewrite Hbits. by apply list_lookup_insert_eq.
      * etrans; [apply (Hact (wip b))|]. repeat case_decide; tauto.
  - eexists. split; [done|]. split_and!.
    + by apply (put_counter_shape s n b).
    + intros m Hne. unfold counter, put_counter. simpl. by rewrite list_lookup_insert_ne.
    + done.
    + intros b0 [= <-]. rewrite decide_True, decide_False by done. fold b1. rewrite decide_False by done. cbn [fst snd].
      split; [|done]. unfold counter, put_counter. simpl. by apply list_lookup_insert_eq.
Qed.

Definition counted (s : TapiState) (n : nat) (b : BitVotesCounter) (act : option Z) : Prop :=
  counter s n = Some (Some b) ∧ activation s (wip b) = act.

(** A bit of its own proposal is untouched while the loop handles other bits. *)
Lemma count_bit_other s s' n m b act :
  sane s → count_bit v e be avoid cp s n = Some s' → m ≠ n → own_bit s m (wip b) →
  counted s m b act → counted s' m b act.
Proof.
  intros Hs Hc Hne Ho [Hm Ha]. destruct (count_bit_spec s n Hs) as (s1 & Hs1 & _ & Hoth & Hact & _).
  assert (s1 = s') as -> by congruence. split; [by rewrite Hoth|].
  rewrite Hact; [done|]. intros b' Hb'. by apply (Ho n b').
Qed.

Lemma same_shape_trans s1 s2 s3 : same_shape s1 s2 → same_shape s2 s3 → same_shape s1 s3.
Proof. intros [] []. split; congruence. Qed.

Lemma bit_step_wip n b act : wip (bit_step v e be avoid n (b, act)).1 = wip b.
Proof. unfold bit_step. repeat case_match; done. Qed.

Definition count_bits (s : TapiState) (l : list nat) : option TapiState :=
  foldl (λ acc n, s ← acc; count_bit v e be avoid cp s n) (Some s) l.

Lemma count_bits_cons s n l : count_bits s (n :: l) = s' ← count_bit v e be avoid cp s n; count_bits s' l.
Proof.
  unfold count_bits. simpl. destruct (count_bit v e be avoid cp s n); [done|]. simpl. induction l; [done|by simpl].
Qed.

Lemma count_bits_other l : ∀ s,
  sane s →
  ∃ s', count_bits s l = Some s' ∧ same_shape s s'
    ∧ ∀ m b act, m ∉ l → own_bit s m (wip b) → counted s m b act → counted s' m b act.
Proof.
  induction l as [|n l IH]; intros s Hs; [by exists s; split_and!|].
  rewrite count_bits_cons. destruct (count_bit_spec s n Hs) as (s1 & Hs1 & Hsh & _). rewrite Hs1. simpl.
  destruct (IH s1) as (s' & Hl & Hsh' & Hm); [by eapply sane_shape; [apply Hsh|]|].
  exists s'. split; [done|]. split; [by eapply same_shape_trans|]. intros m b act Hin Ho Hc.
  apply not_elem_of_cons in Hin as [Hne Hin]. apply Hm; [done|by eapply own_bit_shape; [apply Hsh|]|].
  by apply (count_bit_other s s1 n).
Qed.

Lemma count_bits_spec l : ∀ s n b act,
  sane s → n ∈ l → NoDup l → own_bit s n (wip b) → counted s n b act →
  ∃ s', count_bits s l = Some s' ∧ same_shape s s'
    ∧ counted s' n (bit_step v e be avoid n (b, act)).1 (bit_step v e be avoid n (b, act)).2.
Proof.
  induction l as [|k l IH]; intros s n b act Hs Hin Hnd Ho Hc; [by apply not_elem_of_nil in Hin|].
  rewrite count_bits_cons. destruct (count_bit_spec s k Hs) as (s1 & Hs1 & Hsh & _ & _ & Hk). rewrite Hs1. simpl.
  apply NoDup_cons in Hnd as [Hk' Hnd]. assert (sane s1) as Hsane by (by eapply sane_shape; [apply Hsh|]).
  assert (own_bit s1 n (wip b)) as Ho1 by (by eapply own_bit_shape; [apply Hsh|]).
  destruct (decide (n = k)) as [->|Hne].
  - destruct (count_bits_other l s1 Hsane) as (s' & Hl & Hsh' & Hm).
    exists s'. split; [done|]. split; [by eapply same_shape_trans|].
    destruct Hc as [Hb <-]. destruct (Hk b Hb) as [H1 H2].
    pose proof (bit_step_wip k b (activation s (wip b))) as Hw.
    destruct (bit_step v e be avoid k (b, activation s (wip b))) as [b' act']. simpl in *. rewrite <-Hw in Ho1, H2.
    apply Hm; [done..|by split].
  - apply elem_of_cons in Hin as [?|Hin]; [done|].
    destruct (IH s1 n b act) as (s' & Hl & Hsh' & Hn); [done..|by apply (count_bit_other s s1 k)|].
    exists s'. split; [done|]. split; [by eapply same_shape_trans|done].
Qed.
End epoch.

(** ** One epoch *)

(** The bit [n] is in the table, its proposal is voted only there, and it has the
    counter [x.1] and the scheduled epoch [x.2]. *)
Record tracked (n : nat) (s : TapiState) (x : BitVotesCounter * option Z) : Prop := {
  tr_sane : sane s;
  tr_length : (n < bits_len (bits s))%nat;
  tr_own : own_bit s n (wip x.1);
  tr_counted : counted s n x.1 x.2;
}.

Lemma count_epoch_spec v e be avoid cp s n x :
  tracked n s x →
  ∃ s', count_epoch v e be avoid cp s = Some s' ∧ last_epoch (bits s') = e
    ∧ tracked n s' (bit_step v e be avoid n x).
Proof.
  intros [Hs Hl Ho Hc]. destruct x as [b act].
  destruct (count_bits_spec v e be avoid cp (seq 0 (bits_len (bits s))) s n b act) as (s' & Hr & Hsh & Hc');
    [done|apply elem_of_seq; lia|apply NoDup_seq|done..|].
  unfold count_epoch. fold (bits s). unfold count_bits in Hr. rewrite Hr. simpl. eexists. split_and!; [done..|].
  assert (sane s') by (by eapply sane_shape; [apply Hsh|]).
  assert (own_bit s' n (wip b)) by (by eapply own_bit_shape; [apply Hsh|]).
  pose proof (bit_step_wip v e be avoid n b act) as Hw.
  pose proof (ss_length _ _ Hsh) as Hlen. unfold bits_len, bits in *.
  split; [done|simpl; lia|by rewrite Hw|done].
Qed.

(** ** Epochs without a block *)

Definition count_gap (be : Z) (avoid : gset string) (cp : Z) (s : TapiState) (l : list Z) : option TapiState :=
  foldl (λ acc i, s ← acc; count_epoch 0 i be avoid cp s) (Some s) l.

Lemma foldl_bind_cons {A B} (f : B → A → option A) s x l :
  foldl (λ acc i, s ← acc; f i s) (Some s) (x :: l)
  = s' ← f x s; foldl (λ acc i, s ← acc; f i s) (Some s') l.
Proof. simpl. destruct (f x s); [done|]. simpl. induction l; [done|by simpl]. Qed.

Lemma count_epoch_last v e be avoid cp s s' : count_epoch v e be avoid cp s = Some s' → last_epoch (bits s') = e.
Proof. unfold count_epoch. intros (s1 & _ & [= <-])%bind_Some. done. Qed.

Lemma update_rec_S fuel v e be avoid cp s :
  update_rec (S fuel) v e be avoid cp s
  = s' ← (if decide (last_epoch (bits s) ≠ 0 ∧ e > wadd U32 (last_epoch (bits s)) 1) then
            foldl (λ acc i, s ← acc; update_rec fuel 0 i be avoid cp s) (Some s)
              (seqZ (wadd U32 (last_epoch (bits s)) 1) (e - wadd U32 (last_epoch (bits s)) 1))
          else Some s);
    count_epoch v e be avoid cp s'.
Proof. done. Qed.

(** The calls for the epochs of a gap find no further gap. *)
Lemma gap_calls fuel be avoid cp k : ∀ i s,
  last_epoch (bits s) = i - 1 → 1 ≤ i → i + Z.of_nat k ≤ U32 →
  foldl (λ acc i, s ← acc; update_rec (S fuel) 0 i be avoid cp s) (Some s) (seqZ i (Z.of_nat k))
  = count_gap be avoid cp s (seqZ i (Z.of_nat k)).
Proof.
  induction k as [|k IH]; intros i s Hl Hi Hu; [done|].
  rewrite seqZ_cons by lia. replace (Z.pred (Z.of_nat (S k))) with (Z.of_nat k) by lia.
  unfold count_gap. rewrite !foldl_bind_cons, update_rec_S. rewrite decide_False.
  2: { rewrite Hl, wadd_small by lia. lia. }
  cbn [mbind option_bind]. destruct (count_epoch 0 i be avoid cp s) as [s'|] eqn:Hc; [|done]. cbn [mbind option_bind].
  apply IH; [rewrite (count_epoch_last _ _ _ _ _ _ _ Hc); lia|lia..].
Qed.

Lemma update_gap fuel v e be avoid cp s :
  0 < last_epoch (bits s) < e → e < U32 →
  update_rec (S (S fuel)) v e be avoid cp s
  = s' ← count_gap be avoid cp s (seqZ (last_epoch (bits s) + 1) (e - last_epoch (bits s) - 1));
    count_epoch v e be avoid cp s'.
Proof.
  intros Hl He. rewrite update_rec_S.
  assert (wadd U32 (last_epoch (bits s)) 1 = last_epoch (bits s) + 1) as Hw
    by (apply wadd_small; lia).
  rewrite Hw. case_decide as Hg.
  - replace (e - (last_epoch (bits s) + 1)) with (Z.of_nat (Z.to_nat (e - last_epoch (bits s) - 1))) by lia.
    replace (e - last_epoch (bits s) - 1) with (Z.of_nat (Z.to_nat (e - last_epoch (bits s) - 1))) at 2 by lia.
    rewrite gap_calls by lia. done.
  - replace (e - last_epoch (bits s) - 1) with 0 by lia. done.
Qed.

Lemma count_gap_last be avoid cp k : ∀ i s s',
  last_epoch (bits s) = i - 1 → count_gap be avoid cp s (seqZ i (Z.of_nat k)) = Some s' →
  last_epoch (bits s') = i + Z.of_nat k - 1.
Proof.
  induction k as [|k IH]; intros i s s' Hl; [by intros [= <-]; lia|].
  rewrite seqZ_cons by lia. replace (Z.pred (Z.of_nat (S k))) with (Z.of_nat k) by lia.
  unfold count_gap. rewrite foldl_bind_cons. intros (s1 & Hc & Hr)%bind_Some.
  apply count_epoch_last in Hc. apply IH in Hr; lia.
Qed.

(** A block after a gap is counted as if every epoch of the gap had a block
    that signals nothing, each through the same code; this needs no deeper
    recursion than the two levels of [update_bit_counter]. *)
Theorem empty_epochs_signal_nothing fuel v e be avoid cp s :
  0 < last_epoch (bits s) < e → e < U32 →
  update_rec (S (S fuel)) v e be avoid cp s = update_bit_counter v e be avoid cp s
  ∧ update_bit_counter v e be avoid cp s
    = s' ← foldl (λ acc i, s ← acc; update_bit_counter 0 i be avoid cp s) (Some s)
             (seqZ (last_epoch (bits s) + 1) (e - last_epoch (bits s) - 1));
      update_bit_counter v e be avoid cp s'.
Proof.
  intros Hl He. split; [unfold update_bit_counter; by rewrite !update_gap|].
  unfold update_bit_counter. rewrite (update_gap 0) by done.
  remember (last_epoch (bits s) + 1) as i eqn:Hi.
  remember (Z.to_nat (e - i)) as k eqn:Hk. replace (e - last_epoch (bits s) - 1) with (Z.of_nat k) by lia.
  rewrite gap_calls by lia.
  destruct (count_gap be avoid cp s (seqZ i (Z.of_nat k))) as [s'|] eqn:Hg; [|done].
  apply count_gap_last in Hg; [|lia]. cbn [mbind option_bind].
  rewrite update_gap by lia. by replace (e - last_epoch (bits s') - 1) with 0 by lia.
Qed.

(** ** A whole period *)

Definition gap_steps (be : Z) (avoid : gset string) (n : nat) (x : BitVotesCounter * option Z) (l : list Z) :
    BitVotesCounter * option Z :=
  foldl (λ x i, bit_step 0 i be avoid n x) x l.

Lemma gap_steps_app be avoid n x l k : gap_steps be avoid n x (l ++ k) = gap_steps be avoid n (gap_steps be avoid n x l) k.
Proof. apply foldl_app. Qed.
Lemma gap_steps_cons be avoid n x i l : gap_steps be avoid n x (i :: l) = gap_steps be avoid n (bit_step 0 i be avoid n x) l.
Proof. done. Qed.

Lemma count_gap_tracked be avoid cp n l : ∀ s x,
  tracked n s x → ∃ s', count_gap be avoid cp s l = Some s' ∧ tracked n s' (gap_steps be avoid n x l).
Proof.
  induction l as [|i l IH]; intros s x Hx; [by exists s|].
  unfold count_gap. rewrite foldl_bind_cons.
  destruct (count_epoch_spec 0 i be avoid cp s n x Hx) as (s1 & Hc & _ & H1). rewrite Hc. cbn [mbind option_bind].
  apply IH, H1.
Qed.

Lemma update_tracked v e be avoid cp n s x :
  tracked n s x → 0 < last_epoch (bits s) < e → e < U32 →
  ∃ s', update_bit_counter v e be avoid cp s = Some s' ∧ last_epoch (bits s') = e
    ∧ tracked n s' (bit_step v e be avoid n
        (gap_steps be avoid n x (seqZ (last_epoch (bits s) + 1) (e - last_epoch (bits s) - 1)))).
Proof.
  intros Hx Hl He. unfold update_bit_counter. rewrite update_gap by done.
  destruct (count_gap_tracked be avoid cp n (seqZ (last_epoch (bits s) + 1) (e - last_epoch (bits s) - 1)) s x Hx) as (s1 & Hg & H1). rewrite Hg. cbn [mbind option_bind].
  apply count_epoch_spec, H1.
Qed.

Definition signal (v : Z) (n : nat) : Z := if is_bit_n_activated v n then 1 else 0.
(** The blocks that signal for the bit. *)
Definition signals (n : nat) (blocks : list (Z * Z)) : Z := zsum ((λ ev, signal ev.2 n) <$> blocks).

Section period.
Context (avoid : gset string) (cp : Z) (n : nat) (b : BitVotesCounter) (e0 : Z).
Let P := period b.
(** [e0] ends a period of a proposal whose votes are counted. *)
Hypothesis Hinit : 0 ≤ init b ≤ e0.
Hypothesis Hperiod : 0 < P.
Hypothesis Hclose : (e0 - init b) mod P = 0.
Hypothesis Havoid : wip b ∉ avoid.

Lemma period_end i : e0 ≤ i → ((i - init b) mod P = 0 ↔ (i - e0) mod P = 0).
Proof.
  intros Hi. replace (i - init b) with ((i - e0) + (e0 - init b)) by lia.
  rewrite <-Zplus_mod_idemp_r, Hclose, Z.add_0_r. done.
Qed.

Lemma inside_no_end q i : 0 ≤ q → e0 + q * P < i < e0 + (q + 1) * P → (i - init b) mod P ≠ 0.
Proof.
  intros Hq Hi. rewrite period_end by nia. replace (i - e0) with (i - e0 - q * P + q * P) by lia.
  rewrite Z_mod_plus_full, Z.mod_small by lia. lia.
Qed.

Lemma step_inside v i be k :
  (i - init b) mod P ≠ 0 → init b ≤ i < U32 → 0 ≤ k < U32 - 1 →
  bit_step v i be avoid n (set_votes b k, None)
  = (if decide (i < bv_end b) then set_votes b (k + signal v n) else set_votes b k, None).
Proof.
  intros Hi Hr Hk. unfold bit_step, signal. simpl.
  destruct (decide (i < bv_end b)); [rewrite decide_True by lia|by rewrite decide_False by lia].
  rewrite decide_False by (intros [[]|]; done).
  assert (wsub U32 i (init b) = i - init b) as Hs by (apply wsub_small; lia).
  destruct (is_bit_n_activated v n); simpl; rewrite Hs, decide_False by done.
  - by rewrite wadd_small by lia.
  - by rewrite Z.add_0_r.
Qed.

Lemma step_end v be k :
  e0 + P < bv_end b → e0 + P < U32 → P * 100 < U32 → 0 ≤ k < P →
  bit_step v (e0 + P) be avoid n (set_votes b k, None)
  = (set_votes b 0, if decide (80 * P ≤ 100 * (k + signal v n)) then Some (wadd U32 be 21) else None).
Proof.
  intros He Hu Hp Hk. unfold bit_step. simpl. rewrite decide_True by lia. rewrite decide_False by (intros [[]|]; done).
  assert (wsub U32 (e0 + P) (init b) = e0 + P - init b) as Hs by (apply wsub_small; lia).
  assert ((e0 + P - init b) mod P = 0) as Hm.
  { apply period_end; [lia|]. replace (e0 + P - e0) with P by lia. by apply Z_mod_same_full. }
  set (b1 := if is_bit_n_activated v n then _ else _).
  assert (b1 = set_votes b (k + signal v n)) as ->.
  { unfold b1, signal. destruct (is_bit_n_activated v n); simpl; [|by rewrite Z.add_0_r].
    by rewrite wadd_small by lia. }
  simpl. rewrite Hs, decide_True by done. f_equal.
  assert (0 ≤ signal v n ≤ 1) by (unfold signal; case_match; lia).
  assert (wmul U32 (k + signal v n) 100 = (k + signal v n) * 100) as -> by (apply wmul_small; lia).
  assert (80 ≤ (k + signal v n) * 100 / P ↔ 80 * P ≤ 100 * (k + signal v n)) as Hiff.
  { split; intros H1; [pose proof (Z.mul_div_le ((k + signal v n) * 100) P); nia|apply Z.div_le_lower_bound; lia]. }
  by apply decide_ext.
Qed.

Lemma step_scheduled v i be x a : wip x = wip b → bit_step v i be avoid n (x, Some a) = (x, Some a).
Proof. intros _. unfold bit_step. case_decide; [|done]. by rewrite decide_True by (left; by eexists). Qed.

Lemma signal_0 : signal 0 n = 0.
Proof. unfold signal, is_bit_n_activated. by rewrite bool_decide_eq_false_2; [|rewrite Z.land_0_l; intros []]. Qed.

(** A gap inside a period changes nothing. *)
Lemma gap_inside q be k j c :
  0 ≤ q → e0 + q * P < j → j + Z.of_nat c ≤ e0 + (q + 1) * P → j + Z.of_nat c ≤ U32 → 0 ≤ k < U32 - 1 →
  gap_steps be avoid n (set_votes b k, None) (seqZ j (Z.of_nat c)) = (set_votes b k, None).
Proof.
  revert j. induction c as [|c IH]; intros j Hq Hj Hc Hu Hk; [done|].
  rewrite seqZ_cons by lia. replace (Z.pred (Z.of_nat (S c))) with (Z.of_nat c) by lia.
  unfold gap_steps. simpl. rewrite step_inside by (try apply (inside_no_end q); nia).
  rewrite signal_0, Z.add_0_r. destruct (decide _); apply IH; lia.
Qed.

Lemma gap_scheduled be x a l : wip x = wip b → gap_steps be avoid n (x, Some a) l = (x, Some a).
Proof. intros Hx. induction l as [|i l IH]; [done|]. unfold gap_steps. simpl. by rewrite step_scheduled. Qed.

Lemma signal_bounds v : 0 ≤ signal v n ≤ 1.
Proof. unfold signal. case_match; lia. Qed.

Lemma count_blocks_cons ev bs s :
  count_blocks avoid cp (ev :: bs) s = s' ← update_bit_counter ev.2 ev.1 ev.1 avoid cp s; count_blocks avoid cp bs s'.
Proof. apply (foldl_bind_cons (λ ev s, update_bit_counter ev.2 ev.1 ev.1 avoid cp s)). Qed.
Lemma count_blocks_app bs1 bs2 s :
  count_blocks avoid cp (bs1 ++ bs2) s = s' ← count_blocks avoid cp bs1 s; count_blocks avoid cp bs2 s'.
Proof.
  revert s. induction bs1 as [|ev bs1 IH]; intros s; [done|].
  simpl. rewrite !count_blocks_cons. destruct (update_bit_counter _ _ _ _ _ s); [apply IH|done].
Qed.

(** One block inside the period. *)
Lemma block_inside v e s k :
  tracked n s (set_votes b k, None) → e0 ≤ last_epoch (bits s) < e → 0 < e0 → e < e0 + P → e0 + P < bv_end b →
  bv_end b ≤ U32 → 0 ≤ k ≤ last_epoch (bits s) - e0 →
  ∃ s', update_bit_counter v e e avoid cp s = Some s' ∧ last_epoch (bits s') = e
    ∧ tracked n s' (set_votes b (k + signal v n), None).
Proof.
  intros Ht Hl H0 He Hend Hu Hk.
  destruct (update_tracked v e e avoid cp n s _ Ht) as (s' & Hup & Hlast & Ht'); [lia..|].
  exists s'. split; [done|]. split; [done|].
  replace (e - last_epoch (bits s) - 1) with (Z.of_nat (Z.to_nat (e - last_epoch (bits s) - 1))) in Ht' by lia.
  rewrite (gap_inside 0), step_inside in Ht' by (try apply (inside_no_end 0); lia).
  by rewrite decide_True in Ht' by lia.
Qed.

Lemma blocks_inside bs : ∀ s k,
  tracked n s (set_votes b k, None) → 0 < e0 ≤ last_epoch (bits s) → last_epoch (bits s) < e0 + P → e0 + P < bv_end b →
  bv_end b ≤ U32 → 0 ≤ k ≤ last_epoch (bits s) - e0 →
  StronglySorted Z.lt (last_epoch (bits s) :: bs.*1) → Forall (λ ev, ev.1 < e0 + P) bs →
  ∃ s', count_blocks avoid cp bs s = Some s' ∧ tracked n s' (set_votes b (k + signals n bs), None)
    ∧ last_epoch (bits s') < e0 + P ∧ 0 ≤ k + signals n bs ≤ last_epoch (bits s') - e0
    ∧ last_epoch (bits s') ∈ last_epoch (bits s) :: bs.*1.
Proof.
  induction bs as [|[e v] bs IH]; intros s k Ht H0 Hl Hend Hu Hk Hs Hb.
  { exists s. unfold signals. simpl. rewrite Z.add_0_r. split_and!; try done; try lia. set_solver. }
  apply StronglySorted_inv in Hs as [Hs Hlt]. apply Forall_cons in Hlt as [Hlt _], Hb as [Hb1 Hb]. simpl in *.
  destruct (block_inside v e s k) as (s1 & Hup & Hlast & Ht1); [done|lia..|].
  rewrite count_blocks_cons. simpl. rewrite Hup. cbn [mbind option_bind].
  pose proof (signal_bounds v). rewrite <-Hlast in Hs.
  destruct (IH s1 (k + signal v n)) as (s' & Hc & Ht' & Hl' & Hk' & Hlast'); [done|lia..|done|done|].
  exists s'. rewrite Hlast in Hlast'.
  assert (k + signals n ((e, v) :: bs) = k + signal v n + signals n bs) as -> by (unfold signals; rewrite zsum_cons; cbn [snd]; lia).
  split; [done|]. split; [done|]. split_and!; [lia..|set_solver].
Qed.

(** The block that closes the period: at its last epoch, or after a gap that
    holds it. *)
Lemma block_closes v e s k :
  tracked n s (set_votes b k, None) → e0 ≤ last_epoch (bits s) → last_epoch (bits s) < e0 + P → 0 < e0 →
  e0 + P ≤ e < e0 + 2 * P → e + 21 < U32 → e0 + P < bv_end b → P * 100 < U32 → 0 ≤ k ≤ last_epoch (bits s) - e0 →
  ∃ s', update_bit_counter v e e avoid cp s = Some s'
    ∧ activation s' (wip b)
      = (if decide (80 * P ≤ 100 * (k + if decide (e = e0 + P) then signal v n else 0)) then Some (e + 21) else None)
    ∧ counter s' n = Some (Some (set_votes b
        (if decide (activation s' (wip b) = None ∧ e0 + P < e < bv_end b) then signal v n else 0))).
Proof.
  intros Ht Hl1 Hl2 H0 He Hu Hend Hp Hk. remember (last_epoch (bits s)) as l eqn:Hl.
  destruct (update_tracked v e e avoid cp n s _ Ht) as (s' & Hup & _ & Ht'); [lia..|].
  exists s'. split; [done|]. rewrite <-Hl in Ht'.
  assert (tr_wip : ∀ x, tracked n s' x → wip x.1 = wip b → activation s' (wip b) = x.2 ∧ counter s' n = Some (Some x.1))
    by (intros x [_ _ _ [Hx Ha]] <-; done).
  destruct (decide (e = e0 + P)) as [->|Hne].
  - replace (e0 + P - l - 1) with (Z.of_nat (Z.to_nat (e0 + P - l - 1))) in Ht' by lia.
    rewrite (gap_inside 0), step_end in Ht' by lia. apply tr_wip in Ht' as [-> ->]; [|done]. simpl.
    rewrite wadd_small by lia. split; [done|]. by rewrite (decide_False (P := _ ∧ _)) by lia.
  - replace (e - l - 1) with (Z.of_nat (Z.to_nat (e0 + P - l - 1)) + (1 + Z.of_nat (Z.to_nat (e - e0 - P - 1)))) in Ht' by lia.
    rewrite seqZ_app in Ht' by lia. replace (l + 1 + Z.of_nat (Z.to_nat (e0 + P - l - 1))) with (e0 + P) in Ht' by lia.
    rewrite (seqZ_cons (e0 + P)) in Ht' by lia.
    rewrite gap_steps_app, gap_steps_cons, (gap_inside 0), step_end, signal_0 in Ht' by lia.
    replace (Z.pred (1 + Z.of_nat (Z.to_nat (e - e0 - P - 1)))) with (Z.of_nat (Z.to_nat (e - e0 - P - 1))) in Ht' by lia.
    case_decide as H80.
    + rewrite gap_scheduled, step_scheduled in Ht' by done. apply tr_wip in Ht' as [-> ->]; [|done]. simpl.
      rewrite wadd_small by lia. by split.
    + rewrite (gap_inside 1), step_inside in Ht' by (try apply (inside_no_end 1); lia).
      apply tr_wip in Ht' as [-> ->]; [|by case_decide]. split; [done|]. cbn [fst snd]. rewrite Z.add_0_l.
      destruct (decide (e < bv_end b)); [by rewrite (decide_True (P := _ ∧ _)) by (split; [done|lia])|by rewrite (decide_False (P := _ ∧ _)) by lia].
Qed.
End period.

Lemma filter_all {A} (Q : A → Prop) `{!∀ x, Decision (Q x)} l : Forall Q l → filter Q l = l.
Proof. induction 1; [done|]. by rewrite filter_cons_True; f_equal. Qed.

Lemma signals_app n bs1 bs2 : signals n (bs1 ++ bs2) = signals n bs1 + signals n bs2.
Proof. unfold signals. by rewrite fmap_app, zsum_app. Qed.

(** C31. A vote over one whole period: blocks at increasing epochs after the end
    [e0] of the previous period, the last of them the first at or after the end of
    this one, schedule the proposal exactly when the blocks of the period that
    signal for its bit are at least 80% of the epochs of the period, counting
    epochs without a block as epochs that do not signal; the activation is 21
    epochs after the block that closed the period.  The votes of the period are
    forgotten: the counter is back at zero, but for the signal of a closing block
    that lies after the end of the period, which counts for the next period when
    the proposal was not scheduled. *)
Theorem period_vote_exact avoid cp n b e0 s bs e v :
  tracked n s (b, None) → wip b ∉ avoid → votes b = 0 →
  0 ≤ init b ≤ e0 → 0 < period b → period b * 100 < U32 → (e0 - init b) mod period b = 0 →
  e0 + period b < bv_end b → bv_end b ≤ U32 →
  last_epoch (bits s) = e0 → 0 < e0 →
  StronglySorted Z.lt (e0 :: (bs ++ [(e, v)]).*1) → Forall (λ ev, ev.1 < e0 + period b) bs →
  e0 + period b ≤ e < e0 + 2 * period b → e + 21 < U32 →
  ∃ s', count_blocks avoid cp (bs ++ [(e, v)]) s = Some s'
    ∧ activation s' (wip b)
      = (if decide (80 * period b ≤ 100 * signals n (filter (λ ev, ev.1 ≤ e0 + period b) (bs ++ [(e, v)])))
        then Some (e + 21) else None)
    ∧ counter s' n = Some (Some (set_votes b
        (if decide (activation s' (wip b) = None ∧ e0 + period b < e < bv_end b) then signal v n else 0))).
Proof.
  intros Ht Hav Hv Hi Hp Hp1 Hc Hend Hu Hl H0 Hs Hb He Hu2.
  assert (b = set_votes b 0) as Hb0 by (destruct b; simpl in *; by subst). rewrite Hb0 in Ht.
  rewrite fmap_app, app_comm_cons in Hs. 
  pose proof (StronglySorted_app_1_l _ _ _ Hs) as Hs1. rewrite <-Hl in Hs1.
  destruct (blocks_inside avoid cp n b e0 Hi Hp Hc Hav bs s 0) as (s1 & Hc1 & Ht1 & Hl1 & Hk1 & Hin); [done|lia..|done|done|].
  rewrite count_blocks_app, Hc1. cbn [mbind option_bind]. rewrite count_blocks_cons. cbn [fst snd].
  destruct (block_closes avoid cp n b e0 Hi Hp Hc Hav v e s1 (0 + signals n bs)) as (s' & Hup & Ha & Hcn); [done|lia..|].
  exists s'. rewrite Hup. split; [done|]. split; [|done]. rewrite Ha.
  rewrite filter_app, signals_app, (filter_all _ bs) by (eapply Forall_impl; [done|]; simpl; lia).
  rewrite filter_cons, filter_nil. cbn [fst]. rewrite Z.add_0_l. apply decide_ext.
  destruct (decide (e = e0 + period b)) as [->|Hne];
    [rewrite decide_True by lia|rewrite decide_False by lia]; unfold signals; simpl; lia.
Qed.

(** ** The table of counters *)

(** Counters are at their own bits and have periods, and [current_length] is one
    more than the highest bit with a counter. *)
Record table_ok (t : BitTapiCounter) : Prop := {
  tb_size : length (info t) = 32%nat;
  tb_bit : ∀ i b, info t !! i = Some (Some b) → bit b = i ∧ 0 < period b;
  tb_below : ∀ i b, info t !! i = Some (Some b) → (i < current_length t)%nat;
  tb_top : current_length t = 0%nat ∨ ∃ b, info t !! (current_length t - 1)%nat = Some (Some b);
}.

Lemma table_default : table_ok bits_default.
Proof.
  split; simpl; try done; [intros i b H..|by left].
  all: by apply (lookup_replicate_1 32 (None : option BitVotesCounter)) in H as [H _].
Qed.

Lemma bits_insert_ok t b : table_ok t → 0 < period b → table_ok (bits_insert t b).
Proof.
  intros [Hs Hb Hl Ht] Hp. unfold bits_insert. case_decide as Hk; [done|].
  split; simpl; [by rewrite length_insert| | |].
  - intros i b'. rewrite list_lookup_insert. case_decide; [intros [= <-]; naive_solver|apply Hb].
  - intros i b'. rewrite list_lookup_insert. case_decide as Hi.
    + intros _. destruct Hi as [<- _]. case_decide; lia.
    + intros Hi'%Hl. case_decide; lia.
  - right. case_decide as Hc.
    + exists b. replace (S (bit b) - 1)%nat with (bit b) by lia. apply list_lookup_insert_eq. lia.
    + destruct Ht as [Ht|[b' Hb']]; [lia|]. destruct (decide (bit b = current_length t - 1)%nat) as [<-|Hne].
      * exists b. apply list_lookup_insert_eq. lia.
      * exists b'. by rewrite list_lookup_insert_ne.
Qed.

(** The fold of [update_current_length] finds the last counter. *)
Lemma highest_counter (l : list (option BitVotesCounter)) :
  (∀ i b, l !! i = Some (Some b) → bit b = i) →
  let len := foldl (λ len (o : option BitVotesCounter), match o with Some b => S (bit b) | None => len end) 0%nat l in
  (∀ i b, l !! i = Some (Some b) → i < len)%nat ∧ (len = 0%nat ∨ ∃ b, l !! (len - 1)%nat = Some (Some b)).
Proof.
  induction l as [|o l IH] using rev_ind; intros Hb; simpl; [by split; [|left]|].
  rewrite foldl_app. simpl. destruct IH as [Hlt Htop].
  { intros i b Hi. by apply Hb, lookup_app_l_Some. }
  destruct o as [b|].
  - assert (bit b = length l) as -> by (by apply (Hb (length l) b), list_lookup_middle).
    split; [|right; exists b; simpl; rewrite Nat.sub_0_r; by apply list_lookup_middle].
    intros i b' Hi%lookup_lt_Some. rewrite length_app in Hi. simpl in Hi. lia.
  - split.
    + intros i b [Hi|[_ Hi]]%lookup_app_Some; [by apply Hlt in Hi|].
      by destruct (i - length l)%nat.
    + destruct Htop as [Htop|[b Hb']]; [by left|right; exists b]. by apply lookup_app_l_Some.
Qed.

Lemma bits_remove_ok t n : table_ok t → table_ok (bits_remove t n).
Proof.
  intros [Hs Hb Hl Ht]. unfold bits_remove. case_decide as Hk; [done|]. simpl.
  assert (∀ i b, <[n:=None]> (info t) !! i = Some (Some b) → i ≠ n ∧ info t !! i = Some (Some b)) as Hinv.
  { intros i b. rewrite list_lookup_insert. case_decide as Hd; [done|]. intros Hi. split; [|done]. intros ->.
    apply Hd. split; [done|]. lia. }
  assert (∀ i b, <[n:=None]> (info t) !! i = Some (Some b) → bit b = i ∧ 0 < period b) as Hb'
    by (intros i b Hi; apply Hinv in Hi as [_ Hi]; by apply Hb).
  case_decide as Hc.
  - destruct (highest_counter (<[n:=None]> (info t))) as [Hlt Htop]; [by intros i b Hi; apply Hb' in Hi as [? _]|].
    split; simpl; [by rewrite length_insert|done..].
  - split; simpl; [by rewrite length_insert|done| |].
    + intros i b Hi. apply Hinv in Hi as [_ Hi]. by apply Hl in Hi.
    + destruct Ht as [Ht|[b Htop]]; [by left|right; exists b]. rewrite list_lookup_insert_ne; [done|].
      intros ->. apply Hb in Htop as Hbit. assert (current_length t ≠ 0%nat) by (intros H0; apply Hl in Htop; lia). lia.
Qed.

(** ** Initialization *)

Lemma bits_contains_spec t i w : bits_contains t i w = true ↔ no_votes <$> info t !! i = Some (Some w).
Proof.
  unfold bits_contains, no_votes. destruct (info t !! i) as [[b|]|]; simpl; [|split; congruence..].
  rewrite bool_decide_eq_true. split; congruence.
Qed.

Definition votable (ws : list (option BitVotesCounter)) : Prop :=
  ∀ i w, ws !! i = Some (Some w) → bit w = i ∧ votes w = 0 ∧ 0 < period w.

(** What the assessment of a bit does to the table. *)
Record assessed (i : nat) (o : option BitVotesCounter) (t t' : BitTapiCounter) : Prop := {
  as_table : table_ok t';
  as_last : last_epoch t' = last_epoch t;
  as_other : ∀ j, j ≠ i → info t' !! j = info t !! j;
  as_bit : no_votes <$> info t' !! i = Some o;
  as_kept : no_votes <$> info t !! i = Some o → info t' !! i = info t !! i;
  as_fresh : ∀ w, o = Some w → bits_contains t i w = false → info t' !! i = Some o;
}.

Lemma assess_wip_spec t r act i o :
  table_ok t → (i < 32)%nat → (∀ w, o = Some w → bit w = i ∧ votes w = 0 ∧ 0 < period w) →
  assessed i o t (assess_wip (t, r) act i o).1.
Proof.
  intros Ht Hi Ho. destruct r as [m old]. pose proof (tb_size t Ht) as Hsize. destruct o as [w|]; simpl.
  - destruct (Ho w) as (Hw & Hv & Hp); [done|]. destruct (bits_contains t i w) eqn:Hc; simpl.
    { split; try done; [by apply bits_contains_spec in Hc|]. intros w' [= <-]. by rewrite Hc. }
    split; simpl; [by apply bits_insert_ok|..]; unfold bits_insert; rewrite decide_False by lia; simpl; [done|..].
    + intros j Hj. apply list_lookup_insert_ne. congruence.
    + rewrite Hw, list_lookup_insert_eq by lia. simpl. unfold no_votes. simpl. destruct w; simpl in *. by subst.
    + intros Hk. by apply bits_contains_spec in Hk; rewrite Hc in Hk.
    + intros w' _ _. by rewrite Hw, list_lookup_insert_eq by lia.
  - assert (info (bits_remove t i) = <[i:=None]> (info t)) as Hinfo
      by (unfold bits_remove; rewrite decide_False by lia; by case_decide).
    split; [by apply bits_remove_ok| | | | |done]; rewrite ?Hinfo.
    + unfold bits_remove. rewrite decide_False by lia. by case_decide.
    + intros j Hj. by apply list_lookup_insert_ne.
    + by rewrite list_lookup_insert_eq by lia.
    + intros Hk. rewrite list_lookup_insert_eq by lia. destruct (info t !! i) as [[]|]; simpl in Hk; congruence.
Qed.

#[local] Arguments assess_wip : simpl never.

Record assessed_all (ws : list (option BitVotesCounter)) (t t' : BitTapiCounter) : Prop := {
  aa_table : table_ok t';
  aa_last : last_epoch t' = last_epoch t;
  aa_rest : ∀ j, (length ws ≤ j)%nat → info t' !! j = info t !! j;
  aa_bits : ∀ j o, ws !! j = Some o → no_votes <$> info t' !! j = Some o;
  aa_kept : ∀ j o, ws !! j = Some o → no_votes <$> info t !! j = Some o → info t' !! j = info t !! j;
  aa_fresh : ∀ j w, ws !! j = Some (Some w) → bits_contains t j w = false → info t' !! j = Some (Some w);
}.

Lemma assess_all ws t r act :
  table_ok t → (length ws ≤ 32)%nat → votable ws →
  assessed_all ws t (foldl (λ acc iw, assess_wip acc act iw.1 iw.2) (t, r) (imap pair ws)).1.
Proof.
  intros Ht. induction ws as [|o ws IH] using rev_ind; intros Hlen Hws; [by split|].
  rewrite length_app in Hlen. simpl in Hlen.
  destruct IH as [Ht1 Hl1 Hr1 Hb1 Hk1 Hf1]; [lia|intros i w Hi; by apply Hws, lookup_app_l_Some|].
  rewrite imap_app, foldl_app. simpl. rewrite Nat.add_0_r.
  destruct (foldl _ (t, r) (imap pair ws)) as [t1 r1]. simpl in *.
  assert (∀ w, o = Some w → bit w = length ws ∧ votes w = 0 ∧ 0 < period w) as Ho
    by (intros w ->; apply (Hws (length ws)); by apply list_lookup_middle).
  destruct (assess_wip_spec t1 r1 act (length ws) o) as [Ht2 Hl2 Hr2 Hb2 Hk2 Hf2]; [done|lia|done|].
  split; [done|by rewrite Hl2| | | |].
  - intros j Hj. rewrite length_app in Hj. simpl in Hj. rewrite Hr2 by lia. apply Hr1. lia.
  - intros j o' [Hj|[Hj Ho']]%lookup_app_Some.
    + rewrite Hr2; [by apply Hb1|]. apply lookup_lt_Some in Hj. lia.
    + apply list_lookup_singleton_Some in Ho' as [Hj' ->]. by replace j with (length ws) by lia.
  - intros j o' [Hj|[Hj Ho']]%lookup_app_Some Hold.
    + rewrite Hr2; [by apply (Hk1 j o')|]. apply lookup_lt_Some in Hj. lia.
    + apply list_lookup_singleton_Some in Ho' as [Hj' ->]. replace j with (length ws) in * by lia.
      rewrite <-(Hr1 (length ws)) in Hold |- * by done. by apply Hk2.
  - intros j w [Hj|[Hj Ho']]%lookup_app_Some Hold.
    + rewrite Hr2; [by apply Hf1|]. apply lookup_lt_Some in Hj. lia.
    + apply list_lookup_singleton_Some in Ho' as [Hj' ->]. replace j with (length ws) in * by lia.
      apply (Hf2 w); [done|]. unfold bits_contains in *. by rewrite Hr1.
Qed.

Lemma voting_wips_length environment : length (voting_wips environment) = 32%nat.
Proof. unfold voting_wips. by rewrite length_insert, length_replicate. Qed.
Lemma voting_wips_votable environment : votable (voting_wips environment).
Proof.
  intros i w. unfold voting_wips. rewrite list_lookup_insert. case_decide as Hi.
  - intros [= <-]. destruct Hi as [<- _]. by destruct environment.
  - intros [H _]%lookup_replicate_1. done.
Qed.

Lemma same_skeleton (l l' : list (option BitVotesCounter)) :
  length l' = length l → (∀ j o, l !! j = Some o → no_votes <$> l' !! j = Some o) → no_votes <$> l' = l.
Proof.
  intros Hlen Hl. apply list_eq. intros j. rewrite list_lookup_fmap.
  destruct (l !! j) as [o|] eqn:Hj; [by apply Hl|]. apply lookup_ge_None in Hj.
  by rewrite lookup_ge_None_2 by lia.
Qed.

Definition initialized (s : TapiState) (environment : Environment) : TapiState :=
  MkTapi (initialize_wip_information (engine s) environment).1 (protocol s) (chain_protocol s).

Lemma initialize_bits e environment :
  bit_tapi_counter (initialize_wip_information e environment).1
  = (foldl (λ acc iw, assess_wip acc (hardcoded_wips environment ∪ wip_activation e) iw.1 iw.2)
       (bit_tapi_counter e, (U32 - 1, ∅)) (imap pair (voting_wips environment))).1.
Proof. unfold initialize_wip_information. by destruct (foldl _ _ _). Qed.
Lemma initialize_activation e environment :
  wip_activation (initialize_wip_information e environment).1 = hardcoded_wips environment ∪ wip_activation e.
Proof. unfold initialize_wip_information. by destruct (foldl _ _ _). Qed.

Lemma initialized_activation s environment w :
  activation (initialized s environment) w
  = match hardcoded_wips environment !! w with Some epoch => Some epoch | None => activation s w end.
Proof.
  unfold activation, initialized. cbn [engine]. rewrite initialize_activation, lookup_union.
  generalize (hardcoded_wips environment !! w) (wip_activation (engine s) !! w). by intros [] [].
Qed.

Lemma initialized_assessed s environment :
  table_ok (bits s) → assessed_all (voting_wips environment) (bits s) (bits (initialized s environment)).
Proof.
  intros Ht. unfold initialized, bits. cbn [engine]. rewrite initialize_bits.
  apply assess_all; [done| |apply voting_wips_votable].
  by rewrite voting_wips_length.
Qed.

#[local] Opaque initialize_wip_information voting_wips hardcoded_wips.

(** Block counting keeps the table. *)
Lemma table_shape t t' :
  no_votes <$> info t' = no_votes <$> info t → current_length t' = current_length t → table_ok t → table_ok t'.
Proof.
  intros Hs Hc [Hsize Hb Hl Ht].
  assert (length (info t') = length (info t)) as Hlen by (rewrite <-(length_fmap no_votes), Hs; apply length_fmap).
  assert (∀ u u' i b, no_votes <$> info u' = no_votes <$> info u → info u' !! i = Some (Some b) →
    ∃ b0, info u !! i = Some (Some b0) ∧ set_votes b 0 = set_votes b0 0) as Hback.
  { intros u u' i b Heq Hi. assert ((no_votes <$> info u') !! i = Some (Some (set_votes b 0))) as H1
      by (by rewrite list_lookup_fmap, Hi).
    rewrite Heq, list_lookup_fmap in H1. destruct (info u !! i) as [[b0|]|]; simpl in H1; try done. exists b0. split; congruence. }
  split; [congruence| | |].
  - intros i b Hi. destruct (Hback t t' i b Hs Hi) as (b0 & Hi0 & Heq). apply Hb in Hi0 as [Hbit Hp].
    injection Heq as Hp' _ _ _ Hbit'. split; [congruence|lia].
  - intros i b Hi. destruct (Hback t t' i b Hs Hi) as (b0 & Hi0 & _). rewrite Hc. by apply Hl in Hi0.
  - rewrite Hc. destruct Ht as [Ht|[b Hi]]; [by left|right].
    destruct (Hback t' t _ b (eq_sym Hs) Hi) as (b0 & Hi0 & _). by exists b0.
Qed.

Definition keeps (s s' : TapiState) : Prop :=
  skeleton s' = skeleton s ∧ current_length (bits s') = current_length (bits s).

Lemma keeps_trans s1 s2 s3 : keeps s1 s2 → keeps s2 s3 → keeps s1 s3.
Proof. intros [] []. split; congruence. Qed.

Lemma table_sane s : table_ok (bits s) → sane s.
Proof. intros Ht n b Hb. by apply (tb_bit _ Ht n b). Qed.

Lemma count_epoch_keeps v e be avoid cp s :
  table_ok (bits s) → ∃ s', count_epoch v e be avoid cp s = Some s' ∧ keeps s s' ∧ table_ok (bits s').
Proof.
  intros Ht. destruct (count_bits_other v e be avoid cp (seq 0 (bits_len (bits s))) s (table_sane s Ht)) as (s' & Hr & [Hs Hc _] & _).
  unfold count_epoch. fold (bits s). unfold count_bits in Hr. rewrite Hr. simpl. eexists. split; [done|].
  assert (keeps s (with_bits s' (MkBits (info (bits s')) e (current_length (bits s'))))) as Hk by (by split).
  split; [exact Hk|]. destruct Hk as [Hk1 Hk2]. by apply (table_shape (bits s)).
Qed.

Lemma count_gap_keeps be avoid cp l : ∀ s,
  table_ok (bits s) → ∃ s', count_gap be avoid cp s l = Some s' ∧ keeps s s' ∧ table_ok (bits s').
Proof.
  induction l as [|i l IH]; intros s Ht; [by exists s|]. unfold count_gap. rewrite foldl_bind_cons.
  destruct (count_epoch_keeps 0 i be avoid cp s Ht) as (s1 & Hc & Hk & Ht1). rewrite Hc. cbn [mbind option_bind].
  destruct (IH s1 Ht1) as (s' & Hg & Hk' & Ht'). exists s'. split; [exact Hg|]. split; [by eapply keeps_trans|done].
Qed.

Lemma update_keeps v e be avoid cp s :
  table_ok (bits s) → 0 ≤ last_epoch (bits s) < U32 - 1 → e < U32 →
  ∃ s', update_bit_counter v e be avoid cp s = Some s' ∧ keeps s s' ∧ table_ok (bits s').
Proof.
  intros Ht Hl He. unfold update_bit_counter. destruct (decide (0 < last_epoch (bits s) < e)) as [Hg|Hg].
  - rewrite update_gap by lia.
    destruct (count_gap_keeps be avoid cp (seqZ (last_epoch (bits s) + 1) (e - last_epoch (bits s) - 1)) s Ht)
      as (s1 & Hc & Hk & Ht1).
    rewrite Hc. cbn [mbind option_bind]. destruct (count_epoch_keeps v e be avoid cp s1 Ht1) as (s' & Hc' & Hk' & Ht').
    exists s'. split; [done|]. split; [by eapply keeps_trans|done].
  - rewrite update_rec_S, decide_False by (rewrite wadd_small by lia; lia). by apply count_epoch_keeps.
Qed.

Inductive tapi_reachable : TapiState → Prop :=
| tapi_start p cp : tapi_reachable (MkTapi engine_default p cp)
| tapi_initialize s environment : tapi_reachable s → tapi_reachable (initialized s environment)
| tapi_block s s' v e avoid cp :
    tapi_reachable s → 0 ≤ e < U32 - 1 → update_bit_counter v e e avoid cp s = Some s' → tapi_reachable s'.

Lemma update_last v e be avoid cp s s' : update_bit_counter v e be avoid cp s = Some s' → last_epoch (bits s') = e.
Proof. unfold update_bit_counter. rewrite update_rec_S. intros (s1 & _ & H)%bind_Some. by apply count_epoch_last in H. Qed.

(** C40. In every reachable engine the table is empty or holds, up to votes, exactly
    the proposals of some environment at their bits, [current_length] covers
    exactly the occupied bits, and the next block is counted without a panic. *)
Theorem tapi_reachable_table s :
  tapi_reachable s →
  table_ok (bits s)
  ∧ (skeleton s = replicate 32 None ∨ ∃ environment, skeleton s = voting_wips environment)
  ∧ (∀ v e avoid cp, e < U32 → is_Some (update_bit_counter v e e avoid cp s)).
Proof.
  intros Hr.
  assert (table_ok (bits s) ∧ 0 ≤ last_epoch (bits s) < U32 - 1
    ∧ (skeleton s = replicate 32 None ∨ ∃ environment, skeleton s = voting_wips environment)) as (Ht & Hl & Hs).
  { induction Hr as [p cp|s environment Hr (Ht & Hl & Hs)|s s' v e avoid cp Hr (Ht & Hl & Hs) He Hu].
    - split; [apply table_default|]. split; [done|by left].
    - destruct (initialized_assessed s environment Ht) as [Ht' Hl' _ Hb' _ _]. split; [done|]. split; [by rewrite Hl'|].
      right. exists environment. apply same_skeleton; [|done].
      by rewrite (tb_size _ Ht'), voting_wips_length.
    - destruct (update_keeps v e e avoid cp s Ht) as (s1 & Hu' & [Hk _] & Ht'); [done|lia|].
      assert (s1 = s') as -> by congruence. split; [done|]. rewrite (update_last _ _ _ _ _ _ _ Hu), Hk. done. }
  split; [done|]. split; [done|]. intros v e avoid cp He.
  destruct (update_keeps v e e avoid cp s Ht) as (s1 & Hu' & _); [done..|by eexists].
Qed.

(** Initialization puts the proposals of the environment in the table and keeps the
    votes of those that were already being voted; the hard-coded activations
    replace what was recorded, and other activations stay. *)
Theorem initialize_installs_proposals s environment :
  table_ok (bits s) →
  let s' := initialized s environment in
  skeleton s' = voting_wips environment
  ∧ last_epoch (bits s') = last_epoch (bits s)
  ∧ (∀ j w, voting_wips environment !! j = Some (Some w) →
       counter s' j = if bits_contains (bits s) j w then counter s j else Some (Some w))
  ∧ (∀ w, activation s' w
       = match hardcoded_wips environment !! w with
         | Some epoch => Some epoch
         | None => activation s w
         end).
Proof.
  intros Ht s'. destruct (initialized_assessed s environment Ht) as [Ht' Hl' _ Hb' Hk' Hf'].
  split; [|split; [done|split]].
  - apply same_skeleton; [|done]. fold s' in Ht'. rewrite (tb_size _ Ht').
    by rewrite voting_wips_length.
  - intros j w Hj. destruct (bits_contains (bits s) j w) eqn:Hc.
    + apply bits_contains_spec in Hc. exact (Hk' j (Some w) Hj Hc).
    + exact (Hf' j w Hj Hc).
  - intros w. apply initialized_activation.
Qed.

(** ** Concrete votes *)

Definition demo_counter : BitVotesCounter := MkCounter 0 5 "demo" 10 1000 0.
Definition demo_tapi : TapiState :=
  MkTapi (MkEngine (MkBits (Some demo_counter :: replicate 31 None) 15 1) ∅) protocol_default protocol_default.

Lemma demo_counters n b : counter demo_tapi n = Some (Some b) → n = 0%nat ∧ b = demo_counter.
Proof.
  destruct n as [|n]; unfold counter; cbn [demo_tapi engine bit_tapi_counter info]; [by intros [= <-]|].
  rewrite lookup_cons. by intros [H _]%lookup_replicate_1.
Qed.
Lemma demo_tracked : tracked 0 demo_tapi (demo_counter, None).
Proof.
  split; [by intros n b [_ ->]%demo_counters|vm_compute; lia|by intros m b Hm [-> _]%demo_counters|by split].
Qed.

Lemma empty_epochs_signal_nothing_witness :
  0 < last_epoch (bits demo_tapi) < 25
  ∧ update_rec 7 1 25 25 ∅ 45 demo_tapi = update_bit_counter 1 25 25 ∅ 45 demo_tapi.
Proof.
  assert (0 < last_epoch (bits demo_tapi) < 25) as Hl by done. split; [exact Hl|].
  exact (proj1 (empty_epochs_signal_nothing 5 1 25 25 ∅ 45 demo_tapi Hl eq_refl)).
Defined.

(** Four blocks of five signal, and the period closes in a gap. *)
Lemma period_vote_exact_witness :
  ∃ s', count_blocks ∅ 45 [(16, 1); (17, 1); (18, 1); (19, 3); (22, 0)] demo_tapi = Some s'
    ∧ activation s' "demo" = Some 43 ∧ counter s' 0 = Some (Some demo_counter).
Proof.
  destruct (period_vote_exact ∅ 45 0 demo_counter 15 demo_tapi [(16, 1); (17, 1); (18, 1); (19, 3)] 22 0 demo_tracked)
    as (s' & Hs' & Ha & Hc); try done;
    [..|exists s'; split; [exact Hs'|]; split; [exact Ha|]; rewrite Ha in Hc; exact Hc].
  - apply Sorted_StronglySorted; [typeclasses eauto|]. by repeat constructor.
  - by repeat constructor.
Defined.

Lemma tapi_reachable_table_witness :
  table_ok (bits (initialized (MkTapi engine_default protocol_default protocol_default) Mainnet)).
Proof. apply tapi_reachable_table. apply tapi_initialize, tapi_start. Defined.

Lemma initialize_installs_proposals_witness :
  table_ok bits_default
  ∧ skeleton (initialized (MkTapi engine_default protocol_default protocol_default) Mainnet) = voting_wips Mainnet.
Proof.
  split; [apply table_default|].
  apply (initialize_installs_proposals (MkTapi engine_default protocol_default protocol_default) Mainnet table_default).
Defined.
