(* ===== verification/Rad.v ===== *)
(** * Data request scripts

    Models the [RADRequest] types of data_structures/src/chain/mod.rs: the
    retrieval sources with the check of their fields, the filters, and the
    weights that enforce the block size limit.  Weights are [u32] values
    computed with saturating additions; [request_weight_exact] shows that they are the
    exact size cut at [u32::MAX]. *)

From stdpp Require Import base tactics numbers list gmap strings.
From Stdlib Require Import ZArith Lia.
From S2P Require Import Prelude.
Local Open Scope Z_scope.

(** ** Data *)

Inductive RADType := RadUnknown | HttpGet | Rng | HttpPost | HttpHead.
#[export] Instance RADType_eq_dec : EqDecision RADType.
Proof. solve_decision. Defined.

Definition is_http (k : RADType) : bool :=
  match k with HttpGet | HttpPost | HttpHead => true | _ => false end.

Record RADRetrieve := {
  kind : RADType;
  url : string;
  script : list Z;
  body : list Z;
  headers : list (string * string);
}.
Record RADFilter := { op : Z; args : list Z }.
Record RADAggregate := { agg_filters : list RADFilter; agg_reducer : Z }.
Record RADTally := { tally_filters : list RADFilter; tally_reducer : Z }.
Record RADRequest := {
  rad_time_lock : Z;
  retrieve : list RADRetrieve;
  aggregate : RADAggregate;
  rad_tally : RADTally;
}.

Inductive Field := FKind | FUrl | FScript | FBody | FHeaders.
#[export] Instance Field_eq_dec : EqDecision Field.
Proof. solve_decision. Defined.
#[export] Instance Field_countable : Countable Field.
Proof.
  apply (inj_countable'
    (λ f, match f with FKind => 0%nat | FUrl => 1%nat | FScript => 2%nat | FBody => 3%nat | FHeaders => 4%nat end)
    (λ n, match n with O => FKind | 1%nat => FUrl | 2%nat => FScript | 3%nat => FBody | _ => FHeaders end)).
  by intros [].
Defined.

Inductive RadError :=
  | MalformedRetrieval (k : RADType) (expected_fields actual_fields : string)
  | InvalidRadType
  | NoRetrievalSources.

(** ** Fields of a retrieval source *)

Definition field_name (f : Field) : string :=
  match f with FKind => "kind" | FUrl => "url" | FScript => "script" | FBody => "body" | FHeaders => "headers" end.

(** [hs_to_string]: the names in alphabetical order, joined by commas. *)
Definition hs_to_string (hs : gset Field) : string :=
  String.concat ", " (field_name <$> filter (λ f, f ∈ hs) [FBody; FHeaders; FKind; FScript; FUrl]).

Definition present_fields (r : RADRetrieve) : gset Field :=
  (if decide (kind r = RadUnknown) then ∅ else {[ FKind ]})
  ∪ (if decide (url r = EmptyString) then ∅ else {[ FUrl ]})
  ∪ (if decide (script r = []) then ∅ else {[ FScript ]})
  ∪ (if decide (body r = []) then ∅ else {[ FBody ]})
  ∪ (if decide (headers r = []) then ∅ else {[ FHeaders ]}).

(** The closure returned by [field_checker]. *)
Definition field_check (r : RADRetrieve) (expected_fields optional_fields : list Field) : result RadError unit :=
  let expected : gset Field := list_to_set expected_fields in
  let diff := present_fields r ∖ list_to_set optional_fields in
  if decide (diff = expected) then Ok tt
  else Err (MalformedRetrieval (kind r) (hs_to_string expected) (hs_to_string diff)).

Definition check_fields (r : RADRetrieve) : result RadError unit :=
  match kind r with
  | RadUnknown => Ok tt
  | HttpGet => field_check r [FKind; FUrl; FScript] [FHeaders]
  | Rng => field_check r [FKind; FScript] []
  | HttpPost => field_check r [FKind; FUrl; FScript] [FBody; FHeaders]
  | HttpHead => field_check r [FKind; FUrl; FScript] [FHeaders]
  end.

Definition check_fields_before_wip0020 (r : RADRetrieve) : result RadError unit :=
  match kind r with
  | RadUnknown => Ok tt
  | HttpGet => field_check r [FKind; FUrl; FScript] []
  | Rng => field_check r [FKind; FScript] [FUrl]
  | _ => Err InvalidRadType
  end.

(** ** Weights *)

(** [u32::try_from(len).unwrap_or(u32::MAX)]. *)
Definition len_u32 (n : nat) : Z := Z.min (U32 - 1) (Z.of_nat n).
Definition sat32 (a b : Z) : Z := sat_add U32 a b.

Definition retrieve_weight (r : RADRetrieve) : Z :=
  let headers_weight :=
    foldl (λ acc kv, sat32 (sat32 (sat32 acc (len_u32 (String.length kv.1))) (len_u32 (String.length kv.2))) 6)
      0 (headers r) in
  sat32 (sat32 (sat32 (sat32 (len_u32 (length (script r))) (len_u32 (String.length (url r)))) 1)
           (len_u32 (length (body r)))) headers_weight.

Definition filter_weight (f : RADFilter) : Z := sat32 (len_u32 (length (args f))) 4.
Definition filters_weight (fs : list RADFilter) : Z := foldl (λ acc f, sat32 acc (filter_weight f)) 0 fs.
Definition aggregate_weight (a : RADAggregate) : Z := sat32 (filters_weight (agg_filters a)) 4.
Definition tally_script_weight (t : RADTally) : Z := sat32 (filters_weight (tally_filters t)) 4.

Definition request_weight (r : RADRequest) : Z :=
  let retrievals_weight := foldl (λ acc i, sat32 acc (retrieve_weight i)) 0 (retrieve r) in
  sat32 (sat32 (sat32 retrievals_weight (aggregate_weight (aggregate r))) (tally_script_weight (rad_tally r))) 8.

(** ** Exact sizes *)

Definition cap (x : Z) : Z := Z.min (U32 - 1) x.

Definition header_size (kv : string * string) : Z :=
  Z.of_nat (String.length kv.1) + Z.of_nat (String.length kv.2) + 6.
Definition retrieve_size (r : RADRetrieve) : Z :=
  Z.of_nat (length (script r)) + Z.of_nat (String.length (url r)) + 1 + Z.of_nat (length (body r))
  + zsum (header_size <$> headers r).
Definition filter_size (f : RADFilter) : Z := Z.of_nat (length (args f)) + 4.
Definition filters_size (fs : list RADFilter) : Z := zsum (filter_size <$> fs).
(** The size of a request: 8 bytes of time lock, the sources, and two scripts of
    4 bytes and their filters. *)
Definition request_size (r : RADRequest) : Z :=
  zsum (retrieve_size <$> retrieve r) + (filters_size (agg_filters (aggregate r)) + 4)
  + (filters_size (tally_filters (rad_tally r)) + 4) + 8.

Lemma sat32_cap a b : 0 ≤ a → 0 ≤ b → sat32 (cap a) (cap b) = cap (a + b).
Proof. unfold sat32, sat_add, cap. intros. machine. Qed.

Lemma cap_small a : 0 ≤ a < U32 → cap a = a.
Proof. unfold cap. machine. Qed.

(** A saturating fold is the cut sum. *)
Lemma sat32_fold {A} (f g : A → Z) (l : list A) acc :
  (∀ x, x ∈ l → f x = cap (g x) ∧ 0 ≤ g x) → 0 ≤ acc →
  foldl (λ acc x, sat32 acc (f x)) (cap acc) l = cap (acc + zsum (g <$> l)).
Proof.
  revert acc. induction l as [|x l IH]; intros acc Hl Ha; [simpl; f_equal; lia|].
  rewrite zsum_cons. simpl foldl. destruct (Hl x) as [-> Hg]; [apply elem_of_cons; by left|].
  rewrite sat32_cap by lia. rewrite IH by (lia || intros y Hy; apply Hl, elem_of_cons; by right). f_equal. lia.
Qed.

Lemma zsum_fmap_nonneg {A} (g : A → Z) (l : list A) : (∀ x, 0 ≤ g x) → 0 ≤ zsum (g <$> l).
Proof. intros Hg. apply zsum_nonneg, Forall_fmap, Forall_forall. intros x _. apply Hg. Qed.

Lemma header_size_nonneg kv : 0 ≤ header_size kv.
Proof. unfold header_size. lia. Qed.
Lemma filter_size_nonneg f : 0 ≤ filter_size f.
Proof. unfold filter_size. lia. Qed.
Lemma retrieve_size_nonneg r : 0 ≤ retrieve_size r.
Proof. unfold retrieve_size. pose proof (zsum_fmap_nonneg header_size (headers r) header_size_nonneg). lia. Qed.

Lemma headers_weight_cap hs : ∀ acc, 0 ≤ acc →
  foldl (λ acc kv, sat32 (sat32 (sat32 acc (len_u32 (String.length kv.1))) (len_u32 (String.length kv.2))) 6) (cap acc) hs
  = cap (acc + zsum (header_size <$> hs)).
Proof.
  induction hs as [|kv hs IH]; intros acc Ha; [simpl; f_equal; lia|]. simpl foldl.
  change (len_u32 (String.length kv.1)) with (cap (Z.of_nat (String.length kv.1))).
  change (len_u32 (String.length kv.2)) with (cap (Z.of_nat (String.length kv.2))).
  assert (∀ x, sat32 x 6 = sat32 x (cap 6)) as H6 by done. rewrite H6, !sat32_cap by lia.
  rewrite IH by lia. rewrite zsum_cons. f_equal. unfold header_size. lia.
Qed.

Lemma retrieve_weight_cap r : retrieve_weight r = cap (retrieve_size r).
Proof.
  unfold retrieve_weight. cbv zeta. change 0 with (cap 0) at 1. rewrite (headers_weight_cap (headers r) 0) by lia.
  pose proof (zsum_fmap_nonneg header_size (headers r) header_size_nonneg).
  change (len_u32 (length (script r))) with (cap (Z.of_nat (length (script r)))).
  change (len_u32 (String.length (url r))) with (cap (Z.of_nat (String.length (url r)))).
  change (len_u32 (length (body r))) with (cap (Z.of_nat (length (body r)))).
  assert (∀ x, sat32 x 1 = sat32 x (cap 1)) as H1 by done. rewrite H1, !sat32_cap by lia.
  f_equal.
Qed.

Lemma filters_weight_cap fs : filters_weight fs = cap (filters_size fs).
Proof.
  unfold filters_weight. change 0 with (cap 0).
  rewrite (sat32_fold filter_weight filter_size); [done| |lia].
  intros f _. split; [|apply filter_size_nonneg]. unfold filter_weight, filter_size.
  change (len_u32 (length (args f))) with (cap (Z.of_nat (length (args f)))).
  assert (∀ x, sat32 x 4 = sat32 x (cap 4)) as H4 by done. by rewrite H4, sat32_cap by lia.
Qed.

(** The weight of a data request is its exact size in the weight formula,
    cut at the largest [u32]: the order of the saturating additions does not
    matter and nothing wraps around. *)
Theorem request_weight_exact r : request_weight r = Z.min (U32 - 1) (request_size r).
Proof.
  unfold request_weight. change 0 with (cap 0).
  rewrite (sat32_fold retrieve_weight retrieve_size);
    [|intros x _; split; [apply retrieve_weight_cap|apply retrieve_size_nonneg]|done].
  unfold aggregate_weight, tally_script_weight. rewrite !filters_weight_cap.
  pose proof (zsum_fmap_nonneg retrieve_size (retrieve r) retrieve_size_nonneg).
  assert (∀ fs, 0 ≤ filters_size fs) as Hfs by (intros fs; apply zsum_fmap_nonneg, filter_size_nonneg).
  pose proof (Hfs (agg_filters (aggregate r))). pose proof (Hfs (tally_filters (rad_tally r))).
  assert (∀ x, sat32 x 4 = sat32 x (cap 4)) as H4 by done. assert (∀ x, sat32 x 8 = sat32 x (cap 8)) as H8 by done.
  rewrite (H4 (cap (filters_size (agg_filters (aggregate r))))), (H4 (cap (filters_size (tally_filters (rad_tally r))))), H8.
  rewrite !sat32_cap by lia. unfold request_size, cap. done.
Qed.
