(* ===== verification/Transaction.v ===== *)
(** * Transactions

    Models the transaction types of data_structures/src/transaction.rs with the
    outputs, inputs and pointers of data_structures/src/chain/mod.rs and the
    claims of data_structures/src/vrf.rs, their values and their weights.  A
    transaction record inlines the fields of its body; the memoized hash of a
    body is a cache outside of equality and is not a field. *)

From stdpp Require Import base tactics numbers list countable.
From Stdlib Require Import ZArith Lia.
From S2P Require Import Prelude Hashes Stake Superblock Rad Versioning.
Local Open Scope Z_scope.
Local Open Scope rust_scope.

(** ** Data *)

Record OutputPointer := MkPointer { transaction_id : Hash; output_index : Z }.
#[export] Instance OutputPointer_eq_dec : EqDecision OutputPointer.
Proof. solve_decision. Defined.
#[export] Instance OutputPointer_countable : Countable OutputPointer.
Proof.
  apply (inj_countable' (λ o, (transaction_id o, output_index o)) (λ '(t, i), MkPointer t i)). by intros [].
Defined.

Record Input := MkInput { output_pointer : OutputPointer }.

Record ValueTransferOutput := MkOutput { out_pkh : PublicKeyHash; out_value : Z; out_time_lock : Z }.
#[export] Instance ValueTransferOutput_eq_dec : EqDecision ValueTransferOutput.
Proof. solve_decision. Defined.

Record DataRequestOutput := {
  data_request : RADRequest;
  witness_reward : Z;
  witnesses : Z;
  commit_and_reveal_fee : Z;
  min_consensus_percentage : Z;
  dro_collateral : Z;
}.

(** [VrfProof] and [DataRequestEligibilityClaim]. *)
Record VrfProof := { vrf_proof : list Z; vrf_public_key : PublicKey }.
Record DataRequestEligibilityClaim := { claim_proof : VrfProof }.

Record StakeOutput := { authorization : KeyedSignature; so_key : StakeKey PublicKeyHash; so_value : Z }.

Record VTTransaction := MkVT {
  vt_inputs : list Input;
  vt_outputs : list ValueTransferOutput;
  vt_signatures : list KeyedSignature;
}.
Record DRTransaction := MkDR {
  d_inputs : list Input;
  d_outputs : list ValueTransferOutput;
  d_output : DataRequestOutput;
  d_signatures : list KeyedSignature;
}.
Record CommitTransaction := {
  c_dr_pointer : Hash;
  c_commitment : Hash;
  c_proof : DataRequestEligibilityClaim;
  c_collateral : list Input;
  c_outputs : list ValueTransferOutput;
  c_bn256_public_key : option (list Z);
  c_signatures : list KeyedSignature;
}.
Record RevealTransaction := {
  r_dr_pointer : Hash;
  r_reveal : list Z;
  r_pkh : PublicKeyHash;
  r_signatures : list KeyedSignature;
}.
Record TallyTransaction := MkTally {
  t_dr_pointer : Hash;
  t_tally : list Z;
  t_outputs : list ValueTransferOutput;
  t_out_of_consensus : list PublicKeyHash;
  t_error_committers : list PublicKeyHash;
}.
Record MintTransaction := MkMint { m_epoch : Z; m_outputs : list ValueTransferOutput }.
Record StakeTransaction := {
  s_inputs : list Input;
  s_output : StakeOutput;
  s_change : option ValueTransferOutput;
  s_signatures : list KeyedSignature;
}.
Record UnstakeTransaction := {
  u_operator : PublicKeyHash;
  u_withdrawal : ValueTransferOutput;
  u_fee : Z;
  u_nonce : Z;
  u_signature : KeyedSignature;
}.

Inductive Transaction :=
  | ValueTransfer (t : VTTransaction)
  | DataRequest (t : DRTransaction)
  | Commit (t : CommitTransaction)
  | Reveal (t : RevealTransaction)
  | Tally (t : TallyTransaction)
  | Mint (t : MintTransaction)
  | TxStake (t : StakeTransaction)
  | TxUnstake (t : UnstakeTransaction).

(** [TransactionError] of error.rs; the text of a failed verification is left out. *)
Inductive TransactionError :=
  | NotValidTransaction
  | FeeOverflow
  | InputValueOverflow
  | OutputValueOverflow
  | NegativeFee
  | OutputNotFound (output : OutputPointer)
  | DataRequestNotFound (hash : Hash)
  | TooManyWitnessesDataRequestNotFound (hash : Hash)
  | InvalidDataRequestPoe
  | ValidatorNotEligible (validator : PublicKeyHash)
  | DataRequestEligibilityDoesNotMeetTarget (vrf_hash target_hash : Hash)
  | InvalidTallyChange (change expected_change : Z)
  | InvalidReward (value expected_value : Z)
  | InvalidTallyValue (value expected_value : Z)
  | NoReward
  | InsufficientWitnesses
  | MismatchedConsensus (expected_tally miner_tally : list Z)
  | MismatchingSignaturesNumber (signatures_n inputs_n : Z)
  | VerifyTransactionSignatureFail (hash : Hash)
  | SignatureNotFound
  | PublicKeyHashMismatch (expected_pkh signature_pkh : PublicKeyHash)
  | CommitNotFound
  | RevealNotFound
  | MismatchedCommitment
  | NoInputs (tx_hash : Hash)
  | InputsInGenesis (inputs_n : nat)
  | NoOutputsInGenesis
  | ZeroValueOutput (tx_hash : Hash) (output_id : nat)
  | DishonestReward
  | MultipleRewards (pkh : PublicKeyHash)
  | WrongNumberOutputs (outputs expected_outputs : nat)
  | TimeLock (current expected : Z)
  | InvalidTimeLock (current expected : Z)
  | DuplicatedCommit (pkh : PublicKeyHash) (dr_pointer : Hash)
  | DuplicatedReveal (pkh : PublicKeyHash) (dr_pointer : Hash)
  | DuplicatedTally (dr_pointer : Hash)
  | NoTallyStage
  | InvalidMinConsensus (value : Z)
  | NoMoney (total_balance available_balance transaction_value : Z)
  | ZeroAmount
  | MismatchingOutOfConsensusCount (expected found : list PublicKeyHash)
  | MismatchingErrorCount (expected found : list PublicKeyHash)
  | InvalidCollateral (value min : Z)
  | NegativeCollateral (input_value output_value : Z)
  | IncorrectCollateral (expected found : Z)
  | CollateralNotMature (must_be_older_than found : Z) (output : OutputPointer)
  | CollateralPkhMismatch (output : OutputPointer) (output_pkh proof_pkh : PublicKeyHash)
  | UnqualifiedCommitter (committer : PublicKeyHash) (required current : Z)
  | SeveralCommitOutputs
  | ValueTransferWeightLimitExceeded (weight max_weight : Z)
  | DataRequestWeightLimitExceeded (weight max_weight : Z) (dr_output : DataRequestOutput)
  | StakeBelowMinimum (min_stake stake : Z)
  | StakeAboveMaximum (max_stake stake : Z)
  | UnstakingMoreThanStaked (stake unstake : Z)
  | UnstakeInvalidNonce (used current : Z)
  | ZeroValueStakeOutput (tx_hash : Hash)
  | NoStakeTransactionsAllowed
  | InvalidUnstakeSignature (signature withdrawal operator : PublicKeyHash)
  | InvalidUnstakeTimelock (time_lock unstaking_delay_seconds : Z)
  | NoStakeFound (validator withdrawer : PublicKeyHash)
  | CollateralBelowMinimumStake (collateral : Z) (validator : PublicKeyHash)
  | NoUnstakeTransactionsAllowed
  | RewardTooLow (reward_collateral_ratio required_reward_collateral_ratio : Z).

(** ** Values *)

Definition checked_total_value (dr : DataRequestOutput) : result TransactionError Z :=
  match checked_add U64 (witness_reward dr) (commit_and_reveal_fee dr) with
  | None => Err FeeOverflow
  | Some res =>
      match checked_add U64 res (commit_and_reveal_fee dr) with
      | None => Err FeeOverflow
      | Some res => ok_or (checked_mul U64 res (witnesses dr)) FeeOverflow
      end
  end.

(** The sum of the values of the outputs, wrapping in [u64]: the [reduce] of
    [VTTransactionBody::value] and [DRTransactionBody::value]. *)
Definition sum_outputs (os : list ValueTransferOutput) : Z :=
  match out_value <$> os with
  | [] => 0
  | v :: vs => foldl (wadd U64) v vs
  end.
Definition vt_value (t : VTTransaction) : Z := sum_outputs (vt_outputs t).
Definition dr_value (t : DRTransaction) : result TransactionError Z :=
  let? v := checked_total_value (d_output t) in Ok (wadd U64 v (sum_outputs (d_outputs t))).
Definition stake_value (t : StakeTransaction) : Z :=
  wadd U64 (so_value (s_output t)) (default 0 (out_value <$> s_change t)).
Definition unstake_value (t : UnstakeTransaction) : Z := out_value (u_withdrawal t).

(** [MintTransaction::with_external_address]. *)
Definition with_external_address (epoch reward : Z) (own_pkh : PublicKeyHash)
    (external_address : option PublicKeyHash) (external_percentage : Z) : MintTransaction :=
  let '(reward, external_reward, external_pkh) :=
    match external_address with
    | Some pkh =>
        let external_reward := sat_mul U64 reward external_percentage / 100 in
        (wsub U64 reward external_reward, external_reward, pkh)
    | None => (reward, 0, replicate 20 0)
    end in
  MkMint epoch
    ((if decide (reward > 0) then [MkOutput own_pkh reward 0] else [])
     ++ (if decide (external_reward > 0) then [MkOutput external_pkh external_reward 0] else [])).

(** ** Weights *)

Definition INPUT_SIZE : Z := 133.
Definition OUTPUT_SIZE : Z := 36.
Definition STAKE_OUTPUT_WEIGHT : Z := 105.
Definition UNSTAKE_TRANSACTION_WEIGHT : Z := 153.
Definition COMMIT_WEIGHT : Z := 400.
Definition REVEAL_WEIGHT : Z := 200.
Definition TALLY_WEIGHT : Z := 100.
Definition ALPHA : Z := 1.
Definition BETA : Z := 1.
Definition GAMMA : Z := 10.

(** [DataRequestOutput::weight] and [extra_weight]. *)
Definition dr_weight (dr : DataRequestOutput) : Z := sat_add U32 (request_weight (data_request dr)) (8 + 2 + 8 + 4 + 8).
Definition extra_weight (dr : DataRequestOutput) : Z :=
  let ws := witnesses dr in
  let commits_weight := sat_mul U32 ws COMMIT_WEIGHT in
  let reveals_weight := sat_mul U32 (sat_mul U32 ws REVEAL_WEIGHT) BETA in
  let tally_outputs_weight := sat_mul U32 ws OUTPUT_SIZE in
  let tally_weight := sat_add U32 (sat_mul U32 TALLY_WEIGHT BETA) tally_outputs_weight in
  sat_add U32 (sat_add U32 commits_weight reveals_weight) tally_weight.

Definition vt_weight (t : VTTransaction) : Z :=
  let inputs_weight := sat_mul U32 (len_u32 (length (vt_inputs t))) INPUT_SIZE in
  let outputs_weight := sat_mul U32 (sat_mul U32 (len_u32 (length (vt_outputs t))) OUTPUT_SIZE) GAMMA in
  sat_add U32 inputs_weight outputs_weight.
Definition dr_tx_weight (t : DRTransaction) : Z :=
  let dr_output_size := sat_mul U32 (dr_weight (d_output t)) ALPHA in
  let inputs_weight := sat_mul U32 (len_u32 (length (d_inputs t))) INPUT_SIZE in
  let outputs_weight := sat_mul U32 (len_u32 (length (d_outputs t))) OUTPUT_SIZE in
  sat_add U32 (sat_add U32 (sat_add U32 dr_output_size (extra_weight (d_output t))) inputs_weight) outputs_weight.
Definition stake_weight (t : StakeTransaction) : Z :=
  let inputs_weight := sat_mul U32 (len_u32 (length (s_inputs t))) INPUT_SIZE in
  let change_weight := match s_change t with Some _ => OUTPUT_SIZE | None => 0 end in
  sat_add U32 (sat_add U32 inputs_weight change_weight) STAKE_OUTPUT_WEIGHT.
Definition unstake_weight (t : UnstakeTransaction) : Z := UNSTAKE_TRANSACTION_WEIGHT.

(** [Transaction::weight]. *)
Definition transaction_weight (t : Transaction) : Z :=
  match t with
  | ValueTransfer t => vt_weight t
  | DataRequest t => dr_tx_weight t
  | _ => 0
  end.
