(* ===== verification/DataRequest.v ===== *)
(** * Data requests

    Models data_structures/src/data_request.rs and the data request types of
    data_structures/src/chain/mod.rs: the stage machine of one request, the pool
    of active requests, the value held by requests, and the tally transaction
    that pays the witnesses.

    The hashes of transactions are hashes of generated protocol-buffer bytes and
    are parameters, as is SHA-256.  The protocol version of an epoch, which the
    code reads from process-wide configuration, is an argument.  Loops over hash
    tables visit the entries in the order of [map_to_list] or [elements]; only
    the order of the returned lists depends on it. *)

From stdpp Require Import base tactics numbers list gmap sorting.
From Stdlib Require Import ZArith Lia.
From S2P Require Import Prelude Tapi Hashes Superblock Versioning Rad Transaction.
Local Open Scope Z_scope.
Local Open Scope rust_scope.

(** ** Data *)

Inductive DataRequestStage := COMMIT | REVEAL | TALLY.
#[export] Instance DataRequestStage_eq_dec : EqDecision DataRequestStage.
Proof. solve_decision. Defined.

Record DataRequestInfo := MkInfo {
  commits : gmap PublicKeyHash CommitTransaction;
  reveals : gmap PublicKeyHash RevealTransaction;
  info_tally : option TallyTransaction;
  block_hash_dr_tx : option Hash;
  block_hash_tally_tx : option Hash;
  current_commit_round : Z;
  current_reveal_round : Z;
  current_stage : option DataRequestStage;
}.

Record DataRequestState := MkRequest {
  request : DataRequestOutput;
  requester : PublicKeyHash;
  info : DataRequestInfo;
  stage : DataRequestStage;
  epoch : Z;
}.

(** The errors of the pool: those of [DataRequestError] and, since the methods
    return [failure::Error], those of [TransactionError]. *)
Inductive DataRequestError :=
  | AddCommitFail (block_hash tx_hash dr_pointer : Hash)
  | AddRevealFail (block_hash tx_hash dr_pointer : Hash)
  | AddTallyFail (block_hash tx_hash dr_pointer : Hash)
  | NotCommitStage
  | NotRevealStage
  | NotTallyStage
  | TransactionFailure (e : TransactionError).

(** ** The stage machine of one request *)

(** [DataRequestState::new]. *)
Definition state_new (dr : DataRequestOutput) (pkh : PublicKeyHash) (ep : Z) (block_hash : option Hash) :
    DataRequestState :=
  MkRequest dr pkh (MkInfo ∅ ∅ None block_hash None 0 0 (Some COMMIT)) COMMIT ep.

Definition with_info (st : DataRequestState) (i : DataRequestInfo) : DataRequestState :=
  MkRequest (request st) (requester st) i (stage st) (epoch st).

Definition state_add_commit (st : DataRequestState) (pkh : PublicKeyHash) (c : CommitTransaction) :
    result DataRequestError DataRequestState :=
  match stage st with
  | COMMIT =>
      let i := info st in
      Ok (with_info st (MkInfo (<[pkh := c]> (commits i)) (reveals i) (info_tally i) (block_hash_dr_tx i)
            (block_hash_tally_tx i) (current_commit_round i) (current_reveal_round i) (current_stage i)))
  | _ => Err NotCommitStage
  end.

Definition state_add_reveal (st : DataRequestState) (pkh : PublicKeyHash) (r : RevealTransaction) :
    result DataRequestError DataRequestState :=
  match stage st with
  | REVEAL =>
      let i := info st in
      Ok (with_info st (MkInfo (commits i) (<[pkh := r]> (reveals i)) (info_tally i) (block_hash_dr_tx i)
            (block_hash_tally_tx i) (current_commit_round i) (current_reveal_round i) (current_stage i)))
  | _ => Err NotRevealStage
  end.

Definition state_add_tally (st : DataRequestState) (t : TallyTransaction) (block_hash : Hash) :
    result DataRequestError DataRequestInfo :=
  match stage st with
  | TALLY =>
      let i := info st in
      Ok (MkInfo (commits i) (reveals i) (Some t) (block_hash_dr_tx i) (Some block_hash)
            (current_commit_round i) (current_reveal_round i) None)
  | _ => Err NotTallyStage
  end.

(** [set_stage] with the rounds left as they are. *)
Definition set_stage (st : DataRequestState) (s : DataRequestStage) : DataRequestState :=
  let i := info st in
  MkRequest (request st) (requester st)
    (MkInfo (commits i) (reveals i) (info_tally i) (block_hash_dr_tx i) (block_hash_tally_tx i)
       (current_commit_round i) (current_reveal_round i) (Some s)) s (epoch st).

Definition set_rounds (st : DataRequestState) (commit_round reveal_round : Z) : DataRequestState :=
  let i := info st in
  with_info st (MkInfo (commits i) (reveals i) (info_tally i) (block_hash_dr_tx i) (block_hash_tally_tx i)
                  commit_round reveal_round (current_stage i)).

(** [update_stage]; [None] is the panic on a request that has its tally.  Round
    counters are [u16]. *)
Definition update_stage (st : DataRequestState) (extra_rounds : Z) (too_many_witnesses : bool) :
    option DataRequestState :=
  let i := info st in
  match stage st with
  | COMMIT =>
      if decide (commits i = ∅) then
        if too_many_witnesses then Some (set_stage st TALLY)
        else if decide (current_commit_round i ≤ extra_rounds) then
          Some (set_stage (set_rounds st (wadd U16 (current_commit_round i) 1) (current_reveal_round i)) COMMIT)
        else Some (set_stage st TALLY)
      else Some (set_stage (set_rounds st (current_commit_round i) 1) REVEAL)
  | REVEAL =>
      if decide (Z.of_nat (size (reveals i)) < witnesses (request st) ∧ current_reveal_round i ≤ extra_rounds) then
        Some (set_stage (set_rounds st (current_commit_round i) (wadd U16 (current_reveal_round i) 1)) REVEAL)
      else Some (set_stage st TALLY)
  | TALLY =>
      match info_tally i with
      | None => Some (set_stage st TALLY)
      | Some _ => None
      end
  end.

(** [calculate_backup_witnesses], with the saturating power and product of
    [u16]. *)
Definition saturating_pow (w base exponent : Z) : Z := Z.min (w - 1) (base ^ exponent).
Definition calculate_backup_witnesses (ws commit_round : Z) : Z :=
  let exponent := sat_sub commit_round 1 in
  let coefficient := saturating_pow U16 2 exponent in
  sat_mul U16 ws coefficient / 2.
Definition backup_witnesses (st : DataRequestState) : Z :=
  calculate_backup_witnesses (witnesses (request st)) (current_commit_round (info st)).

(** ** Values *)

(** The collateral of a request: zero stands for the minimum. *)
Definition effective_collateral (dr : DataRequestOutput) (collateral_minimum : Z) : Z :=
  if decide (dro_collateral dr = 0) then collateral_minimum else dro_collateral dr.

Definition calculate_tally_change (commits_count reveals_count honests_count : Z) (dr : DataRequestOutput) : Z :=
  let ws := witnesses dr in
  wadd U64 (wadd U64 (wmul U64 (witness_reward dr) (wsub U64 ws honests_count))
              (wmul U64 (commit_and_reveal_fee dr) (wsub U64 ws reveals_count)))
    (wmul U64 (commit_and_reveal_fee dr) (wsub U64 ws commits_count)).

(** Witness rewards: the amount paid to an honest witness and the remainder of
    the division of the slashed collateral.  [None] is a division by zero. *)
Definition calculate_witness_reward_before_second_hard_fork
    (commits_count reveals_count liars_count errors_count reward collateral : Z) : option (Z * Z) :=
  if decide (commits_count = 0) then Some (0, 0)
  else if decide (reveals_count = 0) then Some (collateral, 0)
  else
    let honests_count := wsub U64 (wsub U64 commits_count liars_count) errors_count in
    if decide (honests_count = 0) then None
    else
      let slashed := wmul U64 collateral liars_count in
      Some (wadd U64 (wadd U64 reward collateral) (slashed / honests_count), slashed mod honests_count).

Definition calculate_witness_reward (commits_count liars_count errors_count reward collateral : Z)
    (wip0023_active : bool) : Z * Z :=
  let honests_count := wsub U64 (wsub U64 commits_count liars_count) errors_count in
  if decide (commits_count = 0) then (0, 0)
  else if decide (honests_count = 0) then (collateral, 0)
  else
    let slashed := wmul U64 collateral liars_count in
    if wip0023_active then (wadd U64 reward collateral, 0)
    else (wadd U64 (wadd U64 reward collateral) (slashed / honests_count), slashed mod honests_count).

Definition saturating_div_ceil (lhs rhs : Z) : Z :=
  if decide (rhs = 0) then U64 - 1
  else let d := lhs / rhs in
       let r := lhs mod rhs in
       if decide (r > 0) then wadd U64 d 1 else d.

Definition calculate_reward_collateral_ratio (collateral collateral_minimum reward : Z) : Z :=
  let dr_collateral := if decide (collateral = 0) then collateral_minimum else collateral in
  saturating_div_ceil dr_collateral reward.

Definition DEFAULT_VALIDATOR_COUNT_FOR_TESTS : nat := 1000.

Definition data_request_has_too_many_witnesses (dr : DataRequestOutput) (validator_count : nat)
    (version : ProtocolVersion) : bool :=
  if before_v2 version then false
  else bool_decide (Z.of_nat (validator_count / 4) < witnesses dr).

(** ** The tally *)

(** Out-of-consensus values and out-of-consensus errors, in this order. *)
Definition calculate_errors_and_liars_count (errors liars : list bool) : Z * Z :=
  foldl (λ le x, match x with
                 | (true, true) => (le.1, le.2 + 1)
                 | (true, false) => (le.1 + 1, le.2)
                 | _ => le
                 end) (0, 0) (zip liars errors).

(** One revealer in the loop of [create_tally] before version 2.0: the output it
    gets, the identities out of consensus and the error committers. *)
Definition tally_step (collateral reward : Z)
    (acc : list ValueTransferOutput * gset PublicKeyHash * list PublicKeyHash)
    (x : PublicKeyHash * (bool * bool)) :
    list ValueTransferOutput * gset PublicKeyHash * list PublicKeyHash :=
  let '(outputs, out_of_consensus, error_committers) := acc in
  let '(revealer, (liar, error)) := x in
  match liar, error with
  | true, true => (outputs ++ [MkOutput revealer collateral 0], out_of_consensus, error_committers ++ [revealer])
  | true, false => acc
  | false, true =>
      (outputs ++ [MkOutput revealer reward 0], out_of_consensus ∖ {[ revealer ]}, error_committers ++ [revealer])
  | false, false => (outputs ++ [MkOutput revealer reward 0], out_of_consensus ∖ {[ revealer ]}, error_committers)
  end.

(** The same loop from version 2.0 on, without outputs. *)
Definition tally_step_v2 (acc : gset PublicKeyHash * list PublicKeyHash) (x : PublicKeyHash * (bool * bool)) :
    gset PublicKeyHash * list PublicKeyHash :=
  let '(out_of_consensus, error_committers) := acc in
  let '(revealer, (liar, error)) := x in
  if liar && error then (out_of_consensus, error_committers ++ [revealer])
  else if liar && negb error then acc
  else if negb liar && error then (out_of_consensus ∖ {[ revealer ]}, error_committers ++ [revealer])
  else (out_of_consensus ∖ {[ revealer ]}, error_committers).

Record TallyMetaData := { errors : list bool; liars : list bool }.

(** [create_tally].  [metadata] is the metadata of the report, absent when it is
    not in tally stage, and [encoded] the bytes of its value, absent when it
    cannot be serialized; [None] is a panic. *)
Definition create_tally (dr_pointer : Hash) (dr : DataRequestOutput) (pkh : PublicKeyHash)
    (metadata : option TallyMetaData) (encoded : option (list Z)) (revealers : list PublicKeyHash)
    (committers : gset PublicKeyHash) (collateral_minimum : Z) (tally_bytes_on_encode_error : list Z)
    (active_wips : ActiveWips) (version : ProtocolVersion) : option TallyTransaction :=
  match metadata with
  | None => None
  | Some meta =>
      let commits_count := Z.of_nat (size committers) in
      let reveals_count := Z.of_nat (length revealers) in
      if negb (bool_decide (length revealers = length (liars meta))) then None
      else if negb (bool_decide (length revealers = length (errors meta))) then None
      else
        let '(liars_count, errors_count) := calculate_errors_and_liars_count (errors meta) (liars meta) in
        let collateral := effective_collateral dr collateral_minimum in
        let non_reveals_count := wsub U64 commits_count reveals_count in
        let after_second := wips_0009_0011_0012 active_wips in
        match
          (if after_second then
             Some (calculate_witness_reward commits_count (wadd U64 liars_count non_reveals_count) errors_count
                     (witness_reward dr) collateral (wip0023 active_wips))
           else
             calculate_witness_reward_before_second_hard_fork commits_count reveals_count
               (wadd U64 liars_count non_reveals_count) errors_count (witness_reward dr) collateral)
        with
        | None => None
        | Some (reward, _) =>
            let any_honest_revealers :=
              if after_second then
                bool_decide (wsub U64 (wsub U64 (wsub U64 commits_count liars_count) errors_count) non_reveals_count > 0)
              else bool_decide (reveals_count > 0) in
            let revealed := zip revealers (zip (liars meta) (errors meta)) in
            let '(outputs, out_of_consensus, error_committers) :=
              if before_v2 version then
                if any_honest_revealers then foldl (tally_step collateral reward) ([], committers, []) revealed
                else ((λ c, MkOutput c collateral 0) <$> elements committers, committers,
                      if after_second then revealers else [])
              else if any_honest_revealers then
                let '(ooc, ec) := foldl tally_step_v2 (committers, []) revealed in ([], ooc, ec)
              else ([], committers, if after_second then revealers else []) in
            let honests_count := wsub U64 (wsub U64 reveals_count liars_count) errors_count in
            let tally_change := calculate_tally_change commits_count reveals_count honests_count dr in
            let outputs :=
              if decide (tally_change > 0) then outputs ++ [MkOutput pkh tally_change 0] else outputs in
            Some (MkTally dr_pointer (default tally_bytes_on_encode_error encoded) outputs
                    (elements out_of_consensus) error_committers)
        end
  end.

(** ** The pool *)

Record DataRequestPool := MkPool {
  waiting_for_reveal : gmap Hash RevealTransaction;
  data_requests_by_epoch : gmap Z (gset Hash);
  data_request_pool : gmap Hash DataRequestState;
  to_be_stored : list DataRequestInfo;
  extra_rounds : Z;
}.

Section pool.
Context (calculate_sha256 : list Z → Hash).
Context (dr_hash : Z → DRTransaction → Hash) (commit_hash : Z → CommitTransaction → Hash).
Context (reveal_hash : Z → RevealTransaction → Hash) (tally_hash : TallyTransaction → Hash).

(** [DataRequestPool::new]. *)
Definition pool_new (extra : Z) : DataRequestPool := MkPool ∅ ∅ ∅ [] extra.

Definition with_requests (p : DataRequestPool) (m : gmap Hash DataRequestState) : DataRequestPool :=
  MkPool (waiting_for_reveal p) (data_requests_by_epoch p) m (to_be_stored p) (extra_rounds p).

(** The public key of the first signature. *)
Definition signer (sigs : list KeyedSignature) : option PublicKeyHash :=
  (λ s, pkh calculate_sha256 (public_key s)) <$> head sigs.

Definition get_dr_output_pointers_by_epoch (p : DataRequestPool) (ep : Z) : list Hash :=
  es ← btree_entries (data_requests_by_epoch p);
  if decide (es.1 ≤ ep) then elements es.2 else [].

Definition get_dr_output (p : DataRequestPool) (dr_pointer : Hash) : option DataRequestOutput :=
  request <$> data_request_pool p !! dr_pointer.

(** [concatenate_and_hash]. *)
Definition concatenate_and_hash (a b : list Z) : Hash := calculate_sha256 (a ++ b).

(** The key that orders the reveals of a request, and the order; the sort of the
    code is unstable, which matters only for equal keys. *)
Definition reveal_key (active_wips : ActiveWips) (dr_pointer : Hash) (r : RevealTransaction) : list Z :=
  if wip0019 active_wips then concatenate_and_hash (r_pkh r) dr_pointer else r_pkh r.
Definition reveal_before (active_wips : ActiveWips) (dr_pointer : Hash) (r1 r2 : RevealTransaction) : Prop :=
  bytes_le (reveal_key active_wips dr_pointer r1) (reveal_key active_wips dr_pointer r2).
#[export] Instance reveal_before_dec active_wips dr_pointer : RelDecision (reveal_before active_wips dr_pointer).
Proof. intros r1 r2. unfold reveal_before. apply _. Defined.
Definition sorted_reveals (active_wips : ActiveWips) (dr_pointer : Hash) (st : DataRequestState) : list RevealTransaction :=
  merge_sort (reveal_before active_wips dr_pointer) (map_to_list (reveals (info st))).*2.

Definition get_reveals (p : DataRequestPool) (dr_pointer : Hash) (active_wips : ActiveWips) : option (list RevealTransaction) :=
  sorted_reveals active_wips dr_pointer <$> data_request_pool p !! dr_pointer.

(** [version] is that of the epoch, [wit2_activation_epoch] that of version 2.0. *)
Definition get_all_reveals (p : DataRequestPool) (active_wips : ActiveWips) (validator_count : option nat)
    (version : ProtocolVersion) (wit2_activation_epoch : Z) : gmap Hash (list RevealTransaction) :=
  let count := default DEFAULT_VALIDATOR_COUNT_FOR_TESTS validator_count in
  map_imap (λ dr_pointer st,
    if decide (stage st = TALLY) then
      if bool_decide (wit2_activation_epoch ≤ epoch st) && data_request_has_too_many_witnesses (request st) count version
      then None else Some (sorted_reveals active_wips dr_pointer st)
    else None) (data_request_pool p).

Definition insert_reveal (p : DataRequestPool) (dr_pointer : Hash) (r : RevealTransaction) : DataRequestPool :=
  MkPool (<[dr_pointer := r]> (waiting_for_reveal p)) (data_requests_by_epoch p) (data_request_pool p)
    (to_be_stored p) (extra_rounds p).

Definition get_tally_ready_drs (p : DataRequestPool) : gset Hash :=
  dom (filter (λ hs, stage hs.2 = TALLY) (data_request_pool p)).

Definition add_data_request (p : DataRequestPool) (ep : Z) (dr : DRTransaction) (block_hash : option Hash) :
    exec DataRequestPool DataRequestError unit :=
  let h := dr_hash ep dr in
  match signer (d_signatures dr) with
  | None => Fail p (TransactionFailure SignatureNotFound)
  | Some pkh =>
      Ret (MkPool (waiting_for_reveal p)
             (<[ep := {[ h ]} ∪ default ∅ (data_requests_by_epoch p !! ep)]> (data_requests_by_epoch p))
             (<[h := state_new (d_output dr) pkh ep block_hash]> (data_request_pool p))
             (to_be_stored p) (extra_rounds p)) tt
  end.

Definition add_commit (p : DataRequestPool) (ep : Z) (pkh : PublicKeyHash) (c : CommitTransaction)
    (block_hash : Hash) : exec DataRequestPool DataRequestError unit :=
  match data_request_pool p !! c_dr_pointer c with
  | Some st =>
      match state_add_commit st pkh c with
      | Ok st' => Ret (with_requests p (<[c_dr_pointer c := st']> (data_request_pool p))) tt
      | Err e => Fail p e
      | Panic => Crash
      end
  | None => Fail p (AddCommitFail block_hash (commit_hash ep c) (c_dr_pointer c))
  end.

Definition add_reveal (p : DataRequestPool) (ep : Z) (pkh : PublicKeyHash) (r : RevealTransaction)
    (block_hash : Hash) : exec DataRequestPool DataRequestError unit :=
  match data_request_pool p !! r_dr_pointer r with
  | Some st =>
      match state_add_reveal st pkh r with
      | Ok st' => Ret (with_requests p (<[r_dr_pointer r := st']> (data_request_pool p))) tt
      | Err e => Fail p e
      | Panic => Crash
      end
  | None => Fail p (AddRevealFail block_hash (reveal_hash ep r) (r_dr_pointer r))
  end.

(** [resolve_data_request]: the request leaves the pool before its stage is
    checked. *)
Definition resolve_data_request (p : DataRequestPool) (t : TallyTransaction) (block_hash : Hash) :
    exec DataRequestPool DataRequestError DataRequestInfo :=
  match data_request_pool p !! t_dr_pointer t with
  | None => Fail p (AddTallyFail block_hash (tally_hash t) (t_dr_pointer t))
  | Some st =>
      lift_exec (with_requests p (delete (t_dr_pointer t) (data_request_pool p)))
        (state_add_tally st t block_hash)
  end.

Definition add_tally (p : DataRequestPool) (t : TallyTransaction) (block_hash : Hash) :
    exec DataRequestPool DataRequestError unit :=
  let! (p1, dr_info) := resolve_data_request p t block_hash in
  Ret (MkPool (waiting_for_reveal p1) (data_requests_by_epoch p1) (data_request_pool p1)
         (to_be_stored p1 ++ [dr_info]) (extra_rounds p1)) tt.

(** [hs.remove(..)] on the requests of an epoch, dropping the empty set. *)
Definition remove_by_epoch (m : gmap Z (gset Hash)) (ep : Z) (h : Hash) : gmap Z (gset Hash) :=
  match m !! ep with
  | Some hs =>
      let hs' := hs ∖ {[ h ]} in
      if decide (hs' = ∅) then delete ep m else <[ep := hs']> m
  | None => m
  end.

(** One request of [update_data_request_stages]: the pool after it and the
    reveal to send.  [None] is a panic. *)
Definition update_request (p : DataRequestPool) (dr_pointer : Hash) (st : DataRequestState)
    (validator_count : nat) (version : ProtocolVersion) : option (DataRequestPool * option RevealTransaction) :=
  let too_many := data_request_has_too_many_witnesses (request st) validator_count version in
  st' ← update_stage st (extra_rounds p) too_many;
  let requests := <[dr_pointer := st']> (data_request_pool p) in
  match stage st' with
  | REVEAL =>
      let by_epoch :=
        if decide (current_reveal_round (info st') = 1)
        then remove_by_epoch (data_requests_by_epoch p) (epoch st') dr_pointer
        else data_requests_by_epoch p in
      let p' := MkPool (waiting_for_reveal p) by_epoch requests (to_be_stored p) (extra_rounds p) in
      match waiting_for_reveal p !! dr_pointer with
      | Some transaction =>
          pk ← signer (r_signatures transaction);
          if bool_decide (is_Some (commits (info st') !! pk)) && negb (bool_decide (is_Some (reveals (info st') !! pk)))
          then Some (p', Some transaction)
          else Some (p', None)
      | None => Some (p', None)
      end
  | TALLY =>
      Some (MkPool (delete dr_pointer (waiting_for_reveal p))
              (remove_by_epoch (data_requests_by_epoch p) (epoch st') dr_pointer)
              requests (to_be_stored p) (extra_rounds p), None)
  | COMMIT =>
      Some (MkPool (waiting_for_reveal p) (data_requests_by_epoch p) requests (to_be_stored p) (extra_rounds p), None)
  end.

Fixpoint update_requests (p : DataRequestPool) (entries : list (Hash * DataRequestState))
    (validator_count : nat) (version : ProtocolVersion) : option (DataRequestPool * list RevealTransaction) :=
  match entries with
  | [] => Some (p, [])
  | (h, st) :: entries =>
      pr ← update_request p h st validator_count version;
      rest ← update_requests pr.1 entries validator_count version;
      Some (rest.1, option_list pr.2 ++ rest.2)
  end.

Definition update_data_request_stages (p : DataRequestPool) (validator_count : option nat)
    (version : ProtocolVersion) : option (DataRequestPool * list RevealTransaction) :=
  update_requests p (map_to_list (data_request_pool p))
    (default DEFAULT_VALIDATOR_COUNT_FOR_TESTS validator_count) version.

(** [process_commit], [process_reveal], [process_data_request] and
    [process_tally]; indexing the signatures may panic. *)
Definition process_commit (p : DataRequestPool) (c : CommitTransaction) (ep : Z) (block_hash : Hash) :
    exec DataRequestPool DataRequestError unit :=
  match signer (c_signatures c) with
  | Some pkh => add_commit p ep pkh c block_hash
  | None => Crash
  end.
Definition process_reveal (p : DataRequestPool) (r : RevealTransaction) (ep : Z) (block_hash : Hash) :
    exec DataRequestPool DataRequestError unit :=
  match signer (r_signatures r) with
  | Some pkh => add_reveal p ep pkh r block_hash
  | None => Crash
  end.
Definition process_data_request (p : DataRequestPool) (dr : DRTransaction) (ep : Z) (block_hash : option Hash) :
    exec DataRequestPool DataRequestError unit := add_data_request p ep dr block_hash.
Definition process_tally (p : DataRequestPool) (t : TallyTransaction) (block_hash : Hash) :
    exec DataRequestPool DataRequestError unit := add_tally p t block_hash.

Definition finished_data_requests (p : DataRequestPool) : DataRequestPool * list DataRequestInfo :=
  (MkPool (waiting_for_reveal p) (data_requests_by_epoch p) (data_request_pool p) [] (extra_rounds p),
   to_be_stored p).

(** The value locked by one request; [None] is the panic of [unwrap] on an
    overflow. *)
Definition locked_by_request (st : DataRequestState) (collateral_minimum : Z) : option Z :=
  match checked_total_value (request st) with
  | Ok total =>
      match stage st with
      | COMMIT => Some total
      | _ =>
          let n_commits := Z.of_nat (size (commits (info st))) in
          let n_reveals := Z.of_nat (size (reveals (info st))) in
          let fee := commit_and_reveal_fee (request st) in
          let collateralized := sat_mul U64 n_commits (effective_collateral (request st) collateral_minimum) in
          Some (sat_sub (sat_sub (sat_add U64 total collateralized) (sat_mul U64 n_commits fee))
                  (sat_mul U64 n_reveals fee))
      end
  | _ => None
  end.

Definition locked_wits_by_requests (p : DataRequestPool) (collateral_minimum : Z) : option Z :=
  foldl (λ acc hs, total ← acc; locked ← locked_by_request hs.2 collateral_minimum; Some (wadd U64 total locked))
    (Some 0) (map_to_list (data_request_pool p)).
End pool.
