(* ===== verification/DataRequestCorrect.v ===== *)
(** * Correctness of data requests

    Every request reaches the tally within a bounded number of stage updates;
    the pool offers for commitment exactly the requests in commit stage; the
    tally conserves value. *)

From stdpp Require Import base tactics numbers list gmap.
From Stdlib Require Import ZArith Lia.
From S2P Require Import Prelude Tapi Hashes Superblock Versioning Rad Transaction DataRequest.
Local Open Scope Z_scope.

(** ** Termination of the stage machine *)

(** What happens to a request: commits and reveals, which may be rejected, and
    stage updates. *)
Inductive event :=
  | EvCommit (pkh : PublicKeyHash) (c : CommitTransaction)
  | EvReveal (pkh : PublicKeyHash) (r : RevealTransaction)
  | EvUpdate (too_many_witnesses : bool).

Definition step_event (extra : Z) (st : DataRequestState) (ev : event) : option DataRequestState :=
  match ev with
  | EvCommit pkh c => match state_add_commit st pkh c with Ok st' => Some st' | Err _ => Some st | Panic => None end
  | EvReveal pkh r => match state_add_reveal st pkh r with Ok st' => Some st' | Err _ => Some st | Panic => None end
  | EvUpdate too_many => update_stage st extra too_many
  end.
Fixpoint run_events (extra : Z) (st : DataRequestState) (evs : list event) : option DataRequestState :=
  match evs with
  | [] => Some st
  | ev :: evs => st' ← step_event extra st ev; run_events extra st' evs
  end.
Definition is_update (ev : event) : bool := match ev with EvUpdate _ => true | _ => false end.
Definition updates (evs : list event) : Z := zsum ((λ ev, if is_update ev then 1 else 0) <$> evs).

(** The number of updates after which the request is in tally stage. *)
Definition updates_left (extra : Z) (st : DataRequestState) : Z :=
  match stage st with
  | COMMIT => (extra + 2 - current_commit_round (info st)) + (extra + 1)
  | REVEAL => extra + 2 - current_reveal_round (info st)
  | TALLY => 0
  end.

(** A request that is still in the pool. *)
Record live (extra : Z) (st : DataRequestState) : Prop := {
  live_tally : info_tally (info st) = None;
  live_stage : current_stage (info st) = Some (stage st);
  live_commit : stage st = COMMIT → 0 ≤ current_commit_round (info st) ≤ extra + 1;
  live_reveal : stage st = REVEAL → 1 ≤ current_reveal_round (info st) ≤ extra + 1;
}.

Lemma live_new extra dr pkh ep bh : 0 ≤ extra → live extra (state_new dr pkh ep bh).
Proof. intros. split; simpl; intros; done || lia. Qed.

Lemma update_live extra st too_many :
  0 ≤ extra < U16 - 1 → live extra st →
  ∃ st', update_stage st extra too_many = Some st' ∧ live extra st'
    ∧ (stage st = TALLY → stage st' = TALLY)
    ∧ (stage st' = TALLY ∨ updates_left extra st' < updates_left extra st).
Proof.
  intros Hex [Ht Hs Hc Hr]. unfold update_stage, updates_left. destruct (stage st) eqn:Est.
  - specialize (Hc eq_refl). case_decide as Hemp.
    + destruct too_many; [eexists; split; [done|]; split_and!; [by split|done|by left]|].
      case_decide as Hle.
      * eexists. split; [done|]. simpl. rewrite wadd_small by machine.
        split_and!; [|done|right; lia]. split; simpl; try done; intros; lia.
      * eexists. split; [done|]. split_and!; [by split|done|by left].
    + eexists. split; [done|]. split_and!; [|done|right; simpl; lia]. split; simpl; try done; intros; lia.
  - specialize (Hr eq_refl). case_decide as Hle.
    + eexists. split; [done|]. simpl. rewrite wadd_small by machine.
      split_and!; [|done|right; lia]. split; simpl; try done; intros; lia.
    + eexists. split; [done|]. split_and!; [by split|done|by left].
  - rewrite Ht. eexists. split; [done|]. split_and!; [by split|done|by left].
Qed.

(** Commits and reveals change neither the stage nor the rounds. *)
Lemma other_live extra st ev :
  is_update ev = false → live extra st →
  ∃ st', step_event extra st ev = Some st' ∧ live extra st' ∧ stage st' = stage st
    ∧ updates_left extra st' = updates_left extra st.
Proof.
  intros Hev Hl. destruct ev as [pkh c|pkh r|]; [| |done]; simpl.
  - unfold state_add_commit. destruct (stage st) eqn:Est; [|by exists st..].
    eexists. split; [done|]. destruct Hl as [H1 H2 H3 H4]. unfold updates_left. simpl. rewrite Est in *.
    split_and!; [split; simpl; rewrite ?Est; auto|done|done].
  - unfold state_add_reveal. destruct (stage st) eqn:Est; [by exists st| |by exists st].
    eexists. split; [done|]. destruct Hl as [H1 H2 H3 H4]. unfold updates_left. simpl. rewrite Est in *.
    split_and!; [split; simpl; rewrite ?Est; auto|done|done].
Qed.

Lemma updates_left_nonneg extra st : 0 ≤ extra → live extra st → 0 ≤ updates_left extra st.
Proof.
  intros Hex [_ _ Hc Hr]. unfold updates_left. destruct (stage st); [specialize (Hc eq_refl)|specialize (Hr eq_refl)|]; lia.
Qed.

Lemma updates_nonneg evs : 0 ≤ updates evs.
Proof. apply zsum_nonneg, Forall_fmap, Forall_forall. intros ev _. simpl. destruct (is_update ev); lia. Qed.

Lemma run_events_live extra evs : ∀ st,
  0 ≤ extra < U16 - 1 → live extra st →
  ∃ st', run_events extra st evs = Some st' ∧ live extra st'
    ∧ (stage st' = TALLY ∨ updates_left extra st' + updates evs ≤ updates_left extra st)
    ∧ (stage st = TALLY → stage st' = TALLY).
Proof.
  induction evs as [|ev evs IH]; intros st Hex Hl.
  { exists st. split_and!; try done. right. unfold updates. simpl. lia. }
  cbn [run_events]. unfold updates. rewrite zsum_cons. fold (updates evs). destruct (is_update ev) eqn:Hev.
  - destruct ev as [| |too_many]; [done..|]. simpl.
    destruct (update_live extra st too_many Hex Hl) as (st1 & -> & Hl1 & Htt & Hdec). simpl.
    destruct (IH st1 Hex Hl1) as (st2 & -> & Hl2 & Hfin & Hstay). exists st2. split_and!; auto.
    destruct Hdec as [Hd|Hd]; [left; by apply Hstay|]. destruct Hfin as [?|?]; [by left|right; lia].
  - destruct (other_live extra st ev Hev Hl) as (st1 & -> & Hl1 & Hst & Hleft). simpl.
    destruct (IH st1 Hex Hl1) as (st2 & -> & Hl2 & Hfin & Hstay). rewrite <-Hst, <-Hleft. by exists st2.
Qed.

(** (C26) A data request never panics and is in tally stage after [2 * extra + 3]
    stage updates, whatever commits and reveals arrive or are rejected in
    between. *)
Theorem request_reaches_tally extra dr pkh ep bh evs :
  0 ≤ extra < U16 - 1 → 2 * extra + 3 ≤ updates evs →
  ∃ st, run_events extra (state_new dr pkh ep bh) evs = Some st ∧ stage st = TALLY ∧ current_stage (info st) = Some TALLY.
Proof.
  intros Hex Hn. pose proof (live_new extra dr pkh ep bh (proj1 Hex)) as Hl.
  destruct (run_events_live extra evs _ Hex Hl) as (st & Hr & Hl' & Hfin & _). exists st. split; [done|].
  assert (stage st = TALLY) as Hst.
  { destruct Hfin as [?|Hle]; [done|]. destruct (stage st) eqn:Est; [| |done].
    - pose proof (live_commit _ _ Hl' Est). unfold updates_left in Hle. rewrite Est in Hle. simpl in Hle. lia.
    - pose proof (live_reveal _ _ Hl' Est). unfold updates_left in Hle. rewrite Est in Hle. simpl in Hle. lia. }
  split; [done|]. by rewrite (live_stage _ _ Hl'), Hst.
Qed.

(** ** The tally *)

(** The verdicts on the reveals: how many are lies, how many are errors out of
    consensus, and how many are in consensus. *)
Definition count_if {A} (f : A → bool) (l : list A) : Z := zsum ((λ x, if f x then 1 else 0) <$> l).
Definition is_lie (v : bool * bool) : bool := v.1 && negb v.2.
Definition is_error (v : bool * bool) : bool := v.1 && v.2.
Definition is_honest (v : bool * bool) : bool := negb v.1.

Lemma count_if_cons {A} (f : A → bool) x l : count_if f (x :: l) = (if f x then 1 else 0) + count_if f l.
Proof. done. Qed.
Lemma count_if_nonneg {A} (f : A → bool) l : 0 ≤ count_if f l.
Proof. apply zsum_nonneg, Forall_fmap, Forall_forall. intros x _. simpl. destruct (f x); lia. Qed.

Lemma verdicts_partition vs :
  count_if is_lie vs + count_if is_error vs + count_if is_honest vs = Z.of_nat (length vs).
Proof.
  induction vs as [|[l e] vs IH]; [done|]. rewrite !count_if_cons. unfold is_lie, is_error, is_honest in *. simpl in *.
  destruct l, e; simpl; lia.
Qed.

Lemma errors_and_liars_spec errs lies :
  calculate_errors_and_liars_count errs lies
  = (count_if is_lie (zip lies errs), count_if is_error (zip lies errs)).
Proof.
  unfold calculate_errors_and_liars_count. set (f := λ (le : Z * Z) x, _).
  assert (∀ vs acc, foldl f acc vs = (acc.1 + count_if is_lie vs, acc.2 + count_if is_error vs)) as Hf.
  { intros vs. induction vs as [|[l e] vs IH]; intros [a b]; simpl.
    - f_equal; unfold count_if; simpl; lia.
    - rewrite IH, !count_if_cons. unfold is_lie, is_error. destruct l, e; simpl; f_equal; lia. }
  rewrite Hf. done.
Qed.

Definition outputs_value (os : list ValueTransferOutput) : Z := zsum (out_value <$> os).
Lemma outputs_value_app l k : outputs_value (l ++ k) = outputs_value l + outputs_value k.
Proof. unfold outputs_value. by rewrite fmap_app, zsum_app. Qed.

Lemma outputs_value_one p v t : outputs_value [MkOutput p v t] = v.
Proof. unfold outputs_value. simpl. lia. Qed.

(** The identities that are in consensus, and those that committed an error. *)
Definition consenters (rv : list (PublicKeyHash * (bool * bool))) : gset PublicKeyHash :=
  list_to_set (fst <$> filter (λ x, x.2.1 = false) rv).
Definition error_reporters (rv : list (PublicKeyHash * (bool * bool))) : list PublicKeyHash :=
  fst <$> filter (λ x, x.2.2 = true) rv.

Lemma tally_fold_value collateral reward rv : ∀ os ooc ec,
  outputs_value (foldl (tally_step collateral reward) (os, ooc, ec) rv).1.1
  = outputs_value os + count_if is_error (snd <$> rv) * collateral + count_if is_honest (snd <$> rv) * reward.
Proof.
  induction rv as [|[r [l e]] rv IH]; intros os ooc ec; simpl foldl.
  { unfold count_if. simpl. lia. }
  rewrite fmap_cons, !count_if_cons. simpl snd.
  destruct l, e; simpl tally_step; rewrite IH, ?outputs_value_app, ?outputs_value_one;
    cbn [is_error is_honest fst snd negb andb]; lia.
Qed.

Lemma tally_fold_v2 collateral reward rv : ∀ os ooc ec,
  foldl tally_step_v2 (ooc, ec) rv
  = ((foldl (tally_step collateral reward) (os, ooc, ec) rv).1.2,
     (foldl (tally_step collateral reward) (os, ooc, ec) rv).2).
Proof.
  induction rv as [|[r [l e]] rv IH]; intros os ooc ec; [done|]. simpl. destruct l, e; simpl; apply IH.
Qed.

Lemma tally_fold_sets rv : ∀ ooc ec,
  foldl tally_step_v2 (ooc, ec) rv = (ooc ∖ consenters rv, ec ++ error_reporters rv).
Proof.
  unfold consenters, error_reporters. induction rv as [|[r [l e]] rv IH]; intros ooc ec.
  { simpl. rewrite app_nil_r. f_equal. set_solver. }
  simpl foldl. rewrite !filter_cons. destruct l, e; simpl; rewrite IH, <-?app_assoc; f_equal; set_solver.
Qed.

(** ** Assumptions on a tally, and what it distributes *)

Section tally.
Context (dr : DataRequestOutput) (pkh : PublicKeyHash) (meta : TallyMetaData) (encoded : option (list Z)).
Context (revealers : list PublicKeyHash) (committers : gset PublicKeyHash) (collateral_minimum : Z).
Context (fallback : list Z) (dr_pointer : Hash).

Definition n_commits : Z := Z.of_nat (size committers).
Definition n_reveals : Z := Z.of_nat (length revealers).
Definition verdicts : list (bool * bool) := zip (liars meta) (errors meta).
Definition honest : Z := count_if is_honest verdicts.
Definition lies : Z := count_if is_lie verdicts.
Definition error_count : Z := count_if is_error verdicts.
Definition collateral : Z := effective_collateral dr collateral_minimum.
(** Witnesses that lied or did not reveal: their collateral is slashed. *)
Definition slashed_witnesses : Z := lies + (n_commits - n_reveals).

(** The report has one verdict per reveal, at most the requested number of
    witnesses committed, and the value of the request and its collateral fits
    in 64 bits. *)
Record tally_input : Prop := {
  ti_liars : length revealers = length (liars meta);
  ti_errors : length revealers = length (errors meta);
  ti_reveals : n_reveals ≤ n_commits;
  ti_commits : n_commits ≤ witnesses dr;
  ti_nonneg : 0 ≤ witness_reward dr ∧ 0 ≤ commit_and_reveal_fee dr ∧ 0 ≤ collateral;
  ti_fits : (witness_reward dr + 2 * commit_and_reveal_fee dr) * witnesses dr + collateral * n_commits < U64;
  ti_witnesses : witnesses dr < U16;
}.

(** The value at the disposal of the tally: the rewards, the fees of the
    commits and reveals that did not happen, and the collateral. *)
Definition available : Z :=
  witness_reward dr * witnesses dr
  + commit_and_reveal_fee dr * (witnesses dr - n_reveals)
  + commit_and_reveal_fee dr * (witnesses dr - n_commits)
  + collateral * n_commits.

Definition change : Z :=
  witness_reward dr * (witnesses dr - honest)
  + commit_and_reveal_fee dr * (witnesses dr - n_reveals)
  + commit_and_reveal_fee dr * (witnesses dr - n_commits).

(** The part of the collateral that is not paid out. *)
Definition unpaid (wip23 : bool) : Z :=
  if decide (honest = 0) then 0
  else if wip23 then collateral * slashed_witnesses
  else (collateral * slashed_witnesses) mod honest.

Hypothesis Hin : tally_input.

Lemma length_verdicts : Z.of_nat (length verdicts) = n_reveals.
Proof.
  destruct Hin as [Hl He _ _ _ _ _]. unfold verdicts, n_reveals.
  rewrite length_zip_with, <-Hl, <-He, Nat.min_id. done.
Qed.

Lemma counts_sum : lies + error_count + honest = n_reveals.
Proof. rewrite <-length_verdicts. apply verdicts_partition. Qed.

Lemma counts_nonneg : 0 ≤ lies ∧ 0 ≤ error_count ∧ 0 ≤ honest ∧ 0 ≤ n_reveals ∧ 0 ≤ n_commits.
Proof. unfold lies, error_count, honest, n_reveals, n_commits. split_and!; try apply count_if_nonneg; lia. Qed.

(** Bounds that keep every intermediate value of the computation in range. *)
Lemma value_bounds :
  0 ≤ collateral * slashed_witnesses ≤ collateral * n_commits
  ∧ 0 ≤ change ∧ change + collateral * n_commits < U64 ∧ 0 ≤ n_commits < U64
  ∧ witness_reward dr * honest + change ≤ (witness_reward dr + 2 * commit_and_reveal_fee dr) * witnesses dr.
Proof.
  destruct Hin as [_ _ Hr Hc (Hw & Hf & Hcol) Hfit Hw16]. pose proof counts_sum. pose proof counts_nonneg.
  unfold slashed_witnesses, change. split_and!; try nia. unfold_moduli. lia.
Qed.

Lemma honest_wraps :
  wsub U64 n_commits n_reveals = n_commits - n_reveals
  ∧ wadd U64 lies (n_commits - n_reveals) = slashed_witnesses
  ∧ wsub U64 (wsub U64 n_commits slashed_witnesses) error_count = honest
  ∧ wsub U64 (wsub U64 (wsub U64 n_commits lies) error_count) (n_commits - n_reveals) = honest
  ∧ wsub U64 (wsub U64 n_reveals lies) error_count = honest.
Proof.
  pose proof counts_sum. pose proof counts_nonneg. pose proof value_bounds as (_ & _ & _ & Hc & _).
  destruct Hin as [_ _ Hr _ _ _ _]. unfold slashed_witnesses.
  rewrite (wsub_small U64 n_commits n_reveals), wadd_small by lia.
  rewrite (wsub_small U64 n_commits (lies + (n_commits - n_reveals))) by lia.
  rewrite (wsub_small U64 n_commits lies), (wsub_small U64 (n_commits - lies)) by lia.
  rewrite (wsub_small U64 n_reveals lies) by lia. rewrite !wsub_small by lia. lia.
Qed.

Lemma change_exact : calculate_tally_change n_commits n_reveals honest dr = change.
Proof.
  pose proof counts_sum. pose proof counts_nonneg. pose proof value_bounds as (_ & Hch & Hchm & Hc & _).
  destruct Hin as [_ _ Hr Hcw (Hw & Hf & Hcol) Hfit Hw16].
  assert (0 ≤ collateral * n_commits) by nia.
  assert (0 ≤ witness_reward dr * (witnesses dr - honest) ≤ change) by (unfold change; nia).
  assert (0 ≤ commit_and_reveal_fee dr * (witnesses dr - n_reveals) ≤ change) by (unfold change; nia).
  assert (0 ≤ commit_and_reveal_fee dr * (witnesses dr - n_commits) ≤ change) by (unfold change; nia).
  unfold calculate_tally_change.
  rewrite (wsub_small U64 (witnesses dr) honest), (wsub_small U64 (witnesses dr) n_reveals),
    (wsub_small U64 (witnesses dr) n_commits) by machine.
  rewrite !wmul_small by lia. unfold change in *. rewrite (wadd_small U64 (witness_reward dr * _)), wadd_small by lia. done.
Qed.

(** What an honest witness receives. *)
Definition honest_reward (wip23 : bool) : Z :=
  witness_reward dr + collateral + if wip23 then 0 else collateral * slashed_witnesses / honest.

Lemma reward_exact wip23 :
  honest ≠ 0 →
  (calculate_witness_reward n_commits slashed_witnesses error_count (witness_reward dr) collateral wip23).1
  = honest_reward wip23.
Proof.
  intros Hh. pose proof counts_sum. pose proof counts_nonneg. pose proof value_bounds as (Hs & Hch & Hchm & Hc & Hle).
  pose proof honest_wraps as (_ & _ & Hw & _). destruct Hin as [_ _ Hr Hcw (Hwr & Hf & Hcol) Hfit Hw16].
  unfold calculate_witness_reward, honest_reward. rewrite Hw, !decide_False by lia.
  rewrite (wmul_small U64 collateral) by lia.
  assert (0 ≤ collateral * slashed_witnesses / honest ≤ collateral * slashed_witnesses).
  { split; [apply Z.div_pos; lia|]. apply Z.div_le_upper_bound; nia. }
  assert (witness_reward dr + collateral + collateral * slashed_witnesses < U64).
  { unfold slashed_witnesses in *. nia. }
  destruct wip23; simpl; rewrite (wadd_small U64 (witness_reward dr)) by lia; [lia|]. by rewrite wadd_small by lia.
Qed.

Definition revealed : list (PublicKeyHash * (bool * bool)) := zip revealers verdicts.

Definition paid (wip23 : bool) (version : ProtocolVersion) : list ValueTransferOutput :=
  if before_v2 version then
    if decide (honest = 0) then (λ c, MkOutput c collateral 0) <$> elements committers
    else (foldl (tally_step collateral (honest_reward wip23)) ([], committers, []) revealed).1.1
  else [].

Lemma create_tally_eq wips version (wip23 := wip0023 wips) :
  wips_0009_0011_0012 wips = true →
  create_tally dr_pointer dr pkh (Some meta) encoded revealers committers collateral_minimum fallback
    wips version
  = Some (MkTally dr_pointer (default fallback encoded)
      (paid wip23 version ++ if decide (change > 0) then [MkOutput pkh change 0] else [])
      (elements (if decide (honest = 0) then committers else committers ∖ consenters revealed))
      (if decide (honest = 0) then revealers else error_reporters revealed)).
Proof.
  intros Hwips. pose proof honest_wraps as (W1 & W2 & W3 & W4 & W5). pose proof counts_nonneg as (_ & _ & Hh0 & _).
  destruct Hin as [Hl He _ _ _ _ _]. unfold create_tally.
  rewrite !bool_decide_true by done. simpl negb. cbv iota. rewrite errors_and_liars_spec.
  fold verdicts. fold lies error_count. rewrite Hwips. fold wip23.
  fold n_commits n_reveals collateral. rewrite W1, W2, W4, W5, change_exact. fold revealed.
  pose proof (reward_exact wip23) as Hrw.
  destruct (calculate_witness_reward _ _ _ _ _ _) as [rw rest]. simpl in Hrw.
  assert (∀ os, (if decide (change > 0) then os ++ [MkOutput pkh change 0] else os)
                = os ++ if decide (change > 0) then [MkOutput pkh change 0] else []) as Hos.
  { intros os. case_decide; [done|by rewrite app_nil_r]. }
  unfold paid. destruct (decide (honest = 0)) as [Hh|Hh].
  - rewrite bool_decide_false by lia. destruct (before_v2 version); by rewrite Hos.
  - rewrite bool_decide_true by lia. rewrite Hrw by done.
    pose proof (tally_fold_v2 collateral (honest_reward wip23) revealed [] committers []) as Hv2.
    pose proof (tally_fold_sets revealed committers []) as Hsets. simpl in Hsets.
    destruct (before_v2 version).
    + rewrite Hv2 in Hsets. destruct (foldl (tally_step _ _) _ _) as [[os ooc] ec]. simpl in *.
      injection Hsets as -> ->. by rewrite Hos.
    + rewrite Hsets. by rewrite Hos.
Qed.

Lemma revealed_verdicts : snd <$> revealed = verdicts.
Proof.
  unfold revealed. apply snd_zip. pose proof length_verdicts. unfold n_reveals in *. lia.
Qed.

Lemma zsum_elements_const (c : Z) : outputs_value ((λ p, MkOutput p c 0) <$> elements committers) = c * n_commits.
Proof.
  unfold outputs_value, n_commits, size, set_size, compose. rewrite <-list_fmap_compose. apply zsum_const.
Qed.

Lemma paid_value wip23 version :
  before_v2 version = true → outputs_value (paid wip23 version) + change = available - unpaid wip23.
Proof.
  intros Hv. unfold paid. rewrite Hv. pose proof counts_sum. unfold available, change, unpaid.
  case_decide as Hh.
  - rewrite zsum_elements_const, Hh. lia.
  - rewrite tally_fold_value, revealed_verdicts. fold honest error_count.
    unfold honest_reward, slashed_witnesses. change (outputs_value []) with 0.
    set (s := collateral * (lies + (n_commits - n_reveals))).
    pose proof counts_nonneg. pose proof (Z.div_mod s honest ltac:(lia)) as Hdm.
    assert (collateral * n_commits = s + collateral * error_count + collateral * honest) as Hcol by (unfold s; nia).
    destruct wip23; nia.
Qed.

(** (C25) After the second hard fork (WIP-0009-0011-0012) the tally of a
    well-formed report never panics, and its value is exact.  Before version 2.0
    its outputs are worth the rewards, the fees of the commits and reveals that
    did not happen and the collateral, less what is not paid out: nothing when
    nobody was honest, the whole slashed collateral with WIP-0023, and otherwise
    the remainder of its division among the honest witnesses.  From version 2.0 on
    they are worth the change only: the rewards of the witnesses that were not
    honest and these fees. *)
Theorem tally_conserves_value wips version :
  wips_0009_0011_0012 wips = true →
  ∃ t, create_tally dr_pointer dr pkh (Some meta) encoded revealers committers collateral_minimum fallback
         wips version = Some t
    ∧ outputs_value (t_outputs t) = if before_v2 version then available - unpaid (wip0023 wips) else change.
Proof.
  intros Hw. eexists. split; [by apply create_tally_eq|]. simpl. rewrite outputs_value_app.
  pose proof value_bounds as (_ & Hch & _).
  assert (outputs_value (if decide (change > 0) then [MkOutput pkh change 0] else []) = change) as ->.
  { case_decide; [by rewrite outputs_value_one|]. change (outputs_value []) with 0. lia. }
  destruct (before_v2 version) eqn:Hv; [by rewrite (paid_value (wip0023 wips) version Hv)|].
  unfold paid. rewrite Hv. change (outputs_value []) with 0. lia.
Qed.

(** From version 2.0 on the tally pays the change only, and reports the
    same result, the same identities out of consensus (the committers that did
    not reveal a value in consensus, or all of them when there is none) and the
    same error committers as before. *)
Theorem tally_versions_agree wips :
  wips_0009_0011_0012 wips = true →
  ∃ t1 t2,
    create_tally dr_pointer dr pkh (Some meta) encoded revealers committers collateral_minimum fallback
      wips V1_8 = Some t1
    ∧ create_tally dr_pointer dr pkh (Some meta) encoded revealers committers collateral_minimum fallback
        wips V2_0 = Some t2
    ∧ t_tally t1 = t_tally t2 ∧ t_out_of_consensus t1 = t_out_of_consensus t2
    ∧ t_error_committers t1 = t_error_committers t2
    ∧ t_outputs t2 = (if decide (change > 0) then [MkOutput pkh change 0] else [])
    ∧ ∀ p, p ∈ t_out_of_consensus t2 ↔ p ∈ committers ∧ (honest = 0 ∨ p ∉ consenters revealed).
Proof.
  intros Hw. eexists _, _. split; [by apply create_tally_eq|]. split; [by apply create_tally_eq|]. split_and!; try done.
  intros p. simpl. rewrite elem_of_elements. case_decide; [naive_solver|]. rewrite elem_of_difference. naive_solver.
Qed.
End tally.

(** ** The pool *)

Section pool.
Context (calculate_sha256 : list Z → Hash).
Context (dr_hash : Z → DRTransaction → Hash) (commit_hash : Z → CommitTransaction → Hash).
Context (reveal_hash : Z → RevealTransaction → Hash) (tally_hash : TallyTransaction → Hash).

(** The requests by epoch are those in commit stage, under their own epoch. *)
Record pool_ok (p : DataRequestPool) : Prop := {
  po_epochs : ∀ ep h, h ∈ default ∅ (data_requests_by_epoch p !! ep) ↔
    ∃ st, data_request_pool p !! h = Some st ∧ stage st = COMMIT ∧ epoch st = ep;
  po_nonempty : ∀ ep hs, data_requests_by_epoch p !! ep = Some hs → hs ≠ ∅;
  po_live : ∀ h st, data_request_pool p !! h = Some st → live (extra_rounds p) st;
  po_signed : ∀ h r, waiting_for_reveal p !! h = Some r → r_signatures r ≠ [];
  po_extra : 0 ≤ extra_rounds p < U16 - 1;
}.

Lemma remove_by_epoch_spec m ep h ep' h' :
  h' ∈ default ∅ (remove_by_epoch m ep h !! ep') ↔ h' ∈ default ∅ (m !! ep') ∧ ¬ (ep' = ep ∧ h' = h).
Proof.
  unfold remove_by_epoch. destruct (m !! ep) as [hs|] eqn:Hm.
  - case_decide as He.
    + destruct (decide (ep' = ep)) as [->|Hne].
      * rewrite lookup_delete_eq, Hm. simpl. set_solver.
      * rewrite lookup_delete_ne by done. naive_solver.
    + destruct (decide (ep' = ep)) as [->|Hne].
      * rewrite lookup_insert_eq, Hm. simpl. set_solver.
      * rewrite lookup_insert_ne by done. naive_solver.
  - split; [|by intros [? _]]. intros Hin. split; [done|]. intros [-> ->]. rewrite Hm in Hin. set_solver.
Qed.

Lemma remove_by_epoch_nonempty m ep h :
  (∀ ep hs, m !! ep = Some hs → hs ≠ ∅) → ∀ ep' hs, remove_by_epoch m ep h !! ep' = Some hs → hs ≠ ∅.
Proof.
  intros Hm ep' hs. unfold remove_by_epoch. destruct (m !! ep) as [hs0|] eqn:E; [|apply Hm]. case_decide.
  - intros [_ ?]%lookup_delete_Some. by eapply Hm.
  - intros [[<- <-]|[_ ?]]%lookup_insert_Some; [done|by eapply Hm].
Qed.

(** Replace the state of [h] and fix the requests by epoch: [by_epoch'] keeps
    [h] only when it stays in commit stage. *)
Lemma pool_ok_update p h st st' by_epoch' waiting' :
  pool_ok p → data_request_pool p !! h = Some st → live (extra_rounds p) st' → epoch st' = epoch st →
  (∀ ep' h', h' ∈ default ∅ (by_epoch' !! ep') ↔
     h' ∈ default ∅ (data_requests_by_epoch p !! ep') ∧ ¬ (ep' = epoch st ∧ h' = h ∧ stage st' ≠ COMMIT)) →
  (stage st ≠ COMMIT → stage st' ≠ COMMIT) →
  (∀ ep hs, by_epoch' !! ep = Some hs → hs ≠ ∅) → (∀ h r, waiting' !! h = Some r → r_signatures r ≠ []) →
  pool_ok (MkPool waiting' by_epoch' (<[h := st']> (data_request_pool p)) (to_be_stored p) (extra_rounds p)).
Proof.
  intros [Hep Hne Hlive Hsig Hex] Hst Hl He Hby Hst' Hne' Hw. split; simpl; try done.
  - intros ep' h'. rewrite Hby, Hep. destruct (decide (h' = h)) as [->|Hnh].
    + setoid_rewrite lookup_insert_eq. split.
      * intros [(s & Hs & Hc & <-) Hno]. assert (s = st) as -> by congruence.
        exists st'. split; [done|]. split; [|done]. apply dec_stable. intros Hn. apply Hno. done.
      * intros (s & [= <-] & Hc & <-). rewrite He. split; [|intros (_ & _ & ?); done].
        exists st. split_and!; [done| |done]. apply dec_stable. intros Hn. by apply Hst' in Hn.
    + setoid_rewrite lookup_insert_ne; [|done]. naive_solver.
  - intros h' s [[<- <-]|[_ Hs]]%lookup_insert_Some; [done|by eapply Hlive].
Qed.

Lemma update_stage_frame st extra tm st' :
  update_stage st extra tm = Some st' →
  epoch st' = epoch st ∧ (stage st ≠ COMMIT → stage st' ≠ COMMIT)
  ∧ (stage st' = REVEAL → current_reveal_round (info st') ≠ 1 → stage st = REVEAL).
Proof.
  unfold update_stage. intros Hu. destruct (stage st) eqn:Est; repeat case_decide;
    try destruct tm; try destruct (info_tally (info st)); simplify_eq/=; split_and!; naive_solver.
Qed.

Lemma update_request_ok p h st vc version :
  pool_ok p → data_request_pool p !! h = Some st →
  ∃ p' r st', update_request calculate_sha256 p h st vc version = Some (p', r)
    ∧ update_stage st (extra_rounds p) (data_request_has_too_many_witnesses (request st) vc version) = Some st'
    ∧ pool_ok p' ∧ data_request_pool p' = <[h := st']> (data_request_pool p) ∧ extra_rounds p' = extra_rounds p
    ∧ to_be_stored p' = to_be_stored p.
Proof.
  intros Hok Hst. pose proof Hok as [Hep Hne Hlive Hsig Hex]. unfold update_request.
  destruct (update_live (extra_rounds p) st (data_request_has_too_many_witnesses (request st) vc version) Hex (Hlive h st Hst))
    as (st' & Hu & Hl' & _).
  destruct (update_stage_frame _ _ _ _ Hu) as (He & Hc & Hr). rewrite Hu. cbn [mbind option_bind].
  assert (∀ ep' h', h' ∈ default ∅ (data_requests_by_epoch p !! ep') → ep' = epoch st → h' = h → stage st = COMMIT) as Hin.
  { intros ep' h' Hin -> ->. apply Hep in Hin as (s & Hs & ? & _). congruence. }
  assert (∀ w : gmap Hash RevealTransaction, (∀ h r, w !! h = Some r → r_signatures r ≠ []) → stage st' ≠ COMMIT →
    pool_ok (MkPool w (remove_by_epoch (data_requests_by_epoch p) (epoch st') h)
      (<[h := st']> (data_request_pool p)) (to_be_stored p) (extra_rounds p))) as Hremove.
  { intros w Hw Hs. eapply pool_ok_update; try done.
    - intros ep' h'. rewrite remove_by_epoch_spec, He. naive_solver.
    - by apply remove_by_epoch_nonempty. }
  assert (stage st ≠ COMMIT ∨ stage st' = COMMIT →
    pool_ok (MkPool (waiting_for_reveal p) (data_requests_by_epoch p)
      (<[h := st']> (data_request_pool p)) (to_be_stored p) (extra_rounds p))) as Hkeep.
  { intros Hs. eapply pool_ok_update; try done. intros ep' h'. split; [|by intros [? _]].
    intros Hh. split; [done|]. intros (? & ? & ?). specialize (Hin ep' h' Hh). naive_solver. }
  destruct (stage st') eqn:Est.
  - eexists _, _, st'. split; [done|]. split_and!; try done. apply Hkeep. by right.
  - set (p' := MkPool _ _ _ _ _).
    assert (pool_ok p') as Hp'.
    { subst p'. case_decide; [apply Hremove; [done|congruence]|]. apply Hkeep. left. rewrite Hr; done. }
    destruct (waiting_for_reveal p !! h) as [r|] eqn:Er; [|by eexists _, _, st'].
    apply Hsig in Er. unfold signer. destruct (r_signatures r) as [|sg sgs]; [done|]. simpl.
    destruct (_ && _); by eexists _, _, st'.
  - eexists _, _, st'. split; [done|]. split_and!; try done. apply Hremove; [|congruence].
    intros h' r [_ ?]%lookup_delete_Some. by eapply Hsig.
Qed.

Lemma update_requests_ok vc version es : ∀ p,
  pool_ok p → NoDup es.*1 → (∀ h st, (h, st) ∈ es → data_request_pool p !! h = Some st) →
  ∃ p' rs, update_requests calculate_sha256 p es vc version = Some (p', rs) ∧ pool_ok p'
    ∧ extra_rounds p' = extra_rounds p
    ∧ (∀ h st, (h, st) ∈ es → data_request_pool p' !! h
         = update_stage st (extra_rounds p) (data_request_has_too_many_witnesses (request st) vc version))
    ∧ (∀ h, h ∉ es.*1 → data_request_pool p' !! h = data_request_pool p !! h).
Proof.
  induction es as [|[h st] es IH]; intros p Hok Hnd Hes.
  { exists p, []. split_and!; try done. by intros ?? ?%elem_of_nil. }
  apply NoDup_cons in Hnd as [Hh Hnd].
  destruct (update_request_ok p h st vc version Hok) as (p1 & r & st' & Hu1 & Hu & Hok1 & Hp1 & Hex1 & _).
  { apply Hes, elem_of_cons. by left. }
  cbn [update_requests]. rewrite Hu1. cbn [mbind option_bind fst].
  destruct (IH p1 Hok1 Hnd) as (p2 & rs & Hu2 & Hok2 & Hex2 & Hin & Hout).
  { intros h' s Hs. rewrite Hp1, lookup_insert_ne; [apply Hes, elem_of_cons; by right|].
    intros ->. apply Hh, list_elem_of_fmap. by exists (h', s). }
  rewrite Hu2. cbn [mbind option_bind fst snd]. eexists _, _. split; [done|]. split_and!; [done|congruence| |].
  - intros h' s [[= -> ->]|Hs]%elem_of_cons.
    + rewrite Hout by done. rewrite Hp1, lookup_insert_eq. by rewrite Hu.
    + rewrite (Hin h' s Hs). by rewrite Hex1.
  - intros h' [Hne Hh']%not_elem_of_cons. rewrite Hout by done. rewrite Hp1. by rewrite lookup_insert_ne.
Qed.

Abbreviation process_commit := (process_commit calculate_sha256 commit_hash).
Abbreviation process_reveal := (process_reveal calculate_sha256 reveal_hash).
Abbreviation process_data_request := (process_data_request calculate_sha256 dr_hash).
Abbreviation process_tally := (process_tally tally_hash).
Abbreviation update_stages := (update_data_request_stages calculate_sha256).

(** What the node does with the pool: new requests have new hashes. *)
Inductive pool_step : DataRequestPool → DataRequestPool → Prop :=
  | step_request p dr ep bh p' :
      data_request_pool p !! dr_hash ep dr = None → process_data_request p dr ep bh = Ret p' tt → pool_step p p'
  | step_commit p c ep bh p' : process_commit p c ep bh = Ret p' tt → pool_step p p'
  | step_reveal p r ep bh p' : process_reveal p r ep bh = Ret p' tt → pool_step p p'
  | step_insert_reveal p h r : r_signatures r ≠ [] → pool_step p (insert_reveal p h r)
  | step_tally p t bh p' : process_tally p t bh = Ret p' tt → pool_step p p'
  | step_update p vc version p' rs : update_stages p vc version = Some (p', rs) → pool_step p p'
  | step_finished p : pool_step p (finished_data_requests p).1.

Lemma pool_new_ok extra : 0 ≤ extra < U16 - 1 → pool_ok (pool_new extra).
Proof.
  intros Hex. split; simpl; try done.
  - intros ep h. rewrite lookup_empty. simpl. split; [set_solver|]. intros (st & Hst & _). by rewrite lookup_empty in Hst.
Qed.

(** A request whose transactions changed, but not its stage. *)
Lemma pool_ok_same_stage p h st st' :
  pool_ok p → data_request_pool p !! h = Some st → live (extra_rounds p) st' → epoch st' = epoch st →
  stage st' = stage st → pool_ok (with_requests p (<[h := st']> (data_request_pool p))).
Proof.
  intros Hok Hst Hl He Hs. pose proof Hok as [Hep Hne _ Hsig _]. eapply pool_ok_update; try done; [|congruence].
  intros ep' h'. split; [|by intros [? _]]. intros Hin. split; [done|]. intros (-> & -> & Hc).
  apply Hep in Hin as (s & Hs' & ? & _). congruence.
Qed.

Lemma add_request_ok p dr ep bh p' :
  pool_ok p → data_request_pool p !! dr_hash ep dr = None → process_data_request p dr ep bh = Ret p' tt → pool_ok p'.
Proof.
  intros [Hep Hne Hlive Hsig Hex] Hfresh. unfold DataRequest.process_data_request, add_data_request.
  destruct (signer _ _) as [pk|]; [|done]. intros [= <-]. split; simpl; try done.
  - intros ep' h'. destruct (decide (h' = dr_hash ep dr)) as [->|Hne'].
    + setoid_rewrite lookup_insert_eq. destruct (decide (ep' = ep)) as [->|Hepn].
      * rewrite lookup_insert_eq. simpl. split; [intros _; by eexists|set_solver].
      * rewrite lookup_insert_ne by done. rewrite Hep. split; [intros (s & Hs & _); congruence|].
        intros (s & [= <-] & _ & He). done.
    + setoid_rewrite (lookup_insert_ne _ _ h'); [|done]. rewrite <-Hep.
      destruct (decide (ep' = ep)) as [->|Hepn]; [rewrite lookup_insert_eq; simpl; set_solver|].
      by rewrite lookup_insert_ne.
  - intros ep' hs [[<- <-]|[_ ?]]%lookup_insert_Some; [set_solver|by eapply Hne].
  - intros h' st [[<- <-]|[_ ?]]%lookup_insert_Some; [apply live_new; lia|by eapply Hlive].
Qed.

Lemma add_commit_ok p c ep bh p' : pool_ok p → process_commit p c ep bh = Ret p' tt → pool_ok p'.
Proof.
  intros Hok. unfold DataRequest.process_commit, add_commit. destruct (signer _ _) as [pk|]; [|done].
  destruct (data_request_pool p !! c_dr_pointer c) as [st|] eqn:Est; [|done].
  destruct (other_live (extra_rounds p) st (EvCommit pk c) eq_refl (po_live p Hok _ _ Est)) as (st' & Hs & Hl & Hst & _).
  simpl in Hs. unfold state_add_commit in *. destruct (stage st) eqn:E; [|done..]. injection Hs as <-.
  intros [= <-]. eapply pool_ok_same_stage; done || congruence.
Qed.

Lemma add_reveal_ok p r ep bh p' : pool_ok p → process_reveal p r ep bh = Ret p' tt → pool_ok p'.
Proof.
  intros Hok. unfold DataRequest.process_reveal, add_reveal. destruct (signer _ _) as [pk|]; [|done].
  destruct (data_request_pool p !! r_dr_pointer r) as [st|] eqn:Est; [|done].
  destruct (other_live (extra_rounds p) st (EvReveal pk r) eq_refl (po_live p Hok _ _ Est)) as (st' & Hs & Hl & Hst & _).
  simpl in Hs. unfold state_add_reveal in *. destruct (stage st) eqn:E; [done| |done]. injection Hs as <-.
  intros [= <-]. eapply pool_ok_same_stage; done || congruence.
Qed.

Lemma add_tally_ok p t bh p' : pool_ok p → process_tally p t bh = Ret p' tt → pool_ok p'.
Proof.
  intros [Hep Hne Hlive Hsig Hex]. unfold DataRequest.process_tally, add_tally, resolve_data_request.
  destruct (data_request_pool p !! t_dr_pointer t) as [st|] eqn:Est; [|done].
  unfold state_add_tally. destruct (stage st) eqn:E; [done..|]. simpl. intros [= <-]. split; simpl; try done.
  - intros ep h. rewrite Hep. destruct (decide (h = t_dr_pointer t)) as [->|Hne'].
    + setoid_rewrite lookup_delete_eq. rewrite Est. split; [|by intros (? & ? & _)].
      intros (s & [= <-] & Hs & _). congruence.
    + by setoid_rewrite lookup_delete_ne.
  - intros h s [_ Hs]%lookup_delete_Some. by eapply Hlive.
Qed.

Lemma update_stages_ok p vc version :
  pool_ok p → ∃ p' rs, update_stages p vc version = Some (p', rs) ∧ pool_ok p' ∧ extra_rounds p' = extra_rounds p.
Proof.
  intros Hok. unfold update_data_request_stages.
  destruct (update_requests_ok (default DEFAULT_VALIDATOR_COUNT_FOR_TESTS vc) version
              (map_to_list (data_request_pool p)) p Hok) as (p' & rs & Hu & Hok' & Hex & _).
  { apply NoDup_fst_map_to_list. }
  { intros h st. apply elem_of_map_to_list. }
  by exists p', rs.
Qed.

Lemma pool_step_ok p p' : pool_ok p → pool_step p p' → pool_ok p'.
Proof.
  intros Hok Hs. destruct Hs as [p dr ep bh p' Hf Hp|p c ep bh p' Hp|p r ep bh p' Hp|p h r Hr|p t bh p' Hp|p vc v p' rs Hu|p].
  - by eapply add_request_ok.
  - by eapply add_commit_ok.
  - by eapply add_reveal_ok.
  - destruct Hok as [Hep Hne Hl Hsig Hex]. split; simpl; try done.
    intros h' r' [[<- <-]|[_ ?]]%lookup_insert_Some; [done|by eapply Hsig].
  - by eapply add_tally_ok.
  - destruct (update_stages_ok p vc v Hok) as (p1 & rs1 & Hu1 & Hok1 & _). rewrite Hu in Hu1. by simplify_eq.
  - by destruct Hok.
Qed.

Lemma pool_reachable_ok extra p : 0 ≤ extra < U16 - 1 → rtc pool_step (pool_new extra) p → pool_ok p.
Proof.
  intros Hex Hr. revert p Hr. apply (rtc_ind_r (R:=pool_step) pool_ok (pool_new extra)); [by apply pool_new_ok|].
  intros p1 p2 _ Hs Hok. by eapply pool_step_ok.
Qed.

(** In every pool that the node can build, the requests offered for
    commitment at an epoch are exactly those in commit stage that were unlocked
    by then, and updating the stages never panics. *)
Theorem commit_candidates_exact extra p ep h :
  0 ≤ extra < U16 - 1 → rtc pool_step (pool_new extra) p →
  (h ∈ get_dr_output_pointers_by_epoch p ep ↔
     ∃ st, data_request_pool p !! h = Some st ∧ stage st = COMMIT ∧ epoch st ≤ ep)
  ∧ ∀ vc version, is_Some (update_stages p vc version).
Proof.
  intros Hex Hr. pose proof (pool_reachable_ok extra p Hex Hr) as Hok. split.
  - unfold get_dr_output_pointers_by_epoch. rewrite list_elem_of_bind. split.
    + intros ([e hs] & Hh & He). case_decide as Hle; [|by apply elem_of_nil in Hh]. simpl in *.
      apply elem_of_btree_entries in He. apply elem_of_elements in Hh.
      destruct (proj1 (po_epochs p Hok e h)) as (st & Hst & Hc & Heq); [by rewrite He|]. exists st. by rewrite Heq.
    + intros (st & Hst & Hc & Hle).
      pose proof (proj2 (po_epochs p Hok (epoch st) h) (ex_intro _ st (conj Hst (conj Hc eq_refl)))) as Hh.
      destruct (data_requests_by_epoch p !! epoch st) as [hs|] eqn:E; [|set_solver].
      exists (epoch st, hs). split; [|by apply elem_of_btree_entries].
      simpl. rewrite decide_True by done. by apply elem_of_elements.
  - intros vc version. destruct (update_stages_ok p vc version Hok) as (p' & rs & -> & _). by eexists.
Qed.
End pool.

(** ** Concrete requests *)

Definition toy_rad : RADRequest :=
  {| rad_time_lock := 0; retrieve := []; aggregate := {| agg_filters := []; agg_reducer := 0 |};
     rad_tally := {| tally_filters := []; tally_reducer := 0 |} |}.
Definition toy_request : DataRequestOutput :=
  {| data_request := toy_rad; witness_reward := 1000; witnesses := 4; commit_and_reveal_fee := 10;
     min_consensus_percentage := 51; dro_collateral := 5000 |}.

Lemma request_reaches_tally_witness :
  ∃ st, run_events 1 (state_new toy_request [1] 7 None)
          (replicate 5 (EvUpdate false)) = Some st ∧ stage st = TALLY.
Proof.
  destruct (request_reaches_tally 1 toy_request [1] 7 None (replicate 5 (EvUpdate false))) as (st & Hr & Hs & _);
    [machine|vm_compute; congruence|]. by exists st.
Defined.

(** Four committers of which the first three reveal: a value in consensus, a lie
    and an error out of consensus. *)
Definition toy_meta : TallyMetaData := {| errors := [false; false; true]; liars := [false; true; true] |}.
Definition toy_committers : gset PublicKeyHash := {[ [1]; [2]; [3]; [4] ]}.

(** The proposals in force after the second hard fork. *)
Definition toy_wips : ActiveWips := MkActive wip_info SECOND_HARD_FORK.

Lemma toy_tally_input : tally_input toy_request toy_meta [[1]; [2]; [3]] toy_committers 1.
Proof. split; try done; vm_compute; (done || split_and!; congruence). Qed.

Lemma tally_conserves_value_witness :
  ∃ t, create_tally [9] toy_request [7] (Some toy_meta) None [[1]; [2]; [3]] toy_committers 1 []
         toy_wips V1_7 = Some t
    ∧ outputs_value (t_outputs t) = 1000 * 4 + 10 * 1 + 10 * 0 + 5000 * 4.
Proof.
  destruct (tally_conserves_value toy_request [7] toy_meta None [[1]; [2]; [3]] toy_committers 1 [] [9]
              toy_tally_input toy_wips V1_7 eq_refl) as (t & Ht & Hv).
  exists t. split; [exact Ht|]. rewrite Hv. reflexivity.
Defined.

Lemma tally_versions_agree_witness :
  ∃ t2, create_tally [9] toy_request [7] (Some toy_meta) None [[1]; [2]; [3]] toy_committers 1 []
          all_wips_active V2_0 = Some t2 ∧ [1] ∉ t_out_of_consensus t2.
Proof.
  destruct (tally_versions_agree toy_request [7] toy_meta None [[1]; [2]; [3]] toy_committers 1 [] [9]
              toy_tally_input all_wips_active eq_refl) as (t1 & t2 & _ & Ht & _ & _ & _ & _ & Hooc).
  exists t2. split; [exact Ht|]. rewrite Hooc. intros [_ [Hh|Hc]]; [by vm_compute in Hh|]. apply Hc. by vm_compute.
Defined.

Definition toy_dr : DRTransaction := MkDR [] [] toy_request [MkSignature [] (MkPublicKey 2 [])].
Definition toy_pool : DataRequestPool :=
  match process_data_request (λ l, l) (λ _ _, [5]) (pool_new 1) toy_dr 7 None with Ret p _ => p | _ => pool_new 1 end.

Lemma commit_candidates_exact_witness : [5] ∈ get_dr_output_pointers_by_epoch toy_pool 8.
Proof.
  apply (commit_candidates_exact (λ l, l) (λ _ _, [5]) (λ _ _, []) (λ _ _, []) (λ _, []) 1 toy_pool 8 [5]).
  - machine.
  - eapply rtc_l; [|apply rtc_refl]. by apply (step_request _ _ _ _ _ _ toy_dr 7 None).
  - eexists. split; [by vm_compute|]. by vm_compute.
Defined.

(** A tally for a request that is not in tally stage is rejected, but the
    request has already been taken out of the pool: it is lost, and stays listed
    among the requests of its epoch. *)
Theorem early_tally_drops_request :
  process_tally (λ _, [9]) toy_pool (MkTally [5] [] [] [] []) [3]
  = Fail (with_requests toy_pool ∅) NotTallyStage
  ∧ is_Some (data_request_pool toy_pool !! [5])
  ∧ get_dr_output_pointers_by_epoch (with_requests toy_pool ∅) 8 = [[5]].
Proof. split_and!; [by vm_compute|by vm_compute; eexists|by vm_compute]. Qed.
