(* ===== verification/Float.v ===== *)
(** * Double-precision floats

    The [f64] operations of the program, as the executable IEEE 754 specification
    of the Standard Library at the width of binary64, and the order of the
    [OrderedFloat] wrapper of the ordered_float crate, of which the program uses
    that it is total and extends the comparison of numbers. *)

From stdpp Require Import base tactics numbers list countable.
From Stdlib Require Import ZArith Lia Floats.SpecFloat.
From S2P Require Import Prelude.
Local Open Scope Z_scope.

(** ** Operations *)

Abbreviation f64 := spec_float.
#[export] Instance f64_eq_dec : EqDecision f64.
Proof. solve_decision. Defined.
#[export] Instance f64_countable : Countable f64.
Proof.
  apply (inj_countable'
    (λ x, match x with
          | S754_zero s => inl (inl s)
          | S754_infinity s => inl (inr s)
          | S754_nan => inr (inl tt)
          | S754_finite s m e => inr (inr (s, m, e))
          end)
    (λ x, match x with
          | inl (inl s) => S754_zero s
          | inl (inr s) => S754_infinity s
          | inr (inl _) => S754_nan
          | inr (inr (s, m, e)) => S754_finite s m e
          end)).
  by intros [].
Defined.

(** [x as f64] and [f64::from(x)] of an unsigned integer. *)
Definition f64_of (n : Z) : f64 := binary_normalize 53 1024 n 0 false.
Definition f64_div (x y : f64) : f64 := SFdiv 53 1024 x y.
Definition f64_mul (x y : f64) : f64 := SFmul 53 1024 x y.
(** [x >= y] *)
Definition f64_ge (x y : f64) : bool := SFleb y x.
Definition f64_one : f64 := f64_of 1.
Definition f64_add (x y : f64) : f64 := SFadd 53 1024 x y.
Definition f64_sub (x y : f64) : f64 := SFsub 53 1024 x y.
Definition f64_neg (x : f64) : f64 := SFopp x.
(** [x < y] *)
Definition f64_lt (x y : f64) : bool := SFltb x y.

(** [x.round()]: to the nearest integer, halves away from zero. *)
Definition f64_round (x : f64) : f64 :=
  match x with
  | S754_finite s m e =>
      if decide (0 ≤ e) then x
      else let n := (Zpos m + 2 ^ (- e - 1)) / 2 ^ (- e) in binary_normalize 53 1024 (if s then - n else n) 0 s
  | _ => x
  end.

(** [x as u32] and [x as u64]: towards zero and saturating; [NaN] becomes zero. *)
Definition f64_to (m : Z) (x : f64) : Z :=
  match x with
  | S754_finite false k e => Z.min (m - 1) (if decide (0 ≤ e) then Zpos k * 2 ^ e else Zpos k / 2 ^ (- e))
  | S754_infinity false => m - 1
  | _ => 0
  end.
Definition f64_to_u32 (x : f64) : Z := f64_to U32 x.
Definition f64_to_u64 (x : f64) : Z := f64_to U64 x.

Lemma f64_to_bounds m x : 0 < m → 0 ≤ f64_to m x < m.
Proof.
  intros Hm. destruct x as [|[]| |[] k e]; try (simpl; lia). cbn [f64_to].
  assert (0 ≤ (if decide (0 ≤ e) then Zpos k * 2 ^ e else Zpos k / 2 ^ (- e))); [|lia].
  case_decide; [|apply Z.div_pos]; pose proof (Z.pow_nonneg 2 e); try lia.
Qed.
Lemma f64_to_u32_nonneg x : 0 ≤ f64_to_u32 x.
Proof. apply f64_to_bounds. unfold_moduli. lia. Qed.

(** ** The order of [OrderedFloat] *)

Class FloatOrd := {
  fle : relation f64;
  fle_dec :: RelDecision fle;
  fle_trans :: Transitive fle;
  fle_total :: Total fle;
  fle_compare : ∀ x y c, SFcompare x y = Some c → (fle x y ↔ c ≠ Gt);
}.

(** An instance: numbers by their value and NaN above all of them. *)
Definition float_key (x : f64) : Z * Z * Z :=
  match x with
  | S754_infinity true => (0, 0, 0)
  | S754_finite true m e => (1, - e, Zneg m)
  | S754_zero _ => (2, 0, 0)
  | S754_finite false m e => (3, e, Zpos m)
  | S754_infinity false => (4, 0, 0)
  | S754_nan => (5, 0, 0)
  end.
Definition lex_le (x y : Z * Z * Z) : Prop :=
  let '(a, b, c) := x in let '(a', b', c') := y in a < a' ∨ a = a' ∧ (b < b' ∨ b = b' ∧ c ≤ c').
Definition nan_top_le (x y : f64) : Prop := lex_le (float_key x) (float_key y).

#[export] Instance lex_le_dec : RelDecision lex_le.
Proof. intros [[a b] c] [[a' b'] c']. unfold lex_le. apply _. Defined.

Lemma nan_top_compare x y c : SFcompare x y = Some c → (nan_top_le x y ↔ c ≠ Gt).
Proof.
  unfold nan_top_le. destruct x as [[]|[]| |[] m e], y as [[]|[]| |[] m' e']; intros [= <-]; simpl.
  all: try (split; [intros ?; (discriminate || lia)|intros ?; (congruence || lia)]).
  all: change (Pos.compare_cont Eq m m') with (Pos.compare m m').
  all: destruct (Z.compare_spec e e'), (Pos.compare_spec m m'); simpl;
    (split; [intros ?; (discriminate || lia)|intros ?; (congruence || lia)]).
Qed.

#[export] Instance nan_top_ord : FloatOrd.
Proof.
  refine {| fle := nan_top_le; fle_compare := nan_top_compare |}.
  - intros x y. unfold nan_top_le. apply _.
  - intros x y z. unfold nan_top_le. destruct (float_key x) as [[? ?] ?], (float_key y) as [[? ?] ?], (float_key z) as [[? ?] ?].
    simpl. lia.
  - intros x y. unfold nan_top_le. destruct (float_key x) as [[? ?] ?], (float_key y) as [[? ?] ?]. simpl. lia.
Defined.

(** ** Positive numbers stay positive *)

Lemma digits2_log2 p : Zpos (digits2_pos p) = Z.log2 (Zpos p) + 1.
Proof.
  induction p as [p IH|p IH|]; [| |done].
  - change (Zpos (digits2_pos p~1)) with (Zpos (Pos.succ (digits2_pos p))). rewrite Pos2Z.inj_succ, IH.
    rewrite Pos2Z.inj_xI, Z.log2_succ_double by lia. lia.
  - change (Zpos (digits2_pos p~0)) with (Zpos (Pos.succ (digits2_pos p))). rewrite Pos2Z.inj_succ, IH.
    rewrite Pos2Z.inj_xO, Z.log2_double by lia. lia.
Qed.
Lemma Zdigits2_log2 m : 0 < m → Zdigits2 m = Z.log2 m + 1.
Proof. destruct m; try lia. intros _. apply digits2_log2. Qed.

Lemma shr_1_half r : 0 ≤ shr_m r → shr_m (shr_1 r) = shr_m r / 2.
Proof.
  destruct r as [m r s]. simpl. intros Hm. destruct m as [|[p|p|]|p]; try done; try lia; simpl; symmetry.
  - rewrite (Pos2Z.inj_xI p). replace (2 * Zpos p + 1) with (1 + Zpos p * 2) by lia.
    rewrite Z.div_add by lia. done.
  - rewrite (Pos2Z.inj_xO p), Z.mul_comm. by apply Z.div_mul.
Qed.
Lemma iter_shr_1 n : ∀ r, 0 ≤ shr_m r → shr_m (iter_pos shr_1 n r) = shr_m r / 2 ^ Zpos n.
Proof.
  induction n as [n IH|n IH|]; intros r Hr; simpl.
  - assert (0 ≤ shr_m (shr_1 r)) as H1 by (rewrite shr_1_half by done; apply Z.div_pos; lia).
    assert (0 ≤ shr_m (iter_pos shr_1 n (shr_1 r))) as H2 by (rewrite IH by done; apply Z.div_pos; lia).
    rewrite IH, IH, shr_1_half by done. rewrite !Z.div_div by lia. f_equal.
    rewrite (Pos2Z.inj_xI n), Z.pow_add_r, Z.pow_twice_r by lia. lia.
  - assert (0 ≤ shr_m (iter_pos shr_1 n r)) as H2 by (rewrite IH by done; apply Z.div_pos; lia).
    rewrite IH, IH by done. rewrite Z.div_div by lia. f_equal. rewrite (Pos2Z.inj_xO n), Z.pow_twice_r. lia.
  - rewrite shr_1_half by done. done.
Qed.

(** Shifting a number of the normal range keeps its magnitude. *)
Lemma shr_fexp_normal m e l :
  0 < m → -1074 ≤ Zdigits2 m + e - 53 →
  let r := shr_fexp 53 1024 m e l in 0 < shr_m r.1 ∧ Zdigits2 (shr_m r.1) + r.2 = Zdigits2 m + e.
Proof.
  intros Hm He. unfold shr_fexp, fexp, emin. 
  replace (Z.max (Zdigits2 m + e - 53) (3 - 1024 - 53) - e) with (Zdigits2 m - 53) by lia.
  assert (shr_m (shr_record_of_loc m l) = m) as Hrec by (by destruct l as [|[]]).
  unfold shr. destruct (Zdigits2 m - 53) as [|n|n] eqn:Hn; simpl; rewrite ?Hrec; try done.
  pose proof (Zdigits2_log2 m Hm) as Hd. rewrite iter_shr_1, Hrec by (rewrite Hrec; lia).
  assert (2 ^ Zpos n ≤ m) as Hle.
  { etrans; [|apply Z.log2_spec, Hm]. apply Z.pow_le_mono_r; lia. }
  assert (0 < m / 2 ^ Zpos n) as Hpos by (apply Z.div_str_pos; lia). split; [done|].
  rewrite Zdigits2_log2 by done. rewrite <-Z.shiftr_div_pow2, Z.log2_shiftr by lia. lia.
Qed.

Lemma round_aux_normal m e l :
  0 < m → -1074 ≤ Zdigits2 m + e - 53 →
  binary_round_aux 53 1024 false m e l = S754_infinity false ∧ 972 ≤ Zdigits2 m + e
  ∨ ∃ m' e', binary_round_aux 53 1024 false m e l = S754_finite false m' e' ∧ Zdigits2 m + e ≤ Zdigits2 (Zpos m') + e'.
Proof.
  intros Hm He. unfold binary_round_aux.
  destruct (shr_fexp_normal m e l Hm He) as [H1 H2]. destruct (shr_fexp 53 1024 m e l) as [r1 e1]. simpl in *.
  set (m1 := round_nearest_even _ _).
  assert (shr_m r1 ≤ m1 ≤ shr_m r1 + 1) as Hm1 by (unfold m1, round_nearest_even; repeat case_match; lia).
  clearbody m1.
  assert (Zdigits2 (shr_m r1) ≤ Zdigits2 m1 ≤ Zdigits2 (shr_m r1) + 1) as Hd.
  { rewrite !Zdigits2_log2 by lia. split; [apply Zplus_le_compat_r, Z.log2_le_mono; lia|].
    assert (Z.log2 m1 ≤ Z.log2 (2 * shr_m r1)) as Hl by (apply Z.log2_le_mono; lia).
    rewrite Z.log2_double in Hl by lia. lia. }
  destruct (shr_fexp_normal m1 e1 loc_Exact) as [H3 H4]; [lia..|].
  destruct (shr_fexp 53 1024 m1 e1 loc_Exact) as [r2 e2]. cbn [fst snd] in *.
  destruct (shr_m r2) as [|m'|m']; try lia.
  destruct (e2 <=? 1024 - 53) eqn:Hc; [right; exists m', e2; split; [done|simpl in H4; lia]|left].
  split; [done|]. apply Z.leb_gt in Hc. rewrite Zdigits2_log2 in H4 by lia. pose proof (Z.log2_nonneg (Zpos m')). lia.
Qed.

Lemma shl_align_log2 m e e' :
  let r := shl_align m e e' in Z.log2 (Zpos r.1) + r.2 = Z.log2 (Zpos m) + e.
Proof.
  unfold shl_align. destruct (e' - e) as [|d|d] eqn:Hd; [done..|]. cbv zeta. cbn [fst snd].
  assert (Zpos (Pos.iter xO m d) = Zpos m * 2 ^ Zpos d) as ->.
  { clear Hd. induction d as [|d IH] using Pos.peano_ind; [simpl; lia|].
    rewrite Pos.iter_succ, Pos2Z.inj_xO, IH, Pos2Z.inj_succ, Z.pow_succ_r by lia. lia. }
  rewrite Z.log2_mul_pow2 by lia. lia.
Qed.

(** A positive [u64] is a finite positive number of at least one. *)
Lemma f64_of_pos n :
  0 < n < U64 → ∃ m e, f64_of n = S754_finite false m e ∧ 1 ≤ Zdigits2 (Zpos m) + e.
Proof.
  intros [Hn Hu]. destruct n as [|n|n]; try lia. unfold f64_of, binary_normalize, binary_round.
  pose proof (shl_align_log2 n 0 (fexp 53 1024 (Zpos (digits2_pos n) + 0))) as Hal.
  destruct (shl_align n 0 _) as [mz ez]. cbn [fst snd] in Hal.
  assert (0 ≤ Z.log2 (Zpos n) < 64) as Hlog by (split; [apply Z.log2_nonneg|apply Z.log2_lt_pow2; [lia|exact Hu]]).
  destruct (round_aux_normal (Zpos mz) ez loc_Exact) as [[_ Hinf]|(m & e & Hr & Hd)].
  - lia.
  - rewrite Zdigits2_log2 by lia. lia.
  - rewrite Zdigits2_log2 in Hinf by lia. lia.
  - exists m, e. split; [exact Hr|]. rewrite (Zdigits2_log2 (Zpos mz)) in Hd by lia. lia.
Qed.

(** The normal positive floats. *)
Definition normal_positive (x : f64) : Prop :=
  ∃ m e, x = S754_finite false m e ∧ -1074 ≤ Zdigits2 (Zpos m) + e - 53.

Lemma f64_mul_positive n x : 0 < n < U64 → normal_positive x → f64_ge (f64_of 0) (f64_mul (f64_of n) x) = false.
Proof.
  intros Hn (mx & ex & -> & Hx). destruct (f64_of_pos n Hn) as (m & e & -> & Hm).
  unfold f64_mul, f64_ge, SFmul. simpl xorb.
  assert (Zdigits2 (Zpos m) + Zdigits2 (Zpos mx) - 1 ≤ Zdigits2 (Zpos (m * mx))) as Hd.
  { rewrite !Zdigits2_log2 by lia. rewrite Pos2Z.inj_mul. pose proof (Z.log2_mul_below (Zpos m) (Zpos mx)). lia. }
  destruct (round_aux_normal (Zpos (m * mx)) (e + ex) loc_Exact) as [[-> _]|(m' & e' & -> & _)]; [lia..|done|done].
Qed.

Lemma f64_mul_zero n x : 0 ≤ n < U64 → normal_positive x → f64_ge (f64_of n) (f64_mul (f64_of 0) x) = true.
Proof.
  intros Hn (mx & ex & -> & _). destruct (decide (n = 0)) as [->|Hne]; [done|].
  destruct (f64_of_pos n) as (m & e & -> & _); [lia|done].
Qed.

Lemma f64_one_normal : normal_positive f64_one.
Proof. by eexists _, _; split; [vm_compute; reflexivity|]. Qed.

(** ** Multiplication by a number of the unit interval *)

(** The finite numbers between zero and one. *)
Definition unit_interval (x : f64) : Prop :=
  match x with
  | S754_zero _ => True
  | S754_finite false m e => e ≤ 0 ∧ Zpos m ≤ 2 ^ (- e)
  | _ => False
  end.

Lemma iter_shr_exact n : ∀ k, 0 ≤ k →
  iter_pos shr_1 n (Build_shr_record (k * 2 ^ Zpos n) false false) = Build_shr_record k false false.
Proof.
  assert (∀ k, 0 ≤ k → shr_1 (Build_shr_record (k * 2) false false) = Build_shr_record k false false) as H1.
  { intros k Hk. destruct k as [|p|p]; [done| |lia]. by rewrite Z.mul_comm. }
  induction n as [n IH|n IH|]; intros k Hk; cbn [iter_pos]; [| |by apply H1].
  - replace (k * 2 ^ Zpos n~1) with (k * 2 ^ Zpos n * 2 ^ Zpos n * 2)
      by (rewrite (Pos2Z.inj_xI n), Z.pow_add_r, Z.pow_twice_r by lia; lia).
    rewrite H1, !IH by (repeat apply Z.mul_nonneg_nonneg; lia). done.
  - replace (k * 2 ^ Zpos n~0) with (k * 2 ^ Zpos n * 2 ^ Zpos n)
      by (rewrite (Pos2Z.inj_xO n), Z.pow_twice_r by lia; lia).
    rewrite !IH by (repeat apply Z.mul_nonneg_nonneg; lia). done.
Qed.

Lemma shr_spec m e d :
  0 ≤ m →
  let r := shr (Build_shr_record m false false) e d in
  r.2 = e + Z.max 0 d ∧ shr_m r.1 = m / 2 ^ Z.max 0 d
  ∧ (m mod 2 ^ Z.max 0 d = 0 → loc_of_shr_record r.1 = loc_Exact).
Proof.
  intros Hm. destruct d as [|n|n]; cbn [shr fst snd Z.max Z.compare]; try (rewrite Z.pow_0_r, Z.div_1_r; split_and!; [lia|done|done]).
  replace (Z.max 0 (Zpos n)) with (Zpos n) by lia.
  split_and!; [done|by rewrite iter_shr_1|]. intros H0.
  rewrite (Z.div_mod m (2 ^ Zpos n)), H0, Z.add_0_r, Z.mul_comm by lia.
  rewrite iter_shr_exact by (apply Z.div_pos; lia). done.
Qed.

(** One normalization of a number below [r] stays below it. *)
Lemma shr_fexp_le r m e :
  0 ≤ r < 2 ^ 52 → 0 ≤ m → e ≤ 0 → m ≤ r * 2 ^ (- e) →
  let s := shr_fexp 53 1024 m e loc_Exact in
  s.2 ≤ 0 ∧ 0 ≤ shr_m s.1 ∧ round_nearest_even (shr_m s.1) (loc_of_shr_record s.1) ≤ r * 2 ^ (- s.2)
  ∧ shr_m s.1 ≤ r * 2 ^ (- s.2).
Proof.
  intros Hr Hm He Hle. unfold shr_fexp. cbn [shr_record_of_loc].
  set (d := fexp 53 1024 (Zdigits2 m + e) - e).
  destruct (shr_spec m e d Hm) as (H2 & Hs & Hx). set (s := shr _ e d) in *. cbv zeta.
  assert (e + Z.max 0 d ≤ 0) as Hneg.
  { unfold d, fexp, emin. destruct (decide (m = 0)) as [->|]; [simpl; lia|]. rewrite Zdigits2_log2 by lia.
    assert (Z.log2 m ≤ 51 - e) as Hl; [|lia].
    assert (m < 2 ^ (52 - e)); [|assert (Z.log2 m < 52 - e) by (apply Z.log2_lt_pow2; lia); lia].
    replace (52 - e) with (52 + - e) by lia. rewrite Z.pow_add_r by lia. nia. }
  set (k := Z.max 0 d) in *. rewrite H2 in *. set (N := r * 2 ^ (- (e + k))).
  assert (0 < 2 ^ k) as Hk by (apply Z.pow_pos_nonneg; lia).
  assert (r * 2 ^ (- e) = N * 2 ^ k) as HN.
  { unfold N. rewrite <-Z.mul_assoc, <-Z.pow_add_r by lia. do 2 f_equal. lia. }
  assert (m / 2 ^ k ≤ N) as Hfl by (apply Z.div_le_upper_bound; lia).
  split_and!; [done|rewrite Hs; apply Z.div_pos; lia| |by rewrite Hs].
  destruct (decide (m / 2 ^ k = N)) as [Heq|Hne].
  - rewrite Hx; [simpl; lia|]. pose proof (Z.div_mod m (2 ^ k) ltac:(lia)). pose proof (Z.mod_pos_bound m (2 ^ k) Hk). nia.
  - rewrite Hs. unfold round_nearest_even. repeat case_match; lia.
Qed.

Lemma round_nearest_even_nonneg m l : 0 ≤ m → 0 ≤ round_nearest_even m l.
Proof. unfold round_nearest_even. repeat case_match; lia. Qed.

Lemma round_aux_le r m e :
  0 ≤ r < 2 ^ 52 → 0 ≤ m → e ≤ 0 → m ≤ r * 2 ^ (- e) →
  0 ≤ f64_to_u32 (binary_round_aux 53 1024 false m e loc_Exact) ≤ r.
Proof.
  intros Hr Hm He Hle. unfold binary_round_aux.
  destruct (shr_fexp_le r m e) as (H1 & H2 & H3 & _); [done..|].
  destruct (shr_fexp 53 1024 m e loc_Exact) as [r1 e1]. cbn [fst snd] in *.
  set (m1 := round_nearest_even _ _) in *. assert (0 ≤ m1) as Hm1 by (by apply round_nearest_even_nonneg).
  destruct (shr_fexp_le r m1 e1) as (H4 & H5 & _ & H6); [done..|].
  destruct (shr_fexp 53 1024 m1 e1 loc_Exact) as [r2 e2]. cbn [fst snd] in *.
  destruct (shr_m r2) as [|m2|m2]; [simpl; lia| |lia]. rewrite (proj2 (Z.leb_le e2 (1024 - 53))) by lia.
  unfold f64_to_u32. cbn [f64_to]. assert (0 ≤ (if decide (0 ≤ e2) then Zpos m2 * 2 ^ e2 else Zpos m2 / 2 ^ (- e2)) ≤ r); [|unfold_moduli; lia].
  case_decide.
  - assert (e2 = 0) as -> by lia. simpl in *. lia.
  - split; [apply Z.div_pos; lia|]. apply Z.div_le_upper_bound; lia.
Qed.

Lemma f64_of_exact n :
  0 < n < 2 ^ 53 →
  ∃ m e, f64_of n = S754_finite false m e ∧ e ≤ 0 ∧ Zpos m = n * 2 ^ (- e) ∧ 2 ^ 52 ≤ Zpos m.
Proof.
  intros Hn. destruct n as [|n|n]; try lia. unfold f64_of, binary_normalize, binary_round.
  set (d := Zpos (digits2_pos n)). assert (d = Z.log2 (Zpos n) + 1) as Hd by apply digits2_log2.
  assert (0 ≤ Z.log2 (Zpos n) < 53) as Hlog by (split; [apply Z.log2_nonneg|apply Z.log2_lt_pow2; lia]).
  assert (fexp 53 1024 (d + 0) = d - 53) as Hf by (unfold fexp, emin; lia). rewrite Hf.
  assert (∃ mz, shl_align n 0 (d - 53) = (mz, d - 53) ∧ Zpos mz = Zpos n * 2 ^ (53 - d)) as (mz & -> & Hmz).
  { unfold shl_align. destruct (d - 53 - 0) as [|p|p] eqn:Hp; [|lia|].
    - exists n. replace (d - 53) with 0 by lia. replace (53 - d) with 0 by lia. split; [done|lia].
    - exists (Pos.iter xO n p). split; [done|]. replace (53 - d) with (Zpos p) by lia. clear.
      induction p as [|p IH] using Pos.peano_ind; [simpl; lia|].
      rewrite Pos.iter_succ, Pos2Z.inj_xO, IH, Pos2Z.inj_succ, Z.pow_succ_r by lia. lia. }
  assert (Zdigits2 (Zpos mz) = 53) as Hdz by (rewrite Zdigits2_log2, Hmz, Z.log2_mul_pow2 by lia; lia).
  exists mz, (d - 53). split_and!; [|lia|by replace (- (d - 53)) with (53 - d) by lia|].
  2:{ rewrite Zdigits2_log2 in Hdz by lia. replace 52 with (Z.log2 (Zpos mz)) by lia. apply Z.log2_spec. lia. }
  assert (shr_fexp 53 1024 (Zpos mz) (d - 53) loc_Exact = (Build_shr_record (Zpos mz) false false, d - 53)) as Hs.
  { unfold shr_fexp. rewrite Hdz. replace (53 + (d - 53)) with (d + 0) by lia. rewrite Hf, Z.sub_diag. done. }
  unfold binary_round_aux. rewrite Hs. cbn [shr_m loc_of_shr_record round_nearest_even]. rewrite Hs. cbn [shr_m].
  by rewrite (proj2 (Z.leb_le _ _)) by lia.
Qed.

(** Scaling a [u32] by a factor of the unit interval never increases it. *)
Lemma f64_scale_le n x : 0 ≤ n < U32 → unit_interval x → 0 ≤ f64_to_u32 (f64_mul (f64_of n) x) ≤ n.
Proof.
  intros Hn Hx. destruct (decide (n = 0)) as [->|Hne].
  { destruct x as [[]| | |[] m e]; try done; simpl; lia. }
  destruct (f64_of_exact n) as (m & e & -> & He & Hm & _); [unfold_moduli; lia|].
  destruct x as [s| | |[] mx ex]; try done; simpl in Hx.
  { destruct s; simpl; lia. }
  unfold f64_mul, SFmul. cbn [xorb]. apply round_aux_le; [unfold_moduli; lia|lia|lia|].
  rewrite Pos2Z.inj_mul, Hm. replace (- (e + ex)) with (- e + - ex) by lia. rewrite Z.pow_add_r by lia.
  assert (0 < 2 ^ (- e)) by (apply Z.pow_pos_nonneg; lia). nia.
Qed.

(** ** Multiplication is monotone *)

(** Shifting keeps the order of the numbers with their rounding bits. *)
Definition shr_key (r : shr_record) : Z := 4 * shr_m r + (if shr_r r then 2 else 0) + (if shr_s r then 1 else 0).

Lemma shr_1_key r : 0 ≤ shr_m r → 0 ≤ shr_m (shr_1 r) ∧ shr_key (shr_1 r) = 2 * shr_m r + (if shr_r r || shr_s r then 1 else 0).
Proof.
  destruct r as [m r s]. simpl. intros Hm. unfold shr_key.
  destruct m as [|[p|p|]|p]; try lia; simpl; destruct r, s; simpl; lia.
Qed.
Lemma shr_key_mono n : ∀ r1 r2,
  0 ≤ shr_m r1 → 0 ≤ shr_m r2 → shr_key r1 ≤ shr_key r2 →
  0 ≤ shr_m (Nat.iter n shr_1 r1) ∧ 0 ≤ shr_m (Nat.iter n shr_1 r2)
  ∧ shr_key (Nat.iter n shr_1 r1) ≤ shr_key (Nat.iter n shr_1 r2).
Proof.
  induction n as [|n IH]; intros r1 r2 H1 H2 Hle; [done|]. rewrite !Nat.iter_succ.
  destruct (IH r1 r2 H1 H2 Hle) as (I1 & I2 & I3).
  set (s1 := Nat.iter n shr_1 r1) in *. set (s2 := Nat.iter n shr_1 r2) in *. clearbody s1 s2.
  destruct (shr_1_key s1 I1) as [P1 K1], (shr_1_key s2 I2) as [P2 K2]. split_and!; [done..|]. rewrite K1, K2.
  revert I3. unfold shr_key. destruct (shr_r s1), (shr_s s1), (shr_r s2), (shr_s s2); simpl; lia.
Qed.
Lemma round_key_mono r1 r2 :
  shr_key r1 ≤ shr_key r2 →
  round_nearest_even (shr_m r1) (loc_of_shr_record r1) ≤ round_nearest_even (shr_m r2) (loc_of_shr_record r2).
Proof.
  destruct r1 as [m1 b1 c1], r2 as [m2 b2 c2]. unfold shr_key. cbn [shr_m shr_r shr_s]. intros Hle.
  destruct (decide (m1 = m2)) as [->|]; [|destruct b1, c1, b2, c2; simpl; repeat case_match; lia].
  destruct b1, c1, b2, c2; simpl; repeat case_match; lia.
Qed.

Lemma iter_pos_nat {A} (f : A → A) n : ∀ x, iter_pos f n x = Nat.iter (Pos.to_nat n) f x.
Proof.
  induction n as [n IH|n IH|]; intros x; cbn [iter_pos]; [| |done].
  - rewrite !IH. rewrite Pos2Nat.inj_xI. replace (S (2 * Pos.to_nat n)) with (Pos.to_nat n + (Pos.to_nat n + 1))%nat by lia.
    by rewrite !Nat.iter_add.
  - rewrite !IH, Pos2Nat.inj_xO. replace (2 * Pos.to_nat n)%nat with (Pos.to_nat n + Pos.to_nat n)%nat by lia. by rewrite Nat.iter_add.
Qed.
Lemma shr_nat r e d : shr r e d = (Nat.iter (Z.to_nat d) shr_1 r, e + Z.max 0 d).
Proof.
  destruct d as [|n|n]; simpl; [by rewrite Z.add_0_r| |by rewrite Z.add_0_r].
  by rewrite iter_pos_nat.
Qed.
Lemma iter_exact n k : 0 ≤ k →
  Nat.iter n shr_1 (Build_shr_record (k * 2 ^ Z.of_nat n) false false) = Build_shr_record k false false.
Proof.
  intros Hk. destruct n as [|n]; [by rewrite Z.mul_1_r|].
  rewrite <-(iter_shr_exact (Pos.of_succ_nat n) k Hk), iter_pos_nat, SuccNat2Pos.id_succ. done.
Qed.

(** The value of a mantissa at an exponent, towards zero. *)
Definition trunc (q e : Z) : Z := if decide (0 ≤ e) then q * 2 ^ e else q / 2 ^ (- e).
Lemma trunc_mono q1 q2 e : q1 ≤ q2 → trunc q1 e ≤ trunc q2 e.
Proof.
  intros Hq. unfold trunc. case_decide; [|apply Z.div_le_mono; [apply Z.pow_pos_nonneg; lia|done]].
  pose proof (Z.pow_nonneg 2 e). nia.
Qed.
Lemma trunc_double q e : 0 ≤ q → trunc (2 * q) e = trunc q (e + 1).
Proof.
  intros Hq. unfold trunc. destruct (decide (0 ≤ e)) as [He|He].
  - rewrite decide_True by lia. rewrite Z.pow_add_r by lia. lia.
  - destruct (decide (0 ≤ e + 1)) as [H1|H1].
    + assert (e = -1) as -> by lia. simpl. rewrite (Z.mul_comm 2 q), Z.div_mul by lia. lia.
    + replace (- e) with (1 + - (e + 1)) by lia. rewrite Z.pow_add_r by lia.
      rewrite Z.div_mul_cancel_l; [done| |lia]. pose proof (Z.pow_pos_nonneg 2 (- (e + 1))). lia.
Qed.
Lemma trunc_exp_mono q e1 e2 : 0 ≤ q → e1 ≤ e2 → trunc q e1 ≤ trunc q e2.
Proof.
  intros Hq He. replace e2 with (e1 + Z.of_nat (Z.to_nat (e2 - e1))) by lia. generalize (Z.to_nat (e2 - e1)) as n. clear He.
  induction n as [|n IH]; [by rewrite Z.add_0_r|]. etrans; [exact IH|].
  replace (e1 + Z.of_nat (S n)) with (e1 + Z.of_nat n + 1) by lia. rewrite <-trunc_double by done. apply trunc_mono. lia.
Qed.

(** The rounded mantissa and its exponent. *)
Definition rounded (m e : Z) : Z * Z :=
  let r := shr_fexp 53 1024 m e loc_Exact in (round_nearest_even (shr_m r.1) (loc_of_shr_record r.1), r.2).

(** Of a mantissa with at least 53 digits. *)
Lemma rounded_shift m e :
  2 ^ 52 ≤ m →
  ∃ s : nat, rounded m e = (round_nearest_even (shr_m (Nat.iter s shr_1 (Build_shr_record m false false)))
                 (loc_of_shr_record (Nat.iter s shr_1 (Build_shr_record m false false))), e + Z.of_nat s)
    ∧ Z.of_nat s = Z.max (Z.log2 m - 52) (-1074 - e).
Proof.
  intros Hm. assert (52 ≤ Z.log2 m) as Hl by (apply Z.log2_le_pow2; lia).
  exists (Z.to_nat (Z.max (Z.log2 m - 52) (-1074 - e))). unfold rounded, shr_fexp. cbn [shr_record_of_loc].
  rewrite Zdigits2_log2 by lia. unfold fexp, emin. rewrite shr_nat. cbn [fst snd].
  replace (Z.max (Z.log2 m + 1 + e - 53) (3 - 1024 - 53) - e) with (Z.max (Z.log2 m - 52) (-1074 - e)) by lia.
  split; [|lia]. do 2 f_equal. lia.
Qed.

Lemma iter_shr_m n : ∀ m, 0 ≤ m → shr_m (Nat.iter n shr_1 (Build_shr_record m false false)) = m / 2 ^ Z.of_nat n.
Proof.
  intros m Hm. destruct n as [|n]; [by rewrite Z.div_1_r|].
  rewrite <-(SuccNat2Pos.id_succ n), <-iter_pos_nat, iter_shr_1 by done. cbn [shr_m]. f_equal. f_equal. lia.
Qed.
Lemma round_bounds r : shr_m r ≤ round_nearest_even (shr_m r) (loc_of_shr_record r) ≤ shr_m r + 1.
Proof. destruct r as [m [] []]; simpl; repeat case_match; lia. Qed.

(** The bounds of the rounded mantissa: below the largest one, and normal unless
    the exponent is the smallest. *)
Lemma rounded_bounds m e :
  2 ^ 52 ≤ m → let r := rounded m e in 0 ≤ r.1 ≤ 2 ^ 53 ∧ -1074 ≤ r.2 ∧ (-1074 < r.2 → 2 ^ 52 ≤ r.1).
Proof.
  intros Hm. destruct (rounded_shift m e Hm) as (s & -> & Hs). cbn [fst snd].
  set (r := Nat.iter s shr_1 _). pose proof (round_bounds r) as Hb.
  assert (shr_m r = m / 2 ^ Z.of_nat s) as Hr by (apply iter_shr_m; lia).
  assert (0 < 2 ^ Z.of_nat s) as Hp by (apply Z.pow_pos_nonneg; lia). pose proof (Z.log2_spec m ltac:(lia)) as [Hl Hu].
  assert (0 ≤ shr_m r) by (rewrite Hr; apply Z.div_pos; lia).
  assert (shr_m r < 2 ^ 53).
  { rewrite Hr. apply Z.div_lt_upper_bound; [done|]. rewrite <-Z.pow_add_r by lia.
    eapply Z.lt_le_trans; [exact Hu|]. apply Z.pow_le_mono_r; lia. }
  split_and!; [lia..|]. intros He. rewrite Hr in *. etrans; [|apply Hb]. apply Z.div_le_lower_bound; [done|].
  rewrite <-Z.pow_add_r by lia. etrans; [|exact Hl]. apply Z.pow_le_mono_r; lia.
Qed.

(** The same number with a smaller exponent rounds to the same. *)
Lemma rounded_rescale m e k : 2 ^ 52 ≤ m → rounded (m * 2 ^ Z.of_nat k) (e - Z.of_nat k) = rounded m e.
Proof.
  intros Hm. assert (0 < 2 ^ Z.of_nat k) as Hk by (apply Z.pow_pos_nonneg; lia).
  destruct (rounded_shift (m * 2 ^ Z.of_nat k) (e - Z.of_nat k)) as (s' & -> & Hs'); [nia|].
  destruct (rounded_shift m e Hm) as (s & -> & Hs).
  rewrite Z.log2_mul_pow2 in Hs' by lia. assert (s' = s + k)%nat as -> by lia.
  rewrite Nat.iter_add, iter_exact by lia. f_equal. lia.
Qed.

Lemma rounded_mono_same m1 m2 e :
  2 ^ 52 ≤ m1 ≤ m2 → trunc (rounded m1 e).1 (rounded m1 e).2 ≤ trunc (rounded m2 e).1 (rounded m2 e).2.
Proof.
  intros [H1 Hle]. destruct (rounded_bounds m1 e) as (B1 & _ & _); [done|].
  destruct (rounded_bounds m2 e) as (B2 & _ & N2); [lia|].
  destruct (rounded_shift m1 e) as (s1 & E1 & S1); [done|]. destruct (rounded_shift m2 e) as (s2 & E2 & S2); [lia|].
  assert (Z.log2 m1 ≤ Z.log2 m2) as Hl by (by apply Z.log2_le_mono).
  destruct (decide (s1 = s2)) as [->|Hne].
  - rewrite E1, E2. cbn [fst snd]. apply trunc_mono, round_key_mono.
    apply (shr_key_mono s2 (Build_shr_record m1 false false) (Build_shr_record m2 false false)); unfold shr_key; simpl; lia.
  - rewrite E2 in N2. cbn [fst snd] in N2. rewrite E1 in B1 |- *. rewrite E2. cbn [fst snd] in *.
    set (q1 := round_nearest_even _ _) in *. set (q2 := round_nearest_even _ _) in *. clearbody q1 q2.
    transitivity (trunc (2 * 2 ^ 52) (e + Z.of_nat s1)); [apply trunc_mono; lia|]. rewrite trunc_double by lia.
    transitivity (trunc (2 ^ 52) (e + Z.of_nat s2)); [apply trunc_exp_mono; lia|]. apply trunc_mono, N2. lia.
Qed.
Lemma rounded_mono m1 e1 m2 e2 x1 x2 e :
  2 ^ 52 ≤ m1 → 2 ^ 52 ≤ m2 → e ≤ e1 → e ≤ e2 → x1 = m1 * 2 ^ (e1 - e) → x2 = m2 * 2 ^ (e2 - e) → x1 ≤ x2 →
  trunc (rounded m1 e1).1 (rounded m1 e1).2 ≤ trunc (rounded m2 e2).1 (rounded m2 e2).2.
Proof.
  intros H1 H2 L1 L2 -> -> Hle.
  rewrite <-(rounded_rescale m1 e1 (Z.to_nat (e1 - e)) H1), <-(rounded_rescale m2 e2 (Z.to_nat (e2 - e)) H2).
  rewrite !Z2Nat.id by lia. replace (e1 - (e1 - e)) with e by lia. replace (e2 - (e2 - e)) with e by lia.
  apply rounded_mono_same. split; [|done]. assert (0 < 2 ^ (e1 - e)) by (apply Z.pow_pos_nonneg; lia). nia.
Qed.

Lemma round_aux_to u m e :
  0 < u ≤ 2 ^ 900 → 2 ^ 52 ≤ m →
  f64_to u (binary_round_aux 53 1024 false m e loc_Exact) = Z.min (u - 1) (trunc (rounded m e).1 (rounded m e).2).
Proof.
  intros Hu Hm. destruct (rounded_bounds m e Hm) as (B & He & _). revert B He. unfold rounded, binary_round_aux.
  destruct (shr_fexp 53 1024 m e loc_Exact) as [r e1]. cbn [fst snd]. set (q := round_nearest_even _ _). clearbody q.
  clear m r Hm e. intros B He.
  assert (∃ q' e', shr_fexp 53 1024 q e1 loc_Exact = (Build_shr_record q' false false, e') ∧ 0 ≤ q'
            ∧ trunc q' e' = trunc q e1 ∧ (q = 0 → q' = 0)) as (q' & e' & -> & Hq' & Ht & _).
  { unfold shr_fexp. cbn [shr_record_of_loc]. rewrite shr_nat. unfold fexp, emin.
    destruct (decide (q = 2 ^ 53)) as [->|Hne].
    - change (Zdigits2 (2 ^ 53)) with 54. replace (Z.max (54 + e1 - 53) (3 - 1024 - 53) - e1) with 1 by lia.
      exists (2 ^ 52), (e1 + 1). split_and!; [done|lia| |lia]. by rewrite <-trunc_double by lia.
    - assert (Zdigits2 q ≤ 53) as Hd.
      { destruct (decide (q = 0)) as [->|]; [simpl; lia|]. rewrite Zdigits2_log2 by lia.
        assert (Z.log2 q < 53) by (apply Z.log2_lt_pow2; lia). lia. }
      exists q, e1. rewrite Z2Nat.nonpos, Z.max_l, Z.add_0_r by lia. split_and!; [done|lia|done|done]. }
  rewrite <-Ht. cbn [shr_m]. destruct q' as [|q'|q']; [| |lia].
  - cbn [f64_to]. replace (trunc 0 e') with 0; [lia|]. unfold trunc. by case_decide.
  - destruct (e' <=? 1024 - 53) eqn:Hc; cbn [f64_to]; [done|]. apply Z.leb_gt in Hc.
    unfold trunc. rewrite decide_True by lia. assert (2 ^ 900 ≤ 2 ^ e') by (apply Z.pow_le_mono_r; lia). nia.
Qed.

(** Multiplying by a larger integer never gives less. *)
Lemma f64_mul_mono u x n1 n2 :
  0 < u ≤ 2 ^ 900 → 0 < n1 ≤ n2 → n2 < 2 ^ 53 → f64_to u (f64_mul x (f64_of n1)) ≤ f64_to u (f64_mul x (f64_of n2)).
Proof.
  intros Hu Hn H53. destruct (f64_of_exact n1) as (m1 & e1 & -> & He1 & Hm1 & H521); [lia|].
  destruct (f64_of_exact n2) as (m2 & e2 & -> & He2 & Hm2 & H522); [lia|].
  destruct x as [s|s| |[] mx ex]; try done; unfold f64_mul, SFmul; cbn [xorb].
  - assert (∀ m e, f64_to u (binary_round_aux 53 1024 true (Zpos m) e loc_Exact) = 0) as H0; [|by rewrite !H0].
    intros m e. unfold binary_round_aux. destruct (shr_fexp _ _ (Zpos m) _ _) as [r e'].
    destruct (shr_fexp _ _ _ e' _) as [r' e'']. destruct (shr_m r'); [done| |done]. by destruct (_ <=? _).
  - rewrite !round_aux_to by lia. apply Z.min_le_compat_l.
    set (e0 := Z.min e1 e2). assert (0 < 2 ^ (e1 - e0) ∧ 0 < 2 ^ (e2 - e0)) as [P1 P2] by (split; apply Z.pow_pos_nonneg; lia).
    eapply (rounded_mono _ _ _ _ _ _ (ex + e0)); [lia..|lia|lia|reflexivity|reflexivity|].
    replace (ex + e1 - (ex + e0)) with (e1 - e0) by lia. replace (ex + e2 - (ex + e0)) with (e2 - e0) by lia.
    rewrite !Pos2Z.inj_mul, Hm1, Hm2, <-!Z.mul_assoc, <-!Z.pow_add_r by lia.
    replace (- e1 + (e1 - e0)) with (- e0) by lia. replace (- e2 + (e2 - e0)) with (- e0) by lia.
    assert (0 < 2 ^ (- e0)) by (apply Z.pow_pos_nonneg; lia). nia.
Qed.
