(* ===== verification/Priority.v ===== *)
(** * Estimation of transaction priorities

    Models data_structures/src/chain/priority.rs: the priorities that the
    transactions of a block paid ([Priorities], filled by the visitor of the block
    validation), the queue of the last blocks ([PriorityEngine]) and the estimates of
    the priority that gets a transaction into a block ([target_minutes]).

    A [Priority] is an [OrderedFloat<f64>]: its comparisons are those of the class
    [FloatOrd]; the arithmetic of the estimates is that of binary64. *)

From stdpp Require Import base tactics numbers list gmap.
From Stdlib Require Import ZArith Lia Floats.SpecFloat.
From S2P Require Import Prelude Float Transaction.
Local Open Scope Z_scope.
Local Open Scope rust_scope.

(** ** Doubles *)

Definition f64_zero : f64 := S754_zero false.
Definition f64_MAX : f64 := S754_finite false (2 ^ 53 - 1)%positive 971.
(** [x == y]; [x.min(y)] and [x.max(y)], which return the other argument of a [NaN]. *)
Definition f64_eq (x y : f64) : bool := SFeqb x y.
Definition f64_min (x y : f64) : f64 :=
  match x, y with
  | S754_nan, _ => y
  | _, S754_nan => x
  | _, _ => if f64_lt y x then y else x
  end.
Definition f64_max (x y : f64) : f64 :=
  match x, y with
  | S754_nan, _ => y
  | _, S754_nan => x
  | _, _ => if f64_lt x y then y else x
  end.
(** [x.ceil()] *)
Definition f64_ceil (x : f64) : f64 :=
  match x with
  | S754_finite s m e =>
      if decide (0 ≤ e) then x
      else let n := if s then - (Zpos m / 2 ^ (- e)) else - ((- Zpos m) / 2 ^ (- e)) in binary_normalize 53 1024 n 0 s
  | _ => x
  end.

(** ** Priorities of a block *)

Abbreviation Priority := f64.

Definition default_stinky : Priority := f64_div (f64_of 1) (f64_of 10).
Definition default_low : Priority := f64_div (f64_of 2) (f64_of 10).
Definition default_medium : Priority := f64_div (f64_of 3) (f64_of 10).
Definition default_high : Priority := f64_div (f64_of 4) (f64_of 10).
Definition default_opulent : Priority := f64_div (f64_of 5) (f64_of 10).
Definition from_absolute_fee_weight (fee weight : Z) : Priority := f64_div (f64_of fee) (f64_of weight).

Record Priorities := MkPriorities {
  drt_highest : Priority;
  drt_lowest : option Priority;
  vtt_highest : Priority;
  vtt_lowest : option Priority;
}.
Definition priorities_default : Priorities := MkPriorities f64_zero None f64_zero None.

Section ordered.
Context `{FloatOrd}.

(** The highest and lowest priority after one more. *)
Definition digest (highest : Priority) (lowest : option Priority) (priority : Priority) : Priority * option Priority :=
  (if decide (fle priority highest) then highest else priority,
   match lowest with
   | Some l => if decide (fle l priority) then Some l else Some priority
   | None => if f64_eq priority f64_zero then None else Some priority
   end).
Definition digest_drt_priority (p : Priorities) (priority : Priority) : Priorities :=
  let '(h, l) := digest (drt_highest p) (drt_lowest p) priority in MkPriorities h l (vtt_highest p) (vtt_lowest p).
Definition digest_vtt_priority (p : Priorities) (priority : Priority) : Priorities :=
  let '(h, l) := digest (vtt_highest p) (vtt_lowest p) priority in MkPriorities (drt_highest p) (drt_lowest p) h l.

(** [PriorityVisitor::visit]; the visits of the validation of a block are its
    transactions with their fee and weight. *)
Definition visit (p : Priorities) (v : Transaction * Z * Z) : Priorities :=
  let '(transaction, fee, weight) := v in
  match transaction with
  | DataRequest _ => digest_drt_priority p (from_absolute_fee_weight fee weight)
  | ValueTransfer _ => digest_vtt_priority p (from_absolute_fee_weight fee weight)
  | _ => p
  end.
Definition visit_all (visits : list (Transaction * Z * Z)) : Priorities := foldl visit priorities_default visits.

Definition option_update_if_less_than (old candidate : option Priority) : option Priority :=
  match candidate, old with
  | Some new, Some o => if decide (fle o new) then old else candidate
  | Some _, None => candidate
  | None, _ => old
  end.

(** ** The queue *)

Definition DEFAULT_QUEUE_CAPACITY_EPOCHS : nat := 2047.
Definition MINIMUM_TRACKED_EPOCHS : Z := 20.

(** The newest entry is the front of the queue. *)
Record PriorityEngine := MkPriorityEngine { capacity : nat; priorities : list Priorities }.
Definition with_capacity (capacity : nat) : PriorityEngine := MkPriorityEngine capacity [].
Definition engine_default : PriorityEngine := with_capacity DEFAULT_QUEUE_CAPACITY_EPOCHS.
Definition as_vec (e : PriorityEngine) : list Priorities := reverse (priorities e).
Definition from_vec_with_capacity (ps : list Priorities) (capacity : nat) : PriorityEngine :=
  MkPriorityEngine capacity (take capacity ps).
Definition from_vec (ps : list Priorities) : PriorityEngine := from_vec_with_capacity ps DEFAULT_QUEUE_CAPACITY_EPOCHS.
Definition push_priorities (e : PriorityEngine) (p : Priorities) : PriorityEngine :=
  let ps := if decide (length (priorities e) = capacity e) then removelast (priorities e) else priorities e in
  MkPriorityEngine (capacity e) (p :: ps).

(** ** Estimates *)

(** [counter::Counter]. *)
Record Counter := MkCounter { counter : gmap Z Z; n : Z }.
Definition counter_new : Counter := MkCounter ∅ 0.
Definition add (c : Counter) (value : Z) : Counter :=
  MkCounter (<[value := wadd U64 (default 0 (counter c !! value)) 1]> (counter c)) (wadd U64 (n c) 1).
Definition query (c : Counter) (threshold : f64) : list Z :=
  let bound := f64_to_u64 (f64_max (f64_ceil (f64_mul threshold (f64_of (n c)))) f64_zero) in
  (map_to_list (filter (λ kv, bound ≤ kv.2) (counter c))).*1.

Record PriorityEstimate := MkEstimate { priority : Priority; time_to_block : Z }.
Record PrioritiesEstimate := MkEstimates {
  drt_stinky : PriorityEstimate; drt_low : PriorityEstimate; drt_medium : PriorityEstimate;
  drt_high : PriorityEstimate; drt_opulent : PriorityEstimate;
  vtt_stinky : PriorityEstimate; vtt_low : PriorityEstimate; vtt_medium : PriorityEstimate;
  vtt_high : PriorityEstimate; vtt_opulent : PriorityEstimate;
}.

(** The lowest priorities of the blocks, of one kind of transaction. *)
Definition drt_min (p : Priorities) : f64 := default (drt_highest p) (drt_lowest p).
Definition vtt_min (p : Priorities) : f64 := default (vtt_highest p) (vtt_lowest p).

(** The first pass: the smallest and the largest of them. *)
Definition absolutes (minima : list f64) : f64 * f64 :=
  foldl (λ lh x, (f64_min lh.1 x, f64_max lh.2 x)) (f64_MAX, f64_zero) minima.
Definition bucket_size (lowest highest : f64) : f64 := f64_div (f64_sub highest lowest) (f64_of 50).

(** The second pass: the buckets that one block counts for. *)
Definition bucket (lowest size x : f64) : Z := f64_to_u64 (f64_round (f64_div (f64_sub x lowest) size)).
Definition count_block (lowest size : f64) (c : Counter) (x : f64) : Counter :=
  let b := bucket lowest size x in
  let first := wmul U64 b 90 / 100 in
  foldl add c (seqZ first (b - first + 1)).
Definition count_blocks (lowest size : f64) (minima : list f64) : Counter := foldl (count_block lowest size) counter_new minima.

Definition threshold (minutes seconds_per_epoch : Z) (priorities_count : f64) : f64 :=
  f64_div (f64_div (f64_mul (f64_of minutes) (f64_of 60)) (f64_of seconds_per_epoch)) priorities_count.
(** The largest bucket that is frequent enough, and its priority. *)
Definition frequent_bucket (c : Counter) (t : f64) : Z := foldr Z.max 0 (query c t).
Definition estimate_for (lowest size : f64) (c : Counter) (t : f64) : Priority :=
  f64_add lowest (f64_mul (f64_of (frequent_bucket c t)) size).
(** [cmp::max] *)
Definition priority_max (x y : Priority) : Priority := if decide (fle x y) then y else x.

Definition target_minutes (ps : list Priorities) (t0 t1 t2 t3 t4 : Z) (seconds_per_epoch : Z) : PrioritiesEstimate :=
  let priorities_count := f64_of (Z.of_nat (length ps)) in
  let '(drt_lowest_absolute, drt_highest_absolute) := absolutes (drt_min <$> ps) in
  let '(vtt_lowest_absolute, vtt_highest_absolute) := absolutes (vtt_min <$> ps) in
  let drt_buckets_size := bucket_size drt_lowest_absolute drt_highest_absolute in
  let vtt_buckets_size := bucket_size vtt_lowest_absolute vtt_highest_absolute in
  let drt_counter := count_blocks drt_lowest_absolute drt_buckets_size (drt_min <$> ps) in
  let vtt_counter := count_blocks vtt_lowest_absolute vtt_buckets_size (vtt_min <$> ps) in
  let drt minutes tier := MkEstimate
    (priority_max (estimate_for drt_lowest_absolute drt_buckets_size drt_counter
                     (threshold minutes seconds_per_epoch priorities_count)) tier) (minutes * 60) in
  let vtt minutes tier := MkEstimate
    (priority_max (estimate_for vtt_lowest_absolute vtt_buckets_size vtt_counter
                     (threshold minutes seconds_per_epoch priorities_count)) tier) (minutes * 60) in
  {| drt_stinky := drt t0 default_stinky; drt_low := drt t1 default_low; drt_medium := drt t2 default_medium;
     drt_high := drt t3 default_high; drt_opulent := drt t4 default_opulent;
     vtt_stinky := vtt t0 default_stinky; vtt_low := vtt t1 default_low; vtt_medium := vtt t2 default_medium;
     vtt_high := vtt t3 default_high; vtt_opulent := vtt t4 default_opulent |}.

Inductive PriorityError :=
  | Conversion
  | NotEnoughSampledEpochs (current required wait_minutes : Z).

(** [seconds] is the number of whole seconds of the duration. *)
Definition estimate_priority (e : PriorityEngine) (seconds : Z) : result PriorityError PrioritiesEstimate :=
  let len := Z.min (U32 - 1) (Z.of_nat (length (priorities e))) in
  if decide (len < MINIMUM_TRACKED_EPOCHS) then
    if decide (U32 ≤ seconds) then Err Conversion
    else Err (NotEnoughSampledEpochs len MINIMUM_TRACKED_EPOCHS
                (wadd U32 (wmul U32 (MINIMUM_TRACKED_EPOCHS - len) seconds / 60) 1))
  else if decide (U16 ≤ seconds) then Err Conversion
  else Ok (target_minutes (priorities e) 360 60 15 5 1 seconds).
End ordered.

(** ** Properties *)

Definition push_all (e : PriorityEngine) (ps : list Priorities) : PriorityEngine := foldl push_priorities e ps.

Lemma push_window c newest p :
  (0 < c)%nat → push_priorities (MkPriorityEngine c (take c newest)) p = MkPriorityEngine c (take c (p :: newest)).
Proof.
  intros Hc. unfold push_priorities. cbn [capacity priorities]. f_equal. destruct c as [|c]; [lia|]. cbn [take]. f_equal.
  rewrite length_take. destruct (decide (S c ≤ length newest)%nat) as [Hl|Hl].
  - rewrite decide_True by lia. rewrite removelast_firstn_len, length_take, firstn_firstn. f_equal. lia.
  - rewrite decide_False by lia. rewrite !take_ge by lia. done.
Qed.

(** The engine tracks the last blocks: after any sequence of blocks the queue holds
    those that fit in its capacity, the newest first. *)
Theorem recent_blocks_tracked c ps :
  (0 < c)%nat → push_all (with_capacity c) ps = MkPriorityEngine c (take c (reverse ps)).
Proof.
  intros Hc. unfold push_all, with_capacity. induction ps as [|p ps IH] using rev_ind; [by destruct c|].
  rewrite foldl_app. cbn [foldl]. rewrite IH, push_window, reverse_snoc by done. done.
Qed.

(** [as_vec] lists the oldest block first and [from_vec] expects the newest first:
    an engine read back from its own vector has its blocks in reverse. *)
Lemma vector_roundtrip_reverses e :
  (length (priorities e) ≤ DEFAULT_QUEUE_CAPACITY_EPOCHS)%nat → priorities (from_vec (as_vec e)) = reverse (priorities e).
Proof. intros Hl. unfold from_vec, from_vec_with_capacity, as_vec. cbn [priorities]. rewrite take_ge; [done|]. by rewrite length_reverse. Qed.

Section digested.
Context `{FloatOrd}.

Definition digest_all (ps : list Priority) : Priority * option Priority :=
  foldl (λ hl p, digest hl.1 hl.2 p) (f64_zero, None) ps.

(** What the digestion of some priorities knows about them. *)
Definition digested (ps : list Priority) (hl : Priority * option Priority) : Prop :=
  (hl.1 = f64_zero ∨ hl.1 ∈ ps) ∧ fle f64_zero hl.1 ∧ Forall (λ p, fle p hl.1) ps
  ∧ match hl.2 with
    | Some l => l ∈ ps ∧ Forall (λ p, fle l p ∨ f64_eq p f64_zero = true) ps
    | None => Forall (λ p, f64_eq p f64_zero = true) ps
    end.

Lemma fle_not x y : ¬ fle x y → fle y x.
Proof. intros Hn. by destruct (total fle x y). Qed.
Lemma fle_refl x : fle x x.
Proof. by destruct (total fle x x). Qed.
Hint Resolve fle_not fle_refl : core.

Lemma digest_step ps hl p : digested ps hl → digested (ps ++ [p]) (digest hl.1 hl.2 p).
Proof.
  intros (Hin & Hz & Hhi & Hlo). destruct hl as [h l]. unfold digested, digest in *. cbn [fst snd] in *.
  split_and!.
  - case_decide; [|right; set_solver]. destruct Hin; [by left|right; set_solver].
  - case_decide; [done|]. by etrans; [|apply fle_not].
  - apply Forall_app. split; [|case_decide; by constructor]. eapply Forall_impl; [exact Hhi|]. cbn. intros q Hq.
    case_decide; [done|]. by etrans; [|apply fle_not].
  - destruct l as [l|].
    + destruct Hlo as [Hl Hle]. case_decide as Hd; (split; [set_solver|]); apply Forall_app; (split; [|constructor; [|done]]); auto.
      eapply Forall_impl; [exact Hle|]. cbn. intros q [Hq|Hq]; [|by right]. left. by etrans; [apply fle_not, Hd|].
    + destruct (f64_eq p f64_zero) eqn:E.
      * apply Forall_app. split; [done|]. by constructor.
      * split; [set_solver|]. apply Forall_app. split; [|constructor; auto]. eapply Forall_impl; [exact Hlo|]. cbn. auto.
Qed.

(** The priorities kept for a block are the highest one, and the lowest of those
    that are not zero, up to zeros that come after one that is not. *)
Theorem block_priorities_digested ps : digested ps (digest_all ps).
Proof.
  unfold digest_all. induction ps as [|p ps IH] using rev_ind.
  - cbn. split_and!; [by left|auto|constructor..].
  - rewrite foldl_app. by apply digest_step.
Qed.
End digested.

(** A transaction without a fee counts as the lowest priority of its block only when
    a transaction with a fee comes before it. *)
Example lowest_depends_on_order :
  (digest_all [f64_zero; f64_one]).2 = Some f64_one ∧ (digest_all [f64_one; f64_zero]).2 = Some f64_zero.
Proof. vm_compute. done. Qed.

(** The estimates on blocks with a constant priority. *)
Example constant_blocks_estimated :
  let ps := replicate 30 (MkPriorities (f64_of 2) (Some (f64_of 2)) (f64_of 3) (Some (f64_of 3))) in
  match estimate_priority (MkPriorityEngine 50 ps) 45 with
  | Ok r => priority (drt_opulent r) = f64_of 2 ∧ priority (vtt_stinky r) = f64_of 3 ∧ time_to_block (vtt_low r) = 3600
  | _ => False
  end.
Proof. vm_compute. done. Qed.
