(* ===== verification/TxPool.v ===== *)
(** * The pool of transactions

    Models [TransactionsPool] and [UnconfirmedTransactions] of
    data_structures/src/chain/mod.rs: the transactions that wait for a block, by
    kind, indexed by priority and by the outputs they spend.

    The three fields that the code keeps per kind ([vt_transactions],
    [sorted_vt_index], [total_vt_weight] and so on) are a [Table]; the code that
    repeats per kind is written once over an [Access] to the table.  A [BTreeSet]
    of priorities and hashes is a finite set with its iteration order; priorities
    are quotients of unsigned integers, so that equality of floats and of their
    representations coincide.  Transaction hashes and SHA-256 are parameters, and
    so is the order in which hash tables are visited. *)

From stdpp Require Import base tactics numbers list gmap sorting.
From Stdlib Require Import ZArith Lia.
From S2P Require Import Prelude Tapi Float Hashes Superblock Rad Versioning Transaction DataRequest.
Local Open Scope Z_scope.
Local Open Scope rust_scope.

(** ** Tables of prioritized transactions *)

Record Table (T : Type) := MkTable {
  entries : gmap Hash (f64 * T);
  sorted_index : gset (f64 * Hash);
  total_weight : Z;
}.
Arguments MkTable {T}. Arguments entries {T}. Arguments sorted_index {T}. Arguments total_weight {T}.
Definition table_new {T} : Table T := MkTable ∅ ∅ 0.

Section table.
Context {T : Type} (weight : T → Z).
Definition table_insert (t : Table T) (key : Hash) (priority : f64) (tx : T) : Table T :=
  MkTable (<[key := (priority, tx)]> (entries t)) ({[ (priority, key) ]} ∪ sorted_index t)
    (wadd U64 (total_weight t) (weight tx)).
Definition table_remove (t : Table T) (key : Hash) : option (T * Table T) :=
  '(priority, tx) ← entries t !! key;
  Some (tx, MkTable (delete key (entries t)) (sorted_index t ∖ {[ (priority, key) ]})
              (wsub U64 (total_weight t) (weight tx))).
End table.

(** The order of [PrioritizedHash] and the iteration of the index. *)
Definition prioritized_le `{FloatOrd} (x y : f64 * Hash) : Prop :=
  fle x.1 y.1 ∧ (fle y.1 x.1 → ole x.2 y.2).
#[export] Instance prioritized_le_dec `{FloatOrd} : RelDecision prioritized_le.
Proof. intros x y. unfold prioritized_le. apply _. Defined.
Definition index_iter `{FloatOrd} (s : gset (f64 * Hash)) : list (f64 * Hash) := merge_sort prioritized_le (elements s).

(** ** State *)

Record UnconfirmedTransactions := MkUnconfirmed { current : list Hash; previous : list Hash }.
Definition unconfirmed_update (u : UnconfirmedTransactions) : UnconfirmedTransactions := MkUnconfirmed [] (current u).
Definition unconfirmed_insert (u : UnconfirmedTransactions) (h : Hash) : UnconfirmedTransactions :=
  MkUnconfirmed (current u ++ [h]) (previous u).
Definition unconfirmed_clear (u : UnconfirmedTransactions) : UnconfirmedTransactions := MkUnconfirmed [] [].
Definition unconfirmed_remove_all (u : UnconfirmedTransactions) : list Hash * UnconfirmedTransactions :=
  (current u ++ previous u, unconfirmed_clear u).

Record TransactionsPool := MkTxPool {
  vts : Table VTTransaction;
  drs : Table DRTransaction;
  sts : Table StakeTransaction;
  uts : Table UnstakeTransaction;
  co_hash_index : gmap Hash CommitTransaction;
  co_transactions : gmap Hash (gmap PublicKeyHash Hash);
  re_hash_index : gmap Hash RevealTransaction;
  re_transactions : gmap Hash (gmap PublicKeyHash Hash);
  output_pointer_map : gmap OutputPointer (list Hash);
  weight_limit : Z;
  vt_to_dr_factor : f64;
  minimum_vtt_fee : Z;
  minimum_st_fee : Z;
  minimum_ut_fee : Z;
  collateral_minimum : Z;
  required_reward_collateral_ratio : Z;
  unconfirmed_transactions : UnconfirmedTransactions;
}.

Definition pool_default : TransactionsPool :=
  MkTxPool table_new table_new table_new table_new ∅ ∅ ∅ ∅ ∅ (U64 - 1) f64_one 0 0 0 0 (U64 - 1) (MkUnconfirmed [] []).

(** Updates of groups of fields. *)
Definition with_tables (p : TransactionsPool) v d s u : TransactionsPool :=
  MkTxPool v d s u (co_hash_index p) (co_transactions p) (re_hash_index p) (re_transactions p)
    (output_pointer_map p) (weight_limit p) (vt_to_dr_factor p) (minimum_vtt_fee p) (minimum_st_fee p)
    (minimum_ut_fee p) (collateral_minimum p) (required_reward_collateral_ratio p) (unconfirmed_transactions p).
Definition with_commits (p : TransactionsPool) ci ct : TransactionsPool :=
  MkTxPool (vts p) (drs p) (sts p) (uts p) ci ct (re_hash_index p) (re_transactions p)
    (output_pointer_map p) (weight_limit p) (vt_to_dr_factor p) (minimum_vtt_fee p) (minimum_st_fee p)
    (minimum_ut_fee p) (collateral_minimum p) (required_reward_collateral_ratio p) (unconfirmed_transactions p).
Definition with_reveals (p : TransactionsPool) ri rt : TransactionsPool :=
  MkTxPool (vts p) (drs p) (sts p) (uts p) (co_hash_index p) (co_transactions p) ri rt
    (output_pointer_map p) (weight_limit p) (vt_to_dr_factor p) (minimum_vtt_fee p) (minimum_st_fee p)
    (minimum_ut_fee p) (collateral_minimum p) (required_reward_collateral_ratio p) (unconfirmed_transactions p).
Definition with_pointers (p : TransactionsPool) m : TransactionsPool :=
  MkTxPool (vts p) (drs p) (sts p) (uts p) (co_hash_index p) (co_transactions p) (re_hash_index p) (re_transactions p)
    m (weight_limit p) (vt_to_dr_factor p) (minimum_vtt_fee p) (minimum_st_fee p)
    (minimum_ut_fee p) (collateral_minimum p) (required_reward_collateral_ratio p) (unconfirmed_transactions p).
Definition with_settings (p : TransactionsPool) wl f mv cm rr : TransactionsPool :=
  MkTxPool (vts p) (drs p) (sts p) (uts p) (co_hash_index p) (co_transactions p) (re_hash_index p) (re_transactions p)
    (output_pointer_map p) wl f mv (minimum_st_fee p) (minimum_ut_fee p) cm rr (unconfirmed_transactions p).
Definition with_unconfirmed (p : TransactionsPool) u : TransactionsPool :=
  MkTxPool (vts p) (drs p) (sts p) (uts p) (co_hash_index p) (co_transactions p) (re_hash_index p) (re_transactions p)
    (output_pointer_map p) (weight_limit p) (vt_to_dr_factor p) (minimum_vtt_fee p) (minimum_st_fee p)
    (minimum_ut_fee p) (collateral_minimum p) (required_reward_collateral_ratio p) u.

(** Access to the tables of the kinds that spend outputs. *)
Record Access (T : Type) := MkAccess {
  acc_get : TransactionsPool → Table T;
  acc_set : TransactionsPool → Table T → TransactionsPool;
  acc_weight : T → Z;
  acc_inputs : T → list Input;
}.
Arguments acc_get {T}. Arguments acc_set {T}. Arguments acc_weight {T}. Arguments acc_inputs {T}. Arguments MkAccess {T}.
Definition vt_access : Access VTTransaction :=
  MkAccess vts (λ p t, with_tables p t (drs p) (sts p) (uts p)) vt_weight vt_inputs.
Definition dr_access : Access DRTransaction :=
  MkAccess drs (λ p t, with_tables p (vts p) t (sts p) (uts p)) dr_tx_weight d_inputs.
Definition st_access : Access StakeTransaction :=
  MkAccess sts (λ p t, with_tables p (vts p) (drs p) t (uts p)) stake_weight s_inputs.

(** ** Reads and settings *)

Definition set_minimum_vtt_fee (p : TransactionsPool) (fee : Z) : TransactionsPool :=
  with_settings p (weight_limit p) (vt_to_dr_factor p) fee (collateral_minimum p) (required_reward_collateral_ratio p).
Definition set_collateral_minimum (p : TransactionsPool) (c : Z) : TransactionsPool :=
  with_settings p (weight_limit p) (vt_to_dr_factor p) (minimum_vtt_fee p) (wmul U64 20 c) (required_reward_collateral_ratio p).
Definition set_required_reward_collateral_ratio (p : TransactionsPool) (r : Z) : TransactionsPool :=
  with_settings p (weight_limit p) (vt_to_dr_factor p) (minimum_vtt_fee p) (collateral_minimum p) r.

Definition pool_is_empty (p : TransactionsPool) : bool :=
  bool_decide (entries (vts p) = ∅) && bool_decide (entries (drs p) = ∅) && bool_decide (co_transactions p = ∅)
  && bool_decide (re_transactions p = ∅) && bool_decide (entries (sts p) = ∅) && bool_decide (entries (uts p) = ∅).
Definition vt_len (p : TransactionsPool) : nat := size (entries (vts p)).
Definition dr_len (p : TransactionsPool) : nat := size (entries (drs p)).
Definition st_len (p : TransactionsPool) : nat := size (entries (sts p)).
Definition ut_len (p : TransactionsPool) : nat := size (entries (uts p)).

Definition pool_clear (p : TransactionsPool) : TransactionsPool :=
  with_unconfirmed (with_pointers (with_reveals (with_commits
    (with_tables p table_new table_new table_new table_new) ∅ ∅) ∅ ∅) ∅) (unconfirmed_clear (unconfirmed_transactions p)).
Definition clear_commits (p : TransactionsPool) : TransactionsPool := with_commits p ∅ ∅.
Definition clear_reveals (p : TransactionsPool) : TransactionsPool := with_reveals p ∅ ∅.
Definition clear_stake_transactions (p : TransactionsPool) : TransactionsPool :=
  with_tables p (vts p) (drs p) (MkTable ∅ ∅ (total_weight (sts p))) (uts p).
Definition clear_unstake_transactions (p : TransactionsPool) : TransactionsPool :=
  with_tables p (vts p) (drs p) (sts p) (MkTable ∅ ∅ (total_weight (uts p))).

Definition vt_contains (p : TransactionsPool) (key : Hash) : bool := bool_decide (is_Some (entries (vts p) !! key)).
Definition dr_contains (p : TransactionsPool) (key : Hash) : bool := bool_decide (is_Some (entries (drs p) !! key)).
Definition st_contains (p : TransactionsPool) (key : Hash) : bool := bool_decide (is_Some (entries (sts p) !! key)).
Definition ut_contains (p : TransactionsPool) (key : Hash) : bool := bool_decide (is_Some (entries (uts p) !! key)).
Definition commit_contains (p : TransactionsPool) (dr_pointer : Hash) (pkh : PublicKeyHash) (h : Hash) :
    result TransactionError bool :=
  match hm ← co_transactions p !! dr_pointer; hm !! pkh with
  | Some h' => if decide (h' = h) then Ok true else Err (DuplicatedCommit pkh dr_pointer)
  | None => Ok false
  end.
Definition reveal_contains (p : TransactionsPool) (dr_pointer : Hash) (pkh : PublicKeyHash) (h : Hash) :
    result TransactionError bool :=
  match hm ← re_transactions p !! dr_pointer; hm !! pkh with
  | Some h' => if decide (h' = h) then Ok true else Err (DuplicatedReveal pkh dr_pointer)
  | None => Ok false
  end.

Definition total_transactions_weight (p : TransactionsPool) : Z :=
  wadd U64 (wadd U64 (total_weight (vts p)) (total_weight (drs p))) (total_weight (sts p)).

(** ** The outputs that transactions spend *)

(** One input of [remove_tx_from_output_pointer_map]; [None] is its panic. *)
Definition unlink (key : Hash) (m : gmap OutputPointer (list Hash)) (input : Input) :
    option (gmap OutputPointer (list Hash)) :=
  match m !! output_pointer input with
  | None => Some m
  | Some hs =>
      '(idx, _) ← list_find (λ x, x = key) hs;
      let hs := swap_remove idx hs in
      Some (if decide (hs = []) then delete (output_pointer input) m else <[output_pointer input := hs]> m)
  end.
Definition remove_tx_from_output_pointer_map (key : Hash) (inputs : list Input) (m : gmap OutputPointer (list Hash)) :
    option (gmap OutputPointer (list Hash)) :=
  foldl (λ acc i, m ← acc; unlink key m i) (Some m) inputs.

(** The [push] of [insert] for every input. *)
Definition link (key : Hash) (inputs : list Input) (m : gmap OutputPointer (list Hash)) : gmap OutputPointer (list Hash) :=
  foldl (λ m i, <[output_pointer i := default [] (m !! output_pointer i) ++ [key]]> m) m inputs.

(** ** Removal *)

(** [vt_remove_inner], [dr_remove_inner] and [st_remove_inner]. *)
Definition remove_inner {T} (a : Access T) (p : TransactionsPool) (key : Hash) (consolidated : bool) :
    option (TransactionsPool * option T) :=
  match table_remove (acc_weight a) (acc_get a p) key with
  | None => Some (p, None)
  | Some (tx, t) =>
      let p := acc_set a p t in
      if consolidated then Some (p, Some tx)
      else m ← remove_tx_from_output_pointer_map key (acc_inputs a tx) (output_pointer_map p);
           Some (with_pointers p m, Some tx)
  end.
Definition ut_remove_inner (p : TransactionsPool) (key : Hash) : TransactionsPool * option UnstakeTransaction :=
  match table_remove unstake_weight (uts p) key with
  | None => (p, None)
  | Some (tx, t) => (with_tables p (vts p) (drs p) (sts p) t, Some tx)
  end.

(** The three removals of [remove_inputs] for one hash. *)
Definition remove_spender (p : TransactionsPool) (h : Hash) : option TransactionsPool :=
  '(p, _) ← remove_inner vt_access p h false;
  '(p, _) ← remove_inner dr_access p h false;
  '(p, _) ← remove_inner st_access p h false;
  Some p.
Definition remove_input (p : TransactionsPool) (input : Input) : option TransactionsPool :=
  match output_pointer_map p !! output_pointer input with
  | None => Some p
  | Some hashes =>
      let p := with_pointers p (delete (output_pointer input) (output_pointer_map p)) in
      foldl (λ acc h, p ← acc; remove_spender p h) (Some p) hashes
  end.
Definition remove_inputs (p : TransactionsPool) (inputs : list Input) : option TransactionsPool :=
  foldl (λ acc i, p ← acc; remove_input p i) (Some p) inputs.

Section operations.
Context `{FloatOrd}.
(** [Hashable::hash] of a transaction and the public key hash of a key. *)
Context (tx_hash : Transaction → Hash) (calculate_sha256 : list Z → Hash).

Definition contains (p : TransactionsPool) (t : Transaction) : result TransactionError bool :=
  let h := tx_hash t in
  match t with
  | ValueTransfer _ => Ok (vt_contains p h)
  | DataRequest _ => Ok (dr_contains p h)
  | Commit ct => commit_contains p (c_dr_pointer ct) (pkh calculate_sha256 (vrf_public_key (claim_proof (c_proof ct)))) h
  | Reveal rt => reveal_contains p (r_dr_pointer rt) (r_pkh rt) h
  | Tally _ => Err NotValidTransaction
  | Mint _ => Err NotValidTransaction
  | TxStake _ => Ok (st_contains p h)
  | TxUnstake _ => Ok (ut_contains p h)
  end.

(** [vt_remove], [dr_remove] and [st_remove]: the transaction has been included in
    a block. *)
Definition consolidate {T} (a : Access T) (p : TransactionsPool) (key : Hash) (tx : T) :
    option (TransactionsPool * option T) :=
  '(p, t) ← remove_inner a p key true;
  p ← remove_inputs p (acc_inputs a tx);
  Some (p, t).
Definition vt_remove (p : TransactionsPool) (tx : VTTransaction) := consolidate vt_access p (tx_hash (ValueTransfer tx)) tx.
Definition dr_remove (p : TransactionsPool) (tx : DRTransaction) := consolidate dr_access p (tx_hash (DataRequest tx)) tx.
Definition st_remove (p : TransactionsPool) (tx : StakeTransaction) := consolidate st_access p (tx_hash (TxStake tx)) tx.
Definition ut_remove (p : TransactionsPool) (tx : UnstakeTransaction) := ut_remove_inner p (tx_hash (TxUnstake tx)).

Definition remove_overstake_transactions (p : TransactionsPool) (transactions : list Hash) : option TransactionsPool :=
  foldl (λ acc h, p ← acc;
           match entries (sts p) !! h with
           | Some (_, tx) => '(p, _) ← st_remove p tx; Some p
           | None => Some p
           end) (Some p) transactions.
Definition remove_invalid_unstake_transactions (p : TransactionsPool) (transactions : list Hash) : TransactionsPool :=
  foldl (λ p h, match entries (uts p) !! h with Some (_, tx) => (ut_remove p tx).1 | None => p end) p transactions.

(** ** The size limit *)

(** [remove_transactions_for_size_limit] removes a transaction per round, so the
    number of value transfers and data requests bounds its rounds
    ([limit_evicts_cheapest]). *)
Inductive NoFuel := OutOfFuel.

Definition more_vtts_than_drs (p : TransactionsPool) : bool :=
  f64_ge (f64_of (total_weight (vts p))) (f64_mul (f64_of (total_weight (drs p))) (vt_to_dr_factor p)).

(** The removal of the transaction with the lowest priority; [None] is a panic. *)
Definition evict {T} (a : Access T) (p : TransactionsPool) : option (TransactionsPool * T) :=
  '(_, h) ← head (index_iter (sorted_index (acc_get a p)));
  '(p, tx) ← remove_inner a p h false;
  tx ← tx;
  Some (p, tx).

Fixpoint shrink (fuel : nat) (p : TransactionsPool) (removed : list Transaction) :
    exec TransactionsPool NoFuel (list Transaction) :=
  if decide (total_transactions_weight p > weight_limit p) then
    match fuel with
    | O => Fail p OutOfFuel
    | S fuel =>
        if more_vtts_than_drs p then
          match evict vt_access p with
          | Some (p, tx) => shrink fuel p (removed ++ [ValueTransfer tx])
          | None => Crash
          end
        else
          match evict dr_access p with
          | Some (p, tx) => shrink fuel p (removed ++ [DataRequest tx])
          | None => Crash
          end
    end
  else Ret p removed.
Definition remove_transactions_for_size_limit (p : TransactionsPool) : exec TransactionsPool NoFuel (list Transaction) :=
  shrink (S (vt_len p + dr_len p)) p [].

Definition set_total_weight_limit (p : TransactionsPool) (limit : Z) (factor : f64) :
    exec TransactionsPool NoFuel (list Transaction) :=
  remove_transactions_for_size_limit
    (with_settings p limit factor (minimum_vtt_fee p) (collateral_minimum p) (required_reward_collateral_ratio p)).

(** ** Insertion *)

Definition priority (fee weight : Z) : f64 := f64_div (f64_of fee) (f64_of weight).

Definition insert_spender {T} (a : Access T) (p : TransactionsPool) (key : Hash) (tx : T) (fee : Z) : TransactionsPool :=
  let t := table_insert (acc_weight a) (acc_get a p) key (priority fee (acc_weight a tx)) tx in
  with_pointers (acc_set a p t) (link key (acc_inputs a tx) (output_pointer_map p)).

Definition insert (p : TransactionsPool) (t : Transaction) (fee : Z) : exec TransactionsPool NoFuel (list Transaction) :=
  let key := tx_hash t in
  match t with
  | ValueTransfer tx =>
      if decide (fee < minimum_vtt_fee p) then Ret p [t]
      else remove_transactions_for_size_limit (insert_spender vt_access p key tx fee)
  | DataRequest tx =>
      let ratio := calculate_reward_collateral_ratio (collateral_minimum p) (dro_collateral (d_output tx))
                     (witness_reward (d_output tx)) in
      if decide (ratio > required_reward_collateral_ratio p) then Ret p [t]
      else remove_transactions_for_size_limit (insert_spender dr_access p key tx fee)
  | Commit tx =>
      match c_signatures tx with
      | [] => Crash
      | s :: _ =>
          let pkh := pkh calculate_sha256 (public_key s) in
          let hm := default ∅ (co_transactions p !! c_dr_pointer tx) in
          remove_transactions_for_size_limit
            (with_commits p (<[key := tx]> (co_hash_index p)) (<[c_dr_pointer tx := <[pkh := key]> hm]> (co_transactions p)))
      end
  | Reveal tx =>
      let hm := default ∅ (re_transactions p !! r_dr_pointer tx) in
      remove_transactions_for_size_limit
        (with_reveals p (<[key := tx]> (re_hash_index p)) (<[r_dr_pointer tx := <[r_pkh tx := key]> hm]> (re_transactions p)))
  | TxStake tx =>
      if decide (fee < minimum_st_fee p) then Ret p [t]
      else remove_transactions_for_size_limit (insert_spender st_access p key tx fee)
  | TxUnstake tx =>
      if decide (fee < minimum_ut_fee p) then Ret p [t]
      else
        let u := table_insert unstake_weight (uts p) key (priority fee (unstake_weight tx)) tx in
        remove_transactions_for_size_limit (with_tables p (vts p) (drs p) (sts p) u)
  | _ => Crash
  end.

(** ** Iteration and lookup *)

(** [vt_iter], [dr_iter], [st_iter] and [ut_iter]: by decreasing priority. *)
Definition table_iter {T} (t : Table T) : list T :=
  omap (λ ph, snd <$> entries t !! ph.2) (reverse (index_iter (sorted_index t))).
Definition vt_iter (p : TransactionsPool) : list VTTransaction := table_iter (vts p).
Definition dr_iter (p : TransactionsPool) : list DRTransaction := table_iter (drs p).
Definition st_iter (p : TransactionsPool) : list StakeTransaction := table_iter (sts p).
Definition ut_iter (p : TransactionsPool) : list UnstakeTransaction := table_iter (uts p).
Definition vt_get (p : TransactionsPool) (key : Hash) : option VTTransaction := snd <$> entries (vts p) !! key.

Definition vt_retain (f : VTTransaction → bool) (p : TransactionsPool) : TransactionsPool :=
  let gone := filter (λ hx, f hx.2.2 = false) (map_to_list (entries (vts p))) in
  let t := foldl (λ (t : Table VTTransaction) hx,
             MkTable (delete hx.1 (entries t)) (sorted_index t ∖ {[ (hx.2.1, hx.1) ]}) (wsub U64 (total_weight t) 1))
             (vts p) gone in
  with_tables p t (drs p) (sts p) (uts p).

Definition pool_get (p : TransactionsPool) (h : Hash) : option Transaction :=
  match entries (vts p) !! h with Some (_, t) => Some (ValueTransfer t) | None =>
  match entries (drs p) !! h with Some (_, t) => Some (DataRequest t) | None =>
  match co_hash_index p !! h with Some t => Some (Commit t) | None =>
  match re_hash_index p !! h with Some t => Some (Reveal t) | None =>
  match entries (sts p) !! h with Some (_, t) => Some (TxStake t) | None =>
  match entries (uts p) !! h with Some (_, t) => Some (TxUnstake t) | None => None
  end end end end end end.

(** ** Commits and reveals *)

(** The order in which a hash table is visited. *)
Context (visit : ∀ A : Type, list A → list A).

(** The commits of one request: those whose collateral has not been spent yet, up
    to the number of witnesses. *)
Fixpoint take_commits (n : nat) (cs : list Hash) (index : gmap Hash CommitTransaction) (spent : gset OutputPointer) :
    list CommitTransaction * gmap Hash CommitTransaction * gset OutputPointer :=
  match n, cs with
  | O, _ | _, [] => ([], index, spent)
  | S n', c :: cs =>
      match index !! c with
      | None => take_commits n cs index spent
      | Some tx =>
          let index := delete c index in
          let collateral := output_pointer <$> c_collateral tx in
          if decide (NoDup collateral ∧ Forall (λ o, o ∉ spent) collateral) then
            let '(txs, index, spent) := take_commits n' cs index (list_to_set collateral ∪ spent) in
            (tx :: txs, index, spent)
          else take_commits n cs index spent
      end
  end.

Definition commits_step (dr_pool : DataRequestPool)
    (acc : list CommitTransaction * Z * list Hash * gmap Hash CommitTransaction * gset OutputPointer)
    (entry : Hash * gmap PublicKeyHash Hash) :
    list CommitTransaction * Z * list Hash * gmap Hash CommitTransaction * gset OutputPointer :=
  let '(commits, total_fee, pointers, index, spent) := acc in
  match get_dr_output dr_pool entry.1 with
  | None => acc
  | Some dr =>
      let n := Z.to_nat (witnesses dr) in
      if decide (n ≤ size entry.2)%nat then
        let '(txs, index, spent) := take_commits n (visit _ (map_to_list entry.2)).*2 index spent in
        if decide (length txs = n) then
          (commits ++ txs, wadd U64 total_fee (wmul U64 (commit_and_reveal_fee dr) (witnesses dr)), pointers ++ [entry.1],
           index, spent)
        else (commits, total_fee, pointers, index, spent)
      else acc
  end.
Definition remove_commits (p : TransactionsPool) (dr_pool : DataRequestPool) :
    TransactionsPool * (list CommitTransaction * Z * list Hash) :=
  let '(commits, total_fee, pointers, _, _) :=
    foldl (commits_step dr_pool) ([], 0, [], co_hash_index p, ∅) (visit _ (map_to_list (co_transactions p))) in
  (clear_commits p, (commits, total_fee, pointers)).

(** [None] is the panic of a reveal without its transaction. *)
Definition get_reveals (p : TransactionsPool) (dr_pool : DataRequestPool) : option (list RevealTransaction * Z) :=
  foldl (λ acc entry,
    '(txs, total_fee) ← acc;
    match get_dr_output dr_pool entry.1 with
    | None => Some (txs, total_fee)
    | Some dr =>
        new ← mapM (λ h, re_hash_index p !! h) (visit _ (map_to_list entry.2)).*2;
        Some (txs ++ new, wadd U64 total_fee (wmul U64 (commit_and_reveal_fee dr) (Z.of_nat (size entry.2))))
    end) (Some ([], 0)) (visit _ (map_to_list (re_transactions p))).

Definition remove_one_reveal (p : TransactionsPool) (dr_hash : Hash) (reveal_pkh : PublicKeyHash) (h : Hash) :
    option (TransactionsPool * option RevealTransaction) :=
  match re_hash_index p !! h with
  | None => Some (p, None)
  | Some tx =>
      match re_transactions p !! dr_hash with
      | None => None
      | Some reveals =>
          let reveals := delete reveal_pkh reveals in
          Some (with_reveals p (delete h (re_hash_index p))
                  (if decide (reveals = ∅) then delete dr_hash (re_transactions p)
                   else <[dr_hash := reveals]> (re_transactions p)), Some tx)
      end
  end.

Definition clear_reveals_from_finished_dr (p : TransactionsPool) (dr_hash : Hash) : TransactionsPool :=
  match re_transactions p !! dr_hash with
  | None => p
  | Some reveals =>
      with_reveals p (foldl (λ m h, delete h m) (re_hash_index p) (visit _ (map_to_list reveals)).*2)
        (delete dr_hash (re_transactions p))
  end.

(** ** Unconfirmed transactions *)

Definition update_unconfirmed_transactions (p : TransactionsPool) : TransactionsPool :=
  with_unconfirmed p (unconfirmed_update (unconfirmed_transactions p)).
Definition insert_unconfirmed_transactions (p : TransactionsPool) (h : Hash) : TransactionsPool :=
  with_unconfirmed p (unconfirmed_insert (unconfirmed_transactions p) h).

Definition drop_unconfirmed (acc : TransactionsPool * list Transaction) (h : Hash) :
    option (TransactionsPool * list Transaction) :=
  let '(p, v) := acc in
  match pool_get p h with
  | Some (ValueTransfer _ as t) => '(p, _) ← remove_inner vt_access p h false; Some (p, v ++ [t])
  | Some (DataRequest _ as t) => '(p, _) ← remove_inner dr_access p h false; Some (p, v ++ [t])
  | Some (TxStake _ as t) => '(p, _) ← remove_inner st_access p h false; Some (p, v ++ [t])
  | Some (TxUnstake _ as t) => Some ((ut_remove_inner p h).1, v ++ [t])
  | _ => Some (p, v)
  end.
Definition remove_unconfirmed_transactions (p : TransactionsPool) : option (TransactionsPool * list Transaction) :=
  let '(hashes, u) := unconfirmed_remove_all (unconfirmed_transactions p) in
  '(p, v) ← foldl (λ acc h, acc ← acc; drop_unconfirmed acc h) (Some (with_unconfirmed p u, [])) hashes;
  Some (clear_reveals (clear_commits p), v).
End operations.
