(* ===== verification/TxPoolCorrect.v ===== *)
(** * The pool of transactions: correctness

    The tables and the map of spent outputs are consistent in every reachable
    pool; a consolidated transaction takes with it exactly the transactions that
    spend its inputs; the size limit evicts the cheapest transactions and holds
    afterwards; blocks get commits that do not share collateral. *)

From stdpp Require Import base tactics numbers list gmap sorting.
From Stdlib Require Import ZArith Lia.
From S2P Require Import Prelude Tapi Float Hashes Superblock Rad Versioning Transaction DataRequest TxPool.
Local Open Scope Z_scope.

(** ** Occurrences in lists *)

Section occurrences.
Context `{EqDecision A}.
Definition occ (x : A) (l : list A) : nat := length (filter (λ y, y = x) l).

Lemma occ_cons x y l : occ x (y :: l) = ((if decide (y = x) then 1 else 0) + occ x l)%nat.
Proof. unfold occ. rewrite filter_cons. by case_decide. Qed.
Lemma occ_app x l k : occ x (l ++ k) = (occ x l + occ x k)%nat.
Proof. unfold occ. by rewrite filter_app, length_app. Qed.
#[export] Instance occ_perm x : Proper ((≡ₚ) ==> (=)) (occ x).
Proof. intros l k Hl. unfold occ. by rewrite Hl. Qed.
Lemma elem_of_occ x l : x ∈ l ↔ (0 < occ x l)%nat.
Proof.
  induction l as [|y l IH]; [split; [intros H; by apply not_elem_of_nil in H|unfold occ; simpl; lia]|].
  rewrite elem_of_cons, occ_cons, IH. case_decide; naive_solver lia.
Qed.
Lemma occ_None x l : x ∉ l ↔ occ x l = 0%nat.
Proof. rewrite elem_of_occ. lia. Qed.
End occurrences.

(** ** The map of spent outputs *)

Definition outs (inputs : list Input) : list OutputPointer := output_pointer <$> inputs.
Definition upd (G : Hash → list OutputPointer) (key : Hash) (l : list OutputPointer) : Hash → list OutputPointer :=
  λ h, if decide (h = key) then l else G h.

(** The map lists, for every output outside [D], the transactions that spend it
    according to [G]; the outputs of [D] have been dropped from it. *)
Record linked (m : gmap OutputPointer (list Hash)) (D : gset OutputPointer) (G : Hash → list OutputPointer) : Prop := {
  lk_dead : ∀ o, o ∈ D → m !! o = None;
  lk_live : ∀ o h, o ∉ D → occ h (default [] (m !! o)) = occ o (G h);
  lk_nonempty : ∀ o, m !! o ≠ Some [];
}.

Lemma linked_ext m D G G' : (∀ h, G h ≡ₚ G' h) → linked m D G → linked m D G'.
Proof. intros HG [Hd Hl Hn]. split; [done| |done]. intros o h Ho. rewrite Hl by done. by rewrite (HG h). Qed.

Lemma linked_listed m D G o h : linked m D G → o ∉ D → h ∈ default [] (m !! o) ↔ o ∈ G h.
Proof. intros Hl Ho. rewrite !elem_of_occ, (lk_live _ _ _ Hl) by done. done. Qed.

Lemma unlink_linked m D G key i rest :
  linked m D G → G key ≡ₚ output_pointer i :: rest →
  ∃ m', unlink key m i = Some m' ∧ linked m' D (upd G key rest).
Proof.
  intros Hl HG. unfold unlink. generalize dependent (output_pointer i). intros o HG.
  destruct (decide (o ∈ D)) as [Ho|Ho].
  - rewrite (lk_dead _ _ _ Hl o Ho). exists m. split; [done|]. destruct Hl as [Hd Hl Hn]. split; [done| |done].
    intros o' h Ho'. rewrite Hl by done. unfold upd. case_decide as Hh; [|done]. subst. rewrite HG, occ_cons.
    by rewrite decide_False by (intros ->; done).
  - assert (key ∈ default [] (m !! o)) as Hin by (apply (linked_listed m D G o key Hl Ho); rewrite HG; by left).
    destruct (m !! o) as [hs|] eqn:Hm; [|by apply not_elem_of_nil in Hin]. simpl in Hin.
    destruct (list_find_elem_of (λ x, x = key) hs key Hin eq_refl) as [[idx k] Hf]. rewrite Hf. simpl.
    apply list_find_Some in Hf as (Hidx & -> & _). pose proof (swap_remove_perm _ _ _ Hidx) as Hp.
    set (hs' := swap_remove idx hs) in *.
    assert (∀ o', default [] ((if decide (hs' = []) then delete o m else <[o:=hs']> m) !! o')
                  = if decide (o' = o) then hs' else default [] (m !! o')) as Hlook.
    { intros o'. case_decide as Hne; case_decide; subst; rewrite ?lookup_delete_eq, ?lookup_insert_eq; try done;
        [by rewrite lookup_delete_ne|by rewrite lookup_insert_ne]. }
    eexists. split; [done|]. destruct Hl as [Hd Hl Hn]. split.
    + intros o' Ho'. assert (o' ≠ o) by (intros ->; done).
      case_decide; [by rewrite lookup_delete_ne, Hd|by rewrite lookup_insert_ne, Hd].
    + intros o' h Ho'. rewrite Hlook. specialize (Hl o' h Ho'). unfold upd.
      destruct (decide (o' = o)) as [->|Hoo].
      * rewrite Hm in Hl. simpl in Hl. rewrite Hp, occ_cons in Hl. destruct (decide (h = key)) as [->|Hk].
        -- rewrite HG, occ_cons, !decide_True in Hl by done. lia.
        -- rewrite decide_False in Hl by congruence. exact Hl.
      * rewrite Hl. destruct (decide (h = key)) as [->|Hk]; [|done]. by rewrite HG, occ_cons, decide_False by congruence.
    + intros o'. case_decide; destruct (decide (o' = o)) as [->|];
        rewrite ?lookup_delete_eq, ?lookup_insert_eq, ?lookup_delete_ne, ?lookup_insert_ne by done; [done|apply Hn|congruence|apply Hn].
Qed.

Lemma remove_tx_linked inputs : ∀ m D G key rest,
  linked m D G → G key ≡ₚ outs inputs ++ rest →
  ∃ m', remove_tx_from_output_pointer_map key inputs m = Some m' ∧ linked m' D (upd G key rest).
Proof.
  unfold remove_tx_from_output_pointer_map.
  induction inputs as [|i inputs IH]; intros m D G key rest Hl HG; simpl.
  - exists m. split; [done|]. apply (linked_ext _ _ G); [|done]. intros h. unfold upd. case_decide; [by subst|done].
  - destruct (unlink_linked m D G key i (outs inputs ++ rest)) as (m1 & Hm1 & Hl1); [done|done|]. rewrite Hm1.
    destruct (IH m1 D _ key rest Hl1) as (m' & Hm' & Hl'); [unfold upd; by rewrite decide_True|].
    exists m'. split; [done|]. apply (linked_ext _ _ (upd (upd G key (outs inputs ++ rest)) key rest)); [|done].
    intros h. unfold upd. by case_decide.
Qed.

Lemma link_linked inputs : ∀ m G key,
  linked m ∅ G → linked (link key inputs m) ∅ (upd G key (outs inputs ++ G key)).
Proof.
  unfold link. induction inputs as [|i inputs IH]; intros m G key Hl; simpl.
  - apply (linked_ext _ _ G); [|done]. intros h. unfold upd. case_decide; [by subst|done].
  - set (m1 := <[output_pointer i := _]> m).
    assert (linked m1 ∅ (upd G key (output_pointer i :: G key))) as Hl1.
    { destruct Hl as [_ Hl Hn]. unfold m1. split; [set_solver| |].
      - intros o h _. specialize (Hl o h). unfold upd. destruct (decide (o = output_pointer i)) as [->|Ho].
        + rewrite lookup_insert_eq. simpl. rewrite occ_app, Hl, occ_cons by set_solver. change (occ h []) with 0%nat.
          destruct (decide (h = key)) as [->|Hk]; [rewrite occ_cons, !decide_True by done|rewrite decide_False by congruence]; lia.
        + rewrite lookup_insert_ne by done. rewrite Hl by set_solver. destruct (decide (h = key)) as [->|Hk]; [|done].
          by rewrite occ_cons, decide_False by congruence.
      - intros o. destruct (decide (o = output_pointer i)) as [->|Ho];
          [rewrite lookup_insert_eq; by destruct (default [] _)|by rewrite lookup_insert_ne]. }
    apply (IH _ _ key) in Hl1. eapply linked_ext; [|exact Hl1]. intros h. unfold upd. case_decide; [|done].
    rewrite decide_True by done. by rewrite <-Permutation_middle.
Qed.

(** ** Tables *)

Record table_ok {T} (weight : T → Z) (hash : T → Hash) (t : Table T) : Prop := {
  to_index : ∀ q h, (q, h) ∈ sorted_index t ↔ ∃ tx, entries t !! h = Some (q, tx);
  to_weight : total_weight t = msum (λ x, weight x.2) (entries t) mod U64;
  to_hash : ∀ h q tx, entries t !! h = Some (q, tx) → hash tx = h;
}.

Section tables.
Context {T : Type} (weight : T → Z) (hash : T → Hash).

Lemma table_new_ok : table_ok weight hash table_new.
Proof. split; simpl; [set_solver|by rewrite msum_empty|by intros h q tx; rewrite lookup_empty]. Qed.

Lemma table_insert_ok t key q tx :
  table_ok weight hash t → entries t !! key = None → hash tx = key → table_ok weight hash (table_insert weight t key q tx).
Proof.
  intros [Hi Hw Hh] Hk Hx. split; simpl.
  - intros q' h. rewrite elem_of_union, elem_of_singleton, Hi. destruct (decide (h = key)) as [->|Hne].
    + rewrite lookup_insert_eq, Hk. naive_solver.
    + rewrite lookup_insert_ne by done. naive_solver.
  - rewrite msum_insert_new by done. simpl. unfold wadd. rewrite Hw, Zplus_mod_idemp_l. f_equal. lia.
  - intros h q' tx'. destruct (decide (h = key)) as [->|Hne];
      [rewrite lookup_insert_eq; naive_solver|rewrite lookup_insert_ne by done; apply Hh].
Qed.

Lemma table_remove_ok t key q tx :
  table_ok weight hash t → entries t !! key = Some (q, tx) →
  ∃ t', table_remove weight t key = Some (tx, t') ∧ table_ok weight hash t' ∧ entries t' = delete key (entries t).
Proof.
  intros [Hi Hw Hh] Hk. unfold table_remove. rewrite Hk. simpl. eexists. split; [done|]. split; [|done]. split; simpl.
  - intros q' h. rewrite elem_of_difference, elem_of_singleton, Hi. destruct (decide (h = key)) as [->|Hne].
    + rewrite lookup_delete_eq. rewrite Hk. naive_solver.
    + rewrite lookup_delete_ne by done. naive_solver.
  - rewrite (msum_delete _ _ _ _ Hk) in Hw. simpl in Hw. unfold wsub. rewrite Hw, Zminus_mod_idemp_l. f_equal. lia.
  - intros h q' tx'. destruct (decide (h = key)) as [->|Hne];
      [by rewrite lookup_delete_eq|rewrite lookup_delete_ne by done; apply Hh].
Qed.

Lemma table_remove_None t key : entries t !! key = None → table_remove weight t key = None.
Proof. intros Hk. unfold table_remove. by rewrite Hk. Qed.

Lemma table_weight_bounds t : table_ok weight hash t → 0 ≤ total_weight t < U64.
Proof. intros [_ -> _]. by apply Z.mod_pos_bound. Qed.
Lemma table_weight_empty t : table_ok weight hash t → entries t = ∅ → total_weight t = 0.
Proof. intros [_ -> _] ->. by rewrite msum_empty. Qed.

Lemma index_iter_perm `{FloatOrd} s : index_iter s ≡ₚ elements s.
Proof. apply merge_sort_Permutation. Qed.
Lemma index_iter_sorted `{FloatOrd} s : StronglySorted prioritized_le (index_iter s).
Proof.
  apply StronglySorted_merge_sort.
  - intros [q1 h1] [q2 h2] [q3 h3] [H1 H2] [H3 H4]. simpl in *. split; simpl; [by etrans|]. intros H5.
    etrans; [apply H2|apply H4]; by (etrans; [eassumption|]).
  - intros [q1 h1] [q2 h2]. unfold prioritized_le. simpl.
    destruct (decide (fle q1 q2)) as [H1|H1], (decide (fle q2 q1)) as [H2|H2]; [|by left|by right|].
    + destruct (total ole h1 h2); [by left|by right].
    + by destruct (total fle q1 q2).
Qed.
End tables.

(** ** Pools *)

(** ** Visiting a hash table *)

Section visited.
Context (visit : ∀ A : Type, list A → list A).
Hypothesis visit_perm : ∀ A (l : list A), visit A l ≡ₚ l.
Lemma elem_of_visited (hm : gmap PublicKeyHash Hash) h : h ∈ (visit _ (map_to_list hm)).*2 ↔ ∃ k, hm !! k = Some h.
Proof.
  rewrite list_elem_of_fmap. split.
  - intros ([k h'] & -> & Hin). rewrite visit_perm in Hin. exists k. by apply elem_of_map_to_list in Hin.
  - intros [k Hk]. exists (k, h). split; [done|]. rewrite visit_perm. by apply elem_of_map_to_list.
Qed.
End visited.

Lemma vt_weight_bounds tx : 0 ≤ vt_weight tx < U64.
Proof. unfold vt_weight, sat_add, sat_mul, len_u32, INPUT_SIZE, OUTPUT_SIZE, GAMMA. unfold_moduli. lia. Qed.

#[local] Opaque vt_weight dr_tx_weight stake_weight.

Section pools.
Context `{FloatOrd} (tx_hash : Transaction → Hash).

Definition part {T} (inputs : T → list Input) (t : Table T) (h : Hash) : list OutputPointer :=
  match entries t !! h with Some (_, tx) => outs (inputs tx) | None => [] end.
(** The outputs that the transactions with a hash spend. *)
Definition spends (p : TransactionsPool) (h : Hash) : list OutputPointer :=
  part vt_inputs (vts p) h ++ part d_inputs (drs p) h ++ part s_inputs (sts p) h.

Record tables_ok (p : TransactionsPool) : Prop := {
  tk_vt : table_ok vt_weight (λ t, tx_hash (ValueTransfer t)) (vts p);
  tk_dr : table_ok dr_tx_weight (λ t, tx_hash (DataRequest t)) (drs p);
  tk_st : table_ok stake_weight (λ t, tx_hash (TxStake t)) (sts p);
  tk_ut : table_ok unstake_weight (λ t, tx_hash (TxUnstake t)) (uts p);
}.

(** What the generic operations use of an [Access]. *)
Class Spender {T} (a : Access T) (wrap : T → Transaction) (others : TransactionsPool → Hash → list OutputPointer) : Prop := {
  sp_get_set p t : acc_get a (acc_set a p t) = t;
  sp_get_pointers p m : acc_get a (with_pointers p m) = acc_get a p;
  sp_pointers p t : output_pointer_map (acc_set a p t) = output_pointer_map p;
  sp_eta p : with_pointers (acc_set a p (acc_get a p)) (output_pointer_map p) = p;
  sp_set_pointers p t m : with_pointers (acc_set a p t) m = acc_set a (with_pointers p m) t;
  sp_spends p h : spends p h ≡ₚ part (acc_inputs a) (acc_get a p) h ++ others p h;
  sp_others p t m h : others (with_pointers (acc_set a p t) m) h = others p h;
  sp_ok p : tables_ok p → table_ok (acc_weight a) (λ t, tx_hash (wrap t)) (acc_get a p);
  sp_set_ok p t m : tables_ok p → table_ok (acc_weight a) (λ t, tx_hash (wrap t)) t →
    tables_ok (with_pointers (acc_set a p t) m);
}.
#[export] Instance vt_spender : Spender vt_access ValueTransfer (λ p h, part d_inputs (drs p) h ++ part s_inputs (sts p) h).
Proof. split; try done; [by intros []|by intros p []|intros p t m [] ?; by split]. Qed.
#[export] Instance dr_spender : Spender dr_access DataRequest (λ p h, part vt_inputs (vts p) h ++ part s_inputs (sts p) h).
Proof.
  split; [done|done|done|by intros []|done| |intros p t m h; simpl; reflexivity|by intros p []|intros p t m [] ?; by split].
  intros p h. unfold spends. rewrite !app_assoc. f_equiv. apply Permutation_app_comm.
Qed.
#[export] Instance st_spender : Spender st_access TxStake (λ p h, part vt_inputs (vts p) h ++ part d_inputs (drs p) h).
Proof.
  split; [done|done|done|by intros []|done| |intros p t m h; simpl; reflexivity|by intros p []|intros p t m [] ?; by split].
  intros p h. unfold spends. by rewrite app_assoc, Permutation_app_comm.
Qed.

(** Tables and map agree, but for the outputs [D] dropped from the map and the
    outputs [E] of transactions dropped from the tables. *)
Record consistent (p : TransactionsPool) (D : gset OutputPointer) (E : Hash → list OutputPointer) : Prop := {
  cs_tables : tables_ok p;
  cs_linked : linked (output_pointer_map p) D (λ h, spends p h ++ E h);
}.
Definition nothing : Hash → list OutputPointer := λ _, [].

Section spender.
Context {T : Type} (a : Access T) (wrap : T → Transaction) (others : TransactionsPool → Hash → list OutputPointer).
Context `{!Spender a wrap others}.

(** How [remove_inner] changes the pool. *)
Record removed_one (p : TransactionsPool) (key : Hash) (p' : TransactionsPool) : Prop := {
  ro_frame : p' = with_pointers (acc_set a p (acc_get a p')) (output_pointer_map p');
  ro_entries : entries (acc_get a p') = delete key (entries (acc_get a p));
}.

Lemma part_delete (t t' : Table T) key h :
  entries t' = delete key (entries t) →
  part (acc_inputs a) t' h = if decide (h = key) then [] else part (acc_inputs a) t h.
Proof.
  intros He. unfold part. rewrite He. destruct (decide (h = key)) as [->|Hne];
    [by rewrite lookup_delete_eq|by rewrite lookup_delete_ne].
Qed.

Lemma remove_inner_None p key c : entries (acc_get a p) !! key = None → remove_inner a p key c = Some (p, None).
Proof. intros Hk. unfold remove_inner. by rewrite table_remove_None. Qed.

Lemma remove_inner_spec p key D E :
  consistent p D E →
  ∃ p', remove_inner a p key false = Some (p', snd <$> entries (acc_get a p) !! key)
    ∧ consistent p' D E ∧ removed_one p key p'.
Proof.
  intros [Ht Hl]. destruct (entries (acc_get a p) !! key) as [[q tx]|] eqn:Hk.
  2: { exists p. split; [by apply remove_inner_None|]. split; [by split|]. split; [by rewrite sp_eta|].
       by rewrite delete_id. }
  destruct (table_remove_ok _ _ _ _ _ _ (sp_ok p Ht) Hk) as (t' & Hr & Ht' & He). unfold remove_inner. rewrite Hr.
  destruct (remove_tx_linked (acc_inputs a tx) (output_pointer_map p) D (λ h, spends p h ++ E h) key (others p key ++ E key))
    as (m' & Hm' & Hl'); [done| |].
  { rewrite (sp_spends p key). unfold part. rewrite Hk. by rewrite <-app_assoc. }
  rewrite sp_pointers, Hm'. simpl. eexists. split; [done|]. split; [|split].
  - split; [by apply sp_set_ok|]. simpl. eapply linked_ext; [|exact Hl']. intros h. unfold upd.
    rewrite (sp_spends (with_pointers (acc_set a p t') m') h), sp_get_pointers, sp_get_set, sp_others.
    rewrite (part_delete _ _ _ h He). case_decide as Hh; [by subst|]. by rewrite (sp_spends p h).
  - by rewrite sp_get_pointers, sp_get_set.
  - by rewrite sp_get_pointers, sp_get_set.
Qed.

(** A consolidated transaction leaves its outputs behind in the map. *)
Lemma remove_consolidated_spec p key D E :
  consistent p D E →
  ∃ p', remove_inner a p key true = Some (p', snd <$> entries (acc_get a p) !! key)
    ∧ consistent p' D (λ h, (if decide (h = key) then part (acc_inputs a) (acc_get a p) key else []) ++ E h)
    ∧ removed_one p key p' ∧ output_pointer_map p' = output_pointer_map p.
Proof.
  intros [Ht Hl]. destruct (entries (acc_get a p) !! key) as [[q tx]|] eqn:Hk.
  2: { exists p. split; [by apply remove_inner_None|]. split; [|split; [|done]].
       - split; [done|]. eapply linked_ext; [|exact Hl]. intros h. unfold part. rewrite Hk. by case_decide.
       - split; [by rewrite sp_eta|]. by rewrite delete_id. }
  destruct (table_remove_ok _ _ _ _ _ _ (sp_ok p Ht) Hk) as (t' & Hr & Ht' & He). unfold remove_inner. rewrite Hr.
  simpl. exists (acc_set a p t'). split; [done|].
  assert (acc_set a p t' = with_pointers (acc_set a p t') (output_pointer_map p)) as Heq.
  { rewrite <-(sp_pointers p t'). by destruct (acc_set a p t'). }
  split; [|split; [split; rewrite sp_get_set; [by rewrite sp_pointers|done]|apply sp_pointers]].
  rewrite Heq. split; [by apply sp_set_ok|]. simpl. eapply linked_ext; [|exact Hl]. intros h.
  rewrite (sp_spends (with_pointers (acc_set a p t') _) h), sp_get_pointers, sp_get_set, sp_others, (sp_spends p h).
  rewrite (part_delete _ _ _ h He). case_decide as Hh; [subst h; simpl|done].
  rewrite <-!app_assoc. rewrite !(Permutation_app_swap_app (others p key)). done.
Qed.
End spender.

(** The entries whose hash is not in a set. *)
Definition without {V} (R : gset Hash) (m : gmap Hash V) : gmap Hash V := filter (λ hx, hx.1 ∉ R) m.
Lemma lookup_without {V} R (m : gmap Hash V) h : without R m !! h = if decide (h ∈ R) then None else m !! h.
Proof.
  unfold without. case_decide as Hh.
  - apply map_lookup_filter_None. right. intros x _. simpl. by intros ?.
  - destruct (m !! h) as [x|] eqn:Hx; [by apply map_lookup_filter_Some|]. apply map_lookup_filter_None. by left.
Qed.
Lemma without_empty {V} (m : gmap Hash V) : without ∅ m = m.
Proof. apply map_eq. intros h. rewrite lookup_without. by rewrite decide_False by set_solver. Qed.
Lemma without_one {V} (m : gmap Hash V) h : without {[ h ]} m = delete h m.
Proof.
  apply map_eq. intros h'. rewrite lookup_without. destruct (decide (h' = h)) as [->|Hne].
  - rewrite lookup_delete_eq. by rewrite decide_True by set_solver.
  - rewrite lookup_delete_ne by done. by rewrite decide_False by set_solver.
Qed.
Lemma without_union {V} (m : gmap Hash V) R1 R2 : without R2 (without R1 m) = without (R1 ∪ R2) m.
Proof. apply map_eq. intros h. rewrite !lookup_without. repeat case_decide; set_solver. Qed.

(** The transactions with the hashes [R] are gone and nothing else changed. *)
Record removed (R : gset Hash) (p p' : TransactionsPool) : Prop := {
  rm_frame : p' = with_pointers (with_tables p (vts p') (drs p') (sts p') (uts p)) (output_pointer_map p');
  rm_vt : entries (vts p') = without R (entries (vts p));
  rm_dr : entries (drs p') = without R (entries (drs p));
  rm_st : entries (sts p') = without R (entries (sts p));
}.

Lemma removed_refl p : removed ∅ p p.
Proof. split; [by destruct p|by rewrite without_empty..]. Qed.
Lemma removed_pointers p m : removed ∅ p (with_pointers p m).
Proof. split; [by destruct p|by rewrite without_empty..]. Qed.
Lemma removed_trans R1 R2 p1 p2 p3 : removed R1 p1 p2 → removed R2 p2 p3 → removed (R1 ∪ R2) p1 p3.
Proof.
  intros [F1 V1 D1 S1] [F2 V2 D2 S2]. split.
  - rewrite F2. rewrite F1. done.
  - by rewrite V2, V1, without_union.
  - by rewrite D2, D1, without_union.
  - by rewrite S2, S1, without_union.
Qed.
Lemma removed_ext R R' p p' : (∀ h, h ∈ R ↔ h ∈ R') → removed R p p' → removed R' p p'.
Proof. intros HR. by replace R' with R by set_solver. Qed.

Lemma removed_kinds p p1 p2 p3 h :
  removed_one vt_access p h p1 → removed_one dr_access p1 h p2 → removed_one st_access p2 h p3 → removed {[ h ]} p p3.
Proof.
  intros [F1 E1] [F2 E2] [F3 E3]. simpl in *.
  assert (drs p1 = drs p ∧ sts p1 = sts p) as [Hd1 Hs1] by (by rewrite F1).
  assert (vts p2 = vts p1 ∧ sts p2 = sts p1) as [Hv2 Hs2] by (by rewrite F2).
  assert (vts p3 = vts p2 ∧ drs p3 = drs p2) as [Hv3 Hd3] by (by rewrite F3).
  split; [rewrite F3, F2, F1; done|rewrite without_one..]; [by rewrite Hv3, Hv2|by rewrite Hd3, E2, Hd1|by rewrite E3, Hs2, Hs1].
Qed.

Lemma remove_spender_spec p h D E :
  consistent p D E → ∃ p', remove_spender p h = Some p' ∧ consistent p' D E ∧ removed {[ h ]} p p'.
Proof.
  intros Hc. unfold remove_spender.
  destruct (remove_inner_spec vt_access _ _ p h D E Hc) as (p1 & -> & Hc1 & H1). cbn [mbind option_bind].
  destruct (remove_inner_spec dr_access _ _ p1 h D E Hc1) as (p2 & -> & Hc2 & H2). cbn [mbind option_bind].
  destruct (remove_inner_spec st_access _ _ p2 h D E Hc2) as (p3 & -> & Hc3 & H3). cbn [mbind option_bind].
  exists p3. split; [done|]. split; [done|]. by eapply removed_kinds.
Qed.

Lemma remove_spenders_spec hs : ∀ p D E,
  consistent p D E →
  ∃ p', foldl (λ acc h, p ← acc; remove_spender p h) (Some p) hs = Some p' ∧ consistent p' D E
    ∧ removed (list_to_set hs) p p'.
Proof.
  induction hs as [|h hs IH]; intros p D E Hc; [exists p; split; [done|]; split; [done|apply removed_refl]|].
  destruct (remove_spender_spec p h D E Hc) as (p1 & Hr & Hc1 & H1). simpl. rewrite Hr.
  destruct (IH p1 D E Hc1) as (p' & Hf & Hc' & H'). exists p'. split; [done|]. split; [done|]. by eapply removed_trans.
Qed.

Lemma part_filter {T} (inputs : T → list Input) (t t' : Table T) (R : gset Hash) h :
  entries t' = without R (entries t) → part inputs t' h = if decide (h ∈ R) then [] else part inputs t h.
Proof.
  intros He. unfold part. rewrite He, lookup_without. by case_decide.
Qed.
Lemma spends_removed R p p' h : removed R p p' → spends p' h = if decide (h ∈ R) then [] else spends p h.
Proof.
  intros [_ V D S]. unfold spends. rewrite (part_filter _ _ _ _ h V), (part_filter _ _ _ _ h D), (part_filter _ _ _ _ h S).
  by case_decide.
Qed.

(** The state of [remove_inputs] after the outputs [D]: their spenders are gone,
    and nothing else. *)
Record swept (p0 : TransactionsPool) (E : Hash → list OutputPointer) (D : gset OutputPointer) (p : TransactionsPool) : Prop := {
  sw_consistent : consistent p D E;
  sw_removed : ∃ R, removed R p0 p ∧ ∀ h, h ∈ R → ∃ o, o ∈ D ∧ o ∈ spends p0 h ++ E h;
  sw_gone : ∀ h o, o ∈ D → o ∉ spends p h;
}.

Lemma remove_input_swept p0 E D p i :
  swept p0 E D p → ∃ p', remove_input p i = Some p' ∧ swept p0 E ({[ output_pointer i ]} ∪ D) p'.
Proof.
  intros [Hc (R & Hrm & HR) Hg]. unfold remove_input. generalize (output_pointer i). intros o.
  destruct Hc as [Ht Hl]. destruct (decide (o ∈ D)) as [Ho|Ho].
  { rewrite (lk_dead _ _ _ Hl o Ho). exists p. split; [done|]. replace ({[o]} ∪ D) with D by set_solver.
    split; [by split|by exists R|done]. }
  assert (∀ h, h ∈ default [] (output_pointer_map p !! o) ↔ o ∈ spends p h ++ E h) as Hin
    by (intros h; by apply (linked_listed _ _ _ o h Hl)).
  destruct (output_pointer_map p !! o) as [hs|] eqn:Hm; simpl in Hin.
  2: { exists p. split; [done|]. split; [split; [done|]|exists R; split; [done|set_solver]|].
       - destruct Hl as [Hd Hl Hn]. split; [set_solver| |done]. intros o' h Ho'. apply Hl. set_solver.
       - intros h o' [->%elem_of_singleton|Ho']%elem_of_union Ho2; [|by apply (Hg h o')].
         apply (not_elem_of_nil h), Hin, elem_of_app. by left. }
  destruct (remove_spenders_spec hs (with_pointers p (delete o (output_pointer_map p))) ({[o]} ∪ D) E)
    as (p' & Hf & Hc' & Hrm').
  { split; [by destruct Ht; split|]. simpl. destruct Hl as [Hd Hl Hn]. split.
    - intros o' [->%elem_of_singleton|Ho']%elem_of_union; [apply lookup_delete_eq|].
      rewrite lookup_delete_ne by (intros ->; done). by apply Hd.
    - intros o' h Ho'. rewrite lookup_delete_ne by set_solver. apply Hl. set_solver.
    - intros o'. destruct (decide (o' = o)) as [->|]; [by rewrite lookup_delete_eq|by rewrite lookup_delete_ne]. }
  exists p'. split; [done|]. pose proof (removed_trans _ _ _ _ _ (removed_pointers p _) Hrm') as Hrm2.
  assert (∀ h, spends p' h = if decide (h ∈ hs) then [] else spends p h) as Hsp.
  { intros h. rewrite (spends_removed _ _ _ h Hrm2). apply decide_ext. set_solver. }
  split; [done| |].
  - exists (R ∪ (∅ ∪ list_to_set hs)). split; [by eapply removed_trans|].
    intros h [Hh|Hh]%elem_of_union; [destruct (HR h Hh) as (o' & ? & ?); exists o'; set_solver|].
    exists o. split; [set_solver|]. assert (h ∈ hs) as Hhs by set_solver. apply Hin in Hhs.
    rewrite (spends_removed _ _ _ h Hrm) in Hhs. case_decide; set_solver.
  - intros h o' Ho' Ho2. rewrite Hsp in Ho2. case_decide as Hh; [by apply not_elem_of_nil in Ho2|].
    apply elem_of_union in Ho' as [->%elem_of_singleton|Ho']; [|by apply (Hg h o')].
    apply Hh, Hin, elem_of_app. by left.
Qed.

Lemma remove_inputs_swept inputs : ∀ p0 E D p,
  swept p0 E D p → ∃ p', remove_inputs p inputs = Some p' ∧ swept p0 E (list_to_set (outs inputs) ∪ D) p'.
Proof.
  induction inputs as [|i inputs IH]; intros p0 E D p Hs.
  - exists p. split; [done|]. simpl. by rewrite union_empty_l_L.
  - destruct (remove_input_swept p0 E D p i Hs) as (p1 & Hr & Hs1). unfold remove_inputs. simpl. rewrite Hr.
    destruct (IH p0 E _ p1 Hs1) as (p' & Hr' & Hs'). exists p'. split; [done|].
    replace ({[output_pointer i]} ∪ list_to_set (outs inputs) ∪ D)
      with (list_to_set (outs inputs) ∪ ({[output_pointer i]} ∪ D)) by set_solver. done.
Qed.

(** ** The size limit *)

Lemma prioritized_le_refl x : prioritized_le x x.
Proof. split; [by destruct (total fle x.1 x.1)|by destruct (total ole x.2 x.2)]. Qed.

Lemma index_head {T} w (hash : T → Hash) (t : Table T) :
  table_ok w hash t → entries t ≠ ∅ →
  ∃ q h tx rest, index_iter (sorted_index t) = (q, h) :: rest ∧ entries t !! h = Some (q, tx)
    ∧ ∀ h' q' tx', entries t !! h' = Some (q', tx') → prioritized_le (q, h) (q', h').
Proof.
  intros Ht Hne. pose proof (index_iter_perm (sorted_index t)) as Hp. pose proof (index_iter_sorted (sorted_index t)) as Hs.
  assert (∀ q h, (q, h) ∈ index_iter (sorted_index t) ↔ ∃ tx, entries t !! h = Some (q, tx)) as Hin.
  { intros q h. by rewrite Hp, elem_of_elements, (to_index _ _ _ Ht). }
  destruct (index_iter (sorted_index t)) as [|[q h] rest].
  - exfalso. apply Hne, map_eq. intros h. rewrite lookup_empty. destruct (entries t !! h) as [[q tx]|] eqn:Hx; [|done].
    by assert ((q, h) ∈ []) as []%not_elem_of_nil by (apply Hin; by exists tx).
  - destruct (proj1 (Hin q h)) as [tx Hx]; [by left|]. exists q, h, tx, rest. split; [done|]. split; [done|].
    intros h' q' tx' Hx'. assert ((q', h') ∈ (q, h) :: rest) as [Heq|Hr]%elem_of_cons by (apply Hin; by exists tx').
    + injection Heq as -> ->. apply prioritized_le_refl.
    + apply StronglySorted_inv in Hs as [_ Hs]. by apply (proj1 (Forall_forall _ _) Hs).
Qed.

Lemma index_empty {T} w (hash : T → Hash) (t : Table T) :
  table_ok w hash t → entries t = ∅ → index_iter (sorted_index t) = [].
Proof.
  intros Ht He. assert (sorted_index t = ∅) as ->; [|done]. apply set_eq. intros [q h]. rewrite (to_index _ _ _ Ht), He.
  split; [intros [tx Hx]; by rewrite lookup_empty in Hx|set_solver].
Qed.

Section evict.
Context {T : Type} (a : Access T) (wrap : T → Transaction) (others : TransactionsPool → Hash → list OutputPointer).
Context `{!Spender a wrap others}.

Lemma evict_spec p :
  consistent p ∅ nothing → entries (acc_get a p) ≠ ∅ →
  ∃ p' h q tx, evict a p = Some (p', tx) ∧ entries (acc_get a p) !! h = Some (q, tx)
    ∧ (∀ h' q' tx', entries (acc_get a p) !! h' = Some (q', tx') → prioritized_le (q, h) (q', h'))
    ∧ consistent p' ∅ nothing ∧ removed_one a p h p'.
Proof.
  intros Hc Hne. destruct (index_head _ _ _ (sp_ok p (cs_tables _ _ _ Hc)) Hne) as (q & h & tx & rest & Hi & Hx & Hmin).
  destruct (remove_inner_spec a wrap others p h ∅ nothing Hc) as (p' & Hr & Hc' & Ho).
  exists p', h, q, tx. unfold evict. rewrite Hi. cbn [head mbind option_bind]. rewrite Hr, Hx. done.
Qed.
Lemma evict_empty p : tables_ok p → entries (acc_get a p) = ∅ → evict a p = None.
Proof. intros Ht He. unfold evict. by rewrite (index_empty _ _ _ (sp_ok p Ht) He). Qed.
End evict.

(** The entries of [t'] are entries of [t]; those that are missing were returned in
    [out] and have a lower priority than all that stay. *)
Record evicted {T} (wrap : T → Transaction) (t t' : Table T) (out : list Transaction) : Prop := {
  ev_sub : entries t' ⊆ entries t;
  ev_cheap : ∀ h q tx, entries t !! h = Some (q, tx) → entries t' !! h = None →
    wrap tx ∈ out ∧ ∀ h' q' tx', entries t' !! h' = Some (q', tx') → prioritized_le (q, h) (q', h');
}.
Lemma evicted_same {T} (wrap : T → Transaction) t out : evicted wrap t t out.
Proof. split; [done|]. intros h q tx H1 H2. congruence. Qed.
Lemma evicted_more {T} (wrap : T → Transaction) t t' out out' : out ⊆ out' → evicted wrap t t' out → evicted wrap t t' out'.
Proof. intros Hs [H1 H2]. split; [done|]. intros h q tx Hx Hn. destruct (H2 h q tx Hx Hn). split; [set_solver|done]. Qed.
Lemma evicted_step {T} (wrap : T → Transaction) (t t1 t' : Table T) h q tx out :
  entries t !! h = Some (q, tx) → (∀ h' q' tx', entries t !! h' = Some (q', tx') → prioritized_le (q, h) (q', h')) →
  entries t1 = delete h (entries t) → evicted wrap t1 t' out → evicted wrap t t' (wrap tx :: out).
Proof.
  intros Hx Hmin He [Hs Hc]. assert (entries t' ⊆ entries t) as Hsub by (etrans; [done|]; rewrite He; apply delete_subseteq).
  split; [done|]. intros h0 q0 tx0 Hx0 Hn. destruct (decide (h0 = h)) as [->|Hne].
  - assert ((q, tx) = (q0, tx0)) as [= <- <-] by congruence. split; [by left|]. intros h' q' tx' Hx'. eapply Hmin.
    by eapply lookup_weaken.
  - destruct (Hc h0 q0 tx0) as [? ?]; [by rewrite He, lookup_delete_ne|done|]. split; [by right|done].
Qed.

Record shrunk (p : TransactionsPool) (out : list Transaction) (p' : TransactionsPool) : Prop := {
  sk_consistent : consistent p' ∅ nothing;
  sk_limit : total_transactions_weight p' ≤ weight_limit p';
  sk_frame : p' = with_pointers (with_tables p (vts p') (drs p') (sts p) (uts p)) (output_pointer_map p');
  sk_vt : evicted ValueTransfer (vts p) (vts p') out;
  sk_dr : evicted DataRequest (drs p) (drs p') out;
}.

(** Some table to evict from is not empty while the weight exceeds the limit, and
    the comparison of the weights picks such a table. *)
Lemma eviction_possible p :
  tables_ok p → total_weight (sts p) ≤ weight_limit p → normal_positive (vt_to_dr_factor p) →
  total_transactions_weight p > weight_limit p →
  if more_vtts_than_drs p then entries (vts p) ≠ ∅ else entries (drs p) ≠ ∅.
Proof.
  intros [Hv Hd Hs _] Hst Hf Hover.
  pose proof (table_weight_bounds _ _ _ Hv). pose proof (table_weight_bounds _ _ _ Hd). pose proof (table_weight_bounds _ _ _ Hs).
  destruct (more_vtts_than_drs p) eqn:Hm; intros He; unfold more_vtts_than_drs in Hm.
  - rewrite (table_weight_empty _ _ _ Hv He) in Hm. destruct (decide (total_weight (drs p) = 0)) as [Hz|Hz].
    + unfold total_transactions_weight in Hover. rewrite (table_weight_empty _ _ _ Hv He), Hz in Hover.
      rewrite !wadd_small in Hover by (rewrite ?wadd_small; lia). lia.
    + rewrite f64_mul_positive in Hm by (done || lia). done.
  - rewrite (table_weight_empty _ _ _ Hd He), f64_mul_zero in Hm by (done || lia). done.
Qed.

Lemma shrink_spec fuel : ∀ p acc,
  consistent p ∅ nothing → total_weight (sts p) ≤ weight_limit p → normal_positive (vt_to_dr_factor p) →
  (vt_len p + dr_len p < fuel)%nat →
  ∃ p' out, shrink fuel p acc = Ret p' (acc ++ out) ∧ shrunk p out p'.
Proof.
  induction fuel as [|fuel IH]; intros p acc Hc Hst Hf Hfuel; [lia|]. cbn [shrink].
  case_decide as Hover.
  2: { exists p, []. rewrite app_nil_r. split; [done|]. split; [done|lia|by destruct p|apply evicted_same..]. }
  pose proof (eviction_possible p (cs_tables _ _ _ Hc) Hst Hf Hover) as Hne.
  destruct (more_vtts_than_drs p).
  - destruct (evict_spec vt_access ValueTransfer _ p Hc Hne) as (p1 & h & q & tx & -> & Hx & Hmin & Hc1 & [Hfr He]). simpl in *.
    assert (drs p1 = drs p ∧ sts p1 = sts p ∧ weight_limit p1 = weight_limit p ∧ vt_to_dr_factor p1 = vt_to_dr_factor p)
      as (Hd & Hs & Hwl & Hff) by (by rewrite Hfr).
    assert (size (entries (vts p)) ≠ 0%nat) by (by rewrite map_size_ne_0_lookup; exists h, (q, tx)).
    destruct (IH p1 (acc ++ [ValueTransfer tx])) as (p' & out & Hr & [H1 H2 H3 H4 H5]);
      [done|by rewrite Hs, Hwl|by rewrite Hff| |].
    { unfold vt_len, dr_len in *. rewrite Hd, He, map_size_delete, Hx. simpl. lia. }
    exists p', (ValueTransfer tx :: out). rewrite Hr, <-app_assoc. split; [done|]. split; [done|done| | |].
    + rewrite H3. rewrite Hfr. done.
    + by eapply evicted_step.
    + rewrite Hd in H5. eapply evicted_more; [|exact H5]. set_solver.
  - destruct (evict_spec dr_access DataRequest _ p Hc Hne) as (p1 & h & q & tx & -> & Hx & Hmin & Hc1 & [Hfr He]). simpl in *.
    assert (vts p1 = vts p ∧ sts p1 = sts p ∧ weight_limit p1 = weight_limit p ∧ vt_to_dr_factor p1 = vt_to_dr_factor p)
      as (Hv & Hs & Hwl & Hff) by (by rewrite Hfr).
    assert (size (entries (drs p)) ≠ 0%nat) by (by rewrite map_size_ne_0_lookup; exists h, (q, tx)).
    destruct (IH p1 (acc ++ [DataRequest tx])) as (p' & out & Hr & [H1 H2 H3 H4 H5]);
      [done|by rewrite Hs, Hwl|by rewrite Hff| |].
    { unfold vt_len, dr_len in *. rewrite Hv, He, map_size_delete, Hx. simpl. lia. }
    exists p', (DataRequest tx :: out). rewrite Hr, <-app_assoc. split; [done|]. split; [done|done| | |].
    + rewrite H3. rewrite Hfr. done.
    + rewrite Hv in H4. eapply evicted_more; [|exact H4]. set_solver.
    + by eapply evicted_step.
Qed.

(** While the stake transactions alone do not exceed the limit and the factor
    is a normal positive number, the eviction loop ends without a panic in a
    consistent pool within the limit; it only drops value transfers and data
    requests, returns all of them, and each has a lower priority than every
    transaction of its kind that stays. *)
Theorem limit_evicts_cheapest p :
  consistent p ∅ nothing → total_weight (sts p) ≤ weight_limit p → normal_positive (vt_to_dr_factor p) →
  ∃ p' out, remove_transactions_for_size_limit p = Ret p' out ∧ shrunk p out p'.
Proof.
  intros Hc Hst Hf. destruct (shrink_spec (S (vt_len p + dr_len p)) p []) as (p' & out & Hr & Hs); [done..|lia|].
  by exists p', out.
Qed.

(** Stake transactions count towards the limit but are never evicted: when
    they alone exceed it, the loop empties the other tables and panics. *)
Theorem stakes_over_limit_panic p :
  tables_ok p → entries (vts p) = ∅ → entries (drs p) = ∅ → weight_limit p < total_weight (sts p) →
  normal_positive (vt_to_dr_factor p) → remove_transactions_for_size_limit p = Crash.
Proof.
  intros Ht Hv Hd Hs Hf. pose proof Ht as [Tv Td Ts _]. pose proof (table_weight_bounds _ _ _ Ts).
  unfold remove_transactions_for_size_limit. cbn [shrink]. unfold total_transactions_weight, more_vtts_than_drs.
  rewrite (table_weight_empty _ _ _ Tv Hv), (table_weight_empty _ _ _ Td Hd).
  rewrite decide_True by (rewrite !wadd_small by (rewrite ?wadd_small; lia); lia).
  rewrite f64_mul_zero by (done || (split; [lia|done])).
  by rewrite (evict_empty vt_access _ _ p Ht Hv).
Qed.

(** ** Consolidation *)

(** What the hash of a transaction determines: its kind, the outputs it spends
    and, for a reveal, the request and the identity. *)
Definition kind (t : Transaction) : nat :=
  match t with
  | ValueTransfer _ => 0 | DataRequest _ => 1 | Commit _ => 2 | Reveal _ => 3
  | Tally _ => 4 | Mint _ => 5 | TxStake _ => 6 | TxUnstake _ => 7
  end%nat.
Definition spent (t : Transaction) : list OutputPointer :=
  match t with
  | ValueTransfer t => outs (vt_inputs t)
  | DataRequest t => outs (d_inputs t)
  | TxStake t => outs (s_inputs t)
  | _ => []
  end.
Definition slot (t : Transaction) : option (Hash * PublicKeyHash) :=
  match t with Reveal r => Some (r_dr_pointer r, r_pkh r) | _ => None end.
Definition body_id (t : Transaction) : nat * list OutputPointer * option (Hash * PublicKeyHash) := (kind t, spent t, slot t).

(** Hashes are of the bodies of transactions and have no collisions. *)
Hypothesis hash_body : ∀ t t', tx_hash t = tx_hash t' → body_id t = body_id t'.

Definition meets (D : gset OutputPointer) (inputs : list Input) : Prop := Exists (λ o, o ∈ D) (outs inputs).
Definition survive {T} (inputs : T → list Input) (D : gset OutputPointer) (m : gmap Hash (f64 * T)) : gmap Hash (f64 * T) :=
  filter (λ hx, ¬ meets D (inputs hx.2.2)) m.

Lemma table_kind {T} (weight : T → Z) (wrap : T → Transaction) t h q tx :
  table_ok weight (λ t, tx_hash (wrap t)) t → entries t !! h = Some (q, tx) → tx_hash (wrap tx) = h.
Proof. intros Ht. apply (to_hash _ _ _ Ht). Qed.

Class Apart {T} (a : Access T) (wrap : T → Transaction) (others : TransactionsPool → Hash → list OutputPointer) : Prop := {
  ap_alone p h x : tables_ok p → entries (acc_get a p) !! h = Some x → others p h = [];
  ap_removed R p p' : removed R p p' → entries (acc_get a p') = without R (entries (acc_get a p));
  ap_spent tx : spent (wrap tx) = outs (acc_inputs a tx);
}.

(** Two tables do not share a hash. *)
Lemma kinds_apart {T T'} w w' (wrap : T → Transaction) (wrap' : T' → Transaction) (inputs : T' → list Input) t t' h x :
  table_ok w (λ t, tx_hash (wrap t)) t → table_ok w' (λ t, tx_hash (wrap' t)) t' →
  (∀ a b, kind (wrap a) ≠ kind (wrap' b)) → entries t !! h = Some x → part inputs t' h = [].
Proof.
  intros Ht Ht' Hk Hx. unfold part. destruct (entries t' !! h) as [[q' y]|] eqn:Hy; [|done]. destruct x as [q x].
  exfalso. apply (Hk x y). apply (to_hash _ _ _ Ht) in Hx. apply (to_hash _ _ _ Ht') in Hy.
  assert (body_id (wrap x) = body_id (wrap' y)) as Hb by (apply hash_body; by rewrite Hx, Hy).
  unfold body_id in Hb. congruence.
Qed.

#[local] Instance vt_apart : Apart vt_access ValueTransfer (λ p h, part d_inputs (drs p) h ++ part s_inputs (sts p) h).
Proof.
  split; [|by intros R p p' []|done]. intros p h x [Hv Hd Hs _] Hx.
  rewrite (kinds_apart _ _ _ _ d_inputs _ _ h x Hv Hd), (kinds_apart _ _ _ _ s_inputs _ _ h x Hv Hs) by done. done.
Qed.
#[local] Instance dr_apart : Apart dr_access DataRequest (λ p h, part vt_inputs (vts p) h ++ part s_inputs (sts p) h).
Proof.
  split; [|by intros R p p' []|done]. intros p h x [Hv Hd Hs _] Hx.
  rewrite (kinds_apart _ _ _ _ vt_inputs _ _ h x Hd Hv), (kinds_apart _ _ _ _ s_inputs _ _ h x Hd Hs) by done. done.
Qed.
#[local] Instance st_apart : Apart st_access TxStake (λ p h, part vt_inputs (vts p) h ++ part d_inputs (drs p) h).
Proof.
  split; [|by intros R p p' []|done]. intros p h x [Hv Hd Hs _] Hx.
  rewrite (kinds_apart _ _ _ _ vt_inputs _ _ h x Hs Hv), (kinds_apart _ _ _ _ d_inputs _ _ h x Hs Hd) by done. done.
Qed.

(** A sweep keeps exactly the transactions that do not spend the outputs. *)
Lemma swept_entries {T} (a : Access T) wrap others `{!Spender a wrap others, !Apart a wrap others} p0 E D p :
  swept p0 E D p → tables_ok p0 → (∀ h x, entries (acc_get a p0) !! h = Some x → E h = []) →
  entries (acc_get a p) = survive (acc_inputs a) D (entries (acc_get a p0)).
Proof.
  intros [Hc (R & Hrm & HR) Hg] Ht HE. pose proof (ap_removed R p0 p Hrm) as He. rewrite He.
  apply map_eq. intros h. rewrite lookup_without. unfold survive.
  destruct (entries (acc_get a p0) !! h) as [[q tx]|] eqn:Hx.
  2: { rewrite (proj2 (map_lookup_filter_None _ _ _)) by (by left). by case_decide. }
  assert (spends p0 h ≡ₚ outs (acc_inputs a tx)) as Hsp.
  { rewrite (sp_spends p0 h), (ap_alone p0 h _ Ht Hx). unfold part. by rewrite Hx, app_nil_r. }
  case_decide as Hh.
  - symmetry. apply map_lookup_filter_None. right. intros x [= <-]%(eq_trans (eq_sym Hx)) Hm. simpl in Hm. apply Hm.
    destruct (HR h Hh) as (o & HoD & Ho). rewrite (HE h _ Hx), app_nil_r, Hsp in Ho. apply Exists_exists. by exists o.
  - symmetry. apply map_lookup_filter_Some. split; [done|]. simpl. intros (o & Ho & HoD)%Exists_exists.
    apply (Hg h o HoD). rewrite (spends_removed _ _ _ h Hrm), decide_False by done. by rewrite Hsp.
Qed.

(** The pool without a consolidated transaction and its conflicts. *)
Record consolidated (p : TransactionsPool) (key : Hash) (D : gset OutputPointer) (p' : TransactionsPool) : Prop := {
  cd_frame : p' = with_pointers (with_tables p (vts p') (drs p') (sts p') (uts p)) (output_pointer_map p');
  cd_vt : entries (vts p') = survive vt_inputs D (delete key (entries (vts p)));
  cd_dr : entries (drs p') = survive d_inputs D (delete key (entries (drs p)));
  cd_st : entries (sts p') = survive s_inputs D (delete key (entries (sts p)));
}.

(** No transaction of another kind has the hash. *)
Lemma other_kind_absent {T} w (wrap : T → Transaction) (t : Table T) t0 :
  table_ok w (λ t, tx_hash (wrap t)) t → (∀ x, kind (wrap x) ≠ kind t0) → entries t !! tx_hash t0 = None.
Proof.
  intros Ht Hk. destruct (entries t !! tx_hash t0) as [[q x]|] eqn:Hx; [|done]. exfalso. apply (Hk x).
  apply (to_hash _ _ _ Ht) in Hx. apply hash_body in Hx. unfold body_id in Hx. congruence.
Qed.

Lemma swept_table {T} (a : Access T) wrap others `{!Spender a wrap others, !Apart a wrap others} p p1 E D p' key :
  swept p1 E D p' → tables_ok p1 → entries (acc_get a p1) = delete key (entries (acc_get a p)) →
  (∀ h, h ≠ key → E h = []) →
  entries (acc_get a p') = survive (acc_inputs a) D (delete key (entries (acc_get a p))).
Proof.
  intros Hsw Ht He HE. rewrite <-He. apply (swept_entries a wrap others p1 E D p' Hsw Ht).
  intros h x Hx. apply HE. intros ->. rewrite He, lookup_delete_eq in Hx. done.
Qed.

Section consolidate.
Context {T : Type} (a : Access T) (wrap : T → Transaction) (others : TransactionsPool → Hash → list OutputPointer).
Context `{!Spender a wrap others, !Apart a wrap others}.

(** After the removal of the transaction itself, [E] holds what it left in the map
    and the sweep over its inputs clears it. *)
Lemma consolidate_sweep p tx :
  consistent p ∅ nothing →
  ∃ p1 p' E, consolidate a p (tx_hash (wrap tx)) tx
      = Some (p', snd <$> entries (acc_get a p) !! tx_hash (wrap tx))
    ∧ removed_one a p (tx_hash (wrap tx)) p1
    ∧ tables_ok p1 ∧ swept p1 E (list_to_set (outs (acc_inputs a tx))) p' ∧ (∀ h, h ≠ tx_hash (wrap tx) → E h = [])
    ∧ consistent p' ∅ nothing.
Proof.
  intros Hc. set (key := tx_hash (wrap tx)).
  destruct (remove_consolidated_spec a wrap others p key ∅ nothing Hc) as (p1 & Hr & Hc1 & Ho & Hm).
  set (E := λ h, _) in Hc1.
  assert (swept p1 E ∅ p1) as Hsw.
  { split; [done|exists ∅; split; [apply removed_refl|set_solver]|set_solver]. }
  destruct (remove_inputs_swept (acc_inputs a tx) p1 E ∅ p1 Hsw) as (p' & Hr' & Hsw'). rewrite union_empty_r_L in Hsw'.
  exists p1, p', E. unfold consolidate. rewrite Hr. cbn [mbind option_bind]. rewrite Hr'. cbn [mbind option_bind].
  split; [done|]. split; [done|]. split; [apply Hc1|]. split; [done|].
  assert (∀ h, h ≠ key → E h = []) as HE by (intros h Hh; unfold E; by rewrite decide_False). split; [done|].
  assert (∀ h o, o ∈ E h → o ∈ outs (acc_inputs a tx)) as HEin.
  { intros h o. unfold E, nothing. rewrite app_nil_r. case_decide; [|set_solver].
    unfold part. destruct (entries (acc_get a p) !! key) as [[q tx']|] eqn:Hx; [|set_solver].
    apply (to_hash _ _ _ (sp_ok p (cs_tables _ _ _ Hc))) in Hx. apply hash_body in Hx. unfold body_id in Hx.
    rewrite !ap_spent in Hx. congruence. }
  destruct Hsw' as [[Ht' [Hd Hl Hn]] _ Hg]. split; [done|]. split; [set_solver| |done].
  intros o h _. unfold nothing. rewrite app_nil_r. destruct (decide (o ∈ outs (acc_inputs a tx))) as [Hin|Hin].
  - rewrite Hd by set_solver. simpl. symmetry. apply occ_None. apply Hg. set_solver.
  - rewrite Hl by set_solver. rewrite occ_app. assert (occ o (E h) = 0%nat) by (apply occ_None; by intros ?%HEin). lia.
Qed.
End consolidate.

Lemma consolidated_intro p p1 E D p' key :
  swept p1 E D p' → tables_ok p1 → (∀ h, h ≠ key → E h = []) →
  p1 = with_pointers (with_tables p (vts p1) (drs p1) (sts p1) (uts p)) (output_pointer_map p1) →
  entries (vts p1) = delete key (entries (vts p)) → entries (drs p1) = delete key (entries (drs p)) →
  entries (sts p1) = delete key (entries (sts p)) → consolidated p key D p'.
Proof.
  intros Hsw Ht HE Hf Hv Hd Hs. split.
  - destruct Hsw as [_ (R & [Hf' _ _ _] & _) _]. rewrite Hf'. rewrite Hf. done.
  - by apply (swept_table vt_access _ _ p p1 E D p' key).
  - by apply (swept_table dr_access _ _ p p1 E D p' key).
  - by apply (swept_table st_access _ _ p p1 E D p' key).
Qed.

Definition consolidation_result {T} (p : TransactionsPool) (key : Hash) (inputs : list Input) (r : option T)
    (o : option (TransactionsPool * option T)) : Prop :=
  ∃ p', o = Some (p', r) ∧ consistent p' ∅ nothing ∧ consolidated p key (list_to_set (outs inputs)) p'.

Lemma vt_remove_spec p tx (key := tx_hash (ValueTransfer tx)) :
  consistent p ∅ nothing →
  consolidation_result p key (vt_inputs tx) (snd <$> entries (vts p) !! key) (vt_remove tx_hash p tx).
Proof.
  intros Hc. destruct (consolidate_sweep vt_access ValueTransfer _ p tx Hc) as (p1 & p' & E & Hr & [Hf He] & Ht1 & Hsw & HE & Hc').
  exists p'. split; [exact Hr|]. split; [done|]. destruct Hc as [[Hv Hd Hs _] _]. simpl in *.
  assert (drs p1 = drs p ∧ sts p1 = sts p) as [Hd1 Hs1] by (by rewrite Hf).
  apply (consolidated_intro p p1 E); [done..|by rewrite Hf|done|rewrite Hd1|rewrite Hs1].
  - by rewrite delete_id by (by apply (other_kind_absent _ _ _ _ Hd)).
  - by rewrite delete_id by (by apply (other_kind_absent _ _ _ _ Hs)).
Qed.
Lemma dr_remove_spec p tx (key := tx_hash (DataRequest tx)) :
  consistent p ∅ nothing →
  consolidation_result p key (d_inputs tx) (snd <$> entries (drs p) !! key) (dr_remove tx_hash p tx).
Proof.
  intros Hc. destruct (consolidate_sweep dr_access DataRequest _ p tx Hc) as (p1 & p' & E & Hr & [Hf He] & Ht1 & Hsw & HE & Hc').
  exists p'. split; [exact Hr|]. split; [done|]. destruct Hc as [[Hv Hd Hs _] _]. simpl in *.
  assert (vts p1 = vts p ∧ sts p1 = sts p) as [Hv1 Hs1] by (by rewrite Hf).
  apply (consolidated_intro p p1 E); [done..|by rewrite Hf|rewrite Hv1|done|rewrite Hs1].
  - by rewrite delete_id by (by apply (other_kind_absent _ _ _ _ Hv)).
  - by rewrite delete_id by (by apply (other_kind_absent _ _ _ _ Hs)).
Qed.
Lemma st_remove_spec p tx (key := tx_hash (TxStake tx)) :
  consistent p ∅ nothing →
  consolidation_result p key (s_inputs tx) (snd <$> entries (sts p) !! key) (st_remove tx_hash p tx).
Proof.
  intros Hc. destruct (consolidate_sweep st_access TxStake _ p tx Hc) as (p1 & p' & E & Hr & [Hf He] & Ht1 & Hsw & HE & Hc').
  exists p'. split; [exact Hr|]. split; [done|]. destruct Hc as [[Hv Hd Hs _] _]. simpl in *.
  assert (vts p1 = vts p ∧ drs p1 = drs p) as [Hv1 Hd1] by (by rewrite Hf).
  apply (consolidated_intro p p1 E); [done..|by rewrite Hf|rewrite Hv1|rewrite Hd1|done].
  - by rewrite delete_id by (by apply (other_kind_absent _ _ _ _ Hv)).
  - by rewrite delete_id by (by apply (other_kind_absent _ _ _ _ Hd)).
Qed.

(** The transaction of a spending kind with a hash. *)
Definition spender_of (p : TransactionsPool) (h : Hash) : option Transaction :=
  match entries (vts p) !! h with
  | Some (_, t) => Some (ValueTransfer t)
  | None =>
      match entries (drs p) !! h with
      | Some (_, t) => Some (DataRequest t)
      | None => match entries (sts p) !! h with Some (_, t) => Some (TxStake t) | None => None end
      end
  end.
(** The removal of a consolidated transaction of a spending kind. *)
Definition remove_consolidated (p : TransactionsPool) (t : Transaction) : option TransactionsPool :=
  match t with
  | ValueTransfer tx => fst <$> vt_remove tx_hash p tx
  | DataRequest tx => fst <$> dr_remove tx_hash p tx
  | TxStake tx => fst <$> st_remove tx_hash p tx
  | _ => None
  end.

Lemma lookup_survive {T} (inputs : T → list Input) D (m : gmap Hash (f64 * T)) key h :
  survive inputs D (delete key m) !! h
  = match m !! h with
    | Some (q, tx) => if decide (h = key ∨ Exists (λ o, o ∈ D) (outs (inputs tx))) then None else Some (q, tx)
    | None => None
    end.
Proof.
  unfold survive. destruct (decide (h = key)) as [->|Hne].
  - rewrite (proj2 (map_lookup_filter_None _ _ _)) by (left; apply lookup_delete_eq).
    destruct (m !! key) as [[q tx]|]; [|done]. by rewrite decide_True by (by left).
  - destruct (m !! h) as [[q tx]|] eqn:Hx.
    + case_decide as Hm.
      * apply map_lookup_filter_None. right. intros x. rewrite lookup_delete_ne, Hx by done. intros [= <-]. simpl.
        destruct Hm; [done|]. by intros Hn; apply Hn.
      * apply map_lookup_filter_Some. rewrite lookup_delete_ne by done. split; [done|]. simpl. intros Hme. apply Hm. by right.
    + apply map_lookup_filter_None. left. by rewrite lookup_delete_ne.
Qed.

Lemma consolidated_spec p t :
  consistent p ∅ nothing → kind t ∈ [0; 1; 6]%nat →
  ∃ p', remove_consolidated p t = Some p' ∧ consistent p' ∅ nothing
    ∧ consolidated p (tx_hash t) (list_to_set (spent t)) p'.
Proof.
  intros Hc Hk. destruct t as [tx|tx|tx|tx|tx|tx|tx|tx]; simpl in Hk; try set_solver.
  - destruct (vt_remove_spec p tx Hc) as (p' & Hr & Hrest). exists p'. unfold remove_consolidated. by rewrite Hr.
  - destruct (dr_remove_spec p tx Hc) as (p' & Hr & Hrest). exists p'. unfold remove_consolidated. by rewrite Hr.
  - destruct (st_remove_spec p tx Hc) as (p' & Hr & Hrest). exists p'. unfold remove_consolidated. by rewrite Hr.
Qed.

(** When a value transfer, a data request or a stake transaction is included
    in a block, the pool drops exactly this transaction and those that spend one
    of its inputs, whatever their kind; nothing panics, and unstake transactions,
    commits, reveals and settings do not change. *)
Theorem consolidation_drops_conflicts p t :
  consistent p ∅ nothing → kind t ∈ [0; 1; 6]%nat →
  ∃ p', remove_consolidated p t = Some p' ∧ consistent p' ∅ nothing
    ∧ (∀ h, spender_of p' h
         = match spender_of p h with
           | Some t' => if decide (h = tx_hash t ∨ Exists (λ o, o ∈ spent t) (spent t')) then None else Some t'
           | None => None
           end)
    ∧ p' = with_pointers (with_tables p (vts p') (drs p') (sts p') (uts p)) (output_pointer_map p').
Proof.
  intros Hc Hk.
  destruct (consolidated_spec p t Hc Hk) as (p' & Hr & Hc' & [Hf Hv Hd Hs]).
  exists p'. split; [done|]. split; [done|]. split; [|done]. intros h.
  assert (∀ l, Exists (λ o, o ∈ (list_to_set (spent t) : gset OutputPointer)) l ↔ Exists (λ o, o ∈ spent t) l) as Hex
    by (intros l; rewrite !Exists_exists; set_solver).
  unfold spender_of. rewrite Hv, Hd, Hs, !lookup_survive. destruct Hc as [[Tv Td Ts _] _].
  destruct (entries (vts p) !! h) as [[q tx]|] eqn:Hx; [|destruct (entries (drs p) !! h) as [[q tx]|] eqn:Hy].
  - apply (to_hash _ _ _ Tv) in Hx. rewrite <-Hx, (other_kind_absent _ _ _ _ Td), (other_kind_absent _ _ _ _ Ts), Hx by done.
    simpl. specialize (Hex (outs (vt_inputs tx))).
    repeat case_decide; done || tauto.
  - apply (to_hash _ _ _ Td) in Hy. rewrite <-Hy, (other_kind_absent _ _ _ _ Ts), Hy by done. simpl. specialize (Hex (outs (d_inputs tx))).
    repeat case_decide; done || tauto.
  - destruct (entries (sts p) !! h) as [[q tx]|]; [|done]. simpl. specialize (Hex (outs (s_inputs tx))).
    repeat case_decide; done || tauto.
Qed.

(** ** Insertion *)

Lemma consistent_ext p p' D E :
  vts p' = vts p → drs p' = drs p → sts p' = sts p → uts p' = uts p → output_pointer_map p' = output_pointer_map p →
  consistent p D E → consistent p' D E.
Proof.
  intros Hv Hd Hs Hu Hm [[Tv Td Ts Tu] Hl]. split; [split; by rewrite ?Hv, ?Hd, ?Hs, ?Hu|].
  rewrite Hm. eapply linked_ext; [|exact Hl]. intros h. unfold spends. by rewrite Hv, Hd, Hs.
Qed.

Lemma insert_spender_spec {T} (a : Access T) wrap others `{!Spender a wrap others} p tx fee (key := tx_hash (wrap tx)) :
  consistent p ∅ nothing → entries (acc_get a p) !! key = None → consistent (insert_spender a p key tx fee) ∅ nothing.
Proof.
  intros [Ht Hl] Hk. unfold insert_spender. set (t := table_insert _ _ _ _ _).
  split; [apply sp_set_ok; [done|]; by apply table_insert_ok; [apply sp_ok|..]|]. simpl.
  apply (link_linked (acc_inputs a tx) _ _ key) in Hl. eapply linked_ext; [|exact Hl]. intros h. unfold upd, nothing.
  rewrite !app_nil_r, (sp_spends (with_pointers (acc_set a p t) _) h), sp_get_pointers, sp_get_set, sp_others.
  unfold part, t. simpl. case_decide as Hh.
  - subst h. rewrite lookup_insert_eq, (sp_spends p key). unfold part. by rewrite Hk.
  - rewrite lookup_insert_ne by done. by rewrite (sp_spends p h).
Qed.

Lemma evict_consistent {T} (a : Access T) wrap others `{!Spender a wrap others} p p' tx :
  consistent p ∅ nothing → evict a p = Some (p', tx) → consistent p' ∅ nothing ∧ ∃ h, removed_one a p h p'.
Proof.
  intros Hc. unfold evict. intros ([q h] & _ & Hr)%bind_Some. apply bind_Some in Hr as ([p1 r] & Hr & Ht).
  destruct (remove_inner_spec a wrap others p h ∅ nothing Hc) as (p2 & Hr2 & Hc2 & Ho). rewrite Hr2 in Hr. injection Hr as -> _.
  apply bind_Some in Ht as (tx' & _ & [= -> ->]). split; [done|by exists h].
Qed.

(** The reveals of a pool. *)
Definition reveals_of (p : TransactionsPool) : gmap Hash RevealTransaction * gmap Hash (gmap PublicKeyHash Hash) :=
  (re_hash_index p, re_transactions p).

Lemma shrink_consistent fuel : ∀ p acc p' out,
  consistent p ∅ nothing → shrink fuel p acc = Ret p' out → consistent p' ∅ nothing ∧ reveals_of p' = reveals_of p.
Proof.
  induction fuel as [|fuel IH]; intros p acc p' out Hc; cbn [shrink]; case_decide; try done; [by intros [= <- <-]| |by intros [= <- <-]].
  destruct (more_vtts_than_drs p).
  - destruct (evict vt_access p) as [[p1 tx]|] eqn:He; [|done].
    destruct (evict_consistent vt_access _ _ _ _ _ Hc He) as (Hc1 & h & [Hf _]). intros Hr.
    destruct (IH _ _ _ _ Hc1 Hr) as [? ->]. split; [done|by rewrite Hf].
  - destruct (evict dr_access p) as [[p1 tx]|] eqn:He; [|done].
    destruct (evict_consistent dr_access _ _ _ _ _ Hc He) as (Hc1 & h & [Hf _]). intros Hr.
    destruct (IH _ _ _ _ Hc1 Hr) as [? ->]. split; [done|by rewrite Hf].
Qed.

(** ** Reveals *)

Definition listed (m : gmap Hash (gmap PublicKeyHash Hash)) (d : Hash) (k : PublicKeyHash) : option Hash :=
  match m !! d with Some hm => hm !! k | None => None end.

(** The two indexes of reveals agree. *)
Record reveals_ok (x : gmap Hash RevealTransaction * gmap Hash (gmap PublicKeyHash Hash)) : Prop := {
  rv_index : ∀ h r, x.1 !! h = Some r → tx_hash (Reveal r) = h ∧ listed x.2 (r_dr_pointer r) (r_pkh r) = Some h;
  rv_listed : ∀ d k h, listed x.2 d k = Some h → ∃ r, x.1 !! h = Some r ∧ r_dr_pointer r = d ∧ r_pkh r = k;
}.

Lemma reveals_empty : reveals_ok (∅, ∅).
Proof. split; simpl; [by intros h r; rewrite lookup_empty|]. intros d k h. unfold listed. by rewrite lookup_empty. Qed.

Lemma listed_insert m d hm d' k' : listed (<[d := hm]> m) d' k' = if decide (d' = d) then hm !! k' else listed m d' k'.
Proof. unfold listed. case_decide; [subst; by rewrite lookup_insert_eq|by rewrite lookup_insert_ne]. Qed.
Lemma listed_delete m d d' k' : listed (delete d m) d' k' = if decide (d' = d) then None else listed m d' k'.
Proof. unfold listed. case_decide; [subst; by rewrite lookup_delete_eq|by rewrite lookup_delete_ne]. Qed.
Lemma listed_default m d k : default ∅ (m !! d) !! k = listed m d k.
Proof. unfold listed. destruct (m !! d); [done|]. apply lookup_empty. Qed.

Lemma same_slot r r' : tx_hash (Reveal r) = tx_hash (Reveal r') → r_dr_pointer r = r_dr_pointer r' ∧ r_pkh r = r_pkh r'.
Proof. intros Hh. apply hash_body in Hh. unfold body_id in Hh. simpl in Hh. by injection Hh. Qed.

Lemma reveal_insert_ok ri rt r (key := tx_hash (Reveal r)) :
  reveals_ok (ri, rt) → listed rt (r_dr_pointer r) (r_pkh r) = None →
  reveals_ok (<[key := r]> ri, <[r_dr_pointer r := <[r_pkh r := key]> (default ∅ (rt !! r_dr_pointer r))]> rt).
Proof.
  intros [Hi Hl] Hn. simpl in *.
  assert (∀ d k, listed (<[r_dr_pointer r := <[r_pkh r := key]> (default ∅ (rt !! r_dr_pointer r))]> rt) d k
    = if decide (d = r_dr_pointer r ∧ k = r_pkh r) then Some key else listed rt d k) as Hlk.
  { intros d k. rewrite listed_insert. destruct (decide (d = r_dr_pointer r)) as [->|Hd]; [|by rewrite decide_False by tauto].
    destruct (decide (k = r_pkh r)) as [->|Hk]; [by rewrite lookup_insert_eq, decide_True|].
    rewrite lookup_insert_ne, listed_default by done. by rewrite decide_False by tauto. }
  split; simpl.
  - intros h r' Hx. destruct (decide (h = key)) as [->|Hne].
    + rewrite lookup_insert_eq in Hx. injection Hx as <-. split; [done|]. by rewrite Hlk, decide_True.
    + rewrite lookup_insert_ne in Hx by done. destruct (Hi h r' Hx) as [Hh Hlst]. split; [done|]. rewrite Hlk.
      case_decide as Hs; [|done]. destruct Hs as [Hd Hk]. rewrite Hd, Hk in Hlst. congruence.
  - intros d k h. rewrite Hlk. case_decide as Hs.
    + intros [= <-]. exists r. rewrite lookup_insert_eq. by destruct Hs.
    + intros (r' & Hx & Hd & Hk)%Hl. exists r'. split; [|done]. rewrite lookup_insert_ne; [done|]. intros <-.
      destruct (Hi key r' Hx) as [Hh _]. apply same_slot in Hh as [? ?]. apply Hs. by subst.
Qed.

Lemma remove_one_reveal_spec p r (key := tx_hash (Reveal r)) :
  reveals_ok (reveals_of p) →
  ∃ p', remove_one_reveal p (r_dr_pointer r) (r_pkh r) key = Some (p', re_hash_index p !! key)
    ∧ reveals_ok (reveals_of p') ∧ p' = with_reveals p (re_hash_index p') (re_transactions p').
Proof.
  intros Hok. pose proof Hok as [Hi Hl]. simpl in *. unfold remove_one_reveal.
  destruct (re_hash_index p !! key) as [r0|] eqn:Hx; [|exists p; by destruct p].
  destruct (Hi key r0 Hx) as [Hh Hlst]. apply same_slot in Hh as [Hd Hk]. rewrite Hd, Hk in Hlst.
  unfold listed in Hlst. destruct (re_transactions p !! r_dr_pointer r) as [hm|] eqn:Hm; [|done].
  eexists. split; [done|]. split; [|done]. cbn [reveals_of with_reveals re_hash_index re_transactions].
  set (rt' := if decide _ then _ else _).
  assert (∀ d k, listed rt' d k = if decide (d = r_dr_pointer r ∧ k = r_pkh r) then None else listed (re_transactions p) d k) as Hlk.
  { intros d k. unfold rt'. destruct (decide (d = r_dr_pointer r)) as [->|Hdd].
    - unfold listed at 2. rewrite Hm. case_decide as He.
      + rewrite listed_delete, decide_True by done. symmetry. case_decide; [done|].
        rewrite <-(lookup_delete_ne hm (r_pkh r)) by naive_solver. by rewrite He, lookup_empty.
      + rewrite listed_insert, decide_True by done. destruct (decide (k = r_pkh r)) as [->|Hkk].
        * by rewrite lookup_delete_eq, decide_True.
        * by rewrite lookup_delete_ne, decide_False by naive_solver.
    - rewrite (decide_False (P := _ ∧ _)) by tauto. case_decide; [rewrite listed_delete|rewrite listed_insert]; by rewrite decide_False. }
  split; simpl.
  - intros h r' Hr'. destruct (decide (h = key)) as [->|Hne]; [by rewrite lookup_delete_eq in Hr'|].
    rewrite lookup_delete_ne in Hr' by done. destruct (Hi h r' Hr') as [Hh' Hl']. split; [done|]. rewrite Hlk.
    case_decide as Hs; [|done]. destruct Hs as [Hsd Hsk]. exfalso. apply Hne.
    rewrite Hsd, Hsk in Hl'. unfold listed in Hl'. rewrite Hm in Hl'. congruence.
  - intros d k h. rewrite Hlk. case_decide as Hs; [done|]. intros Hlst'. destruct (Hl d k h Hlst') as (r' & Hx' & Hd' & Hk').
    exists r'. split; [|done]. rewrite lookup_delete_ne; [done|]. intros <-. apply Hs.
    assert (r' = r0) as -> by congruence. split; congruence.
Qed.

Context (calculate_sha256 : list Z → Hash) (visit : ∀ A : Type, list A → list A).
Hypothesis visit_perm : ∀ A (l : list A), visit A l ≡ₚ l.

Lemma lookup_foldl_delete {V} (l : list Hash) : ∀ (m : gmap Hash V) h,
  foldl (λ m h, delete h m) m l !! h = if decide (h ∈ l) then None else m !! h.
Proof.
  induction l as [|x l IH]; intros m h; [by rewrite decide_False by apply not_elem_of_nil|].
  cbn [foldl]. rewrite IH. destruct (decide (h = x)) as [->|Hne].
  - rewrite lookup_delete_eq. rewrite (decide_True (P := x ∈ x :: l)) by left. by case_decide.
  - rewrite lookup_delete_ne by done. apply decide_ext. set_solver.
Qed.

Lemma clear_finished_spec p d :
  reveals_ok (reveals_of p) →
  let p' := clear_reveals_from_finished_dr visit p d in
  reveals_ok (reveals_of p') ∧ p' = with_reveals p (re_hash_index p') (re_transactions p').
Proof.
  intros Hok. pose proof Hok as [Hi Hl]. simpl in *. unfold clear_reveals_from_finished_dr.
  destruct (re_transactions p !! d) as [hm|] eqn:Hm; [|by destruct p]. split; [|done].
  cbn [reveals_of with_reveals re_hash_index re_transactions].
  split; simpl.
  - intros h r. rewrite lookup_foldl_delete. case_decide as Hin; [done|]. intros Hx. destruct (Hi h r Hx) as [Hh Hlst].
    split; [done|]. rewrite listed_delete. case_decide as Hd; [|done]. exfalso. apply Hin, (elem_of_visited visit visit_perm). exists (r_pkh r).
    rewrite Hd in Hlst. unfold listed in Hlst. by rewrite Hm in Hlst.
  - intros d' k h. rewrite listed_delete. case_decide as Hd; [done|]. intros (r & Hx & Hrd & Hrk)%Hl. exists r.
    split; [|done]. rewrite lookup_foldl_delete, decide_False; [done|]. intros (k' & Hk')%(elem_of_visited visit visit_perm).
    destruct (Hl d k' h) as (r' & Hx' & Hd' & _); [unfold listed; by rewrite Hm|]. congruence.
Qed.

Lemma get_reveals_total p dr_pool : reveals_ok (reveals_of p) → is_Some (get_reveals visit p dr_pool).
Proof.
  intros [_ Hl]. simpl in Hl. unfold get_reveals.
  assert (Forall (λ e, re_transactions p !! e.1 = Some e.2) (visit _ (map_to_list (re_transactions p)))) as Hall.
  { apply Forall_forall. intros [d hm] Hin. rewrite visit_perm in Hin. by apply elem_of_map_to_list in Hin. }
  generalize (@nil RevealTransaction, 0). induction Hall as [|[d hm] l Hd _ IH]; intros [txs fee]; [by eexists|]. simpl.
  destruct (get_dr_output dr_pool d) as [dr|]; [|apply IH].
  assert (is_Some (mapM (λ h, re_hash_index p !! h) (visit _ (map_to_list hm)).*2)) as [new ->].
  { apply mapM_is_Some_2, Forall_forall. intros h (k & Hk)%(elem_of_visited visit visit_perm).
    destruct (Hl d k h) as (r & Hx & _); [unfold listed; simpl in Hd; by rewrite Hd|by exists r]. }
  apply IH.
Qed.

(** ** Unconfirmed transactions *)

Lemma ut_remove_consistent p h :
  consistent p ∅ nothing → consistent (ut_remove_inner p h).1 ∅ nothing ∧ reveals_of (ut_remove_inner p h).1 = reveals_of p.
Proof.
  intros [[Tv Td Ts Tu] Hl]. unfold ut_remove_inner. destruct (entries (uts p) !! h) as [[q tx]|] eqn:Hx.
  - destruct (table_remove_ok _ _ _ _ _ _ Tu Hx) as (t' & -> & Ht' & _). simpl. split; [|done]. by split; [split|].
  - by rewrite table_remove_None.
Qed.

Lemma remove_inner_keeps {T} (a : Access T) wrap others `{!Spender a wrap others} p h :
  consistent p ∅ nothing → (∀ t m, reveals_of (with_pointers (acc_set a p t) m) = reveals_of p) →
  ∃ p' r, remove_inner a p h false = Some (p', r) ∧ consistent p' ∅ nothing ∧ reveals_of p' = reveals_of p.
Proof.
  intros Hc Hf. destruct (remove_inner_spec a wrap others p h ∅ nothing Hc) as (p' & Hr & Hc' & [Hfr _]).
  exists p', (snd <$> entries (acc_get a p) !! h). split; [done|]. split; [done|]. rewrite Hfr. apply Hf.
Qed.

Lemma drop_unconfirmed_spec p v h :
  consistent p ∅ nothing →
  ∃ p' v', drop_unconfirmed (p, v) h = Some (p', v') ∧ consistent p' ∅ nothing ∧ reveals_of p' = reveals_of p.
Proof.
  intros Hc. unfold drop_unconfirmed. destruct (pool_get p h) as [t|]; [|by exists p, v].
  destruct t as [tx|tx|tx|tx|tx|tx|tx|tx]; try by exists p, v.
  - destruct (remove_inner_keeps vt_access _ _ p h Hc) as (p' & r & -> & ? & ?); [done|]. by eexists _, _.
  - destruct (remove_inner_keeps dr_access _ _ p h Hc) as (p' & r & -> & ? & ?); [done|]. by eexists _, _.
  - destruct (remove_inner_keeps st_access _ _ p h Hc) as (p' & r & -> & ? & ?); [done|]. by eexists _, _.
  - destruct (ut_remove_consistent p h Hc) as [? ?]. by eexists _, _.
Qed.

Lemma remove_unconfirmed_spec p :
  consistent p ∅ nothing →
  ∃ p' v, remove_unconfirmed_transactions p = Some (p', v) ∧ consistent p' ∅ nothing ∧ reveals_of p' = (∅, ∅).
Proof.
  intros Hc. unfold remove_unconfirmed_transactions. simpl.
  assert (∀ l p v, consistent p ∅ nothing →
    ∃ p' v', foldl (λ acc h, acc ← acc; drop_unconfirmed acc h) (Some (p, v)) l = Some (p', v') ∧ consistent p' ∅ nothing) as Hfold.
  { clear p Hc. induction l as [|h l IH]; intros p v Hc; [by exists p, v|]. cbn [foldl].
    destruct (drop_unconfirmed_spec p v h Hc) as (p1 & v1 & Hd & Hc1 & _). cbn [mbind option_bind]. rewrite Hd. by apply IH. }
  destruct (Hfold (current (unconfirmed_transactions p) ++ previous (unconfirmed_transactions p))
    (with_unconfirmed p (unconfirmed_clear (unconfirmed_transactions p))) []) as (p' & v & -> & Hc').
  { by apply (consistent_ext p). }
  simpl. eexists _, _. split; [done|]. split; [|done]. by apply (consistent_ext p').
Qed.

(** ** Reachable pools *)

Definition pool_ok (p : TransactionsPool) : Prop := consistent p ∅ nothing ∧ reveals_ok (reveals_of p).

(** The operations of the node on the pool, except two: clearing the stakes and
    clearing the unstakes.  Transactions are inserted when [contains] says that they
    are new, which the node checks before it verifies their signatures and not after
    it.  [breaks_clear] and [breaks_insert] show what the excluded steps do. *)
Inductive pool_step (p : TransactionsPool) : TransactionsPool → Prop :=
| ps_insert t fee p' out :
    contains tx_hash calculate_sha256 p t = Ok false → insert tx_hash calculate_sha256 p t fee = Ret p' out → pool_step p p'
| ps_consolidate t p' : remove_consolidated p t = Some p' → kind t ∈ [0; 1; 6]%nat → pool_step p p'
| ps_unstake t : pool_step p (ut_remove tx_hash p t).1
| ps_collateral inputs p' : remove_inputs p inputs = Some p' → pool_step p p'
| ps_commits dr_pool : pool_step p (remove_commits visit p dr_pool).1
| ps_reveal r p' x :
    remove_one_reveal p (r_dr_pointer r) (r_pkh r) (tx_hash (Reveal r)) = Some (p', x) → pool_step p p'
| ps_finished d : pool_step p (clear_reveals_from_finished_dr visit p d)
| ps_unconfirmed p' v : remove_unconfirmed_transactions p = Some (p', v) → pool_step p p'
| ps_note h : pool_step p (insert_unconfirmed_transactions p h)
| ps_block : pool_step p (update_unconfirmed_transactions p)
| ps_limit limit factor p' out : set_total_weight_limit p limit factor = Ret p' out → pool_step p p'
| ps_fee fee : pool_step p (set_minimum_vtt_fee p fee)
| ps_collateral_minimum c : pool_step p (set_collateral_minimum p c)
| ps_ratio r : pool_step p (set_required_reward_collateral_ratio p r)
| ps_clear_commits : pool_step p (clear_commits p)
| ps_clear_reveals : pool_step p (clear_reveals p)
| ps_clear : pool_step p (pool_clear p).

Lemma pool_ok_ext p p' :
  vts p' = vts p → drs p' = drs p → sts p' = sts p → uts p' = uts p → output_pointer_map p' = output_pointer_map p →
  reveals_of p' = reveals_of p → pool_ok p → pool_ok p'.
Proof. intros ????? Hr [Hc Hrv]. split; [by apply (consistent_ext p)|by rewrite Hr]. Qed.

Lemma limit_ok p p' out : pool_ok p → remove_transactions_for_size_limit p = Ret p' out → pool_ok p'.
Proof. intros [Hc Hr] Hs. apply shrink_consistent in Hs as [? Heq]; [|done]. split; [done|by rewrite Heq]. Qed.

Lemma absent {A} (o : option A) : bool_decide (is_Some o) = false → o = None.
Proof. intros Ho%bool_decide_eq_false. by apply eq_None_not_Some. Qed.

Lemma insert_ok p t fee p' out :
  pool_ok p → contains tx_hash calculate_sha256 p t = Ok false → insert tx_hash calculate_sha256 p t fee = Ret p' out → pool_ok p'.
Proof.
  intros Hok Hn Hi. pose proof Hok as [Hc Hr].
  destruct t as [tx|tx|tx|tx|tx|tx|tx|tx]; unfold insert in Hi; simpl in Hn; try done.
  - injection Hn as Hn%absent. case_decide; [by injection Hi as <- _|]. apply limit_ok in Hi; [done|].
    split; [by apply (insert_spender_spec vt_access _ _ p tx fee)|done].
  - injection Hn as Hn%absent. case_decide; [by injection Hi as <- _|]. apply limit_ok in Hi; [done|].
    split; [by apply (insert_spender_spec dr_access _ _ p tx fee)|done].
  - destruct (c_signatures tx); [done|]. apply limit_ok in Hi; [done|]. by apply (pool_ok_ext p).
  - apply limit_ok in Hi; [done|]. split; [by apply (consistent_ext p)|]. apply reveal_insert_ok; [done|].
    unfold reveal_contains in Hn. unfold listed. destruct (re_transactions p !! r_dr_pointer tx) as [hm|]; simpl in Hn; [|done].
    destruct (hm !! r_pkh tx); [by case_decide|done].
  - injection Hn as Hn%absent. case_decide; [by injection Hi as <- _|]. apply limit_ok in Hi; [done|].
    split; [by apply (insert_spender_spec st_access _ _ p tx fee)|done].
  - injection Hn as Hn%absent. case_decide; [by injection Hi as <- _|]. apply limit_ok in Hi; [done|].
    split; [|done]. destruct Hc as [[Tv Td Ts Tu] Hl]. split; [split; try done|done]. simpl. by apply table_insert_ok.
Qed.

Lemma remove_inputs_spec p inputs :
  pool_ok p → ∃ p', remove_inputs p inputs = Some p' ∧ pool_ok p'.
Proof.
  intros [Hc Hr].
  assert (swept p nothing ∅ p) as Hsw.
  { split; [done|exists ∅; split; [apply removed_refl|set_solver]|set_solver]. }
  destruct (remove_inputs_swept inputs p nothing ∅ p Hsw) as (p' & Hi & [[Ht [Hd Hl Hn]] (R & [Hf _ _ _] & _) Hg]).
  exists p'. split; [done|]. rewrite union_empty_r_L in *. split; [|by rewrite Hf]. split; [done|]. split; [set_solver| |done].
  intros o h _. destruct (decide (o ∈ outs inputs)) as [Ho|Ho]; [|apply Hl; set_solver].
  rewrite Hd by set_solver. simpl. symmetry. apply occ_None. unfold nothing. rewrite app_nil_r. apply Hg. set_solver.
Qed.

Lemma remove_commits_pool p dr_pool : (remove_commits visit p dr_pool).1 = clear_commits p.
Proof. unfold remove_commits. by destruct (foldl _ _ _) as [[[[? ?] ?] ?] ?]. Qed.

Lemma pool_empty_consistent p :
  vts p = table_new → drs p = table_new → sts p = table_new → uts p = table_new → output_pointer_map p = ∅ →
  consistent p ∅ nothing.
Proof.
  intros Hv Hd Hs Hu Hm. split; [split; rewrite ?Hv, ?Hd, ?Hs, ?Hu; apply table_new_ok|].
  rewrite Hm. split; [set_solver| |by intros o; rewrite lookup_empty].
  intros o h _. unfold spends, part. rewrite Hv, Hd, Hs. cbn [entries table_new]. by rewrite !lookup_empty.
Qed.

Lemma tx_pool_step_ok p p' : pool_ok p → pool_step p p' → pool_ok p'.
Proof.
  intros Hok Hs. pose proof Hok as [Hc Hr]. destruct Hs.
  - by eapply insert_ok.
  - destruct (consolidated_spec p t Hc) as (p2 & Hr2 & Hc2 & [Hf2 _ _ _]); [done|].
    assert (p2 = p') as -> by congruence. split; [done|]. by rewrite Hf2.
  - destruct (ut_remove_consistent p (tx_hash (TxUnstake t)) Hc) as [? Heq]. split; [done|]. unfold ut_remove. by rewrite Heq.
  - destruct (remove_inputs_spec p inputs Hok) as (p2 & ? & ?). by assert (p2 = p') as <- by congruence.
  - rewrite remove_commits_pool. by apply (pool_ok_ext p).
  - destruct (remove_one_reveal_spec p r Hr) as (p2 & Hr2 & Hok2 & Hf). assert (p2 = p') as -> by congruence.
    split; [rewrite Hf; by apply (consistent_ext p)|done].
  - destruct (clear_finished_spec p d Hr) as [? Hf]. split; [rewrite Hf; by apply (consistent_ext p)|done].
  - destruct (remove_unconfirmed_spec p Hc) as (p2 & v2 & Hr2 & Hc2 & Hrv). assert (p2 = p') as -> by congruence.
    split; [done|]. rewrite Hrv. apply reveals_empty.
  - by apply (pool_ok_ext p).
  - by apply (pool_ok_ext p).
  - eapply limit_ok; [|done]. by apply (pool_ok_ext p).
  - by apply (pool_ok_ext p).
  - by apply (pool_ok_ext p).
  - by apply (pool_ok_ext p).
  - by apply (pool_ok_ext p).
  - split; [by apply (consistent_ext p)|apply reveals_empty].
  - split; [|apply reveals_empty]. by apply pool_empty_consistent.
Qed.

(** Clearing a table without its weight. *)
Lemma breaks_clear p :
  (total_weight (sts p) ≠ 0 → ¬ pool_ok (clear_stake_transactions p))
  ∧ (total_weight (uts p) ≠ 0 → ¬ pool_ok (clear_unstake_transactions p)).
Proof.
  split; intros Hw [[[_ _ Hs Hu] _] _]; [apply to_weight in Hs as Ht|apply to_weight in Hu as Ht];
    cbn in Ht; by rewrite msum_empty in Ht.
Qed.

(** Nothing is evicted or the list of the evicted transactions grows. *)
Lemma shrink_grows fuel : ∀ p acc p' out,
  shrink fuel p acc = Ret p' out → p' = p ∧ out = acc ∨ (length acc < length out)%nat.
Proof.
  induction fuel as [|fuel IH]; intros p acc p' out Hs; cbn [shrink] in Hs;
    destruct (decide (total_transactions_weight p > weight_limit p)); [done|injection Hs as <- <-; by left|
      |injection Hs as <- <-; by left].
  right. destruct (more_vtts_than_drs p).
  - destruct (evict vt_access p) as [[p1 tx]|]; [|done].
    apply IH in Hs as [[_ ->]|Hlt]; rewrite length_app in *; simpl in *; lia.
  - destruct (evict dr_access p) as [[p1 tx]|]; [|done].
    apply IH in Hs as [[_ ->]|Hlt]; rewrite length_app in *; simpl in *; lia.
Qed.

(** Inserting a transfer that is in the pool counts its weight again. *)
Lemma breaks_insert p q tx fee p' :
  pool_ok p → entries (vts p) !! tx_hash (ValueTransfer tx) = Some (q, tx) → vt_weight tx ≠ 0 → minimum_vtt_fee p ≤ fee →
  insert tx_hash calculate_sha256 p (ValueTransfer tx) fee = Ret p' [] → ¬ pool_ok p'.
Proof.
  intros [[[Hv _ _ _] _] _] Hin Hw Hfee Hi [[[Hv' _ _ _] _] _]. unfold insert in Hi. rewrite decide_False in Hi by lia.
  apply shrink_grows in Hi as [[-> _]|Hlt]; [|cbn in Hlt; lia]. apply to_weight in Hv, Hv'. cbn in Hv'. unfold wadd in Hv'.
  rewrite (msum_insert _ _ _ _ _ Hin) in Hv'. cbn [snd] in Hv'. rewrite Hv, Zplus_mod_idemp_l in Hv'.
  assert (0 ≤ vt_weight tx < U64) as Hb by (apply vt_weight_bounds).
  set (S := msum _ _) in *. apply Hw. rewrite <-(Z.mod_small (vt_weight tx) U64) by done.
  replace (vt_weight tx) with (S + vt_weight tx - S) by lia. rewrite Zminus_mod, Hv'.
  rewrite <-Zminus_mod. replace (S - _ + _ - S) with 0 by lia. done.
Qed.

(** C29. Consistency of the pool.  Take any pool that is reached by the operations of
    the node without clearing the stakes or the unstakes and in which a transaction is
    only inserted while the pool does not contain it.  The priority indexes, the
    weights, the map of spent outputs and the indexes of reveals agree with the
    transactions; so the removals for a block, of collateral, of reveals and of
    unconfirmed transactions and the listing of reveals never panic.  The excluded
    steps break this: clearing stakes or unstakes that weigh something, and inserting a
    value transfer that is in the pool. *)
Theorem reachable_pool_consistent p :
  rtc pool_step pool_default p →
  (pool_ok p
   ∧ (∀ t, kind t ∈ [0; 1; 6]%nat → is_Some (remove_consolidated p t))
   ∧ (∀ inputs, is_Some (remove_inputs p inputs))
   ∧ (∀ r, is_Some (remove_one_reveal p (r_dr_pointer r) (r_pkh r) (tx_hash (Reveal r))))
   ∧ (∀ dr_pool, is_Some (get_reveals visit p dr_pool))
   ∧ is_Some (remove_unconfirmed_transactions p))
  ∧ (total_weight (sts p) ≠ 0 → ¬ pool_ok (clear_stake_transactions p))
  ∧ (total_weight (uts p) ≠ 0 → ¬ pool_ok (clear_unstake_transactions p))
  ∧ (∀ q tx fee p', entries (vts p) !! tx_hash (ValueTransfer tx) = Some (q, tx) → vt_weight tx ≠ 0 →
       minimum_vtt_fee p ≤ fee → insert tx_hash calculate_sha256 p (ValueTransfer tx) fee = Ret p' [] → ¬ pool_ok p').
Proof.
  intros Hr. assert (pool_ok p) as Hok.
  { assert (pool_ok pool_default) as H0 by (split; [by apply pool_empty_consistent|apply reveals_empty]).
    revert H0. induction Hr as [|p1 p2 p3 Hs _ IH]; [done|]. intros H0. by eapply IH, tx_pool_step_ok. }
  destruct (breaks_clear p) as [Hbs Hbu].
  split; [|split; [done|]; split; [done|]; intros q tx fee p'; by apply breaks_insert].
  pose proof Hok as [Hc Hrv]. split; [done|]. split_and!.
  - intros t Hk. destruct (consolidated_spec p t Hc Hk) as (p' & -> & _). by eexists.
  - intros inputs. destruct (remove_inputs_spec p inputs Hok) as (p' & -> & _). by eexists.
  - intros r. destruct (remove_one_reveal_spec p r Hrv) as (p' & -> & _). by eexists.
  - intros dr_pool. by apply get_reveals_total.
  - destruct (remove_unconfirmed_spec p Hc) as (p' & v & -> & _). by eexists.
Qed.
End pools.
