(* ===== verification/TxPoolBlock.v ===== *)
(** * The pool of transactions: what blocks take from it

    The iterators list transactions by priority, and the commits taken for a
    block are complete groups that do not share collateral. *)

From stdpp Require Import base tactics numbers list gmap sorting.
From Stdlib Require Import ZArith Lia.
From S2P Require Import Prelude Tapi Float Hashes Stake Superblock Rad Versioning Transaction DataRequest TxPool TxPoolCorrect.
Local Open Scope Z_scope.

Section blocks.
Context `{FloatOrd} (visit : ∀ A : Type, list A → list A).
Hypothesis visit_perm : ∀ A (l : list A), visit A l ≡ₚ l.

(** ** Iteration *)

Lemma StronglySorted_fmap_inv {A B} (f : A → B) (R : relation B) l :
  StronglySorted R (f <$> l) → StronglySorted (λ x y, R (f x) (f y)) l.
Proof.
  induction l as [|x l IH]; intros Hs; [constructor|]. rewrite fmap_cons in Hs. apply StronglySorted_inv in Hs as [Hs Hx].
  constructor; [by apply IH|]. by rewrite Forall_fmap in Hx.
Qed.
(** The entries of an index. *)
Lemma index_entries {T} (t : Table T) ix :
  Forall (λ qh, ∃ tx, entries t !! qh.2 = Some (qh.1, tx)) ix →
  ∃ l, omap (λ qh, snd <$> entries t !! qh.2) ix = (λ hx, hx.2.2) <$> l
    ∧ (λ hx, (hx.2.1, hx.1)) <$> l = ix ∧ Forall (λ hx, entries t !! hx.1 = Some hx.2) l.
Proof.
  induction 1 as [|[q h] ix [tx Hx] _ (l & H1 & H2 & H3)]; [by exists []|]. simpl in Hx. exists ((h, (q, tx)) :: l).
  split; [simpl; rewrite Hx; simpl; f_equal; exact H1|]. split; [simpl; f_equal; exact H2|by constructor].
Qed.

(** The iterators list every transaction of their kind once, from the highest
    to the lowest priority, with ties broken by the hash. *)
Theorem iteration_by_priority {T} w (hash : T → Hash) (t : Table T) :
  table_ok w hash t →
  ∃ l, table_iter t = (λ hx, hx.2.2) <$> l ∧ l ≡ₚ map_to_list (entries t)
    ∧ StronglySorted (λ x y, prioritized_le (y.2.1, y.1) (x.2.1, x.1)) l.
Proof.
  intros Ht. destruct (index_entries t (reverse (index_iter (sorted_index t)))) as (l & Hiter & Hix).
  { apply Forall_forall. intros [q h] Hin. rewrite elem_of_reverse, index_iter_perm, elem_of_elements in Hin.
    by apply (to_index _ _ _ Ht). }
  destruct Hix as [Hix Hl]. exists l. split; [done|]. split.
  - apply NoDup_Permutation; [|apply NoDup_map_to_list|].
    + apply (NoDup_fmap_1 (λ hx, (hx.2.1, hx.1))). rewrite Hix, reverse_Permutation, index_iter_perm. apply NoDup_elements.
    + intros [h [q tx]]. rewrite elem_of_map_to_list. split; [by intros Hin; apply (proj1 (Forall_forall _ _) Hl) in Hin|].
      intros Hx. assert ((q, h) ∈ (λ hx, (hx.2.1, hx.1)) <$> l) as Hin.
      { rewrite Hix, elem_of_reverse, index_iter_perm, elem_of_elements. apply (to_index _ _ _ Ht). by exists tx. }
      apply list_elem_of_fmap in Hin as ([h' [q' tx']] & [= -> ->] & Hin).
      pose proof (proj1 (Forall_forall _ _) Hl _ Hin) as Hx'. simpl in Hx'. rewrite Hx in Hx'. by injection Hx' as ->.
  - apply (StronglySorted_fmap_inv (λ hx, (hx.2.1, hx.1)) (λ x y, prioritized_le y x)). rewrite Hix.
    apply StronglySorted_reverse, index_iter_sorted.
Qed.

(** ** Commits for a block *)

Definition collateral_of (c : CommitTransaction) : list OutputPointer := outs (c_collateral c).
Definition collateral (cs : list CommitTransaction) : list OutputPointer := cs ≫= collateral_of.

Lemma take_commits_spec cs : ∀ n index spent,
  let '(txs, index', spent') := take_commits n cs index spent in
  NoDup (collateral txs) ∧ (∀ o, o ∈ collateral txs → o ∉ spent)
  ∧ (∀ o, o ∈ spent' ↔ o ∈ collateral txs ∨ o ∈ spent)
  ∧ index' ⊆ index ∧ Forall (λ c, ∃ h, h ∈ cs ∧ index !! h = Some c) txs.
Proof.
  assert (∀ (l : list Hash) index (spent : gset OutputPointer), NoDup (collateral []) ∧ (∀ o, o ∈ collateral [] → o ∉ spent)
    ∧ (∀ o, o ∈ spent ↔ o ∈ collateral [] ∨ o ∈ spent) ∧ index ⊆ index
    ∧ Forall (λ c, ∃ h, h ∈ l ∧ (index : gmap Hash CommitTransaction) !! h = Some c) []) as Hnil.
  { intros l index spent. split; [constructor|]. split; [intros o Ho; by apply not_elem_of_nil in Ho|].
    split; [intros o; split; [by right|intros [Ho|]; [by apply not_elem_of_nil in Ho|done]]|done]. }
  induction cs as [|c cs IH]; intros [|n] index spent; simpl; try apply Hnil.
  destruct (index !! c) as [tx|] eqn:Hc.
  2: { specialize (IH (S n) index spent). destruct (take_commits (S n) cs index spent) as [[txs i'] s'].
       destruct IH as (H1 & H2 & H3 & H4 & H5). split_and!; try done. eapply Forall_impl; [exact H5|]. set_solver. }
  case_decide as Hf.
  - destruct Hf as [Hnd Hfresh]. specialize (IH n (delete c index) (list_to_set (output_pointer <$> c_collateral tx) ∪ spent)).
    destruct (take_commits n cs _ _) as [[txs i'] s']. destruct IH as (H1 & H2 & H3 & H4 & H5).
    change (collateral (tx :: txs)) with (collateral_of tx ++ collateral txs). unfold collateral_of, outs.
    rewrite Forall_forall in Hfresh. split_and!.
    + apply NoDup_app. split_and!; [done| |done]. intros o Ho Ho2%H2. set_solver.
    + intros o [Ho|Ho]%elem_of_app; [by apply Hfresh|]. apply H2 in Ho. set_solver.
    + intros o. rewrite H3. set_solver.
    + etrans; [exact H4|apply delete_subseteq].
    + constructor; [exists c; split; [by left|done]|]. eapply Forall_impl; [exact H5|]. intros c0 (h & Hh & Hx). exists h.
      split; [by right|]. by apply lookup_delete_Some in Hx as [_ Hx].
  - specialize (IH (S n) (delete c index) spent). destruct (take_commits (S n) cs _ _) as [[txs i'] s'].
    destruct IH as (H1 & H2 & H3 & H4 & H5). split_and!; try done; [etrans; [exact H4|apply delete_subseteq]|].
    eapply Forall_impl; [exact H5|]. intros c0 (h & Hh & Hx). exists h. split; [by right|].
    by apply lookup_delete_Some in Hx as [_ Hx].
Qed.

Definition group_fee (dr_pool : DataRequestPool) (g : Hash * list CommitTransaction) : Z :=
  match get_dr_output dr_pool g.1 with Some dr => commit_and_reveal_fee dr * witnesses dr | None => 0 end.
(** A request with as many of its commits in the pool as it has witnesses. *)
Definition full_group (p : TransactionsPool) (dr_pool : DataRequestPool) (g : Hash * list CommitTransaction) : Prop :=
  ∃ dr hm, get_dr_output dr_pool g.1 = Some dr ∧ co_transactions p !! g.1 = Some hm
    ∧ length g.2 = Z.to_nat (witnesses dr)
    ∧ Forall (λ c, ∃ k h, hm !! k = Some h ∧ co_hash_index p !! h = Some c) g.2.

Record commits_inv (p : TransactionsPool) (dr_pool : DataRequestPool) (seen : list Hash)
    (acc : list CommitTransaction * Z * list Hash * gmap Hash CommitTransaction * gset OutputPointer)
    (groups : list (Hash * list CommitTransaction)) : Prop := {
  ci_commits : acc.1.1.1.1 = groups ≫= snd;
  ci_fee : acc.1.1.1.2 = zsum (group_fee dr_pool <$> groups) mod U64;
  ci_pointers : acc.1.1.2 = groups.*1;
  ci_index : acc.1.2 ⊆ co_hash_index p;
  ci_nodup : NoDup (collateral (groups ≫= snd));
  ci_spent : ∀ o, o ∈ collateral (groups ≫= snd) → o ∈ acc.2;
  ci_full : Forall (full_group p dr_pool) groups;
  ci_seen : groups.*1 `sublist_of` seen;
}.

Lemma commits_step_inv p dr_pool seen acc groups d hm :
  commits_inv p dr_pool seen acc groups → co_transactions p !! d = Some hm →
  ∃ groups', commits_inv p dr_pool (seen ++ [d]) (commits_step visit dr_pool acc (d, hm)) groups'.
Proof.
  destruct acc as [[[[cs fee] ptrs] index] spent]. intros Hinv Hd.
  assert (∀ i s, i ⊆ index → (∀ o, o ∈ spent → o ∈ s) → commits_inv p dr_pool (seen ++ [d]) (cs, fee, ptrs, i, s) groups) as Hsame.
  { destruct Hinv as [H1 H2 H3 H4 H5 H6 H7 H8]. simpl in *. intros i s' Hi Hsp. split; simpl; try done.
    - by etrans.
    - intros o Ho. by apply Hsp, H6.
    - by apply sublist_inserts_r. }
  destruct Hinv as [H1 H2 H3 H4 H5 H6 H7 H8]. simpl in *.
  destruct (get_dr_output dr_pool d) as [dr|] eqn:Hdr; [|exists groups; by apply Hsame].
  case_decide; [|exists groups; by apply Hsame].
  pose proof (take_commits_spec (visit _ (map_to_list hm)).*2 (Z.to_nat (witnesses dr)) index spent) as Ht.
  destruct (take_commits _ _ index spent) as [[txs i'] s']. destruct Ht as (T1 & T2 & T3 & T4 & T5).
  case_decide as Hlen; [|exists groups; apply Hsame; [done|intros o Ho; apply T3; by right]].
  exists (groups ++ [(d, txs)]).
  assert ((groups ++ [(d, txs)]) ≫= snd = (groups ≫= snd) ++ txs) as Hbind by (rewrite bind_app; simpl; by rewrite app_nil_r).
  split; simpl; rewrite ?Hbind, ?fmap_app; try done.
  - by rewrite H1.
  - assert (zsum (group_fee dr_pool <$> [(d, txs)]) = commit_and_reveal_fee dr * witnesses dr) as Hg.
    { rewrite zsum_cons. unfold group_fee. cbn [fst]. rewrite Hdr. simpl. lia. }
    rewrite zsum_app, Hg, H2. unfold wadd, wmul. by rewrite Zplus_mod_idemp_l, Zplus_mod_idemp_r.
  - by rewrite H3.
  - by etrans.
  - unfold collateral. rewrite bind_app. apply NoDup_app. split_and!; [done| |done]. intros o Ho Ho2. apply (T2 o); [done|by apply H6].
  - intros o. unfold collateral. rewrite bind_app, elem_of_app, T3. intros [Ho|Ho]; [right; by apply H6|by left].
  - apply Forall_app. split; [done|]. constructor; [|done]. exists dr, hm. split_and!; try done. eapply Forall_impl; [exact T5|].
    simpl. intros c (h & (k & Hk)%(elem_of_visited visit visit_perm) & Hx). exists k, h. split; [done|]. by eapply lookup_weaken.
  - by apply sublist_app.
Qed.

(** C37. The commits taken for a block form groups of exactly as many commits of a
    request as it has witnesses, no output is collateral twice in the whole block,
    the fee is the sum of the fees of the groups, and the pool keeps no commits. *)
Theorem block_commits_valid p dr_pool :
  let '(p', (commits, total_fee, pointers)) := remove_commits visit p dr_pool in
  ∃ groups, commits = groups ≫= snd ∧ pointers = groups.*1 ∧ NoDup pointers ∧ Forall (full_group p dr_pool) groups
    ∧ NoDup (collateral commits) ∧ total_fee = zsum (group_fee dr_pool <$> groups) mod U64 ∧ p' = clear_commits p.
Proof.
  unfold remove_commits. set (l := visit _ (map_to_list (co_transactions p))).
  assert (∀ k, k `prefix_of` l → ∃ groups, commits_inv p dr_pool k.*1
    (foldl (commits_step visit dr_pool) ([], 0, [], co_hash_index p, ∅) k) groups) as Hk.
  { intros k. induction k as [|[d hm] k IH] using rev_ind; intros Hpre.
    - exists []. split; simpl; try done; [constructor|intros o Ho; by apply not_elem_of_nil in Ho].
    - destruct IH as [groups Hinv]; [by eapply prefix_app_l|]. rewrite foldl_app, fmap_app. simpl.
      apply (commits_step_inv _ _ _ _ groups); [done|]. destruct Hpre as [k' Hl].
      assert ((d, hm) ∈ l) as Hin by (rewrite Hl; set_solver). unfold l in Hin. rewrite visit_perm in Hin.
      by apply elem_of_map_to_list in Hin. }
  destruct (Hk l) as [groups [H1 H2 H3 H4 H5 H6 H7 H8]]; [done|].
  destruct (foldl _ _ l) as [[[[cs fee] ptrs] index] spent]. simpl in *. exists groups. rewrite H1, H3. split_and!; try done.
  eapply sublist_NoDup; [|exact H8]. unfold l. rewrite visit_perm. apply NoDup_fst_map_to_list.
Qed.
End blocks.

(** ** Data requests are accepted whatever their collateral *)

(** The pool passes its minimum collateral where the collateral of the request
    is expected: once the minimum is set, whether a data request is accepted does
    not depend on its collateral, and requests whose ratio of collateral to reward
    is above the required one get in. *)
Theorem insert_ignores_collateral `{FloatOrd} tx_hash sha p tx fee :
  collateral_minimum p ≠ 0 →
  saturating_div_ceil (collateral_minimum p) (witness_reward (d_output tx)) ≤ required_reward_collateral_ratio p →
  insert tx_hash sha p (DataRequest tx) fee
  = remove_transactions_for_size_limit (insert_spender dr_access p (tx_hash (DataRequest tx)) tx fee).
Proof.
  intros Hm Hr. unfold insert. rewrite decide_False; [done|].
  unfold calculate_reward_collateral_ratio. rewrite decide_False by done. lia.
Qed.

(** Clearing the stake transactions leaves their weight: a pool without any
    transaction can be over its limit, and the next insertion panics. *)
Theorem cleared_stakes_still_count `{FloatOrd} tx_hash p :
  tables_ok tx_hash p → entries (vts p) = ∅ → entries (drs p) = ∅ → weight_limit p < total_weight (sts p) →
  let p' := clear_stake_transactions p in
  st_len p' = 0%nat ∧ total_transactions_weight p' = total_transactions_weight p
  ∧ (normal_positive (vt_to_dr_factor p) → remove_transactions_for_size_limit p' = Crash).
Proof.
  intros Ht Hv Hd Hs p'. split; [done|]. split; [done|]. intros Hf.
  pose proof Ht as [Tv Td Ts _]. pose proof (table_weight_bounds _ _ _ Ts).
  unfold remove_transactions_for_size_limit. cbn [shrink]. unfold total_transactions_weight, more_vtts_than_drs. simpl.
  rewrite (table_weight_empty _ _ _ Tv Hv), (table_weight_empty _ _ _ Td Hd).
  rewrite decide_True by (rewrite !wadd_small by (rewrite ?wadd_small; lia); lia).
  rewrite f64_mul_zero by (done || (split; [lia|done])).
  unfold evict. simpl. by rewrite (index_empty _ _ _ Tv Hv).
Qed.

(** ** Concrete pools *)

(** A hash without collisions on the bodies. *)
Definition demo_hash (t : Transaction) : Hash := [Zpos (encode (body_id t))].
Lemma demo_hash_body t t' : demo_hash t = demo_hash t' → body_id t = body_id t'.
Proof. intros [= Hh]. by apply (inj encode). Qed.
Definition demo_visit (A : Type) (l : list A) : list A := l.
Lemma demo_visit_perm A (l : list A) : demo_visit A l ≡ₚ l.
Proof. done. Qed.
Definition demo_sha (l : list Z) : Hash := l.

Definition demo_vt (os : list Z) : VTTransaction := MkVT ((λ o, MkInput (MkPointer [o] 0)) <$> os) [MkOutput [7] 100 0] [].
Definition demo_stake : StakeTransaction :=
  {| s_inputs := [MkInput (MkPointer [9] 0)];
     s_output := {| authorization := MkSignature [] (MkPublicKey 2 []); so_key := MkKey [1] [2]; so_value := 1 |};
     s_change := None; s_signatures := [] |}.
Definition demo_insert (p : TransactionsPool) (t : Transaction) (fee : Z) : TransactionsPool :=
  match insert demo_hash demo_sha p t fee with Ret p' _ => p' | _ => p end.
Definition demo_pool : TransactionsPool := demo_insert pool_default (ValueTransfer (demo_vt [1])) 50.

Lemma demo_pool_reachable : rtc (pool_step demo_hash demo_sha demo_visit) pool_default demo_pool.
Proof.
  eapply rtc_l; [|apply rtc_refl]. apply (ps_insert _ _ _ _ (ValueTransfer (demo_vt [1])) 50 _ []); by vm_compute.
Qed.

Lemma reachable_pool_consistent_witness :
  rtc (pool_step demo_hash demo_sha demo_visit) pool_default demo_pool ∧ is_Some (remove_unconfirmed_transactions demo_pool)
  ∧ ¬ pool_ok demo_hash (demo_insert demo_pool (ValueTransfer (demo_vt [1])) 50).
Proof.
  destruct (reachable_pool_consistent demo_hash demo_hash_body demo_sha demo_visit demo_visit_perm demo_pool demo_pool_reachable)
    as ((_ & _ & _ & _ & _ & Hu) & _ & _ & Hagain).
  split; [exact demo_pool_reachable|]. split; [exact Hu|].
  apply (Hagain (priority 50 (vt_weight (demo_vt [1]))) (demo_vt [1]) 50).
  - vm_compute. reflexivity.
  - vm_compute. discriminate.
  - vm_compute. discriminate.
  - vm_compute. reflexivity.
Defined.

Lemma demo_pool_consistent : consistent demo_hash demo_pool ∅ nothing.
Proof.
  assert (pool_ok demo_hash demo_pool) as [Hc _]; [|exact Hc].
  apply (tx_pool_step_ok demo_hash demo_hash_body demo_sha demo_visit demo_visit_perm pool_default).
  - split; [by apply pool_empty_consistent|apply reveals_empty].
  - apply (ps_insert _ _ _ _ (ValueTransfer (demo_vt [1])) 50 _ []); by vm_compute.
Qed.

(** A block spends the output of the transaction of the pool. *)
Lemma consolidation_drops_conflicts_witness :
  ∃ p', remove_consolidated demo_hash demo_pool (ValueTransfer (demo_vt [1; 2])) = Some p'
    ∧ spender_of p' (demo_hash (ValueTransfer (demo_vt [1]))) = None.
Proof.
  destruct (consolidation_drops_conflicts demo_hash demo_hash_body demo_pool (ValueTransfer (demo_vt [1; 2]))
    demo_pool_consistent ltac:(simpl; set_solver)) as (p' & Hr & _ & Hs & _).
  exists p'. split; [exact Hr|]. rewrite Hs. by vm_compute.
Defined.

Lemma limit_evicts_cheapest_witness :
  ∃ p' out, remove_transactions_for_size_limit demo_pool = Ret p' out ∧ total_transactions_weight p' ≤ weight_limit p'.
Proof.
  destruct (limit_evicts_cheapest demo_hash demo_pool demo_pool_consistent) as (p' & out & Hr & Hs);
    [by vm_compute|exact f64_one_normal|].
  exists p', out. split; [exact Hr|]. exact (sk_limit _ _ _ _ Hs).
Defined.

(** A pool with one stake transaction, heavier than the limit of ten. *)
Definition demo_stakes : TransactionsPool :=
  with_settings (insert_spender st_access pool_default (demo_hash (TxStake demo_stake)) demo_stake 1) 10 f64_one 0 0 (U64 - 1).
Lemma demo_stakes_tables : tables_ok demo_hash demo_stakes.
Proof.
  assert (consistent demo_hash (insert_spender st_access pool_default (demo_hash (TxStake demo_stake)) demo_stake 1) ∅ nothing)
    as [[Hv Hd Hs Hu] _] by (apply (insert_spender_spec demo_hash st_access TxStake _ pool_default demo_stake 1);
      [by apply pool_empty_consistent|done]).
  by split.
Qed.
Lemma stakes_over_limit_panic_witness :
  weight_limit demo_stakes < total_weight (sts demo_stakes) ∧ remove_transactions_for_size_limit demo_stakes = Crash.
Proof.
  split; [by vm_compute|].
  exact (stakes_over_limit_panic demo_hash demo_stakes demo_stakes_tables eq_refl eq_refl eq_refl f64_one_normal).
Defined.

Lemma iteration_by_priority_witness :
  ∃ l, vt_iter demo_pool = (λ hx, hx.2.2) <$> l ∧ l ≡ₚ map_to_list (entries (vts demo_pool)).
Proof.
  destruct (iteration_by_priority vt_weight (λ t, demo_hash (ValueTransfer t)) (vts demo_pool)
    (tk_vt _ _ (cs_tables _ _ _ _ demo_pool_consistent))) as (l & H1 & H2 & _).
  exists l. unfold vt_iter. split; [exact H1|exact H2].
Defined.

Definition demo_request : DRTransaction :=
  MkDR [] [] {| data_request := {| rad_time_lock := 0; retrieve := []; aggregate := {| agg_filters := []; agg_reducer := 0 |};
                                   rad_tally := {| tally_filters := []; tally_reducer := 0 |} |};
                witness_reward := 1; witnesses := 2; commit_and_reveal_fee := 1; min_consensus_percentage := 51;
                dro_collateral := 1000 |} [].
Definition demo_strict : TransactionsPool :=
  set_required_reward_collateral_ratio (set_collateral_minimum pool_default 1) 125.
Lemma insert_ignores_collateral_witness :
  calculate_reward_collateral_ratio (dro_collateral (d_output demo_request)) (collateral_minimum demo_strict)
    (witness_reward (d_output demo_request)) > required_reward_collateral_ratio demo_strict
  ∧ dr_contains (demo_insert demo_strict (DataRequest demo_request) 1) (demo_hash (DataRequest demo_request)) = true.
Proof.
  split; [by vm_compute|]. unfold demo_insert.
  rewrite (insert_ignores_collateral demo_hash demo_sha demo_strict demo_request 1) by (by vm_compute). by vm_compute.
Defined.

(** One commit for a request with one witness. *)
Definition demo_commit : CommitTransaction :=
  {| c_dr_pointer := [5]; c_commitment := []; c_proof := {| claim_proof := {| vrf_proof := []; vrf_public_key := MkPublicKey 2 [] |} |};
     c_collateral := [MkInput (MkPointer [3] 0)]; c_outputs := []; c_bn256_public_key := None; c_signatures := [] |}.
Definition demo_output : DataRequestOutput :=
  {| data_request := data_request (d_output demo_request); witness_reward := 1; witnesses := 1; commit_and_reveal_fee := 4;
     min_consensus_percentage := 51; dro_collateral := 1000 |}.
Definition demo_requests : DataRequestPool := with_requests (pool_new 1) {[ [5] := state_new demo_output [8] 7 None ]}.
Definition demo_commits : TransactionsPool := with_commits pool_default {[ [1] := demo_commit ]} {[ [5] := {[ [7] := [1] ]} ]}.
Lemma block_commits_valid_witness :
  (remove_commits demo_visit demo_commits demo_requests).2 = ([demo_commit], 4, [[5]]) ∧ NoDup (collateral [demo_commit]).
Proof.
  assert (remove_commits demo_visit demo_commits demo_requests = (clear_commits demo_commits, ([demo_commit], 4, [[5]]))) as Heq
    by (vm_compute; reflexivity).
  pose proof (block_commits_valid demo_visit demo_visit_perm demo_commits demo_requests) as Hb. rewrite Heq in Hb |- *.
  destruct Hb as (groups & _ & _ & _ & _ & Hnd & _). split; [reflexivity|exact Hnd].
Defined.
