(* ===== verification/RepEngine.v ===== *)
(** * The reputation engine

    Models [ReputationEngine] of data_structures/src/chain/mod.rs over the two
    reputation sets, with its cache of derived values, and [update_reputation] of
    node/src/actors/chain_manager/mod.rs, which applies the tallies of a block.

    The cache sits in a [RefCell]: queries take the engine and return it with the
    cache they leave.  [sort_unstable_by] is a sort whose result is unique as long
    as no two identities compare equal.  The power function of the C library is a
    parameter. *)

From stdpp Require Import base tactics numbers list sorting gmap.
From Stdlib Require Import ZArith Lia.
From S2P Require Import Prelude Trs Ars Hashes Superblock Transaction DataRequest Float.
Local Open Scope Z_scope.
Local Open Scope rust_scope.

(** ** State *)

Record ReputationThresholdCache := MkCache {
  valid : bool;
  total_active_rep : Z;
  sorted_active_rep : list Z;
  sorted_identities : list PublicKeyHash;
  threshold : gmap Z Z;
  trapezoid_rep : gmap PublicKeyHash Z;
}.
Definition cache_default : ReputationThresholdCache := MkCache false 0 [] [] ∅ ∅.

Record ReputationEngine := MkRep {
  current_alpha : Z;
  extra_reputation : Z;
  trs : TotalReputationSet PublicKeyHash;
  ars : ActiveReputationSet PublicKeyHash;
  threshold_cache : ReputationThresholdCache;
}.
Definition engine_new (activity_period : nat) : ReputationEngine :=
  MkRep 0 0 trs_new (ars_new activity_period) cache_default.

Definition with_cache (e : ReputationEngine) (c : ReputationThresholdCache) : ReputationEngine :=
  MkRep (current_alpha e) (extra_reputation e) (trs e) (ars e) c.
Definition invalidate (c : ReputationThresholdCache) : ReputationThresholdCache :=
  MkCache false (total_active_rep c) (sorted_active_rep c) (sorted_identities c) (threshold c) (trapezoid_rep c).
Definition clear_threshold_cache (c : ReputationThresholdCache) : ReputationThresholdCache :=
  MkCache (valid c) (total_active_rep c) (sorted_active_rep c) (sorted_identities c) ∅ (trapezoid_rep c).
Definition initialize (c : ReputationThresholdCache)
    (g : Z * list Z * gmap PublicKeyHash Z * list PublicKeyHash) : ReputationThresholdCache :=
  let '(total, sorted_rep, trapezoid, identities) := g in
  MkCache true total sorted_rep identities ∅ trapezoid.

(** [trs_mut] and [ars_mut]: the assignment through the reference. *)
Definition set_trs (e : ReputationEngine) (t : TotalReputationSet PublicKeyHash) : ReputationEngine :=
  MkRep (current_alpha e) (extra_reputation e) t (ars e) (invalidate (threshold_cache e)).
Definition set_ars (e : ReputationEngine) (a : ActiveReputationSet PublicKeyHash) : ReputationEngine :=
  MkRep (current_alpha e) (extra_reputation e) (trs e) a (invalidate (threshold_cache e)).
Definition set_extra (e : ReputationEngine) (r : Z) : ReputationEngine :=
  MkRep (current_alpha e) r (trs e) (ars e) (threshold_cache e).
Definition set_current_alpha (e : ReputationEngine) (new_alpha : Z) : ReputationEngine :=
  if decide (current_alpha e = new_alpha) then e
  else MkRep new_alpha (extra_reputation e) (trs e) (ars e) (invalidate (threshold_cache e)).
Definition is_ars_member (e : ReputationEngine) (pkh : PublicKeyHash) : bool := Ars.contains (ars e) pkh.

(** ** The trapezoid *)

Definition magic_line (x m k : f64) : Z :=
  let res := f64_add (f64_mul m x) k in
  if f64_lt res (f64_of 0) then 0 else f64_to_u32 (f64_round res).

Definition filter_reputed_identities (identities : list PublicKeyHash) (t : TotalReputationSet PublicKeyHash) :
    list PublicKeyHash * Z :=
  let reputed := filter (λ p, get t p ≠ 0) identities in
  (reputed, foldl (λ total p, wadd U32 total (get t p)) 0 reputed).

Definition calculate_trapezoid_triangle (total_active_rep : Z) (active_reputed_ids_len : nat) (minimum_rep : Z) :
    list Z * Z :=
  let len := f64_of (Z.of_nat active_reputed_ids_len) in
  let average := f64_div (f64_of total_active_rep) len in
  let k := f64_mul (f64_div (f64_of 3) (f64_of 2)) (f64_sub average (f64_of minimum_rep)) in
  let m := f64_div (f64_neg k) (f64_sub len f64_one) in
  let triangle := (λ i, magic_line (f64_of (Z.of_nat i)) m k) <$> seq 0 active_reputed_ids_len in
  (triangle, foldl (wadd U32) 0 triangle).

(** The loop over the identities with their part of the triangle. *)
Definition trapezoid_entries (offset : Z) (extra : nat) (ids : list PublicKeyHash) (triangle : list Z) :
    list (PublicKeyHash * Z) :=
  imap (λ i pr, (pr.1, let r := wadd U32 pr.2 offset in if decide (i < extra)%nat then wadd U32 r 1 else r))
    (zip ids triangle).

Definition trapezoidal_eligibility (identities : list PublicKeyHash) (t : TotalReputationSet PublicKeyHash) :
    gmap PublicKeyHash Z * Z :=
  let '(ids, total) := filter_reputed_identities identities t in
  match last ids with
  | None => (∅, 0)
  | Some lowest =>
      let '(triangle, total_triangle) := calculate_trapezoid_triangle total (length ids) (get t lowest) in
      let remaining := wsub U32 total total_triangle in
      let len := Z.of_nat (length ids) in
      let offset := remaining / (len mod U32) in
      let extra := Z.to_nat (remaining mod len) in
      (foldl (λ hm pr, <[pr.1 := pr.2]> hm) ∅ (trapezoid_entries offset extra ids triangle), total)
  end.

(** ** The order of the identities *)

Section engine.
Context (calculate_sha256 : list Z → Hash).

Definition pkh_alpha_hash (p : PublicKeyHash) (alpha : Z) : Hash := calculate_sha256 (p ++ to_be_bytes 4 alpha).

Definition bytes_cmp (a b : list Z) : comparison :=
  if decide (a = b) then Eq else if decide (bytes_le a b) then Lt else Gt.

Definition compare_reputed_pkh (alpha : Z) (a b : PublicKeyHash * Z) : comparison :=
  CompOpp (match a.2 ?= b.2 with
           | Eq => if decide (a.2 > 0) then bytes_cmp (pkh_alpha_hash a.1 alpha) (pkh_alpha_hash b.1 alpha)
                   else bytes_cmp a.1 b.1
           | c => c
           end).
Definition ranked_before (alpha : Z) (a b : PublicKeyHash * Z) : Prop := compare_reputed_pkh alpha a b ≠ Gt.
#[export] Instance ranked_before_dec alpha : RelDecision (ranked_before alpha).
Proof. intros a b. unfold ranked_before. apply _. Defined.

Definition calculate_rep_ordered_ars_list (e : ReputationEngine) : list PublicKeyHash :=
  (merge_sort (ranked_before (current_alpha e)) ((λ p, (p, get (trs e) p)) <$> active_identities (ars e))).*1.

Definition calculate_active_rep (e : ReputationEngine) : Z * list Z * gmap PublicKeyHash Z * list PublicKeyHash :=
  let identities := calculate_rep_ordered_ars_list e in
  let '(trapezoid, total) := trapezoidal_eligibility identities (trs e) in
  (wadd U64 total (Z.of_nat (length identities)),
   (λ p, wadd U32 (default 0 (trapezoid !! p)) 1) <$> identities, trapezoid, identities).

(** ** Cached queries *)

(** [if !self.valid { self.initialize(gen()) }]. *)
Definition refresh (e : ReputationEngine) : ReputationThresholdCache :=
  if valid (threshold_cache e) then threshold_cache e else initialize (threshold_cache e) (calculate_active_rep e).

(** [internal_threshold_factor]; [None] is a division by zero. *)
Fixpoint internal_threshold_loop (n total_rep remaining_rep : Z) (rep_sorted : list Z) : option Z :=
  match rep_sorted with
  | [] => Some (U32 - 1)
  | top_rep :: rest =>
      if decide (wmul U64 top_rep n > remaining_rep) then
        internal_threshold_loop (wsub U64 n 1) total_rep (wsub U64 remaining_rep top_rep) rest
      else if decide (remaining_rep = 0) then None
      else
        let factor := wmul U64 total_rep n / remaining_rep in
        let factor := if decide (total_rep mod remaining_rep > 0) then wadd U64 factor 1 else factor in
        Some (if decide (factor < U32) then factor else U32 - 1)
  end.
Definition internal_threshold_factor (n total_rep : Z) (rep_sorted : list Z) : option Z :=
  if decide (n = 0) then Some 0 else internal_threshold_loop n total_rep total_rep rep_sorted.

Definition threshold_factor (e : ReputationEngine) (witnesses_number : Z) : option (ReputationEngine * Z) :=
  let c := refresh e in
  match threshold c !! witnesses_number with
  | Some f => Some (with_cache e c, f)
  | None =>
      f ← internal_threshold_factor witnesses_number (total_active_rep c) (sorted_active_rep c);
      Some (with_cache e (MkCache (valid c) (total_active_rep c) (sorted_active_rep c) (sorted_identities c)
                            (<[witnesses_number := f]> (threshold c)) (trapezoid_rep c)), f)
  end.
Definition total_active_reputation (e : ReputationEngine) : ReputationEngine * Z :=
  let c := refresh e in (with_cache e c, total_active_rep c).
Definition get_eligibility (e : ReputationEngine) (p : PublicKeyHash) : ReputationEngine * Z :=
  let c := refresh e in (with_cache e c, default 0 (trapezoid_rep c !! p)).
Definition get_rep_ordered_ars_list (e : ReputationEngine) : ReputationEngine * list PublicKeyHash :=
  let c := refresh e in (with_cache e c, sorted_identities c).
End engine.

(** ** The update for a block *)

Definition reputation_issuance (issuance stop old_alpha new_alpha : Z) : Z :=
  if decide (stop ≤ old_alpha) then 0
  else wmul U32 (wsub U32 (Z.min stop new_alpha) old_alpha) issuance.

Record RequestResult := MkResult { truths : Z; lies : Z; errors : Z }.
Record ReputationInfo := MkInfo { alpha_diff : Z; result_count : gmap PublicKeyHash RequestResult }.
Definition info_new : ReputationInfo := MkInfo 0 ∅.

(** One committer of [ReputationInfo::update]. *)
Definition count_result (out_of_consensus error_committers : list PublicKeyHash)
    (m : gmap PublicKeyHash RequestResult) (p : PublicKeyHash) : gmap PublicKeyHash RequestResult :=
  let r := default (MkResult 0 0 0) (m !! p) in
  <[p := if decide (p ∈ error_committers) then MkResult (truths r) (lies r) (wadd U32 (errors r) 1)
         else if decide (p ∈ out_of_consensus) then MkResult (truths r) (wadd U32 (lies r) 1) (errors r)
         else MkResult (wadd U32 (truths r) 1) (lies r) (errors r)]> m.

(** [ReputationInfo::update]; [None] is the panic of the index or of the
    conversion.  The statistics of the node are left out. *)
Definition info_update (i : ReputationInfo) (tally : TallyTransaction) (pool : DataRequestPool) : option ReputationInfo :=
  dr ← data_request_pool pool !! t_dr_pointer tally;
  let reveals_count := Z.of_nat (size (reveals (info dr))) in
  if decide (reveals_count < U32) then
    Some (MkInfo (wadd U32 (alpha_diff i) reveals_count)
            (foldl (count_result (t_out_of_consensus tally) (t_error_committers tally)) (result_count i)
               (map_to_list (commits (info dr))).*1))
  else None.

Definition separate_step {K} (acc : list K * list K * list (K * Z)) (kr : K * RequestResult) :
    list K * list K * list (K * Z) :=
  let '(honests, errs, liars) := acc in
  let '(p, r) := kr in
  if decide (lies r > 0) then (honests, errs, liars ++ [(p, lies r)])
  else if decide (errors r ≤ truths r) then (honests ++ [p], errs, liars)
  else (honests, errs ++ [p], liars).
Definition separate_honest_errors_and_liars {K} (rep_info : list (K * RequestResult)) :
    list K * list K * list (K * Z) := foldl separate_step ([], [], []) rep_info.

Section update.
(** [f64::powf]. *)
Context (powf : f64 → f64 → f64).

Definition penalize_factor (penalization_factor : f64) (num_lies r : Z) : Z :=
  f64_to_u32 (f64_mul (f64_of r) (powf penalization_factor (f64_of num_lies))).

(** The constants of the consensus that the update uses. *)
Record ReputationConstants := MkRepConstants {
  rc_issuance : Z;
  rc_issuance_stop : Z;
  rc_penalization_factor : f64;
  rc_expire_alpha_diff : Z;
}.

(** The distribution of the bounty among the honest identities. *)
Definition distribute (e : ReputationEngine) (expire_alpha bounty : Z) (honests : list PublicKeyHash) :
    option (ReputationEngine * Z) :=
  let num_honest := Z.of_nat (length honests) in
  if decide (U32 ≤ num_honest) then None
  else if decide (num_honest > 0) then
    let rep_reward := bounty / num_honest in
    match gain (trs e) expire_alpha ((λ p, (p, rep_reward)) <$> honests) with
    | Ret t _ => Some (set_trs e t, wsub U32 bounty (wmul U32 rep_reward num_honest))
    | _ => None
    end
  else Some (e, bounty).

Definition update_reputation (c : ReputationConstants) (e : ReputationEngine) (secp_bls_mapping : AltKeys)
    (miner_pkh : PublicKeyHash) (rep_info : ReputationInfo) (block_epoch : Z) :
    option (ReputationEngine * AltKeys) :=
  let old_alpha := current_alpha e in
  let new_alpha := wadd U32 old_alpha (alpha_diff rep_info) in
  let results := map_to_list (result_count rep_info) in
  let '(honests, _, liars) := separate_honest_errors_and_liars results in
  let extra_rep_previous_epoch := extra_reputation e in
  match expire (trs e) old_alpha with
  | Ret t expired_rep =>
      let e := set_trs e t in
      let issued_rep := reputation_issuance (rc_issuance c) (rc_issuance_stop c) old_alpha new_alpha in
      match penalize_many (trs e)
              ((λ pl, (pl.1, penalize_factor (rc_penalization_factor c) pl.2)) <$> liars) with
      | Ret t penalized_rep =>
          let e := set_trs e t in
          let bounty := wadd U32 (wadd U32 (wadd U32 extra_rep_previous_epoch expired_rep) issued_rep) penalized_rep in
          '(e, rest) ← distribute e (wadd U32 new_alpha (rc_expire_alpha_diff c)) bounty honests;
          let e := set_extra e rest in
          match update (ars e) (results.*1 ++ [miner_pkh]) block_epoch with
          | Ret a _ | Fail a _ =>
              let e := set_ars e a in
              Some (set_current_alpha e new_alpha, filter (λ kv, Ars.contains (ars e) kv.1 = true) secp_bls_mapping)
          | Crash => None
          end
      | _ => None
      end
  | _ => None
  end.
End update.
