(* ===== verification/RepEngineCorrect.v ===== *)
(** * Correctness of the reputation engine

    The factor that raises the eligibility threshold, the redistribution of
    reputation along the trapezoid, the transparency of the cache, and the supply
    of reputation over any sequence of blocks. *)

From stdpp Require Import base tactics numbers list sorting gmap.
From Stdlib Require Import ZArith Lia Psatz Floats.SpecFloat.
From S2P Require Import Prelude Trs TrsCorrect Ars Hashes Superblock Transaction DataRequest Float RepEngine.
Local Open Scope Z_scope.
Local Open Scope rust_scope.

(** ** The threshold factor *)

(** The expected number of eligible witnesses, times the total reputation, when
    every identity is eligible with probability [min(1, r * f / total)]. *)
Definition expected_witnesses (total f : Z) (reps : list Z) : Z := zsum ((λ r, Z.min total (r * f)) <$> reps).

Definition sorted_reps (reps : list Z) : Prop := StronglySorted (λ a b, b ≤ a) reps ∧ Forall (λ r, 0 < r) reps.

Lemma zsum_le_mul (b : Z) reps : Forall (λ r, r ≤ b) reps → zsum reps ≤ b * Z.of_nat (length reps).
Proof. induction 1 as [|r reps Hr _ IH]; [simpl; lia|]. rewrite zsum_Zcons. simpl length. lia. Qed.

(** When no identity is above the average share, all of them together reach the
    number of witnesses. *)
Lemma expected_flat total f n rem reps :
  0 ≤ total → 0 < rem → total * n ≤ f * rem → 0 ≤ n → Forall (λ r, 0 < r ∧ r * n ≤ rem) reps →
  total * n * zsum reps ≤ rem * expected_witnesses total f reps.
Proof.
  intros Ht Hrem Hf Hn. unfold expected_witnesses. induction 1 as [|r reps [Hr Hrn] _ IH]; [simpl; lia|].
  rewrite fmap_cons, !zsum_Zcons. assert (total * n * r ≤ rem * Z.min total (r * f)); [|lia].
  destruct (Z.min_spec total (r * f)) as [[_ ->]|[_ ->]]; nia.
Qed.

(** One identity that is eligible for sure. *)
Lemma skip_certain total f n rem r :
  0 ≤ total → 0 < r → 0 < rem - r → rem < r * n → total * (n - 1) ≤ f * (rem - r) → total ≤ r * f.
Proof.
  intros Ht Hr0 Hrem Hr Hf. destruct (decide (r * f < total)) as [Hlt|]; [exfalso|lia].
  assert (rem - r < r * (n - 1)) by lia. assert (0 ≤ n - 1) by nia.
  assert (total * (n - 1) * r ≤ f * (rem - r) * r) by nia.
  assert (total * (rem - r) ≤ total * (r * (n - 1))) by nia.
  assert (f * (rem - r) * r < total * (rem - r)) by nia. lia.
Qed.

Lemma ceil_bound total n rem :
  0 < rem → 0 ≤ n → 0 ≤ total →
  let factor := total * n / rem in
  total * n ≤ (if decide (total mod rem > 0) then factor + 1 else factor) * rem.
Proof.
  intros Hrem Hn Ht factor. unfold factor. pose proof (Z.div_mod (total * n) rem ltac:(lia)) as Hd.
  pose proof (Z.mod_pos_bound (total * n) rem Hrem). case_decide as Hm; [nia|].
  assert (total mod rem = 0) as H0 by (pose proof (Z.mod_pos_bound total rem Hrem); lia).
  assert ((total * n) mod rem = 0) as H1 by (rewrite Z.mul_mod, H0 by lia; by rewrite Z.mul_0_l, Z.mod_0_l by lia). nia.
Qed.

Lemma threshold_loop_spec total reps : ∀ n,
  0 ≤ total < 2 ^ 47 → 1 ≤ n < U16 → sorted_reps reps → zsum reps ≤ total →
  ∃ f, internal_threshold_loop n total (zsum reps) reps = Some f ∧ 0 ≤ f < U32
    ∧ (f = U32 - 1 ∨ total * n ≤ f * zsum reps ∧ n * total ≤ expected_witnesses total f reps)
    ∧ (Z.of_nat (length reps) < n → f = U32 - 1).
Proof.
  induction reps as [|r reps IH]; intros n Ht Hn [Hs Hp] Hsum.
  { exists (U32 - 1). split_and!; try (unfold_moduli; lia); try done; by left. }
  cbn [internal_threshold_loop]. inversion Hs as [|? ? Hs' Hle]; subst. inversion Hp as [|? ? Hr Hp']; subst.
  assert (0 ≤ zsum reps) as Hnn by (apply zsum_nonneg; eapply Forall_impl; [exact Hp'|]; simpl; lia).
  rewrite zsum_Zcons in *. assert (0 ≤ r * n < 2 ^ 63) as Hrn by (unfold_moduli; nia).
  rewrite (wmul_small U64) by (unfold_moduli; lia). case_decide as Hskip.
  - assert (1 < n) as Hn1 by (destruct (decide (n = 1)); [nia|lia]).
    rewrite !wsub_small by (unfold_moduli; lia). replace (r + zsum reps - r) with (zsum reps) by lia.
    destruct (IH (n - 1)) as (f & -> & Hf & Hres & Hlen); [lia|lia|by split|lia|].
    exists f. split_and!; [done|lia|lia| |simpl length; intros; apply Hlen; lia].
    destruct Hres as [->|[Hf1 Hf2]]; [by left|right].
    destruct (decide (zsum reps = 0)) as [H0|Hpos].
    { assert (reps = []) as ->; [|simpl in *; nia]. destruct reps as [|r' reps]; [done|]. inversion Hp'; subst.
      rewrite zsum_Zcons in H0. assert (0 ≤ zsum reps); [|lia]. apply zsum_nonneg. eapply Forall_impl; [eassumption|]; simpl; lia. }
    assert (total ≤ r * f) as Hcert.
    { apply (skip_certain total f n (r + zsum reps)); [lia..|]. by replace (r + zsum reps - r) with (zsum reps) by lia. }
    split; [nia|]. unfold expected_witnesses in *. rewrite fmap_cons, zsum_Zcons, Z.min_l by lia. lia.
  - assert (0 < r + zsum reps) as Hrem by lia. rewrite decide_False by lia.
    assert (0 ≤ total * n < 2 ^ 63) as Htn by (unfold_moduli; nia).
    rewrite (wmul_small U64 total) by (unfold_moduli; lia).
    assert (0 ≤ total * n / (r + zsum reps) < 2 ^ 63) as Hq.
    { split; [apply Z.div_pos; nia|]. apply Z.div_lt_upper_bound; nia. }
    rewrite (wadd_small U64) by (unfold_moduli; lia).
    pose proof (ceil_bound total n (r + zsum reps) Hrem ltac:(lia) ltac:(lia)) as Hc. cbv zeta in Hc.
    set (factor := if decide _ then _ + 1 else _) in *.
    assert (0 ≤ factor) as Hfac by (unfold factor; case_decide; lia).
    eexists. split; [done|]. assert (Z.of_nat (length (r :: reps)) < n → False) as Hcnt.
    { intros Hl. assert (zsum reps ≤ r * Z.of_nat (length reps)) by (by apply zsum_le_mul). simpl in Hl. nia. }
    case_decide as Hfit; [|split_and!; [unfold_moduli; lia..|by left|done]].
    split_and!; [lia|lia| |done]. right. split; [done|].
    assert (Forall (λ r', 0 < r' ∧ r' * n ≤ r + zsum reps) (r :: reps)) as Hall.
    { constructor; [lia|]. apply Forall_forall. intros r' Hin.
      assert (0 < r') by (by apply (proj1 (Forall_forall _ _) Hp')). assert (r' ≤ r) by (by apply (proj1 (Forall_forall _ _) Hle)). nia. }
    pose proof (expected_flat total factor n (r + zsum reps) (r :: reps) ltac:(lia) Hrem Hc ltac:(lia) Hall) as He.
    rewrite zsum_Zcons in He. nia.
Qed.

(** With the reputations in decreasing order, [internal_threshold_factor] never
    divides by zero, and unless the factor saturates, an identity being eligible
    with probability [min(1, r * factor / total)] makes the expected number of
    eligible identities at least the number of witnesses; with fewer identities
    than witnesses the factor saturates. *)
Theorem threshold_factor_enough n reps :
  1 ≤ n < U16 → sorted_reps reps → zsum reps < 2 ^ 47 →
  ∃ f, internal_threshold_factor n (zsum reps) reps = Some f ∧ 0 ≤ f < U32
    ∧ (f = U32 - 1 ∨ n * zsum reps ≤ expected_witnesses (zsum reps) f reps)
    ∧ (Z.of_nat (length reps) < n → f = U32 - 1).
Proof.
  intros Hn Hs Ht. unfold internal_threshold_factor. rewrite decide_False by lia.
  assert (0 ≤ zsum reps) by (apply zsum_nonneg; eapply Forall_impl; [apply Hs|]; simpl; lia).
  destruct (threshold_loop_spec (zsum reps) reps n) as (f & -> & Hf & Hr & Hl); [lia|done|done|done|].
  exists f. split_and!; [done|lia|lia| |done]. destruct Hr as [|[_ Hr]]; [by left|by right].
Qed.

(** ** The trapezoid *)

(** The values of the trapezoid before they are cut to [u32]. *)
Definition raw_values (offset : Z) (extra : nat) (triangle : list Z) : list Z :=
  imap (λ i r, r + offset + (if decide (i < extra)%nat then 1 else 0)) triangle.

Lemma raw_values_cons offset extra r triangle :
  raw_values offset extra (r :: triangle)
  = (r + offset + (if decide (0 < extra)%nat then 1 else 0)) :: raw_values offset (extra - 1) triangle.
Proof.
  unfold raw_values. rewrite imap_cons. f_equal. apply imap_ext. intros i x _. unfold compose.
  f_equal. repeat case_decide; lia.
Qed.

Lemma raw_values_sum offset triangle : ∀ extra,
  (extra ≤ length triangle)%nat →
  zsum (raw_values offset extra triangle) = zsum triangle + offset * Z.of_nat (length triangle) + Z.of_nat extra.
Proof.
  induction triangle as [|r triangle IH]; intros extra He; [simpl in *; lia|].
  rewrite raw_values_cons, !zsum_Zcons, IH by (simpl in *; lia). simpl in *. case_decide; lia.
Qed.

Lemma trapezoid_entries_cons offset extra p ids r triangle :
  trapezoid_entries offset extra (p :: ids) (r :: triangle)
  = (p, (r + offset + (if decide (0 < extra)%nat then 1 else 0)) mod U32)
    :: trapezoid_entries offset (extra - 1) ids triangle.
Proof.
  unfold trapezoid_entries. cbn [zip zip_with]. rewrite imap_cons. f_equal.
  - cbn [fst snd]. f_equal. unfold wadd. case_decide; [by rewrite Zplus_mod_idemp_l|by rewrite Z.add_0_r].
  - apply imap_ext. intros i x _. unfold compose. f_equal. cbv zeta. repeat case_decide; (done || lia).
Qed.

Lemma trapezoid_entries_spec offset ids : ∀ extra triangle,
  length ids = length triangle →
  (trapezoid_entries offset extra ids triangle).*1 = ids
  ∧ (trapezoid_entries offset extra ids triangle).*2 = (λ r, r mod U32) <$> raw_values offset extra triangle.
Proof.
  induction ids as [|p ids IH]; intros extra [|r triangle] Hl; try done. injection Hl as Hl.
  rewrite trapezoid_entries_cons, raw_values_cons. destruct (IH (extra - 1)%nat triangle Hl) as [H1 H2].
  rewrite !fmap_cons. cbn [fst snd]. by rewrite H1, H2.
Qed.

Lemma foldl_insert_msum (l : list (PublicKeyHash * Z)) : ∀ m : gmap PublicKeyHash Z,
  NoDup l.*1 → (∀ p, p ∈ l.*1 → m !! p = None) →
  let m' := foldl (λ hm pr, <[pr.1 := pr.2]> hm) m l in
  msum id m' = msum id m + zsum l.*2 ∧ (∀ p, is_Some (m' !! p) ↔ p ∈ l.*1 ∨ is_Some (m !! p)).
Proof.
  induction l as [|[p v] l IH]; intros m; [intros _ _; simpl; split; [lia|set_solver]|].
  rewrite !fmap_cons. cbn [fst snd foldl]. intros [Hp Hnd]%NoDup_cons Hm.
  destruct (IH (<[p := v]> m) Hnd) as [H1 H2].
  { intros q Hq. rewrite lookup_insert_ne by (intros ->; done). apply Hm. by right. }
  split.
  - rewrite H1, msum_insert_new, zsum_Zcons by (apply Hm; by left). unfold id. lia.
  - intros q. rewrite H2, elem_of_cons, lookup_insert_is_Some. destruct (decide (p = q)); naive_solver.
Qed.

Lemma zsum_mod_values m l : 0 < m → zsum ((λ r, r mod m) <$> l) mod m = zsum l mod m.
Proof.
  intros Hm. induction l as [|r l IH]; [done|]. rewrite fmap_cons, !zsum_Zcons, Z.add_mod, IH, Zmod_mod by lia.
  by rewrite <-Z.add_mod by lia.
Qed.

Lemma zsum_filter_nonzero {A} (f : A → Z) l : zsum (f <$> filter (λ x, f x ≠ 0) l) = zsum (f <$> l).
Proof.
  induction l as [|x l IH]; [done|]. rewrite filter_cons. case_decide as Hx; rewrite ?zsum_cons, IH; [done|].
  assert (f x = 0) as -> by (destruct (decide (f x = 0)); [done|tauto]). lia.
Qed.

Lemma length_triangle total n minimum : length (calculate_trapezoid_triangle total n minimum).1 = n.
Proof. unfold calculate_trapezoid_triangle. cbn [fst]. by rewrite length_fmap, length_seq. Qed.

Lemma triangle_nonneg total n minimum : Forall (λ r, 0 ≤ r) (calculate_trapezoid_triangle total n minimum).1.
Proof.
  apply Forall_fmap, Forall_forall. intros i _. unfold compose, magic_line. case_match; [done|].
  apply f64_to_u32_nonneg.
Qed.

Lemma foldl_wadd_mod l : ∀ acc, foldl (wadd U32) acc l mod U32 = (acc + zsum l) mod U32.
Proof.
  induction l as [|x l IH]; intros acc; simpl; [by rewrite Z.add_0_r|]. rewrite IH. unfold wadd.
  by rewrite Zplus_mod_idemp_l, Z.add_assoc.
Qed.

(** The parts of the trapezoid and what they sum to. *)
Lemma trapezoid_sum total triangle (ids : list PublicKeyHash) :
  0 ≤ total < U32 → ids ≠ [] → length ids = length triangle → Z.of_nat (length ids) < U32 →
  let remaining := wsub U32 total (foldl (wadd U32) 0 triangle) in
  let len := Z.of_nat (length ids) in
  let raws := raw_values (remaining / (len mod U32)) (Z.to_nat (remaining mod len)) triangle in
  zsum raws mod U32 = total ∧ (Forall (λ r, 0 ≤ r) triangle → zsum triangle ≤ total → zsum raws = total ∧ Forall (fits U32) raws).
Proof.
  intros Ht Hne Hl Hu remaining len raws.
  assert (0 < len) as Hlen by (destruct ids; [done|]; unfold len; simpl; lia).
  assert (len mod U32 = len) as Hmod by (apply Z.mod_small; lia).
  pose proof (Z.mod_pos_bound remaining len Hlen) as Hb.
  assert (0 ≤ remaining < U32) as Hrem by (apply Z.mod_pos_bound; unfold_moduli; lia).
  assert (zsum raws = zsum triangle + remaining) as Hsum.
  { unfold raws. rewrite Hmod, raw_values_sum by (rewrite <-Hl; unfold len in *; lia).
    rewrite <-Hl. fold len. pose proof (Z.div_mod remaining len ltac:(lia)). lia. }
  assert (0 ≤ remaining / (len mod U32)) as Hoff by (apply Z.div_pos; rewrite ?Hmod; lia).
  rewrite Hsum. split.
  - unfold remaining, wsub. rewrite Zplus_mod_idemp_r. 
    replace (zsum triangle + (total - foldl (wadd U32) 0 triangle)) with (zsum triangle + total - foldl (wadd U32) 0 triangle) by lia.
    rewrite Zminus_mod, foldl_wadd_mod, <-Zminus_mod. replace (_ - _) with total by lia. by apply Z.mod_small.
  - intros Hp Hle. assert (remaining = total - zsum triangle) as Hexact.
    { pose proof (zsum_nonneg _ Hp). unfold remaining.
      rewrite (foldl_wadd U32 triangle 0 Hp) by lia. rewrite wsub_small; lia. }
    split; [lia|]. apply Forall_forall. intros r Hin. assert (Forall (λ r, 0 ≤ r) raws) as Hnn.
    { unfold raws, raw_values. apply Forall_forall. intros x (i & y & -> & Hy)%elem_of_lookup_imap.
      apply list_elem_of_lookup_2 in Hy. eapply (proj1 (Forall_forall _ _) Hp) in Hy. case_decide; lia. }
    pose proof (zsum_elem_le raws r Hnn Hin). assert (0 ≤ r) by exact (proj1 (Forall_forall _ _) Hnn r Hin). split; lia.
Qed.

(** The redistribution along the trapezoid covers exactly the identities with
    reputation, and what they are eligible with adds up, modulo the width of a
    [u32], to their total reputation; it is exactly that total as long as the
    upper triangle, computed in floating point, is not larger than it. *)
Theorem trapezoid_conserves ids t :
  NoDup ids → (∀ p, 0 ≤ get t p) → zsum (get t <$> ids) < U32 → Z.of_nat (length ids) < U32 →
  let '(hm, total) := trapezoidal_eligibility ids t in
  let reputed := filter (λ p, get t p ≠ 0) ids in
  total = zsum (get t <$> ids)
  ∧ (∀ p, is_Some (hm !! p) ↔ p ∈ ids ∧ get t p ≠ 0)
  ∧ msum id hm mod U32 = total
  ∧ ∀ lowest, last reputed = Some lowest →
      let triangle := (calculate_trapezoid_triangle total (length reputed) (get t lowest)).1 in
      zsum triangle ≤ total → msum id hm = total.
Proof.
  intros Hnd Hpos Hu Hlen. unfold trapezoidal_eligibility, filter_reputed_identities. cbv zeta beta iota.
  set (reputed := filter _ ids).
  assert (zsum (get t <$> reputed) = zsum (get t <$> ids)) as Hz by apply zsum_filter_nonzero.
  assert (foldl (λ total p, wadd U32 total (get t p)) 0 reputed = zsum (get t <$> ids)) as ->.
  { rewrite <-foldl_fmap, foldl_wadd, Hz; [done| |lia|lia]. apply Forall_fmap, Forall_forall. intros p _. apply Hpos. }
  assert (length reputed ≤ length ids)%nat as Hl by apply length_filter.
  assert (0 ≤ zsum (get t <$> ids)) as Hnn by (apply zsum_nonneg, Forall_fmap, Forall_forall; intros p _; apply Hpos).
  destruct (last reputed) as [lowest|] eqn:Hlast.
  2:{ apply last_None in Hlast. rewrite Hlast in Hz. simpl in Hz. split_and!; [done| |by rewrite msum_empty|by intros].
      intros p. rewrite lookup_empty. split; [by intros []|]. intros [Hin Hne]. exfalso.
      assert (p ∈ reputed) as Hp by (by apply list_elem_of_filter). rewrite Hlast in Hp. by apply elem_of_nil in Hp. }
  set (total := zsum (get t <$> ids)) in *.
  destruct (calculate_trapezoid_triangle total (length reputed) (get t lowest)) as [triangle tt'] eqn:Htri.
  assert (tt' = foldl (wadd U32) 0 triangle) as -> by (unfold calculate_trapezoid_triangle in Htri; by simplify_eq).
  assert (length reputed = length triangle) as Hlt by (pose proof (length_triangle total (length reputed) (get t lowest)) as Hlt; by rewrite Htri in Hlt).
  assert (reputed ≠ []) as Hne by (intros ->; done).
  destruct (trapezoid_sum total triangle reputed) as [Hsum Hexact]; [done|done|done|lia|]. cbv zeta in Hsum, Hexact.
  set (offset := _ / _) in *. set (extra := Z.to_nat _) in *.
  destruct (trapezoid_entries_spec offset reputed extra triangle Hlt) as [E1 E2].
  destruct (foldl_insert_msum (trapezoid_entries offset extra reputed triangle) ∅) as [F1 F2].
  { rewrite E1. by apply NoDup_filter. } { by intros p _. }
  rewrite F1, msum_empty, E2, Z.add_0_l. split_and!.
  - done.
  - intros p. rewrite F2, E1. unfold reputed. rewrite list_elem_of_filter, lookup_empty. split; [intros [[]|[]]; done|intros []; by left].
  - rewrite zsum_mod_values by (unfold_moduli; lia). done.
  - intros ? [= <-]. rewrite Htri. cbn [fst]. intros Hle.
    pose proof (triangle_nonneg total (length reputed) (get t lowest)) as Hp. rewrite Htri in Hp. destruct (Hexact Hp Hle) as [Hs Hf].
    assert ((λ r, r mod U32) <$> raw_values offset extra triangle = raw_values offset extra triangle) as ->; [|done].
    rewrite <-(list_fmap_id (raw_values offset extra triangle)) at 2. apply list_fmap_ext. intros i r Hr. 
    apply list_elem_of_lookup_2 in Hr. apply Z.mod_small. by apply (proj1 (Forall_forall _ _) Hf).
Qed.

(** ** The cache *)

Section cache.
Context (calculate_sha256 : list Z → Hash).
Implicit Types e : ReputationEngine.

Definition fresh e : Z * list Z * gmap PublicKeyHash Z * list PublicKeyHash := calculate_active_rep calculate_sha256 e.

(** A valid cache holds what a recomputation would give. *)
Definition cache_ok e : Prop :=
  let c := threshold_cache e in
  valid c = true →
  (total_active_rep c, sorted_active_rep c, trapezoid_rep c, sorted_identities c) = fresh e
  ∧ map_Forall (λ n f, internal_threshold_factor n (total_active_rep c) (sorted_active_rep c) = Some f) (threshold c).

(** The methods that touch the engine, queries included. *)
Inductive engine_step : ReputationEngine → ReputationEngine → Prop :=
  | step_trs e t : engine_step e (set_trs e t)
  | step_ars e a : engine_step e (set_ars e a)
  | step_extra e r : engine_step e (set_extra e r)
  | step_alpha e a : engine_step e (set_current_alpha e a)
  | step_clear_thresholds e : engine_step e (with_cache e (clear_threshold_cache (threshold_cache e)))
  | step_total e : engine_step e (total_active_reputation calculate_sha256 e).1
  | step_eligibility e p : engine_step e (get_eligibility calculate_sha256 e p).1
  | step_ordered e : engine_step e (get_rep_ordered_ars_list calculate_sha256 e).1
  | step_threshold e n e' f : threshold_factor calculate_sha256 e n = Some (e', f) → engine_step e e'.

Lemma fresh_same e e' :
  trs e' = trs e → ars e' = ars e → current_alpha e' = current_alpha e → fresh e' = fresh e.
Proof. destruct e, e'. simpl. by intros -> -> ->. Qed.

Lemma refresh_ok e :
  cache_ok e →
  let c := refresh calculate_sha256 e in
  valid c = true ∧ cache_ok (with_cache e c)
  ∧ (total_active_rep c, sorted_active_rep c, trapezoid_rep c, sorted_identities c) = fresh e.
Proof.
  intros Hc. unfold refresh. cbv zeta. destruct (valid (threshold_cache e)) eqn:Hv.
  - split_and!; [done| |by apply Hc]. destruct e. exact Hc.
  - unfold fresh, initialize. destruct (calculate_active_rep calculate_sha256 e) as [[[total reps] trap] ids] eqn:Hg.
    split_and!; [done| |done]. intros _. simpl. split; [|apply map_Forall_empty].
    rewrite (fresh_same e) by done. unfold fresh. by rewrite Hg.
Qed.

Lemma engine_step_ok e e' : cache_ok e → engine_step e e' → cache_ok e'.
Proof.
  intros Hc Hs. destruct Hs as [e t|e a|e r|e a|e|e|e p|e|e n e' f Hf]; try (by intros ?); try apply (refresh_ok e Hc).
  - unfold cache_ok in *. simpl. intros Hv. rewrite (fresh_same e) by done. by apply Hc.
  - unfold set_current_alpha. case_decide; [done|]. by intros ?.
  - unfold cache_ok in *. simpl. intros Hv. rewrite (fresh_same e) by done. destruct (Hc Hv). by split.
  - unfold threshold_factor in Hf. destruct (refresh_ok e Hc) as (Hv & Hok & Heq).
    set (c := refresh calculate_sha256 e) in *. destruct (threshold c !! n) as [f'|] eqn:Hl; [by simplify_eq|].
    apply bind_Some in Hf as (f' & Hf' & [= <- <-]). intros _. simpl. rewrite (fresh_same e) by done. split; [done|].
    apply map_Forall_insert_2; [done|]. by apply (Hok Hv).
Qed.

Lemma engine_new_cache_ok n : cache_ok (engine_new n).
Proof. by intros ?. Qed.

(** Whatever sequence of updates and queries came before, every query answers
    as if the derived values were computed from the current sets: the cache is
    invisible. *)
Theorem cached_queries_exact n e :
  rtc engine_step (engine_new n) e →
  let '(total, reps, trapezoid, identities) := fresh e in
  (total_active_reputation calculate_sha256 e).2 = total
  ∧ (∀ p, (get_eligibility calculate_sha256 e p).2 = default 0 (trapezoid !! p))
  ∧ (get_rep_ordered_ars_list calculate_sha256 e).2 = identities
  ∧ ∀ w, snd <$> threshold_factor calculate_sha256 e w = internal_threshold_factor w total reps.
Proof.
  intros Hr. assert (cache_ok e) as Hc.
  { revert e Hr. apply (rtc_ind_r (R:=engine_step) cache_ok (engine_new n)); [apply engine_new_cache_ok|].
    intros e1 e2 _ Hs Hc. by eapply engine_step_ok. }
  destruct (refresh_ok e Hc) as (Hv & Hok & Heq). rewrite <-Heq.
  split_and!; [done..|]. intros w. unfold threshold_factor.
  set (c := refresh calculate_sha256 e) in *. destruct (threshold c !! w) as [f|] eqn:Hl.
  - simpl. symmetry. by apply (proj2 (Hok Hv)).
  - by destruct (internal_threshold_factor w (total_active_rep c) (sorted_active_rep c)).
Qed.
End cache.

(** ** The supply of reputation *)

Lemma separate_spec {K} (l : list (K * RequestResult)) :
  separate_honest_errors_and_liars l
  = ((filter (λ kr, ¬ lies kr.2 > 0 ∧ errors kr.2 ≤ truths kr.2) l).*1,
     (filter (λ kr, ¬ lies kr.2 > 0 ∧ ¬ errors kr.2 ≤ truths kr.2) l).*1,
     (λ kr, (kr.1, lies kr.2)) <$> filter (λ kr, lies kr.2 > 0) l).
Proof.
  unfold separate_honest_errors_and_liars.
  assert (∀ h e li, foldl separate_step (h, e, li) l
    = (h ++ (filter (λ kr, ¬ lies kr.2 > 0 ∧ errors kr.2 ≤ truths kr.2) l).*1,
       e ++ (filter (λ kr, ¬ lies kr.2 > 0 ∧ ¬ errors kr.2 ≤ truths kr.2) l).*1,
       li ++ ((λ kr, (kr.1, lies kr.2)) <$> filter (λ kr, lies kr.2 > 0) l))) as H; [|apply (H [] [] [])].
  induction l as [|[k r] l IH]; intros h e li; [by rewrite !app_nil_r|].
  cbn [foldl separate_step]. rewrite !filter_cons. cbn [snd].
  repeat case_decide; try tauto; rewrite IH, ?fmap_cons, <-?app_assoc; done.
Qed.

Lemma NoDup_filter_keys {K V} (P : K * V → Prop) `{!∀ x, Decision (P x)} (l : list (K * V)) :
  NoDup l.*1 → NoDup (filter P l).*1.
Proof. intros Hl. eapply sublist_NoDup; [exact Hl|]. by apply fmap_sublist, sublist_filter. Qed.

Lemma gain_keys {K} `{Countable K} (P : Z → Prop) (t t' : TotalReputationSet K) a diff u :
  gain t a diff = Ret t' u → Forall P (queue t).*1 → P a → Forall P (queue t').*1.
Proof.
  assert (∀ q : list (Z * gmap K Z), Forall P q.*1 → Forall P (removelast q).*1) as Hrem.
  { intros q. induction q as [|x [|y q] IH]; [done..|]. rewrite !fmap_cons. intros [? ?]%Forall_cons.
    cbn [removelast]. rewrite fmap_cons. constructor; [done|]. by apply IH. }
  unfold gain. intros Hg Hq Ha. destruct (last (queue t)) as [[max back]|] eqn:El.
  - case_decide; [done|]. destruct (foldl gain_step (Trs.map t, back) _), (foldl gain_step (Trs.map t, ∅) _).
    case_decide as Hm; simplify_eq; simpl; rewrite fmap_app; apply Forall_app; (split; [by auto|by constructor]).
  - destruct (foldl gain_step (Trs.map t, ∅) _). simplify_eq; simpl; rewrite fmap_app; apply Forall_app; (split; [done|by constructor]).
Qed.

Section supply.
Context (powf : f64 → f64 → f64) (c : ReputationConstants).

(** The constants of the chain: the whole issuance fits a [u32], and the power
    of the penalization factor for a number of lies, a positive [u32], stays
    between zero and one. *)
Record constants_ok : Prop := {
  const_issuance : 0 ≤ rc_issuance c;
  const_stop : 0 ≤ rc_issuance_stop c;
  const_total : rc_issuance c * rc_issuance_stop c < U32;
  const_expire : 0 ≤ rc_expire_alpha_diff c;
  const_powf : ∀ n, 0 < n < U32 → unit_interval (powf (rc_penalization_factor c) (f64_of n));
}.

(** The results of a block: the count of acts, the number of identities and the
    counters of lies are of their types. *)
Definition info_ok (i : ReputationInfo) : Prop :=
  0 ≤ alpha_diff i ∧ Z.of_nat (size (result_count i)) < U32 ∧ map_Forall (λ _ r, lies r < U32) (result_count i).

Definition supply (e : ReputationEngine) : Z := get_total_sum (trs e) + extra_reputation e.

Record engine_ok (e : ReputationEngine) : Prop := {
  ok_trs : TrsCorrect.consistent (trs e);
  ok_keys : Forall (λ a, a ≤ current_alpha e + rc_expire_alpha_diff c) (queue (trs e)).*1;
  ok_ars : ∃ log, tracks (ars e) log;
  ok_alpha : 0 ≤ current_alpha e;
  ok_extra : 0 ≤ extra_reputation e;
  ok_supply : supply e = rc_issuance c * Z.min (current_alpha e) (rc_issuance_stop c);
}.

Lemma engine_new_ok n : constants_ok → (0 < n)%nat → Z.of_nat n < U16 → engine_ok (engine_new n).
Proof.
  intros Hc Hn Hu. split; simpl; try lia.
  - apply trs_new_consistent.
  - constructor.
  - exists []. by apply tracks_new.
  - pose proof (const_stop Hc). assert (supply (engine_new n) = 0) as -> by reflexivity. rewrite Z.min_l by lia. lia.
Qed.

Lemma issued_spec old new :
  constants_ok → 0 ≤ old ≤ new →
  0 ≤ reputation_issuance (rc_issuance c) (rc_issuance_stop c) old new
  ∧ rc_issuance c * Z.min old (rc_issuance_stop c) + reputation_issuance (rc_issuance c) (rc_issuance_stop c) old new
    = rc_issuance c * Z.min new (rc_issuance_stop c).
Proof.
  intros [Hi Hs Ht _ _] Ho. unfold reputation_issuance. case_decide as Hstop.
  - rewrite !Z.min_r by lia. lia.
  - rewrite (Z.min_l old), (Z.min_comm new) by lia.
    set (m := Z.min (rc_issuance_stop c) new). assert (old ≤ m ≤ rc_issuance_stop c) by lia.
    destruct (decide (rc_issuance c = 0)) as [H0|]; [rewrite H0; unfold wmul; rewrite Z.mul_0_r, Zmod_0_l; lia|].
    rewrite wsub_small, wmul_small by nia. nia.
Qed.

Lemma qtotal_nn (t : TotalReputationSet PublicKeyHash) : TrsCorrect.consistent t → 0 ≤ qtotal (queue t).
Proof. intros Ht. apply qtotal_nonneg, Ht. Qed.

Lemma liars_admissible (t : TotalReputationSet PublicKeyHash) (liars : list (PublicKeyHash * Z)) :
  constants_ok → TrsCorrect.consistent t → Forall (λ pl, 0 < pl.2 < U32) liars →
  requests_ok (get t) ((λ pl, (pl.1, penalize_factor powf (rc_penalization_factor c) pl.2)) <$> liars).
Proof.
  intros Hc Ht Hl. apply Forall_fmap, (Forall_impl _ _ _ Hl). intros [p n] Hn. cbn. unfold penalize_factor.
  apply f64_scale_le; [|by apply Hc]. rewrite (get_owed t p Ht).
  pose proof (owed_bounds p (queue t) (cons_positive t Ht)). pose proof (cons_total t Ht). unfold_moduli. lia.
Qed.

Lemma distribute_spec e expire_alpha bounty honests :
  TrsCorrect.consistent (trs e) → 0 ≤ bounty → qtotal (queue (trs e)) + bounty < U32 → Z.of_nat (length honests) < U32 →
  Forall (λ a, a ≤ expire_alpha) (queue (trs e)).*1 →
  ∃ e' rest, distribute e expire_alpha bounty honests = Some (e', rest) ∧ TrsCorrect.consistent (trs e')
    ∧ Forall (λ a, a ≤ expire_alpha) (queue (trs e')).*1 ∧ 0 ≤ rest
    ∧ qtotal (queue (trs e')) + rest = qtotal (queue (trs e)) + bounty
    ∧ ars e' = ars e ∧ current_alpha e' = current_alpha e.
Proof.
  intros Ht Hb Hsum Hn Hk. unfold distribute. rewrite decide_False by lia. set (n := Z.of_nat (length honests)) in *.
  case_decide as Hpos; [|by exists e, bounty].
  set (reward := bounty / n). assert (0 ≤ reward) as Hr by (apply Z.div_pos; lia).
  assert (reward * n ≤ bounty) as Hle by (unfold reward; pose proof (Z.mul_div_le bounty n ltac:(lia)); lia).
  assert (zsum ((λ p, (p, reward)) <$> honests).*2 = reward * n) as Hz.
  { rewrite <-list_fmap_compose. apply (zsum_const honests reward). }
  destruct (gain_outcome (trs e) expire_alpha ((λ p, (p, reward)) <$> honests) Ht) as (t & Hg & Hct & _ & Hq).
  { apply Forall_fmap, Forall_forall. by intros. }
  { rewrite Hz. lia. }
  { destruct (last (queue (trs e))) as [[max back]|] eqn:El; [|done].
    apply (proj1 (Forall_forall _ _) Hk). apply list_elem_of_fmap. exists (max, back). split; [done|]. by apply last_Some_elem_of. }
  rewrite Hg. eexists _, _. split; [done|]. cbn [trs set_trs ars current_alpha].
  assert (0 ≤ reward * n) by (apply Z.mul_nonneg_nonneg; lia). pose proof (qtotal_nn _ Ht).
  rewrite (wmul_small U32), wsub_small by lia. split_and!; [done| |lia|lia|done|done].
  eapply gain_keys; [exact Hg|done|done].
Qed.

Lemma update_ars_ok (a : ActiveReputationSet PublicKeyHash) log ids epoch :
  tracks a log →
  ∃ a', (∃ log', tracks a' log') ∧ (update a ids epoch = Ret a' tt ∨ ∃ err, update a ids epoch = Fail a' err).
Proof.
  intros Ha. destruct (decide (last_update a < epoch)) as [Hlt|Hge].
  - destruct (update_forward a log ids epoch Ha Hlt) as (a' & Hu & Ha' & _). exists a'. split; [by eexists|by left].
  - exists a. split; [by eexists|]. unfold update. rewrite decide_False by lia.
    case_decide; [by left|right; by eexists].
Qed.

Lemma unexpired_keys (P : Z → Prop) a (q : list (Z * gmap PublicKeyHash Z)) :
  Forall P q.*1 → Forall P (unexpired a q).*1.
Proof. rewrite !Forall_fmap, !Forall_forall. intros Hq x [_ Hx]%list_elem_of_filter. by apply Hq. Qed.

Lemma lower_total (t t' : TotalReputationSet PublicKeyHash) :
  TrsCorrect.consistent t → TrsCorrect.consistent t' → (∀ k, get t' k ≤ get t k) → qtotal (queue t') ≤ qtotal (queue t).
Proof.
  intros Ht Ht' Hle. rewrite <-(cache_total _ _ (cons_cache t' Ht')). apply msum_le_qtotal. intros k.
  rewrite <-(get_owed t k Ht). apply Hle.
Qed.

Lemma penalized_lower (t t' : TotalReputationSet PublicKeyHash) l :
  requests_ok (get t) l → (∀ id f, (id, f) ∈ l → get t' id = f (get t id)) →
  (∀ id, id ∉ l.*1 → get t' id = get t id) → ∀ k, get t' k ≤ get t k.
Proof.
  intros Hl Hin Hout k. destruct (decide (k ∈ l.*1)) as [Hk|Hk]; [|by rewrite Hout].
  apply list_elem_of_fmap in Hk as ([k' f] & -> & Hkf). cbn [fst]. rewrite (Hin _ _ Hkf).
  by apply (proj1 (Forall_forall _ _) Hl) in Hkf as [_ Hle].
Qed.

(** A block: the update succeeds and keeps the invariant. *)
Lemma update_reputation_spec e keys miner i epoch :
  constants_ok → engine_ok e → info_ok i → current_alpha e + alpha_diff i + rc_expire_alpha_diff c < U32 →
  ∃ e' keys', update_reputation powf c e keys miner i epoch = Some (e', keys') ∧ engine_ok e'
    ∧ current_alpha e' = current_alpha e + alpha_diff i.
Proof.
  intros Hc [Ht Hk [log Ha] Hal Hx Hsup] (Hd & Hsz & Hlies) Hu. unfold update_reputation.
  pose proof (const_expire Hc) as HD. rewrite (wadd_small U32 (current_alpha e)) by lia.
  set (new_alpha := current_alpha e + alpha_diff i) in *. set (results := map_to_list (result_count i)).
  rewrite separate_spec.
  set (honests := (filter _ results).*1). set (liars := _ <$> filter _ results).
  assert (NoDup results.*1) as Hnd by apply NoDup_fst_map_to_list.
  assert (NoDup liars.*1) as Hliars.
  { unfold liars. rewrite <-list_fmap_compose. by apply NoDup_filter_keys. }
  assert (Forall (λ pl, 0 < pl.2 < U32) liars) as Hlie.
  { apply Forall_fmap, Forall_forall. intros [p r] [Hr Hin]%list_elem_of_filter. cbn in *.
    apply elem_of_map_to_list in Hin. pose proof (Hlies p r Hin) as Hlr. cbn in Hlr. lia. }
  assert (Z.of_nat (length honests) < U32) as Hhon.
  { unfold honests. rewrite length_fmap. eapply Z.le_lt_trans; [apply Nat2Z.inj_le, length_filter|].
    unfold results. by rewrite length_map_to_list. }
  destruct (expire_outcome (trs e) (current_alpha e) Ht) as (t1 & -> & Hq1 & Ht1). cbv iota zeta.
  cbn [trs set_trs].
  destruct (penalize_outcome t1 ((λ pl, (pl.1, penalize_factor powf (rc_penalization_factor c) pl.2)) <$> liars) Ht1)
    as (t2 & -> & Ht2 & Hpin & Hpout & Hkeys & _); [by rewrite <-list_fmap_compose|by apply liars_admissible|].
  destruct (issued_spec (current_alpha e) new_alpha Hc) as [Hi0 Hi]; [unfold new_alpha; lia|].
  set (issued := reputation_issuance _ _ _ _) in *.
  unfold supply in Hsup. rewrite get_total_sum_qtotal in Hsup by done. rewrite <-Hq1.
  pose proof (qtotal_nn _ Ht1) as N1. pose proof (qtotal_nn _ Ht2) as N2.
  assert (qtotal (queue t1) ≤ qtotal (queue (trs e))) as L1 by (rewrite Hq1; apply qtotal_unexpired, Ht).
  assert (qtotal (queue t2) ≤ qtotal (queue t1)) as L2 
    by (apply lower_total; [done..|]; eapply penalized_lower; [by apply liars_admissible|exact Hpin|exact Hpout]).
  assert (rc_issuance c * Z.min new_alpha (rc_issuance_stop c) < U32) as Htot.
  { pose proof (const_total Hc). pose proof (const_issuance Hc). nia. }
  rewrite (wadd_small U32 new_alpha) by (unfold new_alpha; lia).
  rewrite (wadd_small U32 (extra_reputation e)) by lia. rewrite (wadd_small U32 _ issued) by lia.
  rewrite (wadd_small U32) by lia.
  match goal with |- context [distribute _ _ ?b honests] => set (bounty := b) end.
  destruct (distribute_spec (set_trs (set_trs e t1) t2) (new_alpha + rc_expire_alpha_diff c) bounty honests)
    as (e3 & rest & -> & Ht3 & Hk3 & Hrest & Hsum & Ha3 & Hal3); cbn [trs set_trs].
  { done. } { unfold bounty. lia. } { unfold bounty. lia. } { done. }
  { rewrite Hkeys, Hq1. apply unexpired_keys. eapply Forall_impl; [exact Hk|]. simpl. unfold new_alpha. lia. }
  cbn [mbind option_bind]. cbn [trs set_trs ars] in Hsum, Ha3. unfold bounty in Hsum. clear bounty.
  assert (ars (set_extra e3 rest) = ars e) as Hars by (simpl; by rewrite Ha3).
  rewrite Hars.
  destruct (update_ars_ok (ars e) log (results.*1 ++ [miner]) epoch Ha) as (a' & Ha' & Hup).
  assert (∀ keys', ∃ e' keys'', Some (set_current_alpha (set_ars (set_extra e3 rest) a') new_alpha, keys' : AltKeys) = Some (e', keys'')
            ∧ engine_ok e' ∧ current_alpha e' = new_alpha) as Hfin.
  { intros keys'. eexists _, _. split; [done|].
    assert (∀ e4, trs e4 = trs e3 → ars e4 = a' → extra_reputation e4 = rest → current_alpha e4 = new_alpha → engine_ok e4) as Hok.
    { intros e4 E1 E2 E3 E4. split; rewrite ?E1, ?E2, ?E3, ?E4; try done; [unfold new_alpha; lia|].
      unfold supply. rewrite E1, E3, get_total_sum_qtotal by done. lia. }
    unfold set_current_alpha. case_decide as Heq; [|split; [by apply Hok|done]].
    split; [|done]. by apply Hok. }
  destruct Hup as [-> | [err ->]]; apply Hfin.
Qed.

(** A chain of blocks: the miner, the results of the tallies and the epoch. *)
Definition run_blocks (e : ReputationEngine) (keys : AltKeys) (blocks : list (PublicKeyHash * ReputationInfo * Z)) :
    option (ReputationEngine * AltKeys) :=
  foldl (λ acc b, '(e, keys) ← acc; update_reputation powf c e keys b.1.1 b.1.2 b.2) (Some (e, keys)) blocks.
Definition acts (blocks : list (PublicKeyHash * ReputationInfo * Z)) : Z := zsum ((λ b, alpha_diff b.1.2) <$> blocks).

Lemma run_blocks_ok blocks : ∀ e keys,
  constants_ok → engine_ok e →
  Forall (λ b, info_ok b.1.2) blocks →
  current_alpha e + acts blocks + rc_expire_alpha_diff c < U32 →
  ∃ e' keys', run_blocks e keys blocks = Some (e', keys') ∧ engine_ok e' ∧ current_alpha e' = current_alpha e + acts blocks.
Proof.
  induction blocks as [|[[m i] ep] blocks IH]; intros e keys Hc He Hb Hu; [exists e, keys; split_and!; [done..|unfold acts; simpl; lia]|].
  apply Forall_cons in Hb as [Hd Hb]. cbn [fst snd] in Hd. unfold acts in *. rewrite zsum_cons in *. cbn [fst snd] in *.
  assert (0 ≤ zsum ((λ b : PublicKeyHash * ReputationInfo * Z, alpha_diff b.1.2) <$> blocks)) as Hnn.
  { apply zsum_nonneg, Forall_fmap. eapply Forall_impl; [exact Hb|]. by intros b (H & _). }
  destruct (update_reputation_spec e keys m i ep Hc He Hd) as (e1 & keys1 & Hup & He1 & Ha1); [lia|].
  destruct (IH e1 keys1 Hc He1 Hb) as (e2 & keys2 & Hrun & He2 & Ha2); [lia|].
  exists e2, keys2. split_and!; [|done|lia]. unfold run_blocks. cbn [foldl fst snd mbind option_bind]. rewrite Hup. exact Hrun.
Qed.

(** C32. Over any chain of blocks the update of the reputation never panics, and
    the reputation of all identities plus the remainder kept for the next epoch is
    exactly what was issued: the issuance times the witnessing acts counted until
    the end of the issuance.  Penalties and expirations only move reputation. *)
Theorem reputation_supply_exact n keys blocks :
  constants_ok → (0 < n)%nat → Z.of_nat n < U16 →
  Forall (λ b, info_ok b.1.2) blocks →
  acts blocks + rc_expire_alpha_diff c < U32 →
  ∃ e keys', run_blocks (engine_new n) keys blocks = Some (e, keys')
    ∧ current_alpha e = acts blocks
    ∧ get_total_sum (trs e) + extra_reputation e = rc_issuance c * Z.min (acts blocks) (rc_issuance_stop c)
    ∧ (∀ p, 0 ≤ get (trs e) p) ∧ 0 ≤ extra_reputation e.
Proof.
  intros Hc Hn Hu Hb Ha. destruct (run_blocks_ok blocks (engine_new n) keys Hc) as (e & keys' & Hr & He & Hal);
    [by apply engine_new_ok|done|simpl; lia|].
  change (current_alpha e = 0 + acts blocks) in Hal. rewrite Z.add_0_l in Hal. exists e, keys'. rewrite <-Hal. split_and!; [done..|apply He| |apply He].
  intros p. rewrite (get_owed _ p (ok_trs e He)). apply owed_bounds, (ok_trs e He).
Qed.
End supply.

(** ** Concrete engines *)

(** [f64::powf] at the default penalization factor, one half, and an integer
    exponent: a power of two, exact down to the least subnormal number, and zero
    or infinite out of the range. *)
Definition f64_to_int (x : f64) : Z :=
  match x with
  | S754_finite s m e => let n := if decide (0 ≤ e) then Zpos m * 2 ^ e else Zpos m / 2 ^ (- e) in if s then - n else n
  | _ => 0
  end.
Definition half_powf (_ y : f64) : f64 :=
  let n := f64_to_int y in
  if decide (1074 < n) then S754_zero false
  else if decide (n < -1023) then S754_infinity false
  else binary_normalize 53 1024 1 (- n) false.
Example half_powf_lies : half_powf f64_one (f64_of 3) = f64_div f64_one (f64_of 8)
  ∧ half_powf f64_one (f64_of (-1)) = f64_of 2 ∧ half_powf f64_one (f64_of 1074) = S754_finite false 1 (-1074).
Proof. by vm_compute. Qed.

Definition unit_interval_b (x : f64) : bool :=
  match x with
  | S754_zero _ => true
  | S754_finite false m e => bool_decide (e ≤ 0) && bool_decide (Zpos m ≤ 2 ^ (- e))
  | _ => false
  end.
Lemma unit_interval_b_spec x : unit_interval_b x = true → unit_interval x.
Proof. destruct x as [| | |[] m e]; try done. simpl. by intros [?%bool_decide_eq_true ?%bool_decide_eq_true]%andb_true_iff. Qed.

Lemma f64_to_int_of n : 0 < n < 2 ^ 53 → f64_to_int (f64_of n) = n.
Proof.
  intros Hn. destruct (f64_of_exact n Hn) as (m & e & -> & He & Hm & _). simpl. rewrite Hm.
  case_decide; [by replace e with 0 by lia; rewrite !Z.mul_1_r|]. apply Z.div_mul. pose proof (Z.pow_pos_nonneg 2 (- e)). lia.
Qed.

Definition demo_constants : ReputationConstants := MkRepConstants 2 1000 (f64_div f64_one (f64_of 2)) 10.
Lemma demo_constants_ok : constants_ok half_powf demo_constants.
Proof.
  split; try done. intros n Hn. destruct (decide (n ≤ 1074)) as [Hle|Hgt].
  - apply unit_interval_b_spec.
    assert (Forall (λ k, unit_interval_b (half_powf (rc_penalization_factor demo_constants) (f64_of (Z.of_nat k))) = true)
              (seq 1 1074)) as Hall by (apply (bool_decide_unpack _); vm_compute; reflexivity).
    rewrite Forall_forall in Hall. rewrite <-(Z2Nat.id n) by lia. apply Hall, elem_of_seq. lia.
  - unfold half_powf. rewrite f64_to_int_of by (unfold_moduli; lia). by rewrite decide_True by lia.
Qed.
Definition demo_blocks : list (PublicKeyHash * ReputationInfo * Z) :=
  [([1], MkInfo 3 {[ [2] := MkResult 1 0 0; [3] := MkResult 1 0 0 ]}, 1);
   ([2], MkInfo 5 {[ [3] := MkResult 0 1 0; [4] := MkResult 1 0 1 ]}, 2)].

Lemma threshold_factor_enough_witness :
  sorted_reps [50; 20; 15; 15] ∧ ∃ f, internal_threshold_factor 3 100 [50; 20; 15; 15] = Some f
    ∧ (f = U32 - 1 ∨ 300 ≤ expected_witnesses 100 f [50; 20; 15; 15]).
Proof.
  assert (sorted_reps [50; 20; 15; 15]) as Hs by (split; repeat constructor; lia). split; [exact Hs|].
  destruct (threshold_factor_enough 3 [50; 20; 15; 15]) as (f & Hf & _ & Hr & _); [unfold_moduli; lia|exact Hs|done|].
  exists f. split; [exact Hf|exact Hr].
Defined.

Lemma cached_queries_exact_witness :
  rtc (engine_step id) (engine_new 5) (total_active_reputation id (engine_new 5)).1
  ∧ (total_active_reputation id (total_active_reputation id (engine_new 5)).1).2 = 0.
Proof.
  assert (rtc (engine_step id) (engine_new 5) (total_active_reputation id (engine_new 5)).1) as Hr
    by (apply rtc_once, step_total).
  split; [exact Hr|]. exact (proj1 (cached_queries_exact id 5 _ Hr)).
Defined.

Lemma reputation_supply_exact_witness :
  ∃ e keys, run_blocks half_powf demo_constants (engine_new 5) ∅ demo_blocks = Some (e, keys)
    ∧ get_total_sum (trs e) + extra_reputation e = 16.
Proof.
  destruct (reputation_supply_exact half_powf demo_constants 5 ∅ demo_blocks demo_constants_ok)
    as (e & keys & Hr & _ & Hs & _); [lia|done| |done|].
  { repeat (apply Forall_cons; split); [split_and!; [done|done|by apply (bool_decide_unpack _); vm_compute]..|constructor]. }
  exists e, keys. split; [exact Hr|exact Hs].
Defined.

Definition demo_set : TotalReputationSet PublicKeyHash :=
  match gain trs_new 10 [([2], 60); ([3], 30); ([4], 10)] with Ret t _ => t | _ => trs_new end.
Lemma trapezoid_conserves_witness :
  (trapezoidal_eligibility [[2]; [3]; [4]] demo_set).2 = 100
  ∧ msum id (trapezoidal_eligibility [[2]; [3]; [4]] demo_set).1 mod U32 = 100.
Proof.
  assert (∀ p, 0 ≤ get demo_set p) as Hp.
  { intros p. unfold get. destruct (Trs.map demo_set !! p) as [v|] eqn:Hv; [|done]. simpl.
    assert (map_Forall (λ _ v, 0 ≤ v) (Trs.map demo_set)) as Hall by (apply map_Forall_to_list; vm_compute; repeat constructor; done).
    exact (Hall p v Hv). }
  pose proof (trapezoid_conserves [[2]; [3]; [4]] demo_set) as H.
  destruct (trapezoidal_eligibility [[2]; [3]; [4]] demo_set) as [hm total] eqn:E.
  destruct H as (H1 & _ & H2 & _); [by apply (bool_decide_unpack _)|exact Hp|done|done|].
  cbn [fst snd]. rewrite H1 in *. split; [vm_compute; reflexivity|exact H2].
Defined.
