(* ===== verification/Eligibility.v ===== *)
(** * Eligibility for mining and witnessing

    Models validations/src/eligibility/current.rs (eligibility by stake, protocol
    2.0), validations/src/eligibility/legacy.rs (target hashes by reputation and
    the slots of block candidates), and the comparison of block candidates of
    validations/src/validations.rs.  The probabilities that some of these functions
    also return are computed with doubles, as in the code. *)

From stdpp Require Import base tactics numbers list sorting gmap.
From Stdlib Require Import ZArith Lia.
From S2P Require Import Prelude Stake Stakes Hashes Superblock Versioning Tapi Float RepEngine.
Local Open Scope Z_scope.
Local Open Scope rust_scope.

(** ** Eligibility by stake *)

Inductive IneligibilityReason := InsufficientPower | NotStaking.
Inductive Eligible := EligibleYes | EligibleNo (reason : IneligibilityReason).
#[export] Instance IneligibilityReason_eq_dec : EqDecision IneligibilityReason.
Proof. solve_decision. Defined.
#[export] Instance Eligible_eq_dec : EqDecision Eligible.
Proof. solve_decision. Defined.

(** [u64::BITS - x.leading_zeros()]. *)
Definition bit_length (x : Z) : Z := if decide (x = 0) then 0 else Z.log2 x + 1.

Section by_stake.
Context `{Countable Address, !OrdType Address}.
Context (UNIT : Z).

Definition mining_replication_factor (st : Stakes (Address:=Address)) (replication_factor : Z) : Z :=
  let max_replication_factor := Z.of_nat (stakes_count st) * 2 / 3 in
  Z.min replication_factor (if decide (max_replication_factor < U16) then max_replication_factor else U16 - 1).

Definition mining_eligibility (st : Stakes (Address:=Address)) (validator : Address) (epoch replication_factor : Z) :
    Eligible :=
  let rf := mining_replication_factor st replication_factor in
  if decide (Exists (λ kp, Stake.validator kp.1 = validator) (take (Z.to_nat rf) (by_rank UNIT st Mining epoch)))
  then EligibleYes else EligibleNo InsufficientPower.
Definition mining_eligibility_bool st validator epoch rf : bool :=
  bool_decide (mining_eligibility st validator epoch rf = EligibleYes).

(** The first 32 bits of the target hash of a witness. *)
Definition witnessing_target (power threshold_power max_power round max_rounds : Z) : Z :=
  let dividend := wmul U64 max_rounds (bit_length power) in
  let divisor := sat_add U32 (sat_mul U32 round (bit_length threshold_power))
                   (sat_mul U32 (bit_length max_power) (wsub U16 max_rounds round)) in
  if decide (divisor = 0) then U32 - 1
  else Z.shiftr (sat_mul U64 ((U64 - 1) / divisor) dividend) 32.

Definition witnessing_probability (power threshold_power max_power round max_rounds : Z) : f64 :=
  let dividend := wmul U64 max_rounds (bit_length power) in
  let divisor := sat_add U32 (sat_mul U32 round (bit_length threshold_power))
                   (sat_mul U32 (bit_length max_power) (wsub U16 max_rounds round)) in
  if decide (divisor = 0) then f64_one else f64_div (f64_of dividend) (f64_of divisor).

(** The power that must be exceeded: [rank.nth(rf - 2)] after the first entry of
    the ranking was taken; the subtraction wraps. *)
Definition threshold_power (rank : list (StakeKey Address * Z)) (witnesses round : Z) : Z :=
  let rf := wmul U64 (2 ^ round mod U64) witnesses in
  let i := wsub U64 rf 2 in
  if decide (i < Z.of_nat (length (tail rank))) then default 0 (snd <$> tail rank !! Z.to_nat i) else 0.

Definition witnessing_eligibility (st : Stakes (Address:=Address)) (validator : Address)
    (epoch witnesses round max_rounds : Z) : result (StakesError Address) (Eligible * Hash * f64) :=
  match query_power UNIT st validator Witnessing epoch with
  | Panic => Panic
  | Err (ValidatorNotFound _) => Ok (EligibleNo NotStaking, Hash_min, f64_of 0)
  | Err e => Err e
  | Ok power =>
      if decide (power = 0) then Ok (EligibleNo InsufficientPower, Hash_min, f64_of 0)
      else
        let rank := by_rank UNIT st Witnessing epoch in
        let max_power := default 0 (snd <$> head rank) in
        let threshold := threshold_power rank witnesses round in
        if decide (power ≤ threshold) then Ok (EligibleNo InsufficientPower, Hash_min, f64_of 0)
        else Ok (EligibleYes, with_first_u32 (witnessing_target power threshold max_power round max_rounds),
                 witnessing_probability power threshold max_power round max_rounds)
  end.
Definition witnessing_eligibility_bool st validator epoch witnesses round max_rounds : bool :=
  match witnessing_eligibility st validator epoch witnesses round max_rounds with
  | Ok (EligibleYes, _, _) => true
  | _ => false
  end.
End by_stake.

(** ** Eligibility by reputation *)

(** [f64::from(target) / f64::from(u32::MAX)]. *)
Definition target_probability (target : Z) : f64 := f64_div (f64_of target) (f64_of (U32 - 1)).

Definition randpoe_target (total_identities replication_factor block_epoch minimum_difficulty
    epochs_with_minimum_difficulty : Z) (active_wips : ActiveWips) : Z :=
  let minimum_difficulty := Z.max 1 minimum_difficulty in
  let target :=
    if decide (block_epoch ≤ epochs_with_minimum_difficulty) then (U64 - 1) / minimum_difficulty
    else if wips_0009_0011_0012 active_wips then
      sat_mul U64 ((U64 - 1) / Z.max total_identities minimum_difficulty) replication_factor
    else sat_mul U64 ((U64 - 1) / Z.max 1 total_identities) replication_factor in
  Z.shiftr target 32.
Definition calculate_randpoe_threshold (total_identities replication_factor block_epoch minimum_difficulty
    epochs_with_minimum_difficulty : Z) (active_wips : ActiveWips) : Hash * f64 :=
  let target := randpoe_target total_identities replication_factor block_epoch minimum_difficulty
                  epochs_with_minimum_difficulty active_wips in
  (with_first_u32 target, target_probability target).

Section by_reputation.
Context (calculate_sha256 : list Z → Hash).

(** [calculate_reppoe_threshold]; [None] is a division by zero. *)
Definition calculate_reppoe_threshold (rep_eng : ReputationEngine) (p : PublicKeyHash) (num_witnesses minimum_difficulty : Z)
    (active_wips : ActiveWips) : option (ReputationEngine * (Hash * f64)) :=
  let '(rep_eng, total) := total_active_reputation calculate_sha256 rep_eng in
  let total_active_rep := Z.max total 1 in
  let '(rep_eng, eligibility) := get_eligibility calculate_sha256 rep_eng p in
  let my_eligibility := eligibility + 1 in
  let max := U64 - 1 in
  '(rep_eng, target) ←
    (if wip0016 active_wips then
       Some (rep_eng, sat_mul U64 (sat_mul U64 (max / Z.max total_active_rep minimum_difficulty) my_eligibility) num_witnesses)
     else if third_hard_fork active_wips then
       '(rep_eng, factor) ← threshold_factor calculate_sha256 rep_eng num_witnesses;
       if decide (minimum_difficulty = 0) then None
       else Some (rep_eng, sat_mul U64 (Z.min (max / minimum_difficulty) (sat_mul U64 (max / total_active_rep) my_eligibility)) factor)
     else
       '(rep_eng, factor) ← threshold_factor calculate_sha256 rep_eng num_witnesses;
       Some (rep_eng, sat_mul U64 (sat_mul U64 (max / total_active_rep) my_eligibility) factor));
  let target := Z.shiftr target 32 in
  Some (rep_eng, (with_first_u32 target, target_probability target)).
End by_reputation.

(** ** Slots of block candidates *)

Record VrfSlots := MkSlots { target_hashes : list Hash }.
Definition slots_from_rf (total_identities replication_factor backup_factor block_epoch minimum_difficulty
    epochs_with_minimum_difficulty : Z) (active_wips : ActiveWips) : VrfSlots :=
  MkSlots ((λ rf, (calculate_randpoe_threshold total_identities rf block_epoch minimum_difficulty
                     epochs_with_minimum_difficulty active_wips).1)
             <$> seqZ replication_factor (backup_factor - replication_factor + 1)).
(** [VrfSlots::slot]: the first target that is not smaller than the hash. *)
Definition slot (s : VrfSlots) (h : Hash) : Z :=
  match list_find (bytes_le h) (target_hashes s) with
  | Some (i, _) => Z.of_nat i
  | None => Z.of_nat (length (target_hashes s))
  end.

(** ** Comparison of block candidates *)

Record Candidate := MkCandidate { b_hash : Hash; b_rep : Z; b_vrf_hash : Hash; b_is_active : bool; b_power : Z }.

(** [Ordering::then]. *)
Definition then_cmp (c d : comparison) : comparison := match c with Eq => d | Lt => Lt | Gt => Gt end.
(** True is better than false. *)
Definition better_if (x y : bool) : comparison :=
  match x, y with true, false => Gt | false, true => Lt | _, _ => Eq end.

Definition compare_block_candidates (b1 b2 : Candidate) (s : VrfSlots) (protocol_version : ProtocolVersion) : comparison :=
  if decide (protocol_version = V2_0) then
    match b_power b1 ?= b_power b2 with
    | Eq => then_cmp (CompOpp (bytes_cmp (b_vrf_hash b1) (b_vrf_hash b2))) (CompOpp (bytes_cmp (b_hash b1) (b_hash b2)))
    | ord => ord
    end
  else
    then_cmp (then_cmp (then_cmp (then_cmp
      (CompOpp (slot s (b_vrf_hash b1) ?= slot s (b_vrf_hash b2)))
      (better_if (bool_decide (b_rep b1 > 0)) (bool_decide (b_rep b2 > 0))))
      (better_if (b_is_active b1) (b_is_active b2)))
      (CompOpp (bytes_cmp (b_vrf_hash b1) (b_vrf_hash b2))))
      (CompOpp (bytes_cmp (b_hash b1) (b_hash b2))).
