(* ===== verification/EligibilityCorrect.v ===== *)
(** * Correctness of eligibility and of the choice of blocks

    Who may mine and witness under version 2.0 in terms of the stakes, the slots of
    block candidates under the earlier versions, and that the comparison of block
    candidates is a total order, so that all nodes choose the same block. *)

From stdpp Require Import base tactics numbers list sorting gmap.
From Stdlib Require Import ZArith Lia.
From S2P Require Import Prelude Stake Stakes StakesCorrect Hashes Superblock Versioning Tapi Float RepEngine Eligibility.
Local Open Scope Z_scope.
Local Open Scope rust_scope.

(** ** The order of target hashes *)

Lemma bytes_le_be n : ∀ x y s t,
  0 ≤ x < 256 ^ Z.of_nat n → 0 ≤ y < 256 ^ Z.of_nat n →
  bytes_le (to_be_bytes n x ++ s) (to_be_bytes n y ++ t) ↔ x < y ∨ x = y ∧ bytes_le s t.
Proof.
  induction n as [|n IH]; intros x y s t Hx Hy.
  { rewrite Z.pow_0_r in Hx, Hy. assert (x = 0 ∧ y = 0) as [-> ->] by lia. simpl. naive_solver lia. }
  cbn [to_be_bytes]. rewrite <-!app_assoc. cbn [app]. rewrite Nat2Z.inj_succ, Z.pow_succ_r in Hx, Hy by lia.
  pose proof (Z.div_mod x 256 ltac:(lia)) as Dx. pose proof (Z.div_mod y 256 ltac:(lia)) as Dy.
  pose proof (Z.mod_pos_bound x 256 ltac:(lia)). pose proof (Z.mod_pos_bound y 256 ltac:(lia)).
  rewrite IH by (split; [apply Z.div_pos; lia|apply Z.div_lt_upper_bound; lia]). cbn [bytes_le].
  destruct (decide (x = y)) as [->|Hne]; [naive_solver lia|].
  split.
  - intros [?|[? [?|[? ?]]]]; left; lia.
  - intros [Hlt|[? ?]]; [|lia]. destruct (decide (x / 256 < y / 256)); [by left|right]. split; [lia|]. left. lia.
Qed.

Lemma bytes_le_refl (a : list Z) : bytes_le a a.
Proof. induction a; simpl; [done|by right]. Qed.

Lemma first_u32_le x y :
  0 ≤ x < U32 → 0 ≤ y < U32 → bytes_le (with_first_u32 x) (with_first_u32 y) ↔ x ≤ y.
Proof.
  intros Hx Hy. unfold with_first_u32. rewrite bytes_le_be by (change (256 ^ Z.of_nat 4) with U32; done).
  pose proof (bytes_le_refl (replicate 28 255)). split; [lia|]. intros ?. destruct (decide (x = y)); [by right|left; lia].
Qed.

Lemma shiftr32_fits x : 0 ≤ x < U64 → 0 ≤ Z.shiftr x 32 < U32.
Proof.
  intros Hx. rewrite Z.shiftr_div_pow2 by lia. split; [apply Z.div_pos; lia|].
  apply Z.div_lt_upper_bound; [lia|]. unfold_moduli. lia.
Qed.
Lemma shiftr32_mono x y : x ≤ y → Z.shiftr x 32 ≤ Z.shiftr y 32.
Proof. intros. rewrite !Z.shiftr_div_pow2 by lia. apply Z.div_le_mono; lia. Qed.
Lemma sat_mul_mono m a b b' : 0 ≤ a → b ≤ b' → sat_mul m a b ≤ sat_mul m a b'.
Proof. intros. unfold sat_mul. nia. Qed.
Lemma sat_mul_fits m a b : 0 < m → 0 ≤ a → 0 ≤ b → 0 ≤ sat_mul m a b < m.
Proof. intros. unfold sat_mul. nia. Qed.
#[export] Hint Resolve shiftr32_fits sat_mul_fits : machine.

(** ** Positions in a ranking *)

Lemma filter_all_in {A} (P : A → Prop) `{!∀ x, Decision (P x)} (l : list A) : (∀ x, x ∈ l → P x) → filter P l = l.
Proof.
  induction l as [|x l IH]; intros Hl; [done|]. rewrite filter_cons, decide_True by (apply Hl; by left).
  f_equal. apply IH. intros y Hy. apply Hl. by right.
Qed.
Lemma filter_none_in {A} (P : A → Prop) `{!∀ x, Decision (P x)} (l : list A) : (∀ x, x ∈ l → ¬ P x) → filter P l = [].
Proof.
  induction l as [|x l IH]; intros Hl; [done|]. rewrite filter_cons, decide_False by (apply Hl; by left).
  apply IH. intros y Hy. apply Hl. by right.
Qed.

Lemma sorted_position {A} `{EqDecision A} (R : relation A) `{!RelDecision R, !AntiSymm (=) R} (l : list A) i x :
  StronglySorted R l → NoDup l → l !! i = Some x → length (filter (λ y, R y x ∧ y ≠ x) l) = i.
Proof.
  intros Hs Hn Hi. rewrite <-(take_drop_middle l i x Hi) in Hs, Hn |- *.
  assert (i = length (take i l)) as Hlen.
  { rewrite length_take. apply lookup_lt_Some in Hi. lia. }
  rewrite Hlen at 3. clear Hlen Hi. set (l1 := take i l) in *. set (l2 := drop (S i) l) in *. clearbody l1 l2. clear l i.
  apply NoDup_app in Hn as (_ & Hd & Hn2). apply NoDup_cons in Hn2 as [Hx _].
  apply StronglySorted_app in Hs as (Hb & _ & Hs2). inversion Hs2 as [|? ? _ Hle]; subst.
  rewrite filter_app, filter_cons, decide_False by (by intros [_ ?]). rewrite length_app.
  assert (filter (λ y, R y x ∧ y ≠ x) l2 = []) as ->.
  { apply filter_none_in. intros y Hy [Hyx Hne]. apply Hne, (anti_symm R); [done|].
    by apply (proj1 (Forall_forall _ _) Hle). }
  assert (filter (λ y, R y x ∧ y ≠ x) l1 = l1) as ->; [|simpl; lia].
  apply filter_all_in. intros y Hy. split; [apply Hb; [done|by left]|]. intros ->. apply (Hd x Hy). by left.
Qed.

Lemma sorted_lookup_lt {A} (R : relation A) (l : list A) : ∀ i j x y,
  StronglySorted R l → l !! i = Some x → l !! j = Some y → (i < j)%nat → R x y.
Proof.
  induction l as [|z l IH]; intros i j x y Hs Hx Hy Hlt; [done|].
  apply StronglySorted_inv in Hs as [Hs' Hz]. destruct i as [|i], j as [|j]; [lia| |lia|].
  - injection Hx as ->. change (l !! j = Some y) in Hy. apply list_elem_of_lookup_2 in Hy. by apply (proj1 (Forall_forall _ _) Hz).
  - apply (IH i j); [done..|lia].
Qed.

(** ** Eligibility by stake *)

Section by_stake.
Context `{Countable Address, !OrdType Address}.
Context (UNIT : Z).
Implicit Types st : Stakes (Address:=Address).

(** The entries with their power, and how many of them rank above one. *)
Definition powers st (c : Capability) (t : Z) : list (StakeKey Address * Z) :=
  (λ ks, (ks.1, power UNIT ks.2 c t)) <$> map_to_list (view st).
Definition outranked st (c : Capability) (t : Z) (kp : StakeKey Address * Z) : nat :=
  length (filter (λ kp', rank_le kp kp' ∧ kp' ≠ kp) (powers st c t)).

Lemma by_rank_NoDup st c t : wf st → NoDup (by_rank UNIT st c t).
Proof. intros Hwf. eapply NoDup_fmap_1. by apply by_rank_keys_NoDup. Qed.

Lemma rank_position_exact st c t i kp :
  wf st → by_rank UNIT st c t !! i = Some kp → outranked st c t kp = i.
Proof.
  intros Hwf Hi.
  assert (AntiSymm (=) (flip (rank_le (Address:=Address)))) by (intros x y ??; by apply (anti_symm rank_le)).
  rewrite <-(sorted_position (flip rank_le) _ i kp (by_rank_sorted UNIT st c t) (by_rank_NoDup st c t Hwf) Hi).
  unfold outranked, powers. rewrite <-(by_rank_perm UNIT st c t Hwf). done.
Qed.

Lemma stakes_count_view st : wf st → stakes_count st = size (view st).
Proof.
  intros Hwf. unfold stakes_count. rewrite <-!length_map_to_list.
  rewrite <-(view_entries st Hwf), length_fmap, btree_entries_perm. done.
Qed.

(** Under version 2.0 a validator may mine exactly when one of its entries is
    outranked, by power and then by key, by fewer entries than the replication
    factor, which is capped to two thirds of the number of entries. *)
Theorem mining_eligibility_exact st v t rf :
  wf st →
  mining_eligibility UNIT st v t rf = EligibleYes
  ↔ ∃ k s, view st !! k = Some s ∧ Stake.validator k = v
    ∧ Z.of_nat (outranked st Mining t (k, power UNIT s Mining t))
      < Z.min rf (Z.min (U16 - 1) (Z.of_nat (size (view st)) * 2 / 3)).
Proof.
  intros Hwf. unfold mining_eligibility.
  assert (mining_replication_factor st rf = Z.min rf (Z.min (U16 - 1) (Z.of_nat (size (view st)) * 2 / 3))) as Hm.
  { unfold mining_replication_factor. rewrite stakes_count_view by done. case_decide; lia. }
  rewrite <-Hm. set (m := mining_replication_factor st rf). clearbody m.
  assert (∀ P : Prop, (Exists (λ kp, Stake.validator kp.1 = v) (take (Z.to_nat m) (by_rank UNIT st Mining t)) ↔ P) →
    (if decide (Exists (λ kp, Stake.validator kp.1 = v) (take (Z.to_nat m) (by_rank UNIT st Mining t)))
     then EligibleYes else EligibleNo InsufficientPower) = EligibleYes ↔ P) as Hdec by (intros P; case_decide; naive_solver).
  apply Hdec. rewrite Exists_exists. split.
  - intros ([k p] & Hin & Hv). apply list_elem_of_lookup in Hin as [i Hi].
    apply lookup_take_Some in Hi as [Hi Hlt]. pose proof (rank_position_exact st Mining t i _ Hwf Hi) as Hpos.
    apply list_elem_of_lookup_2, by_rank_elem in Hi as (s & Hs & ->); [|done].
    exists k, s. split_and!; [done..|]. rewrite Hpos. lia.
  - intros (k & s & Hs & Hv & Hlt). exists (k, power UNIT s Mining t). split; [|done].
    assert ((k, power UNIT s Mining t) ∈ by_rank UNIT st Mining t) as Hin by (apply by_rank_elem; [done|]; by exists s).
    apply list_elem_of_lookup in Hin as [i Hi]. rewrite (rank_position_exact st Mining t i _ Hwf Hi) in Hlt.
    apply list_elem_of_lookup. exists i. rewrite lookup_take_lt by lia. done.
Qed.

Lemma zmax_elem l : 0 < zmax l → zmax l ∈ l.
Proof.
  induction l as [|x l IH]; simpl; [lia|]. intros Hp. destruct (Z.max_spec x (zmax l)) as [[? Hm]|[? Hm]]; rewrite Hm in *.
  - right. apply IH. lia.
  - by left.
Qed.

Lemma bit_length_mono x y : 0 < x ≤ y → bit_length x ≤ bit_length y.
Proof. intros Hxy. unfold bit_length. rewrite !decide_False by lia. pose proof (Z.log2_le_mono x y). lia. Qed.
Lemma bit_length_small x : 0 ≤ x < U64 → 0 ≤ bit_length x ≤ 64.
Proof.
  intros Hx. unfold bit_length. case_decide; [lia|]. pose proof (Z.log2_nonneg x).
  assert (Z.log2 x < 64) by (apply Z.log2_lt_pow2; [lia|apply Hx]). lia.
Qed.

Lemma witnessing_target_mono p1 p2 thr mx round mr :
  0 < p1 ≤ p2 → p2 < U64 → 0 ≤ thr → 0 ≤ mx → 0 ≤ round → 0 ≤ mr < U16 →
  0 ≤ witnessing_target p1 thr mx round mr < U32
  ∧ witnessing_target p1 thr mx round mr ≤ witnessing_target p2 thr mx round mr < U32.
Proof.
  intros Hp Hu Ht Hx Hr Hmr. unfold witnessing_target.
  pose proof (bit_length_mono p1 p2 Hp). pose proof (bit_length_small p1 ltac:(lia)). pose proof (bit_length_small p2 ltac:(lia)).
  assert (∀ x, 0 ≤ x → 0 ≤ bit_length x) as Hbl by (intros x ?; unfold bit_length; case_decide; [lia|]; pose proof (Z.log2_nonneg x); lia).
  set (divisor := sat_add _ _ _).
  assert (0 ≤ divisor) as Hd.
  { unfold divisor, sat_add, sat_mul. pose proof (Hbl thr Ht). pose proof (Hbl mx Hx).
    pose proof (Z.mod_pos_bound (mr - round) U16 ltac:(unfold_moduli; lia)). unfold wsub. unfold_moduli. nia. }
  case_decide; [unfold_moduli; lia|]. rewrite !wmul_small by (unfold_moduli; nia).
  assert (0 ≤ (U64 - 1) / divisor) as Hq by (apply Z.div_pos; unfold_moduli; lia).
  assert (∀ b, 0 ≤ b → 0 ≤ Z.shiftr (sat_mul U64 ((U64 - 1) / divisor) b) 32 < U32) as Hfit
    by (intros b Hb; auto with machine).
  split; [apply Hfit; nia|]. split; [|apply Hfit; nia].
  apply shiftr32_mono, sat_mul_mono; [done|nia].
Qed.

Lemma threshold_nonneg (rank : list (StakeKey Address * Z)) w r :
  Forall (λ kp, 0 ≤ kp.2) rank → 0 ≤ threshold_power rank w r.
Proof.
  intros Hr. unfold threshold_power. case_decide; [|lia]. destruct (tail rank !! _) as [kp|] eqn:Hl; [|done]. simpl.
  apply list_elem_of_lookup_2 in Hl. apply (proj1 (Forall_forall _ _) Hr). destruct rank; [by apply elem_of_nil in Hl|by right].
Qed.

Lemma power_fits s c t : 0 ≤ power UNIT s c t < U64.
Proof. unfold power, wit_mul_epoch. apply wmul_fits. unfold_moduli. lia. Qed.
Lemma by_rank_nonneg st c t : Forall (λ kp, 0 ≤ kp.2) (by_rank UNIT st c t).
Proof.
  unfold by_rank. rewrite reverse_Permutation, merge_sort_Permutation. apply Forall_fmap, Forall_forall. intros kl _.
  apply power_fits.
Qed.

(** Witnessing is fair: a validator with at least the power of an eligible
    one is eligible too, with a target hash that is at least as high. *)
Theorem witnessing_fair st v1 v2 t w round mr p1 p2 h1 pr1 :
  query_power UNIT st v1 Witnessing t = Ok p1 → query_power UNIT st v2 Witnessing t = Ok p2 → p1 ≤ p2 < U64 →
  0 ≤ round → 0 ≤ mr < U16 →
  witnessing_eligibility UNIT st v1 t w round mr = Ok (EligibleYes, h1, pr1) →
  ∃ h2 pr2, witnessing_eligibility UNIT st v2 t w round mr = Ok (EligibleYes, h2, pr2) ∧ bytes_le h1 h2.
Proof.
  intros H1 H2 Hp Hr Hm He. unfold witnessing_eligibility in *. rewrite H1 in He. rewrite H2.
  pose proof (by_rank_nonneg st Witnessing t) as Hnn. set (rank := by_rank UNIT st Witnessing t) in *.
  pose proof (threshold_nonneg rank w round Hnn) as Ht. set (thr := threshold_power rank w round) in *.
  destruct (decide (p1 = 0)); [done|]. destruct (decide (p1 ≤ thr)); [done|]. injection He as <- <-.
  rewrite !decide_False by lia. eexists _, _. split; [done|].
  assert (0 ≤ default 0 (snd <$> head rank)) as Hmax.
  { destruct rank as [|kp rank']; simpl; [lia|]. by inversion Hnn. }
  destruct (witnessing_target_mono p1 p2 thr (default 0 (snd <$> head rank)) round mr) as [F1 F2]; [lia..|].
  apply first_u32_le; lia.
Qed.

(** With a replication factor of at least two that does not exceed the number of
    entries, an eligible witness has an entry outranked by fewer than the factor
    minus one: the number of eligible validators is bounded, and it doubles with
    every round. *)
Theorem witnessing_bounded st v t w round mr h pr :
  wf st → 2 ≤ 2 ^ round * w ≤ Z.of_nat (size (view st)) → Z.of_nat (size (view st)) < U64 → 0 ≤ round < 64 → 0 ≤ w →
  witnessing_eligibility UNIT st v t w round mr = Ok (EligibleYes, h, pr) →
  ∃ k s, view st !! k = Some s ∧ Stake.validator k = v
    ∧ Z.of_nat (outranked st Witnessing t (k, power UNIT s Witnessing t)) < 2 ^ round * w - 1.
Proof.
  intros Hwf Hrf Hu Hr Hw He. unfold witnessing_eligibility, query_power in He.
  pose proof (wf_validator st Hwf v) as Hidx. unfold slot_ok in Hidx.
  destruct (by_validator st !! v) as [ls|]; simpl in He; [|done]. destruct Hidx as (_ & _ & Hls).
  set (p := zmax _) in *. set (rank := by_rank UNIT st Witnessing t) in *.
  destruct (decide (p = 0)); [done|]. destruct (decide (p ≤ threshold_power rank w round)) as [|Hthr]; [done|]. clear He.
  pose proof (by_rank_nonneg st Witnessing t) as Hnn. fold rank in Hnn.
  pose proof (threshold_nonneg rank w round Hnn) as Ht.
  assert (p ∈ (λ l, power UNIT (read_value st l) Witnessing t) <$> ls) as Hin by (apply zmax_elem; unfold p in *; lia).
  apply list_elem_of_fmap in Hin as (l & Hp & Hl). apply Hls in Hl as (k & Hk & Hv).
  exists k, (read_value st l). rewrite (view_lookup st k l Hwf Hk). split_and!; [done..|]. rewrite <-Hp.
  assert ((k, p) ∈ rank) as Hin by (apply by_rank_elem; [done|]; exists (read_value st l); by rewrite (view_lookup st k l Hwf Hk)).
  apply list_elem_of_lookup in Hin as [i Hi]. rewrite (rank_position_exact st Witnessing t i _ Hwf Hi).
  assert (Z.of_nat (length rank) = Z.of_nat (size (view st))) as Hlen.
  { unfold rank. rewrite by_rank_perm by done. by rewrite length_fmap, length_map_to_list. }
  set (rf := 2 ^ round * w) in *. destruct (decide (Z.of_nat i < rf - 1)) as [|Hge]; [done|exfalso].
  assert (0 < 2 ^ round) as H2 by (apply Z.pow_pos_nonneg; lia).
  assert (2 ^ round < U64) as H64 by (apply Z.pow_lt_mono_r; lia).
  destruct (lookup_lt_is_Some_2 rank (Z.to_nat (rf - 1))) as [[k' p'] Hp']; [lia|].
  assert (threshold_power rank w round = p') as Heq.
  { unfold threshold_power. rewrite (Z.mod_small (2 ^ round)) by lia. rewrite wmul_small by (fold rf; lia). fold rf.
    rewrite wsub_small by lia. destruct rank as [|x rank']; [done|]. simpl length in *. cbn [tail]. rewrite decide_True by lia.
    change (default 0 (snd <$> (x :: rank') !! S (Z.to_nat (rf - 2))) = p'). replace (S (Z.to_nat (rf - 2))) with (Z.to_nat (rf - 1)) by lia. by rewrite Hp'. }
  rewrite Heq in Hthr. destruct (decide (i = Z.to_nat (rf - 1))) as [->|Hne]; [simplify_eq; lia|].
  assert (rank_le (k, p) (k', p')) as Hle.
  { pose proof (by_rank_sorted UNIT st Witnessing t) as Hs. fold rank in Hs.
    apply (sorted_lookup_lt (flip rank_le) rank _ _ _ _ Hs Hp' Hi). lia. }
  unfold rank_le in Hle. cbn [snd] in Hle. case_decide; lia.
Qed.
End by_stake.

(** ** Slots *)

Section slots.
Context (ids epoch min_difficulty min_epochs : Z) (wips : ActiveWips).
Abbreviation threshold rf := (calculate_randpoe_threshold ids rf epoch min_difficulty min_epochs wips).1.
Abbreviation slots rf bf := (slots_from_rf ids rf bf epoch min_difficulty min_epochs wips).

Lemma randpoe_mono rf rf' :
  0 ≤ rf ≤ rf' →
  0 ≤ randpoe_target ids rf epoch min_difficulty min_epochs wips
    ≤ randpoe_target ids rf' epoch min_difficulty min_epochs wips
  ∧ randpoe_target ids rf' epoch min_difficulty min_epochs wips < U32.
Proof.
  intros Hrf. unfold randpoe_target.
  assert (∀ d, 0 < d → 0 ≤ (U64 - 1) / d < U64) as Hdiv.
  { intros d Hd. split; [apply Z.div_pos; unfold_moduli; lia|]. apply Z.div_lt_upper_bound; [lia|]. unfold_moduli. nia. }
  assert (∀ x y, 0 ≤ x ≤ y → y < U64 → 0 ≤ Z.shiftr x 32 ≤ Z.shiftr y 32 ∧ Z.shiftr y 32 < U32) as Hsh.
  { intros x y Hxy Hy. pose proof (shiftr32_mono x y ltac:(lia)). pose proof (shiftr32_fits x ltac:(lia)).
    pose proof (shiftr32_fits y ltac:(lia)). lia. }
  assert (∀ d, 0 < d → 0 ≤ sat_mul U64 ((U64 - 1) / d) rf ≤ sat_mul U64 ((U64 - 1) / d) rf' ∧ sat_mul U64 ((U64 - 1) / d) rf' < U64) as Hs.
  { intros d Hd. pose proof (Hdiv d Hd). pose proof (sat_mul_mono U64 ((U64 - 1) / d) rf rf' ltac:(lia) ltac:(lia)).
    pose proof (sat_mul_fits U64 ((U64 - 1) / d) rf ltac:(unfold_moduli; lia) ltac:(lia) ltac:(lia)).
    pose proof (sat_mul_fits U64 ((U64 - 1) / d) rf' ltac:(unfold_moduli; lia) ltac:(lia) ltac:(lia)). lia. }
  case_decide; [|destruct (wips_0009_0011_0012 wips)]; apply Hsh.
  - pose proof (Hdiv (Z.max 1 min_difficulty) ltac:(lia)). lia.
  - apply Hdiv. lia.
  - apply Hs. lia.
  - apply Hs. lia.
  - apply Hs. lia.
  - apply Hs. lia.
Qed.

Lemma threshold_mono rf rf' : 0 ≤ rf ≤ rf' → bytes_le (threshold rf) (threshold rf').
Proof. intros Hrf. destruct (randpoe_mono rf rf' Hrf). simpl. apply first_u32_le; lia. Qed.

Lemma target_hashes_lookup rf bf i th :
  target_hashes (slots rf bf) !! i = Some th ↔ th = threshold (rf + Z.of_nat i) ∧ rf + Z.of_nat i ≤ bf.
Proof.
  unfold slots_from_rf. cbn [target_hashes]. rewrite list_lookup_fmap. split.
  - destruct (seqZ rf (bf - rf + 1) !! i) as [x|] eqn:Hx; [|done]. intros [= <-].
    apply lookup_seqZ in Hx as [-> ?]. split; [done|lia].
  - intros [-> Hle]. rewrite (proj2 (lookup_seqZ rf (bf - rf + 1) i (rf + Z.of_nat i))) by lia. done.
Qed.

(** The slots of a block are those of the replication factors in order: the
    slot of a hash is the number of factors whose threshold it exceeds, so the
    first slot is that of the blocks eligible with the lowest factor, and a hash
    falls in some slot exactly when it is eligible with the backup factor. *)
Theorem slot_exact rf bf h :
  0 ≤ rf ≤ bf →
  0 ≤ slot (slots rf bf) h ≤ bf - rf + 1
  ∧ (∀ r, rf ≤ r ≤ bf → bytes_le h (threshold r) ↔ slot (slots rf bf) h ≤ r - rf).
Proof.
  intros Hrf. unfold slot.
  assert (Z.of_nat (length (target_hashes (slots rf bf))) = bf - rf + 1) as Hlen.
  { unfold slots_from_rf. cbn [target_hashes]. rewrite length_fmap, length_seqZ. lia. }
  destruct (list_find (bytes_le h) (target_hashes (slots rf bf))) as [[i th]|] eqn:Hf.
  - apply list_find_Some in Hf as (Hi & Hle & Hbefore). pose proof (lookup_lt_Some _ _ _ Hi).
    apply target_hashes_lookup in Hi as [-> Hi]. split; [lia|]. intros r Hr. split.
    + intros Hh. destruct (decide (Z.of_nat i ≤ r - rf)) as [|Hgt]; [done|exfalso].
      apply (Hbefore (Z.to_nat (r - rf)) (threshold r)); [|lia|done].
      apply target_hashes_lookup. rewrite Z2Nat.id by lia. replace (rf + (r - rf)) with r by lia. split; [done|lia].
    + intros Hir. etrans; [exact Hle|]. apply threshold_mono. lia.
  - apply list_find_None in Hf. rewrite Hlen. split; [lia|]. intros r Hr. split; [|lia]. intros Hh. exfalso.
    assert (target_hashes (slots rf bf) !! Z.to_nat (r - rf) = Some (threshold r)) as Hl.
    { apply target_hashes_lookup. rewrite Z2Nat.id by lia. replace (rf + (r - rf)) with r by lia. split; [done|lia]. }
    apply list_elem_of_lookup_2 in Hl. by apply (proj1 (Forall_forall _ _) Hf) in Hl.
Qed.
End slots.

(** ** Comparison of candidates *)

Record cmp_ok {A} (c : A → A → comparison) : Prop := {
  cmp_sym : ∀ x y, c y x = CompOpp (c x y);
  cmp_trans : ∀ x y z, c x y ≠ Gt → c y z ≠ Gt → c x z ≠ Gt;
}.

Lemma cmp_opp {A} (c : A → A → comparison) : cmp_ok c → cmp_ok (λ x y, CompOpp (c x y)).
Proof.
  intros [Hs Ht]. split; [intros x y; by rewrite Hs|]. intros x y z. rewrite <-!Hs. intros H1 H2. by apply (Ht z y x).
Qed.
Lemma cmp_on {A B} (f : A → B) (c : B → B → comparison) : cmp_ok c → cmp_ok (λ x y, c (f x) (f y)).
Proof. intros [Hs Ht]. split; [intros; apply Hs|intros x y z; apply Ht]. Qed.

Lemma cmp_eq_trans {A} (c : A → A → comparison) x y z : cmp_ok c → c x y = Eq → c y z = Eq → c x z = Eq.
Proof.
  intros [Hs Ht] H1 H2. assert (c x z ≠ Gt) as H3 by (apply (Ht x y z); congruence).
  assert (c z x ≠ Gt) as H4 by (apply (Ht z y x); rewrite Hs, ?H1, ?H2; done).
  rewrite Hs in H4. by destruct (c x z).
Qed.
Lemma cmp_lt_trans {A} (c : A → A → comparison) x y z :
  cmp_ok c → c x y ≠ Gt → c y z ≠ Gt → c x y = Lt ∨ c y z = Lt → c x z = Lt.
Proof.
  intros [Hs Ht] H1 H2 Hl. pose proof (Ht x y z H1 H2) as H3. destruct (c x z) eqn:H4; [exfalso|done|done].
  assert (c z x ≠ Gt) as H5 by (rewrite Hs, H4; done).
  destruct Hl as [Hl|Hl].
  - apply (Ht y z x H2) in H5. rewrite Hs, Hl in H5. done.
  - apply (λ H, Ht z x y H H1) in H5. rewrite Hs, Hl in H5. done.
Qed.

Lemma cmp_then {A} (c d : A → A → comparison) : cmp_ok c → cmp_ok d → cmp_ok (λ x y, then_cmp (c x y) (d x y)).
Proof.
  intros Hc Hd. split.
  - intros x y. rewrite (cmp_sym c Hc x y), (cmp_sym d Hd x y). by destruct (c x y).
  - intros x y z. destruct (c x y) eqn:H1, (c y z) eqn:H2; simpl; try done; intros H3 H4.
    + rewrite (cmp_eq_trans c x y z Hc H1 H2). simpl. by apply (cmp_trans d Hd x y z).
    + rewrite (cmp_lt_trans c x y z Hc) by (rewrite ?H1, ?H2; auto; done). done.
    + rewrite (cmp_lt_trans c x y z Hc) by (rewrite ?H1, ?H2; auto; done). done.
    + rewrite (cmp_lt_trans c x y z Hc) by (rewrite ?H1, ?H2; auto; done). done.
Qed.

Lemma bytes_cmp_ok : cmp_ok bytes_cmp.
Proof.
  pose proof (ole_po (A:=list Z)) as Hpo. pose proof (ole_total (A:=list Z)) as Htot.
  assert (∀ x y, bytes_cmp x y ≠ Gt ↔ bytes_le x y) as Hle.
  { intros x y. unfold bytes_cmp. case_decide; [subst; split; [intros _; apply bytes_le_refl|done]|]. by case_decide. }
  split.
  - intros x y. unfold bytes_cmp. destruct (decide (x = y)) as [->|]; [by rewrite decide_True|].
    rewrite (decide_False (P := y = x)) by congruence. destruct (Htot x y) as [H|H].
    + rewrite (decide_True (P := bytes_le x y)) by exact H. rewrite decide_False; [done|].
      intros H'. assert (x = y); [|done]. apply (anti_symm ole); done.
    + rewrite (decide_True (P := bytes_le y x)) by exact H. rewrite decide_False; [done|].
      intros H'. assert (x = y); [|done]. apply (anti_symm ole); done.
  - intros x y z. rewrite !Hle. apply bytes_le_trans.
Qed.
Lemma Zcompare_ok : cmp_ok Z.compare.
Proof.
  split; [intros x y; apply Z.compare_antisym|]. exact Z.le_trans.
Qed.
Lemma better_if_ok : cmp_ok better_if.
Proof. split; [by intros [] []|by intros [] [] []]. Qed.
#[export] Hint Resolve cmp_opp cmp_then bytes_cmp_ok Zcompare_ok better_if_ok : machine.

Lemma bytes_cmp_eq x y : bytes_cmp x y = Eq → x = y.
Proof. unfold bytes_cmp. by repeat case_decide. Qed.

Lemma then_cmp_eq c d : then_cmp c d = Eq → c = Eq ∧ d = Eq.
Proof. by destruct c. Qed.
Lemma CompOpp_eq c : CompOpp c = Eq → c = Eq.
Proof. by destruct c. Qed.

Lemma candidates_cmp_ok s version : cmp_ok (λ b1 b2, compare_block_candidates b1 b2 s version).
Proof.
  destruct (decide (version = V2_0)) as [->|Hv].
  - assert (cmp_ok (λ b1 b2, then_cmp (b_power b1 ?= b_power b2)
      (then_cmp (CompOpp (bytes_cmp (b_vrf_hash b1) (b_vrf_hash b2))) (CompOpp (bytes_cmp (b_hash b1) (b_hash b2)))))) as [H1 H2].
    { apply cmp_then; [apply (cmp_on b_power _ Zcompare_ok)|].
      apply cmp_then; apply cmp_opp; [apply (cmp_on b_vrf_hash _ bytes_cmp_ok)|apply (cmp_on b_hash _ bytes_cmp_ok)]. }
    unfold compare_block_candidates. destruct (decide (V2_0 = V2_0)) as [_|]; [|done]. split; [apply H1|apply H2].
  - unfold compare_block_candidates. destruct (decide (version = V2_0)) as [|_]; [done|].
    repeat apply cmp_then; try apply cmp_opp.
    + apply (cmp_on (λ b, slot s (b_vrf_hash b)) _ Zcompare_ok).
    + apply (cmp_on (λ b, bool_decide (b_rep b > 0)) _ better_if_ok).
    + apply (cmp_on b_is_active _ better_if_ok).
    + apply (cmp_on b_vrf_hash _ bytes_cmp_ok).
    + apply (cmp_on b_hash _ bytes_cmp_ok).
Qed.

(** The comparison of block candidates is a total order in every protocol
    version: swapping the arguments reverses the answer, being better is
    transitive, and only candidates with the same block and proof hashes tie; so
    the best of a set of candidates does not depend on the order of arrival. *)
Theorem candidates_totally_ordered s version :
  (∀ b1 b2, compare_block_candidates b2 b1 s version = CompOpp (compare_block_candidates b1 b2 s version))
  ∧ (∀ b1 b2 b3, compare_block_candidates b1 b2 s version = Gt → compare_block_candidates b2 b3 s version = Gt →
       compare_block_candidates b1 b3 s version = Gt)
  ∧ (∀ b1 b2, compare_block_candidates b1 b2 s version = Eq → b_hash b1 = b_hash b2 ∧ b_vrf_hash b1 = b_vrf_hash b2).
Proof.
  pose proof (candidates_cmp_ok s version) as Hok. split_and!.
  - apply (cmp_sym _ Hok).
  - intros b1 b2 b3 H1 H2.
    assert (compare_block_candidates b3 b1 s version = Lt) as H3.
    { apply (cmp_lt_trans _ b3 b2 b1 Hok); [..|left]; rewrite (cmp_sym _ Hok), ?H1, ?H2; done. }
    by rewrite (cmp_sym _ Hok b3 b1), H3.
  - intros b1 b2. unfold compare_block_candidates. case_decide.
    + change (then_cmp (b_power b1 ?= b_power b2) (then_cmp (CompOpp (bytes_cmp (b_vrf_hash b1) (b_vrf_hash b2)))
                (CompOpp (bytes_cmp (b_hash b1) (b_hash b2)))) = Eq → b_hash b1 = b_hash b2 ∧ b_vrf_hash b1 = b_vrf_hash b2).
      intros [_ [Hv Hh]%then_cmp_eq]%then_cmp_eq. split; by apply bytes_cmp_eq, CompOpp_eq.
    + intros [[_ Hv]%then_cmp_eq Hh]%then_cmp_eq. split; by apply bytes_cmp_eq, CompOpp_eq.
Qed.

(** ** Concrete trackers and slots *)

Lemma mining_eligibility_exact_witness :
  ∃ k s, view ex_state !! k = Some s ∧ Stake.validator k = 2
    ∧ Z.of_nat (outranked 9 ex_state Mining 200 (k, power 9 s Mining 200))
      < Z.min 4 (Z.min (U16 - 1) (Z.of_nat (size (view ex_state)) * 2 / 3)).
Proof.
  apply (proj1 (mining_eligibility_exact 9 ex_state 2 200 4 (inv_wf 9 ex_state ex_state_inv))).
  vm_compute. reflexivity.
Defined.

Lemma witnessing_fair_witness :
  ∃ h2 pr2, witnessing_eligibility 9 ex_state 2 200 1 2 4 = Ok (EligibleYes, h2, pr2).
Proof.
  destruct (witnessing_eligibility 9 ex_state 1 200 1 2 4) as [[[[] h] pr]| |] eqn:E; try (vm_compute in E; discriminate E).
  destruct (witnessing_fair 9 ex_state 1 2 200 1 2 4 2000000 4500000 h pr) as (h2 & pr2 & H2 & _).
  - vm_compute. reflexivity.
  - vm_compute. reflexivity.
  - unfold_moduli. lia.
  - lia.
  - unfold_moduli. lia.
  - exact E.
  - exists h2, pr2. exact H2.
Defined.

Lemma witnessing_bounded_witness :
  ∃ k s, view ex_state !! k = Some s ∧ Stake.validator k = 2
    ∧ Z.of_nat (outranked 9 ex_state Witnessing 200 (k, power 9 s Witnessing 200)) < 1.
Proof.
  destruct (witnessing_eligibility 9 ex_state 2 200 1 1 4) as [[[[] h] pr]| |] eqn:E; try (vm_compute in E; discriminate E).
  apply (witnessing_bounded 9 ex_state 2 200 1 1 4 h pr (inv_wf 9 ex_state ex_state_inv)).
  - assert (Z.of_nat (size (view ex_state)) = 2) as -> by (vm_compute; reflexivity). lia.
  - vm_compute. reflexivity.
  - lia.
  - lia.
  - exact E.
Defined.

Lemma slot_exact_witness :
  0 ≤ slot (slots_from_rf 100 4 8 500 10 100 current_active_wips) (with_first_u32 200000000) ≤ 5.
Proof.
  assert (0 ≤ 4 ≤ 8) as Hrf by lia.
  exact (proj1 (slot_exact 100 500 10 100 current_active_wips 4 8 (with_first_u32 200000000) Hrf)).
Defined.
