(* ===== verification/Storage.v ===== *)
(** * Storage

    Models the [Storage] trait of storage/src/storage.rs as a type class with its
    contract, and the in-memory backend of storage/src/backends/hashmap.rs with
    its hand-written prefix iterator.  Keys and values are byte strings.  A
    method takes [&self] but changes what is behind a lock: the changed storage
    is returned. *)

From stdpp Require Import base tactics numbers list gmap sorting.
From Stdlib Require Import ZArith Lia.
From S2P Require Import Prelude Hashes.
Local Open Scope rust_scope.

(** ** The trait *)

Abbreviation bytes := (list Z).

(** [failure::Error]: what went wrong is never inspected. *)
Inductive Failure := failure.

Inductive WriteBatchItem := Put (k v : bytes) | Delete (k : bytes).

Class Storage (St : Type) := {
  storage_get : St → bytes → result Failure (option bytes);
  storage_put : St → bytes → bytes → exec St Failure unit;
  storage_delete : St → bytes → exec St Failure unit;
  storage_prefix_iterator : St → bytes → result Failure (list (bytes * bytes));
  storage_write : St → list WriteBatchItem → exec St Failure unit;
}.

(** The effect of a batch on the contents. *)
Definition apply_item (m : gmap bytes bytes) (item : WriteBatchItem) : gmap bytes bytes :=
  match item with Put k v => <[k := v]> m | Delete k => delete k m end.
Definition apply_items (m : gmap bytes bytes) (items : list WriteBatchItem) : gmap bytes bytes :=
  foldl apply_item m items.

(** What a client may rely on, for a storage that does not fail: it holds a map
    from keys to values, [get] reads it, the writes change it, batches are
    atomic, and the iterator visits each key with the prefix once. *)
Class StorageLaws (St : Type) `{Storage St} := {
  holds : St → gmap bytes bytes → Prop;
  get_law s m k : holds s m → storage_get s k = Ok (m !! k);
  put_law s m k v : holds s m → ∃ s', storage_put s k v = Ret s' tt ∧ holds s' (<[k := v]> m);
  delete_law s m k : holds s m → ∃ s', storage_delete s k = Ret s' tt ∧ holds s' (delete k m);
  prefix_law s m p : holds s m → ∃ l, storage_prefix_iterator s p = Ok l
    ∧ l ≡ₚ map_to_list (filter (λ kv, p `prefix_of` kv.1) m);
  write_law s m items : holds s m → ∃ s', storage_write s items = Ret s' tt ∧ holds s' (apply_items m items);
}.

(** ** The in-memory backend *)

Abbreviation Backend := (gmap bytes bytes).

Definition backend_get (m : Backend) (k : bytes) : result Failure (option bytes) := Ok (m !! k).
Definition backend_put (m : Backend) (k v : bytes) : exec Backend Failure unit := Ret (<[k := v]> m) tt.
Definition backend_delete (m : Backend) (k : bytes) : exec Backend Failure unit := Ret (delete k m) tt.

Definition backend_write (m : Backend) (batch : list WriteBatchItem) : exec Backend Failure unit :=
  Ret (foldl (λ m item, match item with Put k v => <[k := v]> m | Delete k => delete k m end) m batch) tt.

(** [DBIterator::next] on the entries that are left, in the order of the table,
    which is fixed while the read guard is held: the entries inspected are
    counted in [skip] up to the first one with the prefix. *)
Fixpoint inspect_next (prefix : bytes) (entries : list (bytes * bytes)) (skip : nat) :
    nat * option (bytes * bytes) :=
  match entries with
  | [] => (skip, None)
  | (k, v) :: entries =>
      if decide (prefix `prefix_of` k) then (S skip, Some (k, v)) else inspect_next prefix entries (S skip)
  end.
Definition db_iterator_next (data : Backend) (prefix : bytes) (skip : nat) : nat * option (bytes * bytes) :=
  inspect_next prefix (drop skip (map_to_list data)) skip.

(** The items a [DBIterator] yields until it returns [None]. *)
Fixpoint db_iterator_items (fuel : nat) (data : Backend) (prefix : bytes) (skip : nat) :
    option (list (bytes * bytes)) :=
  match fuel with
  | O => None
  | S fuel =>
      match db_iterator_next data prefix skip with
      | (_, None) => Some []
      | (skip, Some kv) => cons kv <$> db_iterator_items fuel data prefix skip
      end
  end.
Definition backend_prefix_iterator (data : Backend) (prefix : bytes) : result Failure (list (bytes * bytes)) :=
  match db_iterator_items (S (size data)) data prefix 0 with Some l => Ok l | None => Panic end.

#[export] Instance backend_storage : Storage Backend := {|
  storage_get := backend_get;
  storage_put := backend_put;
  storage_delete := backend_delete;
  storage_prefix_iterator := backend_prefix_iterator;
  storage_write := backend_write;
|}.

(** ** The backend meets the contract *)

Section iterator.
Context (data : Backend) (prefix : bytes).

Definition matching (l : list (bytes * bytes)) : list (bytes * bytes) := filter (λ kv, prefix `prefix_of` kv.1) l.

Lemma inspect_next_spec l skip :
  match inspect_next prefix l skip with
  | (_, None) => matching l = []
  | (skip', Some kv) => ∃ n, skip' = (skip + S n)%nat ∧ matching l = kv :: matching (drop (S n) l)
  end.
Proof.
  revert skip. induction l as [|[k v] l IH]; intros skip; cbn [inspect_next]; [done|].
  unfold matching. rewrite filter_cons. cbn [fst]. case_decide as Hk.
  - exists 0%nat. split; [lia|done].
  - specialize (IH (S skip)). destruct (inspect_next _ _ _) as [skip' [kv|]]; [|done].
    destruct IH as (n & -> & Heq). exists (S n). split; [lia|done].
Qed.

(** The iterator ends within one step per entry and yields what is left of the
    entries with the prefix. *)
Lemma db_iterator_items_spec fuel skip :
  (length (map_to_list data) < fuel + skip)%nat →
  db_iterator_items fuel data prefix skip = Some (matching (drop skip (map_to_list data))) ∨ fuel = 0%nat.
Proof.
  revert skip. induction fuel as [|fuel IH]; intros skip Hf; [by right|left].
  cbn [db_iterator_items]. unfold db_iterator_next.
  pose proof (inspect_next_spec (drop skip (map_to_list data)) skip) as Hspec.
  destruct (inspect_next _ _ _) as [skip' [kv|]]; [|by rewrite Hspec].
  destruct Hspec as (n & -> & Heq). rewrite drop_drop in Heq. rewrite Heq.
  destruct (IH (skip + S n)%nat) as [->| ->]; [lia|done|].
  exfalso. assert (length (drop skip (map_to_list data)) = 0%nat) as Hl by (rewrite length_drop; lia).
  apply nil_length_inv in Hl. rewrite Hl in Heq. discriminate Heq.
Qed.

Lemma backend_prefix_spec : backend_prefix_iterator data prefix = Ok (matching (map_to_list data)).
Proof.
  assert (length (map_to_list data) = size data) as Hlen by apply length_map_to_list.
  unfold backend_prefix_iterator.
  destruct (db_iterator_items_spec (S (size data)) 0) as [Heq|Hz]; [rewrite Hlen; lia| |discriminate Hz].
  by rewrite Heq, drop_0.
Qed.
End iterator.

(** The in-memory backend implements [Storage]. *)
#[export] Program Instance backend_laws : StorageLaws Backend := {| holds := eq |}.
Next Obligation. by intros s ? k <-. Qed.
Next Obligation. intros s ? k v <-. by eexists. Qed.
Next Obligation. intros s ? k <-. by eexists. Qed.
Next Obligation. intros s ? p <-. eexists. split; [apply backend_prefix_spec|by apply filter_entries_perm]. Qed.
Next Obligation. intros s ? items <-. by eexists. Qed.
