(* ===== verification/UtxoDb.v ===== *)
(** * Databases of unspent outputs

    Models data_structures/src/utxo_pool/utxo_db.rs with the text form of an
    [OutputPointer] (data_structures/src/chain/mod.rs) that its keys use.  The
    trait [UtxoDb] is a type class with its contract [UtxoDbLaws]; the two
    implementations are instances: [UtxoDbWrapStorage] over any [Storage], and
    [CacheUtxosByPkh] over any [UtxoDb].

    The [hex] and [bincode] crates are the parameters [Codecs], with the round
    trips the code relies on as [CodecLaws].  A string is the list of its code
    points. *)

From stdpp Require Import base tactics numbers list gmap.
From Stdlib Require Import ZArith Lia.
From S2P Require Import Prelude Hashes Transaction Storage.
Local Open Scope Z_scope.
Local Open Scope rust_scope.

(** ** Third-party encodings *)

(** An output with the number of the block that created it. *)
Abbreviation Utxo := (ValueTransferOutput * Z)%type.

Class Codecs := {
  HexError : Type;
  (** [hex::decode_to_slice] into a slice of the given length. *)
  decode_to_slice : list Z → nat → result HexError (list Z);
  bincode_serialize : Utxo → option bytes;
  bincode_deserialize : bytes → option Utxo;
}.

(** ** The text form of an [OutputPointer] *)

Definition hex_digit (d : Z) : Z := if decide (d < 10) then 48 + d else 87 + d.
(** [format!("{:02x}", x)]. *)
Definition byte_hex (x : Z) : list Z := [hex_digit (x / 16); hex_digit (x mod 16)].
(** [Hash::fmt]. *)
Definition hash_to_string (h : Hash) : list Z := foldl (λ acc x, acc ++ byte_hex x) [] h.

(** The decimal digits of a [u32]: at most ten. *)
Fixpoint digits (fuel : nat) (n : Z) : list Z :=
  match fuel with
  | O => []
  | S fuel => if decide (n < 10) then [48 + n] else digits fuel (n / 10) ++ [48 + n mod 10]
  end.
Definition u32_to_string (n : Z) : list Z := digits 10 n.

(** [OutputPointer::fmt]. *)
Definition pointer_to_string (o : OutputPointer) : list Z :=
  hash_to_string (transaction_id o) ++ [58] ++ u32_to_string (output_index o).

(** [char::is_whitespace] and [str::trim]. *)
Definition is_whitespace (c : Z) : bool :=
  bool_decide (9 ≤ c ≤ 13 ∨ c = 32 ∨ c = 133 ∨ c = 160 ∨ c = 5760 ∨ 8192 ≤ c ≤ 8202
               ∨ c = 8232 ∨ c = 8233 ∨ c = 8239 ∨ c = 8287 ∨ c = 12288).
Fixpoint trim_start (s : list Z) : list Z :=
  match s with c :: s' => if is_whitespace c then trim_start s' else s | [] => [] end.
Definition trim (s : list Z) : list Z := reverse (trim_start (reverse (trim_start s))).

(** [str::split]: the first token and the rest. *)
Fixpoint split (sep : Z) (s : list Z) : list (list Z) :=
  match s with
  | [] => [[]]
  | c :: s =>
      if decide (c = sep) then [] :: split sep s
      else match split sep s with t :: ts => (c :: t) :: ts | [] => [[c]] end
  end.

(** [u32::from_str]. *)
Inductive ParseIntError := IntEmpty | InvalidDigit | PosOverflow.
Fixpoint parse_digits (acc : Z) (s : list Z) : result ParseIntError Z :=
  match s with
  | [] => Ok acc
  | c :: s =>
      if decide (48 ≤ c ≤ 57) then
        match checked_mul U32 acc 10 with
        | None => Err PosOverflow
        | Some acc => let? acc := ok_or (checked_add U32 acc (c - 48)) PosOverflow in parse_digits acc s
        end
      else Err InvalidDigit
  end.
Definition parse_u32 (s : list Z) : result ParseIntError Z :=
  match s with
  | [] => Err IntEmpty
  | c :: rest =>
      if decide ((c = 43 ∨ c = 45) ∧ rest = []) then Err InvalidDigit
      else if decide (c = 43) then parse_digits 0 rest
      else parse_digits 0 s
  end.

Section parse.
Context `{Codecs}.

Inductive HashParseError := Hex (e : HexError) | InvalidLength (n : nat).
Inductive OutputPointerParseError :=
  | HashError (e : HashParseError)
  | MissingColon
  | IndexError (e : ParseIntError).

(** [Hash::from_str]. *)
Definition hash_from_str (s : list Z) : result HashParseError Hash := map_err Hex (decode_to_slice s 32).

(** [OutputPointer::from_str]. *)
Definition pointer_from_str (s : list Z) : result OutputPointerParseError OutputPointer :=
  if negb (bool_decide (58 ∈ trim s)) then Err MissingColon
  else
    let tokens := split 58 (trim s) in
    let? t0 := ok_or (tokens !! 0%nat) (HashError (InvalidLength 0)) in
    let? transaction_id := map_err HashError (hash_from_str t0) in
    let? t1 := ok_or (tokens !! 1%nat) MissingColon in
    let? output_index := map_err IndexError (parse_u32 t1) in
    Ok (MkPointer transaction_id output_index).
End parse.

(** ** The trait *)

Inductive UtxoWriteBatchItem :=
  | PutUtxo (k : OutputPointer) (v : Utxo)
  | DeleteUtxo (k : OutputPointer)
  | Raw (item : WriteBatchItem).

Class UtxoDb (D : Type) := {
  get_utxo : D → OutputPointer → result Failure (option Utxo);
  utxo_iterator : D → result Failure (list (OutputPointer * Utxo));
  utxo_iterator_by_pkh : D → PublicKeyHash → result Failure (list (OutputPointer * Utxo));
  utxo_write : D → list UtxoWriteBatchItem → exec D Failure unit;
}.

(** Pointers to the outputs of transactions: a 32-byte hash and a [u32]. *)
Definition valid_pointer (o : OutputPointer) : Prop :=
  bytes_of_len 32 (transaction_id o) ∧ fits U32 (output_index o).

Definition apply_utxo_item (m : gmap OutputPointer Utxo) (item : UtxoWriteBatchItem) : gmap OutputPointer Utxo :=
  match item with PutUtxo k v => <[k := v]> m | DeleteUtxo k => delete k m | Raw _ => m end.
Definition apply_utxo_batch (m : gmap OutputPointer Utxo) (items : list UtxoWriteBatchItem) :
    gmap OutputPointer Utxo := foldl apply_utxo_item m items.

(** "UTXO-". *)
Definition utxo_prefix : bytes := [85; 84; 88; 79; 45].

(** The keys a batch changes, and the batches a database accepts: each output is
    written or deleted once, written outputs are new, deleted outputs exist, and
    raw items stay out of the space of outputs. *)
Definition touched (item : UtxoWriteBatchItem) : option OutputPointer :=
  match item with PutUtxo k _ | DeleteUtxo k => Some k | Raw _ => None end.
Definition item_ok (m : gmap OutputPointer Utxo) (item : UtxoWriteBatchItem) : Prop :=
  match item with
  | PutUtxo k _ => valid_pointer k ∧ m !! k = None
  | DeleteUtxo k => is_Some (m !! k)
  | Raw (Put k _) | Raw (Delete k) => ¬ utxo_prefix `prefix_of` k
  end.
Definition batch_ok (m : gmap OutputPointer Utxo) (items : list UtxoWriteBatchItem) : Prop :=
  NoDup (omap touched items) ∧ Forall (item_ok m) items.

Definition owned_by (pkh : PublicKeyHash) (kv : OutputPointer * Utxo) : Prop := out_pkh kv.2.1 = pkh.
#[export] Instance owned_by_dec pkh kv : Decision (owned_by pkh kv).
Proof. unfold owned_by. apply _. Defined.

(** The contract, for a database that does not fail: it holds a map from valid
    pointers to outputs, and accepts the batches above. *)
Class UtxoDbLaws (D : Type) `{UtxoDb D} := {
  db_holds : D → gmap OutputPointer Utxo → Prop;
  db_valid d m k : db_holds d m → is_Some (m !! k) → valid_pointer k;
  get_utxo_law d m k : db_holds d m → valid_pointer k → get_utxo d k = Ok (m !! k);
  iterator_law d m : db_holds d m → ∃ l, utxo_iterator d = Ok l ∧ l ≡ₚ map_to_list m;
  by_pkh_law d m pkh : db_holds d m →
    ∃ l, utxo_iterator_by_pkh d pkh = Ok l ∧ l ≡ₚ map_to_list (filter (owned_by pkh) m);
  utxo_write_law d m items : db_holds d m → batch_ok m items →
    ∃ d', utxo_write d items = Ret d' tt ∧ db_holds d' (apply_utxo_batch m items);
}.

(** ** [UtxoDbWrapStorage] *)

(** [String::from_utf8]. *)
Definition continuation (b : Z) : bool := bool_decide (128 ≤ b ≤ 191).
Fixpoint from_utf8 (l : bytes) : option (list Z) :=
  match l with
  | [] => Some []
  | b0 :: l0 =>
      if decide (b0 < 128) then cons b0 <$> from_utf8 l0
      else match l0 with
      | [] => None
      | b1 :: l1 =>
          if bool_decide (194 ≤ b0 ≤ 223) && continuation b1
          then cons ((b0 - 192) * 64 + (b1 - 128)) <$> from_utf8 l1
          else match l1 with
          | [] => None
          | b2 :: l2 =>
              if bool_decide (224 ≤ b0 ≤ 239) && continuation b1 && continuation b2
                 && bool_decide (b0 = 224 → 160 ≤ b1) && bool_decide (b0 = 237 → b1 ≤ 159)
              then cons ((b0 - 224) * 4096 + (b1 - 128) * 64 + (b2 - 128)) <$> from_utf8 l2
              else match l2 with
              | [] => None
              | b3 :: l3 =>
                  if bool_decide (240 ≤ b0 ≤ 244) && continuation b1 && continuation b2 && continuation b3
                     && bool_decide (b0 = 240 → 144 ≤ b1) && bool_decide (b0 = 244 → b1 ≤ 143)
                  then cons ((b0 - 240) * 262144 + (b1 - 128) * 4096 + (b2 - 128) * 64 + (b3 - 128)) <$> from_utf8 l3
                  else None
              end
          end
      end
  end.

(** [str::strip_prefix]. *)
Fixpoint strip_prefix (p s : list Z) : option (list Z) :=
  match p, s with
  | [], s => Some s
  | c :: p, c' :: s => if decide (c = c') then strip_prefix p s else None
  | _, _ => None
  end.

Record UtxoDbWrapStorage (St : Type) := Wrap { wrapped : St }.
Arguments Wrap {St} wrapped.
Arguments wrapped {St} _.

Section wrap.
Context `{Codecs, Storage St}.

(** [format!("UTXO-{}", k)]: the text is ASCII, so its bytes are its code
    points. *)
Definition utxo_key (k : OutputPointer) : bytes := utxo_prefix ++ pointer_to_string k.

(** [WriteBatch::from]; [None] is the panic of [expect]. *)
Definition raw_item (item : UtxoWriteBatchItem) : option WriteBatchItem :=
  match item with
  | PutUtxo k v => b ← bincode_serialize v; Some (Put (utxo_key k) b)
  | DeleteUtxo k => Some (Delete (utxo_key k))
  | Raw x => Some x
  end.

Definition wrap_get_utxo (d : UtxoDbWrapStorage St) (k : OutputPointer) : result Failure (option Utxo) :=
  let? o := storage_get (wrapped d) (utxo_key k) in
  match o with
  | None => Ok None
  | Some b => match bincode_deserialize b with Some u => Ok (Some u) | None => Panic end
  end.

(** The closure of [utxo_iterator]; [None] is a panic. *)
Definition decode_entry (kv : bytes * bytes) : option (OutputPointer * Utxo) :=
  key_string ← from_utf8 kv.1;
  output_pointer_str ← strip_prefix utxo_prefix key_string;
  match pointer_from_str output_pointer_str with
  | Ok key => value ← bincode_deserialize kv.2; Some (key, value)
  | _ => None
  end.
Definition wrap_utxo_iterator (d : UtxoDbWrapStorage St) : result Failure (list (OutputPointer * Utxo)) :=
  let? iter := storage_prefix_iterator (wrapped d) utxo_prefix in
  match mapM decode_entry iter with Some l => Ok l | None => Panic end.

Definition wrap_utxo_iterator_by_pkh (d : UtxoDbWrapStorage St) (pkh : PublicKeyHash) :
    result Failure (list (OutputPointer * Utxo)) :=
  let? iter := wrap_utxo_iterator d in Ok (filter (owned_by pkh) iter).

Definition wrap_write (d : UtxoDbWrapStorage St) (batch : list UtxoWriteBatchItem) :
    exec (UtxoDbWrapStorage St) Failure unit :=
  match mapM raw_item batch with
  | None => Crash
  | Some items =>
      match storage_write (wrapped d) items with
      | Ret s _ => Ret (Wrap s) tt
      | Fail s e => Fail (Wrap s) e
      | Crash => Crash
      end
  end.

#[export] Instance wrap_utxo_db : UtxoDb (UtxoDbWrapStorage St) := {|
  get_utxo := wrap_get_utxo;
  utxo_iterator := wrap_utxo_iterator;
  utxo_iterator_by_pkh := wrap_utxo_iterator_by_pkh;
  utxo_write := wrap_write;
|}.
End wrap.

(** ** [CacheUtxosByPkh] *)

Record CacheUtxosByPkh (D : Type) := MkCached {
  inner_db : D;
  cache : gmap PublicKeyHash (gset OutputPointer);
}.
Arguments MkCached {D} inner_db cache.
Arguments inner_db {D} _.
Arguments cache {D} _.

Section cached.
Context `{UtxoDb D}.

(** [cache.entry(pkh).or_default().insert(k)]. *)
Definition cache_insert (c : gmap PublicKeyHash (gset OutputPointer)) (k : OutputPointer) (v : Utxo) :
    gmap PublicKeyHash (gset OutputPointer) :=
  let pkh := out_pkh v.1 in <[pkh := {[ k ]} ∪ default ∅ (c !! pkh)]> c.

(** [CacheUtxosByPkh::new]. *)
Definition cached_new (d : D) : result Failure (CacheUtxosByPkh D) :=
  let? l := utxo_iterator d in
  Ok (MkCached d (foldl (λ c kv, cache_insert c kv.1 kv.2) ∅ l)).

Definition cached_get_utxo (d : CacheUtxosByPkh D) (k : OutputPointer) : result Failure (option Utxo) :=
  get_utxo (inner_db d) k.
Definition cached_utxo_iterator (d : CacheUtxosByPkh D) : result Failure (list (OutputPointer * Utxo)) :=
  utxo_iterator (inner_db d).

(** The closure of [utxo_iterator_by_pkh]; [None] is a panic of an [unwrap]. *)
Definition cached_entry (d : D) (k : OutputPointer) : option (OutputPointer * Utxo) :=
  match get_utxo d k with Ok (Some v) => Some (k, v) | _ => None end.
Definition cached_utxo_iterator_by_pkh (d : CacheUtxosByPkh D) (pkh : PublicKeyHash) :
    result Failure (list (OutputPointer * Utxo)) :=
  let utxos_of_pkh := elements (default ∅ (cache d !! pkh)) in
  match mapM (cached_entry (inner_db d)) utxos_of_pkh with Some l => Ok l | None => Panic end.

(** The update of the cache in [write]: deletions look the owner up in the
    database, which the batch has not reached yet. *)
Fixpoint cache_write (d : D) (c : gmap PublicKeyHash (gset OutputPointer)) (items : list UtxoWriteBatchItem) :
    exec (gmap PublicKeyHash (gset OutputPointer)) Failure unit :=
  match items with
  | [] => Ret c tt
  | PutUtxo k v :: items => cache_write d (cache_insert c k v) items
  | DeleteUtxo k :: items =>
      match get_utxo d k with
      | Ok (Some vto) =>
          let pkh := out_pkh vto.1 in
          match c !! pkh with
          | Some hs =>
              let hs := hs ∖ {[ k ]} in
              cache_write d (if decide (hs = ∅) then delete pkh c else <[pkh := hs]> c) items
          | None => Crash
          end
      | Err e => Fail c e
      | _ => Crash
      end
  | Raw _ :: items => cache_write d c items
  end.

Definition cached_write (d : CacheUtxosByPkh D) (batch : list UtxoWriteBatchItem) :
    exec (CacheUtxosByPkh D) Failure unit :=
  match cache_write (inner_db d) (cache d) batch with
  | Ret c _ =>
      match utxo_write (inner_db d) batch with
      | Ret db _ => Ret (MkCached db c) tt
      | Fail db e => Fail (MkCached db c) e
      | Crash => Crash
      end
  | Fail c e => Fail (MkCached (inner_db d) c) e
  | Crash => Crash
  end.

#[export] Instance cached_utxo_db : UtxoDb (CacheUtxosByPkh D) := {|
  get_utxo := cached_get_utxo;
  utxo_iterator := cached_utxo_iterator;
  utxo_iterator_by_pkh := cached_utxo_iterator_by_pkh;
  utxo_write := cached_write;
|}.
End cached.
