(* ===== verification/UtxoDbCorrect.v ===== *)
(** * Databases of unspent outputs: correctness

    The text form of a pointer can be read back; a [Storage] wrapped by
    [UtxoDbWrapStorage] and a database with the cache of [CacheUtxosByPkh] both
    meet the contract [UtxoDbLaws] of UtxoDb.v, so that any stack of them does. *)

From stdpp Require Import base tactics numbers list gmap.
From Stdlib Require Import ZArith Lia.
From S2P Require Import Prelude Hashes Transaction Storage UtxoDb.
Local Open Scope Z_scope.
Local Open Scope rust_scope.

(** What the code relies on of the [hex] and [bincode] crates: decoding undoes
    encoding. *)
Class CodecLaws `{Codecs} := {
  decode_law n h : bytes_of_len n h → decode_to_slice (hash_to_string h) n = Ok h;
  bincode_law v : ∃ b, bincode_serialize v = Some b ∧ bincode_deserialize b = Some v;
}.

(** ** Reading back the text form *)

(** Digits and letters of hexadecimal numbers. *)
Definition alnum (c : Z) : Prop := 48 ≤ c ≤ 57 ∨ 97 ≤ c ≤ 102.

Lemma hex_digit_alnum d : 0 ≤ d < 16 → alnum (hex_digit d).
Proof. unfold hex_digit, alnum. case_decide; lia. Qed.

Lemma hash_to_string_bind h : hash_to_string h = h ≫= byte_hex.
Proof.
  assert (∀ acc, foldl (λ acc x, acc ++ byte_hex x) acc h = acc ++ (h ≫= byte_hex)) as Hfold; [|apply Hfold].
  induction h as [|x h IH]; intros acc; simpl; [by rewrite app_nil_r|]. by rewrite IH, <-app_assoc.
Qed.

Lemma hash_to_string_alnum h : Forall (fits 256) h → Forall alnum (hash_to_string h).
Proof.
  rewrite hash_to_string_bind. induction 1 as [|x h [? ?] _ IH]; simpl; [done|].
  repeat apply Forall_cons_2; try apply IH; apply hex_digit_alnum; [|apply Z.mod_pos_bound; lia].
  split; [apply Z.div_pos; lia|apply Z.div_lt_upper_bound; lia].
Qed.

Lemma digits_decimal fuel n : 0 ≤ n → Forall (λ c, 48 ≤ c ≤ 57) (digits fuel n).
Proof.
  revert n. induction fuel as [|fuel IH]; intros n Hn; simpl; [done|]. case_decide.
  - by repeat constructor; lia.
  - pose proof (Z.mod_pos_bound n 10). apply Forall_app_2; [apply IH, Z.div_pos; lia|repeat constructor; lia].
Qed.

Lemma digits_nonempty fuel n : digits (S fuel) n ≠ [].
Proof. simpl. case_decide; [done|]. by intros [_ [=]]%app_nil. Qed.

Lemma parse_digits_app acc a b : parse_digits acc (a ++ b) = rbind (parse_digits acc a) (λ v, parse_digits v b).
Proof.
  revert acc. induction a as [|c a IH]; intros acc; simpl; [done|]. case_decide; [|done].
  destruct (checked_mul _ _ _); [|done]. destruct (checked_add _ _ _); simpl; [apply IH|done].
Qed.

Lemma parse_digits_digits fuel n :
  0 ≤ n < U32 → n < 10 ^ Z.of_nat fuel → (0 < fuel)%nat → parse_digits 0 (digits fuel n) = Ok n.
Proof.
  revert n. induction fuel as [|fuel IH]; intros n Hn Hf Hpos; [lia|].
  cbn [digits]. case_decide as H10.
  - cbn [parse_digits]. rewrite decide_True by lia. unfold checked_mul, checked_add. unfold_moduli.
    rewrite decide_True by lia. simpl. rewrite decide_True by lia. simpl. f_equal. lia.
  - pose proof (Z.div_mod n 10). pose proof (Z.mod_pos_bound n 10).
    rewrite Nat2Z.inj_succ, Z.pow_succ_r in Hf by lia.
    rewrite parse_digits_app, IH; [|lia| |destruct fuel; simpl in Hf; lia].
    + cbn [rbind parse_digits]. rewrite decide_True by lia. unfold checked_mul, checked_add. unfold_moduli.
      rewrite decide_True by lia. cbn [ok_or]. rewrite decide_True by lia. cbn [ok_or rbind]. f_equal. lia.
    + apply Z.div_lt_upper_bound; lia.
Qed.

Lemma parse_u32_decimal s :
  s ≠ [] → Forall (λ c, 48 ≤ c ≤ 57) s → parse_u32 s = parse_digits 0 s.
Proof.
  destruct s as [|c s]; [done|]. intros _ [Hc _]%Forall_cons. unfold parse_u32.
  rewrite decide_False by lia. by rewrite decide_False by lia.
Qed.

Lemma u32_roundtrip n : fits U32 n → parse_u32 (u32_to_string n) = Ok n.
Proof.
  intros Hn. unfold u32_to_string. rewrite parse_u32_decimal; [|apply digits_nonempty|apply digits_decimal, Hn].
  apply parse_digits_digits; [done| |lia]. destruct Hn. unfold_moduli. lia.
Qed.

Lemma split_app sep a b : sep ∉ a → split sep (a ++ sep :: b) = a :: split sep b.
Proof.
  induction a as [|c a IH]; intros Ha; cbn [split app]; [by rewrite decide_True|].
  rewrite not_elem_of_cons in Ha. destruct Ha as [? Ha]. rewrite decide_False by congruence. by rewrite IH.
Qed.
Lemma split_none sep a : sep ∉ a → split sep a = [a].
Proof.
  induction a as [|c a IH]; intros Ha; cbn [split]; [done|].
  rewrite not_elem_of_cons in Ha. destruct Ha as [? Ha]. rewrite decide_False by congruence. by rewrite IH.
Qed.

Lemma trim_start_plain s : Forall (λ c, is_whitespace c = false) s → trim_start s = s.
Proof. intros Hs. destruct Hs as [|c s Hc Hs]; simpl; [done|]. by rewrite Hc. Qed.
Lemma trim_plain s : Forall (λ c, is_whitespace c = false) s → trim s = s.
Proof.
  intros Hs. unfold trim. rewrite (trim_start_plain s Hs), trim_start_plain; [apply reverse_involutive|].
  by apply Forall_reverse.
Qed.

(** The characters of a pointer: the colon and the ones above. *)
Lemma pointer_chars o : valid_pointer o → Forall (λ c, c = 58 ∨ alnum c) (pointer_to_string o).
Proof.
  intros [[_ Hh] Hi]. unfold pointer_to_string. rewrite !Forall_app. split_and!.
  - eapply Forall_impl; [by apply hash_to_string_alnum|naive_solver].
  - repeat constructor.
  - eapply Forall_impl; [apply digits_decimal, Hi|]. unfold alnum. naive_solver lia.
Qed.

Lemma no_colon s : Forall alnum s → 58 ∉ s.
Proof. rewrite Forall_forall. intros Hs ?%Hs. unfold alnum in *. lia. Qed.

Section roundtrip.
Context `{CodecLaws}.

Lemma pointer_reads_back o : valid_pointer o → pointer_from_str (pointer_to_string o) = Ok o.
Proof.
  intros Ho. pose proof Ho as [[Hl Hh] Hi]. unfold pointer_from_str.
  assert (trim (pointer_to_string o) = pointer_to_string o) as ->.
  { apply trim_plain. eapply Forall_impl; [by apply pointer_chars|]. unfold is_whitespace, alnum.
    intros c Hc. apply bool_decide_eq_false. lia. }
  rewrite bool_decide_true by (unfold pointer_to_string; set_solver). cbn [negb].
  assert (split 58 (pointer_to_string o) = [hash_to_string (transaction_id o); u32_to_string (output_index o)]) as ->.
  { etrans; [apply (split_app 58 (hash_to_string (transaction_id o)) (u32_to_string (output_index o)))|].
    - by apply no_colon, hash_to_string_alnum.
    - rewrite split_none; [done|]. apply no_colon.
      eapply Forall_impl; [apply digits_decimal, Hi|]. unfold alnum. lia. }
  cbn [lookup list_lookup ok_or rbind]. unfold hash_from_str. rewrite decode_law by done. cbn [map_err rbind].
  rewrite u32_roundtrip by done. cbn [map_err rbind]. by destruct o.
Qed.

Lemma utxo_key_inj k k' : valid_pointer k → valid_pointer k' → utxo_key k = utxo_key k' → k = k'.
Proof.
  intros Hk Hk' Heq%(inj (app utxo_prefix)). apply pointer_reads_back in Hk, Hk'. congruence.
Qed.

Lemma utxo_key_prefix k : utxo_prefix `prefix_of` utxo_key k.
Proof. by exists (pointer_to_string k). Qed.

Lemma from_utf8_ascii s : Forall (λ c, c < 128) s → from_utf8 s = Some s.
Proof. induction 1 as [|c s Hc _ IH]; [done|]. cbn [from_utf8]. rewrite decide_True by done. by rewrite IH. Qed.
Lemma strip_prefix_app p s : strip_prefix p (p ++ s) = Some s.
Proof. induction p as [|c p IH]; [done|]. cbn [strip_prefix app]. by rewrite decide_True. Qed.

Lemma decode_entry_key k b u :
  valid_pointer k → bincode_deserialize b = Some u → decode_entry (utxo_key k, b) = Some (k, u).
Proof.
  intros Hk Hb. unfold decode_entry. cbn [fst snd].
  rewrite from_utf8_ascii.
  - cbn [mbind option_bind]. unfold utxo_key. rewrite strip_prefix_app. cbn [mbind option_bind].
    rewrite pointer_reads_back by done. by rewrite Hb.
  - apply Forall_app_2; [by repeat constructor|].
    eapply Forall_impl; [by apply pointer_chars|]. unfold alnum. lia.
Qed.
End roundtrip.

(** ** [UtxoDbWrapStorage] meets the contract *)

Section wrap_laws.
Context `{CodecLaws, StorageLaws St}.
Implicit Types (m : gmap OutputPointer Utxo) (c : gmap bytes bytes).

(** The contents [c] of the storage represent the outputs [m]. *)
Record represents c m : Prop := {
  rep_valid k : is_Some (m !! k) → valid_pointer k;
  rep_lookup k : valid_pointer k →
    match m !! k with
    | Some u => ∃ b, c !! utxo_key k = Some b ∧ bincode_deserialize b = Some u
    | None => c !! utxo_key k = None
    end;
  rep_key key : utxo_prefix `prefix_of` key → is_Some (c !! key) → ∃ k, valid_pointer k ∧ key = utxo_key k;
}.

Definition wrap_holds (d : UtxoDbWrapStorage St) m : Prop := ∃ c, holds (wrapped d) c ∧ represents c m.

Lemma rep_entry c m key b :
  represents c m → utxo_prefix `prefix_of` key → c !! key = Some b →
  ∃ k u, valid_pointer k ∧ key = utxo_key k ∧ m !! k = Some u ∧ bincode_deserialize b = Some u.
Proof.
  intros Hr Hp Hb. destruct (rep_key c m Hr key Hp) as (k & Hk & ->); [by eexists|].
  pose proof (rep_lookup c m Hr k Hk) as Hl. destruct (m !! k) as [u|] eqn:Hu; [|congruence].
  destruct Hl as (b' & Hb' & ?). exists k, u. by simplify_eq.
Qed.

Lemma wrap_get_law d m k : wrap_holds d m → valid_pointer k → get_utxo d k = Ok (m !! k).
Proof.
  intros (c & Hc & Hr) Hk. simpl. unfold wrap_get_utxo. rewrite (get_law _ _ _ Hc). cbn [rbind].
  pose proof (rep_lookup c m Hr k Hk) as Hl. destruct (m !! k) as [u|]; [|by rewrite Hl].
  destruct Hl as (b & -> & ->). done.
Qed.

Lemma wrap_iterator_law d m : wrap_holds d m → ∃ l, utxo_iterator d = Ok l ∧ l ≡ₚ map_to_list m.
Proof.
  intros (c & Hc & Hr). simpl. unfold wrap_utxo_iterator.
  destruct (prefix_law _ _ utxo_prefix Hc) as (l & -> & Hl). cbn [rbind].
  assert (∀ kv, kv ∈ l ↔ c !! kv.1 = Some kv.2 ∧ utxo_prefix `prefix_of` kv.1) as Hin.
  { intros [key b]. by rewrite Hl, elem_of_map_to_list, map_lookup_filter_Some. }
  destruct (mapM decode_entry l) as [l'|] eqn:Hm.
  - exists l'. split; [done|]. apply mapM_Some in Hm.
    assert (l.*1 = utxo_key <$> l'.*1 ∧ ∀ kv, kv ∈ l' → m !! kv.1 = Some kv.2) as [Hkeys Hsound].
    { assert (∀ kv, kv ∈ l → c !! kv.1 = Some kv.2 ∧ utxo_prefix `prefix_of` kv.1) as Hl1 by apply Hin.
      clear Hl Hin. induction Hm as [|[key b] [k u] l l' Hd _ IH]; [split; [done|by intros ? ?%elem_of_nil]|].
      destruct IH as [IH1 IH2]; [intros kv Hkv; apply Hl1; by right|].
      destruct (Hl1 (key, b)) as [Hb Hp]; [by left|].
      destruct (rep_entry c m key b Hr Hp Hb) as (k' & u' & Hk' & -> & Hu' & Hd').
      rewrite (decode_entry_key k' b u' Hk' Hd') in Hd. simplify_eq/=. split; [by rewrite IH1|].
      intros kv [->|?]%elem_of_cons; [done|by apply IH2]. }
    assert (NoDup l'.*1) as Hnd.
    { apply (NoDup_fmap_1 utxo_key). rewrite <-Hkeys, Hl. apply NoDup_fst_map_to_list. }
    apply NoDup_Permutation; [by apply NoDup_fmap_1 in Hnd|apply NoDup_map_to_list|].
    intros [k u]. rewrite elem_of_map_to_list. split; [by apply Hsound|]. intros Hu.
    pose proof (rep_valid c m Hr k (mk_is_Some _ _ Hu)) as Hk.
    pose proof (rep_lookup c m Hr k Hk) as Hlk. rewrite Hu in Hlk. destruct Hlk as (b & Hb & Hd).
    assert ((utxo_key k, b) ∈ l) as Hkb by (apply Hin; split; [done|apply utxo_key_prefix]).
    apply list_elem_of_lookup_1 in Hkb as [i Hi].
    destruct (Forall2_lookup_l _ _ _ _ _ Hm Hi) as (kv & Hkv & Hdec).
    rewrite (decode_entry_key k b u Hk Hd) in Hdec. injection Hdec as <-. by eapply list_elem_of_lookup_2.
  - exfalso. apply mapM_None in Hm. apply Exists_exists in Hm as ([key b] & Hkb & Hd).
    apply Hin in Hkb as [Hb Hp]. destruct (rep_entry c m key b Hr Hp Hb) as (k & u & Hk & -> & Hu & Hdb).
    by rewrite (decode_entry_key k b u Hk Hdb) in Hd.
Qed.

Lemma wrap_by_pkh_law d m pkh :
  wrap_holds d m → ∃ l, utxo_iterator_by_pkh d pkh = Ok l ∧ l ≡ₚ map_to_list (filter (owned_by pkh) m).
Proof.
  intros (l & Hl & Hperm)%wrap_iterator_law. simpl. unfold wrap_utxo_iterator_by_pkh.
  simpl in Hl. rewrite Hl. cbn [rbind]. eexists. split; [done|]. by apply filter_entries_perm.
Qed.

(** One item of a batch. *)
Lemma represents_item c m item raw :
  represents c m → item_ok ∅ item ∨ (∃ k, item = DeleteUtxo k ∧ valid_pointer k) → raw_item item = Some raw →
  represents (apply_item c raw) (apply_utxo_item m item).
Proof.
  intros Hr Hok Hraw. destruct item as [k v|k|[key v|key]]; simpl in Hraw.
  - destruct Hok as [[Hk _]|(? & [=] & _)].
    destruct (bincode_law v) as (b & Hs & Hb). rewrite Hs in Hraw. injection Hraw as <-. simpl. split.
    + intros k' Hk'. destruct (decide (k = k')) as [<-|Hne]; [done|].
      rewrite lookup_insert_ne in Hk' by done. by apply (rep_valid c m Hr).
    + intros k' Hk'. destruct (decide (k = k')) as [<-|Hne].
      * rewrite !lookup_insert_eq. by exists b.
      * rewrite !lookup_insert_ne; [by apply (rep_lookup c m Hr)|by intros ?%utxo_key_inj|done].
    + intros key Hp. destruct (decide (key = utxo_key k)) as [->|Hne]; [by eexists|].
      rewrite lookup_insert_ne by done. by apply (rep_key c m Hr).
  - assert (valid_pointer k) as Hk by (destruct Hok as [Hn|(? & [= <-] & ?)]; [by destruct Hn as [? [=]]|done]).
    injection Hraw as <-. simpl. split.
    + intros k' [_ Hk']%lookup_delete_is_Some. by apply (rep_valid c m Hr).
    + intros k' Hk'. destruct (decide (k = k')) as [<-|Hne]; [by rewrite !lookup_delete_eq|].
      rewrite !lookup_delete_ne; [by apply (rep_lookup c m Hr)|by intros ?%utxo_key_inj|done].
    + intros key Hp [_ ?]%lookup_delete_is_Some. by apply (rep_key c m Hr).
  - destruct Hok as [Hn|(? & [=] & _)]. injection Hraw as <-. simpl. split; [apply (rep_valid c m Hr)| |].
    + intros k Hk. rewrite lookup_insert_ne; [by apply (rep_lookup c m Hr)|]. intros ->. apply Hn, utxo_key_prefix.
    + intros key' Hp. rewrite lookup_insert_ne by (by intros ->). by apply (rep_key c m Hr).
  - destruct Hok as [Hn|(? & [=] & _)]. injection Hraw as <-. simpl. split; [apply (rep_valid c m Hr)| |].
    + intros k Hk. rewrite lookup_delete_ne; [by apply (rep_lookup c m Hr)|]. intros ->. apply Hn, utxo_key_prefix.
    + intros key' Hp [_ ?]%lookup_delete_is_Some. by apply (rep_key c m Hr).
Qed.

Lemma raw_items_total items : ∃ raws, mapM raw_item items = Some raws.
Proof.
  apply mapM_is_Some_2, Forall_forall. intros [k v|k|x] _; simpl; [|by eexists..].
  destruct (bincode_law v) as (b & -> & _). by eexists.
Qed.

Lemma represents_batch items : ∀ raws c m,
  represents c m → Forall (λ i, item_ok ∅ i ∨ ∃ k, i = DeleteUtxo k ∧ valid_pointer k) items →
  mapM raw_item items = Some raws → represents (apply_items c raws) (apply_utxo_batch m items).
Proof.
  induction items as [|item items IH]; intros raws c m Hr Hok Hraw.
  - simpl in Hraw. by injection Hraw as <-.
  - apply Forall_cons in Hok as [Hi Hok]. apply bind_Some in Hraw as (raw & Hraw & (raws' & Hraws & [= <-])%bind_Some).
    unfold apply_items, apply_utxo_batch. simpl. apply IH; [by eapply represents_item|done..].
Qed.

Lemma wrap_write_law d m items :
  wrap_holds d m → batch_ok m items →
  ∃ d', utxo_write d items = Ret d' tt ∧ wrap_holds d' (apply_utxo_batch m items).
Proof.
  intros (c & Hc & Hr) [_ Hok]. simpl. unfold wrap_write.
  destruct (raw_items_total items) as (raws & Hraws). rewrite Hraws.
  destruct (write_law _ _ raws Hc) as (s' & -> & Hs'). eexists. split; [done|].
  exists (apply_items c raws). split; [done|]. apply represents_batch; [done| |done].
  eapply Forall_impl; [exact Hok|]. intros [k v|k|[key v|key]] Hi; simpl in *; [|right; exists k|by left..].
  - left. split; [apply Hi|done].
  - split; [done|]. by apply (rep_valid c m Hr).
Qed.

#[export] Program Instance wrap_laws : UtxoDbLaws (UtxoDbWrapStorage St) := {| db_holds := wrap_holds |}.
Next Obligation. intros d m k (c & _ & Hr). apply (rep_valid c m Hr). Qed.
Next Obligation. apply wrap_get_law. Qed.
Next Obligation. apply wrap_iterator_law. Qed.
Next Obligation. apply wrap_by_pkh_law. Qed.
Next Obligation. apply wrap_write_law. Qed.
End wrap_laws.

(** ** [CacheUtxosByPkh] meets the contract *)

Section cache_laws.
Context `{UtxoDbLaws D}.
Implicit Types (m : gmap OutputPointer Utxo) (c : gmap PublicKeyHash (gset OutputPointer)).

(** The cache lists exactly the outputs of each address, without empty sets. *)
Definition cache_exact c m : Prop :=
  (∀ pkh, c !! pkh ≠ Some ∅)
  ∧ ∀ pkh k, k ∈ default ∅ (c !! pkh) ↔ ∃ v, m !! k = Some v ∧ out_pkh v.1 = pkh.

Definition cached_holds (d : CacheUtxosByPkh D) m : Prop := db_holds (inner_db d) m ∧ cache_exact (cache d) m.

Lemma cache_insert_elem c k v pkh k' :
  k' ∈ default ∅ (cache_insert c k v !! pkh)
  ↔ (k' = k ∧ out_pkh v.1 = pkh) ∨ k' ∈ default ∅ (c !! pkh).
Proof.
  unfold cache_insert. destruct (decide (out_pkh v.1 = pkh)) as [<-|Hne].
  - rewrite lookup_insert_eq. simpl. set_solver.
  - rewrite lookup_insert_ne by done. naive_solver.
Qed.

Lemma cache_insert_nonempty c k v pkh :
  (∀ pkh, c !! pkh ≠ Some ∅) → cache_insert c k v !! pkh ≠ Some ∅.
Proof.
  intros Hc. unfold cache_insert. destruct (decide (out_pkh v.1 = pkh)) as [<-|Hne].
  - rewrite lookup_insert_eq. intros [= Heq]. set_solver.
  - by rewrite lookup_insert_ne.
Qed.

Lemma cache_exact_put c m k v :
  m !! k = None → cache_exact c m → cache_exact (cache_insert c k v) (<[k := v]> m).
Proof.
  intros Hk [Hne Hc]. split; [intros pkh; by apply cache_insert_nonempty|].
  intros pkh k'. rewrite cache_insert_elem, Hc. destruct (decide (k' = k)) as [->|Hn].
  - rewrite lookup_insert_eq. naive_solver.
  - rewrite lookup_insert_ne by done. naive_solver.
Qed.

Lemma cache_exact_delete c m k v hs :
  m !! k = Some v → c !! out_pkh v.1 = Some hs → cache_exact c m →
  cache_exact (if decide (hs ∖ {[ k ]} = ∅) then delete (out_pkh v.1) c else <[out_pkh v.1 := hs ∖ {[ k ]}]> c)
    (delete k m).
Proof.
  intros Hk Hhs [Hne Hc].
  assert (∀ pkh, default ∅ ((if decide (hs ∖ {[ k ]} = ∅) then delete (out_pkh v.1) c
    else <[out_pkh v.1 := hs ∖ {[ k ]}]> c) !! pkh) = default ∅ (c !! pkh) ∖ {[ k ]}) as Hset.
  { intros pkh. destruct (decide (out_pkh v.1 = pkh)) as [<-|Hn].
    - rewrite Hhs. case_decide as He; [rewrite lookup_delete_eq|rewrite lookup_insert_eq]; simpl; [by rewrite He|done].
    - assert (k ∉ default ∅ (c !! pkh)) as Hnk by (rewrite Hc; naive_solver).
      case_decide; [rewrite lookup_delete_ne by done|rewrite lookup_insert_ne by done]; set_solver. }
  split.
  - intros pkh. case_decide as He.
    + intros [_ ?]%lookup_delete_Some. by eapply Hne.
    + intros [[<- ?]|[_ ?]]%lookup_insert_Some; [done|by eapply Hne].
  - intros pkh k'. rewrite Hset, elem_of_difference, Hc, elem_of_singleton.
    setoid_rewrite lookup_delete_Some. naive_solver.
Qed.

(** The update of the cache by an accepted batch never panics, although it reads
    the database before the batch. *)
Lemma cache_write_spec d m items : ∀ m' c,
  db_holds d m → NoDup (omap touched items) → Forall (item_ok m) items →
  (∀ k, k ∈ omap touched items → m' !! k = m !! k) → cache_exact c m' →
  ∃ c', cache_write d c items = Ret c' tt ∧ cache_exact c' (apply_utxo_batch m' items).
Proof.
  induction items as [|item items IH]; intros m' c Hd Hnd Hok Hsame Hc; [by eexists|].
  apply Forall_cons in Hok as [Hi Hok]. destruct item as [k v|k|x]; cbn [omap list_omap touched] in *.
  - apply NoDup_cons in Hnd as [Hk Hnd]. cbn [cache_write].
    apply (IH (<[k := v]> m')); [done..| |].
    + intros k' Hk'. rewrite lookup_insert_ne by (by intros <-). apply Hsame. by right.
    + apply cache_exact_put; [|done]. rewrite Hsame by left. apply Hi.
  - apply NoDup_cons in Hnd as [Hk Hnd]. destruct Hi as [v Hv]. cbn [cache_write].
    rewrite (get_utxo_law d m k Hd) by (by eapply db_valid). rewrite Hv. cbn beta iota zeta.
    assert (m' !! k = Some v) as Hv' by (rewrite Hsame by left; done).
    assert (k ∈ default ∅ (c !! out_pkh v.1)) as Hin by (apply Hc; by exists v).
    destruct (c !! out_pkh v.1) as [hs|] eqn:Hhs; [|by apply not_elem_of_empty in Hin].
    apply (IH (delete k m')); [done..| |by apply cache_exact_delete].
    intros k' Hk'. rewrite lookup_delete_ne by (by intros <-). apply Hsame. by right.
  - cbn [cache_write]. by apply (IH m').
Qed.

Lemma cached_by_pkh_law d m pkh : cached_holds d m →
  ∃ l, utxo_iterator_by_pkh d pkh = Ok l ∧ l ≡ₚ map_to_list (filter (owned_by pkh) m).
Proof.
  intros [Hd [_ Hc]]. simpl. unfold cached_utxo_iterator_by_pkh.
  set (ks := elements (default ∅ (cache d !! pkh))).
  assert (∀ k v, k ∈ ks → cached_entry (inner_db d) k = Some (k, v) ↔ m !! k = Some v ∧ out_pkh v.1 = pkh) as Hent.
  { intros k v (v' & Hv' & Hpkh)%elem_of_elements%Hc. unfold cached_entry.
    rewrite (get_utxo_law _ m k Hd) by (by eapply db_valid). rewrite Hv'. naive_solver. }
  assert (Forall (λ k, is_Some (cached_entry (inner_db d) k)) ks) as Hsome.
  { apply Forall_forall. intros k Hk. pose proof Hk as (v & Hv)%elem_of_elements%Hc.
    exists (k, v). by apply Hent. }
  apply mapM_is_Some_2 in Hsome as [l Hl]. rewrite Hl. exists l. split; [done|]. apply mapM_Some in Hl.
  assert (∀ k kv, cached_entry (inner_db d) k = Some kv → kv.1 = k) as Hfst.
  { intros k kv. unfold cached_entry. destruct (get_utxo _ _) as [[?|]| |]; naive_solver. }
  assert (l.*1 = ks) as Hkeys.
  { clear Hent. induction Hl as [|k kv ks' l Hk _ IH]; [done|]. by rewrite fmap_cons, IH, (Hfst k kv Hk). }
  apply NoDup_Permutation.
  - apply (NoDup_fmap_1 fst). rewrite Hkeys. apply NoDup_elements.
  - apply NoDup_map_to_list.
  - intros [k v]. rewrite elem_of_map_to_list, map_lookup_filter_Some. unfold owned_by. simpl. split.
    + intros [i Hi]%list_elem_of_lookup_1. destruct (Forall2_lookup_r _ _ _ _ _ Hl Hi) as (k' & Hk' & He).
      apply Hfst in He as Hk. simpl in Hk. subst k'. apply Hent; [by eapply list_elem_of_lookup_2|done].
    + intros Hv. assert (k ∈ ks) as Hk by (apply elem_of_elements, Hc; by exists v).
      apply list_elem_of_lookup_1 in Hk as [i Hi]. destruct (Forall2_lookup_l _ _ _ _ _ Hl Hi) as (kv & Hkv & He).
      apply (Hent k v) in Hv; [|by eapply list_elem_of_lookup_2]. rewrite Hv in He. injection He as <-.
      by eapply list_elem_of_lookup_2.
Qed.

Lemma cached_write_law d m items :
  cached_holds d m → batch_ok m items →
  ∃ d', utxo_write d items = Ret d' tt ∧ cached_holds d' (apply_utxo_batch m items).
Proof.
  intros [Hd Hc] Hok. pose proof Hok as [Hnd Hf]. simpl. unfold cached_write.
  destruct (cache_write_spec (inner_db d) m items m (cache d)) as (c' & -> & Hc'); [done..|].
  destruct (utxo_write_law (inner_db d) m items Hd Hok) as (d' & -> & Hd'). eexists. split; [done|]. by split.
Qed.

#[export] Program Instance cached_laws : UtxoDbLaws (CacheUtxosByPkh D) := {| db_holds := cached_holds |}.
Next Obligation. intros d m k [Hd _]. by apply (db_valid (inner_db d)). Qed.
Next Obligation. intros d m k [Hd _]. by apply (get_utxo_law (inner_db d)). Qed.
Next Obligation. intros d m [Hd _]. by apply (iterator_law (inner_db d)). Qed.
Next Obligation. apply cached_by_pkh_law. Qed.
Next Obligation. apply cached_write_law. Qed.

(** [CacheUtxosByPkh::new] builds the cache of the stored outputs. *)
Lemma cached_new_law d m : db_holds d m → ∃ d', cached_new d = Ok d' ∧ cached_holds d' m.
Proof.
  intros Hd. unfold cached_new. destruct (iterator_law d m Hd) as (l & -> & Hl). cbn [rbind].
  eexists. split; [done|]. split; [done|]. cbn [cache].
  assert (∀ c, (∀ pkh, c !! pkh ≠ Some ∅) →
    (∀ pkh, foldl (λ c kv, cache_insert c kv.1 kv.2) c l !! pkh ≠ Some ∅)
    ∧ ∀ pkh k, k ∈ default ∅ (foldl (λ c kv, cache_insert c kv.1 kv.2) c l !! pkh)
        ↔ k ∈ default ∅ (c !! pkh) ∨ ∃ v, (k, v) ∈ l ∧ out_pkh v.1 = pkh) as Hfold.
  { clear Hl. induction l as [|[k v] l IH]; intros c Hne; cbn [foldl fst snd].
    - split; [done|]. intros. setoid_rewrite elem_of_nil. naive_solver.
    - destruct (IH (cache_insert c k v)) as [IH1 IH2]; [intros; by apply cache_insert_nonempty|].
      split; [done|]. intros pkh k'. rewrite IH2, cache_insert_elem. setoid_rewrite elem_of_cons. naive_solver. }
  destruct (Hfold ∅) as [Hne Hin]; [done|]. split; [done|]. intros pkh k. rewrite Hin.
  setoid_rewrite Hl. setoid_rewrite elem_of_map_to_list. rewrite lookup_empty. simpl. set_solver.
Qed.
End cache_laws.

(** ** A stack of databases *)

(** Batches, each accepted by the outputs the ones before it leave. *)
Fixpoint batches_ok (m : gmap OutputPointer Utxo) (batches : list (list UtxoWriteBatchItem)) : Prop :=
  match batches with
  | [] => True
  | items :: batches => batch_ok m items ∧ batches_ok (apply_utxo_batch m items) batches
  end.

Fixpoint write_batches `{UtxoDb D} (d : D) (batches : list (list UtxoWriteBatchItem)) : exec D Failure unit :=
  match batches with
  | [] => Ret d tt
  | items :: batches => let! (d', _) := utxo_write d items in write_batches d' batches
  end.

Lemma write_batches_law `{UtxoDbLaws D} batches : ∀ d m,
  db_holds d m → batches_ok m batches →
  ∃ d', write_batches d batches = Ret d' tt ∧ db_holds d' (foldl apply_utxo_batch m batches).
Proof.
  induction batches as [|items batches IH]; intros d m Hd Hok; [by eexists|].
  destruct Hok as [Hi Hok]. destruct (utxo_write_law d m items Hd Hi) as (d1 & Hw & Hd1).
  cbn [write_batches]. rewrite Hw. cbn [ebind]. by apply IH.
Qed.

(** On any storage that starts without outputs, the cached database over
    the wrapped storage accepts every sequence of valid batches without a panic
    and then answers as the map of the outputs written and not deleted: lookups
    return its entries, and the iterator of an address, which reads only the
    cache, returns exactly the outputs of that address, each once. *)
Theorem utxo_database_stack_exact `{CodecLaws, StorageLaws St} (s : St) c batches :
  holds s c → (∀ key, utxo_prefix `prefix_of` key → c !! key = None) → batches_ok ∅ batches →
  let m := foldl apply_utxo_batch ∅ batches in
  ∃ d0 d : CacheUtxosByPkh (UtxoDbWrapStorage St),
    cached_new (Wrap s) = Ok d0 ∧ write_batches d0 batches = Ret d tt
    ∧ (∀ k, valid_pointer k → get_utxo d k = Ok (m !! k))
    ∧ ∀ pkh, ∃ l, utxo_iterator_by_pkh d pkh = Ok l ∧ l ≡ₚ map_to_list (filter (owned_by pkh) m).
Proof.
  intros Hs Hc Hok m. assert (db_holds (Wrap s) ∅) as Hd.
  { exists c. split; [done|]. split; [by intros k [? [=]]| |].
    - intros k _. apply Hc, utxo_key_prefix.
    - intros key Hp [? Hk]. by rewrite Hc in Hk. }
  destruct (cached_new_law _ _ Hd) as (d0 & Hnew & Hd0).
  destruct (write_batches_law batches d0 ∅) as (d & Hw & Hdm); [done..|].
  exists d0, d. split_and!; [done..|intros k; by apply get_utxo_law|]. intros pkh. by apply by_pkh_law.
Qed.

(** The text form of an output pointer, as used for the keys of the
    database and by the command line, reads back as the pointer. *)
Theorem output_pointer_roundtrip `{CodecLaws} o :
  valid_pointer o → pointer_from_str (pointer_to_string o) = Ok o.
Proof. apply pointer_reads_back. Qed.

(** ** Witnesses *)

(** Codecs that satisfy the laws. *)
Definition unhex (c : Z) : Z := if decide (c < 58) then c - 48 else c - 87.
Fixpoint unhex_pairs (s : list Z) : list Z :=
  match s with a :: b :: s => (unhex a * 16 + unhex b) :: unhex_pairs s | _ => [] end.
Definition toy_deserialize (b : bytes) : option Utxo :=
  match b with v :: t :: n :: pkh => Some (MkOutput pkh v t, n) | _ => None end.
Definition toy_codecs : Codecs := {|
  HexError := unit;
  decode_to_slice s n := Ok (unhex_pairs s);
  bincode_serialize u := Some (out_value u.1 :: out_time_lock u.1 :: u.2 :: out_pkh u.1);
  bincode_deserialize := toy_deserialize;
|}.

Lemma unhex_digit d : 0 ≤ d < 16 → unhex (hex_digit d) = d.
Proof. intros. unfold unhex, hex_digit. repeat case_decide; lia. Qed.

Lemma unhex_byte x : fits 256 x → unhex (hex_digit (x / 16)) * 16 + unhex (hex_digit (x mod 16)) = x.
Proof.
  intros [? ?]. pose proof (Z.div_mod x 16). pose proof (Z.mod_pos_bound x 16).
  rewrite !unhex_digit; [lia..|]. split; [apply Z.div_pos; lia|apply Z.div_lt_upper_bound; lia].
Qed.

Lemma toy_codec_laws : @CodecLaws toy_codecs.
Proof.
  split.
  - intros n h [_ Hh]. simpl. rewrite hash_to_string_bind. f_equal.
    induction Hh as [|x h Hx _ IH]; [done|]. cbn [mbind list_bind app byte_hex unhex_pairs].
    by rewrite IH, unhex_byte.
  - intros [[p v t] n]. by eexists.
Qed.

Definition toy_pointer (i : Z) : OutputPointer := MkPointer (replicate 32 171) i.

Lemma toy_pointer_valid i : fits U32 i → valid_pointer (toy_pointer i).
Proof. intros Hi. split; [|done]. split; [done|]. by apply Forall_replicate. Qed.

(** Two outputs of one address and one of another; then one is deleted. *)
Definition toy_batches : list (list UtxoWriteBatchItem) :=
  [ [PutUtxo (toy_pointer 0) (MkOutput [1] 10 0, 1); PutUtxo (toy_pointer 1) (MkOutput [1] 20 0, 1);
     PutUtxo (toy_pointer 2) (MkOutput [2] 30 0, 1)];
    [DeleteUtxo (toy_pointer 1); PutUtxo (toy_pointer 3) (MkOutput [2] 5 0, 2)] ].

Lemma toy_batches_ok : batches_ok ∅ toy_batches.
Proof.
  repeat split; repeat (apply Forall_cons; split); try apply Forall_nil; simpl;
    try (split; [apply toy_pointer_valid; unfold fits; unfold_moduli; lia|]);
    try (apply (bool_decide_unpack _); by vm_compute).
Qed.

Lemma utxo_database_stack_exact_witness :
  let H := toy_codecs in
  let m := foldl apply_utxo_batch ∅ toy_batches in
  ∃ d0 d : CacheUtxosByPkh (UtxoDbWrapStorage Backend),
    cached_new (Wrap (∅ : Backend)) = Ok d0 ∧ write_batches d0 toy_batches = Ret d tt
    ∧ (∀ k, valid_pointer k → get_utxo d k = Ok (m !! k))
    ∧ ∀ pkh, ∃ l, utxo_iterator_by_pkh d pkh = Ok l ∧ l ≡ₚ map_to_list (filter (owned_by pkh) m).
Proof.
  apply (@utxo_database_stack_exact toy_codecs toy_codec_laws Backend _ _ ∅ ∅ toy_batches);
    [done|intros; apply lookup_empty|apply toy_batches_ok].
Defined.

Lemma output_pointer_roundtrip_witness :
  @pointer_from_str toy_codecs (pointer_to_string (toy_pointer 1234567890)) = Ok (toy_pointer 1234567890).
Proof.
  apply (@output_pointer_roundtrip toy_codecs toy_codec_laws).
  apply toy_pointer_valid. unfold fits. unfold_moduli. lia.
Defined.
