(* ===== verification/Utxo.v ===== *)
(** * The unspent outputs pool

    Models data_structures/src/utxo_pool.rs: the pool of unspent outputs as a
    database with pending changes, the changes of a block ([UtxoDiff]), their
    application and persistence, and the outputs owned by the node.

    The pool is generic in the database ([UtxoDb] of UtxoDb.v).  [None] is a
    panic: a failed [assert!], or [expect] on a database error.  Hash tables are
    visited in the order of [map_to_list] and [elements]. *)

From stdpp Require Import base tactics numbers list gmap sorting.
From Stdlib Require Import ZArith Lia.
From S2P Require Import Prelude Hashes Transaction Storage UtxoDb.
Local Open Scope Z_scope.

(** ** Pending changes *)

Record Diff := MkDiff {
  utxos_to_add : gmap OutputPointer Utxo;
  utxos_to_remove : gset OutputPointer;
}.
Definition diff_new : Diff := MkDiff ∅ ∅.

(** [Diff::visit], with the shared state threaded through. *)
Definition diff_visit {A} (d : Diff) (args : A) (fn_add : A → OutputPointer → ValueTransferOutput → A)
    (fn_remove : A → OutputPointer → A) : A :=
  let args := foldl (λ a kv, fn_add a kv.1 kv.2.1) args (map_to_list (utxos_to_add d)) in
  foldl fn_remove args (elements (utxos_to_remove d)).

Record UnspentOutputsPool (D : Type) := MkUtxoPool { diff : Diff; db : option D }.
Arguments MkUtxoPool {D} diff db.
Arguments diff {D} _.
Arguments db {D} _.

Section pool.
Context `{UtxoDb D}.
Implicit Types p : UnspentOutputsPool D.

(** ** Reads *)

Definition db_get p (k : OutputPointer) : option (option Utxo) :=
  match db p with
  | None => Some None
  | Some d => match get_utxo d k with Ok o => Some o | _ => None end
  end.

Definition get_map p (k : OutputPointer) : option (option Utxo) :=
  if decide (k ∈ utxos_to_remove (diff p)) then Some None
  else match utxos_to_add (diff p) !! k with
       | Some x => Some (Some x)
       | None => db_get p k
       end.

Definition pool_get p (k : OutputPointer) : option (option ValueTransferOutput) :=
  o ← get_map p k; Some (fst <$> (o : option Utxo)).
Definition contains_key p (k : OutputPointer) : option bool :=
  o ← get_map p k; Some (bool_decide (is_Some o)).
Definition included_in_block_number p (k : OutputPointer) : option (option Z) :=
  o ← get_map p k; Some (snd <$> (o : option Utxo)).

Definition db_iter p : option (list (OutputPointer * Utxo)) :=
  match db p with
  | None => Some []
  | Some d => match utxo_iterator d with Ok l => Some l | _ => None end
  end.

Definition not_removed p (kv : OutputPointer * Utxo) : Prop := kv.1 ∉ utxos_to_remove (diff p).
#[export] Instance not_removed_dec p kv : Decision (not_removed p kv).
Proof. unfold not_removed. apply _. Defined.

Definition pool_iter p : option (list (OutputPointer * Utxo)) :=
  stored ← db_iter p;
  Some (filter (not_removed p) (map_to_list (utxos_to_add (diff p)) ++ stored)).

(** [visit]: the outputs each of the two functions is called with, in order. *)
Definition pool_visit p : option (list (OutputPointer * Utxo) * list (OutputPointer * Utxo)) :=
  stored ← db_iter p;
  Some (stored, filter (not_removed p) (map_to_list (utxos_to_add (diff p)) ++ stored)).
Definition visit_with_pkh p (pkh : PublicKeyHash) :
    option (list (OutputPointer * Utxo) * list (OutputPointer * Utxo)) :=
  stored ← match db p with
           | None => Some []
           | Some d => match utxo_iterator_by_pkh d pkh with Ok l => Some l | _ => None end
           end;
  Some (stored, filter (not_removed p) (filter (owned_by pkh) (map_to_list (utxos_to_add (diff p))) ++ stored)).

(** ** Changes in memory *)

Definition pool_insert p (k : OutputPointer) (v : ValueTransferOutput) (block_number : Z) :
    option (UnspentOutputsPool D) :=
  match utxos_to_add (diff p) !! k with
  | Some _ => None
  | None =>
      Some (MkUtxoPool (MkDiff (<[k := (v, block_number)]> (utxos_to_add (diff p))) (utxos_to_remove (diff p))) (db p))
  end.
Definition pool_remove p (k : OutputPointer) : option (UnspentOutputsPool D) :=
  if decide (k ∈ utxos_to_remove (diff p)) then None
  else Some (MkUtxoPool (MkDiff (utxos_to_add (diff p)) ({[ k ]} ∪ utxos_to_remove (diff p))) (db p)).

(** [Diff::apply]. *)
Definition diff_apply (d : Diff) p : option (UnspentOutputsPool D) :=
  p ← foldl (λ acc kv, p ← acc; pool_insert p kv.1 kv.2.1 kv.2.2) (Some p) (map_to_list (utxos_to_add d));
  foldl (λ acc k, p ← acc; pool_remove p k) (Some p) (elements (utxos_to_remove d)).

(** ** Persistence *)

(** [db_insert] and [db_remove] push an item on the batch. *)
Definition db_insert p (batch : list UtxoWriteBatchItem) (k : OutputPointer) (v : Utxo) :
    option (list UtxoWriteBatchItem) :=
  old_vto ← get_map p k;
  match old_vto with None => Some (batch ++ [PutUtxo k v]) | Some _ => None end.
Definition db_remove p (batch : list UtxoWriteBatchItem) (k : OutputPointer) : option (list UtxoWriteBatchItem) :=
  old_vto ← get_map p k;
  match old_vto with Some _ => Some (batch ++ [DeleteUtxo k]) | None => None end.

(** The loop over the added outputs, with the outputs still to be removed. *)
Fixpoint persist_adds p (to_remove : gset OutputPointer) (batch : list UtxoWriteBatchItem)
    (adds : list (OutputPointer * Utxo)) : option (gset OutputPointer * list UtxoWriteBatchItem) :=
  match adds with
  | [] => Some (to_remove, batch)
  | (k, v) :: adds =>
      if decide (k ∈ to_remove) then
        old_vto ← get_map p k;
        match old_vto with None => persist_adds p (to_remove ∖ {[ k ]}) batch adds | Some _ => None end
      else batch' ← db_insert p batch k v; persist_adds p to_remove batch' adds
  end.
Fixpoint persist_removes p (batch : list UtxoWriteBatchItem) (removes : list OutputPointer) :
    option (list UtxoWriteBatchItem) :=
  match removes with
  | [] => Some batch
  | k :: removes => batch' ← db_remove p batch k; persist_removes p batch' removes
  end.

Definition persist_add_to_batch p (batch : list UtxoWriteBatchItem) :
    option (UnspentOutputsPool D * list UtxoWriteBatchItem) :=
  let p' := MkUtxoPool diff_new (db p) in
  r ← persist_adds p' (utxos_to_remove (diff p)) batch (map_to_list (utxos_to_add (diff p)));
  batch ← persist_removes p' r.2 (elements r.1);
  Some (p', batch).

(** [db.as_mut().expect(..).write(batch).expect(..)]. *)
Definition write_batch p (batch : list UtxoWriteBatchItem) : option (UnspentOutputsPool D) :=
  d ← db p;
  match utxo_write d batch with Ret d' _ => Some (MkUtxoPool (diff p) (Some d')) | _ => None end.

Definition persist p : option (UnspentOutputsPool D) :=
  r ← persist_add_to_batch p []; write_batch r.1 r.2.

Fixpoint forget_adds (m : gmap OutputPointer Utxo) (ks : list OutputPointer) : option (gmap OutputPointer Utxo) :=
  match ks with
  | [] => Some m
  | k :: ks => _ ← m !! k; forget_adds (delete k m) ks
  end.
Fixpoint forget_removes (s : gset OutputPointer) (ks : list OutputPointer) : option (gset OutputPointer) :=
  match ks with
  | [] => Some s
  | k :: ks => if decide (k ∈ s) then forget_removes (s ∖ {[ k ]}) ks else None
  end.
Definition remove_persisted_from_memory p (persisted : Diff) : option (UnspentOutputsPool D) :=
  adds ← forget_adds (utxos_to_add (diff p)) (map_to_list (utxos_to_add persisted)).*1;
  removes ← forget_removes (utxos_to_remove (diff p)) (elements (utxos_to_remove persisted));
  Some (MkUtxoPool (MkDiff adds removes) (db p)).

(** [migrate_old_unspent_outputs_pool_to_db], without the progress report; the
    old pool is left empty. *)
Definition OldUnspentOutputsPool : Type := gmap OutputPointer Utxo.
Definition migrate_old_unspent_outputs_pool_to_db p (old : OldUnspentOutputsPool) :
    option (UnspentOutputsPool D * OldUnspentOutputsPool) :=
  batch ← foldl (λ acc kv, batch ← acc; db_insert p batch kv.1 kv.2) (Some []) (map_to_list old);
  p' ← write_batch p batch;
  Some (p', ∅).

(** [delete_all_from_db_batch] and [delete_all_from_db]. *)
Definition delete_all_from_db_batch p (batch : list UtxoWriteBatchItem) : option (list UtxoWriteBatchItem * nat) :=
  l ← db_iter p;
  Some (batch ++ ((λ kv : OutputPointer * Utxo, DeleteUtxo kv.1) <$> l), length l).
Definition delete_all_from_db p : option (UnspentOutputsPool D * nat) :=
  r ← delete_all_from_db_batch p [];
  p' ← write_batch p r.1;
  Some (p', r.2).

(** ** The changes of a block *)

Record UtxoDiff := MkUtxoDiff { udiff : Diff; utxo_set : UnspentOutputsPool D; ublock_number : Z }.

Definition utxo_diff_new p (block_number : Z) : UtxoDiff := MkUtxoDiff diff_new p block_number.

Definition insert_utxo (u : UtxoDiff) (k : OutputPointer) (output : ValueTransferOutput)
    (block_number : option Z) : UtxoDiff :=
  MkUtxoDiff (MkDiff (<[k := (output, default (ublock_number u) block_number)]> (utxos_to_add (udiff u)))
                (utxos_to_remove (udiff u))) (utxo_set u) (ublock_number u).

Definition remove_utxo (u : UtxoDiff) (k : OutputPointer) : UtxoDiff :=
  match utxos_to_add (udiff u) !! k with
  | Some _ =>
      MkUtxoDiff (MkDiff (delete k (utxos_to_add (udiff u))) (utxos_to_remove (udiff u))) (utxo_set u) (ublock_number u)
  | None =>
      MkUtxoDiff (MkDiff (utxos_to_add (udiff u)) ({[ k ]} ∪ utxos_to_remove (udiff u))) (utxo_set u) (ublock_number u)
  end.

Definition utxo_diff_get (u : UtxoDiff) (k : OutputPointer) : option (option ValueTransferOutput) :=
  o ← pool_get (utxo_set u) k;
  let o := match o with Some v => Some v | None => fst <$> utxos_to_add (udiff u) !! k end in
  Some (v ← o; if decide (k ∈ utxos_to_remove (udiff u)) then None else Some v).

Definition take_diff (u : UtxoDiff) : Diff := udiff u.

Definition utxo_diff_included_in_block_number (u : UtxoDiff) (k : OutputPointer) : option (option Z) :=
  o ← included_in_block_number (utxo_set u) k;
  Some (n ← o; if decide (k ∈ utxos_to_remove (udiff u)) then None else Some n).

(** ** The outputs of the node *)

(** [OwnUnspentOutputsPool]: when each output was last used. *)
Definition OwnUnspentOutputsPool : Type := gmap OutputPointer Z.

(** [unwrap] of every element. *)
Definition sequence {A} (l : list (option A)) : option (list A) := mapM id l.

(** [sort]: [sorted_by_key] is stable. *)
Definition sort_key (all_utxos : UnspentOutputsPool D) (bigger_first : bool) (o : OutputPointer) : option Z :=
  v ← pool_get all_utxos o;
  let value := default 0 (out_value <$> v) in
  Some (if bigger_first then - value else value).
Definition by_sort_key (x y : Z * OutputPointer) : Prop := x.1 ≤ y.1.
#[export] Instance by_sort_key_dec : RelDecision by_sort_key.
Proof. intros x y. unfold by_sort_key. apply _. Defined.
Definition own_sort (own : OwnUnspentOutputsPool) (all_utxos : UnspentOutputsPool D) (bigger_first : bool) :
    option (list OutputPointer) :=
  keyed ← sequence ((λ kv : OutputPointer * Z, i ← sort_key all_utxos bigger_first kv.1; Some (i, kv.1))
                      <$> map_to_list own);
  Some (merge_sort by_sort_key keyed).*2.

(** [get_balance]: an output that is not in the pool is a panic. *)
Definition get_balance (own : OwnUnspentOutputsPool) (all_utxos : UnspentOutputsPool D) : option Z :=
  values ← sequence ((λ kv : OutputPointer * Z, o ← pool_get all_utxos kv.1; out_value <$> o) <$> map_to_list own);
  Some (foldl (wadd U64) 0 values).

Inductive UtxoSelectionStrategy :=
  | Random (from : option PublicKeyHash)
  | BigFirst (from : option PublicKeyHash)
  | SmallFirst (from : option PublicKeyHash).
Definition get_from (s : UtxoSelectionStrategy) : option PublicKeyHash :=
  match s with Random from | BigFirst from | SmallFirst from => from end.
Definition allows_from (s : UtxoSelectionStrategy) (address : PublicKeyHash) : bool :=
  match get_from s with None => true | Some from => bool_decide (from = address) end.

Record NodeUtxos := { all_utxos : UnspentOutputsPool D; own_utxos : OwnUnspentOutputsPool; node_pkh : PublicKeyHash }.

Definition sort_by (n : NodeUtxos) (strategy : UtxoSelectionStrategy) : option (list OutputPointer) :=
  if allows_from strategy (node_pkh n) then
    match strategy with
    | BigFirst _ => own_sort (own_utxos n) (all_utxos n) true
    | SmallFirst _ => own_sort (own_utxos n) (all_utxos n) false
    | Random _ => Some (map_to_list (own_utxos n)).*1
    end
  else Some [].

Definition get_usage_timeout (n : NodeUtxos) (k : OutputPointer) : option (option Z) :=
  o ← pool_get (all_utxos n) k;
  Some match out_time_lock <$> o, own_utxos n !! k with
       | Some a, Some b => Some (Z.max a b)
       | Some a, None => Some a
       | None, Some b => Some b
       | None, None => None
       end.
Definition node_get_value (n : NodeUtxos) (k : OutputPointer) : option (option Z) :=
  o ← pool_get (all_utxos n) k; Some (out_value <$> (o : option ValueTransferOutput)).

Fixpoint set_used_output_pointer (own : OwnUnspentOutputsPool) (inputs : list Input) (ts : Z) :
    option OwnUnspentOutputsPool :=
  match inputs with
  | [] => Some own
  | i :: inputs => _ ← own !! output_pointer i; set_used_output_pointer (<[output_pointer i := ts]> own) inputs ts
  end.

(** ** Information about outputs *)

Record UtxoMetadata := MkMetadata {
  md_output_pointer : OutputPointer; md_value : Z; md_timelock : Z; utxo_mature : bool }.
Record UtxoInfo := { utxos : list UtxoMetadata; collateral_min : Z }.

(** [now] is the clock. *)
Definition create_utxo_metadata (now : Z) (vto : ValueTransferOutput) (k : OutputPointer) p
    (block_number_limit : Z) : option UtxoMetadata :=
  let timelock := if decide (now ≤ out_time_lock vto) then out_time_lock vto else 0 in
  o ← included_in_block_number p k;
  n ← o;
  Some (MkMetadata k (out_value vto) timelock (bool_decide (n ≤ block_number_limit))).

Definition get_utxo_info (now : Z) (pkh : option PublicKeyHash) (own : OwnUnspentOutputsPool) p
    (collateral_min block_number_limit : Z) : option UtxoInfo :=
  us ← match pkh with
       | Some pkh =>
           v ← visit_with_pkh p pkh;
           mapM (λ kv : OutputPointer * Utxo, create_utxo_metadata now kv.2.1 kv.1 p block_number_limit) v.2
       | None =>
           known ← mapM (λ kv : OutputPointer * Z, o ← pool_get p kv.1; Some (kv.1, o)) (map_to_list own);
           mapM (λ ko : OutputPointer * ValueTransferOutput, create_utxo_metadata now ko.2 ko.1 p block_number_limit)
             (omap (λ ko : OutputPointer * option ValueTransferOutput, pair ko.1 <$> ko.2) known)
       end;
  Some {| utxos := us; collateral_min := collateral_min |}.
End pool.
Arguments UtxoDiff D : clear implicits.
Arguments NodeUtxos D : clear implicits.
