(* ===== verification/UtxoCorrect.v ===== *)
(** * The unspent outputs pool: correctness

    A pool is, for its readers, one map from pointers to outputs: the database
    with the pending changes applied ([view]).  The changes of a block act on
    that map as they act on the block's own diff, persistence moves the pending
    changes to the database without changing the map, and the copy of the pool
    kept in memory stays the same when an older copy is persisted. *)

From stdpp Require Import base tactics numbers list gmap sorting.
From Stdlib Require Import ZArith Lia.
From S2P Require Import Prelude Hashes Transaction Storage UtxoDb UtxoDbCorrect Utxo.
Local Open Scope Z_scope.

Section correct.
Context `{UtxoDbLaws D}.
Implicit Types (p : UnspentOutputsPool D) (m cur : gmap OutputPointer Utxo) (d : Diff).

(** ** What a pool means *)

Abbreviation adds p := (utxos_to_add (diff p)).
Abbreviation removes p := (utxos_to_remove (diff p)).

(** The database of the pool holds [m]; without a database nothing is stored. *)
Definition stored_is p m : Prop := match db p with Some d => db_holds d m | None => m = ∅ end.

(** The changes [d] over the outputs [m]. *)
Definition changed d m : gmap OutputPointer Utxo :=
  filter (λ kv, kv.1 ∉ utxos_to_remove d) (utxos_to_add d ∪ m).

(** The outputs that a pool with stored outputs [m] contains. *)
Definition view p m : gmap OutputPointer Utxo := changed (diff p) m.

Record pool_ok p m : Prop := {
  po_stored : stored_is p m;
  po_fresh k : is_Some (adds p !! k) → m !! k = None;
  po_removed k : k ∈ removes p → is_Some (adds p !! k) ∨ is_Some (m !! k);
  po_valid k : is_Some (adds p !! k) → valid_pointer k;
}.

Lemma changed_lookup d m k :
  changed d m !! k = if decide (k ∈ utxos_to_remove d) then None
                     else match utxos_to_add d !! k with Some v => Some v | None => m !! k end.
Proof.
  unfold changed. rewrite map_lookup_filter, lookup_union.
  case_decide as Hk; destruct (utxos_to_add d !! k), (m !! k); simpl; try done; by case_guard.
Qed.

Lemma changed_new m : changed diff_new m = m.
Proof. apply map_eq. intros k. rewrite changed_lookup. simpl. by rewrite lookup_empty. Qed.

Lemma db_get_stored p m k : stored_is p m → valid_pointer k → db_get p k = Some (m !! k).
Proof.
  unfold stored_is, db_get. destruct (db p) as [d|]; [|by intros ->].
  intros Hd Hk. by rewrite (get_utxo_law d m k Hd Hk).
Qed.

Lemma stored_valid p m k : stored_is p m → is_Some (m !! k) → valid_pointer k.
Proof.
  unfold stored_is. destruct (db p) as [d|]; [by intros Hd; apply (db_valid d)|]. by intros -> [? [=]].
Qed.

Lemma get_map_view p m k : stored_is p m → valid_pointer k → get_map p k = Some (view p m !! k).
Proof.
  intros Hs Hk. unfold get_map, view. rewrite changed_lookup. case_decide; [done|].
  destruct (_ !! k); [done|]. by apply db_get_stored.
Qed.

Lemma db_iter_stored p m : stored_is p m → ∃ l, db_iter p = Some l ∧ l ≡ₚ map_to_list m.
Proof.
  unfold stored_is, db_iter. destruct (db p) as [d|].
  - intros (l & -> & Hl)%iterator_law. by exists l.
  - intros ->. exists []. by rewrite map_to_list_empty.
Qed.

Lemma adds_stored_disjoint p m : pool_ok p m → adds p ##ₘ m.
Proof.
  intros Hp. apply map_disjoint_spec. intros k v v' Hv Hv'.
  rewrite (po_fresh p m Hp k (mk_is_Some _ _ Hv)) in Hv'. discriminate Hv'.
Qed.

(** The iterator visits each output of the pool once. *)
Lemma pool_iter_view p m : pool_ok p m → ∃ l, pool_iter p = Some l ∧ l ≡ₚ map_to_list (view p m).
Proof.
  intros Hp. destruct (db_iter_stored p m (po_stored p m Hp)) as (l & Hl & Hperm).
  unfold pool_iter. rewrite Hl. eexists. split; [done|].
  apply (filter_entries_perm (not_removed p)). rewrite Hperm. symmetry.
  by apply map_to_list_union_perm, adds_stored_disjoint.
Qed.

(** ** The changes of a block *)

Inductive UtxoOp :=
  | OpInsert (k : OutputPointer) (v : ValueTransferOutput) (block_number : option Z)
  | OpRemove (k : OutputPointer).

Definition run_op (u : UtxoDiff D) (op : UtxoOp) : UtxoDiff D :=
  match op with OpInsert k v n => insert_utxo u k v n | OpRemove k => remove_utxo u k end.

(** The same change on the map. *)
Definition op_map (block_number : Z) m (op : UtxoOp) : gmap OutputPointer Utxo :=
  match op with OpInsert k v n => <[k := (v, default block_number n)]> m | OpRemove k => delete k m end.

(** A block creates outputs under new pointers and spends outputs that exist. *)
Definition op_legal p m cur (op : UtxoOp) : Prop :=
  match op with
  | OpInsert k _ _ => valid_pointer k ∧ adds p !! k = None ∧ m !! k = None ∧ cur !! k = None
  | OpRemove k => is_Some (cur !! k)
  end.
Fixpoint ops_legal p m (block_number : Z) cur (ops : list UtxoOp) : Prop :=
  match ops with
  | [] => True
  | op :: ops => op_legal p m cur op ∧ ops_legal p m block_number (op_map block_number cur op) ops
  end.

(** The diff [u] over the pool [p] stands for the map [cur]. *)
Record diff_ok p m (u : UtxoDiff D) cur : Prop := {
  do_set : utxo_set u = p;
  do_new k : is_Some (utxos_to_add (udiff u) !! k) → valid_pointer k ∧ adds p !! k = None ∧ m !! k = None;
  do_spent k : k ∈ utxos_to_remove (udiff u) → is_Some (view p m !! k);
  do_view : cur = changed (udiff u) (view p m);
}.

Lemma view_some p m k : is_Some (view p m !! k) → k ∉ removes p ∧ (is_Some (adds p !! k) ∨ is_Some (m !! k)).
Proof.
  unfold view. rewrite changed_lookup. case_decide; [by intros [? [=]]|]. split; [done|].
  destruct (adds p !! k); [left; by eexists|by right].
Qed.

Lemma new_not_viewed p m k : adds p !! k = None → m !! k = None → view p m !! k = None.
Proof. intros Ha Hm. unfold view. rewrite changed_lookup, Ha, Hm. by case_decide. Qed.

Lemma diff_ok_new p m n : diff_ok p m (utxo_diff_new p n) (view p m).
Proof. split; simpl; [done|by intros k [? [=]]|set_solver|by rewrite changed_new]. Qed.

Lemma diff_ok_op p m u cur op :
  diff_ok p m u cur → op_legal p m cur op → diff_ok p m (run_op u op) (op_map (ublock_number u) cur op).
Proof.
  intros [Hset Hnew Hspent ->] Hl. destruct op as [k v n|k]; simpl in *.
  - destruct Hl as (Hk & Ha & Hm & Hcur). split; simpl; [done| |done|].
    + intros k'. destruct (decide (k = k')) as [<-|]; [done|]. rewrite lookup_insert_ne by done. apply Hnew.
    + apply map_eq. intros k'. rewrite changed_lookup. simpl. destruct (decide (k = k')) as [<-|Hne].
      * rewrite !lookup_insert_eq. rewrite decide_False; [done|]. intros [v' Hv']%Hspent.
        by rewrite new_not_viewed in Hv'.
      * by rewrite !lookup_insert_ne, changed_lookup by done.
  - unfold remove_utxo. destruct (utxos_to_add (udiff u) !! k) as [v|] eqn:Hk; split; simpl; try done.
    + intros k' [_ Hk']%lookup_delete_is_Some. by apply Hnew.
    + apply map_eq. intros k'. rewrite changed_lookup. simpl. destruct (decide (k = k')) as [<-|Hne].
      * rewrite !lookup_delete_eq. destruct (Hnew k (mk_is_Some _ _ Hk)) as (_ & Ha & Hm).
        rewrite new_not_viewed by done. by case_decide.
      * by rewrite !lookup_delete_ne, changed_lookup by done.
    + intros k' [->%elem_of_singleton|?]%elem_of_union; [|by apply Hspent].
      rewrite changed_lookup, Hk in Hl. by case_decide; [destruct Hl|].
    + apply map_eq. intros k'. rewrite changed_lookup. simpl. destruct (decide (k = k')) as [<-|Hne].
      * rewrite lookup_delete_eq, decide_True by set_solver. done.
      * rewrite lookup_delete_ne, changed_lookup by done. repeat case_decide; set_solver.
Qed.

Lemma run_op_block u op : ublock_number (run_op u op) = ublock_number u.
Proof. destruct op as [|k]; simpl; [done|]. unfold remove_utxo. by destruct (_ !! k). Qed.

Lemma diff_ok_ops p m ops : ∀ u cur,
  diff_ok p m u cur → ops_legal p m (ublock_number u) cur ops →
  diff_ok p m (foldl run_op u ops) (foldl (op_map (ublock_number u)) cur ops).
Proof.
  induction ops as [|op ops IH]; intros u cur Hu Hl; [done|]. destruct Hl as [Hop Hl]. cbn [foldl].
  rewrite <-(run_op_block u op). apply IH; [rewrite run_op_block; by apply diff_ok_op|by rewrite run_op_block].
Qed.

Lemma utxo_diff_get_spec p m u cur k :
  stored_is p m → diff_ok p m u cur → valid_pointer k → utxo_diff_get u k = Some (fst <$> cur !! k).
Proof.
  intros Hs [Hset Hnew Hspent ->] Hk. unfold utxo_diff_get, pool_get. rewrite Hset.
  rewrite (get_map_view p m k Hs Hk). simpl. f_equal. rewrite changed_lookup.
  destruct (utxos_to_add (udiff u) !! k) as [w|] eqn:Hw.
  - destruct (Hnew k (mk_is_Some _ _ Hw)) as (_ & Ha & Hm). rewrite new_not_viewed by done. simpl. by case_decide.
  - destruct (view p m !! k); simpl; by case_decide.
Qed.

(** ** Applying a diff *)

Lemma insert_all l : ∀ p,
  NoDup l.*1 → (∀ kv, kv ∈ l → adds p !! kv.1 = None) →
  foldl (λ acc kv, p ← acc; pool_insert p kv.1 kv.2.1 kv.2.2) (Some p) l
  = Some (MkUtxoPool (MkDiff (list_to_map l ∪ adds p) (removes p)) (db p)).
Proof.
  induction l as [|[k [v n]] l IH]; intros p Hnd Hnew.
  - simpl. rewrite (left_id_L ∅ (∪)). by destruct p as [[? ?] ?].
  - rewrite fmap_cons in Hnd. apply NoDup_cons in Hnd as [Hk Hnd]. cbn [foldl fst snd mbind option_bind] in *.
    assert (pool_insert p k v n = Some (MkUtxoPool (MkDiff (<[k := (v, n)]> (adds p)) (removes p)) (db p))) as ->.
    { unfold pool_insert. pose proof (Hnew (k, (v, n)) ltac:(by left)) as Hk0. simpl in Hk0. by rewrite Hk0. }
    rewrite IH; simpl; [|done|].
    + do 3 f_equal. rewrite <-insert_union_r by (by apply not_elem_of_list_to_map_1).
      by rewrite <-insert_union_l.
    + intros [k' v'] Hk'. simpl. rewrite lookup_insert_ne; [apply (Hnew (k', v')); by right|].
      intros <-. apply Hk. apply list_elem_of_fmap. by exists (k, v').
Qed.

Lemma remove_all ks : ∀ p,
  NoDup ks → (∀ k, k ∈ ks → k ∉ removes p) →
  foldl (λ acc k, p ← acc; pool_remove p k) (Some p) ks
  = Some (MkUtxoPool (MkDiff (adds p) (list_to_set ks ∪ removes p)) (db p)).
Proof.
  induction ks as [|k ks IH]; intros p Hnd Hnew.
  - simpl. rewrite (left_id_L ∅ (∪)). by destruct p as [[? ?] ?].
  - apply NoDup_cons in Hnd as [Hk Hnd]. cbn [foldl mbind option_bind].
    assert (pool_remove p k = Some (MkUtxoPool (MkDiff (adds p) ({[ k ]} ∪ removes p)) (db p))) as ->.
    { unfold pool_remove. rewrite decide_False; [done|]. apply Hnew. by left. }
    rewrite IH; simpl; [|done|].
    + do 3 f_equal. set_solver.
    + intros k' Hk' [->%elem_of_singleton|?]%elem_of_union; [done|]. by apply (Hnew k'); [right|].
Qed.

Lemma diff_apply_spec p m u cur :
  pool_ok p m → diff_ok p m u cur →
  ∃ p', diff_apply (take_diff u) p = Some p' ∧ pool_ok p' m ∧ view p' m = cur ∧ db p' = db p.
Proof.
  intros Hp [Hset Hnew Hspent ->]. unfold diff_apply, take_diff.
  rewrite insert_all; [|apply NoDup_fst_map_to_list|].
  2: { intros [k v] Hk%elem_of_map_to_list. by apply (Hnew k (mk_is_Some _ _ Hk)). }
  cbn [mbind option_bind]. rewrite remove_all; simpl; [|apply NoDup_elements|].
  2: { intros k Hk%elem_of_elements%Hspent%view_some. apply Hk. }
  rewrite list_to_map_to_list, list_to_set_elements_L. eexists. split; [done|]. split_and!; [|apply map_eq|done].
  - split; simpl.
    + apply (po_stored p m Hp).
    + intros k [?|?]%lookup_union_is_Some; [by apply Hnew|by apply (po_fresh p m Hp)].
    + intros k [Hk|Hk]%elem_of_union; rewrite lookup_union_is_Some.
      * apply Hspent, view_some in Hk. tauto.
      * destruct (po_removed p m Hp k Hk); tauto.
    + intros k [?|?]%lookup_union_is_Some; [by apply Hnew|by apply (po_valid p m Hp)].
  - intros k. unfold view at 1. rewrite !changed_lookup. simpl. unfold view. rewrite changed_lookup, lookup_union.
    destruct (utxos_to_add (udiff u) !! k) as [w|] eqn:Hw.
    + destruct (Hnew k (mk_is_Some _ _ Hw)) as (_ & Ha & Hm).
      assert (k ∉ removes p) as Hr.
      { intros Hk. destruct (po_removed p m Hp k Hk) as [[? ?]|[? ?]]; congruence. }
      rewrite Ha. simpl. destruct (decide (k ∈ utxos_to_remove (udiff u))).
      * by rewrite decide_True by set_solver.
      * by rewrite decide_False by set_solver.
    + rewrite (left_id_L None union).
      destruct (decide (k ∈ utxos_to_remove (udiff u))); [by rewrite decide_True by set_solver|].
      destruct (decide (k ∈ removes p)); [by rewrite decide_True by set_solver|by rewrite decide_False by set_solver].
Qed.

(** ** Persistence *)

(** The batch of a diff: new outputs are written unless they are spent too, and
    stored outputs that are spent are deleted. *)
Definition put_items (l : list (OutputPointer * Utxo)) : list UtxoWriteBatchItem := (λ kv, PutUtxo kv.1 kv.2) <$> l.
Definition new_entries d : list (OutputPointer * Utxo) :=
  filter (λ kv, kv.1 ∉ utxos_to_remove d) (map_to_list (utxos_to_add d)).
Definition spent_entries d : list OutputPointer :=
  elements (utxos_to_remove d ∖ dom (utxos_to_add d)).

Lemma new_entries_NoDup d : NoDup (new_entries d).*1.
Proof. eapply sublist_NoDup; [apply (NoDup_fst_map_to_list (utxos_to_add d))|]. apply fmap_sublist, sublist_filter. Qed.

Lemma persist_adds_spec p l : ∀ R batch,
  NoDup l.*1 → (∀ kv, kv ∈ l → get_map p kv.1 = Some None) →
  persist_adds p R batch l
  = Some (R ∖ list_to_set l.*1, batch ++ put_items (filter (λ kv, kv.1 ∉ R) l)).
Proof.
  induction l as [|[k v] l IH]; intros R batch Hnd Hnone; cbn [persist_adds].
  - rewrite app_nil_r. do 2 f_equal. set_solver.
  - rewrite fmap_cons in Hnd. apply NoDup_cons in Hnd as [Hk Hnd]. cbn [fst] in Hk.
    pose proof (Hnone (k, v) ltac:(by left)) as Hget. cbn [fst] in Hget.
    assert (∀ kv, kv ∈ l → get_map p kv.1 = Some None) as Hnone' by (intros kv ?; apply Hnone; by right).
    assert (∀ kv, kv ∈ l → kv.1 ≠ k) as Hne.
    { intros [k' v'] Hin Heq. cbn [fst] in Heq. subst k'. apply Hk, list_elem_of_fmap. by exists (k, v'). }
    rewrite filter_cons, fmap_cons. cbn [fst]. case_decide as HR; cbn [fst].
    + rewrite Hget. cbn [mbind option_bind]. rewrite IH by done.
      rewrite (decide_False (P := k ∉ R)) by naive_solver.
      rewrite (filter_ext_in (λ kv, kv.1 ∉ R ∖ {[ k ]}) (λ kv, kv.1 ∉ R)).
      * do 2 f_equal. set_solver.
      * intros kv Hin. specialize (Hne kv Hin). set_solver.
    + unfold db_insert. rewrite Hget. cbn [mbind option_bind]. rewrite IH by done.
      rewrite decide_True by done. unfold put_items. rewrite fmap_cons, <-app_assoc. cbn [app fst snd].
      do 2 f_equal. set_solver.
Qed.

Lemma persist_removes_spec p ks : ∀ batch,
  (∀ k, k ∈ ks → ∃ v, get_map p k = Some (Some v)) →
  persist_removes p batch ks = Some (batch ++ (DeleteUtxo <$> ks)).
Proof.
  induction ks as [|k ks IH]; intros batch Hsome; cbn [persist_removes]; [by rewrite app_nil_r|].
  destruct (Hsome k) as [v Hv]; [by left|]. unfold db_remove. rewrite Hv. cbn [mbind option_bind].
  rewrite IH by (intros; apply Hsome; by right). by rewrite <-app_assoc.
Qed.

Definition diff_batch d : list UtxoWriteBatchItem :=
  put_items (new_entries d) ++ (DeleteUtxo <$> spent_entries d).

Lemma persist_add_to_batch_spec p m batch :
  pool_ok p m → persist_add_to_batch p batch = Some (MkUtxoPool diff_new (db p), batch ++ diff_batch (diff p)).
Proof.
  intros Hp. unfold persist_add_to_batch.
  assert (stored_is (MkUtxoPool diff_new (db p)) m) as Hs by apply (po_stored p m Hp).
  assert (∀ k, valid_pointer k → get_map (MkUtxoPool diff_new (db p)) k = Some (m !! k)) as Hget.
  { intros k Hk. rewrite (get_map_view _ m k Hs Hk). unfold view. by rewrite changed_new. }
  rewrite persist_adds_spec; [|apply NoDup_fst_map_to_list|].
  - cbn [mbind option_bind fst snd]. rewrite <-(leibniz_equiv _ _ (dom_alt (D := gset OutputPointer) (adds p))).
    rewrite persist_removes_spec.
    + cbn [mbind option_bind]. by rewrite <-app_assoc.
    + intros k [Hk Hn]%elem_of_elements%elem_of_difference.
      destruct (po_removed p m Hp k Hk) as [Ha|[v Hv]]; [by apply elem_of_dom in Ha|].
      exists v. rewrite Hget; [by rewrite Hv|]. apply (stored_valid p m); [apply Hp|by eexists].
  - intros [k v] Hk%elem_of_map_to_list. cbn [fst].
    rewrite Hget by (by apply (po_valid p m Hp); eexists). by rewrite (po_fresh p m Hp) by (by eexists).
Qed.

Lemma diff_batch_ok p m : pool_ok p m → batch_ok m (diff_batch (diff p)).
Proof.
  intros Hp. unfold diff_batch, put_items, spent_entries. split.
  - rewrite omap_app.
    assert (∀ l : list (OutputPointer * Utxo), omap touched (put_items l) = l.*1) as Hputs.
    { induction l as [|kv l IH]; [done|]. unfold put_items in *. rewrite !fmap_cons.
      cbn [omap list_omap touched]. f_equal. apply IH. }
    assert (∀ ks : list OutputPointer, omap touched (DeleteUtxo <$> ks) = ks) as Hdels.
    { induction ks as [|k ks IH]; [done|]. rewrite fmap_cons. cbn [omap list_omap touched]. f_equal. apply IH. }
    unfold put_items in Hputs. rewrite Hputs, Hdels. apply NoDup_app. split_and!.
    + apply new_entries_NoDup.
    + intros k ([k' v] & -> & [_ Hk]%list_elem_of_filter)%list_elem_of_fmap [_ Hn]%elem_of_elements%elem_of_difference.
      apply Hn, elem_of_dom. apply elem_of_map_to_list in Hk. by eexists.
    + apply NoDup_elements.
  - apply Forall_app. split; apply Forall_fmap, Forall_forall.
    + intros [k v] [_ Hk%elem_of_map_to_list]%list_elem_of_filter. simpl.
      split; [apply (po_valid p m Hp)|apply (po_fresh p m Hp)]; by eexists.
    + intros k [Hk Hn]%elem_of_elements%elem_of_difference. simpl.
      destruct (po_removed p m Hp k Hk) as [Ha|Hm]; [by apply elem_of_dom in Ha|done].
Qed.

Lemma apply_puts l m : NoDup l.*1 → apply_utxo_batch m (put_items l) = list_to_map l ∪ m.
Proof.
  revert m. induction l as [|[k v] l IH]; intros m Hnd.
  - symmetry. apply (left_id_L ∅ (∪)).
  - rewrite fmap_cons in Hnd. apply NoDup_cons in Hnd as [Hk Hnd].
    unfold apply_utxo_batch, put_items in *. cbn [fmap list_fmap foldl apply_utxo_item fst snd] in *.
    etrans; [apply IH, Hnd|]. cbn [list_to_map foldr fst snd].
    rewrite <-insert_union_r by (by apply not_elem_of_list_to_map_1). by rewrite <-insert_union_l.
Qed.

Lemma apply_deletes ks m k :
  apply_utxo_batch m (DeleteUtxo <$> ks) !! k = if decide (k ∈ ks) then None else m !! k.
Proof.
  revert m. induction ks as [|k' ks IH]; intros m; [by rewrite decide_False by apply not_elem_of_nil|].
  unfold apply_utxo_batch in *. rewrite fmap_cons. cbn [foldl apply_utxo_item].
  etrans; [apply IH|]. destruct (decide (k = k')) as [->|Hne].
  - rewrite lookup_delete_eq, (decide_True (P := k' ∈ k' :: ks)) by left. by case_decide.
  - rewrite lookup_delete_ne by done. destruct (decide (k ∈ ks)).
    + by rewrite decide_True by (by right).
    + rewrite decide_False; [done|]. by intros [?|?]%elem_of_cons.
Qed.

Lemma apply_diff_batch p m : pool_ok p m → apply_utxo_batch m (diff_batch (diff p)) = view p m.
Proof.
  intros Hp. apply map_eq. intros k. unfold diff_batch, apply_utxo_batch. rewrite foldl_app.
  etrans; [apply apply_deletes|]. unfold spent_entries, view. rewrite changed_lookup.
  change (foldl apply_utxo_item m (put_items (new_entries (diff p))))
    with (apply_utxo_batch m (put_items (new_entries (diff p)))).
  pose proof (new_entries_NoDup (diff p)) as Hnd. rewrite (apply_puts _ _ Hnd), lookup_union.
  assert (∀ v, (list_to_map (new_entries (diff p)) : gmap _ _) !! k = Some v ↔ adds p !! k = Some v ∧ k ∉ removes p) as Hnew.
  { intros v. rewrite <-elem_of_list_to_map by done. unfold new_entries.
    rewrite list_elem_of_filter, elem_of_map_to_list. naive_solver. }
  destruct (list_to_map (new_entries (diff p)) !! k) as [v|] eqn:Hk.
  - destruct (Hnew v) as [[Ha Hr] _]; [done|]. rewrite (decide_False (P := k ∈ removes p)) by done.
    rewrite decide_False by set_solver. rewrite Ha. by destruct (m !! k).
  - rewrite (left_id_L None union). destruct (adds p !! k) as [v|] eqn:Ha.
    + rewrite (po_fresh p m Hp k (mk_is_Some _ _ Ha)).
      destruct (decide (k ∈ removes p)) as [Hr|Hr]; [by case_decide|]. discriminate (proj2 (Hnew v) (conj eq_refl Hr)).
    + assert (k ∈ elements (removes p ∖ dom (adds p)) ↔ k ∈ removes p) as Hiff.
      { rewrite elem_of_elements, elem_of_difference, not_elem_of_dom. tauto. }
      destruct (decide (k ∈ removes p)); [by rewrite decide_True by tauto|by rewrite decide_False by tauto].
Qed.

Lemma persist_spec p m (d0 : D) :
  pool_ok p m → db p = Some d0 →
  ∃ p', persist p = Some p' ∧ diff p' = diff_new ∧ stored_is p' (view p m).
Proof.
  intros Hp Hdb. unfold persist. rewrite (persist_add_to_batch_spec p m) by done.
  cbn [mbind option_bind fst snd app]. unfold write_batch. cbn [db diff]. rewrite Hdb. cbn [mbind option_bind].
  pose proof (po_stored p m Hp) as Hs. unfold stored_is in Hs. rewrite Hdb in Hs.
  destruct (utxo_write_law d0 m _ Hs (diff_batch_ok p m Hp)) as (d1 & Hw & Hd1).
  rewrite Hw. eexists. split; [done|]. split; [done|]. unfold stored_is. cbn [db].
  by rewrite <-(apply_diff_batch p m Hp).
Qed.

Lemma pool_ok_empty p m : diff p = diff_new → stored_is p m → pool_ok p m ∧ view p m = m.
Proof.
  intros Hd Hs. unfold view. rewrite Hd, changed_new. split; [|done].
  split; rewrite ?Hd; simpl; [done|by intros k [? [=]]|set_solver|by intros k [? [=]]].
Qed.

(** ** An older copy of the pool is persisted *)

Lemma forget_adds_spec ks : ∀ m,
  NoDup ks → (∀ k, k ∈ ks → is_Some (m !! k)) →
  ∃ m', forget_adds m ks = Some m' ∧ ∀ k, m' !! k = if decide (k ∈ ks) then None else m !! k.
Proof.
  induction ks as [|k0 ks IH]; intros m Hnd Hin; cbn [forget_adds].
  - exists m. split; [done|]. intros k. by rewrite decide_False by apply not_elem_of_nil.
  - apply NoDup_cons in Hnd as [Hk Hnd]. destruct (Hin k0) as [v Hv]; [by left|]. rewrite Hv. cbn [mbind option_bind].
    destruct (IH (delete k0 m)) as (m' & Hf & Hm'); [done| |].
    + intros k Hkin. rewrite lookup_delete_ne by (by intros ->). apply Hin. by right.
    + exists m'. split; [done|]. intros k. rewrite Hm'. destruct (decide (k = k0)) as [->|Hne].
      * rewrite lookup_delete_eq, (decide_True (P := k0 ∈ k0 :: ks)) by left. by case_decide.
      * rewrite lookup_delete_ne by done. destruct (decide (k ∈ ks)).
        -- by rewrite decide_True by (by right).
        -- rewrite decide_False; [done|]. by intros [?|?]%elem_of_cons.
Qed.

Lemma forget_removes_spec ks : ∀ s : gset OutputPointer,
  NoDup ks → (∀ k, k ∈ ks → k ∈ s) → forget_removes s ks = Some (s ∖ list_to_set ks).
Proof.
  induction ks as [|k0 ks IH]; intros s Hnd Hin; cbn [forget_removes].
  - f_equal. set_solver.
  - apply NoDup_cons in Hnd as [Hk Hnd]. rewrite decide_True by (apply Hin; by left).
    rewrite IH; [|done|].
    + f_equal. set_solver.
    + intros k Hkin. apply elem_of_difference. split; [apply Hin; by right|]. set_solver.
Qed.

(** The changes [d] continue the changes [d0]. *)
Definition extends d0 d : Prop :=
  utxos_to_add d0 ⊆ utxos_to_add d ∧ utxos_to_remove d0 ⊆ utxos_to_remove d.

Lemma remove_persisted_spec p d0 :
  extends d0 (diff p) →
  ∃ p', remove_persisted_from_memory p d0 = Some p' ∧ db p' = db p
    ∧ (∀ k, adds p' !! k = if decide (is_Some (utxos_to_add d0 !! k)) then None else adds p !! k)
    ∧ removes p' = removes p ∖ utxos_to_remove d0.
Proof.
  intros [Ha Hr]. unfold remove_persisted_from_memory.
  destruct (forget_adds_spec (map_to_list (utxos_to_add d0)).*1 (adds p)) as (a & Hfa & Hla).
  - apply NoDup_fst_map_to_list.
  - intros k ([k' v] & -> & Hk%elem_of_map_to_list)%list_elem_of_fmap. cbn [fst].
    exists v. by eapply lookup_weaken.
  - rewrite Hfa. cbn [mbind option_bind].
    rewrite forget_removes_spec; [|apply NoDup_elements|by intros k ?%elem_of_elements%Hr].
    rewrite list_to_set_elements_L. cbn [mbind option_bind]. eexists. split; [done|]. split; [done|].
    split; [|done]. intros k. cbn [diff utxos_to_add]. rewrite Hla.
    assert (k ∈ (map_to_list (utxos_to_add d0)).*1 ↔ is_Some (utxos_to_add d0 !! k)) as Hiff.
    { rewrite list_elem_of_fmap. split.
      - intros ([k' v] & -> & ?%elem_of_map_to_list). by eexists.
      - intros [v Hv]. exists (k, v). by rewrite elem_of_map_to_list. }
    destruct (decide (is_Some (utxos_to_add d0 !! k))); [by rewrite decide_True by tauto|by rewrite decide_False by tauto].
Qed.

Lemma forgotten_view p old m p' (d1 : D) :
  pool_ok p m → pool_ok old m → extends (diff old) (diff p) →
  (∀ k, adds p' !! k = if decide (is_Some (adds old !! k)) then None else adds p !! k) →
  removes p' = removes p ∖ removes old → db_holds d1 (view old m) →
  pool_ok (MkUtxoPool (diff p') (Some d1)) (view old m)
  ∧ view (MkUtxoPool (diff p') (Some d1)) (view old m) = view p m.
Proof.
  intros Hp Ho [Hea Her] Ha Hr Hd.
  assert (∀ k v, adds old !! k = Some v → adds p !! k = Some v) as Hea' by (intros; by eapply lookup_weaken).
  assert (∀ k, is_Some (adds old !! k) → m !! k = None) as Hfresh by apply (po_fresh old m Ho).
  split.
  - split; cbn [diff db]; [done|..].
    + intros k. rewrite Ha. case_decide as Hk; [by intros [? [=]]|]. intros Hpk. unfold view. rewrite changed_lookup.
      case_decide; [done|]. destruct (adds old !! k); [by destruct Hk; eexists|]. by apply (po_fresh p m Hp).
    + intros k. rewrite Hr, Ha. intros [Hk Hn]%elem_of_difference. unfold view. rewrite changed_lookup.
      rewrite (decide_False (P := k ∈ removes old)) by done.
      destruct (adds old !! k) as [v|] eqn:Hov; [right; by eexists|].
      rewrite decide_False by (by intros [? [=]]). by apply (po_removed p m Hp).
    + intros k. rewrite Ha. case_decide; [by intros [? [=]]|]. apply (po_valid p m Hp).
  - apply map_eq. intros k. unfold view. rewrite !changed_lookup. cbn [diff]. rewrite Hr, Ha.
    destruct (decide (k ∈ removes old)) as [Hro|Hro].
    + rewrite decide_False by set_solver. rewrite (decide_True (P := k ∈ removes p)) by (by apply Her).
      destruct (adds old !! k) as [v|] eqn:Hov; [by rewrite decide_True by (by eexists)|].
      rewrite decide_False by (by intros [? [=]]).
      destruct (po_removed old m Ho k Hro) as [[? ?]|Hm]; [congruence|].
      destruct (adds p !! k) eqn:Hpk; [|done].
      rewrite (po_fresh p m Hp k (mk_is_Some _ _ Hpk)) in Hm. by destruct Hm.
    + destruct (decide (k ∈ removes p)) as [Hrp|Hrp]; [by rewrite decide_True by set_solver|].
      rewrite decide_False by set_solver. destruct (adds old !! k) as [v|] eqn:Hov.
      * rewrite decide_True by (by eexists). by rewrite (Hea' k v Hov).
      * by rewrite decide_False by (by intros [? [=]]).
Qed.
(** ** Theorems *)

(** (C27) The changes of a block.  Recorded in a [UtxoDiff], a sequence of new
    outputs and spendings is visible through the diff as on the map of unspent
    outputs; applied to the pool it never panics, keeps the pool well formed and
    leaves exactly that map, which iteration lists without repetition. *)
Theorem block_diff_refines p m n ops :
  pool_ok p m → ops_legal p m n (view p m) ops →
  let u := foldl run_op (utxo_diff_new p n) ops in
  let after := foldl (op_map n) (view p m) ops in
  (∀ k, valid_pointer k → utxo_diff_get u k = Some (fst <$> after !! k))
  ∧ ∃ p' l, diff_apply (take_diff u) p = Some p' ∧ pool_ok p' m ∧ view p' m = after
      ∧ (∀ k, valid_pointer k → pool_get p' k = utxo_diff_get u k)
      ∧ pool_iter p' = Some l ∧ l ≡ₚ map_to_list after.
Proof.
  intros Hp Hl u after.
  assert (diff_ok p m u after) as Hu by exact (diff_ok_ops p m ops _ _ (diff_ok_new p m n) Hl).
  destruct (diff_apply_spec p m u after Hp Hu) as (p' & Happ & Hp' & Hview & _).
  destruct (pool_iter_view p' m Hp') as (l & Hl' & Hperm).
  pose proof (λ k, utxo_diff_get_spec p m u after k (po_stored p m Hp) Hu) as Hget.
  split; [done|]. exists p', l. split_and!; [done..| |done|by rewrite <-Hview].
  intros k Hk. rewrite (Hget k Hk). unfold pool_get.
  rewrite (get_map_view p' m k (po_stored p' m Hp') Hk), Hview. done.
Qed.

(** Persistence.  On a well-formed pool with a database [persist] never
    panics: it empties the pending changes, writes them to the database in one
    batch, and no reader sees a difference. *)
Theorem persist_refines p m (d0 : D) :
  pool_ok p m → db p = Some d0 →
  ∃ p' l, persist p = Some p' ∧ diff p' = diff_new ∧ pool_ok p' (view p m)
    ∧ (∀ k, valid_pointer k → get_map p' k = get_map p k)
    ∧ pool_iter p' = Some l ∧ l ≡ₚ map_to_list (view p m).
Proof.
  intros Hp Hdb. destruct (persist_spec p m d0 Hp Hdb) as (p' & Hper & Hd & Hs).
  destruct (pool_ok_empty p' _ Hd Hs) as [Hp' Hv]. destruct (pool_iter_view p' _ Hp') as (l & Hl & Hperm).
  exists p', l. split_and!; [done..| |done|by rewrite Hperm, Hv].
  intros k Hk. rewrite (get_map_view p' _ k Hs Hk), (get_map_view p m k (po_stored p m Hp) Hk). by rewrite Hv.
Qed.

(** The chain manager persists the changes of an older copy of the pool
    that shares its database.  Dropping those changes from memory never panics,
    and once the older copy is persisted the current pool, now over the changed
    database, is well formed and contains the same outputs as before. *)
Theorem persisted_copy_consistent p old m (d0 : D) :
  pool_ok p m → pool_ok old m → db old = Some d0 → extends (diff old) (diff p) →
  ∃ p1 old' (d1 : D), remove_persisted_from_memory p (diff old) = Some p1
    ∧ persist old = Some old' ∧ db old' = Some d1
    ∧ pool_ok (MkUtxoPool (diff p1) (Some d1)) (view old m)
    ∧ ∀ k, valid_pointer k → get_map (MkUtxoPool (diff p1) (Some d1)) k = get_map p k.
Proof.
  intros Hp Ho Hdb He. destruct (remove_persisted_spec p (diff old) He) as (p1 & Hrem & Hdb1 & Ha & Hr).
  destruct (persist_spec old m d0 Ho Hdb) as (old' & Hper & Hd' & Hs).
  assert (∃ d1 : D, db old' = Some d1) as [d1 Hd1].
  { revert Hper. unfold persist. rewrite (persist_add_to_batch_spec old m) by done. cbn [mbind option_bind fst snd].
    unfold write_batch. cbn [db]. rewrite Hdb. cbn [mbind option_bind].
    destruct (utxo_write _ _) as [d1 ?| |]; [|done..]. intros [= <-]. by exists d1. }
  unfold stored_is in Hs. rewrite Hd1 in Hs.
  destruct (forgotten_view p old m p1 d1 Hp Ho He Ha Hr Hs) as [Hok Hv].
  exists p1, old', d1. split_and!; [done..|]. intros k Hk.
  rewrite (get_map_view _ _ k (po_stored _ _ Hok) Hk), (get_map_view p m k (po_stored p m Hp) Hk). by rewrite Hv.
Qed.
End correct.

(** ** Witnesses *)

#[local] Existing Instances toy_codecs toy_codec_laws.

(** Two outputs stored through the cached database over the in-memory storage. *)
Definition toy_stored : gmap OutputPointer Utxo :=
  <[toy_pointer 0 := (MkOutput [1] 10 0, 1)]> (<[toy_pointer 1 := (MkOutput [2] 20 0, 1)]> ∅).
Definition toy_writes : list UtxoWriteBatchItem :=
  [PutUtxo (toy_pointer 1) (MkOutput [2] 20 0, 1); PutUtxo (toy_pointer 0) (MkOutput [1] 10 0, 1)].
Definition toy_empty : CacheUtxosByPkh (UtxoDbWrapStorage Backend) := MkCached (Wrap ∅) ∅.
Definition toy_db : CacheUtxosByPkh (UtxoDbWrapStorage Backend) :=
  match utxo_write toy_empty toy_writes with Ret d _ => d | _ => toy_empty end.

Lemma toy_small i : 0 ≤ i < 10 → valid_pointer (toy_pointer i).
Proof. intros Hi. apply toy_pointer_valid. unfold fits. unfold_moduli. lia. Qed.

Lemma toy_empty_holds : db_holds toy_empty ∅.
Proof.
  split.
  - exists ∅. split; [done|]. split; [by intros k [? [=]]|intros; apply lookup_empty|by intros ? ? [? [=]]].
  - split; [done|]. intros pkh k. simpl. rewrite lookup_empty. simpl. set_solver.
Qed.

Lemma toy_db_holds : db_holds toy_db toy_stored.
Proof.
  destruct (utxo_write_law toy_empty ∅ toy_writes toy_empty_holds) as (d & Hw & Hd1).
  - split; [apply (bool_decide_unpack _); by vm_compute|].
    apply Forall_cons_2; [|apply Forall_cons_2; [|apply Forall_nil_2]]; (split; [apply toy_small; lia|done]).
  - unfold toy_db. rewrite Hw. exact Hd1.
Qed.

(** A pool with a new output and a spent one, and a later copy of it that has
    spent the new output too. *)
Definition toy_old : UnspentOutputsPool (CacheUtxosByPkh (UtxoDbWrapStorage Backend)) :=
  MkUtxoPool (MkDiff {[ toy_pointer 2 := (MkOutput [1] 5 0, 2) ]} {[ toy_pointer 1 ]}) (Some toy_db).
Definition toy_now : UnspentOutputsPool (CacheUtxosByPkh (UtxoDbWrapStorage Backend)) :=
  MkUtxoPool (MkDiff {[ toy_pointer 2 := (MkOutput [1] 5 0, 2) ]} {[ toy_pointer 1; toy_pointer 2 ]}) (Some toy_db).

Lemma toy_pool_ok R :
  R ⊆ {[ toy_pointer 1; toy_pointer 2 ]} →
  pool_ok (MkUtxoPool (MkDiff {[ toy_pointer 2 := (MkOutput [1] 5 0, 2) ]} R) (Some toy_db)) toy_stored.
Proof.
  intros HR. split; cbn [diff db utxos_to_add utxos_to_remove].
  - apply toy_db_holds.
  - intros k <-%lookup_singleton_is_Some. by vm_compute.
  - intros k [->%elem_of_singleton| ->%elem_of_singleton]%HR%elem_of_union;
      [right; vm_compute; by eexists|left; vm_compute; by eexists].
  - intros k <-%lookup_singleton_is_Some. apply toy_small. lia.
Qed.

Lemma block_diff_refines_witness :
  let ops := [OpInsert (toy_pointer 3) (MkOutput [7] 8 0) None; OpRemove (toy_pointer 0); OpRemove (toy_pointer 3)] in
  let u := foldl run_op (utxo_diff_new toy_old 3) ops in
  let after := foldl (op_map 3) (view toy_old toy_stored) ops in
  (∀ k, valid_pointer k → utxo_diff_get u k = Some (fst <$> after !! k))
  ∧ ∃ p' l, diff_apply (take_diff u) toy_old = Some p' ∧ pool_ok p' toy_stored ∧ view p' toy_stored = after
      ∧ (∀ k, valid_pointer k → pool_get p' k = utxo_diff_get u k)
      ∧ pool_iter p' = Some l ∧ l ≡ₚ map_to_list after.
Proof.
  apply block_diff_refines; [apply toy_pool_ok; set_solver|].
  split; [split; [apply toy_small; lia|by vm_compute]|].
  split; [vm_compute; by eexists|]. split; [vm_compute; by eexists|done].
Defined.

Lemma persist_refines_witness :
  ∃ p' l, persist toy_old = Some p' ∧ diff p' = diff_new ∧ pool_ok p' (view toy_old toy_stored)
    ∧ (∀ k, valid_pointer k → get_map p' k = get_map toy_old k)
    ∧ pool_iter p' = Some l ∧ l ≡ₚ map_to_list (view toy_old toy_stored).
Proof. apply (persist_refines toy_old toy_stored toy_db); [apply toy_pool_ok; set_solver|done]. Defined.

Lemma persisted_copy_consistent_witness :
  ∃ p1 old' d1, remove_persisted_from_memory toy_now (diff toy_old) = Some p1
    ∧ persist toy_old = Some old' ∧ db old' = Some d1
    ∧ pool_ok (MkUtxoPool (diff p1) (Some d1)) (view toy_old toy_stored)
    ∧ ∀ k, valid_pointer k → get_map (MkUtxoPool (diff p1) (Some d1)) k = get_map toy_now k.
Proof.
  apply (persisted_copy_consistent toy_now toy_old toy_stored toy_db);
    [apply toy_pool_ok; set_solver|apply toy_pool_ok; set_solver|done|]. split; [done|set_solver].
Defined.
