(* ===== verification/RadScript.v ===== *)
(** * RADON scripts

    Models rad/src/script.rs without the execution of scripts: how a script is
    unpacked from its bytes and how the scripts of the aggregation and the tally are
    created from filters and a reducer.  The codes are those of rad/src/operators,
    rad/src/filters and rad/src/reducers.

    The CBOR values of the serde_cbor crate are a type; its parser and its conversion
    of a value to a byte are parameters.  Errors leave out printed descriptions. *)

From stdpp Require Import base tactics numbers list strings.
From Stdlib Require Import ZArith Lia.
From S2P Require Import Prelude Superblock Tapi Rad Float.
Local Open Scope Z_scope.
Local Open Scope rust_scope.

(** ** Codes *)

Inductive RadonOpCodes :=
  | OpFail | OpIdentity | OpArrayCount | OpArrayFilter | OpArrayGetArray | OpArrayGetBoolean
  | OpArrayGetBytes | OpArrayGetFloat | OpArrayGetInteger | OpArrayGetMap | OpArrayGetString | OpArrayMap
  | OpArrayReduce | OpArraySort | OpBooleanAsString | OpBooleanNegate | OpBytesAsString | OpBytesHash
  | OpIntegerAbsolute | OpIntegerAsFloat | OpIntegerAsString | OpIntegerGreaterThan | OpIntegerLessThan
  | OpIntegerModulo | OpIntegerMultiply | OpIntegerNegate | OpIntegerPower | OpFloatAbsolute
  | OpFloatAsString | OpFloatCeiling | OpFloatGreaterThan | OpFloatFloor | OpFloatLessThan | OpFloatModulo
  | OpFloatMultiply | OpFloatNegate | OpFloatPower | OpFloatRound | OpFloatTruncate | OpMapGetArray
  | OpMapGetBoolean | OpMapGetBytes | OpMapGetFloat | OpMapGetInteger | OpMapGetMap | OpMapGetString
  | OpMapKeys | OpMapValues | OpStringAsBoolean | OpStringAsFloat | OpStringAsInteger | OpStringLength
  | OpStringMatch | OpStringParseJSONArray | OpStringParseJSONMap | OpStringParseXMLMap | OpStringToLowerCase
  | OpStringToUpperCase.
#[export] Instance RadonOpCodes_eq_dec : EqDecision RadonOpCodes.
Proof. solve_decision. Defined.
Inductive RadonFilters :=
  | FilterDeviationStandard | FilterMode | FilterGreaterThan | FilterLessThan | FilterEquals
  | FilterDeviationAbsolute | FilterDeviationRelative | FilterTop | FilterBottom | FilterLessOrEqualThan
  | FilterGreaterOrEqualThan | FilterNotEquals | FilterNotDeviationAbsolute | FilterNotDeviationRelative
  | FilterNotDeviationStandard | FilterNotTop | FilterNotBottom | FilterNotMode.
#[export] Instance RadonFilters_eq_dec : EqDecision RadonFilters.
Proof. solve_decision. Defined.
Inductive RadonReducers :=
  | ReducerMode | ReducerAverageMean | ReducerAverageMedian | ReducerDeviationStandard
  | ReducerHashConcatenate | ReducerMin | ReducerMax | ReducerAverageMeanWeighted
  | ReducerAverageMedianWeighted | ReducerDeviationAverageAbsolute | ReducerDeviationMedianAbsolute
  | ReducerDeviationMaximumAbsolute.
#[export] Instance RadonReducers_eq_dec : EqDecision RadonReducers.
Proof. solve_decision. Defined.

(** The discriminants, and the derived [TryFromPrimitive] from a [u8]. *)
Definition opcodes : list (Z * RadonOpCodes) :=
  [(255, OpFail); (0, OpIdentity); (16, OpArrayCount); (17, OpArrayFilter); (19, OpArrayGetArray);
   (20, OpArrayGetBoolean); (21, OpArrayGetBytes); (22, OpArrayGetFloat); (23, OpArrayGetInteger);
   (24, OpArrayGetMap); (25, OpArrayGetString); (26, OpArrayMap); (27, OpArrayReduce); (29, OpArraySort);
   (32, OpBooleanAsString); (34, OpBooleanNegate); (48, OpBytesAsString); (49, OpBytesHash);
   (64, OpIntegerAbsolute); (65, OpIntegerAsFloat); (66, OpIntegerAsString); (67, OpIntegerGreaterThan);
   (68, OpIntegerLessThan); (70, OpIntegerModulo); (71, OpIntegerMultiply); (72, OpIntegerNegate);
   (73, OpIntegerPower); (80, OpFloatAbsolute); (81, OpFloatAsString); (82, OpFloatCeiling);
   (83, OpFloatGreaterThan); (84, OpFloatFloor); (85, OpFloatLessThan); (86, OpFloatModulo);
   (87, OpFloatMultiply); (88, OpFloatNegate); (89, OpFloatPower); (91, OpFloatRound); (93, OpFloatTruncate);
   (97, OpMapGetArray); (98, OpMapGetBoolean); (99, OpMapGetBytes); (100, OpMapGetFloat);
   (101, OpMapGetInteger); (102, OpMapGetMap); (103, OpMapGetString); (104, OpMapKeys); (105, OpMapValues);
   (112, OpStringAsBoolean); (114, OpStringAsFloat); (115, OpStringAsInteger); (116, OpStringLength);
   (117, OpStringMatch); (118, OpStringParseJSONArray); (119, OpStringParseJSONMap);
   (120, OpStringParseXMLMap); (121, OpStringToLowerCase); (122, OpStringToUpperCase)].
Definition filters : list (Z * RadonFilters) :=
  [(5, FilterDeviationStandard); (8, FilterMode); (0, FilterGreaterThan); (1, FilterLessThan);
   (2, FilterEquals); (3, FilterDeviationAbsolute); (4, FilterDeviationRelative); (6, FilterTop);
   (7, FilterBottom); (128, FilterLessOrEqualThan); (129, FilterGreaterOrEqualThan); (130, FilterNotEquals);
   (131, FilterNotDeviationAbsolute); (132, FilterNotDeviationRelative); (133, FilterNotDeviationStandard);
   (134, FilterNotTop); (135, FilterNotBottom); (136, FilterNotMode)].
Definition reducers : list (Z * RadonReducers) :=
  [(2, ReducerMode); (3, ReducerAverageMean); (5, ReducerAverageMedian); (7, ReducerDeviationStandard);
   (11, ReducerHashConcatenate); (0, ReducerMin); (1, ReducerMax); (4, ReducerAverageMeanWeighted);
   (6, ReducerAverageMedianWeighted); (8, ReducerDeviationAverageAbsolute);
   (9, ReducerDeviationMedianAbsolute); (10, ReducerDeviationMaximumAbsolute)].

Definition try_from_u8 {A} (table : list (Z * A)) (x : Z) : option A := snd <$> (snd <$> list_find (λ ca, ca.1 = x) table).
Definition opcode_try_from : Z → option RadonOpCodes := try_from_u8 opcodes.
Definition filter_try_from : Z → option RadonFilters := try_from_u8 filters.
Definition reducer_try_from : Z → option RadonReducers := try_from_u8 reducers.

(** ** Values and errors *)

(** [serde_cbor::Value]. *)
Inductive Value :=
  | VNull
  | VBool (b : bool)
  | VInteger (n : Z)
  | VFloat (x : f64)
  | VBytes (bs : list Z)
  | VText (s : string)
  | VArray (vs : list Value)
  | VMap (kvs : list (Value * Value))
  | VTag (tag : Z) (v : Value).

(** Of the errors of rad/src/error.rs, those of the scripts. *)
Inductive ScriptError :=
  | BufferIsNotValue
  | NoOperatorInCompoundCall
  | NotIntegerOperator
  | NotNaturalOperator (code : Z)
  | ScriptNotArray
  | UnknownOperator (code : Z)
  | UnknownFilter (code : Z)
  | UnknownReducer (code : Z)
  | UnsupportedFilterInAT (operator : RadonFilters)
  | UnsupportedReducerInAT (operator : RadonReducers)
  | BadSubscriptFormat (value : Value).

Abbreviation RadonCall := (RadonOpCodes * option (list Value))%type.
Abbreviation RadonScript := (list RadonCall).

(** ** Unpacking *)

(** [iter().map(f).collect::<Result<_, _>>()], and a loop with [?]. *)
Fixpoint collect {E A B} (f : A → result E B) (l : list A) : result E (list B) :=
  match l with
  | [] => Ok []
  | x :: l => let? y := f x in let? ys := collect f l in Ok (y :: ys)
  end.

Section unpack.
Context (from_slice : list Z → option Value) (from_value_u8 : Value → option Z).

Definition unpack_compound_call (array : list Value) : result ScriptError RadonCall :=
  match array with
  | [] => Err NoOperatorInCompoundCall
  | head :: tail =>
      let? op_code := ok_or (from_value_u8 head) NotIntegerOperator in
      let? op_code := ok_or (opcode_try_from op_code) NotIntegerOperator in
      Ok (op_code, Some tail)
  end.

(** The code of a plain call is the first byte of an [i128]. *)
Definition unpack_radon_call (packed_call : Value) : result ScriptError RadonCall :=
  match packed_call with
  | VArray array => unpack_compound_call array
  | VInteger integer =>
      if decide (0 ≤ integer) then
        let? op_code := ok_or (opcode_try_from (integer mod 256)) (UnknownOperator integer) in Ok (op_code, None)
      else Err (NotNaturalOperator integer)
  | _ => Err NotIntegerOperator
  end.

Definition unpack_radon_script (packed : list Z) : result ScriptError RadonScript :=
  match from_slice packed with
  | Some (VArray array) => collect unpack_radon_call array
  | Some _ => Err ScriptNotArray
  | None => Err BufferIsNotValue
  end.

Definition unpack_subscript (value : Value) : result ScriptError (list RadonCall) :=
  match value with
  | VArray subscript_arg => collect unpack_radon_call subscript_arg
  | x => Err (BadSubscriptFormat x)
  end.

(** ** Scripts of the aggregation and the tally *)

Definition filter_call (filter : RADFilter) : result ScriptError RadonCall :=
  let? rad_filter := ok_or (if decide (op filter < 256) then filter_try_from (op filter) else None) (UnknownFilter (op filter)) in
  match rad_filter with
  | FilterDeviationStandard | FilterMode =>
      match args filter with
      | [] => Ok (OpArrayFilter, Some [VInteger (op filter)])
      | args =>
          let? filter_args := ok_or (from_slice args) BufferIsNotValue in
          Ok (OpArrayFilter, Some [VInteger (op filter); filter_args])
      end
  | _ => Err (UnsupportedFilterInAT rad_filter)
  end.

Definition reducer_supported (active_wips : ActiveWips) (r : RadonReducers) : bool :=
  match r with
  | ReducerAverageMean | ReducerMode => true
  | ReducerAverageMedian => wip0017 active_wips
  | ReducerHashConcatenate => wip0019 active_wips
  | _ => false
  end.

Definition create_radon_script_from_filters_and_reducer (filters : list RADFilter) (reducer : Z) (active_wips : ActiveWips) :
    result ScriptError (list RadonCall) :=
  let? calls := collect filter_call filters in
  let? rad_reducer := ok_or (if decide (reducer < 256) then reducer_try_from reducer else None) (UnknownReducer reducer) in
  if reducer_supported active_wips rad_reducer then Ok (calls ++ [(OpArrayReduce, Some [VInteger reducer])])
  else Err (UnsupportedReducerInAT rad_reducer).
End unpack.

(** A plain call only looks at the low byte of its code: codes that differ by a
    multiple of 256 unpack to the same operator. *)
Lemma plain_codes_alias from_value_u8 code n op_code :
  0 ≤ code < 256 → 0 ≤ n → opcode_try_from code = Some op_code →
  unpack_radon_call from_value_u8 (VInteger (code + 256 * n)) = Ok (op_code, None).
Proof.
  intros Hc Hn Hop. unfold unpack_radon_call. rewrite decide_True by lia.
  replace ((code + 256 * n) mod 256) with code by (rewrite Z.mul_comm, Z.mod_add, Z.mod_small; lia). by rewrite Hop.
Qed.
