(* ===== verification/TxFactory.v ===== *)
(** * Building transactions

    Models data_structures/src/transaction_factory.rs: the selection of unspent
    outputs that pay for a transaction, the estimation of fees relative to the
    weight (fee.rs), the transactions built from them, and the sums over inputs
    and outputs that the validations share.

    The trait [OutputsCollection] is a class; the outputs of the node are its
    instance.  In its methods [None] is a panic of the pool.  A built transaction
    is the body: its signatures are empty. *)

From stdpp Require Import base tactics numbers list gmap sorting.
From Stdlib Require Import ZArith Lia.
From S2P Require Import Prelude Hashes Stake Superblock Rad Transaction Epoch Float Storage UtxoDb Utxo DataRequest RadScript.
Local Open Scope Z_scope.
Local Open Scope rust_scope.

(** ** Errors *)

(** [BlockError] of error.rs; the printed blocks of a mismatch are left out. *)
Inductive BlockError :=
  | Empty
  | MismatchedMintValue (mint_value fees_value reward_value : Z)
  | TooSplitMint
  | InvalidMintEpoch (mint_epoch block_epoch : Z)
  | InvalidMintTransaction
  | NotValidPoe
  | BlockEligibilityDoesNotMeetTarget (vrf_hash target_hash : Hash)
  | NotValidMerkleTree
  | BlockFromFuture (current_epoch block_epoch : Z)
  | BlockOlderThanTip (chain_epoch block_epoch : Z)
  | PreviousHashMismatch (block_hash our_hash : Hash)
  | GenesisBlockMismatch
  | GenesisBlockHashMismatch (block_hash expected_hash : Hash)
  | GenesisValueOverflow (max_total_value : Z)
  | CandidateFromDifferentEpoch (current_epoch block_epoch : Z)
  | MismatchingCommitsNumber (commits rf : Z)
  | VerifySignatureFail (hash : Hash)
  | BlockPublicKeyHashMismatch (proof_pkh signature_pkh : PublicKeyHash)
  | TotalValueTransferWeightLimitExceeded (weight max_weight : Z)
  | TotalDataRequestWeightLimitExceeded (weight max_weight : Z)
  | TotalStakeWeightLimitExceeded (weight max_weight : Z)
  | TotalUnstakeWeightLimitExceeded (weight max_weight : Z)
  | RepeatedStakeOperator (pkh : PublicKeyHash)
  | RepeatedUnstakeOperator (pkh : PublicKeyHash)
  | MissingExpectedTallies (count : nat) (block_hash : Hash)
  | BlockValidatorNotEligible (validator : PublicKeyHash).

(** [failure::Error]: the errors that the functions of the validations wrap. *)
Inductive Failure :=
  | TxError (e : TransactionError)
  | BlkError (e : BlockError)
  | DrError (e : DataRequestError)
  | RetrievalError (e : RadError)
  | EpochError (e : EpochCalculationError)
  | StakesFailure (e : StakesError PublicKeyHash)
  | ScriptFailure (e : ScriptError)
  | KeyConversionError
  | SignatureError
  | TryFromIntError.

(** ** Fees *)

Inductive Fee := AbsoluteFee (nanowits : Z) | RelativeFee (priority : f64).

(** [RelativeFee::into_absolute], with [Priority::derive_fee_wit]. *)
Definition into_absolute (priority : f64) (weight : Z) : Z := f64_to_u64 (f64_mul priority (f64_of weight)).

(** ** Collections of outputs *)

Record CollectedOutputs := MkCollected {
  pointers : list OutputPointer;
  resolved : list ValueTransferOutput;
  total_value : Z;
}.
Record TransactionInfo := MkTxInfo {
  ti_fee : Z;
  ti_inputs : CollectedOutputs;
  output_value : Z;
  ti_outputs : list ValueTransferOutput;
}.

Class OutputsCollection (C : Type) := {
  oc_sort_by : C → UtxoSelectionStrategy → option (list OutputPointer);
  oc_get : C → OutputPointer → option (option ValueTransferOutput);
  oc_get_usage_timeout : C → OutputPointer → option (option Z);
  oc_get_included_block_number : C → OutputPointer → option (option Z);
  oc_set_used_output_pointer : C → list Input → Z → option C;
}.

(** [NodeUtxos].  A [NodeUtxosRef] differs in that its outputs cannot be marked as
    used. *)
#[export] Instance node_utxos_collection `{UtxoDb D} : OutputsCollection (NodeUtxos D) := {
  oc_sort_by n s := sort_by n s;
  oc_get n k := pool_get (all_utxos n) k;
  oc_get_usage_timeout n k := get_usage_timeout n k;
  oc_get_included_block_number n k := included_in_block_number (all_utxos n) k;
  oc_set_used_output_pointer n inputs ts :=
    own ← set_used_output_pointer (own_utxos n) inputs ts;
    Some {| all_utxos := all_utxos n; own_utxos := own; node_pkh := node_pkh n |};
}.

Section collection.
Context `{OutputsCollection C}.

(** Whether an output is neither locked, nor in use, nor too recent. *)
Definition usable (c : C) (timestamp : Z) (block_number_limit : option Z) (pointer : OutputPointer) : option bool :=
  usage_timeout ← oc_get_usage_timeout c pointer;
  if match usage_timeout with Some t => bool_decide (timestamp < t) | None => false end then Some false
  else match block_number_limit with
       | None => Some true
       | Some limit =>
           n ← oc_get_included_block_number c pointer;
           Some match n with Some n => bool_decide (n ≤ limit) | None => false end
       end.

(** The loop of [take_enough_utxos]: the sum of all visited outputs, and what was
    collected. *)
Fixpoint take_loop (c : C) (amount timestamp : Z) (block_number_limit : option Z) (utxos : list OutputPointer)
    (total : Z) (acc : CollectedOutputs) : result TransactionError (Z * CollectedOutputs) :=
  match utxos with
  | [] => Ok (total, acc)
  | pointer :: utxos =>
      match oc_get c pointer with
      | Some (Some output) =>
          match checked_add U64 total (out_value output) with
          | None => Err OutputValueOverflow
          | Some total =>
              match usable c timestamp block_number_limit pointer with
              | None => Panic
              | Some false => take_loop c amount timestamp block_number_limit utxos total acc
              | Some true =>
                  let acc := MkCollected (pointers acc ++ [pointer]) (resolved acc ++ [output])
                               (wadd U64 (total_value acc) (out_value output)) in
                  if decide (amount ≤ total_value acc) then Ok (total, acc)
                  else take_loop c amount timestamp block_number_limit utxos total acc
              end
          end
      | _ => Panic
      end
  end.

Definition take_enough_utxos (c : C) (amount timestamp : Z) (block_number_limit : option Z)
    (utxo_strategy : UtxoSelectionStrategy) : result TransactionError CollectedOutputs :=
  if decide (amount = 0) then Err ZeroAmount
  else
    let? utxos := unwrap (oc_sort_by c utxo_strategy) in
    let? r := take_loop c amount timestamp block_number_limit utxos 0 (MkCollected [] [] 0) in
    if decide (amount ≤ total_value r.2) then Ok r.2
    else Err (NoMoney r.1 (total_value r.2) amount).

(** ** Sums *)

Fixpoint outputs_sum_from (total_value : Z) (outputs : list ValueTransferOutput) : result TransactionError Z :=
  match outputs with
  | [] => Ok total_value
  | o :: outputs =>
      let? total_value := ok_or (checked_add U64 total_value (out_value o)) OutputValueOverflow in
      outputs_sum_from total_value outputs
  end.
Definition transaction_outputs_sum (outputs : list ValueTransferOutput) : result TransactionError Z :=
  outputs_sum_from 0 outputs.

(** ** Weights *)

Definition input_default : Input := MkInput (MkPointer (replicate 32 0) 0).
Definition output_default : ValueTransferOutput := MkOutput (replicate 20 0) 0 0.

Definition calculate_weight (inputs_count outputs_count : nat) (dro : option DataRequestOutput) (max_weight : Z) :
    result TransactionError Z :=
  let inputs := replicate inputs_count input_default in
  let outputs := replicate outputs_count output_default in
  match dro with
  | Some dr_output =>
      let w := dr_tx_weight (MkDR inputs outputs dr_output []) in
      if decide (max_weight < w) then Err (DataRequestWeightLimitExceeded w max_weight dr_output) else Ok w
  | None =>
      let w := vt_weight (MkVT inputs outputs []) in
      if decide (max_weight < w) then Err (ValueTransferWeightLimitExceeded w max_weight) else Ok w
  end.

(** ** The builders of inputs and outputs *)

(** [Result::unwrap_or(u64::MAX)]; [None] is a panic. *)
Definition or_max {E} (r : result E Z) : option Z :=
  match r with Ok v => Some v | Err _ => Some (U64 - 1) | Panic => None end.

(** The loop for a relative fee; the end of the iterations is [unreachable!]. *)
Fixpoint relative_fee_loop (c : C) (outputs : list ValueTransferOutput) (dr_output : option DataRequestOutput)
    (priority : f64) (timestamp : Z) (block_number_limit : option Z) (utxo_strategy : UtxoSelectionStrategy)
    (max_weight output_value : Z) (iterations : nat) (current_weight : Z) : result TransactionError TransactionInfo :=
  match iterations with
  | O => Panic
  | S iterations =>
      let absolute_fee := into_absolute priority current_weight in
      let? amount := ok_or (checked_add U64 output_value absolute_fee) FeeOverflow in
      let? inputs := take_enough_utxos c amount timestamp block_number_limit utxo_strategy in
      let? new_weight := calculate_weight (length (pointers inputs)) (length outputs + 1) dr_output max_weight in
      if decide (new_weight = current_weight) then Ok (MkTxInfo absolute_fee inputs output_value outputs)
      else relative_fee_loop c outputs dr_output priority timestamp block_number_limit utxo_strategy max_weight
             output_value iterations new_weight
  end.

Definition build_inputs_outputs (c : C) (outputs : list ValueTransferOutput) (dr_output : option DataRequestOutput)
    (fee : Fee) (timestamp : Z) (block_number_limit : option Z) (utxo_strategy : UtxoSelectionStrategy)
    (max_weight : Z) : result TransactionError TransactionInfo :=
  let? sum := unwrap (or_max (transaction_outputs_sum outputs)) in
  let? requested := unwrap (match dr_output with None => Some 0 | Some o => or_max (checked_total_value o) end) in
  let? output_value := ok_or (checked_add U64 sum requested) OutputValueOverflow in
  let? current_weight := calculate_weight 1 (length outputs + 1) dr_output max_weight in
  match fee with
  | AbsoluteFee absolute_fee =>
      let? amount := ok_or (checked_add U64 output_value absolute_fee) FeeOverflow in
      let? inputs := take_enough_utxos c amount timestamp block_number_limit utxo_strategy in
      Ok (MkTxInfo absolute_fee inputs output_value outputs)
  | RelativeFee priority =>
      let max_iterations := wadd U32 1 (wsub U32 max_weight current_weight / INPUT_SIZE) in
      relative_fee_loop c outputs dr_output priority timestamp block_number_limit utxo_strategy max_weight
        output_value (Z.to_nat max_iterations) current_weight
  end.

Inductive TransactionOutputs :=
  | OutDataRequest (dr_output : DataRequestOutput) (change : option ValueTransferOutput)
  | OutStake (stake_output : StakeOutput) (change : option ValueTransferOutput)
  | OutValueTransfer (outputs : list ValueTransferOutput).

(** [Vec::from]. *)
Definition outputs_into (o : TransactionOutputs) : list ValueTransferOutput :=
  match o with OutDataRequest _ change | OutStake _ change => option_list change | OutValueTransfer outputs => outputs end.

(** The value and the weight of a body with the given inputs. *)
Definition outputs_value (o : TransactionOutputs) (inputs : list Input) : result TransactionError Z :=
  match o with
  | OutDataRequest dr_output change => dr_value (MkDR inputs (option_list change) dr_output [])
  | OutStake stake_output change =>
      Ok (stake_value {| s_inputs := inputs; s_output := stake_output; s_change := change; s_signatures := [] |})
  | OutValueTransfer outputs => Ok (vt_value (MkVT inputs outputs []))
  end.
Definition outputs_weight (o : TransactionOutputs) (inputs : list Input) : Z :=
  match o with
  | OutDataRequest dr_output change => dr_tx_weight (MkDR inputs (option_list change) dr_output [])
  | OutStake stake_output change =>
      stake_weight {| s_inputs := inputs; s_output := stake_output; s_change := change; s_signatures := [] |}
  | OutValueTransfer outputs => vt_weight (MkVT inputs outputs [])
  end.

Fixpoint generic_fee_loop (c : C) (outputs : TransactionOutputs) (absolute_fee timestamp : Z)
    (block_number_limit : option Z) (utxo_strategy : UtxoSelectionStrategy) (output_value : Z)
    (iterations : nat) (current_weight : Z) : result TransactionError TransactionInfo :=
  match iterations with
  | O => Panic
  | S iterations =>
      let? amount := ok_or (checked_add U64 output_value absolute_fee) FeeOverflow in
      let? collected := take_enough_utxos c amount timestamp block_number_limit utxo_strategy in
      let new_weight := outputs_weight outputs (MkInput <$> pointers collected) in
      if decide (new_weight = current_weight)
      then Ok (MkTxInfo absolute_fee collected output_value (outputs_into outputs))
      else generic_fee_loop c outputs absolute_fee timestamp block_number_limit utxo_strategy output_value
             iterations new_weight
  end.

Definition generic_transaction_factory (c : C) (outputs : TransactionOutputs) (fee : Fee) (timestamp : Z)
    (block_number_limit : option Z) (utxo_strategy : UtxoSelectionStrategy) (max_weight : Z) :
    result TransactionError TransactionInfo :=
  let? output_value := outputs_value outputs [input_default] in
  let current_weight := outputs_weight outputs [input_default] in
  match fee with
  | AbsoluteFee absolute_fee =>
      let? amount := ok_or (checked_add U64 output_value absolute_fee) FeeOverflow in
      let? inputs := take_enough_utxos c amount timestamp block_number_limit utxo_strategy in
      Ok (MkTxInfo absolute_fee inputs output_value (outputs_into outputs))
  | RelativeFee priority =>
      let absolute_fee := into_absolute priority current_weight in
      let max_iterations := wadd U32 1 (wsub U32 max_weight current_weight / INPUT_SIZE) in
      generic_fee_loop c outputs absolute_fee timestamp block_number_limit utxo_strategy output_value
        (Z.to_nat max_iterations) current_weight
  end.

(** ** The transactions *)

Definition insert_change_output (outputs : list ValueTransferOutput) (own_pkh : PublicKeyHash) (change_amount : Z) :
    list ValueTransferOutput :=
  if decide (change_amount > 0) then outputs ++ [MkOutput own_pkh change_amount 0] else outputs.

(** What the inputs have over the outputs and the fee. *)
Definition change_amount (i : TransactionInfo) : Z :=
  wsub U64 (wsub U64 (total_value (ti_inputs i)) (output_value i)) (ti_fee i).

(** Marks the collected outputs as used until the transaction times out. *)
Definition mark_used (c : C) (i : TransactionInfo) (timestamp tx_pending_timeout : Z) : option C :=
  oc_set_used_output_pointer c (MkInput <$> pointers (ti_inputs i)) (wadd U64 timestamp tx_pending_timeout).

Definition build_vtt (c : C) (outputs : list ValueTransferOutput) (fee : Fee) (own_pkh : PublicKeyHash)
    (timestamp tx_pending_timeout : Z) (utxo_strategy : UtxoSelectionStrategy) (max_weight : Z) (dry_run : bool) :
    exec C TransactionError VTTransaction :=
  match build_inputs_outputs c outputs None fee timestamp None utxo_strategy max_weight with
  | Panic => Crash
  | Err e => Fail c e
  | Ok i =>
      match (if dry_run then Some c else mark_used c i timestamp tx_pending_timeout) with
      | None => Crash
      | Some c =>
          Ret c (MkVT (MkInput <$> pointers (ti_inputs i)) (insert_change_output (ti_outputs i) own_pkh (change_amount i)) [])
      end
  end.

Definition build_drt (c : C) (dr_output : DataRequestOutput) (fee : Fee) (own_pkh : PublicKeyHash)
    (timestamp tx_pending_timeout : Z) (max_weight : Z) (dry_run : bool) : exec C TransactionError DRTransaction :=
  match build_inputs_outputs c [] (Some dr_output) fee timestamp None (Random None) max_weight with
  | Panic => Crash
  | Err e => Fail c e
  | Ok i =>
      match (if dry_run then Some c else mark_used c i timestamp tx_pending_timeout) with
      | None => Crash
      | Some c =>
          Ret c (MkDR (MkInput <$> pointers (ti_inputs i)) (insert_change_output (ti_outputs i) own_pkh (change_amount i))
                   dr_output [])
      end
  end.

Definition is_ok {E A} (r : result E A) : option bool :=
  match r with Ok _ => Some true | Err _ => Some false | Panic => None end.

(** Both conditions are computed; [None] is a panic. *)
Definition check_commit_collateral (c : C) (collateral timestamp block_number_limit : Z) : option bool :=
  can_collateralize ← is_ok (build_inputs_outputs c [] None (AbsoluteFee collateral) timestamp
                               (Some block_number_limit) (SmallFirst None) (U32 - 1));
  can_qualify ← is_ok (build_inputs_outputs c [] None (AbsoluteFee (100 * NANOWITS_PER_WIT)) timestamp None
                         (SmallFirst None) (U32 - 1));
  Some (can_collateralize && can_qualify).

Definition build_commit_collateral (c : C) (collateral : Z) (own_pkh : PublicKeyHash)
    (timestamp tx_pending_timeout block_number_limit : Z) :
    exec C TransactionError (list Input * list ValueTransferOutput) :=
  match build_inputs_outputs c [] None (AbsoluteFee collateral) timestamp (Some block_number_limit)
          (SmallFirst None) (U32 - 1) with
  | Panic => Crash
  | Err e => Fail c e
  | Ok i =>
      match mark_used c i timestamp tx_pending_timeout with
      | None => Crash
      | Some c =>
          Ret c (MkInput <$> pointers (ti_inputs i), insert_change_output (ti_outputs i) own_pkh (change_amount i))
      end
  end.

Definition build_st (c : C) (output : StakeOutput) (fee : Fee) (own_pkh : PublicKeyHash)
    (timestamp tx_pending_timeout : Z) (utxo_strategy : UtxoSelectionStrategy) (max_weight : Z) (dry_run : bool) :
    exec C TransactionError StakeTransaction :=
  match generic_transaction_factory c (OutStake output None) fee timestamp None utxo_strategy max_weight with
  | Panic => Crash
  | Err e => Fail c e
  | Ok i =>
      match (if dry_run then Some c else mark_used c i timestamp tx_pending_timeout) with
      | None => Crash
      | Some c =>
          let change_value := change_amount i in
          Ret c {| s_inputs := MkInput <$> pointers (ti_inputs i); s_output := output;
                   s_change := if decide (change_value > 0) then Some (MkOutput own_pkh change_value 0) else None;
                   s_signatures := [] |}
      end
  end.
End collection.

(** ** Balances *)

Inductive NodeBalance := One (confirmed : option Z) (total : Z) | Many (balances : list (PublicKeyHash * NodeBalance)).

Definition add_value (b : NodeBalance) (value : Z) : NodeBalance :=
  match b with One confirmed total => One confirmed (wadd U64 total value) | Many _ => b end.
Definition get_total (b : NodeBalance) : option Z := match b with One _ total => Some total | Many _ => None end.
Definition get_confirmed (b : NodeBalance) : option Z := match b with One confirmed _ => confirmed | Many _ => None end.

Section balance.
Context `{UtxoDb D}.

Definition sum_values (l : list (OutputPointer * UtxoDb.Utxo)) : Z :=
  foldl (λ acc kv, wadd U64 acc (out_value kv.2.1)) 0 l.
Definition get_total_balance (p : UnspentOutputsPool D) (pkh : PublicKeyHash) (simple : bool) : option NodeBalance :=
  v ← visit_with_pkh p pkh;
  Some (One (if simple then None else Some (sum_values v.1)) (sum_values v.2)).

(** [transaction_inputs_sum]. *)
Fixpoint inputs_sum_from (total_value : Z) (seen : gset OutputPointer) (inputs : list Input) (u : UtxoDiff D)
    (epoch : Z) (epoch_constants : EpochConstants) : result Failure Z :=
  match inputs with
  | [] => Ok total_value
  | input :: inputs =>
      let pointer := output_pointer input in
      let? found := unwrap (utxo_diff_get u pointer) in
      let? vt_output := ok_or found (TxError (OutputNotFound pointer)) in
      let? ts := map_err EpochError (epoch_timestamp epoch_constants epoch) in
      if decide (I64_MAX < out_time_lock vt_output) then Err TryFromIntError
      else if decide (ts.1 < out_time_lock vt_output) then Err (TxError (TimeLock ts.1 (out_time_lock vt_output)))
      else if decide (pointer ∈ seen) then Err (TxError (OutputNotFound pointer))
      else
        let? total_value := ok_or (checked_add U64 total_value (out_value vt_output)) (TxError InputValueOverflow) in
        inputs_sum_from total_value ({[ pointer ]} ∪ seen) inputs u epoch epoch_constants
  end.
Definition transaction_inputs_sum (inputs : list Input) (u : UtxoDiff D) (epoch : Z)
    (epoch_constants : EpochConstants) : result Failure Z :=
  inputs_sum_from 0 ∅ inputs u epoch epoch_constants.
End balance.
