(* ===== verification/TxFactoryCorrect.v ===== *)
(** * Correctness of the transaction factory

    The selection of outputs takes the shortest prefix of the usable outputs that
    pays, the search for a relative fee ends, and the built transactions spend
    exactly their outputs and their fee. *)

From stdpp Require Import base tactics numbers list gmap sorting.
From Stdlib Require Import ZArith Lia Floats.SpecFloat.
From S2P Require Import Prelude Hashes Stake Superblock Rad Transaction Epoch Float Storage UtxoDb UtxoDbCorrect Utxo.
From S2P Require Import UtxoCorrect DataRequest TxFactory.
Local Open Scope Z_scope.
Local Open Scope rust_scope.

(** ** The shortest prefix that pays *)

Section pick.
Context (val : OutputPointer → Z).

Fixpoint pick (amount : Z) (l : list OutputPointer) : list OutputPointer :=
  match l with
  | [] => []
  | k :: l => if decide (amount ≤ val k) then [k] else k :: pick (amount - val k) l
  end.

Abbreviation total l := (zsum (val <$> l)).

Lemma pick_prefix l : ∀ a, pick a l `prefix_of` l.
Proof.
  induction l as [|k l IH]; intros a; simpl; [done|]. case_decide; [by exists l|]. by apply prefix_cons.
Qed.
Lemma pick_pays l : ∀ a, 0 < a → a ≤ total l → a ≤ total (pick a l).
Proof.
  induction l as [|k l IH]; intros a Ha Hle; [done|]. rewrite zsum_cons in Hle. cbn [pick].
  case_decide; rewrite zsum_cons; [simpl; lia|]. pose proof (IH (a - val k) ltac:(lia) ltac:(lia)). lia.
Qed.
Lemma pick_all l : ∀ a, Forall (λ k, 0 ≤ val k) l → total l < a → pick a l = l.
Proof.
  induction l as [|k l IH]; intros a Hp; [done|]. apply Forall_cons in Hp as [Hk Hp]. rewrite zsum_cons. intros Hlt. simpl.
  assert (0 ≤ total l) by (apply zsum_nonneg; by apply Forall_fmap). rewrite decide_False by lia. f_equal. apply IH; [done|lia].
Qed.
Lemma pick_shortest l : ∀ a l', l' `prefix_of` pick a l → l' ≠ pick a l → 0 < a → total l' < a.
Proof.
  induction l as [|k l IH]; intros a l' Hl Hne Ha; simpl in *; [by apply prefix_nil_inv in Hl as ->|].
  destruct l' as [|k' l']; [simpl; lia|]. case_decide.
  - destruct Hl as [l1 Hl]. injection Hl as -> Hl. destruct l'; [done|discriminate].
  - pose proof (prefix_cons_inv_1 _ _ _ _ Hl) as ->. apply prefix_cons_inv_2 in Hl.
    rewrite zsum_cons. pose proof (IH (a - val k) l' Hl ltac:(congruence) ltac:(lia)). lia.
Qed.
Lemma pick_mono l : ∀ a b, a ≤ b → (length (pick a l) ≤ length (pick b l))%nat.
Proof.
  induction l as [|k l IH]; intros a b Hab; simpl; [done|].
  destruct (decide (a ≤ val k)), (decide (b ≤ val k)); simpl; try lia. pose proof (IH (a - val k) (b - val k)). lia.
Qed.
Lemma pick_cons_length a k l : (1 ≤ length (pick a (k :: l)))%nat.
Proof. simpl. case_decide; simpl; lia. Qed.
End pick.

(** ** Selecting outputs *)

Section collection.
Context `{OutputsCollection C}.
Context (c : C) (timestamp : Z) (limit : option Z).

(** What the collection answers: the outputs it lists with a strategy, what they
    hold, and which of them may be used. *)
Record listed (strategy : UtxoSelectionStrategy) (ps : list OutputPointer) (out : OutputPointer → ValueTransferOutput)
    (free : OutputPointer → bool) : Prop := {
  ls_sort : oc_sort_by c strategy = Some ps;
  ls_nodup : NoDup ps;
  ls_get k : k ∈ ps → oc_get c k = Some (Some (out k)) ∧ 0 ≤ out_value (out k);
  ls_usable k : k ∈ ps → usable c timestamp limit k = Some (free k);
  ls_total : zsum ((λ k, out_value (out k)) <$> ps) < U64 - 1;
  ls_mark inputs ts : Forall (λ i, output_pointer i ∈ ps) inputs → is_Some (oc_set_used_output_pointer c inputs ts);
}.
Context (strategy : UtxoSelectionStrategy) (ps : list OutputPointer).
Context (out : OutputPointer → ValueTransferOutput) (free : OutputPointer → bool).
Context (Hls : listed strategy ps out free).

Definition val (k : OutputPointer) : Z := out_value (out k).
Definition payers : list OutputPointer := filter (λ k, free k = true) ps.

Lemma val_nonneg k : k ∈ ps → 0 ≤ val k.
Proof. intros Hk. apply (ls_get _ _ _ _ Hls k Hk). Qed.

Lemma take_loop_spec amount l : ∀ tot acc,
  (∀ k, k ∈ l → k ∈ ps) → 0 ≤ total_value acc ≤ tot → total_value acc < amount → tot + zsum (val <$> l) < U64 →
  let new := pick val (amount - total_value acc) (filter (λ k, free k = true) l) in
  ∃ tot', take_loop c amount timestamp limit l tot acc
    = Ok (tot', MkCollected (pointers acc ++ new) (resolved acc ++ (out <$> new)) (total_value acc + zsum (val <$> new)))
    ∧ (total_value acc + zsum (val <$> filter (λ k, free k = true) l) < amount → tot' = tot + zsum (val <$> l)).
Proof.
  induction l as [|k l IH]; intros tot acc Hin Hacc Ham Hu; cbv zeta.
  { exists tot. rewrite filter_nil. simpl. rewrite !app_nil_r. destruct acc. simpl. split; [do 3 f_equal; lia|lia]. }
  assert (k ∈ ps) as Hk by (apply Hin; by left). destruct (ls_get _ _ _ _ Hls k Hk) as [Hg Hv].
  assert (∀ k', k' ∈ l → k' ∈ ps) as Hin' by (intros k' ?; apply Hin; by right).
  assert (0 ≤ zsum (val <$> l)) as Hnn.
  { apply zsum_nonneg, Forall_fmap, Forall_forall. intros k' Hk'. by apply val_nonneg, Hin'. }
  rewrite zsum_cons in Hu |- *. fold (val k) in Hv. cbn [take_loop]. rewrite Hg.
  assert (checked_add U64 tot (out_value (out k)) = Some (tot + val k)) as ->.
  { unfold checked_add. unfold val in *. by rewrite decide_True by lia. }
  rewrite (ls_usable _ _ _ _ Hls k Hk), filter_cons. destruct (free k) eqn:Hf.
  - rewrite (decide_True (P:=true = true)) by done. cbn [total_value pointers resolved pick].
    assert (wadd U64 (total_value acc) (out_value (out k)) = total_value acc + val k) as -> by (unfold val in *; apply wadd_small; lia).
    destruct (decide (amount ≤ total_value acc + val k)).
    + rewrite (decide_True (P:=amount - total_value acc ≤ val k)) by lia. exists (tot + val k). rewrite zsum_cons.
      split; [do 3 f_equal; simpl; lia|]. intros Hlt. rewrite zsum_cons in Hlt.
      assert (0 ≤ zsum (val <$> filter (λ k, free k = true) l)); [|lia]. apply zsum_nonneg, Forall_fmap, Forall_forall.
      intros k' [_ Hk']%list_elem_of_filter. by apply val_nonneg, Hin'.
    + rewrite (decide_False (P:=amount - total_value acc ≤ val k)) by lia.
      destruct (IH (tot + val k) (MkCollected (pointers acc ++ [k]) (resolved acc ++ [out k]) (total_value acc + val k)))
        as (tot' & -> & Htot); [done|simpl; lia|simpl; lia|lia|]. cbn [total_value pointers resolved] in *.
      replace (amount - (total_value acc + val k)) with (amount - total_value acc - val k) by lia.
      exists tot'. split; [|rewrite zsum_cons; intros Hlt; rewrite Htot; lia].
      rewrite zsum_cons, !fmap_cons, <-!app_assoc. do 3 f_equal. lia.
  - rewrite (decide_False (P:=false = true)) by done. destruct (IH (tot + val k) acc) as (tot' & -> & Htot); [done|lia|done|lia|].
    exists tot'. split; [done|]. intros Hlt. rewrite Htot by done. lia.
Qed.

Lemma payers_nonneg : Forall (λ k, 0 ≤ val k) payers.
Proof. apply Forall_forall. intros k [_ Hk]%list_elem_of_filter. by apply val_nonneg. Qed.

Lemma payers_total : zsum (val <$> ps) < U64 - 1.
Proof. apply (ls_total _ _ _ _ Hls). Qed.

Lemma take_enough_spec amount :
  0 < amount →
  take_enough_utxos c amount timestamp limit strategy
  = if decide (amount ≤ zsum (val <$> payers))
    then let l := pick val amount payers in Ok (MkCollected l (out <$> l) (zsum (val <$> l)))
    else Err (NoMoney (zsum (val <$> ps)) (zsum (val <$> payers)) amount).
Proof.
  intros Ha. unfold take_enough_utxos. rewrite decide_False by lia. rewrite (ls_sort _ _ _ _ Hls). cbn [unwrap rbind].
  destruct (take_loop_spec amount ps 0 (MkCollected [] [] 0)) as (tot & -> & Htot);
    [done|simpl; lia|done|pose proof payers_total; lia|]. cbn [rbind fst snd total_value pointers resolved app] in *.
  rewrite Z.sub_0_r, Z.add_0_l in *. fold payers in *. case_decide as Hle; case_decide as Hp; [done| | |].
  - exfalso. rewrite pick_all in Hle; [done|apply payers_nonneg|lia].
  - exfalso. apply Hle. by apply pick_pays.
  - rewrite pick_all by (apply payers_nonneg || lia). rewrite Htot by lia. do 2 f_equal.
Qed.

(** ** Weights *)

Definition body_weight (n o : nat) (dro : option DataRequestOutput) : Z :=
  match dro with
  | Some d => dr_tx_weight (MkDR (replicate n input_default) (replicate o output_default) d [])
  | None => vt_weight (MkVT (replicate n input_default) (replicate o output_default) [])
  end.
Lemma calculate_weight_Ok n o dro max w :
  calculate_weight n o dro max = Ok w → w = body_weight n o dro ∧ w ≤ max.
Proof. unfold calculate_weight, body_weight. destruct dro; case_decide; intros [= <-]; split; (done || lia). Qed.
Lemma calculate_weight_total n o dro max : calculate_weight n o dro max ≠ Panic.
Proof. unfold calculate_weight. destruct dro; by case_decide. Qed.

Lemma dr_weight_nonneg d : 0 ≤ dr_weight d.
Proof.
  unfold dr_weight, sat_add. rewrite request_weight_exact. unfold request_size, filters_size.
  pose proof (zsum_fmap_nonneg retrieve_size (retrieve (data_request d)) retrieve_size_nonneg).
  pose proof (λ l, zsum_fmap_nonneg filter_size l filter_size_nonneg) as Hf.
  pose proof (Hf (agg_filters (aggregate (data_request d)))).
  pose proof (Hf (tally_filters (rad_tally (data_request d)))). unfold_moduli. lia.
Qed.
Definition dro_ok (dro : option DataRequestOutput) : Prop :=
  match dro with Some d => 0 ≤ witnesses d ∧ 0 ≤ witness_reward d ∧ 0 ≤ commit_and_reveal_fee d | None => True end.
Lemma extra_weight_nonneg d : 0 ≤ witnesses d → 0 ≤ extra_weight d.
Proof.
  unfold extra_weight, sat_add, sat_mul, COMMIT_WEIGHT, REVEAL_WEIGHT, BETA, OUTPUT_SIZE, TALLY_WEIGHT. unfold_moduli. lia.
Qed.

Lemma sat_add_mono m a b a' b' : a ≤ a' → b ≤ b' → sat_add m a b ≤ sat_add m a' b'.
Proof. unfold sat_add. lia. Qed.
Lemma sat_mul_le_mono m a a' b : 0 ≤ b → a ≤ a' → sat_mul m a b ≤ sat_mul m a' b.
Proof. unfold sat_mul. nia. Qed.

Ltac weights :=
  unfold body_weight, dr_tx_weight, vt_weight, sat_add, sat_mul, len_u32, INPUT_SIZE, OUTPUT_SIZE, ALPHA, GAMMA;
  cbn [d_inputs d_outputs d_output vt_inputs vt_outputs]; rewrite ?length_replicate; unfold_moduli; lia.

(** Without saturation each input adds its size. *)
Lemma body_weight_exact n o dro :
  dro_ok dro → body_weight n o dro < U32 - 1 →
  body_weight n o dro = INPUT_SIZE * Z.of_nat n + body_weight 0 o dro ∧ 0 ≤ body_weight 0 o dro.
Proof.
  intros Hd. destruct dro as [d|].
  - destruct Hd as [Hw _]. pose proof (dr_weight_nonneg d). pose proof (extra_weight_nonneg d Hw). weights.
  - weights.
Qed.
Lemma body_weight_mono n n' o o' dro :
  (n ≤ n')%nat → (o ≤ o')%nat → body_weight n o dro ≤ body_weight n' o' dro.
Proof.
  intros Hn Ho. unfold body_weight, dr_tx_weight, vt_weight.
  destruct dro as [d|]; cbn [d_inputs d_outputs d_output vt_inputs vt_outputs]; rewrite !length_replicate;
    repeat first [apply sat_add_mono | apply sat_mul_le_mono; [done|] | by unfold len_u32; lia | done].
Qed.

(** ** The search for a relative fee *)

Lemma into_absolute_bounds p w : 0 ≤ into_absolute p w < U64.
Proof. apply f64_to_bounds. unfold_moduli. lia. Qed.
Lemma into_absolute_mono p w1 w2 : 0 < w1 ≤ w2 → w2 < U32 → into_absolute p w1 ≤ into_absolute p w2.
Proof. intros. apply f64_mul_mono; unfold_moduli; lia. Qed.

Section fee.
Context (outputs : list ValueTransferOutput) (dro : option DataRequestOutput) (max_weight value : Z).
Context (Hd : dro_ok dro) (Hmax : max_weight < U32 - 1) (Hv : 0 ≤ value).

Abbreviation wt n := (body_weight n (length outputs + 1) dro).

Definition settled (fee : Z) (i : TransactionInfo) : Prop :=
  i = MkTxInfo fee (let l := pick val (value + fee) payers in MkCollected l (out <$> l) (zsum (val <$> l))) value outputs
  ∧ 0 < value + fee ≤ zsum (val <$> payers).

Lemma take_amount fee col :
  0 ≤ fee → take_enough_utxos c (value + fee) timestamp limit strategy = Ok col →
  settled fee (MkTxInfo fee col value outputs).
Proof.
  intros Hf Ht. destruct (decide (value + fee = 0)) as [H0|H0].
  { unfold take_enough_utxos in Ht. by rewrite decide_True in Ht. }
  rewrite take_enough_spec in Ht by lia. case_decide; [|done]. injection Ht as <-. split; [done|lia].
Qed.

Lemma relative_fee_loop_spec p iterations : ∀ n,
  (0 < n)%nat → wt n ≤ max_weight → 1 + (max_weight - wt n) / INPUT_SIZE ≤ Z.of_nat iterations →
  (∀ i, settled (into_absolute p (wt n)) i → (n ≤ length (pointers (ti_inputs i)))%nat) →
  match relative_fee_loop c outputs dro p timestamp limit strategy max_weight value iterations (wt n) with
  | Panic => False
  | Ok i => let w := wt (length (pointers (ti_inputs i))) in settled (into_absolute p w) i ∧ w ≤ max_weight
  | Err e => True
  end.
Proof.
  induction iterations as [|iterations IH]; intros n Hn Hle Hit Hprog.
  { exfalso. unfold INPUT_SIZE in Hit. pose proof (Z.div_pos (max_weight - wt n) 133). lia. }
  cbn [relative_fee_loop]. set (fee := into_absolute p (wt n)) in *. pose proof (into_absolute_bounds p (wt n)) as Hfee. fold fee in Hfee.
  unfold checked_add. case_decide as Hfits; [|done]. cbn [ok_or rbind].
  destruct (take_enough_utxos c (value + fee) timestamp limit strategy) as [col| |] eqn:Ht; cbn [rbind]; [|done|].
  2:{ destruct (decide (value + fee = 0)); [unfold take_enough_utxos in Ht; by rewrite decide_True in Ht|].
      rewrite take_enough_spec in Ht by lia. by case_decide. }
  apply take_amount in Ht; [|lia]. specialize (Hprog _ Ht). cbn [ti_inputs] in Hprog. set (n' := length (pointers col)) in *.
  destruct (calculate_weight n' _ dro max_weight) as [w'| |] eqn:Hw; cbn [rbind]; [|done|by apply calculate_weight_total in Hw].
  apply calculate_weight_Ok in Hw as [-> Hw']. pose proof (body_weight_mono n n' (length outputs + 1) (length outputs + 1) dro Hprog ltac:(lia)) as Hmono.
  case_decide as Heq.
  - cbn [ti_inputs]. fold n'. rewrite Heq. fold fee. by split.
  - destruct (body_weight_exact n (length outputs + 1) dro Hd) as [E1 P1]; [lia|].
    destruct (body_weight_exact n' (length outputs + 1) dro Hd) as [E2 _]; [lia|].
    assert (n < n')%nat as Hlt by (unfold INPUT_SIZE in *; lia).
    apply IH; [lia|done| |].
    + assert ((max_weight - wt n') / INPUT_SIZE + 1 ≤ (max_weight - wt n) / INPUT_SIZE); [|lia].
      rewrite <-Z.div_add by done. apply Z.div_le_mono; unfold INPUT_SIZE in *; [done|lia].
    + intros i [Hi _]. rewrite Hi. cbn [ti_inputs pointers]. destruct Ht as [Hcol _]. injection Hcol as Hcol.
      assert (n' = length (pick val (value + fee) payers)) as Hn' by (unfold n'; by rewrite Hcol).
      rewrite Hn' at 1. apply pick_mono, Zplus_le_compat_l, into_absolute_mono; [|lia]. unfold INPUT_SIZE in *. lia.
Qed.
End fee.

(** ** Building inputs and outputs *)

Definition dr_total (dro : option DataRequestOutput) : Z :=
  match dro with Some d => (witness_reward d + commit_and_reveal_fee d + commit_and_reveal_fee d) * witnesses d | None => 0 end.
(** What the outputs of a transaction cost. *)
Definition cost (outputs : list ValueTransferOutput) (dro : option DataRequestOutput) : Z :=
  zsum (out_value <$> outputs) + dr_total dro.

Lemma payers_le : zsum (val <$> payers) ≤ zsum (val <$> ps).
Proof.
  unfold payers. pose proof val_nonneg as Hv. clear Hls. induction ps as [|k l IH]; [done|].
  assert (∀ k', k' ∈ l → 0 ≤ val k') as Hv' by (intros k' ?; apply Hv; by right).
  pose proof (Hv k ltac:(by left)). rewrite filter_cons. case_decide; rewrite ?zsum_cons; specialize (IH Hv'); lia.
Qed.

Lemma outputs_sum_from_spec os : ∀ acc,
  Forall (λ o, 0 ≤ out_value o) os → 0 ≤ acc < U64 →
  outputs_sum_from acc os = if decide (acc + zsum (out_value <$> os) < U64) then Ok (acc + zsum (out_value <$> os)) else Err OutputValueOverflow.
Proof.
  induction os as [|o os IH]; intros acc Hp Ha.
  { simpl. rewrite Z.add_0_r. by rewrite decide_True by lia. }
  apply Forall_cons in Hp as [Ho Hp]. cbn [outputs_sum_from]. rewrite zsum_cons. unfold checked_add.
  assert (0 ≤ zsum (out_value <$> os)) by (apply zsum_nonneg; by apply Forall_fmap).
  case_decide; cbn [ok_or rbind]; [rewrite IH by (done || lia); by rewrite Z.add_assoc|]. by rewrite decide_False by lia.
Qed.
Lemma outputs_sum_spec os :
  Forall (λ o, 0 ≤ out_value o) os →
  transaction_outputs_sum os = if decide (zsum (out_value <$> os) < U64) then Ok (zsum (out_value <$> os)) else Err OutputValueOverflow.
Proof. intros Hp. unfold transaction_outputs_sum. rewrite outputs_sum_from_spec by (done || unfold_moduli; lia). done. Qed.

Lemma total_value_spec d :
  dro_ok (Some d) →
  checked_total_value d = Ok (dr_total (Some d)) ∨ checked_total_value d = Err FeeOverflow.
Proof.
  unfold checked_total_value, checked_add, checked_mul. repeat case_decide; simpl; auto.
Qed.

Lemma build_spec outputs dro fee max_weight :
  dro_ok dro → Forall (λ o, 0 ≤ out_value o) outputs → max_weight < U32 - 1 →
  (∀ a, fee = AbsoluteFee a → 0 ≤ a) →
  match build_inputs_outputs c outputs dro fee timestamp limit strategy max_weight with
  | Panic => False
  | Ok i =>
      ∃ f, settled outputs (cost outputs dro) f i
        ∧ match fee with
          | AbsoluteFee a => f = a
          | RelativeFee p => let w := body_weight (length (pointers (ti_inputs i))) (length outputs + 1) dro in
                             f = into_absolute p w ∧ w ≤ max_weight
          end
  | Err _ => True
  end.
Proof.
  intros Hd Ho Hmax Hfee. unfold build_inputs_outputs. rewrite outputs_sum_spec by done.
  assert (0 ≤ zsum (out_value <$> outputs)) as Hs by (apply zsum_nonneg; by apply Forall_fmap).
  pose proof payers_le as Hle. pose proof payers_total as Ht.
  assert (∃ r, or_max (if decide (zsum (out_value <$> outputs) < U64) then Ok (zsum (out_value <$> outputs))
                       else Err OutputValueOverflow) = Some r ∧ 0 ≤ r ∧ (r = zsum (out_value <$> outputs) ∨ r = U64 - 1)) as (sum & -> & Hs0 & Hsum).
  { case_decide; eexists; split; [done|split; [|by auto]|done|split; [|by auto]]; unfold_moduli; lia. }
  assert (∃ r, match dro with None => Some 0 | Some o => or_max (checked_total_value o) end = Some r ∧ 0 ≤ r ∧ (r = dr_total dro ∨ r = U64 - 1))
    as (req & -> & Hr0 & Hreq).
  { destruct dro as [d|]; [|exists 0; split_and!; [done|done|by left]]. destruct (total_value_spec d Hd) as [->| ->]; eexists; (split; [done|]); (split; [|by auto]);
      [|unfold_moduli; lia]. destruct Hd as (? & ? & ?). simpl. nia. }
  cbn [unwrap rbind]. unfold checked_add at 1. case_decide as Hov; cbn [ok_or rbind]; [|done].
  assert (∀ f i, 0 ≤ f → settled outputs (sum + req) f i → sum + req = cost outputs dro) as Hexact.
  { intros f i Hf [_ Hset]. unfold cost. destruct Hsum as [->| ->], Hreq as [->| ->]; lia. }
  destruct (calculate_weight 1 _ dro max_weight) as [w| |] eqn:Hw; cbn [rbind]; [|done|by apply calculate_weight_total in Hw].
  apply calculate_weight_Ok in Hw as [-> Hw].
  destruct fee as [a|p].
  - specialize (Hfee a eq_refl). unfold checked_add. case_decide; cbn [ok_or rbind]; [|done].
    destruct (take_enough_utxos c _ timestamp limit strategy) as [col| |] eqn:Htk; cbn [rbind]; [|done|].
    + apply (take_amount outputs) in Htk; [|lia..]. exists a. by rewrite <-(Hexact a _ Hfee Htk).
    + destruct (decide (sum + req + a = 0)); [unfold take_enough_utxos in Htk; by rewrite decide_True in Htk|].
      rewrite take_enough_spec in Htk by lia. by case_decide.
  - assert (0 ≤ body_weight 1 (length outputs + 1) dro) as Hw0.
    { destruct (body_weight_exact 1 (length outputs + 1) dro Hd) as [-> ?]; [lia|]. unfold INPUT_SIZE. lia. }
    assert (0 ≤ (max_weight - body_weight 1 (length outputs + 1) dro) / INPUT_SIZE ≤ U32 / 133) as Hdiv.
    { unfold INPUT_SIZE. split; [apply Z.div_pos; lia|apply Z.div_le_mono; unfold_moduli; lia]. }
    rewrite wsub_small by lia. rewrite wadd_small by (change (U32 / 133) with 32292987 in Hdiv; unfold_moduli; lia).
    pose proof (relative_fee_loop_spec outputs dro max_weight (sum + req) Hd Hmax ltac:(lia) p
      (Z.to_nat (1 + (max_weight - body_weight 1 (length outputs + 1) dro) / INPUT_SIZE)) 1 ltac:(lia) Hw ltac:(lia)) as Hloop.
    match type of Hloop with ?A → _ => assert A as HA end.
    { intros i [-> [Hpos Hpay]]. cbn [ti_inputs pointers]. destruct payers as [|k l]; [simpl in Hpay; lia|apply pick_cons_length]. }
    specialize (Hloop HA). destruct (relative_fee_loop _ _ _ _ _ _ _ _ _ _ _) as [i| |]; [|done|done].
    destruct Hloop as [Hset Hwi]. pose proof (into_absolute_bounds p (body_weight (length (pointers (ti_inputs i))) (length outputs + 1) dro)) as H0.
    eexists. split; [|by split]. rewrite <-(Hexact _ i (proj1 H0) Hset). done.
Qed.

(** ** Built transactions *)

(** The change of a transaction that is paid for. *)
Lemma settled_change outputs dro f i :
  0 ≤ cost outputs dro → 0 ≤ f → settled outputs (cost outputs dro) f i →
  change_amount i = zsum (val <$> pointers (ti_inputs i)) - cost outputs dro - f ∧ 0 ≤ change_amount i
  ∧ ti_outputs i = outputs ∧ pointers (ti_inputs i) `prefix_of` payers ∧ pointers (ti_inputs i) ≠ [].
Proof.
  intros Hc Hf [-> [Hpos Hle]]. unfold change_amount. cbn [ti_inputs pointers total_value output_value ti_fee ti_outputs].
  pose proof (pick_pays val payers (cost outputs dro + f) Hpos Hle) as Hpay.
  pose proof (pick_prefix val payers (cost outputs dro + f)) as Hpre.
  set (l := pick val (cost outputs dro + f) payers) in *.
  assert (zsum (val <$> l) ≤ zsum (val <$> payers)) as Hl.
  { destruct Hpre as [k Hk]. rewrite Hk, fmap_app, zsum_app. assert (0 ≤ zsum (val <$> k)); [|lia].
    apply zsum_nonneg, Forall_fmap, Forall_forall. intros x Hx. apply (proj1 (Forall_forall _ _) payers_nonneg).
    rewrite Hk. apply elem_of_app. by right. }
  pose proof payers_le. pose proof payers_total. rewrite !wsub_small by (rewrite ?wsub_small; lia).
  split_and!; [done|lia|done|done|]. intros Hnil. rewrite Hnil in Hpay. simpl in Hpay. lia.
Qed.

Lemma prefix_inputs l : l `prefix_of` payers → NoDup l ∧ ∀ k, k ∈ l → k ∈ ps ∧ free k = true.
Proof.
  intros Hl. assert (NoDup payers) as Hnd by (apply NoDup_filter, (ls_nodup _ _ _ _ Hls)).
  destruct Hl as [k Hk]. rewrite Hk in Hnd. split; [by apply NoDup_app in Hnd as [? _]|]. intros x Hx.
  assert (x ∈ payers) as Hp by (rewrite Hk; apply elem_of_app; by left).
  apply list_elem_of_filter in Hp. tauto.
Qed.

(** The inputs of a built transaction: distinct usable outputs that cover what it
    costs and its fee, with the rest as change. *)
Definition paid_for (inputs : list Input) (requested outputs : list ValueTransferOutput) (dro : option DataRequestOutput)
    (own_pkh : PublicKeyHash) (f : Z) : Prop :=
  let ks := output_pointer <$> inputs in
  NoDup ks ∧ ks ≠ [] ∧ (∀ k, k ∈ ks → k ∈ ps ∧ free k = true)
  ∧ zsum (val <$> ks) = cost outputs dro + f
  ∧ (outputs = requested ∨ ∃ v, 0 < v ∧ outputs = requested ++ [MkOutput own_pkh v 0]).

Lemma inputs_pointers (l : list OutputPointer) : output_pointer <$> (MkInput <$> l) = l.
Proof. rewrite <-list_fmap_compose. apply list_fmap_id. Qed.

Lemma settled_paid outputs dro f i own_pkh :
  0 ≤ cost outputs dro → 0 ≤ f → settled outputs (cost outputs dro) f i →
  paid_for (MkInput <$> pointers (ti_inputs i)) outputs (insert_change_output (ti_outputs i) own_pkh (change_amount i)) dro own_pkh f.
Proof.
  intros Hc Hf Hs. destruct (settled_change outputs dro f i Hc Hf Hs) as (Hch & H0 & -> & Hpre & Hne).
  destruct (prefix_inputs _ Hpre) as [Hnd Hin]. unfold paid_for. rewrite inputs_pointers. split_and!; [done..| |].
  - unfold insert_change_output, cost in *. case_decide; rewrite ?fmap_app, ?zsum_app; simpl; lia.
  - unfold insert_change_output. case_decide; [right|by left]. eexists. split; [|done]. lia.
Qed.

Lemma cost_nonneg outputs dro : dro_ok dro → Forall (λ o, 0 ≤ out_value o) outputs → 0 ≤ cost outputs dro.
Proof.
  intros Hd Ho. unfold cost. assert (0 ≤ zsum (out_value <$> outputs)) by (apply zsum_nonneg; by apply Forall_fmap).
  destruct dro as [d|]; simpl; [|lia]. destruct Hd as (? & ? & ?). nia.
Qed.

Lemma mark_used_ok i ts timeout : pointers (ti_inputs i) `prefix_of` payers → is_Some (mark_used c i ts timeout).
Proof.
  intros Hpre. apply (ls_mark _ _ _ _ Hls). apply Forall_fmap, Forall_forall. intros k Hk.
  by apply (prefix_inputs _ Hpre).
Qed.

(** The fee that was asked for: an absolute one, or the priority times a weight
    that the transaction does not exceed. *)
Definition fee_for (fee : Fee) (weight max_weight f : Z) : Prop :=
  match fee with
  | AbsoluteFee a => f = a
  | RelativeFee p => ∃ w, f = into_absolute p w ∧ weight ≤ w ≤ max_weight
  end.

Lemma build_vtt_spec outputs fee own_pkh timeout max_weight dry :
  limit = None → Forall (λ o, 0 ≤ out_value o) outputs → max_weight < U32 - 1 → (∀ a, fee = AbsoluteFee a → 0 ≤ a) →
  match build_vtt c outputs fee own_pkh timestamp timeout strategy max_weight dry with
  | Crash => False
  | Fail c' _ => c' = c
  | Ret c' tx => ∃ f, fee_for fee (vt_weight tx) max_weight f ∧ paid_for (vt_inputs tx) outputs (vt_outputs tx) None own_pkh f
      ∧ (dry = true → c' = c)
      ∧ (dry = false → oc_set_used_output_pointer c (vt_inputs tx) (wadd U64 timestamp timeout) = Some c')
  end.
Proof.
  intros Hlim Ho Hmax Hfee. unfold build_vtt. pose proof (build_spec outputs None fee max_weight I Ho Hmax Hfee) as Hb.
  rewrite Hlim in Hb. destruct (build_inputs_outputs _ _ _ _ _ _ _ _) as [i| |]; [|done|done].
  destruct Hb as (f & Hset & Hf). pose proof (cost_nonneg outputs None I Ho) as Hc.
  assert (0 ≤ f) as Hf0.
  { destruct fee as [a|p]; [subst; by apply Hfee|]. destruct Hf as [-> _]. apply into_absolute_bounds. }
  destruct (settled_change outputs None f i Hc Hf0 Hset) as (_ & _ & Hout & Hpre & _).
  assert (fee_for fee (vt_weight (MkVT (MkInput <$> pointers (ti_inputs i))
            (insert_change_output (ti_outputs i) own_pkh (change_amount i)) [])) max_weight f) as Hff.
  { destruct fee as [a|p]; [done|]. destruct Hf as [-> Hw]. eexists. split; [done|]. split; [|exact Hw].
    assert (∀ t, vt_weight t = body_weight (length (vt_inputs t)) (length (vt_outputs t)) None) as Hbw.
    { intros t. unfold body_weight, vt_weight. cbn [vt_inputs vt_outputs]. by rewrite !length_replicate. }
    rewrite Hbw. cbn [vt_inputs vt_outputs]. rewrite length_fmap. apply body_weight_mono; [done|].
    rewrite Hout. unfold insert_change_output. case_decide; rewrite ?length_app; simpl; lia. }
  destruct (mark_used_ok i timestamp timeout Hpre) as [c' Hm].
  destruct dry; [|rewrite Hm]; exists f; cbn [vt_inputs vt_outputs]; split_and!; try done; by apply settled_paid.
Qed.
End collection.

(** ** The outputs of the node *)

Section node.
Context `{UtxoDbLaws D}.
Implicit Types (p : UnspentOutputsPool D) (m : gmap OutputPointer UtxoDb.Utxo).

Definition output_of p m (k : OutputPointer) : ValueTransferOutput :=
  default (MkOutput [] 0 0) (fst <$> view p m !! k).
(** Whether an own output may be spent: unlocked, not in use and old enough. *)
Definition may_spend p m (own : OwnUnspentOutputsPool) (timestamp : Z) (limit : option Z) (k : OutputPointer) : bool :=
  bool_decide (out_time_lock (output_of p m k) ≤ timestamp) && bool_decide (default 0 (own !! k) ≤ timestamp)
  && match limit, view p m !! k with
     | None, _ => true
     | Some l, Some (_, n) => bool_decide (n ≤ l)
     | Some _, None => false
     end.

Record node_ok (n : NodeUtxos D) m : Prop := {
  no_pool : pool_ok (all_utxos n) m;
  no_own k : is_Some (own_utxos n !! k) → is_Some (view (all_utxos n) m !! k);
  no_values k v : view (all_utxos n) m !! k = Some v → 0 ≤ out_value v.1;
  no_total : zsum ((λ kv, out_value (output_of (all_utxos n) m kv.1)) <$> map_to_list (own_utxos n)) < U64 - 1;
}.

Lemma view_valid p m k : pool_ok p m → is_Some (view p m !! k) → valid_pointer k.
Proof.
  intros Hp Hk. apply view_some in Hk as [_ [Hk|Hk]]; [by apply (po_valid p m Hp)|].
  apply (stored_valid p m k (po_stored p m Hp) Hk).
Qed.

Lemma pool_get_view p m k : pool_ok p m → is_Some (view p m !! k) → pool_get p k = Some (Some (output_of p m k)).
Proof.
  intros Hp Hk. unfold pool_get, output_of. rewrite (get_map_view p m k (po_stored p m Hp) (view_valid p m k Hp Hk)).
  destruct Hk as [v Hv]. by rewrite Hv.
Qed.

Lemma sequence_Some {A B} (f : A → option B) (g : A → B) (l : list A) :
  (∀ x, x ∈ l → f x = Some (g x)) → sequence (f <$> l) = Some (g <$> l).
Proof.
  unfold sequence. induction l as [|x l IH]; intros Hf; [done|]. cbn [fmap list_fmap mapM].
  rewrite (Hf x ltac:(by left)). cbn [mbind option_bind id].
  rewrite IH by (intros y Hy; apply Hf; by right). done.
Qed.

Lemma own_sort_perm own p m bigger :
  pool_ok p m → (∀ k, is_Some (own !! k) → is_Some (view p m !! k)) →
  ∃ ps, own_sort own p bigger = Some ps ∧ ps ≡ₚ (map_to_list own).*1.
Proof.
  intros Hp Hown. unfold own_sort.
  rewrite (sequence_Some _ (λ kv : OutputPointer * Z, (if bigger then - out_value (output_of p m kv.1) else out_value (output_of p m kv.1), kv.1))).
  - cbn [mbind option_bind]. eexists. split; [done|]. rewrite merge_sort_Permutation, <-list_fmap_compose. done.
  - intros [k t] Hk%elem_of_map_to_list. cbn [fst]. unfold sort_key.
    rewrite (pool_get_view p m k Hp (Hown k (mk_is_Some _ _ Hk))). done.
Qed.

Lemma set_used_ok inputs ts : ∀ own : gmap OutputPointer Z,
  Forall (λ i, is_Some (own !! output_pointer i)) inputs → is_Some (set_used_output_pointer own inputs ts).
Proof.
  induction inputs as [|i inputs IH]; intros own Hin; [done|]. apply Forall_cons in Hin as [[x Hx] Hin].
  cbn [set_used_output_pointer]. unfold OwnUnspentOutputsPool. rewrite Hx. cbn [mbind option_bind]. apply IH.
  eapply Forall_impl; [exact Hin|]. intros j Hj. simpl in *. destruct (decide (output_pointer i = output_pointer j)) as [<-|Hne];
    [rewrite lookup_insert_eq; by eexists|by rewrite lookup_insert_ne].
Qed.

Lemma node_usable n m timestamp limit k :
  node_ok n m → is_Some (own_utxos n !! k) →
  usable n timestamp limit k = Some (may_spend (all_utxos n) m (own_utxos n) timestamp limit k).
Proof.
  intros Hn Hk. pose proof (no_own n m Hn k Hk) as Hv. destruct Hk as [t Ht].
  unfold usable. cbn [oc_get_usage_timeout node_utxos_collection oc_get_included_block_number]. unfold get_usage_timeout, may_spend.
  rewrite (pool_get_view _ m k (no_pool n m Hn) Hv), Ht. cbn [mbind option_bind fmap option_fmap option_map default].
  unfold included_in_block_number. rewrite (get_map_view _ m k (po_stored _ _ (no_pool n m Hn)) (view_valid _ m k (no_pool n m Hn) Hv)).
  destruct Hv as [[o b] Hv]. rewrite Hv. cbn [mbind option_bind fmap option_fmap option_map snd].
  change (id t) with t. set (lock := out_time_lock _). destruct (bool_decide_reflect (timestamp < Z.max lock t)).
  - destruct (decide (lock ≤ timestamp)); [|by rewrite (bool_decide_false (lock ≤ timestamp)) by done].
    rewrite (bool_decide_false (t ≤ timestamp)) by lia. by rewrite andb_false_r.
  - rewrite !bool_decide_true by lia. by destruct limit.
Qed.

Lemma node_listed n m timestamp limit strategy :
  node_ok n m →
  ∃ ps, (if allows_from strategy (node_pkh n) then ps ≡ₚ (map_to_list (own_utxos n)).*1 else ps = [])
    ∧ listed n timestamp limit strategy ps (output_of (all_utxos n) m) (may_spend (all_utxos n) m (own_utxos n) timestamp limit).
Proof.
  intros Hn.
  assert (∀ ps, sort_by n strategy = Some ps → (ps ≡ₚ (map_to_list (own_utxos n)).*1 ∨ ps = []) →
    listed n timestamp limit strategy ps (output_of (all_utxos n) m) (may_spend (all_utxos n) m (own_utxos n) timestamp limit)) as Hgen.
  { intros ps Hs Hps. assert (∀ k, k ∈ ps → is_Some (own_utxos n !! k)) as Hin.
    { intros k Hk. destruct Hps as [Hp| ->]; [|by apply elem_of_nil in Hk]. rewrite Hp in Hk.
      apply list_elem_of_fmap in Hk as ([k' t] & -> & Hk%elem_of_map_to_list). by eexists. }
    split.
    - exact Hs.
    - destruct Hps as [Hp| ->]; [rewrite Hp; apply NoDup_fst_map_to_list|constructor].
    - intros k Hk. split; [apply (pool_get_view _ m k (no_pool n m Hn)), (no_own n m Hn), Hin, Hk|].
      destruct (no_own n m Hn k (Hin k Hk)) as [v Hv]. unfold output_of. rewrite Hv. apply (no_values n m Hn k v Hv).
    - intros k Hk. apply node_usable; [done|by apply Hin].
    - destruct Hps as [Hp| ->]; [|simpl; unfold_moduli; lia]. rewrite Hp, <-list_fmap_compose. apply (no_total n m Hn).
    - intros inputs ts Hi. cbn [oc_set_used_output_pointer node_utxos_collection].
      destruct (set_used_ok inputs ts (own_utxos n)) as [own ->]; [|by eexists].
      eapply Forall_impl; [exact Hi|]. intros i Hi'. simpl in Hi'. by apply Hin. }
  unfold sort_by in Hgen. destruct (allows_from strategy (node_pkh n)).
  - destruct strategy as [f|f|f].
    + exists (map_to_list (own_utxos n)).*1. split; [done|]. apply Hgen; [done|by left].
    + destruct (own_sort_perm (own_utxos n) (all_utxos n) m true (no_pool n m Hn) (no_own n m Hn)) as (ps & Hps & Hp).
      exists ps. split; [done|]. apply Hgen; [done|by left].
    + destruct (own_sort_perm (own_utxos n) (all_utxos n) m false (no_pool n m Hn) (no_own n m Hn)) as (ps & Hps & Hp).
      exists ps. split; [done|]. apply Hgen; [done|by left].
  - exists []. split; [done|]. apply Hgen; [done|by right].
Qed.

(** Selecting outputs to pay an amount never panics.  It takes the shortest
    prefix of the usable own outputs, in the order of the strategy, that adds up to
    the amount; when all of them do not, the error reports what the node owns and
    what it could spend. *)
Theorem selection_shortest n m timestamp limit strategy amount :
  node_ok n m → allows_from strategy (node_pkh n) = true → 0 < amount →
  ∃ ps, ps ≡ₚ (map_to_list (own_utxos n)).*1
    ∧ let value l := zsum ((λ k, out_value (output_of (all_utxos n) m k)) <$> l) in
      let spendable := filter (λ k, may_spend (all_utxos n) m (own_utxos n) timestamp limit k = true) ps in
      match take_enough_utxos n amount timestamp limit strategy with
      | Ok r => pointers r `prefix_of` spendable ∧ resolved r = output_of (all_utxos n) m <$> pointers r
          ∧ total_value r = value (pointers r) ∧ amount ≤ total_value r
          ∧ ∀ l, l `prefix_of` pointers r → l ≠ pointers r → value l < amount
      | Err e => e = NoMoney (value ps) (value spendable) amount ∧ value spendable < amount
      | Panic => False
      end.
Proof.
  intros Hn Ha Ham. destruct (node_listed n m timestamp limit strategy Hn) as (ps & Hps & Hls). rewrite Ha in Hps.
  exists ps. split; [done|]. cbv zeta. rewrite (take_enough_spec n timestamp limit strategy ps _ _ Hls amount Ham).
  case_decide as Hle; [|split; [done|unfold payers, val in Hle; lia]]. cbv zeta. cbn [pointers resolved total_value].
  split_and!; [apply pick_prefix|done|done|by apply pick_pays|]. intros l Hl Hne. by eapply (pick_shortest _ _ _ l Hl).
Qed.

Lemma built_transfer_ok n m outputs fee timestamp timeout strategy max_weight dry :
  node_ok n m → Forall (λ o, 0 ≤ out_value o) outputs → max_weight < U32 - 1 → (∀ a, fee = AbsoluteFee a → 0 ≤ a) →
  match build_vtt n outputs fee (node_pkh n) timestamp timeout strategy max_weight dry with
  | Crash => False
  | Fail n' _ => n' = n
  | Ret n' tx =>
      let ks := output_pointer <$> vt_inputs tx in
      ∃ f, fee_for fee (vt_weight tx) max_weight f
        ∧ NoDup ks ∧ ks ≠ []
        ∧ (∀ k, k ∈ ks → is_Some (own_utxos n !! k) ∧ may_spend (all_utxos n) m (own_utxos n) timestamp None k = true)
        ∧ zsum ((λ k, out_value (output_of (all_utxos n) m k)) <$> ks) = zsum (out_value <$> vt_outputs tx) + f
        ∧ (vt_outputs tx = outputs ∨ ∃ v, 0 < v ∧ vt_outputs tx = outputs ++ [MkOutput (node_pkh n) v 0])
        ∧ all_utxos n' = all_utxos n
        ∧ set_used_output_pointer (own_utxos n) (if dry then [] else vt_inputs tx) (wadd U64 timestamp timeout) = Some (own_utxos n')
  end.
Proof.
  intros Hn Ho Hmax Hfee. destruct (node_listed n m timestamp None strategy Hn) as (ps & Hps & Hls).
  pose proof (build_vtt_spec n timestamp None strategy ps _ _ Hls outputs fee (node_pkh n) timeout max_weight dry eq_refl Ho Hmax Hfee) as Hb.
  destruct (build_vtt _ _ _ _ _ _ _ _ _) as [n' tx| |]; [|done|done]. cbv zeta.
  destruct Hb as (f & Hf & (Hnd & Hne & Hin & Hsum & Hout) & Hdry & Hreal). exists f. split_and!; [done..| | |done| |].
  - intros k Hk. apply Hin in Hk as [Hk Hfree]. split; [|done]. destruct (allows_from strategy (node_pkh n)).
    + rewrite Hps in Hk. apply list_elem_of_fmap in Hk as ([k' t] & -> & Hk%elem_of_map_to_list). by eexists.
    + rewrite Hps in Hk. by apply elem_of_nil in Hk.
  - unfold cost in Hsum. simpl in Hsum. rewrite Z.add_0_r in Hsum. exact Hsum.
  - destruct dry; [by rewrite Hdry|]. specialize (Hreal eq_refl). cbn [oc_set_used_output_pointer node_utxos_collection] in Hreal.
    apply bind_Some in Hreal as (own & _ & [= <-]). done.
  - destruct dry; [by rewrite Hdry|]. specialize (Hreal eq_refl). cbn [oc_set_used_output_pointer node_utxos_collection] in Hreal.
    apply bind_Some in Hreal as (own & Hown & [= <-]). done.
Qed.

(** Building a value transfer never panics, in particular the search for a
    relative fee ends.  The result spends distinct own outputs that are not locked
    or in use, has the requested outputs followed at most by a change output of the
    node, and its inputs are worth exactly its outputs plus the fee: the absolute
    one asked for, or the priority times a weight that covers the transaction and is
    within the limit.  Unless it is a dry run the inputs are marked as used. *)
Theorem built_transfer_pays n m outputs fee timestamp timeout strategy max_weight dry :
  node_ok n m → Forall (λ o, 0 ≤ out_value o) outputs → max_weight < U32 - 1 → (∀ a, fee = AbsoluteFee a → 0 ≤ a) →
  match build_vtt n outputs fee (node_pkh n) timestamp timeout strategy max_weight dry with
  | Crash => False
  | Fail n' _ => n' = n
  | Ret n' tx =>
      let ks := output_pointer <$> vt_inputs tx in
      ∃ f, fee_for fee (vt_weight tx) max_weight f
        ∧ NoDup ks ∧ ks ≠ []
        ∧ (∀ k, k ∈ ks → is_Some (own_utxos n !! k) ∧ may_spend (all_utxos n) m (own_utxos n) timestamp None k = true)
        ∧ zsum ((λ k, out_value (output_of (all_utxos n) m k)) <$> ks) = zsum (out_value <$> vt_outputs tx) + f
        ∧ (vt_outputs tx = outputs ∨ ∃ v, 0 < v ∧ vt_outputs tx = outputs ++ [MkOutput (node_pkh n) v 0])
        ∧ all_utxos n' = all_utxos n
        ∧ set_used_output_pointer (own_utxos n) (if dry then [] else vt_inputs tx) (wadd U64 timestamp timeout) = Some (own_utxos n')
  end.
Proof. exact (built_transfer_ok n m outputs fee timestamp timeout strategy max_weight dry). Qed.
End node.

(** ** A node with two outputs *)

#[local] Existing Instances toy_codecs toy_codec_laws.

Definition toy_node : NodeUtxos (CacheUtxosByPkh (UtxoDbWrapStorage Backend)) :=
  {| all_utxos := MkUtxoPool diff_new (Some toy_db); own_utxos := <[toy_pointer 0 := 0]> (<[toy_pointer 1 := 0]> ∅);
     node_pkh := [1] |}.

Lemma toy_node_ok : node_ok toy_node toy_stored.
Proof.
  destruct (pool_ok_empty (MkUtxoPool diff_new (Some toy_db)) toy_stored eq_refl toy_db_holds) as [Hp Hv].
  split; cbn [toy_node all_utxos own_utxos].
  - exact Hp.
  - intros k Hk. rewrite Hv. apply lookup_insert_is_Some in Hk as [<-|[_ [<-|[_ Hk]]%lookup_insert_is_Some]];
      [vm_compute; by eexists..|by destruct Hk].
  - intros k v. rewrite Hv. unfold toy_stored. intros [[_ <-]|[_ [[_ <-]|[_ Hk]]%lookup_insert_Some]]%lookup_insert_Some;
      [done..|by rewrite lookup_empty in Hk].
  - apply (bool_decide_unpack _). by vm_compute.
Qed.

Lemma selection_shortest_witness :
  ∃ ps, ps ≡ₚ (map_to_list (own_utxos toy_node)).*1
    ∧ let value l := zsum ((λ k, out_value (output_of (all_utxos toy_node) toy_stored k)) <$> l) in
      let spendable := filter (λ k, may_spend (all_utxos toy_node) toy_stored (own_utxos toy_node) 5 None k = true) ps in
      match take_enough_utxos toy_node 15 5 None (SmallFirst None) with
      | Ok r => pointers r `prefix_of` spendable ∧ resolved r = output_of (all_utxos toy_node) toy_stored <$> pointers r
          ∧ total_value r = value (pointers r) ∧ 15 ≤ total_value r
          ∧ ∀ l, l `prefix_of` pointers r → l ≠ pointers r → value l < 15
      | Err e => e = NoMoney (value ps) (value spendable) 15 ∧ value spendable < 15
      | Panic => False
      end.
Proof. exact (selection_shortest toy_node toy_stored 5 None (SmallFirst None) 15 toy_node_ok eq_refl eq_refl). Defined.

(** Half a unit per unit of weight pays for two inputs and two outputs. *)
Definition toy_priority : f64 := f64_div f64_one (f64_of 128).
Example toy_transfer :
  match build_vtt toy_node [MkOutput [2] 15 0] (RelativeFee toy_priority) [1] 5 100 (SmallFirst None) 20000 false with
  | Ret _ tx => vt_inputs tx = [MkInput (toy_pointer 0); MkInput (toy_pointer 1)]
      ∧ vt_outputs tx = [MkOutput [2] 15 0; MkOutput [1] 8 0]
  | _ => False
  end.
Proof. vm_compute. done. Qed.

Lemma built_transfer_pays_witness :
  match build_vtt toy_node [MkOutput [2] 15 0] (RelativeFee toy_priority) [1] 5 100 (SmallFirst None) 20000 false with
  | Crash => False
  | Fail n' _ => n' = toy_node
  | Ret n' tx =>
      let ks := output_pointer <$> vt_inputs tx in
      ∃ f, fee_for (RelativeFee toy_priority) (vt_weight tx) 20000 f
        ∧ NoDup ks ∧ ks ≠ []
        ∧ (∀ k, k ∈ ks → is_Some (own_utxos toy_node !! k)
             ∧ may_spend (all_utxos toy_node) toy_stored (own_utxos toy_node) 5 None k = true)
        ∧ zsum ((λ k, out_value (output_of (all_utxos toy_node) toy_stored k)) <$> ks) = zsum (out_value <$> vt_outputs tx) + f
        ∧ (vt_outputs tx = [MkOutput [2] 15 0] ∨ ∃ v, 0 < v ∧ vt_outputs tx = [MkOutput [2] 15 0] ++ [MkOutput [1] v 0])
        ∧ all_utxos n' = all_utxos toy_node
        ∧ set_used_output_pointer (own_utxos toy_node) (vt_inputs tx) (wadd U64 5 100) = Some (own_utxos n')
  end.
Proof.
  refine (built_transfer_pays toy_node toy_stored [MkOutput [2] 15 0] (RelativeFee toy_priority) 5 100 (SmallFirst None) 20000 false
    toy_node_ok _ _ _); [apply Forall_singleton; simpl; lia|done|by intros a [=]].
Defined.

(** The fee of a stake transaction relative to its weight is computed for one
    input and not again: with two inputs it is below the priority times the
    weight.  With little room below the limit the search even ends in a panic. *)
Definition toy_stake : StakeOutput :=
  {| authorization := MkSignature [] (MkPublicKey 2 []); so_key := MkKey [1] [1]; so_value := 25 |}.
Example stake_fee_of_one_input :
  match build_st toy_node toy_stake (RelativeFee toy_priority) [1] 5 100 (SmallFirst None) 20000 false with
  | Ret _ tx => length (s_inputs tx) = 2%nat ∧ s_change tx = Some (MkOutput [1] 4 0)
      ∧ into_absolute toy_priority 238 = 1 ∧ into_absolute toy_priority (stake_weight tx) = 3
  | _ => False
  end.
Proof. vm_compute. done. Qed.
Example stake_fee_search_panics :
  build_st toy_node toy_stake (RelativeFee toy_priority) [1] 5 100 (SmallFirst None) 300 false = Crash.
Proof. vm_compute. done. Qed.
