(* ===== verification/Consensus.v ===== *)
(** * Consensus constants, blocks and rewards

    Models the constants of the consensus, blocks and the list of signatures to
    verify of data_structures/src/chain/mod.rs, and from
    validations/src/validations.rs the block rewards, the roots of a block and the
    verification of signatures.

    The hash of a transaction is that of its protocol-buffer bytes: a parameter,
    [tx_hash None] for [hash] and [tx_hash (Some v)] for [versioned_hash]; so is the
    hash of a block header.  The protocol information and the environment, which the
    program keeps in globals, are arguments. *)

From stdpp Require Import base tactics numbers list.
From Stdlib Require Import ZArith Lia.
From S2P Require Import Prelude Hashes Superblock Versioning Tapi Merkle Float Transaction TxFactory.
Local Open Scope Z_scope.
Local Open Scope rust_scope.

(** ** Constants *)

(** [ConsensusConstants], without the names of the bootstrapping committee. *)
Record ConsensusConstants := MkConstants {
  cc_checkpoint_zero_timestamp : Z;
  cc_checkpoints_period : Z;
  bootstrap_hash : Hash;
  genesis_hash : Hash;
  max_vt_weight : Z;
  max_dr_weight : Z;
  activity_period : Z;
  cc_reputation_expire_alpha_diff : Z;
  cc_reputation_issuance : Z;
  cc_reputation_issuance_stop : Z;
  cc_reputation_penalization_factor : f64;
  mining_backup_factor : Z;
  cc_mining_replication_factor : Z;
  collateral_minimum : Z;
  cc_collateral_age : Z;
  superblock_period : Z;
  cc_extra_rounds : Z;
  minimum_difficulty : Z;
  epochs_with_minimum_difficulty : Z;
  superblock_signing_committee_size : Z;
  superblock_committee_decreasing_period : Z;
  superblock_committee_decreasing_step : Z;
  initial_block_reward : Z;
  halving_period : Z;
}.

Definition version_le (x y : ProtocolVersion) : bool := negb (version_lt y x).
Definition PSEUDO_CONSENSUS_CONSTANTS_WIP0022_REWARD_COLLATERAL_RATIO : Z := 125.

(** [ConsensusConstantsWit2]: constants of version 2.0. *)
Section wit2.
Context (info : ProtocolInfo) (env : Environment).

Definition get_checkpoints_period_wit2 : Z := 20.
Definition get_wit2_minimum_total_stake_nanowits : Z :=
  match env with Development | Testnet => 30000000000000000 | Mainnet => 300000000000000000 end.
Definition get_wit2_activation_delay_epochs : Z :=
  match env with Development | Testnet => 80 + 21 | Mainnet => 13440 + 21 end.
Definition get_replication_factor (epoch prev_epoch : Z) : Z :=
  if before_v2 (get_protocol_version info (Some epoch)) then 0
  else if decide (prev_epoch ≤ epoch) then sat_mul U16 4 (Z.min (U16 - 1) (2 ^ (epoch - prev_epoch)))
  else 0.
Definition get_maximum_stake_block_weight (epoch : Z) : Z :=
  if version_lt V1_7 (get_protocol_version info (Some epoch)) then 10000000 else 0.
Definition get_maximum_unstake_block_weight (epoch : Z) : Z :=
  if before_v2 (get_protocol_version info (Some epoch)) then 0 else 5000.
Definition get_unstaking_delay_seconds (epoch : Z) : Z :=
  if before_v2 (get_protocol_version info (Some epoch)) then 0
  else match env with Development | Testnet => 3600 | Mainnet => 1209600 end.
Definition get_validator_min_stake_nanowits (epoch : Z) : Z :=
  if version_lt V1_7 (get_protocol_version info (Some epoch)) then 10000000000000 else 0.
Definition get_validator_max_stake_nanowits (epoch : Z) : Z :=
  if version_lt V1_7 (get_protocol_version info (Some epoch)) then 10000000000000000 else 0.
Definition get_validator_block_reward (epoch : Z) : Z :=
  if before_v2 (get_protocol_version info (Some epoch)) then 0 else 50000000000.
Definition get_collateral_age (active_wips : ActiveWips) : Z :=
  match env with Mainnet => if wip0027 active_wips then 13440 else 1000 | _ => 80 end.
End wit2.

(** ** Rewards *)

(** [None] is the division by zero. *)
Definition block_reward (epoch initial_block_reward halving_period : Z) : option Z :=
  if decide (halving_period = 0) then None
  else
    let halvings := epoch / halving_period in
    Some (if decide (halvings < 64) then Z.shiftr initial_block_reward halvings else 0).

(** The loop of [total_block_reward] runs once per bit of the base reward; [None]
    is the overflow. *)
Fixpoint total_reward_loop (fuel : nat) (total_reward base_reward halving_period : Z) : option Z :=
  if decide (base_reward = 0) then Some total_reward
  else match fuel with
       | O => None
       | S fuel =>
           new_reward ← checked_mul U64 base_reward halving_period;
           total_reward ← checked_add U64 total_reward new_reward;
           total_reward_loop fuel total_reward (Z.shiftr base_reward 1) halving_period
       end.
Definition total_block_reward (initial_block_reward halving_period : Z) : option Z :=
  total_reward_loop 64 0 initial_block_reward halving_period.

(** ** Blocks *)

Record BlockTransactions := MkTxns {
  mint : MintTransaction;
  value_transfer_txns : list VTTransaction;
  data_request_txns : list DRTransaction;
  commit_txns : list CommitTransaction;
  reveal_txns : list RevealTransaction;
  tally_txns : list TallyTransaction;
  stake_txns : list StakeTransaction;
  unstake_txns : list UnstakeTransaction;
}.
Record Block := MkBlock { block_header : BlockHeader; block_sig : KeyedSignature; txns : BlockTransactions }.

#[export] Instance BlockMerkleRoots_eq_dec : EqDecision BlockMerkleRoots.
Proof. solve_decision. Defined.

(** [Hash::default], [MintTransaction::default], [KeyedSignature::default]. *)
Definition hash_default : Hash := replicate 32 0.
Definition mint_default : MintTransaction := MkMint 0 [].
Definition public_key_default : PublicKey := MkPublicKey 0 (replicate 32 0).
Definition signature_default : KeyedSignature := MkSignature [] public_key_default.

Section blocks.
Context (hash_concat : Hash → Hash → Hash) (empty_hash : Hash).
Context (tx_hash : option ProtocolVersion → Transaction → Hash) (header_hash : option ProtocolVersion → BlockHeader → Hash).

(** [merkle_tree_root] and [hash_merkle_tree_root]; [None] is a panic. *)
Definition hash_merkle_tree_root (hashes : list Hash) : option Hash := Merkle.merkle_tree_root hash_concat empty_hash hashes.
Definition txs_merkle_tree_root {A} (wrap : A → Transaction) (txs : list A) : option Hash :=
  hash_merkle_tree_root ((λ t, tx_hash None (wrap t)) <$> txs).

Definition validate_merkle_tree (b : Block) : option bool :=
  let t := txns b in
  vt ← txs_merkle_tree_root ValueTransfer (value_transfer_txns t);
  dr ← txs_merkle_tree_root DataRequest (data_request_txns t);
  co ← txs_merkle_tree_root Commit (commit_txns t);
  re ← txs_merkle_tree_root Reveal (reveal_txns t);
  ta ← txs_merkle_tree_root Tally (tally_txns t);
  st ← txs_merkle_tree_root TxStake (stake_txns t);
  ut ← txs_merkle_tree_root TxUnstake (unstake_txns t);
  Some (bool_decide (
    {| mint_hash := tx_hash None (Mint (mint t)); vt_hash_merkle_root := vt; dr_hash_merkle_root := dr;
       commit_hash_merkle_root := co; reveal_hash_merkle_root := re; tally_hash_merkle_root := ta;
       stake_hash_merkle_root := st; unstake_hash_merkle_root := ut |} = merkle_roots (block_header b))).

(** [Block::genesis]. *)
Definition genesis (bootstrap_hash : Hash) (value_transfer_txns : list VTTransaction) : option Block :=
  let t := MkTxns mint_default value_transfer_txns [] [] [] [] [] [] in
  vt ← txs_merkle_tree_root ValueTransfer value_transfer_txns;
  dr ← txs_merkle_tree_root DataRequest [];
  co ← txs_merkle_tree_root Commit [];
  re ← txs_merkle_tree_root Reveal [];
  ta ← txs_merkle_tree_root Tally [];
  Some (MkBlock
    {| signals := 1; beacon := MkBeacon 0 bootstrap_hash;
       merkle_roots :=
         {| mint_hash := tx_hash None (Mint mint_default); vt_hash_merkle_root := vt; dr_hash_merkle_root := dr;
            commit_hash_merkle_root := co; reveal_hash_merkle_root := re; tally_hash_merkle_root := ta;
            stake_hash_merkle_root := hash_default; unstake_hash_merkle_root := hash_default |};
       proof := ([], public_key_default); bn256_public_key := None |}
    signature_default t).

Definition is_genesis (b : Block) (genesis : Hash) : bool := bool_decide (header_hash None (block_header b) = genesis).
End blocks.

(** ** Signatures *)

Record CheckpointVRF := MkVrfInput { vrf_checkpoint : Z; hash_prev_vrf : Hash }.

Inductive SignaturesToVerify :=
  | VrfDr (proof : DataRequestEligibilityClaim) (vrf_input : CheckpointVRF) (dr_hash target_hash : Hash)
      (withdrawer : option PublicKeyHash) (inclusion_epoch : option Z)
  | VrfBlock (proof : list Z * PublicKey) (vrf_input : CheckpointVRF) (target_hash : Hash)
  | SecpTx (public_key : PublicKey) (data signature : list Z)
  | SecpBlock (public_key : PublicKey) (data signature : list Z)
  | SuperBlockVoteSig (superblock_vote : SuperBlockVote).

Section verify.
Context (info : ProtocolInfo) (calculate_sha256 : list Z → Hash).
(** The secp256k1 and vrf crates: verification of a signature, parsing of keys and
    signatures, and the proofs of eligibility of blocks and data requests. *)
Context (verify : PublicKey → list Z → list Z → bool).
Context (parse_public_key : PublicKey → bool) (parse_signature : list Z → bool).
Context (verify_block_proof : list Z * PublicKey → CheckpointVRF → option Hash).
Context (verify_v1 : DataRequestEligibilityClaim → CheckpointVRF → Hash → option Hash).
Context (verify_v2 : DataRequestEligibilityClaim → CheckpointVRF → Hash → option PublicKeyHash → option Hash).

(** One signature: the hash of a block proof, or nothing. *)
Definition verify_signature (s : SignaturesToVerify) : result Failure (list Hash) :=
  match s with
  | VrfBlock proof vrf_input target_hash =>
      let? vrf_hash := ok_or (verify_block_proof proof vrf_input) (BlkError NotValidPoe) in
      if decide (bytes_le vrf_hash target_hash) then Ok [vrf_hash]
      else Err (BlkError (BlockEligibilityDoesNotMeetTarget vrf_hash target_hash))
  | VrfDr proof vrf_input dr_hash target_hash withdrawer inclusion_epoch =>
      let? vrf_hash := ok_or (if before_v2 (get_protocol_version info inclusion_epoch)
                              then verify_v1 proof vrf_input dr_hash
                              else verify_v2 proof vrf_input dr_hash withdrawer) (TxError InvalidDataRequestPoe) in
      if decide (bytes_le vrf_hash target_hash) then Ok []
      else Err (TxError (DataRequestEligibilityDoesNotMeetTarget vrf_hash target_hash))
  | SecpTx public_key data signature =>
      if verify public_key data signature then Ok []
      else if decide (length data = 32%nat) then Err (TxError (VerifyTransactionSignatureFail data)) else Panic
  | SecpBlock public_key data signature =>
      if verify public_key data signature then Ok []
      else if decide (length data = 32%nat) then Err (BlkError (VerifySignatureFail data)) else Panic
  | SuperBlockVoteSig vote =>
      let message := calculate_sha256 (secp256k1_signature_message vote) in
      let ks := secp256k1_signature vote in
      if parse_public_key (public_key ks) && parse_signature (signature ks) then
        if verify (public_key ks) message (signature ks) then Ok [] else Err SignatureError
      else Panic
  end.

Fixpoint verify_signatures (signatures_to_verify : list SignaturesToVerify) : result Failure (list Hash) :=
  match signatures_to_verify with
  | [] => Ok []
  | s :: rest => let? hs := verify_signature s in let? rest := verify_signatures rest in Ok (hs ++ rest)
  end.
End verify.
