(* ===== verification/ConsensusCorrect.v ===== *)
(** * Block rewards: correctness

    The schedule of block rewards halves every [halving_period] epochs; the total that
    the validation of the genesis block reserves for it is exactly the sum of all
    rewards, and is refused exactly when that sum does not fit in 64 bits. *)

From stdpp Require Import base tactics numbers list.
From Stdlib Require Import ZArith Lia.
From S2P Require Import Prelude Consensus.
Local Open Scope Z_scope.

(** The sum of [n] halvings of a reward. *)
Fixpoint halvings (n : nat) (base : Z) : Z :=
  match n with O => 0 | S n => base + halvings n (Z.shiftr base 1) end.

(** The reward of an epoch, and the sum over the first [n] epochs. *)
Definition reward_at (i h e : Z) : Z := default 0 (block_reward e i h).
Definition rewards (i h n : Z) : Z := zsum (reward_at i h <$> seqZ 0 n).

Lemma shiftr1_bound base n : 0 ≤ base < 2 ^ Z.of_nat (S n) → 0 ≤ Z.shiftr base 1 < 2 ^ Z.of_nat n.
Proof.
  rewrite Nat2Z.inj_succ, Z.pow_succ_r by lia. rewrite Z.shiftr_div_pow2 by lia. change (2 ^ 1) with 2. intros Hb.
  split; [apply Z.div_pos; lia|apply Z.div_lt_upper_bound; lia].
Qed.

Lemma halvings_nonneg n : ∀ base, 0 ≤ base → 0 ≤ halvings n base.
Proof.
  induction n as [|n IH]; intros base Hb; [done|]. cbn [halvings].
  assert (0 ≤ Z.shiftr base 1) as Hs by (by apply Z.shiftr_nonneg). specialize (IH _ Hs). lia.
Qed.

Lemma halvings_zero n : halvings n 0 = 0.
Proof. induction n as [|n IH]; [done|]. cbn [halvings]. change (Z.shiftr 0 1) with 0. lia. Qed.

(** The loop ends within one step per bit and is exact. *)
Lemma total_reward_loop_exact fuel : ∀ total base h,
  0 ≤ base < 2 ^ Z.of_nat fuel → 0 < h → 0 ≤ total < U64 →
  total_reward_loop fuel total base h
  = if decide (total + h * halvings fuel base < U64) then Some (total + h * halvings fuel base) else None.
Proof.
  induction fuel as [|fuel IH]; intros total base h Hb Hh Ht; cbn [total_reward_loop].
  { change (2 ^ Z.of_nat 0) with 1 in Hb. rewrite decide_True by lia. cbn [halvings]. rewrite decide_True by lia. f_equal. lia. }
  destruct (decide (base = 0)) as [->|Hne].
  { rewrite halvings_zero, decide_True by lia. f_equal. lia. }
  pose proof (shiftr1_bound base fuel Hb) as Hs. pose proof (halvings_nonneg fuel _ (proj1 Hs)) as Hn. cbn [halvings].
  unfold checked_mul. case_decide; cbn [mbind option_bind]; [|by rewrite decide_False by nia].
  unfold checked_add. case_decide; cbn [mbind option_bind]; [|by rewrite decide_False by nia].
  rewrite IH by (done || nia). repeat case_decide; try nia; f_equal; nia.
Qed.

(** ** The schedule *)

Lemma reward_at_shift i h e : fits U64 i → 0 < h → 0 ≤ e → reward_at i h e = Z.shiftr i (e / h).
Proof.
  intros [Hi0 Hi] Hh He. unfold reward_at, block_reward. rewrite decide_False by lia. cbn [default].
  case_decide as Hlt; [done|]. symmetry. cbn. apply Z.shiftr_eq_0; [done|].
  assert (Z.log2 i < 64 ∨ i = 0) as [?| ->]; [|lia|cbn; lia].
  destruct (decide (i = 0)); [by right|left]. apply Z.log2_lt_pow2; [lia|]. exact Hi.
Qed.

Lemma rewards_shift i h n : fits U64 i → 0 < h → rewards i h n = zsum ((λ e, Z.shiftr i (e / h)) <$> seqZ 0 n).
Proof.
  intros Hi Hh. unfold rewards. f_equal. apply list_fmap_ext. intros k e Hk. apply lookup_seqZ in Hk as [-> ?].
  apply reward_at_shift; [done..|lia].
Qed.

Definition schedule (i h n : Z) : Z := zsum ((λ e, Z.shiftr i (e / h)) <$> seqZ 0 n).

Lemma schedule_first i h n : 0 ≤ n ≤ h → 0 < h → schedule i h n = n * i.
Proof.
  intros Hn Hh. unfold schedule.
  assert ((λ e, Z.shiftr i (e / h)) <$> seqZ 0 n = (λ _, i) <$> seqZ 0 n) as ->.
  { apply list_fmap_ext. intros k e Hk. apply lookup_seqZ in Hk as [-> ?]. rewrite Z.div_small by lia. apply Z.shiftr_0_r. }
  rewrite zsum_const, length_seqZ, Z2Nat.id by lia. apply Z.mul_comm.
Qed.

Lemma schedule_next i h n : 0 < h ≤ n → schedule i h n = h * i + schedule (Z.shiftr i 1) h (n - h).
Proof.
  intros Hn. unfold schedule. replace n with (h + (n - h)) at 1 by lia. rewrite seqZ_app by lia.
  rewrite fmap_app, zsum_app. change (zsum ((λ e, Z.shiftr i (e / h)) <$> seqZ 0 h)) with (schedule i h h).
  rewrite schedule_first by lia. f_equal. f_equal. rewrite (Z.add_comm 0 h), <-fmap_add_seqZ, <-list_fmap_compose.
  apply list_fmap_ext. intros k e Hk. apply lookup_seqZ in Hk as [-> ?]. cbn [compose].
  replace (h + (0 + Z.of_nat k)) with (Z.of_nat k + 1 * h) by lia. rewrite Z.div_add, Z.add_0_l by lia.
  rewrite Z.shiftr_shiftr by (apply Z.div_pos; lia). f_equal. lia.
Qed.

Lemma schedule_zero h n : schedule 0 h n = 0.
Proof.
  unfold schedule. assert (∀ l : list Z, zsum ((λ e, Z.shiftr 0 (e / h)) <$> l) = 0) as Hz; [|apply Hz].
  induction l as [|e l IH]; [done|]. rewrite zsum_cons, IH, Z.shiftr_0_l. done.
Qed.

Lemma schedule_le fuel : ∀ i h n, 0 ≤ i < 2 ^ Z.of_nat fuel → 0 < h → 0 ≤ n → schedule i h n ≤ h * halvings fuel i.
Proof.
  induction fuel as [|fuel IH]; intros i h n Hi Hh Hn.
  { change (2 ^ Z.of_nat 0) with 1 in Hi. replace i with 0 by lia. rewrite schedule_zero. cbn. lia. }
  pose proof (shiftr1_bound i fuel Hi) as Hs. pose proof (halvings_nonneg fuel _ (proj1 Hs)). cbn [halvings].
  destruct (decide (n ≤ h)); [rewrite schedule_first by lia; nia|].
  rewrite schedule_next by lia. pose proof (IH _ h (n - h) Hs Hh ltac:(lia)). nia.
Qed.

Lemma schedule_whole fuel : ∀ i h n,
  0 ≤ i < 2 ^ Z.of_nat fuel → 0 < h → Z.of_nat fuel * h ≤ n → schedule i h n = h * halvings fuel i.
Proof.
  induction fuel as [|fuel IH]; intros i h n Hi Hh Hn.
  { change (2 ^ Z.of_nat 0) with 1 in Hi. replace i with 0 by lia. rewrite schedule_zero. cbn. lia. }
  pose proof (shiftr1_bound i fuel Hi) as Hs. cbn [halvings].
  rewrite schedule_next by nia. rewrite (IH _ h (n - h) Hs Hh) by nia. lia.
Qed.

(** The supply of block rewards.  [total_block_reward] always ends within its 64
    halvings.  The total it returns bounds the rewards of the blocks of any number of
    epochs, and is their exact sum once the rewards have run out; it panics exactly
    when that sum needs more than 64 bits. *)
Theorem total_block_reward_exact i h :
  fits U64 i → 0 < h →
  match total_block_reward i h with
  | Some total => 0 ≤ total < U64 ∧ (∀ n, 0 ≤ n → rewards i h n ≤ total) ∧ (∀ n, 64 * h ≤ n → rewards i h n = total)
  | None => U64 ≤ rewards i h (64 * h)
  end.
Proof.
  intros Hi Hh. unfold total_block_reward. pose proof (halvings_nonneg 64 i (proj1 Hi)) as Hn.
  rewrite total_reward_loop_exact by (done || exact Hi || unfold_moduli; lia). rewrite Z.add_0_l.
  assert (∀ n, 64 * h ≤ n → rewards i h n = h * halvings 64 i) as Hw.
  { intros n Hle. rewrite rewards_shift by done. by apply schedule_whole. }
  case_decide; [|rewrite (Hw (64 * h)) by lia; lia]. split_and!; [nia|done| |done].
  intros n Hle. rewrite rewards_shift by done. by apply schedule_le.
Qed.

Lemma total_block_reward_exact_witness :
  match total_block_reward 250000000000 3500000 with
  | Some total => 0 ≤ total < U64 ∧ (∀ n, 0 ≤ n → rewards 250000000000 3500000 n ≤ total)
      ∧ (∀ n, 64 * 3500000 ≤ n → rewards 250000000000 3500000 n = total)
  | None => U64 ≤ rewards 250000000000 3500000 (64 * 3500000)
  end.
Proof. apply (total_block_reward_exact 250000000000 3500000); [split; by vm_compute|done]. Defined.
