(* ===== verification/Validation.v ===== *)
(** * Validation of transactions

    Models the functions of validations/src/validations.rs that validate one
    transaction against the unspent outputs, the pool of data requests, the stakes
    and the reputation engine.

    A list of signatures still to be verified is threaded through; since the first
    error ends the validation, the list is part of the success only.  Parameters
    stand for SHA-256, the hashes of protocol-buffer bytes, the secp256k1 crate
    (parsing of keys and signatures, verification), the CBOR crate and the execution
    of the tally script.  Queries of the reputation engine do not depend on its cache,
    so the refreshed cache is dropped. *)

From stdpp Require Import base tactics numbers list gmap sorting.
From Stdlib Require Import ZArith Lia.
From S2P Require Import Prelude Stake Stakes Hashes Superblock Versioning Tapi Rad Float Storage UtxoDb Utxo RepEngine.
From S2P Require Import Eligibility Epoch RadScript Transaction DataRequest TxFactory Consensus.
Local Open Scope Z_scope.
Local Open Scope rust_scope.

Abbreviation StakesTracker := (Stakes.Stakes (Address:=PublicKeyHash)).
(** [WIT_DECIMAL_PLACES], the unit of the tracker. *)
Abbreviation UNIT := WIT_DECIMAL_PLACES.

(** [u8::try_from] and [i64::try_from]. *)
Definition u8_try_from (n : nat) : result Failure Z :=
  if decide (Z.of_nat n < 256) then Ok (Z.of_nat n) else Err TryFromIntError.
Definition i64_try_from (x : Z) : result Failure Z := if decide (x ≤ I64_MAX) then Ok x else Err TryFromIntError.

Definition tx_err {A} (r : result TransactionError A) : result Failure A := map_err TxError r.

(** The first output with value zero. *)
Definition first_zero (outputs : list ValueTransferOutput) : option nat := fst <$> list_find (λ o, out_value o = 0) outputs.
Definition no_zero_outputs (tx_hash : Hash) (outputs : list ValueTransferOutput) : result Failure unit :=
  match first_zero outputs with Some idx => Err (TxError (ZeroValueOutput tx_hash idx)) | None => Ok tt end.

Section validation.
Context `{UtxoDb D}.
Context (pinfo : ProtocolInfo) (calculate_sha256 : list Z → Hash) (tx_hash : option ProtocolVersion → Transaction → Hash).
Context (verify : PublicKey → list Z → list Z → bool) (parse_public_key : PublicKey → bool) (parse_signature : list Z → bool).
Context (from_slice : list Z → option Value) (from_value_u8 : Value → option Z).

Abbreviation key_pkh := (pkh calculate_sha256).

(** ** Fees *)

Definition vt_transaction_fee (t : VTTransaction) (u : UtxoDiff D) (epoch : Z) (c : EpochConstants) : result Failure Z :=
  let? in_value := transaction_inputs_sum (vt_inputs t) u epoch c in
  let? out_value := tx_err (transaction_outputs_sum (vt_outputs t)) in
  if decide (in_value < out_value) then Err (TxError NegativeFee) else Ok (in_value - out_value).

Definition dr_transaction_fee (t : DRTransaction) (u : UtxoDiff D) (epoch : Z) (c : EpochConstants) : result Failure Z :=
  let? in_value := transaction_inputs_sum (d_inputs t) u epoch c in
  let? outputs := tx_err (transaction_outputs_sum (d_outputs t)) in
  let? total := tx_err (checked_total_value (d_output t)) in
  let? out_value := ok_or (checked_add U64 outputs total) (TxError OutputValueOverflow) in
  if decide (in_value < out_value) then Err (TxError NegativeFee) else Ok (in_value - out_value).

Definition st_transaction_fee (t : StakeTransaction) (u : UtxoDiff D) (epoch : Z) (c : EpochConstants) : result Failure Z :=
  let? in_value := transaction_inputs_sum (s_inputs t) u epoch c in
  let out_value := so_value (s_output t) in
  let change_value := match s_change t with Some change => Transaction.out_value change | None => 0 end in
  if decide (in_value < wadd U64 out_value change_value) then Err (TxError NegativeFee)
  else Ok (wsub U64 (wsub U64 in_value out_value) change_value).

Definition ut_transaction_fee (t : UnstakeTransaction) (staked_amount : Z) : result Failure Z :=
  if decide (staked_amount < wadd U64 (unstake_value t) (u_fee t)) then Err (TxError NegativeFee) else Ok (u_fee t).

(** ** Signatures *)

(** The check of the owner of an input; an input that does not exist passes. *)
Definition validate_pkh_signature (input : Input) (keyed_signature : KeyedSignature) (u : UtxoDiff D) : result Failure unit :=
  let? output := unwrap (utxo_diff_get u (output_pointer input)) in
  match output with
  | Some x =>
      let signature_pkh := key_pkh (public_key keyed_signature) in
      if decide (signature_pkh = out_pkh x) then Ok tt
      else Err (TxError (PublicKeyHashMismatch (out_pkh x) signature_pkh))
  | None => Ok tt
  end.

(** One input with its signature; every error is reported as a failed
    verification. *)
Definition validate_input_signature (hash : Hash) (u : UtxoDiff D) (input_sig : Input * KeyedSignature) :
    result Failure SignaturesToVerify :=
  let fail := TxError (VerifyTransactionSignatureFail hash) in
  let? _ := map_err (λ _, fail) (validate_pkh_signature input_sig.1 input_sig.2 u) in
  if negb (parse_public_key (public_key input_sig.2)) then Err fail
  else if negb (parse_signature (signature input_sig.2)) then Err fail
  else Ok (SecpTx (public_key input_sig.2) hash (signature input_sig.2)).

Definition validate_transaction_signature (signatures : list KeyedSignature) (inputs : list Input) (hash : Hash)
    (u : UtxoDiff D) (to_verify : list SignaturesToVerify) : result Failure (list SignaturesToVerify) :=
  if decide (length signatures = length inputs) then
    let? sigs := collect (validate_input_signature hash u) (zip inputs signatures) in Ok (to_verify ++ sigs)
  else
    let? signatures_n := u8_try_from (length signatures) in
    let? inputs_n := u8_try_from (length inputs) in
    Err (TxError (MismatchingSignaturesNumber signatures_n inputs_n)).

Definition validate_commit_reveal_signature (hash : Hash) (signatures : list KeyedSignature)
    (to_verify : list SignaturesToVerify) : result Failure (KeyedSignature * list SignaturesToVerify) :=
  match signatures with
  | [] => Err (TxError SignatureNotFound)
  | [ks] =>
      let fail := TxError (VerifyTransactionSignatureFail hash) in
      if negb (parse_signature (signature ks)) then Err fail
      else if negb (parse_public_key (public_key ks)) then Err fail
      else Ok (ks, to_verify ++ [SecpTx (public_key ks) hash (signature ks)])
  | _ => let? signatures_n := u8_try_from (length signatures) in Err (TxError (MismatchingSignaturesNumber signatures_n 1))
  end.

(** ** Value transfers *)

Definition validate_vt_transaction (t : VTTransaction) (u : UtxoDiff D) (epoch : Z) (c : EpochConstants)
    (to_verify : list SignaturesToVerify) (max_vt_weight : Z) (protocol_version : option ProtocolVersion) :
    result Failure (list Input * list ValueTransferOutput * Z * list SignaturesToVerify) :=
  let hash := tx_hash (Some (default version_default protocol_version)) (ValueTransfer t) in
  if decide (max_vt_weight < vt_weight t) then Err (TxError (ValueTransferWeightLimitExceeded (vt_weight t) max_vt_weight))
  else
    let? to_verify := validate_transaction_signature (vt_signatures t) (vt_inputs t) hash u to_verify in
    if decide (vt_inputs t = []) then Err (TxError (NoInputs hash))
    else
      let? _ := no_zero_outputs hash (vt_outputs t) in
      let? fee := vt_transaction_fee t u epoch c in
      Ok (vt_inputs t, vt_outputs t, fee, to_verify).

(** [validate_genesis_vt_transaction]; the conversion of the number of signatures
    is an [unwrap]. *)
Definition validate_genesis_vt_transaction (t : VTTransaction) : result TransactionError (list ValueTransferOutput * Z) :=
  if decide (vt_inputs t = []) then
    if decide (vt_signatures t = []) then
      if decide (vt_outputs t = []) then Err NoOutputsInGenesis
      else match first_zero (vt_outputs t) with
           | Some idx => Err (ZeroValueOutput (tx_hash None (ValueTransfer t)) idx)
           | None => let? value_created := transaction_outputs_sum (vt_outputs t) in Ok (vt_outputs t, value_created)
           end
    else if decide (Z.of_nat (length (vt_signatures t)) < 256)
         then Err (MismatchingSignaturesNumber (Z.of_nat (length (vt_signatures t))) 0) else Panic
  else Err (InputsInGenesis (length (vt_inputs t))).

(** ** Data requests *)

Definition script_err {A} (r : result ScriptError A) : result Failure A := map_err ScriptFailure r.

(** One retrieval source. *)
Definition validate_retrieval (active_wips : ActiveWips) (path : RADRetrieve) : result Failure unit :=
  if wip0020 active_wips then
    let? _ := map_err RetrievalError (check_fields path) in
    let? _ := script_err (unpack_radon_script from_slice from_value_u8 (script path)) in Ok tt
  else if (negb (wip0019 active_wips) && bool_decide (kind path ≠ RadUnknown))
          || (wip0019 active_wips && (bool_decide (kind path ≠ HttpGet) && bool_decide (kind path ≠ Rng)))
  then Err (RetrievalError InvalidRadType)
  else
    let? _ := map_err RetrievalError (check_fields_before_wip0020 path) in
    let? rad_script := script_err (unpack_radon_script from_slice from_value_u8 (script path)) in
    if decide (Exists (λ call, call.1 = OpStringParseXMLMap) rad_script) then Err (ScriptFailure (UnknownOperator 120))
    else Ok tt.

Definition validate_rad_request (r : RADRequest) (active_wips : ActiveWips) : result Failure unit :=
  if decide (retrieve r = []) then Err (RetrievalError NoRetrievalSources)
  else
    let? _ := collect (validate_retrieval active_wips) (retrieve r) in
    let? _ := script_err (create_radon_script_from_filters_and_reducer from_slice (agg_filters (aggregate r))
                            (agg_reducer (aggregate r)) active_wips) in
    let? _ := script_err (create_radon_script_from_filters_and_reducer from_slice (tally_filters (rad_tally r))
                            (tally_reducer (rad_tally r)) active_wips) in
    Ok tt.

Definition validate_data_request_output (r : DataRequestOutput) (collateral_minimum required_reward_collateral_ratio : Z)
    (active_wips : ActiveWips) : result TransactionError unit :=
  if decide (witnesses r < 1) then Err InsufficientWitnesses
  else if decide (witness_reward r < 1) then Err NoReward
  else if decide (51 ≤ min_consensus_percentage r < 100) then
    let ratio := calculate_reward_collateral_ratio (dro_collateral r) collateral_minimum (witness_reward r) in
    if wip0022 active_wips && bool_decide (required_reward_collateral_ratio < ratio)
    then Err (RewardTooLow ratio required_reward_collateral_ratio) else Ok tt
  else Err (InvalidMinConsensus (min_consensus_percentage r)).

(** The change output of a data request goes to the owner of its first input. *)
Definition validate_dr_change (t : DRTransaction) (u : UtxoDiff D) (hash : Hash) : result Failure unit :=
  match d_outputs t with
  | [] => Ok tt
  | change :: _ =>
      if decide (Transaction.out_value change = 0) then Err (TxError (ZeroValueOutput hash 0))
      else
        let? input := unwrap (head (d_inputs t)) in
        let? found := unwrap (utxo_diff_get u (output_pointer input)) in
        let? first_input := unwrap found in
        if decide (out_pkh change = out_pkh first_input) then Ok tt
        else Err (TxError (PublicKeyHashMismatch (out_pkh first_input) (out_pkh change)))
  end.

Definition validate_dr_transaction (t : DRTransaction) (u : UtxoDiff D) (epoch : Z) (c : EpochConstants)
    (to_verify : list SignaturesToVerify) (collateral_minimum max_dr_weight required_reward_collateral_ratio : Z)
    (active_wips : ActiveWips) (protocol_version : option ProtocolVersion) :
    result Failure (list Input * list ValueTransferOutput * Z * list SignaturesToVerify) :=
  if decide (max_dr_weight < dr_tx_weight t)
  then Err (TxError (DataRequestWeightLimitExceeded (dr_tx_weight t) max_dr_weight (d_output t)))
  else
    let hash := tx_hash (Some (default version_default protocol_version)) (DataRequest t) in
    let? to_verify := validate_transaction_signature (d_signatures t) (d_inputs t) hash u to_verify in
    if decide (1 < length (d_outputs t))%nat then Err (TxError (WrongNumberOutputs (length (d_outputs t)) 1))
    else if decide (d_inputs t = []) then Err (TxError ZeroAmount)
    else
      let? fee := dr_transaction_fee t u epoch c in
      let? _ := validate_dr_change t u hash in
      let? _ := tx_err (validate_data_request_output (d_output t) collateral_minimum required_reward_collateral_ratio active_wips) in
      if decide (dro_collateral (d_output t) ≠ 0 ∧ dro_collateral (d_output t) < collateral_minimum)
      then Err (TxError (InvalidCollateral (dro_collateral (d_output t)) collateral_minimum))
      else
        let? _ := validate_rad_request (data_request (d_output t)) active_wips in
        Ok (d_inputs t, d_outputs t, fee, to_verify).
(** ** Commits *)

(** The balance of a committer in outputs older than two superblocks. *)
Definition qualified_balance (u : UtxoDiff D) (committer : PublicKeyHash) (block_number superblock_period : Z) : option Z :=
  v ← visit_with_pkh (utxo_set u) committer;
  foldl (λ acc kv, balance ← acc;
                   n ← utxo_diff_included_in_block_number u kv.1;
                   Some match n with
                        | Some n => if decide (n < sat_sub block_number (wmul U16 2 superblock_period))
                                    then wadd U64 balance (Transaction.out_value kv.2.1) else balance
                        | None => balance
                        end) (Some 0) v.2.

(** One input of the collateral; the result is the value of its output. *)
Definition validate_collateral_input (u : UtxoDiff D) (epoch : Z) (c : EpochConstants) (commit_pkh : PublicKeyHash)
    (block_number collateral_age superblock_period : Z) (protocol_version : ProtocolVersion)
    (seen : gset OutputPointer) (pointer : OutputPointer) : result Failure Z :=
  let qualification_requirement := 100 * NANOWITS_PER_WIT in
  let? found := unwrap (utxo_diff_get u pointer) in
  let? vt_output := ok_or found (TxError (OutputNotFound pointer)) in
  let? balance := unwrap (if before_v2 protocol_version && bool_decide (2245000 < epoch)
                          then qualified_balance u (out_pkh vt_output) block_number superblock_period
                          else Some qualification_requirement) in
  if decide (balance < qualification_requirement)
  then Err (TxError (UnqualifiedCommitter (out_pkh vt_output) qualification_requirement balance))
  else if decide (out_pkh vt_output ≠ commit_pkh)
  then Err (TxError (CollateralPkhMismatch pointer (out_pkh vt_output) commit_pkh))
  else
    let? ts := map_err EpochError (epoch_timestamp c epoch) in
    let? vt_time_lock := i64_try_from (out_time_lock vt_output) in
    if decide (ts.1 < vt_time_lock) then Err (TxError (TimeLock ts.1 vt_time_lock))
    else
      let? included := unwrap (utxo_diff_included_in_block_number u pointer) in
      let? n := unwrap included in
      if decide (sat_sub block_number collateral_age < n)
      then Err (TxError (CollateralNotMature collateral_age (wsub U32 block_number n) pointer))
      else if decide (pointer ∈ seen) then Err (TxError (OutputNotFound pointer))
      else Ok (Transaction.out_value vt_output).

Fixpoint collateral_sum (check : gset OutputPointer → OutputPointer → result Failure Z) (inputs : list Input)
    (seen : gset OutputPointer) (in_value : Z) : result Failure Z :=
  match inputs with
  | [] => Ok in_value
  | input :: inputs =>
      let? value := check seen (output_pointer input) in
      let? in_value := ok_or (checked_add U64 in_value value) (TxError InputValueOverflow) in
      collateral_sum check inputs ({[ output_pointer input ]} ∪ seen) in_value
  end.

(** The entries of a validator, [query_stakes(..).unwrap_or_default()]. *)
Definition entries_of (stakes : StakesTracker) (validator : PublicKeyHash) : option (list (StakeEntry (Address:=PublicKeyHash))) :=
  match query_stakes stakes (Some (QValidator validator)) with Ok l => Some l | Err _ => Some [] | Panic => None end.

Definition validate_commit_collateral (t : CommitTransaction) (u : UtxoDiff D) (epoch : Z) (c : EpochConstants)
    (required_collateral block_number collateral_age superblock_period : Z) (protocol_version : ProtocolVersion)
    (stakes : StakesTracker) (min_stake : Z) : result Failure unit :=
  let commit_pkh := key_pkh (vrf_public_key (claim_proof (c_proof t))) in
  let? _ :=
    (if before_v2 protocol_version then Ok tt
     else
       let? entries := unwrap (entries_of stakes commit_pkh) in
       let? entry := unwrap (head entries) in
       if decide (coins (evalue entry) < wadd U64 min_stake required_collateral)
       then Err (TxError (CollateralBelowMinimumStake required_collateral commit_pkh)) else Ok tt) in
  let? in_value := collateral_sum (validate_collateral_input u epoch c commit_pkh block_number collateral_age superblock_period
                                     protocol_version) (c_collateral t) ∅ 0 in
  let? out_value := tx_err (transaction_outputs_sum (c_outputs t)) in
  if decide (in_value < out_value) then Err (TxError (NegativeCollateral in_value out_value))
  else if decide (in_value - out_value = required_collateral) then Ok tt
  else
    let found_collateral := in_value - out_value in
    if decide (protocol_version ≠ V2_0) then Err (TxError (IncorrectCollateral required_collateral found_collateral))
    else if decide (found_collateral = 0) then Ok tt
    else Err (TxError (IncorrectCollateral 0 found_collateral)).

(** Whether the committer is eligible in version 2.0: the target and the withdrawer
    of its first stake entry. *)
Definition commit_eligibility (proof_pkh : PublicKeyHash) (epoch witnesses round max_rounds : Z)
    (protocol_version : ProtocolVersion) (stakes : StakesTracker) : result Failure (Hash * option PublicKeyHash) :=
  if before_v2 protocol_version then Ok (Hash_min, None)
  else
    let? e := map_err StakesFailure (witnessing_eligibility UNIT stakes proof_pkh epoch witnesses round max_rounds) in
    let '(eligibility, target_hash, _) := e in
    match eligibility with
    | EligibleNo _ => Err (TxError (ValidatorNotEligible proof_pkh))
    | EligibleYes =>
        let? entries := unwrap (entries_of stakes proof_pkh) in
        Ok (target_hash, (λ e, withdrawer (ekey e)) <$> head entries)
    end.

Definition validate_commit_change (t : CommitTransaction) (proof_pkh : PublicKeyHash) : result Failure unit :=
  match c_outputs t with
  | [] => Ok tt
  | [output] =>
      if decide (Transaction.out_value output = 0) then Err (TxError (ZeroValueOutput (tx_hash None (Commit t)) 0))
      else if decide (out_pkh output ≠ proof_pkh) then Err (TxError (PublicKeyHashMismatch proof_pkh (out_pkh output)))
      else Ok tt
  | _ => Err (TxError SeveralCommitOutputs)
  end.

(** The result is the request, its witnesses and the fee of one commit. *)
Definition validate_commit_transaction (t : CommitTransaction) (dr_pool : DataRequestPool) (vrf_input : CheckpointVRF)
    (to_verify : list SignaturesToVerify) (rep_eng : ReputationEngine) (epoch : Z) (c : EpochConstants) (u : UtxoDiff D)
    (collateral_minimum collateral_age block_number minimum_reppoe_difficulty : Z) (active_wips : ActiveWips)
    (superblock_period : Z) (protocol_version : ProtocolVersion) (stakes : StakesTracker) (max_rounds min_stake : Z) :
    result Failure (Hash * Z * Z * list SignaturesToVerify) :=
  let dr_pointer := c_dr_pointer t in
  let? st := ok_or (data_request_pool dr_pool !! dr_pointer) (TxError (DataRequestNotFound dr_pointer)) in
  if decide (stage st ≠ COMMIT) then Err (DrError NotCommitStage)
  else
    let dr := request st in
    let proof_pkh := key_pkh (vrf_public_key (claim_proof (c_proof t))) in
    let? target := commit_eligibility proof_pkh epoch (witnesses dr) (current_commit_round (info st)) max_rounds protocol_version stakes in
    let? _ := validate_commit_change t proof_pkh in
    let required_collateral := effective_collateral dr collateral_minimum in
    let? _ := validate_commit_collateral t u epoch c required_collateral block_number collateral_age superblock_period
                protocol_version stakes min_stake in
    let? _ :=
      (if wip_0008 active_wips then Ok tt
       else
         let? ts := map_err EpochError (epoch_timestamp c epoch) in
         let? dr_time_lock := i64_try_from (rad_time_lock (data_request dr)) in
         if decide (ts.1 < dr_time_lock) then Err (TxError (TimeLock ts.1 dr_time_lock)) else Ok tt) in
    let? signed := validate_commit_reveal_signature (tx_hash None (Commit t)) (c_signatures t) to_verify in
    let sign_pkh := key_pkh (public_key signed.1) in
    if decide (proof_pkh ≠ sign_pkh) then Err (TxError (PublicKeyHashMismatch proof_pkh sign_pkh))
    else
      let num_witnesses := wadd U16 (witnesses dr) (backup_witnesses st) in
      let? target_hash := unwrap (if before_v2 protocol_version
                                  then (λ r, r.2.1) <$> calculate_reppoe_threshold calculate_sha256 rep_eng proof_pkh num_witnesses
                                                          minimum_reppoe_difficulty active_wips
                                  else Some target.1) in
      Ok (dr_pointer, witnesses dr, commit_and_reveal_fee dr,
          signed.2 ++ [VrfDr (c_proof t) vrf_input dr_pointer target_hash target.2 (Some (DataRequest.epoch st))]).

(** ** Reveals *)

(** [Signature::hash]. *)
Definition signature_hash (s : KeyedSignature) : Hash := calculate_sha256 (signature s).

Definition validate_reveal_transaction (t : RevealTransaction) (dr_pool : DataRequestPool) (to_verify : list SignaturesToVerify) :
    result Failure (Z * list SignaturesToVerify) :=
  let dr_pointer := r_dr_pointer t in
  let? st := ok_or (data_request_pool dr_pool !! dr_pointer) (TxError (DataRequestNotFound dr_pointer)) in
  if decide (stage st ≠ REVEAL) then Err (DrError NotRevealStage)
  else
    let? signed := validate_commit_reveal_signature (tx_hash None (Reveal t)) (r_signatures t) to_verify in
    let signer := key_pkh (public_key signed.1) in
    if decide (signer ≠ r_pkh t) then Err (TxError (PublicKeyHashMismatch (r_pkh t) signer))
    else if decide (is_Some (reveals (info st) !! signer)) then Err (TxError (DuplicatedReveal signer dr_pointer))
    else
      let? commit := ok_or (commits (info st) !! signer) (TxError CommitNotFound) in
      if decide (c_commitment commit ≠ signature_hash signed.1) then Err (TxError MismatchedCommitment)
      else Ok (commit_and_reveal_fee (request st), signed.2).

(** ** Tallies *)

(** [run_tally_panic_safe]: the report of the tally script, or the report of an unknown
    error when [run_tally] panics, here [None].  [unknown_report after_wips n] is
    [radon_report_from_error] for [n] reveals when the first argument is true, and
    otherwise [RadonReport::from_result] of the error. *)
Definition tally_panic_safe
    (run_tally : list RevealTransaction → RADTally → f64 → nat → ActiveWips → bool → option (option TallyMetaData * option (list Z)))
    (unknown_report : bool → nat → option TallyMetaData * option (list Z))
    (reveals : list RevealTransaction) (tally : RADTally) (non_error_min : f64) (commits_count : nat) (active_wips : ActiveWips)
    (too_many_witnesses : bool) : option TallyMetaData * option (list Z) :=
  default (unknown_report (wips_0009_0011_0012 active_wips) (length reveals))
    (run_tally reveals tally non_error_min commits_count active_wips too_many_witnesses).

(** The execution of the tally script on the reveals: the metadata of the report
    and the bytes of its value; and the bytes of a report that cannot be
    serialized. *)
Context (run_tally_panic_safe : list RevealTransaction → RADTally → f64 → nat → ActiveWips → bool →
                                option TallyMetaData * option (list Z)).
Context (tally_bytes_on_encode_error : list Z).

Definition create_expected_tally_transaction (t : TallyTransaction) (dr_pool : DataRequestPool) (collateral_minimum : Z)
    (active_wips : ActiveWips) (too_many_witnesses : bool) (protocol_version : ProtocolVersion) :
    result Failure (TallyTransaction * DataRequestState) :=
  let dr_pointer := t_dr_pointer t in
  let? st := ok_or (data_request_pool dr_pool !! dr_pointer) (TxError (DataRequestNotFound dr_pointer)) in
  if decide (stage st ≠ TALLY) then Err (DrError NotTallyStage)
  else
    let? reveal_txns := unwrap (get_reveals calculate_sha256 dr_pool dr_pointer active_wips) in
    let non_error_min := f64_div (f64_of (min_consensus_percentage (request st))) (f64_of 100) in
    let committers := dom (commits (info st)) in
    let '(metadata, encoded) := run_tally_panic_safe reveal_txns (rad_tally (data_request (request st))) non_error_min
                                  (size committers) active_wips too_many_witnesses in
    let? expected := unwrap (create_tally dr_pointer (request st) (requester st) metadata encoded (r_pkh <$> reveal_txns)
                               committers collateral_minimum tally_bytes_on_encode_error active_wips protocol_version) in
    Ok (expected, st).

(** The number of liars and that of errors. *)
Definition calculate_liars_and_errors_count_from_tally (t : TallyTransaction) : Z * Z :=
  foldl (λ le x, if decide (x ∈ t_error_committers t) then (le.1, le.2 + 1) else (le.1 + 1, le.2)) (0, 0) (t_out_of_consensus t).

(** The identities of a tally in the order of their bytes. *)
Definition sorted (l : list PublicKeyHash) : list PublicKeyHash := merge_sort bytes_le l.

(** The value of an output that pays a witness. *)
Definition check_tally_reward (t : TallyTransaction) (st : DataRequestState) (after_second_hard_fork : bool)
    (honests_count reveals_count collateral reward : Z) (output : ValueTransferOutput) : result TransactionError unit :=
  let who := out_pkh output in
  let value := Transaction.out_value output in
  let check_revealer :=
    if decide (reveals (info st) !! who = None) then Err RevealNotFound
    else if decide (who ∈ t_out_of_consensus t ∧ who ∉ t_error_committers t) then Err DishonestReward else Ok tt in
  let check_value :=
    if decide (who ∈ t_out_of_consensus t ∧ who ∈ t_error_committers t ∧ value ≠ collateral) then Err (InvalidReward value collateral)
    else if decide (who ∉ t_out_of_consensus t ∧ value ≠ reward) then Err (InvalidReward value reward) else Ok tt in
  if after_second_hard_fork then
    if decide (honests_count > 0) then let? _ := check_revealer in check_value
    else if decide (commits (info st) !! who = None) then Err CommitNotFound
    else if decide (value ≠ collateral) then Err (InvalidReward value collateral) else Ok tt
  else
    let? _ := (if decide (reveals_count > 0) then check_revealer else Ok tt) in check_value.

(** The loop over the outputs: the total value.  [check] is the check of an output
    that pays a witness. *)
Fixpoint check_tally_outputs (check : ValueTransferOutput → result TransactionError unit) (dr_owner : PublicKeyHash)
    (expected_tally_change : Z) (after_second_hard_fork : bool) (outputs : list ValueTransferOutput)
    (pkh_rewarded : gset PublicKeyHash) (total_tally_value : Z) : result TransactionError Z :=
  match outputs with
  | [] => Ok total_tally_value
  | output :: outputs =>
      let? pkh_rewarded :=
        (if decide (expected_tally_change > 0 ∧ outputs = [] ∧ out_pkh output = dr_owner) then
           if decide (Transaction.out_value output = expected_tally_change) then Ok pkh_rewarded
           else Err (InvalidTallyChange (Transaction.out_value output) expected_tally_change)
         else
           let? _ := check output in
           if decide (out_pkh output ∈ pkh_rewarded) then Err (MultipleRewards (out_pkh output))
           else Ok ({[ out_pkh output ]} ∪ pkh_rewarded)) in
      if decide (after_second_hard_fork = true ∧ out_time_lock output ≠ 0) then Err (InvalidTimeLock (out_time_lock output) 0)
      else check_tally_outputs check dr_owner expected_tally_change after_second_hard_fork outputs pkh_rewarded
             (wadd U64 total_tally_value (Transaction.out_value output))
  end.

(** The value that the tally must move: the value of the request and of the
    collaterals before version 2.0, what goes back to the requester since. *)
Definition check_tally_value (st : DataRequestState) (active_wips : ActiveWips) (protocol_version : ProtocolVersion)
    (collateral commits_count reveals_count honests_count liars_count errors_count tally_extra_fee total_tally_value : Z) :
    result TransactionError unit :=
  let dr := request st in
  let expected_collateral_value :=
    if decide (commits_count > 0) then
      if wip0023 active_wips && bool_decide (honests_count > 0)
      then wmul U64 collateral (wsub U64 (witnesses dr) liars_count) else wmul U64 collateral (witnesses dr)
    else 0 in
  if before_v2 protocol_version then
    let? expected_dr_value := checked_total_value dr in
    let found_dr_value :=
      wadd U64 (wadd U64 (wadd U64 (wmul U64 commits_count (commit_and_reveal_fee dr))
                           (wmul U64 reveals_count (commit_and_reveal_fee dr))) tally_extra_fee) total_tally_value in
    let expected := wadd U64 expected_dr_value expected_collateral_value in
    if decide (found_dr_value = expected) then Ok tt else Err (InvalidTallyValue found_dr_value expected)
  else
    let expected :=
      if decide (honests_count = 0) then
        wadd U64 (wadd U64 (wmul U64 (witnesses dr) (witness_reward dr))
                    (wmul U64 (wsub U64 (witnesses dr) commits_count) (commit_and_reveal_fee dr)))
          (wmul U64 (wsub U64 (witnesses dr) reveals_count) (commit_and_reveal_fee dr))
      else
        wadd U64 (wmul U64 (wsub U64 commits_count reveals_count) (commit_and_reveal_fee dr))
          (wmul U64 (wadd U64 errors_count liars_count) (witness_reward dr)) in
    if decide (total_tally_value = expected) then Ok tt else Err (InvalidTallyValue total_tally_value expected).

(** A request with too many witnesses for the number of validators, requested after
    the activation of version 2.0, has to be one of the block. *)
Definition tally_of_unsolvable (t : TallyTransaction) (st : DataRequestState) (too_many : gset Hash) (validator_count : nat) :
    result Failure bool :=
  let too_many_witnesses :=
    data_request_has_too_many_witnesses (request st) validator_count (get_protocol_version pinfo (Some (DataRequest.epoch st))) in
  if decide (too_many_witnesses = true ∧ get_protocol_version_activation_epoch pinfo V2_0 < DataRequest.epoch st
             ∧ t_dr_pointer t ∉ too_many)
  then Err (TxError (TooManyWitnessesDataRequestNotFound (t_dr_pointer t))) else Ok too_many_witnesses.

Definition validate_tally_transaction (t : TallyTransaction) (dr_pool : DataRequestPool) (cc : ConsensusConstants)
    (active_wips : ActiveWips) (data_requests_with_too_many_witnesses : gset Hash) (validator_count : option nat)
    (protocol_version : ProtocolVersion) : result Failure (list ValueTransferOutput * Z) :=
  let validator_count := default DEFAULT_VALIDATOR_COUNT_FOR_TESTS validator_count in
  let? st := ok_or (data_request_pool dr_pool !! t_dr_pointer t) (TxError (DataRequestNotFound (t_dr_pointer t))) in
  let? too_many_witnesses := tally_of_unsolvable t st data_requests_with_too_many_witnesses validator_count in
  let? r := create_expected_tally_transaction t dr_pool (collateral_minimum cc) active_wips too_many_witnesses protocol_version in
  let '(expected, st) := r in
  if decide (sorted (t_out_of_consensus expected) ≠ sorted (t_out_of_consensus t))
  then Err (TxError (MismatchingOutOfConsensusCount (sorted (t_out_of_consensus expected)) (sorted (t_out_of_consensus t))))
  else if decide (sorted (t_error_committers expected) ≠ sorted (t_error_committers t))
  then Err (TxError (MismatchingErrorCount (sorted (t_error_committers expected)) (sorted (t_error_committers t))))
  else if decide (length (t_outputs expected) ≠ length (t_outputs t))
  then Err (TxError (WrongNumberOutputs (length (t_outputs t)) (length (t_outputs expected))))
  else if decide (t_tally expected ≠ t_tally t) then Err (TxError (MismatchedConsensus (t_tally expected) (t_tally t)))
  else
    let commits_count := Z.of_nat (size (commits (info st))) in
    let reveals_count := Z.of_nat (size (reveals (info st))) in
    let honests_count := wsub U64 commits_count (Z.of_nat (length (t_out_of_consensus t))) in
    let '(liars_count, errors_count) := calculate_liars_and_errors_count_from_tally t in
    let expected_tally_change := calculate_tally_change commits_count reveals_count honests_count (request st) in
    let collateral := effective_collateral (request st) (collateral_minimum cc) in
    let after_second := wips_0009_0011_0012 active_wips in
    let? rewards := unwrap
      (if after_second then Some (calculate_witness_reward commits_count liars_count errors_count (witness_reward (request st))
                                    collateral (wip0023 active_wips))
       else calculate_witness_reward_before_second_hard_fork commits_count reveals_count liars_count errors_count
              (witness_reward (request st)) collateral) in
    let '(reward, tally_extra_fee) := rewards in
    let? total := tx_err (check_tally_outputs
                            (check_tally_reward t st after_second honests_count reveals_count collateral reward)
                            (requester st) expected_tally_change after_second (t_outputs t) ∅ 0) in
    let? _ := tx_err (check_tally_value st active_wips protocol_version collateral commits_count reveals_count honests_count
                        liars_count errors_count tally_extra_fee total) in
    Ok (t_outputs t, tally_extra_fee).

(** ** Stakes *)

(** The first entry of a pair of validator and withdrawer, when there is one. *)
Definition staked_entry (stakes : StakesTracker) (validator withdrawer : PublicKeyHash) :
    result Failure (option (StakeEntry (Address:=PublicKeyHash))) :=
  match query_stakes stakes (Some (QKey (MkKey validator withdrawer))) with
  | Ok entries => let? entry := unwrap (head entries) in Ok (Some entry)
  | Err _ => Ok None
  | Panic => Panic
  end.

Definition validate_stake_transaction (t : StakeTransaction) (u : UtxoDiff D) (epoch : Z) (c : EpochConstants)
    (to_verify : list SignaturesToVerify) (stakes : StakesTracker) (min_stake_nanowits max_stake_nanowits : Z) :
    result Failure (list Input * StakeOutput * Z * Z * option ValueTransferOutput * list SignaturesToVerify) :=
  let value := so_value (s_output t) in
  let v := validator (so_key (s_output t)) in
  let w := withdrawer (so_key (s_output t)) in
  if decide (get_protocol_version pinfo (Some epoch) = V1_7) then Err (TxError NoStakeTransactionsAllowed)
  else if decide (value < min_stake_nanowits) then Err (TxError (StakeBelowMinimum min_stake_nanowits value))
  else
    let? _ := map_err (λ _, TxError (NoStakeFound v w)) (check_validator_withdrawer stakes v w) in
    let? entry := staked_entry stakes v w in
    let total := match entry with Some e => wadd U64 (coins (evalue e)) value | None => value end in
    if decide (max_stake_nanowits < total) then Err (TxError (StakeAboveMaximum max_stake_nanowits total))
    else
      let? to_verify := validate_transaction_signature (s_signatures t) (s_inputs t) (tx_hash None (TxStake t)) u to_verify in
      if decide (s_inputs t = []) then Err (TxError (NoInputs (tx_hash None (TxStake t))))
      else
        let? fee := st_transaction_fee t u epoch c in
        Ok (s_inputs t, s_output t, fee, stake_weight t, s_change t, to_verify).

Definition validate_unstake_timelock (t : UnstakeTransaction) (unstake_delay : Z) : result Failure unit :=
  if decide (out_time_lock (u_withdrawal t) < unstake_delay)
  then Err (TxError (InvalidUnstakeTimelock (out_time_lock (u_withdrawal t)) unstake_delay)) else Ok tt.

Definition validate_unstake_signature (t : UnstakeTransaction) (operator : PublicKeyHash) : result Failure unit :=
  let ut_tx_pkh := key_pkh (public_key (u_signature t)) in
  let message := tx_hash None (TxUnstake t) in
  let fail := TxError (VerifyTransactionSignatureFail message) in
  if decide (ut_tx_pkh ≠ out_pkh (u_withdrawal t))
  then Err (TxError (InvalidUnstakeSignature ut_tx_pkh (out_pkh (u_withdrawal t)) operator))
  else if negb (parse_signature (signature (u_signature t))) then Err fail
  else if negb (parse_public_key (public_key (u_signature t))) then Err fail
  else if verify (public_key (u_signature t)) message (signature (u_signature t)) then Ok tt else Err fail.

Definition validate_unstake_transaction (t : UnstakeTransaction) (epoch : Z) (stakes : StakesTracker)
    (min_stake_nanowits unstake_delay : Z) : result Failure (Z * Z * list ValueTransferOutput) :=
  if version_le (get_protocol_version pinfo (Some epoch)) V1_8 then Err (TxError NoUnstakeTransactionsAllowed)
  else
    let amount_to_unstake := wadd U64 (unstake_value t) (u_fee t) in
    let v := u_operator t in
    let w := key_pkh (public_key (u_signature t)) in
    let? found := staked_entry stakes v w in
    let? entry := ok_or found (TxError (NoStakeFound v w)) in
    let staked_amount := coins (evalue entry) in
    if decide (staked_amount < amount_to_unstake) then Err (TxError (UnstakingMoreThanStaked staked_amount amount_to_unstake))
    else if decide (u_nonce t ≠ nonce (evalue entry)) then Err (TxError (UnstakeInvalidNonce (u_nonce t) (nonce (evalue entry))))
    else
      let remainder := staked_amount - amount_to_unstake in
      if decide (0 < remainder < min_stake_nanowits) then Err (TxError (StakeBelowMinimum min_stake_nanowits staked_amount))
      else
        let? _ := validate_unstake_timelock t unstake_delay in
        let? _ := validate_unstake_signature t v in
        let? fee := ut_transaction_fee t staked_amount in
        Ok (fee, unstake_weight t, [u_withdrawal t]).

(** ** Mint *)

Definition validate_mint_transaction (t : MintTransaction) (total_fees block_epoch initial_block_reward halving_period : Z) :
    result Failure unit :=
  if decide (m_epoch t ≠ block_epoch) then Err (BlkError (InvalidMintEpoch (m_epoch t) block_epoch))
  else if decide (get_protocol_version pinfo (Some block_epoch) ≠ V2_0) then
    let? mint_value := tx_err (transaction_outputs_sum (m_outputs t)) in
    let? block_reward_value := unwrap (block_reward (m_epoch t) initial_block_reward halving_period) in
    if decide (mint_value ≠ wadd U64 total_fees block_reward_value)
    then Err (BlkError (MismatchedMintValue mint_value total_fees block_reward_value))
    else if decide (2 < length (m_outputs t))%nat then Err (BlkError TooSplitMint)
    else no_zero_outputs (tx_hash None (Mint t)) (m_outputs t)
  else if decide (m_outputs t = []) then Ok tt
  else Err (BlkError InvalidMintTransaction).
End validation.
