(* ===== verification/BlockValidation.v ===== *)
(** * Validation of blocks

    Models the functions of validations/src/validations.rs that validate a block: the
    update of the unspent outputs by each transaction, the transactions of the block
    in the order of the code, the roots of its Merkle trees, its header, the genesis
    block, and the validation of one transaction received from the network.

    [validate_block_transactions] changes the pool of data requests: the outcome of
    the call keeps it, also when the block is rejected.  The visits of the visitor of
    priorities are part of the success only. *)

From stdpp Require Import base tactics numbers list gmap sorting.
From Stdlib Require Import ZArith Lia.
From S2P Require Import Prelude Stake Stakes Ars Hashes Superblock Versioning Tapi Merkle Rad Float Storage UtxoDb Utxo RepEngine.
From S2P Require Import Eligibility Epoch RadScript Transaction DataRequest TxFactory Consensus Validation.
Local Open Scope Z_scope.
Local Open Scope rust_scope.

(** ** Equality of blocks *)

#[export] Instance RADRetrieve_eq_dec : EqDecision RADRetrieve.
Proof. solve_decision. Defined.
#[export] Instance RADFilter_eq_dec : EqDecision RADFilter.
Proof. solve_decision. Defined.
#[export] Instance RADAggregate_eq_dec : EqDecision RADAggregate.
Proof. solve_decision. Defined.
#[export] Instance RADTally_eq_dec : EqDecision RADTally.
Proof. solve_decision. Defined.
#[export] Instance RADRequest_eq_dec : EqDecision RADRequest.
Proof. solve_decision. Defined.
#[export] Instance DataRequestOutput_eq_dec : EqDecision DataRequestOutput.
Proof. solve_decision. Defined.
#[export] Instance VrfProof_eq_dec : EqDecision VrfProof.
Proof. solve_decision. Defined.
#[export] Instance Claim_eq_dec : EqDecision DataRequestEligibilityClaim.
Proof. solve_decision. Defined.
#[export] Instance StakeOutput_eq_dec : EqDecision StakeOutput.
Proof. solve_decision. Defined.
#[export] Instance Input_eq_dec : EqDecision Input.
Proof. solve_decision. Defined.
#[export] Instance VTTransaction_eq_dec : EqDecision VTTransaction.
Proof. solve_decision. Defined.
#[export] Instance DRTransaction_eq_dec : EqDecision DRTransaction.
Proof. solve_decision. Defined.
#[export] Instance CommitTransaction_eq_dec : EqDecision CommitTransaction.
Proof. solve_decision. Defined.
#[export] Instance RevealTransaction_eq_dec : EqDecision RevealTransaction.
Proof. solve_decision. Defined.
#[export] Instance TallyTransaction_eq_dec : EqDecision TallyTransaction.
Proof. solve_decision. Defined.
#[export] Instance MintTransaction_eq_dec : EqDecision MintTransaction.
Proof. solve_decision. Defined.
#[export] Instance StakeTransaction_eq_dec : EqDecision StakeTransaction.
Proof. solve_decision. Defined.
#[export] Instance UnstakeTransaction_eq_dec : EqDecision UnstakeTransaction.
Proof. solve_decision. Defined.
#[export] Instance CheckpointBeacon_eq_dec : EqDecision CheckpointBeacon.
Proof. solve_decision. Defined.
#[export] Instance BlockHeader_eq_dec : EqDecision BlockHeader.
Proof. solve_decision. Defined.
#[export] Instance BlockTransactions_eq_dec : EqDecision BlockTransactions.
Proof. solve_decision. Defined.
#[export] Instance Block_eq_dec : EqDecision Block.
Proof. solve_decision. Defined.

(** ** Loops *)

(** A [for] loop whose body may return an error. *)
Fixpoint each {S A} (body : S → A → result Failure S) (l : list A) (s : S) : result Failure S :=
  match l with
  | [] => Ok s
  | x :: l => let? s := body s x in each body l s
  end.

(** [Itertools::duplicates().next()]: the first element that was seen before. *)
Fixpoint first_duplicate `{EqDecision A} (seen l : list A) : option A :=
  match l with
  | [] => None
  | x :: l => if decide (x ∈ seen) then Some x else first_duplicate (x :: seen) l
  end.

(** ** Counting commits *)

Record WitnessesCount := MkCount { current : Z; target : Z }.

Definition increment_witnesses_counter (hm : gmap Hash WitnessesCount) (k : Hash) (rf : Z) : gmap Hash WitnessesCount :=
  let w := default (MkCount 0 rf) (hm !! k) in
  <[k := MkCount (wadd U32 (current w) 1) (target w)]> hm.

(** The check of the counters; which mismatch is reported depends on the order of
    the map. *)
Definition check_commits_number (hm : gmap Hash WitnessesCount) : result Failure unit :=
  match list_find (λ kw, current kw.2 ≠ target kw.2) (map_to_list hm) with
  | Some (_, (_, w)) => Err (BlkError (MismatchingCommitsNumber (current w) (target w)))
  | None => Ok tt
  end.

(** Errors of the pool of data requests as errors of the validation. *)
Definition dr_failure (e : DataRequestError) : Failure :=
  match e with TransactionFailure e => TxError e | e => DrError e end.

Section block.
Context `{UtxoDb D}.
Context (pinfo : ProtocolInfo) (env : Environment) (calculate_sha256 : list Z → Hash).
Context (tx_hash : option ProtocolVersion → Transaction → Hash) (header_hash : option ProtocolVersion → BlockHeader → Hash).
Context (hash_concat : Hash → Hash → Hash) (empty_hash : Hash).
Context (verify : PublicKey → list Z → list Z → bool) (parse_public_key : PublicKey → bool) (parse_signature : list Z → bool).
Context (from_slice : list Z → option Value) (from_value_u8 : Value → option Z).
Context (run_tally_panic_safe : list RevealTransaction → RADTally → f64 → nat → ActiveWips → bool →
                                option TallyMetaData * option (list Z)).
Context (tally_bytes_on_encode_error : list Z).

Abbreviation key_pkh := (Hashes.pkh calculate_sha256).
Abbreviation version_of e := (get_protocol_version pinfo (Some e)).
Abbreviation tree_root hashes :=
  (progressive_root hash_concat empty_hash (foldl (push hash_concat) progressive_new hashes)).

(** ** The unspent outputs *)

(** The inputs of a transaction: the owner they share, if any, and the most recent
    block of those that were looked at.  [None] is a panic. *)
Fixpoint remove_inputs (u : UtxoDiff D) (inputs : list Input) (first : bool) (input_pkh : option PublicKeyHash)
    (block_number_input : Z) : option (UtxoDiff D * option PublicKeyHash * Z) :=
  match inputs with
  | [] => Some (u, input_pkh, block_number_input)
  | input :: inputs =>
      let pointer := output_pointer input in
      let u' := remove_utxo u pointer in
      if negb first && bool_decide (input_pkh = None) then remove_inputs u' inputs first input_pkh block_number_input
      else
        output ← utxo_diff_get u pointer;
        if negb first && bool_decide (input_pkh ≠ out_pkh <$> output)
        then remove_inputs u' inputs first None block_number_input
        else
          n ← utxo_diff_included_in_block_number u pointer;
          remove_inputs u' inputs false (if first then out_pkh <$> output else input_pkh)
            (Z.max (default 0 n) block_number_input)
  end.

(** The output that is inserted: since version 2.0 a time lock before the first
    checkpoint is relative to the block. *)
Definition output_to_insert (epoch : Z) (c : EpochConstants) (checkpoint_zero_timestamp : Z) (output : ValueTransferOutput) :
    option ValueTransferOutput :=
  if before_v2 (version_of epoch) then Some output
  else if decide (checkpoint_zero_timestamp < 0) then None
  else if decide (out_time_lock output < checkpoint_zero_timestamp) then
    match epoch_timestamp c epoch with
    | Ok (timestamp, _) =>
        Some (MkOutput (out_pkh output) (out_value output) (wadd U64 (out_time_lock output) (timestamp mod U64)))
    | _ => None
    end
  else Some output.

Fixpoint insert_outputs (u : UtxoDiff D) (hash : Hash) (input_pkh : option PublicKeyHash) (block_number_input epoch : Z)
    (c : EpochConstants) (checkpoint_zero_timestamp : Z) (index : Z) (outputs : list ValueTransferOutput) : option (UtxoDiff D) :=
  match outputs with
  | [] => Some u
  | output :: outputs =>
      if decide (U32 ≤ index) then None
      else
        let block_number := if decide (input_pkh = Some (out_pkh output)) then Some block_number_input else None in
        o ← output_to_insert epoch c checkpoint_zero_timestamp output;
        insert_outputs (insert_utxo u (MkPointer hash index) o block_number) hash input_pkh block_number_input epoch c
          checkpoint_zero_timestamp (index + 1) outputs
  end.

Definition update_utxo_diff (u : UtxoDiff D) (inputs : list Input) (outputs : list ValueTransferOutput) (hash : Hash)
    (epoch : Z) (c : EpochConstants) (checkpoint_zero_timestamp : Z) : option (UtxoDiff D) :=
  r ← remove_inputs u inputs true None 0;
  let '(u, input_pkh, block_number_input) := r in
  insert_outputs u hash input_pkh block_number_input epoch c checkpoint_zero_timestamp 0 outputs.

(** ** The transactions of a block *)

(** What the loops share: the unspent outputs, the total fee, the signatures to
    verify and the visits. *)
Record Progress := MkProgress {
  p_utxo : UtxoDiff D;
  p_fee : Z;
  p_sigs : list SignaturesToVerify;
  p_visits : list (Transaction * Z * Z);
}.

(** The arguments of the validation that do not change. *)
Record BlockContext := MkContext {
  b_epoch : Z;
  b_version : ProtocolVersion;
  b_genesis : bool;
  b_constants : EpochConstants;
  b_consensus : ConsensusConstants;
  b_wips : ActiveWips;
  b_stakes : StakesTracker;
  b_number : Z;
}.

(** The end of a step: the fee is added, the outputs updated and the signatures
    replaced. *)
Definition advance (x : BlockContext) (s : Progress) (inputs : list Input) (outputs : list ValueTransferOutput) (t : Transaction)
    (fee : Z) (to_verify : list SignaturesToVerify) (visits : list (Transaction * Z * Z)) : result Failure Progress :=
  let? u := unwrap (update_utxo_diff (p_utxo s) inputs outputs (tx_hash (Some (b_version x)) t) (b_epoch x) (b_constants x)
                      (cc_checkpoint_zero_timestamp (b_consensus x))) in
  Ok (MkProgress u (wadd U64 (p_fee s) fee) to_verify (p_visits s ++ visits)).

(** Value transfers, with the value still available in the genesis block and the
    weight so far. *)
Definition vt_step (x : BlockContext) (max_total_value_genesis : Z) (s : Progress * Z * Z) (t : VTTransaction) :
    result Failure (Progress * Z * Z) :=
  let '(s, genesis_value_available, acc) := s in
  let limit := max_vt_weight (b_consensus x) in
  let? v :=
    (if b_genesis x then
       let? r := tx_err (validate_genesis_vt_transaction tx_hash t) in
       if decide (genesis_value_available < r.2) then Err (BlkError (GenesisValueOverflow max_total_value_genesis))
       else Ok ([], r.1, 0, 0, p_sigs s, genesis_value_available - r.2)
     else
       let? r := validate_vt_transaction calculate_sha256 tx_hash parse_public_key parse_signature t (p_utxo s) (b_epoch x)
                   (b_constants x) (p_sigs s) limit None in
       let '(inputs, outputs, fee, to_verify) := r in
       Ok (inputs, outputs, fee, vt_weight t, to_verify, genesis_value_available)) in
  let '(inputs, outputs, fee, weight, to_verify, genesis_value_available) := v in
  let acc := sat_add U32 acc weight in
  if decide (limit < acc) then Err (BlkError (TotalValueTransferWeightLimitExceeded acc limit))
  else
    let? s := advance x s inputs outputs (ValueTransfer t) fee to_verify [(ValueTransfer t, fee, weight)] in
    Ok (s, genesis_value_available, acc).

(** The version of a request: that of the epoch of its block, or the default. *)
Definition request_version (dr_pool : DataRequestPool) (dr_pointer : Hash) : ProtocolVersion :=
  match data_request_pool dr_pool !! dr_pointer with Some st => version_of (DataRequest.epoch st) | None => version_default end.

(** Commits, with the identities that committed and the counters. *)
Definition commit_step (x : BlockContext) (dr_pool : DataRequestPool) (vrf_input : CheckpointVRF) (rep_eng : ReputationEngine)
    (s : Progress * gset (Hash * PublicKeyHash) * gmap Hash WitnessesCount) (t : CommitTransaction) :
    result Failure (Progress * gset (Hash * PublicKeyHash) * gmap Hash WitnessesCount) :=
  let '(s, commit_hs, commits_number) := s in
  let cc := b_consensus x in
  let? r := validate_commit_transaction calculate_sha256 tx_hash parse_public_key parse_signature t dr_pool vrf_input (p_sigs s)
              rep_eng (b_epoch x) (b_constants x) (p_utxo s) (collateral_minimum cc) (get_collateral_age env (b_wips x))
              (b_number x) (minimum_difficulty cc) (b_wips x) (superblock_period cc) (request_version dr_pool (c_dr_pointer t))
              (b_stakes x) (wadd U16 (cc_extra_rounds cc) 1) (get_validator_min_stake_nanowits pinfo (b_epoch x)) in
  let '(dr_pointer, dr_witnesses, fee, to_verify) := r in
  let who := key_pkh (vrf_public_key (claim_proof (c_proof t))) in
  if decide ((dr_pointer, who) ∈ commit_hs) then Err (TxError (DuplicatedCommit who dr_pointer))
  else
    let? s := advance x s (c_collateral t) (c_outputs t) (Commit t) fee to_verify [] in
    Ok (s, {[ (dr_pointer, who) ]} ∪ commit_hs, increment_witnesses_counter commits_number dr_pointer dr_witnesses).

Definition reveal_step (dr_pool : DataRequestPool) (s : Progress * gset (Hash * PublicKeyHash)) (t : RevealTransaction) :
    result Failure (Progress * gset (Hash * PublicKeyHash)) :=
  let '(s, reveal_hs) := s in
  let? r := validate_reveal_transaction calculate_sha256 tx_hash parse_public_key parse_signature t dr_pool (p_sigs s) in
  if decide ((r_dr_pointer t, r_pkh t) ∈ reveal_hs) then Err (TxError (DuplicatedReveal (r_pkh t) (r_dr_pointer t)))
  else Ok (MkProgress (p_utxo s) (wadd U64 (p_fee s) r.1) r.2 (p_visits s), {[ (r_dr_pointer t, r_pkh t) ]} ∪ reveal_hs).

(** The weight of the requests that the block leaves without commits, and those of
    them with too many witnesses. *)
Definition unsolved_requests (x : BlockContext) (dr_pool : DataRequestPool) (commits_number : gmap Hash WitnessesCount) :
    Z * gset Hash :=
  if wip_0008 (b_wips x) then
    let dr_pointers := list_to_set (get_dr_output_pointers_by_epoch dr_pool (b_epoch x)) ∖ dom commits_number in
    foldl (λ acc dr,
      match get_dr_output dr_pool dr with
      | Some dro =>
          (sat_add U32 (sat_add U32 acc.1 (dr_weight dro)) (extra_weight dro),
           if data_request_has_too_many_witnesses dro (validator_count (b_stakes x)) (version_of (b_epoch x))
           then {[ dr ]} ∪ acc.2 else acc.2)
      | None => acc
      end) (0, ∅) (elements dr_pointers)
  else (0, ∅).

Definition dr_step (x : BlockContext) (too_many_witnesses_drs : gset Hash) (s : Progress * Z) (t : DRTransaction) :
    result Failure (Progress * Z) :=
  let '(s, acc) := s in
  let cc := b_consensus x in
  let? r := validate_dr_transaction calculate_sha256 tx_hash parse_public_key parse_signature from_slice from_value_u8 t (p_utxo s)
              (b_epoch x) (b_constants x) (p_sigs s) (collateral_minimum cc) (max_dr_weight cc)
              PSEUDO_CONSENSUS_CONSTANTS_WIP0022_REWARD_COLLATERAL_RATIO (b_wips x) (Some (b_version x)) in
  let '(inputs, outputs, fee, to_verify) := r in
  let weight := dr_tx_weight t in
  let? s := advance x s inputs outputs (DataRequest t) fee to_verify [(DataRequest t, fee, weight)] in
  let acc := if decide (tx_hash (Some (b_version x)) (DataRequest t) ∈ too_many_witnesses_drs) then acc else sat_add U32 acc weight in
  if decide (max_dr_weight cc < acc) then Err (BlkError (TotalDataRequestWeightLimitExceeded acc (max_dr_weight cc)))
  else Ok (s, acc).

(** [DataRequestPool::process_data_request] with the hash of the program. *)
Definition pool_process_data_request :=
  process_data_request calculate_sha256 (λ ep t, tx_hash (Some (version_of ep)) (DataRequest t)).

(** The requests of the block that have too many witnesses are added to the pool and
    moved to the stage of the tally: the pool, those whose stage has to be reset and
    all of them. *)
Fixpoint add_unsolvable (x : BlockContext) (block_hash : Hash) (txs : list DRTransaction) (dr_pool : DataRequestPool)
    (to_reset too_many : gset Hash) : exec DataRequestPool Failure (gset Hash * gset Hash) :=
  match txs with
  | [] => Ret dr_pool (to_reset, too_many)
  | t :: txs =>
      if data_request_has_too_many_witnesses (d_output t) (validator_count (b_stakes x)) (version_of (b_epoch x)) then
        match pool_process_data_request dr_pool t (b_epoch x) (Some block_hash) with
        | Crash => Crash
        | Fail dr_pool e => Fail dr_pool (dr_failure e)
        | Ret dr_pool _ =>
            let hash := tx_hash (Some (b_version x)) (DataRequest t) in
            match data_request_pool dr_pool !! hash with
            | None => Fail dr_pool (TxError (DataRequestNotFound hash))
            | Some st =>
                if decide (stage st ≠ TALLY) then
                  match update_stage st 0 true with
                  | None => Crash
                  | Some st => add_unsolvable x block_hash txs (with_requests dr_pool (<[hash := st]> (data_request_pool dr_pool)))
                                 ({[ hash ]} ∪ to_reset) ({[ hash ]} ∪ too_many)
                  end
                else add_unsolvable x block_hash txs dr_pool to_reset ({[ hash ]} ∪ too_many)
            end
        end
      else add_unsolvable x block_hash txs dr_pool to_reset too_many
  end.

(** [DataRequestState::set_stage] on a request of the pool. *)
Definition reset_data_request_stage (to_reset : gset Hash) (dr_pointer : Hash) (dr_pool : DataRequestPool) : DataRequestPool :=
  if decide (dr_pointer ∈ to_reset) then
    match data_request_pool dr_pool !! dr_pointer with
    | Some st => with_requests dr_pool (<[dr_pointer := set_stage st COMMIT]> (data_request_pool dr_pool))
    | None => dr_pool
    end
  else dr_pool.

(** Tallies, with the requests that have one and those that still need one. *)
Fixpoint tally_loop (x : BlockContext) (to_reset too_many : gset Hash) (txs : list TallyTransaction) (dr_pool : DataRequestPool)
    (s : Progress) (tally_hs expected : gset Hash) : exec DataRequestPool Failure (Progress * gset Hash) :=
  match txs with
  | [] => Ret dr_pool (s, expected)
  | t :: txs =>
      let dr_pointer := t_dr_pointer t in
      match validate_tally_transaction pinfo calculate_sha256 run_tally_panic_safe tally_bytes_on_encode_error t dr_pool
              (b_consensus x) (b_wips x) too_many (Some (validator_count (b_stakes x))) (request_version dr_pool dr_pointer) with
      | Panic => Crash
      | Err e => Fail (reset_data_request_stage to_reset dr_pointer dr_pool) e
      | Ok (outputs, fee) =>
          let dr_pool := reset_data_request_stage to_reset dr_pointer dr_pool in
          if decide (wips_0009_0011_0012 (b_wips x) = false ∧ t_tally t = tally_bytes_on_encode_error)
          then Fail dr_pool (TxError (MismatchedConsensus tally_bytes_on_encode_error tally_bytes_on_encode_error))
          else if decide (dr_pointer ∈ tally_hs) then Fail dr_pool (TxError (DuplicatedTally dr_pointer))
          else
            let! (dr_pool, s) := lift_exec dr_pool (advance x s [] outputs (Tally t) fee (p_sigs s) []) in
            tally_loop x to_reset too_many txs dr_pool s ({[ dr_pointer ]} ∪ tally_hs) (expected ∖ {[ dr_pointer ]})
      end
  end.

Definition stake_step (x : BlockContext) (s : Progress * Z) (t : StakeTransaction) : result Failure (Progress * Z) :=
  let '(s, acc) := s in
  let? r := validate_stake_transaction pinfo calculate_sha256 tx_hash parse_public_key parse_signature t (p_utxo s) (b_epoch x)
              (b_constants x) (p_sigs s) (b_stakes x) (get_validator_min_stake_nanowits pinfo (b_epoch x))
              (get_validator_max_stake_nanowits pinfo (b_epoch x)) in
  let '(inputs, _, fee, weight, change, to_verify) := r in
  let acc := sat_add U32 acc weight in
  let limit := get_maximum_stake_block_weight pinfo (b_epoch x) in
  if decide (limit < acc) then Err (BlkError (TotalStakeWeightLimitExceeded acc limit))
  else let? s := advance x s inputs (option_list change) (TxStake t) fee to_verify [] in Ok (s, acc).

Definition unstake_step (x : BlockContext) (s : Progress * Z) (t : UnstakeTransaction) : result Failure (Progress * Z) :=
  let '(s, acc) := s in
  let? r := validate_unstake_transaction pinfo calculate_sha256 tx_hash verify parse_public_key parse_signature t (b_epoch x)
              (b_stakes x) (get_validator_min_stake_nanowits pinfo (b_epoch x)) (get_unstaking_delay_seconds pinfo env (b_epoch x)) in
  let '(fee, weight, outputs) := r in
  let acc := sat_add U32 acc weight in
  let limit := get_maximum_unstake_block_weight pinfo (b_epoch x) in
  if decide (limit < acc) then Err (BlkError (TotalUnstakeWeightLimitExceeded acc limit))
  else let? s := advance x s [] outputs (TxUnstake t) fee (p_sigs s) [] in Ok (s, acc).

(** The stakes and the unstakes of the block. *)
Definition validate_stakes (x : BlockContext) (txs : list StakeTransaction) (s : Progress) : result Failure Progress :=
  if version_lt (b_version x) V1_8 then Ok s
  else match first_duplicate [] ((λ t, public_key (authorization (s_output t))) <$> txs) with
       | Some key => Err (BlkError (RepeatedStakeOperator (key_pkh key)))
       | None => let? r := each (stake_step x) txs (s, 0) in Ok r.1
       end.
Definition validate_unstakes (x : BlockContext) (txs : list UnstakeTransaction) (s : Progress) : result Failure Progress :=
  if before_v2 (b_version x) then Ok s
  else match first_duplicate [] (u_operator <$> txs) with
       | Some who => Err (BlkError (RepeatedUnstakeOperator who))
       | None => let? r := each (unstake_step x) txs (s, 0) in Ok r.1
       end.

Definition validate_mint (x : BlockContext) (t : MintTransaction) (s : Progress) : result Failure Progress :=
  if b_genesis x then Ok s
  else
    let cc := b_consensus x in
    let? _ := validate_mint_transaction pinfo tx_hash t (p_fee s) (b_epoch x) (initial_block_reward cc) (halving_period cc) in
    advance x s [] (m_outputs t) (Mint t) 0 (p_sigs s) [].

(** The roots of the trees that the loops fill. *)
Definition block_roots (v : ProtocolVersion) (t : BlockTransactions) : BlockMerkleRoots :=
  let root {A} (wrap : A → Transaction) (txs : list A) := tree_root ((λ t, tx_hash (Some v) (wrap t)) <$> txs) in
  {| mint_hash := tx_hash (Some v) (Mint (mint t));
     vt_hash_merkle_root := root ValueTransfer (value_transfer_txns t);
     dr_hash_merkle_root := root DataRequest (data_request_txns t);
     commit_hash_merkle_root := root Commit (commit_txns t);
     reveal_hash_merkle_root := root Reveal (reveal_txns t);
     tally_hash_merkle_root := root Tally (tally_txns t);
     stake_hash_merkle_root := if version_lt v V1_8 then hash_default else root TxStake (stake_txns t);
     unstake_hash_merkle_root := if before_v2 v then hash_default else root TxUnstake (unstake_txns t) |}.

(** [BlockMerkleRoots::from_transactions]; [None] is a panic. *)
Definition from_transactions (v : ProtocolVersion) (t : BlockTransactions) : option BlockMerkleRoots :=
  let root {A} (wrap : A → Transaction) (txs : list A) :=
    Merkle.merkle_tree_root hash_concat empty_hash ((λ t, tx_hash (Some v) (wrap t)) <$> txs) in
  vt ← root ValueTransfer (value_transfer_txns t);
  dr ← root DataRequest (data_request_txns t);
  co ← root Commit (commit_txns t);
  re ← root Reveal (reveal_txns t);
  ta ← root Tally (tally_txns t);
  st ← (if version_lt v V1_8 then Some hash_default else root TxStake (stake_txns t));
  ut ← (if before_v2 v then Some hash_default else root TxUnstake (unstake_txns t));
  Some {| mint_hash := tx_hash (Some v) (Mint (mint t)); vt_hash_merkle_root := vt; dr_hash_merkle_root := dr;
          commit_hash_merkle_root := co; reveal_hash_merkle_root := re; tally_hash_merkle_root := ta;
          stake_hash_merkle_root := st; unstake_hash_merkle_root := ut |}.

(** The transactions up to the data requests. *)
Definition validate_until_requests (x : BlockContext) (t : BlockTransactions) (dr_pool : DataRequestPool) (vrf_input : CheckpointVRF)
    (rep_eng : ReputationEngine) (max_total_value_genesis : Z) (s : Progress) : result Failure Progress :=
  let? r := each (vt_step x max_total_value_genesis) (value_transfer_txns t) (s, max_total_value_genesis, 0) in
  let? r := each (commit_step x dr_pool vrf_input rep_eng) (commit_txns t) (r.1.1, ∅, ∅) in
  let '(s, _, commits_number) := r in
  let? _ := check_commits_number commits_number in
  let? r := each (reveal_step dr_pool) (reveal_txns t) (s, ∅) in
  let '(dr_weight, too_many_witnesses_drs) := unsolved_requests x dr_pool commits_number in
  let? r := each (dr_step x too_many_witnesses_drs) (data_request_txns t) (r.1, dr_weight) in
  Ok r.1.

(** The transactions after the tallies. *)
Definition validate_after_tallies (x : BlockContext) (b : Block) (s : Progress) : result Failure Progress :=
  let t := txns b in
  let? s := validate_stakes x (stake_txns t) s in
  let? s := validate_unstakes x (unstake_txns t) s in
  let? s := validate_mint x (mint t) s in
  if decide (block_roots (b_version x) t ≠ merkle_roots (block_header b)) then Err (BlkError NotValidMerkleTree) else Ok s.

Definition validate_block_transactions (utxo_set : UnspentOutputsPool D) (dr_pool : DataRequestPool) (b : Block)
    (vrf_input : CheckpointVRF) (to_verify : list SignaturesToVerify) (rep_eng : ReputationEngine) (c : EpochConstants)
    (block_number : Z) (cc : ConsensusConstants) (active_wips : ActiveWips) (stakes : StakesTracker) :
    exec DataRequestPool Failure (Diff * list SignaturesToVerify * list (Transaction * Z * Z)) :=
  let epoch := checkpoint (beacon (block_header b)) in
  let t := txns b in
  let version := version_of epoch in
  let x := MkContext epoch version (is_genesis header_hash b (genesis_hash cc)) c cc active_wips stakes block_number in
  let! (dr_pool, total) := lift_exec dr_pool (unwrap (total_block_reward (initial_block_reward cc) (halving_period cc))) in
  if decide (version = V1_7 ∧ stake_txns t ≠ []) then Fail dr_pool (TxError NoStakeTransactionsAllowed)
  else if decide (version_le version V1_8 = true ∧ unstake_txns t ≠ []) then Fail dr_pool (TxError NoUnstakeTransactionsAllowed)
  else
    let! (dr_pool, s) := lift_exec dr_pool
      (validate_until_requests x t dr_pool vrf_input rep_eng (U64 - 1 - total)
         (MkProgress (utxo_diff_new utxo_set block_number) 0 to_verify [])) in
    let block_hash := header_hash (Some version) (block_header b) in
    let! (dr_pool, unsolvable) := add_unsolvable x block_hash (data_request_txns t) dr_pool ∅ ∅ in
    let! (dr_pool, r) := tally_loop x unsolvable.1 unsolvable.2 (tally_txns t) dr_pool s ∅ (get_tally_ready_drs dr_pool) in
    if decide (r.2 ≠ ∅) then Fail dr_pool (BlkError (MissingExpectedTallies (size r.2) block_hash))
    else
      let! (dr_pool, s) := lift_exec dr_pool (validate_after_tallies x b r.1) in
      Ret dr_pool (take_diff (p_utxo s), p_sigs s, p_visits s).

(** ** Headers *)

Definition validate_block_signature (b : Block) (to_verify : list SignaturesToVerify) : result Failure (list SignaturesToVerify) :=
  let proof_pkh := key_pkh (proof (block_header b)).2 in
  let signature_pkh := key_pkh (public_key (block_sig b)) in
  if decide (proof_pkh ≠ signature_pkh) then Err (BlkError (BlockPublicKeyHashMismatch proof_pkh signature_pkh))
  else if negb (parse_signature (signature (block_sig b))) then Err SignatureError
  else if negb (parse_public_key (public_key (block_sig b))) then Err KeyConversionError
  else Ok (to_verify ++ [SecpBlock (public_key (block_sig b))
                           (header_hash (Some (version_of (checkpoint (beacon (block_header b))))) (block_header b))
                           (signature (block_sig b))]).

Definition validate_genesis_block (b : Block) (expected_genesis_hash : Hash) : result Failure unit :=
  let hash := header_hash None (block_header b) in
  if decide (hash ≠ expected_genesis_hash) then Err (BlkError (GenesisBlockHashMismatch hash expected_genesis_hash))
  else
    let? new_genesis := unwrap (genesis hash_concat empty_hash tx_hash (hash_prev_block (beacon (block_header b)))
                                  (value_transfer_txns (txns b))) in
    if decide (new_genesis = b) then Ok tt else Err (BlkError GenesisBlockMismatch).

Definition validate_block (b : Block) (current_epoch : Z) (vrf_input : CheckpointVRF) (chain_beacon : CheckpointBeacon)
    (to_verify : list SignaturesToVerify) (rep_eng : ReputationEngine) (cc : ConsensusConstants) (active_wips : ActiveWips)
    (stakes : StakesTracker) (protocol_version : ProtocolVersion) (replication_factor : Z) : result Failure (list SignaturesToVerify) :=
  let block_epoch := checkpoint (beacon (block_header b)) in
  let prev := hash_prev_block (beacon (block_header b)) in
  if decide (current_epoch < block_epoch) then Err (BlkError (BlockFromFuture current_epoch block_epoch))
  else if decide (block_epoch < checkpoint chain_beacon) then Err (BlkError (BlockOlderThanTip (checkpoint chain_beacon) block_epoch))
  else if decide (hash_prev_block chain_beacon ≠ prev) then Err (BlkError (PreviousHashMismatch prev (hash_prev_block chain_beacon)))
  else if decide (hash_prev_block chain_beacon = bootstrap_hash cc) then
    let? _ := validate_genesis_block b (genesis_hash cc) in Ok to_verify
  else
    let? target_hash :=
      (if decide (protocol_version = V2_0) then
         let v := key_pkh (public_key (block_sig b)) in
         if decide (mining_eligibility UNIT stakes v block_epoch replication_factor = EligibleYes) then Ok Hash_max
         else Err (BlkError (BlockValidatorNotEligible v))
       else
         let n := Z.of_nat (active_identities_number (ars rep_eng)) in
         if decide (U32 ≤ n) then Err TryFromIntError
         else Ok (calculate_randpoe_threshold n (mining_backup_factor cc) block_epoch (minimum_difficulty cc)
                    (epochs_with_minimum_difficulty cc) active_wips).1) in
    validate_block_signature b (to_verify ++ [VrfBlock (proof (block_header b)) vrf_input target_hash]).

(** ** A transaction from the network *)

(** [validate_new_transaction]: the fee and the signatures to verify. *)
Definition validate_new_transaction (t : Transaction) (rep_eng : ReputationEngine) (unspent_outputs_pool : UnspentOutputsPool D)
    (dr_pool : DataRequestPool) (vrf_input : CheckpointVRF) (current_epoch : Z) (c : EpochConstants) (block_number : Z)
    (to_verify : list SignaturesToVerify) (collateral_minimum collateral_age max_vt_weight max_dr_weight
     minimum_reppoe_difficulty required_reward_collateral_ratio : Z) (active_wips : ActiveWips) (superblock_period : Z)
    (stakes : StakesTracker) (protocol_version : ProtocolVersion) (max_rounds : Z) : result Failure (Z * list SignaturesToVerify) :=
  let u := utxo_diff_new unspent_outputs_pool block_number in
  let min_stake := get_validator_min_stake_nanowits pinfo current_epoch in
  let max_stake := get_validator_max_stake_nanowits pinfo current_epoch in
  match t with
  | ValueTransfer t =>
      let? r := validate_vt_transaction calculate_sha256 tx_hash parse_public_key parse_signature t u current_epoch c to_verify
                  max_vt_weight (Some protocol_version) in
      let '(_, _, fee, to_verify) := r in Ok (fee, to_verify)
  | DataRequest t =>
      let? r := validate_dr_transaction calculate_sha256 tx_hash parse_public_key parse_signature from_slice from_value_u8 t u
                  current_epoch c to_verify collateral_minimum max_dr_weight required_reward_collateral_ratio active_wips None in
      let '(_, _, fee, to_verify) := r in Ok (fee, to_verify)
  | Commit t =>
      let? r := validate_commit_transaction calculate_sha256 tx_hash parse_public_key parse_signature t dr_pool vrf_input to_verify
                  rep_eng current_epoch c u collateral_minimum collateral_age block_number minimum_reppoe_difficulty active_wips
                  superblock_period protocol_version stakes max_rounds min_stake in
      let '(_, _, fee, to_verify) := r in Ok (fee, to_verify)
  | Reveal t => validate_reveal_transaction calculate_sha256 tx_hash parse_public_key parse_signature t dr_pool to_verify
  | TxStake t =>
      let? r := validate_stake_transaction pinfo calculate_sha256 tx_hash parse_public_key parse_signature t u current_epoch c
                  to_verify stakes min_stake max_stake in
      let '(_, _, fee, _, _, to_verify) := r in Ok (fee, to_verify)
  | TxUnstake t =>
      let? r := validate_unstake_transaction pinfo calculate_sha256 tx_hash verify parse_public_key parse_signature t current_epoch
                  stakes min_stake (get_unstaking_delay_seconds pinfo env current_epoch) in
      Ok (r.1.1, to_verify)
  | _ => Err (TxError NotValidTransaction)
  end.
End block.
