(* ===== verification/ValidationCorrect.v ===== *)
(** * Validation of transactions: correctness

    What an accepted transaction guarantees: the outputs it spends exist, are
    unlocked, distinct and owned by the keys that signed, and its value adds up.  For
    value transfers the conditions are also necessary. *)

From stdpp Require Import base tactics numbers list gmap sorting.
From Stdlib Require Import ZArith Lia.
From S2P Require Import Prelude Stake Stakes Hashes Superblock Versioning Tapi Rad Float Storage UtxoDb Utxo RepEngine.
From S2P Require Import Eligibility Epoch RadScript Transaction DataRequest TxFactory TxFactoryCorrect Consensus Validation.
Local Open Scope Z_scope.
Local Open Scope rust_scope.

Set Default Proof Using "Type".
Section correct.
Context `{UtxoDb D}.
Implicit Types (u : UtxoDiff D) (inputs : list Input) (os : list ValueTransferOutput) (c : EpochConstants).

(** ** Inputs *)

(** [os] are the outputs that the inputs point to. *)
Definition resolves u inputs os : Prop :=
  Forall2 (λ i o, utxo_diff_get u (output_pointer i) = Some (Some o)) inputs os.

(** The output can be spent in the epoch. *)
Definition unlocked (epoch : Z) c (o : ValueTransferOutput) : Prop :=
  ∃ ts, epoch_timestamp c epoch = Ok ts ∧ out_time_lock o ≤ ts.1 ∧ out_time_lock o ≤ I64_MAX.

(** The outputs that the inputs point to have values. *)
Definition values_nonneg u inputs : Prop :=
  Forall (λ i, ∀ o, utxo_diff_get u (output_pointer i) = Some (Some o) → 0 ≤ out_value o) inputs.

Lemma resolves_nonneg u inputs os : values_nonneg u inputs → resolves u inputs os → Forall (λ o, 0 ≤ out_value o) os.
Proof. intros Hu. induction 1 as [|i o ? ? Ho]; constructor; apply Forall_cons in Hu as [Hi Hu]; eauto. Qed.

Lemma resolves_total u inputs os : values_nonneg u inputs → resolves u inputs os → 0 ≤ zsum (out_value <$> os).
Proof. intros Hu Hr. by apply zsum_nonneg, Forall_fmap, (resolves_nonneg u inputs). Qed.

Lemma inputs_sum_from_exact inputs : ∀ total seen u epoch c v,
  values_nonneg u inputs →
  inputs_sum_from total seen inputs u epoch c = Ok v ↔
  ∃ os, resolves u inputs os ∧ Forall (unlocked epoch c) os ∧ NoDup (output_pointer <$> inputs)
    ∧ Forall (λ i, output_pointer i ∉ seen) inputs
    ∧ v = total + zsum (out_value <$> os) ∧ (inputs = [] ∨ v < U64).
Proof.
  induction inputs as [|i inputs IH]; intros total seen u epoch c v Hu; cbn [inputs_sum_from].
  { split.
    - intros [= ->]. exists []. split_and!; [constructor|done|constructor|done|cbn; lia|by left].
    - intros (os & Hr & _ & _ & _ & -> & _). inversion Hr; subst. cbn. by rewrite Z.add_0_r. }
  apply Forall_cons in Hu as [_ Hu]. split.
  - intros Hk. do 3 step_ok Hk. step_ok Hk. step_ok Hk. step_ok Hk. step_ok Hk.
    rename E into Hf, E0 into Ho, E1 into Hts, E2 into Hadd.
    apply unwrap_ok in Hf. apply ok_or_ok in Ho as ->. apply map_err_ok in Hts. apply ok_or_ok in Hadd.
    apply IH in Hk as (os & Hr & Hul & Hnd & Hseen & -> & Hlt); [|done].
    unfold checked_add in Hadd. case_decide; [|done]. injection Hadd as [= <-].
    exists (a0 :: os). split_and!.
    + by constructor.
    + constructor; [|done]. exists a1. split_and!; [done|lia|lia].
    + cbn [fmap list_fmap]. constructor; [|done]. intros (j & Hj & Hin)%list_elem_of_fmap.
      rewrite Forall_forall in Hseen. apply (Hseen j Hin). set_solver.
    + constructor; [done|]. eapply Forall_impl; [exact Hseen|]. set_solver.
    + rewrite zsum_cons. lia.
    + right. destruct Hlt as [->|?]; [|done]. inversion Hr; subst. cbn. lia.
  - intros (os & Hr & Hul & Hnd & Hseen & -> & [?|Hlt]); [done|].
    inversion Hr as [|? o ? os' Ho Hr']; subst. inversion Hul as [|? ? Hunl Hul']; subst. destruct Hunl as (ts & Hts & Hlock & Hmax).
    cbn [fmap list_fmap] in Hnd. apply NoDup_cons in Hnd as [Hi Hnd]. apply Forall_cons in Hseen as [Hs Hseen].
    rewrite zsum_cons in *. pose proof (resolves_total u inputs os' Hu Hr').
    rewrite Ho, Hts. cbn [unwrap rbind ok_or map_err]. rewrite !decide_False by (lia || done).
    unfold checked_add. rewrite decide_True by lia. cbn [ok_or rbind].
    apply IH; [done|]. exists os'. split_and!; [done|done|done| |lia|right; lia].
    apply Forall_forall. intros j Hj [Heq%elem_of_singleton|Hn]%elem_of_union.
    + apply Hi. rewrite <-Heq. apply list_elem_of_fmap. by exists j.
    + rewrite Forall_forall in Hseen. by apply (Hseen j).
Qed.

Lemma inputs_sum_exact inputs u epoch c v :
  values_nonneg u inputs →
  transaction_inputs_sum inputs u epoch c = Ok v ↔
  ∃ os, resolves u inputs os ∧ Forall (unlocked epoch c) os ∧ NoDup (output_pointer <$> inputs)
    ∧ v = zsum (out_value <$> os) ∧ v < U64.
Proof.
  intros Hu. unfold transaction_inputs_sum. rewrite inputs_sum_from_exact by done. split.
  - intros (os & Hr & Hul & Hnd & _ & -> & Hlt). exists os. split_and!; [done..|].
    destruct Hlt as [->|]; [|done]. inversion Hr; subst. cbn. unfold_moduli. lia.
  - intros (os & Hr & Hul & Hnd & -> & Hlt). exists os. split_and!; [done..| |lia|by right].
    apply Forall_forall. set_solver.
Qed.

(** ** Outputs *)

Lemma first_zero_none os : first_zero os = None ↔ Forall (λ o, out_value o ≠ 0) os.
Proof.
  unfold first_zero. rewrite fmap_None, list_find_None. done.
Qed.

Lemma no_zero_outputs_ok h os x : no_zero_outputs h os = Ok x ↔ Forall (λ o, out_value o ≠ 0) os.
Proof.
  rewrite <-first_zero_none. unfold no_zero_outputs. destruct (first_zero os), x; split; congruence.
Qed.

Lemma outputs_sum_ok os v :
  Forall (λ o, 0 ≤ out_value o) os →
  transaction_outputs_sum os = Ok v ↔ v = zsum (out_value <$> os) ∧ v < U64.
Proof.
  intros Ho. rewrite outputs_sum_spec by done. case_decide; split; [intros [= <-]; lia|intros [-> _]; done|done|lia].
Qed.

(** ** Signatures *)

Context (pinfo : ProtocolInfo) (calculate_sha256 : list Z → Hash) (tx_hash : option ProtocolVersion → Transaction → Hash).
Context (verify : PublicKey → list Z → list Z → bool) (parse_public_key : PublicKey → bool) (parse_signature : list Z → bool).
Implicit Types (ks : KeyedSignature) (sv : list SignaturesToVerify) (hash : Hash).

Abbreviation key_pkh := (pkh calculate_sha256).

(** The signature is by the owner of the output. *)
Definition owned ks (o : ValueTransferOutput) : Prop :=
  key_pkh (public_key ks) = out_pkh o ∧ parse_public_key (public_key ks) = true ∧ parse_signature (signature ks) = true.

(** The signature of a transaction as it is verified. *)
Definition to_check hash ks : SignaturesToVerify := SecpTx (public_key ks) hash (signature ks).

Lemma input_signature_ok u hash i ks o x :
  utxo_diff_get u (output_pointer i) = Some (Some o) →
  validate_input_signature calculate_sha256 parse_public_key parse_signature hash u (i, ks) = Ok x ↔ owned ks o ∧ x = to_check hash ks.
Proof.
  intros Ho. unfold validate_input_signature, validate_pkh_signature. cbn [fst snd]. rewrite Ho. cbn [unwrap rbind].
  unfold owned, to_check. case_decide; cbn [map_err rbind]; [|naive_solver].
  destruct (parse_public_key _); cbn [negb]; [|naive_solver]. destruct (parse_signature _); cbn [negb]; naive_solver.
Qed.

Lemma input_signatures_ok u hash inputs os : ∀ sigs xs,
  resolves u inputs os → length sigs = length inputs →
  collect (validate_input_signature calculate_sha256 parse_public_key parse_signature hash u) (zip inputs sigs) = Ok xs ↔
  Forall2 owned sigs os ∧ xs = to_check hash <$> sigs.
Proof.
  intros sigs xs Hr. revert sigs xs. induction Hr as [|i o inputs os Ho Hr IH]; intros [|ks sigs] xs Hl; try done.
  - cbn. split; [intros [= <-]; split; [constructor|done]|intros [_ ->]; done].
  - cbn [zip zip_with collect]. split.
    + intros Hk. step_ok Hk. step_ok Hk. injection Hk as <-.
      apply (input_signature_ok u hash i ks o) in E as [Hks ->]; [|done].
      apply IH in E0 as [Hs ->]; [|by injection Hl]. split; [by constructor|done].
    + intros [Hs ->]. inversion Hs; subst.
      rewrite (proj2 (input_signature_ok u hash i ks o (to_check hash ks) Ho)) by done. cbn [rbind].
      rewrite (proj2 (IH sigs (to_check hash <$> sigs) ltac:(by injection Hl))) by done. done.
Qed.

Lemma transaction_signature_ok u hash inputs os sigs sv sv' :
  resolves u inputs os →
  validate_transaction_signature calculate_sha256 parse_public_key parse_signature sigs inputs hash u sv = Ok sv' ↔
  Forall2 owned sigs os ∧ sv' = sv ++ (to_check hash <$> sigs).
Proof.
  intros Hr. unfold validate_transaction_signature. split.
  - intros Hk. step_ok Hk.
    + step_ok Hk. injection Hk as <-. apply (input_signatures_ok u hash inputs os sigs a Hr) in E as [? ->]; done.
    + step_ok Hk. by step_ok Hk.
  - intros [Hs ->].
    assert (length sigs = length inputs) as Hl by (by rewrite (Forall2_length _ _ _ Hs), <-(Forall2_length _ _ _ Hr)).
    rewrite decide_True by done.
    by rewrite (proj2 (input_signatures_ok u hash inputs os sigs (to_check hash <$> sigs) Hr Hl) (conj Hs eq_refl)).
Qed.

(** ** Value transfers *)

Lemma vt_ok t u epoch c sv limit version r :
  values_nonneg u (vt_inputs t) → Forall (λ o, 0 ≤ out_value o) (vt_outputs t) →
  let hash := tx_hash (Some (default version_default version)) (ValueTransfer t) in
  let spent := zsum (out_value <$> vt_outputs t) in
  validate_vt_transaction calculate_sha256 tx_hash parse_public_key parse_signature t u epoch c sv limit version = Ok r ↔
  vt_weight t ≤ limit ∧ vt_inputs t ≠ [] ∧ Forall (λ o, out_value o ≠ 0) (vt_outputs t)
  ∧ ∃ os, resolves u (vt_inputs t) os ∧ Forall (unlocked epoch c) os ∧ NoDup (output_pointer <$> vt_inputs t)
    ∧ Forall2 owned (vt_signatures t) os ∧ spent ≤ zsum (out_value <$> os) < U64
    ∧ r = (vt_inputs t, vt_outputs t, zsum (out_value <$> os) - spent, sv ++ (to_check hash <$> vt_signatures t)).
Proof.
  intros Hu Ho hash spent. unfold validate_vt_transaction, vt_transaction_fee. split.
  - intros Hk. step_ok Hk. step_ok Hk. step_ok Hk. step_ok Hk. step_ok Hk. injection Hk as <-.
    rename E into Hsig, E0 into Hz, E1 into Hfee. do 3 step_ok Hfee. injection Hfee as <-.
    rename E into Hin, E0 into Hout. apply inputs_sum_exact in Hin as (os & Hr & Hul & Hnd & -> & Hlt); [|done].
    apply map_err_ok, outputs_sum_ok in Hout as [-> _]; [|done].
    apply (transaction_signature_ok u _ _ os) in Hsig as [Hown ->]; [|done]. apply no_zero_outputs_ok in Hz.
    split_and!; [lia|done|done|]. exists os. unfold spent, hash. split_and!; [done..|lia|done|done].
  - intros (Hw & Hne & Hz & os & Hr & Hul & Hnd & Hown & Hle & ->). rewrite decide_False by lia.
    fold hash. rewrite (proj2 (transaction_signature_ok u hash _ os (vt_signatures t) sv _ Hr) (conj Hown eq_refl)).
    cbn [rbind]. rewrite decide_False by done. rewrite (proj2 (no_zero_outputs_ok hash (vt_outputs t) tt) Hz). cbn [rbind].
    rewrite (proj2 (inputs_sum_exact (vt_inputs t) u epoch c (zsum (out_value <$> os)) Hu)) by (exists os; split_and!; done || lia).
    cbn [rbind]. unfold tx_err. rewrite (proj2 (map_err_ok _ _ spent)) by (apply outputs_sum_ok; [done|fold spent; lia]).
    cbn [rbind]. rewrite decide_False by lia. done.
Qed.

(** ** What acceptance settles *)

(** A signature of the owner of every output is handed over for verification. *)
Definition authorized hash sv os : Prop :=
  Forall (λ o, ∃ key sig, SecpTx key hash sig ∈ sv ∧ key_pkh key = out_pkh o) os.

(** The inputs are distinct and exist, their owners signed, and they hold the value
    of the outputs, what the transaction locks and its fee. *)
Definition settled u inputs (outputs : list ValueTransferOutput) (locked fee : Z) hash sv sv' : Prop :=
  sv `prefix_of` sv' ∧ 0 ≤ fee ∧ NoDup (output_pointer <$> inputs)
  ∧ ∃ os, resolves u inputs os ∧ authorized hash sv' os
      ∧ zsum (out_value <$> os) = zsum (out_value <$> outputs) + locked + fee.

Lemma authorized_owned hash sv sigs os : Forall2 owned sigs os → authorized hash (sv ++ (to_check hash <$> sigs)) os.
Proof.
  intros Hs. apply Forall_forall. intros o Ho. apply list_elem_of_lookup in Ho as [i Hi].
  destruct (Forall2_lookup_r _ _ _ _ _ Hs Hi) as (ks & Hks & Hown & _ & _).
  exists (public_key ks), (signature ks). split; [|done]. apply elem_of_app. right.
  apply list_elem_of_fmap. exists ks. split; [done|]. by apply list_elem_of_lookup_2 in Hks.
Qed.

Lemma vt_settled t u epoch c sv limit version inputs outputs fee sv' :
  values_nonneg u (vt_inputs t) → Forall (λ o, 0 ≤ out_value o) (vt_outputs t) →
  validate_vt_transaction calculate_sha256 tx_hash parse_public_key parse_signature t u epoch c sv limit version
  = Ok (inputs, outputs, fee, sv') →
  inputs = vt_inputs t ∧ outputs = vt_outputs t
  ∧ settled u inputs outputs 0 fee (tx_hash (Some (default version_default version)) (ValueTransfer t)) sv sv'.
Proof.
  intros Hu Ho Hk. apply vt_ok in Hk as (_ & _ & _ & os & Hr & _ & Hnd & Hown & Hle & [= -> -> -> ->]); [|done..].
  split_and!; [done..|]. split_and!; [by apply prefix_app_r|lia|done|]. exists os.
  split_and!; [done|by apply authorized_owned|lia].
Qed.

(** *** Commits *)

Lemma collateral_input_ok u epoch c who bn age period version seen k v :
  validate_collateral_input u epoch c who bn age period version seen k = Ok v →
  ∃ o, utxo_diff_get u k = Some (Some o) ∧ out_pkh o = who ∧ k ∉ seen ∧ v = out_value o.
Proof.
  unfold validate_collateral_input. intros Hk. do 12 step_ok Hk. injection Hk as <-.
  apply unwrap_ok in E. apply ok_or_ok in E0 as ->. exists a0. split_and!; [done| |done|done].
  by apply dec_stable.
Qed.

Lemma collateral_sum_ok u epoch c who bn age period version inputs : ∀ seen v v',
  collateral_sum (validate_collateral_input u epoch c who bn age period version) inputs seen v = Ok v' →
  ∃ os, resolves u inputs os ∧ Forall (λ o, out_pkh o = who) os ∧ NoDup (output_pointer <$> inputs)
    ∧ Forall (λ i, output_pointer i ∉ seen) inputs ∧ v' = v + zsum (out_value <$> os).
Proof.
  induction inputs as [|i inputs IH]; intros seen v v' Hk; cbn [collateral_sum] in Hk.
  { injection Hk as <-. exists []. split_and!; [constructor|done|constructor|done|cbn; lia]. }
  step_ok Hk. step_ok Hk. apply collateral_input_ok in E as (o & Ho & Hw & Hs & ->).
  apply ok_or_ok in E0. unfold checked_add in E0. case_decide; [|done]. injection E0 as <-.
  apply IH in Hk as (os & Hr & Hown & Hnd & Hseen & ->). exists (o :: os). split_and!.
  - by constructor.
  - by constructor.
  - cbn [fmap list_fmap]. constructor; [|done]. intros (j & Hj & Hin)%list_elem_of_fmap.
    rewrite Forall_forall in Hseen. apply (Hseen j Hin). set_solver.
  - constructor; [done|]. eapply Forall_impl; [exact Hseen|]. set_solver.
  - rewrite zsum_cons. lia.
Qed.

(** What a commit to a request of version [v] may lock. *)
Definition commit_locks (v : ProtocolVersion) (required locked : Z) : Prop := locked = required ∨ v = V2_0 ∧ locked = 0.

Lemma commit_collateral_ok t u epoch c required bn age period version stakes min_stake x :
  Forall (λ o, 0 ≤ out_value o) (c_outputs t) →
  validate_commit_collateral calculate_sha256 t u epoch c required bn age period version stakes min_stake = Ok x →
  ∃ os locked, resolves u (c_collateral t) os ∧ NoDup (output_pointer <$> c_collateral t)
    ∧ Forall (λ o, out_pkh o = key_pkh (vrf_public_key (claim_proof (c_proof t)))) os
    ∧ commit_locks version required locked ∧ zsum (out_value <$> os) = zsum (out_value <$> c_outputs t) + locked.
Proof.
  intros Ho Hk. unfold validate_commit_collateral in Hk. do 5 step_ok Hk; clear E.
  all: apply collateral_sum_ok in E0 as (os & Hr & Hw & Hnd & _ & ->).
  all: apply map_err_ok, outputs_sum_ok in E1 as [-> _]; [|done].
  - exists os, required. split_and!; [done..|by left|lia].
  - step_ok Hk. step_ok Hk. exists os, 0. split_and!; [done..| |lia]. right. split; [by apply dec_stable|done].
Qed.

Lemma commit_reveal_signature_ok hash sigs sv ks sv' :
  validate_commit_reveal_signature parse_public_key parse_signature hash sigs sv = Ok (ks, sv') →
  sigs = [ks] ∧ sv' = sv ++ [to_check hash ks].
Proof.
  unfold validate_commit_reveal_signature. destruct sigs as [|k [|? ?]]; intros Hk; [done| |].
  - do 2 step_ok Hk. injection Hk as <- <-. done.
  - by step_ok Hk.
Qed.

Lemma commit_settled t dr_pool vrf sv rep epoch c u cmin age bn mind wips period version stakes rounds min_stake ptr ws fee sv' :
  Forall (λ o, 0 ≤ out_value o) (c_outputs t) →
  validate_commit_transaction calculate_sha256 tx_hash parse_public_key parse_signature t dr_pool vrf sv rep epoch c u cmin age
    bn mind wips period version stakes rounds min_stake = Ok (ptr, ws, fee, sv') →
  ∃ st locked, ptr = c_dr_pointer t ∧ data_request_pool dr_pool !! ptr = Some st ∧ stage st = COMMIT
    ∧ ws = witnesses (request st) ∧ fee = commit_and_reveal_fee (request st)
    ∧ commit_locks version (effective_collateral (request st) cmin) locked
    ∧ settled u (c_collateral t) (c_outputs t) locked 0 (tx_hash None (Commit t)) sv sv'.
Proof.
  intros Ho Hk. unfold validate_commit_transaction in Hk. do 9 step_ok Hk. injection Hk as <- <- <- <-.
  apply ok_or_ok in E. apply commit_collateral_ok in E2 as (os & locked & Hr & Hnd & Hw & Hl & Hs); [|done].
  destruct a4 as [ks sv1]. apply commit_reveal_signature_ok in E4 as [_ ->]. cbn [fst snd] in *.
  exists a, locked. split_and!; [done|done|by apply dec_stable|done|done|done|].
  split_and!; [by apply prefix_app_r, prefix_app_r|done|done|]. exists os. split_and!; [done| |lia].
  eapply Forall_impl; [exact Hw|]. intros o Hpk. exists (public_key ks), (signature ks). split; [set_solver|].
  rewrite Hpk. symmetry. by apply dec_stable.
Qed.

Lemma reveal_ok t dr_pool sv fee sv' :
  validate_reveal_transaction calculate_sha256 tx_hash parse_public_key parse_signature t dr_pool sv = Ok (fee, sv') →
  ∃ st, data_request_pool dr_pool !! r_dr_pointer t = Some st ∧ stage st = REVEAL
    ∧ fee = commit_and_reveal_fee (request st) ∧ is_Some (commits (info st) !! r_pkh t)
    ∧ reveals (info st) !! r_pkh t = None ∧ sv `prefix_of` sv'.
Proof.
  intros Hk. unfold validate_reveal_transaction in Hk. do 7 step_ok Hk. injection Hk as <- <-.
  apply ok_or_ok in E. destruct a0 as [ks sv1]. apply commit_reveal_signature_ok in E0 as [_ ->]. cbn [fst snd] in *.
  apply dec_stable in n0. rewrite n0 in *. apply ok_or_ok in E1. exists a.
  split_and!; [done|by apply dec_stable|done|by eexists|by apply eq_None_not_Some|by apply prefix_app_r].
Qed.

(** *** Stakes *)

(** What a stake takes of the inputs for its value and its change: their sum as a
    machine word, which is all that the code compares with the inputs. *)
Definition stake_takes (t : StakeTransaction) : Z :=
  (so_value (s_output t) + zsum (out_value <$> option_list (s_change t))) mod U64.

Lemma stake_settled t u epoch c sv stakes min_stake max_stake inputs output fee w change sv' :
  values_nonneg u (s_inputs t) →
  validate_stake_transaction pinfo calculate_sha256 tx_hash parse_public_key parse_signature t u epoch c sv stakes min_stake max_stake
  = Ok (inputs, output, fee, w, change, sv') →
  inputs = s_inputs t ∧ change = s_change t
  ∧ settled u inputs (option_list change) (stake_takes t - zsum (out_value <$> option_list change)) fee
      (tx_hash None (TxStake t)) sv sv'.
Proof.
  intros Hu Hk. unfold validate_stake_transaction in Hk. do 8 step_ok Hk.
  injection Hk as <- <- <- <- <- <-. rename E1 into Hsig, E2 into Hf. unfold st_transaction_fee in Hf. do 2 step_ok Hf.
  apply inputs_sum_exact in E1 as (os & Hr & _ & Hnd & -> & Hlt); [|done].
  assert (match s_change t with Some ch => out_value ch | None => 0 end = zsum (out_value <$> option_list (s_change t))) as Hch.
  { destruct (s_change t); cbn; lia. }
  rewrite Hch in *. apply (transaction_signature_ok u _ _ os) in Hsig as [Hown ->]; [|done].
  match goal with Hn : ¬ (_ < wadd _ _ _) |- _ => rename Hn into Hge end. unfold wadd in Hge. fold (stake_takes t) in Hge.
  pose proof (Z.mod_pos_bound (so_value (s_output t) + zsum (out_value <$> option_list (s_change t))) U64 eq_refl) as Hb.
  fold (stake_takes t) in Hb.
  assert (wsub U64 (wsub U64 (zsum (out_value <$> os)) (so_value (s_output t))) (zsum (out_value <$> option_list (s_change t)))
          = zsum (out_value <$> os) - stake_takes t) as Hfee.
  { unfold wsub. rewrite Zminus_mod_idemp_l, <-Z.sub_add_distr, <-Zminus_mod_idemp_r. fold (stake_takes t).
    apply Z.mod_small. lia. }
  rewrite Hfee in Hf. injection Hf as <-.
  split_and!; [done..|]. split_and!; [by apply prefix_app_r|lia|done|]. exists os.
  split_and!; [done|by apply authorized_owned|lia].
Qed.

(** *** Data requests *)

Context (from_slice : list Z → option Value) (from_value_u8 : Value → option Z).

Lemma dr_settled t u epoch c sv cmin limit ratio wips version inputs outputs fee sv' :
  values_nonneg u (d_inputs t) → Forall (λ o, 0 ≤ out_value o) (d_outputs t) →
  validate_dr_transaction calculate_sha256 tx_hash parse_public_key parse_signature from_slice from_value_u8 t u epoch c sv
    cmin limit ratio wips version = Ok (inputs, outputs, fee, sv') →
  inputs = d_inputs t ∧ outputs = d_outputs t
  ∧ ∃ total, checked_total_value (d_output t) = Ok total
      ∧ settled u inputs outputs total fee (tx_hash (Some (default version_default version)) (DataRequest t)) sv sv'.
Proof.
  intros Hu Ho Hk. unfold validate_dr_transaction in Hk. do 9 step_ok Hk. injection Hk as <- <- <- <-.
  unfold dr_transaction_fee in E0. rename E into Hsig, E0 into Hf. do 5 step_ok Hf. injection Hf as <-.
  apply inputs_sum_exact in E as (os & Hr & _ & Hnd & -> & Hlt); [|done].
  apply map_err_ok, outputs_sum_ok in E0 as [-> _]; [|done]. apply map_err_ok in E4.
  apply ok_or_ok in E5. unfold checked_add in E5. case_decide; [|done]. injection E5 as <-.
  apply (transaction_signature_ok u _ _ os) in Hsig as [Hown ->]; [|done].
  split_and!; [done..|]. eexists. split; [exact E4|]. split_and!; [by apply prefix_app_r|lia|done|]. exists os.
  split_and!; [done|by apply authorized_owned|lia].
Qed.

(** ** Theorems *)

(** C12. Value transfers.  A value transfer is accepted exactly when it is within the
    limit of weight, has inputs and no empty output, its inputs are distinct, exist,
    are unlocked and each is signed by its owner, and it does not spend more than its
    inputs hold; the fee is the difference and every signature is handed over for
    verification with the hash of the transaction. *)
Theorem vt_accepted_exact t u epoch c sv limit version r :
  values_nonneg u (vt_inputs t) → Forall (λ o, 0 ≤ out_value o) (vt_outputs t) →
  let hash := tx_hash (Some (default version_default version)) (ValueTransfer t) in
  let spent := zsum (out_value <$> vt_outputs t) in
  validate_vt_transaction calculate_sha256 tx_hash parse_public_key parse_signature t u epoch c sv limit version = Ok r ↔
  vt_weight t ≤ limit ∧ vt_inputs t ≠ [] ∧ Forall (λ o, out_value o ≠ 0) (vt_outputs t)
  ∧ ∃ os, resolves u (vt_inputs t) os ∧ Forall (unlocked epoch c) os ∧ NoDup (output_pointer <$> vt_inputs t)
    ∧ Forall2 owned (vt_signatures t) os ∧ spent ≤ zsum (out_value <$> os) < U64
    ∧ r = (vt_inputs t, vt_outputs t, zsum (out_value <$> os) - spent, sv ++ (to_check hash <$> vt_signatures t)).
Proof. exact (vt_ok t u epoch c sv limit version r). Qed.
End correct.
