(* ===== verification/BuiltTransfer.v ===== *)
(** * Transfers that a node builds and validates

    The transactions of [TxFactory] against the validation of [Validation]: a value
    transfer that a node builds from its own outputs, once signed with its key, is
    accepted with the fee it was built for exactly if its weight is within the limit. *)

From stdpp Require Import base tactics numbers list gmap sorting.
From Stdlib Require Import ZArith Lia.
From S2P Require Import Prelude Hashes Superblock Versioning Storage UtxoDb UtxoDbCorrect Utxo UtxoCorrect Epoch Transaction.
From S2P Require Import Float TxFactory TxFactoryCorrect Consensus Validation ValidationCorrect.
Local Open Scope Z_scope.
Local Open Scope rust_scope.

Section built.
Context `{UtxoDbLaws D}.
Context (calculate_sha256 : list Z → Hash) (tx_hash : option ProtocolVersion → Transaction → Hash).
Context (parse_public_key : PublicKey → bool) (parse_signature : list Z → bool).

Lemma fresh_get (p : UnspentOutputsPool D) m bn k :
  pool_ok p m → is_Some (view p m !! k) → utxo_diff_get (utxo_diff_new p bn) k = Some (Some (output_of p m k)).
Proof.
  intros Hp Hk. rewrite (utxo_diff_get_spec p m _ _ k (po_stored p m Hp) (diff_ok_new p m bn) (TxFactoryCorrect.view_valid p m k Hp Hk)).
  unfold output_of. destruct Hk as [v ->]. done.
Qed.

Lemma zsum_submseteq (l1 l2 : list Z) : l1 ⊆+ l2 → Forall (λ x, 0 ≤ x) l2 → zsum l1 ≤ zsum l2.
Proof.
  intros [k Hk]%submseteq_Permutation Hl. rewrite Hk, zsum_app in *. apply Forall_app in Hl as [_ Hl%zsum_nonneg]. lia.
Qed.

(** Distinct own outputs are worth less than the word. *)
Lemma own_sum_fits (n : NodeUtxos D) m ks :
  node_ok n m → NoDup ks → (∀ k, k ∈ ks → is_Some (own_utxos n !! k)) →
  zsum (out_value <$> (output_of (all_utxos n) m <$> ks)) < U64.
Proof.
  intros Hn Hnd Hown. pose proof (no_total n m Hn) as Ht. set (val := λ k, out_value (output_of (all_utxos n) m k)).
  assert (zsum (val <$> ks) ≤ zsum (val <$> (map_to_list (own_utxos n)).*1)) as Hle.
  { apply zsum_submseteq.
    - apply fmap_submseteq, NoDup_submseteq; [done|]. intros k [t Ht']%Hown. apply list_elem_of_fmap. exists (k, t).
      split; [done|]. by apply elem_of_map_to_list.
    - apply Forall_fmap, Forall_forall. intros k ([k' t] & -> & Hk%elem_of_map_to_list)%list_elem_of_fmap.
      destruct (no_own n m Hn k' (mk_is_Some _ _ Hk)) as [v Hv]. unfold val, output_of. simpl. rewrite Hv. by apply (no_values n m Hn k'). }
  rewrite <-!list_fmap_compose in *. change (compose val fst) with (λ kv : OutputPointer * Z, val kv.1) in Hle.
  unfold compose. fold val. unfold val in *. lia.
Qed.

(** C15. From the factory to the validation.  A value transfer with positive
    outputs that a node builds from outputs of its own, signed with its key for every
    input, and validated against the same unspent outputs in any epoch that starts no
    earlier than the time it was built for, is accepted exactly when its weight is
    within the limit, with the fee it was built with, and refused for its weight
    otherwise.  With a relative fee the weight is within the limit; with an absolute
    fee the factory only checks it for one input, so that it builds transfers that are
    refused. *)
Theorem built_transfer_validates (n : NodeUtxos D) m outputs fee timestamp timeout strategy limit dry n' tx ks epoch c ts bn sv version :
  node_ok n m → (∀ k, is_Some (own_utxos n !! k) → out_pkh (output_of (all_utxos n) m k) = node_pkh n) →
  Forall (λ o, 0 < out_value o) outputs → limit < U32 - 1 → (∀ a, fee = AbsoluteFee a → 0 ≤ a) →
  build_vtt n outputs fee (node_pkh n) timestamp timeout strategy limit dry = Ret n' tx →
  epoch_timestamp c epoch = Ok ts → timestamp ≤ ts.1 ≤ I64_MAX →
  owned calculate_sha256 parse_public_key parse_signature ks (MkOutput (node_pkh n) 0 0) →
  let signed := MkVT (vt_inputs tx) (vt_outputs tx) (replicate (length (vt_inputs tx)) ks) in
  ∃ f sv', fee_for fee (vt_weight tx) limit f ∧ (∀ p, fee = RelativeFee p → vt_weight tx ≤ limit)
    ∧ validate_vt_transaction calculate_sha256 tx_hash parse_public_key parse_signature signed
        (utxo_diff_new (all_utxos n) bn) epoch c sv limit version
      = if decide (vt_weight tx ≤ limit) then Ok (vt_inputs tx, vt_outputs tx, f, sv')
        else Err (TxError (ValueTransferWeightLimitExceeded (vt_weight tx) limit)).
Proof.
  intros Hn Hpk Ho Hlim Hfee Hb Hts Hle [Hown Hparse] signed.
  pose proof (built_transfer_ok n m outputs fee timestamp timeout strategy limit dry Hn) as Hok.
  rewrite Hb in Hok. destruct Hok as (f & Hf & Hnd & Hne & Hin & Hsum & Hout & _ & _); [|done|done|].
  { eapply Forall_impl; [exact Ho|]. simpl. lia. }
  set (os := output_of (all_utxos n) m <$> (output_pointer <$> vt_inputs tx)).
  assert (Forall (λ o, 0 < out_value o) (vt_outputs tx)) as Hpos.
  { destruct Hout as [->|(v & Hv & ->)]; [done|]. apply Forall_app. split; [done|]. by constructor. }
  assert (∀ i, i ∈ vt_inputs tx → is_Some (view (all_utxos n) m !! output_pointer i)) as Hview.
  { intros i Hi. apply (no_own n m Hn). apply Hin. apply list_elem_of_fmap. by exists i. }
  assert (0 ≤ zsum (out_value <$> vt_outputs tx)) as Hz.
  { apply zsum_nonneg, Forall_fmap. eapply Forall_impl; [exact Hpos|]. simpl. lia. }
  assert (0 ≤ f) as Hf0.
  { destruct fee as [a|p]; cbn [fee_for] in Hf; [rewrite Hf; by apply (Hfee a)|]. destruct Hf as (w & -> & _). apply into_absolute_bounds. }
  assert (zsum (out_value <$> os) = zsum (out_value <$> vt_outputs tx) + f) as Hval.
  { unfold os. rewrite <-list_fmap_compose. exact Hsum. }
  exists f, (sv ++ (to_check (tx_hash (Some (default version_default version)) (ValueTransfer signed)) <$> vt_signatures signed)).
  split; [done|]. split; [intros p ->; destruct Hf as (w & _ & ?); lia|]. case_decide as Hw.
  2: { unfold validate_vt_transaction. change (vt_weight signed) with (vt_weight tx). by rewrite decide_True by lia. }
  apply vt_ok.
  - apply Forall_forall. intros i Hi o. rewrite (fresh_get (all_utxos n) m bn (output_pointer i) (no_pool n m Hn) (Hview i Hi)). intros [= <-].
    destruct (Hview i Hi) as [v Hv]. unfold output_of. rewrite Hv. by apply (no_values n m Hn (output_pointer i)).
  - eapply Forall_impl; [exact Hpos|]. simpl. lia.
  - cbn [signed vt_inputs vt_outputs vt_signatures]. split_and!.
    + done.
    + intros Hnil. apply Hne. by rewrite Hnil.
    + eapply Forall_impl; [exact Hpos|]. simpl. lia.
    + exists os. split_and!; [..|by replace (zsum (out_value <$> os) - zsum (out_value <$> vt_outputs tx)) with f by lia].
      * apply Forall2_fmap_r, Forall2_fmap_r, Forall_Forall2_diag, Forall_forall. intros i Hi.
        exact (fresh_get (all_utxos n) m bn (output_pointer i) (no_pool n m Hn) (Hview i Hi)).
      * apply Forall_fmap, Forall_forall. intros k Hk. destruct (Hin k Hk) as [_ Hsp]. unfold may_spend in Hsp.
        apply andb_true_iff in Hsp as [[Hlock%bool_decide_eq_true _]%andb_true_iff _]. exists ts. split_and!; [done|simpl; lia|simpl; lia].
      * done.
      * unfold os. rewrite <-list_fmap_compose. apply Forall2_same_length_lookup_2; [by rewrite length_replicate, length_fmap|].
        intros j k o Hk Ho'. apply lookup_replicate in Hk as [-> _]. apply list_lookup_fmap_Some in Ho' as (i & -> & Hi).
        split; [|done]. rewrite Hown. symmetry. apply Hpk, Hin, list_elem_of_fmap. exists i. split; [done|].
        by apply list_elem_of_lookup_2 in Hi.
      * lia.
      * apply own_sum_fits; [done|done|]. intros k Hk. by apply Hin.
Qed.
End built.
