(* ===== verification/BlockValidationCorrect.v ===== *)
(** * Validation of blocks: correctness

    The validation of a block keeps a ledger of the unspent outputs: what the diff of
    the block stands for, its total value, the outputs that were spent and the
    signatures that cover them.  Each transaction that is accepted changes the total
    and the fees by amounts that are written out, so that the value of the outputs
    after an accepted block is known to the last coin. *)

From stdpp Require Import base tactics numbers list gmap sorting.
From Stdlib Require Import ZArith Lia.
From S2P Require Import Prelude Stake Stakes Ars Hashes Superblock Versioning Tapi Merkle Rad Float Storage UtxoDb UtxoDbCorrect.
From S2P Require Import Utxo UtxoCorrect RepEngine Eligibility Epoch RadScript Transaction DataRequest TxFactory TxFactoryCorrect.
From S2P Require Import Consensus Validation BlockValidation ValidationCorrect.
Local Open Scope Z_scope.
Local Open Scope rust_scope.

(** The inputs of a transaction. *)
Definition transaction_inputs (t : Transaction) : list Input :=
  match t with
  | ValueTransfer t => vt_inputs t
  | DataRequest t => d_inputs t
  | Commit t => c_collateral t
  | TxStake t => s_inputs t
  | _ => []
  end.

(** The value of a set of outputs. *)
Definition worth (cur : gmap OutputPointer Utxo) : Z := msum (λ v, out_value v.1) cur.

(** Outputs with values of 64 bits, inputs with pointers as the database stores
    them. *)
Definition outputs_typed (os : list ValueTransferOutput) : Prop := Forall (λ o, fits U64 (out_value o)) os.
Definition inputs_typed (inputs : list Input) : Prop := Forall (λ i, valid_pointer (output_pointer i)) inputs.

Lemma outputs_typed_nonneg os : outputs_typed os → Forall (λ o, 0 ≤ out_value o) os.
Proof. intros Ho. eapply Forall_impl; [exact Ho|]. unfold fits. lia. Qed.

Section ledger.
Context `{UtxoDbLaws D}.
Context (pinfo : ProtocolInfo) (calculate_sha256 : list Z → Hash) (tx_hash : option ProtocolVersion → Transaction → Hash).
Context (env : Environment) (header_hash : option ProtocolVersion → BlockHeader → Hash).
Context (hash_concat : Hash → Hash → Hash) (empty_hash : Hash).
Context (verify : PublicKey → list Z → list Z → bool) (parse_public_key : PublicKey → bool) (parse_signature : list Z → bool).
Context (from_slice : list Z → option Value) (from_value_u8 : Value → option Z).
Context (run_tally_panic_safe : list RevealTransaction → RADTally → f64 → nat → ActiveWips → bool →
                                option TallyMetaData * option (list Z)).
Context (tally_bytes_on_encode_error : list Z).
Context (p : UnspentOutputsPool D) (m : gmap OutputPointer Utxo) (Hp : pool_ok p m).
Implicit Types (u : UtxoDiff D) (cur : gmap OutputPointer Utxo) (todo : list Hash) (spent : list OutputPointer).
Implicit Types (sv : list SignaturesToVerify) (os : list ValueTransferOutput).

Abbreviation key_pkh := (Hashes.pkh calculate_sha256).
Abbreviation validate_transactions :=
  (validate_block_transactions pinfo env calculate_sha256 tx_hash header_hash hash_concat empty_hash verify parse_public_key
     parse_signature from_slice from_value_u8 run_tally_panic_safe tally_bytes_on_encode_error).

(** A signature over a transaction that spends the output, by its owner. *)
Definition signed sv (k : OutputPointer) (o : ValueTransferOutput) : Prop :=
  ∃ v t key sig, SecpTx key (tx_hash v t) sig ∈ sv ∧ key_pkh key = out_pkh o ∧ k ∈ output_pointer <$> transaction_inputs t.

(** No output of the pool carries the hash of a transaction. *)
Definition new_id (h : Hash) : Prop :=
  bytes_of_len 32 h ∧ ∀ k, transaction_id k = h → utxos_to_add (diff p) !! k = None ∧ m !! k = None.

(** ** The ledger

    [W] gives the value of each output, of the pool or of the block; it is
    [output_value] below. *)
Section valued.
Context (W : OutputPointer → Z).

(** The value of the inputs of a transaction. *)
Definition consumed (inputs : list Input) : Z := zsum ((λ i, W (output_pointer i)) <$> inputs).
(** [W] is right about the outputs of the transaction with hash [h]. *)
Definition pays (h : Hash) os : Prop := ∀ i o, os !! i = Some o → W (MkPointer h (Z.of_nat i)) = out_value o.

(** The diff [u] stands for the outputs [cur], the outputs [spent] were spent and the
    transactions [todo] have not created outputs yet. *)
Record ledger todo spent sv u cur : Prop := {
  lg_diff : diff_ok p m u cur;
  lg_values k v : cur !! k = Some v → fits U64 (out_value v.1);
  lg_todo : NoDup todo ∧ Forall new_id todo;
  lg_origin k : is_Some (cur !! k) ∨ k ∈ spent → transaction_id k ∉ todo;
  lg_once : NoDup spent;
  lg_gone k : k ∈ spent → cur !! k = None;
  lg_spent k : is_Some (view p m !! k) → cur !! k = None → k ∈ spent;
  lg_signed k o : k ∈ spent → view p m !! k = Some o → signed sv k o.1;
  lg_worth k v : cur !! k = Some v → W k = out_value v.1;
}.

Lemma ledger_get todo spent sv u cur k :
  ledger todo spent sv u cur → valid_pointer k → utxo_diff_get u k = Some (fst <$> cur !! k).
Proof. intros Hl. apply (utxo_diff_get_spec p m); [apply (po_stored p m Hp)|apply Hl]. Qed.

Lemma viewed_valid k : is_Some (view p m !! k) → valid_pointer k.
Proof.
  intros [_ [Hk|Hk]]%view_some; [by apply (po_valid p m Hp)|]. apply (stored_valid p m k); [apply (po_stored p m Hp)|done].
Qed.

Lemma ledger_sigs todo spent sv sv' u cur : sv `prefix_of` sv' → ledger todo spent sv u cur → ledger todo spent sv' u cur.
Proof.
  intros [ext ->] [Hd Hv Ht Ho Hn Hg Hs Hsig HW]. split; try done.
  intros k o Hk Hko. destruct (Hsig k o Hk Hko) as (v & t & key & sig & Hin & Hkt).
  exists v, t, key, sig. split; [|done]. apply elem_of_app. by left.
Qed.

Lemma ledger_remove todo spent sv u cur k v :
  ledger todo spent sv u cur → cur !! k = Some v → (∀ o, view p m !! k = Some o → signed sv k o.1) →
  ledger todo (spent ++ [k]) sv (remove_utxo u k) (delete k cur) ∧ worth (delete k cur) = worth cur - out_value v.1.
Proof.
  intros [Hd Hv Ht Ho Hn Hg Hs Hsig HW] Hk Hksig. split; [|unfold worth; rewrite (msum_delete _ cur k v Hk); lia]. split.
  - apply (diff_ok_op p m u cur (OpRemove k)); [done|by eexists].
  - intros k' v' [_ ?]%lookup_delete_Some. by apply (Hv k').
  - done.
  - intros k' [[_ ?]%lookup_delete_is_Some|[?| ->%list_elem_of_singleton]%elem_of_app]; apply Ho; [by left|by right|left; by eexists].
  - apply NoDup_app. split_and!; [done| |apply NoDup_singleton].
    intros k' Hk' ->%list_elem_of_singleton. rewrite (Hg k Hk') in Hk. done.
  - intros k' [Hk'| ->%list_elem_of_singleton]%elem_of_app; [|apply lookup_delete_eq].
    apply lookup_delete_None. right. by apply Hg.
  - intros k' Hk' Hnone. apply elem_of_app. apply lookup_delete_None in Hnone as [-> |Hnone];
      [right; by apply list_elem_of_singleton|left; by apply Hs].
  - intros k' o [Hk'| ->%list_elem_of_singleton]%elem_of_app Hko; [by apply Hsig|by apply Hksig].
  - intros k' v' [_ ?]%lookup_delete_Some. by apply HW.
Qed.

Lemma ledger_insert todo spent sv u cur k o n :
  ledger todo spent sv u cur → new_id (transaction_id k) → fits U32 (output_index k) → transaction_id k ∉ todo →
  cur !! k = None → k ∉ spent → fits U64 (out_value o) → W k = out_value o →
  ledger todo spent sv (insert_utxo u k o n) (<[k := (o, default (ublock_number u) n)]> cur)
  ∧ worth (<[k := (o, default (ublock_number u) n)]> cur) = worth cur + out_value o.
Proof.
  intros [Hd Hv Ht Ho Hn Hg Hs Hsig HW] [Hid Hnew] Hix Hu Hk Hks Hfit Hwk. destruct (Hnew k eq_refl) as [Ha Hm].
  split; [|unfold worth; rewrite msum_insert_new by done; simpl; lia].
  pose proof (new_not_viewed p m k Ha Hm) as Hview. split.
  - apply (diff_ok_op p m u cur (OpInsert k o n)); [done|]. by split_and!.
  - intros k' v' [[<- <-]|[_ ?]]%lookup_insert_Some; [done|by apply (Hv k')].
  - done.
  - intros k' Hk'. destruct (decide (k = k')) as [<-|Hne]; [done|]. rewrite lookup_insert_ne in Hk' by done. by apply Ho.
  - done.
  - intros k' Hk'. rewrite lookup_insert_ne by (by intros ->). by apply Hg.
  - intros k' Hk' Hnone. apply lookup_insert_None in Hnone as [? _]. by apply Hs.
  - done.
  - intros k' v' [[<- <-]|[_ ?]]%lookup_insert_Some; [done|by apply HW].
Qed.

(** ** One transaction *)

Lemma remove_inputs_ledger todo sv inputs os : ∀ u cur spent first who bn u' who' bn',
  ledger todo spent sv u cur →
  Forall2 (λ i o, ∃ n, cur !! output_pointer i = Some (o, n)) inputs os → NoDup (output_pointer <$> inputs) →
  Forall2 (λ i o, signed sv (output_pointer i) o) inputs os →
  remove_inputs u inputs first who bn = Some (u', who', bn') →
  ∃ cur', ledger todo (spent ++ (output_pointer <$> inputs)) sv u' cur' ∧ worth cur' = worth cur - zsum (out_value <$> os).
Proof.
  revert os. induction inputs as [|i inputs IH]; intros os u cur spent first who bn u' who' bn' Hl Hr Hnd Hsig Hk.
  { inversion Hr; subst. cbn in Hk. injection Hk as <- <- <-. exists cur. cbn [fmap list_fmap]. rewrite app_nil_r.
    split; [done|cbn; lia]. }
  inversion Hr as [|? o ? os' [n Ho] Hr']; subst. inversion Hsig as [|? ? ? ? Hs Hsig']; subst.
  rewrite (fmap_cons output_pointer) in Hnd |- *. apply NoDup_cons in Hnd as [Hi Hnd].
  destruct (ledger_remove todo spent sv u cur (output_pointer i) (o, n) Hl Ho) as [Hl1 Hw1].
  { intros o' Hview. replace o'.1 with o; [done|]. pose proof (lg_diff _ _ _ _ _ Hl) as [_ Hnew _ ->].
    rewrite changed_lookup in Ho. case_decide; [done|]. destruct (utxos_to_add (udiff u) !! output_pointer i) eqn:Ha.
    - destruct (Hnew _ (mk_is_Some _ _ Ha)) as (_ & Ha' & Hm'). by rewrite new_not_viewed in Hview.
    - rewrite Hview in Ho. by injection Ho as ->. }
  assert (∃ f1 w1 b1, remove_inputs (remove_utxo u (output_pointer i)) inputs f1 w1 b1 = Some (u', who', bn')) as (f1 & w1 & b1 & Hk').
  { cbn [remove_inputs] in Hk. destruct (negb first && _); [by eexists _, _, _|].
    destruct (utxo_diff_get _ _) as [out|]; [|done]. cbn [mbind option_bind] in Hk.
    destruct (negb first && _); [by eexists _, _, _|].
    destruct (utxo_diff_included_in_block_number _ _); [|done]. by eexists _, _, _. }
  edestruct (IH os' (remove_utxo u (output_pointer i)) (delete (output_pointer i) cur) (spent ++ [output_pointer i]) f1 w1 b1 u' who' bn') as (cur' & Hl' & Hw');
    [exact Hl1| |done|done|exact Hk'|].
  { clear -Hr' Hi. induction Hr' as [|j o inputs os [n Hj] _ IH]; constructor.
    - exists n. rewrite lookup_delete_ne; [done|]. intros Heq. apply Hi. rewrite Heq. cbn. left.
    - apply IH. intros Hin. apply Hi. cbn. by right. }
  exists cur'. rewrite <-app_assoc in Hl'. split; [done|]. rewrite Hw', Hw1, zsum_cons. cbn [fst]. lia.
Qed.

Lemma output_to_insert_value epoch c z o o' : output_to_insert pinfo epoch c z o = Some o' → out_value o' = out_value o.
Proof.
  unfold output_to_insert. intros Hk. destruct (before_v2 _); [by injection Hk as <-|].
  destruct (decide (z < 0)); [done|]. destruct (decide (out_time_lock o < z)); [|by injection Hk as <-].
  destruct (epoch_timestamp c epoch) as [[ts ?]| |]; [|done|done]. by injection Hk as <-.
Qed.

Lemma insert_outputs_ledger todo sv h who bn epoch c z outputs : ∀ u cur spent index u',
  ledger todo spent sv u cur → new_id h → h ∉ todo → 0 ≤ index → outputs_typed outputs →
  (∀ k, transaction_id k = h → index ≤ output_index k → cur !! k = None) → (∀ k, transaction_id k = h → k ∉ spent) →
  (∀ i o, outputs !! i = Some o → W (MkPointer h (index + Z.of_nat i)) = out_value o) →
  insert_outputs pinfo u h who bn epoch c z index outputs = Some u' →
  ∃ cur', ledger todo spent sv u' cur' ∧ worth cur' = worth cur + zsum (out_value <$> outputs).
Proof.
  induction outputs as [|o outputs IH]; intros u cur spent index u' Hl Hid Htodo Hix Hty Hfree Hsp Hpays Hk; cbn [insert_outputs] in Hk.
  { injection Hk as <-. exists cur. split; [done|]. cbn. lia. }
  case_decide as Hmax; [done|]. destruct (output_to_insert pinfo epoch c z o) as [o'|] eqn:Ho; [|done]. cbn [mbind option_bind] in Hk.
  apply output_to_insert_value in Ho. apply Forall_cons in Hty as [Hfo Hty].
  destruct (ledger_insert todo spent sv u cur (MkPointer h index) o' (if decide (who = Some (out_pkh o)) then Some bn else None))
    as [Hl1 Hw1]; [done|done|split; simpl; lia|done|by apply Hfree|by apply Hsp|by rewrite Ho| |].
  { rewrite Ho, <-(Hpays 0%nat o eq_refl). f_equal. f_equal. lia. }
  edestruct (IH _ _ spent (index + 1) u' Hl1 Hid Htodo) as (cur' & Hl' & Hw'); [lia|done| |done| |exact Hk|].
  - intros k Hk1 Hk2. rewrite lookup_insert_ne; [apply Hfree; [done|lia]|]. intros <-. simpl in Hk2. lia.
  - intros i o1 Hi. rewrite <-(Hpays (S i) o1 Hi). f_equal. f_equal. lia.
  - exists cur'. split; [done|]. rewrite Hw', Hw1, zsum_cons, Ho. lia.
Qed.

Lemma ledger_begin h todo spent sv u cur :
  ledger (h :: todo) spent sv u cur →
  ledger todo spent sv u cur ∧ new_id h ∧ h ∉ todo ∧ ∀ k, transaction_id k = h → cur !! k = None ∧ k ∉ spent.
Proof.
  intros [Hd Hv [[Hh Ht]%NoDup_cons [Hid Hids]%Forall_cons] Ho Hn Hg Hs Hsig HW]. split_and!; [|done|done|].
  - split; try done. intros k Hk. specialize (Ho k Hk). set_solver.
  - intros k Hk. split; [apply eq_None_not_Some|]; intros ?; (eapply (Ho k); [by (left + right)|]); rewrite Hk; left.
Qed.

(** The inputs as the ledger holds them. *)
Lemma resolved todo spent sv u cur inputs os :
  ledger todo spent sv u cur → inputs_typed inputs → resolves u inputs os →
  Forall2 (λ i o, ∃ n, cur !! output_pointer i = Some (o, n)) inputs os ∧ zsum (out_value <$> os) = consumed inputs.
Proof.
  intros Hl Hin Hr. induction Hr as [|i o inputs os Ho _ IH]; [done|]. apply Forall_cons in Hin as [Hv Hin].
  destruct (IH Hin) as [IH1 IH2]. rewrite (ledger_get _ _ _ _ _ _ Hl Hv) in Ho.
  destruct (cur !! output_pointer i) as [[o1 n]|] eqn:Hc; [|done]. cbn in Ho. injection Ho as ->.
  split; [constructor; [by eexists|done]|]. unfold consumed in *. rewrite !zsum_cons, IH2.
  by rewrite (lg_worth _ _ _ _ _ Hl _ _ Hc).
Qed.

(** The change of the ledger by a transaction. *)
Lemma update_ledger h todo spent sv u cur inputs outputs os epoch c z u' :
  ledger (h :: todo) spent sv u cur → inputs_typed inputs → outputs_typed outputs → pays h outputs →
  resolves u inputs os → NoDup (output_pointer <$> inputs) → Forall2 (λ i o, signed sv (output_pointer i) o) inputs os →
  update_utxo_diff pinfo u inputs outputs h epoch c z = Some u' →
  ∃ cur', ledger todo (spent ++ (output_pointer <$> inputs)) sv u' cur'
    ∧ worth cur' = worth cur - consumed inputs + zsum (out_value <$> outputs).
Proof.
  intros Hl Hin Hout Hpays Hr Hnd Hsig Hk. unfold update_utxo_diff in Hk.
  destruct (remove_inputs u inputs true None 0) as [[[u1 who] bn]|] eqn:Hrem; [|done]. cbn [mbind option_bind] in Hk.
  destruct (resolved _ _ _ _ _ _ _ Hl Hin Hr) as [Hr' Hcons].
  destruct (remove_inputs_ledger (h :: todo) sv inputs os u cur spent true None 0 u1 who bn Hl Hr' Hnd Hsig Hrem)
    as (cur1 & Hl1 & Hw1). apply ledger_begin in Hl1 as (Hl1 & Hid & Hh & Hfree).
  destruct (insert_outputs_ledger todo sv h who bn epoch c z outputs u1 cur1 (spent ++ (output_pointer <$> inputs)) 0 u')
    as (cur' & Hl' & Hw'); [done|done|done|done|done| | |exact Hpays|exact Hk|].
  - intros k Hkh _. by apply Hfree.
  - intros k Hkh. by apply Hfree.
  - exists cur'. split; [done|]. rewrite Hw', Hw1. lia.
Qed.

(** ** The steps of a block *)

Implicit Types (s : Progress (D:=D)) (x : BlockContext).

(** The outputs so far are worth [T] and the fees so far are [F], which the code
    keeps as a machine word. *)
Definition balanced (T F : Z) todo spent s : Prop :=
  ∃ cur, ledger todo spent (p_sigs s) (p_utxo s) cur ∧ worth cur = T ∧ p_fee s = F mod U64.

Lemma ledger_values todo spent sv u cur inputs :
  ledger todo spent sv u cur → inputs_typed inputs → values_nonneg u inputs.
Proof.
  intros Hl Hin. eapply Forall_impl; [exact Hin|]. intros i Hi o Ho. rewrite (ledger_get _ _ _ _ _ _ Hl Hi) in Ho.
  destruct (cur !! output_pointer i) as [v|] eqn:Hv; [|done]. cbn in Ho. injection Ho as <-.
  apply (lg_values _ _ _ _ _ Hl) in Hv. unfold fits in Hv. lia.
Qed.

(** A settled transaction: what its inputs hold beyond its outputs leaves the
    outputs, the fee and what else is paid is added to the fees. *)
Lemma advance_balanced x s t inputs outputs locked fee paid v sv' visits s' todo spent T F :
  balanced T F (tx_hash (Some (b_version x)) t :: todo) spent s → pays (tx_hash (Some (b_version x)) t) outputs →
  inputs_typed inputs → outputs_typed outputs → transaction_inputs t = inputs →
  settled calculate_sha256 (p_utxo s) inputs outputs locked fee (tx_hash v t) (p_sigs s) sv' →
  advance pinfo tx_hash x s inputs outputs t (fee + paid) sv' visits = Ok s' →
  consumed inputs = zsum (out_value <$> outputs) + locked + fee ∧ 0 ≤ fee
  ∧ balanced (T - (locked + fee)) (F + (fee + paid)) todo (spent ++ (output_pointer <$> inputs)) s'.
Proof.
  intros (cur & Hl & HT & Hfee) Hpays Hin Hout Hti (Hpre & Hfp & Hnd & os & Hr & Hauth & Hsum) Hk.
  destruct (resolved _ _ _ _ _ _ _ Hl Hin Hr) as [_ Hcons]. rewrite Hcons in Hsum.
  split_and!; [done|done|]. unfold advance in Hk. step_ok Hk. injection Hk as <-. apply unwrap_ok in E.
  apply (ledger_sigs _ _ _ _ _ _ Hpre) in Hl.
  edestruct (update_ledger (tx_hash (Some (b_version x)) t) todo spent sv' (p_utxo s) cur inputs outputs os) as (cur' & Hl' & Hw');
    [done|done|done|done|done|done| |exact E|].
  - pose proof Hr as Hr'. apply Forall2_same_length_lookup_2; [by eapply Forall2_length|]. intros i j o Hi Ho.
    unfold authorized in Hauth. rewrite Forall_forall in Hauth. destruct (Hauth o) as (key & sig & Hsig & Hkey); [by apply list_elem_of_lookup_2 in Ho|].
    exists v, t, key, sig. split_and!; [done|done|]. rewrite Hti. apply list_elem_of_fmap. exists j. split; [done|].
    by apply list_elem_of_lookup_2 in Hi.
  - exists cur'. cbn [p_sigs p_utxo p_fee]. split_and!; [done|lia|].
    rewrite Hfee. unfold wadd. by rewrite Zplus_mod_idemp_l.
Qed.

(** Outputs that appear without inputs. *)
Lemma advance_outputs x s t outputs fee visits s' todo spent T F :
  balanced T F (tx_hash (Some (b_version x)) t :: todo) spent s → pays (tx_hash (Some (b_version x)) t) outputs →
  outputs_typed outputs → advance pinfo tx_hash x s [] outputs t fee (p_sigs s) visits = Ok s' →
  balanced (T + zsum (out_value <$> outputs)) (F + fee) todo spent s'.
Proof.
  intros (cur & Hl & HT & Hfee) Hpays Hout Hk. unfold advance in Hk. step_ok Hk. injection Hk as <-. apply unwrap_ok in E.
  edestruct (update_ledger (tx_hash (Some (b_version x)) t) todo spent (p_sigs s) (p_utxo s) cur [] outputs []) as (cur' & Hl' & Hw');
    [done|constructor|done|done|constructor|constructor|constructor|exact E|].
  exists cur'. cbn [p_sigs p_utxo p_fee fmap list_fmap] in *. rewrite app_nil_r in Hl'. split_and!; [done|unfold consumed in Hw'; cbn in Hw'; lia|].
  rewrite Hfee. unfold wadd. by rewrite Zplus_mod_idemp_l.
Qed.

(** A loop: [todo] starts with the hashes of its transactions, each of which takes
    [cost] from the outputs and adds [fee] to the fees, and passes the checks [good]. *)
Lemma each_balanced {S A} (body : S → A → result Failure S) (progress : S → Progress) (wrap : A → Transaction) v
    (cost fee : A → Z) (ok good : A → Prop) :
  (∀ (y : S) a y' T F todo spent, ok a → body y a = Ok y' →
     balanced T F (tx_hash (Some v) (wrap a) :: todo) spent (progress y) →
     good a ∧ balanced (T - cost a) (F + fee a) todo (spent ++ (output_pointer <$> transaction_inputs (wrap a))) (progress y')) →
  ∀ l (y y' : S) T F todo spent, Forall ok l → each body l y = Ok y' →
  balanced T F (((λ a, tx_hash (Some v) (wrap a)) <$> l) ++ todo) spent (progress y) →
  Forall good l
  ∧ balanced (T - zsum (cost <$> l)) (F + zsum (fee <$> l)) todo
      (spent ++ (l ≫= λ a, output_pointer <$> transaction_inputs (wrap a))) (progress y').
Proof.
  intros Hstep l. induction l as [|a l IH]; intros y y' T F todo spent Hok Hk Hb; cbn [each] in Hk.
  { injection Hk as <-. split; [constructor|]. cbn. by rewrite Z.sub_0_r, Z.add_0_r, app_nil_r. }
  apply Forall_cons in Hok as [Ha Hok]. step_ok Hk. cbn [fmap list_fmap app] in Hb.
  destruct (Hstep y a a0 T F _ spent Ha E Hb) as (Hg & Hb1).
  destruct (IH a0 y' _ _ todo _ Hok Hk Hb1) as (Hgs & Hb2). split; [by constructor|].
  rewrite !zsum_cons, Z.sub_add_distr, Z.add_assoc. cbn [mbind list_bind]. by rewrite (assoc (++)).
Qed.

Lemma balanced_values T F todo spent s inputs : balanced T F todo spent s → inputs_typed inputs → values_nonneg (p_utxo s) inputs.
Proof. intros (cur & Hl & _) Hin. by eapply ledger_values. Qed.

(** *** Value transfers, commits and data requests *)

Definition vt_typed (t : VTTransaction) : Prop := inputs_typed (vt_inputs t) ∧ outputs_typed (vt_outputs t).
Definition dr_typed (t : DRTransaction) : Prop := inputs_typed (d_inputs t) ∧ outputs_typed (d_outputs t).
Definition commit_typed (t : CommitTransaction) : Prop := inputs_typed (c_collateral t) ∧ outputs_typed (c_outputs t).

(** The fee that a request of the pool pays for a commit or a reveal. *)
Definition request_fee (q : DataRequestPool) (h : Hash) : Z :=
  match data_request_pool q !! h with Some st => commit_and_reveal_fee (request st) | None => 0 end.

(** A value transfer leaves its fee; a commit the collateral that it locks; a data
    request the value of the request and its fee. *)
Definition vt_fee (t : VTTransaction) : Z := consumed (vt_inputs t) - zsum (out_value <$> vt_outputs t).
Definition locked (t : CommitTransaction) : Z := consumed (c_collateral t) - zsum (out_value <$> c_outputs t).
Definition request_value (t : DRTransaction) : Z := match checked_total_value (d_output t) with Ok total => total | _ => 0 end.
Definition dr_fee (t : DRTransaction) : Z := consumed (d_inputs t) - zsum (out_value <$> d_outputs t) - request_value t.

(** What the validation checks of them. *)
Definition vt_good (t : VTTransaction) : Prop := 0 ≤ vt_fee t.
Definition commit_good (cmin : Z) (q : DataRequestPool) (t : CommitTransaction) : Prop :=
  ∃ st, data_request_pool q !! c_dr_pointer t = Some st ∧ stage st = COMMIT
    ∧ commit_locks (request_version pinfo q (c_dr_pointer t)) (effective_collateral (request st) cmin) (locked t).
Definition reveal_good (q : DataRequestPool) (t : RevealTransaction) : Prop :=
  ∃ st, data_request_pool q !! r_dr_pointer t = Some st ∧ stage st = REVEAL.
Definition dr_good (t : DRTransaction) : Prop := checked_total_value (d_output t) = Ok (request_value t) ∧ 0 ≤ dr_fee t.

Abbreviation vt_step' x := (vt_step pinfo calculate_sha256 tx_hash parse_public_key parse_signature x).
Abbreviation commit_step' x := (commit_step pinfo env calculate_sha256 tx_hash parse_public_key parse_signature x).
Abbreviation reveal_step' := (reveal_step calculate_sha256 tx_hash parse_public_key parse_signature).
Abbreviation dr_step' x := (dr_step pinfo calculate_sha256 tx_hash parse_public_key parse_signature from_slice from_value_u8 x).
Abbreviation stake_step' x := (stake_step pinfo calculate_sha256 tx_hash parse_public_key parse_signature x).
Abbreviation unstake_step' x := (unstake_step pinfo env calculate_sha256 tx_hash verify parse_public_key parse_signature x).

Lemma vt_step_balanced x limit y t y' T F todo spent :
  b_genesis x = false → vt_typed t ∧ pays (tx_hash (Some (b_version x)) (ValueTransfer t)) (vt_outputs t) →
  vt_step' x limit y t = Ok y' →
  balanced T F (tx_hash (Some (b_version x)) (ValueTransfer t) :: todo) spent y.1.1 →
  vt_good t
  ∧ balanced (T - vt_fee t) (F + vt_fee t) todo (spent ++ (output_pointer <$> transaction_inputs (ValueTransfer t))) y'.1.1.
Proof.
  intros Hg [[Hin Hout] Hpays] Hk Hb. destruct y as [[s avail] acc]. cbn [fst] in *. unfold vt_step in Hk. rewrite Hg in Hk.
  step_ok Hk. step_ok E. destruct a0 as [[[inputs outputs] fee] sv']. injection E as <-. step_ok Hk. step_ok Hk. injection Hk as <-.
  apply vt_settled in E0 as (-> & -> & Hset); [|exact (balanced_values _ _ _ _ _ _ Hb Hin)|by apply outputs_typed_nonneg].
  rewrite <-(Z.add_0_r fee) in E. eapply advance_balanced in E as (Hc & Hf & Hb'); [|exact Hb|done|done|done|done|exact Hset].
  unfold vt_good, vt_fee. rewrite Hc. replace (_ + 0 + fee - _) with fee by lia. split; [done|].
  by rewrite Z.add_0_r, Z.add_0_l in Hb'.
Qed.

Lemma commit_step_balanced x dr_pool vrf rep y t y' T F todo spent :
  commit_typed t ∧ pays (tx_hash (Some (b_version x)) (Commit t)) (c_outputs t) → commit_step' x dr_pool vrf rep y t = Ok y' →
  balanced T F (tx_hash (Some (b_version x)) (Commit t) :: todo) spent y.1.1 →
  commit_good (collateral_minimum (b_consensus x)) dr_pool t
  ∧ balanced (T - locked t) (F + request_fee dr_pool (c_dr_pointer t)) todo
      (spent ++ (output_pointer <$> transaction_inputs (Commit t))) y'.1.1.
Proof.
  intros [[Hin Hout] Hpays] Hk Hb. destruct y as [[s hs] ns]. cbn [fst] in *. unfold commit_step in Hk.
  step_ok Hk. destruct a as [[[ptr ws] fee] sv']. step_ok Hk. step_ok Hk. injection Hk as <-.
  apply commit_settled in E as (st & lk & -> & Hst & Hstage & -> & -> & Hlock & Hset); [|by apply outputs_typed_nonneg].
  rewrite <-(Z.add_0_l (commit_and_reveal_fee _)) in E0.
  eapply advance_balanced in E0 as (Hc & _ & Hb'); [|exact Hb|done|done|done|done|exact Hset].
  assert (locked t = lk) as Hlk by (unfold locked; lia). split; [by exists st; rewrite Hlk|].
  cbn [fst]. unfold request_fee. rewrite Hst, Hlk. by rewrite Z.add_0_r, Z.add_0_l in Hb'.
Qed.

Lemma reveals_balanced dr_pool l : ∀ y y' T F todo spent,
  each (reveal_step' dr_pool) l y = Ok y' → balanced T F todo spent y.1 →
  Forall (reveal_good dr_pool) l
  ∧ balanced T (F + zsum ((λ t, request_fee dr_pool (r_dr_pointer t)) <$> l)) todo spent y'.1.
Proof.
  induction l as [|t l IH]; intros y y' T F todo spent Hk Hb; cbn [each] in Hk.
  { injection Hk as <-. split; [constructor|]. cbn. by rewrite Z.add_0_r. }
  step_ok Hk. destruct y as [s hs]. unfold reveal_step in E. step_ok E. step_ok E. injection E as <-. destruct a0 as [fee sv'].
  apply reveal_ok in E0 as (st & Hst & Hstage & -> & _ & _ & Hpre). cbn [fst snd] in *.
  edestruct (IH _ y' T (F + commit_and_reveal_fee (request st)) todo spent Hk) as (Hgs & Hb').
  - destruct Hb as (cur & Hl & HT & Hpf). exists cur. cbn [fst p_sigs p_utxo p_fee].
    split_and!; [by eapply ledger_sigs|done|]. rewrite Hpf. unfold wadd. by rewrite Zplus_mod_idemp_l.
  - split; [constructor; [by exists st|done]|]. rewrite zsum_cons. unfold request_fee at 1. by rewrite Hst, Z.add_assoc.
Qed.

Lemma dr_step_balanced x many y t y' T F todo spent :
  dr_typed t ∧ pays (tx_hash (Some (b_version x)) (DataRequest t)) (d_outputs t) → dr_step' x many y t = Ok y' →
  balanced T F (tx_hash (Some (b_version x)) (DataRequest t) :: todo) spent y.1 →
  dr_good t
  ∧ balanced (T - (request_value t + dr_fee t)) (F + dr_fee t) todo
      (spent ++ (output_pointer <$> transaction_inputs (DataRequest t))) y'.1.
Proof.
  intros [[Hin Hout] Hpays] Hk Hb. destruct y as [s acc]. cbn [fst] in *. unfold dr_step in Hk.
  step_ok Hk. destruct a as [[[inputs outputs] fee] sv']. step_ok Hk. step_ok Hk. injection Hk as <-.
  apply dr_settled in E as (-> & -> & total & Htot & Hset); [|exact (balanced_values _ _ _ _ _ _ Hb Hin)|by apply outputs_typed_nonneg].
  rewrite <-(Z.add_0_r fee) in E0. eapply advance_balanced in E0 as (Hc & Hf & Hb'); [|exact Hb|done|done|done|done|exact Hset].
  unfold dr_good, dr_fee. assert (request_value t = total) as Hval by (unfold request_value; by rewrite Htot).
  rewrite Hval, Hc. replace (_ + total + fee - _ - _) with fee by lia. split; [done|]. by rewrite Z.add_0_r in Hb'.
Qed.

(** *** Stakes and unstakes *)

Definition stake_typed (t : StakeTransaction) : Prop :=
  inputs_typed (s_inputs t) ∧ outputs_typed (option_list (s_change t)).
Definition unstake_typed (t : UnstakeTransaction) : Prop := fits U64 (unstake_value t).

(** A stake leaves its value and its fee, unless the sum of its value and its change
    wraps: its change then counts in full and what the inputs pay does not. *)
Definition stake_fee (t : StakeTransaction) : Z := consumed (s_inputs t) - stake_takes t.
Definition staked (t : StakeTransaction) : Z := stake_takes t - zsum (out_value <$> option_list (s_change t)).
Definition stake_good (t : StakeTransaction) : Prop := 0 ≤ stake_fee t.

Lemma stake_step_balanced x y t y' T F todo spent :
  stake_typed t ∧ pays (tx_hash (Some (b_version x)) (TxStake t)) (option_list (s_change t)) → stake_step' x y t = Ok y' →
  balanced T F (tx_hash (Some (b_version x)) (TxStake t) :: todo) spent y.1 →
  stake_good t
  ∧ balanced (T - (staked t + stake_fee t)) (F + stake_fee t) todo
      (spent ++ (output_pointer <$> transaction_inputs (TxStake t))) y'.1.
Proof.
  intros [(Hin & Hout) Hpays] Hk Hb. destruct y as [s acc]. cbn [fst] in *. unfold stake_step in Hk.
  step_ok Hk. destruct a as [[[[[inputs output] fee] w] change] sv']. step_ok Hk. step_ok Hk. injection Hk as <-.
  apply stake_settled in E as (-> & -> & Hset); [|exact (balanced_values _ _ _ _ _ _ Hb Hin)].
  rewrite <-(Z.add_0_r fee) in E0. eapply advance_balanced in E0 as (Hc & Hf & Hb'); [|exact Hb|done|done|done|done|exact Hset].
  assert (stake_fee t = fee) as Hfee by (unfold stake_fee; lia).
  unfold stake_good, staked. rewrite Hfee. split; [done|]. by rewrite Z.add_0_r in Hb'.
Qed.

Lemma unstake_ok t epoch stakes min_stake delay fee w outputs :
  validate_unstake_transaction pinfo calculate_sha256 tx_hash verify parse_public_key parse_signature t epoch stakes min_stake delay
  = Ok (fee, w, outputs) → fee = u_fee t ∧ outputs = [u_withdrawal t].
Proof.
  intros Hk. unfold validate_unstake_transaction in Hk. do 9 step_ok Hk. injection Hk as <- <- <-.
  unfold ut_transaction_fee in E4. step_ok E4. by injection E4 as <-.
Qed.

Lemma unstake_step_balanced x y t y' T F todo spent :
  unstake_typed t ∧ pays (tx_hash (Some (b_version x)) (TxUnstake t)) [u_withdrawal t] → unstake_step' x y t = Ok y' →
  balanced T F (tx_hash (Some (b_version x)) (TxUnstake t) :: todo) spent y.1 →
  True ∧ balanced (T - - unstake_value t) (F + u_fee t) todo (spent ++ (output_pointer <$> transaction_inputs (TxUnstake t))) y'.1.
Proof.
  intros [Hv Hpays] Hk Hb. destruct y as [s acc]. cbn [fst] in *. unfold unstake_step in Hk.
  step_ok Hk. destruct a as [[fee w] outputs]. step_ok Hk. step_ok Hk. injection Hk as <-. apply unstake_ok in E as [-> ->].
  split; [done|]. cbn [fst transaction_inputs fmap list_fmap]. rewrite app_nil_r.
  replace (T - _) with (T + zsum (out_value <$> [u_withdrawal t])) by (cbn; unfold unstake_value; lia).
  eapply advance_outputs; [exact Hb|done|by constructor|exact E0].
Qed.

(** *** Tallies *)

(** The fee of a tally: what is left when the slashed collateral of the liars is
    shared between the honest witnesses, the collateral and the witnesses being those
    of the request in the pool [q]. *)
Definition tally_fee (wips : ActiveWips) (cmin : Z) (q : DataRequestPool) (t : TallyTransaction) : Z :=
  match data_request_pool q !! t_dr_pointer t with
  | None => 0
  | Some st =>
      let commits_count := Z.of_nat (size (commits (info st))) in
      let honests := (commits_count - Z.of_nat (length (t_out_of_consensus t))) mod U64 in
      let liars := Z.of_nat (length (filter (λ w, w ∉ t_error_committers t) (t_out_of_consensus t))) in
      let slashed := (effective_collateral (request st) cmin * liars) mod U64 in
      if decide (commits_count = 0) then 0
      else if wips_0009_0011_0012 wips then
        if decide (honests = 0) then 0 else if wip0023 wips then 0 else slashed mod honests
      else if decide (size (reveals (info st)) = 0%nat) then 0 else slashed mod honests
  end.

(** The counts of the liars and of the errors of a tally. *)
Lemma liars_and_errors t lc ec :
  calculate_liars_and_errors_count_from_tally t = (lc, ec) →
  lc = Z.of_nat (length (filter (λ w, w ∉ t_error_committers t) (t_out_of_consensus t)))
  ∧ lc + ec = Z.of_nat (length (t_out_of_consensus t)).
Proof.
  unfold calculate_liars_and_errors_count_from_tally. generalize (t_out_of_consensus t). intros l.
  revert lc ec. induction l as [|w l IH] using rev_ind; intros lc ec; [by intros [= <- <-]|].
  rewrite foldl_app, filter_app, !length_app. cbn [foldl]. destruct (foldl _ _ l) as [lc1 ec1].
  destruct (IH lc1 ec1 eq_refl) as [H1 H2]. cbn [fst snd].
  destruct (decide (w ∈ t_error_committers t)) as [Hw|Hw]; intros [= <- <-].
  - rewrite filter_cons_False by (intros Hn; by apply Hn). rewrite filter_nil. cbn [length]. lia.
  - rewrite filter_cons_True by done. rewrite filter_nil. cbn [length]. lia.
Qed.

Lemma extra_fee_exact wips st t cmin lc ec r :
  calculate_liars_and_errors_count_from_tally t = (lc, ec) →
  (if wips_0009_0011_0012 wips
   then Some (calculate_witness_reward (Z.of_nat (size (commits (info st)))) lc ec (witness_reward (request st))
                (effective_collateral (request st) cmin) (wip0023 wips))
   else calculate_witness_reward_before_second_hard_fork (Z.of_nat (size (commits (info st)))) (Z.of_nat (size (reveals (info st))))
          lc ec (witness_reward (request st)) (effective_collateral (request st) cmin)) = Some r →
  ∀ q, data_request_pool q !! t_dr_pointer t = Some st → r.2 = tally_fee wips cmin q t.
Proof.
  intros [-> Hsum]%liars_and_errors Hr q Hst. unfold tally_fee. rewrite Hst.
  set (cc := Z.of_nat (size (commits (info st)))) in *. set (liars := Z.of_nat (length (filter _ _))) in *.
  assert (wsub U64 (wsub U64 cc liars) ec = (cc - Z.of_nat (length (t_out_of_consensus t))) mod U64) as Hh.
  { unfold wsub. rewrite Zminus_mod_idemp_l. f_equal. lia. }
  destruct (wips_0009_0011_0012 wips).
  - injection Hr as <-. unfold calculate_witness_reward. rewrite Hh. unfold wmul.
    destruct (decide (cc = 0)); [done|]. case_decide; [done|]. by destruct (wip0023 wips).
  - unfold calculate_witness_reward_before_second_hard_fork in Hr. rewrite Hh in Hr. unfold wmul in Hr.
    destruct (decide (cc = 0)); [by injection Hr as <-|].
    destruct (decide (Z.of_nat (size (reveals (info st))) = 0)) as [Hz|Hz].
    + injection Hr as <-. by rewrite decide_True by lia.
    + rewrite decide_False by lia. case_decide; [done|]. by injection Hr as <-.
Qed.

Abbreviation validate_tally := (validate_tally_transaction pinfo calculate_sha256 run_tally_panic_safe tally_bytes_on_encode_error).

Lemma tally_ok t dr_pool cc wips many vc version outputs fee :
  validate_tally t dr_pool cc wips many vc version = Ok (outputs, fee) →
  outputs = t_outputs t ∧ fee = tally_fee wips (collateral_minimum cc) dr_pool t.
Proof.
  intros Hk. unfold validate_tally_transaction in Hk. do 3 step_ok Hk. destruct a1 as [expected st]. do 4 step_ok Hk.
  destruct (calculate_liars_and_errors_count_from_tally t) as [lc ec] eqn:Hle. step_ok Hk. apply unwrap_ok in E2.
  assert (data_request_pool dr_pool !! t_dr_pointer t = Some st) as Hst.
  { unfold create_expected_tally_transaction in E1. do 3 step_ok E1. destruct (run_tally_panic_safe _ _ _ _ _ _).
    step_ok E1. injection E1 as _ <-. by apply ok_or_ok in E3. }
  eapply extra_fee_exact in E2; [|done|exact Hst].
  destruct a1 as [reward extra]. do 2 step_ok Hk. by injection Hk as <- <-.
Qed.

(** Two pools with the same requests, commits and reveals, whatever their stages. *)
Definition same_info (q q' : DataRequestPool) : Prop :=
  let content st := (request st, commits (info st), reveals (info st)) in
  ∀ h, content <$> data_request_pool q !! h = content <$> data_request_pool q' !! h.

Lemma tally_fee_same wips cmin q q' t : same_info q q' → tally_fee wips cmin q t = tally_fee wips cmin q' t.
Proof.
  intros Hs. specialize (Hs (t_dr_pointer t)). unfold tally_fee.
  destruct (data_request_pool q !! t_dr_pointer t), (data_request_pool q' !! t_dr_pointer t); simplify_eq/=; [|done].
  repeat match goal with He : _ = _ |- _ => rewrite He end. done.
Qed.

Lemma reset_same reset h q : same_info q (reset_data_request_stage reset h q).
Proof.
  unfold reset_data_request_stage. case_decide; [|done]. destruct (data_request_pool q !! h) as [st|] eqn:Hst; [|done].
  intros h'. cbn [with_requests data_request_pool]. rewrite lookup_insert. destruct (decide (h = h')) as [<-|]; [by rewrite Hst|done].
Qed.

Abbreviation tallies x := (tally_loop pinfo calculate_sha256 tx_hash run_tally_panic_safe tally_bytes_on_encode_error x).

Lemma tallies_balanced x reset many l : ∀ dr_pool s hs expected dr_pool' s' rest T F todo spent,
  Forall (λ t, outputs_typed (t_outputs t) ∧ pays (tx_hash (Some (b_version x)) (Tally t)) (t_outputs t)) l →
  tallies x reset many l dr_pool s hs expected = Ret dr_pool' (s', rest) →
  balanced T F (((λ t, tx_hash (Some (b_version x)) (Tally t)) <$> l) ++ todo) spent s →
  same_info dr_pool dr_pool'
  ∧ balanced (T + zsum ((λ t, zsum (out_value <$> t_outputs t)) <$> l))
      (F + zsum (tally_fee (b_wips x) (collateral_minimum (b_consensus x)) dr_pool' <$> l)) todo spent s'.
Proof.
  induction l as [|t l IH]; intros dr_pool s hs expected dr_pool' s' rest T F todo spent Hty Hk Hb; cbn [tally_loop] in Hk.
  { injection Hk as <- <- _. split; [done|]. cbn. by rewrite !Z.add_0_r. }
  apply Forall_cons in Hty as [[Ht Hpays] Hty]. destruct (validate_tally _ _ _ _ _ _ _) as [[outputs fee]| |] eqn:Hv; [|done|done].
  apply tally_ok in Hv as [-> ->]. case_decide; [done|]. case_decide; [done|].
  destruct (advance _ _ _ _ _ _ _ _ _ _) as [s1| |] eqn:Hadv; cbn [lift_exec ebind] in Hk; [|done|done].
  cbn [fmap list_fmap app] in Hb. apply (advance_outputs _ _ _ _ _ _ _ _ _ _ _ Hb Hpays Ht) in Hadv.
  destruct (IH _ _ _ _ _ _ _ _ _ todo spent Hty Hk Hadv) as (Hs & Hb').
  assert (same_info dr_pool dr_pool') as Hs'.
  { intros h. rewrite (reset_same reset (t_dr_pointer t) dr_pool h). apply Hs. }
  split; [done|]. rewrite !zsum_cons, !Z.add_assoc. by rewrite (tally_fee_same _ _ dr_pool dr_pool' t Hs') in Hb'.
Qed.

(** *** The end of a block *)

(** Before version 2.0 the mint pays the fees and the reward, as a machine word;
    since then it pays nothing. *)
Definition mint_pays (v : ProtocolVersion) epoch (cc : ConsensusConstants) (F minted : Z) : Prop :=
  if decide (v = V2_0) then minted = 0
  else ∃ reward, block_reward epoch (initial_block_reward cc) (halving_period cc) = Some reward ∧ minted = (F + reward) mod U64.

Lemma mint_balanced x t s s' T F spent :
  b_genesis x = false → b_version x = get_protocol_version pinfo (Some (b_epoch x)) → outputs_typed (m_outputs t) →
  pays (tx_hash (Some (b_version x)) (Mint t)) (m_outputs t) →
  validate_mint pinfo tx_hash x t s = Ok s' → balanced T F [tx_hash (Some (b_version x)) (Mint t)] spent s →
  mint_pays (b_version x) (b_epoch x) (b_consensus x) F (zsum (out_value <$> m_outputs t))
  ∧ balanced (T + zsum (out_value <$> m_outputs t)) (F + 0) [] spent s'.
Proof.
  intros Hg Hv Hty Hpays Hk Hb. unfold validate_mint in Hk. rewrite Hg in Hk. step_ok Hk.
  split; [|by eapply advance_outputs]. destruct Hb as (cur & _ & _ & Hfee).
  unfold validate_mint_transaction in E. step_ok E. apply dec_stable in n. unfold mint_pays. rewrite Hv.
  destruct (decide (get_protocol_version pinfo (Some (b_epoch x)) = V2_0)) as [Hv2|Hv2].
  - rewrite decide_False in E by auto. step_ok E. by rewrite e.
  - rewrite decide_True in E by congruence. do 2 step_ok E. apply unwrap_ok in E1. rewrite n in E1.
    exists a1. split; [done|]. step_ok E. apply map_err_ok, outputs_sum_ok in E0 as [-> _]; [|by apply outputs_typed_nonneg].
    apply dec_stable in n0. rewrite n0, Hfee. unfold wadd. by rewrite Zplus_mod_idemp_l.
Qed.

Lemma stakes_balanced x l s s' T F todo spent :
  Forall (λ t, stake_typed t ∧ pays (tx_hash (Some (b_version x)) (TxStake t)) (option_list (s_change t))) l →
  (version_lt (b_version x) V1_8 = true → l = []) →
  validate_stakes pinfo calculate_sha256 tx_hash parse_public_key parse_signature x l s = Ok s' →
  balanced T F (((λ t, tx_hash (Some (b_version x)) (TxStake t)) <$> l) ++ todo) spent s →
  Forall stake_good l
  ∧ balanced (T - zsum ((λ t, staked t + stake_fee t) <$> l)) (F + zsum (stake_fee <$> l)) todo
      (spent ++ (l ≫= λ t, output_pointer <$> s_inputs t)) s'.
Proof.
  intros Hty Hv Hk Hb. unfold validate_stakes in Hk. destruct (version_lt _ _).
  { rewrite (Hv eq_refl) in *. injection Hk as <-. split; [constructor|]. cbn in *. by rewrite Z.sub_0_r, Z.add_0_r, app_nil_r. }
  step_ok Hk. step_ok Hk. injection Hk as <-.
  eapply (each_balanced (stake_step' x) fst TxStake (b_version x) (λ t, staked t + stake_fee t) stake_fee _ stake_good) in E0 as [Hg Hb'];
    [| |exact Hty|exact Hb]; [|intros ???????; apply stake_step_balanced].
  by split.
Qed.

Lemma unstakes_balanced x l s s' T F todo spent :
  Forall (λ t, unstake_typed t ∧ pays (tx_hash (Some (b_version x)) (TxUnstake t)) [u_withdrawal t]) l →
  (before_v2 (b_version x) = true → l = []) →
  validate_unstakes pinfo env calculate_sha256 tx_hash verify parse_public_key parse_signature x l s = Ok s' →
  balanced T F (((λ t, tx_hash (Some (b_version x)) (TxUnstake t)) <$> l) ++ todo) spent s →
  balanced (T + zsum (unstake_value <$> l)) (F + zsum (u_fee <$> l)) todo spent s'.
Proof.
  intros Hty Hv Hk Hb. unfold validate_unstakes in Hk. destruct (before_v2 _).
  { rewrite (Hv eq_refl) in *. injection Hk as <-. cbn in *. by rewrite !Z.add_0_r. }
  step_ok Hk. step_ok Hk. injection Hk as <-.
  eapply (each_balanced (unstake_step' x) fst TxUnstake (b_version x) (λ t, - unstake_value t) u_fee _ (λ _, True)) in E0 as [_ Hb'];
    [| |exact Hty|exact Hb]; [|intros ???????; apply unstake_step_balanced].
  assert (l ≫= (λ t, output_pointer <$> transaction_inputs (TxUnstake t)) = []) as Hnil.
  { clear. induction l as [|t l IH]; [done|]. cbn. exact IH. }
  rewrite Hnil, app_nil_r in Hb'.
  replace (T + zsum (unstake_value <$> l)) with (T - zsum ((λ t, - unstake_value t) <$> l)); [done|].
  clear. induction l as [|t l IH]; [cbn; lia|]. rewrite !zsum_cons in *. lia.
Qed.

(** ** The block *)

Record block_typed (t : BlockTransactions) : Prop := {
  bt_vt : Forall vt_typed (value_transfer_txns t);
  bt_dr : Forall dr_typed (data_request_txns t);
  bt_commit : Forall commit_typed (commit_txns t);
  bt_tally : Forall (λ t, outputs_typed (t_outputs t)) (tally_txns t);
  bt_stake : Forall stake_typed (stake_txns t);
  bt_unstake : Forall unstake_typed (unstake_txns t);
  bt_mint : outputs_typed (m_outputs (mint t));
}.

(** The transactions that create outputs and these outputs, in the order of the
    validation, and all the inputs of the block. *)
Definition block_created (v : ProtocolVersion) (t : BlockTransactions) : list (Hash * list ValueTransferOutput) :=
  let created {A} (wrap : A → Transaction) (outputs : A → list ValueTransferOutput) (l : list A) :=
    (λ t, (tx_hash (Some v) (wrap t), outputs t)) <$> l in
  created ValueTransfer vt_outputs (value_transfer_txns t) ++ created Commit c_outputs (commit_txns t)
  ++ created DataRequest d_outputs (data_request_txns t) ++ created Tally t_outputs (tally_txns t)
  ++ created TxStake (λ t, option_list (s_change t)) (stake_txns t) ++ created TxUnstake (λ t, [u_withdrawal t]) (unstake_txns t)
  ++ created Mint m_outputs [mint t].
Definition block_ids (v : ProtocolVersion) (t : BlockTransactions) : list Hash :=
  let ids {A} (wrap : A → Transaction) (l : list A) := (λ t, tx_hash (Some v) (wrap t)) <$> l in
  ids ValueTransfer (value_transfer_txns t) ++ ids Commit (commit_txns t) ++ ids DataRequest (data_request_txns t)
  ++ ids Tally (tally_txns t) ++ ids TxStake (stake_txns t) ++ ids TxUnstake (unstake_txns t) ++ [tx_hash (Some v) (Mint (mint t))].
Definition block_inputs (t : BlockTransactions) : list OutputPointer :=
  (value_transfer_txns t ≫= λ t, output_pointer <$> vt_inputs t) ++ (commit_txns t ≫= λ t, output_pointer <$> c_collateral t)
  ++ (data_request_txns t ≫= λ t, output_pointer <$> d_inputs t) ++ (stake_txns t ≫= λ t, output_pointer <$> s_inputs t).

(** The loops see transactions with typed fields, about whose outputs [W] is right. *)
Definition block_pays (v : ProtocolVersion) (t : BlockTransactions) : Prop :=
  Forall (λ ho, pays ho.1 ho.2) (block_created v t).

Lemma pays_each v t :
  block_typed t → block_pays v t →
  Forall (λ t, vt_typed t ∧ pays (tx_hash (Some v) (ValueTransfer t)) (vt_outputs t)) (value_transfer_txns t)
  ∧ Forall (λ t, commit_typed t ∧ pays (tx_hash (Some v) (Commit t)) (c_outputs t)) (commit_txns t)
  ∧ Forall (λ t, dr_typed t ∧ pays (tx_hash (Some v) (DataRequest t)) (d_outputs t)) (data_request_txns t)
  ∧ Forall (λ t, outputs_typed (t_outputs t) ∧ pays (tx_hash (Some v) (Tally t)) (t_outputs t)) (tally_txns t)
  ∧ Forall (λ t, stake_typed t ∧ pays (tx_hash (Some v) (TxStake t)) (option_list (s_change t))) (stake_txns t)
  ∧ Forall (λ t, unstake_typed t ∧ pays (tx_hash (Some v) (TxUnstake t)) [u_withdrawal t]) (unstake_txns t)
  ∧ pays (tx_hash (Some v) (Mint (mint t))) (m_outputs (mint t)).
Proof.
  intros Ht. unfold block_pays, block_created. rewrite !Forall_app, !Forall_fmap. unfold compose. cbn [fst snd].
  intros (? & ? & ? & ? & ? & ? & Hm). rewrite !Forall_and. split_and!; try apply Ht; try done. by inversion Hm.
Qed.

Lemma ledger_start ids sv n :
  (∀ k v, view p m !! k = Some v → fits U64 (out_value v.1)) → (∀ k v, view p m !! k = Some v → W k = out_value v.1) →
  NoDup ids → Forall new_id ids →
  ledger ids [] sv (utxo_diff_new p n) (view p m).
Proof.
  intros Hv HW Hnd Hids. split; [apply diff_ok_new|done|done| |constructor|set_solver|by intros k [? ->]|set_solver|done].
  intros k [[v Hk]|Hk] Hin; [|set_solver]. rewrite Forall_forall in Hids.
  destruct (Hids _ Hin) as [_ Hnew]. destruct (Hnew k eq_refl) as [Ha Hm]. by rewrite (new_not_viewed p m k Ha Hm) in Hk.
Qed.

Lemma until_requests_balanced x t dr_pool vrf rep limit s s' T F todo :
  b_genesis x = false → block_typed t → block_pays (b_version x) t →
  validate_until_requests pinfo env calculate_sha256 tx_hash parse_public_key parse_signature from_slice from_value_u8 x t dr_pool
    vrf rep limit s = Ok s' →
  balanced T F (((λ t, tx_hash (Some (b_version x)) (ValueTransfer t)) <$> value_transfer_txns t)
                ++ ((λ t, tx_hash (Some (b_version x)) (Commit t)) <$> commit_txns t)
                ++ ((λ t, tx_hash (Some (b_version x)) (DataRequest t)) <$> data_request_txns t) ++ todo) [] s →
  Forall vt_good (value_transfer_txns t)
  ∧ Forall (commit_good (collateral_minimum (b_consensus x)) dr_pool) (commit_txns t)
  ∧ Forall (reveal_good dr_pool) (reveal_txns t) ∧ Forall dr_good (data_request_txns t)
  ∧ balanced (T - zsum (vt_fee <$> value_transfer_txns t) - zsum (locked <$> commit_txns t)
                - zsum ((λ t, request_value t + dr_fee t) <$> data_request_txns t))
      (F + zsum (vt_fee <$> value_transfer_txns t) + zsum ((λ t, request_fee dr_pool (c_dr_pointer t)) <$> commit_txns t)
         + zsum ((λ t, request_fee dr_pool (r_dr_pointer t)) <$> reveal_txns t) + zsum (dr_fee <$> data_request_txns t)) todo
      ((value_transfer_txns t ≫= λ t, output_pointer <$> vt_inputs t)
       ++ (commit_txns t ≫= λ t, output_pointer <$> c_collateral t)
       ++ (data_request_txns t ≫= λ t, output_pointer <$> d_inputs t)) s'.
Proof.
  intros Hg Ht (Hp1 & Hp2 & Hp3 & _)%pays_each Hk Hb; [|done]. unfold validate_until_requests in Hk. step_ok Hk.
  eapply (each_balanced (vt_step' x limit) (λ y, y.1.1) ValueTransfer (b_version x) vt_fee vt_fee _ vt_good) in E
    as [Hvt Hb1]; [| |exact Hp1|exact Hb]; [|intros ???????; by apply vt_step_balanced]. step_ok Hk.
  eapply (each_balanced (commit_step' x dr_pool vrf rep) (λ y, y.1.1) Commit (b_version x) locked
            (λ t, request_fee dr_pool (c_dr_pointer t)) _ (commit_good (collateral_minimum (b_consensus x)) dr_pool)) in E
    as [Hcs Hb2]; [| |exact Hp2|exact Hb1]; [|intros ???????; apply commit_step_balanced].
  destruct a0 as [[s1 hs] ns]. step_ok Hk. step_ok Hk.
  eapply reveals_balanced in E0 as [Hrs Hb3]; [|exact Hb2].
  destruct (unsolved_requests _ _ _ _) as [w many]. step_ok Hk. injection Hk as <-.
  eapply (each_balanced (dr_step' x many) fst DataRequest (b_version x) (λ t, request_value t + dr_fee t) dr_fee _ dr_good) in E0
    as [Hds Hb4]; [| |exact Hp3|exact Hb3]; [|intros ???????; apply dr_step_balanced].
  split_and!; [done..|]. cbn [transaction_inputs] in Hb4. by rewrite <-!app_assoc in Hb4.
Qed.

(** What an accepted block passes: no transaction spends more than its inputs hold,
    commits lock the collateral of their request or, for requests of version 2.0,
    possibly nothing, and commits and reveals belong to requests in the right stage. *)
Record block_good (cmin : Z) (q : DataRequestPool) (t : BlockTransactions) : Prop := {
  bg_transfers : Forall vt_good (value_transfer_txns t);
  bg_commits : Forall (commit_good cmin q) (commit_txns t);
  bg_reveals : Forall (reveal_good q) (reveal_txns t);
  bg_requests : Forall dr_good (data_request_txns t);
  bg_stakes : Forall stake_good (stake_txns t);
}.

(** What a block adds to the value of the outputs: what its tallies, unstakes and mint
    pay, without what its transactions leave. *)
Definition block_change (t : BlockTransactions) : Z :=
  zsum ((λ t, zsum (out_value <$> t_outputs t)) <$> tally_txns t) + zsum (unstake_value <$> unstake_txns t)
  + zsum (out_value <$> m_outputs (mint t))
  - zsum (vt_fee <$> value_transfer_txns t) - zsum (locked <$> commit_txns t)
  - zsum ((λ t, request_value t + dr_fee t) <$> data_request_txns t)
  - zsum ((λ t, staked t + stake_fee t) <$> stake_txns t).
(** The fees of a block, with the pools of requests before and after its validation. *)
Definition block_fees (wips : ActiveWips) (cmin : Z) (q q' : DataRequestPool) (t : BlockTransactions) : Z :=
  zsum (vt_fee <$> value_transfer_txns t) + zsum ((λ t, request_fee q (c_dr_pointer t)) <$> commit_txns t)
  + zsum ((λ t, request_fee q (r_dr_pointer t)) <$> reveal_txns t) + zsum (dr_fee <$> data_request_txns t)
  + zsum (tally_fee wips cmin q' <$> tally_txns t) + zsum (stake_fee <$> stake_txns t) + zsum (u_fee <$> unstake_txns t).

Lemma after_tallies_balanced x b s s' T F spent :
  b_genesis x = false → b_version x = get_protocol_version pinfo (Some (b_epoch x)) → block_typed (txns b) →
  block_pays (b_version x) (txns b) →
  (b_version x = V1_7 → stake_txns (txns b) = []) → (version_le (b_version x) V1_8 = true → unstake_txns (txns b) = []) →
  validate_after_tallies pinfo env calculate_sha256 tx_hash hash_concat empty_hash verify parse_public_key parse_signature x b s
  = Ok s' →
  balanced T F (((λ t, tx_hash (Some (b_version x)) (TxStake t)) <$> stake_txns (txns b))
                ++ ((λ t, tx_hash (Some (b_version x)) (TxUnstake t)) <$> unstake_txns (txns b))
                ++ [tx_hash (Some (b_version x)) (Mint (mint (txns b)))]) spent s →
  let F' := F + zsum (stake_fee <$> stake_txns (txns b)) + zsum (u_fee <$> unstake_txns (txns b)) in
  Forall stake_good (stake_txns (txns b))
  ∧ mint_pays (b_version x) (b_epoch x) (b_consensus x) F' (zsum (out_value <$> m_outputs (mint (txns b))))
  ∧ balanced (T - zsum ((λ t, staked t + stake_fee t) <$> stake_txns (txns b)) + zsum (unstake_value <$> unstake_txns (txns b))
                + zsum (out_value <$> m_outputs (mint (txns b)))) (F' + 0) []
      (spent ++ (stake_txns (txns b) ≫= λ t, output_pointer <$> s_inputs t)) s'.
Proof.
  intros Hg Hv Ht (_ & _ & _ & _ & Hp1 & Hp2 & Hp3)%pays_each Hst Hut Hk Hb F'; [|done]. unfold validate_after_tallies in Hk.
  do 4 step_ok Hk. injection Hk as <-.
  eapply stakes_balanced in E as [Hs Hb1]; [|exact Hp1| |exact Hb];
    [|intros Hlt; apply Hst; by destruct (b_version x)].
  eapply unstakes_balanced in E0; [|exact Hp2| |exact Hb1];
    [|intros Hlt; apply Hut; by destruct (b_version x)].
  split; [done|]. by eapply mint_balanced; [..|exact E0]; [| |apply Ht|..].
Qed.

(** The hypotheses on the block and the pool: values and pointers of machine width,
    and new hashes of transactions. *)
Record block_fresh (b : Block) (cc : ConsensusConstants) : Prop := {
  bf_values k v : view p m !! k = Some v → fits U64 (out_value v.1);
  bf_typed : block_typed (txns b);
  bf_distinct : NoDup (block_ids (get_protocol_version pinfo (Some (checkpoint (beacon (block_header b))))) (txns b));
  bf_new : Forall new_id (block_ids (get_protocol_version pinfo (Some (checkpoint (beacon (block_header b))))) (txns b));
  bf_genesis : is_genesis header_hash b (genesis_hash cc) = false;
}.

Lemma block_settles dr_pool b vrf sv rep c n cc wips stakes dr_pool' d sv' visits :
  let epoch := checkpoint (beacon (block_header b)) in
  let v := get_protocol_version pinfo (Some epoch) in
  block_fresh b cc → (∀ k o, view p m !! k = Some o → W k = out_value o.1) → block_pays v (txns b) →
  validate_transactions p dr_pool b vrf sv rep c n cc wips stakes = Ret dr_pool' (d, sv', visits) →
  let F := block_fees wips (collateral_minimum cc) dr_pool dr_pool' (txns b) in
  ∃ s, d = take_diff (p_utxo s) ∧ sv' = p_sigs s ∧ block_good (collateral_minimum cc) dr_pool (txns b)
    ∧ mint_pays v epoch cc F (zsum (out_value <$> m_outputs (mint (txns b))))
    ∧ balanced (worth (view p m) + block_change (txns b)) F [] (block_inputs (txns b)) s.
Proof.
  intros epoch v [Hval Hty Hnd Hnew Hgen] HW Hpays Hk F. unfold validate_block_transactions in Hk.
  destruct (total_block_reward _ _) as [total|]; [|done]. cbn [unwrap lift_exec ebind] in Hk.
  destruct (decide (_ ∧ stake_txns (txns b) ≠ [])) as [|Hst]; [done|].
  destruct (decide (_ ∧ unstake_txns (txns b) ≠ [])) as [|Hut]; [done|].
  match type of Hk with context [validate_until_requests _ _ _ _ _ _ _ _ ?bx _ _ _ _ _ ?bs] => set (x := bx) in *; set (s0 := bs) in * end.
  destruct (validate_until_requests _ _ _ _ _ _ _ _ _ _ _ _ _ _ _) as [s1| |] eqn:Huntil; [|done|done]. cbn [lift_exec ebind] in Hk.
  destruct (add_unsolvable _ _ _ _ _ _ _ _ _) as [dr1 [reset many]| |] eqn:Hadd; [|done|done]. cbn [ebind fst snd] in Hk.
  destruct (tally_loop _ _ _ _ _ _ _ _ _ _ _ _ _) as [dr2 [s2 rest]| |] eqn:Htally; [|done|done]. cbn [ebind fst snd] in Hk.
  case_decide; [done|]. destruct (validate_after_tallies _ _ _ _ _ _ _ _ _ _ _ _) as [s3| |] eqn:Hafter; [|done|done].
  cbn [lift_exec ebind] in Hk. injection Hk as <- <- <- _.
  assert (balanced (worth (view p m)) 0 (block_ids (b_version x) (txns b)) [] s0) as Hb.
  { exists (view p m). split_and!; [by apply ledger_start|done|done]. }
  apply until_requests_balanced with (T := worth (view p m)) (F := 0) (todo := ((λ t, tx_hash (Some (b_version x)) (Tally t)) <$> tally_txns (txns b))
    ++ ((λ t, tx_hash (Some (b_version x)) (TxStake t)) <$> stake_txns (txns b))
    ++ ((λ t, tx_hash (Some (b_version x)) (TxUnstake t)) <$> unstake_txns (txns b))
    ++ [tx_hash (Some (b_version x)) (Mint (mint (txns b)))]) in Huntil as (Hvt & Hcs & Hrs & Hds & Hb1); [|done..].
  pose proof (pays_each _ _ Hty Hpays) as (_ & _ & _ & Hpt & _).
  eapply tallies_balanced in Htally as [_ Hb2]; [|exact Hpt|exact Hb1].
  eapply after_tallies_balanced in Hafter as (Hss & Hmint & Hb3); [|done|done|done|done| | |exact Hb2].
  - exists s3. rewrite Z.add_0_l in Hmint, Hb3. rewrite Z.add_0_r in Hb3. split_and!; [done|done|by split|exact Hmint|].
    unfold block_inputs. rewrite <-!app_assoc in Hb3.
    replace (worth (view p m) + block_change (txns b)) with
      (worth (view p m) - zsum (vt_fee <$> value_transfer_txns (txns b)) - zsum (locked <$> commit_txns (txns b))
         - zsum ((λ t, request_value t + dr_fee t) <$> data_request_txns (txns b))
         + zsum ((λ t, zsum (out_value <$> t_outputs t)) <$> tally_txns (txns b))
         - zsum ((λ t, staked t + stake_fee t) <$> stake_txns (txns b)) + zsum (unstake_value <$> unstake_txns (txns b))
         + zsum (out_value <$> m_outputs (mint (txns b)))) by (unfold block_change; lia). exact Hb3.
  - intros Hv. destruct (decide (stake_txns (txns b) = [])); [done|]. by destruct Hst.
  - intros Hv. destruct (decide (unstake_txns (txns b) = [])); [done|]. by destruct Hut.
Qed.

(** ** The genesis block *)

Lemma genesis_vt_ok t outputs value :
  outputs_typed (vt_outputs t) → validate_genesis_vt_transaction tx_hash t = Ok (outputs, value) →
  outputs = vt_outputs t ∧ value = zsum (out_value <$> vt_outputs t).
Proof.
  intros Hty Hk. unfold validate_genesis_vt_transaction in Hk. do 5 step_ok Hk. injection Hk as <- <-.
  apply outputs_sum_ok in E0 as [-> _]; [done|by apply outputs_typed_nonneg].
Qed.

Lemma genesis_step x limit y t y' todo spent cur :
  b_genesis x = true → outputs_typed (vt_outputs t) → pays (tx_hash (Some (b_version x)) (ValueTransfer t)) (vt_outputs t) →
  vt_step' x limit y t = Ok y' →
  ledger (tx_hash (Some (b_version x)) (ValueTransfer t) :: todo) spent (p_sigs y.1.1) (p_utxo y.1.1) cur → 0 ≤ y.1.2 →
  ∃ cur', ledger todo spent (p_sigs y'.1.1) (p_utxo y'.1.1) cur' ∧ worth cur' + y'.1.2 = worth cur + y.1.2 ∧ 0 ≤ y'.1.2.
Proof.
  intros Hg Hty Hpays Hk Hl Hav. destruct y as [[s avail] acc]. cbn [fst snd] in *. unfold vt_step in Hk. rewrite Hg in Hk.
  step_ok Hk. step_ok E. step_ok E. injection E as <-. destruct a0 as [outputs value]. apply map_err_ok, genesis_vt_ok in E0 as [-> ->]; [|done].
  cbn [fst snd] in *. step_ok Hk. step_ok Hk. injection Hk as <-. cbn [fst snd]. unfold advance in E. step_ok E. injection E as <-.
  apply unwrap_ok in E0. cbn [p_sigs p_utxo].
  edestruct (update_ledger (tx_hash (Some (b_version x)) (ValueTransfer t)) todo spent (p_sigs s) (p_utxo s) cur [] (vt_outputs t) [])
    as (cur' & Hl' & Hw'); [done|constructor|done|done|constructor|constructor|constructor|exact E0|].
  exists cur'. cbn [fmap list_fmap] in Hl'. rewrite app_nil_r in Hl'. unfold consumed in Hw'. split_and!; [done|cbn in Hw'; lia|lia].
Qed.

Lemma genesis_steps x limit l : ∀ y y' todo spent cur,
  b_genesis x = true →
  Forall (λ t, outputs_typed (vt_outputs t) ∧ pays (tx_hash (Some (b_version x)) (ValueTransfer t)) (vt_outputs t)) l → each (vt_step' x limit) l y = Ok y' →
  ledger (((λ t, tx_hash (Some (b_version x)) (ValueTransfer t)) <$> l) ++ todo) spent (p_sigs y.1.1) (p_utxo y.1.1) cur → 0 ≤ y.1.2 →
  ∃ cur', ledger todo spent (p_sigs y'.1.1) (p_utxo y'.1.1) cur' ∧ worth cur' + y'.1.2 = worth cur + y.1.2 ∧ 0 ≤ y'.1.2.
Proof.
  induction l as [|t l IH]; intros y y' todo spent cur Hg Hty Hk Hl Hav; cbn [each] in Hk.
  { injection Hk as <-. by exists cur. }
  apply Forall_cons in Hty as [[Ht Hpt] Hty]. step_ok Hk. cbn [fmap list_fmap app] in Hl.
  destruct (genesis_step x limit y t a _ spent cur Hg Ht Hpt E Hl Hav) as (cur1 & Hl1 & Hw1 & Hav1).
  destruct (IH a y' todo spent cur1 Hg Hty Hk Hl1 Hav1) as (cur2 & Hl2 & Hw2 & Hav2). exists cur2. split_and!; [done|lia|done].
Qed.

Lemma genesis_only_transfers b h :
  validate_genesis_block tx_hash header_hash hash_concat empty_hash b h = Ok tt →
  txns b = MkTxns mint_default (value_transfer_txns (txns b)) [] [] [] [] [] [] ∧ header_hash None (block_header b) = h.
Proof.
  unfold validate_genesis_block. intros Hk. step_ok Hk. step_ok Hk. step_ok Hk. apply unwrap_ok in E. apply dec_stable in n.
  split; [|done]. unfold genesis in E.
  repeat (apply bind_Some in E as (? & _ & E)). injection E as <-. exact (eq_sym (f_equal txns e)).
Qed.

End valued.

(** ** The value of an output

    An output that a block spends is in the pool or was created earlier in the block;
    its value is the one that it has there. *)
Definition output_value (v : ProtocolVersion) (t : BlockTransactions) (k : OutputPointer) : Z :=
  match view p m !! k with
  | Some o => out_value o.1
  | None =>
      match (list_to_map (block_created v t) : gmap Hash (list ValueTransferOutput)) !! transaction_id k with
      | Some os => default 0 (out_value <$> os !! Z.to_nat (output_index k))
      | None => 0
      end
  end.

Lemma block_created_ids v t : (block_created v t).*1 = block_ids v t.
Proof. unfold block_created, block_ids. rewrite !fmap_app, <-!list_fmap_compose. done. Qed.

Lemma output_value_held v t k o : view p m !! k = Some o → output_value v t k = out_value o.1.
Proof. unfold output_value. by intros ->. Qed.

Lemma output_value_created v t :
  NoDup (block_ids v t) → Forall new_id (block_ids v t) → block_pays (output_value v t) v t.
Proof.
  rewrite <-block_created_ids. intros Hnd Hnew. apply Forall_forall. intros [h os] Hin i o Ho. cbn [fst snd] in *.
  rewrite Forall_forall in Hnew. destruct (Hnew h) as [_ Hn]; [apply list_elem_of_fmap; by exists (h, os)|].
  destruct (Hn (MkPointer h (Z.of_nat i)) eq_refl) as [Ha Hm]. unfold output_value.
  rewrite (new_not_viewed p m _ Ha Hm). cbn [transaction_id output_index].
  rewrite (elem_of_list_to_map_1 _ _ _ Hnd Hin), Nat2Z.id, Ho. done.
Qed.

(** ** Signatures *)

Context (verify_block_proof : list Z * PublicKey → CheckpointVRF → option Hash).
Context (verify_v1 : DataRequestEligibilityClaim → CheckpointVRF → Hash → option Hash).
Context (verify_v2 : DataRequestEligibilityClaim → CheckpointVRF → Hash → option PublicKeyHash → option Hash).
Abbreviation verify_all :=
  (verify_signatures pinfo calculate_sha256 verify parse_public_key parse_signature verify_block_proof verify_v1 verify_v2).

Lemma verified_secp sv hs key data sig : verify_all sv = Ok hs → SecpTx key data sig ∈ sv → verify key data sig = true.
Proof.
  revert hs. induction sv as [|s sv IH]; intros hs Hk Hin; [by apply elem_of_nil in Hin|]. cbn [verify_signatures] in Hk.
  do 2 step_ok Hk. apply elem_of_cons in Hin as [<-|Hin]; [|by eapply IH].
  cbn [verify_signature] in E. destruct (verify key data sig); [done|]. by case_decide.
Qed.

(** The ledger at the end of an accepted block. *)
Lemma block_ledger dr_pool b vrf sv rep c n cc wips stakes dr_pool' d sv' visits :
  block_fresh b cc →
  validate_transactions p dr_pool b vrf sv rep c n cc wips stakes = Ret dr_pool' (d, sv', visits) →
  ∃ W u cur, d = take_diff u ∧ ledger W [] (block_inputs (txns b)) sv' u cur.
Proof.
  intros Hf Hk. set (v := get_protocol_version pinfo (Some (checkpoint (beacon (block_header b))))).
  destruct (block_settles (output_value v (txns b)) dr_pool b vrf sv rep c n cc wips stakes dr_pool' d sv' visits Hf)
    as (s & -> & -> & _ & _ & cur & Hl & _); [by intros; apply output_value_held|apply output_value_created; apply Hf|exact Hk|].
  by eexists _, (p_utxo s), cur.
Qed.

(** ** Theorems *)

(** C1. The coins of a block.  An accepted block that is not the genesis applies to
    the pool of unspent outputs, whose value changes by exactly what [block_change]
    says: tallies, unstakes and the mint add what they pay, value transfers take their
    fees, commits the collateral that they lock, data requests their value and fee, and
    stakes what the code takes for them with their fee.  No fee of a transfer, request
    or stake is negative.  Before version 2.0 the mint pays the fees of the block and
    the reward of its epoch modulo [2^64], and since then nothing; the fees are those
    of the transactions, the commits, the reveals and the unstakes and the remainders
    of the tallies.  A stake takes its value unless its value and its change exceed
    [2^64], where [stake_takes] loses [2^64] coins. *)
Theorem block_value_accounted dr_pool b vrf sv rep c n cc wips stakes dr_pool' d sv' visits :
  block_fresh b cc →
  validate_transactions p dr_pool b vrf sv rep c n cc wips stakes = Ret dr_pool' (d, sv', visits) →
  let epoch := checkpoint (beacon (block_header b)) in
  let v := get_protocol_version pinfo (Some epoch) in
  let W := output_value v (txns b) in
  let fees := block_fees W wips (collateral_minimum cc) dr_pool dr_pool' (txns b) in
  let minted := zsum (out_value <$> m_outputs (mint (txns b))) in
  (∃ p', diff_apply d p = Some p' ∧ pool_ok p' m
     ∧ worth (view p' m) = worth (view p m) + block_change W (txns b))
  ∧ block_good W (collateral_minimum cc) dr_pool (txns b)
  ∧ (if decide (v = V2_0) then minted = 0
     else ∃ reward, block_reward epoch (initial_block_reward cc) (halving_period cc) = Some reward
            ∧ minted = (fees + reward) mod U64).
Proof.
  intros Hf Hk epoch v W fees minted.
  destruct (block_settles W dr_pool b vrf sv rep c n cc wips stakes dr_pool' d sv' visits Hf)
    as (s & -> & -> & Hgood & Hmint & cur & Hl & Hw & _);
    [by intros; apply output_value_held|apply output_value_created; apply Hf|exact Hk|].
  split_and!; [|done|exact Hmint].
  destruct (diff_apply_spec p m (p_utxo s) cur Hp (lg_diff _ _ _ _ _ _ Hl)) as (p' & Ha & Hp' & Hv & _).
  exists p'. by rewrite Hv.
Qed.

(** C2. Spending.  In an accepted block no output is spent twice; and once the
    signatures that the validation hands over verify, every output that the block
    takes from the pool existed there and was spent by a signature that its owner made
    over a transaction with that input. *)
Theorem block_spends_authorized dr_pool b vrf sv rep c n cc wips stakes dr_pool' d sv' visits hs :
  block_fresh b cc →
  validate_transactions p dr_pool b vrf sv rep c n cc wips stakes = Ret dr_pool' (d, sv', visits) → verify_all sv' = Ok hs →
  NoDup (block_inputs (txns b))
  ∧ ∀ k, k ∈ utxos_to_remove d → k ∈ block_inputs (txns b)
    ∧ ∃ o v t key sig, view p m !! k = Some o ∧ k ∈ output_pointer <$> transaction_inputs t
        ∧ key_pkh key = out_pkh o.1 ∧ verify key (tx_hash v t) sig = true.
Proof.
  intros Hf Hk Hver. destruct (block_ledger _ _ _ _ _ _ _ _ _ _ _ _ _ _ Hf Hk) as (W & u & cur & -> & Hl).
  split; [apply (lg_once _ _ _ _ _ _ Hl)|]. intros k Hkr. pose proof (lg_diff _ _ _ _ _ _ Hl) as [_ _ Hspent Hcur].
  destruct (Hspent k Hkr) as [o Ho].
  assert (k ∈ block_inputs (txns b)) as Hin.
  { apply (lg_spent _ _ _ _ _ _ Hl); [by eexists|]. rewrite Hcur, changed_lookup. by rewrite decide_True. }
  split; [done|]. destruct (lg_signed _ _ _ _ _ _ Hl k o Hin Ho) as (v & t & key & sig & Hsig & Hkey & Hkt).
  exists o, v, t, key, sig. split_and!; [done..|]. by eapply verified_secp.
Qed.

(** The genesis block.  The genesis block that a node accepts creates at most what
    the schedule of block rewards leaves of 64 bits: the initial outputs and all block
    rewards together fit in a machine word. *)
Theorem genesis_supply_bounded dr_pool b vrf sv rep c n cc wips stakes dr_pool' d sv' visits total :
  (∀ k v, view p m !! k = Some v → fits U64 (out_value v.1)) → block_typed (txns b) →
  NoDup (block_ids (get_protocol_version pinfo (Some (checkpoint (beacon (block_header b))))) (txns b)) →
  Forall new_id (block_ids (get_protocol_version pinfo (Some (checkpoint (beacon (block_header b))))) (txns b)) →
  validate_genesis_block tx_hash header_hash hash_concat empty_hash b (genesis_hash cc) = Ok tt →
  total_block_reward (initial_block_reward cc) (halving_period cc) = Some total → total < U64 →
  validate_transactions p dr_pool b vrf sv rep c n cc wips stakes = Ret dr_pool' (d, sv', visits) →
  ∃ p', diff_apply d p = Some p' ∧ pool_ok p' m ∧ worth (view p' m) + total ≤ worth (view p m) + U64 - 1.
Proof.
  intros Hval Hty Hnd Hnew Hgen Htot Hlt Hk. apply genesis_only_transfers in Hgen as [Ht Hh].
  unfold validate_block_transactions in Hk. rewrite Htot in Hk. cbn [unwrap lift_exec ebind] in Hk.
  assert (is_genesis header_hash b (genesis_hash cc) = true) as Hg by (by apply bool_decide_eq_true).
  case_decide; [done|]. case_decide; [done|]. unfold validate_until_requests in Hk.
  match type of Hk with context [each (vt_step _ _ _ _ _ ?bx _) _ (?bs, _, _)] => set (x := bx) in *; set (s0 := bs) in * end.
  rewrite Ht in Hk. cbn [value_transfer_txns commit_txns reveal_txns data_request_txns tally_txns] in Hk.
  destruct (each _ (value_transfer_txns _) _) as [y| |] eqn:Hvt; [|done|done]. cbn [rbind] in Hk.
  cbn [each rbind] in Hk. destruct (check_commits_number ∅) as [[]| |]; [|done|done]. cbn [rbind] in Hk.
  destruct (unsolved_requests _ _ _ _) as [w many]. cbn [lift_exec ebind fst snd add_unsolvable tally_loop] in Hk.
  case_decide; [done|]. destruct (validate_after_tallies _ _ _ _ _ _ _ _ _ _ _ _) as [s1| |] eqn:Ha; [|done|done].
  cbn [lift_exec ebind] in Hk. injection Hk as _ <- <- _.
  assert (s1 = y.1.1) as ->.
  { unfold validate_after_tallies, validate_stakes, validate_unstakes, validate_mint in Ha. rewrite Ht in Ha.
    cbn [stake_txns unstake_txns mint fmap list_fmap first_duplicate each rbind fst] in Ha. change (b_genesis x) with (is_genesis header_hash b (genesis_hash cc)) in Ha.
    rewrite Hg in Ha. destruct (version_lt _ _), (before_v2 _); cbn [rbind fst] in Ha; by step_ok Ha; injection Ha as <-. }
  eapply (genesis_steps (output_value (b_version x) (txns b)) x _ _ _ _ (block_ids (b_version x) (MkTxns (mint (txns b)) [] (data_request_txns (txns b)) (commit_txns (txns b))
            (reveal_txns (txns b)) (tally_txns (txns b)) (stake_txns (txns b)) (unstake_txns (txns b)))) [] (view p m)) in Hvt
    as (cur & Hl & Hw & Hav).
  - destruct (diff_apply_spec p m (p_utxo y.1.1) cur Hp (lg_diff _ _ _ _ _ _ Hl)) as (p' & Happ & Hp' & Hv & _).
    exists p'. rewrite Hv. split_and!; [done..|]. cbn [fst snd] in Hw. lia.
  - done.
  - pose proof (pays_each _ _ _ Hty (output_value_created _ _ Hnd Hnew)) as [Hpt _].
    eapply Forall_impl; [exact Hpt|]. by intros t [[_ ?] ?].
  - apply ledger_start; [done|by intros; apply output_value_held|done|done].
  - cbn [fst snd]. lia.
Qed.
End ledger.
