(* ===== verification/BlockRequests.v ===== *)
(** * Blocks, data requests and headers

    What the validation of a block does to the pool of data requests, which it changes
    in place, which tallies an accepted block contains, and how its header commits to
    its transactions. *)

From stdpp Require Import base tactics numbers list gmap sorting.
From Stdlib Require Import ZArith Lia.
From S2P Require Import Prelude Stake Stakes Ars Hashes Superblock Versioning Tapi Merkle Rad Float Storage UtxoDb Utxo RepEngine.
From S2P Require Import Eligibility Epoch RadScript Transaction DataRequest TxFactory Consensus Validation BlockValidation.
Local Open Scope Z_scope.
Local Open Scope rust_scope.

Section requests.
Context `{UtxoDb D}.
Context (pinfo : ProtocolInfo) (env : Environment) (calculate_sha256 : list Z → Hash).
Context (tx_hash : option ProtocolVersion → Transaction → Hash) (header_hash : option ProtocolVersion → BlockHeader → Hash).
Context (hash_concat : Hash → Hash → Hash) (empty_hash : Hash).
Context (verify : PublicKey → list Z → list Z → bool) (parse_public_key : PublicKey → bool) (parse_signature : list Z → bool).
Context (from_slice : list Z → option Value) (from_value_u8 : Value → option Z).
Context (run_tally_panic_safe : list RevealTransaction → RADTally → f64 → nat → ActiveWips → bool →
                                option TallyMetaData * option (list Z)).
Context (tally_bytes_on_encode_error : list Z).
Implicit Types (x : BlockContext) (q : DataRequestPool) (h : Hash).

Abbreviation version_of e := (get_protocol_version pinfo (Some e)).
Abbreviation dr_id x t := (tx_hash (Some (b_version x)) (DataRequest t)).

(** The requests of a block that have too many witnesses. *)
Definition unsolvable (epoch : Z) (stakes : StakesTracker) (t : DRTransaction) : Prop :=
  data_request_has_too_many_witnesses (d_output t) (validator_count stakes) (version_of epoch) = true.
#[local] Instance unsolvable_dec epoch stakes t : Decision (unsolvable epoch stakes t).
Proof. unfold unsolvable. apply _. Defined.
Definition unsolvable_ids x (txs : list DRTransaction) : list Hash :=
  (λ t, dr_id x t) <$> filter (unsolvable (b_epoch x) (b_stakes x)) txs.

(** Two pools that agree except on the requests [ids]. *)
Record agree_except (ids : list Hash) q q' : Prop := {
  ae_requests h : h ∉ ids → data_request_pool q' !! h = data_request_pool q !! h;
  ae_waiting : waiting_for_reveal q' = waiting_for_reveal q;
  ae_stored : to_be_stored q' = to_be_stored q;
  ae_rounds : extra_rounds q' = extra_rounds q;
}.

Lemma agree_refl ids q : agree_except ids q q.
Proof. done. Qed.
Lemma agree_trans ids q1 q2 q3 : agree_except ids q1 q2 → agree_except ids q2 q3 → agree_except ids q1 q3.
Proof. intros [H1 ? ? ?] [H2 ? ? ?]. split; [|congruence..]. intros h Hh. by rewrite H2, H1. Qed.
Lemma agree_weaken ids ids' q q' : ids ⊆ ids' → agree_except ids q q' → agree_except ids' q q'.
Proof. intros Hi [H1 ? ? ?]. split; [|done..]. intros h Hh. apply H1. set_solver. Qed.
Lemma agree_update h st q : agree_except [h] q (with_requests q (<[h := st]> (data_request_pool q))).
Proof. split; [|done..]. intros h' Hh. apply lookup_insert_ne. set_solver. Qed.

Definition in_tally q h : Prop := ∃ st, data_request_pool q !! h = Some st ∧ stage st = TALLY.

Lemma tally_ready_exact q h : h ∈ get_tally_ready_drs q ↔ in_tally q h.
Proof.
  unfold get_tally_ready_drs, in_tally. rewrite elem_of_dom. split.
  - intros [st [Hst Hs]%map_lookup_filter_Some]. by exists st.
  - intros (st & Hst & Hs). exists st. by apply map_lookup_filter_Some.
Qed.

(** ** Adding the requests *)

Abbreviation add x := (add_unsolvable pinfo calculate_sha256 tx_hash x).

(** The pool after a call, also after a failed one. *)
Definition pool_of {A} (r : exec DataRequestPool Failure A) (P : DataRequestPool → Prop) : Prop :=
  match r with Ret q _ | Fail q _ => P q | Crash => True end.

Lemma add_one x bh t q :
  b_version x = version_of (b_epoch x) →
  pool_process_data_request pinfo calculate_sha256 tx_hash q t (b_epoch x) (Some bh) = Fail q (TransactionFailure SignatureNotFound)
  ∨ ∃ who, pool_process_data_request pinfo calculate_sha256 tx_hash q t (b_epoch x) (Some bh)
    = Ret (MkPool (waiting_for_reveal q)
             (<[b_epoch x := {[ dr_id x t ]} ∪ default ∅ (data_requests_by_epoch q !! b_epoch x)]> (data_requests_by_epoch q))
             (<[dr_id x t := state_new (d_output t) who (b_epoch x) (Some bh)]> (data_request_pool q)) (to_be_stored q) (extra_rounds q)) tt.
Proof.
  intros Hv. unfold pool_process_data_request, process_data_request, add_data_request. rewrite <-Hv.
  destruct (DataRequest.signer _ _) as [who|]; [right; by exists who|by left].
Qed.

Lemma add_unsolvable_spec x bh txs : ∀ q reset many,
  b_version x = version_of (b_epoch x) →
  pool_of (add x bh txs q reset many) (agree_except (unsolvable_ids x txs) q)
  ∧ ∀ q' r, add x bh txs q reset many = Ret q' r →
    (∀ h, h ∈ unsolvable_ids x txs → in_tally q' h) ∧ (∀ h, h ∈ r.1 → h ∈ reset ∨ h ∈ unsolvable_ids x txs)
    ∧ (∀ h, h ∈ r.2 → h ∈ many ∨ h ∈ unsolvable_ids x txs).
Proof.
  induction txs as [|t txs IH]; intros q reset many Hv.
  { split; [done|]. intros q' r [= <- <-]. split_and!; [intros h Hh; by apply elem_of_nil in Hh|by left..]. }
  cbn [add_unsolvable]. unfold unsolvable_ids in *. destruct (data_request_has_too_many_witnesses _ _ _) eqn:Hmany.
  2: { rewrite filter_cons_False by (unfold unsolvable; by rewrite Hmany). by apply IH. }
  rewrite filter_cons_True by done. rewrite fmap_cons. destruct (add_one x bh t q Hv) as [->|[who ->]].
  { split; [done|]. intros q' r [=]. }
  cbn [data_request_pool]. rewrite lookup_insert_eq. cbn [state_new stage]. rewrite decide_True by done.
  cbn [update_stage state_new stage info commits]. rewrite decide_True by done. cbn [with_requests waiting_for_reveal data_requests_by_epoch data_request_pool to_be_stored extra_rounds].
  rewrite insert_insert_eq. match goal with |- context [add_unsolvable _ _ _ _ _ txs ?q0 ?r0 ?m0] =>
    destruct (IH q0 r0 m0 Hv) as [IH1 IH2]; set (q1 := q0) in * end.
  assert (agree_except [dr_id x t] q q1) as Hone.
  { split; [|done..]. intros h Hh. unfold q1. cbn [with_requests data_request_pool]. apply lookup_insert_ne. set_solver. }
  split.
  - destruct (add x bh txs q1 _ _); [..|done]; cbn [pool_of] in *;
      (eapply agree_trans; [eapply agree_weaken; [|exact Hone]; set_solver|eapply agree_weaken; [|exact IH1]; set_solver]).
  - intros q' r Hk. destruct (IH2 q' r Hk) as (IH3 & IH4 & IH5). split_and!; [|intros h Hh%IH4; set_solver|intros h Hh%IH5; set_solver].
    intros h Hh. destruct (decide (h ∈ (λ t, dr_id x t) <$> filter (unsolvable (b_epoch x) (b_stakes x)) txs)) as [Hin|Hout];
      [by apply IH3|]. rewrite Hk in IH1. cbn [pool_of] in IH1. apply elem_of_cons in Hh as [->|]; [|done].
    eexists. rewrite (ae_requests _ _ _ IH1) by done. unfold q1. cbn [with_requests data_request_pool].
    rewrite lookup_insert_eq. done.
Qed.

(** ** Tallies *)

Abbreviation tallies x := (tally_loop (D:=D) pinfo calculate_sha256 tx_hash run_tally_panic_safe tally_bytes_on_encode_error x).

Lemma tally_validated t q cc wips many vc version r :
  validate_tally_transaction pinfo calculate_sha256 run_tally_panic_safe tally_bytes_on_encode_error t q cc wips many vc version = Ok r →
  in_tally q (t_dr_pointer t).
Proof.
  intros Hk. unfold validate_tally_transaction in Hk. do 3 step_ok Hk. unfold create_expected_tally_transaction in E1.
  step_ok E1. step_ok E1. apply ok_or_ok in E2. exists a2. split; [done|]. by apply dec_stable.
Qed.

Lemma reset_spec reset h q :
  agree_except (elements reset) q (reset_data_request_stage reset h q)
  ∧ ∀ h', in_tally (reset_data_request_stage reset h q) h' → in_tally q h'.
Proof.
  unfold reset_data_request_stage. case_decide as Hh; [|done]. destruct (data_request_pool q !! h) as [st|] eqn:Hst; [|done].
  split.
  - eapply agree_weaken; [|apply agree_update]. set_solver.
  - intros h' (st' & Hst' & Hs). cbn [with_requests data_request_pool] in Hst'.
    apply lookup_insert_Some in Hst' as [[_ <-]|[_ Hst']]; [done|]. by exists st'.
Qed.

Lemma tally_loop_spec x reset many l : ∀ q (s : Progress (D:=D)) hs expected,
  pool_of (tallies x reset many l q s hs expected) (agree_except (elements reset) q)
  ∧ ∀ q' s' rest, tallies x reset many l q s hs expected = Ret q' (s', rest) →
    rest = expected ∖ list_to_set (t_dr_pointer <$> l) ∧ NoDup (t_dr_pointer <$> l)
    ∧ Forall (λ t, t_dr_pointer t ∉ hs ∧ in_tally q (t_dr_pointer t)) l.
Proof.
  induction l as [|t l IH]; intros q s hs expected; cbn [tally_loop].
  { split; [done|]. intros q' s' rest [= _ _ <-]. split_and!; [set_solver|constructor|done]. }
  destruct (reset_spec reset (t_dr_pointer t) q) as [Hag Hin].
  destruct (validate_tally_transaction _ _ _ _ _ _ _ _ _ _ _) as [[outputs fee]|e|] eqn:Hv; [|split; [done|intros ? ? ? [=]]..].
  apply tally_validated in Hv. case_decide; [by split; [|intros ? ? ? [=]]|]. case_decide; [by split; [|intros ? ? ? [=]]|].
  destruct (advance _ _ _ _ _ _ _ _ _ _) as [s1|e|]; cbn [lift_exec ebind]; [|by split; [|intros ? ? ? [=]]..].
  match goal with |- context [tally_loop _ _ _ _ _ _ _ _ l ?q0 _ ?hs0 ?e0] => destruct (IH q0 s1 hs0 e0) as [IH1 IH2] end. split.
  - destruct (tallies _ _ _ _ _ _ _ _); [..|done]; cbn [pool_of] in *; by eapply agree_trans.
  - intros q' s' rest Hk. apply IH2 in Hk as (-> & Hnd & Hl). rewrite Forall_forall in Hl. rewrite fmap_cons. split_and!.
    + cbn [list_to_set]. set_solver.
    + constructor; [|done]. intros (t' & Ht & Ht')%list_elem_of_fmap. destruct (Hl t' Ht') as [Hn _]. set_solver.
    + constructor; [done|]. apply Forall_forall. intros t' Ht'. destruct (Hl t' Ht') as [Hn Hi]. split; [set_solver|by apply Hin].
Qed.

Lemma none_missing (X : gset Hash) (l : list Hash) h : X ∖ list_to_set l = ∅ → h ∈ X → h ∈ l.
Proof. intros Hx Hh. apply dec_stable. intros Hn. set_solver. Qed.

(** ** Roots *)

Abbreviation roots_of := (block_roots tx_hash hash_concat empty_hash).
Abbreviation built_roots := (from_transactions tx_hash hash_concat empty_hash).

Lemma roots_agree v t : built_roots v t = Some (roots_of v t).
Proof.
  unfold from_transactions, block_roots.
  assert (∀ l, Merkle.merkle_tree_root hash_concat empty_hash l
               = Some (progressive_root hash_concat empty_hash (foldl (push hash_concat) progressive_new l))) as Hroot.
  { intros l. apply merkle_tree_root_total. }
  rewrite !Hroot. cbn [mbind option_bind]. destruct (version_lt v V1_8), (before_v2 v); done.
Qed.

(** The hashes of the transactions of a block, by kind; the version decides whether
    stakes and unstakes are covered. *)
Definition tx_ids (v : ProtocolVersion) (t : BlockTransactions) : list (list Hash) :=
  let ids {A} (wrap : A → Transaction) (l : list A) := (λ t, tx_hash (Some v) (wrap t)) <$> l in
  [ [tx_hash (Some v) (Mint (mint t))]; ids ValueTransfer (value_transfer_txns t); ids DataRequest (data_request_txns t);
    ids Commit (commit_txns t); ids Reveal (reveal_txns t); ids Tally (tally_txns t);
    if version_lt v V1_8 then [] else ids TxStake (stake_txns t); if before_v2 v then [] else ids TxUnstake (unstake_txns t) ].

Lemma tree_binding l1 l2 :
  length l1 = length l2 →
  progressive_root hash_concat empty_hash (foldl (push hash_concat) progressive_new l1)
  = progressive_root hash_concat empty_hash (foldl (push hash_concat) progressive_new l2) → l1 = l2 ∨ collision hash_concat.
Proof.
  intros Hlen Hr. destruct (decide (l1 = l2)) as [|Hne]; [by left|right].
  apply (merkle_root_binding hash_concat empty_hash l1 l2 Hlen Hne).
  rewrite (proj1 (merkle_tree_root_total _ _ l1)), (proj1 (merkle_tree_root_total _ _ l2)). by rewrite Hr.
Qed.

Lemma roots_binding v t1 t2 :
  Forall2 (λ l1 l2, length l1 = length l2) (tx_ids v t1) (tx_ids v t2) → roots_of v t1 = roots_of v t2 →
  tx_ids v t1 = tx_ids v t2 ∨ collision hash_concat.
Proof.
  intros Hlen [= Hm Hvt Hdr Hco Hre Hta Hst Hut]. unfold tx_ids in *.
  repeat match goal with H : Forall2 _ (_ :: _) (_ :: _) |- _ => apply Forall2_cons in H as [? ?] end.
  apply tree_binding in Hvt as [->|?]; [|by right|done]. apply tree_binding in Hdr as [->|?]; [|by right|done].
  apply tree_binding in Hco as [->|?]; [|by right|done]. apply tree_binding in Hre as [->|?]; [|by right|done].
  apply tree_binding in Hta as [->|?]; [|by right|done]. rewrite Hm.
  destruct (version_lt v V1_8), (before_v2 v); [by left| |..].
  - apply tree_binding in Hut as [->|?]; [by left|by right|done].
  - apply tree_binding in Hst as [->|?]; [by left|by right|done].
  - apply tree_binding in Hst as [->|?]; [|by right|done]. apply tree_binding in Hut as [->|?]; [by left|by right|done].
Qed.

(** ** Theorems *)

Abbreviation validate_transactions :=
  (validate_block_transactions pinfo env calculate_sha256 tx_hash header_hash hash_concat empty_hash verify parse_public_key
     parse_signature from_slice from_value_u8 run_tally_panic_safe tally_bytes_on_encode_error).

(** The requests of a block with too many witnesses for the validators. *)
Definition block_unsolvable (b : Block) (stakes : StakesTracker) : list Hash :=
  let epoch := checkpoint (beacon (block_header b)) in
  (λ t, tx_hash (Some (version_of epoch)) (DataRequest t)) <$> filter (unsolvable epoch stakes) (data_request_txns (txns b)).

(** The validation of a block, whatever it answers, leaves the pool of data
    requests as it was except for the requests of the block that have too many
    witnesses for the number of validators. *)
Theorem validation_keeps_other_requests (p : UnspentOutputsPool D) q b vrf sv rep c n cc wips stakes :
  pool_of (validate_transactions p q b vrf sv rep c n cc wips stakes) (agree_except (block_unsolvable b stakes) q).
Proof.
  unfold validate_block_transactions. destruct (total_block_reward _ _); [|done]. cbn [unwrap lift_exec ebind].
  case_decide; [done|]. case_decide; [done|].
  destruct (validate_until_requests _ _ _ _ _ _ _ _ _ _ _ _ _ _ _) as [s1| |]; [|done|done]. cbn [lift_exec ebind].
  match goal with |- context [add_unsolvable _ _ _ ?bx ?bh ?l q ∅ ∅] =>
    destruct (add_unsolvable_spec bx bh l q ∅ ∅ eq_refl) as [Hq Hret]; set (x := bx) in * end.
  change (block_unsolvable b stakes) with (unsolvable_ids x (data_request_txns (txns b))).
  destruct (add x _ _ q ∅ ∅) as [q1 [reset many]| |]; [|done|done]. cbn [pool_of ebind fst snd] in *.
  destruct (Hret q1 (reset, many) eq_refl) as [_ Hreset]. cbn [fst] in Hreset.
  pose proof (tally_loop_spec x reset many (tally_txns (txns b)) q1 s1 ∅ (get_tally_ready_drs q1)) as [Hloop _].
  assert (∀ q2, agree_except (elements reset) q1 q2 → agree_except (unsolvable_ids x (data_request_txns (txns b))) q q2) as Hfin.
  { intros q2 Hq2. eapply agree_trans; [exact Hq|]. eapply agree_weaken; [|exact Hq2].
    intros h Hh%elem_of_elements%Hreset. set_solver. }
  destruct (tallies _ _ _ _ _ _ _ _) as [q2 [s2 rest]|q2 e|]; cbn [pool_of ebind] in *; [|by apply Hfin|done].
  case_decide; [by apply Hfin|]. destruct (validate_after_tallies _ _ _ _ _ _ _ _ _ _ _ _); cbn [lift_exec ebind pool_of];
    [by apply Hfin..|done].
Qed.

Lemma accepted_tallies (p : UnspentOutputsPool D) q b vrf sv rep c n cc wips stakes q' r :
  validate_transactions p q b vrf sv rep c n cc wips stakes = Ret q' r →
  NoDup (t_dr_pointer <$> tally_txns (txns b))
  ∧ ∀ h, h ∈ t_dr_pointer <$> tally_txns (txns b) ↔ h ∈ block_unsolvable b stakes ∨ in_tally q h.
Proof.
  unfold validate_block_transactions. destruct (total_block_reward _ _); [|done]. cbn [unwrap lift_exec ebind].
  case_decide; [done|]. case_decide; [done|].
  destruct (validate_until_requests _ _ _ _ _ _ _ _ _ _ _ _ _ _ _) as [s1| |]; [|done|done]. cbn [lift_exec ebind].
  match goal with |- context [add_unsolvable _ _ _ ?bx ?bh ?l q ∅ ∅] =>
    destruct (add_unsolvable_spec bx bh l q ∅ ∅ eq_refl) as [Hq Hret]; set (x := bx) in * end.
  change (block_unsolvable b stakes) with (unsolvable_ids x (data_request_txns (txns b))).
  destruct (add x _ _ q ∅ ∅) as [q1 [reset many]| |]; [|done|done]. cbn [pool_of ebind fst snd] in *.
  destruct (Hret q1 (reset, many) eq_refl) as [Huns _].
  pose proof (tally_loop_spec x reset many (tally_txns (txns b)) q1 s1 ∅ (get_tally_ready_drs q1)) as [_ Hloop].
  destruct (tallies _ _ _ _ _ _ _ _) as [q2 [s2 rest]| |]; cbn [ebind fst snd]; [|done|done].
  destruct (Hloop q2 s2 rest eq_refl) as (-> & Hnd & Hl). case_decide as Hrest; [done|]. intros _. split; [done|].
  assert (∀ h, h ∉ unsolvable_ids x (data_request_txns (txns b)) → in_tally q1 h ↔ in_tally q h) as Hsame.
  { intros h Hh. unfold in_tally. by rewrite (ae_requests _ _ _ Hq h Hh). }
  intros h. destruct (decide (h ∈ unsolvable_ids x (data_request_txns (txns b)))) as [Hh|Hh].
  - split; [by left|]. intros _. apply Huns, tally_ready_exact in Hh. by eapply none_missing.
  - rewrite <-(Hsame h Hh). split.
    + intros (t & -> & Ht)%list_elem_of_fmap. rewrite Forall_forall in Hl. right. by apply Hl.
    + intros [?|Hi%tally_ready_exact]; [done|]. by eapply none_missing.
Qed.

(** C5. The tallies of an accepted block are for distinct requests: exactly those
    that were waiting for their tally, and those of the block itself that have too
    many witnesses. *)
Theorem block_tallies_exact (p : UnspentOutputsPool D) q b vrf sv rep c n cc wips stakes q' r :
  validate_transactions p q b vrf sv rep c n cc wips stakes = Ret q' r →
  NoDup (t_dr_pointer <$> tally_txns (txns b))
  ∧ ∀ h, h ∈ t_dr_pointer <$> tally_txns (txns b) ↔ h ∈ block_unsolvable b stakes ∨ in_tally q h.
Proof. apply accepted_tallies. Qed.

(** C30. The header of an accepted block carries the roots that its builder computes
    from the transactions; and transactions with the same roots, as many of each kind,
    have the same hashes, or the hash of inner nodes has a collision. *)
Theorem header_commits_to_transactions (p : UnspentOutputsPool D) q b vrf sv rep c n cc wips stakes q' r :
  validate_transactions p q b vrf sv rep c n cc wips stakes = Ret q' r →
  let v := version_of (checkpoint (beacon (block_header b))) in
  built_roots v (txns b) = Some (merkle_roots (block_header b))
  ∧ ∀ t, Forall2 (λ l1 l2, length l1 = length l2) (tx_ids v t) (tx_ids v (txns b)) →
      built_roots v t = Some (merkle_roots (block_header b)) → tx_ids v t = tx_ids v (txns b) ∨ collision hash_concat.
Proof.
  intros Hacc v. revert Hacc. unfold validate_block_transactions. destruct (total_block_reward _ _); [|done]. cbn [unwrap lift_exec ebind].
  case_decide; [done|]. case_decide; [done|].
  destruct (validate_until_requests _ _ _ _ _ _ _ _ _ _ _ _ _ _ _) as [s1| |]; [|done|done]. cbn [lift_exec ebind].
  destruct (add_unsolvable _ _ _ _ _ _ q ∅ ∅) as [q1 [reset many]| |]; [|done|done]. cbn [ebind fst snd].
  destruct (tally_loop _ _ _ _ _ _ _ _ _ _ _ _ _) as [q2 [s2 rest]| |]; cbn [ebind fst snd]; [|done|done].
  case_decide; [done|]. destruct (validate_after_tallies _ _ _ _ _ _ _ _ _ _ _ _) as [s3| |] eqn:Hk; [|done|done]. intros _.
  unfold validate_after_tallies in Hk. do 4 step_ok Hk. apply dec_stable in n0. cbn [b_version] in n0. fold v in n0.
  split; [by rewrite roots_agree, n0|]. intros t Hlen. rewrite roots_agree, <-n0. intros Hr%(inj Some). by apply roots_binding.
Qed.
End requests.
