(* ===== verification/BlockExamples.v ===== *)
(** * Blocks on concrete data

    A small chain with three protocol versions, evaluated: blocks that are accepted,
    which the theorems of [BlockValidationCorrect] apply to, and blocks that show the
    behaviour of the validation outside their hypotheses. *)

From stdpp Require Import base tactics numbers list gmap sorting strings.
From Stdlib Require Import ZArith Lia.
From S2P Require Import Prelude Stake Stakes Ars Hashes Superblock Versioning Tapi Merkle Rad Float Storage UtxoDb UtxoDbCorrect.
From S2P Require Import Utxo UtxoCorrect RepEngine Eligibility Epoch RadScript Transaction DataRequest TxFactory TxFactoryCorrect.
From S2P Require Import Consensus Validation BlockValidation ValidationCorrect BlockValidationCorrect BuiltTransfer BlockRequests.
Local Open Scope Z_scope.
Local Open Scope rust_scope.

#[local] Existing Instances toy_codecs toy_codec_laws.

(** ** The crates and the chain *)

Definition ex_sha256 (bytes : list Z) : Hash := bytes.
Definition ex_key (n : Z) : PublicKey := MkPublicKey n [].
Definition ex_sig (n : Z) : KeyedSignature := MkSignature [n] (ex_key n).
Definition ex_verify (key : PublicKey) (data signature : list Z) : bool := bool_decide (signature = [compressed key]).
Definition ex_parse_key (key : PublicKey) : bool := true.
Definition ex_parse_sig (signature : list Z) : bool := true.
Definition ex_from_slice (bytes : list Z) : option Value := Some (VArray []).
Definition ex_from_value (v : Value) : option Z := None.
Definition ex_run_tally (reveals : list RevealTransaction) (tally : RADTally) (min : f64) (commits : nat) (wips : ActiveWips)
    (too_many : bool) : option TallyMetaData * option (list Z) :=
  (Some {| errors := (λ _, true) <$> reveals; liars := (λ _, false) <$> reveals |}, Some [1]).
Definition ex_encode_error : list Z := [2].

(** The kind of a transaction and a byte of its content. *)
Definition ex_tx_hash (v : option ProtocolVersion) (t : Transaction) : Hash :=
  let index inputs := match inputs with i :: _ => output_index (output_pointer i) | [] => 0 end in
  match t with
  | ValueTransfer t => replicate 31 101 ++ [index (vt_inputs t)]
  | DataRequest t => replicate 31 102 ++ [index (d_inputs t)]
  | Commit t => replicate 31 103 ++ [index (c_collateral t)]
  | Reveal t => replicate 31 104 ++ [0]
  | Tally t => replicate 31 105 ++ [Z.of_nat (length (t_dr_pointer t))]
  | Mint t => replicate 31 106 ++ [m_epoch t]
  | TxStake t => replicate 31 107 ++ [index (s_inputs t)]
  | TxUnstake t => replicate 31 108 ++ [u_nonce t]
  end.
Definition ex_header_hash (v : option ProtocolVersion) (h : BlockHeader) : Hash := replicate 32 (checkpoint (beacon h)).
Definition ex_concat (a b : Hash) : Hash := a.

(** Version 1.7 from epoch 0, 1.8 from epoch 10 and 2.0 from epoch 20. *)
Definition ex_info : ProtocolInfo :=
  register_protocol_version (register_protocol_version (register_protocol_version protocol_default V1_7 0 45) V1_8 10 45) V2_0 20 20.
Definition ex_epochs : EpochConstants := MkEpochConstants 0 45 1000000 20.
Definition ex_constants : ConsensusConstants :=
  {| cc_checkpoint_zero_timestamp := 0; cc_checkpoints_period := 45; activity_period := 2000; cc_reputation_expire_alpha_diff := 20000;
     cc_reputation_issuance := 1; cc_reputation_issuance_stop := 1048576; cc_reputation_penalization_factor := f64_one;
     cc_mining_replication_factor := 3; cc_collateral_age := 1000; superblock_signing_committee_size := 100;
     superblock_committee_decreasing_period := 5; superblock_committee_decreasing_step := 5; bootstrap_hash := [1]; genesis_hash := [2]; max_vt_weight := 20000; max_dr_weight := 80000;
     mining_backup_factor := 4; Consensus.collateral_minimum := 1; superblock_period := 10; cc_extra_rounds := 3;
     minimum_difficulty := 1; epochs_with_minimum_difficulty := 0; initial_block_reward := 8; halving_period := 100 |}.
Definition ex_wips (epoch : Z) : ActiveWips := MkActive {[ "WIP0008"%string := 0; "WIP0009-0011-0012"%string := 0 ]} epoch.

Abbreviation ex_db := (CacheUtxosByPkh (UtxoDbWrapStorage Backend)).
Definition ex_pointer (n : Z) : OutputPointer := MkPointer (replicate 32 0) n.
Definition ex_pool (l : list (OutputPointer * Utxo)) : UnspentOutputsPool ex_db := MkUtxoPool (MkDiff (list_to_map l) ∅) None.

Definition ex_header (epoch : Z) (roots : BlockMerkleRoots) : BlockHeader :=
  {| signals := 0; beacon := MkBeacon epoch [9]; merkle_roots := roots; proof := ([], ex_key 1); bn256_public_key := None |}.
(** A block with the given transactions and the roots they have. *)
Definition ex_block (epoch : Z) (t : BlockTransactions) : Block :=
  MkBlock (ex_header epoch (block_roots ex_tx_hash ex_concat [] (get_protocol_version ex_info (Some epoch)) t)) (ex_sig 1) t.

Definition ex_validate (pool : UnspentOutputsPool ex_db) (dr_pool : DataRequestPool) (stakes : StakesTracker) (b : Block) :=
  validate_block_transactions ex_info Development ex_sha256 ex_tx_hash ex_header_hash ex_concat [] ex_verify ex_parse_key
    ex_parse_sig ex_from_slice ex_from_value ex_run_tally ex_encode_error pool dr_pool b (MkVrfInput 0 []) []
    (engine_new 10) ex_epochs 5 ex_constants (ex_wips (checkpoint (beacon (block_header b)))) stakes.

(** ** An accepted block *)

(** The owner with key 1 sends 7 of 10 coins; the rest is a fee for the miner. *)
Definition ex_transfer : VTTransaction :=
  MkVT [MkInput (ex_pointer 0)] [MkOutput [2] 7 0] [ex_sig 1].
Definition ex_coins : list (OutputPointer * Utxo) := [(ex_pointer 0, (MkOutput [1] 10 0, 1)); (ex_pointer 1, (MkOutput [2] 20 0, 1))].
Definition ex_transfer_block : Block :=
  ex_block 5 (MkTxns (MkMint 5 [MkOutput [3] 11 0]) [ex_transfer] [] [] [] [] [] []).

(** What a validation returns, as lists: the new outputs, the spent outputs and the
    signatures to verify. *)
Definition outcome {S V} (r : exec S Failure (Diff * list SignaturesToVerify * V)) :
    result Failure (list (OutputPointer * Utxo) * list OutputPointer * list SignaturesToVerify) :=
  match r with
  | Ret _ (d, sv, _) => Ok (map_to_list (utxos_to_add d), elements (utxos_to_remove d), sv)
  | Fail _ e => Err e
  | Crash => Panic
  end.

Example transfer_block_accepted :
  outcome (ex_validate (ex_pool ex_coins) (pool_new 3) stakes_default ex_transfer_block)
  = Ok ([(MkPointer (replicate 31 101 ++ [0]) 0, (MkOutput [2] 7 0, 5));
         (MkPointer (replicate 31 106 ++ [5]) 0, (MkOutput [3] 11 0, 5))], [ex_pointer 0],
        [SecpTx (ex_key 1) (replicate 31 101 ++ [0]) [1]]).
Proof. by vm_compute. Qed.

Lemma ex_pool_ok l : Forall (λ kv, valid_pointer kv.1) l → pool_ok (ex_pool l) ∅.
Proof.
  intros Hv. split; [done|done|set_solver|]. intros k [v Hk%elem_of_list_to_map_2]. rewrite Forall_forall in Hv.
  by apply (Hv (k, v)).
Qed.

Lemma ex_pool_view l : view (ex_pool l) ∅ = list_to_map l.
Proof.
  apply map_eq. intros k. unfold view. rewrite changed_lookup. cbn [ex_pool diff utxos_to_add utxos_to_remove].
  rewrite decide_False by set_solver. rewrite lookup_empty. by destruct (list_to_map l !! k).
Qed.

Lemma ex_new_id l h : bytes_of_len 32 h → Forall (λ kv, transaction_id kv.1 ≠ h) l → new_id (ex_pool l) ∅ h.
Proof.
  intros Hh Hl. split; [done|]. intros k Hk. split; [|done]. cbn [ex_pool diff utxos_to_add].
  apply not_elem_of_list_to_map_1. intros (kv & -> & Hin)%list_elem_of_fmap. rewrite Forall_forall in Hl. by apply (Hl kv).
Qed.

#[local] Instance bytes_of_len_dec n l : Decision (bytes_of_len n l).
Proof. unfold bytes_of_len, fits. apply _. Defined.
#[local] Instance valid_pointer_dec k : Decision (valid_pointer k).
Proof. unfold valid_pointer, fits. apply _. Defined.
#[local] Instance inputs_typed_dec l : Decision (inputs_typed l).
Proof. unfold inputs_typed. apply _. Defined.
#[local] Instance outputs_typed_dec l : Decision (outputs_typed l).
Proof. unfold outputs_typed, fits. apply _. Defined.
Ltac compute_decision := apply (bool_decide_unpack _); by vm_compute.

(** An accepted block can be applied to a pool whose outputs do not carry the hashes
    of the block. *)
Lemma ex_fresh l b :
  Forall (λ kv, fits U64 (out_value kv.2.1)) l → block_typed (txns b) →
  (let ids := block_ids ex_tx_hash (get_protocol_version ex_info (Some (checkpoint (beacon (block_header b))))) (txns b) in
   NoDup ids ∧ Forall (bytes_of_len 32) ids ∧ Forall (λ h, Forall (λ kv, transaction_id kv.1 ≠ h) l) ids) →
  is_genesis ex_header_hash b (genesis_hash ex_constants) = false →
  block_fresh ex_info ex_tx_hash ex_header_hash (ex_pool l) ∅ b ex_constants.
Proof.
  intros Hv Ht (Hnd & Hlen & Hnew) Hg. split; [|done|done| |done].
  - intros k v. rewrite ex_pool_view. intros Hk%elem_of_list_to_map_2. rewrite Forall_forall in Hv. by apply (Hv (k, v)).
  - rewrite Forall_forall in Hlen, Hnew. apply Forall_forall. intros h Hh. apply ex_new_id; [by apply Hlen|by apply Hnew].
Qed.

Lemma ex_transfer_fresh : block_fresh ex_info ex_tx_hash ex_header_hash (ex_pool ex_coins) ∅ ex_transfer_block ex_constants.
Proof.
  apply ex_fresh.
  - repeat constructor; by vm_compute.
  - split; [|constructor..|compute_decision]. constructor; [|constructor]. split; compute_decision.
  - split_and!; compute_decision.
  - by vm_compute.
Qed.

Lemma ex_coins_ok : pool_ok (ex_pool ex_coins) ∅.
Proof. apply ex_pool_ok. compute_decision. Qed.

Lemma outcome_ok {S V} (r : exec S Failure (Diff * list SignaturesToVerify * V)) x :
  outcome r = Ok x → ∃ st d visits, r = Ret st (d, x.2, visits) ∧ x.1 = (map_to_list (utxos_to_add d), elements (utxos_to_remove d)).
Proof. destruct r as [st [[d sv] visits]| |]; [|done|done]. intros [= <-]. by exists st, d, visits. Qed.

Lemma ex_transfer_returns :
  ∃ dr' d visits, ex_validate (ex_pool ex_coins) (pool_new 3) stakes_default ex_transfer_block
  = Ret dr' (d, [SecpTx (ex_key 1) (replicate 31 101 ++ [0]) [1]], visits).
Proof. destruct (outcome_ok _ _ transfer_block_accepted) as (dr' & d & visits & Hk & _). by exists dr', d, visits. Qed.

(** The value of the outputs that the block spends, and what it adds. *)
Definition ex_worth : OutputPointer → Z :=
  output_value ex_tx_hash (ex_pool ex_coins) ∅ (get_protocol_version ex_info (Some (checkpoint (beacon (block_header ex_transfer_block)))))
    (txns ex_transfer_block).
Example ex_transfer_change : block_change ex_worth (txns ex_transfer_block) = 8.
Proof. by vm_compute. Qed.

Lemma block_value_accounted_witness :
  ∃ dr' d sv visits p', ex_validate (ex_pool ex_coins) (pool_new 3) stakes_default ex_transfer_block = Ret dr' (d, sv, visits)
    ∧ diff_apply d (ex_pool ex_coins) = Some p' ∧ pool_ok p' ∅
    ∧ worth (view p' ∅) = worth (view (ex_pool ex_coins) ∅) + 8
    ∧ Forall (vt_good ex_worth) (value_transfer_txns (txns ex_transfer_block)).
Proof.
  destruct ex_transfer_returns as (dr' & d & visits & Hk).
  destruct (block_value_accounted ex_info ex_sha256 ex_tx_hash Development ex_header_hash ex_concat []
           ex_verify ex_parse_key ex_parse_sig ex_from_slice ex_from_value ex_run_tally ex_encode_error (ex_pool ex_coins) ∅ ex_coins_ok (pool_new 3)
           ex_transfer_block (MkVrfInput 0 []) [] (engine_new 10) ex_epochs 5 ex_constants (ex_wips 5) stakes_default dr' d _ visits
           ex_transfer_fresh Hk) as ((p' & Ha & Hp & Hw) & Hgood & _).
  fold ex_worth in Hw, Hgood. rewrite ex_transfer_change in Hw.
  eexists dr', d, _, visits, p'. split; [exact Hk|]. split; [exact Ha|]. split; [exact Hp|]. split; [exact Hw|apply Hgood].
Defined.

Lemma block_spends_authorized_witness :
  ∃ dr' d sv visits, ex_validate (ex_pool ex_coins) (pool_new 3) stakes_default ex_transfer_block = Ret dr' (d, sv, visits)
    ∧ NoDup (block_inputs (txns ex_transfer_block))
    ∧ ∀ k, k ∈ utxos_to_remove d → k ∈ block_inputs (txns ex_transfer_block)
      ∧ ∃ o v t key sig, view (ex_pool ex_coins) ∅ !! k = Some o ∧ k ∈ output_pointer <$> transaction_inputs t
          ∧ Hashes.pkh ex_sha256 key = out_pkh o.1 ∧ ex_verify key (ex_tx_hash v t) sig = true.
Proof.
  destruct ex_transfer_returns as (dr' & d & visits & Hk). eexists dr', d, _, visits. split; [exact Hk|].
  refine (block_spends_authorized ex_info ex_sha256 ex_tx_hash Development ex_header_hash ex_concat []
           ex_verify ex_parse_key ex_parse_sig ex_from_slice ex_from_value ex_run_tally ex_encode_error (ex_pool ex_coins) ∅ ex_coins_ok
           (λ _ _, None) (λ _ _ _, None) (λ _ _ _ _, None) (pool_new 3)
           ex_transfer_block (MkVrfInput 0 []) [] (engine_new 10) ex_epochs 5 ex_constants (ex_wips 5) stakes_default dr' d _ visits []
           ex_transfer_fresh Hk _). by vm_compute.
Defined.

Lemma vt_accepted_exact_witness :
  let u := utxo_diff_new (ex_pool ex_coins) 5 in
  let hash := replicate 31 101 ++ [0] in
  vt_weight ex_transfer ≤ 20000 ∧ vt_inputs ex_transfer ≠ [] ∧ Forall (λ o, out_value o ≠ 0) (vt_outputs ex_transfer)
  ∧ ∃ os, resolves u (vt_inputs ex_transfer) os ∧ Forall (unlocked 5 ex_epochs) os ∧ NoDup (output_pointer <$> vt_inputs ex_transfer)
    ∧ Forall2 (owned ex_sha256 ex_parse_key ex_parse_sig) (vt_signatures ex_transfer) os ∧ 7 ≤ zsum (out_value <$> os) < U64
    ∧ (vt_inputs ex_transfer, vt_outputs ex_transfer, 3, [SecpTx (ex_key 1) hash [1]])
      = (vt_inputs ex_transfer, vt_outputs ex_transfer, zsum (out_value <$> os) - 7,
         [] ++ (to_check hash <$> vt_signatures ex_transfer)).
Proof.
  refine (proj1 (vt_accepted_exact ex_sha256 ex_tx_hash ex_parse_key ex_parse_sig ex_transfer (utxo_diff_new (ex_pool ex_coins) 5) 5
            ex_epochs [] 20000 None (vt_inputs ex_transfer, vt_outputs ex_transfer, 3, [SecpTx (ex_key 1) (replicate 31 101 ++ [0]) [1]])
            _ _) _).
  - constructor; [|constructor]. intros o. vm_compute. by intros [= <-].
  - compute_decision.
  - by vm_compute.
Defined.

(** ** A transfer that a node builds *)

Definition ex_own : list (OutputPointer * Utxo) := [(ex_pointer 0, (MkOutput [1] 10 0, 1)); (ex_pointer 1, (MkOutput [1] 20 0, 1))].
Definition ex_node : NodeUtxos ex_db :=
  {| all_utxos := ex_pool ex_own; own_utxos := list_to_map ((λ kv, (kv.1, 0)) <$> ex_own); node_pkh := [1] |}.
Lemma ex_node_keys k : is_Some (own_utxos ex_node !! k) → k = ex_pointer 0 ∨ k = ex_pointer 1.
Proof.
  intros [t Hk%elem_of_list_to_map_2]. cbn in Hk.
  apply elem_of_cons in Hk as [[= -> _]|[[= -> _]|Hk%elem_of_nil]%elem_of_cons]; [by left|by right|done].
Qed.
Lemma ex_node_ok : node_ok ex_node ∅.
Proof.
  split; cbn [ex_node all_utxos].
  - apply ex_pool_ok. compute_decision.
  - intros k Hk. rewrite ex_pool_view. destruct (ex_node_keys k Hk) as [->| ->]; by eexists.
  - intros k v. rewrite ex_pool_view. intros Hk%elem_of_list_to_map_2. cbn in Hk.
    apply elem_of_cons in Hk as [[= _ ->]|[[= _ ->]|Hk%elem_of_nil]%elem_of_cons]; done.
  - by vm_compute.
Qed.

(** Sending 25 of the 30 coins with a fee of 2. *)
Lemma ex_built_returns :
  ∃ n' tx, build_vtt ex_node [MkOutput [2] 25 0] (AbsoluteFee 2) [1] 5 100 (Random None) 20000 true = Ret n' tx
    ∧ vt_weight tx ≤ 20000 ∧ vt_outputs tx = [MkOutput [2] 25 0; MkOutput [1] 3 0].
Proof.
  assert (match build_vtt ex_node [MkOutput [2] 25 0] (AbsoluteFee 2) [1] 5 100 (Random None) 20000 true with
          | Ret _ tx => bool_decide (vt_weight tx ≤ 20000 ∧ vt_outputs tx = [MkOutput [2] 25 0; MkOutput [1] 3 0]) | _ => false end = true) as Hk
    by (by vm_compute).
  destruct (build_vtt _ _ _ _ _ _ _ _ _) as [n' tx| |]; [|done|done]. apply bool_decide_eq_true in Hk as [Hw Ho]. by exists n', tx.
Qed.

Lemma built_transfer_validates_witness :
  ∃ n' tx, build_vtt ex_node [MkOutput [2] 25 0] (AbsoluteFee 2) [1] 5 100 (Random None) 20000 true = Ret n' tx
    ∧ ∃ f sv', fee_for (AbsoluteFee 2) (vt_weight tx) 20000 f
        ∧ validate_vt_transaction ex_sha256 ex_tx_hash ex_parse_key ex_parse_sig
            (MkVT (vt_inputs tx) (vt_outputs tx) (replicate (length (vt_inputs tx)) (ex_sig 1)))
            (utxo_diff_new (ex_pool ex_own) 5) 5 ex_epochs [] 20000 None = Ok (vt_inputs tx, vt_outputs tx, f, sv').
Proof.
  destruct ex_built_returns as (n' & tx & Hk & Hw & _). exists n', tx. split; [done|].
  destruct (built_transfer_validates ex_sha256 ex_tx_hash ex_parse_key ex_parse_sig ex_node ∅ [MkOutput [2] 25 0] (AbsoluteFee 2) 5 100
            (Random None) 20000 true n' tx (ex_sig 1) 5 ex_epochs (225, false) 5 [] None ex_node_ok) as (f & sv' & Hf & _ & Hv).
  - intros k Hk'. destruct (ex_node_keys k Hk') as [->| ->]; by vm_compute.
  - by constructor.
  - by vm_compute.
  - by intros a [= <-].
  - exact Hk.
  - by vm_compute.
  - cbn. unfold I64_MAX. lia.
  - clear. by vm_compute.
  - exists f, sv'. split; [exact Hf|]. rewrite decide_True in Hv by exact Hw. exact Hv.
Defined.

(** With an absolute fee and a limit between the weights of one and of two inputs, the transfer is built and then refused. *)
Example heavy_transfer_refused :
  match build_vtt ex_node [MkOutput [2] 25 0] (AbsoluteFee 2) [1] 5 100 (Random None) 900 true with
  | Ret _ tx => (vt_weight tx,
      (validate_vt_transaction ex_sha256 ex_tx_hash ex_parse_key ex_parse_sig
        (MkVT (vt_inputs tx) (vt_outputs tx) (replicate (length (vt_inputs tx)) (ex_sig 1)))
        (utxo_diff_new (ex_pool ex_own) 5) 5 ex_epochs [] 900 None))
  | _ => (0, Panic)
  end = (986, Err (TxError (ValueTransferWeightLimitExceeded 986 900))).
Proof. by vm_compute. Qed.


(** ** Stakes *)

Definition no_txns (epoch : Z) (outputs : list ValueTransferOutput) : BlockTransactions :=
  MkTxns (MkMint epoch outputs) [] [] [] [] [] [] [].
Definition with_stakes (t : BlockTransactions) (l : list StakeTransaction) : BlockTransactions :=
  MkTxns (mint t) (value_transfer_txns t) (data_request_txns t) (commit_txns t) (reveal_txns t) (tally_txns t) l (unstake_txns t).
Definition with_unstakes (t : BlockTransactions) (l : list UnstakeTransaction) : BlockTransactions :=
  MkTxns (mint t) (value_transfer_txns t) (data_request_txns t) (commit_txns t) (reveal_txns t) (tally_txns t) (stake_txns t) l.

(** A stake by the owner with key 1 for validator 4, authorized with the given key. *)
Definition ex_stake (index auth value : Z) (change : option ValueTransferOutput) : StakeTransaction :=
  {| s_inputs := [MkInput (ex_pointer index)];
     s_output := {| authorization := ex_sig auth; so_key := MkKey [4] [1]; so_value := value |};
     s_change := change; s_signatures := [ex_sig 1] |}.

(** The sum of the stake and its change wraps around: 10 nanowits stake 10,000 wits and
    give back more than 18 thousand million wits as change. *)
Example stake_change_wraps :
  outcome (ex_validate (ex_pool ex_coins) (pool_new 3) stakes_default
    (ex_block 15 (with_stakes (no_txns 15 [MkOutput [3] 8 0])
       [ex_stake 0 4 10000000000000 (Some (MkOutput [1] (U64 - 10000000000000 + 10) 0))])))
  = Ok ([(MkPointer (replicate 31 106 ++ [15]) 0, (MkOutput [3] 8 0, 5));
         (MkPointer (replicate 31 107 ++ [0]) 0, (MkOutput [1] 18446734073709551626 0, 1))],
        [ex_pointer 0], [SecpTx (ex_key 1) (replicate 31 107 ++ [0]) [1]]).
Proof. by vm_compute. Qed.

(** The amount to unstake wraps around too. *)
Definition ex_staked : StakesTracker :=
  match add_stake UNIT stakes_default (MkKey [4] [1]) 10000000000000 1 true 10000000000000 with
  | Ret st _ => st | _ => stakes_default end.
Example unstake_wraps :
  outcome (ex_validate (ex_pool ex_coins) (pool_new 3) ex_staked
    (ex_block 25 (with_unstakes (no_txns 25 [])
       [{| u_operator := [4]; u_withdrawal := MkOutput [1] (U64 - 1) 3600; u_fee := 10000000000001; u_nonce := 1;
           u_signature := ex_sig 1 |}])))
  = Ok ([(MkPointer (replicate 31 108 ++ [1]) 0, (MkOutput [1] 18446744073709551615 3600, 5))], [], []).
Proof. by vm_compute. Qed.

(** Two stakes for one validator in one block pass when their authorizations, which are
    not verified, carry different keys; together they exceed the maximum stake. *)
Example stakes_exceed_maximum :
  let coins := [(ex_pointer 0, (MkOutput [1] 6000000000000000 0, 1)); (ex_pointer 1, (MkOutput [1] 6000000000000000 0, 1))] in
  let b := ex_block 15 (with_stakes (no_txns 15 [MkOutput [3] 8 0])
             [ex_stake 0 8 6000000000000000 None; ex_stake 1 9 6000000000000000 None]) in
  get_validator_max_stake_nanowits ex_info 15 < 6000000000000000 + 6000000000000000
  ∧ outcome (ex_validate (ex_pool coins) (pool_new 3) stakes_default b)
    = Ok ([(MkPointer (replicate 31 106 ++ [15]) 0, (MkOutput [3] 8 0, 5))], [ex_pointer 0; ex_pointer 1],
          [SecpTx (ex_key 1) (replicate 31 107 ++ [0]) [1]; SecpTx (ex_key 1) (replicate 31 107 ++ [1]) [1]]).
Proof. split; by vm_compute. Qed.

(** ** Data requests *)

(** A request with one witness, and a transaction of the owner with key 1 for it. *)
Definition ex_request : DataRequestOutput :=
  {| data_request := {| rad_time_lock := 0; retrieve := [{| kind := RadUnknown; url := ""; script := []; body := []; headers := [] |}];
                        aggregate := {| agg_filters := []; agg_reducer := 3 |}; rad_tally := {| tally_filters := []; tally_reducer := 3 |} |};
     witness_reward := 1; witnesses := 1; commit_and_reveal_fee := 1; min_consensus_percentage := 51; dro_collateral := 7 |}.
Definition ex_dr : DRTransaction := MkDR [MkInput (ex_pointer 0)] [MkOutput [1] 7 0] ex_request [ex_sig 1].

(** A pool with one request of epoch 3 that waits for commits. *)
Definition ex_requests : DataRequestPool :=
  MkPool ∅ {[ 3 := {[ [77] ]} ]} {[ [77] := state_new ex_request [1] 3 None ]} [] 3.
Definition ex_commit (index : OutputPointer) : CommitTransaction :=
  {| c_dr_pointer := [77]; c_commitment := [5]; c_proof := {| claim_proof := {| vrf_proof := []; vrf_public_key := ex_key 2 |} |};
     c_collateral := [MkInput index]; c_outputs := []; c_bn256_public_key := None; c_signatures := [ex_sig 2] |}.
Definition with_commits (t : BlockTransactions) (vts : list VTTransaction) (l : list CommitTransaction) : BlockTransactions :=
  MkTxns (mint t) vts (data_request_txns t) l (reveal_txns t) (tally_txns t) (stake_txns t) (unstake_txns t).

(** A commit whose collateral is an output created by an earlier transaction of the
    same block: the query for the block of the output ignores the changes of the block
    and the validation panics. *)
Example commit_of_new_output_panics :
  outcome (ex_validate (ex_pool ex_coins) ex_requests stakes_default
    (ex_block 5 (with_commits (no_txns 5 [MkOutput [3] 12 0]) [ex_transfer] [ex_commit (MkPointer (replicate 31 101 ++ [0]) 0)])))
  = Panic.
Proof. by vm_compute. Qed.

Definition with_requests_and_tallies (t : BlockTransactions) (drs : list DRTransaction) (l : list TallyTransaction) : BlockTransactions :=
  MkTxns (mint t) (value_transfer_txns t) drs (commit_txns t) (reveal_txns t) l (stake_txns t) (unstake_txns t).
(** The pool that a validation leaves behind. *)
Definition pool_after {A} (dr_pool : DataRequestPool) (r : exec DataRequestPool Failure A) : DataRequestPool :=
  match r with Ret q _ | Fail q _ => q | Crash => dr_pool end.

(** A request with more witnesses than the validators allow, in a block that is
    rejected because of another tally.  The request, added to the pool for the
    validation only, stays there in the stage of the tally, and from then on the pool
    rejects the block that it accepted before. *)
Definition ex_bad_block : Block :=
  ex_block 25 (with_requests_and_tallies (no_txns 25 []) [ex_dr] [MkTally [66] [] [] [] []]).
Definition ex_empty_block : Block := ex_block 25 (no_txns 25 []).
Example rejected_block_poisons_pool :
  let validate q b := ex_validate (ex_pool ex_coins) q stakes_default b in
  let q := pool_after (pool_new 3) (validate (pool_new 3) ex_bad_block) in
  outcome (validate (pool_new 3) ex_bad_block) = Err (TxError (DataRequestNotFound [66]))
  ∧ outcome (validate (pool_new 3) ex_empty_block) = Ok ([], [], [])
  ∧ outcome (validate q ex_empty_block) = Err (BlkError (MissingExpectedTallies 1 (replicate 32 25)))
  ∧ stage <$> (map_to_list (data_request_pool q)).*2 = [TALLY].
Proof. split_and!; by vm_compute. Qed.

(** The same request in a block with its own tally, which pays everything back. *)
Definition ex_refund : TallyTransaction := MkTally (replicate 31 102 ++ [0]) [1] [MkOutput [1] 3 0] [] [].
Definition ex_refund_block : Block := ex_block 25 (with_requests_and_tallies (no_txns 25 []) [ex_dr] [ex_refund]).
Example refund_block_accepted :
  outcome (ex_validate (ex_pool ex_coins) (pool_new 3) stakes_default ex_refund_block)
  = Ok ([(MkPointer (replicate 31 102 ++ [0]) 0, (MkOutput [1] 7 0, 1)); (MkPointer (replicate 31 105 ++ [32]) 0, (MkOutput [1] 3 0, 5))],
        [ex_pointer 0], [SecpTx (ex_key 1) (replicate 31 102 ++ [0]) [1]]).
Proof. by vm_compute. Qed.

Lemma ex_refund_returns :
  ∃ q' r, ex_validate (ex_pool ex_coins) (pool_new 3) stakes_default ex_refund_block = Ret q' r.
Proof. destruct (outcome_ok _ _ refund_block_accepted) as (q' & d & visits & Hk & _). by eexists _, _. Qed.

Lemma block_tallies_exact_witness :
  NoDup (t_dr_pointer <$> tally_txns (txns ex_refund_block))
  ∧ ∀ h, h ∈ t_dr_pointer <$> tally_txns (txns ex_refund_block)
         ↔ h ∈ block_unsolvable ex_info ex_tx_hash ex_refund_block stakes_default ∨ in_tally (pool_new 3) h.
Proof.
  destruct ex_refund_returns as (q' & r & Hk). unfold ex_validate in Hk.
  exact (block_tallies_exact ex_info Development ex_sha256 ex_tx_hash ex_header_hash ex_concat [] ex_verify ex_parse_key ex_parse_sig
           ex_from_slice ex_from_value ex_run_tally ex_encode_error (ex_pool ex_coins) (pool_new 3) ex_refund_block (MkVrfInput 0 []) []
           (engine_new 10) ex_epochs 5 ex_constants (ex_wips (checkpoint (beacon (block_header ex_refund_block)))) stakes_default q' r Hk).
Defined.

Lemma header_commits_to_transactions_witness :
  let v := get_protocol_version ex_info (Some (checkpoint (beacon (block_header ex_refund_block)))) in
  from_transactions ex_tx_hash ex_concat [] v (txns ex_refund_block) = Some (merkle_roots (block_header ex_refund_block))
  ∧ ∀ t, Forall2 (λ l1 l2, length l1 = length l2) (tx_ids ex_tx_hash v t) (tx_ids ex_tx_hash v (txns ex_refund_block)) →
      from_transactions ex_tx_hash ex_concat [] v t = Some (merkle_roots (block_header ex_refund_block)) →
      tx_ids ex_tx_hash v t = tx_ids ex_tx_hash v (txns ex_refund_block) ∨ collision ex_concat.
Proof.
  destruct ex_refund_returns as (q' & r & Hk). unfold ex_validate in Hk.
  exact (header_commits_to_transactions ex_info Development ex_sha256 ex_tx_hash ex_header_hash ex_concat [] ex_verify ex_parse_key
           ex_parse_sig ex_from_slice ex_from_value ex_run_tally ex_encode_error (ex_pool ex_coins) (pool_new 3) ex_refund_block
           (MkVrfInput 0 []) [] (engine_new 10) ex_epochs 5 ex_constants (ex_wips (checkpoint (beacon (block_header ex_refund_block)))) stakes_default q' r Hk).
Defined.

(** ** The genesis block *)

Definition ex_genesis_constants : ConsensusConstants :=
  {| cc_checkpoint_zero_timestamp := 0; cc_checkpoints_period := 45; activity_period := 2000; cc_reputation_expire_alpha_diff := 20000;
     cc_reputation_issuance := 1; cc_reputation_issuance_stop := 1048576; cc_reputation_penalization_factor := f64_one;
     cc_mining_replication_factor := 3; cc_collateral_age := 1000; superblock_signing_committee_size := 100;
     superblock_committee_decreasing_period := 5; superblock_committee_decreasing_step := 5; bootstrap_hash := [1]; genesis_hash := replicate 32 0; max_vt_weight := 20000;
     max_dr_weight := 80000; mining_backup_factor := 4; Consensus.collateral_minimum := 1; superblock_period := 10; cc_extra_rounds := 3;
     minimum_difficulty := 1; epochs_with_minimum_difficulty := 0; initial_block_reward := 8; halving_period := 100 |}.
Definition ex_genesis : Block :=
  default ex_empty_block (genesis ex_concat [] ex_tx_hash [1] [MkVT [] [MkOutput [1] 10 0; MkOutput [2] 20 0] []]).
Definition ex_validate_genesis :=
  validate_block_transactions ex_info Development ex_sha256 ex_tx_hash ex_header_hash ex_concat [] ex_verify ex_parse_key
    ex_parse_sig ex_from_slice ex_from_value ex_run_tally ex_encode_error (ex_pool []) (pool_new 3) ex_genesis (MkVrfInput 0 []) []
    (engine_new 10) ex_epochs 0 ex_genesis_constants (ex_wips 0) stakes_default.

Lemma ex_genesis_returns : ∃ q' d sv visits, ex_validate_genesis = Ret q' (d, sv, visits).
Proof.
  assert (match outcome ex_validate_genesis with Ok _ => true | _ => false end = true) as Hk by (by vm_compute).
  destruct ex_validate_genesis as [q' [[d sv] visits]| |]; [|done|done]. by exists q', d, sv, visits.
Qed.

Lemma genesis_supply_bounded_witness :
  ∃ q' d sv visits, ex_validate_genesis = Ret q' (d, sv, visits)
    ∧ ∃ p', diff_apply d (ex_pool []) = Some p' ∧ pool_ok p' ∅ ∧ worth (view p' ∅) + 1500 ≤ worth (view (ex_pool []) ∅) + U64 - 1.
Proof.
  destruct ex_genesis_returns as (q' & d & sv & visits & Hk). exists q', d, sv, visits. split; [done|]. unfold ex_validate_genesis in Hk.
  refine (genesis_supply_bounded ex_info ex_sha256 ex_tx_hash Development ex_header_hash
            ex_concat [] ex_verify ex_parse_key ex_parse_sig ex_from_slice ex_from_value ex_run_tally ex_encode_error
            (ex_pool []) ∅ (ex_pool_ok [] (List.Forall_nil _))
            (pool_new 3) ex_genesis (MkVrfInput 0 []) [] (engine_new 10) ex_epochs 0 ex_genesis_constants (ex_wips 0) stakes_default
            q' d sv visits 1500 _ _ _ _ _ _ _ Hk); clear Hk.
  - intros k v. rewrite ex_pool_view. change (list_to_map []) with (∅ : gmap OutputPointer Utxo). by rewrite lookup_empty.
  - split; [|constructor..]. constructor; [|constructor]. split; compute_decision.
  - compute_decision.
  - apply Forall_forall. intros h Hh. apply ex_new_id; [|constructor].
    revert h Hh. apply Forall_forall. compute_decision.
  - by vm_compute.
  - by vm_compute.
  - by vm_compute.
Defined.
