(* ===== verification/Consolidation.v ===== *)
(** * Consolidation of blocks

    Models the part of node/src/actors/chain_manager/mod.rs that validates the
    blocks of the chain and applies them to the state of the node: the deferred
    verification of signatures ([process_validations]), the rewards and slashings of
    version 2.0 ([process_wit2_stakes_changes]), the pools ([update_pools]) and the
    whole [consolidate_block] with its callers [process_requested_block] and
    [process_candidate].  The types of the state are those of
    data_structures/src/chain/mod.rs.

    Messages to other actors are outputs of the functions; log lines are left out,
    except that the errors of the pool of data requests, which the code only logs, are
    collected.  The protocol information is process-wide and part of the state of the
    manager.  Loops over the commits of a request follow the order of the map, which
    does not matter for the stakes of different validators. *)

From stdpp Require Import base tactics numbers list gmap.
From Stdlib Require Import ZArith Lia.
From S2P Require Import Prelude Stake Stakes Trs Ars Hashes Superblock Versioning Tapi Merkle Rad Float Priority Storage UtxoDb Utxo.
From S2P Require Import RepEngine Eligibility Epoch RadScript Transaction DataRequest TxPool TxFactory Consensus Validation BlockValidation.
Local Open Scope Z_scope.
Local Open Scope rust_scope.

(** ** Results *)

(** A call whose error is unwrapped, one whose error is ignored, and one whose error
    is logged. *)
Definition expect {S E A} (m : exec S E A) : option S := match m with Ret s _ => Some s | _ => None end.
Definition ignore {S E A} (m : exec S E A) : option S := match m with Ret s _ | Fail s _ => Some s | Crash => None end.
Definition logged {S E A} (m : exec S E A) : option (S * list E) :=
  match m with Ret s _ => Some (s, []) | Fail s e => Some (s, [e]) | Crash => None end.
(** [unwrap_or_default] of a number; [None] is a panic. *)
Definition unwrap_or_default {E} (m : result E Z) : option Z := match m with Ok z => Some z | Err _ => Some 0 | Panic => None end.
(** A loop whose body may panic. *)
Definition each_opt {S A} (body : S → A → option S) (l : list A) (s : S) : option S := foldl (λ acc x, s ← acc; body s x) (Some s) l.

(** ** Types of the state *)

Inductive StateMachine := WaitingConsensus | Synchronizing | AlmostSynced | Synced.
#[export] Instance StateMachine_eq_dec : EqDecision StateMachine.
Proof. solve_decision. Defined.

Record NodeStats := MkStats {
  block_proposed_count : Z;
  block_mined_count : Z;
  dr_eligibility_count : Z;
  commits_proposed_count : Z;
  commits_count : Z;
  last_block_proposed : Hash;
  slashed_count : Z;
}.
Definition count_slashed (s : NodeStats) : NodeStats :=
  MkStats (block_proposed_count s) (block_mined_count s) (dr_eligibility_count s) (commits_proposed_count s) (commits_count s)
    (last_block_proposed s) (wadd U32 (slashed_count s) 1).
Definition count_commit (s : NodeStats) (synced : bool) : NodeStats :=
  MkStats (block_proposed_count s) (block_mined_count s)
    (if synced then dr_eligibility_count s else wadd U32 (dr_eligibility_count s) 1)
    (if synced then commits_proposed_count s else wadd U32 (commits_proposed_count s) 1) (wadd U32 (commits_count s) 1)
    (last_block_proposed s) (slashed_count s).
Definition count_mined (s : NodeStats) (synced : bool) : NodeStats :=
  MkStats (if synced then block_proposed_count s else wadd U32 (block_proposed_count s) 1) (wadd U32 (block_mined_count s) 1)
    (dr_eligibility_count s) (commits_proposed_count s) (commits_count s) (last_block_proposed s) (slashed_count s).

Record ChainInfo := MkChainInfo {
  info_protocol : ProtocolInfo;
  info_constants : ConsensusConstants;
  highest_block_checkpoint : CheckpointBeacon;
  highest_superblock_checkpoint : CheckpointBeacon;
  highest_vrf_output : CheckpointVRF;
}.

(** [insert_keys_from_block]; [is_valid] is the check of a bn256 key. *)
Section keys.
Context (calculate_sha256 : list Z → Hash) (is_valid : list Z → bool).
Definition insert_bn256 (a : AltKeys) (k : PublicKeyHash) (v : list Z) : AltKeys := if is_valid v then <[k := v]> a else a.
Definition insert_keys_from_block (a : AltKeys) (b : Block) : AltKeys :=
  let a := match bn256_public_key (block_header b) with
           | Some v => insert_bn256 a (Hashes.pkh calculate_sha256 (proof (block_header b)).2) v
           | None => a
           end in
  foldl (λ a c, match c_bn256_public_key c with
                | Some v => insert_bn256 a (Hashes.pkh calculate_sha256 (vrf_public_key (claim_proof (c_proof c)))) v
                | None => a
                end) a (commit_txns (txns b)).
End keys.

Section consolidation.
Context `{UtxoDb D, FloatOrd}.
Context (env : Environment) (calculate_sha256 : list Z → Hash).
Context (tx_hash : option ProtocolVersion → Transaction → Hash) (header_hash : option ProtocolVersion → BlockHeader → Hash).

Abbreviation key_pkh := (Hashes.pkh calculate_sha256).
Abbreviation committer t := (key_pkh (vrf_public_key (claim_proof (c_proof t)))).
Abbreviation miner b := (key_pkh (proof (block_header b)).2).
Abbreviation block_epoch b := (checkpoint (beacon (block_header b))).

(** ** Stakes since version 2.0 *)

(** [data_request_is_pre_wit2] of the request that a commit, reveal or tally points
    at. *)
Definition data_request_is_pre_wit2 (pinfo : ProtocolInfo) (dr_pool : DataRequestPool) (dr_pointer : Hash) : bool :=
  match data_request_pool dr_pool !! dr_pointer with
  | Some st => before_v2 (get_protocol_version pinfo (Some (DataRequest.epoch st)))
  | None => false
  end.

(** The loop over the commits: collateral is taken from the stake. *)
Definition reserve_step (pinfo : ProtocolInfo) (dr_pool : DataRequestPool) (minimum_stakeable : Z) (s : StakesTracker * Z)
    (t : CommitTransaction) : option (StakesTracker * Z) :=
  let '(stakes, total_commit_reward) := s in
  if data_request_is_pre_wit2 pinfo dr_pool (c_dr_pointer t) then Some s
  else match get_dr_output dr_pool (c_dr_pointer t) with
       | Some dr_output =>
           stakes ← expect (reserve_collateral stakes (committer t) (dro_collateral dr_output) minimum_stakeable);
           Some (stakes, wadd U64 total_commit_reward (commit_and_reveal_fee dr_output))
       | None => Some (stakes, wadd U64 total_commit_reward 0)
       end.

Definition reveal_reward (pinfo : ProtocolInfo) (dr_pool : DataRequestPool) (txs : list RevealTransaction) : Z :=
  foldl (λ total t,
    if data_request_is_pre_wit2 pinfo dr_pool (r_dr_pointer t) then total
    else wadd U64 total (match get_dr_output dr_pool (r_dr_pointer t) with Some o => commit_and_reveal_fee o | None => 0 end))
    0 txs.

(** A reward that is only added when it is positive. *)
Definition reward_if_positive (stakes : StakesTracker) (v : PublicKeyHash) (reward epoch : Z) : option StakesTracker :=
  if decide (reward > 0) then expect (add_reward UNIT stakes v reward epoch) else Some stakes.

(** One tally: honest witnesses get collateral and reward, errors the collateral. *)
Definition tally_rewards (pinfo : ProtocolInfo) (dr_pool : DataRequestPool) (epoch : Z) (stakes : StakesTracker)
    (t : TallyTransaction) : option StakesTracker :=
  if data_request_is_pre_wit2 pinfo dr_pool (t_dr_pointer t) then Some stakes
  else
    let '(collateral, reward) :=
      match get_dr_output dr_pool (t_dr_pointer t) with Some o => (dro_collateral o, witness_reward o) | None => (0, 0) end in
    st ← data_request_pool dr_pool !! t_dr_pointer t;
    let honest := filter (λ p, p ∉ t_error_committers t ∧ p ∉ t_out_of_consensus t) (map_to_list (commits (DataRequest.info st))).*1 in
    stakes ← each_opt (λ s p, expect (add_reward UNIT s p (wadd U64 collateral reward) epoch)) honest stakes;
    each_opt (λ s p, expect (add_reward UNIT s p collateral epoch)) (t_error_committers t) stakes.

(** The fees of the transactions, read in the unspent outputs before the block. *)
Definition transaction_fees (u : UtxoDiff D) (epoch : Z) (c : EpochConstants) (t : BlockTransactions) : option Z :=
  let sum {A} (fee : A → option Z) (l : list A) (total : Z) : option Z :=
    each_opt (λ total x, f ← fee x; Some (wadd U64 total f)) l total in
  total ← sum (λ t, unwrap_or_default (vt_transaction_fee t u epoch c)) (value_transfer_txns t) 0;
  total ← sum (λ t, unwrap_or_default (dr_transaction_fee t u epoch c)) (data_request_txns t) total;
  total ← sum (λ t, unwrap_or_default (st_transaction_fee t u epoch c)) (stake_txns t) total;
  sum (λ t, Some (u_fee t)) (unstake_txns t) total.

Definition reset_witness (pinfo : ProtocolInfo) (dr_pool : DataRequestPool) (epoch : Z) (stakes : StakesTracker)
    (t : CommitTransaction) : option StakesTracker :=
  if data_request_is_pre_wit2 pinfo dr_pool (c_dr_pointer t) then Some stakes
  else expect (reset_age stakes (committer t) Witnessing (wadd U32 epoch 1) 1).
Definition slash_liars (pinfo : ProtocolInfo) (dr_pool : DataRequestPool) (epoch : Z) (stakes : StakesTracker)
    (t : TallyTransaction) : option StakesTracker :=
  if data_request_is_pre_wit2 pinfo dr_pool (t_dr_pointer t) then Some stakes
  else each_opt (λ s p, expect (reset_age s p Witnessing (wadd U32 epoch 10) 1))
         (filter (λ p, p ∉ t_error_committers t) (t_out_of_consensus t)) stakes.

(** [None] is a panic. *)
Definition process_wit2_stakes_changes (pinfo : ProtocolInfo) (b : Block) (dr_pool : DataRequestPool) (stakes : StakesTracker)
    (c : EpochConstants) (u : UtxoDiff D) : option StakesTracker :=
  let epoch := block_epoch b in
  let t := txns b in
  if decide (get_protocol_version pinfo (Some epoch) = V2_0) then
    let minimum_stakeable := get_validator_min_stake_nanowits pinfo epoch in
    '(stakes, total_commit_reward) ← each_opt (reserve_step pinfo dr_pool minimum_stakeable) (commit_txns t) (stakes, 0);
    stakes ← reward_if_positive stakes (miner b) total_commit_reward epoch;
    stakes ← reward_if_positive stakes (miner b) (reveal_reward pinfo dr_pool (reveal_txns t)) epoch;
    stakes ← each_opt (tally_rewards pinfo dr_pool epoch) (tally_txns t) stakes;
    fees ← transaction_fees u epoch c t;
    stakes ← expect (add_reward UNIT stakes (miner b) (wadd U64 fees (get_validator_block_reward pinfo epoch)) epoch);
    let stakes := reset_mining_age UNIT stakes (miner b) epoch in
    stakes ← each_opt (reset_witness pinfo dr_pool epoch) (commit_txns t) stakes;
    each_opt (slash_liars pinfo dr_pool epoch) (tally_txns t) stakes
  else Some stakes.

(** ** The pools *)

(** What [update_pools] changes, with the errors it logs. *)
Record Pools := MkPools {
  ps_utxos : UnspentOutputsPool D;
  ps_requests : DataRequestPool;
  ps_transactions : TransactionsPool;
  ps_own : OwnUnspentOutputsPool;
  ps_stats : NodeStats;
  ps_rep_info : ReputationInfo;
  ps_too_many : gset Hash;
  ps_errors : list DataRequestError;
}.
Definition with_requests_pool (s : Pools) (r : DataRequestPool * list DataRequestError) : Pools :=
  MkPools (ps_utxos s) r.1 (ps_transactions s) (ps_own s) (ps_stats s) (ps_rep_info s) (ps_too_many s) (ps_errors s ++ r.2).
Definition with_transactions (s : Pools) (t : TransactionsPool) : Pools :=
  MkPools (ps_utxos s) (ps_requests s) t (ps_own s) (ps_stats s) (ps_rep_info s) (ps_too_many s) (ps_errors s).

Section pools.
(** [is_too_many] decides whether the bytes of a tally are the error for too many
    witnesses; [visit] is the order of a hash map in the pool of transactions. *)
Context (pinfo : ProtocolInfo) (is_too_many : list Z → bool) (visit : ∀ A : Type, list A → list A).
Context (own_pkh : PublicKeyHash) (state_machine : StateMachine).

Abbreviation version_of e := (get_protocol_version pinfo (Some e)).

(** The requests that already failed with the error for too many witnesses. *)
Definition note_too_many (s : Pools) (t : TallyTransaction) : option Pools :=
  if is_too_many (t_tally t) then
    requests ← (match data_request_pool (ps_requests s) !! t_dr_pointer t with
                | Some st =>
                    if decide (stage st ≠ TALLY) then
                      st ← update_stage st 0 true;
                      Some (with_requests (ps_requests s) (<[t_dr_pointer t := st]> (data_request_pool (ps_requests s))))
                    else Some (ps_requests s)
                | None => Some (ps_requests s)
                end);
    Some (MkPools (ps_utxos s) requests (ps_transactions s) (ps_own s) (ps_stats s) (ps_rep_info s)
            ({[ t_dr_pointer t ]} ∪ ps_too_many s) (ps_errors s))
  else Some s.

(** [ReputationInfo::update] with the statistics of the node. *)
Definition note_reputation (s : Pools) (t : TallyTransaction) : option Pools :=
  i ← info_update (ps_rep_info s) t (ps_requests s);
  let stats := if decide (own_pkh ∈ t_out_of_consensus t ∧ own_pkh ∉ t_error_committers t)
               then count_slashed (ps_stats s) else ps_stats s in
  Some (MkPools (ps_utxos s) (ps_requests s) (ps_transactions s) (ps_own s) stats i (ps_too_many s) (ps_errors s)).

Definition pools_tally (epoch : Z) (block_hash : Hash) (s : Pools) (t : TallyTransaction) : option Pools :=
  s ← note_too_many s t;
  s ← (if before_v2 (version_of epoch) then note_reputation s t else Some s);
  r ← logged (process_tally (λ t, tx_hash None (Tally t)) (ps_requests s) t block_hash);
  let s := with_requests_pool s r in
  Some (with_transactions s (clear_reveals_from_finished_dr visit (ps_transactions s) (t_dr_pointer t))).

Definition pools_transfer (s : Pools) (t : VTTransaction) : option Pools :=
  r ← vt_remove (tx_hash None) (ps_transactions s) t; Some (with_transactions s r.1).

Definition pools_request (epoch : Z) (block_hash : Hash) (s : Pools) (t : DRTransaction) : option Pools :=
  if decide (tx_hash (Some (version_of epoch)) (DataRequest t) ∈ ps_too_many s) then
    r ← dr_remove (tx_hash None) (ps_transactions s) t; Some (with_transactions s r.1)
  else
    r ← logged (pool_process_data_request pinfo calculate_sha256 tx_hash (ps_requests s) t epoch (Some block_hash));
    let s := with_requests_pool s r in
    if decide (r.2 = []) then r ← dr_remove (tx_hash None) (ps_transactions s) t; Some (with_transactions s r.1) else Some s.

Definition pools_commit (epoch : Z) (block_hash : Hash) (s : Pools) (t : CommitTransaction) : option Pools :=
  r ← logged (process_commit calculate_sha256 (λ e t, tx_hash (Some (version_of e)) (Commit t)) (ps_requests s) t epoch block_hash);
  let s := with_requests_pool s r in
  if decide (r.2 = []) then
    let stats := if decide (committer t = own_pkh) then count_commit (ps_stats s) (bool_decide (state_machine = Synced)) else ps_stats s in
    let s := MkPools (ps_utxos s) (ps_requests s) (ps_transactions s) (ps_own s) stats (ps_rep_info s) (ps_too_many s) (ps_errors s) in
    p ← TxPool.remove_inputs (ps_transactions s) (c_collateral t); Some (with_transactions s p)
  else Some s.

Definition pools_reveal (epoch : Z) (block_hash : Hash) (s : Pools) (t : RevealTransaction) : option Pools :=
  r ← logged (process_reveal calculate_sha256 (λ e t, tx_hash (Some (version_of e)) (Reveal t)) (ps_requests s) t epoch block_hash);
  let s := with_requests_pool s r in
  p ← remove_one_reveal (ps_transactions s) (r_dr_pointer t) (r_pkh t) (tx_hash (Some (version_of epoch)) (Reveal t));
  Some (with_transactions s p.1).

Definition pools_stake (s : Pools) (t : StakeTransaction) : option Pools :=
  r ← st_remove (tx_hash None) (ps_transactions s) t; Some (with_transactions s r.1).
Definition pools_unstake (s : Pools) (t : UnstakeTransaction) : option Pools :=
  Some (with_transactions s (ut_remove (tx_hash None) (ps_transactions s) t).1).

(** The outputs of the node. *)
Definition update_own (own : OwnUnspentOutputsPool) (d : Diff) : OwnUnspentOutputsPool :=
  diff_visit d own (λ own k o, if decide (out_pkh o = own_pkh) then <[k := 0]> own else own) (λ own k, delete k own).

(** [update_pools]; [None] is a panic. *)
Definition update_pools (b : Block) (utxo_diff : Diff) (s : Pools) : option Pools :=
  let epoch := block_epoch b in
  let block_hash := header_hash (Some (version_of epoch)) (block_header b) in
  let t := txns b in
  s ← each_opt (pools_tally epoch block_hash) (tally_txns t) s;
  s ← each_opt pools_transfer (value_transfer_txns t) s;
  s ← each_opt (pools_request epoch block_hash) (data_request_txns t) s;
  s ← each_opt (pools_commit epoch block_hash) (commit_txns t) s;
  s ← each_opt (pools_reveal epoch block_hash) (reveal_txns t) s;
  s ← each_opt pools_stake (stake_txns t) s;
  s ← each_opt pools_unstake (unstake_txns t) s;
  let own := update_own (ps_own s) utxo_diff in
  utxos ← diff_apply utxo_diff (ps_utxos s);
  Some (MkPools utxos (ps_requests s) (ps_transactions s) own (ps_stats s) (ps_rep_info s) (ps_too_many s) (ps_errors s)).
End pools.
End consolidation.
