(* ===== verification/StakeChanges.v ===== *)
(** * The stakes of a block since version 2.0

    [process_wit2_stakes_changes] reserves the collateral of commits and pays miners
    and witnesses out of the fees, the requests and the block reward.  When every
    identity it names is a validator and every committer commits once with the
    collateral that the validation demands, it goes through and accounts for every
    coin ([stake_changes_accounted]).  The examples at the end show what happens
    otherwise. *)

From stdpp Require Import base tactics numbers list gmap sorting.
From Stdlib Require Import ZArith Lia.
From S2P Require Import Prelude Stake Stakes StakesCorrect Hashes Superblock Versioning Tapi Storage UtxoDb Utxo.
From S2P Require Import Epoch Transaction DataRequest TxFactory Consensus Validation Consolidation.
Local Open Scope Z_scope.

(** ** The tracker *)

Section tracker.
Implicit Types st : StakesTracker.

Definition total st : Z := msum coins (view st).
(** The identity validates for somebody. *)
Definition staked st (v : PublicKeyHash) : Prop := is_Some (by_validator st !! v).
(** The coins of its first entry, which rewards and collateral change. *)
Definition first_coins st (v : PublicKeyHash) : option Z :=
  ls ← by_validator st !! v; l ← head ls; Some (coins (read_value st l)).

(** A well-formed tracker whose entries hold at least [minimum], at least one unit. *)
Record ready (minimum : Z) st : Prop := {
  rd_wf : wf st;
  rd_entries : ∀ k s, view st !! k = Some s → minimum ≤ coins s;
  rd_total : total st < U64;
}.
(** The same validators with [delta] coins more. *)
Record evolves (minimum : Z) st st' (delta : Z) : Prop := {
  ev_ready : ready minimum st';
  ev_validators : by_validator st' = by_validator st;
  ev_total : total st' = total st + delta;
}.

Lemma evolves_refl minimum st : ready minimum st → evolves minimum st st 0.
Proof. intros Hr. split; [done..|lia]. Qed.
Lemma evolves_trans minimum st1 st2 st3 d1 d2 :
  evolves minimum st1 st2 d1 → evolves minimum st2 st3 d2 → evolves minimum st1 st3 (d1 + d2).
Proof. intros [_ Hv1 H1] [Hr Hv2 H2]. split; [done|congruence|lia]. Qed.
Lemma evolves_staked minimum st st' d v : evolves minimum st st' d → staked st v → staked st' v.
Proof. intros [_ Hv _]. unfold staked. by rewrite Hv. Qed.

Lemma entry_bounds minimum st k s :
  0 ≤ minimum → ready minimum st → view st !! k = Some s → minimum ≤ coins s ≤ total st.
Proof.
  intros Hm Hr Hk. split; [by eapply rd_entries|]. apply (msum_lookup_le coins (view st) k s); [|done].
  intros k' s' Hk'. pose proof (rd_entries minimum st Hr k' s' Hk'). lia.
Qed.

(** Writing the first cell of a validator. *)
Lemma write_first minimum st v l ls s' :
  0 ≤ minimum → ready minimum st → by_validator st !! v = Some (l :: ls) → minimum ≤ coins s' →
  total st - coins (read_value st l) + coins s' < U64 →
  evolves minimum st (write_value st l s') (coins s' - coins (read_value st l))
  ∧ ∀ v', v' ≠ v → first_coins (write_value st l s') v' = first_coins st v'.
Proof.
  intros Hm Hr Hv Hmin Hlt. destruct (slot_head st v _ (rd_wf _ _ Hr) Hv) as (l0 & ls0 & k & [= <- <-] & Hk & Hkv).
  pose proof (view_lookup st k l (rd_wf _ _ Hr) Hk) as Hview.
  assert (view (write_value st l s') = <[k := s']> (view st)) as Hv' by (by apply view_write; [apply Hr|]).
  assert (total (write_value st l s') = total st + (coins s' - coins (read_value st l))) as Ht.
  { unfold total. rewrite Hv', (msum_insert coins _ _ _ _ Hview). lia. }
  split.
  - split; [split|done|done].
    + by apply wf_write, Hr.
    + intros k' x. rewrite Hv'. intros [[<- <-]|[_ Hx]]%lookup_insert_Some; [done|]. by eapply rd_entries.
    + lia.
  - intros v' Hne. unfold first_coins. cbn [write_value by_validator].
    destruct (by_validator st !! v') as [ls'|] eqn:Hls; [|done]. cbn [mbind option_bind].
    destruct (slot_head st v' ls' (rd_wf _ _ Hr) Hls) as (l' & ? & k' & -> & Hk' & Hkv'). cbn [head mbind option_bind].
    destruct (wf_cell st (rd_wf _ _ Hr) k' l' Hk') as (e & He & _).
    rewrite read_write by eauto. rewrite decide_False; [done|]. intros ->.
    rewrite (wf_inj st k k' l (rd_wf _ _ Hr) Hk Hk') in Hkv. congruence.
Qed.

(** An identity that validates is paid its reward. *)
Lemma reward_paid minimum st v r epoch :
  10 ^ UNIT ≤ minimum → ready minimum st → staked st v → 0 ≤ r → total st + r < U64 →
  ∃ st', add_reward UNIT st v r epoch = Ret st' tt ∧ evolves minimum st st' r.
Proof.
  intros Hm Hr [ls Hv] Hr0 Hlt. destruct (slot_head st v ls (rd_wf _ _ Hr) Hv) as (l & ls' & k & -> & Hk & Hkv).
  pose proof (view_lookup st k l (rd_wf _ _ Hr) Hk) as Hview.
  assert (0 < 10 ^ UNIT) as Hu by (by vm_compute).
  destruct (entry_bounds minimum st k _ ltac:(lia) Hr Hview) as [Hlo Hhi].
  unfold add_reward. rewrite Hv. unfold stake_add_stake. rewrite decide_False by lia.
  unfold ALL_CAPABILITIES, average_epochs, average_epoch, wit_add.
  rewrite wadd_small by lia.
  assert (lose_precision (coins (read_value st l) + r) UNIT ≠ 0) as Hd.
  { unfold lose_precision. enough (1 ≤ (coins (read_value st l) + r) / 10 ^ UNIT) by lia. apply Z.div_le_lower_bound; lia. }
  do 2 (rewrite decide_False by done; cbn [rbind]). eexists. split; [done|].
  match goal with |- evolves _ _ (write_value _ _ ?s) _ => set (s' := s) end.
  assert (coins s' = coins (read_value st l) + r) as Hc by done.
  replace r with (coins s' - coins (read_value st l)) by lia. eapply write_first; [lia|done|done|lia|lia].
Qed.

(** Collateral that leaves the minimum in the first entry is taken from it. *)
Lemma collateral_reserved minimum st v amount :
  10 ^ UNIT ≤ minimum → ready minimum st → 0 ≤ amount →
  (∃ f, first_coins st v = Some f ∧ minimum + amount ≤ f) →
  ∃ st', reserve_collateral st v amount minimum = Ret st' tt ∧ evolves minimum st st' (- amount)
    ∧ ∀ v', v' ≠ v → first_coins st' v' = first_coins st v'.
Proof.
  intros Hm Hr Ha (f & Hf & Hle). assert (0 < 10 ^ UNIT) as Hu by (by vm_compute). unfold first_coins in Hf.
  apply bind_Some in Hf as (ls & Hv & Hf). apply bind_Some in Hf as (l & Hl & [= <-]). destruct ls as [|? ls]; [done|].
  injection Hl as ->. destruct (slot_head st v _ (rd_wf _ _ Hr) Hv) as (? & ? & k & [= <- <-] & Hk & _).
  destruct (entry_bounds minimum st k _ ltac:(lia) Hr (view_lookup st k l (rd_wf _ _ Hr) Hk)) as [Hlo Hhi].
  pose proof (rd_total _ _ Hr).
  unfold reserve_collateral. rewrite Hv. unfold stake_remove_stake, wit_sub. rewrite wsub_small by lia.
  rewrite decide_False by lia. eexists. split; [done|].
  match goal with |- context [write_value _ _ ?s] => set (s' := s) end.
  assert (coins s' = coins (read_value st l) - amount) as Hc by done.
  replace (- amount) with (coins s' - coins (read_value st l)) by lia. eapply write_first; [lia|done|done|lia|lia].
Qed.

(** Resets of ages do not move coins. *)
Lemma same_coins_evolve minimum st st' :
  ready minimum st → wf st' → by_validator st' = by_validator st → (∀ k, coins <$> view st' !! k = coins <$> view st !! k) →
  evolves minimum st st' 0.
Proof.
  intros Hr Hwf Hv Hc.
  assert (total st' = total st) as Ht.
  { assert (coins <$> view st' = coins <$> view st) as Heq by (apply map_eq; intros k; rewrite !lookup_fmap; apply Hc).
    unfold total. change (msum (λ s, id (coins s)) (view st') = msum (λ s, id (coins s)) (view st)).
    by rewrite <-msum_fmap, Heq, msum_fmap. }
  split; [|done|lia]. split; [done| |rewrite Ht; apply Hr].
  intros k s Hk. specialize (Hc k). rewrite Hk in Hc. destruct (view st !! k) as [s0|] eqn:Hk0; [|done].
  injection Hc as ->. by eapply rd_entries.
Qed.

Lemma foldl_write_validators (f : Stake → Stake) ls st :
  by_validator (foldl (λ st l, write_value st l (f (read_value st l))) st ls) = by_validator st.
Proof. revert st. induction ls as [|l ls IH]; intros st; [done|]. cbn [foldl]. by rewrite IH. Qed.
Lemma mining_loop_validators w t ks : ∀ st i, by_validator (reset_mining_loop st w i t ks) = by_validator st.
Proof. induction ks as [|k ks IH]; intros st i; [done|]. cbn [reset_mining_loop]. destruct (by_key st !! k); by rewrite IH. Qed.

Lemma age_reset_kept minimum st v c t :
  ready minimum st → staked st v → ∃ st', reset_age st v c t 1 = Ret st' tt ∧ evolves minimum st st' 0.
Proof.
  intros Hr [ls Hv]. pose proof (reset_age_outcome st v c t 1 (rd_wf _ _ Hr) ltac:(lia)) as Ho. rewrite Hv in Ho.
  destruct Ho as (st' & Hst & Hwf & Hview). exists st'. split; [done|]. apply same_coins_evolve; [done..| |].
  - unfold reset_age in Hst. rewrite Hv, decide_False in Hst by (by intros [? _]). injection Hst as <-.
    apply (foldl_write_validators (λ s, stake_reset_age s c (wadd U32 (cap_get (epochs s) c) (wsub U32 t (cap_get (epochs s) c) / 1)))).
  - intros k. rewrite Hview, map_lookup_imap. destruct (view st !! k); [|done]. cbn. by case_decide.
Qed.
Lemma mining_age_reset_kept minimum st v t : ready minimum st → evolves minimum st (reset_mining_age UNIT st v t) 0.
Proof.
  intros Hr. unfold reset_mining_age. destruct (rank_position _ _) as [w|] eqn:Hw; [|by apply evolves_refl].
  apply same_coins_evolve; [done| | |].
  - pose proof (reset_mining_age_outcome UNIT st v t w (rd_wf _ _ Hr) Hw) as [Hwf _]. unfold reset_mining_age in Hwf. by rewrite Hw in Hwf.
  - apply mining_loop_validators.
  - apply reset_mining_loop_coins; [apply Hr|by apply ranked_prefix_NoDup, Hr|]. intros k. by apply ranked_known, Hr.
Qed.
End tracker.

(** ** Loops *)

Lemma each_opt_cons {S A} (body : S → A → option S) x l s : each_opt body (x :: l) s = body s x ≫= each_opt body l.
Proof.
  unfold each_opt. cbn [foldl mbind option_bind]. destruct (body s x) as [s'|]; [done|]. cbn [mbind option_bind].
  induction l as [|y l IH]; [done|]. cbn [foldl mbind option_bind]. exact IH.
Qed.

Lemma each_evolves {A} (body : StakesTracker → A → option StakesTracker) (amount : A → Z) minimum bv l :
  (∀ st x, x ∈ l → ready minimum st → by_validator st = bv → total st + amount x < U64 →
     ∃ st', body st x = Some st' ∧ evolves minimum st st' (amount x)) →
  Forall (λ x, 0 ≤ amount x) l →
  ∀ st, ready minimum st → by_validator st = bv → total st + zsum (amount <$> l) < U64 →
  ∃ st', each_opt body l st = Some st' ∧ evolves minimum st st' (zsum (amount <$> l)).
Proof.
  induction l as [|x l IH]; intros Hbody Hpos st Hr Hbv Hlt; [exists st; by split; [|apply evolves_refl]|].
  rewrite zsum_cons in Hlt. apply Forall_cons in Hpos as [Hx Hpos].
  assert (0 ≤ zsum (amount <$> l)) by (by apply zsum_nonneg, Forall_fmap).
  destruct (Hbody st x) as (st1 & Hst1 & Hev); [by left|done|done|lia|].
  destruct (IH ltac:(intros; apply Hbody; [by right|done..]) Hpos st1) as (st2 & Hst2 & Hev2); [apply Hev| |rewrite (ev_total _ _ _ _ Hev); lia|].
  { by rewrite (ev_validators _ _ _ _ Hev). }
  exists st2. rewrite each_opt_cons, Hst1. cbn [mbind option_bind]. split; [done|]. rewrite zsum_cons. by eapply evolves_trans.
Qed.

(** ** The changes of a block *)

Section changes.
Context `{UtxoDb D}.
Context (calculate_sha256 : list Z → Hash) (pinfo : ProtocolInfo) (q : DataRequestPool) (minimum : Z).
Hypothesis minimum_unit : 10 ^ UNIT ≤ minimum.

Abbreviation key_pkh := (Hashes.pkh calculate_sha256).
Abbreviation committer t := (key_pkh (vrf_public_key (claim_proof (c_proof t)))).
Abbreviation miner b := (key_pkh (proof (block_header b)).2).
(** The requests that follow the rules of version 2.0. *)
Abbreviation post ptr := (data_request_is_pre_wit2 pinfo q ptr = false).

Definition of_request (f : DataRequestOutput → Z) (ptr : Hash) : Z := match get_dr_output q ptr with Some o => f o | None => 0 end.

(** What a tally pays: collateral and reward to honest committers, the collateral to
    those with errors. *)
Definition honest_of (t : TallyTransaction) : list PublicKeyHash :=
  match data_request_pool q !! t_dr_pointer t with
  | Some st => filter (λ p, p ∉ t_error_committers t ∧ p ∉ t_out_of_consensus t) (map_to_list (commits (info st))).*1
  | None => []
  end.
Definition tally_pays (t : TallyTransaction) : Z :=
  let collateral := of_request dro_collateral (t_dr_pointer t) in
  let reward := of_request witness_reward (t_dr_pointer t) in
  Z.of_nat (length (honest_of t)) * (collateral + reward) + Z.of_nat (length (t_error_committers t)) * collateral.
Definition liars_of (t : TallyTransaction) : list PublicKeyHash := filter (λ p, p ∉ t_error_committers t) (t_out_of_consensus t).

(** The amounts of the requests of the pool are not negative. *)
Definition amounts_typed : Prop :=
  ∀ h st, data_request_pool q !! h = Some st →
    0 ≤ dro_collateral (request st) ∧ 0 ≤ witness_reward (request st) ∧ 0 ≤ commit_and_reveal_fee (request st).
Context (Htyped : amounts_typed).

Lemma of_request_nonneg h :
  0 ≤ of_request dro_collateral h ∧ 0 ≤ of_request witness_reward h ∧ 0 ≤ of_request commit_and_reveal_fee h.
Proof using Htyped.
  unfold of_request, get_dr_output. destruct (data_request_pool q !! h) as [st|] eqn:E; cbn; [|lia]. by eapply Htyped.
Qed.

(** A commit whose collateral leaves the minimum, as the validation of commits
    demands. *)
Definition covered (st : StakesTracker) (t : CommitTransaction) : Prop :=
  match get_dr_output q (c_dr_pointer t) with
  | Some o => ∃ f, first_coins st (committer t) = Some f ∧ minimum + dro_collateral o ≤ f
  | None => True
  end.

(** What the validation of a commit checks against the stakes before the block. *)
Lemma validated_covered t dr (u : UtxoDiff D) e c required n age period st :
  ready minimum st → get_dr_output q (c_dr_pointer t) = Some dr → dro_collateral dr ≤ required → 0 ≤ required → minimum + required < U64 →
  validate_commit_collateral calculate_sha256 t u e c required n age period V2_0 st minimum = Ok tt →
  covered st t.
Proof using minimum_unit.
  intros Hr Hdr Hle H0 Hlt. assert (0 < 10 ^ UNIT) as Hu by (by vm_compute).
  unfold validate_commit_collateral, entries_of, query_stakes, query_by_validator, covered, first_coins. rewrite Hdr.
  destruct (by_validator st !! committer t) as [ls|] eqn:Hv; [|done].
  destruct (slot_head st _ ls (rd_wf _ _ Hr) Hv) as (l & ls' & k & -> & Hk & _).
  destruct (wf_cell st (rd_wf _ _ Hr) k l Hk) as (e' & He & _). cbn. unfold read_value, read_entry in *. rewrite He. cbn.
  case_decide as Hd; [done|]. intros _. eexists. split; [done|]. rewrite wadd_small in Hd by lia. lia.
Qed.

(** The commits that are charged, the fees and the collateral of transactions. *)
Definition charged (l : list CommitTransaction) : list CommitTransaction := filter (λ t, post (c_dr_pointer t)) l.
Definition fees_of {A} (ptr : A → Hash) (l : list A) : Z := zsum ((λ t, of_request commit_and_reveal_fee (ptr t)) <$> l).
Definition collateral_of (l : list CommitTransaction) : Z := zsum ((λ t, of_request dro_collateral (c_dr_pointer t)) <$> l).

Lemma fees_of_nonneg {A} (ptr : A → Hash) l : 0 ≤ fees_of ptr l.
Proof using Htyped. apply zsum_nonneg, Forall_fmap, Forall_true. intros x. apply of_request_nonneg. Qed.
Lemma charged_cons t l : charged (t :: l) = if data_request_is_pre_wit2 pinfo q (c_dr_pointer t) then charged l else t :: charged l.
Proof. unfold charged. rewrite filter_cons. by destruct (data_request_is_pre_wit2 _ _ _). Qed.

(** One commit. *)
Lemma reserve_one st acc t :
  ready minimum st → post (c_dr_pointer t) → covered st t → 0 ≤ acc → acc + of_request commit_and_reveal_fee (c_dr_pointer t) < U64 →
  ∃ st', reserve_step calculate_sha256 pinfo q minimum (st, acc) t = Some (st', acc + of_request commit_and_reveal_fee (c_dr_pointer t))
    ∧ evolves minimum st st' (- of_request dro_collateral (c_dr_pointer t))
    ∧ ∀ v', v' ≠ committer t → first_coins st' v' = first_coins st v'.
Proof using Htyped minimum_unit.
  intros Hr Hpost Hcov Hacc Hlt. destruct (of_request_nonneg (c_dr_pointer t)) as (Hc0 & _ & Hf0).
  unfold reserve_step. rewrite Hpost. unfold covered, of_request in *. destruct (get_dr_output q (c_dr_pointer t)) as [o|].
  - destruct (collateral_reserved minimum st (committer t) (dro_collateral o)) as (st1 & -> & ? & ?); [done..|].
    exists st1. cbn [expect mbind option_bind]. by rewrite wadd_small by lia.
  - exists st. rewrite wadd_small by lia. split; [done|]. split; [by apply evolves_refl|done].
Qed.

Lemma reserve_all l : ∀ st acc,
  ready minimum st → NoDup ((λ t, committer t) <$> charged l) → Forall (covered st) (charged l) →
  0 ≤ acc → acc + fees_of c_dr_pointer (charged l) < U64 →
  ∃ st', each_opt (reserve_step calculate_sha256 pinfo q minimum) l (st, acc) = Some (st', acc + fees_of c_dr_pointer (charged l))
    ∧ evolves minimum st st' (- collateral_of (charged l)).
Proof using Htyped minimum_unit.
  induction l as [|t l IH]; intros st acc Hr Hnd Hcov Hacc Hlt.
  { exists st. unfold fees_of, collateral_of. cbn. rewrite Z.add_0_r. split; [done|]. by apply evolves_refl. }
  rewrite each_opt_cons. rewrite charged_cons in *.
  destruct (data_request_is_pre_wit2 pinfo q (c_dr_pointer t)) eqn:Epre.
  { assert (reserve_step calculate_sha256 pinfo q minimum (st, acc) t = Some (st, acc)) as -> by (unfold reserve_step; by rewrite Epre).
    by apply IH. }
  rewrite fmap_cons in Hnd. apply NoDup_cons in Hnd as [Hnew Hnd]. apply Forall_cons in Hcov as [Ht Hcov].
  unfold fees_of, collateral_of in *. rewrite !zsum_cons in *. pose proof (fees_of_nonneg c_dr_pointer (charged l)) as Hz. unfold fees_of in Hz.
  destruct (of_request_nonneg (c_dr_pointer t)) as (_ & _ & Hf0).
  destruct (reserve_one st acc t) as (st1 & -> & Hev & Hother); [done..|lia|].
  destruct (IH st1 (acc + of_request commit_and_reveal_fee (c_dr_pointer t))) as (st2 & Hst2 & Hev2); [apply Hev|done| |lia|lia|].
  - rewrite Forall_forall in Hcov |- *. intros x Hx. specialize (Hcov x Hx). unfold covered in *.
    destruct (get_dr_output q (c_dr_pointer x)); [|done]. rewrite Hother; [done|].
    intros Heq. apply Hnew. rewrite <-Heq. by apply (list_elem_of_fmap_2 (λ t, committer t)).
  - exists st2. cbn [mbind option_bind]. rewrite Hst2. split; [do 2 f_equal; lia|].
    rewrite Z.opp_add_distr. by eapply evolves_trans.
Qed.

(** Rewards of a list of identities that validate. *)
Lemma rewards_paid bv (l : list PublicKeyHash) r epoch st :
  0 ≤ r → Forall (λ p, is_Some (bv !! p)) l → ready minimum st → by_validator st = bv → total st + Z.of_nat (length l) * r < U64 →
  ∃ st', each_opt (λ s p, expect (add_reward UNIT s p r epoch)) l st = Some st' ∧ evolves minimum st st' (Z.of_nat (length l) * r).
Proof using minimum_unit.
  intros Hr0 Hl Hr Hbv Hlt. rewrite Forall_forall in Hl.
  assert (zsum ((λ _, r) <$> l) = Z.of_nat (length l) * r) as Hz.
  { clear. induction l as [|x l IH]; [done|]. rewrite zsum_cons, IH. cbn [length]. lia. }
  rewrite <-Hz in *. eapply each_evolves; [|by apply Forall_true|done|exact Hbv|done].
  intros st1 x Hx Hr1 Hbv1 Hlt1. destruct (reward_paid minimum st1 x r epoch) as (st2 & -> & Hev); [done..| |done|done|by exists st2].
  unfold staked. rewrite Hbv1. by apply Hl.
Qed.
Lemma age_resets (l : list PublicKeyHash) c t bv st :
  Forall (λ p, is_Some (bv !! p)) l → ready minimum st → by_validator st = bv →
  ∃ st', each_opt (λ s p, expect (reset_age s p c t 1)) l st = Some st' ∧ evolves minimum st st' 0.
Proof using.
  intros Hl Hr Hbv. rewrite Forall_forall in Hl.
  assert (zsum ((λ _, 0) <$> l) = 0) as Hz by (clear; induction l as [|x l IH]; [done|]; by rewrite zsum_cons, IH).
  rewrite <-Hz. eapply each_evolves; [|by apply Forall_true|done|exact Hbv|rewrite Hz; pose proof (rd_total _ _ Hr); lia].
  intros st1 x Hx Hr1 Hbv1 Hlt1. destruct (age_reset_kept minimum st1 x c t) as (st2 & -> & Hev); [done| |by exists st2].
  unfold staked. rewrite Hbv1. by apply Hl.
Qed.
Lemma reward_paid_if_positive st v r epoch :
  ready minimum st → staked st v → 0 ≤ r → total st + r < U64 →
  ∃ st', reward_if_positive st v r epoch = Some st' ∧ evolves minimum st st' r.
Proof using minimum_unit.
  intros Hr Hv Hr0 Hlt. unfold reward_if_positive. case_decide.
  - destruct (reward_paid minimum st v r epoch) as (st' & -> & ?); [done..|]. by exists st'.
  - assert (r = 0) as -> by lia. exists st. split; [done|]. by apply evolves_refl.
Qed.

(** The reveals of a block. *)
Definition rewarded (l : list RevealTransaction) : list RevealTransaction := filter (λ t, post (r_dr_pointer t)) l.
Lemma reveal_reward_sum l :
  fees_of r_dr_pointer (rewarded l) < U64 → reveal_reward pinfo q l = fees_of r_dr_pointer (rewarded l).
Proof using Htyped.
  intros Hlt. unfold reveal_reward. set (f := λ total t, _).
  enough (∀ acc, 0 ≤ acc → acc + fees_of r_dr_pointer (rewarded l) < U64 → foldl f acc l = acc + fees_of r_dr_pointer (rewarded l)) as Hacc
    by (rewrite Hacc; lia).
  clear Hlt. induction l as [|t l IH]; intros acc Hacc Hlt; [unfold fees_of; cbn; lia|].
  cbn [foldl]. unfold f at 2. unfold rewarded in *. rewrite filter_cons in *. destruct (data_request_is_pre_wit2 pinfo q (r_dr_pointer t)) eqn:E.
  - rewrite decide_False in * by done. by apply IH.
  - rewrite decide_True in * by done. unfold fees_of in *. rewrite zsum_cons in *.
    pose proof (fees_of_nonneg r_dr_pointer (filter (λ t, post (r_dr_pointer t)) l)) as Hz. unfold fees_of in Hz.
    destruct (of_request_nonneg (r_dr_pointer t)) as (_ & _ & Hf). fold (of_request commit_and_reveal_fee (r_dr_pointer t)).
    rewrite wadd_small by lia. rewrite IH by lia. lia.
Qed.

(** The identities that a tally names validate. *)
Definition tally_staked (st : StakesTracker) (t : TallyTransaction) : Prop :=
  post (t_dr_pointer t) →
    is_Some (data_request_pool q !! t_dr_pointer t) ∧ Forall (staked st) (honest_of t)
    ∧ Forall (staked st) (t_error_committers t) ∧ Forall (staked st) (liars_of t).
Definition pays (t : TallyTransaction) : Z := if data_request_is_pre_wit2 pinfo q (t_dr_pointer t) then 0 else tally_pays t.
Lemma pays_nonneg t : 0 ≤ pays t.
Proof using Htyped. unfold pays, tally_pays. destruct (of_request_nonneg (t_dr_pointer t)) as (? & ? & _). destruct (data_request_is_pre_wit2 _ _ _); nia. Qed.

Lemma tally_paid st epoch t :
  ready minimum st → tally_staked st t → total st + pays t < U64 →
  ∃ st', tally_rewards pinfo q epoch st t = Some st' ∧ evolves minimum st st' (pays t).
Proof using Htyped minimum_unit.
  intros Hr Ht Hlt. unfold tally_rewards, pays in *. destruct (data_request_is_pre_wit2 pinfo q (t_dr_pointer t)) eqn:E.
  { exists st. split; [done|]. by apply evolves_refl. }
  destruct (Ht E) as ([s Hs] & Hh & He & _). destruct (of_request_nonneg (t_dr_pointer t)) as (Hc & Hw & _).
  unfold tally_pays, honest_of, of_request, get_dr_output in *. rewrite Hs in *. cbn [fmap option_fmap option_map mbind option_bind] in *.
  set (honest := filter _ _) in *.
  assert (wadd U64 (dro_collateral (request s)) (witness_reward (request s)) = dro_collateral (request s) + witness_reward (request s)
          ∨ honest = []) as Hsum.
  { destruct honest; [by right|left]. apply wadd_small. pose proof (msum_nonneg coins (view st)) as Hn.
    assert (0 ≤ total st). { apply Hn. intros k x Hk. assert (0 < 10 ^ UNIT) by (by vm_compute). pose proof (rd_entries minimum st Hr k x Hk). lia. }
    cbn [length] in Hlt. nia. }
  assert (∀ bv, by_validator st = bv → ∃ st1, each_opt (λ s0 p, expect (add_reward UNIT s0 p
      (wadd U64 (dro_collateral (request s)) (witness_reward (request s))) epoch)) honest st = Some st1
      ∧ evolves minimum st st1 (Z.of_nat (length honest) * (dro_collateral (request s) + witness_reward (request s)))) as Hhon.
  { intros bv Hbv. destruct Hsum as [->| ->].
    - eapply rewards_paid; [lia| |done|exact Hbv|nia]. unfold staked in Hh. by rewrite Hbv in Hh.
    - exists st. split; [done|]. by apply evolves_refl. }
  destruct (Hhon _ eq_refl) as (st1 & -> & Hev1). cbn [mbind option_bind].
  destruct (rewards_paid (by_validator st) (t_error_committers t) (dro_collateral (request s)) epoch st1) as (st2 & Hst2 & Hev2);
    [done|done|apply Hev1|apply Hev1|rewrite (ev_total _ _ _ _ Hev1); lia|].
  exists st2. split; [done|]. by eapply evolves_trans.
Qed.

(** Fees are sums of words. *)
Lemma fee_sum_nonneg {A} (fee : A → option Z) l : ∀ acc r,
  each_opt (λ total x, f ← fee x; Some (wadd U64 total f)) l acc = Some r → 0 ≤ acc → 0 ≤ r.
Proof using.
  induction l as [|x l IH]; intros acc r; [by intros [= ->]|]. rewrite each_opt_cons.
  destruct (fee x) as [f|]; [|done]. cbn [mbind option_bind]. intros Hr _. apply (IH _ _ Hr). unfold wadd. apply Z.mod_pos_bound. by unfold_moduli.
Qed.
Lemma transaction_fees_nonneg (u : UtxoDiff D) epoch c t r : transaction_fees u epoch c t = Some r → 0 ≤ r.
Proof using.
  unfold transaction_fees. intros (x & Hx & (y & Hy & (z & Hz & Hr)%bind_Some)%bind_Some)%bind_Some.
  eapply fee_sum_nonneg; [exact Hr|]. eapply fee_sum_nonneg; [exact Hz|]. eapply fee_sum_nonneg; [exact Hy|].
  eapply fee_sum_nonneg; [exact Hx|done].
Qed.

Lemma tallies_paid l epoch st :
  ready minimum st → Forall (tally_staked st) l → total st + zsum (pays <$> l) < U64 →
  ∃ st', each_opt (tally_rewards pinfo q epoch) l st = Some st' ∧ evolves minimum st st' (zsum (pays <$> l)).
Proof using Htyped minimum_unit.
  intros Hr Hl Hlt. rewrite Forall_forall in Hl. eapply each_evolves; [|apply Forall_true, pays_nonneg|done|reflexivity|done].
  intros st1 t Ht Hr1 Hbv Hlt1. apply tally_paid; [done| |done]. specialize (Hl t Ht). unfold tally_staked, staked in *. by rewrite Hbv.
Qed.
(** Steps that pay nothing. *)
Lemma each_neutral {A} (body : StakesTracker → A → option StakesTracker) l st :
  ready minimum st →
  (∀ st1 x, x ∈ l → ready minimum st1 → by_validator st1 = by_validator st → ∃ st', body st1 x = Some st' ∧ evolves minimum st1 st' 0) →
  ∃ st', each_opt body l st = Some st' ∧ evolves minimum st st' 0.
Proof using.
  intros Hr Hbody. assert (zsum ((λ _, 0) <$> l) = 0) as Hz by (clear; induction l as [|x l IH]; [done|]; by rewrite zsum_cons, IH).
  rewrite <-Hz. eapply each_evolves; [|by apply Forall_true|done|reflexivity|rewrite Hz; pose proof (rd_total _ _ Hr); lia].
  intros st1 x Hx Hr1 Hbv _. by apply Hbody.
Qed.
Lemma witnesses_reset l epoch st :
  ready minimum st → Forall (λ t, staked st (committer t)) (charged l) →
  ∃ st', each_opt (reset_witness calculate_sha256 pinfo q epoch) l st = Some st' ∧ evolves minimum st st' 0.
Proof using.
  intros Hr Hl. rewrite Forall_forall in Hl. apply each_neutral; [done|]. intros st1 t Ht Hr1 Hbv.
  unfold reset_witness. destruct (data_request_is_pre_wit2 pinfo q (c_dr_pointer t)) eqn:E; [exists st1; by split; [|apply evolves_refl]|].
  destruct (age_reset_kept minimum st1 (committer t) Witnessing (wadd U32 epoch 1)) as (st2 & -> & Hev); [done| |by exists st2].
  unfold staked. rewrite Hbv. apply (Hl t). by apply list_elem_of_filter.
Qed.
Lemma liars_slashed l epoch st :
  ready minimum st → Forall (tally_staked st) l →
  ∃ st', each_opt (slash_liars pinfo q epoch) l st = Some st' ∧ evolves minimum st st' 0.
Proof using.
  intros Hr Hl. rewrite Forall_forall in Hl. apply each_neutral; [done|]. intros st1 t Ht Hr1 Hbv.
  unfold slash_liars. destruct (data_request_is_pre_wit2 pinfo q (t_dr_pointer t)) eqn:E; [exists st1; by split; [|apply evolves_refl]|].
  destruct (Hl t Ht E) as (_ & _ & _ & Hliars). by apply (age_resets _ _ _ (by_validator st)).
Qed.

Lemma tallies_staked_evolve st st' d l : evolves minimum st st' d → Forall (tally_staked st) l → Forall (tally_staked st') l.
Proof using. intros Hev. unfold tally_staked, staked. by rewrite (ev_validators _ _ _ _ Hev). Qed.

(** What a block pays to stakes. *)
Definition block_pays (b : Block) (fees : Z) : Z :=
  fees_of c_dr_pointer (charged (commit_txns (txns b))) + fees_of r_dr_pointer (rewarded (reveal_txns (txns b)))
  + zsum (pays <$> tally_txns (txns b)) + (fees + get_validator_block_reward pinfo (checkpoint (beacon (block_header b)))).

(** Everybody that the block names validates, nobody commits twice, and the
    collateral leaves the minimum. *)
Record block_staked (st : StakesTracker) (b : Block) : Prop := {
  bs_miner : staked st (miner b);
  bs_committers : Forall (λ t, staked st (committer t)) (charged (commit_txns (txns b)));
  bs_once : NoDup ((λ t, committer t) <$> charged (commit_txns (txns b)));
  bs_covered : Forall (covered st) (charged (commit_txns (txns b)));
  bs_tallies : Forall (tally_staked st) (tally_txns (txns b));
}.

(** C4. The changes of stakes of a block.  When everybody that a block of version 2.0 names
    validates, nobody commits twice and the collateral leaves the minimum, the changes
    of stakes go through; every entry still has the minimum, the validators are the
    same, and the total changes by what the block pays minus the collateral. *)
Theorem stake_changes_accounted b st c (u : UtxoDiff D) fees :
  let epoch := checkpoint (beacon (block_header b)) in
  get_protocol_version pinfo (Some epoch) = V2_0 → get_validator_min_stake_nanowits pinfo epoch = minimum →
  ready minimum st → block_staked st b → transaction_fees u epoch c (txns b) = Some fees → total st + block_pays b fees < U64 →
  ∃ st', process_wit2_stakes_changes calculate_sha256 pinfo b q st c u = Some st'
    ∧ ready minimum st' ∧ by_validator st' = by_validator st
    ∧ total st' = total st - collateral_of (charged (commit_txns (txns b))) + block_pays b fees.
Proof using Htyped minimum_unit.
  intros epoch Hv Hmin Hr [Hminer Hcomm Honce Hcov Htal] Hfees Hlt. unfold process_wit2_stakes_changes. cbv zeta.
  rewrite decide_True by done. unfold block_pays in *. set (l := commit_txns (txns b)) in *. set (ts := tally_txns (txns b)) in *.
  pose proof (fees_of_nonneg c_dr_pointer (charged l)) as H1. pose proof (fees_of_nonneg r_dr_pointer (rewarded (reveal_txns (txns b)))) as H2.
  assert (0 ≤ zsum (pays <$> ts)) as H3 by (apply zsum_nonneg, Forall_fmap, Forall_true, pays_nonneg).
  pose proof (transaction_fees_nonneg u epoch c _ _ Hfees) as H4.
  assert (0 ≤ get_validator_block_reward pinfo epoch) as H5 by (unfold get_validator_block_reward; by repeat case_match).
  assert (0 ≤ collateral_of (charged l)) as H6 by (apply zsum_nonneg, Forall_fmap, Forall_true; intros t; apply of_request_nonneg).
  assert (0 ≤ total st) as H7.
  { apply msum_nonneg. intros k s Hk. assert (0 < 10 ^ UNIT) by (by vm_compute). pose proof (rd_entries minimum st Hr k s Hk). lia. }
  fold epoch in Hlt |- *. rewrite Hmin.
  destruct (reserve_all l st 0) as (st1 & -> & Hev1); [done..|lia|]. cbn [mbind option_bind]. rewrite Z.add_0_l.
  destruct (reward_paid_if_positive st1 (miner b) (fees_of c_dr_pointer (charged l)) epoch) as (st2 & -> & Hev2);
    [apply Hev1|by eapply evolves_staked|done|rewrite (ev_total _ _ _ _ Hev1); lia|]. cbn [mbind option_bind].
  pose proof (evolves_trans _ _ _ _ _ _ Hev1 Hev2) as Hev12. rewrite reveal_reward_sum by lia.
  destruct (reward_paid_if_positive st2 (miner b) (fees_of r_dr_pointer (rewarded (reveal_txns (txns b)))) epoch) as (st3 & -> & Hev3);
    [apply Hev2|by eapply evolves_staked|done|rewrite (ev_total _ _ _ _ Hev12); lia|]. cbn [mbind option_bind].
  pose proof (evolves_trans _ _ _ _ _ _ Hev12 Hev3) as Hev13.
  destruct (tallies_paid ts epoch st3) as (st4 & -> & Hev4); [apply Hev3|by eapply tallies_staked_evolve|rewrite (ev_total _ _ _ _ Hev13); lia|].
  cbn [mbind option_bind]. pose proof (evolves_trans _ _ _ _ _ _ Hev13 Hev4) as Hev14. rewrite Hfees. cbn [mbind option_bind].
  rewrite wadd_small by lia.
  destruct (reward_paid minimum st4 (miner b) (fees + get_validator_block_reward pinfo epoch) epoch) as (st5 & -> & Hev5);
    [done|apply Hev4|by eapply evolves_staked|lia|rewrite (ev_total _ _ _ _ Hev14); lia|]. cbn [expect mbind option_bind].
  pose proof (evolves_trans _ _ _ _ _ _ Hev14 Hev5) as Hev15.
  pose proof (evolves_trans _ _ _ _ _ _ Hev15 (mining_age_reset_kept minimum st5 (miner b) epoch (ev_ready _ _ _ _ Hev15))) as Hev16.
  destruct (witnesses_reset l epoch _ (ev_ready _ _ _ _ Hev16)) as (st7 & -> & Hev7).
  { unfold staked. by rewrite (ev_validators _ _ _ _ Hev16). } cbn [mbind option_bind].
  pose proof (evolves_trans _ _ _ _ _ _ Hev16 Hev7) as Hev17.
  destruct (liars_slashed ts epoch _ (ev_ready _ _ _ _ Hev17)) as (st8 & -> & Hev8); [by eapply tallies_staked_evolve|].
  pose proof (evolves_trans _ _ _ _ _ _ Hev17 Hev8) as [Hr8 Hbv8 Ht8]. exists st8. do 3 (split; [done|]). lia.
Qed.
End changes.
