(* ===== verification/StakeExamples.v ===== *)
(** * Stakes on concrete data

    Blocks of version 2.0 whose changes of stakes are evaluated: one that
    [stake_changes_accounted] applies to, and blocks that the validation accepts and
    whose stakes go wrong, because a hypothesis of that theorem is not enforced. *)

From stdpp Require Import base tactics numbers list gmap sorting strings.
From Stdlib Require Import ZArith Lia.
From S2P Require Import Prelude Stake Stakes StakesCorrect Ars Hashes Superblock Versioning Tapi Merkle Rad Float Storage UtxoDb UtxoDbCorrect.
From S2P Require Import Utxo UtxoCorrect RepEngine Eligibility Epoch RadScript Transaction DataRequest TxFactory.
From S2P Require Import Consensus Validation BlockValidation BlockExamples Consolidation StakeChanges.
Local Open Scope Z_scope.
Local Open Scope rust_scope.

#[local] Existing Instances toy_codecs toy_codec_laws.

(** Validators 1 and 2 with the given stakes. *)
Definition stake_for (v amount : Z) (st : StakesTracker) : StakesTracker :=
  match add_stake UNIT st (MkKey [v] [v]) amount 1 true 10000000000000 with Ret st _ => st | _ => st end.
Definition two_validators (first second : Z) : StakesTracker := stake_for 2 second (stake_for 1 first stakes_default).

(** Requests of epoch 21 that wait for commits, with the given collateral, and one
    whose committer waits for the tally. *)
Definition asks (collateral : Z) : DataRequestOutput :=
  {| data_request := data_request ex_request; witness_reward := 1000; witnesses := 1; commit_and_reveal_fee := 10;
     min_consensus_percentage := 51; dro_collateral := collateral |}.
Definition commit_on (ptr : Hash) (key : Z) : CommitTransaction :=
  {| c_dr_pointer := ptr; c_commitment := [5]; c_proof := {| claim_proof := {| vrf_proof := []; vrf_public_key := ex_key key |} |};
     c_collateral := []; c_outputs := []; c_bn256_public_key := None; c_signatures := [ex_sig key] |}.
Definition revealed_state (collateral : Z) : DataRequestState :=
  let st := state_new (asks collateral) [1] 21 None in
  MkRequest (request st) (requester st)
    (MkInfo {[ [2] := commit_on [79] 2 ]} ∅ None None None 1 1 (Some TALLY)) TALLY 21.
Definition open_requests (collateral : Z) : DataRequestPool :=
  MkPool ∅ {[ 21 := {[ [77]; [78] ]} ]}
    {[ [77] := state_new (asks collateral) [1] 21 None; [78] := state_new (asks collateral) [1] 21 None ]} [] 3.
Definition tallied_requests (collateral : Z) : DataRequestPool :=
  MkPool ∅ {[ 21 := {[ [77]; [79] ]} ]}
    {[ [77] := state_new (asks collateral) [1] 21 None; [79] := revealed_state collateral ]} [] 3.

Definition v2_block (commits : list CommitTransaction) (tallies : list TallyTransaction) : Block :=
  ex_block 25 (MkTxns (MkMint 25 []) [] [] commits [] tallies [] []).
Definition ex_utxos : UtxoDiff ex_db := utxo_diff_new (ex_pool []) 5.
Definition changes (q : DataRequestPool) (st : StakesTracker) (b : Block) : option StakesTracker :=
  process_wit2_stakes_changes ex_sha256 ex_info b q st ex_epochs ex_utxos.
(** The coins of the entries. *)
Definition amounts (st : StakesTracker) : list (PublicKeyHash * Z) := (λ e, (validator (ekey e), coins (evalue e))) <$> (map_to_list (store st)).*2.

Lemma added_wf (st : StakesTracker) k amount epoch policy minimum st' s :
  wf st → add_stake UNIT st k amount epoch policy minimum = Ret st' s → wf st'.
Proof.
  intros Hwf Hadd. pose proof (add_stake_outcome UNIT st k amount epoch policy minimum Hwf) as Ho.
  destruct (stake_add_stake _ _ _ _ _ _) as [s'|e|]; [|destruct Ho as (? & Ho & _); congruence|congruence].
  destruct Ho as (st1 & Ho & ? & _). congruence.
Qed.
(** Whether a tracker holds at least the minimum in every entry, evaluated. *)
Lemma check_ready minimum st :
  wf st → forallb (λ s, minimum <=? coins s) (map_to_list (StakesCorrect.view st)).*2 = true → (total st <? U64) = true → ready minimum st.
Proof.
  intros Hwf Hall Ht. split; [done| |by apply Z.ltb_lt]. intros k s Hk%elem_of_map_to_list.
  rewrite forallb_forall in Hall. apply Z.leb_le, Hall, list_elem_of_In. apply (list_elem_of_fmap_2 snd _ (k, s)), Hk.
Qed.

(** ** An accepted block *)

(** A validator commits to a request and is rewarded for another. *)
Definition ex_stakes : StakesTracker := two_validators 10000000000000 16000000000000.
Definition ex_v2_block : Block := v2_block [commit_on [77] 2] [MkTally [79] [1] [] [] []].
Example changes_evaluated :
  amounts ex_stakes = [([2], 16000000000000); ([1], 10000000000000)]
  ∧ amounts <$> changes (tallied_requests 7000) ex_stakes ex_v2_block = Some [([2], 16000000001000); ([1], 10050000000010)].
Proof. split; by vm_compute. Qed.

Lemma ex_stakes_ready : ready 10000000000000 ex_stakes.
Proof.
  assert (wf (stake_for 1 10000000000000 stakes_default)) as H1.
  { unfold stake_for. destruct (add_stake _ _ _ _ _ _ _) eqn:E; [|apply wf_default..]. eapply added_wf; [|exact E]. apply wf_default. }
  apply check_ready; [|by vm_compute..]. unfold ex_stakes, two_validators. revert H1. generalize (stake_for 1 10000000000000 stakes_default).
  intros st H1. unfold stake_for. destruct (add_stake _ _ _ _ _ _ _) eqn:E; [|done..]. by eapply added_wf.
Qed.
Lemma ex_amounts_typed : amounts_typed (tallied_requests 7000).
Proof.
  intros h st. cbn [tallied_requests data_request_pool]. intros [[_ <-]|[_ [_ <-]%lookup_singleton_Some]]%lookup_insert_Some; by vm_compute.
Qed.
Lemma ex_block_staked : block_staked ex_sha256 ex_info (tallied_requests 7000) 10000000000000 ex_stakes ex_v2_block.
Proof.
  assert (staked ex_stakes [1] ∧ staked ex_stakes [2]) as [H1 H2] by (split; apply (bool_decide_unpack _); by vm_compute).
  assert (charged ex_info (tallied_requests 7000) (commit_txns (txns ex_v2_block)) = [commit_on [77] 2]) as Hc by done.
  split; rewrite ?Hc.
  - exact H1.
  - by constructor.
  - apply NoDup_singleton.
  - constructor; [|done]. unfold covered. change (get_dr_output (tallied_requests 7000) (c_dr_pointer (commit_on [77] 2))) with (Some (asks 7000)).
    exists 16000000000000. split; by vm_compute.
  - constructor; [|done]. intros _. split; [by eexists|].
    change (honest_of (tallied_requests 7000) (MkTally [79] [1] [] [] [])) with [[2]]. by repeat constructor.
Qed.

Lemma stake_changes_accounted_witness :
  ∃ st', changes (tallied_requests 7000) ex_stakes ex_v2_block = Some st'
    ∧ ready 10000000000000 st' ∧ by_validator st' = by_validator ex_stakes
    ∧ total st' = total ex_stakes - 7000 + (10 + 0 + 8000 + (0 + 50000000000)).
Proof.
  assert (collateral_of (tallied_requests 7000) (charged ex_info (tallied_requests 7000) (commit_txns (txns ex_v2_block))) = 7000) as Hc
    by (by vm_compute).
  assert (block_pays ex_info (tallied_requests 7000) ex_v2_block 0 = 10 + 0 + 8000 + (0 + 50000000000)) as Hp by (by vm_compute).
  rewrite <-Hc, <-Hp.
  refine (stake_changes_accounted ex_sha256 ex_info (tallied_requests 7000) 10000000000000 _ ex_amounts_typed
           ex_v2_block ex_stakes ex_epochs ex_utxos 0 _ _ ex_stakes_ready ex_block_staked _ _); by vm_compute.
Defined.

(** ** Accepted blocks whose stakes go wrong *)

Definition accepted {S V} (r : exec S Failure (Diff * list SignaturesToVerify * V)) : bool :=
  match outcome r with Ok _ => true | _ => false end.
Definition two_commits : Block := v2_block [commit_on [77] 2; commit_on [78] 2] [].

(** A validator with 22,000 wits commits to two requests with a collateral of 12,000
    wits in one block.  Both commits pass, each against the stake before the block, and
    the second subtraction wraps around: the validator ends with more than 18 thousand
    million wits. *)
Theorem two_commits_wrap_stake :
  let q := open_requests 12000000000000 in
  let st := two_validators 10000000000000 22000000000000 in
  accepted (ex_validate (ex_pool []) q st two_commits) = true
  ∧ amounts <$> changes q st two_commits = Some [([2], 18446742073709551616); ([1], 10050000000020)].
Proof. split; by vm_compute. Qed.

(** With a collateral of 6,000 wits the second subtraction would leave less than the
    minimum: it is rejected without an error, and the request has a commit without
    collateral that the tally pays back. *)
Theorem two_commits_one_collateral :
  let q := open_requests 6000000000000 in
  let st := two_validators 10000000000000 16000000000000 in
  accepted (ex_validate (ex_pool []) q st two_commits) = true
  ∧ amounts <$> changes q st two_commits = Some [([2], 10000000000000); ([1], 10050000000020)].
Proof. split; by vm_compute. Qed.

(** A committer that took all its coins out before the tally: the reward cannot be
    added, and the error is unwrapped. *)
Theorem unstaked_committer_halts :
  let q := tallied_requests 7000 in
  let st := stake_for 1 10000000000000 stakes_default in
  changes q st (v2_block [] [MkTally [79] [1] [] [] []]) = None.
Proof. by vm_compute. Qed.

(** Fees are read in the outputs before the block: the fee of a transfer that spends an
    output of the same block is lost.  The first transfer pays 3 and the second 2. *)
Definition first_transfer : VTTransaction := MkVT [MkInput (ex_pointer 1)] [MkOutput [1] 17 0] [ex_sig 2].
Definition chained : VTTransaction :=
  MkVT [MkInput (MkPointer (replicate 31 101 ++ [1]) 0)] [MkOutput [3] 15 0] [ex_sig 1].
Definition chained_block : Block := ex_block 25 (MkTxns (MkMint 25 []) [first_transfer; chained] [] [] [] [] [] []).
Theorem chained_fee_lost :
  outcome (ex_validate (ex_pool ex_coins) (pool_new 3) ex_stakes chained_block)
  = Ok ([(MkPointer (replicate 31 101 ++ [0]) 0, (MkOutput [3] 15 0, 5))], [ex_pointer 1],
        [SecpTx (ex_key 2) (replicate 31 101 ++ [1]) [2]; SecpTx (ex_key 1) (replicate 31 101 ++ [0]) [1]])
  ∧ transaction_fees (utxo_diff_new (ex_pool ex_coins) 5) 25 ex_epochs (txns chained_block) = Some 3.
Proof. split; by vm_compute. Qed.
