(* ===== verification/ConsolidationCorrect.v ===== *)
(** * Consolidation of accepted blocks

    [update_pools] meets the transactions of a block one by one and only logs the
    errors of the pool of data requests.  For a block that the validation accepted
    there are none: every tally, request, commit and reveal is recorded, the other
    requests stay, the pool of transactions keeps its invariant, and nothing panics. *)

From stdpp Require Import base tactics numbers list gmap sorting.
From Stdlib Require Import ZArith Lia.
From S2P Require Import Prelude Stake Stakes StakesCorrect Ars Hashes Superblock Versioning Tapi Merkle Rad Float Priority Storage UtxoDb Utxo.
From S2P Require Import UtxoDbCorrect UtxoCorrect RepEngine Eligibility Epoch RadScript Transaction DataRequest TxPool TxPoolCorrect TxFactory.
From S2P Require Import Consensus Validation BlockValidation ValidationCorrect BlockValidationCorrect BlockRequests Consolidation StakeChanges.
Local Open Scope Z_scope.
Local Open Scope rust_scope.

Section pools.
Context `{UtxoDb D, FloatOrd}.
Context (calculate_sha256 : list Z → Hash).
Context (tx_hash : option ProtocolVersion → Transaction → Hash) (header_hash : option ProtocolVersion → BlockHeader → Hash).
Context (pinfo : ProtocolInfo) (is_too_many : list Z → bool) (visit : ∀ A : Type, list A → list A).
Context (own_pkh : PublicKeyHash) (state_machine : StateMachine).
(** The hash of a transaction covers its kind, its inputs and the request and sender
    of a reveal, whatever the version. *)
Context (hash_body : ∀ t t', tx_hash None t = tx_hash None t' → body_id t = body_id t').
Context (reveal_hash : ∀ v t, tx_hash v (Reveal t) = tx_hash None (Reveal t)).
Context (visit_perm : ∀ A (l : list A), visit A l ≡ₚ l).

Abbreviation version_of e := (get_protocol_version pinfo (Some e)).
Abbreviation signer := (DataRequest.signer calculate_sha256).
Abbreviation tx_ok := (TxPoolCorrect.pool_ok (tx_hash None)).
Implicit Types (s : Pools (D:=D)) (q : DataRequestPool) (h : Hash).

(** ** Phases *)

(** The part of the pools that the requests depend on. *)
Definition core s : DataRequestPool * gset Hash := (ps_requests s, ps_too_many s).
(** The rest stays valid. *)
Record carried s s' : Prop := {
  ca_errors : ps_errors s' = ps_errors s;
  ca_utxos : ps_utxos s' = ps_utxos s;
  ca_own : ps_own s' = ps_own s;
  ca_pool : tx_ok (ps_transactions s');
}.
Lemma carried_trans s1 s2 s3 : carried s1 s2 → carried s2 s3 → carried s1 s3.
Proof. intros [] []. split; congruence. Qed.

(** A loop whose steps have the effect [eff] on the requests. *)
Fixpoint allowed {A} (ok : DataRequestPool * gset Hash → A → Prop) (eff : DataRequestPool * gset Hash → A → DataRequestPool * gset Hash)
    (c : DataRequestPool * gset Hash) (l : list A) : Prop :=
  match l with [] => True | x :: l => ok c x ∧ allowed ok eff (eff c x) l end.

Lemma each_phase {A} (body : Pools → A → option Pools) ok eff l : ∀ s,
  (∀ s x, tx_ok (ps_transactions s) → ok (core s) x → ∃ s', body s x = Some s' ∧ carried s s' ∧ core s' = eff (core s) x) →
  tx_ok (ps_transactions s) → allowed ok eff (core s) l →
  ∃ s', each_opt body l s = Some s' ∧ carried s s' ∧ core s' = foldl eff (core s) l.
Proof.
  induction l as [|x l IH]; intros s Hbody Hok Hl; [by exists s|].
  destruct Hl as [Hx Hl]. destruct (Hbody s x Hok Hx) as (s1 & Hs1 & Hc1 & He1). rewrite <-He1 in Hl.
  destruct (IH s1 Hbody (ca_pool _ _ Hc1) Hl) as (s2 & Hs2 & Hc2 & He2).
  exists s2. rewrite each_opt_cons, Hs1. split; [done|]. split; [by eapply carried_trans|]. cbn [foldl]. by rewrite <-He1.
Qed.

(** Transactions without an effect on the requests. *)
Lemma each_plain {A} (body : Pools → A → option Pools) l s :
  (∀ s x, tx_ok (ps_transactions s) → ∃ p, body s x = Some (with_transactions s p) ∧ tx_ok p) →
  tx_ok (ps_transactions s) → ∃ s', each_opt body l s = Some s' ∧ carried s s' ∧ core s' = core s.
Proof.
  intros Hbody Hok. destruct (each_phase body (λ _ _, True) (λ c _, c) l s) as (s' & Hs & Hc & He); [|done| |].
  - intros s1 x Hs1 _. destruct (Hbody s1 x Hs1) as (p & -> & Hp). by eexists.
  - generalize (core s). clear. induction l as [|x l IH]; intros c; [done|by split].
  - exists s'. split_and!; [done..|]. rewrite He. clear. generalize (core s). by induction l as [|x l IH].
Qed.

Lemma consolidate_ok p t : tx_ok p → kind t ∈ [0; 1; 6]%nat → ∃ p', remove_consolidated (tx_hash None) p t = Some p' ∧ tx_ok p'.
Proof.
  intros Hok Hk. destruct (consolidated_spec (tx_hash None) hash_body p t (proj1 Hok) Hk) as (p' & Hr & _). exists p'. split; [done|].
  eapply (tx_pool_step_ok (tx_hash None) hash_body calculate_sha256 visit visit_perm); [exact Hok|by eapply ps_consolidate].
Qed.

Lemma transfers_plain l s : tx_ok (ps_transactions s) → ∃ s', each_opt (pools_transfer tx_hash) l s = Some s' ∧ carried s s' ∧ core s' = core s.
Proof.
  apply each_plain. intros s1 t Hok. destruct (consolidate_ok (ps_transactions s1) (ValueTransfer t) Hok) as (p & Hp & ?); [set_solver|].
  exists p. split; [|done]. unfold pools_transfer. cbn [remove_consolidated] in Hp. destruct (vt_remove _ _ _) as [[? ?]|]; [|done].
  injection Hp as <-. done.
Qed.
Lemma stakes_plain l s : tx_ok (ps_transactions s) → ∃ s', each_opt (pools_stake tx_hash) l s = Some s' ∧ carried s s' ∧ core s' = core s.
Proof.
  apply each_plain. intros s1 t Hok. destruct (consolidate_ok (ps_transactions s1) (TxStake t) Hok) as (p & Hp & ?); [set_solver|].
  exists p. split; [|done]. unfold pools_stake. cbn [remove_consolidated] in Hp. destruct (st_remove _ _ _) as [[? ?]|]; [|done].
  injection Hp as <-. done.
Qed.
Lemma unstakes_plain l s : tx_ok (ps_transactions s) → ∃ s', each_opt (pools_unstake tx_hash) l s = Some s' ∧ carried s s' ∧ core s' = core s.
Proof.
  apply each_plain. intros s1 t Hok. eexists. split; [done|].
  eapply (tx_pool_step_ok (tx_hash None) hash_body calculate_sha256 visit visit_perm); [exact Hok|apply ps_unstake].
Qed.

(** ** Adding to requests *)

Lemma lookup_alter_all {A V} (ptr : A → Hash) (into : A → V → V) l : ∀ (m : gmap Hash V) h,
  foldl (λ m t, alter (into t) (ptr t) m) m l !! h = (λ x, foldl (λ x t, into t x) x (filter (λ t, ptr t = h) l)) <$> m !! h.
Proof.
  induction l as [|t l IH]; intros m h; cbn [foldl]; [by destruct (m !! h)|]. rewrite IH, filter_cons. case_decide as Hd.
  - rewrite <-Hd, lookup_alter_eq. by destruct (m !! ptr t).
  - by rewrite lookup_alter_ne.
Qed.

(** Insertions into a map [get] of a state, under the signer. *)
Section into.
Context {A V : Type} (sig : A → option PublicKeyHash) (into : A → V → V) (get : V → gmap PublicKeyHash A) (good : V → Prop).
Context (into_get : ∀ x t v, good x → sig t = Some v → good (into t x) ∧ get (into t x) = <[v := t]> (get x)).

Lemma into_kept l : ∀ x v, good x → Forall (λ t, is_Some (sig t)) l → Forall (λ t, sig t ≠ Some v) l →
  get (foldl (λ x t, into t x) x l) !! v = get x !! v.
Proof.
  induction l as [|t l IH]; intros x v Hx Hs Hv; [done|]. apply Forall_cons in Hs as [[w Hw] Hs]. apply Forall_cons in Hv as [Hne Hv].
  destruct (into_get x t w Hx Hw) as [Hg He]. cbn [foldl]. rewrite IH by done. rewrite He. apply lookup_insert_ne. congruence.
Qed.
Lemma into_recorded l : ∀ x t v, good x → Forall (λ t, is_Some (sig t)) l → NoDup (sig <$> l) → t ∈ l → sig t = Some v →
  get (foldl (λ x t, into t x) x l) !! v = Some t.
Proof.
  induction l as [|u l IH]; intros x t v Hx Hs Hnd Ht Hv; [by apply elem_of_nil in Ht|].
  apply Forall_cons in Hs as [[w Hw] Hs]. rewrite fmap_cons in Hnd. apply NoDup_cons in Hnd as [Hnew Hnd].
  destruct (into_get x u w Hx Hw) as [Hg He]. cbn [foldl]. apply elem_of_cons in Ht as [<-|Ht]; [|by apply IH].
  rewrite into_kept; [|done..|].
  - rewrite He. assert (w = v) as -> by congruence. apply lookup_insert_eq.
  - apply Forall_forall. intros t' Ht' Heq. apply Hnew. rewrite Hv, <-Heq. by apply list_elem_of_fmap_2.
Qed.
Lemma into_good l : ∀ x, good x → Forall (λ t, is_Some (sig t)) l → good (foldl (λ x t, into t x) x l).
Proof.
  induction l as [|t l IH]; intros x Hx Hs; [done|]. apply Forall_cons in Hs as [[w Hw] Hs]. apply IH; [|done]. by eapply into_get.
Qed.
End into.

(** ** The effects *)

Section effects.
Context (epoch : Z) (block_hash : Hash).
Abbreviation dr_id t := (tx_hash (Some (version_of epoch)) (DataRequest t)).

(** A tally stores the request and takes it out of the pool. *)
Definition stored_info (st : DataRequestState) (t : TallyTransaction) : DataRequestInfo :=
  let i := info st in
  DataRequest.MkInfo (commits i) (reveals i) (Some t) (block_hash_dr_tx i) (Some block_hash) (current_commit_round i) (current_reveal_round i) None.
Definition tally_effect (c : DataRequestPool * gset Hash) (t : TallyTransaction) : DataRequestPool * gset Hash :=
  let '(q, many) := c in
  (match data_request_pool q !! t_dr_pointer t with
   | Some st => MkPool (waiting_for_reveal q) (data_requests_by_epoch q) (delete (t_dr_pointer t) (data_request_pool q))
                  (to_be_stored q ++ [stored_info st t]) (extra_rounds q)
   | None => q
   end, if is_too_many (t_tally t) then {[ t_dr_pointer t ]} ∪ many else many).
Definition tally_allowed (c : DataRequestPool * gset Hash) (t : TallyTransaction) : Prop :=
  ∃ st, data_request_pool c.1 !! t_dr_pointer t = Some st ∧ Z.of_nat (size (reveals (info st))) < U32
    ∧ (stage st = TALLY ∨ (stage st = COMMIT ∧ commits (info st) = ∅ ∧ is_too_many (t_tally t) = true)).

Definition request_effect (c : DataRequestPool * gset Hash) (t : DRTransaction) : DataRequestPool * gset Hash :=
  let '(q, many) := c in
  (if decide (dr_id t ∈ many) then q
   else match signer (d_signatures t) with
        | Some who =>
            MkPool (waiting_for_reveal q)
              (<[epoch := {[ dr_id t ]} ∪ default ∅ (data_requests_by_epoch q !! epoch)]> (data_requests_by_epoch q))
              (<[dr_id t := state_new (d_output t) who epoch (Some block_hash)]> (data_request_pool q)) (to_be_stored q) (extra_rounds q)
        | None => q
        end, many).
Definition request_allowed (c : DataRequestPool * gset Hash) (t : DRTransaction) : Prop := dr_id t ∈ c.2 ∨ is_Some (signer (d_signatures t)).

(** Commits and reveals add to their request. *)
Definition commit_into (t : CommitTransaction) (st : DataRequestState) : DataRequestState :=
  match signer (c_signatures t) with
  | Some v => match state_add_commit st v t with Ok st => st | _ => st end
  | None => st
  end.
Definition reveal_into (t : RevealTransaction) (st : DataRequestState) : DataRequestState :=
  match signer (r_signatures t) with
  | Some v => match state_add_reveal st v t with Ok st => st | _ => st end
  | None => st
  end.
Definition commit_effect (c : DataRequestPool * gset Hash) (t : CommitTransaction) : DataRequestPool * gset Hash :=
  (with_requests c.1 (alter (commit_into t) (c_dr_pointer t) (data_request_pool c.1)), c.2).
Definition reveal_effect (c : DataRequestPool * gset Hash) (t : RevealTransaction) : DataRequestPool * gset Hash :=
  (with_requests c.1 (alter (reveal_into t) (r_dr_pointer t) (data_request_pool c.1)), c.2).
Definition commit_allowed (c : DataRequestPool * gset Hash) (t : CommitTransaction) : Prop :=
  is_Some (signer (c_signatures t)) ∧ ∃ st, data_request_pool c.1 !! c_dr_pointer t = Some st ∧ stage st = COMMIT.
Definition reveal_allowed (c : DataRequestPool * gset Hash) (t : RevealTransaction) : Prop :=
  is_Some (signer (r_signatures t)) ∧ ∃ st, data_request_pool c.1 !! r_dr_pointer t = Some st ∧ stage st = REVEAL.

Lemma alter_found {V} (f : V → V) (m : gmap Hash V) h x : m !! h = Some x → alter f h m = <[h := f x]> m.
Proof.
  intros Hx. apply map_eq. intros h'. destruct (decide (h' = h)) as [->|Hne].
  - by rewrite lookup_alter_eq, lookup_insert_eq, Hx.
  - by rewrite lookup_alter_ne, lookup_insert_ne.
Qed.

Lemma commit_recorded s t :
  tx_ok (ps_transactions s) → commit_allowed (core s) t →
  ∃ s', pools_commit calculate_sha256 tx_hash pinfo own_pkh state_machine epoch block_hash s t = Some s'
    ∧ carried s s' ∧ core s' = commit_effect (core s) t.
Proof.
  intros Hok ([v Hv] & st & Hst & Hstage). unfold pools_commit, process_commit, add_commit. rewrite Hv. cbn [core fst] in Hst.
  rewrite Hst. unfold state_add_commit. rewrite Hstage. cbn [logged mbind option_bind fst snd with_requests_pool].
  rewrite decide_True by done. cbn [with_requests_pool with_transactions ps_transactions].
  destruct (remove_inputs_spec (tx_hash None) hash_body visit visit_perm (ps_transactions s) (c_collateral t) Hok) as (p & -> & Hp). cbn [mbind option_bind].
  eexists. split; [done|]. split; [split; cbn; [by rewrite app_nil_r|done..]|]. unfold core, commit_effect. cbn. f_equal.
  rewrite (alter_found _ _ _ _ Hst). unfold commit_into. by rewrite Hv; unfold state_add_commit; rewrite Hstage.
Qed.
Lemma reveal_recorded s t :
  tx_ok (ps_transactions s) → reveal_allowed (core s) t →
  ∃ s', pools_reveal calculate_sha256 tx_hash pinfo epoch block_hash s t = Some s'
    ∧ carried s s' ∧ core s' = reveal_effect (core s) t.
Proof.
  intros Hok ([v Hv] & st & Hst & Hstage). unfold pools_reveal, process_reveal, add_reveal. rewrite Hv. cbn [core fst] in Hst.
  rewrite Hst. unfold state_add_reveal. rewrite Hstage. cbn [logged mbind option_bind fst snd with_requests_pool ps_transactions].
  rewrite reveal_hash. destruct (remove_one_reveal_spec (tx_hash None) hash_body (ps_transactions s) t (proj2 Hok)) as (p & Hr & _).
  assert (tx_ok p) as Hp by (eapply (tx_pool_step_ok (tx_hash None) hash_body calculate_sha256 visit visit_perm); [exact Hok|by eapply ps_reveal]).
  rewrite Hr. cbn [mbind option_bind fst].
  eexists. split; [done|]. split; [split; cbn; [by rewrite app_nil_r|done..]|]. unfold core, reveal_effect. cbn. f_equal.
  rewrite (alter_found _ _ _ _ Hst). unfold reveal_into. by rewrite Hv; unfold state_add_reveal; rewrite Hstage.
Qed.

Lemma request_recorded s t :
  tx_ok (ps_transactions s) → request_allowed (core s) t →
  ∃ s', pools_request calculate_sha256 tx_hash pinfo epoch block_hash s t = Some s'
    ∧ carried s s' ∧ core s' = request_effect (core s) t.
Proof.
  intros Hok Ha. unfold pools_request. destruct (consolidate_ok (ps_transactions s) (DataRequest t) Hok) as (p & Hp & Hpok); [set_solver|].
  cbn [remove_consolidated] in Hp. unfold core, request_effect. case_decide as Hd.
  - destruct (dr_remove _ _ _) as [[p' ?]|]; [|done]. injection Hp as ->. cbn [mbind option_bind fst].
    eexists. split; [done|]. by split; [|].
  - destruct Ha as [?|[who Hwho]]; [done|]. unfold pool_process_data_request, process_data_request, add_data_request.
    rewrite Hwho. cbn [logged mbind option_bind fst snd with_requests_pool]. rewrite decide_True by done. cbn [with_requests_pool ps_transactions].
    destruct (dr_remove _ _ _) as [[p' ?]|]; [|done]. injection Hp as ->. cbn [mbind option_bind fst].
    eexists. split; [done|]. split; [split; cbn; [by rewrite app_nil_r|done..]|done].
Qed.

(** The request is in the last stage when its tally arrives. *)
Lemma too_many_noted s t :
  tally_allowed (core s) t →
  ∃ q st, note_too_many is_too_many s t
    = Some (MkPools (ps_utxos s) q (ps_transactions s) (ps_own s) (ps_stats s) (ps_rep_info s)
              (if is_too_many (t_tally t) then {[ t_dr_pointer t ]} ∪ ps_too_many s else ps_too_many s) (ps_errors s))
    ∧ data_request_pool q !! t_dr_pointer t = Some st ∧ stage st = TALLY ∧ Z.of_nat (size (reveals (info st))) < U32
    ∧ MkPool (waiting_for_reveal q) (data_requests_by_epoch q) (delete (t_dr_pointer t) (data_request_pool q))
        (to_be_stored q ++ [stored_info st t]) (extra_rounds q) = (tally_effect (core s) t).1.
Proof.
  intros (st & Hst & Hsize & Hstage). unfold core, tally_effect, note_too_many in *. cbn [fst] in *. rewrite Hst.
  destruct (is_too_many (t_tally t)) eqn:Em.
  - case_decide as Hd.
    + destruct Hstage as [?|(Hc & Hcom & _)]; [done|]. unfold update_stage. rewrite Hc, decide_True by done. cbn [mbind option_bind].
      eexists _, (set_stage st TALLY). split; [done|]. cbn [with_requests data_request_pool]. rewrite lookup_insert_eq, delete_insert_eq.
      by split_and!.
    + eexists (ps_requests s), st. cbn [mbind option_bind]. split; [done|]. split_and!; [done| |done..].
      by destruct (stage st) eqn:E; [destruct Hd..|].
  - eexists (ps_requests s), st. split; [by destruct s|]. split_and!; [done| |done..]. by destruct Hstage as [?|(_ & _ & ?)].
Qed.

Lemma tally_recorded s t :
  tx_ok (ps_transactions s) → tally_allowed (core s) t →
  ∃ s', pools_tally tx_hash pinfo is_too_many visit own_pkh epoch block_hash s t = Some s'
    ∧ carried s s' ∧ core s' = tally_effect (core s) t.
Proof.
  intros Hok Ha. unfold pools_tally. destruct (too_many_noted s t Ha) as (q & st & -> & Hst & Hstage & Hsize & Heff). cbn [mbind option_bind].
  assert (tx_ok (clear_reveals_from_finished_dr visit (ps_transactions s) (t_dr_pointer t))) as Hp
    by (eapply (tx_pool_step_ok (tx_hash None) hash_body calculate_sha256 visit visit_perm); [exact Hok|by eapply ps_finished]).
  match goal with |- context [if before_v2 _ then _ else Some ?x] => set (s1 := x) end.
  assert (∃ s2, (if before_v2 (version_of epoch) then note_reputation own_pkh s1 t else Some s1) = Some s2
    ∧ ps_requests s2 = q ∧ ps_too_many s2 = ps_too_many s1 ∧ ps_errors s2 = ps_errors s ∧ ps_utxos s2 = ps_utxos s ∧ ps_own s2 = ps_own s
    ∧ ps_transactions s2 = ps_transactions s) as (s2 & -> & Hq & Hmany & Herr & Hu & Hown & Htx).
  { destruct (before_v2 (version_of epoch)); [|by exists s1]. unfold note_reputation, info_update. cbn [s1 ps_requests ps_rep_info].
    rewrite Hst. cbn [mbind option_bind]. rewrite (decide_True (P := Z.of_nat _ < U32)) by done. cbn [mbind option_bind]. by eexists. }
  cbn [mbind option_bind]. unfold process_tally, add_tally, resolve_data_request. rewrite Hq, Hst. unfold state_add_tally.
  rewrite Hstage. cbn [lift_exec ebind logged mbind option_bind fst snd with_requests_pool ps_transactions]. eexists. split; [done|].
  split; [split; cbn; [by rewrite app_nil_r|done|done|by rewrite Htx]|].
  unfold core in Heff |- *. cbn [with_transactions with_requests_pool ps_requests ps_too_many]. rewrite Hmany. cbn [s1 ps_too_many].
  assert (∀ c, tally_effect c t = ((tally_effect c t).1, if is_too_many (t_tally t) then {[ t_dr_pointer t ]} ∪ c.2 else c.2)) as ->
    by (by intros [? ?]).
  by rewrite <-Heff.
Qed.

(** ** The pool after each phase *)

Lemma tallies_allowed l : ∀ q many, NoDup (t_dr_pointer <$> l) → Forall (tally_allowed (q, many)) l → allowed tally_allowed tally_effect (q, many) l.
Proof.
  induction l as [|t l IH]; intros q many Hnd Hl; [done|]. apply Forall_cons in Hl as [Ht Hl]. rewrite fmap_cons in Hnd.
  apply NoDup_cons in Hnd as [Hnew Hnd]. split; [done|]. destruct Ht as (st & Hst & _). cbn [fst] in Hst.
  unfold tally_effect at 2. rewrite Hst. apply IH; [done|]. rewrite Forall_forall in Hl |- *. intros t' Ht'.
  destruct (Hl t' Ht') as (st' & Hst' & Hrest). exists st'. split; [|done]. cbn [fst data_request_pool] in *. rewrite lookup_delete_ne; [done|].
  intros Heq. apply Hnew. rewrite Heq. by apply list_elem_of_fmap_2.
Qed.

Lemma tallies_result l : ∀ q many c,
  NoDup (t_dr_pointer <$> l) → Forall (tally_allowed (q, many)) l → foldl tally_effect (q, many) l = c →
  (∀ h, data_request_pool c.1 !! h = if decide (h ∈ t_dr_pointer <$> l) then None else data_request_pool q !! h)
  ∧ (∀ h, h ∈ c.2 ↔ h ∈ many ∨ ∃ t, t ∈ l ∧ t_dr_pointer t = h ∧ is_too_many (t_tally t) = true)
  ∧ (∀ t st, t ∈ l → data_request_pool q !! t_dr_pointer t = Some st →
       ∃ i, i ∈ to_be_stored c.1 ∧ info_tally i = Some t ∧ commits i = commits (info st) ∧ reveals i = reveals (info st))
  ∧ ∀ i, i ∈ to_be_stored q → i ∈ to_be_stored c.1.
Proof.
  induction l as [|t l IH]; intros q many c Hnd Hl; cbn [foldl].
  { intros <-. split_and!; [done|set_solver|set_solver|done]. }
  apply Forall_cons in Hl as [Ht Hl]. rewrite fmap_cons in Hnd. apply NoDup_cons in Hnd as [Hnew Hnd].
  destruct Ht as (st & Hst & _). cbn [fst] in Hst. unfold tally_effect at 2. rewrite Hst. intros Hc.
  apply IH in Hc as (H1 & H2 & H3 & H4); [|done|].
  2: { rewrite Forall_forall in Hl |- *. intros t' Ht'. destruct (Hl t' Ht') as (st' & Hst' & Hrest). exists st'. split; [|done].
       cbn [fst data_request_pool] in *. rewrite lookup_delete_ne; [done|]. intros Heq. apply Hnew. rewrite Heq. by apply list_elem_of_fmap_2. }
  cbn [data_request_pool to_be_stored] in *. rewrite fmap_cons. split_and!.
  - intros h. rewrite H1. destruct (decide (h ∈ t_dr_pointer <$> l)); [by rewrite decide_True by (by right)|].
    destruct (decide (h = t_dr_pointer t)) as [->|Hne]; [by rewrite lookup_delete_eq, decide_True by (by left)|].
    rewrite lookup_delete_ne by done. by rewrite decide_False by set_solver.
  - intros h. rewrite H2. destruct (is_too_many (t_tally t)) eqn:E; [set_solver|]. split; [set_solver|].
    intros [?|(t' & [->|?]%elem_of_cons & ? & ?)]; [by left|congruence|]. right. by exists t'.
  - intros t' st' [->|Ht']%elem_of_cons Hst'; [|apply H3; [done|]].
    + assert (st' = st) as -> by congruence. exists (stored_info st t). split; [|done]. apply H4. set_solver.
    + rewrite lookup_delete_ne; [done|]. intros Heq. apply Hnew. rewrite Heq. by apply list_elem_of_fmap_2.
  - intros i Hi. apply H4. set_solver.
Qed.

Lemma requests_allowed l : ∀ c, Forall (λ t, is_Some (signer (d_signatures t))) l → allowed request_allowed request_effect c l.
Proof.
  induction l as [|t l IH]; intros c Hl; [done|]. apply Forall_cons in Hl as [Ht Hl]. split; [by right|by apply IH].
Qed.
Lemma requests_result l : ∀ c c',
  NoDup ((λ t, dr_id t) <$> l) → Forall (λ t, is_Some (signer (d_signatures t))) l → foldl request_effect c l = c' →
  (∀ t who, t ∈ l → dr_id t ∉ c.2 → signer (d_signatures t) = Some who →
     data_request_pool c'.1 !! dr_id t = Some (state_new (d_output t) who epoch (Some block_hash)))
  ∧ (∀ h, h ∉ (λ t, dr_id t) <$> l ∨ h ∈ c.2 → data_request_pool c'.1 !! h = data_request_pool c.1 !! h)
  ∧ to_be_stored c'.1 = to_be_stored c.1.
Proof.
  induction l as [|t l IH]; intros [q many] c' Hnd Hl; cbn [foldl].
  { intros <-. split_and!; [set_solver|done|done]. }
  apply Forall_cons in Hl as [[who Hwho] Hl]. rewrite fmap_cons in Hnd. apply NoDup_cons in Hnd as [Hnew Hnd].
  intros Hc. apply IH in Hc as (H1 & H2 & H3); [|done..]. unfold request_effect in H1, H2, H3. cbn [fst snd] in *. rewrite Hwho in *.
  rewrite fmap_cons. split_and!.
  - intros t' who' [->|Ht']%elem_of_cons Hn Hw; [|by apply H1].
    rewrite decide_False in H2 by done. rewrite H2 by (by left). cbn. rewrite lookup_insert_eq. congruence.
  - intros h Hh. rewrite H2 by set_solver. case_decide as Hd; [done|]. cbn. apply lookup_insert_ne. set_solver.
  - rewrite H3. by case_decide.
Qed.

Lemma commit_into_spec st t v :
  stage st = COMMIT → signer (c_signatures t) = Some v →
  stage (commit_into t st) = COMMIT ∧ commits (info (commit_into t st)) = <[v := t]> (commits (info st)).
Proof. intros Hst Hv. unfold commit_into, state_add_commit. by rewrite Hv, Hst. Qed.
Lemma reveal_into_spec st t v :
  stage st = REVEAL → signer (r_signatures t) = Some v →
  stage (reveal_into t st) = REVEAL ∧ reveals (info (reveal_into t st)) = <[v := t]> (reveals (info st)).
Proof. intros Hst Hv. unfold reveal_into, state_add_reveal. by rewrite Hv, Hst. Qed.

Lemma commits_allowed l : ∀ c, Forall (commit_allowed c) l → allowed commit_allowed commit_effect c l.
Proof.
  induction l as [|t l IH]; intros c Hl; [done|]. apply Forall_cons in Hl as [([v Hv] & st & Hst & Hs) Hl]. split; [by split; [|exists st]|].
  apply IH. rewrite Forall_forall in Hl |- *. intros t' Ht'. destruct (Hl t' Ht') as (Hv' & st' & Hst' & Hs'). split; [done|].
  cbn [commit_effect fst with_requests data_request_pool]. rewrite (alter_found _ _ _ _ Hst).
  destruct (decide (c_dr_pointer t' = c_dr_pointer t)) as [->|]; [rewrite lookup_insert_eq|rewrite lookup_insert_ne by done; by exists st'].
  eexists. split; [done|]. by eapply commit_into_spec.
Qed.
Lemma reveals_allowed l : ∀ c, Forall (reveal_allowed c) l → allowed reveal_allowed reveal_effect c l.
Proof.
  induction l as [|t l IH]; intros c Hl; [done|]. apply Forall_cons in Hl as [([v Hv] & st & Hst & Hs) Hl]. split; [by split; [|exists st]|].
  apply IH. rewrite Forall_forall in Hl |- *. intros t' Ht'. destruct (Hl t' Ht') as (Hv' & st' & Hst' & Hs'). split; [done|].
  cbn [reveal_effect fst with_requests data_request_pool]. rewrite (alter_found _ _ _ _ Hst).
  destruct (decide (r_dr_pointer t' = r_dr_pointer t)) as [->|]; [rewrite lookup_insert_eq|rewrite lookup_insert_ne by done; by exists st'].
  eexists. split; [done|]. by eapply reveal_into_spec.
Qed.
(** Commits and reveals keep the rest of the pool. *)
Lemma commits_fold l : ∀ c,
  data_request_pool (foldl commit_effect c l).1 = foldl (λ m t, alter (commit_into t) (c_dr_pointer t) m) (data_request_pool c.1) l
  ∧ to_be_stored (foldl commit_effect c l).1 = to_be_stored c.1.
Proof. induction l as [|t l IH]; intros c; [done|]. cbn [foldl]. by destruct (IH (commit_effect c t)) as [-> ->]. Qed.
Lemma reveals_fold l : ∀ c,
  data_request_pool (foldl reveal_effect c l).1 = foldl (λ m t, alter (reveal_into t) (r_dr_pointer t) m) (data_request_pool c.1) l
  ∧ to_be_stored (foldl reveal_effect c l).1 = to_be_stored c.1.
Proof. induction l as [|t l IH]; intros c; [done|]. cbn [foldl]. by destruct (IH (reveal_effect c t)) as [-> ->]. Qed.

(** ** The block *)

(** A block whose transactions fit the pool of requests. *)
Record block_fits q (t : BlockTransactions) : Prop := {
  ft_tallies_once : NoDup (t_dr_pointer <$> tally_txns t);
  ft_tallies : Forall (tally_allowed (q, ∅)) (tally_txns t);
  ft_requests_once : NoDup ((λ t, dr_id t) <$> data_request_txns t);
  ft_requests : Forall (λ t, is_Some (signer (d_signatures t))) (data_request_txns t);
  ft_new r : r ∈ data_request_txns t →
    data_request_pool q !! dr_id r = None ∨ ∃ x, x ∈ tally_txns t ∧ t_dr_pointer x = dr_id r ∧ is_too_many (t_tally x) = true;
  ft_commits : Forall (commit_allowed (q, ∅)) (commit_txns t);
  ft_commits_once : NoDup ((λ t, (c_dr_pointer t, signer (c_signatures t))) <$> commit_txns t);
  ft_apart c : c ∈ commit_txns t → c_dr_pointer c ∉ t_dr_pointer <$> tally_txns t;
  ft_reveals : Forall (reveal_allowed (q, ∅)) (reveal_txns t);
  ft_reveals_once : NoDup ((λ t, (r_dr_pointer t, signer (r_signatures t))) <$> reveal_txns t);
}.

(** What it leaves behind. *)
Record block_recorded q (t : BlockTransactions) q' : Prop := {
  br_tally x : x ∈ tally_txns t →
    data_request_pool q' !! t_dr_pointer x = None ∧ ∃ i, i ∈ to_be_stored q' ∧ info_tally i = Some x;
  br_request r who : r ∈ data_request_txns t → dr_id r ∉ t_dr_pointer <$> tally_txns t → signer (d_signatures r) = Some who →
    data_request_pool q' !! dr_id r = Some (state_new (d_output r) who epoch (Some block_hash));
  br_commit c v : c ∈ commit_txns t → signer (c_signatures c) = Some v →
    ∃ st, data_request_pool q' !! c_dr_pointer c = Some st ∧ commits (info st) !! v = Some c;
  br_reveal r v : r ∈ reveal_txns t → signer (r_signatures r) = Some v →
    ∃ st, data_request_pool q' !! r_dr_pointer r = Some st ∧ reveals (info st) !! v = Some r;
  br_other h : h ∉ t_dr_pointer <$> tally_txns t → h ∉ (λ r, dr_id r) <$> data_request_txns t → h ∉ c_dr_pointer <$> commit_txns t →
    h ∉ r_dr_pointer <$> reveal_txns t → data_request_pool q' !! h = data_request_pool q !! h;
}.

(** The state of the requests at the end of a block that fits. *)
Definition block_effect (t : BlockTransactions) (c : DataRequestPool * gset Hash) : DataRequestPool * gset Hash :=
  foldl reveal_effect (foldl commit_effect (foldl request_effect (foldl tally_effect c (tally_txns t)) (data_request_txns t))
    (commit_txns t)) (reveal_txns t).

Section fits.
Context (q : DataRequestPool) (t : BlockTransactions) (Hf : block_fits q t).
Implicit Types st : DataRequestState.
Let c1 := foldl tally_effect (q, ∅) (tally_txns t).
Let c2 := foldl request_effect c1 (data_request_txns t).
Let c3 := foldl commit_effect c2 (commit_txns t).
Let c4 := foldl reveal_effect c3 (reveal_txns t).

Lemma untouched h : h ∉ t_dr_pointer <$> tally_txns t → h ∉ (λ r, dr_id r) <$> data_request_txns t → data_request_pool c2.1 !! h = data_request_pool q !! h.
Proof.
  intros Ht Hr. destruct (tallies_result _ _ _ c1 (ft_tallies_once _ _ Hf) (ft_tallies _ _ Hf) eq_refl) as (H1 & _).
  destruct (requests_result _ c1 c2 (ft_requests_once _ _ Hf) (ft_requests _ _ Hf) eq_refl) as (_ & H2 & _).
  rewrite H2 by (by left). by rewrite H1, decide_False.
Qed.
(** Requests of the pool outside the tallies are not new. *)
Lemma known_not_new h st : data_request_pool q !! h = Some st → h ∉ t_dr_pointer <$> tally_txns t → h ∉ (λ r, dr_id r) <$> data_request_txns t.
Proof.
  intros Hst Ht (r & -> & Hr)%list_elem_of_fmap. destruct (ft_new _ _ Hf r Hr) as [?|(x & Hx & Heq & _)]; [congruence|].
  apply Ht. rewrite <-Heq. by apply list_elem_of_fmap_2.
Qed.
Lemma commit_pool c : c ∈ commit_txns t → ∃ st, data_request_pool q !! c_dr_pointer c = Some st ∧ stage st = COMMIT ∧ data_request_pool c2.1 !! c_dr_pointer c = Some st.
Proof.
  intros Hc. destruct (proj1 (Forall_forall _ _) (ft_commits _ _ Hf) c Hc) as (_ & st & Hst & Hs). exists st. split_and!; [done..|].
  pose proof (ft_apart _ _ Hf c Hc). rewrite untouched; [done..|by eapply known_not_new].
Qed.
Lemma reveal_pool r : r ∈ reveal_txns t → ∃ st, data_request_pool q !! r_dr_pointer r = Some st ∧ stage st = REVEAL ∧ data_request_pool c2.1 !! r_dr_pointer r = Some st.
Proof.
  intros Hr. destruct (proj1 (Forall_forall _ _) (ft_reveals _ _ Hf) r Hr) as (_ & st & Hst & Hs). exists st. split_and!; [done..|].
  assert (r_dr_pointer r ∉ t_dr_pointer <$> tally_txns t) as Hn.
  { intros (x & Heq & Hx)%list_elem_of_fmap. destruct (proj1 (Forall_forall _ _) (ft_tallies _ _ Hf) x Hx) as (st' & Hst' & _ & Hs').
    cbn [fst] in *. rewrite <-Heq in Hst'. assert (st' = st) as -> by congruence. destruct Hs' as [?|[? _]]; congruence. }
  rewrite untouched; [done..|by eapply known_not_new].
Qed.

Lemma commits_fit : Forall (commit_allowed c2) (commit_txns t).
Proof.
  apply Forall_forall. intros c Hc. destruct (proj1 (Forall_forall _ _) (ft_commits _ _ Hf) c Hc) as [Hs _].
  destruct (commit_pool c Hc) as (st & _ & ? & ?). split; [done|]. by exists st.
Qed.
Lemma lookup_c3 h : data_request_pool c3.1 !! h = (λ st, foldl (λ st c, commit_into c st) st (filter (λ c, c_dr_pointer c = h) (commit_txns t))) <$> data_request_pool c2.1 !! h.
Proof. unfold c3. rewrite (proj1 (commits_fold _ _)). apply lookup_alter_all. Qed.
Lemma lookup_c4 h : data_request_pool c4.1 !! h = (λ st, foldl (λ st r, reveal_into r st) st (filter (λ r, r_dr_pointer r = h) (reveal_txns t))) <$> data_request_pool c3.1 !! h.
Proof. unfold c4. rewrite (proj1 (reveals_fold _ _)). apply lookup_alter_all. Qed.
Lemma none_about {A} (ptr : A → Hash) l h : h ∉ ptr <$> l → filter (λ x, ptr x = h) l = [].
Proof.
  intros Hn. destruct (filter _ l) as [|x l'] eqn:E; [done|]. destruct Hn.
  assert (x ∈ filter (λ x, ptr x = h) l) as [<- Hx]%list_elem_of_filter by (rewrite E; by left). by apply list_elem_of_fmap_2.
Qed.
Lemma no_reveals_for_commits c : c ∈ commit_txns t → c_dr_pointer c ∉ r_dr_pointer <$> reveal_txns t.
Proof.
  intros Hc (r & Heq & Hr)%list_elem_of_fmap. destruct (commit_pool c Hc) as (st & ? & ? & _). destruct (reveal_pool r Hr) as (st' & ? & ? & _). congruence.
Qed.
Lemma reveals_fit : Forall (reveal_allowed c3) (reveal_txns t).
Proof.
  apply Forall_forall. intros r Hr. destruct (proj1 (Forall_forall _ _) (ft_reveals _ _ Hf) r Hr) as [Hs _].
  destruct (reveal_pool r Hr) as (st & _ & ? & Hst). split; [done|]. exists st. rewrite lookup_c3, Hst, none_about; [done|].
  intros (c & Heq & Hc)%list_elem_of_fmap. apply (no_reveals_for_commits c Hc). rewrite <-Heq. by apply list_elem_of_fmap_2.
Qed.

(** Transactions about one request, with distinct signers. *)
Lemma about_once {A} (ptr : A → Hash) (sig : A → option PublicKeyHash) l h :
  NoDup ((λ x, (ptr x, sig x)) <$> l) → NoDup (sig <$> filter (λ x, ptr x = h) l).
Proof.
  intros Hnd. apply NoDup_fmap_2_strong; [|by eapply NoDup_filter, NoDup_fmap_1].
  intros x y [Hx Hxl]%list_elem_of_filter [Hy Hyl]%list_elem_of_filter Heq.
  apply list_elem_of_lookup in Hxl as [i Hi]. apply list_elem_of_lookup in Hyl as [j Hj].
  assert (i = j) as -> by (eapply NoDup_lookup; [exact Hnd|rewrite list_lookup_fmap, Hi; reflexivity|];
    rewrite list_lookup_fmap, Hj; cbn; by rewrite Hx, Hy, Heq).
  congruence.
Qed.
Lemma Forall_about {A} (P : A → Prop) (ptr : A → Hash) l h : Forall P l → Forall P (filter (λ x, ptr x = h) l).
Proof. rewrite !Forall_forall. intros Hl x [_ Hx]%list_elem_of_filter. by apply Hl. Qed.

Lemma fits_recorded : block_recorded q t (block_effect t (q, ∅)).1.
Proof.
  change (block_effect t (q, ∅)) with c4.
  destruct (tallies_result _ _ _ c1 (ft_tallies_once _ _ Hf) (ft_tallies _ _ Hf) eq_refl) as (H1 & Hmany & Hstored & _).
  destruct (requests_result _ c1 c2 (ft_requests_once _ _ Hf) (ft_requests _ _ Hf) eq_refl) as (Hnew & Hold & Hsto2).
  assert (to_be_stored c4.1 = to_be_stored c1.1) as Hsto.
  { unfold c4. rewrite (proj2 (reveals_fold _ _)). unfold c3. by rewrite (proj2 (commits_fold _ _)). }
  assert (∀ c, c ∈ commit_txns t → is_Some (signer (c_signatures c))) as Hcs
    by (intros c Hc; by destruct (proj1 (Forall_forall _ _) (ft_commits _ _ Hf) c Hc)).
  assert (∀ r, r ∈ reveal_txns t → is_Some (signer (r_signatures r))) as Hrs
    by (intros r Hr; by destruct (proj1 (Forall_forall _ _) (ft_reveals _ _ Hf) r Hr)).
  split.
  - intros x Hx. destruct (proj1 (Forall_forall _ _) (ft_tallies _ _ Hf) x Hx) as (st & Hst & _). split.
    + rewrite lookup_c4, lookup_c3. assert (data_request_pool c2.1 !! t_dr_pointer x = None) as ->; [|done].
      assert (data_request_pool c1.1 !! t_dr_pointer x = None) as Hc1 by (rewrite H1; by rewrite decide_True by (by apply list_elem_of_fmap_2)).
      rewrite Hold; [done|]. destruct (decide (t_dr_pointer x ∈ (λ r, dr_id r) <$> data_request_txns t)) as [Hin|?]; [|by left]. right.
      apply list_elem_of_fmap in Hin as (r & Heq & Hr). destruct (ft_new _ _ Hf r Hr) as [Hn|(y & Hy & Hyq & Hym)].
      { rewrite <-Heq in Hn. cbn [fst] in Hst. congruence. }
      rewrite Heq. apply Hmany. right. by exists y.
    + destruct (Hstored x st Hx Hst) as (i & Hi & ? & _). exists i. by rewrite Hsto.
  - intros r who Hr Hn Hw. rewrite lookup_c4, lookup_c3.
    assert (data_request_pool q !! dr_id r = None) as Hq.
    { destruct (ft_new _ _ Hf r Hr) as [?|(y & Hy & Hyq & _)]; [done|]. destruct Hn. rewrite <-Hyq. by apply list_elem_of_fmap_2. }
    rewrite (Hnew r who Hr); [|rewrite Hmany; intros [?|(y & Hy & Hyq & _)]; [set_solver|]; destruct Hn; rewrite <-Hyq; by apply list_elem_of_fmap_2|done].
    rewrite !none_about; [done|intros (y & Hy & Hin)%list_elem_of_fmap..].
    + destruct (commit_pool y Hin) as (st & ? & _). congruence.
    + destruct (reveal_pool y Hin) as (st & ? & _). congruence.
  - intros c v Hc Hv. rewrite lookup_c4, lookup_c3. destruct (commit_pool c Hc) as (st & _ & Hst & ->). cbn.
    rewrite (none_about r_dr_pointer) by (by apply no_reveals_for_commits). eexists. split; [done|]. cbn [foldl].
    eapply (into_recorded (λ c, signer (c_signatures c)) commit_into (λ st, commits (info st)) (λ st, stage st = COMMIT));
      [intros; by apply commit_into_spec|done|by apply Forall_about, Forall_forall|by apply about_once, Hf|by apply list_elem_of_filter|done].
  - intros r v Hr Hv. rewrite lookup_c4, lookup_c3. destruct (reveal_pool r Hr) as (st & _ & Hst & ->). cbn.
    rewrite (none_about c_dr_pointer).
    2: { intros (c & Heq & Hc)%list_elem_of_fmap. apply (no_reveals_for_commits c Hc). rewrite <-Heq. by apply list_elem_of_fmap_2. }
    eexists. split; [done|]. cbn [foldl].
    eapply (into_recorded (λ r, signer (r_signatures r)) reveal_into (λ st, reveals (info st)) (λ st, stage st = REVEAL));
      [intros; by apply reveal_into_spec|done|by apply Forall_about, Forall_forall|by apply about_once, Hf|by apply list_elem_of_filter|done].
  - intros h Ht Hr Hc Hre. rewrite lookup_c4, lookup_c3, !none_about by done. rewrite untouched by done. by destruct (data_request_pool q !! h).
Qed.
End fits.
End effects.

(** ** [update_pools] *)

Lemma update_pools_fits b d s p' :
  let epoch := checkpoint (beacon (block_header b)) in
  let block_hash := header_hash (Some (version_of epoch)) (block_header b) in
  block_fits epoch (ps_requests s) (txns b) → ps_too_many s = ∅ → tx_ok (ps_transactions s) → diff_apply d (ps_utxos s) = Some p' →
  ∃ s', update_pools calculate_sha256 tx_hash header_hash pinfo is_too_many visit own_pkh state_machine b d s = Some s'
    ∧ ps_errors s' = ps_errors s ∧ ps_utxos s' = p' ∧ ps_own s' = update_own own_pkh (ps_own s) d ∧ tx_ok (ps_transactions s')
    ∧ ps_requests s' = (block_effect epoch block_hash (txns b) (ps_requests s, ∅)).1.
Proof.
  intros epoch block_hash Hf Hmany Hok Hd. unfold update_pools. cbv zeta. fold epoch block_hash.
  assert (core s = (ps_requests s, ∅)) as Hcore by (unfold core; by rewrite Hmany).
  destruct (each_phase (pools_tally tx_hash pinfo is_too_many visit own_pkh epoch block_hash) tally_allowed (tally_effect block_hash)
              (tally_txns (txns b)) s) as (s1 & -> & Hc1 & He1); [by intros; apply tally_recorded|done| |].
  { rewrite Hcore. apply tallies_allowed; apply Hf. }
  cbn [mbind option_bind]. destruct (transfers_plain (value_transfer_txns (txns b)) s1) as (s2 & -> & Hc2 & He2); [apply Hc1|].
  cbn [mbind option_bind].
  destruct (each_phase (pools_request calculate_sha256 tx_hash pinfo epoch block_hash) (request_allowed epoch) (request_effect epoch block_hash)
              (data_request_txns (txns b)) s2) as (s3 & -> & Hc3 & He3); [by intros; apply request_recorded|apply Hc2|by apply requests_allowed, Hf|].
  rewrite He2, He1, Hcore in He3. cbn [mbind option_bind].
  destruct (each_phase (pools_commit calculate_sha256 tx_hash pinfo own_pkh state_machine epoch block_hash) commit_allowed commit_effect
              (commit_txns (txns b)) s3) as (s4 & -> & Hc4 & He4); [by intros; apply commit_recorded|apply Hc3| |].
  { rewrite He3. apply commits_allowed. by apply commits_fit. }
  rewrite He3 in He4. cbn [mbind option_bind].
  destruct (each_phase (pools_reveal calculate_sha256 tx_hash pinfo epoch block_hash) reveal_allowed reveal_effect
              (reveal_txns (txns b)) s4) as (s5 & -> & Hc5 & He5); [by intros; apply reveal_recorded|apply Hc4| |].
  { rewrite He4. apply reveals_allowed. by apply reveals_fit. }
  rewrite He4 in He5. cbn [mbind option_bind].
  destruct (stakes_plain (stake_txns (txns b)) s5) as (s6 & -> & Hc6 & He6); [apply Hc5|]. cbn [mbind option_bind].
  destruct (unstakes_plain (unstake_txns (txns b)) s6) as (s7 & -> & Hc7 & He7); [apply Hc6|]. cbn [mbind option_bind].
  assert (carried s s7) as [Herr Hu Hown Htx] by (do 6 (eapply carried_trans; [eassumption|]); done).
  rewrite Hu, Hd. cbn [mbind option_bind]. eexists. split; [done|]. cbn. rewrite Hown. split_and!; [done..|].
  rewrite He6, He5 in He7. by apply (f_equal fst) in He7.
Qed.
End pools.
