(* ===== verification/AcceptedBlocks.v ===== *)
(** * From validation to consolidation

    A block that [validate_block_transactions] accepts fits the pool of requests that
    the validation leaves behind, so that its consolidation records every transaction
    of the block ([accepted_block_recorded]). *)

From stdpp Require Import base tactics numbers list gmap sorting.
From Stdlib Require Import ZArith Lia.
From S2P Require Import Prelude Stake Stakes StakesCorrect Ars Hashes Superblock Versioning Tapi Merkle Rad Float Priority Storage UtxoDb Utxo.
From S2P Require Import UtxoDbCorrect UtxoCorrect RepEngine Eligibility Epoch RadScript Transaction DataRequest TxPool TxPoolCorrect TxFactory.
From S2P Require Import Consensus Validation BlockValidation ValidationCorrect BlockValidationCorrect BlockRequests Consolidation.
From S2P Require Import ConsolidationCorrect.
Local Open Scope Z_scope.
Local Open Scope rust_scope.

(** ** Loops of the validation *)

Lemma each_all {S A} (body : S → A → result Failure S) (P : A → Prop) l : ∀ s s',
  (∀ s x s', body s x = Ok s' → P x) → each body l s = Ok s' → Forall P l.
Proof.
  induction l as [|x l IH]; intros s s' Hb Hk; [done|]. cbn [each] in Hk. step_ok Hk. constructor; [by eapply Hb|by eapply IH].
Qed.
(** A loop that keeps the set of the keys it met. *)
Lemma each_once {S A} `{Countable K} (body : S → A → result Failure S) (key : A → K) (met : S → gset K) l : ∀ s s',
  (∀ s x s', body s x = Ok s' → key x ∉ met s ∧ met s' = {[ key x ]} ∪ met s) →
  each body l s = Ok s' → NoDup (key <$> l) ∧ Forall (λ x, key x ∉ met s) l.
Proof.
  induction l as [|x l IH]; intros s s' Hb Hk; [by split; [constructor|]|]. cbn [each] in Hk. step_ok Hk.
  destruct (Hb _ _ _ E) as [Hx Hm]. destruct (IH _ _ Hb Hk) as [Hnd Hl]. rewrite Forall_forall in Hl. rewrite Hm in Hl. split.
  - rewrite fmap_cons. constructor; [|done]. intros (y & Heq & Hy)%list_elem_of_fmap. apply (Hl y Hy). rewrite Heq. set_solver.
  - constructor; [done|]. apply Forall_forall. intros y Hy Hin. apply (Hl y Hy). set_solver.
Qed.

Section accepted.
Context `{UtxoDbLaws D, FloatOrd}.
Context (pinfo : ProtocolInfo) (env : Environment) (calculate_sha256 : list Z → Hash).
Context (tx_hash : option ProtocolVersion → Transaction → Hash) (header_hash : option ProtocolVersion → BlockHeader → Hash).
Context (hash_concat : Hash → Hash → Hash) (empty_hash : Hash).
Context (verify : PublicKey → list Z → list Z → bool) (parse_public_key : PublicKey → bool) (parse_signature : list Z → bool).
Context (from_slice : list Z → option Value) (from_value_u8 : Value → option Z).
Context (run_tally_panic_safe : list RevealTransaction → RADTally → f64 → nat → ActiveWips → bool →
                                option TallyMetaData * option (list Z)).
Context (tally_bytes_on_encode_error : list Z).
Implicit Types (x : BlockContext) (q : DataRequestPool) (h : Hash).

Abbreviation version_of e := (get_protocol_version pinfo (Some e)).
Abbreviation signer := (DataRequest.signer calculate_sha256).
Abbreviation dr_id x t := (tx_hash (Some (b_version x)) (DataRequest t)).
Abbreviation validate_transactions :=
  (validate_block_transactions pinfo env calculate_sha256 tx_hash header_hash hash_concat empty_hash verify parse_public_key
     parse_signature from_slice from_value_u8 run_tally_panic_safe tally_bytes_on_encode_error).
Abbreviation add x := (add_unsolvable pinfo calculate_sha256 tx_hash x).
Abbreviation tallies x := (tally_loop (D:=D) pinfo calculate_sha256 tx_hash run_tally_panic_safe tally_bytes_on_encode_error x).
Abbreviation until_requests := (validate_until_requests (D:=D) pinfo env calculate_sha256 tx_hash parse_public_key parse_signature from_slice from_value_u8).

(** ** Transactions up to the requests *)

Lemma signature_signer hash sigs sv r :
  validate_commit_reveal_signature parse_public_key parse_signature hash sigs sv = Ok r → signer sigs = Some (Hashes.pkh calculate_sha256 (public_key r.1)).
Proof. unfold validate_commit_reveal_signature. destruct sigs as [|ks [|]]; intros Hk; [done| |by step_ok Hk]. by repeat step_ok Hk; injection Hk as <-. Qed.

(** What an accepted commit says about its request; the key is the one of the
    duplicates that the block may not have. *)
Definition commit_known q (t : CommitTransaction) : Prop :=
  signer (c_signatures t) = Some (Hashes.pkh calculate_sha256 (vrf_public_key (claim_proof (c_proof t))))
  ∧ ∃ st, data_request_pool q !! c_dr_pointer t = Some st ∧ stage st = COMMIT.
Definition reveal_known q (t : RevealTransaction) : Prop :=
  signer (r_signatures t) = Some (r_pkh t) ∧ ∃ st, data_request_pool q !! r_dr_pointer t = Some st ∧ stage st = REVEAL.

Lemma commit_step_known x q vrf rep s t s' :
  commit_step (D:=D) pinfo env calculate_sha256 tx_hash parse_public_key parse_signature x q vrf rep s t = Ok s' →
  commit_known q t
  ∧ let key := (c_dr_pointer t, Hashes.pkh calculate_sha256 (vrf_public_key (claim_proof (c_proof t)))) in
    key ∉ s.1.2 ∧ s'.1.2 = {[ key ]} ∪ s.1.2.
Proof.
  destruct s as [[s hs] counts]. unfold commit_step. intros Hk. step_ok Hk. destruct a as [[[ptr ws] fee] sv]. step_ok Hk. step_ok Hk.
  injection Hk as <-. unfold validate_commit_transaction in E. step_ok E. step_ok E. do 5 step_ok E. step_ok E. step_ok E. injection E as <- _ _ _.
  cbn [fst snd]. split; [|done].
  match goal with Hs : validate_commit_reveal_signature _ _ _ _ _ = Ok _ |- _ => apply signature_signer in Hs end.
  match goal with Hp : ok_or _ _ = Ok _ |- _ => apply ok_or_ok in Hp end.
  split; [|eexists; split; [done|by apply dec_stable]].
  match goal with Hn : ¬ (_ ≠ _) |- _ => apply dec_stable in Hn end. congruence.
Qed.
Lemma reveal_step_known q s t s' :
  reveal_step (D:=D) calculate_sha256 tx_hash parse_public_key parse_signature q s t = Ok s' →
  reveal_known q t ∧ (r_dr_pointer t, r_pkh t) ∉ s.2 ∧ s'.2 = {[ (r_dr_pointer t, r_pkh t) ]} ∪ s.2.
Proof.
  destruct s as [s hs]. unfold reveal_step. intros Hk. step_ok Hk. step_ok Hk. injection Hk as <-.
  unfold validate_reveal_transaction in E. step_ok E. step_ok E. step_ok E. step_ok E. cbn [fst snd]. split; [|done].
  apply signature_signer in E1. apply ok_or_ok in E0. split; [|eexists; split; [done|by apply dec_stable]]. rewrite E1. f_equal. by apply dec_stable.
Qed.
Lemma dr_step_signed x many s t s' :
  dr_step (D:=D) pinfo calculate_sha256 tx_hash parse_public_key parse_signature from_slice from_value_u8 x many s t = Ok s' → is_Some (signer (d_signatures t)).
Proof.
  destruct s as [s acc]. unfold dr_step. intros Hk. step_ok Hk. unfold validate_dr_transaction in E. step_ok E. step_ok E.
  unfold validate_transaction_signature in E0. step_ok E0; [|by repeat step_ok E0]. step_ok E. step_ok E.
  unfold DataRequest.signer. destruct (d_signatures t); [|by eexists]. by destruct (d_inputs t).
Qed.

Lemma until_requests_known x t q vrf rep limit s s' :
  until_requests x t q vrf rep limit s = Ok s' →
  Forall (commit_known q) (commit_txns t)
  ∧ NoDup ((λ c, (c_dr_pointer c, Hashes.pkh calculate_sha256 (vrf_public_key (claim_proof (c_proof c))))) <$> commit_txns t)
  ∧ Forall (reveal_known q) (reveal_txns t) ∧ NoDup ((λ r, (r_dr_pointer r, r_pkh r)) <$> reveal_txns t)
  ∧ Forall (λ r, is_Some (signer (d_signatures r))) (data_request_txns t).
Proof.
  unfold validate_until_requests. intros Hk. step_ok Hk. step_ok Hk. destruct a0 as [[s1 hs] counts]. step_ok Hk. step_ok Hk.
  destruct (unsolved_requests _ _ _ _) as [w many]. step_ok Hk. split_and!.
  - eapply each_all; [|exact E0]. intros ? ? ? Hs. by apply commit_step_known in Hs as [? _].
  - eapply (each_once _ _ (λ s, s.1.2)); [|exact E0]. intros ? ? ? Hs. by apply commit_step_known in Hs as [_ ?].
  - eapply each_all; [|exact E2]. intros ? ? ? Hs. by apply reveal_step_known in Hs as [? _].
  - eapply (each_once _ _ (λ s, s.2)); [|exact E2]. intros ? ? ? Hs. by apply reveal_step_known in Hs as [_ ?].
  - eapply each_all; [|exact E3]. intros ? ? ? Hs. by apply dr_step_signed in Hs.
Qed.

(** ** Requests with too many witnesses *)

(** A request that nobody committed to. *)
Definition idle q h : Prop :=
  ∃ st, data_request_pool q !! h = Some st ∧ commits (info st) = ∅ ∧ reveals (info st) = ∅ ∧ stage st ≠ REVEAL.

Lemma idle_insert q h h' st :
  commits (info st) = ∅ → reveals (info st) = ∅ → stage st ≠ REVEAL → h = h' ∨ idle q h →
  idle (with_requests q (<[h' := st]> (data_request_pool q))) h.
Proof.
  intros Hc Hr Hs Hor. unfold idle. cbn [with_requests data_request_pool]. destruct (decide (h = h')) as [->|Hne].
  - exists st. by rewrite lookup_insert_eq.
  - destruct Hor as [?|(st' & Hst & Hrest)]; [done|]. exists st'. by rewrite lookup_insert_ne.
Qed.

Lemma add_idle x bh txs : ∀ q reset many q' r,
  b_version x = version_of (b_epoch x) → add x bh txs q reset many = Ret q' r →
  ∀ h, idle q h ∨ h ∈ unsolvable_ids pinfo tx_hash x txs → idle q' h.
Proof.
  induction txs as [|t txs IH]; intros q reset many q' r Hv Hk h Hh.
  { injection Hk as <- _. destruct Hh as [?|Hh]; [done|by apply elem_of_nil in Hh]. }
  cbn [add_unsolvable] in Hk. unfold unsolvable_ids in *. rewrite filter_cons in Hh. destruct (data_request_has_too_many_witnesses _ _ _) eqn:Hmany.
  2: { rewrite decide_False in Hh by (unfold unsolvable; by rewrite Hmany). by eapply IH. }
  rewrite decide_True in Hh by done. rewrite fmap_cons, elem_of_cons in Hh.
  destruct (add_one pinfo calculate_sha256 tx_hash x bh t q Hv) as [Ha|[who Ha]]; rewrite Ha in Hk; [done|].
  cbn [data_request_pool] in Hk. rewrite lookup_insert_eq in Hk. cbn [state_new stage] in Hk. rewrite decide_True in Hk by done.
  cbn [update_stage state_new stage info commits] in Hk. rewrite decide_True in Hk by done. eapply IH; [done|exact Hk|].
  destruct Hh as [Hh|[->|Hh]]; [left|left|by right]; (apply idle_insert; [done..|]); [right|by left].
  destruct Hh as (st & Hst & Hrest). unfold idle. cbn [data_request_pool]. destruct (decide (h = dr_id x t)) as [->|Hne].
  - eexists. by rewrite lookup_insert_eq.
  - exists st. by rewrite lookup_insert_ne.
Qed.

Lemma tallies_idle x reset many l : ∀ q (s : Progress (D:=D)) hs expected q' r h,
  tallies x reset many l q s hs expected = Ret q' r → idle q h → idle q' h.
Proof.
  induction l as [|t l IH]; intros q s hs expected q' r h Hk Hh; cbn [tally_loop] in Hk; [by injection Hk as <- _|].
  destruct (validate_tally_transaction _ _ _ _ _ _ _ _ _ _ _) as [[outputs fee]|e|]; [|done..].
  case_decide; [done|]. case_decide; [done|]. destruct (advance _ _ _ _ _ _ _ _ _ _) as [s1|e|]; cbn [lift_exec ebind] in Hk; [|done..].
  eapply IH; [exact Hk|]. unfold reset_data_request_stage. case_decide; [|done].
  destruct (data_request_pool q !! t_dr_pointer t) as [st|] eqn:Hst; [|done]. destruct (decide (h = t_dr_pointer t)) as [->|Hne].
  - destruct Hh as (st' & Hst' & Hc & Hr & _). assert (st' = st) as -> by congruence. apply idle_insert; [done..|by left].
  - destruct Hh as (st' & Hst' & Hrest). exists st'. cbn [with_requests data_request_pool]. by rewrite lookup_insert_ne.
Qed.

(** ** The block fits *)

(** The phases of an accepted block. *)
Lemma accepted_phases (p : UnspentOutputsPool D) q b vrf sv rep c n cc wips stakes q' r :
  validate_transactions p q b vrf sv rep c n cc wips stakes = Ret q' r →
  ∃ x limit s0 s1 s2 q1 reset many,
    b_epoch x = checkpoint (beacon (block_header b)) ∧ b_version x = version_of (b_epoch x) ∧ b_stakes x = stakes
    ∧ until_requests x (txns b) q vrf rep limit s0 = Ok s1
    ∧ add x (header_hash (Some (b_version x)) (block_header b)) (data_request_txns (txns b)) q ∅ ∅ = Ret q1 (reset, many)
    ∧ tallies x reset many (tally_txns (txns b)) q1 s1 ∅ (get_tally_ready_drs q1) = Ret q' (s2, ∅).
Proof.
  unfold validate_block_transactions. destruct (total_block_reward _ _); [|done]. cbn [unwrap lift_exec ebind].
  case_decide; [done|]. case_decide; [done|]. destruct (validate_until_requests _ _ _ _ _ _ _ _ _ _ _ _ _ _ _) as [s1| |] eqn:Eu; [|done|done].
  cbn [lift_exec ebind]. destruct (add_unsolvable _ _ _ _ _ _ _ _ _) as [q1 [reset many]| |] eqn:Ea; [|done|done]. cbn [ebind fst snd].
  destruct (tally_loop _ _ _ _ _ _ _ _ _ _ _ _ _) as [q2 [s2 rest]| |] eqn:Et; cbn [ebind fst snd]; [|done|done].
  case_decide as Hrest; [done|]. destruct (validate_after_tallies _ _ _ _ _ _ _ _ _ _ _ _); cbn [lift_exec ebind]; [|done|done].
  intros [= <- _]. subst rest. eexists _, _, _, s1, s2, q1, reset, many.
  split_and!; [| | |exact Eu|exact Ea|exact Et]; done.
Qed.

(** The requests of the block are new, those of the pool have at most 32 bits of
    reveals, and the tallies of requests with too many witnesses say so. *)
Record requests_fresh (is_too_many : list Z → bool) q (b : Block) (stakes : StakesTracker) : Prop := {
  rf_once : NoDup ((λ t, tx_hash (Some (version_of (checkpoint (beacon (block_header b))))) (DataRequest t)) <$> data_request_txns (txns b));
  rf_new t : t ∈ data_request_txns (txns b) →
    data_request_pool q !! tx_hash (Some (version_of (checkpoint (beacon (block_header b))))) (DataRequest t) = None;
  rf_reveals h st : data_request_pool q !! h = Some st → Z.of_nat (size (reveals (info st))) < U32;
  rf_too_many t : t ∈ tally_txns (txns b) → t_dr_pointer t ∈ block_unsolvable pinfo tx_hash b stakes → is_too_many (t_tally t) = true;
}.

(** The pools before and after the validation. *)
Record settled q (b : Block) q' (ids : list Hash) : Prop := {
  se_same h : h ∉ ids → data_request_pool q' !! h = data_request_pool q !! h;
  se_idle h : h ∈ ids → idle q' h;
  se_once : NoDup (t_dr_pointer <$> tally_txns (txns b));
  se_tally t : t ∈ tally_txns (txns b) → t_dr_pointer t ∉ ids → in_tally q (t_dr_pointer t);
  se_tallied h : h ∈ ids → h ∈ t_dr_pointer <$> tally_txns (txns b);
}.

Lemma accepted_settled (p : UnspentOutputsPool D) q b vrf sv rep c n cc wips stakes q' r :
  validate_transactions p q b vrf sv rep c n cc wips stakes = Ret q' r →
  settled q b q' (block_unsolvable pinfo tx_hash b stakes)
  ∧ ∃ x limit s0 s1, until_requests x (txns b) q vrf rep limit s0 = Ok s1.
Proof.
  intros Hk. apply accepted_phases in Hk as (x & limit & s0 & s1 & s2 & q1 & reset & many & He & Hv & Hst & Hu & Ha & Ht).
  split; [|by eexists _, _, _, _].
  destruct (add_unsolvable_spec pinfo calculate_sha256 tx_hash hash_concat parse_signature from_slice x
              (header_hash (Some (b_version x)) (block_header b)) (data_request_txns (txns b)) q ∅ ∅ Hv) as [Hq1 Huns].
  rewrite Ha in Hq1. cbn [pool_of] in Hq1. destruct (Huns _ _ Ha) as [Hint Hreset]. cbn [fst] in Hreset.
  destruct (tally_loop_spec pinfo calculate_sha256 tx_hash hash_concat parse_signature from_slice run_tally_panic_safe tally_bytes_on_encode_error x
              reset many (tally_txns (txns b)) q1 s1 ∅ (get_tally_ready_drs q1)) as [Hq2 Hloop]. rewrite Ht in Hq2. cbn [pool_of] in Hq2.
  destruct (Hloop _ _ _ Ht) as (Hrest & Hnd & Hl). rewrite Forall_forall in Hl.
  assert (block_unsolvable pinfo tx_hash b stakes = unsolvable_ids pinfo tx_hash x (data_request_txns (txns b))) as ->.
  { unfold block_unsolvable, unsolvable_ids. by rewrite <-He, <-Hv, Hst. }
  split.
  - intros h Hh. rewrite (ae_requests _ _ _ Hq2), (ae_requests _ _ _ Hq1); [done..|]. intros Hin%elem_of_elements%Hreset. set_solver.
  - intros h Hh. eapply tallies_idle; [exact Ht|]. eapply add_idle; [exact Hv|exact Ha|by right].
  - done.
  - intros t Hin Hi. destruct (Hl t Hin) as [_ (st1 & Hst1 & Hs1)]. exists st1. by rewrite <-(ae_requests _ _ _ Hq1).
  - intros h Hh. eapply (none_missing calculate_sha256 hash_concat parse_signature from_slice); [symmetry; exact Hrest|].
    by apply tally_ready_exact, Hint.
Qed.

(** Commits and reveals are keyed by their signers. *)
Lemma keyed_once {A} (ptr : A → Hash) (sig : A → option PublicKeyHash) (who : A → PublicKeyHash) l :
  Forall (λ t, sig t = Some (who t)) l → NoDup ((λ t, (ptr t, who t)) <$> l) → NoDup ((λ t, (ptr t, sig t)) <$> l).
Proof.
  intros Hl Hnd. enough ((λ t, (ptr t, sig t)) <$> l = prod_map id Some <$> ((λ t, (ptr t, who t)) <$> l)) as -> by (by apply NoDup_fmap_2; [apply _|]).
  rewrite <-list_fmap_compose. apply list_fmap_ext. intros i t Hin%list_elem_of_lookup_2. rewrite Forall_forall in Hl. cbn. by rewrite Hl.
Qed.

Lemma accepted_fits is_too_many (p : UnspentOutputsPool D) q b vrf sv rep c n cc wips stakes q' r :
  requests_fresh is_too_many q b stakes → validate_transactions p q b vrf sv rep c n cc wips stakes = Ret q' r →
  block_fits calculate_sha256 tx_hash pinfo is_too_many (checkpoint (beacon (block_header b))) q' (txns b).
Proof.
  intros [Honce Hnew Hrev Htoo] Hk. apply accepted_settled in Hk as [[Hsame Hidle Hnd Htal Hall] (x & limit & s0 & s1 & Hu)].
  destruct (until_requests_known _ _ _ _ _ _ _ _ Hu) as (Hcom & Hcomn & Hre & Hren & Hdr).
  set (ids := block_unsolvable pinfo tx_hash b stakes) in *.
  assert (∀ h st, data_request_pool q !! h = Some st → h ∉ ids) as Hold.
  { intros h st Hst' (t & -> & [_ Hin]%list_elem_of_filter)%list_elem_of_fmap. rewrite Hnew in Hst'; done. }
  split.
  - done.
  - apply Forall_forall. intros t Hin. destruct (decide (t_dr_pointer t ∈ ids)) as [Hi|Hi].
    + destruct (Hidle _ Hi) as (st & Hst' & Hc & Hr & Hs). exists st. cbn [fst]. split; [done|]. rewrite Hr, map_size_empty. split; [done|].
      destruct (stage st); [right; split_and!; [done..|by apply Htoo]|done|by left].
    + destruct (Htal t Hin Hi) as (st & Hst & Hs). exists st. cbn [fst]. rewrite Hsame by done. split; [done|]. split; [by eapply Hrev|by left].
  - done.
  - done.
  - intros t Hin. match goal with |- data_request_pool q' !! ?id = None ∨ _ => destruct (decide (id ∈ ids)) as [Hi|Hi] end;
      [right|left; rewrite Hsame by done; by apply Hnew].
    pose proof (Hall _ Hi) as (y & Heq & Hy)%list_elem_of_fmap. exists y. split_and!; [done..|]. apply Htoo; [done|]. by rewrite <-Heq.
  - eapply Forall_impl; [exact Hcom|]. intros t [Hs (st & Hst' & Hstage)]. split; [by rewrite Hs|]. exists st. cbn [fst].
    rewrite Hsame by (by eapply Hold). done.
  - eapply keyed_once; [|exact Hcomn]. eapply Forall_impl; [exact Hcom|]. by intros t [Hs _].
  - intros t Hin (y & Heq & Hy)%list_elem_of_fmap. rewrite Forall_forall in Hcom. destruct (Hcom t Hin) as [_ (st & Hst' & Hstage)].
    destruct (Htal y Hy) as (st1 & Hst1 & Hs1); [rewrite <-Heq; by eapply Hold|]. rewrite <-Heq in Hst1. congruence.
  - eapply Forall_impl; [exact Hre|]. intros t [Hs (st & Hst' & Hstage)]. split; [by rewrite Hs|]. exists st. cbn [fst].
    rewrite Hsame by (by eapply Hold). done.
  - eapply keyed_once; [|exact Hren]. eapply Forall_impl; [exact Hre|]. by intros t [Hs _].
Qed.

(** ** The theorem *)

Section consolidated.
Context (is_too_many : list Z → bool) (visit : ∀ A : Type, list A → list A) (own_pkh : PublicKeyHash) (state_machine : StateMachine).
Context (hash_body : ∀ t t', tx_hash None t = tx_hash None t' → body_id t = body_id t').
Context (reveal_hash : ∀ v t, tx_hash v (Reveal t) = tx_hash None (Reveal t)).
Context (visit_perm : ∀ A (l : list A), visit A l ≡ₚ l).

(** C3. The consolidation of an accepted block.  [update_pools] on the requests that
    the validation left behind does not panic and logs no error; every tally stores
    its request and takes it out of the pool, every solvable request enters it, every
    commit and reveal is recorded under its signer, the other requests do not change;
    the unspent outputs and the pool of transactions stay consistent. *)
Theorem accepted_block_recorded m q b vrf sv rep c n cc wips stakes q' d sv' visits (s : Pools (D:=D)) :
  UtxoCorrect.pool_ok (ps_utxos s) m → block_fresh pinfo tx_hash header_hash (ps_utxos s) m b cc → requests_fresh is_too_many q b stakes →
  validate_transactions (ps_utxos s) q b vrf sv rep c n cc wips stakes = Ret q' (d, sv', visits) →
  ps_requests s = q' → ps_too_many s = ∅ → TxPoolCorrect.pool_ok (tx_hash None) (ps_transactions s) →
  let epoch := checkpoint (beacon (block_header b)) in
  ∃ s', update_pools calculate_sha256 tx_hash header_hash pinfo is_too_many visit own_pkh state_machine b d s = Some s'
    ∧ ps_errors s' = ps_errors s
    ∧ block_recorded calculate_sha256 tx_hash pinfo epoch (header_hash (Some (version_of epoch)) (block_header b)) q' (txns b) (ps_requests s')
    ∧ UtxoCorrect.pool_ok (ps_utxos s') m ∧ diff_apply d (ps_utxos s) = Some (ps_utxos s')
    ∧ TxPoolCorrect.pool_ok (tx_hash None) (ps_transactions s').
Proof.
  intros Hp Hfresh Hreq Hk Hq Hmany Htx epoch. pose proof (accepted_fits is_too_many _ _ _ _ _ _ _ _ _ _ _ _ _ Hreq Hk) as Hfits.
  eapply block_ledger in Hfresh as (W & u & cur & -> & Hl); [|exact Hp|exact Hk].
  destruct (diff_apply_spec _ m u cur Hp ltac:(by eapply lg_diff)) as (p' & Happ & Hp' & _).
  rewrite <-Hq in Hfits.
  destruct (update_pools_fits calculate_sha256 tx_hash header_hash pinfo is_too_many visit own_pkh state_machine hash_body reveal_hash visit_perm
              b (take_diff u) s p' Hfits Hmany Htx Happ) as (s' & Hs' & Herr & Hu & _ & Htx' & Hreqs).
  exists s'. split_and!; [done|done| |by rewrite Hu|by rewrite Hu|done]. rewrite Hreqs, Hq. rewrite <-Hq.
  by apply (fits_recorded calculate_sha256 tx_hash pinfo is_too_many visit).
Qed.
End consolidated.
End accepted.
