(* ===== verification/ConsolidationExamples.v ===== *)
(** * Consolidation on concrete data

    A block with a new data request and a reveal, validated and consolidated. *)

From stdpp Require Import base tactics numbers list gmap sorting strings.
From Stdlib Require Import ZArith Lia.
From S2P Require Import Prelude Stake Stakes Ars Hashes Superblock Versioning Tapi Merkle Rad Float Storage UtxoDb UtxoDbCorrect.
From S2P Require Import Utxo UtxoCorrect RepEngine Eligibility Epoch RadScript Transaction DataRequest TxPool TxPoolCorrect TxPoolBlock TxFactory.
From S2P Require Import TxFactoryCorrect Consensus Validation BlockValidation ValidationCorrect BlockValidationCorrect BlockRequests.
From S2P Require Import BlockExamples Consolidation ConsolidationCorrect AcceptedBlocks.
Local Open Scope Z_scope.
Local Open Scope rust_scope.

#[local] Existing Instances toy_codecs toy_codec_laws.
#[local] Existing Instances bytes_of_len_dec valid_pointer_dec inputs_typed_dec outputs_typed_dec.

(** Hashes of 32 bytes for the outputs of a block, hashes without collisions
    elsewhere. *)
Definition co_hash (v : option ProtocolVersion) (t : Transaction) : Hash :=
  match v, t with None, _ | _, Reveal _ => demo_hash t | Some _, _ => ex_tx_hash v t end.
Lemma co_hash_body t t' : co_hash None t = co_hash None t' → body_id t = body_id t'.
Proof. apply demo_hash_body. Qed.
Lemma co_reveal_hash v t : co_hash v (Reveal t) = co_hash None (Reveal t).
Proof. by destruct v. Qed.

(** A request whose only witness committed, and the reveal of the witness. *)
Definition co_commit : CommitTransaction :=
  {| c_dr_pointer := [77]; c_commitment := [2]; c_proof := {| claim_proof := {| vrf_proof := []; vrf_public_key := ex_key 2 |} |};
     c_collateral := []; c_outputs := []; c_bn256_public_key := None; c_signatures := [ex_sig 2] |}.
Definition co_reveal : RevealTransaction := {| r_dr_pointer := [77]; r_reveal := [1]; r_pkh := [2]; r_signatures := [ex_sig 2] |}.
Definition co_state : DataRequestState :=
  MkRequest ex_request [1] (DataRequest.MkInfo {[ [2] := co_commit ]} ∅ None None None 1 1 (Some REVEAL)) REVEAL 3.
Definition co_requests : DataRequestPool := MkPool ∅ {[ 3 := {[ [77] ]} ]} {[ [77] := co_state ]} [] 3.

Definition co_txns : BlockTransactions := MkTxns (MkMint 5 [MkOutput [3] 9 0]) [] [ex_dr] [] [co_reveal] [] [] [].
Definition co_block : Block := MkBlock (ex_header 5 (block_roots co_hash ex_concat [] V1_7 co_txns)) (ex_sig 1) co_txns.
Definition co_validate :=
  validate_block_transactions ex_info Development ex_sha256 co_hash ex_header_hash ex_concat [] ex_verify ex_parse_key
    ex_parse_sig ex_from_slice ex_from_value ex_run_tally ex_encode_error (ex_pool ex_coins) co_requests co_block (MkVrfInput 0 []) []
    (engine_new 10) ex_epochs 5 ex_constants (ex_wips 5) stakes_default.

Example co_accepted :
  outcome co_validate
  = Ok ([(MkPointer (replicate 31 102 ++ [0]) 0, (MkOutput [1] 7 0, 1)); (MkPointer (replicate 31 106 ++ [5]) 0, (MkOutput [3] 9 0, 5))],
        [ex_pointer 0], [SecpTx (ex_key 2) (demo_hash (Reveal co_reveal)) [2]; SecpTx (ex_key 1) (replicate 31 102 ++ [0]) [1]]).
Proof. by vm_compute. Qed.

Lemma co_returns : ∃ q' d visits,
  co_validate = Ret q' (d, [SecpTx (ex_key 2) (demo_hash (Reveal co_reveal)) [2]; SecpTx (ex_key 1) (replicate 31 102 ++ [0]) [1]], visits).
Proof. destruct (outcome_ok _ _ co_accepted) as (q' & d & visits & Hk & _). by exists q', d, visits. Qed.

Lemma co_block_fresh : block_fresh ex_info co_hash ex_header_hash (ex_pool ex_coins) ∅ co_block ex_constants.
Proof.
  split.
  - intros k v. rewrite ex_pool_view. intros Hk%elem_of_list_to_map_2.
    assert (Forall (λ kv, fits U64 (out_value kv.2.1)) ex_coins) as Hv by (repeat constructor; by vm_compute).
    rewrite Forall_forall in Hv. by apply (Hv (k, v)).
  - split; [constructor| |constructor..|compute_decision]. constructor; [|constructor]. split; compute_decision.
  - compute_decision.
  - eapply (Forall_impl (λ h, bytes_of_len 32 h ∧ Forall (λ kv, transaction_id kv.1 ≠ h) ex_coins)); [compute_decision|].
    intros h [? ?]. by apply ex_new_id.
  - by vm_compute.
Qed.

Lemma co_requests_fresh : requests_fresh ex_info co_hash (λ _, false) co_requests co_block stakes_default.
Proof.
  split.
  - apply NoDup_singleton.
  - intros t [->|Ht]%elem_of_cons; [by vm_compute|by apply elem_of_nil in Ht].
  - intros h st. cbn [co_requests data_request_pool]. intros [_ <-]%lookup_singleton_Some. by vm_compute.
  - intros t Ht. by apply elem_of_nil in Ht.
Qed.

Lemma accepted_block_recorded_witness :
  ∃ q' d sv visits, co_validate = Ret q' (d, sv, visits)
  ∧ let s := {| ps_utxos := ex_pool ex_coins; ps_requests := q'; ps_transactions := pool_default; ps_own := ∅;
                ps_stats := MkStats 0 0 0 0 0 [] 0; ps_rep_info := RepEngine.MkInfo 0 ∅; ps_too_many := ∅; ps_errors := [] |} in
    ∃ s', update_pools ex_sha256 co_hash ex_header_hash ex_info (λ _, false) demo_visit [9] Synced co_block d s = Some s'
      ∧ ps_errors s' = []
      ∧ block_recorded ex_sha256 co_hash ex_info 5 (replicate 32 5) q' co_txns (ps_requests s')
      ∧ UtxoCorrect.pool_ok (ps_utxos s') ∅ ∧ diff_apply d (ex_pool ex_coins) = Some (ps_utxos s')
      ∧ TxPoolCorrect.pool_ok (co_hash None) (ps_transactions s').
Proof.
  destruct co_returns as (q' & d & visits & Hk). eexists q', d, _, visits. split; [exact Hk|]. intros s.
  refine (accepted_block_recorded ex_info Development ex_sha256 co_hash ex_header_hash ex_concat [] ex_verify ex_parse_key ex_parse_sig
            ex_from_slice ex_from_value ex_run_tally ex_encode_error (λ _, false) demo_visit [9] Synced co_hash_body co_reveal_hash
            demo_visit_perm ∅ co_requests co_block (MkVrfInput 0 []) [] (engine_new 10) ex_epochs 5 ex_constants (ex_wips 5) stakes_default
            q' d _ visits s ex_coins_ok co_block_fresh co_requests_fresh Hk eq_refl eq_refl _).
  split; [by apply pool_empty_consistent|apply reveals_empty].
Defined.
