(* ===== verification/ChainManager.v ===== *)
(** * The chain manager

    Models the rest of the consolidation of blocks of
    node/src/actors/chain_manager/mod.rs over the state of the actor: the validation
    of a block with its signatures, the activation of version 2.0 by the total stake,
    the whole [consolidate_block], and its callers for requested blocks and for block
    candidates.  The messages that the actor sends are part of the results. *)

From stdpp Require Import base tactics numbers list gmap.
From Stdlib Require Import ZArith Lia.
From S2P Require Import Prelude Stake Stakes Trs Ars Hashes Superblock Versioning Tapi Merkle Rad Float Priority Storage UtxoDb Utxo.
From S2P Require Import RepEngine Eligibility Epoch RadScript Transaction DataRequest TxPool TxFactory Consensus Validation BlockValidation.
From S2P Require Import Consolidation.
Local Open Scope Z_scope.
Local Open Scope rust_scope.

(** ** State *)

Record ChainState (D : Type) := MkState {
  chain_info : option ChainInfo;
  requests_pool : DataRequestPool;
  block_chain : gmap Z Hash;
  own_outputs : OwnUnspentOutputsPool;
  reputation_engine : option ReputationEngine;
  node_stats : NodeStats;
  alt_keys : AltKeys;
  superblock_state : SuperBlockState;
  tapi_engine : TapiEngine;
  stakes : StakesTracker;
  unspent_outputs_pool : UnspentOutputsPool D;
}.
Arguments MkState {D} _ _ _ _ _ _ _ _ _ _ _.
Arguments chain_info {D} _.
Arguments requests_pool {D} _.
Arguments block_chain {D} _.
Arguments own_outputs {D} _.
Arguments reputation_engine {D} _.
Arguments node_stats {D} _.
Arguments alt_keys {D} _.
Arguments superblock_state {D} _.
Arguments tapi_engine {D} _.
Arguments stakes {D} _.
Arguments unspent_outputs_pool {D} _.

(** [ChainState::block_number] and the beacons; [None] is a panic. *)
Definition block_number {D} (s : ChainState D) : option Z :=
  let n := Z.of_nat (size (block_chain s)) in if decide (n < U32) then Some n else None.
Definition get_chain_beacon {D} (s : ChainState D) : option CheckpointBeacon := highest_block_checkpoint <$> chain_info s.
Definition get_superblock_beacon {D} (s : ChainState D) : option CheckpointBeacon := highest_superblock_checkpoint <$> chain_info s.
Definition get_consensus_constants {D} (s : ChainState D) : option ConsensusConstants := info_constants <$> chain_info s.

Record BlockCandidate := MkBlockCandidate {
  cand_block : Block;
  cand_utxo_diff : Diff;
  cand_reputation : Z;
  cand_vrf_proof : Hash;
  cand_priorities : Priorities;
}.

(** The actor, with the process-wide protocol information: the fields that the functions
    below use.  [vrf_ctx] tells whether the context of the vrf crate is available. *)
Record ChainManager (D : Type) := MkManager {
  global_protocol : ProtocolInfo;
  chain_state : ChainState D;
  transactions_pool : TransactionsPool;
  manager_pkh : option PublicKeyHash;
  epoch_constants : option EpochConstants;
  sm_state : StateMachine;
  vrf_ctx : bool;
  priority_engine : PriorityEngine;
  current_epoch : option Z;
  best_candidate : option BlockCandidate;
  candidates : gmap Hash (list Block);
  seen_candidates : list Block;
}.
Arguments MkManager {D} _ _ _ _ _ _ _ _ _ _ _ _.
Arguments global_protocol {D} _.
Arguments chain_state {D} _.
Arguments transactions_pool {D} _.
Arguments manager_pkh {D} _.
Arguments epoch_constants {D} _.
Arguments sm_state {D} _.
Arguments vrf_ctx {D} _.
Arguments priority_engine {D} _.
Arguments current_epoch {D} _.
Arguments best_candidate {D} _.
Arguments candidates {D} _.
Arguments seen_candidates {D} _.

Definition with_chain_state {D} (m : ChainManager D) (s : ChainState D) : ChainManager D :=
  MkManager (global_protocol m) s (transactions_pool m) (manager_pkh m) (epoch_constants m) (sm_state m) (vrf_ctx m)
    (priority_engine m) (current_epoch m) (best_candidate m) (candidates m) (seen_candidates m).
Definition with_requests_of {D} (m : ChainManager D) (q : DataRequestPool) : ChainManager D :=
  let s := chain_state m in
  with_chain_state m (MkState (chain_info s) q (block_chain s) (own_outputs s) (reputation_engine s) (node_stats s) (alt_keys s)
                        (superblock_state s) (tapi_engine s) (stakes s) (unspent_outputs_pool s)).
Definition with_candidates {D} (m : ChainManager D) (best : option BlockCandidate) (cs : gmap Hash (list Block))
    (seen : list Block) : ChainManager D :=
  MkManager (global_protocol m) (chain_state m) (transactions_pool m) (manager_pkh m) (epoch_constants m) (sm_state m) (vrf_ctx m)
    (priority_engine m) (current_epoch m) best cs seen.

(** Messages to the actor itself, to the storage, to the peers and to clients. *)
Inductive Message :=
  | AddReveal (t : RevealTransaction)
  | PersistDataRequests (l : list DataRequestInfo)
  | PersistBlock (b : Block)
  | BroadcastBlock (b : Block)
  | BlockNotify (b : Block).

Section manager.
Context `{UtxoDb D, FloatOrd}.
Context (env : Environment) (calculate_sha256 : list Z → Hash).
Context (tx_hash : option ProtocolVersion → Transaction → Hash) (header_hash : option ProtocolVersion → BlockHeader → Hash).
Context (hash_concat : Hash → Hash → Hash) (empty_hash : Hash).
Context (verify : PublicKey → list Z → list Z → bool) (parse_public_key : PublicKey → bool) (parse_signature : list Z → bool).
Context (verify_block_proof : list Z * PublicKey → CheckpointVRF → option Hash).
Context (verify_v1 : DataRequestEligibilityClaim → CheckpointVRF → Hash → option Hash).
Context (verify_v2 : DataRequestEligibilityClaim → CheckpointVRF → Hash → option PublicKeyHash → option Hash).
Context (proof_to_hash : list Z * PublicKey → option Hash).
Context (from_slice : list Z → option Value) (from_value_u8 : Value → option Z).
Context (run_tally_panic_safe : list RevealTransaction → RADTally → f64 → nat → ActiveWips → bool →
                                option TallyMetaData * option (list Z)).
Context (tally_bytes_on_encode_error : list Z).
Context (is_too_many : list Z → bool) (is_valid_bn256 : list Z → bool) (visit : ∀ A : Type, list A → list A).
Context (powf : f64 → f64 → f64).

Abbreviation key_pkh := (Hashes.pkh calculate_sha256).
Abbreviation block_epoch b := (checkpoint (beacon (block_header b))).
Abbreviation verify_all pinfo :=
  (verify_signatures pinfo calculate_sha256 verify parse_public_key parse_signature verify_block_proof verify_v1 verify_v2).
Abbreviation validate_transactions pinfo :=
  (validate_block_transactions pinfo env calculate_sha256 tx_hash header_hash hash_concat empty_hash verify parse_public_key
     parse_signature from_slice from_value_u8 run_tally_panic_safe tally_bytes_on_encode_error).

(** ** Validation of a block *)

(** [process_validations]: the changes to the unspent outputs and the visits of the
    visitor of priorities. *)
Definition process_validations (pinfo : ProtocolInfo) (b : Block) (current_epoch : Z) (vrf_input : CheckpointVRF)
    (chain_beacon : CheckpointBeacon) (rep_eng : ReputationEngine) (c : EpochConstants) (utxo_set : UnspentOutputsPool D)
    (dr_pool : DataRequestPool) (number : Z) (cc : ConsensusConstants) (resynchronizing : bool) (active_wips : ActiveWips)
    (st : StakesTracker) (protocol_version : ProtocolVersion) :
    exec DataRequestPool Failure (Diff * list (Transaction * Z * Z)) :=
  let replication_factor := get_replication_factor pinfo (block_epoch b) (checkpoint chain_beacon) in
  let! (dr_pool, _) := lift_exec dr_pool
    (if resynchronizing then Ok tt
     else
       let? signatures := validate_block pinfo calculate_sha256 tx_hash header_hash hash_concat empty_hash parse_public_key
                            parse_signature b current_epoch vrf_input chain_beacon [] rep_eng cc active_wips st protocol_version
                            replication_factor in
       let? _ := verify_all pinfo signatures in Ok tt) in
  let! (dr_pool, r) := validate_transactions pinfo utxo_set dr_pool b vrf_input [] rep_eng c number cc active_wips st in
  let '(utxo_diff, signatures, visits) := r in
  let! (dr_pool, _) := lift_exec dr_pool
    (if resynchronizing then Ok tt else let? _ := verify_all pinfo signatures in Ok tt) in
  Ret dr_pool (utxo_diff, visits).

(** ** Consolidation *)

(** The activation of version 2.0 once enough is staked: the protocol information of
    the process and of the chain, and the epoch constants.  [None] is a panic. *)
Definition schedule_wit2 (pinfo : ProtocolInfo) (ci : ChainInfo) (c : option EpochConstants) (st : StakesTracker) (epoch : Z) :
    option (ProtocolInfo * ChainInfo * option EpochConstants) :=
  let period := superblock_period (info_constants ci) in
  if decide (get_protocol_version pinfo (Some epoch) = V1_8 ∧ get_protocol_version_activation_epoch pinfo V2_0 = U32 - 1) then
    if decide (period = 0) then None
    else if decide (epoch mod period = 0 ∧ get_wit2_minimum_total_stake_nanowits env ≤ total_staked st) then
      let scheduled := wadd U32 epoch (get_wit2_activation_delay_epochs env) in
      let checkpoint_period := get_checkpoints_period_wit2 in
      let pinfo := register_protocol_version pinfo V2_0 scheduled checkpoint_period in
      let ci := MkChainInfo (protocol_register (info_protocol ci) scheduled V2_0 checkpoint_period) (info_constants ci)
                  (highest_block_checkpoint ci) (highest_superblock_checkpoint ci) (highest_vrf_output ci) in
      c ← c;
      match set_values_for_wit2 c checkpoint_period scheduled with
      | Ret c _ => Some (pinfo, ci, Some c)
      | _ => None
      end
    else Some (pinfo, ci, c)
  else Some (pinfo, ci, c).

Definition reputation_constants (cc : ConsensusConstants) : ReputationConstants :=
  MkRepConstants (cc_reputation_issuance cc) (cc_reputation_issuance_stop cc) (cc_reputation_penalization_factor cc)
    (cc_reputation_expire_alpha_diff cc).

(** The fields of stake transactions that the tracker uses. *)
Definition stake_of (t : StakeTransaction) : Stakes.StakeTransaction :=
  {| st_key := so_key (s_output t); st_value := so_value (s_output t) |}.
Definition unstake_of (t : UnstakeTransaction) : Stakes.UnstakeTransaction :=
  {| ut_operator := u_operator t; ut_withdrawal_pkh := out_pkh (u_withdrawal t); ut_withdrawal_value := out_value (u_withdrawal t);
     ut_fee := u_fee t |}.

(** Reputation and stake transactions, which the genesis block does not change. *)
Definition settle_identities (pinfo : ProtocolInfo) (cc : ConsensusConstants) (b : Block) (block_hash : Hash)
    (rep_info : ReputationInfo) (rep : ReputationEngine) (keys : AltKeys) (st : StakesTracker) :
    option (ReputationEngine * AltKeys * StakesTracker) :=
  let epoch := block_epoch b in
  if decide (block_hash = genesis_hash cc) then Some (rep, keys, st)
  else
    '(rep, keys) ← (if before_v2 (get_protocol_version pinfo (Some epoch))
                    then update_reputation powf (reputation_constants cc) rep keys (key_pkh (proof (block_header b)).2) rep_info epoch
                    else Some (rep, keys));
    let minimum_stakeable := get_validator_min_stake_nanowits pinfo epoch in
    st ← ignore (process_stake_transactions UNIT st (stake_of <$> stake_txns (txns b)) epoch minimum_stakeable);
    st ← ignore (process_unstake_transactions st (unstake_of <$> unstake_txns (txns b)) epoch minimum_stakeable);
    Some (rep, keys, st).

Definition has_tally (i : DataRequestInfo) : bool := match info_tally i with Some _ => true | None => false end.

(** The end of the consolidation, per state of the node: the pool of requests and the
    messages. *)
Definition finish_requests (pinfo : ProtocolInfo) (sm : StateMachine) (resynchronizing : bool) (validators : nat) (b : Block)
    (q : DataRequestPool) : option (DataRequestPool * list Message) :=
  let update (q : DataRequestPool) :=
    update_data_request_stages calculate_sha256 q (Some validators) (get_protocol_version pinfo (Some (block_epoch b))) in
  if decide (sm = Synchronizing) then
    match update q with Some (q, reveals) => Some (q, AddReveal <$> reveals) | None => None end
  else
    let '(q, to_be_stored) := finished_data_requests q in
    if (bool_decide (sm ≠ WaitingConsensus) || negb resynchronizing) && negb (forallb has_tally to_be_stored) then None
    else
      match update q with
      | Some (q, reveals) =>
          Some (q, (if resynchronizing then [] else [PersistDataRequests to_be_stored]) ++ (AddReveal <$> reveals)
                   ++ (if resynchronizing then [] else [PersistBlock b])
                   ++ (if decide (sm = WaitingConsensus) then [] else [BlockNotify b]))
      | None => None
      end.

(** [consolidate_block]; without the identity of the node, the information of the chain
    or the vrf context, nothing changes.  [None] is a panic. *)
Definition consolidate_block (m : ChainManager D) (b : Block) (utxo_diff : Diff) (ps : Priorities) (resynchronizing : bool) :
    option (ChainManager D * list Message) :=
  let s := chain_state m in
  match manager_pkh m, chain_info s, reputation_engine s, vrf_ctx m with
  | Some own_pkh, Some ci, Some rep, true =>
      let epoch := block_epoch b in
      let block_hash := header_hash (Some (get_protocol_version (global_protocol m) (Some epoch))) (block_header b) in
      let validators := validator_count (stakes s) in
      vrf_output ← (if decide (epoch = 0) then Some (MkVrfInput epoch block_hash)
                    else h ← proof_to_hash (proof (block_header b)); Some (MkVrfInput epoch h));
      let ci := MkChainInfo (info_protocol ci) (info_constants ci) (MkBeacon epoch block_hash) (highest_superblock_checkpoint ci)
                  vrf_output in
      '(pinfo, ci, constants) ← schedule_wit2 (global_protocol m) ci (epoch_constants m) (stakes s) epoch;
      c ← constants;
      st ← process_wit2_stakes_changes calculate_sha256 pinfo b (requests_pool s) (stakes s) c
             (utxo_diff_new (unspent_outputs_pool s) epoch);
      p ← update_pools calculate_sha256 tx_hash header_hash pinfo is_too_many visit own_pkh (sm_state m) b utxo_diff
            (MkPools (unspent_outputs_pool s) (requests_pool s) (transactions_pool m) (own_outputs s) (node_stats s) info_new ∅ []);
      '(rep, keys, st) ← settle_identities pinfo (info_constants ci) b block_hash (ps_rep_info p) rep (alt_keys s) st;
      let keys := insert_keys_from_block calculate_sha256 is_valid_bn256 keys b in
      tapi ← update_bit_counter (signals (block_header b)) epoch epoch ∅ (cc_checkpoints_period (info_constants ci))
               (MkTapi (tapi_engine s) pinfo (info_protocol ci));
      let ci := MkChainInfo (chain_protocol tapi) (info_constants ci) (highest_block_checkpoint ci)
                  (highest_superblock_checkpoint ci) (highest_vrf_output ci) in
      '(q, messages) ← finish_requests (Tapi.protocol tapi) (sm_state m) resynchronizing validators b (ps_requests p);
      let stats := if decide (key_pkh (proof (block_header b)).2 = own_pkh)
                   then count_mined (ps_stats p) (bool_decide (sm_state m = Synced)) else ps_stats p in
      Some (MkManager (Tapi.protocol tapi)
              (MkState (Some ci) q (<[epoch := block_hash]> (block_chain s)) (ps_own p) (Some rep) stats keys (superblock_state s)
                 (Tapi.engine tapi) st (ps_utxos p))
              (ps_transactions p) (Some own_pkh) (Some c) (sm_state m) true (push_priorities (priority_engine m) ps)
              (current_epoch m) (best_candidate m) (candidates m) (seen_candidates m), messages)
  | _, _, _, _ => Some (m, [])
  end.

(** ** Requested blocks and candidates *)

Inductive ManagerError := ChainNotReady | Rejected (e : Failure).

(** The proposals in force for a block. *)
Definition wips_of (s : ChainState D) (b : Block) : ActiveWips := MkActive (wip_activation (tapi_engine s)) (block_epoch b).

(** [process_requested_block]. *)
Definition process_requested_block (m : ChainManager D) (b : Block) (resynchronizing : bool) :
    exec (ChainManager D) ManagerError (list Message) :=
  let s := chain_state m in
  match epoch_constants m, chain_info s, reputation_engine s, vrf_ctx m with
  | Some c, Some ci, Some rep, true =>
      match db (unspent_outputs_pool s), block_number s with
      | Some _, Some number =>
          let vrf_input := MkVrfInput (block_epoch b) (hash_prev_vrf (highest_vrf_output ci)) in
          match process_validations (global_protocol m) b (default 0 (current_epoch m)) vrf_input (highest_block_checkpoint ci) rep c
                  (unspent_outputs_pool s) (requests_pool s) number (info_constants ci) resynchronizing (wips_of s b) (stakes s)
                  (get_protocol_version (global_protocol m) (Some (block_epoch b))) with
          | Crash => Crash
          | Fail q e => Fail (with_requests_of m q) (Rejected e)
          | Ret q (utxo_diff, visits) =>
              match consolidate_block (with_requests_of m q) b utxo_diff (visit_all visits) resynchronizing with
              | Some (m, messages) => Ret m messages
              | None => Crash
              end
          end
      | _, _ => Crash
      end
  | _, _, _, _ => Fail m ChainNotReady
  end.

(** The candidate that [compare_block_candidates] sees. *)
Definition candidate_of (m : ChainManager D) (b : Block) (reputation : Z) (vrf_proof : Hash) (is_active : bool) : Candidate :=
  MkCandidate (header_hash None (block_header b)) reputation vrf_proof is_active
    (match query_power UNIT (stakes (chain_state m)) (key_pkh (public_key (block_sig b))) Mining (block_epoch b) with
     | Ok p => p | _ => 0 end).

(** Whether a candidate has to be validated: there is none yet or it is better. *)
Definition beats_best (m : ChainManager D) (rep : ReputationEngine) (slots : VrfSlots) (epoch : Z) (b : Block) (reputation : Z)
    (vrf_proof : Hash) (is_active : bool) : bool :=
  match best_candidate m with
  | None => true
  | Some best =>
      let best_pkh := key_pkh (public_key (block_sig (cand_block best))) in
      let best_active := if after_second_hard_fork epoch env then Ars.contains (ars rep) best_pkh else is_active in
      bool_decide (compare_block_candidates (candidate_of m b reputation vrf_proof is_active)
                     (candidate_of m (cand_block best) (cand_reputation best) (cand_vrf_proof best) best_active) slots
                     (get_protocol_version (global_protocol m) (Some (block_epoch b))) = Gt)
  end.

(** A candidate that was not seen before, once the node is synchronized. *)
Definition validate_candidate (m : ChainManager D) (ci : ChainInfo) (rep : ReputationEngine) (epoch : Z) (b : Block) :
    option (ChainManager D * list Message) :=
  let s := chain_state m in
  let cc := info_constants ci in
  let broadcast_on_error := if decide (sm_state m = AlmostSynced) then [BroadcastBlock b] else [] in
  let identities := Z.of_nat (active_identities_number (ars rep)) in
  if decide (U32 ≤ identities) then None
  else
    let slots := slots_from_rf identities (cc_mining_replication_factor cc) (mining_backup_factor cc) (block_epoch b)
                   (minimum_difficulty cc) (epochs_with_minimum_difficulty cc) (wips_of s b) in
    let block_pkh := key_pkh (public_key (block_sig b)) in
    let reputation := Trs.get (trs rep) block_pkh in
    let is_active := Ars.contains (ars rep) block_pkh in
    match proof_to_hash (proof (block_header b)) with
    | None => Some (m, broadcast_on_error)
    | Some vrf_proof =>
        if beats_best m rep slots epoch b reputation vrf_proof is_active then
          number ← block_number s;
          c ← epoch_constants m;
          match process_validations (global_protocol m) b epoch (MkVrfInput epoch (hash_prev_vrf (highest_vrf_output ci)))
                  (highest_block_checkpoint ci) rep c (unspent_outputs_pool s) (requests_pool s) number cc false (wips_of s b)
                  (stakes s) (get_protocol_version (global_protocol m) (Some (block_epoch b))) with
          | Crash => None
          | Fail q _ => Some (with_requests_of m q, broadcast_on_error)
          | Ret q (utxo_diff, visits) =>
              Some (with_candidates (with_requests_of m q)
                      (Some (MkBlockCandidate b utxo_diff reputation vrf_proof (visit_all visits)))
                      (candidates m) (seen_candidates m), [BroadcastBlock b])
          end
        else Some (m, [])
    end.

(** [process_candidate]. *)
Definition process_candidate (m : ChainManager D) (b : Block) : option (ChainManager D * list Message) :=
  match current_epoch m, chain_info (chain_state m), reputation_engine (chain_state m), vrf_ctx m with
  | Some epoch, Some ci, Some rep, true =>
      if decide (block_epoch b ≠ epoch ∧ block_epoch b ≠ wadd U32 epoch 1) then Some (m, [])
      else if decide (b ∈ seen_candidates m) then Some (m, [])
      else
        let hash_block := header_hash None (block_header b) in
        let seen := b :: seen_candidates m in
        if decide (sm_state m = WaitingConsensus ∨ sm_state m = Synchronizing) then
          Some (with_candidates m (best_candidate m)
                  (<[hash_block := default [] (candidates m !! hash_block) ++ [b]]> (candidates m)) seen, [BroadcastBlock b])
        else validate_candidate (with_candidates m (best_candidate m) (candidates m) seen) ci rep epoch b
  | _, _, _, _ => Some (m, [])
  end.
End manager.
