(* ===== verification/ChainManagerCorrect.v ===== *)
(** * The chain of a node

    A block that [process_requested_block] consolidates is linked to the tip of the
    chain, its signatures were verified, and it becomes the tip. *)

From stdpp Require Import base tactics numbers list gmap strings.
From Stdlib Require Import ZArith Lia.
From S2P Require Import Prelude Stake Stakes Trs Ars Hashes Superblock Versioning Tapi Merkle Rad Float Priority Storage UtxoDb Utxo.
From S2P Require Import RepEngine Eligibility Epoch RadScript Transaction DataRequest TxPool TxFactory Consensus Validation BlockValidation.
From S2P Require Import UtxoDbCorrect UtxoCorrect SuperblockCorrect BlockExamples Consolidation ChainManager.
Local Open Scope Z_scope.
Local Open Scope rust_scope.

Section manager.
Context `{UtxoDb D, FloatOrd}.
Context (env : Environment) (calculate_sha256 : list Z → Hash).
Context (tx_hash : option ProtocolVersion → Transaction → Hash) (header_hash : option ProtocolVersion → BlockHeader → Hash).
Context (hash_concat : Hash → Hash → Hash) (empty_hash : Hash).
Context (verify : PublicKey → list Z → list Z → bool) (parse_public_key : PublicKey → bool) (parse_signature : list Z → bool).
Context (verify_block_proof : list Z * PublicKey → CheckpointVRF → option Hash).
Context (verify_v1 : DataRequestEligibilityClaim → CheckpointVRF → Hash → option Hash).
Context (verify_v2 : DataRequestEligibilityClaim → CheckpointVRF → Hash → option PublicKeyHash → option Hash).
Context (proof_to_hash : list Z * PublicKey → option Hash).
Context (from_slice : list Z → option Value) (from_value_u8 : Value → option Z).
Context (run_tally_panic_safe : list RevealTransaction → RADTally → f64 → nat → ActiveWips → bool →
                                option TallyMetaData * option (list Z)).
Context (tally_bytes_on_encode_error : list Z).
Context (is_too_many : list Z → bool) (is_valid_bn256 : list Z → bool) (visit : ∀ A : Type, list A → list A).
Context (powf : f64 → f64 → f64).
Implicit Types (m : ChainManager D) (s : ChainState D) (b : Block).

Abbreviation block_epoch b := (checkpoint (beacon (block_header b))).
Abbreviation consolidate :=
  (consolidate_block env calculate_sha256 tx_hash header_hash proof_to_hash is_too_many is_valid_bn256 visit powf).
Abbreviation process_requested :=
  (process_requested_block env calculate_sha256 tx_hash header_hash hash_concat empty_hash verify parse_public_key parse_signature
     verify_block_proof verify_v1 verify_v2 proof_to_hash from_slice from_value_u8 run_tally_panic_safe tally_bytes_on_encode_error
     is_too_many is_valid_bn256 visit powf).
Abbreviation validations :=
  (process_validations env calculate_sha256 tx_hash header_hash hash_concat empty_hash verify parse_public_key parse_signature
     verify_block_proof verify_v1 verify_v2 from_slice from_value_u8 run_tally_panic_safe tally_bytes_on_encode_error).

Definition hash_of m b : Hash := header_hash (Some (get_protocol_version (global_protocol m) (Some (block_epoch b)))) (block_header b).

(** Nothing in the chain comes after the tip. *)
Definition tip_ok s : Prop :=
  ∀ ci e h, chain_info s = Some ci → block_chain s !! e = Some h →
    e ≤ checkpoint (highest_block_checkpoint ci)
    ∧ (e = checkpoint (highest_block_checkpoint ci) → h = hash_prev_block (highest_block_checkpoint ci)).

(** The consolidated block is the tip. *)
Lemma consolidated_tip m b d ps r m' messages pkh ci rep :
  consolidate m b d ps r = Some (m', messages) →
  manager_pkh m = Some pkh → chain_info (chain_state m) = Some ci → reputation_engine (chain_state m) = Some rep → vrf_ctx m = true →
  ∃ ci', chain_info (chain_state m') = Some ci' ∧ highest_block_checkpoint ci' = MkBeacon (block_epoch b) (hash_of m b)
    ∧ highest_superblock_checkpoint ci' = highest_superblock_checkpoint ci ∧ info_constants ci' = info_constants ci
    ∧ block_chain (chain_state m') = <[block_epoch b := hash_of m b]> (block_chain (chain_state m)).
Proof.
  intros Hk Hp Hci Hrep Hvrf. unfold consolidate_block in Hk. rewrite Hp, Hci, Hrep, Hvrf in Hk.
  apply bind_Some in Hk as (vrf & _ & Hk). apply bind_Some in Hk as ([[pinfo ci1] cs] & Hsch & Hk).
  assert (highest_block_checkpoint ci1 = MkBeacon (block_epoch b) (hash_of m b)
          ∧ highest_superblock_checkpoint ci1 = highest_superblock_checkpoint ci ∧ info_constants ci1 = info_constants ci) as (H1 & H2 & H3).
  { clear Hk. unfold schedule_wit2 in Hsch. case_decide; [|by simplify_eq]. case_decide; [done|].
    case_decide; [|by simplify_eq]. apply bind_Some in Hsch as (c & _ & Hsch). destruct (set_values_for_wit2 _ _ _); by simplify_eq. }
  apply bind_Some in Hk as (c & _ & Hk). apply bind_Some in Hk as (st & _ & Hk). apply bind_Some in Hk as (p & _ & Hk).
  apply bind_Some in Hk as ([[rep' keys] st'] & _ & Hk). apply bind_Some in Hk as (tapi & _ & Hk).
  apply bind_Some in Hk as ([q msgs] & _ & Hk). injection Hk as <- _. by eexists.
Qed.

(** What [process_validations] checks of a block. *)
Lemma consolidated_identity m b d ps r m' messages : consolidate m b d ps r = Some (m', messages) → manager_pkh m' = manager_pkh m.
Proof.
  unfold consolidate_block. destruct (manager_pkh m) as [own|] eqn:Hp, (chain_info (chain_state m)), (reputation_engine (chain_state m)), (vrf_ctx m);
    intros Hk; try by simplify_eq.
  repeat (apply bind_Some in Hk as (? & _ & Hk); repeat case_match; try done). all: by simplify_eq.
Qed.

Lemma validated_link pinfo b current vrf tip rep c (u : UnspentOutputsPool D) q n cc wips st v q' r :
  validations pinfo b current vrf tip rep c u q n cc false wips st v = Ret q' r →
  hash_prev_block (beacon (block_header b)) = hash_prev_block tip ∧ checkpoint tip ≤ block_epoch b ≤ current.
Proof.
  unfold process_validations. destruct (validate_block _ _ _ _ _ _ _ _ _ _ _ _ _ _ _ _ _ _ _) as [sigs| |] eqn:Hv; [|done|done]. intros _.
  unfold validate_block in Hv. step_ok Hv. step_ok Hv. step_ok Hv. split; [|lia]. symmetry. by apply dec_stable.
Qed.

(** A requested block that is consolidated is linked to the tip and becomes the tip. *)
Lemma requested_block_link m b m' messages pkh :
  manager_pkh m = Some pkh → process_requested m b false = Ret m' messages →
  ∃ ci ci', chain_info (chain_state m) = Some ci ∧ chain_info (chain_state m') = Some ci'
    ∧ hash_prev_block (beacon (block_header b)) = hash_prev_block (highest_block_checkpoint ci)
    ∧ checkpoint (highest_block_checkpoint ci) ≤ block_epoch b ≤ default 0 (current_epoch m)
    ∧ highest_block_checkpoint ci' = MkBeacon (block_epoch b) (hash_of m b)
    ∧ highest_superblock_checkpoint ci' = highest_superblock_checkpoint ci ∧ info_constants ci' = info_constants ci
    ∧ block_chain (chain_state m') = <[block_epoch b := hash_of m b]> (block_chain (chain_state m))
    ∧ (tip_ok (chain_state m) → tip_ok (chain_state m')).
Proof.
  intros Hp Hk. unfold process_requested_block in Hk. destruct (epoch_constants m) as [c|]; [|done].
  destruct (chain_info (chain_state m)) as [ci|] eqn:Hci; [|done]. destruct (reputation_engine (chain_state m)) as [rep|] eqn:Hrep; [|done].
  destruct (vrf_ctx m) eqn:Hvrf; [|done]. destruct (db _) as [d0|]; [|done]. destruct (block_number _); [|done].
  destruct (process_validations _ _ _ _ _ _ _ _ _ _ _ _ _ _ _ _ _ _ _ _ _ _ _ _ _ _ _ _ _ _) as [q [d visits]| |] eqn:Hv; [|done|done].
  destruct (consolidate_block _ _ _ _ _ _ _ _ _ _ _ _ _ _) as [[m1 msgs]|] eqn:Hc; [|done]. injection Hk as <- <-.
  apply validated_link in Hv as [Hprev Hepoch].
  destruct (consolidated_tip (with_requests_of m q) _ _ _ _ _ _ pkh ci rep Hc Hp Hci Hrep Hvrf) as (ci' & Hci' & Htip & Hsup & Hcc & Hchain).
  exists ci, ci'. split_and!; try done; [lia|lia|]. intros Hok ci0 e h. rewrite Hci'. intros [= <-]. rewrite Hchain, Htip. cbn [checkpoint hash_prev_block].
  intros [[<- <-]|[Hne Hh]]%lookup_insert_Some; [done|]. destruct (Hok ci e h Hci Hh) as [Hle _]. split; [lia|done].
Qed.

(** C13. The chain grows at its tip.  When a requested block is consolidated, its header
    points at the hash of the tip, its epoch is not before the tip nor after the
    current one; it becomes the tip and is recorded under its epoch, the superblock and
    the constants do not change, and nothing in the chain comes after the tip. *)
Theorem requested_block_extends_chain m b m' messages pkh :
  manager_pkh m = Some pkh → process_requested m b false = Ret m' messages →
  ∃ ci ci', chain_info (chain_state m) = Some ci ∧ chain_info (chain_state m') = Some ci'
    ∧ hash_prev_block (beacon (block_header b)) = hash_prev_block (highest_block_checkpoint ci)
    ∧ checkpoint (highest_block_checkpoint ci) ≤ block_epoch b ≤ default 0 (current_epoch m)
    ∧ highest_block_checkpoint ci' = MkBeacon (block_epoch b) (hash_of m b)
    ∧ highest_superblock_checkpoint ci' = highest_superblock_checkpoint ci ∧ info_constants ci' = info_constants ci
    ∧ block_chain (chain_state m') = <[block_epoch b := hash_of m b]> (block_chain (chain_state m))
    ∧ (tip_ok (chain_state m) → tip_ok (chain_state m')).
Proof. apply requested_block_link. Qed.
End manager.

(** ** A block from a peer *)

#[local] Existing Instances toy_codecs toy_codec_laws.

(** A node whose tip is the block of epoch 4. *)
Definition node_info : ChainInfo := MkChainInfo ex_info ex_constants (MkBeacon 4 [9]) (MkBeacon 0 [8]) (MkVrfInput 4 [7]).
Definition node : ChainManager ex_db :=
  {| global_protocol := ex_info;
     chain_state :=
       {| chain_info := Some node_info; requests_pool := pool_new 3; block_chain := {[ 4 := [9] ]}; own_outputs := ∅;
          reputation_engine := Some (RepEngine.engine_new 10); node_stats := MkStats 0 0 0 0 0 [] 0; alt_keys := ∅;
          superblock_state := toy_state [10]; tapi_engine := MkEngine bits_default {[ "WIP0008"%string := 0 ]}; stakes := stakes_default;
          unspent_outputs_pool := MkUtxoPool (MkDiff (list_to_map ex_coins) ∅) (Some toy_empty) |};
     transactions_pool := pool_default; manager_pkh := Some [3]; epoch_constants := Some ex_epochs; sm_state := Synced; vrf_ctx := true;
     priority_engine := Priority.engine_default; current_epoch := Some 6; best_candidate := None; candidates := ∅; seen_candidates := [] |}.
Definition ex_process (m : ChainManager ex_db) (b : Block) :=
  process_requested_block Development ex_sha256 ex_tx_hash ex_header_hash ex_concat [] ex_verify ex_parse_key ex_parse_sig
    (λ _ _, Some [0]) (λ _ _ _, None) (λ _ _ _ _, None) (λ _, Some [5]) ex_from_slice ex_from_value ex_run_tally ex_encode_error
    (λ _, false) (λ _, false) (λ _ l, l) (λ x _, x) m b false.

(** The block is consolidated, stored and announced. *)
Definition summary {E} (r : exec (ChainManager ex_db) E (list Message)) : option (list (Z * Hash) * list Message) :=
  match r with Ret m messages => Some (map_to_list (block_chain (chain_state m)), messages) | _ => None end.
Example requested_block_consolidated :
  summary (ex_process node ex_transfer_block) = Some ([(5, replicate 32 5); (4, [9])],
    [PersistDataRequests []; PersistBlock ex_transfer_block; BlockNotify ex_transfer_block]).
Proof. by vm_compute. Qed.

Lemma requested_block_extends_chain_witness :
  ∃ m' messages, ex_process node ex_transfer_block = Ret m' messages
  ∧ ∃ ci ci', chain_info (chain_state node) = Some ci ∧ chain_info (chain_state m') = Some ci'
    ∧ hash_prev_block (beacon (block_header ex_transfer_block)) = hash_prev_block (highest_block_checkpoint ci)
    ∧ checkpoint (highest_block_checkpoint ci) ≤ checkpoint (beacon (block_header ex_transfer_block)) ≤ 6
    ∧ highest_block_checkpoint ci' = MkBeacon (checkpoint (beacon (block_header ex_transfer_block))) (hash_of ex_header_hash node ex_transfer_block)
    ∧ highest_superblock_checkpoint ci' = highest_superblock_checkpoint ci ∧ info_constants ci' = info_constants ci
    ∧ block_chain (chain_state m')
      = <[checkpoint (beacon (block_header ex_transfer_block)) := hash_of ex_header_hash node ex_transfer_block]> (block_chain (chain_state node))
    ∧ (tip_ok (chain_state node) → tip_ok (chain_state m')).
Proof.
  destruct (ex_process node ex_transfer_block) as [m' messages|m' e|] eqn:Hk.
  2, 3: pose proof requested_block_consolidated as Hs; rewrite Hk in Hs; discriminate Hs.
  exists m', messages. split; [done|]. unfold ex_process in Hk.
  exact (requested_block_extends_chain Development ex_sha256 ex_tx_hash ex_header_hash ex_concat [] ex_verify ex_parse_key ex_parse_sig
           (λ _ _, Some [0]) (λ _ _ _, None) (λ _ _ _ _, None) (λ _, Some [5]) ex_from_slice ex_from_value ex_run_tally ex_encode_error
           (λ _, false) (λ _, false) (λ _ l, l) (λ x _, x) node ex_transfer_block m' messages [3] eq_refl Hk).
Defined.
