(* ===== verification/Snapshot.v ===== *)
(** * Snapshots of the chain state and superblock epochs

    Models from node/src/actors/chain_manager/mod.rs what the chain manager does when
    a superblock is due: the snapshot of the state of the chain that waits for its
    superblock ([ChainStateSnapshot]), its persistence ([persist_chain_state]), the
    size of the signing committee, and the ranges of blocks. *)

From stdpp Require Import base tactics numbers list gmap sorting.
From Stdlib Require Import ZArith Lia.
From S2P Require Import Prelude Stakes Hashes Superblock Versioning Tapi Storage UtxoDb Utxo Transaction DataRequest Consensus.
From S2P Require Import Consolidation ChainManager.
Local Open Scope Z_scope.

(** ** The snapshot *)

Section snapshot.
(** The state of the chain: the epoch of its last block, and equality. *)
Context {S : Type} `{EqDecision S} (block_checkpoint : S → option Z).

Record ChainStateSnapshot := MkSnapshot {
  previous_chain_state : option (S * Z);
  highest_persisted_superblock : Z;
  snapshot_period : Z;
}.

(** [take]: whether the snapshot is new; [None] is a panic. *)
Definition snapshot_take (n : ChainStateSnapshot) (superblock_index : Z) (state : S) : option (ChainStateSnapshot * bool) :=
  checkpoint ← block_checkpoint state;
  let put := MkSnapshot (Some (state, superblock_index)) (highest_persisted_superblock n) (snapshot_period n) in
  if decide (sat_sub (wmul U32 superblock_index (snapshot_period n)) 1 < checkpoint) then None
  else match previous_chain_state n with
       | Some (prev, prev_super_epoch) =>
           if decide (prev_super_epoch = superblock_index) then
             if decide (prev = state) then Some (n, false)
             else if decide (superblock_index = 0) then Some (put, true)
             else None
           else Some (put, true)
       | None => Some (put, true)
       end.

(** [restore]: the state to persist, if any. *)
Definition snapshot_restore (n : ChainStateSnapshot) (super_epoch : Z) : option (ChainStateSnapshot * option S) :=
  if decide (super_epoch = 0 ∨ highest_persisted_superblock n = super_epoch) then Some (n, None)
  else if decide (super_epoch < highest_persisted_superblock n) then None
  else match previous_chain_state n with
       | Some (state, prev_super_epoch) =>
           if decide (prev_super_epoch = super_epoch) then Some (MkSnapshot None super_epoch (snapshot_period n), Some state)
           else None
       | None => None
       end.

(** [clear]. *)
Definition snapshot_clear (n : ChainStateSnapshot) : ChainStateSnapshot :=
  MkSnapshot None (highest_persisted_superblock n) (snapshot_period n).
End snapshot.
Arguments ChainStateSnapshot S : clear implicits.
Arguments MkSnapshot {S} _ _ _.

(** ** Persistence *)

Section persist.
Context `{UtxoDb D} `{EqDecision (ChainState D)}.

(** [persist_chain_state]: the manager, the snapshot, and the state and batch that go
    to the storage; [None] is a panic. *)
Definition persist_chain_state (m : ChainManager D) (n : ChainStateSnapshot (ChainState D)) (superblock_index : option Z) :
    option (ChainManager D * ChainStateSnapshot (ChainState D) * option (ChainState D * list UtxoWriteBatchItem)) :=
  '(n, previous) ← match superblock_index with
                   | Some i => snapshot_restore n i
                   | None => Some (n, Some (chain_state m))
                   end;
  match previous with
  | None => Some (m, n, None)
  | Some previous =>
      superblock_beacon ← get_superblock_beacon (chain_state m);
      ci ← chain_info previous;
      let ci := MkChainInfo (info_protocol ci) (info_constants ci) (highest_block_checkpoint ci) superblock_beacon
                  (highest_vrf_output ci) in
      let state := MkState (Some ci) (requests_pool previous) (block_chain previous) (own_outputs previous)
                     (reputation_engine previous) (node_stats previous) (alt_keys previous) (superblock_state (chain_state m))
                     (tapi_engine previous) (stakes previous) (unspent_outputs_pool previous) in
      if match superblock_index with Some i => bool_decide (checkpoint superblock_beacon ≠ i) | None => false end then None
      else
        let s := chain_state m in
        utxos ← remove_persisted_from_memory (unspent_outputs_pool s) (diff (unspent_outputs_pool state));
        batch ← persist_add_to_batch (unspent_outputs_pool state) [];
        let state := MkState (chain_info state) (requests_pool state) (block_chain state) (own_outputs state)
                       (reputation_engine state) (node_stats state) (alt_keys state) (superblock_state state)
                       (tapi_engine state) (stakes state) batch.1 in
        Some (with_chain_state m (MkState (chain_info s) (requests_pool s) (block_chain s) (own_outputs s) (reputation_engine s)
                                    (node_stats s) (alt_keys s) (superblock_state s) (tapi_engine s) (stakes s) utxos),
              n, Some (state, batch.2))
  end.

(** [move_chain_state_forward]. *)
Definition move_chain_state_forward (m : ChainManager D) (n : ChainStateSnapshot (ChainState D)) (superblock_index : Z) :
    option (ChainStateSnapshot (ChainState D)) :=
  fst <$> snapshot_take (λ s, checkpoint <$> get_chain_beacon s) n superblock_index (chain_state m).
End persist.

(** ** Superblocks *)

(** [None] is a division by zero. *)
Definition last_superblock_signed_by_bootstrap (cc : ConsensusConstants) : option Z :=
  if decide (superblock_period cc = 0) then None
  else Some (wadd U32 (cc_collateral_age cc) (activity_period cc) / superblock_period cc).

(** [None] is the failed assertion or a division by zero. *)
Definition current_committee_size_requirement (default_committee_size last_committee_size decreasing_period decreasing_step
    last_consolidated_checkpoint current_checkpoint last_checkpoint_signed_by_bootstrap min_committee_size : Z) : option Z :=
  if decide (current_checkpoint < last_consolidated_checkpoint) then None
  else if decide (last_consolidated_checkpoint ≤ last_checkpoint_signed_by_bootstrap) then Some default_committee_size
  else if decide (decreasing_period ≤ current_checkpoint - last_consolidated_checkpoint) then
    if decide (decreasing_period = 0) then None
    else Some (Z.max (sat_sub last_committee_size
                        (wmul U32 (sat_sub current_checkpoint last_consolidated_checkpoint / decreasing_period) decreasing_step))
                 (Z.max min_committee_size 1))
  else Some (Z.min (sat_add U32 last_committee_size decreasing_step) default_committee_size).

(** The next epoch whose superblock is needed. *)
Definition superblock_consolidation_is_needed (target_checkpoint : Z) (s : SuperBlockState) (period : Z) : option Z :=
  if decide (target_checkpoint ≤ checkpoint (get_beacon s)) then None else Some (wmul U32 target_checkpoint period).
Definition superblock_candidate_is_needed (candidate_superblock_epoch : Z) (s : SuperBlockState) (period : Z) : option Z :=
  if decide (candidate_superblock_epoch ≤ checkpoint (get_beacon s)) then None else Some (wmul U32 candidate_superblock_epoch period).

(** ** Ranges of blocks *)

Inductive Bound := Included (x : Z) | Excluded (x : Z) | Unbounded.
Record GetBlocksEpochRange := MkRange { range_from : Bound; range_to : Bound; limit : nat; limit_from_end : bool }.

Definition above (b : Bound) (e : Z) : bool := match b with Included x => bool_decide (x ≤ e) | Excluded x => bool_decide (x < e) | Unbounded => true end.
Definition below (b : Bound) (e : Z) : bool := match b with Included x => bool_decide (e ≤ x) | Excluded x => bool_decide (e < x) | Unbounded => true end.
(** [BTreeMap::range] panics on an inverted range, and on an empty one with both
    bounds excluded. *)
Definition inverted (r : GetBlocksEpochRange) : bool :=
  match range_from r with
  | Unbounded => false
  | Included x => match range_to r with Unbounded => false | Included y => bool_decide (y < x) | Excluded y => bool_decide (y < x) end
  | Excluded x => match range_to r with Unbounded => false | Included y => bool_decide (y < x) | Excluded y => bool_decide (y ≤ x) end
  end.

Definition get_blocks_epoch_range (chain : gmap Z Hash) (r : GetBlocksEpochRange) : option (list (Z * Hash)) :=
  if inverted r then None
  else
    let blocks := filter (λ eh, above (range_from r) eh.1 && below (range_to r) eh.1 = true) (btree_entries chain) in
    Some (if decide (limit r = 0%nat) then blocks
          else if limit_from_end r then reverse (take (limit r) (reverse blocks))
          else take (limit r) blocks).
