(* ===== verification/SnapshotCorrect.v ===== *)
(** * Snapshots, committees and ranges: correctness

    What the snapshots of the chain state guarantee over any sequence of calls, the
    bounds of the signing committee, and the ranges of blocks. *)

From stdpp Require Import base tactics numbers list gmap sorting.
From Stdlib Require Import ZArith Lia.
From S2P Require Import Prelude Stakes Hashes Superblock Versioning Tapi Storage UtxoDb Utxo Transaction DataRequest Consensus.
From S2P Require Import Consolidation ChainManager Snapshot.
Local Open Scope Z_scope.

(** ** Snapshots *)

Section snapshots.
Context {S : Type} `{EqDecision S} (block_checkpoint : S → option Z).
Implicit Types (n : ChainStateSnapshot S) (out : list (Z * S)).

Inductive Call := Take (i : Z) (s : S) | Restore (i : Z) | Clear.

(** A sequence of calls, with the states that it persists and their superblocks. *)
Definition call n (c : Call) : option (ChainStateSnapshot S * list (Z * S)) :=
  match c with
  | Take i s => r ← snapshot_take block_checkpoint n i s; Some (r.1, [])
  | Restore i => r ← snapshot_restore n i; Some (r.1, match r.2 with Some s => [(i, s)] | None => [] end)
  | Clear => Some (snapshot_clear n, [])
  end.
Fixpoint calls n (cs : list Call) : option (ChainStateSnapshot S * list (Z * S)) :=
  match cs with
  | [] => Some (n, [])
  | c :: cs => '(n, out) ← call n c; '(n, out') ← calls n cs; Some (n, out ++ out')
  end.

(** A state fits a superblock when its last block is not after the superblock. *)
Definition fits_superblock n (i : Z) (s : S) : Prop :=
  ∃ c, block_checkpoint s = Some c ∧ c ≤ sat_sub (wmul U32 i (snapshot_period n)) 1.
(** The pending snapshot fits its superblock. *)
Definition pending_ok n : Prop := ∀ s i, previous_chain_state n = Some (s, i) → fits_superblock n i s.

Lemma take_spec n i s n' b :
  snapshot_take block_checkpoint n i s = Some (n', b) →
  previous_chain_state n' = Some (s, i) ∧ fits_superblock n i s
  ∧ highest_persisted_superblock n' = highest_persisted_superblock n ∧ snapshot_period n' = snapshot_period n.
Proof.
  unfold snapshot_take, fits_superblock. destruct (block_checkpoint s) as [c|]; [|done]. cbn [mbind option_bind].
  case_decide as Hc; [done|]. destruct (previous_chain_state n) as [[s0 i0]|] eqn:E; [|by intros [= <- <-]; split_and!; eauto with lia].
  case_decide; [|by intros [= <- <-]; split_and!; eauto with lia]. subst i0. case_decide; [intros [= <- <-]; subst s0; split_and!; eauto with lia|].
  case_decide; [|done]. intros [= <- <-]. split_and!; eauto with lia.
Qed.
Lemma restore_spec n i n' r :
  snapshot_restore n i = Some (n', r) →
  snapshot_period n' = snapshot_period n
  ∧ match r with
    | Some s => previous_chain_state n = Some (s, i) ∧ highest_persisted_superblock n < i ∧ i ≠ 0
                ∧ highest_persisted_superblock n' = i ∧ previous_chain_state n' = None
    | None => n' = n
    end.
Proof.
  unfold snapshot_restore. case_decide as H1; [by intros [= <- <-]|]. case_decide as H2; [done|].
  destruct (previous_chain_state n) as [[s i0]|] eqn:E; [|done]. case_decide; [|done]. subst i0. intros [= <- <-]. split; [done|].
  split_and!; [done| |naive_solver|done..]. assert (highest_persisted_superblock n ≠ i) by naive_solver. lia.
Qed.

Lemma call_spec n c n' out :
  call n c = Some (n', out) → pending_ok n →
  pending_ok n' ∧ snapshot_period n' = snapshot_period n ∧ highest_persisted_superblock n ≤ highest_persisted_superblock n'
  ∧ match out with
    | [] => highest_persisted_superblock n' = highest_persisted_superblock n
    | [(i, s)] => c = Restore i ∧ previous_chain_state n = Some (s, i) ∧ highest_persisted_superblock n < i
                  ∧ highest_persisted_superblock n' = i ∧ fits_superblock n i s
    | _ => False
    end
  ∧ ∀ s i, previous_chain_state n' = Some (s, i) → c = Take i s ∨ previous_chain_state n = Some (s, i).
Proof.
  destruct c as [i s|i|]; cbn [call].
  - destruct (snapshot_take _ _ _ _) as [[n1 b]|] eqn:E; [|done]. intros [= <- <-] Hp.
    destruct (take_spec _ _ _ _ _ E) as (Hprev & Hfit & Hh & Hper). cbn [fst]. rewrite Hprev, Hh. split_and!; [|done|done|done|].
    + intros s' i'. rewrite Hprev. intros [= <- <-]. unfold fits_superblock in *. by rewrite Hper.
    + intros s' i' [= <- <-]. by left.
  - destruct (snapshot_restore _ _) as [[n1 r]|] eqn:E; [|done]. intros [= <- <-] Hp. destruct (restore_spec _ _ _ _ E) as [Hper Hr]. cbn [fst snd].
    destruct r as [s|]; cbv iota in *; [|subst n1; split_and!; [done|done|lia|done|by right]]. destruct Hr as (Hprev & Hlt & _ & Hh & Hnone).
    rewrite Hnone. split_and!; try done; [|lia|by apply Hp]. intros s' i'. by rewrite Hnone.
  - intros [= <- <-] _. by split_and!.
Qed.

(** C28. Persistence of superblocks.  Over any sequence of calls that does not panic, the
    persisted superblocks are strictly increasing and above those persisted before,
    none is persisted twice; each is persisted with a state that was taken for it, or
    was pending from the start, and that has no block after the superblock. *)
Theorem superblocks_persisted_in_order cs : ∀ n n' out,
  pending_ok n → calls n cs = Some (n', out) →
  StronglySorted Z.lt (highest_persisted_superblock n :: out.*1)
  ∧ highest_persisted_superblock n' = default (highest_persisted_superblock n) (last out.*1)
  ∧ Forall (λ x, fits_superblock n x.1 x.2 ∧ Restore x.1 ∈ cs
                  ∧ (Take x.1 x.2 ∈ cs ∨ previous_chain_state n = Some (x.2, x.1))) out.
Proof.
  induction cs as [|c cs IH]; intros n n' out Hp Hk.
  { injection Hk as <- <-. split_and!; [by repeat constructor|done|done]. }
  cbn [calls] in Hk. destruct (call n c) as [[n1 o1]|] eqn:E1; [|done]. cbn [mbind option_bind] in Hk.
  destruct (calls n1 cs) as [[n2 o2]|] eqn:E2; [|done]. injection Hk as <- <-.
  destruct (call_spec _ _ _ _ E1 Hp) as (Hp1 & Hper & _ & Ho & Hprev). destruct (IH _ _ _ Hp1 E2) as (Hs & Hh & Hall).
  assert (∀ i s, Take i s ∈ cs ∨ previous_chain_state n1 = Some (s, i) → Take i s ∈ c :: cs ∨ previous_chain_state n = Some (s, i)) as Hfrom.
  { intros i s [?|[->|?]%Hprev]; [left; by right|left; by left|by right]. }
  assert (∀ i s, fits_superblock n1 i s → fits_superblock n i s) as Hfits by (intros i s; unfold fits_superblock; by rewrite Hper).
  assert (Forall (λ x, fits_superblock n x.1 x.2 ∧ Restore x.1 ∈ c :: cs
                  ∧ (Take x.1 x.2 ∈ c :: cs ∨ previous_chain_state n = Some (x.2, x.1))) o2) as Hrest.
  { eapply Forall_impl; [exact Hall|]. intros [i s] (? & ? & ?). split_and!; [by apply Hfits|by right|by apply Hfrom]. }
  destruct o1 as [|[i s] [|]]; [by rewrite Ho in Hs, Hh| |done]. destruct Ho as (-> & Hpr & Hlt & Hi & Hfit). rewrite Hi in *.
  rewrite fmap_app. cbn [fmap list_fmap fst app]. split_and!.
  - constructor; [exact Hs|]. constructor; [done|]. apply StronglySorted_inv in Hs as [_ Hs]. eapply Forall_impl; [exact Hs|]. intros; cbn in *; lia.
  - rewrite Hh. destruct o2 as [|y o2]; [done|]. cbn [fmap list_fmap]. rewrite last_cons_cons.
    destruct (last (y.1 :: _)) eqn:El; [done|]. by apply last_None in El.
  - constructor; [|done]. split_and!; [done|by left|by right].
Qed.
End snapshots.

(** ** The signing committee *)

(** The size of the committee is defined, at least one and at most the default. *)
Theorem committee_size_bounded default_size last_size period step last_consolidated current bootstrap minimum :
  0 < period → 0 ≤ step → last_consolidated ≤ current → 1 ≤ last_size ≤ default_size → minimum ≤ default_size → default_size < U32 →
  ∃ r, current_committee_size_requirement default_size last_size period step last_consolidated current bootstrap minimum = Some r
    ∧ 1 ≤ r ≤ default_size.
Proof.
  intros Hp Hs Hc Hl Hm Hd. unfold current_committee_size_requirement. rewrite decide_False by lia.
  case_decide; [eexists; split; [done|lia]|]. case_decide; [rewrite decide_False by lia|]; (eexists; split; [done|]).
  - unfold sat_sub. match goal with |- context [wmul U32 ?a step] => assert (0 ≤ wmul U32 a step) by (unfold wmul; apply Z.mod_pos_bound; by unfold_moduli) end. lia.
  - unfold sat_add. lia.
Qed.
Lemma committee_size_bounded_witness :
  ∃ r, current_committee_size_requirement 100 20 5 5 1000 1012 750 10 = Some r ∧ 1 ≤ r ≤ 100.
Proof. apply (committee_size_bounded 100 20 5 5 1000 1012 750 10); unfold_moduli; lia. Defined.

(** ** Ranges of blocks *)

Section ranges.
Implicit Types (chain : gmap Z Hash) (r : GetBlocksEpochRange).
Definition in_range r (e : Z) : Prop := above (range_from r) e && below (range_to r) e = true.

Abbreviation earlier := (λ a b : Z * Hash, a.1 < b.1).
(** The blocks of a chain are in strictly increasing order of epochs. *)
Lemma entries_increasing chain : StronglySorted earlier (btree_entries chain).
Proof.
  pose proof (btree_entries_sorted chain) as Hs. pose proof (NoDup_btree_entries chain) as Hnd.
  induction Hs as [|x l Hs IH Hx]; [constructor|]. rewrite fmap_cons in Hnd. apply NoDup_cons in Hnd as [Hn Hnd].
  constructor; [by apply IH|]. rewrite Forall_forall in Hx |- *. intros y Hy. specialize (Hx y Hy). unfold key_le in Hx. cbn in Hx.
  assert (x.1 ≠ y.1) by (intros Heq; apply Hn; rewrite Heq; by apply list_elem_of_fmap_2). lia.
Qed.
Lemma sorted_filter {A} (R : relation A) (P : A → Prop) `{!∀ x, Decision (P x)} l : StronglySorted R l → StronglySorted R (filter P l).
Proof.
  induction 1 as [|x l Hs IH Hx]; [constructor|]. rewrite filter_cons. case_decide; [|done]. constructor; [done|].
  rewrite Forall_forall in Hx |- *. intros y [_ Hy]%list_elem_of_filter. by apply Hx.
Qed.
Lemma reverse_take_reverse {A} n (l : list A) : reverse (take n (reverse l)) = drop (length l - n) l.
Proof. rewrite take_reverse, reverse_involutive. done. Qed.

Lemma sorted_parts {A} (R : relation A) l1 l2 :
  StronglySorted R (l1 ++ l2) → StronglySorted R l1 ∧ StronglySorted R l2 ∧ ∀ a b, a ∈ l1 → b ∈ l2 → R a b.
Proof.
  induction l1 as [|x l1 IH]; cbn [app]; intros Hs.
  - split_and!; [constructor|done|]. intros a b Ha. by apply elem_of_nil in Ha.
  - apply StronglySorted_inv in Hs as [Hs Hx]. destruct (IH Hs) as (H1 & H2 & H3). rewrite Forall_forall in Hx. split_and!; [|done|].
    + constructor; [done|]. apply Forall_forall. intros y Hy. apply Hx. set_solver.
    + intros a b [->|Ha]%elem_of_cons Hb; [apply Hx; set_solver|by apply H3].
Qed.

(** Ranges of blocks.  The answer is in strictly increasing order of epochs and holds
    blocks of the range only; without a limit it holds all of them, and with a limit
    as many as the limit allows: the first ones, or the last ones. *)
Theorem blocks_range_exact chain r l :
  get_blocks_epoch_range chain r = Some l →
  StronglySorted earlier l
  ∧ (∀ e h, (e, h) ∈ l → chain !! e = Some h ∧ in_range r e)
  ∧ (∀ e h, chain !! e = Some h → in_range r e → (e, h) ∉ l →
       limit r ≠ 0%nat ∧ length l = limit r ∧ ∀ x, x ∈ l → if limit_from_end r then e < x.1 else x.1 < e).
Proof.
  unfold get_blocks_epoch_range. destruct (inverted r); [done|]. set (P := λ eh : Z * Hash, above (range_from r) eh.1 && below (range_to r) eh.1 = true).
  pose proof (sorted_filter earlier P _ (entries_increasing chain)) as Hs.
  assert (∀ e h, (e, h) ∈ filter P (btree_entries chain) ↔ chain !! e = Some h ∧ in_range r e) as Hin.
  { intros e h. rewrite list_elem_of_filter, elem_of_btree_entries. unfold P, in_range. naive_solver. }
  set (blocks := filter P (btree_entries chain)) in *. intros [= <-]. case_decide as Hlim.
  { split_and!; [done|by intros e h ?%Hin|]. intros e h He Hr Hn. destruct Hn. by apply Hin. }
  assert (∀ l1 l2, blocks = l1 ++ l2 → StronglySorted earlier l1 ∧ StronglySorted earlier l2 ∧ ∀ a b, a ∈ l1 → b ∈ l2 → a.1 < b.1) as Hparts.
  { intros l1 l2 Heq. rewrite Heq in Hs. by apply sorted_parts. }
  destruct (limit_from_end r).
  - rewrite reverse_take_reverse. pose proof (take_drop (length blocks - limit r) blocks) as Heq. symmetry in Heq.
    destruct (Hparts _ _ Heq) as (H1 & H2 & H3). split_and!; [done| |].
    + intros e h He. apply Hin. rewrite Heq. set_solver.
    + intros e h He Hr Hn. assert ((e, h) ∈ take (length blocks - limit r) blocks) as Ht.
      { assert ((e, h) ∈ blocks) as Hb by (by apply Hin). rewrite Heq in Hb. apply elem_of_app in Hb as [?|?]; [done|done]. }
      split_and!; [done| |intros x Hx; by apply (H3 (e, h) x)].
      rewrite length_drop. destruct (decide (limit r ≤ length blocks)%nat); [lia|].
      replace (length blocks - limit r)%nat with 0%nat in Ht by lia. cbn in Ht. by apply elem_of_nil in Ht.
  - pose proof (take_drop (limit r) blocks) as Heq. symmetry in Heq.
    destruct (Hparts _ _ Heq) as (H1 & H2 & H3). split_and!; [done| |].
    + intros e h He. apply Hin. rewrite Heq. set_solver.
    + intros e h He Hr Hn. assert ((e, h) ∈ drop (limit r) blocks) as Ht.
      { assert ((e, h) ∈ blocks) as Hb by (by apply Hin). rewrite Heq in Hb. apply elem_of_app in Hb as [?|?]; [done|done]. }
      split_and!; [done| |intros x Hx; by apply (H3 x (e, h))].
      rewrite length_take. destruct (decide (limit r ≤ length blocks)%nat); [lia|].
      rewrite drop_ge in Ht by lia. by apply elem_of_nil in Ht.
Qed.
End ranges.

(** ** Witnesses *)

(** States are the epochs of their last blocks; superblocks have ten epochs. *)
Definition demo_snapshot : ChainStateSnapshot Z := MkSnapshot None 0 10.
Definition demo_calls : list (Call (S:=Z)) := [Take 1 9; Restore 1; Take 2 17; Restore 1; Take 3 25; Restore 3; Take 4 31; Clear].
Example demo_calls_run : calls Some demo_snapshot demo_calls = Some (MkSnapshot None 3 10, [(1, 9); (3, 25)]).
Proof. by vm_compute. Qed.
Lemma superblocks_persisted_in_order_witness :
  StronglySorted Z.lt [0; 1; 3]
  ∧ 3 = default 0 (last [1; 3])
  ∧ Forall (λ x, fits_superblock Some demo_snapshot x.1 x.2 ∧ Restore x.1 ∈ demo_calls
                  ∧ (Take x.1 x.2 ∈ demo_calls ∨ None = Some (x.2, x.1))) [(1, 9); (3, 25)].
Proof.
  refine (superblocks_persisted_in_order Some demo_calls demo_snapshot (MkSnapshot None 3 10) [(1, 9); (3, 25)] _ demo_calls_run).
  by intros s i [=].
Defined.

Definition demo_chain : gmap Z Hash := {[ 1 := [1]; 4 := [4]; 6 := [6]; 9 := [9] ]}.
Lemma blocks_range_exact_witness :
  StronglySorted (λ a b : Z * Hash, a.1 < b.1) [(4, [4]); (6, [6])]
  ∧ (∀ e h, (e, h) ∈ [(4, [4]); (6, [6])] → demo_chain !! e = Some h ∧ in_range (MkRange Unbounded (Excluded 9) 2 true) e)
  ∧ (∀ e h, demo_chain !! e = Some h → in_range (MkRange Unbounded (Excluded 9) 2 true) e → (e, h) ∉ [(4, [4]); (6, [6])] →
       2%nat ≠ 0%nat ∧ 2%nat = 2%nat ∧ ∀ x, x ∈ [(4, [4]); (6, [6])] → e < x.1).
Proof.
  refine (blocks_range_exact demo_chain (MkRange Unbounded (Excluded 9) 2 true) [(4, [4]); (6, [6])] _). by vm_compute.
Defined.
