(* ===== verification/Peers.v ===== *)
(** * Known peers

    Models p2p/src/peers/mod.rs: the addresses that the node knows, in the buckets
    for new, tried and iced addresses.

    A [HashMap] is a [gmap]; the order of its iteration is the order of
    [map_to_list], which no theorem relies on.  A clock reading ([get_timestamp]) is an
    argument; a function that reads the clock several times takes [now], where
    [now k] is the k-th reading.  The random choices of the crate rand
    ([choose_multiple], [choose] and [gen_range]) are arguments.  [as_secs] of a
    [Duration] is its number of seconds, a [u64]. *)

From stdpp Require Import base tactics numbers list gmap.
From Stdlib Require Import ZArith Lia.
From S2P Require Import Prelude Hashes Epoch.
Local Open Scope Z_scope.
Local Open Scope rust_scope.

(** ** Socket addresses of the standard library *)

(** [SocketAddr]: the octets of the IP address and the port. *)
Inductive SocketAddr :=
  | V4 (octets : list Z) (port : Z)
  | V6 (octets : list Z) (port flowinfo scope_id : Z).

#[export] Instance SocketAddr_eq_dec : EqDecision SocketAddr.
Proof. solve_decision. Defined.

#[export] Instance SocketAddr_countable : Countable SocketAddr.
Proof.
  refine (inj_countable'
    (λ a, match a with V4 o p => inl (o, p) | V6 o p f s => inr (o, p, f, s) end)
    (λ x, match x with inl (o, p) => V4 o p | inr (o, p, f, s) => V6 o p f s end) _).
  by intros [].
Defined.

(** [ip().octets()] and [ip().is_unspecified()]. *)
Definition octets (a : SocketAddr) : list Z := match a with V4 o _ | V6 o _ _ _ => o end.
Definition is_unspecified (a : SocketAddr) : bool :=
  match a with
  | V4 o _ => bool_decide (o = replicate 4 0)
  | V6 o _ _ _ => bool_decide (o = replicate 16 0)
  end.

(** The values that the Rust types admit. *)
Definition addr_wf (a : SocketAddr) : Prop :=
  match a with
  | V4 o p => length o = 4%nat ∧ Forall (fits 256) o ∧ fits U16 p
  | V6 o p f s => length o = 16%nat ∧ Forall (fits 256) o ∧ fits U16 p ∧ fits U32 f ∧ fits U32 s
  end.

(** [i64::saturating_sub] and [i64::saturating_add]. *)
Definition clamp_i64 (x : Z) : Z := Z.max (- 2 ^ 63) (Z.min I64_MAX x).
Definition sat_sub_i64 (a b : Z) : Z := clamp_i64 (a - b).
Definition sat_add_i64 (a b : Z) : Z := clamp_i64 (a + b).

(** ** Indexes of the buckets *)

(** [split_socket_addresses]: the address, its group and its host id. *)
Definition split_socket_addresses (a : SocketAddr) : list Z * list Z * list Z :=
  match a with
  | V4 o port | V6 o port _ _ =>
    let ip := o in
    let half := (length ip / 2)%nat in
    let left := take half ip in
    let right := drop half ip in
    let data := right ++ to_be_bytes 2 port in
    (ip, left, data)
  end.

(** [get_range_address]: the first [range] bits of an IPv4 address. *)
Definition get_range_address (a : SocketAddr) (range : Z) : list Z :=
  match a with
  | V4 ip _ =>
    if decide (range = 0) then [0; 0; 0; 0]
    else
      let range := sat_sub 32 range in
      let ip_bytes := from_big_endian ip in
      let ip_bytes := Z.shiftr ip_bytes range in
      let ip_bytes := Z.shiftl ip_bytes range mod U32 in
      to_be_bytes 4 ip_bytes
  | V6 _ _ _ _ => [0; 0; 0; 0]
  end.

Section Index.
(** [calculate_sha256]: the bytes of a digest. *)
Context (calculate_sha256 : list Z → list Z).

(** [data_hash.0[31]]. *)
Definition last_byte (data : list Z) : Z := nth 31 (calculate_sha256 data) 0.

Definition calculate_index_for_tried (sk : Z) (ip group host_id : list Z) : Z :=
  let sk := to_be_bytes 8 sk in
  let i := last_byte (sk ++ ip) mod 4 in
  let bucket := last_byte (sk ++ group ++ [i]) mod 64 in
  let slot := last_byte (sk ++ host_id ++ [i]) mod 64 in
  wadd U16 (wmul U16 bucket 64) slot.

Definition calculate_index_for_new (sk : Z) (src_group group host_id : list Z) : Z :=
  let sk := to_be_bytes 8 sk in
  let i := last_byte (sk ++ src_group ++ group) mod 32 in
  let bucket := last_byte (sk ++ src_group ++ [i]) mod 256 in
  let slot := last_byte (sk ++ host_id ++ [i]) mod 64 in
  wadd U16 (wmul U16 bucket 64) slot.
End Index.

(** ** State *)

Record PeerInfo := MkPeerInfo { address : SocketAddr; timestamp : Z }.

Record Peers := MkPeers {
  bootstrapped : bool;
  ice_bucket : gmap SocketAddr Z;
  ice_period : Z;
  new_bucket : gmap Z PeerInfo;
  server_address : SocketAddr;
  sk : Z;
  tried_bucket : gmap Z PeerInfo;
}.

(** [safe_ice_period_default], in seconds. *)
Definition safe_ice_period_default : Z := 60.

(** [Default for Peers]; [nonce] is the random value drawn for [sk]. *)
Definition Peers_default (nonce : Z) : Peers :=
  MkPeers false ∅ safe_ice_period_default ∅ (V4 [0; 0; 0; 0] 0) nonce ∅.

(** [from_config]: the ice period and the server address come from the configuration. *)
Definition from_config (bucketing_ice_period : Z) (server_addr : SocketAddr) (nonce : Z) : Peers :=
  MkPeers false ∅ bucketing_ice_period ∅ server_addr nonce ∅.

(** Updates of one field. *)
Definition set_ice_bucket (b : gmap SocketAddr Z) (p : Peers) : Peers :=
  MkPeers (bootstrapped p) b (ice_period p) (new_bucket p) (server_address p) (sk p) (tried_bucket p).
Definition set_new_bucket (b : gmap Z PeerInfo) (p : Peers) : Peers :=
  MkPeers (bootstrapped p) (ice_bucket p) (ice_period p) b (server_address p) (sk p) (tried_bucket p).
Definition set_tried_bucket (b : gmap Z PeerInfo) (p : Peers) : Peers :=
  MkPeers (bootstrapped p) (ice_bucket p) (ice_period p) (new_bucket p) (server_address p) (sk p) b.
Definition set_bootstrapped (b : bool) (p : Peers) : Peers :=
  MkPeers b (ice_bucket p) (ice_period p) (new_bucket p) (server_address p) (sk p) (tried_bucket p).

(** ** The ice bucket *)

(** [current_ice_period]; [None] is the panic of a period of [2^63] seconds or more. *)
Definition current_ice_period (p : Peers) : option Z :=
  if bootstrapped p then
    if decide (ice_period p ≤ I64_MAX) then Some (ice_period p) else None
  else Some 1800.

(** Whether an address iced at [entry] has melted. *)
Definition melted (current_timestamp period entry : Z) : Prop :=
  entry < sat_sub_i64 current_timestamp period.
#[export] Instance melted_dec c d e : Decision (melted c d e) := Z_lt_dec _ _.

Definition ice_bucket_contains_pure (addr : SocketAddr) (current_timestamp : Z) (p : Peers) : option (bool * Peers) :=
  period ← current_ice_period p;
  let '(contains, needs_removal) :=
    match ice_bucket p !! addr with
    | Some entry_timestamp =>
      let needs_removal := bool_decide (melted current_timestamp period entry_timestamp) in
      (negb needs_removal, needs_removal)
    | None => (false, false)
    end in
  let p := if needs_removal : bool then set_ice_bucket (delete addr (ice_bucket p)) p else p in
  Some (contains, p).

(** [ice_bucket_contains]: with the reading of the clock. *)
Definition ice_bucket_contains (addr : SocketAddr) (get_timestamp : Z) (p : Peers) : option (bool * Peers) :=
  ice_bucket_contains_pure addr get_timestamp p.

Definition extract_melted_peers_from_ice_bucket (current_ts : Z) (p : Peers) : option (list SocketAddr * Peers) :=
  period ← current_ice_period p;
  let addresses := (filter (λ kv, melted current_ts period kv.2) (map_to_list (ice_bucket p))).*1 in
  Some (addresses, set_ice_bucket (filter (λ kv, ¬ melted current_ts period kv.2) (ice_bucket p)) p).

Definition ice_peer_address_pure (addr : SocketAddr) (ts : Z) (p : Peers) : bool * Peers :=
  (true, set_ice_bucket (<[addr := ts]> (ice_bucket p)) p).
Definition ice_peer_address (addr : SocketAddr) (get_timestamp : Z) (p : Peers) : bool * Peers :=
  ice_peer_address_pure addr get_timestamp p.

Definition remove_from_ice (addr : SocketAddr) (p : Peers) : Peers :=
  set_ice_bucket (delete addr (ice_bucket p)) p.
Definition remove_many_from_ice (addrs : list SocketAddr) (p : Peers) : Peers :=
  foldl (λ p a, remove_from_ice a p) p addrs.

(** ** Queries of the buckets *)

Definition new_bucket_contains (index : Z) (p : Peers) : bool := bool_decide (is_Some (new_bucket p !! index)).
Definition tried_bucket_contains (index : Z) (p : Peers) : bool := bool_decide (is_Some (tried_bucket p !! index)).
Definition new_bucket_get_timestamp (index : Z) (p : Peers) : option Z := timestamp <$> new_bucket p !! index.
Definition tried_bucket_get_timestamp (index : Z) (p : Peers) : option Z := timestamp <$> tried_bucket p !! index.
Definition new_bucket_get_address (index : Z) (p : Peers) : option SocketAddr := address <$> new_bucket p !! index.
Definition tried_bucket_get_address (index : Z) (p : Peers) : option SocketAddr := address <$> tried_bucket p !! index.
Definition is_server_address (addr : SocketAddr) (p : Peers) : bool := bool_decide (addr = server_address p).

(** The addresses in a bucket: [values().map(|p| p.address)]. *)
Definition bucket_addresses (b : gmap Z PeerInfo) : list SocketAddr := (λ kv, address kv.2) <$> map_to_list b.
Definition get_all_from_tried (p : Peers) : list SocketAddr := bucket_addresses (tried_bucket p).
Definition get_all_from_new (p : Peers) : list SocketAddr := bucket_addresses (new_bucket p).

(** ** Updates of the buckets *)

Section Buckets.
Context (calculate_sha256 : list Z → list Z).

Definition new_bucket_index (addr src_addr : SocketAddr) (p : Peers) : Z :=
  let '(_, group, host_id) := split_socket_addresses addr in
  let '(_, src_group, _) := split_socket_addresses src_addr in
  calculate_index_for_new calculate_sha256 (sk p) src_group group host_id.

Definition tried_bucket_index (addr : SocketAddr) (p : Peers) : Z :=
  let '(ip, group, host_id) := split_socket_addresses addr in
  calculate_index_for_tried calculate_sha256 (sk p) ip group host_id.

(** The closure of [add_to_new] for one address; the clock is read for the ice bucket and
    for the new entry. *)
Definition add_one_to_new (src_address : option SocketAddr) (addr : SocketAddr) (now_ice now_entry : Z) (p : Peers)
    : option (option SocketAddr * Peers) :=
  if is_unspecified addr || is_server_address addr p then Some (None, p)
  else
    '(iced, p) ← ice_bucket_contains addr now_ice p;
    if iced : bool then Some (None, p)
    else
      let elem := tried_bucket p !! tried_bucket_index addr p in
      if decide (address <$> elem = Some addr) then Some (None, p)
      else
        let index := new_bucket_index addr (default addr src_address) p in
        Some (address <$> new_bucket p !! index,
              set_new_bucket (<[index := MkPeerInfo addr now_entry]> (new_bucket p)) p).

(** [add_to_new]; for the k-th address the clock reads [now (2 k)] and [now (2 k + 1)]. *)
Fixpoint add_to_new_from (k : nat) (now : nat → Z) (addrs : list SocketAddr) (src_address : option SocketAddr) (p : Peers)
    : option (list SocketAddr * Peers) :=
  match addrs with
  | [] => Some ([], p)
  | a :: rest =>
    '(old, p) ← add_one_to_new src_address a (now (2 * k)%nat) (now (2 * k + 1)%nat) p;
    '(olds, p) ← add_to_new_from (S k) now rest src_address p;
    Some (option_list old ++ olds, p)
  end.
Definition add_to_new : (nat → Z) → list SocketAddr → option SocketAddr → Peers → option (list SocketAddr * Peers) :=
  add_to_new_from 0.

Definition add_to_tried (addr : SocketAddr) (now : nat → Z) (p : Peers) : option (option SocketAddr * Peers) :=
  if is_unspecified addr then Some (None, p)
  else
    '(iced, p) ← ice_bucket_contains addr (now 0%nat) p;
    if iced : bool then Some (None, p)
    else
      let index := tried_bucket_index addr p in
      Some (address <$> tried_bucket p !! index,
            set_tried_bucket (<[index := MkPeerInfo addr (now 1%nat)]> (tried_bucket p)) p).

(** The closure of [remove_from_tried] for one address. *)
Definition remove_one_from_tried (addr : SocketAddr) (ice : bool) (now : Z) (p : Peers) : option SocketAddr * Peers :=
  let p := if ice then (ice_peer_address addr now p).2 else p in
  let bucket_index := tried_bucket_index addr p in
  let bucket_entry := tried_bucket p !! bucket_index in
  if decide (address <$> bucket_entry = Some addr)
  then (address <$> bucket_entry, set_tried_bucket (delete bucket_index (tried_bucket p)) p)
  else (None, p).

Fixpoint remove_from_tried_from (k : nat) (now : nat → Z) (addrs : list SocketAddr) (ice : bool) (p : Peers)
    : list SocketAddr * Peers :=
  match addrs with
  | [] => ([], p)
  | a :: rest =>
    let '(old, p) := remove_one_from_tried a ice (now k) p in
    let '(olds, p) := remove_from_tried_from (S k) now rest ice p in
    (option_list old ++ olds, p)
  end.
Definition remove_from_tried : (nat → Z) → list SocketAddr → bool → Peers → list SocketAddr * Peers :=
  remove_from_tried_from 0.
End Buckets.

Fixpoint remove_from_new_with_index (indexes : list Z) (p : Peers) : list SocketAddr * Peers :=
  match indexes with
  | [] => ([], p)
  | i :: rest =>
    let old := address <$> new_bucket p !! i in
    let '(olds, p) := remove_from_new_with_index rest (set_new_bucket (delete i (new_bucket p)) p) in
    (option_list old ++ olds, p)
  end.

Definition clear_tried_bucket (p : Peers) : Peers := set_tried_bucket ∅ p.
Definition clear_new_bucket (p : Peers) : Peers := set_new_bucket ∅ p.
Definition clear_ice_bucket (p : Peers) : Peers := set_ice_bucket ∅ p.

(** ** Random peers *)

Section Random.
(** [choose_multiple] of an iterator, [gen_range(0, 2)] for the k-th draw and [choose]. *)
Context (choose_multiple : list SocketAddr → nat → list SocketAddr) (coin : nat → nat)
        (choose : list (Z * PeerInfo) → option (Z * PeerInfo)).

(** [clamp]: it panics when the bounds are crossed. *)
Definition clamp (x lo hi : nat) : option nat :=
  if decide (lo ≤ hi)%nat then Some (Nat.max lo (Nat.min hi x)) else None.
(** Subtraction of [usize] values that must not wrap: [None] if it would. *)
Definition checked_sub (x y : nat) : option nat :=
  if decide (y ≤ x)%nat then Some (x - y)%nat else None.

(** [get_random_peers]; [None] is a panic. *)
Definition get_random_peers (n : nat) (p : Peers) : option (list SocketAddr) :=
  let tried_len := size (tried_bucket p) in
  let new_len := size (new_bucket p) in
  let n_peers := Nat.min (tried_len + new_len) n in
  if decide (n_peers = 0%nat) then Some []
  else
    let min_new_required := (n_peers - tried_len)%nat in
    let index_new_peers := foldl (λ acc k, acc + coin k)%nat 0%nat (seq 0 n_peers) in
    index_new_peers ← clamp index_new_peers min_new_required new_len;
    from_tried ← checked_sub n_peers index_new_peers;
    Some (choose_multiple (bucket_addresses (new_bucket p)) index_new_peers
          ++ choose_multiple (bucket_addresses (tried_bucket p)) from_tried).

Definition get_new_random_peer (p : Peers) : option (Z * SocketAddr) :=
  (λ kv, (kv.1, address kv.2)) <$> choose (map_to_list (new_bucket p)).
End Random.
