(* ===== verification/Sessions.v ===== *)
(** * Sessions with peers

    Models p2p/src/sessions/mod.rs, p2p/src/sessions/bounded_sessions.rs and the errors
    of p2p/src/error.rs: the tables of inbound and outbound sessions of a node.

    The type [T] of the references to sessions is a parameter.  An operation on
    [&mut self] returns the new state with its result; the state is returned on
    errors too, because some operations change it before they fail. *)

From stdpp Require Import base tactics numbers list gmap.
From Stdlib Require Import ZArith Lia.
From S2P Require Import Prelude Hashes Peers.
Local Open Scope Z_scope.
Local Open Scope rust_scope.

(** ** Types of sessions and errors *)

Inductive SessionType := Inbound | Outbound | Feeler.
Inductive SessionStatus := Unconsolidated | Consolidated.
#[export] Instance SessionType_eq_dec : EqDecision SessionType.
Proof. solve_decision. Defined.
#[export] Instance SessionStatus_eq_dec : EqDecision SessionStatus.
Proof. solve_decision. Defined.

(** [SessionsError]; the string of the range is left out. *)
Inductive SessionsError :=
  | MaxPeersReached
  | AddressAlreadyRegistered
  | AddressInSameRangeAlreadyRegistered
  | AddressNotFound
  | NotOutboundConsolidatedPeer
  | NotExpectedFeelerPeer.
#[export] Instance SessionsError_eq_dec : EqDecision SessionsError.
Proof. solve_decision. Defined.

(** ** Ranges of network addresses *)

Record NetworkRangesCollection := MkRanges { inner : gset (list Z); range_limit : Z }.

Definition contains_range (range : list Z) (r : NetworkRangesCollection) : option (list Z) :=
  if decide (range ∈ inner r) then Some range else None.
Definition insert_range (range : list Z) (r : NetworkRangesCollection) : bool * NetworkRangesCollection :=
  (bool_decide (range ∉ inner r), MkRanges ({[range]} ∪ inner r) (range_limit r)).
Definition remove_range (range : list Z) (r : NetworkRangesCollection) : bool * NetworkRangesCollection :=
  (bool_decide (range ∈ inner r), MkRanges (inner r ∖ {[range]}) (range_limit r)).
Definition contains_address (a : SocketAddr) (r : NetworkRangesCollection) : option (list Z) :=
  contains_range (get_range_address a (range_limit r)) r.
Definition insert_address (a : SocketAddr) (r : NetworkRangesCollection) : bool * NetworkRangesCollection :=
  insert_range (get_range_address a (range_limit r)) r.
Definition remove_address (a : SocketAddr) (r : NetworkRangesCollection) : bool * NetworkRangesCollection :=
  remove_range (get_range_address a (range_limit r)) r.
Definition set_range_limit (limit : Z) (r : NetworkRangesCollection) : NetworkRangesCollection :=
  MkRanges (inner r) limit.

(** ** Bounded tables *)

Section Sessions.
Context {T : Type}.

Record SessionInfo := MkSessionInfo { reference : T }.

Record BoundedSessions := MkBounded {
  collection : gmap SocketAddr SessionInfo;
  limit : option Z;
}.

Definition BoundedSessions_default : BoundedSessions := MkBounded ∅ None.

Definition set_limit (l : Z) (b : BoundedSessions) : BoundedSessions := MkBounded (collection b) (Some l).

(** Whether the table has reached its limit. *)
Definition full (b : BoundedSessions) : bool :=
  match limit b with
  | Some l => bool_decide (l ≤ Z.of_nat (size (collection b)))
  | None => false
  end.

(** [BoundedSessions::register_session]. *)
Definition bounded_register (a : SocketAddr) (r : T) (b : BoundedSessions) : result SessionsError BoundedSessions :=
  if full b then Err MaxPeersReached
  else if decide (is_Some (collection b !! a)) then Err AddressAlreadyRegistered
  else Ok (MkBounded (<[a := MkSessionInfo r]> (collection b)) (limit b)).

(** [BoundedSessions::unregister_session]. *)
Definition bounded_unregister (a : SocketAddr) (b : BoundedSessions) : result SessionsError (SessionInfo * BoundedSessions) :=
  match collection b !! a with
  | Some info => Ok (info, MkBounded (delete a (collection b)) (limit b))
  | None => Err AddressNotFound
  end.

(** ** The tables of a node *)

Record Sessions := MkSessions {
  inbound_consolidated : BoundedSessions;
  inbound_network_ranges : NetworkRangesCollection;
  inbound_unconsolidated : BoundedSessions;
  magic_number : Z;
  outbound_consolidated : BoundedSessions;
  outbound_consolidated_consensus : BoundedSessions;
  outbound_unconsolidated : BoundedSessions;
  public_address : option SocketAddr;
}.

Definition Sessions_default : Sessions :=
  MkSessions BoundedSessions_default (MkRanges ∅ 0) BoundedSessions_default 0
    BoundedSessions_default BoundedSessions_default BoundedSessions_default None.

(** [get_sessions], read and written. *)
Definition get_sessions (ty : SessionType) (st : SessionStatus) (s : Sessions) : result SessionsError BoundedSessions :=
  match ty, st with
  | Inbound, Unconsolidated => Ok (inbound_unconsolidated s)
  | Inbound, Consolidated => Ok (inbound_consolidated s)
  | Outbound, Unconsolidated => Ok (outbound_unconsolidated s)
  | Outbound, Consolidated => Ok (outbound_consolidated s)
  | Feeler, _ => Err NotExpectedFeelerPeer
  end.
Definition set_sessions (ty : SessionType) (st : SessionStatus) (b : BoundedSessions) (s : Sessions) : Sessions :=
  match ty, st with
  | Inbound, Unconsolidated =>
    MkSessions (inbound_consolidated s) (inbound_network_ranges s) b (magic_number s) (outbound_consolidated s)
      (outbound_consolidated_consensus s) (outbound_unconsolidated s) (public_address s)
  | Inbound, Consolidated =>
    MkSessions b (inbound_network_ranges s) (inbound_unconsolidated s) (magic_number s) (outbound_consolidated s)
      (outbound_consolidated_consensus s) (outbound_unconsolidated s) (public_address s)
  | Outbound, Unconsolidated =>
    MkSessions (inbound_consolidated s) (inbound_network_ranges s) (inbound_unconsolidated s) (magic_number s)
      (outbound_consolidated s) (outbound_consolidated_consensus s) b (public_address s)
  | Outbound, Consolidated =>
    MkSessions (inbound_consolidated s) (inbound_network_ranges s) (inbound_unconsolidated s) (magic_number s) b
      (outbound_consolidated_consensus s) (outbound_unconsolidated s) (public_address s)
  | Feeler, _ => s
  end.
Definition set_consensus (b : BoundedSessions) (s : Sessions) : Sessions :=
  MkSessions (inbound_consolidated s) (inbound_network_ranges s) (inbound_unconsolidated s) (magic_number s)
    (outbound_consolidated s) b (outbound_unconsolidated s) (public_address s).
Definition set_ranges (r : NetworkRangesCollection) (s : Sessions) : Sessions :=
  MkSessions (inbound_consolidated s) r (inbound_unconsolidated s) (magic_number s) (outbound_consolidated s)
    (outbound_consolidated_consensus s) (outbound_unconsolidated s) (public_address s).

Definition set_public_address (a : option SocketAddr) (s : Sessions) : Sessions :=
  MkSessions (inbound_consolidated s) (inbound_network_ranges s) (inbound_unconsolidated s) (magic_number s)
    (outbound_consolidated s) (outbound_consolidated_consensus s) (outbound_unconsolidated s) a.
Definition set_limits (inbound_limit outbound_consolidated_limit : Z) (s : Sessions) : Sessions :=
  MkSessions (set_limit inbound_limit (inbound_consolidated s)) (inbound_network_ranges s) (inbound_unconsolidated s)
    (magic_number s) (set_limit outbound_consolidated_limit (outbound_consolidated s))
    (set_limit outbound_consolidated_limit (outbound_consolidated_consensus s)) (outbound_unconsolidated s) (public_address s).
Definition set_magic_number (m : Z) (s : Sessions) : Sessions :=
  MkSessions (inbound_consolidated s) (inbound_network_ranges s) (inbound_unconsolidated s) m (outbound_consolidated s)
    (outbound_consolidated_consensus s) (outbound_unconsolidated s) (public_address s).

(** ** Queries *)

Definition contains_key (a : SocketAddr) (b : BoundedSessions) : bool := bool_decide (is_Some (collection b !! a)).

Definition is_outbound_address_eligible (a : SocketAddr) (s : Sessions) : bool :=
  if contains_key a (outbound_consolidated s) then false
  else if contains_key a (outbound_unconsolidated s) then false
  else if bool_decide (public_address s = Some a) then false
  else true.

Definition get_num_outbound_sessions (s : Sessions) : Z :=
  Z.of_nat (size (collection (outbound_consolidated s)) + size (collection (outbound_unconsolidated s))).
Definition get_num_inbound_sessions (s : Sessions) : Z := Z.of_nat (size (collection (inbound_consolidated s))).

Definition is_outbound_bootstrap_needed (s : Sessions) : bool :=
  match limit (outbound_consolidated s) with
  | Some l => bool_decide (get_num_outbound_sessions s < l)
  | None => true
  end.
Definition num_missing_outbound (s : Sessions) : Z :=
  match limit (outbound_consolidated s) with
  | Some l => sat_sub l (get_num_outbound_sessions s)
  | None => 1
  end.

(** [values()] of a table. *)
Definition references (b : BoundedSessions) : list T := (λ kv, reference kv.2) <$> map_to_list (collection b).

(** [get_random_anycast_session]; [gen_range len] is the random index below [len]. *)
Definition get_random_anycast_session (gen_range : nat → nat) (safu : bool) (s : Sessions) : option T :=
  let sessions := references (if safu then outbound_consolidated_consensus s else outbound_consolidated s) in
  let len := length sessions in
  let index := if decide (len = 0%nat) then 0%nat else gen_range len in
  sessions !! index.

Definition get_all_consolidated_sessions (s : Sessions) : list T :=
  references (outbound_consolidated s) ++ references (inbound_consolidated s).
Definition get_consolidated_inbound_sessions (s : Sessions) : list T := references (inbound_consolidated s).

Definition is_similar_to_inbound_session (a : SocketAddr) (s : Sessions) : option (list Z) :=
  contains_address a (inbound_network_ranges s).

(** [GetConsolidatedPeersResult]: the inbound and the outbound addresses. *)
Definition get_consolidated_sessions_addr (s : Sessions) : list SocketAddr * list SocketAddr :=
  ((map_to_list (collection (inbound_consolidated s))).*1, (map_to_list (collection (outbound_consolidated s))).*1).

(** ** Life of a session *)

Definition register_session (ty : SessionType) (a : SocketAddr) (r : T) (s : Sessions) : exec Sessions SessionsError unit :=
  let! (s, sessions) := lift_exec s (get_sessions ty Unconsolidated s) in
  let! (s, sessions) := lift_exec s (bounded_register a r sessions) in
  let s := set_sessions ty Unconsolidated sessions s in
  let s := if decide (ty = Inbound) then set_ranges (insert_address a (inbound_network_ranges s)).2 s else s in
  Ret s tt.

Definition unconsensus_session (a : SocketAddr) (s : Sessions) : exec Sessions SessionsError unit :=
  let! (s, r) := lift_exec s (bounded_unregister a (outbound_consolidated_consensus s)) in
  Ret (set_consensus r.2 s) tt.

(** The state after a call whose result is ignored. *)
Definition state_of {S E A} (old : S) (m : exec S E A) : S :=
  match m with Ret s _ | Fail s _ => s | _ => old end.

Definition unregister_session (ty : SessionType) (st : SessionStatus) (a : SocketAddr) (s : Sessions)
    : exec Sessions SessionsError unit :=
  let s := match ty, st with Outbound, Consolidated => state_of s (unconsensus_session a s) | _, _ => s end in
  let! (s, sessions) := lift_exec s (get_sessions ty st s) in
  let! (s, r) := lift_exec s (bounded_unregister a sessions) in
  let s := set_sessions ty st r.2 s in
  let s := if decide (ty = Inbound) then set_ranges (remove_address a (inbound_network_ranges s)).2 s else s in
  Ret s tt.

Definition consolidate_session (ty : SessionType) (a : SocketAddr) (s : Sessions) : exec Sessions SessionsError unit :=
  let! (s, uncons_sessions) := lift_exec s (get_sessions ty Unconsolidated s) in
  let! (s, r) := lift_exec s (bounded_unregister a uncons_sessions) in
  let s := set_sessions ty Unconsolidated r.2 s in
  let! (s, cons_sessions) := lift_exec s (get_sessions ty Consolidated s) in
  let! (s, cons_sessions) := lift_exec s (bounded_register a (reference r.1) cons_sessions) in
  Ret (set_sessions ty Consolidated cons_sessions s) tt.

Definition consensus_session (a : SocketAddr) (s : Sessions) : exec Sessions SessionsError unit :=
  match collection (outbound_consolidated s) !! a with
  | Some session_info =>
    let! (s, b) := lift_exec s (bounded_register a (reference session_info) (outbound_consolidated_consensus s)) in
    Ret (set_consensus b s) tt
  | None => Fail s NotOutboundConsolidatedPeer
  end.
End Sessions.
Arguments SessionInfo : clear implicits.
Arguments BoundedSessions : clear implicits.
Arguments Sessions : clear implicits.
