(* ===== verification/PeersManager.v ===== *)
(** * The peers manager

    Models node/src/actors/peers_manager (mod.rs and handlers.rs): the actor that owns
    the known peers.  A handler is a function from the state to the new state, the
    reply and the messages sent to other actors; [now k] is the k-th reading of the clock
    in the handler.  [None] is a panic.  The tasks that the actor schedules
    ([feeler], [melt_peers]) are the bodies they run; timers and logging are left out. *)

From stdpp Require Import base tactics numbers list gmap.
From Stdlib Require Import ZArith Lia.
From S2P Require Import Prelude Hashes Epoch Peers Sessions.
Local Open Scope Z_scope.

Record PeersManager := MkPeersManager {
  peers : Peers;
  bucketing_update_period : Z;
  check_melted_peers_period : Z;
  magic : Z;
}.

Definition set_peers (p : Peers) (m : PeersManager) : PeersManager :=
  MkPeersManager p (bucketing_update_period m) (check_melted_peers_period m) (magic m).

(** [PeersManager::from_config]. *)
Definition manager_from_config (ice_period : Z) (server_addr : SocketAddr) (update_period melt_period magic nonce : Z) : PeersManager :=
  MkPeersManager (from_config ice_period server_addr nonce) update_period melt_period magic.

(** [OutboundTcpConnect], sent to the connections manager. *)
Record OutboundTcpConnect := MkConnect { connect_to : SocketAddr; connect_type : SessionType }.

(** What [serde] restores of a stored [Peers]: the field [ice_period] is skipped and takes
    its default. *)
Definition deserialized (stored : Peers) : Peers :=
  MkPeers (bootstrapped stored) (ice_bucket stored) safe_ice_period_default (new_bucket stored)
    (server_address stored) (sk stored) (tried_bucket stored).

Definition current_check_melted_peers_period (m : PeersManager) : Z :=
  if bootstrapped (peers m) then check_melted_peers_period m else 60.

Section PeersManager.
Context (calculate_sha256 : list Z → list Z).
Local Abbreviation add_to_new := (add_to_new calculate_sha256).
Local Abbreviation add_to_tried := (add_to_tried calculate_sha256).
Local Abbreviation remove_from_tried := (remove_from_tried calculate_sha256).
Local Abbreviation tried_bucket_index := (tried_bucket_index calculate_sha256).

(** [Handler<AddPeers>]. *)
Definition handle_add_peers (now : nat → Z) (addresses : list SocketAddr) (src_address : option SocketAddr) (m : PeersManager)
    : option (list SocketAddr * PeersManager) :=
  let p := if decide (src_address = None) then remove_many_from_ice addresses (peers m) else peers m in
  '(overwritten, p) ← add_to_new now addresses src_address p;
  Some (overwritten, set_peers p m).

(** [Handler<ClearPeers>]. *)
Definition handle_clear_peers (m : PeersManager) : PeersManager :=
  set_peers (clear_ice_bucket (clear_new_bucket (clear_tried_bucket (peers m)))) m.

(** [Handler<InitializePeers>]. *)
Definition handle_initialize_peers (now : nat → Z) (known_peers : list SocketAddr) (m : PeersManager) : option PeersManager :=
  let p := clear_ice_bucket (clear_new_bucket (clear_tried_bucket (peers m))) in
  '(_, p) ← add_to_new now known_peers None p;
  Some (set_peers p m).

(** [Handler<AddConsolidatedPeer>]. *)
Definition handle_add_consolidated_peer (now : nat → Z) (addr : SocketAddr) (m : PeersManager)
    : option (option SocketAddr * PeersManager) :=
  let current_ts := now 0%nat in
  let index := tried_bucket_index addr (peers m) in
  match tried_bucket_get_timestamp index (peers m) with
  | Some ts =>
    if decide (wrap_i64 (current_ts - ts) < bucketing_update_period m) then Some (None, m)
    else '(old, p) ← add_to_tried addr (now ∘ S) (peers m); Some (old, set_peers p m)
  | None => '(old, p) ← add_to_tried addr (now ∘ S) (peers m); Some (old, set_peers p m)
  end.

(** [Handler<RemoveAddressesFromTried>]. *)
Definition handle_remove_addresses_from_tried (now : nat → Z) (addresses : list SocketAddr) (ice : bool) (m : PeersManager)
    : list SocketAddr * PeersManager :=
  let '(removed, p) := remove_from_tried now addresses ice (peers m) in
  (removed, set_peers p m).

(** [Handler<GetRandomPeers>], [Handler<RequestPeers>] and [Handler<GetKnownPeers>]. *)
Definition handle_get_random_peers choose_multiple coin (n : nat) (m : PeersManager) : option (list SocketAddr) :=
  get_random_peers choose_multiple coin n (peers m).
Definition handle_request_peers (m : PeersManager) : list SocketAddr := get_all_from_tried (peers m).
Definition handle_get_known_peers (m : PeersManager) : list SocketAddr * list SocketAddr :=
  (get_all_from_new (peers m), get_all_from_tried (peers m)).

(** [Handler<EpochNotification<()>>]. *)
Definition handle_epoch_notification (m : PeersManager) : PeersManager :=
  set_peers (set_bootstrapped true (peers m)) m.

Definition import_peers (now : nat → Z) (stored : Peers) (known_peers : list SocketAddr) (m : PeersManager) : option PeersManager :=
  '(_, p) ← add_to_new now known_peers None stored;
  Some (set_peers p m).

(** [try_peer]; the last component is the message to the connections manager. *)
Definition try_peer (now : nat → Z) (addr : SocketAddr) (m : PeersManager) : option (PeersManager * list OutboundTcpConnect) :=
  let current_ts := now 0%nat in
  let index := tried_bucket_index addr (peers m) in
  match tried_bucket_get_timestamp index (peers m) with
  | None => Some (m, [MkConnect addr Feeler])
  | Some ts =>
    if decide (wrap_i64 (current_ts - ts) > bucketing_update_period m) then
      old_address ← tried_bucket_get_address index (peers m);
      Some (set_peers (remove_from_tried (now ∘ S) [old_address] false (peers m)).2 m, [MkConnect old_address Feeler])
    else Some (m, [])
  end.

(** The body of [feeler]; [choose] picks an entry of the new bucket. *)
Definition feeler (choose : list (Z * PeerInfo) → option (Z * PeerInfo)) (now : nat → Z) (m : PeersManager)
    : option (PeersManager * list OutboundTcpConnect) :=
  match get_new_random_peer choose (peers m) with
  | Some (key, peer) =>
    try_peer now peer (set_peers (remove_from_new_with_index [key] (peers m)).2 m)
  | None => Some (m, [])
  end.

(** The body of [melt_peers]. *)
Definition melt_peers (now : nat → Z) (m : PeersManager) : option PeersManager :=
  '(addresses, p) ← extract_melted_peers_from_ice_bucket (now 0%nat) (peers m);
  match addresses with
  | [] => Some (set_peers p m)
  | _ => '(_, p) ← add_to_new (now ∘ S) addresses None p; Some (set_peers p m)
  end.

(** ** The actor as a transition system *)

Inductive PeersEvent :=
  | AddPeers (addresses : list SocketAddr) (src_address : option SocketAddr)
  | ClearPeers
  | InitializePeers (known_peers : list SocketAddr)
  | AddConsolidatedPeer (addr : SocketAddr)
  | RemoveAddressesFromTried (addresses : list SocketAddr) (ice : bool)
  | FirstEpoch
  | FeelerTick (choose : list (Z * PeerInfo) → option (Z * PeerInfo))
  | MeltTick
  | ImportPeers (stored : Peers) (known_peers : list SocketAddr).

(** The state after an event and the connections asked for. *)
Definition peers_step (now : nat → Z) (e : PeersEvent) (m : PeersManager) : option (PeersManager * list OutboundTcpConnect) :=
  match e with
  | AddPeers l src => r ← handle_add_peers now l src m; Some (r.2, [])
  | ClearPeers => Some (handle_clear_peers m, [])
  | InitializePeers l => m ← handle_initialize_peers now l m; Some (m, [])
  | AddConsolidatedPeer a => r ← handle_add_consolidated_peer now a m; Some (r.2, [])
  | RemoveAddressesFromTried l ice => Some ((handle_remove_addresses_from_tried now l ice m).2, [])
  | FirstEpoch => Some (handle_epoch_notification m, [])
  | FeelerTick choose => feeler choose now m
  | MeltTick => m ← melt_peers now m; Some (m, [])
  | ImportPeers stored l => m ← import_peers now (deserialized stored) l m; Some (m, [])
  end.
End PeersManager.
