(* ===== verification/SessionsManager.v ===== *)
(** * The sessions manager

    Models node/src/actors/sessions_manager: the beacons received in an epoch
    (beacons.rs) and the actor that owns the table of sessions (mod.rs, handlers.rs).

    A handler maps the state to the new state, its reply and the messages it sends,
    in order ([Sent]); [Panic] is a panic.  The reply of the chain manager to the
    message [PeersBeacons] is handled by [peers_beacons_reply], and the closure that
    an epoch notification schedules is [mining_timeout].  A reference to a session actor
    ([Addr<Session>]) has the parameter type [T].  Timers and logging are left out. *)

From stdpp Require Import base tactics numbers list gmap.
From Stdlib Require Import ZArith Lia.
From S2P Require Import Prelude Hashes Superblock Epoch Versioning Peers Sessions PeersManager.
Local Open Scope Z_scope.
Local Open Scope rust_scope.

(** ** Beacons *)

(** [LastBeacon] of data_structures/src/types.rs. *)
Record LastBeacon := MkLastBeacon {
  highest_block_checkpoint : CheckpointBeacon;
  highest_superblock_checkpoint : CheckpointBeacon;
}.

Record Beacons := MkBeacons {
  beacons_already_sent : bool;
  peers_not_beacon : gset SocketAddr;
  peers_with_beacon : gmap SocketAddr LastBeacon;
}.
Definition Beacons_default : Beacons := MkBeacons false ∅ ∅.

Definition already_sent (b : Beacons) : bool := beacons_already_sent b.
Definition total_count (b : Beacons) : Z := Z.of_nat (size (peers_with_beacon b)).
(** [Beacons::clear], [new_epoch], [insert], [remove], [also_wait_for] and [send]. *)
Definition beacons_clear (ps : list SocketAddr) (b : Beacons) : Beacons :=
  MkBeacons (beacons_already_sent b) (foldl (λ s a, {[a]} ∪ s) ∅ ps) ∅.
Definition new_epoch (b : Beacons) : Beacons := MkBeacons false (peers_not_beacon b) (peers_with_beacon b).
Definition beacons_insert (k : SocketAddr) (v : LastBeacon) (b : Beacons) : Beacons :=
  MkBeacons (beacons_already_sent b) (peers_not_beacon b ∖ {[k]}) (<[k := v]> (peers_with_beacon b)).
Definition beacons_remove (k : SocketAddr) (b : Beacons) : Beacons :=
  MkBeacons (beacons_already_sent b) (peers_not_beacon b ∖ {[k]}) (delete k (peers_with_beacon b)).
Definition also_wait_for (k : SocketAddr) (b : Beacons) : Beacons :=
  if decide (is_Some (peers_with_beacon b !! k)) then b
  else MkBeacons (beacons_already_sent b) ({[k]} ∪ peers_not_beacon b) (peers_with_beacon b).
Definition beacons_send (b : Beacons) : option (gmap SocketAddr LastBeacon * gset SocketAddr) * Beacons :=
  if beacons_already_sent b then (None, b)
  else (Some (peers_with_beacon b, peers_not_beacon b), MkBeacons true (peers_not_beacon b) (peers_with_beacon b)).

(** ** Time *)

(** [duration_between_timestamps] of util/src/timestamp.rs, in nanoseconds: [None] if the
    target is in the past; it panics on a timestamp before 1970. *)
Definition duration_between_timestamps (now target : Z * Z) : result unit (option Z) :=
  if decide (0 ≤ target.1 ∧ 0 ≤ now.1) then
    let d := (target.1 * 10 ^ 9 + target.2) - (now.1 * 10 ^ 9 + now.2) in
    Ok (if decide (0 ≤ d) then Some d else None)
  else Panic.

(** ** State *)

Section SessionsManager.
Context {T : Type} (pinfo : ProtocolInfo).

(** The settings of [Config::connections] that the actor reads. *)
Record ConnectionsConfig := MkConnections { reject_sybil_inbounds : bool; reject_sybil_inbounds_range_limit : Z }.

Record SessionsManager := MkManager {
  sessions : Sessions T;
  beacons : Beacons;
  epoch_constants : option EpochConstants;
  current_epoch : Z;
  last_beacon : option LastBeacon;
  config : option ConnectionsConfig;
  superblock_beacon_target : option CheckpointBeacon;
}.

Definition with_sessions (s : Sessions T) (m : SessionsManager) : SessionsManager :=
  MkManager s (beacons m) (epoch_constants m) (current_epoch m) (last_beacon m) (config m) (superblock_beacon_target m).
Definition with_beacons (b : Beacons) (m : SessionsManager) : SessionsManager :=
  MkManager (sessions m) b (epoch_constants m) (current_epoch m) (last_beacon m) (config m) (superblock_beacon_target m).
Definition with_constants (c : option EpochConstants) (m : SessionsManager) : SessionsManager :=
  MkManager (sessions m) (beacons m) c (current_epoch m) (last_beacon m) (config m) (superblock_beacon_target m).
Definition with_epoch (e : Z) (m : SessionsManager) : SessionsManager :=
  MkManager (sessions m) (beacons m) (epoch_constants m) e (last_beacon m) (config m) (superblock_beacon_target m).

(** [started] of actor.rs: the state once the configuration is read. *)
Definition manager_started (cfg : ConnectionsConfig) (public : option SocketAddr) (inbound_limit outbound_limit : Z)
    (c : EpochConstants) (get_timestamp : Z) : result EpochCalculationError SessionsManager :=
  let s := set_limits inbound_limit outbound_limit (set_public_address public Sessions_default) in
  let s := set_ranges (set_range_limit (reject_sybil_inbounds_range_limit cfg) (inbound_network_ranges s)) s in
  let s := set_magic_number 10700 s in
  match epoch_at c get_timestamp with
  | Ok e => Ok (MkManager s Beacons_default None e None (Some cfg) None)
  | Err _ => Ok (MkManager s Beacons_default None 0 None (Some cfg) None)
  | Panic => Panic
  end.

(** The messages that the actor sends to others. *)
Inductive Sent :=
  | ToPeersManager (e : PeersEvent)
  | CloseSession (r : T)
  | PeersBeacons (pb : list (SocketAddr * option LastBeacon)) (outbound_limit : option Z)
  | TryMineBlock
  | Connect (c : OutboundTcpConnect)
  | CreateSession (remote_addr : SocketAddr) (ty : SessionType) (beacon : LastBeacon)
                  (target : option CheckpointBeacon) (epoch : Z)
  (* the closure of the epoch is left with [ctx.run_later], after a delay in nanoseconds *)
  | RunLater (delay checkpoint : Z).

(** [NotSendingPeersBeaconsBecause]. *)
Inductive NotSendingPeersBeaconsBecause := AlreadySent | BootstrapNeeded | NotEnoughBeacons.

(** ** Sessions *)

(** [Handler<Create>]; [remote_addr] is [None] when the stream has no peer address. *)
Definition handle_create (remote_addr : option SocketAddr) (ty : SessionType) (m : SessionsManager) : result unit (list Sent) :=
  let? cfg := unwrap (config m) in
  match last_beacon m, remote_addr with
  | Some beacon, Some a =>
    if reject_sybil_inbounds cfg && bool_decide (ty = Inbound)
       && bool_decide (is_Some (is_similar_to_inbound_session a (sessions m)))
    then Ok []
    else Ok [CreateSession a ty beacon (superblock_beacon_target m) (current_epoch m)]
  | _, _ => Ok []
  end.

(** The reply of a handler that returns the result of an operation on the sessions. *)
Definition outcome (x : exec (Sessions T) SessionsError unit) : result SessionsError unit :=
  match x with Ret _ _ => Ok tt | Fail _ e => Err e | Crash => Panic end.

(** [Handler<Register>]. *)
Definition handle_register (ty : SessionType) (a : SocketAddr) (r : T) (m : SessionsManager)
    : SessionsManager * result SessionsError unit :=
  let x := register_session ty a r (sessions m) in
  (with_sessions (state_of (sessions m) x) m, outcome x).

(** [Handler<Unregister>]. *)
Definition handle_unregister (ty : SessionType) (st : SessionStatus) (a : SocketAddr) (m : SessionsManager)
    : SessionsManager * result SessionsError unit * list Sent :=
  if decide (ty = Feeler) then (m, Ok tt, [])
  else
    let x := unregister_session ty st a (sessions m) in
    let m := with_sessions (state_of (sessions m) x) m in
    match outcome x with
    | Ok _ =>
      if decide (ty = Outbound)
      then (with_beacons (beacons_remove a (beacons m)) m, Ok tt, [ToPeersManager (RemoveAddressesFromTried [a] false)])
      else (m, Ok tt, [])
    | e => (m, e, [])
    end.

(** [Handler<Consolidate>]. *)
Definition handle_consolidate (ty : SessionType) (a : SocketAddr) (potential_new_peer : option SocketAddr) (m : SessionsManager)
    : SessionsManager * result SessionsError unit * list Sent :=
  let x := consolidate_session ty a (sessions m) in
  let m := with_sessions (state_of (sessions m) x) m in
  let tried := if decide (ty = Outbound) then [ToPeersManager (AddConsolidatedPeer a)] else [] in
  let new := match potential_new_peer with Some p => [ToPeersManager (AddPeers [p] (Some a))] | None => [] end in
  match outcome x with
  | Ok _ => (if decide (ty = Outbound) then with_beacons (also_wait_for a (beacons m)) m else m, Ok tt, tried ++ new)
  | e => (m, e, tried ++ new)
  end.

(** [Handler<Anycast>] and [Handler<Broadcast>]: the sessions that receive the command. *)
Definition handle_anycast (gen_range : nat → nat) (safu : bool) (m : SessionsManager) : option T :=
  get_random_anycast_session gen_range safu (sessions m).
Definition handle_broadcast (only_inbound : bool) (m : SessionsManager) : list T :=
  if only_inbound then get_consolidated_inbound_sessions (sessions m) else get_all_consolidated_sessions (sessions m).

(** [drop_outbound_peers] and [drop_all_peers]. *)
Definition drop_outbound_peers (peers_to_unregister : list SocketAddr) (m : SessionsManager) : list Sent :=
  omap (λ a, CloseSession ∘ reference <$> collection (outbound_consolidated (sessions m)) !! a) peers_to_unregister.
Definition drop_all_peers (m : SessionsManager) : list Sent :=
  (CloseSession <$> references (inbound_consolidated (sessions m)))
  ++ (CloseSession <$> references (outbound_consolidated (sessions m))).

(** [Handler<SetPeersLimits>]. *)
Definition handle_set_peers_limits (inbound outbound : Z) (m : SessionsManager) : SessionsManager * list Sent :=
  let m := with_sessions (set_limits inbound outbound (sessions m)) m in
  (m, drop_all_peers m).

(** [Handler<SetLastBeacon>], [Handler<SetSuperBlockTargetBeacon>], [Handler<SetEpochConstants>]. *)
Definition handle_set_last_beacon (b : LastBeacon) (m : SessionsManager) : SessionsManager :=
  MkManager (sessions m) (beacons m) (epoch_constants m) (current_epoch m) (Some b) (config m) (superblock_beacon_target m).
Definition handle_set_superblock_target_beacon (b : option CheckpointBeacon) (m : SessionsManager) : SessionsManager :=
  MkManager (sessions m) (beacons m) (epoch_constants m) (current_epoch m) (last_beacon m) (config m) b.
Definition handle_set_epoch_constants (c : EpochConstants) (get_timestamp : Z) (m : SessionsManager) : option SessionsManager :=
  match epoch_at c get_timestamp with
  | Ok e => Some (with_epoch e (with_constants (Some c) m))
  | Err _ => Some (with_epoch 0 (with_constants (Some c) m))
  | Panic => None
  end.

(** [Handler<NumSessions>] and [Handler<GetConsolidatedPeers>]. *)
Definition handle_num_sessions (m : SessionsManager) : Z * Z :=
  (get_num_inbound_sessions (sessions m), get_num_outbound_sessions (sessions m)).
Definition handle_get_consolidated_peers (m : SessionsManager) : list SocketAddr * list SocketAddr :=
  get_consolidated_sessions_addr (sessions m).

(** [process_get_peer_response]: [None] is an error of the mailbox or of the peers manager. *)
Definition process_get_peer_response (response : option (list SocketAddr)) (m : SessionsManager) : list SocketAddr :=
  take (Z.to_nat (num_missing_outbound (sessions m)))
    (filter (λ a, is_outbound_address_eligible a (sessions m) = true) (default [] response)).

(** [bootstrap_peers]: how many peers are asked for, if any, and what is done with them. *)
Definition bootstrap_request (m : SessionsManager) : option Z :=
  if bool_decide (is_Some (last_beacon m)) && is_outbound_bootstrap_needed (sessions m)
  then Some (default 1 (limit (outbound_consolidated (sessions m)))) else None.
Definition bootstrap_response (response : option (list SocketAddr)) (m : SessionsManager) : list Sent :=
  (λ a, Connect (MkConnect a Outbound)) <$> process_get_peer_response response m.

(** ** Beacons of the peers *)

(** [send_peers_beacons]: the message for the chain manager, if it was not sent yet. *)
Definition send_peers_beacons (m : SessionsManager) : SessionsManager * list Sent :=
  let '(r, b) := beacons_send (beacons m) in
  match r with
  | Some (pb, pnb) =>
    let pb := ((λ kv, (kv.1, Some kv.2)) <$> map_to_list pb) ++ ((λ k, (k, None)) <$> elements pnb) in
    (with_beacons b m, [PeersBeacons pb (limit (outbound_consolidated (sessions m)))])
  | None => (with_beacons b m, [])
  end.

(** [peers_to_keep] and the closure that handles the reply: the list of peers to drop. *)
Definition peers_to_keep (pb : list (SocketAddr * option LastBeacon)) : gset SocketAddr := list_to_set pb.*1.
Definition peers_beacons_reply (keep : gset SocketAddr) (reply : option (list SocketAddr)) (m : SessionsManager)
    : SessionsManager * list Sent :=
  match reply with
  | None => (m, [])
  | Some peers_to_unregister =>
    let closed := drop_outbound_peers peers_to_unregister m in
    let keep := foldl (λ s a, s ∖ {[a]}) keep peers_to_unregister in
    let s := foldl (λ s a, state_of s (consensus_session a s)) (sessions m) (elements keep) in
    (with_sessions s m, closed)
  end.

(** [try_send_peers_beacons]. *)
Definition try_send_peers_beacons (m : SessionsManager)
    : SessionsManager * result NotSendingPeersBeaconsBecause (list Sent) :=
  if already_sent (beacons m) then (m, Err AlreadySent)
  else if is_outbound_bootstrap_needed (sessions m) then (m, Err BootstrapNeeded)
  else if match limit (outbound_consolidated (sessions m)) with
          | Some expected_peers => bool_decide (total_count (beacons m) < expected_peers)
          | None => false
          end
  then (m, Err NotEnoughBeacons)
  else let '(m, sent) := send_peers_beacons m in (m, Ok sent).

(** The messages of a call whose error is only logged. *)
Definition sent_of {E} (r : result E (list Sent)) : list Sent := match r with Ok l => l | _ => [] end.

Definition clear_beacons (m : SessionsManager) : SessionsManager :=
  with_beacons (beacons_clear (map_to_list (collection (outbound_consolidated (sessions m)))).*1 (beacons m)) m.

(** [Handler<PeerBeacon>]. *)
Definition handle_peer_beacon (a : SocketAddr) (beacon : LastBeacon) (m : SessionsManager) : SessionsManager * list Sent :=
  let m := with_beacons (beacons_insert a beacon (beacons m)) m in
  let '(m, r) := try_send_peers_beacons m in
  (m, sent_of r).

(** The constants for protocol 2.0 are set as soon as its activation is known. *)
Definition update_epoch_constants (checkpoint : Z) (m : SessionsManager) : result unit SessionsManager :=
  match get_protocol_version pinfo (Some checkpoint) with
  | V1_8 =>
    match epoch_constants m with
    | Some c =>
      if decide (checkpoint_zero_timestamp_wit2 c = I64_MAX) then
        let checkpoints_period_wit2 := get_protocol_version_period pinfo V2_0 in
        let activation_epoch_wit2 := get_protocol_version_activation_epoch pinfo V2_0 in
        if decide (checkpoints_period_wit2 ≠ U16 - 1 ∧ activation_epoch_wit2 ≠ U32 - 1) then
          match set_values_for_wit2 c checkpoints_period_wit2 activation_epoch_wit2 with
          | Ret c _ => Ok (with_constants (Some c) m)
          | _ => Panic
          end
        else Ok m
      else Ok m
    | None => Panic
    end
  | _ => Ok m
  end.

(** [Handler<EpochNotification<()>>]: also returns how long to wait for the closure, [None]
    if the notification came too late. *)
Definition handle_epoch (checkpoint : Z) (now : Z * Z) (m : SessionsManager)
    : result unit (SessionsManager * list Sent * option Z) :=
  let m := with_epoch checkpoint m in
  let m := with_beacons (new_epoch (beacons m)) m in
  let '(m, r) := try_send_peers_beacons m in
  let sent := sent_of r in
  let? m := update_epoch_constants checkpoint m in
  let? c := unwrap (epoch_constants m) in
  match block_mining_timestamp c checkpoint with
  | Ok timestamp_mining =>
    let? d := duration_between_timestamps now (timestamp_mining, 0) in
    Ok (m, sent, d)
  | _ => Panic
  end.

(** The closure of [Handler<EpochNotification<()>>]. *)
Definition mining_timeout (checkpoint : Z) (m : SessionsManager) : SessionsManager * list Sent :=
  let '(m, r) := try_send_peers_beacons m in
  let '(m, sent) :=
    match r with
    | Err BootstrapNeeded | Err NotEnoughBeacons => send_peers_beacons m
    | r => (m, sent_of r)
    end in
  let m := clear_beacons m in
  (m, sent ++ if decide (0 < checkpoint) then [TryMineBlock] else []).

(** ** The actor as a transition system *)

Inductive SessionsEvent :=
  | EvRegister (ty : SessionType) (a : SocketAddr) (r : T)
  | EvUnregister (ty : SessionType) (st : SessionStatus) (a : SocketAddr)
  | EvConsolidate (ty : SessionType) (a : SocketAddr) (potential_new_peer : option SocketAddr)
  | EvPeerBeacon (a : SocketAddr) (b : LastBeacon)
  | EvEpoch (checkpoint : Z) (now : Z * Z)
  | EvMiningTimeout (checkpoint : Z)
  | EvPeersBeaconsReply (keep : gset SocketAddr) (reply : option (list SocketAddr))
  | EvSetPeersLimits (inbound outbound : Z)
  | EvSetLastBeacon (b : LastBeacon)
  | EvSetTarget (b : option CheckpointBeacon)
  | EvSetEpochConstants (c : EpochConstants) (get_timestamp : Z).

(** The state after an event and the messages sent; [None] is a panic. *)
Definition sessions_step (e : SessionsEvent) (m : SessionsManager) : option (SessionsManager * list Sent) :=
  match e with
  | EvRegister ty a r => Some ((handle_register ty a r m).1, [])
  | EvUnregister ty st a => let '(m, _, sent) := handle_unregister ty st a m in Some (m, sent)
  | EvConsolidate ty a p => let '(m, _, sent) := handle_consolidate ty a p m in Some (m, sent)
  | EvPeerBeacon a b => Some (handle_peer_beacon a b m)
  | EvEpoch checkpoint now =>
    match handle_epoch checkpoint now m with
    | Ok (m, sent, delay) => Some (m, sent ++ match delay with Some d => [RunLater d checkpoint] | None => [] end)
    | _ => None
    end
  | EvMiningTimeout checkpoint => Some (mining_timeout checkpoint m)
  | EvPeersBeaconsReply keep reply => Some (peers_beacons_reply keep reply m)
  | EvSetPeersLimits inbound outbound => Some (handle_set_peers_limits inbound outbound m)
  | EvSetLastBeacon b => Some (handle_set_last_beacon b m, [])
  | EvSetTarget b => Some (handle_set_superblock_target_beacon b m, [])
  | EvSetEpochConstants c get_timestamp => m ← handle_set_epoch_constants c get_timestamp m; Some (m, [])
  end.

Fixpoint sessions_run (l : list SessionsEvent) (m : SessionsManager) : option (SessionsManager * list Sent) :=
  match l with
  | [] => Some (m, [])
  | e :: l =>
    '(m, sent) ← sessions_step e m;
    '(m, sent') ← sessions_run l m;
    Some (m, sent ++ sent')
  end.

(** The actor with the closures that wait in its mailbox: a closure runs only if a
    notification of its epoch left it there, and once. *)
Definition left_closures (sent : list Sent) : list Z :=
  omap (λ x, match x with RunLater _ checkpoint => Some checkpoint | _ => None end) sent.
Definition actor_step (e : SessionsEvent) (x : SessionsManager * list Z) : option (SessionsManager * list Z * list Sent) :=
  let '(m, waiting) := x in
  waiting ← match e with
            | EvMiningTimeout checkpoint =>
              i ← list_find (λ c, c = checkpoint) waiting;
              Some (delete i.1 waiting)
            | _ => Some waiting
            end;
  '(m, sent) ← sessions_step e m;
  Some (m, waiting ++ left_closures sent, sent).
Fixpoint actor_run (l : list SessionsEvent) (x : SessionsManager * list Z) : option (SessionsManager * list Z * list Sent) :=
  match l with
  | [] => Some (x, [])
  | e :: l =>
    '(x, sent) ← actor_step e x;
    '(x, sent') ← actor_run l x;
    Some (x, sent ++ sent')
  end.
End SessionsManager.
Arguments SessionsEvent : clear implicits.
Arguments SessionsManager : clear implicits.
Arguments Sent : clear implicits.
