(* ===== verification/Session.v ===== *)
(** * Sessions with a peer and their messages

    Models the messages of the protocol (data_structures/src/types.rs), their builders
    (data_structures/src/builders.rs) and the actor that talks to one peer
    (node/src/actors/session): the handshake and the download of blocks.

    A handler maps the state of a session to the new state and to its effects, in order:
    messages to the peer, messages to other actors, and stopping the actor.  What waits for
    a reply of another actor is split at the reply ([consolidate_reply],
    [get_peers_reply], [highest_beacon_reply], [epoch_range_reply], [inventory_reply]).  The random
    nonce and the user agent of a version message are left out; [get_timestamp] is an argument.
    Encoding, framing, logging and the subscription to epochs are left out: a received
    message is already decoded. *)

From stdpp Require Import base tactics numbers list gmap.
From Stdlib Require Import ZArith Lia.
From S2P Require Import Prelude Hashes Superblock Epoch Versioning Transaction Consensus BlockValidation.
From S2P Require Import Peers Sessions PeersManager SessionsManager.
Local Open Scope Z_scope.
Local Open Scope rust_scope.

(** ** Addresses in messages *)

Inductive IpAddress :=
  | Ipv4 (ip : Z)
  | Ipv6 (ip0 ip1 ip2 ip3 : Z).
Record Address := MkAddress { addr_ip : IpAddress; addr_port : Z }.
Definition Address_default : Address := MkAddress (Ipv4 0) 0.

(** [u128_to_be_u32] on the octets of the address. *)
Definition u128_to_be_u32 (x : Z) : Z * Z * Z * Z :=
  let ip := to_be_bytes 16 x in
  (from_big_endian (take 4 ip), from_big_endian (take 4 (drop 4 ip)),
   from_big_endian (take 4 (drop 8 ip)), from_big_endian (take 4 (drop 12 ip))).

Definition to_address (a : SocketAddr) : Address :=
  match a with
  | V4 o port => MkAddress (Ipv4 (from_big_endian o)) port
  | V6 o port _ _ =>
    let '(ip0, ip1, ip2, ip3) := u128_to_be_u32 (from_big_endian o) in
    MkAddress (Ipv6 ip0 ip1 ip2 ip3) port
  end.

Definition from_address (a : Address) : SocketAddr :=
  match addr_ip a with
  | Ipv4 ip => V4 (to_be_bytes 4 ip) (addr_port a)
  | Ipv6 ip0 ip1 ip2 ip3 =>
    let ip := Z.lor (Z.lor (Z.lor (Z.shiftl ip0 96) (Z.shiftl ip1 64)) (Z.shiftl ip2 32)) ip3 in
    V6 (to_be_bytes 16 ip) (addr_port a) 0 0
  end.

(** ** Messages *)

Record Version := MkVersion {
  version : Z;
  v_timestamp : Z;
  capabilities : Z;
  sender_address : Address;
  receiver_address : Address;
  v_beacon : LastBeacon;
}.

Inductive InventoryEntry :=
  | EntryTx (h : Hash)
  | EntryBlock (h : Hash)
  | EntrySuperBlock (index : Z).

Inductive InventoryItem :=
  | ItemTransaction (t : Transaction)
  | ItemBlock (b : Block)
  | ItemSuperBlock (s : SuperBlock).

Inductive Command :=
  | GetPeers
  | PeersCmd (addrs : list Address)
  | Verack
  | VersionCmd (v : Version)
  | BlockCmd (b : Block)
  | TransactionCmd (t : Transaction)
  | SuperBlockCmd (s : SuperBlock)
  | InventoryAnnouncement (inventory : list InventoryEntry)
  | InventoryRequest (inventory : list InventoryEntry)
  | LastBeaconCmd (b : LastBeacon)
  | SuperBlockVoteCmd (v : SuperBlockVote).

Record Message := MkMessage { kind : Command; msg_magic : Z }.

Definition PROTOCOL_VERSION : Z := 1.
Definition CAPABILITIES : Z := 1.

Definition build_message (magic : Z) (c : Command) : Message := MkMessage c magic.
Definition build_get_peers (magic : Z) : Message := build_message magic GetPeers.
Definition build_peers (magic : Z) (addrs : list SocketAddr) : Message :=
  build_message magic (PeersCmd (to_address <$> addrs)).
Definition build_version (magic : Z) (sender : option SocketAddr) (receiver : SocketAddr) (beacon : LastBeacon) (get_timestamp : Z) : Message :=
  build_message magic (VersionCmd (MkVersion PROTOCOL_VERSION get_timestamp CAPABILITIES
    (default Address_default (to_address <$> sender)) (to_address receiver) beacon)).
Definition build_verack (magic : Z) : Message := build_message magic Verack.
(** The error of an empty inventory is [None]. *)
Definition build_inventory_announcement (magic : Z) (entries : list InventoryEntry) : option Message :=
  match entries with [] => None | _ => Some (build_message magic (InventoryAnnouncement entries)) end.
Definition build_inventory_request (magic : Z) (entries : list InventoryEntry) : option Message :=
  match entries with [] => None | _ => Some (build_message magic (InventoryRequest entries)) end.
Definition build_block (magic : Z) (b : Block) : Message := build_message magic (BlockCmd b).
Definition build_superblock (magic : Z) (s : SuperBlock) : Message := build_message magic (SuperBlockCmd s).
Definition build_transaction (magic : Z) (t : Transaction) : Message := build_message magic (TransactionCmd t).
Definition build_last_beacon (magic : Z) (b : LastBeacon) : Message := build_message magic (LastBeaconCmd b).
Definition build_superblock_vote (magic : Z) (v : SuperBlockVote) : Message := build_message magic (SuperBlockVoteCmd v).

(** ** State of a session *)

Record HandshakeFlags := MkFlags { version_tx : bool; version_rx : bool; verack_tx : bool; verack_rx : bool }.
Definition flags_default : HandshakeFlags := MkFlags false false false false.
Definition all_true (f : HandshakeFlags) : bool := verack_tx f && verack_rx f && version_tx f && version_rx f.

(** The settings that a session reads. *)
Record SessionConfig := MkSessionConfig {
  handshake_max_ts_diff : Z;
  requested_blocks_batch_limit : Z;
  cfg_superblock_period : Z;
  blocks_timeout : Z;
}.

Record Session := MkSession {
  public_addr : option SocketAddr;
  remote_addr : SocketAddr;
  session_type : SessionType;
  status : SessionStatus;
  handshake_flags : HandshakeFlags;
  remote_sender_addr : option SocketAddr;
  s_magic : Z;
  s_current_epoch : Z;
  s_last_beacon : LastBeacon;
  requested_block_hashes : list Hash;
  requested_blocks : gmap Hash Block;
  blocks_timestamp : Z;
  s_config : SessionConfig;
  expected_peers_msg : Z;
  s_target : option CheckpointBeacon;
}.

(** [Session::new]. *)
Definition session_new (public : option SocketAddr) (remote : SocketAddr) (ty : SessionType) (magic epoch : Z)
    (beacon : LastBeacon) (cfg : SessionConfig) (target : option CheckpointBeacon) : Session :=
  MkSession public remote ty Unconsolidated flags_default None magic epoch beacon [] ∅ 0 cfg 0 target.

Definition set_status (st : SessionStatus) (s : Session) : Session :=
  MkSession (public_addr s) (remote_addr s) (session_type s) st (handshake_flags s) (remote_sender_addr s) (s_magic s)
    (s_current_epoch s) (s_last_beacon s) (requested_block_hashes s) (requested_blocks s) (blocks_timestamp s)
    (s_config s) (expected_peers_msg s) (s_target s).
Definition set_handshake (f : HandshakeFlags) (sender : option SocketAddr) (s : Session) : Session :=
  MkSession (public_addr s) (remote_addr s) (session_type s) (status s) f sender (s_magic s)
    (s_current_epoch s) (s_last_beacon s) (requested_block_hashes s) (requested_blocks s) (blocks_timestamp s)
    (s_config s) (expected_peers_msg s) (s_target s).
Definition set_requested (hs : list Hash) (bs : gmap Hash Block) (ts : Z) (s : Session) : Session :=
  MkSession (public_addr s) (remote_addr s) (session_type s) (status s) (handshake_flags s) (remote_sender_addr s) (s_magic s)
    (s_current_epoch s) (s_last_beacon s) hs bs ts (s_config s) (expected_peers_msg s) (s_target s).
Definition set_expected (n : Z) (s : Session) : Session :=
  MkSession (public_addr s) (remote_addr s) (session_type s) (status s) (handshake_flags s) (remote_sender_addr s) (s_magic s)
    (s_current_epoch s) (s_last_beacon s) (requested_block_hashes s) (requested_blocks s) (blocks_timestamp s)
    (s_config s) n (s_target s).
Definition set_epoch (e : Z) (s : Session) : Session :=
  MkSession (public_addr s) (remote_addr s) (session_type s) (status s) (handshake_flags s) (remote_sender_addr s) (s_magic s)
    e (s_last_beacon s) (requested_block_hashes s) (requested_blocks s) (blocks_timestamp s)
    (s_config s) (expected_peers_msg s) (s_target s).

(** ** Effects *)

Inductive Effect :=
  | SendMessage (m : Message)
  | TellPeers (e : PeersEvent)
  (** to the sessions manager *)
  | RegisterSession
  | UnregisterSession (st : SessionStatus)
  | Consolidate (potential_new_peer : option SocketAddr)
  | PeerBeacon (b : LastBeacon)
  (** to the chain manager *)
  | AddBlocks (blocks : list Block) (sender : option SocketAddr)
  | AddCandidates (blocks : list Block)
  | AddTransaction (t : Transaction)
  | AddSuperBlock (s : SuperBlock)
  | AddSuperBlockVote (v : SuperBlockVote)
  | GetHighestCheckpointBeacon (received : LastBeacon)
  | GetBlocksEpochRange (first last : Z)
  | GetSuperBlockVotes
  (** to the inventory manager and the peers manager, with a reply *)
  | GetItems (inventory : list InventoryEntry)
  | RequestPeers
  | Stop.

Definition remove_and_ice_peer (s : Session) : Effect :=
  TellPeers (RemoveAddressesFromTried [remote_addr s] true).

(** ** The handshake *)

Inductive HandshakeError :=
  | PeerBeaconOld (current_beacon received_beacon : CheckpointBeacon)
  | PeerBeaconDifferentBlockHash (current_beacon received_beacon : CheckpointBeacon)
  | DifferentEpoch (epoch : Z) (received_beacon : LastBeacon)
  | DifferentTimestamp (current_ts timestamp_diff : Z).

Definition check_beacon_compatibility (current_beacon received_beacon : LastBeacon) (epoch : Z)
    (target_superblock_beacon : option CheckpointBeacon) : result HandshakeError unit :=
  if decide (epoch < checkpoint (highest_block_checkpoint received_beacon))
  then Err (DifferentEpoch epoch received_beacon)
  else
    let my_beacon := default (highest_superblock_checkpoint current_beacon) target_superblock_beacon in
    let theirs := highest_superblock_checkpoint received_beacon in
    match checkpoint my_beacon ?= checkpoint theirs with
    | Lt => Ok tt
    | Gt => Err (PeerBeaconOld my_beacon theirs)
    | Eq => if decide (hash_prev_block my_beacon = hash_prev_block theirs) then Ok tt
            else Err (PeerBeaconDifferentBlockHash my_beacon theirs)
    end.

Definition check_timestamp_drift (current_ts received_ts max_ts_diff : Z) : result HandshakeError unit :=
  if decide (max_ts_diff = 0) then Ok tt
  else if decide (sat_sub_i64 current_ts max_ts_diff ≤ received_ts ≤ sat_add_i64 current_ts max_ts_diff) then Ok tt
  else Err (DifferentTimestamp current_ts (sat_sub_i64 received_ts current_ts)).

(** [handshake_version]; [get_timestamp] is read by the builder of the answer. *)
Definition handshake_version (s : Session) (v : Version) (current_ts get_timestamp : Z)
    : result HandshakeError (Session * list Message) :=
  let? _ := check_timestamp_drift current_ts (v_timestamp v) (handshake_max_ts_diff (s_config s)) in
  let? _ := match session_type s with
            | Outbound | Feeler =>
              check_beacon_compatibility (s_last_beacon s) (v_beacon v) (s_current_epoch s) (s_target s)
            | Inbound => Ok tt
            end in
  let f := handshake_flags s in
  let verack := if verack_tx f then [] else [build_verack (s_magic s)] in
  let version := if version_tx f then []
                 else [build_version (s_magic s) (public_addr s) (remote_addr s) (s_last_beacon s) get_timestamp] in
  Ok (set_handshake (MkFlags true true true (verack_rx f)) (Some (from_address (sender_address v))) s, verack ++ version).

Definition handshake_verack (s : Session) : Session :=
  let f := handshake_flags s in
  set_handshake (MkFlags (version_tx f) (version_rx f) (verack_tx f) true) (remote_sender_addr s) s.

(** [update_consolidate] and [try_consolidate_session]. *)
Definition update_consolidate (s : Session) : list Effect :=
  if decide (session_type s = Feeler) then [TellPeers (AddConsolidatedPeer (remote_addr s)); Stop]
  else [Consolidate (if decide (session_type s = Inbound) then remote_sender_addr s else None)].
Definition try_consolidate_session (s : Session) : list Effect :=
  if all_true (handshake_flags s) then update_consolidate s else [].

(** The reply of the sessions manager to [Consolidate]. *)
Definition consolidate_reply (ok : bool) (s : Session) : Session * list Effect :=
  if ok then (set_status Consolidated s, []) else (s, [remove_and_ice_peer s; Stop]).

(** The branch of the event loop for a version message. *)
Definition receive_version (v : Version) (current_ts get_timestamp : Z) (s : Session) : Session * list Effect :=
  match handshake_version s v current_ts get_timestamp with
  | Ok (s, msgs) => (s, (SendMessage <$> msgs) ++ try_consolidate_session s)
  | Err err =>
    let ice := match err with
               | DifferentTimestamp _ _ | DifferentEpoch _ _ => true
               | _ => bool_decide (session_type s ≠ Inbound) && bool_decide (s_current_epoch s mod 10 ≠ 0)
               end in
    (s, (if ice then [remove_and_ice_peer s] else []) ++ [Stop])
  | Panic => (s, [])
  end.

(** ** Start, stop and timeouts *)

(** [started]: a feeler talks to its peer at once, other sessions are registered first. *)
Definition started (get_timestamp : Z) (s : Session) : Session * list Effect :=
  let f := handshake_flags s in
  if decide (session_type s = Feeler) then
    (set_handshake (MkFlags true (version_rx f) (verack_tx f) (verack_rx f)) (remote_sender_addr s) s,
     [SendMessage (build_version (s_magic s) (public_addr s) (remote_addr s) (s_last_beacon s) get_timestamp)])
  else (s, [RegisterSession]).
Definition register_reply (ok : bool) (get_timestamp : Z) (s : Session) : Session * list Effect :=
  let f := handshake_flags s in
  if ok then
    if decide (session_type s = Outbound) then
      (set_handshake (MkFlags true (version_rx f) (verack_tx f) (verack_rx f)) (remote_sender_addr s) s,
       [SendMessage (build_version (s_magic s) (public_addr s) (remote_addr s) (s_last_beacon s) get_timestamp)])
    else (s, [])
  else (s, [Stop]).
Definition handshake_timeout (s : Session) : list Effect :=
  if decide (status s ≠ Consolidated)
  then (if decide (session_type s = Outbound) then [remove_and_ice_peer s] else []) ++ [Stop]
  else [].
Definition stopping (s : Session) : list Effect :=
  UnregisterSession (status s) :: if decide (blocks_timestamp s ≠ 0) then [AddBlocks [] None] else [].
(** [Handler<EpochNotification<EveryEpochPayload>>]. *)
Definition session_epoch (checkpoint current_timestamp : Z) (s : Session) : Session * list Effect :=
  let s := set_epoch checkpoint s in
  (s, if bool_decide (blocks_timestamp s ≠ 0)
         && bool_decide (blocks_timeout (s_config s) < wrap_i64 (current_timestamp - blocks_timestamp s))
      then [remove_and_ice_peer s; AddBlocks [] None; Stop] else []).

(** ** Discovery of peers *)

(** [Handler<SendGetPeers>]: the counter is a [u8]. *)
Definition send_get_peers (s : Session) : Session * list Effect :=
  (set_expected (sat_add 256 (expected_peers_msg s) 1) s, [SendMessage (build_get_peers (s_magic s))]).
Definition peer_discovery_get_peers (s : Session) : list Effect := [RequestPeers].
Definition get_peers_reply (addresses : option (list SocketAddr)) (s : Session) : list Effect :=
  match addresses with
  | Some l => [SendMessage (build_peers (s_magic s) l)]
  | None => [Stop]
  end.
Definition peer_discovery_peers (addrs : list Address) (src_address : SocketAddr) (s : Session) : Session * list Effect :=
  if decide (0 < expected_peers_msg s)
  then (set_expected (expected_peers_msg s - 1) s, [TellPeers (AddPeers (from_address <$> addrs) (Some src_address))])
  else (s, [TellPeers (RemoveAddressesFromTried [src_address] true); Stop]).

(** ** Download of blocks *)

Section Blocks.
(** The protocol in force and the hash of a block under a version of the protocol. *)
Context (pinfo : ProtocolInfo) (versioned_hash : ProtocolVersion → Block → Hash).

(** The hash of a received block among the requested ones. *)
Definition requested_hash (b : Block) (s : Session) : option Hash :=
  let current_protocol := get_protocol_version pinfo (Some (checkpoint (beacon (block_header b)))) in
  let current_block_hash := versioned_hash current_protocol b in
  if decide (current_block_hash ∈ requested_block_hashes s) then Some current_block_hash
  else
    let upcoming_protocol := version_next current_protocol in
    if version_lt current_protocol upcoming_protocol then
      let upcoming_block_hash := versioned_hash upcoming_protocol b in
      if decide (upcoming_block_hash ∈ requested_block_hashes s) then Some upcoming_block_hash else None
    else None.

(** [drain(..).map_while(|hash| requested_blocks.remove(&hash))]. *)
Fixpoint drain_blocks (hashes : list Hash) (blocks : gmap Hash Block) : list Block :=
  match hashes with
  | [] => []
  | h :: rest =>
    match blocks !! h with
    | Some b => b :: drain_blocks rest (delete h blocks)
    | None => []
    end
  end.

Definition inventory_process_block (b : Block) (s : Session) : Session * list Effect :=
  match requested_hash b s with
  | Some block_hash =>
    let blocks := <[block_hash := b]> (requested_blocks s) in
    if decide (size blocks = length (requested_block_hashes s)) then
      let blocks_vector := drain_blocks (requested_block_hashes s) blocks in
      (set_requested [] ∅ 0 s, [AddBlocks blocks_vector (Some (remote_addr s))])
    else (set_requested (requested_block_hashes s) blocks (blocks_timestamp s) s, [])
  | None => (s, [AddCandidates [b]])
  end.
End Blocks.

(** Collecting into an [IndexSet] keeps the first occurrence of each hash. *)
Definition index_set (l : list Hash) : list Hash :=
  foldl (λ acc h, if decide (h ∈ acc) then acc else acc ++ [h]) [] l.

(** The hashes of the blocks of an inventory. *)
Definition block_entries (inv : list InventoryEntry) : list Hash :=
  omap (λ e, match e with EntryBlock h => Some h | _ => None end) inv.

(** The limit of a batch; [None] is [usize::MAX]. *)
Definition batch_limit (cfg : SessionConfig) : option Z :=
  if decide (requested_blocks_batch_limit cfg = 0) then None
  else Some (Z.max (requested_blocks_batch_limit cfg) (2 * cfg_superblock_period cfg)).

Definition inventory_process_inv (inv : list InventoryEntry) (get_timestamp : Z) (s : Session) : Session * list Effect :=
  let hashes := block_entries inv in
  let hashes := index_set (match batch_limit (s_config s) with Some l => take (Z.to_nat l) hashes | None => hashes end) in
  (set_requested hashes ∅ get_timestamp s,
   match build_inventory_request (s_magic s) (EntryBlock <$> hashes) with
   | Some m => [SendMessage m]
   | None => []
   end).

(** ** Serving other peers *)

Definition send_inventory_item_msg (s : Session) (item : InventoryItem) : Effect :=
  SendMessage (match item with
               | ItemBlock b => build_block (s_magic s) b
               | ItemTransaction t => build_transaction (s_magic s) t
               | ItemSuperBlock sb => build_superblock (s_magic s) sb
               end).

(** The replies of the inventory manager, up to the first error; the votes are asked for
    when the last block of the chain was sent. *)
Fixpoint send_items (items : list (option InventoryItem)) (send_superblock_votes : bool) (s : Session) : list Effect * bool :=
  match items with
  | Some item :: rest =>
    let votes := match item with
                 | ItemBlock b => bool_decide (checkpoint (beacon (block_header b))
                                               = checkpoint (highest_block_checkpoint (s_last_beacon s)))
                 | _ => false
                 end in
    let '(l, v) := send_items rest (send_superblock_votes || votes) s in
    (send_inventory_item_msg s item :: l, v)
  | None :: _ | [] => ([], send_superblock_votes)
  end.
Definition inventory_reply (items : list (option InventoryItem)) (s : Session) : list Effect :=
  let '(l, votes) := send_items items false s in
  l ++ if votes then [GetSuperBlockVotes] else [].
Definition votes_reply (votes : list SuperBlockVote) (s : Session) : list Effect :=
  (λ v, SendMessage (build_superblock_vote (s_magic s) v)) <$> votes.

(** [session_last_beacon_inbound], split at the replies of the chain manager. *)
Definition highest_beacon_reply (received : LastBeacon) (chain_beacon : option CheckpointBeacon) (s : Session) : list Effect :=
  match chain_beacon with
  | Some b =>
    let received_checkpoint := checkpoint (highest_block_checkpoint received) in
    match received_checkpoint ?= checkpoint b with
    | Lt => [GetBlocksEpochRange (wadd U32 received_checkpoint 1) (checkpoint b)]
    | _ => []
    end
  | None => [Stop]
  end.
Definition epoch_range_reply (blocks : option (list (Z * Hash))) (s : Session) : list Effect :=
  match blocks with
  | Some l =>
    match build_inventory_announcement (s_magic s) ((λ p, EntryBlock p.2) <$> l) with
    | Some m => [SendMessage m]
    | None => []
    end
  | None => []
  end.

(** ** The event loop *)

Section Loop.
Context (pinfo : ProtocolInfo) (versioned_hash : ProtocolVersion → Block → Hash).

(** The handler of a frame; [None] is a frame that does not decode.  The clock is read
    once for the checks and once for an answer. *)
Definition handle_message (msg : option Message) (current_ts get_timestamp : Z) (s : Session) : Session * list Effect :=
  match msg with
  | None => (s, [remove_and_ice_peer s; Stop])
  | Some msg =>
    if decide (msg_magic msg ≠ s_magic s) then (s, [remove_and_ice_peer s; Stop])
    else
      match status s, kind msg with
      | Unconsolidated, VersionCmd v => receive_version v current_ts get_timestamp s
      | Unconsolidated, Verack => let s := handshake_verack s in (s, try_consolidate_session s)
      | Consolidated, GetPeers => (s, peer_discovery_get_peers s)
      | Consolidated, PeersCmd addrs => peer_discovery_peers addrs (remote_addr s) s
      | Consolidated, InventoryRequest inventory => (s, [GetItems inventory])
      | Consolidated, TransactionCmd t => (s, [AddTransaction t])
      | Consolidated, BlockCmd b => inventory_process_block pinfo versioned_hash b s
      | Consolidated, SuperBlockCmd sb => (s, [AddSuperBlock sb])
      | Consolidated, LastBeaconCmd b =>
        match session_type s with
        | Inbound => (s, [GetHighestCheckpointBeacon b])
        | Outbound => (s, [PeerBeacon b])
        | Feeler => (s, [])
        end
      | Consolidated, InventoryAnnouncement inv => inventory_process_inv inv get_timestamp s
      | Consolidated, SuperBlockVoteCmd v => (s, [AddSuperBlockVote v])
      | _, _ => (s, [])
      end
  end.
End Loop.

(** ** The actor as a transition system *)

Inductive SessionEvent :=
  | Receive (msg : option Message) (current_ts get_timestamp : Z)
  | ConsolidateReply (ok : bool)
  | EpochTick (checkpoint current_timestamp : Z)
  | AskPeers.

Section Step.
Context (pinfo : ProtocolInfo) (versioned_hash : ProtocolVersion → Block → Hash).

Definition session_step (e : SessionEvent) (s : Session) : Session * list Effect :=
  match e with
  | Receive msg t t' => handle_message pinfo versioned_hash msg t t' s
  | ConsolidateReply ok => consolidate_reply ok s
  | EpochTick c t => session_epoch c t s
  | AskPeers => send_get_peers s
  end.

Fixpoint session_run (l : list SessionEvent) (s : Session) : Session * list Effect :=
  match l with
  | [] => (s, [])
  | e :: l =>
    let '(s, es) := session_step e s in
    let '(s, es') := session_run l s in
    (s, es ++ es')
  end.
End Step.
