(* ===== verification/PeersCorrect.v ===== *)
(** * Correctness of the known peers

    The buckets keep every address where its hash says, without the addresses that are
    never peers, over any run of the peers manager; what has been iced is left alone for the
    ice period; random peers are as many as asked for.  [Choosing] states what the
    crate rand documents of [choose_multiple] and [gen_range]. *)

From stdpp Require Import base tactics numbers list gmap.
From Stdlib Require Import ZArith Lia.
From S2P Require Import Prelude Hashes Epoch Peers Sessions PeersManager.
Local Open Scope Z_scope.

(** ** Ranges of addresses *)

Lemma get_range_address_v4 ip port range :
  0 < range ≤ 32 → length ip = 4%nat → Forall (fits 256) ip →
  get_range_address (V4 ip port) range = to_be_bytes 4 (from_big_endian ip / 2 ^ (32 - range) * 2 ^ (32 - range)).
Proof.
  intros Hr Hl Hb. unfold get_range_address, sat_sub. rewrite decide_False by lia.
  rewrite Z.max_r by lia. pose proof (from_big_endian_bound ip Hb) as Hx. rewrite Hl in Hx.
  rewrite Z.shiftr_div_pow2, Z.shiftl_mul_pow2 by lia. f_equal. apply Z.mod_small.
  assert (0 < 2 ^ (32 - range)) by (apply Z.pow_pos_nonneg; lia).
  assert (0 ≤ from_big_endian ip / 2 ^ (32 - range)) by (apply Z.div_pos; lia).
  pose proof (Z.mul_div_le (from_big_endian ip) (2 ^ (32 - range)) ltac:(done)).
  change (256 ^ Z.of_nat 4) with (2 ^ 32) in Hx. unfold U32. nia.
Qed.

(** Two IPv4 addresses are in the same range exactly if their first [range] bits agree. *)
Theorem same_range_iff ip port ip' port' range :
  0 < range ≤ 32 → length ip = 4%nat → Forall (fits 256) ip → length ip' = 4%nat → Forall (fits 256) ip' →
  get_range_address (V4 ip port) range = get_range_address (V4 ip' port') range ↔
  Z.shiftr (from_big_endian ip) (32 - range) = Z.shiftr (from_big_endian ip') (32 - range).
Proof.
  intros Hr Hl Hb Hl' Hb'. rewrite !get_range_address_v4 by done. rewrite !Z.shiftr_div_pow2 by lia.
  pose proof (from_big_endian_bound ip Hb) as Hx. pose proof (from_big_endian_bound ip' Hb') as Hx'.
  rewrite Hl in Hx. rewrite Hl' in Hx'.
  assert (0 < 2 ^ (32 - range)) by (apply Z.pow_pos_nonneg; lia).
  assert (∀ x, 0 ≤ x < 256 ^ Z.of_nat 4 → 0 ≤ x / 2 ^ (32 - range) * 2 ^ (32 - range) < 256 ^ Z.of_nat 4) as Hdiv.
  { intros x Hx0. pose proof (Z.mul_div_le x (2 ^ (32 - range)) ltac:(done)).
    assert (0 ≤ x / 2 ^ (32 - range)) by (apply Z.div_pos; lia). nia. }
  split; [|by intros ->]. intros Heq%to_be_bytes_inj; [|by apply Hdiv..].
  by apply Z.mul_cancel_r in Heq; [|lia].
Qed.

(** ** Indexes *)

Section Correct.
Context (calculate_sha256 : list Z → list Z).
Local Abbreviation tried_index := (tried_bucket_index calculate_sha256).
Local Abbreviation new_index := (new_bucket_index calculate_sha256).
Local Abbreviation add_to_new := (add_to_new calculate_sha256).
Local Abbreviation add_to_tried := (add_to_tried calculate_sha256).
Local Abbreviation remove_from_tried := (remove_from_tried calculate_sha256).
Local Abbreviation peers_step := (peers_step calculate_sha256).

Lemma bucket_slot_index b s n m :
  0 < n → 0 < m ≤ 64 → n * 64 ≤ U16 → wadd U16 (wmul U16 (b mod n) 64) (s mod m) = b mod n * 64 + s mod m.
Proof.
  intros Hn Hm Hmax. pose proof (Z.mod_pos_bound b n ltac:(lia)). pose proof (Z.mod_pos_bound s m ltac:(lia)).
  rewrite wmul_small by machine. apply wadd_small. machine.
Qed.

Lemma tried_index_bound a p : 0 ≤ tried_index a p < 4096.
Proof.
  unfold tried_bucket_index, calculate_index_for_tried. destruct (split_socket_addresses a) as [[ip g] h].
  rewrite bucket_slot_index by (unfold_moduli; lia).
  match goal with |- context [?x mod 64 * 64 + ?y mod 64] =>
    pose proof (Z.mod_pos_bound x 64 ltac:(lia)); pose proof (Z.mod_pos_bound y 64 ltac:(lia)) end. lia.
Qed.

Lemma new_index_bound a src p : 0 ≤ new_index a src p < 16384.
Proof.
  unfold new_bucket_index, calculate_index_for_new.
  destruct (split_socket_addresses a) as [[ip g] h]. destruct (split_socket_addresses src) as [[ip' g'] h'].
  rewrite bucket_slot_index by (unfold_moduli; lia).
  match goal with |- context [?x mod 256 * 64 + ?y mod 64] =>
    pose proof (Z.mod_pos_bound x 256 ltac:(lia)); pose proof (Z.mod_pos_bound y 64 ltac:(lia)) end. lia.
Qed.

Lemma size_bounded_keys (m : gmap Z PeerInfo) (n : Z) :
  0 ≤ n → (∀ i e, m !! i = Some e → 0 ≤ i < n) → Z.of_nat (size m) ≤ n.
Proof.
  intros Hn Hk. rewrite <-(size_dom (D:=gset Z)).
  assert ((dom m : gset Z) ⊆ list_to_set (seqZ 0 n)) as Hsub.
  { intros i Hi. apply elem_of_dom in Hi as [e He]. apply elem_of_list_to_set, elem_of_seqZ. apply Hk in He. lia. }
  apply subseteq_size in Hsub. rewrite size_list_to_set in Hsub by apply NoDup_seqZ.
  rewrite length_seqZ in Hsub. lia.
Qed.

(** ** The invariant of the buckets *)

Record peers_ok (p : Peers) : Prop := {
  ok_tried : ∀ i e, tried_bucket p !! i = Some e → i = tried_index (address e) p ∧ is_unspecified (address e) = false;
  ok_new : ∀ i e, new_bucket p !! i = Some e →
    (∃ src, i = new_index (address e) src p) ∧ is_unspecified (address e) = false ∧ address e ≠ server_address p;
}.

(** Only the nonce and the server address matter besides the buckets. *)
Lemma tried_index_sk a p q : sk p = sk q → tried_index a p = tried_index a q.
Proof. unfold tried_bucket_index. by intros ->. Qed.
Lemma new_index_sk a src p q : sk p = sk q → new_index a src p = new_index a src q.
Proof. unfold new_bucket_index. by intros ->. Qed.

Lemma peers_ok_ice b p : peers_ok p → peers_ok (set_ice_bucket b p).
Proof. by intros []. Qed.

Lemma peers_ok_bootstrapped b p : peers_ok p → peers_ok (set_bootstrapped b p).
Proof. by intros []. Qed.

Lemma peers_ok_deserialized p : peers_ok p → peers_ok (deserialized p).
Proof. by intros []. Qed.

Lemma peers_ok_new_insert a src ts p :
  is_unspecified a = false → a ≠ server_address p → peers_ok p →
  peers_ok (set_new_bucket (<[new_index a src p := MkPeerInfo a ts]> (new_bucket p)) p).
Proof.
  intros Hu Hs [Ht Hn]. split; [done|]. intros i e. cbn. destruct (decide (i = new_index a src p)) as [->|Hne].
  - rewrite lookup_insert_eq. intros [= <-]. eauto.
  - rewrite lookup_insert_ne by done. apply Hn.
Qed.

Lemma peers_ok_tried_insert a ts p :
  is_unspecified a = false → peers_ok p →
  peers_ok (set_tried_bucket (<[tried_index a p := MkPeerInfo a ts]> (tried_bucket p)) p).
Proof.
  intros Hu [Ht Hn]. split; [|done]. intros i e. cbn. destruct (decide (i = tried_index a p)) as [->|Hne].
  - rewrite lookup_insert_eq. intros [= <-]. eauto.
  - rewrite lookup_insert_ne by done. apply Ht.
Qed.

Lemma peers_ok_new_sub b p : b ⊆ new_bucket p → peers_ok p → peers_ok (set_new_bucket b p).
Proof. intros Hb [Ht Hn]. split; [done|]. intros i e Hi. apply Hn. eapply lookup_weaken; eauto. Qed.

Lemma peers_ok_tried_sub b p : b ⊆ tried_bucket p → peers_ok p → peers_ok (set_tried_bucket b p).
Proof. intros Hb [Ht Hn]. split; [|done]. intros i e Hi. apply Ht. eapply lookup_weaken; eauto. Qed.

(** ** What each operation does to the buckets *)

(** A call of [ice_bucket_contains] only changes the ice bucket, and only there where it
    answers that the address has melted. *)
Lemma ice_contains_inv a now p b p' :
  ice_bucket_contains a now p = Some (b, p') →
  ∃ ice, p' = set_ice_bucket ice p
  ∧ (ice = ice_bucket p ∨ ice = delete a (ice_bucket p) ∧ b = false)
  ∧ (∀ t period, ice_bucket p !! a = Some t → current_ice_period p = Some period → ¬ melted now period t →
       b = true ∧ ice = ice_bucket p).
Proof.
  unfold ice_bucket_contains, ice_bucket_contains_pure. destruct (current_ice_period p) as [period|] eqn:Hp; [|done]. simpl.
  assert (∀ q, set_ice_bucket (ice_bucket q) q = q) as Heta by (by intros []).
  destruct (ice_bucket p !! a) as [t|] eqn:Ht; [|intros [= <- <-]; exists (ice_bucket p); rewrite Heta; naive_solver].
  case_bool_decide as Hm; intros [= <- <-].
  - exists (delete a (ice_bucket p)). split_and!; [done|by right|]. naive_solver.
  - exists (ice_bucket p). rewrite Heta. naive_solver.
Qed.

Lemma add_one_to_new_inv src a t1 t2 p r p' :
  add_one_to_new calculate_sha256 src a t1 t2 p = Some (r, p') →
  (∃ ice, p' = set_ice_bucket ice p ∧ (ice = ice_bucket p ∨ ice = delete a (ice_bucket p)))
  ∨ is_unspecified a = false ∧ a ≠ server_address p ∧ ∃ ice s,
      p' = set_new_bucket (<[new_index a s p := MkPeerInfo a t2]> (new_bucket p)) (set_ice_bucket ice p)
      ∧ (ice = ice_bucket p ∨ ice = delete a (ice_bucket p))
      ∧ (∀ t period, ice_bucket p !! a = Some t → current_ice_period p = Some period → melted t1 period t).
Proof.
  assert (∀ q, set_ice_bucket (ice_bucket q) q = q) as Heta by (by intros []).
  unfold add_one_to_new. destruct (is_unspecified a) eqn:Hu; simpl; [intros [= <- <-]; left; exists (ice_bucket p); rewrite Heta; auto|].
  unfold is_server_address. case_bool_decide as Hs; [intros [= <- <-]; left; exists (ice_bucket p); rewrite Heta; auto|].
  destruct (ice_bucket_contains a t1 p) as [[iced q]|] eqn:Hice; [|done]. simpl.
  apply ice_contains_inv in Hice as (ice & -> & Hd & Hc).
  destruct iced; [intros [= <- <-]; left; exists ice; naive_solver|].
  case_decide; [intros [= <- <-]; left; exists ice; naive_solver|]. intros [= <- <-]. right.
  split_and!; [done..|]. exists ice, (default a src). split_and!; [done|naive_solver|].
  intros t period Ht Hp. destruct (decide (melted t1 period t)) as [|Hm]; [done|]. by destruct (Hc _ _ Ht Hp Hm).
Qed.

Lemma add_one_to_new_ok src a t1 t2 p r p' :
  add_one_to_new calculate_sha256 src a t1 t2 p = Some (r, p') → peers_ok p → peers_ok p'.
Proof.
  intros [(ice & -> & _)|(Hu & Hs & ice & s & -> & _)]%add_one_to_new_inv Hok; [by apply peers_ok_ice|].
  by apply (peers_ok_new_insert a s t2 (set_ice_bucket ice p)), peers_ok_ice.
Qed.

Lemma add_to_new_ok_from k now addrs src p r p' :
  add_to_new_from calculate_sha256 k now addrs src p = Some (r, p') → peers_ok p → peers_ok p'.
Proof.
  revert k p r p'. induction addrs as [|a l IH]; intros k p r p'; simpl; [by intros [= _ <-]|].
  destruct (add_one_to_new _ _ _ _ _ _) as [[old q]|] eqn:H1; [simpl|done].
  destruct (add_to_new_from _ _ _ _ _ q) as [[olds q']|] eqn:H2; [simpl|done]. intros [= _ <-] Hok.
  eapply IH; [exact H2|]. by eapply add_one_to_new_ok.
Qed.

Lemma add_to_new_ok now addrs src p r p' : add_to_new now addrs src p = Some (r, p') → peers_ok p → peers_ok p'.
Proof. apply add_to_new_ok_from. Qed.

Lemma add_to_tried_inv a now p r p' :
  add_to_tried a now p = Some (r, p') →
  (∃ ice, p' = set_ice_bucket ice p ∧ (ice = ice_bucket p ∨ ice = delete a (ice_bucket p)))
  ∨ is_unspecified a = false ∧ ∃ ice,
      p' = set_tried_bucket (<[tried_index a p := MkPeerInfo a (now 1%nat)]> (tried_bucket p)) (set_ice_bucket ice p)
      ∧ (ice = ice_bucket p ∨ ice = delete a (ice_bucket p))
      ∧ (∀ t period, ice_bucket p !! a = Some t → current_ice_period p = Some period → melted (now 0%nat) period t).
Proof.
  assert (∀ q, set_ice_bucket (ice_bucket q) q = q) as Heta by (by intros []).
  unfold Peers.add_to_tried. destruct (is_unspecified a) eqn:Hu; [intros [= <- <-]; left; exists (ice_bucket p); rewrite Heta; auto|].
  destruct (ice_bucket_contains a (now 0%nat) p) as [[iced q]|] eqn:Hice; [|done]. simpl.
  apply ice_contains_inv in Hice as (ice & -> & Hd & Hc).
  destruct iced; [intros [= <- <-]; left; exists ice; naive_solver|]. intros [= <- <-]. right.
  split; [done|]. exists ice. split_and!; [done|naive_solver|].
  intros t period Ht Hp. destruct (decide (melted (now 0%nat) period t)) as [|Hm]; [done|]. by destruct (Hc _ _ Ht Hp Hm).
Qed.

Lemma add_to_tried_ok a now p r p' : add_to_tried a now p = Some (r, p') → peers_ok p → peers_ok p'.
Proof.
  intros [(ice & -> & _)|(Hu & ice & -> & _)]%add_to_tried_inv Hok; [by apply peers_ok_ice|].
  by apply (peers_ok_tried_insert a _ (set_ice_bucket ice p)), peers_ok_ice.
Qed.

Lemma remove_one_from_tried_inv a ice now p r p' :
  remove_one_from_tried calculate_sha256 a ice now p = (r, p') →
  ∃ tried, tried ⊆ tried_bucket p
  ∧ p' = set_tried_bucket tried (if ice then set_ice_bucket (<[a := now]> (ice_bucket p)) p else p)
  ∧ (peers_ok p → ∀ i e, tried !! i = Some e → address e ≠ a).
Proof.
  assert (∀ q, set_tried_bucket (tried_bucket q) q = q) as Heta by (by intros []).
  unfold remove_one_from_tried, ice_peer_address, ice_peer_address_pure. simpl.
  set (q := if ice then set_ice_bucket (<[a:=now]> (ice_bucket p)) p else p).
  assert (tried_bucket q = tried_bucket p ∧ sk q = sk p) as [Hq Hsk] by (unfold q; by destruct ice).
  rewrite Hq. clearbody q. rewrite (tried_index_sk a q p Hsk). case_decide as Hd; intros [= <- <-].
  - exists (delete (tried_index a p) (tried_bucket p)). split_and!; [apply delete_subseteq|done|].
    intros [Ht _] i e Hi <-. destruct (decide (i = tried_index (address e) p)) as [->|Hne].
    + by rewrite lookup_delete_eq in Hi.
    + rewrite lookup_delete_ne in Hi by done. by apply Ht in Hi as [? _].
  - exists (tried_bucket p). split_and!; [done|by rewrite <-Hq, Heta|].
    intros [Ht _] i e Hi <-. destruct (Ht _ _ Hi) as [-> _]. by rewrite Hi in Hd.
Qed.

Lemma remove_from_tried_ok_from k now addrs ice p :
  peers_ok p → peers_ok (remove_from_tried_from calculate_sha256 k now addrs ice p).2.
Proof.
  revert k p. induction addrs as [|a l IH]; intros k p Hok; [done|]. simpl.
  destruct (remove_one_from_tried _ _ _ _ _) as [r q] eqn:H1.
  apply remove_one_from_tried_inv in H1 as (tried & Hsub & -> & _).
  destruct (remove_from_tried_from _ _ _ _ _ _) as [olds q'] eqn:H2. simpl. change q' with (olds, q').2. rewrite <-H2. apply IH.
  destruct ice; apply peers_ok_tried_sub; eauto using peers_ok_ice.
Qed.

Lemma remove_from_tried_ok now addrs ice p : peers_ok p → peers_ok (remove_from_tried now addrs ice p).2.
Proof. apply remove_from_tried_ok_from. Qed.

Lemma remove_from_new_sub indexes p :
  ∃ new, new ⊆ new_bucket p ∧ (remove_from_new_with_index indexes p).2 = set_new_bucket new p.
Proof.
  revert p. induction indexes as [|i l IH]; intros p; simpl; [exists (new_bucket p); split; [done|by destruct p]|].
  destruct (IH (set_new_bucket (delete i (new_bucket p)) p)) as (new & Hsub & Heq).
  destruct (remove_from_new_with_index l _) as [olds q]. simpl in *. subst q. exists new. split; [|done].
  etrans; [exact Hsub|]. apply delete_subseteq.
Qed.

Lemma try_peer_ok now a m m' out :
  try_peer calculate_sha256 now a m = Some (m', out) → peers_ok (peers m) → peers_ok (peers m').
Proof.
  unfold try_peer. case_match; [case_decide|]; [|by intros [= <- _]..].
  destruct (tried_bucket_get_address _ _); simpl; [|done]. intros [= <- _] Hok. by apply remove_from_tried_ok.
Qed.

Lemma clear_ok p : peers_ok (clear_ice_bucket (clear_new_bucket (clear_tried_bucket p))).
Proof. by split. Qed.

#[local] Hint Resolve peers_ok_ice peers_ok_bootstrapped peers_ok_deserialized add_to_new_ok add_to_tried_ok
  remove_from_tried_ok try_peer_ok clear_ok : core.

(** The stored peers that an event brings in are those of an earlier run. *)
Definition stored_ok (e : PeersEvent) : Prop := match e with ImportPeers stored _ => peers_ok stored | _ => True end.

Lemma peers_step_ok now e m m' out :
  peers_step now e m = Some (m', out) → stored_ok e → peers_ok (peers m) → peers_ok (peers m').
Proof.
  intros Hstep He Hok. destruct e; simpl in Hstep.
  - unfold handle_add_peers in Hstep. destruct (Peers.add_to_new _ _ _ _ _) as [[r p]|] eqn:Ha; [|done].
    injection Hstep as <- <-. simpl. eapply add_to_new_ok; [done|]. case_decide; [|done].
    unfold remove_many_from_ice. clear Ha. revert Hok. generalize (peers m). induction addresses as [|x l IH]; intros q Hq; [done|].
    by apply IH, peers_ok_ice.
  - injection Hstep as <- <-. simpl. eauto.
  - unfold handle_initialize_peers in Hstep. destruct (Peers.add_to_new _ _ _ _ _) as [[r p]|] eqn:Ha; [|done].
    injection Hstep as <- <-. simpl. eauto.
  - unfold handle_add_consolidated_peer in Hstep.
    assert (∀ r p, add_to_tried addr (now ∘ S) (peers m) = Some (r, p) → peers_ok p) by eauto.
    case_match; [case_decide|]; [by injection Hstep as <- <-| |];
      (destruct (Peers.add_to_tried _ _ _ _) as [[r p]|] eqn:Ha; [|done]); injection Hstep as <- <-; simpl; eauto.
  - injection Hstep as <- <-. unfold handle_remove_addresses_from_tried.
    destruct (Peers.remove_from_tried _ _ _ _ _) as [r p] eqn:Hr. simpl. change p with (r, p).2. rewrite <-Hr. auto.
  - injection Hstep as <- <-. simpl. auto.
  - unfold feeler in Hstep. destruct (get_new_random_peer _ _) as [[key peer]|]; [|by injection Hstep as <- <-].
    eapply try_peer_ok; [done|]. destruct (remove_from_new_sub [key] (peers m)) as (new & Hsub & Heq).
    cbn [peers set_peers]. rewrite Heq. by apply peers_ok_new_sub.
  - unfold melt_peers in Hstep. destruct (extract_melted_peers_from_ice_bucket _ _) as [[l p]|] eqn:Hx; [|done]. simpl in Hstep.
    assert (peers_ok p) as Hp.
    { unfold extract_melted_peers_from_ice_bucket in Hx. destruct (current_ice_period _); [|done].
      injection Hx as _ <-. auto. }
    destruct l; [by injection Hstep as <- <-|].
    destruct (Peers.add_to_new _ _ _ _ _) as [[r q]|] eqn:Ha; [|done]. injection Hstep as <- <-. simpl. eauto.
  - unfold import_peers in Hstep. destruct (Peers.add_to_new _ _ _ _ _) as [[r p]|] eqn:Ha; [|done].
    injection Hstep as <- <-. simpl. eauto.
Qed.

(** ** Runs of the peers manager *)

(** The states of a peers manager; what it imports was stored by a run. *)
Inductive reachable : PeersManager → Prop :=
  | reach_config ice server update melt magic nonce :
      reachable (manager_from_config ice server update melt magic nonce)
  | reach_step now e m m' out :
      reachable m → stored_by_run e → peers_step now e m = Some (m', out) → reachable m'
with stored_by_run : PeersEvent → Prop :=
  | stored_import m known : reachable m → stored_by_run (ImportPeers (peers m) known)
  | stored_none e : (∀ stored known, e ≠ ImportPeers stored known) → stored_by_run e.

Scheme reachable_mut := Induction for reachable Sort Prop
  with stored_mut := Induction for stored_by_run Sort Prop.

Lemma reachable_ok m : reachable m → peers_ok (peers m).
Proof.
  intros H. induction H using reachable_mut with (P0 := λ e _, stored_ok e).
  - by split.
  - eauto using peers_step_ok.
  - done.
  - destruct e; try done. by destruct (n stored known_peers).
Qed.

(** An address is at most once among the tried ones. *)
Lemma tried_NoDup p : peers_ok p → NoDup (get_all_from_tried p).
Proof.
  intros [Ht _]. unfold get_all_from_tried, bucket_addresses. apply NoDup_fmap_2_strong; [|apply NoDup_map_to_list].
  intros [i e] [j e'] Hi%elem_of_map_to_list Hj%elem_of_map_to_list Heq. simpl in Heq.
  destruct (Ht _ _ Hi) as [Hi' _]. destruct (Ht _ _ Hj) as [Hj' _]. rewrite Heq in Hi'. subst. congruence.
Qed.

(** C36. In every state of the peers manager, restarts included, no address is tried
    twice, the buckets are within their 4096 and 16384 slots, no unspecified address is
    known and the node does not know itself as a new peer. *)
Theorem reachable_buckets m :
  reachable m →
  NoDup (get_all_from_tried (peers m))
  ∧ Z.of_nat (size (tried_bucket (peers m))) ≤ 4096 ∧ Z.of_nat (size (new_bucket (peers m))) ≤ 16384
  ∧ (∀ a, a ∈ get_all_from_new (peers m) ∨ a ∈ get_all_from_tried (peers m) → is_unspecified a = false)
  ∧ server_address (peers m) ∉ get_all_from_new (peers m).
Proof.
  intros Hok%reachable_ok. split; [by apply tried_NoDup|]. destruct Hok as [Ht Hn]. split_and!.
  - apply size_bounded_keys; [lia|]. intros i e [-> _]%Ht. apply tried_index_bound.
  - apply size_bounded_keys; [lia|]. intros i e [[src ->] _]%Hn. apply new_index_bound.
  - intros a [Ha|Ha]; apply list_elem_of_fmap in Ha as ([i e] & -> & Hi%elem_of_map_to_list);
      [by apply Hn in Hi as (_ & ? & _)|by apply Ht in Hi as [_ ?]].
  - intros Ha. apply list_elem_of_fmap in Ha as ([i e] & Heq & Hi%elem_of_map_to_list). apply Hn in Hi as (_ & _ & Hne). by apply Hne.
Qed.

(** ** Events do not panic *)

(** An ice period below [2^63] seconds. *)
Definition period_fits (p : Peers) : Prop := ice_period p ≤ I64_MAX.

Lemma current_ice_period_total p : period_fits p → ∃ d, current_ice_period p = Some d.
Proof. unfold current_ice_period, period_fits. intros H. destruct (bootstrapped p); [rewrite decide_True by done|]; eauto. Qed.

Lemma ice_contains_total a now p : period_fits p → ∃ b p', ice_bucket_contains a now p = Some (b, p') ∧ period_fits p'.
Proof.
  intros H. destruct (current_ice_period_total p H) as [d Hd].
  unfold ice_bucket_contains, ice_bucket_contains_pure. rewrite Hd. simpl.
  destruct (ice_bucket p !! a); [case_bool_decide|]; eauto.
Qed.

Lemma add_to_new_total k now addrs src p :
  period_fits p → ∃ r p', add_to_new_from calculate_sha256 k now addrs src p = Some (r, p') ∧ period_fits p'.
Proof.
  revert k p. induction addrs as [|a l IH]; intros k p H; simpl; [eauto|].
  assert (∃ r q, add_one_to_new calculate_sha256 src a (now (2 * k)%nat) (now (2 * k + 1)%nat) p = Some (r, q) ∧ period_fits q)
    as (r & q & Hq & Hf).
  { unfold add_one_to_new. destruct (is_unspecified a || is_server_address a p); [eauto|].
    destruct (ice_contains_total a (now (2 * k)%nat) p H) as (b & q & -> & Hf). simpl. destruct b; [eauto|]. case_decide; eauto. }
  unfold mbind, option_bind in *. cbn [Nat.mul] in *. rewrite Hq. simpl. destruct (IH (S k) q Hf) as (rs & p' & -> & ?). eauto.
Qed.

Lemma add_to_tried_total a now p : period_fits p → ∃ r p', add_to_tried a now p = Some (r, p') ∧ period_fits p'.
Proof.
  intros H. unfold Peers.add_to_tried. destruct (is_unspecified a); [eauto|].
  destruct (ice_contains_total a (now 0%nat) p H) as (b & q & -> & Hf). simpl. destruct b; eauto.
Qed.

Lemma remove_many_period addrs p : ice_period (remove_many_from_ice addrs p) = ice_period p.
Proof. unfold remove_many_from_ice. revert p. induction addrs as [|a l IH]; intros p; [done|]. simpl. by rewrite IH. Qed.

Lemma try_peer_total now a m : ∃ r, try_peer calculate_sha256 now a m = Some r.
Proof.
  unfold try_peer, tried_bucket_get_timestamp, tried_bucket_get_address.
  destruct (tried_bucket (peers m) !! _); simpl; [case_decide|]; eauto.
Qed.

(** No event makes the peers manager panic, if the configured ice period fits an [i64]. *)
Theorem peers_step_total now e m : period_fits (peers m) → ∃ m' out, peers_step now e m = Some (m', out).
Proof.
  intros H. destruct e; simpl.
  - unfold handle_add_peers. set (p := if decide _ then _ else _).
    destruct (add_to_new_total 0 now addresses src_address p) as (r & q & Hq & _).
    { unfold p, period_fits. case_decide; [by rewrite remove_many_period|done]. }
    unfold Peers.add_to_new. rewrite Hq. simpl. eauto.
  - eauto.
  - unfold handle_initialize_peers, Peers.add_to_new.
    destruct (add_to_new_total 0 now known_peers None (clear_ice_bucket (clear_new_bucket (clear_tried_bucket (peers m)))) H)
      as (r & q & -> & _). simpl. eauto.
  - unfold handle_add_consolidated_peer. destruct (add_to_tried_total addr (now ∘ S) (peers m) H) as (r & q & -> & _).
    case_match; [case_decide|]; simpl; eauto.
  - eauto.
  - eauto.
  - unfold feeler. destruct (get_new_random_peer _ _) as [[key peer]|]; [|eauto].
    destruct (try_peer_total now peer (set_peers (remove_from_new_with_index [key] (peers m)).2 m)) as [[m' out] ->]. eauto.
  - unfold melt_peers, extract_melted_peers_from_ice_bucket. destruct (current_ice_period_total _ H) as [d ->]. simpl.
    case_match; [simpl; eauto|]. unfold Peers.add_to_new.
    match goal with |- context [add_to_new_from _ 0 ?f ?l None ?p] =>
      destruct (add_to_new_total 0 f l None p H) as (r & q & -> & _) end. simpl. eauto.
  - unfold import_peers, Peers.add_to_new.
    destruct (add_to_new_total 0 now known_peers None (deserialized stored)) as (r & q & -> & _); [done|]. simpl. eauto.
Qed.

(** ** What is iced is left alone *)

Section Iced.
(** Address [a], iced at time [t]; [P] is a lower bound of the ice period. *)
Context (a : SocketAddr) (t P : Z).
Hypothesis HP : P ≤ 1800.
Hypothesis Ht : 0 ≤ t.

Record left_out (p : Peers) : Prop := {
  lo_period : P ≤ ice_period p;
  lo_ice : ∃ t', ice_bucket p !! a = Some t' ∧ t ≤ t';
  lo_new : ∀ i e, new_bucket p !! i = Some e → address e ≠ a;
  lo_tried : ∀ i e, tried_bucket p !! i = Some e → address e ≠ a;
}.

(** A reading of the clock before the end of the period. *)
Definition before_melting (now : Z) : Prop := t ≤ now ≤ t + P.

Lemma not_melted p d now t' :
  P ≤ ice_period p → current_ice_period p = Some d → before_melting now → t ≤ t' → ¬ melted now d t'.
Proof.
  unfold current_ice_period, before_melting, melted, sat_sub_i64, clamp_i64. intros HPp Hd Hnow Ht'.
  assert (P ≤ d); [|lia]. destruct (bootstrapped p); [case_decide|]; by simplify_eq.
Qed.

(** The ice bucket loses at most an address that is not [a], or [a] when it has melted. *)
Lemma left_out_ice x ice p :
  left_out p → (ice = ice_bucket p ∨ ice = delete x (ice_bucket p) ∧ x ≠ a) → left_out (set_ice_bucket ice p).
Proof.
  intros [HPp (t' & Hi & Hle) Hn Htr] Hice. split; [done| |done|done]. exists t'. split; [|done]. cbn.
  destruct Hice as [->|[-> Hne]]; [done|]. by rewrite lookup_delete_ne.
Qed.

Lemma left_out_contains x now p b p' :
  left_out p → before_melting now → ice_bucket_contains x now p = Some (b, p') → left_out p' ∧ (x = a → b = true).
Proof.
  intros Hlo Hnow Hc. pose proof Hlo as [HPp (t' & Hi & Hle) Hn Htr].
  assert (∃ d, current_ice_period p = Some d) as [d Hd].
  { unfold ice_bucket_contains, ice_bucket_contains_pure in Hc. destruct (current_ice_period p); [eauto|done]. }
  apply ice_contains_inv in Hc as (ice & -> & Hdel & Hkeep).
  pose proof (not_melted p d now t' HPp Hd Hnow Hle) as Hm. destruct (decide (x = a)) as [->|Hne].
  - destruct (Hkeep _ _ Hi Hd Hm) as [-> ->]. split; [|done]. apply (left_out_ice a); auto.
  - split; [|done]. apply (left_out_ice x); [done|]. naive_solver.
Qed.

Lemma left_out_new i e p :
  left_out p → address e ≠ a → left_out (set_new_bucket (<[i := e]> (new_bucket p)) p).
Proof.
  intros [] He. split; try done. intros j e' Hj. cbn in Hj.
  apply lookup_insert_Some in Hj as [[_ <-]|[_ Hj]]; eauto.
Qed.

Lemma left_out_tried i e p :
  left_out p → address e ≠ a → left_out (set_tried_bucket (<[i := e]> (tried_bucket p)) p).
Proof.
  intros [] He. split; try done. intros j e' Hj. cbn in Hj.
  apply lookup_insert_Some in Hj as [[_ <-]|[_ Hj]]; eauto.
Qed.

Lemma left_out_new_sub new p : new ⊆ new_bucket p → left_out p → left_out (set_new_bucket new p).
Proof. intros Hs []. split; try done. intros i e Hi. eapply lo_new0, lookup_weaken; eauto. Qed.

Lemma left_out_tried_sub tried p : tried ⊆ tried_bucket p → left_out p → left_out (set_tried_bucket tried p).
Proof. intros Hs []. split; try done. intros i e Hi. eapply lo_tried0, lookup_weaken; eauto. Qed.

Lemma left_out_add_one src x t1 t2 p r p' :
  left_out p → before_melting t1 → add_one_to_new calculate_sha256 src x t1 t2 p = Some (r, p') → left_out p'.
Proof.
  intros Hlo Hnow. unfold add_one_to_new. destruct (is_unspecified x || is_server_address x p); [by intros [= _ <-]|].
  destruct (ice_bucket_contains x t1 p) as [[b q]|] eqn:Hc; [|done]. simpl.
  destruct (left_out_contains _ _ _ _ _ Hlo Hnow Hc) as [Hq Hb]. destruct b; [by intros [= _ <-]|].
  case_decide; [by intros [= _ <-]|]. intros [= _ <-]. apply left_out_new; [done|]. cbn. intros ->. by discriminate Hb.
Qed.

Lemma left_out_add_to_new k now l src p r p' :
  left_out p → (∀ n, before_melting (now n)) → add_to_new_from calculate_sha256 k now l src p = Some (r, p') → left_out p'.
Proof.
  intros Hlo Hnow. revert k p r p' Hlo. induction l as [|x l IH]; intros k p r p' Hlo; simpl; [by intros [= _ <-]|].
  destruct (add_one_to_new _ _ _ _ _ _) as [[old q]|] eqn:H1; [simpl|done].
  destruct (add_to_new_from _ _ _ _ _ q) as [[olds q']|] eqn:H2; [simpl|done]. intros [= _ <-].
  eapply IH; [|exact H2]. by eapply left_out_add_one.
Qed.

Lemma left_out_add_to_tried x now p r p' :
  left_out p → before_melting (now 0%nat) → add_to_tried x now p = Some (r, p') → left_out p'.
Proof.
  intros Hlo Hnow. unfold Peers.add_to_tried. destruct (is_unspecified x); [by intros [= _ <-]|].
  destruct (ice_bucket_contains x (now 0%nat) p) as [[b q]|] eqn:Hc; [|done]. simpl.
  destruct (left_out_contains _ _ _ _ _ Hlo Hnow Hc) as [Hq Hb]. destruct b; [by intros [= _ <-]|].
  intros [= _ <-]. apply left_out_tried; [done|]. cbn. intros ->. by discriminate Hb.
Qed.

Lemma left_out_remove k now l ice p :
  left_out p → (∀ n, before_melting (now n)) → left_out (remove_from_tried_from calculate_sha256 k now l ice p).2.
Proof.
  intros Hlo Hnow. revert k p Hlo. induction l as [|x l IH]; intros k p Hlo; [done|]. simpl.
  destruct (remove_one_from_tried _ _ _ _ _) as [r q] eqn:H1.
  apply remove_one_from_tried_inv in H1 as (tried & Hsub & -> & _).
  destruct (remove_from_tried_from _ _ _ _ _ _) as [olds q'] eqn:H2. simpl. change q' with (olds, q').2. rewrite <-H2. apply IH.
  destruct ice; apply left_out_tried_sub; try done.
  destruct Hlo as [HPp (t' & Hi & Hle) Hn Htr]. split; try done. cbn. destruct (decide (x = a)) as [->|Hne].
  - rewrite lookup_insert_eq. exists (now k). split; [done|]. apply (Hnow k).
  - rewrite lookup_insert_ne by done. eauto.
Qed.

Lemma left_out_try_peer now x m m' out :
  left_out (peers m) → (∀ n, before_melting (now n)) → x ≠ a →
  try_peer calculate_sha256 now x m = Some (m', out) → left_out (peers m') ∧ a ∉ connect_to <$> out.
Proof.
  intros Hlo Hnow Hx. unfold try_peer, tried_bucket_get_timestamp, tried_bucket_get_address.
  destruct (tried_bucket (peers m) !! _) as [e|] eqn:He; simpl.
  - case_decide; intros [= <- <-]; [|split; [done|apply not_elem_of_nil]]. split; [apply (left_out_remove 0 (now ∘ S)); [done|intros n; apply Hnow]|].
    intros Hin%list_elem_of_singleton. by apply (lo_tried _ Hlo _ _ He).
  - intros [= <- <-]. split; [done|]. by intros Hin%list_elem_of_singleton.
Qed.

(** The events that do not put back [a] on purpose: peers added by hand, a reset of the
    buckets, or the peers of an earlier run.  The choice of a feeler is one of the entries. *)
Definition spares (e : PeersEvent) : Prop :=
  match e with
  | AddPeers l None => a ∉ l
  | ClearPeers | InitializePeers _ | ImportPeers _ _ => False
  | FeelerTick choose => ∀ l x, choose l = Some x → x ∈ l
  | _ => True
  end.

Lemma left_out_remove_many l p : a ∉ l → left_out p → left_out (remove_many_from_ice l p).
Proof.
  unfold remove_many_from_ice. revert p. induction l as [|x l IH]; intros p Hl Hlo; [done|]. simpl.
  apply not_elem_of_cons in Hl as [Hx Hl]. apply IH; [done|]. apply (left_out_ice x); [done|]. right. by split.
Qed.

Lemma left_out_extract now p l p' :
  left_out p → before_melting now → extract_melted_peers_from_ice_bucket now p = Some (l, p') → left_out p'.
Proof.
  intros Hlo Hnow. unfold extract_melted_peers_from_ice_bucket.
  destruct (current_ice_period p) as [d|] eqn:Hd; [|done]. simpl. intros [= _ <-].
  destruct Hlo as [HPp (t' & Hi & Hle) Hn Htr]. split; [done| |done|done]. exists t'. split; [|done]. cbn.
  apply map_lookup_filter_Some. split; [done|]. by apply (not_melted p).
Qed.

(** A step keeps [a] out of the buckets and does not connect to it. *)
Lemma left_out_step now e m m' out :
  left_out (peers m) → (∀ n, before_melting (now n)) → spares e → peers_step now e m = Some (m', out) →
  left_out (peers m') ∧ a ∉ connect_to <$> out.
Proof.
  intros Hlo Hnow He Hstep. assert (a ∉ connect_to <$> []) as Hnil by apply not_elem_of_nil.
  destruct e; simpl in Hstep, He; try done.
  - unfold handle_add_peers in Hstep. destruct (Peers.add_to_new _ _ _ _ _) as [[r p]|] eqn:Ha; [|done].
    injection Hstep as <- <-. split; [|done]. eapply left_out_add_to_new; [|done|exact Ha].
    case_decide; [subst; by apply left_out_remove_many|done].
  - unfold handle_add_consolidated_peer in Hstep.
    case_match; [case_decide|]; [by injection Hstep as <- <-| |];
      (destruct (Peers.add_to_tried _ _ _ _) as [[r p]|] eqn:Ha; [|done]); injection Hstep as <- <-;
      (split; [|done]); (eapply left_out_add_to_tried; [exact Hlo| |exact Ha]); apply Hnow.
  - injection Hstep as <- <-. split; [|done]. unfold handle_remove_addresses_from_tried.
    destruct (Peers.remove_from_tried _ _ _ _ _) as [r p] eqn:Hr. simpl. change p with (r, p).2. rewrite <-Hr.
    by apply left_out_remove.
  - injection Hstep as <- <-. split; [|done]. by destruct Hlo.
  - unfold feeler, get_new_random_peer in Hstep.
    destruct (choose (map_to_list (new_bucket (peers m)))) as [[key e]|] eqn:Hc; simpl in Hstep; [|by injection Hstep as <- <-].
    apply He, elem_of_map_to_list in Hc. eapply left_out_try_peer; [|done| |exact Hstep]; [|by eapply lo_new].
    cbn. apply left_out_new_sub; [|done]. apply delete_subseteq.
  - unfold melt_peers in Hstep. destruct (extract_melted_peers_from_ice_bucket _ _) as [[l p]|] eqn:Hx; [|done]. simpl in Hstep.
    apply (left_out_extract _ _ _ _ Hlo (Hnow 0%nat)) in Hx.
    destruct l; [by injection Hstep as <- <-|].
    destruct (Peers.add_to_new _ _ _ _ _) as [[r q]|] eqn:Ha; [|done]. injection Hstep as <- <-. split; [|done].
    eapply left_out_add_to_new; [exact Hx| |exact Ha]. intros n. apply Hnow.
Qed.
End Iced.

(** A run: events with the readings of the clock, and all the connections asked for. *)
Fixpoint peers_run (l : list ((nat → Z) * PeersEvent)) (m : PeersManager) : option (PeersManager * list OutboundTcpConnect) :=
  match l with
  | [] => Some (m, [])
  | (now, e) :: l =>
    '(m, out) ← peers_step now e m;
    '(m, out') ← peers_run l m;
    Some (m, out ++ out')
  end.

Lemma left_out_run a t P l m m' out :
  P ≤ 1800 → 0 ≤ t → Forall (λ x, (∀ n, before_melting t P (x.1 n)) ∧ spares a x.2) l →
  left_out a t P (peers m) → peers_run l m = Some (m', out) →
  left_out a t P (peers m') ∧ a ∉ connect_to <$> out.
Proof.
  intros HP Ht Hl. revert m m' out. induction Hl as [|[now e] l [Hnow He] Hl IH]; intros m m' out Hlo; simpl.
  - intros [= <- <-]. split; [done|apply not_elem_of_nil].
  - destruct (PeersManager.peers_step _ _ _ _) as [[m1 out1]|] eqn:H1; [|done]. simpl.
    destruct (peers_run l m1) as [[m2 out2]|] eqn:H2; [|done]. simpl. intros [= <- <-].
    destruct (left_out_step a t P HP Ht now e m m1 out1 Hlo Hnow He H1) as [Hlo1 Hout1].
    destruct (IH _ _ _ Hlo1 H2) as [? ?]. split; [done|]. rewrite fmap_app, elem_of_app. tauto.
Qed.

(** An address removed from the tried bucket with the ice flag, and not among the new ones, is
    neither tried by a feeler nor known as a peer during the ice period, whatever
    peers announce and however often the bucket is checked for melted addresses. *)
Theorem iced_address_left_alone a now0 m P l m' out :
  reachable m → 0 ≤ now0 0%nat → P ≤ 1800 → P ≤ ice_period (peers m) → a ∉ get_all_from_new (peers m) →
  Forall (λ x, (∀ n, now0 0%nat ≤ x.1 n ≤ now0 0%nat + P) ∧ spares a x.2) l →
  peers_run l (handle_remove_addresses_from_tried calculate_sha256 now0 [a] true m).2 = Some (m', out) →
  a ∉ get_all_from_new (peers m') ∧ a ∉ get_all_from_tried (peers m') ∧ a ∉ connect_to <$> out.
Proof.
  intros Hm%reachable_ok Ht HP HPi Hnew Hl Hrun.
  assert (left_out a (now0 0%nat) P (peers (handle_remove_addresses_from_tried calculate_sha256 now0 [a] true m).2)) as Hlo.
  { unfold handle_remove_addresses_from_tried, Peers.remove_from_tried. cbn [remove_from_tried_from].
    destruct (remove_one_from_tried _ _ _ _ _) as [r q] eqn:H1.
    apply remove_one_from_tried_inv in H1 as (tried & Hsub & -> & Htr). cbn. split; [done| | |].
    + exists (now0 0%nat). split; [by apply lookup_insert_eq|lia].
    + intros i e Hi <-. apply Hnew. apply list_elem_of_fmap. exists (i, e). split; [done|]. by apply elem_of_map_to_list.
    + by apply Htr. }
  destruct (left_out_run a (now0 0%nat) P l _ _ _ HP Ht Hl Hlo Hrun) as [[_ _ Hn Htr] Hout].
  split_and!; [..|done]; intros Hin%list_elem_of_fmap; destruct Hin as ([i e] & -> & Hi%elem_of_map_to_list);
    [by eapply Hn|by eapply Htr].
Qed.

(** ** Random peers *)

(** What the crate rand documents: distinct picks, as many as asked for if there are that
    many, and coins that are zero or one. *)
Record Choosing (choose_multiple : list SocketAddr → nat → list SocketAddr) (coin : nat → nat) : Prop := {
  choose_picks : ∀ l n, choose_multiple l n ⊆+ l;
  choose_length : ∀ l n, length (choose_multiple l n) = Nat.min n (length l);
  coin_range : ∀ k, (coin k ≤ 1)%nat;
}.

Lemma coins_le (coin : nat → nat) n : (∀ k, (coin k ≤ 1)%nat) → ∀ acc l, length l = n → (foldl (λ acc k, acc + coin k) acc l ≤ acc + n)%nat.
Proof.
  intros Hc. induction n as [|n IH]; intros acc [|k l] Hl; simpl in *; try lia. specialize (Hc k). specialize (IH (acc + coin k)%nat l). lia.
Qed.

(** [get_random_peers] never panics, and it returns as many peers as asked for, or all of
    them, each of them drawn once from its bucket. *)
Theorem random_peers_exact choose_multiple coin n p :
  Choosing choose_multiple coin →
  ∃ l, get_random_peers choose_multiple coin n p = Some l
  ∧ length l = Nat.min n (size (tried_bucket p) + size (new_bucket p))
  ∧ l ⊆+ get_all_from_new p ++ get_all_from_tried p.
Proof.
  intros [Hpick Hlen Hcoin]. unfold get_random_peers. set (np := Nat.min _ n).
  case_decide as Hz; [exists []; split_and!; [done|simpl; lia|apply submseteq_nil_l]|].
  pose proof (coins_le coin np Hcoin 0 (seq 0 np) (length_seq np 0)) as Hcoins.
  set (k := foldl _ _ _) in *. unfold clamp, checked_sub. rewrite decide_True by lia. simpl. rewrite decide_True by lia. simpl.
  eexists. split; [done|]. split; [|by apply submseteq_app].
  rewrite length_app, !Hlen. unfold bucket_addresses. rewrite !length_fmap, !length_map_to_list. lia.
Qed.
End Correct.
