(* ===== verification/SessionsCorrect.v ===== *)
(** * Correctness of the sessions

    The tables of sessions keep their limits and the sessions in consensus are consolidated
    ones; every epoch the chain manager is told exactly once about the beacons of the
    peers, each outbound peer once; the peers it keeps are marked as in consensus. *)

From stdpp Require Import base tactics numbers list gmap.
From Stdlib Require Import ZArith Lia.
From S2P Require Import Prelude Hashes Superblock Epoch Versioning Peers Sessions PeersManager SessionsManager.
Local Open Scope Z_scope.
Local Open Scope rust_scope.

Section Tables.
Context {T : Type}.
Implicit Types (s : Sessions T) (b : BoundedSessions T).

(** ** One table *)

Definition bounded b : Prop := match limit b with Some l => Z.of_nat (size (collection b)) ≤ l | None => True end.

Lemma bounded_register_inv a r b b' :
  bounded_register a r b = Ok b' →
  b' = MkBounded (<[a := MkSessionInfo r]> (collection b)) (limit b) ∧ collection b !! a = None ∧ full b = false.
Proof.
  unfold bounded_register. destruct (full b); [done|]. case_decide as Hs; [done|]. intros [= <-].
  split_and!; [done| |done]. by apply eq_None_not_Some.
Qed.

Lemma bounded_unregister_inv a b info b' :
  bounded_unregister a b = Ok (info, b') → collection b !! a = Some info ∧ b' = MkBounded (delete a (collection b)) (limit b).
Proof. unfold bounded_unregister. case_match; [|done]. by intros [= <- <-]. Qed.

Lemma register_bounded a r b b' : bounded_register a r b = Ok b' → bounded b'.
Proof.
  intros (-> & Ha & Hf)%bounded_register_inv. unfold bounded, full in *. cbn.
  destruct (limit b); [|done]. apply bool_decide_eq_false in Hf. rewrite map_size_insert_None by done. lia.
Qed.

Lemma unregister_bounded a b r b' : bounded_unregister a b = Ok (r, b') → bounded b → bounded b'.
Proof.
  intros [Ha ->]%bounded_unregister_inv. unfold bounded. cbn. destruct (limit b); [|done].
  rewrite map_size_delete_Some by (by eexists). lia.
Qed.

(** ** All the tables *)

(** The consensus table is part of the consolidated one, under the same limit, and all tables
    are within their limits. *)
Record sessions_ok s : Prop := {
  so_consensus : collection (outbound_consolidated_consensus s) ⊆ collection (outbound_consolidated s);
  so_limit : limit (outbound_consolidated_consensus s) = limit (outbound_consolidated s);
  so_inbound : bounded (inbound_consolidated s);
  so_outbound : bounded (outbound_consolidated s);
}.

Lemma sessions_ok_default : sessions_ok Sessions_default.
Proof. by split. Qed.

Lemma sessions_ok_ranges r s : sessions_ok s → sessions_ok (set_ranges r s).
Proof. by intros []. Qed.

Lemma sessions_ok_unconsolidated ty b s : sessions_ok s → sessions_ok (set_sessions ty Unconsolidated b s).
Proof. destruct ty; by intros []. Qed.

(** Cases of the operations: what they do when they succeed and that the state is [s] itself
    otherwise, except where stated. *)
Lemma register_session_inv ty a r s s' :
  register_session ty a r s = Ret s' tt →
  ∃ b b', get_sessions ty Unconsolidated s = Ok b ∧ bounded_register a r b = Ok b'
  ∧ s' = (if decide (ty = Inbound) then set_ranges (insert_address a (inbound_network_ranges s)).2 (set_sessions ty Unconsolidated b' s)
          else set_sessions ty Unconsolidated b' s).
Proof.
  unfold register_session. destruct (get_sessions ty Unconsolidated s) as [b| |] eqn:Hg; simpl; [|done..].
  destruct (bounded_register a r b) as [b'| |] eqn:Hb; simpl; [|done..]. intros [= <-]. exists b, b'.
  split_and!; [done..|]. case_decide; subst; done.
Qed.

Lemma register_session_state ty a r s :
  (∃ s', register_session ty a r s = Ret s' tt) ∨ (∃ e, register_session ty a r s = Fail s e).
Proof.
  unfold register_session. destruct (get_sessions ty Unconsolidated s) as [b| |] eqn:Hg; simpl; [|eauto|by destruct ty].
  unfold bounded_register. destruct (full b); simpl; [eauto|]. case_decide; simpl; eauto.
Qed.

Lemma register_ok ty a r s : sessions_ok s → sessions_ok (state_of s (register_session ty a r s)).
Proof.
  intros Hok. destruct (register_session_state ty a r s) as [[s' H]|[e H]]; rewrite H; simpl; [|done].
  apply register_session_inv in H as (b & b' & _ & _ & ->).
  case_decide; [apply sessions_ok_ranges|]; by apply sessions_ok_unconsolidated.
Qed.

Lemma unconsensus_state a s :
  state_of s (unconsensus_session a s)
  = set_consensus (MkBounded (delete a (collection (outbound_consolidated_consensus s))) (limit (outbound_consolidated_consensus s))) s.
Proof.
  unfold unconsensus_session, bounded_unregister.
  destruct (collection (outbound_consolidated_consensus s) !! a) eqn:Ha; simpl; [done|].
  rewrite delete_id by done. by destruct s as [? ? ? ? ? []].
Qed.

Lemma sessions_ok_unconsensus a s : sessions_ok s → sessions_ok (state_of s (unconsensus_session a s)).
Proof.
  intros [Hc Hl Hi Ho]. rewrite unconsensus_state. split; cbn; try done. etrans; [apply delete_subseteq|done].
Qed.

Lemma unregister_ok ty st a s : sessions_ok s → sessions_ok (state_of s (unregister_session ty st a s)).
Proof.
  intros Hok. unfold unregister_session.
  assert (∀ s1, sessions_ok s1 → (ty = Outbound → st = Consolidated → collection (outbound_consolidated_consensus s1) !! a = None) →
    sessions_ok (state_of s (let! (s0, sessions) := lift_exec s1 (get_sessions ty st s1) in
      let! (s0, r) := lift_exec s0 (bounded_unregister a sessions) in
      let s2 := set_sessions ty st r.2 s0 in
      let s2 := if decide (ty = Inbound) then set_ranges (remove_address a (inbound_network_ranges s2)).2 s2 else s2 in
      Ret s2 tt))) as Hgen.
  { intros s1 Hs1 Hnone. destruct (get_sessions ty st s1) as [b| |] eqn:Hg; simpl; [|done..].
    destruct (bounded_unregister a b) as [[info b']| |] eqn:Hb; simpl; [|done..].
    pose proof (unregister_bounded _ _ _ _ Hb) as Hbd. apply bounded_unregister_inv in Hb as [Ha Hb'].
    assert (sessions_ok (set_sessions ty st b' s1)) as Hset; [|case_decide; [by apply sessions_ok_ranges|done]].
    destruct Hs1 as [Hc Hl Hi Ho]. destruct ty, st; simpl in Hg; try done; injection Hg as <-; split; cbn; auto; subst b'; cbn; try done.
    apply map_subseteq_spec. intros x i Hx. rewrite lookup_delete_Some. split; [intros <-; by rewrite Hnone in Hx|].
    by apply (lookup_weaken _ _ _ _ Hx). }
  destruct ty, st; apply Hgen; try done; [by apply sessions_ok_unconsensus|].
  intros _ _. rewrite unconsensus_state. apply lookup_delete_eq.
Qed.

Lemma consolidate_session_ok ty a s : sessions_ok s → sessions_ok (state_of s (consolidate_session ty a s)).
Proof.
  intros Hok. unfold consolidate_session.
  destruct (get_sessions ty Unconsolidated s) as [b| |] eqn:Hg; simpl; [|done..].
  destruct (bounded_unregister a b) as [[info b']| |] eqn:Hb; simpl; [|done..].
  pose proof (sessions_ok_unconsolidated ty b' s Hok) as Hok'.
  destruct (get_sessions ty Consolidated (set_sessions ty Unconsolidated b' s)) as [c| |] eqn:Hg'; simpl; [|done..].
  destruct (bounded_register a (reference info) c) as [c'| |] eqn:Hc; simpl; [|done..].
  pose proof (register_bounded _ _ _ _ Hc) as Hbd. apply bounded_register_inv in Hc as (-> & Ha & Hf).
  destruct Hok' as [Hs Hl Hi Ho]. destruct ty; simpl in Hg'; try done; injection Hg' as <-; split; cbn in *; auto.
  etrans; [exact Hs|]. by apply insert_subseteq.
Qed.

Lemma consensus_ok a s : sessions_ok s → sessions_ok (state_of s (consensus_session a s)).
Proof.
  intros Hok. unfold consensus_session. destruct (collection (outbound_consolidated s) !! a) as [[r]|] eqn:Ha; [cbn [reference]|done].
  destruct (bounded_register a r (outbound_consolidated_consensus s)) as [b| |] eqn:Hb; simpl; [|done..].
  apply bounded_register_inv in Hb as (-> & Hn & Hf). destruct Hok as [Hc Hl Hi Ho]. split; cbn; try done.
  apply map_subseteq_spec. intros x i Hx. apply lookup_insert_Some in Hx as [[<- <-]|[_ Hx]]; [done|].
  by apply (lookup_weaken _ _ _ _ Hx).
Qed.

(** Marking a consolidated peer as in consensus never fails for lack of room. *)
Lemma consensus_session_marks a s :
  sessions_ok s → is_Some (collection (outbound_consolidated s) !! a) →
  is_Some (collection (outbound_consolidated_consensus (state_of s (consensus_session a s))) !! a).
Proof.
  intros [Hc Hl _ Ho] [[r] Ha]. unfold consensus_session. rewrite Ha. cbn [reference].
  unfold bounded_register. destruct (full (outbound_consolidated_consensus s)) eqn:Hf; cbn.
  - unfold full in Hf. rewrite Hl in Hf. unfold bounded in Ho. destruct (limit (outbound_consolidated s)) as [l|]; [|done].
    apply bool_decide_eq_true in Hf.
    destruct (collection (outbound_consolidated_consensus s) !! a) eqn:Hn; [done|exfalso].
    assert (<[a := MkSessionInfo r]> (collection (outbound_consolidated_consensus s)) ⊆ collection (outbound_consolidated s)) as Hsub.
    { by apply insert_subseteq_l. }
    apply subseteq_dom, subseteq_size in Hsub. rewrite !size_dom, map_size_insert_None in Hsub by done. lia.
  - case_decide; cbn; [done|]. rewrite lookup_insert_eq. eauto.
Qed.

Lemma consensus_session_mono a s x :
  is_Some (collection (outbound_consolidated_consensus s) !! x) →
  is_Some (collection (outbound_consolidated_consensus (state_of s (consensus_session a s))) !! x).
Proof.
  intros Hx. unfold consensus_session. destruct (collection (outbound_consolidated s) !! a); [|done].
  unfold bounded_register. destruct (full _); [done|]. cbn. case_decide; cbn; [done|].
  rewrite lookup_insert_is_Some. destruct (decide (a = x)); auto.
Qed.

Lemma consensus_session_consolidated a s :
  outbound_consolidated (state_of s (consensus_session a s)) = outbound_consolidated s.
Proof.
  unfold consensus_session. destruct (collection (outbound_consolidated s) !! a); [|done].
  destruct (bounded_register _ _ _); done.
Qed.

(** ** The outbound tables under each operation *)

Definition consolidated_with s a : Prop := is_Some (collection (outbound_consolidated s) !! a).
Definition unconsolidated_with s a : Prop := is_Some (collection (outbound_unconsolidated s) !! a).

Lemma register_outbound ty a r s (s' := state_of s (register_session ty a r s)) :
  outbound_consolidated s' = outbound_consolidated s
  ∧ ∀ y, unconsolidated_with s' y → unconsolidated_with s y ∨ ty = Outbound ∧ y = a.
Proof.
  unfold s'. destruct (register_session_state ty a r s) as [[s1 H]|[e H]]; rewrite H; simpl; [|auto].
  apply register_session_inv in H as (b & b' & Hg & Hb & ->). apply bounded_register_inv in Hb as (-> & _).
  destruct ty; simpl in Hg; try done; simpl; injection Hg as <-; (split; [done|]); intros y Hy; [by left|].
  unfold unconsolidated_with in *. cbn in Hy. apply lookup_insert_is_Some in Hy as [->|[_ Hy]]; auto.
Qed.

Lemma unregister_outbound ty st a s (x := unregister_session ty st a s) (s' := state_of s x) :
  (∀ y, consolidated_with s' y ↔ consolidated_with s y ∧ ¬ (outcome x = Ok tt ∧ ty = Outbound ∧ st = Consolidated ∧ y = a))
  ∧ (∀ y, unconsolidated_with s' y → unconsolidated_with s y)
  ∧ (outcome x = Ok tt → ty = Outbound → st = Unconsolidated → unconsolidated_with s a).
Proof.
  unfold s', x, unregister_session, consolidated_with, unconsolidated_with, bounded_unregister.
  destruct ty, st; cbn [lift_exec get_sessions ebind]; [| | | |cbn; naive_solver..].
  - destruct (collection (inbound_unconsolidated s) !! a); cbn; naive_solver.
  - destruct (collection (inbound_consolidated s) !! a); cbn; naive_solver.
  - destruct (collection (outbound_unconsolidated s) !! a) eqn:Ha; simpl; [|naive_solver].
    split_and!; [naive_solver| |by eauto]. intros y. rewrite lookup_delete_is_Some. naive_solver.
  - rewrite unconsensus_state. simpl. destruct (collection (outbound_consolidated s) !! a) eqn:Ha; simpl; [|naive_solver].
    split_and!; [|naive_solver..]. intros y. rewrite lookup_delete_is_Some. naive_solver.
Qed.

Lemma consolidate_outbound ty a s (x := consolidate_session ty a s) (s' := state_of s x) :
  (∀ y, consolidated_with s' y ↔ consolidated_with s y ∨ ty = Outbound ∧ y = a ∧ outcome x = Ok tt)
  ∧ (∀ y, unconsolidated_with s' y → unconsolidated_with s y ∧ (ty = Outbound → y ≠ a)).
Proof.
  unfold s', x, consolidate_session, consolidated_with, unconsolidated_with, bounded_unregister.
  destruct ty; cbn [lift_exec get_sessions ebind]; [| |cbn; naive_solver].
  - destruct (collection (inbound_unconsolidated s) !! a) as [info|]; [|cbn; naive_solver]. cbn.
    destruct (bounded_register _ _ _); cbn; naive_solver.
  - destruct (collection (outbound_unconsolidated s) !! a) as [info|] eqn:Ha.
    + simpl. destruct (bounded_register _ _ _) eqn:Hb; simpl.
      2: { split; [naive_solver|]. intros y. rewrite lookup_delete_is_Some. naive_solver. }
      2: { unfold bounded_register in Hb. destruct (full _); [done|]. by case_decide. }
      apply bounded_register_inv in Hb as (-> & _). simpl. split; intros y.
      * rewrite lookup_insert_is_Some. destruct (decide (a = y)); naive_solver.
      * rewrite lookup_delete_is_Some. naive_solver.
    + cbn. split; [naive_solver|]. intros y Hy. split; [done|]. intros _ ->. rewrite Ha in Hy. by destruct Hy.
Qed.
End Tables.
