(* ===== verification/SessionsManagerCorrect.v ===== *)
(** * Correctness of the sessions manager

    Over any run of the actor: the sessions in consensus are consolidated ones, every
    outbound peer is either waited for or has sent its beacon, and the chain manager gets
    the beacons of an epoch exactly once. *)

From stdpp Require Import base tactics numbers list gmap.
From Stdlib Require Import ZArith Lia.
From S2P Require Import Prelude Hashes Superblock Epoch Versioning Peers Sessions PeersManager SessionsManager SessionsCorrect.
Local Open Scope Z_scope.
Local Open Scope rust_scope.

Section Manager.
Context {T : Type} (pinfo : ProtocolInfo).
Implicit Types (m : SessionsManager T) (e : SessionsEvent T).

(** ** The invariant *)

(** A peer is not both waited for and heard. *)
Definition beacons_ok (b : Beacons) : Prop := ∀ a, a ∈ peers_not_beacon b → peers_with_beacon b !! a = None.
Definition tracked (b : Beacons) (a : SocketAddr) : Prop := a ∈ peers_not_beacon b ∨ is_Some (peers_with_beacon b !! a).

Record manager_ok m : Prop := {
  mo_sessions : sessions_ok (sessions m);
  mo_beacons : beacons_ok (beacons m);
  mo_tracked : ∀ a, consolidated_with (sessions m) a ↔ tracked (beacons m) a;
  mo_separate : ∀ a, unconsolidated_with (sessions m) a → ¬ consolidated_with (sessions m) a;
}.

Lemma beacons_ok_insert k v b : beacons_ok b → beacons_ok (beacons_insert k v b).
Proof. intros Hb a. cbn. rewrite elem_of_difference, elem_of_singleton. intros [Ha Hne]. rewrite lookup_insert_ne by done. auto. Qed.
Lemma beacons_ok_remove k b : beacons_ok b → beacons_ok (beacons_remove k b).
Proof. intros Hb a. cbn. rewrite elem_of_difference, elem_of_singleton. intros [Ha Hne]. rewrite lookup_delete_ne by done. auto. Qed.
Lemma beacons_ok_wait k b : beacons_ok b → beacons_ok (also_wait_for k b).
Proof.
  intros Hb. unfold also_wait_for. case_decide as Hk; [done|]. intros a. cbn. rewrite elem_of_union, elem_of_singleton.
  intros [->|Ha]; [by apply eq_None_not_Some|auto].
Qed.

Lemma tracked_insert k v b a : tracked (beacons_insert k v b) a ↔ a = k ∨ tracked b a.
Proof.
  unfold tracked. cbn. rewrite elem_of_difference, elem_of_singleton, lookup_insert_is_Some.
  destruct (decide (k = a)); naive_solver.
Qed.
Lemma tracked_remove k b a : tracked (beacons_remove k b) a ↔ a ≠ k ∧ tracked b a.
Proof. unfold tracked. cbn. rewrite elem_of_difference, elem_of_singleton, lookup_delete_is_Some. naive_solver. Qed.
Lemma tracked_wait k b a : tracked (also_wait_for k b) a ↔ a = k ∨ tracked b a.
Proof.
  unfold tracked, also_wait_for. case_decide; cbn; [naive_solver|]. rewrite elem_of_union, elem_of_singleton. naive_solver.
Qed.

Lemma cleared_elem ps b a : a ∈ peers_not_beacon (beacons_clear ps b) ↔ a ∈ ps.
Proof.
  unfold beacons_clear. cbn.
  assert (∀ acc : gset SocketAddr, a ∈ foldl (λ s a, {[a]} ∪ s) acc ps ↔ a ∈ ps ∨ a ∈ acc) as ->; [|set_solver].
  induction ps as [|x l IH]; intros acc; simpl; [set_solver|]. rewrite IH. set_solver.
Qed.

(** ** Messages that send the beacons *)

(** Sending only sets the flag. *)
Definition same_but_flag m m' : Prop :=
  sessions m' = sessions m ∧ peers_not_beacon (beacons m') = peers_not_beacon (beacons m)
  ∧ peers_with_beacon (beacons m') = peers_with_beacon (beacons m).

Lemma send_same m : same_but_flag m (send_peers_beacons m).1.
Proof. unfold send_peers_beacons, beacons_send. by destruct (beacons_already_sent (beacons m)). Qed.

Lemma try_send_same m : same_but_flag m (try_send_peers_beacons m).1.
Proof.
  unfold try_send_peers_beacons. destruct (already_sent _); [done|]. destruct (is_outbound_bootstrap_needed _); [done|].
  case_match; [done|]. pose proof (send_same m). by destruct (send_peers_beacons m).
Qed.

Lemma same_trans m1 m2 m3 : same_but_flag m1 m2 → same_but_flag m2 m3 → same_but_flag m1 m3.
Proof. unfold same_but_flag. intuition congruence. Qed.

Lemma same_ok m m' : same_but_flag m m' → manager_ok m → manager_ok m'.
Proof.
  intros (Hs & Hn & Hw) [H1 H2 H3 H4]. split; unfold beacons_ok, tracked in *; rewrite ?Hs, ?Hn, ?Hw; auto.
Qed.

(** ** Events keep the invariant *)

(** Outbound sessions are opened to addresses without a consolidated session, which is what
    [is_outbound_address_eligible] checks; beacons come from consolidated sessions, which is when
    a session accepts them; the limits are not changed. *)
Definition regular e m : Prop :=
  match e with
  | EvRegister Outbound a _ => ¬ consolidated_with (sessions m) a
  | EvPeerBeacon a _ => consolidated_with (sessions m) a
  | EvSetPeersLimits _ _ => False
  | _ => True
  end.

Lemma register_manager_ok ty a r m :
  (ty = Outbound → ¬ consolidated_with (sessions m) a) → manager_ok m → manager_ok (handle_register ty a r m).1.
Proof.
  intros Hnew [H1 H2 H3 H4]. unfold handle_register. cbn.
  destruct (register_outbound ty a r (sessions m)) as [Hc Hu]. split; cbn; [by apply register_ok|done|..];
    unfold consolidated_with in *; rewrite Hc; [done|]. intros x [Hx|[-> ->]]%Hu; auto.
Qed.

Lemma unregister_manager_ok ty st a m : manager_ok m → manager_ok (handle_unregister ty st a m).1.1.
Proof.
  intros [H1 H2 H3 H4]. unfold handle_unregister. case_decide as Hf; [done|].
  destruct (unregister_outbound ty st a (sessions m)) as (Hc & Hu & Hua). set (x := unregister_session _ _ _ _) in *.
  assert (sessions_ok (state_of (sessions m) x)) as Hs by by apply unregister_ok.
  assert (∀ y, unconsolidated_with (state_of (sessions m) x) y → ¬ consolidated_with (state_of (sessions m) x) y) as Hsep.
  { intros y Hy%Hu [Hy' _]%Hc. by apply (H4 y). }
  destruct (outcome x) as [[]| |] eqn:Hx; cbn.
  2,3: split; cbn; [done|done| |done]; intros y; rewrite Hc, H3; naive_solver.
  case_decide as Ho; cbn; split; cbn; eauto using beacons_ok_remove; intros y; rewrite Hc, H3; [|naive_solver].
  rewrite tracked_remove. split; [|destruct st; naive_solver]. intros [Hy Hno]. split; [|done]. intros ->.
  destruct st; [|naive_solver]. apply (H4 a); [by apply Hua|]. by apply H3.
Qed.

Lemma consolidate_manager_ok ty a p m : manager_ok m → manager_ok (handle_consolidate ty a p m).1.1.
Proof.
  intros [H1 H2 H3 H4]. unfold handle_consolidate.
  destruct (consolidate_outbound ty a (sessions m)) as (Hc & Hu). set (x := consolidate_session _ _ _) in *.
  assert (sessions_ok (state_of (sessions m) x)) as Hs by by apply consolidate_session_ok.
  assert (∀ y, unconsolidated_with (state_of (sessions m) x) y → ¬ consolidated_with (state_of (sessions m) x) y) as Hsep.
  { intros y [Hy Hne]%Hu [Hy'|(-> & -> & _)]%Hc; [by apply (H4 y)|by apply Hne]. }
  destruct (outcome x) as [[]| |] eqn:Hx; cbn.
  2,3: split; cbn; [done|done| |done]; intros y; rewrite Hc, H3; naive_solver.
  case_decide as Ho; cbn; split; cbn; eauto using beacons_ok_wait; intros y; rewrite Hc, H3; rewrite ?tracked_wait; naive_solver.
Qed.

Lemma peer_beacon_manager_ok a b m :
  consolidated_with (sessions m) a → manager_ok m → manager_ok (with_beacons (beacons_insert a b (beacons m)) m).
Proof.
  intros Ha [H1 H2 H3 H4]. split; cbn; eauto using beacons_ok_insert.
  intros y. rewrite tracked_insert, H3. split; [by right|]. intros [->|Hy]; [by apply H3|done].
Qed.

Lemma clear_manager_ok m : manager_ok m → manager_ok (clear_beacons m).
Proof.
  intros [H1 H2 H3 H4]. split; cbn; auto.
  - done.
  - intros a. unfold consolidated_with, tracked. rewrite cleared_elem, list_elem_of_fmap. split.
    + intros [i Ha]. left. exists (a, i). split; [done|]. by apply elem_of_map_to_list.
    + intros [([k i] & -> & Hk%elem_of_map_to_list)|[? Hn]]; [by exists i|]. cbn in Hn. by rewrite lookup_empty in Hn.
Qed.

Lemma timeout_manager_ok c m : manager_ok m → manager_ok (mining_timeout c m).1.
Proof.
  intros Hok. unfold mining_timeout. pose proof (try_send_same m) as Hs.
  destruct (try_send_peers_beacons m) as [m1 r]. simpl in Hs. pose proof (send_same m1) as Hs'.
  assert (manager_ok m1) by by eapply same_ok.
  assert (manager_ok (send_peers_beacons m1).1) as Hsend by by eapply same_ok.
  destruct (send_peers_beacons m1) as [m2 sent]. simpl in *.
  destruct r as [|[]|]; cbn; by apply clear_manager_ok.
Qed.

Lemma epoch_manager_ok c now m m' sent d :
  handle_epoch pinfo c now m = Ok (m', sent, d) → manager_ok m → manager_ok m'.
Proof.
  intros He Hok. unfold handle_epoch in He. set (m1 := with_beacons _ _) in He. pose proof (try_send_same m1) as Hs.
  destruct (try_send_peers_beacons m1) as [m2 r]. simpl in Hs.
  assert (manager_ok m2) as Hok2 by (apply (same_ok _ _ Hs); by destruct Hok).
  destruct (update_epoch_constants pinfo c m2) as [m3| |] eqn:Hu; simpl in He; [|done..].
  assert (manager_ok m3) as Hok3.
  { unfold update_epoch_constants in Hu. by repeat case_match; simplify_eq; destruct Hok2. }
  destruct (epoch_constants m3); simpl in He; [|done]. destruct (block_mining_timestamp _ _); simpl in He; [|done..].
  destruct (duration_between_timestamps _ _); simpl in He; [|done..]. by injection He as <- _ _.
Qed.

Lemma reply_sessions_ok l (s : Sessions T) :
  sessions_ok s → sessions_ok (foldl (λ s a, state_of s (consensus_session a s)) s l).
Proof. revert s. induction l as [|a l IH]; intros s Hs; [done|]. by apply IH, consensus_ok. Qed.

Lemma reply_consolidated l (s : Sessions T) :
  outbound_consolidated (foldl (λ s a, state_of s (consensus_session a s)) s l) = outbound_consolidated s
  ∧ outbound_unconsolidated (foldl (λ s a, state_of s (consensus_session a s)) s l) = outbound_unconsolidated s.
Proof.
  revert s. induction l as [|a l IH]; intros s; [done|]. simpl. destruct (IH (state_of s (consensus_session a s))) as [-> ->].
  rewrite consensus_session_consolidated. split; [done|]. unfold consensus_session.
  destruct (collection (outbound_consolidated s) !! a); [|done]. destruct (bounded_register _ _ _); done.
Qed.

Lemma reply_manager_ok keep reply m : manager_ok m → manager_ok (peers_beacons_reply keep reply m).1.
Proof.
  intros [H1 H2 H3 H4]. unfold peers_beacons_reply. destruct reply as [l|]; [|done]. cbn.
  match goal with |- context [foldl _ (sessions m) ?k] => destruct (reply_consolidated k (sessions m)) as [Hc Hu] end.
  split; cbn; [by apply reply_sessions_ok|done|..]; unfold consolidated_with, unconsolidated_with in *; rewrite ?Hc, ?Hu; auto.
Qed.

Lemma sessions_step_ok e m m' sent :
  sessions_step pinfo e m = Some (m', sent) → regular e m → manager_ok m → manager_ok m'.
Proof.
  intros Hstep Hr Hok. destruct e; simpl in Hstep, Hr.
  - injection Hstep as <- <-. apply register_manager_ok; [|done]. by intros ->.
  - pose proof (unregister_manager_ok ty st a m Hok). destruct (handle_unregister ty st a m) as [[? ?] ?]. by injection Hstep as <- <-.
  - pose proof (consolidate_manager_ok ty a potential_new_peer m Hok).
    destruct (handle_consolidate ty a potential_new_peer m) as [[? ?] ?]. by injection Hstep as <- <-.
  - unfold handle_peer_beacon in Hstep. pose proof (peer_beacon_manager_ok a b m Hr Hok) as Hok1.
    pose proof (try_send_same (with_beacons (beacons_insert a b (beacons m)) m)) as Hs.
    destruct (try_send_peers_beacons _) as [m1 r]. injection Hstep as <- <-. by eapply same_ok.
  - destruct (handle_epoch pinfo checkpoint now m) as [[[? ?] ?]| |] eqn:He; [|done..]. injection Hstep as <- <-.
    by eapply epoch_manager_ok.
  - pose proof (timeout_manager_ok checkpoint m Hok) as H. injection Hstep as Hstep. by rewrite Hstep in H.
  - pose proof (reply_manager_ok keep reply m Hok) as H. injection Hstep as Hstep. by rewrite Hstep in H.
  - done.
  - injection Hstep as <- <-. by destruct Hok.
  - injection Hstep as <- <-. by destruct Hok.
  - unfold handle_set_epoch_constants in Hstep. destruct (epoch_at c get_timestamp); simpl in Hstep; try done;
      injection Hstep as <- <-; by destruct Hok.
Qed.

(** ** Runs *)

Fixpoint regular_run (l : list (SessionsEvent T)) m : Prop :=
  match l with
  | [] => True
  | e :: l => regular e m ∧ match sessions_step pinfo e m with Some (m', _) => regular_run l m' | None => True end
  end.

#[global] Instance regular_dec e m : Decision (regular e m).
Proof. destruct e as [[] a r| | | | | | | | | |]; unfold regular, consolidated_with; apply _. Defined.
#[global] Instance regular_run_dec l m : Decision (regular_run l m).
Proof. revert m. induction l as [|e l IH]; intros m; simpl; [apply _|]. apply and_dec; [apply _|]. case_match; [case_match; apply IH|apply _]. Defined.

Lemma run_cons e l m m' sent :
  sessions_run pinfo (e :: l) m = Some (m', sent) →
  ∃ m1 s1 s2, sessions_step pinfo e m = Some (m1, s1) ∧ sessions_run pinfo l m1 = Some (m', s2) ∧ sent = s1 ++ s2.
Proof.
  simpl. destruct (sessions_step pinfo e m) as [[m1 s1]|]; simpl; [|done].
  destruct (sessions_run pinfo l m1) as [[m2 s2]|] eqn:H2; simpl; [|done]. intros [= -> <-]. eauto 6.
Qed.

Lemma run_ok l m m' sent : sessions_run pinfo l m = Some (m', sent) → regular_run l m → manager_ok m → manager_ok m'.
Proof.
  revert m m' sent. induction l as [|e l IH]; intros m m' sent; [by intros [= <- _]|].
  intros (m1 & s1 & s2 & H1 & H2 & ->)%run_cons [Hr Hl] Hok.
  rewrite H1 in Hl. eapply IH; [exact H2|done|]. by eapply sessions_step_ok.
Qed.

Lemma started_ok cfg public inb outb c now m :
  0 ≤ inb → 0 ≤ outb → manager_started cfg public inb outb c now = Ok m → manager_ok m.
Proof.
  assert (∀ x, ¬ tracked Beacons_default x) as Hnone by (intros x [Hx|[? Hx]]; [by apply elem_of_empty in Hx|done]).
  intros Hi Ho. unfold manager_started.
  destruct (epoch_at c now) as [ep|?|]; intros [= <-]; (split; [by split|done| |]); intros x;
    [split; [by intros [? ?]|by intros ?%Hnone]|by intros [? ?]|split; [by intros [? ?]|by intros ?%Hnone]|by intros [? ?]].
Qed.

(** ** The beacons are sent once per epoch *)

Definition is_peers_beacons (x : Sent T) : bool := match x with PeersBeacons _ _ => true | _ => false end.
Definition count_beacons (l : list (Sent T)) : nat := length (filter (λ x, is_peers_beacons x = true) l).
Definition flag m : nat := if beacons_already_sent (beacons m) then 1 else 0.

Lemma count_app l k : count_beacons (l ++ k) = (count_beacons l + count_beacons k)%nat.
Proof. unfold count_beacons. by rewrite filter_app, length_app. Qed.

Lemma count_cons x l : count_beacons (x :: l) = ((if is_peers_beacons x then 1 else 0) + count_beacons l)%nat.
Proof. unfold count_beacons. rewrite filter_cons. by destruct (is_peers_beacons x). Qed.

Lemma count_close (l : list T) : count_beacons (CloseSession <$> l) = 0%nat.
Proof. induction l as [|r l IH]; [done|]. by rewrite fmap_cons, count_cons. Qed.

Lemma count_drop l m : count_beacons (drop_outbound_peers l m) = 0%nat.
Proof.
  unfold drop_outbound_peers. induction l as [|a l IH]; [done|]. simpl.
  destruct (collection (outbound_consolidated (sessions m)) !! a); simpl; [by rewrite count_cons|done].
Qed.


(** The cases of [try_send_peers_beacons]. *)
Lemma try_send_cases m :
  (∃ why, try_send_peers_beacons m = (m, Err why) ∧ (why = AlreadySent → flag m = 1%nat))
  ∨ try_send_peers_beacons m = ((send_peers_beacons m).1, Ok (send_peers_beacons m).2).
Proof.
  unfold try_send_peers_beacons, already_sent, flag. destruct (beacons_already_sent (beacons m)); [left; eauto|].
  destruct (is_outbound_bootstrap_needed _); [left; eexists; by split|].
  case_match; [left; eexists; by split|]. right. by destruct (send_peers_beacons m).
Qed.









Lemma run_app l k m m' sent :
  sessions_run pinfo (l ++ k) m = Some (m', sent) →
  ∃ m1 s1 s2, sessions_run pinfo l m = Some (m1, s1) ∧ sessions_run pinfo k m1 = Some (m', s2) ∧ sent = s1 ++ s2.
Proof.
  revert m sent. induction l as [|e l IH]; intros m sent; [by eauto 6|].
  cbn [app]. intros (m1 & s1 & s2 & H1 & (m3 & s3 & s4 & H3 & Hk & ->)%IH & ->)%run_cons. simpl. rewrite H1. simpl. rewrite H3.
  simpl. eexists _, _, _. split_and!; [done|done|]. by rewrite app_assoc.
Qed.



(** ** What the message says *)

Lemma count_elem pb lim l : PeersBeacons pb lim ∈ l → (0 < count_beacons l)%nat.
Proof.
  induction l as [|x l IH]; [by intros ?%not_elem_of_nil|]. rewrite count_cons. intros [<-|Hin%IH]%elem_of_cons; simpl; lia.
Qed.

Lemma send_message pb lim m :
  manager_ok m → PeersBeacons pb lim ∈ (send_peers_beacons m).2 →
  NoDup pb.*1 ∧ (∀ a, a ∈ pb.*1 ↔ consolidated_with (sessions m) a) ∧ lim = limit (outbound_consolidated (sessions m))
  ∧ (∀ a v, (a, Some v) ∈ pb ↔ peers_with_beacon (beacons m) !! a = Some v).
Proof.
  intros [_ Hb Ht _]. unfold send_peers_beacons, beacons_send.
  destruct (beacons_already_sent (beacons m)); cbn; [by intros ?%not_elem_of_nil|]. intros [= -> ->]%list_elem_of_singleton.
  assert (((λ kv : SocketAddr * LastBeacon, (kv.1, Some kv.2)) <$> map_to_list (peers_with_beacon (beacons m))).*1
          = (map_to_list (peers_with_beacon (beacons m))).*1) as Hfst by (rewrite <-list_fmap_compose; by apply list_fmap_ext).
  assert (((λ k : SocketAddr, (k, None : option LastBeacon)) <$> elements (peers_not_beacon (beacons m))).*1
          = elements (peers_not_beacon (beacons m))) as Hsnd.
  { rewrite <-list_fmap_compose. rewrite <-(list_fmap_id (elements _)) at 2. by apply list_fmap_ext. }
  rewrite fmap_app, Hfst, Hsnd. split_and!.
  - apply NoDup_app. split_and!; [apply NoDup_fst_map_to_list| |apply NoDup_elements].
    intros a Ha Hn%elem_of_elements%Hb. apply list_elem_of_fmap in Ha as ([k v] & -> & Hk%elem_of_map_to_list). simpl in Hn. congruence.
  - intros a. rewrite Ht. unfold tracked. rewrite elem_of_app, elem_of_elements, list_elem_of_fmap. split.
    + intros [([k v] & -> & Hk%elem_of_map_to_list)|Hn]; [right; by exists v|by left].
    + intros [Hn|[v Hv]]; [by right|left]. exists (a, v). split; [done|]. by apply elem_of_map_to_list.
  - done.
  - intros a v. rewrite elem_of_app, !list_elem_of_fmap. split.
    + intros [([k w] & [= -> ->] & Hk%elem_of_map_to_list)|(k & [=] & _)]. done.
    + intros Hv. left. exists (a, v). split; [done|]. by apply elem_of_map_to_list.
Qed.

Lemma try_send_message pb lim m : PeersBeacons pb lim ∈ sent_of (try_send_peers_beacons m).2 → PeersBeacons pb lim ∈ (send_peers_beacons m).2.
Proof. destruct (try_send_cases m) as [(why & -> & _)| ->]; [by intros ?%not_elem_of_nil|done]. Qed.

(** A step that sends nothing of the kind. *)
Local Ltac silent Hstep Hc := injection Hstep as <- <-; vm_compute in Hc; lia.

(** The message of a step is sent from a state with the sessions of the step. *)
Lemma step_message e m m' sent pb lim :
  sessions_step pinfo e m = Some (m', sent) → regular e m → manager_ok m → PeersBeacons pb lim ∈ sent →
  ∃ m1, manager_ok m1 ∧ sessions m1 = sessions m ∧ PeersBeacons pb lim ∈ (send_peers_beacons m1).2.
Proof.
  intros Hstep Hr Hok Hin. pose proof (count_elem _ _ _ Hin) as Hc. destruct e; simpl in Hstep.
  - silent Hstep Hc.
  - exfalso. unfold handle_unregister in Hstep. case_decide; [silent Hstep Hc|].
    destruct (outcome _); [case_decide|..]; silent Hstep Hc.
  - exfalso. unfold handle_consolidate in Hstep.
    destruct (outcome _) as [[]| |], potential_new_peer; repeat case_decide; silent Hstep Hc.
  - unfold handle_peer_beacon in Hstep. set (m1 := with_beacons _ _) in *.
    pose proof (try_send_message pb lim m1) as Hm. destruct (try_send_peers_beacons m1) as [m2 r]. injection Hstep as <- <-.
    exists m1. split_and!; [|done|by apply Hm]. by apply peer_beacon_manager_ok.
  - destruct (handle_epoch pinfo checkpoint now m) as [[[m1 s1] d]| |] eqn:He; [|done..]. injection Hstep as <- <-.
    apply elem_of_app in Hin as [Hin|Hin]; [|exfalso; destruct d; [by apply list_elem_of_singleton in Hin|by apply not_elem_of_nil in Hin]].
    unfold handle_epoch in He. set (m2 := with_beacons _ _) in He. pose proof (try_send_message pb lim m2) as Hm.
    destruct (try_send_peers_beacons m2) as [m3 r]. destruct (update_epoch_constants _ _ _); simpl in He; [|done..].
    destruct (unwrap _); simpl in He; [|done..]. destruct (block_mining_timestamp _ _); simpl in He; [|done..].
    destruct (duration_between_timestamps _ _); simpl in He; [|done..]. injection He as _ <- _.
    exists m2. split_and!; [by destruct Hok|done|by apply Hm].
  - exists m. split_and!; [done..|]. injection Hstep as Hstep. unfold mining_timeout in Hstep.
    assert (∀ l : list (Sent T), PeersBeacons pb lim ∈ (l ++ if decide (0 < checkpoint) then [TryMineBlock] else []) →
              PeersBeacons pb lim ∈ l) as Hl.
    { intros l [Hl|Hl]%elem_of_app; [done|]. by apply count_elem in Hl; case_decide; vm_compute in Hl; lia. }
    destruct (try_send_cases m) as [(why & Heq & _)|Heq]; rewrite Heq in Hstep.
    + destruct why; simpl in Hstep; [injection Hstep as _ <-; by apply (Hl []), not_elem_of_nil in Hin| |];
        destruct (send_peers_beacons m); injection Hstep as _ <-; by apply Hl.
    + injection Hstep as _ <-. by apply Hl.
  - exfalso. unfold peers_beacons_reply in Hstep. destruct reply as [l|]; [|silent Hstep Hc].
    injection Hstep as <- <-. rewrite count_drop in Hc. lia.
  - exfalso. injection Hstep as <- <-. unfold drop_all_peers in Hc. rewrite count_app, !count_close in Hc. simpl in Hc. lia.
  - silent Hstep Hc.
  - silent Hstep Hc.
  - exfalso. unfold handle_set_epoch_constants in Hstep. destruct (epoch_at c get_timestamp); simpl in Hstep; try done; silent Hstep Hc.
Qed.

Lemma consolidated_size (s : Sessions T) (l : list SocketAddr) :
  NoDup l → (∀ a, a ∈ l ↔ consolidated_with s a) → length l = size (collection (outbound_consolidated s)).
Proof.
  intros Hnd Hl. rewrite <-(size_dom (D:=gset SocketAddr)), <-(size_list_to_set (C:=gset SocketAddr)) by done.
  f_equal. apply set_eq. intros a. rewrite elem_of_list_to_set, elem_of_dom. apply Hl.
Qed.

(** The message of a step lists the consolidated peers once, within the limit. *)
Lemma message_lists_peers e m m' sent pb lim :
  manager_ok m → regular e m → sessions_step pinfo e m = Some (m', sent) → PeersBeacons pb lim ∈ sent →
  NoDup pb.*1 ∧ (∀ a, a ∈ pb.*1 ↔ consolidated_with (sessions m) a) ∧ ∀ n, lim = Some n → Z.of_nat (length pb) ≤ n.
Proof.
  intros Hok He Hstep Hin. destruct (step_message _ _ _ _ _ _ Hstep He Hok Hin) as (m1 & Hok1 & Heq & Hin1).
  destruct (send_message _ _ _ Hok1 Hin1) as (Hnd & Hall & Hlim & _). rewrite Heq in Hall, Hlim. split_and!; [done..|].
  intros n ->. pose proof (consolidated_size _ _ Hnd Hall) as Hsize. rewrite length_fmap in Hsize.
  destruct Hok as [[_ _ _ Hb] _ _ _]. unfold bounded in Hb. rewrite <-Hlim in Hb. lia.
Qed.

(** In any run from the start of the actor, the message with the beacons lists every
    consolidated outbound peer once, and nobody else; so it never has more entries than
    the limit it carries, which the chain manager asserts. *)
Theorem beacons_cover_peers cfg public inb outb c now m0 l m s e m' sent pb lim :
  0 ≤ inb → 0 ≤ outb → manager_started cfg public inb outb c now = Ok m0 →
  regular_run l m0 → sessions_run pinfo l m0 = Some (m, s) →
  regular e m → sessions_step pinfo e m = Some (m', sent) → PeersBeacons pb lim ∈ sent →
  NoDup pb.*1 ∧ (∀ a, a ∈ pb.*1 ↔ consolidated_with (sessions m) a)
  ∧ ∀ n, lim = Some n → Z.of_nat (length pb) ≤ n.
Proof.
  intros Hi Ho H0 Hr Hrun He Hstep Hin. apply started_ok in H0; [|done..]. pose proof (run_ok _ _ _ _ Hrun Hr H0) as Hok.
  by eapply message_lists_peers.
Qed.

(** ** The peers in consensus *)

Lemma marked_all l (s : Sessions T) a :
  sessions_ok s → a ∈ l → consolidated_with s a →
  is_Some (collection (outbound_consolidated_consensus (foldl (λ s a, state_of s (consensus_session a s)) s l)) !! a).
Proof.
  assert (∀ l s, is_Some (collection (outbound_consolidated_consensus s) !! a) →
    is_Some (collection (outbound_consolidated_consensus (foldl (λ s a, state_of s (consensus_session (T:=T) a s)) s l)) !! a)) as Hkeep.
  { intros k. induction k as [|x k IH]; intros s1 Hs; [done|]. by apply IH, consensus_session_mono. }
  revert s. induction l as [|x l IH]; intros s Hok Ha Hc; [by apply not_elem_of_nil in Ha|]. simpl.
  destruct (decide (a = x)) as [<-|Hne]; [by apply Hkeep, consensus_session_marks|].
  apply elem_of_cons in Ha as [|Ha]; [done|]. apply IH; [by apply consensus_ok|done|].
  unfold consolidated_with. by rewrite consensus_session_consolidated.
Qed.

Lemma keep_elem (l : list SocketAddr) (keep : gset SocketAddr) a :
  a ∈ foldl (λ s a, s ∖ {[a]}) keep l ↔ a ∈ keep ∧ a ∉ l.
Proof.
  revert keep. induction l as [|x l IH]; intros keep; simpl; [set_solver|]. rewrite IH. set_solver.
Qed.

(** After a reply of the chain manager, every outbound peer of the message that it does not drop is
    marked as in consensus: there is always room for it. *)
Theorem kept_peers_in_consensus keep l m m' sent a :
  manager_ok m → peers_beacons_reply keep (Some l) m = (m', sent) →
  a ∈ keep → a ∉ l → consolidated_with (sessions m) a →
  is_Some (collection (outbound_consolidated_consensus (sessions m')) !! a).
Proof.
  intros [Hok _ _ _] Hr Hk Hl Hc. unfold peers_beacons_reply in Hr. injection Hr as <- <-. cbn.
  apply marked_all; [done| |done]. by apply elem_of_elements, keep_elem.
Qed.

(** ** Opening sessions *)

(** The peers that the actor connects to are eligible, and if all of them become sessions the
    outbound limit is not passed. *)
Theorem bootstrap_within_limit m response l :
  limit (outbound_consolidated (sessions m)) = Some l → get_num_outbound_sessions (sessions m) ≤ l →
  (∀ a, a ∈ process_get_peer_response response m → is_outbound_address_eligible a (sessions m) = true)
  ∧ get_num_outbound_sessions (sessions m) + Z.of_nat (length (process_get_peer_response response m)) ≤ l.
Proof.
  intros Hl Hn. unfold process_get_peer_response, num_missing_outbound. rewrite Hl. unfold sat_sub. split.
  - intros a (i & Hi & _)%elem_of_take. by apply list_elem_of_lookup_2, list_elem_of_filter in Hi as [Ha _].
  - rewrite length_take. lia.
Qed.

(** ** Consolidation that fails *)

(** When the inbound table is full, consolidating an inbound session drops it from the
    tables but keeps its network range; the session cannot be unregistered afterwards, so the
    range stays taken. *)
Theorem full_inbound_keeps_range (s : Sessions T) a info :
  collection (inbound_unconsolidated s) !! a = Some info → full (inbound_consolidated s) = true →
  ∃ s', consolidate_session Inbound a s = Fail s' MaxPeersReached
  ∧ collection (inbound_unconsolidated s') !! a = None
  ∧ unregister_session Inbound Unconsolidated a s' = Fail s' AddressNotFound
  ∧ inbound_network_ranges s' = inbound_network_ranges s.
Proof.
  intros Ha Hf. unfold consolidate_session, bounded_unregister, bounded_register. cbn [get_sessions lift_exec ebind]. rewrite Ha. cbn.
  unfold full in *. cbn. rewrite Hf. cbn. eexists. split; [done|]. cbn. split; [apply lookup_delete_eq|]. split; [|done].
  unfold unregister_session, bounded_unregister. cbn. by rewrite lookup_delete_eq.
Qed.
End Manager.
