(* ===== verification/SessionCorrect.v ===== *)
(** * Correctness of a session

    Addresses survive the trip through a message; a handshake between compatible nodes
    consolidates both ends, and no session is consolidated without one; a batch of
    blocks is handed over complete and in the order it was announced. *)

From stdpp Require Import base tactics numbers list gmap.
From Stdlib Require Import ZArith Lia.
From S2P Require Import Prelude Hashes Superblock Epoch Versioning Transaction Consensus BlockValidation.
From S2P Require Import Peers Sessions PeersManager SessionsManager Session.
Local Open Scope Z_scope.
Local Open Scope rust_scope.

(** ** Addresses *)

Lemma from_big_endian_app l k : from_big_endian (l ++ k) = from_big_endian l * 256 ^ Z.of_nat (length k) + from_big_endian k.
Proof.
  induction k as [|b k IH] using rev_ind; [rewrite app_nil_r; unfold from_big_endian; simpl; lia|].
  rewrite app_assoc, !from_big_endian_snoc, IH, length_app. simpl length.
  rewrite Nat2Z.inj_add, Z.pow_add_r by lia. change (256 ^ Z.of_nat 1) with 256. ring.
Qed.

Lemma lor_shiftl a b n : 0 ≤ n → 0 ≤ b < 2 ^ n → Z.lor (Z.shiftl a n) b = a * 2 ^ n + b.
Proof.
  intros Hn Hb. rewrite <-Z.shiftl_mul_pow2 by done. pose proof (Z.add_lor_land (Z.shiftl a n) b) as Hsum.
  enough (Z.land (Z.shiftl a n) b = 0) by lia. apply Z.bits_inj'. intros i Hi.
  rewrite Z.land_spec, Z.bits_0. destruct (decide (i < n)).
  - by rewrite Z.shiftl_spec_low.
  - assert (b < 2 ^ i) by (eapply Z.lt_le_trans; [apply Hb|]; apply Z.pow_le_mono_r; lia).
    assert (Z.testbit b i = false) as ->; [|by rewrite andb_false_r]. apply Z.testbit_false; [lia|]. rewrite Z.div_small by lia. done.
Qed.

Lemma quarters (o : list Z) :
  length o = 16%nat →
  o = take 4 o ++ take 4 (drop 4 o) ++ take 4 (drop 8 o) ++ take 4 (drop 12 o).
Proof. intros H. do 17 (destruct o as [|? o]; try done). Qed.

(** The octets of an IPv6 address, from its four words. *)
Lemma words_to_octets (o : list Z) :
  length o = 16%nat → Forall (fits 256) o →
  Z.lor (Z.lor (Z.lor (Z.shiftl (from_big_endian (take 4 o)) 96) (Z.shiftl (from_big_endian (take 4 (drop 4 o))) 64))
    (Z.shiftl (from_big_endian (take 4 (drop 8 o))) 32)) (from_big_endian (take 4 (drop 12 o))) = from_big_endian o.
Proof.
  intros Hl Ho.
  assert (∀ l, l ⊆+ o → length l = 4%nat → 0 ≤ from_big_endian l < 2 ^ 32) as Hw.
  { intros l Hsub Hll. pose proof (from_big_endian_bound l) as Hb. rewrite Hll in Hb. apply Hb.
    rewrite Forall_forall in *. intros x Hx. apply Ho. by eapply elem_of_submseteq. }
  assert (∀ n, (n ≤ 12)%nat → 0 ≤ from_big_endian (take 4 (drop n o)) < 2 ^ 32) as Hq.
  { intros n Hn. apply Hw; [|rewrite length_take, length_drop; lia].
    etrans; [apply sublist_submseteq, sublist_take|apply sublist_submseteq, sublist_drop]. }
  rewrite (quarters o Hl) at 5.
  change (take 4 o) with (take 4 (drop 0 o)). pose proof (Hq 0%nat). pose proof (Hq 4%nat). pose proof (Hq 8%nat). pose proof (Hq 12%nat).
  assert (∀ n, (n ≤ 12)%nat → length (take 4 (drop n o)) = 4%nat) as Hlen by (intros; rewrite length_take, length_drop; lia).
  rewrite !from_big_endian_app, !length_app, !Hlen by lia.
  generalize dependent (from_big_endian (take 4 (drop 0 o))). generalize dependent (from_big_endian (take 4 (drop 4 o))).
  generalize dependent (from_big_endian (take 4 (drop 8 o))). generalize dependent (from_big_endian (take 4 (drop 12 o))).
  clear. intros d Hd c Hc b Hb a Ha.
  change 96 with (64 + 32). change 64 with (32 + 32). rewrite <-!Z.shiftl_shiftl by lia. rewrite <-!Z.shiftl_lor.
  rewrite !lor_shiftl by lia. cbn [Nat.add Z.of_nat Pos.of_succ_nat Pos.succ]. lia.
Qed.

(** An IPv4 address survives the trip through a message, and so does an IPv6 address up to
    its flow label and scope, which the message has no room for. *)
Theorem address_roundtrip a :
  addr_wf a → from_address (to_address a) = match a with V4 _ _ => a | V6 o p _ _ => V6 o p 0 0 end.
Proof.
  destruct a as [o p|o p f s]; intros (Hl & Ho & _); unfold from_address, to_address.
  - cbn [addr_ip addr_port]. rewrite <-Hl. by rewrite to_from_big_endian.
  - unfold u128_to_be_u32. rewrite <-Hl at 1 2 3 4. rewrite to_from_big_endian by done. cbn [addr_ip addr_port].
    rewrite words_to_octets by done. rewrite <-Hl. by rewrite to_from_big_endian.
Qed.

(** ** A handshake between two nodes *)

(** A version that passes the checks of a session. *)
Definition version_passes (s : Session) (v : Version) (t : Z) : Prop :=
  check_timestamp_drift t (v_timestamp v) (handshake_max_ts_diff (s_config s)) = Ok tt
  ∧ (session_type s ≠ Inbound →
     check_beacon_compatibility (s_last_beacon s) (v_beacon v) (s_current_epoch s) (s_target s) = Ok tt).

Lemma handshake_version_inv s v t t' s' ms :
  handshake_version s v t t' = Ok (s', ms) →
  s' = set_handshake (MkFlags true true true (verack_rx (handshake_flags s))) (Some (from_address (sender_address v))) s
  ∧ version_passes s v t.
Proof.
  unfold handshake_version, version_passes. destruct (check_timestamp_drift _ _ _) as [[]| |]; simpl; [|done..].
  destruct (session_type s) eqn:Hty; simpl; [by intros [= <- _]|..];
    (destruct (check_beacon_compatibility _ _ _ _) as [[]| |]; simpl; [|done..]); by intros [= <- _].
Qed.

Section Handshake.
Context (pinfo : ProtocolInfo) (versioned_hash : ProtocolVersion → Block → Hash).
Local Abbreviation handle := (handle_message pinfo versioned_hash).

(** The two ends of a connection with the messages on their way, oldest first, and the
    effects of each end. *)
Record Link := MkLink {
  near : Session;
  far : Session;
  to_near : list Message;
  to_far : list Message;
  near_effects : list Effect;
  far_effects : list Effect;
}.

Definition outgoing (l : list Effect) : list Message :=
  omap (λ e, match e with SendMessage m => Some m | _ => None end) l.

Definition deliver_far (now : nat → Z) (l : Link) : option Link :=
  match to_far l with
  | [] => None
  | m :: rest =>
    let '(s, es) := handle (Some m) (now 0%nat) (now 1%nat) (far l) in
    Some (MkLink (near l) s (to_near l ++ outgoing es) rest (near_effects l) (far_effects l ++ es))
  end.
Definition deliver_near (now : nat → Z) (l : Link) : option Link :=
  match to_near l with
  | [] => None
  | m :: rest =>
    let '(s, es) := handle (Some m) (now 0%nat) (now 1%nat) (near l) in
    Some (MkLink s (far l) rest (to_far l ++ outgoing es) (near_effects l ++ es) (far_effects l))
  end.

(** The next delivery: to the preferred end, or to the other one if nothing waits there. *)
Definition deliver (prefer_far : bool) (now : nat → Z) (l : Link) : option Link :=
  if prefer_far then match deliver_far now l with Some l => Some l | None => deliver_near now l end
  else match deliver_near now l with Some l => Some l | None => deliver_far now l end.

(** Deliveries until none is left; step [k] reads the clock from [now k]. *)
Fixpoint deliveries (sched : list bool) (k : nat) (now : nat → nat → Z) (l : Link) : Link :=
  match sched with
  | [] => l
  | b :: sched => match deliver b (now k) l with Some l => deliveries sched (S k) now l | None => l end
  end.

(** An outbound session at the near end has been registered, and its version is on its way. *)
Definition connected (now : Z) (near far : Session) : Link :=
  let '(s, es) := register_reply true now near in
  MkLink s far [] (outgoing es) es [].

(** Sessions just created, at nodes of the same network. *)
Record fresh_pair (near far : Session) : Prop := {
  fp_near : status near = Unconsolidated ∧ handshake_flags near = flags_default ∧ session_type near = Outbound;
  fp_far : status far = Unconsolidated ∧ handshake_flags far = flags_default ∧ session_type far = Inbound;
  fp_magic : s_magic near = s_magic far;
}.

(** The clocks of both nodes agree within the tolerance of both. *)
Definition clocks_agree (start : Z) (now : nat → nat → Z) (s : Session) : Prop :=
  ∀ t t', (t = start ∨ ∃ k n, t = now k n) → (t' = start ∨ ∃ k n, t' = now k n) →
  check_timestamp_drift t t' (handshake_max_ts_diff (s_config s)) = Ok tt.

(** What an unconsolidated session does with a version that it accepts. *)
Lemma version_accepted s v m t t' :
  status s = Unconsolidated → kind m = VersionCmd v → msg_magic m = s_magic s →
  version_passes s v t →
  let f := handshake_flags s in
  let s' := set_handshake (MkFlags true true true (verack_rx f)) (Some (from_address (sender_address v))) s in
  handle (Some m) t t' s =
  (s', (SendMessage <$> ((if verack_tx f then [] else [build_verack (s_magic s)])
        ++ (if version_tx f then [] else [build_version (s_magic s) (public_addr s) (remote_addr s) (s_last_beacon s) t'])))
       ++ try_consolidate_session s').
Proof.
  intros Hst Hk Hm [Ht Hb]. simpl. rewrite decide_False by (by intros ?). rewrite Hst, Hk. unfold receive_version, handshake_version.
  rewrite Ht. simpl. destruct (session_type s) eqn:Hty; simpl; [|rewrite Hb by done; simpl..]; done.
Qed.

Lemma verack_accepted s m t t' :
  status s = Unconsolidated → kind m = Verack → msg_magic m = s_magic s →
  handle (Some m) t t' s = (handshake_verack s, try_consolidate_session (handshake_verack s)).
Proof. intros Hst Hk Hm. simpl. rewrite decide_False by (by intros ?). by rewrite Hst, Hk. Qed.

Lemma update_consolidate_outbound s : session_type s = Outbound → update_consolidate s = [Consolidate None].
Proof. intros Hs. unfold update_consolidate. rewrite Hs. by rewrite !decide_False. Qed.
Lemma update_consolidate_inbound s : session_type s = Inbound → update_consolidate s = [Consolidate (remote_sender_addr s)].
Proof. intros Hs. unfold update_consolidate. rewrite Hs. rewrite decide_False by done. by rewrite decide_True. Qed.

(** The effects other than messages to the peer. *)
Definition requests (l : list Effect) : list Effect :=
  omap (λ e, match e with SendMessage _ => None | e => Some e end) l.

(** A delivery when only one of the ends has messages waiting. *)
Lemma deliver_far_only b now l : to_near l = [] → deliver b now l = deliver_far now l.
Proof.
  intros Hn. unfold deliver, deliver_near. rewrite Hn. destruct b; [|done]. by destruct (deliver_far now l).
Qed.
Lemma deliver_near_only b now l : to_far l = [] → deliver b now l = deliver_near now l.
Proof.
  intros Hn. unfold deliver, deliver_far. rewrite Hn. destruct b; [done|]. by destruct (deliver_near now l).
Qed.

Lemma deliveries_done sched k now l : to_near l = [] → to_far l = [] → deliveries sched k now l = l.
Proof.
  intros Hn Hf. destruct sched; [done|]. simpl. rewrite deliver_far_only by done. unfold deliver_far. by rewrite Hf.
Qed.

(** C34. Two fresh sessions, one at each end of a connection, complete their handshake in four
    deliveries in whatever order the messages are taken, if the clocks agree and the near
    node finds the beacon of the far one compatible: both ask to be consolidated, the far one
    with the public address of the near node, and nothing else is on its way. *)
Theorem handshake_completes near0 far0 start now sched :
  fresh_pair near0 far0 → (4 ≤ length sched)%nat →
  clocks_agree start now near0 → clocks_agree start now far0 →
  check_beacon_compatibility (s_last_beacon near0) (s_last_beacon far0) (s_current_epoch near0) (s_target near0) = Ok tt →
  let l := deliveries sched 0 now (connected start near0 far0) in
  all_true (handshake_flags (near l)) = true ∧ all_true (handshake_flags (far l)) = true
  ∧ requests (near_effects l) = [Consolidate None]
  ∧ requests (far_effects l) = [Consolidate (Some (from_address (default Address_default (to_address <$> public_addr near0))))]
  ∧ to_near l = [] ∧ to_far l = [].
Proof.
  intros [(Hn1 & Hn2 & Hn3) (Hf1 & Hf2 & Hf3) Hm] Hs Hcn Hcf Hb.
  destruct near0 as [np nr nty nst nf nsa nm ne nb nh nbs nbt ncfg nex ntg].
  destruct far0 as [fp fr fty fst ff fsa fm fe fb fh fbs fbt fcfg fex ftg]. cbn in *. subst.
  destruct sched as [|b1 [|b2 [|b3 [|b4 sched]]]]; cbn in Hs; try lia. clear Hs.
  assert (∀ t t', (t = start ∨ ∃ k n, t = now k n) → (t' = start ∨ ∃ k n, t' = now k n) →
    check_timestamp_drift t t' (handshake_max_ts_diff fcfg) = Ok tt) as Hcf' by exact Hcf.
  assert (∀ t t', (t = start ∨ ∃ k n, t = now k n) → (t' = start ∨ ∃ k n, t' = now k n) →
    check_timestamp_drift t t' (handshake_max_ts_diff ncfg) = Ok tt) as Hcn' by exact Hcn.
  unfold connected, register_reply. cbn. rewrite decide_True by done. cbn.
  rewrite deliver_far_only by done. unfold deliver_far. cbn [to_far].
  erewrite version_accepted; [|done|done|done|split; cbn; [apply Hcf'; eauto|done]]. cbn.
  rewrite deliver_near_only by done. unfold deliver_near. cbn [to_near].
  erewrite verack_accepted by done. cbn.
  rewrite deliver_near_only by done. unfold deliver_near. cbn [to_near].
  erewrite version_accepted; [|done|done|done|split; cbn; [apply Hcn'; eauto|intros _; exact Hb]]. cbn.
  rewrite update_consolidate_outbound by done. cbn.
  rewrite deliver_far_only by done. unfold deliver_far. cbn [to_far].
  erewrite verack_accepted by done. cbn.
  rewrite update_consolidate_inbound by done. cbn. rewrite deliveries_done by done. cbn. split_and!; done.
Qed.
End Handshake.

(** ** The download of a batch of blocks *)

Section Batches.
Context (pinfo : ProtocolInfo) (versioned_hash : ProtocolVersion → Block → Hash).
Local Abbreviation step := (session_step pinfo versioned_hash).
Local Abbreviation run := (session_run pinfo versioned_hash).

(** The hash of a block under the protocol of its epoch, or under the next one. *)
Definition hash_of (b : Block) (h : Hash) : Prop :=
  let v := get_protocol_version pinfo (Some (checkpoint (beacon (block_header b)))) in
  h = versioned_hash v b ∨ h = versioned_hash (version_next v) b.

Record batch_ok (s : Session) : Prop := {
  ba_nodup : NoDup (requested_block_hashes s);
  ba_blocks : ∀ h b, requested_blocks s !! h = Some b → h ∈ requested_block_hashes s ∧ hash_of b h;
}.

Lemma requested_hash_spec b s h :
  requested_hash pinfo versioned_hash b s = Some h → h ∈ requested_block_hashes s ∧ hash_of b h.
Proof.
  unfold requested_hash, hash_of. case_decide; [intros [= <-]; auto|]. destruct (version_lt _ _); [|done].
  case_decide; [|done]. intros [= <-]. auto.
Qed.

Lemma drain_all hs (bs : gmap Hash Block) :
  NoDup hs → (∀ h, h ∈ hs → is_Some (bs !! h)) → Forall2 (λ h b, bs !! h = Some b) hs (drain_blocks hs bs).
Proof.
  intros Hnd. revert bs. induction Hnd as [|h hs Hh Hnd IH]; intros bs Hall; [constructor|]. simpl.
  destruct (Hall h) as [b Hb]; [left|]. rewrite Hb. constructor; [done|].
  eapply Forall2_impl; [apply IH|].
  - intros x Hx. rewrite lookup_delete_ne by (intros ->; done). apply Hall. by right.
  - intros x c Hc. by apply lookup_delete_Some in Hc as [_ ?].
Qed.

Lemma all_received hs (bs : gmap Hash Block) :
  NoDup hs → (∀ h b, bs !! h = Some b → h ∈ hs) → size bs = length hs → ∀ h, h ∈ hs → is_Some (bs !! h).
Proof.
  intros Hnd Hin Hsize h Hh. apply elem_of_dom.
  assert ((dom bs : gset Hash) ≡ list_to_set hs) as ->; [|by apply elem_of_list_to_set].
  apply set_subseteq_size_equiv; [|rewrite size_list_to_set, size_dom by done; lia].
  intros x [b Hb]%elem_of_dom. apply elem_of_list_to_set. eauto.
Qed.

Lemma insert_batch_ok b h s ts :
  batch_ok s → h ∈ requested_block_hashes s → hash_of b h →
  batch_ok (set_requested (requested_block_hashes s) (<[h := b]> (requested_blocks s)) ts s).
Proof.
  intros [Hnd Hb] Hh Hof. split; cbn; [done|]. intros x c Hx. apply lookup_insert_Some in Hx as [[<- <-]|[_ Hx]]; eauto.
Qed.

Lemma index_set_NoDup_from (l acc : list Hash) : NoDup acc → NoDup (foldl (λ acc h, if decide (h ∈ acc) then acc else acc ++ [h]) acc l).
Proof.
  revert acc. induction l as [|h l IH]; intros acc Hacc; [done|]. simpl. apply IH. case_decide; [done|].
  apply NoDup_app. split_and!; [done| |apply NoDup_singleton]. by intros x Hx ->%list_elem_of_singleton.
Qed.

Lemma index_set_NoDup (l : list Hash) : NoDup (index_set l).
Proof. apply index_set_NoDup_from, NoDup_nil_2. Qed.

Lemma step_batch_ok e s : batch_ok s → batch_ok (step e s).1.
Proof.
  intros Hok. assert (∀ s', requested_block_hashes s' = requested_block_hashes s → requested_blocks s' = requested_blocks s → batch_ok s') as Hsame.
  { intros s' Hh Hb. destruct Hok. split; rewrite ?Hh, ?Hb; auto. }
  destruct e as [[[k mg]|] t t'|ok|c t|]; [|by apply Hsame|by destruct ok; apply Hsame|by apply Hsame|by apply Hsame].
  simpl. case_decide; [by apply Hsame|]. destruct (status s), k; try (by apply Hsame).
  - cbn. unfold receive_version. destruct (handshake_version s v t t') as [[s' ms]| |] eqn:Hv; [|by apply Hsame..].
    apply handshake_version_inv in Hv as (-> & _). by apply Hsame.
  - cbn. unfold peer_discovery_peers. case_decide; by apply Hsame.
  - cbn. unfold inventory_process_block. destruct (requested_hash _ _ b s) as [h|] eqn:Hr; [|by apply Hsame].
    apply requested_hash_spec in Hr as [Hh Hof]. case_decide; cbn; [by split; cbn; [apply NoDup_nil_2|]|]. by apply insert_batch_ok.
  - cbn. split; cbn; [apply index_set_NoDup|done].
  - cbn. destruct (session_type s); by apply Hsame.
Qed.

Lemma run_snoc_fst l s : batch_ok s → batch_ok (run l s).1.
Proof.
  revert s. induction l as [|e l IH]; intros s Hs; [done|]. simpl. pose proof (step_batch_ok e s Hs) as Hs1.
  destruct (session_step _ _ e s) as [s1 es]. specialize (IH s1 Hs1). by destruct (session_run _ _ l s1).
Qed.

Lemma process_block_batch b s bs sender :
  batch_ok s → AddBlocks bs (Some sender) ∈ (inventory_process_block pinfo versioned_hash b s).2 →
  sender = remote_addr s ∧ Forall2 (λ h b, hash_of b h) (requested_block_hashes s) bs.
Proof.
  intros Hok. unfold inventory_process_block. destruct (requested_hash _ _ b s) as [h|] eqn:Hr.
  - apply requested_hash_spec in Hr as [Hh Hof]. pose proof (insert_batch_ok b h s 0 Hok Hh Hof) as [Hnd Hall]. cbn in Hnd, Hall.
    case_decide as Hsize; cbn; [|by intros ?%not_elem_of_nil]. intros [= -> ->]%list_elem_of_singleton. split; [done|].
    eapply Forall2_impl; [apply drain_all; [done|]|].
    + apply all_received; [done| |done]. intros x c Hx. by apply (Hall x c).
    + intros x c Hx. by apply Hall.
  - by intros ?%list_elem_of_singleton.
Qed.

(** A session in any state it reaches hands blocks to the chain manager only when its batch
    is complete: the blocks it then hands over are those it asked for, in the order
    in which the peer announced them, each with the hash it was announced by. *)
Theorem batch_in_order public remote ty magic epoch beacon cfg target l e bs sender
    (s := (run l (session_new public remote ty magic epoch beacon cfg target)).1) :
  AddBlocks bs (Some sender) ∈ (step e s).2 →
  sender = remote_addr s ∧ Forall2 (λ h b, hash_of b h) (requested_block_hashes s) bs.
Proof.
  assert (batch_ok s) as Hok by (apply run_snoc_fst; split; [apply NoDup_nil_2|done]). clearbody s.
  destruct e as [[[k mg]|] t t'|ok|c t|]; simpl.
  - case_decide; [set_solver|]. destruct (status s), k; cbn; try (set_solver).
    + unfold try_consolidate_session, update_consolidate. destruct (all_true _); [case_decide|]; set_solver.
    + unfold receive_version. destruct (handshake_version s v t t') as [[s' ms]| |].
      * cbn. rewrite elem_of_app, list_elem_of_fmap. intros [(? & ? & _)|Hin]; [done|].
        unfold try_consolidate_session, update_consolidate in Hin. destruct (all_true _); [case_decide|]; set_solver.
      * cbn. case_match; set_solver.
      * set_solver.
    + unfold peer_discovery_peers. case_decide; set_solver.
    + by apply process_block_batch.
    + unfold inventory_process_inv. cbn. case_match; set_solver.
    + destruct (session_type s); set_solver.
  - set_solver.
  - destruct ok; set_solver.
  - destruct (_ && _); set_solver.
  - set_solver.
Qed.

(** An announcement is answered with a request for its blocks, each once, no more than the
    limit of a batch. *)
Theorem announcement_requests_blocks inv t s s' es :
  inventory_process_inv inv t s = (s', es) →
  NoDup (requested_block_hashes s') ∧ requested_block_hashes s' ⊆ block_entries inv ∧ requested_blocks s' = ∅
  ∧ (∀ l, batch_limit (s_config s) = Some l → 0 ≤ l → Z.of_nat (length (requested_block_hashes s')) ≤ l)
  ∧ (requested_block_hashes s' ≠ [] → es = [SendMessage (build_message (s_magic s) (InventoryRequest (EntryBlock <$> requested_block_hashes s')))]).
Proof.
  assert (∀ l acc : list Hash, foldl (λ acc h, if decide (h ∈ acc) then acc else acc ++ [h]) acc l ⊆ acc ++ l
    ∧ (length (foldl (λ acc h, if decide (h ∈ acc) then acc else acc ++ [h]) acc l) ≤ length acc + length l)%nat) as Hidx.
  { intros l. induction l as [|h l IH]; intros acc; simpl; [rewrite app_nil_r; split; [done|lia]|].
    case_decide as Hin; [destruct (IH acc)|destruct (IH (acc ++ [h]))]; rewrite ?length_app in *; simpl in *; split; [set_solver|lia|set_solver|lia]. }
  unfold inventory_process_inv. intros [= <- <-]. cbn.
  destruct (batch_limit (s_config s)) as [l|].
  - destruct (Hidx (take (Z.to_nat l) (block_entries inv)) []) as [Hsub Hlen]. fold (index_set (take (Z.to_nat l) (block_entries inv))) in *.
    split_and!; [apply index_set_NoDup| |done| |].
    + intros x Hx%Hsub. apply elem_of_take in Hx as (i & Hi & _). by apply list_elem_of_lookup_2 in Hi.
    + intros l' [= <-] Hl. rewrite length_take in Hlen. simpl in Hlen. lia.
    + by destruct (index_set _).
  - destruct (Hidx (block_entries inv) []) as [Hsub Hlen]. fold (index_set (block_entries inv)) in *.
    split_and!; [apply index_set_NoDup|done|done|done|]. by destruct (index_set _).
Qed.
End Batches.

(** ** No consolidation without a handshake *)

Section Safety.
Context (pinfo : ProtocolInfo) (versioned_hash : ProtocolVersion → Block → Hash).
Local Abbreviation step := (session_step pinfo versioned_hash).
Local Abbreviation run := (session_run pinfo versioned_hash).

(** What does not change in a session. *)
Definition static (s : Session) := (s_config s, session_type s, s_last_beacon s, s_target s, s_magic s).

(** The event is a version of the same network that passes the checks, or a verack. *)
Definition gives_version (e : SessionEvent) (s : Session) : Prop :=
  ∃ m v t t', e = Receive (Some m) t t' ∧ kind m = VersionCmd v ∧ msg_magic m = s_magic s ∧ version_passes s v t.
Definition gives_verack (e : SessionEvent) (s : Session) : Prop :=
  ∃ m t t', e = Receive (Some m) t t' ∧ kind m = Verack ∧ msg_magic m = s_magic s.

(** The peer is reported as a good one: to the sessions manager, or by a feeler. *)
Definition reported (l : list Effect) : Prop :=
  (∃ p, Consolidate p ∈ l) ∨ (∃ a, TellPeers (AddConsolidatedPeer a) ∈ l).

Lemma reported_nil : ¬ reported [].
Proof. intros [[? H]|[? H]]; by apply not_elem_of_nil in H. Qed.

Lemma try_consolidate_reported s : reported (try_consolidate_session s) → all_true (handshake_flags s) = true.
Proof. unfold try_consolidate_session. destruct (all_true _); [done|]. by intros ?%reported_nil. Qed.

Lemma reported_app l k : reported (l ++ k) → reported l ∨ reported k.
Proof. unfold reported. intros [[p [H|H]%elem_of_app]|[a [H|H]%elem_of_app]]; eauto. Qed.

Lemma reported_sent (l : list Message) : ¬ reported (SendMessage <$> l).
Proof. by intros [[? (? & ? & _)%list_elem_of_fmap]|[? (? & ? & _)%list_elem_of_fmap]]. Qed.

(** What a step may do to the handshake. *)
Record step_facts (e : SessionEvent) (s s' : Session) (es : list Effect) : Prop := {
  sf_static : static s' = static s;
  sf_version : version_rx (handshake_flags s') = true → version_rx (handshake_flags s) = true ∨ gives_version e s;
  sf_verack : verack_rx (handshake_flags s') = true → verack_rx (handshake_flags s) = true ∨ gives_verack e s;
  sf_reported : reported es → all_true (handshake_flags s') = true;
}.

(** A step that leaves the handshake alone and reports nothing. *)
Lemma idle_facts e s s' es :
  static s' = static s → handshake_flags s' = handshake_flags s →
  Forall (λ x, match x with Consolidate _ | TellPeers (AddConsolidatedPeer _) => False | _ => True end) es →
  step_facts e s s' es.
Proof.
  intros Hs Hf Hes. split; [done|rewrite Hf; auto..|]. rewrite Forall_forall in Hes.
  intros [[p Hp%Hes]|[a Ha%Hes]]; done.
Qed.

Lemma step_has_facts e s : step_facts e s (step e s).1 (step e s).2.
Proof.
  destruct e as [[[k mg]|] t t'|ok|c t|]; [| | |..]; simpl.
  - case_decide as Hm; [by apply idle_facts; repeat constructor|]. simpl in Hm.
    destruct (status s), k; simpl; try (by apply idle_facts; repeat constructor).
    + split; [done|auto| |].
      * intros _. right. by eexists (MkMessage Verack mg), t, t'.
      * intros Hr. by apply try_consolidate_reported in Hr.
    + unfold receive_version. destruct (handshake_version s v t t') as [[s' ms]|err|] eqn:Hv; simpl.
      * apply handshake_version_inv in Hv as [-> Hp]. split; [done| |cbn; auto|].
        -- intros _. right. by exists (MkMessage (VersionCmd v) mg), v, t, t'.
        -- intros [?%reported_sent|Hr]%reported_app; [done|]. by apply try_consolidate_reported in Hr.
      * apply idle_facts; [done..|]. case_match; repeat constructor.
      * by apply idle_facts; repeat constructor.
    + unfold peer_discovery_peers. case_decide; by apply idle_facts; repeat constructor.
    + unfold inventory_process_block. destruct (requested_hash _ _ b s); [case_decide|]; by apply idle_facts; repeat constructor.
    + apply idle_facts; [done..|]. case_match; repeat constructor.
    + destruct (session_type s); by apply idle_facts; repeat constructor.
  - by apply idle_facts; repeat constructor.
  - destruct ok; by apply idle_facts; repeat constructor.
  - apply idle_facts; [done..|]. destruct (_ && _); repeat constructor.
  - by apply idle_facts; repeat constructor.
Qed.

Lemma reported_needs l s :
  reported (run l s).2 →
  (version_rx (handshake_flags s) = true ∨ ∃ e s', e ∈ l ∧ static s' = static s ∧ gives_version e s')
  ∧ (verack_rx (handshake_flags s) = true ∨ ∃ e s', e ∈ l ∧ static s' = static s ∧ gives_verack e s').
Proof.
  revert s. induction l as [|e l IH]; intros s; simpl; [by intros ?%reported_nil|].
  pose proof (step_has_facts e s) as [Hs Hv Hk Hr]. destruct (session_step _ _ e s) as [s1 es]. specialize (IH s1).
  destruct (session_run _ _ l s1) as [s2 es']. simpl in *.
  assert (version_rx (handshake_flags s1) = true → version_rx (handshake_flags s) = true ∨
            ∃ x s', x ∈ e :: l ∧ static s' = static s ∧ gives_version x s') as Hv'.
  { intros [?|?]%Hv; [by left|]. right. exists e, s. split_and!; [left|done..]. }
  assert (verack_rx (handshake_flags s1) = true → verack_rx (handshake_flags s) = true ∨
            ∃ x s', x ∈ e :: l ∧ static s' = static s ∧ gives_verack x s') as Hk'.
  { intros [?|?]%Hk; [by left|]. right. exists e, s. split_and!; [left|done..]. }
  intros [Hrep%Hr|[Hv2 Hk2]%IH]%reported_app.
  - unfold all_true in Hrep. apply andb_true_iff in Hrep as [Hrep Hvr]. apply andb_true_iff in Hrep as [Hrep _].
    apply andb_true_iff in Hrep as [_ Hkr]. auto.
  - rewrite Hs in Hv2, Hk2. split.
    + destruct Hv2 as [|(x & s' & Hx & ?)]; [auto|]. right. exists x, s'. split; [by right|done].
    + destruct Hk2 as [|(x & s' & Hx & ?)]; [auto|]. right. exists x, s'. split; [by right|done].
Qed.

(** A peer is reported to the sessions manager, or by a feeler to the peers manager, only
    after it has sent a verack and a version whose time and, unless the peer called us,
    whose beacon were found compatible. *)
Theorem consolidation_needs_handshake public remote ty magic epoch beacon cfg target flags l
    (s0 := set_handshake (MkFlags flags false false false) None (session_new public remote ty magic epoch beacon cfg target)) :
  reported (run l s0).2 →
  (∃ e s, e ∈ l ∧ static s = static s0 ∧ gives_version e s) ∧ (∃ e s, e ∈ l ∧ static s = static s0 ∧ gives_verack e s).
Proof. intros [[|Hv] [|Hk]]%reported_needs; try done. Qed.
End Safety.
