(* ===== verification/NetworkExamples.v ===== *)
(** * Runs of the network actors

    Concrete runs on which the theorems about peers and sessions are applied, and which
    show the behaviours reported as findings. *)

From stdpp Require Import base tactics numbers list gmap.
From Stdlib Require Import ZArith Lia.
From S2P Require Import Prelude Hashes Superblock Epoch Versioning Transaction Consensus BlockValidation.
From S2P Require Import Peers Sessions PeersManager SessionsManager Session PeersCorrect SessionsCorrect SessionsManagerCorrect SessionCorrect.
Local Open Scope Z_scope.

(** ** Peers *)

(** A digest that depends on its input, and three addresses. *)
Definition toy_sha256 (l : list Z) : list Z := replicate 31 0 ++ [foldl (λ acc b, (acc * 31 + b) mod 256) 7 l].
Definition server : SocketAddr := V4 [10; 0; 0; 1] 21337.
Definition peer1 : SocketAddr := V4 [52; 166; 178; 145] 21337.
Definition peer2 : SocketAddr := V4 [52; 166; 11; 45] 21337.
Definition at_time (t : Z) : nat → Z := λ _, t.
Definition fresh_manager : PeersManager := manager_from_config 14400 server 300 60 1 42.

(** The manager after a peer has been announced and consolidated. *)
Definition used_events : list ((nat → Z) * PeersEvent) :=
  [(at_time 1000, AddPeers [peer2] (Some peer1)); (at_time 1001, AddConsolidatedPeer peer1); (at_time 1002, FirstEpoch)].
Definition used_manager : PeersManager :=
  match peers_run toy_sha256 used_events fresh_manager with Some (m, _) => m | None => fresh_manager end.

Lemma reachable_run l m m' out :
  reachable toy_sha256 m → Forall (λ x, ∀ stored known, x.2 ≠ ImportPeers stored known) l →
  peers_run toy_sha256 l m = Some (m', out) → reachable toy_sha256 m'.
Proof.
  intros Hm Hl. revert m m' out Hm. induction Hl as [|[now e] l He Hl IH]; intros m m' out Hm; simpl; [by intros [= <- _]|].
  destruct (peers_step toy_sha256 now e m) as [[m1 o1]|] eqn:H1; simpl; [|done].
  destruct (peers_run toy_sha256 l m1) as [[m2 o2]|] eqn:H2; simpl; [|done]. intros [= <- _].
  eapply IH; [|exact H2]. eapply reach_step; [done| |exact H1]. by apply stored_none.
Qed.

Lemma used_reachable : reachable toy_sha256 used_manager.
Proof.
  unfold used_manager. destruct (peers_run toy_sha256 used_events fresh_manager) as [[m out]|] eqn:H; [|constructor].
  eapply reachable_run; [constructor| |exact H]. by repeat constructor.
Qed.

(** [reachable_buckets] on the manager above, which knows two peers. *)
Lemma reachable_buckets_witness :
  get_all_from_new (peers used_manager) = [peer2] ∧ get_all_from_tried (peers used_manager) = [peer1]
  ∧ NoDup (get_all_from_tried (peers used_manager)).
Proof.
  split; [by vm_compute|]. split; [by vm_compute|].
  exact (proj1 (reachable_buckets toy_sha256 used_manager used_reachable)).
Defined.

(** The events of an hour in which everybody announces the iced peer again. *)
Definition iced_events : list ((nat → Z) * PeersEvent) :=
  [(at_time 1010, AddPeers [peer1; peer2] (Some peer2)); (at_time 1020, MeltTick); (at_time 1030, AddConsolidatedPeer peer1);
   (at_time 1040, FeelerTick head); (at_time 2000, AddConsolidatedPeer peer2); (at_time 2700, MeltTick)].

(** [iced_address_left_alone] on these events: the feeler connects to the other peer. *)
Lemma iced_witness :
  ∃ m' out, peers_run toy_sha256 iced_events
              (handle_remove_addresses_from_tried toy_sha256 (at_time 1005) [peer1] true used_manager).2 = Some (m', out)
  ∧ connect_to <$> out = [peer2] ∧ peer1 ∉ get_all_from_tried (peers m').
Proof.
  destruct (peers_run toy_sha256 iced_events
              (handle_remove_addresses_from_tried toy_sha256 (at_time 1005) [peer1] true used_manager).2) as [[m' out]|] eqn:H.
  2: { exfalso. vm_compute in H. discriminate H. }
  exists m', out. split; [done|]. split.
  - assert (snd <$> peers_run toy_sha256 iced_events
              (handle_remove_addresses_from_tried toy_sha256 (at_time 1005) [peer1] true used_manager).2
            = Some [MkConnect peer2 Feeler]) as Hout by by vm_compute.
    rewrite H in Hout. simpl in Hout. injection Hout as ->. done.
  - refine (proj1 (proj2 (iced_address_left_alone toy_sha256 peer1 (at_time 1005) used_manager 1800 iced_events m' out
      used_reachable _ _ _ _ _ H))).
    + done.
    + done.
    + by vm_compute.
    + apply (bool_decide_unpack _). by vm_compute.
    + unfold iced_events, at_time. repeat (apply Forall_cons; split; [split; [intros n; cbn; lia|]|]); [done|done|done| |done|done|apply Forall_nil_2; done].
      simpl. intros l x. destruct l; [done|]. intros [= <-]. left.
Defined.

(** [random_peers_exact] with the first entries as the choice and a coin that always shows
    one: both peers are returned. *)
Lemma random_peers_witness :
  ∃ l, get_random_peers (λ l n, take n l) (λ _, 1%nat) 5 (peers used_manager) = Some l ∧ length l = 2%nat.
Proof.
  destruct (random_peers_exact (λ l n, take n l) (λ _, 1%nat) 5 (peers used_manager)) as (l & Hl & Hlen & _).
  - split; [intros l n; apply sublist_submseteq, sublist_take|intros l n; apply length_take|done].
  - exists l. split; [done|]. rewrite Hlen. by vm_compute.
Defined.

(** After a restart the ice period is 60 seconds, whatever is configured: an address that was
    iced two minutes ago is taken back. *)
Theorem restart_forgets_ice_period calculate_sha256 now m known m' :
  import_peers calculate_sha256 now (deserialized (peers m)) known m = Some m' →
  ice_period (peers m') = 60.
Proof.
  unfold import_peers, add_to_new.
  assert (∀ k src l p r p', add_to_new_from calculate_sha256 k now l src p = Some (r, p') → ice_period p' = ice_period p) as Hper.
  { intros k src l. revert k. induction l as [|a l IH]; intros k p r p'; simpl; [by intros [= _ <-]|].
    destruct (add_one_to_new _ _ _ _ _ _) as [[old q]|] eqn:H1; simpl; [|done].
    destruct (add_to_new_from _ _ _ _ _ q) as [[olds q']|] eqn:H2; simpl; [|done]. intros [= _ <-]. apply IH in H2 as ->.
    by apply add_one_to_new_inv in H1 as [(ice & -> & _)|(_ & _ & ice & s & -> & _)]. }
  destruct (add_to_new_from _ _ _ _ _ _) as [[r p]|] eqn:Ha; simpl; [|done]. intros [= <-]. cbn. by apply Hper in Ha.
Qed.

(** An iced address that was already in the new bucket is still offered as a random peer. *)
Theorem iced_address_still_offered :
  let m := (handle_remove_addresses_from_tried toy_sha256 (at_time 1005) [peer2] true used_manager).2 in
  get_random_peers (λ l n, take n l) (λ _, 1%nat) 1 (peers m) = Some [peer2].
Proof. by vm_compute. Qed.

(** ** Sessions manager *)

Definition genesis_beacon : CheckpointBeacon := MkBeacon 0 (replicate 32 17).
Definition some_beacon : LastBeacon := MkLastBeacon genesis_beacon genesis_beacon.
Definition net_config : ConnectionsConfig := MkConnections true 18.
Definition net_constants : EpochConstants := MkEpochConstants 0 45 I64_MAX 20.

(** A node with room for one inbound and two outbound sessions. *)
Definition net_manager : SessionsManager nat :=
  match manager_started net_config (Some server) 1 2 net_constants 45 with Ok m => m | _ => MkManager Sessions_default Beacons_default None 0 None None None end.

Definition setup : list (SessionsEvent nat) :=
  [EvSetEpochConstants net_constants 45; EvSetLastBeacon some_beacon;
   EvRegister Outbound peer1 1%nat; EvConsolidate Outbound peer1 None;
   EvRegister Outbound peer2 2%nat; EvConsolidate Outbound peer2 None].
Definition set_up_manager : SessionsManager nat :=
  match sessions_run protocol_default setup net_manager with Some (m, _) => m | None => net_manager end.


(** A notification that comes after the time to mine leaves no closure, and with one of the
    two beacons nothing is sent. *)
Example late_epoch_sends_nothing :
  (λ x, (x.1.2, count_beacons x.2)) <$> actor_run protocol_default [EvEpoch 2 (130, 0); EvPeerBeacon peer1 some_beacon]
    (set_up_manager, []) = Some ([], 0%nat).
Proof. by vm_compute. Qed.

(** [beacons_cover_peers] at the end of that epoch: the peer without a beacon is listed. *)
Definition heard : list (SessionsEvent nat) := setup ++ [EvEpoch 2 (90, 0); EvPeerBeacon peer1 some_beacon].
Definition heard_manager : SessionsManager nat :=
  match sessions_run protocol_default heard net_manager with Some (m, _) => m | None => net_manager end.

Lemma beacons_cover_witness :
  ∃ m' sent pb lim, sessions_step protocol_default (EvMiningTimeout 2) heard_manager = Some (m', sent)
  ∧ sent = [PeersBeacons pb lim; TryMineBlock] ∧ NoDup pb.*1 ∧ peer2 ∈ pb.*1.
Proof.
  destruct (sessions_run protocol_default heard net_manager) as [[m s]|] eqn:Hrun; [|exfalso; vm_compute in Hrun; discriminate Hrun].
  assert (heard_manager = m) as Hm by (unfold heard_manager; by rewrite Hrun).
  assert (snd <$> sessions_step protocol_default (EvMiningTimeout 2) heard_manager
          = Some [PeersBeacons [(peer1, Some some_beacon); (peer2, None)] (Some 2); TryMineBlock]) as Hsent by by vm_compute.
  destruct (sessions_step protocol_default (EvMiningTimeout 2) heard_manager) as [[m' sent]|] eqn:Hstep; [|done].
  injection Hsent as ->. eexists m', _, _, _. split; [done|]. split; [done|].
  refine ((λ p, conj (proj1 p) (proj2 (proj1 (proj2 p) peer2) _)) (beacons_cover_peers protocol_default net_config (Some server) 1 2 net_constants 45
    net_manager heard heard_manager s (EvMiningTimeout 2) m' _ _ _ _ _ _ _ _ _ Hstep _)).
  - apply (bool_decide_unpack _). by vm_compute.
  - done.
  - done.
  - by vm_compute.
  - apply (bool_decide_unpack _). by vm_compute.
  - by rewrite Hm.
  - done.
  - left.
Defined.

(** [full_inbound_keeps_range] on a full table: a second inbound peer that completes its handshake
    is dropped, and its range refuses other peers afterwards. *)
Definition inbound1 : SocketAddr := V4 [81; 2; 3; 4] 40000.
Definition inbound2 : SocketAddr := V4 [90; 5; 6; 7] 40001.
Definition neighbour : SocketAddr := V4 [90; 5; 9; 9] 40002.
Definition full_events : list (SessionsEvent nat) :=
  [EvSetLastBeacon some_beacon; EvRegister Inbound inbound1 1%nat; EvConsolidate Inbound inbound1 None; EvRegister Inbound inbound2 2%nat].
Definition full_manager : SessionsManager nat :=
  match sessions_run protocol_default full_events net_manager with Some (m, _) => m | None => net_manager end.

Lemma full_inbound_witness :
  ∃ s', consolidate_session Inbound inbound2 (sessions full_manager) = Fail s' MaxPeersReached
  ∧ unregister_session Inbound Unconsolidated inbound2 s' = Fail s' AddressNotFound
  ∧ is_similar_to_inbound_session neighbour s' = Some [90; 5; 0; 0].
Proof.
  destruct (collection (inbound_unconsolidated (sessions full_manager)) !! inbound2) as [info|] eqn:Hi;
    [|exfalso; vm_compute in Hi; discriminate Hi].
  assert (full (inbound_consolidated (sessions full_manager)) = true) as Hf by by vm_compute.
  destruct (full_inbound_keeps_range (sessions full_manager) inbound2 info Hi Hf) as (s' & Hc & _ & Hu & Hr).
  exists s'. split; [done|]. split; [done|]. unfold is_similar_to_inbound_session. rewrite Hr. by vm_compute.
Defined.

(** The same, by the events of the actors: the neighbour is refused although no session of its
    range is left. *)
Theorem range_leaks :
  let events := full_events ++ [EvConsolidate Inbound inbound2 None; EvUnregister Inbound Unconsolidated inbound2] in
  match sessions_run protocol_default events net_manager with
  | Some (m, _) =>
    (map_to_list (collection (inbound_consolidated (sessions m)))).*1 = [inbound1]
    ∧ (map_to_list (collection (inbound_unconsolidated (sessions m)))).*1 = []
    ∧ handle_create (Some neighbour) Inbound m = Ok []
  | None => False
  end.
Proof. by vm_compute. Qed.

(** ** A session *)

Definition session_cfg : SessionConfig := MkSessionConfig 10 500 10 900.
Definition near_session : Session := session_new (Some server) peer1 Outbound 10700 5 some_beacon session_cfg None.
Definition far_session : Session := session_new (Some peer1) inbound1 Inbound 10700 5 some_beacon session_cfg None.

(** [handshake_completes] between the two sessions, with clocks that differ by three seconds. *)
Lemma handshake_witness :
  let l := deliveries protocol_default (λ _ _, []) [true; true; false; false] 0 (λ k _, 1000 + Z.of_nat (k mod 2) * 3)
             (connected 1000 near_session far_session) in
  all_true (handshake_flags (near l)) = true ∧ requests (far_effects l) = [Consolidate (Some server)].
Proof.
  assert (∀ k : nat, 0 ≤ Z.of_nat (k mod 2) ≤ 1) as Hk by (intros k; pose proof (Nat.mod_upper_bound k 2); lia).
  assert (clocks_agree 1000 (λ k _, 1000 + Z.of_nat (k mod 2) * 3) near_session) as Hc.
  { intros t t' Ht Ht'. unfold check_timestamp_drift, sat_sub_i64, sat_add_i64, clamp_i64, I64_MAX. cbn [near_session session_new s_config session_cfg handshake_max_ts_diff].
    rewrite decide_False by done. rewrite decide_True; [done|].
    assert (1000 ≤ t ≤ 1003 ∧ 1000 ≤ t' ≤ 1003) as [? ?]; [|lia].
    split; [destruct Ht as [->|(k & n & ->)]|destruct Ht' as [->|(k & n & ->)]]; try lia; specialize (Hk k); lia. }
  destruct (handshake_completes protocol_default (λ _ _, []) near_session far_session 1000 (λ k _, 1000 + Z.of_nat (k mod 2) * 3)
    [true; true; false; false]) as (Hn & _ & _ & Hf & _); [by split|done|exact Hc|exact Hc|by vm_compute|].
  split; [exact Hn|]. exact Hf.
Defined.

(** [consolidation_needs_handshake] on a verack followed by a version. *)
Definition far_version (t : Z) : Message := build_version 10700 (Some peer1) server some_beacon t.
Definition handshake_events : list SessionEvent :=
  [Receive (Some (build_verack 10700)) 1000 1000; Receive (Some (far_version 1002)) 1003 1003].

Lemma consolidation_witness :
  ∃ e s, e ∈ handshake_events ∧ static s = static near_session ∧ gives_version e s.
Proof.
  refine (proj1 (consolidation_needs_handshake protocol_default (λ _ _, []) (Some server) peer1 Outbound 10700 5 some_beacon session_cfg None
    true handshake_events _)).
  left. exists None. apply (list_elem_of_lookup_2 _ 1). by vm_compute.
Defined.

(** [batch_in_order] on two blocks that arrive in the opposite order. *)
Definition toy_block (epoch : Z) : Block :=
  MkBlock {| signals := 0; beacon := MkBeacon epoch []; merkle_roots := {| mint_hash := []; vt_hash_merkle_root := []; dr_hash_merkle_root := [];
      commit_hash_merkle_root := []; reveal_hash_merkle_root := []; tally_hash_merkle_root := []; stake_hash_merkle_root := [];
      unstake_hash_merkle_root := [] |}; proof := ([], public_key_default); bn256_public_key := None |}
    signature_default (MkTxns mint_default [] [] [] [] [] [] []).
Definition toy_hash (v : ProtocolVersion) (b : Block) : Hash := [checkpoint (beacon (block_header b))].
Definition receive_all (l : list Command) : list SessionEvent := (λ c, Receive (Some (MkMessage c 10700)) 1003 1003) <$> l.
Definition batch_events : list SessionEvent :=
  handshake_events ++ [ConsolidateReply true]
  ++ receive_all [InventoryAnnouncement [EntryBlock [6]; EntryTx [1]; EntryBlock [7]]; BlockCmd (toy_block 7)].

Lemma batch_witness :
  Forall2 (λ h b, hash_of protocol_default toy_hash b h) [[6]; [7]] [toy_block 6; toy_block 7].
Proof.
  assert (requested_block_hashes (session_run protocol_default toy_hash batch_events near_session).1 = [[6]; [7]]) as <- by by vm_compute.
  refine (proj2 (batch_in_order protocol_default toy_hash (Some server) peer1 Outbound 10700 5 some_beacon session_cfg None batch_events
    (Receive (Some (MkMessage (BlockCmd (toy_block 6)) 10700)) 1003 1003) [toy_block 6; toy_block 7] peer1 _)).
  apply (list_elem_of_lookup_2 _ 0). by vm_compute.
Defined.

(** [address_roundtrip] on an IPv6 address. *)
Lemma address_witness :
  from_address (to_address (V6 [32; 1; 13; 184; 0; 0; 0; 0; 0; 0; 0; 0; 0; 0; 0; 1] 21337 5 0))
  = V6 [32; 1; 13; 184; 0; 0; 0; 0; 0; 0; 0; 0; 0; 0; 0; 1] 21337 0 0.
Proof. refine (address_roundtrip (V6 [32; 1; 13; 184; 0; 0; 0; 0; 0; 0; 0; 0; 0; 0; 0; 1] 21337 5 0) _). repeat split; repeat constructor; done. Defined.
