(* ===== verification/Sync.v ===== *)
(** * Synchronization with the network

    Models how the chain manager follows its peers: the vote on their beacons
    ([mode_consensus] of node/src/utils.rs and [PeersBeacons] of
    node/src/actors/chain_manager/handlers.rs), the split of a batch of blocks at the target,
    the handlers that move the state machine ([PeersBeacons], [EpochNotification],
    [AddBlocks] and [AddSuperBlock]), and what the vote on a superblock does to it.

    The handlers see the rest of the chain manager (chain state, pools, validation) through
    the class [ChainOps].  A handler returns the new state and its effects in order; [None]
    is a panic.  Restoring the state from storage, building superblocks and sending
    messages are effects; where the code continues after such a future, the continuation is a function
    of its own.  [visit] is the order in which a [HashMap] is iterated. *)

From stdpp Require Import base tactics numbers list gmap sorting.
From Stdlib Require Import ZArith Lia.
From S2P Require Import Prelude Hashes Superblock Transaction Consensus BlockValidation Consolidation.
From S2P Require Import Peers Sessions PeersManager SessionsManager.
Local Open Scope Z_scope.

(** ** The most common element *)

#[export] Instance CheckpointBeacon_countable : Countable CheckpointBeacon.
Proof. refine (inj_countable' (λ b, (checkpoint b, hash_prev_block b)) (λ p, MkBeacon p.1 p.2) _). by intros []. Defined.

Section Mode.
Context (visit : ∀ A : Type, list A → list A).
Context `{Countable V}.

(** [*bp.entry(k).or_insert(0) += 1] for every element. *)
Definition tally_votes (l : list V) : gmap V Z := foldl (λ m k, <[k := default 0 (m !! k) + 1]> m) ∅ l.

(** By number of votes, most first. *)
Definition more_votes : relation (V * Z) := λ x y, y.2 ≤ x.2.
#[export] Instance more_votes_dec x y : Decision (more_votes x y) := Z_le_dec _ _.

Definition mode_consensus (l : list V) (threshold : Z) : option V :=
  let len_pb := Z.of_nat (length l) in
  let bpv := merge_sort more_votes (visit _ (map_to_list (tally_votes l))) in
  match bpv with
  | (_, n) :: _ :: _ => if decide (n * 100 / len_pb < threshold) then None else fst <$> head bpv
  | _ => fst <$> head bpv
  end.
End Mode.

(** ** Beacons of the peers *)

Section Beacons.
Context (visit : ∀ A : Type, list A → list A).
Local Abbreviation PeersBeaconsList := (list (SocketAddr * option LastBeacon)).

(** The votes on superblocks, with the missing peers, and those on blocks among the peers
    that agree on a superblock. *)
Definition superblock_votes (pb : PeersBeaconsList) (num_missing_peers : nat) : list (option CheckpointBeacon) :=
  ((λ p : SocketAddr * option LastBeacon, highest_superblock_checkpoint <$> p.2) <$> pb) ++ replicate num_missing_peers None.
Definition block_votes (pb : PeersBeaconsList) (superblock : CheckpointBeacon) : list (option CheckpointBeacon) :=
  (λ p : SocketAddr * option LastBeacon,
    match p.2 with
    | Some b => if decide (highest_superblock_checkpoint b = superblock) then Some (highest_block_checkpoint b) else None
    | None => None
    end) <$> pb.

(** The peers missing up to the limit; [None] is the panic of more beacons than the limit. *)
Definition num_missing_peers (pb : PeersBeaconsList) (outbound_limit : option Z) : option nat :=
  match outbound_limit with
  | Some l => if decide (Z.of_nat (length pb) ≤ l) then Some (Z.to_nat (l - Z.of_nat (length pb))) else None
  | None => Some 0%nat
  end.

(** [superblock_consensus]: the beacon agreed on and whether the block is agreed on too. *)
Definition superblock_consensus (pb : PeersBeaconsList) (outbound_limit : option Z) (threshold : Z)
    : option (option (LastBeacon * bool)) :=
  missing ← num_missing_peers pb outbound_limit;
  match mode_consensus visit (superblock_votes pb missing) threshold with
  | Some (Some superblock) =>
    let block_beacons := block_votes pb superblock in
    match mode_consensus visit block_beacons threshold with
    | Some (Some x) => Some (Some (MkLastBeacon x superblock, true))
    | _ =>
      let flat := omap id block_beacons in
      first ← head flat;
      match mode_consensus visit flat 0 with
      | Some x => Some (Some (MkLastBeacon x superblock, false))
      | None => Some (Some (MkLastBeacon first superblock, false))
      end
    end
  | _ => Some None
  end.

Definition decide_peers_to_unregister (pb : PeersBeaconsList) (beacon : CheckpointBeacon) : list SocketAddr :=
  (filter (λ p, highest_block_checkpoint <$> p.2 ≠ Some beacon) pb).*1.
Definition decide_peers_to_unregister_s (pb : PeersBeaconsList) (superbeacon : CheckpointBeacon) : list SocketAddr :=
  (filter (λ p, highest_superblock_checkpoint <$> p.2 ≠ Some superbeacon) pb).*1.

(** A beacon that contradicts the last superblock agreed on. *)
Definition out_of_consensus (superbeacon : CheckpointBeacon) (b : LastBeacon) : Prop :=
  checkpoint (highest_superblock_checkpoint b) < checkpoint superbeacon
  ∨ checkpoint (highest_superblock_checkpoint b) = checkpoint superbeacon ∧ highest_superblock_checkpoint b ≠ superbeacon.
#[export] Instance out_of_consensus_dec sb b : Decision (out_of_consensus sb b) := _.
Definition ignore_no_consensus_beacons (superbeacon : CheckpointBeacon) (pb : PeersBeaconsList) : PeersBeaconsList :=
  (λ p, (p.1, match p.2 with
              | Some b => if decide (out_of_consensus superbeacon b) then None else Some b
              | None => None
              end)) <$> pb.
Definition peers_with_no_beacon (pb : PeersBeaconsList) : list SocketAddr := (filter (λ p, p.2 = None) pb).*1.
End Beacons.

(** ** Splitting a batch at the target *)

Record SyncTarget := MkTarget { target_block : CheckpointBeacon; target_superblock : CheckpointBeacon }.

Inductive BlockBatches (T : Type) :=
  | TargetNotReached (blocks : list T)
  | SyncWithoutCandidate (consolidated remaining : list T)
  | SyncWithCandidate (consolidated candidate remaining : list T).
Arguments TargetNotReached {T} _.
Arguments SyncWithoutCandidate {T} _ _.
Arguments SyncWithCandidate {T} _ _ _.

(** [ChainManagerError::WrongBlocksForSuperblock]. *)
Inductive SplitError := WrongBlocksForSuperblock (wrong_index consolidated_superblock_index current_superblock_index : Z).

Section Split.
Context {T : Type} (key : T → Z).

(** [position] of the first block at or after an epoch, and [split_off] there. *)
Fixpoint split_at_epoch (epoch : Z) (blocks : list T) : list T * list T :=
  match blocks with
  | [] => ([], [])
  | b :: rest => if decide (epoch ≤ key b) then ([], blocks)
                 else let '(l, r) := split_at_epoch epoch rest in (b :: l, r)
  end.

(** [split_blocks_batch_at_target]; epochs are [u32].  It panics on a period of zero and on a
    target in the future. *)
Definition split_blocks_batch_at_target (blocks : list T) (current_epoch : Z) (target : SyncTarget) (superblock_period : Z)
    : result SplitError (BlockBatches T) :=
  if decide (superblock_period = 0) then Panic
  else
    let current_superblock_index := current_epoch / superblock_period in
    let sb := checkpoint (target_superblock target) in
    if decide (current_superblock_index < sb) then Panic
    else
      let first_valid_block :=
        wmul U32 (wsub U32 current_superblock_index (wsub U32 current_superblock_index sb mod 2)) superblock_period in
      let consolidated_target := wmul U32 sb superblock_period in
      match filter (λ b, consolidated_target ≤ key b < first_valid_block) blocks, bool_decide (sb ≠ 0) with
      | wrong :: _, true => Err (WrongBlocksForSuperblock (key wrong) sb current_superblock_index)
      | _, _ =>
        let last_epoch := default 0 (key <$> last blocks) in
        if decide (last_epoch < sat_sub consolidated_target 1 ∧ last_epoch < checkpoint (target_block target))
        then Ok (TargetNotReached blocks)
        else if decide (wsub U32 current_superblock_index sb mod 2 = 0) then
          let '(consolidated, remaining) := split_at_epoch consolidated_target blocks in
          Ok (SyncWithoutCandidate consolidated remaining)
        else
          let candidate_target := wmul U32 current_superblock_index superblock_period in
          let '(consolidated, rest) := split_at_epoch consolidated_target blocks in
          let '(candidate, remaining) := split_at_epoch candidate_target rest in
          Ok (SyncWithCandidate consolidated candidate remaining)
      end.
End Split.

(** ** The rest of the chain manager *)

(** What the handlers below use of the chain state, the pools and the validation.  [C] is their
    state and [B] a block candidate with what its validation computed. *)
Class ChainOps (C B : Type) := {
  (** [get_chain_beacon], [get_superblock_beacon]: [None] without the information of the chain *)
  chain_beacon : C → option CheckpointBeacon;
  superblock_beacon : C → option CheckpointBeacon;
  consensus_constants : C → option ConsensusConstants;
  (** whether the reputation engine, and the epoch constants with the vrf context, are loaded *)
  has_reputation : C → bool;
  can_validate : C → bool;
  (** [superblock_state.get_beacon().checkpoint] *)
  consolidated_index : C → Z;
  (** [process_requested_block(block, false)], in a state of the machine and an epoch: whether it
      succeeded; [None] is a panic *)
  process_block : StateMachine → option Z → Block → C → option (C * bool);
  (** [consolidate_block] of the best candidate *)
  consolidate_candidate : StateMachine → option Z → B → C → option C;
  (** [transactions_pool.clear_commits()] *)
  clear_commits : C → C;
  (** the version of the protocol for the epoch *)
  refresh_protocol : Z → C → C;
}.

(** ** State *)

Section Handlers.
Context {C B : Type} `{ChainOps C B}.
Context (visit : ∀ A : Type, list A → list A) (block_hash : Block → Hash).

Record SyncState := MkSync {
  chain : C;
  sm_state : StateMachine;
  current_epoch : option Z;
  sync_target : option SyncTarget;
  sync_superblock : option (Hash * SuperBlock);
  sync_waiting_for_add_blocks_since : option Z;
  candidates : gmap Hash (list Block);
  best_candidate : option B;
  peers_beacons_received : bool;
  consensus_c : Z;
  last_received_beacons : list (SocketAddr * option LastBeacon);
  last_superblock_consensus : option CheckpointBeacon;
  temp_reveals : list RevealTransaction;
  temp_vts_and_drs : list Transaction;
  max_reinserted_transactions : nat;
  mining_enabled : bool;
}.

Definition with_chain (c : C) (s : SyncState) : SyncState :=
  MkSync c (sm_state s) (current_epoch s) (sync_target s) (sync_superblock s) (sync_waiting_for_add_blocks_since s) (candidates s)
    (best_candidate s) (peers_beacons_received s) (consensus_c s) (last_received_beacons s) (last_superblock_consensus s)
    (temp_reveals s) (temp_vts_and_drs s) (max_reinserted_transactions s) (mining_enabled s).
Definition with_state (st : StateMachine) (s : SyncState) : SyncState :=
  MkSync (chain s) st (current_epoch s) (sync_target s) (sync_superblock s) (sync_waiting_for_add_blocks_since s) (candidates s)
    (best_candidate s) (peers_beacons_received s) (consensus_c s) (last_received_beacons s) (last_superblock_consensus s)
    (temp_reveals s) (temp_vts_and_drs s) (max_reinserted_transactions s) (mining_enabled s).
Definition with_target (t : option SyncTarget) (s : SyncState) : SyncState :=
  MkSync (chain s) (sm_state s) (current_epoch s) t (sync_superblock s) (sync_waiting_for_add_blocks_since s) (candidates s)
    (best_candidate s) (peers_beacons_received s) (consensus_c s) (last_received_beacons s) (last_superblock_consensus s)
    (temp_reveals s) (temp_vts_and_drs s) (max_reinserted_transactions s) (mining_enabled s).
Definition with_sync_superblock (x : option (Hash * SuperBlock)) (s : SyncState) : SyncState :=
  MkSync (chain s) (sm_state s) (current_epoch s) (sync_target s) x (sync_waiting_for_add_blocks_since s) (candidates s)
    (best_candidate s) (peers_beacons_received s) (consensus_c s) (last_received_beacons s) (last_superblock_consensus s)
    (temp_reveals s) (temp_vts_and_drs s) (max_reinserted_transactions s) (mining_enabled s).
Definition with_waiting (w : option Z) (s : SyncState) : SyncState :=
  MkSync (chain s) (sm_state s) (current_epoch s) (sync_target s) (sync_superblock s) w (candidates s)
    (best_candidate s) (peers_beacons_received s) (consensus_c s) (last_received_beacons s) (last_superblock_consensus s)
    (temp_reveals s) (temp_vts_and_drs s) (max_reinserted_transactions s) (mining_enabled s).
Definition with_candidates (cs : gmap Hash (list Block)) (s : SyncState) : SyncState :=
  MkSync (chain s) (sm_state s) (current_epoch s) (sync_target s) (sync_superblock s) (sync_waiting_for_add_blocks_since s) cs
    (best_candidate s) (peers_beacons_received s) (consensus_c s) (last_received_beacons s) (last_superblock_consensus s)
    (temp_reveals s) (temp_vts_and_drs s) (max_reinserted_transactions s) (mining_enabled s).
Definition with_received (received : bool) (pb : list (SocketAddr * option LastBeacon)) (s : SyncState) : SyncState :=
  MkSync (chain s) (sm_state s) (current_epoch s) (sync_target s) (sync_superblock s) (sync_waiting_for_add_blocks_since s) (candidates s)
    (best_candidate s) received (consensus_c s) pb (last_superblock_consensus s)
    (temp_reveals s) (temp_vts_and_drs s) (max_reinserted_transactions s) (mining_enabled s).
Definition with_new_epoch (e : Z) (s : SyncState) : SyncState :=
  MkSync (chain s) (sm_state s) (Some e) (sync_target s) (sync_superblock s) (sync_waiting_for_add_blocks_since s) (candidates s)
    (best_candidate s) (peers_beacons_received s) (consensus_c s) (last_received_beacons s) (last_superblock_consensus s)
    (temp_reveals s) (temp_vts_and_drs s) (max_reinserted_transactions s) (mining_enabled s).
Definition with_temps (best : option B) (rs : list RevealTransaction) (ts : list Transaction) (s : SyncState) : SyncState :=
  MkSync (chain s) (sm_state s) (current_epoch s) (sync_target s) (sync_superblock s) (sync_waiting_for_add_blocks_since s) (candidates s)
    best (peers_beacons_received s) (consensus_c s) (last_received_beacons s) (last_superblock_consensus s)
    rs ts (max_reinserted_transactions s) (mining_enabled s).

Definition with_last_consensus (b : option CheckpointBeacon) (s : SyncState) : SyncState :=
  MkSync (chain s) (sm_state s) (current_epoch s) (sync_target s) (sync_superblock s) (sync_waiting_for_add_blocks_since s) (candidates s)
    (best_candidate s) (peers_beacons_received s) (consensus_c s) (last_received_beacons s) b
    (temp_reveals s) (temp_vts_and_drs s) (max_reinserted_transactions s) (mining_enabled s).

(** ** Effects *)

Inductive SyncEffect :=
  | AddTempSuperblockVotes
  | NodeStatusNotify (st : StateMachine)
  | IcePeer (a : SocketAddr)
  | DropOutboundPeers (l : list SocketAddr)
  | InitializeFromStorage
  | AnycastLastBeacon (b : LastBeacon)
  | RequestSuperBlock (index : Z)
  | CreateAndBroadcastSuperblock (epoch : Z)
  | SetLastBeaconOfSessions (b : LastBeacon)
  | BroadcastLastBeacon (b : LastBeacon)
  | TryMineDataRequest
  | AddTransactionLater (t : Transaction) (broadcast : bool)
  | PersistBlocks (l : list Block)
  | PersistFinishedRequests
  | PersistChainState
  | HandleAddBlocksLater (l : list Block)
  | TryConsolidateSuperblock (epoch : Z) (target : SyncTarget) (sb : option SuperBlock)
  | SetSuperBlockTargetBeacon (b : option CheckpointBeacon)
  | ReinsertUnconfirmed (epoch : Z)
  | BuildAndVoteCandidate (epoch : Z).

(** [update_state_machine]. *)
Definition update_state_machine (next : StateMachine) (s : SyncState) : SyncState * list SyncEffect :=
  (with_state next s,
   (if decide (sm_state s ≠ next ∧ next = AlmostSynced) then [AddTempSuperblockVotes] else []) ++ [NodeStatusNotify next]).

(** The beacons of our chain. *)
Definition our_last_beacon (s : SyncState) : option LastBeacon :=
  b ← chain_beacon (chain s);
  sb ← superblock_beacon (chain s);
  Some (MkLastBeacon b sb).

(** [request_blocks_batch], and what it does when the message cannot be sent. *)
Definition request_blocks_batch (s : SyncState) : option (SyncState * list SyncEffect) :=
  b ← our_last_beacon s;
  epoch ← current_epoch s;
  Some (with_waiting (Some epoch) s, [AnycastLastBeacon b]).
Definition anycast_failed (s : SyncState) : SyncState * list SyncEffect :=
  if decide (sm_state s = Synchronizing) then
    let '(s, e) := update_state_machine WaitingConsensus s in (with_waiting None s, e)
  else (s, []).

(** [request_sync_target_superblock]. *)
Definition request_sync_target_superblock (b : CheckpointBeacon) (s : SyncState) : SyncState * list SyncEffect :=
  if decide (checkpoint b = 0) then (s, [])
  else if decide (fst <$> sync_superblock s = Some (hash_prev_block b)) then (s, [])
  else (with_sync_superblock None s, [RequestSuperBlock (checkpoint b)]).

Definition drop_all_outbounds (s : SyncState) : SyncEffect := DropOutboundPeers (last_received_beacons s).*1.
Definition ice_peer (a : option SocketAddr) : list SyncEffect := match a with Some a => [IcePeer a] | None => [] end.
Definition drop_all_outbounds_and_ice_sender (sender : option SocketAddr) (s : SyncState) : list SyncEffect :=
  drop_all_outbounds s :: ice_peer sender.

(** ** Beacons of the epoch *)

(** The peers to drop, given the beacons and what they agree on. *)
Definition peers_out_of_consensus (pb : list (SocketAddr * option LastBeacon)) (outbound_limit : option Z)
    (consensus : option (LastBeacon * bool)) (s : SyncState) : option (list SocketAddr) :=
  let peers_needed_for_consensus := match outbound_limit with Some x => (x * consensus_c s + 99) / 100 | None => 1 end in
  match consensus with
  | Some (b, true) => Some (decide_peers_to_unregister pb (highest_block_checkpoint b))
  | Some (b, false) => Some (decide_peers_to_unregister_s pb (highest_superblock_checkpoint b))
  | None =>
    if decide (Z.of_nat (length pb) < peers_needed_for_consensus) then Some []
    else if decide (sm_state s = AlmostSynced ∨ sm_state s = Synced) then
      b ← chain_beacon (chain s);
      Some (decide_peers_to_unregister pb b)
    else Some pb.*1
  end.

(** The candidates with the hash agreed on, until one is consolidated. *)
Fixpoint process_candidates (st : StateMachine) (epoch : option Z) (l : list Block) (c : C) : option (C * bool) :=
  match l with
  | [] => Some (c, false)
  | b :: l => '(c, ok) ← process_block st epoch b c; if ok : bool then Some (c, true) else process_candidates st epoch l c
  end.

(** The state after a consensus in state [WaitingConsensus]. *)
Definition after_waiting (consensus : LastBeacon) (s : SyncState) : option (SyncState * list SyncEffect) :=
  let consensus_beacon := highest_block_checkpoint consensus in
  let s := with_target (Some (MkTarget consensus_beacon (highest_superblock_checkpoint consensus))) s in
  our_beacon ← chain_beacon (chain s);
  constants ← consensus_constants (chain s);
  if decide (hash_prev_block consensus_beacon = bootstrap_hash constants) then Some (update_state_machine WaitingConsensus s)
  else if decide (our_beacon = consensus_beacon) then Some (update_state_machine AlmostSynced s)
  else if decide (checkpoint our_beacon = checkpoint consensus_beacon ∧ hash_prev_block our_beacon ≠ hash_prev_block consensus_beacon) then
    let '(s, e) := update_state_machine WaitingConsensus s in Some (s, InitializeFromStorage :: e)
  else
    let consensus_candidates := default [] (candidates s !! hash_prev_block consensus_beacon) in
    let s := with_candidates ∅ s in
    '(c, consolidated) ← process_candidates (sm_state s) (current_epoch s) consensus_candidates (chain s);
    let s := with_chain c s in
    if consolidated : bool then Some (update_state_machine AlmostSynced s)
    else
      '(s, e) ← request_blocks_batch s;
      let '(s, e') := update_state_machine Synchronizing s in
      Some (s, e ++ e').

(** The state after a consensus in state [Synchronizing]. *)
Definition after_synchronizing (consensus : LastBeacon) (s : SyncState) : option (SyncState * list SyncEffect) :=
  let consensus_beacon := highest_block_checkpoint consensus in
  let s := with_target (Some (MkTarget consensus_beacon (highest_superblock_checkpoint consensus))) s in
  our_beacon ← chain_beacon (chain s);
  if decide (our_beacon = consensus_beacon) then Some (update_state_machine AlmostSynced s)
  else if decide (checkpoint our_beacon = checkpoint consensus_beacon ∧ hash_prev_block our_beacon ≠ hash_prev_block consensus_beacon) then
    let '(s, e) := update_state_machine WaitingConsensus s in Some (s, InitializeFromStorage :: e)
  else Some (update_state_machine Synchronizing s).

(** The transition for the beacons of an epoch: new state, peers to drop and effects. *)
Definition beacons_transition (consensus : option (LastBeacon * bool)) (peers_to_unregister no_beacon : list SocketAddr) (s : SyncState)
    : option (SyncState * list SocketAddr * list SyncEffect) :=
  match sm_state s with
  | WaitingConsensus =>
    match consensus with
    | Some (b, _) => '(s, e) ← after_waiting b s; Some (s, peers_to_unregister, e)
    | None => Some (s, peers_to_unregister, [])
    end
  | Synchronizing =>
    match consensus with
    | Some (b, _) => '(s, e) ← after_synchronizing b s; Some (s, peers_to_unregister, e)
    | None => let '(s, e) := update_state_machine WaitingConsensus s in Some (s, peers_to_unregister, e)
    end
  | AlmostSynced | Synced =>
    our_beacon ← chain_beacon (chain s);
    match consensus with
    | Some (b, is_there_block_consensus) =>
      if decide (highest_block_checkpoint b = our_beacon) then
        if decide (sm_state s = AlmostSynced ∧ is_there_block_consensus = true) then
          let '(s, e) := update_state_machine Synced s in Some (s, peers_to_unregister, e)
        else Some (s, peers_to_unregister, [])
      else let '(s, e) := update_state_machine AlmostSynced s in Some (s, no_beacon, e)
    | None => let '(s, e) := update_state_machine AlmostSynced s in Some (s, no_beacon, e)
    end
  end.

(** What follows in the new state: the target superblock and the blocks are asked for, or a
    superblock is built. *)
Definition after_transition (s : SyncState) : option (SyncState * list SyncEffect) :=
  epoch ← current_epoch s;
  match sm_state s with
  | Synchronizing =>
    target ← sync_target s;
    let '(s, e) := request_sync_target_superblock (target_superblock target) s in
    match sync_waiting_for_add_blocks_since s with
    | Some start =>
      if decide (10 ≤ wsub U32 epoch start) then '(s, e') ← request_blocks_batch s; Some (s, e ++ e') else Some (s, e)
    | None => Some (s, e)
    end
  | AlmostSynced | Synced =>
    constants ← consensus_constants (chain s);
    if decide (superblock_period constants = 0) then None
    else if decide (epoch ≠ 0 ∧ epoch mod superblock_period constants = 0) then Some (s, [CreateAndBroadcastSuperblock epoch])
    else Some (s, [])
  | WaitingConsensus => Some (s, [])
  end.

(** [Handler<PeersBeacons>]: the reply is the list of peers to drop, [None] for an error. *)
Definition handle_peers_beacons (pb : list (SocketAddr * option LastBeacon)) (outbound_limit : option Z) (s : SyncState)
    : option (SyncState * option (list SocketAddr) * list SyncEffect) :=
  let s := with_received (match pb with [] => peers_beacons_received s | _ => true end) (last_received_beacons s) s in
  let pb := match last_superblock_consensus s with Some sb => ignore_no_consensus_beacons sb pb | None => pb end in
  match current_epoch s with
  | None => Some (s, None, [])
  | Some _ =>
    consensus ← superblock_consensus visit pb outbound_limit (consensus_c s);
    let s := with_received (peers_beacons_received s) pb s in
    let no_beacon := peers_with_no_beacon pb in
    let iced := IcePeer <$> no_beacon in
    peers_to_unregister ← peers_out_of_consensus pb outbound_limit consensus s;
    '(s, dropped, e) ← beacons_transition consensus peers_to_unregister no_beacon s;
    '(s, e') ← after_transition s;
    Some (s, Some dropped, iced ++ e ++ e')
  end.

(** ** A new epoch *)

(** The start of the handler: without beacons in the last epoch, or with epochs skipped, the node
    looks for consensus again. *)
Definition epoch_start (checkpoint : Z) (s : SyncState) : SyncState * list SyncEffect :=
  let last_checked_epoch := current_epoch s in
  let s := with_new_epoch checkpoint s in
  let '(s, e1) := if peers_beacons_received s then (s, [])
                  else let '(s, e) := update_state_machine WaitingConsensus s in (with_candidates ∅ s, e) in
  let '(s, e2) := match last_checked_epoch with
                  | Some last => if decide (wsub U32 checkpoint last ≠ 1) then update_state_machine WaitingConsensus s else (s, [])
                  | None => (s, [])
                  end in
  (with_received false (last_received_beacons s) s, e1 ++ e2).

(** Its end: the reveals of the epoch and some transactions of reverted blocks are queued again. *)
Definition add_transactions_again (s : SyncState) : SyncState * list SyncEffect :=
  let reveals := (λ r, AddTransactionLater (Reveal r) true) <$> temp_reveals s in
  let n := if decide (sm_state s = Synced) then Nat.min (max_reinserted_transactions s) (length (temp_vts_and_drs s)) else 0%nat in
  let again := (λ t, AddTransactionLater t false) <$> take n (temp_vts_and_drs s) in
  (with_temps (best_candidate s) [] (drop n (temp_vts_and_drs s)) s, reveals ++ again).

(** The branch of the synced states: the best candidate is consolidated and, if the node is synced, the
    next block is mined.  [false] is the early return. *)
Definition epoch_synced (best : option B) (s : SyncState) : option (SyncState * list SyncEffect * bool) :=
  if has_reputation (chain s) then
    if can_validate (chain s) then
      c ← match best with Some b => consolidate_candidate (sm_state s) (current_epoch s) b (chain s) | None => Some (chain s) end;
      let s := with_chain c s in
      b ← our_last_beacon s;
      let s := with_chain (clear_commits (chain s)) s in
      let mine := if mining_enabled s && bool_decide (sm_state s = Synced) then [TryMineDataRequest] else [] in
      Some (with_candidates ∅ s, [SetLastBeaconOfSessions b; BroadcastLastBeacon b] ++ mine, true)
    else Some (s, [], false)
  else Some (s, [], true).

(** [Handler<EpochNotification<EveryEpochPayload>>]. *)
Definition handle_epoch_notification (checkpoint : Z) (s : SyncState) : option (SyncState * list SyncEffect) :=
  _ ← chain_beacon (chain s);
  let '(s, e1) := epoch_start checkpoint s in
  let best := best_candidate s in
  let s := with_temps None (temp_reveals s) (temp_vts_and_drs s) s in
  let s := with_chain (refresh_protocol checkpoint (chain s)) s in
  '(s, e2, goes_on) ← match sm_state s with
                      | WaitingConsensus => b ← our_last_beacon s; Some (s, [SetLastBeaconOfSessions b; BroadcastLastBeacon b], true)
                      | Synchronizing => Some (s, [], true)
                      | AlmostSynced | Synced => epoch_synced best s
                      end;
  let '(s, e3) := if goes_on : bool then add_transactions_again s else (s, []) in
  Some (s, e1 ++ e2 ++ e3).

(** ** Blocks from the peers *)

(** [process_blocks_batch]: whether all the blocks were consolidated and how many were.  After an error
    in a later block the state is restored from storage. *)
Fixpoint process_blocks_from (st : StateMachine) (epoch : option Z) (n : nat) (blocks : list Block) (c : C) : option (C * bool * nat * list SyncEffect) :=
  match blocks with
  | [] => Some (c, true, n, [])
  | b :: rest =>
    '(c, ok) ← process_block st epoch b c;
    if ok : bool then process_blocks_from st epoch (S n) rest c
    else Some (c, false, n, if decide (0 < n)%nat then [InitializeFromStorage] else [])
  end.
Definition process_blocks_batch (blocks : list Block) (s : SyncState) : option (SyncState * bool * nat * list SyncEffect) :=
  '(c, ok, n, e) ← process_blocks_from (sm_state s) (current_epoch s) 0 blocks (chain s);
  Some (with_chain c s, ok, n, e).
(** [process_first_batch]. *)
Definition process_first_batch (blocks : list Block) (s : SyncState) : option (SyncState * bool * nat * list SyncEffect) :=
  '(s, ok, n, e) ← process_blocks_batch blocks s;
  if ok : bool then Some (s, true, n, e)
  else let '(s, e') := update_state_machine WaitingConsensus s in Some (with_waiting None s, false, n, e ++ e').

Definition superblock_consolidation_is_needed (target : SyncTarget) (period : Z) (s : SyncState) : option Z :=
  if decide (checkpoint (target_superblock target) ≤ consolidated_index (chain s)) then None
  else Some (wmul U32 (checkpoint (target_superblock target)) period).
Definition superblock_candidate_is_needed (index period : Z) (s : SyncState) : option Z :=
  if decide (index ≤ consolidated_index (chain s)) then None else Some (wmul U32 index period).

(** What the handler of [AddBlocks] still has to do after the superblock has been built. *)
Inductive Pending :=
  | NothingPending
  | ThenRemaining (remaining : list Block) (sender : option SocketAddr)
  | ThenCandidate (candidate remaining : list Block) (sender : option SocketAddr).

(** The tail of the handler: synchronization time is forgotten outside of [Synchronizing]. *)
Definition forget_waiting (s : SyncState) : SyncState :=
  if decide (sm_state s = Synchronizing) then s else with_waiting None s.

(** The superblock is built from the blocks just stored, if it is needed. *)
Definition consolidation_effects (blocks : list Block) (target : SyncTarget) (sb : option SuperBlock) (period : Z) (s : SyncState)
    : list SyncEffect :=
  match superblock_consolidation_is_needed target period s with
  | Some epoch => [PersistBlocks blocks; PersistFinishedRequests; TryConsolidateSuperblock epoch target sb]
  | None => []
  end.

(** The branch of [Handler<AddBlocks>] for a batch while synchronizing. *)
Definition add_batch (blocks : list Block) (sender : option SocketAddr) (target : SyncTarget) (period : Z) (s : SyncState)
    : option (SyncState * list SyncEffect * Pending) :=
  epoch ← current_epoch s;
  let sb := match sync_superblock s with
            | Some (h, b) => if decide (h = hash_prev_block (target_superblock target)) then Some b else None
            | None => None
            end in
  if decide (sb = None ∧ checkpoint (target_superblock target) ≠ 0) then
    let '(s, e) := request_sync_target_superblock (target_superblock target) s in
    Some (s, e ++ [HandleAddBlocksLater blocks], NothingPending)
  else
    match split_blocks_batch_at_target (λ b, checkpoint (beacon (block_header b))) blocks epoch target period with
    | Ok (TargetNotReached blocks) =>
      '(s, ok, _, e) ← process_first_batch blocks s;
      if ok : bool then
        '(s, e') ← request_blocks_batch s;
        Some (s, e ++ [PersistBlocks blocks; PersistFinishedRequests] ++ e' ++ [PersistChainState], NothingPending)
      else Some (s, e ++ drop_all_outbounds_and_ice_sender sender s, NothingPending)
    | Ok (SyncWithoutCandidate consolidate_blocks remaining) =>
      '(s, ok, _, e) ← process_first_batch consolidate_blocks s;
      if ok : bool then
        Some (forget_waiting s, e ++ consolidation_effects consolidate_blocks target sb period s, ThenRemaining remaining sender)
      else Some (s, e ++ drop_all_outbounds_and_ice_sender sender s, NothingPending)
    | Ok (SyncWithCandidate consolidate_blocks candidate_blocks remaining) =>
      '(s, ok, _, e) ← process_first_batch consolidate_blocks s;
      if ok : bool then
        Some (forget_waiting s, e ++ consolidation_effects consolidate_blocks target sb period s,
              ThenCandidate candidate_blocks remaining sender)
      else Some (s, e ++ drop_all_outbounds_and_ice_sender sender s, NothingPending)
    | Err (WrongBlocksForSuperblock _ _ _) =>
      let '(s, e) := update_state_machine WaitingConsensus s in Some (with_waiting None s, e, NothingPending)
    | Panic => None
    end.

(** [Handler<AddBlocks>]. *)
Definition handle_add_blocks (blocks : list Block) (sender : option SocketAddr) (s : SyncState)
    : option (SyncState * list SyncEffect * Pending) :=
  constants ← consensus_constants (chain s);
  match sm_state s with
  | WaitingConsensus | AlmostSynced =>
    match blocks with
    | [b] =>
      if decide (block_hash b = genesis_hash constants) then
        '(c, ok) ← process_block (sm_state s) (current_epoch s) b (chain s);
        let s := with_chain c s in
        if ok : bool then beacon ← our_last_beacon s; Some (forget_waiting s, [SetLastBeaconOfSessions beacon], NothingPending)
        else Some (forget_waiting s, [], NothingPending)
      else Some (forget_waiting s, [], NothingPending)
    | _ => Some (forget_waiting s, [], NothingPending)
    end
  | Synced => Some (forget_waiting s, [], NothingPending)
  | Synchronizing =>
    match sync_target s, blocks with
    | None, _ => Some (s, [], NothingPending)
    | Some _, [] => let '(s, e) := update_state_machine WaitingConsensus s in Some (s, e, NothingPending)
    | Some target, b :: _ =>
      chain_tip ← chain_beacon (chain s);
      if decide (checkpoint chain_tip < checkpoint (beacon (block_header b))
                 ∧ hash_prev_block (beacon (block_header b)) ≠ hash_prev_block chain_tip) then
        let '(s, e) := update_state_machine WaitingConsensus s in
        Some (s, drop_all_outbounds s :: e ++ [InitializeFromStorage], NothingPending)
      else add_batch blocks sender target (superblock_period constants) s
    end
  end.

(** The continuations, once the superblock of the target is built: the remaining blocks of
    [SyncWithoutCandidate], the blocks of the candidate, and those after it. *)
Definition then_remaining (remaining : list Block) (sender : option SocketAddr) (s : SyncState) : option (SyncState * list SyncEffect) :=
  let '(s, e) := update_state_machine WaitingConsensus s in
  '(s, ok, _, e') ← process_blocks_batch remaining s;
  Some (s, e ++ e' ++ if ok : bool then [] else drop_all_outbounds_and_ice_sender sender s).
Definition then_candidate (candidate : list Block) (sender : option SocketAddr) (period : Z) (s : SyncState)
    : option (SyncState * list SyncEffect * bool) :=
  epoch ← current_epoch s;
  '(s, ok, _, e) ← process_blocks_batch candidate s;
  if ok : bool then
    let index := epoch / period in
    let '(s, e') := update_state_machine WaitingConsensus s in
    Some (s, e ++ [PersistBlocks candidate; PersistFinishedRequests] ++ e'
             ++ match superblock_candidate_is_needed index period s with Some epoch => [BuildAndVoteCandidate epoch] | None => [] end, true)
  else
    let '(s, e') := update_state_machine WaitingConsensus s in
    Some (s, e ++ drop_all_outbounds_and_ice_sender sender s ++ e', false).
Definition then_after_candidate (remaining : list Block) (sender : option SocketAddr) (s : SyncState) : option (SyncState * list SyncEffect) :=
  '(s, ok, _, e) ← process_blocks_batch remaining s;
  if ok : bool then let '(s, e') := update_state_machine WaitingConsensus s in Some (s, e ++ e')
  else
    let dropped := drop_all_outbounds_and_ice_sender sender s in
    let '(s, e') := update_state_machine WaitingConsensus s in
    Some (with_waiting None s, e ++ dropped ++ e').

(** [Handler<AddSuperBlock>]; [superblock_hash] is the hash of a superblock. *)
Definition handle_add_superblock (superblock_hash : SuperBlock → Hash) (sb : SuperBlock) (s : SyncState) : SyncState :=
  match sync_target s with
  | Some target =>
    if decide (hash_prev_block (target_superblock target) = superblock_hash sb)
    then with_sync_superblock (Some (superblock_hash sb, sb)) s else s
  | None => s
  end.
(** ** The vote on the last superblock *)

(** How [construct_superblock] decides on the superblock voted on, before it builds the next one;
    [votes] is [has_consensus] of the state of superblocks. *)
Definition superblock_verdict (st : StateMachine) (voted consolidated : CheckpointBeacon) (index : Z) (votes : SuperBlockConsensus)
    : SuperBlockConsensus :=
  if decide (st = Synced ∨ st = AlmostSynced) then
    if decide (checkpoint voted = checkpoint consolidated) then
      if decide (wsub U32 index (checkpoint voted) mod 2 = 0) then Unknown else SameAsLocal
    else votes
  else SameAsLocal.

(** What follows for the state machine: [true] if the next superblock is built. *)
Definition after_verdict (verdict : SuperBlockConsensus) (voted : CheckpointBeacon) (epoch period : Z) (s : SyncState)
    : SyncState * list SyncEffect * bool :=
  let before := sat_sub (epoch - period) period in
  match verdict with
  | SameAsLocal => (with_last_consensus (Some voted) s, [SetSuperBlockTargetBeacon None], true)
  | Different h =>
    let b := MkBeacon (checkpoint voted) h in
    let '(s, e) := update_state_machine WaitingConsensus (with_last_consensus (Some b) s) in
    (s, [SetSuperBlockTargetBeacon (Some b); InitializeFromStorage] ++ e, false)
  | NoConsensus =>
    let '(s, e) := update_state_machine AlmostSynced s in
    (s, [SetSuperBlockTargetBeacon None; ReinsertUnconfirmed before; InitializeFromStorage] ++ e, false)
  | Unknown =>
    let '(s, e) := update_state_machine WaitingConsensus s in
    (s, [SetSuperBlockTargetBeacon None; ReinsertUnconfirmed before; InitializeFromStorage] ++ e, false)
  end.

(** [try_consolidate_superblock] on a superblock other than the target. *)
Definition mismatching_superblock (s : SyncState) : SyncState * list SyncEffect :=
  let '(s, e) := update_state_machine WaitingConsensus s in (with_waiting None s, e ++ [InitializeFromStorage]).

(** ** Runs of the chain manager *)

(** What reaches the chain manager.  [ElsewhereIn] is any other handler: it changes the chain, the
    candidates and the queued transactions, but none of what the synchronization keeps. *)
Inductive SyncEvent :=
  | BeaconsOf (pb : list (SocketAddr * option LastBeacon)) (outbound_limit : option Z)
  | NewEpoch (epoch : Z)
  | BlocksOf (blocks : list Block) (sender : option SocketAddr)
  | RemainingOf (blocks : list Block) (sender : option SocketAddr)
  | CandidateOf (blocks : list Block) (sender : option SocketAddr) (period : Z)
  | AfterCandidateOf (blocks : list Block) (sender : option SocketAddr)
  | SuperblockOf (h : SuperBlock → Hash) (sb : SuperBlock)
  | AnycastFailed
  | SuperblockVoted (voted consolidated : CheckpointBeacon) (epoch period : Z) (votes : SuperBlockConsensus)
  | SuperblockMismatch
  | ElsewhereIn (c : C) (cs : gmap Hash (list Block)) (best : option B) (rs : list RevealTransaction) (ts : list Transaction).

Definition sync_step (e : SyncEvent) (s : SyncState) : option (SyncState * list SyncEffect) :=
  match e with
  | BeaconsOf pb limit => '(s, _, eff) ← handle_peers_beacons pb limit s; Some (s, eff)
  | NewEpoch epoch => handle_epoch_notification epoch s
  | BlocksOf blocks sender => '(s, eff, _) ← handle_add_blocks blocks sender s; Some (s, eff)
  | RemainingOf blocks sender => then_remaining blocks sender s
  | CandidateOf blocks sender period => '(s, eff, _) ← then_candidate blocks sender period s; Some (s, eff)
  | AfterCandidateOf blocks sender => then_after_candidate blocks sender s
  | SuperblockOf h sb => Some (handle_add_superblock h sb s, [])
  | AnycastFailed => Some (anycast_failed s)
  | SuperblockVoted voted consolidated epoch period votes =>
    let '(s, eff, _) := after_verdict (superblock_verdict (sm_state s) voted consolidated (epoch / period) votes) voted epoch period s in Some (s, eff)
  | SuperblockMismatch => Some (mismatching_superblock s)
  | ElsewhereIn c cs best rs ts => Some (with_temps best rs ts (with_candidates cs (with_chain c s)), [])
  end.
Fixpoint sync_run (l : list SyncEvent) (s : SyncState) : option (SyncState * list SyncEffect) :=
  match l with
  | [] => Some (s, [])
  | e :: l => '(s, eff) ← sync_step e s; '(s, eff') ← sync_run l s; Some (s, eff ++ eff')
  end.
End Handlers.
Arguments SyncState : clear implicits.
Arguments Pending : clear implicits.
