(* ===== verification/SyncCorrect.v ===== *)
(** * Correctness of the synchronization

    The vote on beacons finds what most peers report and does not depend on the order
    of a hash map when the threshold is a majority; a batch of blocks is split without losing any; the state machine
    becomes synced only by agreement on the block at our own tip, and handlers do not panic on
    what the sessions manager sends. *)

From stdpp Require Import base tactics numbers list gmap sorting.
From Stdlib Require Import ZArith Lia.
From S2P Require Import Prelude Hashes Superblock Epoch Versioning Transaction Consensus BlockValidation Consolidation.
From S2P Require Import Peers Sessions PeersManager SessionsManager SessionsCorrect SessionsManagerCorrect Sync.
Local Open Scope Z_scope.

(** ** The most common element *)

(** A [HashMap] is iterated in some order of its entries. *)
Definition reorders (visit : ∀ A : Type, list A → list A) : Prop := ∀ A (l : list A), visit A l ≡ₚ l.

(** How often an element occurs. *)
Definition votes_for `{EqDecision V} (v : V) (l : list V) : Z := Z.of_nat (length (filter (v =.) l)).

Section Mode.
Context (visit : ∀ A : Type, list A → list A) (Hvisit : reorders visit).
Context `{Countable V}.

Lemma votes_for_cons (v x : V) l : votes_for v (x :: l) = (if decide (v = x) then 1 else 0) + votes_for v l.
Proof. unfold votes_for. rewrite filter_cons. case_decide; simpl; lia. Qed.

Lemma votes_for_snoc (v x : V) l : votes_for v (l ++ [x]) = votes_for v l + (if decide (v = x) then 1 else 0).
Proof. unfold votes_for. rewrite filter_app, filter_cons, filter_nil, length_app. case_decide; simpl; lia. Qed.

Lemma votes_for_nonneg (v : V) l : 0 ≤ votes_for v l ≤ Z.of_nat (length l).
Proof. unfold votes_for. pose proof (length_filter (v =.) l). lia. Qed.

Lemma votes_for_pos (v : V) l : 0 < votes_for v l ↔ v ∈ l.
Proof.
  induction l as [|x l IH]; [split; [done|by intros ?%not_elem_of_nil]|]. rewrite votes_for_cons, elem_of_cons.
  pose proof (votes_for_nonneg v l). case_decide; [split; [by left|lia]|]. rewrite <-IH. split; [right; lia|intros [|]; [done|lia]].
Qed.

Lemma votes_for_zero (v : V) l : v ∉ l → votes_for v l = 0.
Proof. intros Hv. pose proof (votes_for_nonneg v l). destruct (decide (0 < votes_for v l)) as [Hp%votes_for_pos|]; [done|lia]. Qed.

Lemma votes_for_disjoint (v w : V) l : v ≠ w → votes_for v l + votes_for w l ≤ Z.of_nat (length l).
Proof.
  intros Hne. induction l as [|x l IH]; [done|]. rewrite !votes_for_cons. simpl length. repeat case_decide; subst; try done; lia.
Qed.

(** The map counts the occurrences. *)
Lemma tally_votes_lookup l (v : V) : tally_votes l !! v = if decide (v ∈ l) then Some (votes_for v l) else None.
Proof.
  unfold tally_votes. induction l as [|x l IH] using rev_ind; [done|]. rewrite foldl_snoc.
  set (m := foldl _ ∅ l) in *. destruct (decide (v = x)) as [->|Hne].
  - rewrite lookup_insert_eq, IH. rewrite (decide_True (P:=x ∈ l ++ [x])) by (apply elem_of_app; right; left).
    rewrite votes_for_snoc, (decide_True (P:=x = x)) by done.
    case_decide as Hx; [done|]. by rewrite (votes_for_zero x l Hx).
  - rewrite lookup_insert_ne, IH by done. rewrite votes_for_snoc, (decide_False (P:=v = x)), Z.add_0_r by done.
    assert (v ∈ l ++ [x] ↔ v ∈ l) as Hin by (rewrite elem_of_app, list_elem_of_singleton; naive_solver).
    by rewrite (decide_ext _ _ _ _ Hin).
Qed.

Lemma ranking_elem l (v : V) n :
  (v, n) ∈ merge_sort more_votes (visit _ (map_to_list (tally_votes l))) ↔ v ∈ l ∧ n = votes_for v l.
Proof.
  rewrite merge_sort_Permutation, (Hvisit _ (map_to_list (tally_votes l))), elem_of_map_to_list, tally_votes_lookup. case_decide; naive_solver.
Qed.

#[local] Instance more_votes_total : Total (more_votes (V:=V)).
Proof. intros x y. unfold more_votes. lia. Qed.
#[local] Instance more_votes_trans : Transitive (more_votes (V:=V)).
Proof. intros x y z. unfold more_votes. lia. Qed.

(** The first of the ranking has the most votes. *)
Lemma ranking_head l (v : V) n r :
  merge_sort more_votes (visit _ (map_to_list (tally_votes l))) = (v, n) :: r →
  v ∈ l ∧ n = votes_for v l ∧ ∀ w, votes_for w l ≤ votes_for v l.
Proof.
  intros Hr. assert ((v, n) ∈ merge_sort more_votes (visit _ (map_to_list (tally_votes l)))) as Hin by (rewrite Hr; left).
  apply ranking_elem in Hin as [Hv ->]. split_and!; [done..|]. intros w.
  destruct (decide (w ∈ l)) as [Hw|Hw]; [|rewrite (votes_for_zero w l Hw); apply votes_for_nonneg].
  assert ((w, votes_for w l) ∈ merge_sort more_votes (visit _ (map_to_list (tally_votes l)))) as Hin by by apply ranking_elem.
  pose proof (StronglySorted_merge_sort more_votes (visit _ (map_to_list (tally_votes l)))) as Hs. rewrite Hr in Hin, Hs.
  apply elem_of_cons in Hin as [[= -> ?]|Hin]; [lia|]. apply StronglySorted_inv in Hs as [_ Hall].
  rewrite Forall_forall in Hall. by apply Hall in Hin.
Qed.

(** What [mode_consensus] returns is the most common element, with the share of the votes
    that the threshold asks for, or the only element; it returns [None] only if no element
    has that share. *)
Lemma mode_consensus_spec l threshold :
  match mode_consensus visit l threshold with
  | Some v => v ∈ l ∧ (∀ w, votes_for w l ≤ votes_for v l)
              ∧ (threshold ≤ votes_for v l * 100 / Z.of_nat (length l) ∨ ∀ w, w ∈ l → w = v)
  | None => l = [] ∨ ∀ w : V, votes_for w l * 100 / Z.of_nat (length l) < threshold
  end.
Proof.
  unfold mode_consensus. destruct (merge_sort more_votes (visit _ (map_to_list (tally_votes l)))) as [|[v n] r] eqn:Hr; simpl.
  - left. destruct l as [|x l]; [done|exfalso].
    assert ((x, votes_for x (x :: l)) ∈ merge_sort more_votes (visit _ (map_to_list (tally_votes (x :: l))))) as Hin
      by (apply ranking_elem; split; [left|done]).
    rewrite Hr in Hin. by apply not_elem_of_nil in Hin.
  - destruct (ranking_head _ _ _ _ Hr) as (Hv & -> & Hmax). destruct r as [|y r]; simpl.
    + split_and!; [done..|]. right. intros w Hw.
      assert ((w, votes_for w l) ∈ merge_sort more_votes (visit _ (map_to_list (tally_votes l)))) as Hin by by apply ranking_elem.
      rewrite Hr in Hin. by apply list_elem_of_singleton in Hin as [= ->].
    + case_decide as Hd; [right|split_and!; [done..|left; lia]]. intros w. eapply Z.le_lt_trans; [|exact Hd].
      apply Z.div_le_mono; [|specialize (Hmax w); lia]. destruct l; [by apply not_elem_of_nil in Hv|simpl; lia].
Qed.
End Mode.

(** The share of the votes, in percent. *)
Definition share `{EqDecision V} (v : V) (l : list V) : Z := votes_for v l * 100 / Z.of_nat (length l).

Section Majority.
Context (visit : ∀ A : Type, list A → list A) (Hvisit : reorders visit).
Context `{Countable V}.

Lemma votes_for_all (v : V) l : (∀ w, w ∈ l → w = v) → votes_for v l = Z.of_nat (length l).
Proof.
  induction l as [|x l IH]; [done|]. intros Hall. rewrite votes_for_cons, IH by (intros w Hw; apply Hall; by right).
  rewrite (decide_True (P:=v = x)) by (symmetry; apply Hall; left). simpl; lia.
Qed.

Lemma share_majority (v w : V) l t : 50 < t → t ≤ share v l → t ≤ share w l → v = w.
Proof.
  unfold share. intros Ht Hv Hw. destruct (decide (v = w)) as [|Hne]; [done|exfalso].
  pose proof (votes_for_disjoint v w l Hne) as Hsum. destruct l as [|x l]; [by rewrite Z.div_0_r in Hv; lia|].
  set (n := Z.of_nat (length (x :: l))) in *. assert (0 < n) by (subst n; simpl; lia).
  pose proof (Z.mul_div_le (votes_for v (x :: l) * 100) n ltac:(lia)).
  pose proof (Z.mul_div_le (votes_for w (x :: l) * 100) n ltac:(lia)). nia.
Qed.

Lemma mode_share l t (v : V) : 0 < t ≤ 100 → mode_consensus visit l t = Some v → t ≤ share v l.
Proof.
  intros Ht Hm. pose proof (mode_consensus_spec visit Hvisit l t) as Hs. rewrite Hm in Hs. destruct Hs as (Hv & _ & [?|Hall]); [done|].
  unfold share. rewrite votes_for_all by done. destruct l; [by apply not_elem_of_nil in Hv|].
  rewrite Z.mul_comm, Z.div_mul by (simpl; lia). lia.
Qed.

(** A majority is found whatever the order of the map. *)
Lemma mode_majority l t (v : V) : 50 < t ≤ 100 → mode_consensus visit l t = Some v ↔ t ≤ share v l.
Proof.
  intros Ht. split; [apply mode_share; lia|]. intros Hv.
  pose proof (mode_consensus_spec visit Hvisit l t) as Hs. destruct (mode_consensus visit l t) as [w|] eqn:Hm.
  - f_equal. apply (share_majority w v l t); [lia|by apply mode_share; [lia|]|done].
  - exfalso. destruct Hs as [->|Hs]; [unfold share in Hv; rewrite Z.div_0_r in Hv; lia|specialize (Hs v); unfold share in Hv; lia].
Qed.
End Majority.

(** ** The vote on the beacons of the peers *)

Section Vote.
Context (visit : ∀ A : Type, list A → list A) (Hvisit : reorders visit).

(** At most as many beacons as outbound peers. *)
Definition within_limit (n : nat) (limit : option Z) : Prop := match limit with Some l => Z.of_nat n ≤ l | None => True end.
(** The votes on superblocks, absent peers included. *)
Definition all_votes (pb : list (SocketAddr * option LastBeacon)) (limit : option Z) : list (option CheckpointBeacon) :=
  superblock_votes pb (default 0%nat (num_missing_peers pb limit)).

Lemma superblock_votes_elem pb n sb :
  Some sb ∈ superblock_votes pb n ↔ ∃ a b, (a, Some b) ∈ pb ∧ highest_superblock_checkpoint b = sb.
Proof.
  unfold superblock_votes. rewrite elem_of_app, list_elem_of_fmap. split.
  - intros [([a [b|]] & Hb & Hin)|[? ?]%elem_of_replicate]; [|done..]. injection Hb as ->. by exists a, b.
  - intros (a & b & Hin & <-). left. by exists (a, Some b).
Qed.

Lemma block_votes_elem pb sb x : Some x ∈ block_votes pb sb ↔ ∃ a, (a, Some (MkLastBeacon x sb)) ∈ pb.
Proof.
  unfold block_votes. rewrite list_elem_of_fmap. split.
  - intros ([a [[xb sb']|]] & Hb & Hin); simpl in Hb; [|done]. case_decide as Hd; [|done]. simpl in Hd; subst. injection Hb as ->. by exists a.
  - intros (a & Hin). exists (a, Some (MkLastBeacon x sb)). simpl. by rewrite (decide_True (P:=sb = sb)).
Qed.

Lemma share_elem `{EqDecision V} (v : V) l t : 0 < t → t ≤ share v l → v ∈ l.
Proof.
  intros Ht Hs. apply votes_for_pos. pose proof (votes_for_nonneg v l). destruct (decide (votes_for v l = 0)) as [Hz|]; [|lia].
  unfold share in Hs. rewrite Hz, Z.mul_0_l, Zdiv_0_l in Hs. lia.
Qed.

(** The blocks reported with an agreed superblock: one is chosen, by consensus or not. *)
Definition agreed_block (pb : list (SocketAddr * option LastBeacon)) (t : Z) (b : LastBeacon) (k : bool) : Prop :=
  (∃ a, (a, Some b) ∈ pb)
  ∧ (k = true ↔ t ≤ share (Some (highest_block_checkpoint b)) (block_votes pb (highest_superblock_checkpoint b))).

Lemma block_consensus_spec pb sb t :
  50 < t ≤ 100 → (∃ x, Some x ∈ block_votes pb sb) →
  ∃ x k, (match mode_consensus visit (block_votes pb sb) t with
          | Some (Some x) => Some (Some (MkLastBeacon x sb, true))
          | _ => first ← head (omap id (block_votes pb sb));
                 match mode_consensus visit (omap id (block_votes pb sb)) 0 with
                 | Some x => Some (Some (MkLastBeacon x sb, false))
                 | None => Some (Some (MkLastBeacon first sb, false))
                 end
          end) = Some (Some (MkLastBeacon x sb, k)) ∧ agreed_block pb t (MkLastBeacon x sb) k.
Proof.
  intros Ht [y Hy].
  assert (∀ x, x ∈ omap id (block_votes pb sb) → ∃ a, (a, Some (MkLastBeacon x sb)) ∈ pb) as Hflat.
  { intros x (o & Ho & Hox)%list_elem_of_omap. unfold id in Hox; subst. by apply block_votes_elem. }
  assert (∀ x, mode_consensus visit (block_votes pb sb) t ≠ Some (Some x) → x ∈ omap id (block_votes pb sb) →
          agreed_block pb t (MkLastBeacon x sb) false) as Hno.
  { intros x Hm Hx. split; [by apply Hflat|]. split; [done|]. intros Hs%(mode_majority visit Hvisit); [done|lia]. }
  set (l := block_votes pb sb) in *. assert (∃ first, head (omap id l) = Some first) as [first Hfirst].
  { assert (y ∈ omap id l) as Hin by (apply list_elem_of_omap; by exists (Some y)).
    destruct (omap id l); [by apply not_elem_of_nil in Hin|by eexists]. }
  destruct (mode_consensus visit l t) as [[x|]|] eqn:Hm.
  { exists x, true. split; [done|]. apply (mode_majority visit Hvisit) in Hm; [|lia].
    split; [|by split]. apply block_votes_elem. eapply share_elem; [|exact Hm]. lia. }
  all: rewrite Hfirst; simpl; pose proof (mode_consensus_spec visit Hvisit (omap id l) 0) as Hs.
  all: destruct (mode_consensus visit (omap id l) 0) as [x|] eqn:Hm0;
    [exists x, false; split; [done|apply Hno; [by first [done|rewrite Hm]|by destruct Hs]]
    |exists first, false; split; [done|apply Hno; [by first [done|rewrite Hm]|by apply head_Some_elem_of]]].
Qed.

Lemma superblock_consensus_spec pb limit t :
  50 < t ≤ 100 → within_limit (length pb) limit →
  ∃ r, superblock_consensus visit pb limit t = Some r
    ∧ (∀ sb, (∃ b k, r = Some (b, k) ∧ highest_superblock_checkpoint b = sb) ↔ t ≤ share (Some sb) (all_votes pb limit))
    ∧ ∀ b k, r = Some (b, k) → agreed_block pb t b k.
Proof.
  intros Ht Hlim. assert (∃ n, num_missing_peers pb limit = Some n) as [n Hn].
  { unfold num_missing_peers, within_limit in *. destruct limit; [rewrite decide_True by done|]; by eexists. }
  unfold superblock_consensus, all_votes. rewrite Hn. simpl. set (votes := superblock_votes pb n).
  assert (∀ sb, t ≤ share (Some sb) votes ↔ mode_consensus visit votes t = Some (Some sb)) as Hmode
    by (intros sb; symmetry; apply mode_majority; [done|lia]).
  destruct (mode_consensus visit votes t) as [[sb|]|] eqn:Hm.
  2,3: exists None; split_and!; [done| |done]; intros sb; split; [by intros (? & ? & ? & _)|by intros ?%Hmode].
  destruct (block_consensus_spec pb sb t Ht) as (x & k & -> & Hk).
  { assert (t ≤ share (Some sb) votes) as Hs by by apply Hmode. apply share_elem in Hs; [|lia].
    apply superblock_votes_elem in Hs as (a & [x sb'] & Hin & Hsb). simpl in Hsb; subst. exists x. apply block_votes_elem. by exists a. }
  eexists. split; [done|]. split.
  - intros sb'. rewrite Hmode. split; [by intros (b & k' & [= <- <-] & <-)|]. intros [= <-]. by eexists _, _.
  - by intros b k' [= <- <-].
Qed.
(** C24. With a majority as threshold the vote never panics within the limit of peers.  It agrees on
    exactly the superblock with that share of all the outbound slots, whatever the order in which
    the hash maps are iterated, and on a block that some peer reported together with
    that superblock; it says that there is consensus on the block exactly if the
    block has that share among the peers. *)
Theorem superblock_agreement pb limit t :
  50 < t ≤ 100 → within_limit (length pb) limit →
  ∃ r, superblock_consensus visit pb limit t = Some r
    ∧ (∀ sb, (∃ b k, r = Some (b, k) ∧ highest_superblock_checkpoint b = sb) ↔ t ≤ share (Some sb) (all_votes pb limit))
    ∧ ∀ b k, r = Some (b, k) → agreed_block pb t b k.
Proof. apply superblock_consensus_spec. Qed.
End Vote.

(** ** The state machine *)

Section Machine.
Context {C B : Type} `{ChainOps C B}.
Context (visit : ∀ A : Type, list A → list A) (block_hash : Block → Hash).
Implicit Types s : SyncState C B.

(** Steps that never make the node synced, keep the threshold and do not mine. *)
Definition quiet (e : list SyncEffect) : Prop := Forall (λ x, x ≠ TryMineDataRequest) e.
Definition steady s s' (e : list SyncEffect) : Prop :=
  consensus_c s' = consensus_c s ∧ (sm_state s' = Synced → sm_state s = Synced) ∧ quiet e.

Lemma quiet_app e1 e2 : quiet (e1 ++ e2) ↔ quiet e1 ∧ quiet e2.
Proof. apply Forall_app. Qed.
Lemma quiet_cons x e : quiet (x :: e) ↔ x ≠ TryMineDataRequest ∧ quiet e.
Proof. unfold quiet. by rewrite Forall_cons. Qed.
Lemma quiet_nil : quiet [].
Proof. apply Forall_nil_2. Qed.
Ltac quiets := repeat first [ rewrite quiet_app | rewrite quiet_cons ]; split_and?; try done; try apply quiet_nil; auto.

Lemma steady_trans s1 s2 s3 e1 e2 e3 : steady s1 s2 e1 → steady s2 s3 e2 → quiet e3 → steady s1 s3 e3.
Proof. unfold steady. intros (? & ? & ?) (? & ? & ?) ?. split_and!; [congruence|auto|done]. Qed.
Lemma steady_same s s' e : consensus_c s' = consensus_c s → sm_state s' = sm_state s → quiet e → steady s s' e.
Proof. intros ? Hs ?. split_and!; [done|by rewrite Hs|done]. Qed.
Lemma steady_with s s1 s' e e' :
  steady s s1 e → consensus_c s' = consensus_c s1 → sm_state s' = sm_state s1 → quiet e' → steady s s' e'.
Proof. intros (? & ? & ?) ? Hs ?. split_and!; [congruence|by rewrite Hs|done]. Qed.
Lemma steady_quiet s s' e : steady s s' e → quiet e.
Proof. by intros (_ & _ & ?). Qed.
Lemma steady_update next s s' e : update_state_machine next s = (s', e) → next ≠ Synced → steady s s' e.
Proof. intros [= <- <-] Hn. split_and!; [done..|]. case_decide; quiets. Qed.
Lemma update_quiet next s s' e : update_state_machine next s = (s', e) → consensus_c s' = consensus_c s ∧ quiet e.
Proof. intros [= <- <-]. split; [done|]. case_decide; quiets. Qed.
#[local] Opaque update_state_machine.

(** Case analysis on the option monad and on conditions. *)
Ltac step_cases :=
  repeat first
    [ progress simplify_option_eq
    | match goal with
      | Hx : context [match ?x with _ => _ end] |- _ =>
        lazymatch type of Hx with _ = _ => destruct x eqn:? end
      end ].

Lemma process_quiet st epoch blocks n c c' ok n' e : process_blocks_from st epoch n blocks c = Some (c', ok, n', e) → quiet e.
Proof.
  revert n c. induction blocks as [|b blocks IH]; intros n c Hr; simpl in Hr; step_cases; eauto; try apply quiet_nil.
  all: quiets.
Qed.
Lemma batch_steady blocks s s' ok n e : process_blocks_batch blocks s = Some (s', ok, n, e) → steady s s' e.
Proof. unfold process_blocks_batch. intros Hr. step_cases. apply steady_same; [done..|]. by eapply process_quiet. Qed.
Lemma first_batch_steady blocks s s' ok n e : process_first_batch blocks s = Some (s', ok, n, e) → steady s s' e.
Proof.
  unfold process_first_batch. intros Hr. destruct (process_blocks_batch blocks s) as [[[[s1 ok1] n1] e1]|] eqn:Hb; [|done].
  apply batch_steady in Hb. simpl in Hr. destruct ok1; [by simplify_eq|].
  destruct (update_state_machine WaitingConsensus s1) as [s2 e2] eqn:Hu. apply steady_update in Hu; [|done]. simplify_eq.
  pose proof (steady_quiet _ _ _ Hb). pose proof (steady_quiet _ _ _ Hu).
  apply (steady_trans _ s1 _ e1 e2); [done|by apply (steady_with _ s2 _ e2)|quiets].
Qed.
Lemma request_steady s s' e : request_blocks_batch s = Some (s', e) → steady s s' e.
Proof. unfold request_blocks_batch. intros Hr. step_cases. apply steady_same; [done..|quiets]. Qed.
Lemma target_steady b s s' e : request_sync_target_superblock b s = (s', e) → steady s s' e.
Proof. unfold request_sync_target_superblock. intros Hr. repeat case_decide; simplify_eq; apply steady_same; done || quiets. Qed.
Lemma forget_steady s : steady s (forget_waiting s) [].
Proof. unfold forget_waiting. case_decide; apply steady_same; done || quiets. Qed.
#[local] Hint Resolve quiet_nil : core.
Lemma dropped_quiet sender s : quiet (drop_all_outbounds_and_ice_sender sender s).
Proof. unfold drop_all_outbounds_and_ice_sender. destruct sender; simpl; quiets. Qed.
Lemma consolidation_quiet blocks target sb period s : quiet (consolidation_effects blocks target sb period s).
Proof. unfold consolidation_effects. case_match; quiets. Qed.

(** A batch, the continuations and the superblock keep the node out of [Synced]. *)
Lemma after_first_batch blocks s s1 ok n e1 s' e' :
  process_first_batch blocks s = Some (s1, ok, n, e1) → steady s1 s' e' → quiet e' → steady s s' (e1 ++ e').
Proof.
  intros Hf%first_batch_steady Hs Hq. pose proof (steady_quiet _ _ _ Hf).
  apply (steady_trans _ s1 _ e1 e'); [done..|quiets].
Qed.

Lemma dropped_steady sender s : steady s s (drop_all_outbounds_and_ice_sender sender s).
Proof. by apply steady_same; [..|apply dropped_quiet]. Qed.

Lemma add_batch_steady blocks sender target period s s' e p :
  add_batch blocks sender target period s = Some (s', e, p) → steady s s' e.
Proof.
  unfold add_batch. destruct (current_epoch s) as [epoch|]; [|done]. simpl. intros Hr. case_decide.
  { destruct (request_sync_target_superblock _ s) as [s1 e1] eqn:Ht. simplify_eq. apply target_steady in Ht.
    apply (steady_with _ s' _ e1); [done..|]. pose proof (steady_quiet _ _ _ Ht). quiets. }
  destruct (split_blocks_batch_at_target _ blocks epoch target period) as [[l|l r|l c r]|[]|].
  4: { destruct (update_state_machine WaitingConsensus s) as [s1 e1] eqn:Hu. simplify_eq. apply steady_update in Hu; [|done].
       apply (steady_with _ s1 _ e); [done..|by eapply steady_quiet]. }
  4: done.
  all: destruct (process_first_batch l s) as [[[[s1 ok] n] e1]|] eqn:Hf; [|done]; simpl in Hr; destruct ok;
    [|simplify_eq; eapply after_first_batch; [done|apply dropped_steady|apply dropped_quiet]].
  - destruct (request_blocks_batch s1) as [[s2 e2]|] eqn:Hq; [|done]. simpl in Hr. simplify_eq. apply request_steady in Hq.
    assert (quiet ([PersistBlocks l; PersistFinishedRequests] ++ e2 ++ [PersistChainState]))
      by (pose proof (steady_quiet _ _ _ Hq); quiets).
    eapply after_first_batch; [done|by apply (steady_with _ s' _ e2)|done].
  - simplify_eq. eapply after_first_batch; [done| |apply consolidation_quiet].
    apply (steady_with _ _ _ [] _ (forget_steady s1)); [done..|apply consolidation_quiet].
  - simplify_eq. eapply after_first_batch; [done| |apply consolidation_quiet].
    apply (steady_with _ _ _ [] _ (forget_steady s1)); [done..|apply consolidation_quiet].
Qed.

Ltac updates := repeat match goal with
  | Hu : update_state_machine ?n _ = (_, ?e) |- _ =>
    lazymatch goal with _ : quiet e |- _ => fail | _ => pose proof (steady_quiet _ _ _ (steady_update _ _ _ _ Hu ltac:(done))) end
  | Hu : steady _ _ ?e |- _ =>
    lazymatch goal with _ : quiet e |- _ => fail | _ => pose proof (steady_quiet _ _ _ Hu) end
  end.

Lemma add_blocks_steady blocks sender s s' e p :
  handle_add_blocks block_hash blocks sender s = Some (s', e, p) → steady s s' e.
Proof.
  unfold handle_add_blocks. destruct (consensus_constants (chain s)) as [constants|]; [|done]. simpl. intros Hr.
  assert (∀ c e1, quiet e1 → steady s (forget_waiting (with_chain c s)) e1) as Hchain.
  { intros c e1 He. apply (steady_trans _ (with_chain c s) _ [] []); [by apply steady_same|apply forget_steady|done]. }
  assert (∀ e1, quiet e1 → steady s (forget_waiting s) e1) as Hforget by (intros e1 He; by apply (steady_with _ _ _ [] _ (forget_steady s))).
  assert (∀ e1 s1 e2, update_state_machine WaitingConsensus s = (s1, e1) → quiet e2 → steady s s1 e2) as Hwait.
  { intros e1 s1 e2 Hu He. apply (steady_with _ s1 _ e1); [by eapply steady_update|done..]. }
  destruct (sm_state s).
  1,3: destruct blocks as [|b [|]]; simplify_eq; auto; case_decide; simplify_eq; auto;
       destruct (process_block _ _ b (chain s)) as [[c []]|]; simpl in Hr; [|by simplify_eq; auto|done];
       destruct (our_last_beacon _); simpl in Hr; [|done]; simplify_eq; apply Hchain; quiets.
  2: by simplify_eq; auto.
  destruct (sync_target s) as [target|]; [|simplify_eq; by apply steady_same].
  destruct blocks as [|b blocks].
  { destruct (update_state_machine WaitingConsensus s) as [s1 e1] eqn:Hu. simplify_eq. updates. by eapply Hwait. }
  destruct (chain_beacon (chain s)) as [tip|]; [|done]. simpl in Hr. case_decide; [|by eapply add_batch_steady].
  destruct (update_state_machine WaitingConsensus s) as [s1 e1] eqn:Hu. simplify_eq. updates. eapply Hwait; [done|quiets].
Qed.

Lemma remaining_steady blocks sender s s' e : then_remaining blocks sender s = Some (s', e) → steady s s' e.
Proof.
  unfold then_remaining. destruct (update_state_machine WaitingConsensus s) as [s1 e1] eqn:Hu. intros Hr.
  destruct (process_blocks_batch blocks s1) as [[[[s2 ok] n] e2]|] eqn:Hb; [|done]. simpl in Hr. apply batch_steady in Hb. updates.
  apply steady_update in Hu; [|done]. destruct ok; simplify_eq; (eapply steady_trans; [done..|]); quiets. apply dropped_quiet.
Qed.

Lemma candidate_steady blocks sender period s s' e r : then_candidate blocks sender period s = Some (s', e, r) → steady s s' e.
Proof.
  unfold then_candidate. destruct (current_epoch s); [|done]. simpl. intros Hr.
  destruct (process_blocks_batch blocks s) as [[[[s1 ok] n] e1]|] eqn:Hb; [|done]. simpl in Hr. apply batch_steady in Hb.
  destruct ok, (update_state_machine WaitingConsensus s1) as [s2 e2] eqn:Hu; simplify_eq; updates; apply steady_update in Hu; try done.
  all: eapply steady_trans; [done..|]; quiets.
  - case_match; quiets.
  - destruct sender; simpl; quiets.
Qed.

Lemma after_candidate_steady blocks sender s s' e : then_after_candidate blocks sender s = Some (s', e) → steady s s' e.
Proof.
  unfold then_after_candidate. intros Hr.
  destruct (process_blocks_batch blocks s) as [[[[s1 ok] n] e1]|] eqn:Hb; [|done]. simpl in Hr. apply batch_steady in Hb.
  destruct ok, (update_state_machine WaitingConsensus s1) as [s2 e2] eqn:Hu; simplify_eq; updates; apply steady_update in Hu; try done.
  - eapply steady_trans; [done..|]; quiets.
  - apply (steady_with _ s2 _ (e1 ++ e2)); [eapply steady_trans; [done..|quiets]|done|done|]. quiets. destruct sender; simpl; quiets.
Qed.

Lemma verdict_steady v voted epoch period s s' e b : after_verdict v voted epoch period s = (s', e, b) → steady s s' e.
Proof.
  unfold after_verdict. intros Hr. destruct v.
  1: simplify_eq; apply steady_same; done || quiets.
  all: match type of Hr with context [update_state_machine ?n ?x] => destruct (update_state_machine n x) as [s1 e1] eqn:Hu end;
    simplify_eq; updates; apply steady_update in Hu; try done; destruct Hu as (? & ? & ?); split_and!; done || quiets.
Qed.

Lemma epoch_start_steady epoch s : steady s (epoch_start epoch s).1 (epoch_start epoch s).2.
Proof.
  unfold epoch_start. set (s0 := with_new_epoch epoch s). set (p1 := if peers_beacons_received s0 then _ else _).
  assert (steady s p1.1 p1.2) as Hp1.
  { subst p1. destruct (peers_beacons_received s0); [by apply steady_same|].
    destruct (update_state_machine WaitingConsensus s0) as [s1 e1] eqn:Hu. apply steady_update in Hu; [|done].
    by destruct Hu as (? & ? & ?). }
  destruct p1 as [s1 e1]. simpl in Hp1. set (p2 := match current_epoch s with Some _ => _ | None => _ end).
  assert (steady s1 p2.1 p2.2) as Hp2.
  { subst p2. destruct (current_epoch s); [case_decide; [by apply (steady_update WaitingConsensus); [apply surjective_pairing|]|]|]; by apply steady_same. }
  destruct p2 as [s2 e2]. updates. simpl in *. apply (steady_with _ s2 _ (e1 ++ e2)); [eapply steady_trans; [done..|]|..]; done || quiets.
Qed.

Lemma again_steady s : steady s (add_transactions_again s).1 (add_transactions_again s).2.
Proof.
  apply steady_same; [done..|]. unfold add_transactions_again, quiet. simpl.
  apply Forall_app; split; apply Forall_fmap, Forall_true; by intros.
Qed.

(** It mines only when synced. *)
Definition mines_if_synced s s' (e : list SyncEffect) : Prop :=
  consensus_c s' = consensus_c s ∧ sm_state s' = sm_state s ∧ (sm_state s = Synced ∨ quiet e).

Lemma epoch_synced_steps best s s' e k : epoch_synced best s = Some (s', e, k) → mines_if_synced s s' e.
Proof.
  unfold epoch_synced, mines_if_synced. intros Hr. destruct (decide (sm_state s = Synced)) as [Hs|Hs].
  - step_cases; split_and!; done || by left.
  - destruct (has_reputation (chain s)); [destruct (can_validate (chain s))|]; [|simplify_eq; split_and!; [done..|by right]..].
    destruct (match best with Some _ => _ | None => _ end) as [c|]; [|done]. simpl in Hr. destruct (our_last_beacon _); [|done].
    simpl in Hr. rewrite bool_decide_eq_false_2, andb_false_r in Hr by done. simplify_eq. split_and!; [done..|right; quiets].
Qed.

Lemma epoch_steps epoch s s' e :
  handle_epoch_notification epoch s = Some (s', e) →
  consensus_c s' = consensus_c s ∧ (sm_state s' = Synced → sm_state s = Synced) ∧ (sm_state s = Synced ∨ quiet e).
Proof.
  unfold handle_epoch_notification. destruct (chain_beacon _); [|done]. cbn [mbind option_bind].
  pose proof (epoch_start_steady epoch s) as H1. destruct (epoch_start epoch s) as [s1 e1]. simpl in H1.
  set (s2 := with_chain _ _). destruct (match sm_state s2 with WaitingConsensus => _ | _ => _ end) as [[[s3 e2] k]|] eqn:Hm; [|done].
  assert (mines_if_synced s2 s3 e2) as (Hc & Hs & Hq).
  { destruct (sm_state s2) eqn:Hst; [destruct (our_last_beacon _); [|done]| |by eapply epoch_synced_steps..];
      simpl in Hm; simplify_eq; split_and!; try done; right; quiets. }
  cbn [mbind option_bind]. set (p := if k : bool then _ else _).
  assert (steady s3 p.1 p.2) as H2 by (subst p; destruct k; [apply again_steady|by apply steady_same]).
  destruct p as [s4 e3]. intros [= <- <-]. updates. destruct H1 as (? & Hs1 & _), H2 as (? & Hs2 & _). simpl in *.
  assert (sm_state s3 = sm_state s1) as Hs3 by done. rewrite Hs3 in Hs2. split_and!; [congruence|auto|].
  destruct Hq as [Hq|Hq]; [left; by apply Hs1|right; quiets].
Qed.

(** ** Becoming synced *)

Context (Hvisit : reorders visit).

(** The beacons that the handler takes into account. *)
Definition considered s (pb : list (SocketAddr * option LastBeacon)) : list (SocketAddr * option LastBeacon) :=
  match last_superblock_consensus s with Some sb => ignore_no_consensus_beacons sb pb | None => pb end.

(** Enough of the peers report the tip of our chain, and with it a superblock that has the share
    of all the outbound slots. *)
Definition peers_agree_on_tip s (pb : list (SocketAddr * option LastBeacon)) (limit : option Z) : Prop :=
  ∃ tip sb, chain_beacon (chain s) = Some tip
    ∧ consensus_c s ≤ share (Some sb) (all_votes (considered s pb) limit)
    ∧ consensus_c s ≤ share (Some tip) (block_votes (considered s pb) sb).

Lemma consensus_true pb limit t b :
  0 < t ≤ 100 → superblock_consensus visit pb limit t = Some (Some (b, true)) →
  t ≤ share (Some (highest_superblock_checkpoint b)) (all_votes pb limit)
  ∧ t ≤ share (Some (highest_block_checkpoint b)) (block_votes pb (highest_superblock_checkpoint b)).
Proof.
  intros Ht. unfold superblock_consensus, all_votes. destruct (num_missing_peers pb limit) as [n|]; [|done]. simpl.
  destruct (mode_consensus visit (superblock_votes pb n) t) as [[sb|]|] eqn:Hsb; [|done..]. apply (mode_share visit Hvisit) in Hsb; [|done].
  destruct (mode_consensus visit (block_votes pb sb) t) as [[x|]|] eqn:Hx.
  { intros [= <-]. split; [done|]. simpl. by eapply mode_share. }
  all: destruct (head _); [|done]; simpl; by destruct (mode_consensus visit (omap id _) 0).
Qed.

Lemma waiting_steady b s s' e : after_waiting b s = Some (s', e) → steady s s' e.
Proof.
  unfold after_waiting. set (s0 := with_target _ s).
  assert (∀ n s1 s' e, update_state_machine n s1 = (s', e) → n ≠ Synced → consensus_c s1 = consensus_c s → ∀ e', quiet e' → steady s s' e') as Hup.
  { intros n s1 s2 e1 [= <- <-] ? ? e' ?. by split_and!. }
  destruct (chain_beacon (chain s0)) as [our|]; [|done]. destruct (consensus_constants (chain s0)); [|done]. cbn [mbind option_bind].
  assert (∀ n s1 s' e, update_state_machine n s1 = (s', e) → n ≠ Synced → quiet e) as Hqu by (intros; by eapply steady_quiet, steady_update).
  intros Hr. repeat (case_decide; [simplify_eq; try (by eapply Hup; [done..|eapply Hqu])|]).
  - destruct (update_state_machine WaitingConsensus s0) as [s1 e1] eqn:Hu. simplify_eq. pose proof (Hqu _ _ _ _ Hu). eapply Hup; done || quiets.
  - destruct (process_candidates _ _ _ _) as [[c1 []]|]; [| |done]; simpl in Hr.
    + simplify_eq. by eapply Hup; [done..|eapply Hqu].
    + destruct (request_blocks_batch _) as [[s1 e1]|] eqn:Hq; [|done]. simpl in Hr.
      destruct (update_state_machine Synchronizing s1) as [s2 e2] eqn:Hu. simplify_eq. apply request_steady in Hq. updates.
      eapply Hup; [done..| |quiets]. by destruct Hq as (-> & _).
Qed.

Lemma synchronizing_steady b s s' e : after_synchronizing b s = Some (s', e) → steady s s' e.
Proof.
  unfold after_synchronizing. set (s0 := with_target _ s). destruct (chain_beacon (chain s0)) as [our|]; [|done].
  cbn [mbind option_bind]. intros Hr. assert (∀ s1 e1, steady s0 s1 e1 → steady s s1 e1) as Hs0 by done.
  repeat case_decide; simplify_eq; [by eapply Hs0, steady_update| |by eapply Hs0, steady_update].
  destruct (update_state_machine WaitingConsensus s0) as [s1 e1] eqn:Hu. simplify_eq. updates.
  apply (steady_with _ s' _ e1); [by eapply Hs0, steady_update|done..|quiets].
Qed.

Lemma after_transition_steps s s' e :
  after_transition s = Some (s', e) → sm_state s' = sm_state s ∧ consensus_c s' = consensus_c s ∧ quiet e.
Proof.
  unfold after_transition, request_sync_target_superblock, request_blocks_batch. intros Hr.
  step_cases; split_and!; done || quiets.
Qed.

(** The transition goes to [Synced] from [AlmostSynced] only, with consensus on the block at our tip. *)
Definition tip_agreed (consensus : option (LastBeacon * bool)) s : Prop :=
  ∃ b, consensus = Some (b, true) ∧ sm_state s = AlmostSynced ∧ chain_beacon (chain s) = Some (highest_block_checkpoint b).

Lemma transition_steps consensus l1 l2 s s' d e :
  beacons_transition consensus l1 l2 s = Some (s', d, e) →
  consensus_c s' = consensus_c s ∧ quiet e ∧ (sm_state s' = Synced → sm_state s = Synced ∨ tip_agreed consensus s).
Proof.
  assert (∀ s1 e1, steady s s1 e1 → consensus_c s1 = consensus_c s ∧ quiet e1 ∧ (sm_state s1 = Synced → sm_state s = Synced ∨ tip_agreed consensus s))
    as Hst by (intros s1 e1 (? & ? & ?); split_and!; auto).
  assert (∀ n s1 e1 l, n ≠ Synced → (let '(s1', e') := update_state_machine n s in Some (s1', l, e')) = Some (s1, d, e1) → steady s s1 e1) as Hup.
  { intros n s1 e1 l Hn. destruct (update_state_machine n s) as [s2 e2] eqn:Hu. intros [= <- <- <-]. by eapply steady_update. }
  assert (steady s s []) as Hsame by by apply steady_same.
  unfold beacons_transition. intros Hr. destruct (sm_state s) eqn:Hs.
  - apply Hst. destruct consensus as [[b k]|]; [|by simplify_eq].
    destruct (after_waiting b s) as [[s1 e1]|] eqn:Hw; simpl in Hr; simplify_eq. by eapply waiting_steady.
  - apply Hst. destruct consensus as [[b k]|]; [|by eapply Hup; [|exact Hr]].
    destruct (after_synchronizing b s) as [[s1 e1]|] eqn:Hw; simpl in Hr; simplify_eq. by eapply synchronizing_steady.
  - destruct (chain_beacon (chain s)) as [our|] eqn:Hour; [|done]. simpl in Hr.
    destruct consensus as [[b k]|]; [|eapply Hst, Hup; [|done]; done]. case_decide as Ho; [|eapply Hst, Hup; [|done]; done].
    case_decide as Hk; [|simplify_eq; by apply Hst]. destruct Hk as [_ ->].
    destruct (update_state_machine Synced s) as [s1 e1] eqn:Hu. simplify_eq.
    apply update_quiet in Hu as [? ?]. split_and!; [done..|]. intros _. right. by exists b.
  - destruct (chain_beacon (chain s)) as [our|] eqn:Hour; [|done]. simpl in Hr. split_and!; [..|by left].
    all: destruct consensus as [[b k]|]; [case_decide; [by simplify_eq|]|].
    all: by eapply Hst, Hup; [|exact Hr].
Qed.

Lemma beacons_steps pb limit s s' r e :
  0 < consensus_c s ≤ 100 → handle_peers_beacons visit pb limit s = Some (s', r, e) →
  consensus_c s' = consensus_c s ∧ quiet e
  ∧ (sm_state s' = Synced → sm_state s = Synced ∨ sm_state s = AlmostSynced ∧ peers_agree_on_tip s pb limit).
Proof.
  intros Ht. unfold handle_peers_beacons. set (s0 := with_received _ _ s).
  change (last_superblock_consensus s0) with (last_superblock_consensus s). fold (considered s pb). set (pb' := considered s pb).
  destruct (current_epoch s0) as [epoch|]; [|intros [= <- _ <-]; split_and!; [done..|by left]].
  destruct (superblock_consensus visit pb' limit (consensus_c s0)) as [consensus|] eqn:Hcon; [|done]. cbn [mbind option_bind].
  set (s1 := with_received _ pb' s0). destruct (peers_out_of_consensus _ _ _ s1) as [l|]; [|done]. cbn [mbind option_bind].
  destruct (beacons_transition consensus l _ s1) as [[[s2 d] e2]|] eqn:Hb; [|done]. cbn [mbind option_bind].
  destruct (after_transition s2) as [[s3 e3]|] eqn:Ha; [|done]. intros [= <- <- <-].
  apply transition_steps in Hb as (Hc & Hq & Hs). apply after_transition_steps in Ha as (Hs3 & Hc3 & Hq3).
  split_and!; [by rewrite Hc3, Hc| |].
  - unfold quiet in *. rewrite !Forall_app. split_and!; try done. apply Forall_fmap, Forall_true. by intros.
  - rewrite Hs3. intros [?|(b & -> & ? & ?)]%Hs; [by left|right]. split; [done|].
    apply consensus_true in Hcon as [? ?]; [|done]. by exists (highest_block_checkpoint b), (highest_superblock_checkpoint b).
Qed.

Lemma sync_step_steps e s s' eff :
  0 < consensus_c s ≤ 100 → sync_step visit block_hash e s = Some (s', eff) →
  consensus_c s' = consensus_c s ∧ (sm_state s = Synced ∨ quiet eff)
  ∧ (sm_state s' = Synced → sm_state s = Synced ∨ ∃ pb limit, e = BeaconsOf pb limit ∧ sm_state s = AlmostSynced ∧ peers_agree_on_tip s pb limit).
Proof.
  intros Ht. assert (∀ s1 e1, steady s s1 e1 → consensus_c s1 = consensus_c s ∧ (sm_state s = Synced ∨ quiet e1)
    ∧ (sm_state s1 = Synced → sm_state s = Synced ∨ ∃ pb limit, e = BeaconsOf pb limit ∧ sm_state s = AlmostSynced ∧ peers_agree_on_tip s pb limit))
    as Hst by (intros s1 e1 (? & ? & ?); split_and!; auto).
  destruct e as [pb limit|epoch|bs a|bs a|bs a p|bs a|h sb| |v k epoch period votes| |c cs best rs ts]; simpl; intros Hr.
  - destruct (handle_peers_beacons visit pb limit s) as [[[s1 r] e1]|] eqn:Hb; simpl in Hr; [|done]. simplify_eq.
    apply beacons_steps in Hb as (? & ? & Hs); [|done]. split_and!; [done|by right|].
    intros [?|[? ?]]%Hs; [by left|right]. by exists pb, limit.
  - apply epoch_steps in Hr as (? & ? & ?). split_and!; auto.
  - destruct (handle_add_blocks block_hash bs a s) as [[[s1 e1] p]|] eqn:Hb; simpl in Hr; [|done]. simplify_eq. by eapply Hst, add_blocks_steady.
  - by eapply Hst, remaining_steady.
  - destruct (then_candidate bs a p s) as [[[s1 e1] k]|] eqn:Hb; simpl in Hr; [|done]. simplify_eq. by eapply Hst, candidate_steady.
  - by eapply Hst, after_candidate_steady.
  - simplify_eq. apply Hst, steady_same; [..|done]; unfold handle_add_superblock; destruct (sync_target s); try done; by case_decide.
  - simplify_eq. unfold anycast_failed in *. case_decide; [|simplify_eq; by apply Hst, steady_same].
    destruct (update_state_machine WaitingConsensus s) as [s1 e1] eqn:Hu. simplify_eq. updates. apply Hst, (steady_with _ s1 _ eff); try done.
    by eapply steady_update.
  - destruct (after_verdict _ v epoch period s) as [[s1 e1] b] eqn:Hv. simplify_eq. by eapply Hst, verdict_steady.
  - simplify_eq. unfold mismatching_superblock in *. destruct (update_state_machine WaitingConsensus s) as [s1 e1] eqn:Hu. simplify_eq. updates.
    apply Hst, (steady_with _ s1 _ e1); [by eapply steady_update|done..|quiets].
  - simplify_eq. by apply Hst, steady_same.
Qed.

(** C23. A node that mines got there by consensus: in a run from a state that is not synced, before the
    first time it mines there was an epoch in which, in state [AlmostSynced], the share of the
    peers that the configuration asks for reported exactly the tip of our own chain, together
    with a superblock that had this share of all the outbound slots. *)
Theorem mining_needs_consensus l s s' eff :
  0 < consensus_c s ≤ 100 → sm_state s ≠ Synced →
  sync_run visit block_hash l s = Some (s', eff) → TryMineDataRequest ∈ eff ∨ sm_state s' = Synced →
  ∃ l1 pb limit l2 s1 eff1,
    l = l1 ++ BeaconsOf pb limit :: l2 ∧ sync_run visit block_hash l1 s = Some (s1, eff1)
    ∧ sm_state s1 = AlmostSynced ∧ peers_agree_on_tip s1 pb limit ∧ consensus_c s1 = consensus_c s.
Proof.
  revert s eff. induction l as [|e l IH]; intros s eff Ht Hs Hr Hm; simpl in Hr.
  { injection Hr as <- <-. by destruct Hm as [?%elem_of_nil|]. }
  destruct (sync_step visit block_hash e s) as [[s1 e1]|] eqn:Hst; [|done]. simpl in Hr.
  destruct (sync_run visit block_hash l s1) as [[s2 e2]|] eqn:Hrun; [|done]. simpl in Hr. injection Hr as <- <-.
  destruct (sync_step_steps _ _ _ _ Ht Hst) as (Hc & Hq & Hsync).
  destruct (decide (sm_state s1 = Synced)) as [[?|(pb & limit & -> & ? & ?)]%Hsync|Hs1]; [done|by exists [], pb, limit, l, s, []|].
  assert (TryMineDataRequest ∈ e2 ∨ sm_state s2 = Synced) as Hm2.
  { destruct Hm as [[Hin|?]%elem_of_app|]; [|auto..]. destruct Hq as [|Hq]; [done|]. unfold quiet in Hq. rewrite Forall_forall in Hq. by apply Hq in Hin. }
  rewrite <-Hc in Ht. destruct (IH s1 e2 Ht Hs1 Hrun Hm2) as (l1 & pb & limit & l2 & s3 & e3 & -> & Hr1 & ? & ? & Hc3).
  exists (e :: l1), pb, limit, l2, s3, (e1 ++ e3). split_and!; [done| |done..|by rewrite Hc3]. simpl. by rewrite Hst; simpl; rewrite Hr1.
Qed.
End Machine.

(** ** Splitting a batch *)

Section Split.
Context {T : Type} (key : T → Z).

Lemma split_at_epoch_spec e (l l1 l2 : list T) :
  split_at_epoch key e l = (l1, l2) → l = l1 ++ l2 ∧ (∀ b, b ∈ l1 → key b < e)
  ∧ (StronglySorted (λ x y, key x ≤ key y) l → ∀ b, b ∈ l2 → e ≤ key b).
Proof.
  revert l1 l2. induction l as [|x l IH]; intros l1 l2 Hr; simpl in Hr.
  { simplify_eq. split_and!; [done|by intros b ?%not_elem_of_nil..|by intros _ b ?%not_elem_of_nil]. }
  case_decide as Hx.
  - simplify_eq. split_and!; [done|by intros b ?%not_elem_of_nil|]. intros [Hs Hall]%StronglySorted_inv b [->|Hb]%elem_of_cons; [done|].
    rewrite Forall_forall in Hall. apply Hall in Hb. lia.
  - destruct (split_at_epoch key e l) as [l1' l2']. simplify_eq. destruct (IH _ _ eq_refl) as (-> & Hlt & Hge).
    split_and!; [done| |by intros [? _]%StronglySorted_inv; auto].
    intros b [->|?]%elem_of_cons; [lia|auto].
Qed.

(** What the parts of a batch are, for a target superblock [sb] at the superblock [index] of the current epoch. *)
Definition split_of (blocks : list T) (sb index period : Z) (target : Z) (r : result SplitError (BlockBatches T)) : Prop :=
  match r with
  | Panic => False
  | Err (WrongBlocksForSuperblock k sb' i) =>
    sb ≠ 0 ∧ sb' = sb ∧ i = index ∧ ∃ b, b ∈ blocks ∧ key b = k ∧ sb * period ≤ k < (index - (index - sb) mod 2) * period
  | Ok (TargetNotReached l) => l = blocks ∧ ∀ b, b ∈ blocks → key b < Z.max 0 (sb * period - 1) ∧ key b < target
  | Ok (SyncWithoutCandidate l rest) =>
    blocks = l ++ rest ∧ (index - sb) mod 2 = 0 ∧ (∀ b, b ∈ l → key b < sb * period)
    ∧ ∀ b, b ∈ rest → sb * period ≤ key b ∧ (sb ≠ 0 → index * period ≤ key b)
  | Ok (SyncWithCandidate l candidate rest) =>
    blocks = l ++ candidate ++ rest ∧ (index - sb) mod 2 = 1 ∧ (∀ b, b ∈ l → key b < sb * period)
    ∧ (∀ b, b ∈ candidate → sb * period ≤ key b < index * period ∧ (sb ≠ 0 → (index - 1) * period ≤ key b))
    ∧ ∀ b, b ∈ rest → index * period ≤ key b
  end.

Lemma sorted_last (l : list T) x b : StronglySorted (λ x y, key x ≤ key y) l → last l = Some x → b ∈ l → key b ≤ key x.
Proof.
  intros Hs [l' ->]%last_Some Hb. apply elem_of_app in Hb as [Hb|Hb]; [|apply list_elem_of_singleton in Hb; subst; lia].
  apply (StronglySorted_app_1_elem_of _ l' [x] b x Hs); [done|by left].
Qed.

(** A batch of blocks in order is split at the target without losing or reordering blocks: first the
    blocks of the superblocks up to the target, then, when the superblock after it is
    being voted on, exactly the blocks of that one, and last those of the current one.
    A batch with blocks in between, which no superblock will confirm, is refused. *)
Theorem batch_split blocks epoch target period (sb := checkpoint (target_superblock target)) :
  0 < period → 0 ≤ sb ≤ epoch / period → epoch < U32 → StronglySorted (λ x y, key x ≤ key y) blocks →
  split_of blocks sb (epoch / period) period (checkpoint (target_block target))
    (split_blocks_batch_at_target key blocks epoch target period).
Proof.
  intros Hp Hsb He Hsort. unfold split_blocks_batch_at_target. fold sb. set (index := epoch / period) in *.
  assert (index * period ≤ epoch) as Hle by (subst index; rewrite Z.mul_comm; by apply Z.mul_div_le).
  pose proof (Z.mod_pos_bound (index - sb) 2 ltac:(lia)) as Hm.
  assert ((index - sb) mod 2 ≤ index - sb) as Hm2 by (apply Z.mod_le; lia).
  assert (index ≤ index * period) as Hin by nia. assert (0 ≤ sb * period ≤ index * period) as Hsp by nia.
  rewrite !decide_False by lia. rewrite (wsub_small U32 index sb) by lia. rewrite (wsub_small U32 index) by lia.
  rewrite (wmul_small U32 sb), (wmul_small U32 index) by lia. rewrite (wmul_small U32 (index - _)) by nia.
  set (first := (index - (index - sb) mod 2) * period). set (wrong := filter _ blocks).
  assert (∀ b, b ∈ blocks → sb * period ≤ key b → wrong = [] → first ≤ key b) as Hok.
  { intros b Hb Hk Hw. destruct (decide (first ≤ key b)); [done|exfalso]. assert (b ∈ wrong) as Hbw by (subst wrong; apply list_elem_of_filter; split; [lia|done]).
    rewrite Hw in Hbw. by apply not_elem_of_nil in Hbw. }
  set (good := if decide (_ ∧ _) then _ else _).
  assert ((sb ≠ 0 → wrong = []) → split_of blocks sb index period (checkpoint (target_block target)) good) as Hgood.
  { intros Hw. subst good. case_decide as Hd.
    - split; [done|]. intros b Hb. destruct (last blocks) as [x|] eqn:Hlast; [|apply last_None in Hlast; subst; by apply not_elem_of_nil in Hb].
      pose proof (sorted_last _ _ _ Hsort Hlast Hb). simpl in Hd. unfold sat_sub in Hd. lia.
    - case_decide as Hpar.
      + destruct (split_at_epoch key (sb * period) blocks) as [l r] eqn:Hs. apply split_at_epoch_spec in Hs as (-> & Hl & Hr).
        split_and!; [done..|]. intros b Hb. split; [by apply Hr|]. intros Hne. specialize (Hok b).
        subst first. rewrite Hpar, Z.sub_0_r in Hok. apply Hok; [apply elem_of_app; by right|by apply Hr|auto].
      + assert ((index - sb) mod 2 = 1) as Hodd by lia.
        destruct (split_at_epoch key (sb * period) blocks) as [l r] eqn:Hs. apply split_at_epoch_spec in Hs as (-> & Hl & Hr).
        destruct (split_at_epoch key (index * period) r) as [l' r'] eqn:Hs'. apply split_at_epoch_spec in Hs' as (-> & Hl' & Hr').
        assert (StronglySorted (λ x y, key x ≤ key y) (l' ++ r')) as Hsort' by by eapply StronglySorted_app_1_r.
        split_and!; [done..| |by apply Hr']. intros b Hb. assert (b ∈ l' ++ r') as Hb' by (apply elem_of_app; by left).
        split; [split; [by apply Hr|by apply Hl']|]. intros Hne. specialize (Hok b). subst first. rewrite Hodd in Hok.
        apply Hok; [apply elem_of_app; by right|by apply Hr|auto]. }
  destruct wrong as [|w ws] eqn:Hw; [by apply Hgood|]. case_bool_decide as Hz; [|apply Hgood; naive_solver].
  assert (w ∈ wrong) as Hin' by (rewrite Hw; left). subst wrong. apply list_elem_of_filter in Hin' as [? ?].
  split_and!; [done..|]. by exists w.
Qed.
End Split.

(** ** Beacons sent by the sessions manager *)

Section Handled.
Context {C B : Type} `{ChainOps C B}.
Context (visit : ∀ A : Type, list A → list A) (Hvisit : reorders visit).
Implicit Types s : SyncState C B.

(** The information of the chain is loaded, and processing a block neither panics nor loses it. *)
Definition chain_ready (c : C) : Prop :=
  is_Some (chain_beacon c) ∧ is_Some (superblock_beacon c) ∧ ∃ k, consensus_constants c = Some k ∧ superblock_period k ≠ 0.
Definition blocks_processed : Prop := ∀ st epoch b c, chain_ready c → ∃ c' ok, process_block st epoch b c = Some (c', ok) ∧ chain_ready c'.

Lemma candidates_processed st epoch l c : blocks_processed → chain_ready c → ∃ c' ok, process_candidates st epoch l c = Some (c', ok) ∧ chain_ready c'.
Proof.
  intros Hp. revert c. induction l as [|b l IH]; intros c Hc; simpl; [by eexists _, _|].
  destruct (Hp st epoch b c Hc) as (c' & ok & -> & Hc'). simpl. destruct ok; [by eexists _, _|by apply IH].
Qed.

Lemma request_ready s : chain_ready (chain s) → is_Some (current_epoch s) →
  ∃ w e, request_blocks_batch s = Some (with_waiting w s, e).
Proof.
  intros ([b Hb] & [sb Hsb] & _) [epoch He]. unfold request_blocks_batch, our_last_beacon. rewrite Hb, Hsb, He. by eexists _, _.
Qed.

(** What the transition leaves for [after_transition]. *)
Definition handles_on s : Prop :=
  chain_ready (chain s) ∧ is_Some (current_epoch s) ∧ (sm_state s = Synchronizing → is_Some (sync_target s)).

Lemma after_transition_total s : handles_on s → is_Some (after_transition s).
Proof.
  intros (Hc & [epoch He] & Ht). unfold after_transition. rewrite He. simpl.
  destruct (sm_state s) eqn:Hs; [by eexists| |..].
  { destruct (Ht eq_refl) as [target ->]. simpl. unfold request_sync_target_superblock.
    repeat (case_decide; simpl); destruct (sync_waiting_for_add_blocks_since s); simpl; try case_decide; try by eexists.
    all: match goal with |- context [request_blocks_batch ?x] => destruct (request_ready x) as (w & e & ->); [done|by eexists|by eexists] end. }
  all: destruct Hc as (_ & _ & k & -> & Hk); simpl; rewrite decide_False by done; case_decide; by eexists.
Qed.

Lemma waiting_total b s : blocks_processed → chain_ready (chain s) → is_Some (current_epoch s) →
  ∃ s' e, after_waiting b s = Some (s', e) ∧ handles_on s'.
Proof.
  intros Hp Hc He. pose proof Hc as ([our Hour] & _ & k & Hk & _). unfold after_waiting. simpl. rewrite Hour, Hk. simpl.
  do 3 (case_decide; [by eexists _, _|]).
  destruct (candidates_processed (sm_state s) (current_epoch s) (default [] (candidates s !! hash_prev_block (highest_block_checkpoint b))) (chain s) Hp Hc)
    as (c' & ok & -> & Hc'). simpl. destruct ok; [by eexists _, _|].
  match goal with |- context [request_blocks_batch ?x] => destruct (request_ready x) as (w & e & ->); [done..|] end. simpl.
  eexists _, _. split; [done|]. split_and!; [done..|by eexists].
Qed.

Lemma synchronizing_total b s : chain_ready (chain s) → is_Some (current_epoch s) →
  ∃ s' e, after_synchronizing b s = Some (s', e) ∧ handles_on s'.
Proof.
  intros Hc He. pose proof Hc as ([our Hour] & _). unfold after_synchronizing. simpl. rewrite Hour. simpl.
  repeat case_decide; (eexists _, _; split; [done|]); split_and!; try done; by eexists.
Qed.

Lemma transition_total consensus l1 l2 s : blocks_processed → chain_ready (chain s) → is_Some (current_epoch s) →
  ∃ s' d e, beacons_transition consensus l1 l2 s = Some (s', d, e) ∧ handles_on s'.
Proof.
  intros Hp Hc He. unfold beacons_transition. pose proof Hc as ([our Hour] & _). destruct (sm_state s) eqn:Hs.
  - destruct consensus as [[b k]|]; [destruct (waiting_total b s Hp Hc He) as (s' & e & -> & ?); by eexists _, _, _|].
    eexists _, _, _. split; [done|]. split_and!; try done. by rewrite Hs.
  - destruct consensus as [[b k]|]; [destruct (synchronizing_total b s Hc He) as (s' & e & -> & ?); by eexists _, _, _|].
    by eexists _, _, _.
  - rewrite Hour. simpl. destruct consensus as [[b k]|]; [|by eexists _, _, _]. repeat case_decide; try by eexists _, _, _.
    eexists _, _, _. split; [done|]. split_and!; try done. by rewrite Hs.
  - rewrite Hour. simpl. destruct consensus as [[b k]|]; [|by eexists _, _, _]. repeat case_decide; try by eexists _, _, _.
    eexists _, _, _. split; [done|]. split_and!; try done. by rewrite Hs.
Qed.

Lemma considered_length pb s : length (considered s pb) = length pb.
Proof. unfold considered, ignore_no_consensus_beacons. destruct (last_superblock_consensus s); [apply length_fmap|done]. Qed.

Lemma handled_total pb limit s :
  blocks_processed → chain_ready (chain s) → 50 < consensus_c s ≤ 100 → within_limit (length pb) limit →
  is_Some (handle_peers_beacons visit pb limit s).
Proof.
  intros Hp Hc Ht Hlim. unfold handle_peers_beacons. set (s0 := with_received _ _ s).
  change (last_superblock_consensus s0) with (last_superblock_consensus s). fold (considered s pb). set (pb' := considered s pb).
  destruct (current_epoch s0) as [epoch|] eqn:He; [|by eexists].
  destruct (superblock_consensus_spec visit Hvisit pb' limit (consensus_c s0) Ht) as (consensus & -> & _); [subst pb'; by rewrite considered_length|].
  cbn [mbind option_bind]. set (s1 := with_received _ pb' s0).
  assert (∃ l, peers_out_of_consensus pb' limit consensus s1 = Some l) as [l ->].
  { unfold peers_out_of_consensus. destruct consensus as [[b []]|]; [by eexists..|]. repeat case_decide; try by eexists.
    destruct Hc as ([our Hour] & _). simpl. rewrite Hour. by eexists. }
  cbn [mbind option_bind]. destruct (transition_total consensus l (peers_with_no_beacon pb') s1 Hp Hc) as (s' & d & e & -> & Hon); [by eexists|].
  cbn [mbind option_bind]. destruct (after_transition_total s' Hon) as [[s2 e2] ->]. by eexists.
Qed.

(** The two actors fit together: whatever the network does, the beacons that the sessions manager sends are
    handled by the chain manager without a panic, as long as the limits of sessions are
    not changed and the chain is loaded. *)
Theorem beacons_handled {T} pinfo cfg public inb outb c now (m0 : SessionsManager T) l m sent0 e m' sent pb limit s :
  0 ≤ inb → 0 ≤ outb → manager_started cfg public inb outb c now = Ok m0 →
  regular_run pinfo l m0 → sessions_run pinfo l m0 = Some (m, sent0) →
  regular e m → sessions_step pinfo e m = Some (m', sent) → PeersBeacons pb limit ∈ sent →
  blocks_processed → chain_ready (chain s) → 50 < consensus_c s ≤ 100 →
  is_Some (handle_peers_beacons visit pb limit s).
Proof.
  intros Hi Ho H0 Hr Hrun He Hstep Hin Hp Hc Ht. apply handled_total; [done..|].
  apply started_ok in H0; [|done..]. pose proof (run_ok _ _ _ _ _ Hrun Hr H0) as Hok.
  destruct (message_lists_peers _ _ _ _ _ _ _ Hok He Hstep Hin) as (_ & _ & Hlim). destruct limit; [by apply Hlim|done].
Qed.
End Handled.

(** ** What the chain promises to the synchronization *)

(** The laws of [ChainOps]: a block that is consolidated points at the tip and becomes the
    tip, and leaves the superblock and the constants alone. [chain_ok] is the invariant of the
    rest of the chain manager and [hash_in] the hash of a block in its state. *)
Class ChainLaws (C B : Type) `{ChainOps C B} := {
  chain_ok : C → Prop;
  hash_in : C → Block → Hash;
  process_keeps : ∀ st e b c c' k, chain_ok c → process_block st e b c = Some (c', k) → chain_ok c';
  process_extends : ∀ st e b c c', chain_ok c → process_block st e b c = Some (c', true) →
    ∃ tip, chain_beacon c = Some tip ∧ hash_prev_block (beacon (block_header b)) = hash_prev_block tip
      ∧ checkpoint tip ≤ checkpoint (beacon (block_header b))
      ∧ chain_beacon c' = Some (MkBeacon (checkpoint (beacon (block_header b))) (hash_in c b))
      ∧ superblock_beacon c' = superblock_beacon c ∧ consensus_constants c' = consensus_constants c;
  process_refuses : ∀ st e b c c', chain_ok c → process_block st e b c = Some (c', false) → chain_beacon c' = chain_beacon c;
}.

Section Linked.
Context {C B : Type} `{ChainLaws C B}.
Implicit Types (s : SyncState C B) (c : C).

(** The chain after blocks that were consolidated one after the other, each on the tip that the one before left. *)
Inductive grown (st : StateMachine) (e : option Z) : C → list Block → C → Prop :=
  | grown_nil c : grown st e c [] c
  | grown_cons c b c1 l c' tip :
      chain_ok c → process_block st e b c = Some (c1, true) → chain_beacon c = Some tip →
      hash_prev_block (beacon (block_header b)) = hash_prev_block tip → checkpoint tip ≤ checkpoint (beacon (block_header b)) →
      chain_beacon c1 = Some (MkBeacon (checkpoint (beacon (block_header b))) (hash_in c b)) →
      grown st e c1 l c' → grown st e c (b :: l) c'.

Lemma process_grown st e l n c c' ok n' eff :
  chain_ok c → process_blocks_from st e n l c = Some (c', ok, n', eff) →
  (n ≤ n' ≤ n + length l)%nat
  ∧ ∃ c1, grown st e c (take (n' - n) l) c1 ∧ chain_beacon c' = chain_beacon c1
    ∧ if ok then n' = (n + length l)%nat ∧ c' = c1 ∧ eff = []
      else (∃ b, l !! (n' - n)%nat = Some b ∧ process_block st e b c1 = Some (c', false))
           ∧ eff = if decide (0 < n')%nat then [InitializeFromStorage] else [].
Proof.
  revert n c. induction l as [|b l IH]; intros n c Hc Hr; simpl in Hr.
  { simplify_eq. rewrite Nat.sub_diag. split; [simpl; lia|]. exists c'. split_and!; [constructor|done|simpl; lia|done|done]. }
  destruct (process_block st e b c) as [[c1 []]|] eqn:Hp; simpl in Hr; [| |done].
  - destruct (process_extends _ _ _ _ _ Hc Hp) as (tip & Ht & Hprev & Hep & Hb & _).
    destruct (IH _ _ (process_keeps _ _ _ _ _ _ Hc Hp) Hr) as (Hn & c2 & Hg & Htip & Hok). split; [simpl; lia|]. exists c2.
    replace (n' - n)%nat with (S (n' - S n)) by lia. split_and!; [by eapply grown_cons|done|].
    destruct ok; [|done]. destruct Hok as (-> & -> & ->). split_and!; [simpl; lia|done|done].
  - simplify_eq. rewrite Nat.sub_diag. split; [simpl; lia|]. exists c. split_and!; [constructor| |by exists b|done].
    by apply (process_refuses _ _ _ _ _ Hc Hp).
Qed.

Lemma first_batch_grown blocks s s' ok n eff :
  chain_ok (chain s) → process_first_batch blocks s = Some (s', ok, n, eff) →
  (n ≤ length blocks)%nat
  ∧ ∃ c1, grown (sm_state s) (current_epoch s) (chain s) (take n blocks) c1 ∧ chain_beacon (chain s') = chain_beacon c1
    ∧ if ok then n = length blocks ∧ chain s' = c1 ∧ sm_state s' = sm_state s ∧ eff = []
      else (∃ b, blocks !! n = Some b ∧ process_block (sm_state s) (current_epoch s) b c1 = Some (chain s', false))
           ∧ sm_state s' = WaitingConsensus ∧ (InitializeFromStorage ∈ eff ↔ (0 < n)%nat).
Proof.
  intros Hc. unfold process_first_batch, process_blocks_batch.
  destruct (process_blocks_from _ _ 0 blocks (chain s)) as [[[[c' k] n'] e]|] eqn:Hr; [|done]. cbn [mbind option_bind].
  apply process_grown in Hr as (Hle & c1 & Hg & Htip & Hk); [|done]. rewrite Nat.sub_0_r in *. destruct k.
  - intros [= <- <- <- <-]. destruct Hk as (? & ? & ?). split; [lia|]. by exists c1.
  - destruct (update_state_machine WaitingConsensus (with_chain c' s)) as [s1 e1] eqn:Hu. intros [= <- <- <- <-].
    injection Hu as <- <-. destruct Hk as [Hb ->]. split; [lia|]. exists c1. split_and!; [done..|]. rewrite elem_of_app. split.
    + intros [Hin|Hin]; [by destruct (decide (0 < n')%nat); [|by apply not_elem_of_nil in Hin]|].
      exfalso. revert Hin. case_decide; rewrite ?elem_of_cons, ?elem_of_nil; set_solver.
    + intros Hn. left. rewrite decide_True by done. left.
Qed.
End Linked.
