(* ===== verification/SyncChain.v ===== *)
(** * The chain behind the synchronization

    The model of block processing in [ChainManager] implements what the synchronization asks of
    the rest of the chain manager: an instance of the class [ChainOps] and of its laws. *)

From stdpp Require Import base tactics numbers list gmap strings.
From Stdlib Require Import ZArith Lia.
From S2P Require Import Prelude Stake Stakes Trs Ars Hashes Superblock Versioning Tapi Merkle Rad Float Priority Storage UtxoDb Utxo.
From S2P Require Import RepEngine Eligibility Epoch RadScript Transaction DataRequest TxPool TxFactory Consensus Validation BlockValidation.
From S2P Require Import Consolidation Sync SyncCorrect.
From S2P Require Import ChainManager ChainManagerCorrect.
Local Open Scope Z_scope.
Local Open Scope rust_scope.

Section instance.
Context `{UtxoDb D, FloatOrd}.
Context (env : Environment) (calculate_sha256 : list Z → Hash).
Context (tx_hash : option ProtocolVersion → Transaction → Hash) (header_hash : option ProtocolVersion → BlockHeader → Hash).
Context (hash_concat : Hash → Hash → Hash) (empty_hash : Hash).
Context (verify : PublicKey → list Z → list Z → bool) (parse_public_key : PublicKey → bool) (parse_signature : list Z → bool).
Context (verify_block_proof : list Z * PublicKey → CheckpointVRF → option Hash).
Context (verify_v1 : DataRequestEligibilityClaim → CheckpointVRF → Hash → option Hash).
Context (verify_v2 : DataRequestEligibilityClaim → CheckpointVRF → Hash → option PublicKeyHash → option Hash).
Context (proof_to_hash : list Z * PublicKey → option Hash).
Context (from_slice : list Z → option Value) (from_value_u8 : Value → option Z).
Context (run_tally_panic_safe : list RevealTransaction → RADTally → f64 → nat → ActiveWips → bool →
                                option TallyMetaData * option (list Z)).
Context (tally_bytes_on_encode_error : list Z).
Context (is_too_many : list Z → bool) (is_valid_bn256 : list Z → bool) (visit : ∀ A : Type, list A → list A).
Context (powf : f64 → f64 → f64).

Local Abbreviation consolidate :=
  (consolidate_block env calculate_sha256 tx_hash header_hash proof_to_hash is_too_many is_valid_bn256 visit powf).
Local Abbreviation process_requested :=
  (process_requested_block env calculate_sha256 tx_hash header_hash hash_concat empty_hash verify parse_public_key parse_signature
     verify_block_proof verify_v1 verify_v2 proof_to_hash from_slice from_value_u8 run_tally_panic_safe tally_bytes_on_encode_error
     is_too_many is_valid_bn256 visit powf).

(** The chain with the messages sent so far. *)
Definition Chain : Type := ChainManager D * list Message.

(** The state of the machine and the epoch are those of the synchronization. *)
Definition in_state (st : StateMachine) (epoch : option Z) (m : ChainManager D) : ChainManager D :=
  MkManager (global_protocol m) (chain_state m) (transactions_pool m) (manager_pkh m) (epoch_constants m) st (vrf_ctx m)
    (priority_engine m) epoch (best_candidate m) (candidates m) (seen_candidates m).

Definition requested (st : StateMachine) (epoch : option Z) (b : Block) (c : Chain) : option (Chain * bool) :=
  match process_requested (in_state st epoch c.1) b false with
  | Ret m messages => Some ((m, c.2 ++ messages), true)
  | Fail m _ => Some ((m, c.2), false)
  | Crash => None
  end.
Definition consolidated (st : StateMachine) (epoch : option Z) (b : BlockCandidate) (c : Chain) : option Chain :=
  '(m, messages) ← consolidate (in_state st epoch c.1) (cand_block b) (cand_utxo_diff b) (cand_priorities b) false;
  Some (m, c.2 ++ messages).
Definition commits_cleared (c : Chain) : Chain :=
  let m := c.1 in
  (MkManager (global_protocol m) (chain_state m) (TxPool.clear_commits (transactions_pool m)) (manager_pkh m) (epoch_constants m) (sm_state m)
     (vrf_ctx m) (priority_engine m) (current_epoch m) (best_candidate m) (candidates m) (seen_candidates m), c.2).
(** The version for the epoch, in the information of the chain and in the global one. *)
Definition protocol_refreshed (epoch : Z) (c : Chain) : Chain :=
  let m := c.1 in
  let s := chain_state m in
  let expected := get_protocol_version (global_protocol m) (Some epoch) in
  let info := (λ ci, MkChainInfo (set_protocol_version (info_protocol ci) expected) (info_constants ci) (highest_block_checkpoint ci)
                       (highest_superblock_checkpoint ci) (highest_vrf_output ci)) <$> chain_info s in
  let global := if decide (expected = get_protocol_version (global_protocol m) None) then global_protocol m
                else refresh_protocol_version (global_protocol m) epoch in
  (MkManager global
     (MkState info (requests_pool s) (block_chain s) (own_outputs s) (reputation_engine s) (node_stats s) (alt_keys s) (superblock_state s)
        (tapi_engine s) (stakes s) (unspent_outputs_pool s))
     (transactions_pool m) (manager_pkh m) (epoch_constants m) (sm_state m) (vrf_ctx m) (priority_engine m) (current_epoch m)
     (best_candidate m) (candidates m) (seen_candidates m), c.2).

#[local] Instance chain_ops : Sync.ChainOps Chain BlockCandidate := {
  Sync.chain_beacon c := get_chain_beacon (chain_state c.1);
  Sync.superblock_beacon c := get_superblock_beacon (chain_state c.1);
  Sync.consensus_constants c := get_consensus_constants (chain_state c.1);
  Sync.has_reputation c := match reputation_engine (chain_state c.1) with Some _ => true | None => false end;
  Sync.can_validate c := match epoch_constants c.1 with Some _ => vrf_ctx c.1 | None => false end;
  Sync.consolidated_index c := checkpoint (get_beacon (superblock_state (chain_state c.1)));
  Sync.process_block := requested;
  Sync.consolidate_candidate := consolidated;
  Sync.clear_commits := commits_cleared;
  Sync.refresh_protocol := protocol_refreshed;
}.

(** A node that knows its own identity. *)
Definition identified (c : Chain) : Prop := is_Some (manager_pkh c.1).

Lemma requested_identity st epoch b c c' k : requested st epoch b c = Some (c', k) → manager_pkh c'.1 = manager_pkh c.1.
Proof.
  unfold requested, process_requested_block. set (m := in_state st epoch c.1). change (manager_pkh c.1) with (manager_pkh m).
  destruct (epoch_constants m); [|by intros [= <- _]]. destruct (chain_info (chain_state m)); [|by intros [= <- _]].
  destruct (reputation_engine (chain_state m)); [|by intros [= <- _]]. destruct (vrf_ctx m); [|by intros [= <- _]].
  destruct (db _); [|done]. destruct (block_number _); [|done].
  destruct (process_validations _ _ _ _ _ _ _ _ _ _ _ _ _ _ _ _ _ _ _ _ _ _ _ _ _ _ _ _ _ _) as [q [diff visits]|q err|]; [|by intros [= <- _]|done].
  destruct (consolidate_block _ _ _ _ _ _ _ _ _ _ _ _ _ _) as [[m1 msgs]|] eqn:Hc; [|done]. intros [= <- _]. by apply consolidated_identity in Hc.
Qed.

Lemma refused_tip st epoch b c c' : requested st epoch b c = Some (c', false) → chain_info (chain_state c'.1) = chain_info (chain_state c.1).
Proof.
  unfold requested, process_requested_block. set (m := in_state st epoch c.1).
  change (chain_info (chain_state c.1)) with (chain_info (chain_state m)).
  destruct (epoch_constants m); [|by intros [= <-]]. destruct (chain_info (chain_state m)) eqn:Hci; [|by intros [= <-]].
  destruct (reputation_engine (chain_state m)); [|intros [= <-]; done]. destruct (vrf_ctx m); [|intros [= <-]; done].
  destruct (db _); [|done]. destruct (block_number _); [|done].
  destruct (process_validations _ _ _ _ _ _ _ _ _ _ _ _ _ _ _ _ _ _ _ _ _ _ _ _ _ _ _ _ _ _) as [q [diff visits]|q err|]; [|by intros [= <-]|done].
  by destruct (consolidate_block _ _ _ _ _ _ _ _ _ _ _ _ _ _) as [[m1 msgs]|].
Qed.

#[local] Instance chain_laws : SyncCorrect.ChainLaws Chain BlockCandidate.
Proof.
  refine {| SyncCorrect.chain_ok := identified; SyncCorrect.hash_in c b := hash_of header_hash c.1 b |}.
  - intros st e b c c' k Hi Hp. unfold identified in *. by rewrite (requested_identity _ _ _ _ _ _ Hp).
  - intros st e b c c' [pkh Hi] Hp. simpl in Hp. unfold requested in Hp.
    destruct (process_requested_block _ _ _ _ _ _ _ _ _ _ _ _ _ _ _ _ _ _ _ _ _ _ _) as [m messages| |] eqn:Hr; [|done..]. injection Hp as <-.
    apply requested_block_link with (pkh := pkh) in Hr as (ci & ci' & Hci & Hci' & Hprev & [Hep _] & Htip & Hsup & Hcc & _); [|done].
    simpl in Hci. exists (highest_block_checkpoint ci). simpl. unfold get_chain_beacon, get_superblock_beacon, get_consensus_constants.
    rewrite Hci, Hci'. simpl. by rewrite Htip, Hsup, Hcc.
  - intros st e b c c' _ Hp. simpl in *. unfold get_chain_beacon. by rewrite (refused_tip _ _ _ _ _ Hp).
Defined.

(** ** A batch *)

(** The chain after blocks that were consolidated one after the other.  Each was processed on the chain that the one before left: its
    header points at the hash of the tip there, its epoch is not before the tip nor after the current one, and it becomes the tip with
    the hash that it has under the version in force in that chain, under which it is recorded too; the superblock stays. *)
Inductive extended (st : StateMachine) (epoch : option Z) : Chain → list Block → Chain → Prop :=
  | extended_nil c : extended st epoch c [] c
  | extended_cons c b c1 l c' tip :
      requested st epoch b c = Some (c1, true) → get_chain_beacon (chain_state c.1) = Some tip →
      hash_prev_block (beacon (block_header b)) = hash_prev_block tip →
      checkpoint tip ≤ checkpoint (beacon (block_header b)) ≤ default 0 epoch →
      get_chain_beacon (chain_state c1.1) = Some (MkBeacon (checkpoint (beacon (block_header b))) (hash_of header_hash c.1 b)) →
      block_chain (chain_state c1.1) = <[checkpoint (beacon (block_header b)) := hash_of header_hash c.1 b]> (block_chain (chain_state c.1)) →
      get_superblock_beacon (chain_state c1.1) = get_superblock_beacon (chain_state c.1) →
      extended st epoch c1 l c' → extended st epoch c (b :: l) c'.

Lemma grown_extended st epoch c l c' : grown st epoch c l c' → extended st epoch c l c'.
Proof.
  induction 1 as [c|c b c1 l c' tip [pkh Hi] Hp Htip Hprev Hle Hb _ IH]; [constructor|].
  change (requested st epoch b c = Some (c1, true)) in Hp. pose proof Hp as Hp'. unfold requested in Hp'.
  destruct (process_requested_block _ _ _ _ _ _ _ _ _ _ _ _ _ _ _ _ _ _ _ _ _ _ _) as [m messages| |] eqn:Hr; [|done..]. injection Hp' as <-.
  apply requested_block_link with (pkh := pkh) in Hr as (ci & ci' & Hci & Hci' & _ & [_ Hcur] & _ & Hsup & _ & Hchain & _); [|done].
  eapply extended_cons; [exact Hp|exact Htip|exact Hprev|done|exact Hb|exact Hchain| |exact IH].
  simpl in *. unfold get_superblock_beacon. rewrite Hci, Hci'. simpl. by rewrite Hsup.
Qed.

(** C14. Blocks of a batch are consolidated one after the other on the chain of a node that knows its identity, each linked by its hash
    to the one before, from the tip of the chain, and the last of them is the new tip.  When one is refused by the chain that those
    before it left, the tip stays there, the node looks for consensus again, and the state is restored from storage exactly if blocks
    before it had been consolidated. *)
Theorem batch_extends_chain (blocks : list Block) (s s' : SyncState Chain BlockCandidate) ok n eff :
  identified (chain s) → process_first_batch blocks s = Some (s', ok, n, eff) →
  (n ≤ length blocks)%nat
  ∧ ∃ c1, extended (Sync.sm_state s) (Sync.current_epoch s) (chain s) (take n blocks) c1
    ∧ get_chain_beacon (chain_state (chain s').1) = get_chain_beacon (chain_state c1.1)
    ∧ if ok then n = length blocks ∧ chain s' = c1 ∧ Sync.sm_state s' = Sync.sm_state s ∧ eff = []
      else (∃ b, blocks !! n = Some b ∧ requested (Sync.sm_state s) (Sync.current_epoch s) b c1 = Some (chain s', false))
           ∧ Sync.sm_state s' = WaitingConsensus ∧ (InitializeFromStorage ∈ eff ↔ (0 < n)%nat).
Proof.
  intros Hi Hr. apply (first_batch_grown blocks s s' ok n eff) in Hr as (Hn & c1 & Hg%grown_extended & Htip & Hok); [|exact Hi].
  split; [done|]. exists c1. split_and!; [exact Hg|exact Htip|]. by destruct ok.
Qed.
End instance.
