(* ===== verification/SyncExamples.v ===== *)
(** * Runs of the synchronization

    Concrete votes, batches and runs on which the theorems about synchronization are applied. *)

From stdpp Require Import base tactics numbers list gmap strings sorting.
From Stdlib Require Import ZArith Lia.
From S2P Require Import Prelude Stake Stakes Trs Ars Hashes Superblock Versioning Tapi Merkle Rad Float Priority Storage UtxoDb Utxo.
From S2P Require Import RepEngine Eligibility Epoch RadScript Transaction DataRequest TxPool TxFactory Consensus Validation BlockValidation.
From S2P Require Import UtxoDbCorrect UtxoCorrect SuperblockCorrect BlockExamples Consolidation ChainManager ChainManagerCorrect SyncChain.
From S2P Require Import Peers Sessions PeersManager SessionsManager Session PeersCorrect SessionsCorrect SessionsManagerCorrect SessionCorrect NetworkExamples.
From S2P Require Import Sync SyncCorrect.
Local Open Scope Z_scope.

(** ** A vote *)

Definition in_order : ∀ A : Type, list A → list A := λ _ l, l.
Lemma in_order_reorders : reorders in_order.
Proof. by intros A l. Qed.

Definition peer3 : SocketAddr := V4 [81; 3; 2; 1] 21337.
Definition tip5 : CheckpointBeacon := MkBeacon 5 [50].
Definition tip4 : CheckpointBeacon := MkBeacon 4 [40].
Definition super1 : CheckpointBeacon := MkBeacon 1 [10].
(** Three of four outbound peers agree on a superblock, and two of them on a block. *)
Definition some_beacons : list (SocketAddr * option LastBeacon) :=
  [(peer1, Some (MkLastBeacon tip5 super1)); (peer2, Some (MkLastBeacon tip5 super1)); (peer3, Some (MkLastBeacon tip4 super1))].

(** [superblock_agreement] on these beacons. *)
Lemma superblock_agreement_witness :
  superblock_consensus in_order some_beacons (Some 4) 60 = Some (Some (MkLastBeacon tip5 super1, true))
  ∧ 60 ≤ share (Some super1) (all_votes some_beacons (Some 4)).
Proof.
  destruct (superblock_agreement in_order in_order_reorders some_beacons (Some 4) 60) as (r & Hr & Hsb & _); [lia|simpl; lia|].
  assert (superblock_consensus in_order some_beacons (Some 4) 60 = Some (Some (MkLastBeacon tip5 super1, true))) as H by by vm_compute.
  split; [exact H|]. apply Hsb. rewrite H in Hr. injection Hr as <-. exists (MkLastBeacon tip5 super1), true. split; reflexivity.
Defined.

(** ** A batch *)

(** [batch_split] with epochs as blocks: the target is superblock 2 of ten epochs, the candidate is superblock 3. *)
Lemma batch_split_witness :
  let target := MkTarget (MkBeacon 35 [35]) (MkBeacon 2 [20]) in
  split_blocks_batch_at_target id [17; 18; 19; 22; 25; 31; 33] 36 target 10
  = Ok (SyncWithCandidate [17; 18; 19] [22; 25] [31; 33])
  ∧ split_of id [17; 18; 19; 22; 25; 31; 33] 2 3 10 35 (Ok (SyncWithCandidate [17; 18; 19] [22; 25] [31; 33])).
Proof.
  split; [by vm_compute|].
  refine (batch_split id [17; 18; 19; 22; 25; 31; 33] 36 (MkTarget (MkBeacon 35 [35]) (MkBeacon 2 [20])) 10 _ _ _ _).
  - lia.
  - by vm_compute.
  - done.
  - repeat (constructor; [|repeat (constructor; [done|]); constructor]). constructor.
Defined.

(** ** A node that gets synced *)

(** A chain that is only its tip: a block extends it if it points at the tip. *)
#[local] Instance tip_ops : ChainOps CheckpointBeacon unit := {
  chain_beacon c := Some c;
  superblock_beacon c := Some super1;
  consensus_constants c := Some ex_constants;
  has_reputation c := true;
  can_validate c := true;
  consolidated_index c := 1;
  process_block _ _ b c := if decide (hash_prev_block (beacon (block_header b)) = hash_prev_block c)
                           then Some (MkBeacon (checkpoint (beacon (block_header b))) [checkpoint (beacon (block_header b))], true)
                           else Some (c, false);
  consolidate_candidate _ _ _ c := Some c;
  clear_commits c := c;
  refresh_protocol _ c := c;
}.
Lemma tip_processed : blocks_processed.
Proof.
  intros st e b c (_ & _ & k & Hk & Hp). simpl in *. case_decide; (eexists _, _; split; [done|]); split_and!; try (by eexists); by exists k.
Qed.

Definition waiting_node : SyncState CheckpointBeacon unit :=
  MkSync tip5 WaitingConsensus (Some 12) None None None ∅ None false 60 [] None [] [] 100 true.
Definition two_epochs : list (SyncEvent (C:=CheckpointBeacon) (B:=unit)) :=
  [BeaconsOf some_beacons (Some 4); NewEpoch 13; BeaconsOf some_beacons (Some 4); NewEpoch 14].

(** [mining_needs_consensus] on two epochs in which the peers report our tip. *)
Lemma mining_witness :
  ∃ s' eff, sync_run in_order (λ _, []) two_epochs waiting_node = Some (s', eff) ∧ TryMineDataRequest ∈ eff
  ∧ ∃ l1 pb limit l2 s1 eff1, two_epochs = l1 ++ BeaconsOf pb limit :: l2
      ∧ sync_run in_order (λ _, []) l1 waiting_node = Some (s1, eff1) ∧ sm_state s1 = AlmostSynced
      ∧ peers_agree_on_tip s1 pb limit ∧ consensus_c s1 = 60.
Proof.
  assert ((sync_run in_order (λ _, []) two_epochs waiting_node ≫= λ r, last r.2) = Some TryMineDataRequest) as Hm by by vm_compute.
  destruct (sync_run in_order (λ _, []) two_epochs waiting_node) as [[s' eff]|] eqn:Hr; [|done]. simpl in Hm.
  apply last_Some_elem_of in Hm. exists s', eff. split; [done|]. split; [done|].
  refine (mining_needs_consensus in_order (λ _, []) in_order_reorders two_epochs waiting_node s' eff _ _ Hr _);
    [split; [reflexivity|discriminate]|discriminate|left; exact Hm].
Defined.

(** [beacons_handled] on the message that the sessions manager sends when the time for mining comes. *)
Lemma beacons_handled_witness :
  ∃ m' sent pb lim, sessions_step protocol_default (EvMiningTimeout 2) heard_manager = Some (m', sent)
  ∧ PeersBeacons pb lim ∈ sent ∧ is_Some (handle_peers_beacons in_order pb lim waiting_node).
Proof.
  destruct (sessions_run protocol_default heard net_manager) as [[m s]|] eqn:Hrun; [|exfalso; vm_compute in Hrun; discriminate Hrun].
  assert (heard_manager = m) as Hm by (unfold heard_manager; by rewrite Hrun).
  assert (snd <$> sessions_step protocol_default (EvMiningTimeout 2) heard_manager
          = Some [PeersBeacons [(peer1, Some some_beacon); (peer2, None)] (Some 2); TryMineBlock]) as Hsent by by vm_compute.
  destruct (sessions_step protocol_default (EvMiningTimeout 2) heard_manager) as [[m' sent]|] eqn:Hstep; [|done].
  injection Hsent as ->. eexists m', _, _, _. split; [done|]. split; [left|].
  refine (beacons_handled in_order in_order_reorders protocol_default net_config (Some server) 1 2 net_constants 45
    net_manager heard heard_manager s (EvMiningTimeout 2) m' _ _ _ waiting_node _ _ _ _ _ _ Hstep _ tip_processed _ _).
  - done.
  - done.
  - by vm_compute.
  - apply (bool_decide_unpack _). by vm_compute.
  - by rewrite Hm.
  - done.
  - left.
  - split; [eexists; reflexivity|]. split; [eexists; reflexivity|]. exists ex_constants. split; [reflexivity|discriminate].
  - split; [reflexivity|discriminate].
Defined.

(** ** A batch on the chain *)

#[local] Existing Instances toy_codecs toy_codec_laws.
#[local] Instance ex_ops : ChainOps (Chain (D:=ex_db)) BlockCandidate :=
  chain_ops Development ex_sha256 ex_tx_hash ex_header_hash ex_concat [] ex_verify ex_parse_key ex_parse_sig
    (λ _ _, Some [0]) (λ _ _ _, None) (λ _ _ _ _, None) (λ _, Some [5]) ex_from_slice ex_from_value ex_run_tally ex_encode_error
    (λ _, false) (λ _, false) (λ _ l, l) (λ x _, x).
Definition synchronizing_node : SyncState (Chain (D:=ex_db)) BlockCandidate :=
  MkSync (node, []) Synchronizing (Some 6) None None (Some 6) ∅ None true 60 [] None [] [] 100 false.

(** [batch_extends_chain] on a block and the same block again: the second is refused, since it does
    not point at the tip any more. *)
Abbreviation ex_extended := (extended Development ex_sha256 ex_tx_hash ex_header_hash ex_concat [] ex_verify ex_parse_key ex_parse_sig
    (λ _ _, Some [0]) (λ _ _ _, None) (λ _ _ _ _, None) (λ _, Some [5]) ex_from_slice ex_from_value ex_run_tally ex_encode_error
    (λ _, false) (λ _, false) (λ _ l, l) (λ x _, x)).
Lemma batch_extends_witness :
  ∃ s' eff c1, process_first_batch [ex_transfer_block; ex_transfer_block] synchronizing_node = Some (s', false, 1%nat, eff)
  ∧ ex_extended Synchronizing (Some 6) (node, []) [ex_transfer_block] c1
  ∧ Sync.sm_state s' = WaitingConsensus ∧ InitializeFromStorage ∈ eff.
Proof.
  assert ((λ r, (r.1.1.2, r.1.2)) <$> process_first_batch [ex_transfer_block; ex_transfer_block] synchronizing_node = Some (false, 1%nat)) as Hsum
    by by vm_compute.
  destruct (process_first_batch [ex_transfer_block; ex_transfer_block] synchronizing_node) as [[[[s' ok] n] eff]|] eqn:Hr; [|done].
  injection Hsum as -> ->.
  destruct (batch_extends_chain Development ex_sha256 ex_tx_hash ex_header_hash ex_concat [] ex_verify ex_parse_key ex_parse_sig
    (λ _ _, Some [0]) (λ _ _ _, None) (λ _ _ _ _, None) (λ _, Some [5]) ex_from_slice ex_from_value ex_run_tally ex_encode_error
    (λ _, false) (λ _, false) (λ _ l, l) (λ x _, x) [ex_transfer_block; ex_transfer_block] synchronizing_node s' false 1%nat eff
    (ex_intro _ [3] eq_refl) Hr) as (_ & c1 & He & _ & _ & Hw & Hin).
  exists s', eff, c1. split; [reflexivity|]. split; [exact He|]. split; [exact Hw|]. apply Hin. exact (le_n 1).
Defined.
