(* ===== verification/SuperblockRound.v ===== *)
(** * Superblock rounds

    Models from node/src/actors/chain_manager/mod.rs what the chain manager does when a
    superblock period ends: the votes on the last superblock are counted, the chain up to it is
    persisted or reverted, and the next superblock is built ([construct_superblock]); then it is voted on
    ([create_and_broadcast_superblock], [build_and_vote_candidate_superblock]) or, while synchronizing, compared with the
    target ([try_consolidate_superblock]).  Also how votes are received ([add_superblock_vote],
    [add_temp_superblock_votes]).

    Each future is a function of its own where it waits for the signature manager; the headers that the inventory
    manager finds are a parameter.  [None] is a panic. *)

From stdpp Require Import base tactics numbers list gmap strings.
From Stdlib Require Import ZArith Lia.
From S2P Require Import Prelude Stakes Hashes Superblock Versioning Tapi Storage UtxoDb Utxo RepEngine Transaction DataRequest TxPool Consensus.
From S2P Require Import SessionsManager Sync.
From S2P Require Import Consolidation ChainManager Snapshot.
Local Open Scope Z_scope.
Local Open Scope rust_scope.

(** ** State *)

(** The chain manager, the snapshot that waits for its superblock, the votes that arrived
    before the node was synced, and the last superblock agreed on. *)
Record Rounds (D : Type) := MkRounds {
  manager : ChainManager D;
  snapshot : ChainStateSnapshot (ChainState D);
  temp_superblock_votes : gset SuperBlockVote;
  last_consensus : option CheckpointBeacon;
}.
Arguments MkRounds {D} _ _ _ _.
Arguments manager {D} _.
Arguments snapshot {D} _.
Arguments temp_superblock_votes {D} _.
Arguments last_consensus {D} _.

Inductive RoundEffect (D : Type) :=
  | PersistedState (s : ChainState D) (batch : list UtxoWriteBatchItem)
  | SetTarget (b : option CheckpointBeacon)
  | SetBeacon (b : LastBeacon)
  | ReinsertFrom (epoch : Z)
  | RestoreFromStorage
  | StatusNotify (st : StateMachine)
  | AddQueuedVotes
  | SuperblockNotify (sb : SuperBlock)
  | BroadcastVote (v : SuperBlockVote).
Arguments PersistedState {D} _ _.
Arguments SetTarget {D} _.
Arguments SetBeacon {D} _.
Arguments ReinsertFrom {D} _.
Arguments RestoreFromStorage {D}.
Arguments StatusNotify {D} _.
Arguments AddQueuedVotes {D}.
Arguments SuperblockNotify {D} _.
Arguments BroadcastVote {D} _.

Definition with_manager {D} (m : ChainManager D) (r : Rounds D) : Rounds D :=
  MkRounds m (snapshot r) (temp_superblock_votes r) (last_consensus r).
Definition in_machine_state {D} (st : StateMachine) (m : ChainManager D) : ChainManager D :=
  MkManager (global_protocol m) (chain_state m) (transactions_pool m) (manager_pkh m) (epoch_constants m) st (vrf_ctx m)
    (priority_engine m) (current_epoch m) (best_candidate m) (candidates m) (seen_candidates m).
Definition with_pool {D} (p : TransactionsPool) (m : ChainManager D) : ChainManager D :=
  MkManager (global_protocol m) (chain_state m) p (manager_pkh m) (epoch_constants m) (sm_state m) (vrf_ctx m)
    (priority_engine m) (current_epoch m) (best_candidate m) (candidates m) (seen_candidates m).
Definition with_superblocks {D} (st : SuperBlockState) (m : ChainManager D) : ChainManager D :=
  let s := chain_state m in
  with_chain_state m (MkState (chain_info s) (requests_pool s) (block_chain s) (own_outputs s) (reputation_engine s) (node_stats s)
                        (alt_keys s) st (tapi_engine s) (stakes s) (unspent_outputs_pool s)).
Definition with_reputation {D} (rep : ReputationEngine) (m : ChainManager D) : ChainManager D :=
  let s := chain_state m in
  with_chain_state m (MkState (chain_info s) (requests_pool s) (block_chain s) (own_outputs s) (Some rep) (node_stats s)
                        (alt_keys s) (superblock_state s) (tapi_engine s) (stakes s) (unspent_outputs_pool s)).
(** [chain_info.highest_superblock_checkpoint = b]; [None] without the information of the chain. *)
Definition set_highest_superblock {D} (b : CheckpointBeacon) (m : ChainManager D) : option (ChainManager D) :=
  let s := chain_state m in
  ci ← chain_info s;
  Some (with_chain_state m
    (MkState (Some (MkChainInfo (info_protocol ci) (info_constants ci) (highest_block_checkpoint ci) b (highest_vrf_output ci)))
       (requests_pool s) (block_chain s) (own_outputs s) (reputation_engine s) (node_stats s) (alt_keys s) (superblock_state s)
       (tapi_engine s) (stakes s) (unspent_outputs_pool s))).

Section rounds.
Context `{UtxoDb D} `{EqDecision (ChainState D)}.
Context (env : Environment) (calculate_sha256 : list Z → Hash) (to_uncompressed : list Z → option (list Z)).
Context (parse_address : string → option PublicKeyHash) (versioned_hash : Z → BlockHeader → Hash).
Context (votes_iter : gmap Hash (list SuperBlockVote) → list (Hash * list SuperBlockVote)).
Context (votes_drain : gset SuperBlockVote → list SuperBlockVote).
(** The code of a version in [versioned_hash], the headers that the inventory manager finds, and the
    committee of the consensus constants. *)
Context (version_code : ProtocolVersion → Z) (stored_header : Hash → option BlockHeader) (bootstrapping_committee : list string).
Implicit Types (m : ChainManager D) (r : Rounds D).

(** ** The pieces of [construct_superblock] *)

(** The headers of the blocks of the period and the hash of the last block before it. *)
Definition period_headers (m : ChainManager D) (init_epoch final_epoch : Z) : option (list BlockHeader) :=
  res ← get_blocks_epoch_range (block_chain (chain_state m)) (MkRange (Included init_epoch) (Included final_epoch) 0 false);
  Some (omap stored_header res.*2).
Definition last_hash_before (m : ChainManager D) (init_epoch : Z) (genesis : Hash) : option Hash :=
  v ← get_blocks_epoch_range (block_chain (chain_state m)) (MkRange Unbounded (Excluded init_epoch) 1 true);
  Some (default genesis (snd <$> head v)).

(** [update_state_machine]. *)
Definition change_state (next : StateMachine) (r : Rounds D) : Rounds D * list (RoundEffect D) :=
  (with_manager (in_machine_state next (manager r)) r,
   (if decide (sm_state (manager r) ≠ next ∧ next = AlmostSynced) then [AddQueuedVotes] else []) ++ [StatusNotify next]).

(** The branch of a superblock that was not confirmed. *)
Definition revert_round (verdict : SuperBlockConsensus) (voted : CheckpointBeacon) (init_epoch period : Z) (r : Rounds D)
    : Rounds D * list (RoundEffect D) :=
  match verdict with
  | Different h =>
    let b := MkBeacon (checkpoint voted) h in
    let '(r, e) := change_state WaitingConsensus (MkRounds (manager r) (snapshot r) (temp_superblock_votes r) (Some b)) in
    (r, [SetTarget (Some b); RestoreFromStorage] ++ e)
  | NoConsensus =>
    let '(r, e) := change_state AlmostSynced r in (r, [SetTarget None; ReinsertFrom (sat_sub init_epoch period); RestoreFromStorage] ++ e)
  | Unknown | SameAsLocal =>
    let '(r, e) := change_state WaitingConsensus r in (r, [SetTarget None; ReinsertFrom (sat_sub init_epoch period); RestoreFromStorage] ++ e)
  end.

(** The branch of a confirmed one: the snapshot taken when it was built is persisted, and a new one is taken. *)
Definition confirm_round (voted : CheckpointBeacon) (superblock_index : Z) (r : Rounds D) : option (Rounds D * list (RoundEffect D)) :=
  m ← set_highest_superblock (get_beacon (superblock_state (chain_state (manager r)))) (manager r);
  if decide (sm_state m = Synced ∨ sm_state m = AlmostSynced) then
    '(m, n, persisted) ← persist_chain_state m (snapshot r) (Some (checkpoint voted));
    n ← move_chain_state_forward m n superblock_index;
    Some (MkRounds m n (temp_superblock_votes r) (last_consensus r),
          match persisted with Some (s, batch) => [PersistedState s batch] | None => [] end)
  else Some (with_manager m r, []).

(** The identities that may sign, and the engine with its cache. *)
Definition signing_identities (cc : ConsensusConstants) (superblock_index : Z) (rep : ReputationEngine)
    : option (ReputationEngine * list PublicKeyHash) :=
  last ← last_superblock_signed_by_bootstrap cc;
  match in_emergency_period superblock_index env with
  | Some addresses => members ← mapM parse_address addresses; Some (rep, members)
  | None =>
    if decide (last ≤ superblock_index) then Some (get_rep_ordered_ars_list calculate_sha256 rep)
    else members ← mapM parse_address bootstrapping_committee; Some (rep, members)
  end.

(** The last part: the next superblock is built and becomes the current one. *)
Definition build_next (headers : list BlockHeader) (last_hash : Hash) (voted : CheckpointBeacon) (superblock_index block_epoch : Z)
    (sync_superblock : option SuperBlock) (r : Rounds D) : option (Rounds D * list (RoundEffect D) * SuperBlock) :=
  let m := manager r in
  let current := current_superblock (superblock_state (chain_state m)) in
  let m := match current with Some _ => with_pool (update_unconfirmed_transactions (transactions_pool m)) m | None => m end in
  let notify := match current with Some sb => [SuperblockNotify sb] | None => [] end in
  ci ← chain_info (chain_state m);
  rep ← reputation_engine (chain_state m);
  let cc := info_constants ci in
  last ← last_superblock_signed_by_bootstrap cc;
  '(rep, members) ← signing_identities cc superblock_index rep;
  let m := with_reputation rep m in
  let minimum := if after_second_hard_fork block_epoch env then 50 else 1 in
  let st := superblock_state (chain_state m) in
  size ← current_committee_size_requirement (superblock_signing_committee_size cc) (get_committee_length st)
           (superblock_committee_decreasing_period cc) (superblock_committee_decreasing_step cc)
           (checkpoint (highest_superblock_checkpoint ci)) superblock_index last minimum;
  match build_superblock calculate_sha256 to_uncompressed parse_address versioned_hash votes_drain st headers (ars_identities_new members)
          size superblock_index last_hash (alt_keys (chain_state m)) sync_superblock block_epoch env
          (version_code (get_protocol_version (global_protocol m) (Some block_epoch))) with
  | Ret st superblock =>
    let m := with_superblocks (set_current_superblock st superblock).1 m in
    Some (MkRounds m (snapshot r) (temp_superblock_votes r) (Some voted),
          notify ++ [SetBeacon (MkLastBeacon (highest_block_checkpoint ci) voted); SetTarget None], superblock)
  | _ => None
  end.

(** [construct_superblock]: [None] in the result is the error after a revert. *)
Definition construct_superblock (block_epoch : Z) (sync_superblock : option SuperBlock) (r : Rounds D)
    : option (Rounds D * list (RoundEffect D) * option SuperBlock) :=
  let m := manager r in
  cc ← get_consensus_constants (chain_state m);
  let period := superblock_period cc in
  if decide (period = 0 ∨ block_epoch / period = 0) then None
  else
    let superblock_index := block_epoch / period in
    let voted := get_beacon (superblock_state (chain_state m)) in
    consolidated ← get_superblock_beacon (chain_state m);
    let init_epoch := block_epoch - period in
    headers ← period_headers m init_epoch (sat_sub block_epoch 1);
    last_hash ← last_hash_before m init_epoch (genesis_hash cc);
    match superblock_verdict (sm_state m) voted consolidated superblock_index
            (has_consensus votes_iter (superblock_state (chain_state m))) with
    | SameAsLocal =>
      '(r, e1) ← confirm_round voted superblock_index r;
      '(r, e2, sb) ← build_next headers last_hash voted superblock_index block_epoch sync_superblock r;
      Some (r, e1 ++ e2, Some sb)
    | verdict => let '(r, e) := revert_round verdict voted init_epoch period r in Some (r, e, None)
    end.

(** ** Votes *)

(** The vote on a superblock that we built, signed by the signature manager; [None] where it fails to sign. *)
Definition own_vote (bn256_sign : list Z → option (list Z)) (sign_data : Hash → option KeyedSignature) (sb : SuperBlock) : option SuperBlockVote :=
  let h := superblock_hash_of calculate_sha256 sb in
  let unsigned s := MkVote s (MkSignature [] (MkPublicKey 0 [])) h (sb_index sb) in
  s ← bn256_sign (bn256_signature_message (unsigned []));
  k ← sign_data (calculate_sha256 (secp256k1_signature_message (unsigned s)));
  Some (MkVote s k h (sb_index sb)).

(** The seconds that a vote may wait before it is broadcast: at least the first, at most the second. *)
Definition broadcast_delay (superblock_period checkpoints_period : Z) : Z * Z :=
  (checkpoints_period,
   if decide (5 < superblock_period) then wmul U16 (superblock_period - 5) checkpoints_period else checkpoints_period).

(** [add_superblock_vote]: before the signature is verified, [true] if it goes on. *)
Definition receive_vote (v : SuperBlockVote) (r : Rounds D) : Rounds D * bool :=
  let queued := if decide (sm_state (manager r) = Synced) then temp_superblock_votes r else {[ v ]} ∪ temp_superblock_votes r in
  (MkRounds (manager r) (snapshot r) queued (last_consensus r),
   negb (mempool_contains (votes_mempool (superblock_state (chain_state (manager r)))) v)).
(** Which votes are forwarded. *)
Definition should_broadcast (x : AddSuperBlockVote) : bool :=
  match x with
  | AlreadySeen | InvalidIndex | NotInSigningCommittee => false
  | DoubleVote | MaybeValid | ValidButDifferentHash | ValidWithSameHash => true
  end.
(** The index of the superblock of the current epoch; [None] is a division by zero. *)
Definition current_index (m : ChainManager D) : option Z :=
  cc ← get_consensus_constants (chain_state m);
  if decide (superblock_period cc = 0) then None else Some (default 0 (current_epoch m) / superblock_period cc).
(** Once the signature is verified. *)
Definition verified_vote (v : SuperBlockVote) (r : Rounds D) : option (Rounds D * list (RoundEffect D)) :=
  let st := superblock_state (chain_state (manager r)) in
  if mempool_contains (votes_mempool st) v then Some (r, [])
  else
    i ← current_index (manager r);
    match add_vote calculate_sha256 st v i with
    | Ret st x => Some (with_manager (with_superblocks st (manager r)) r, if should_broadcast x then [BroadcastVote v] else [])
    | _ => None
    end.
(** [add_temp_superblock_votes]: the queue is emptied; each vote in it is verified and, if its signature is good,
    added without being forwarded. *)
Definition drain_queue (r : Rounds D) : Rounds D * list SuperBlockVote :=
  (MkRounds (manager r) (snapshot r) ∅ (last_consensus r),
   filter (λ v, mempool_contains (votes_mempool (superblock_state (chain_state (manager r)))) v = false) (votes_drain (temp_superblock_votes r))).
Definition verified_queued_vote (v : SuperBlockVote) (r : Rounds D) : option (Rounds D) :=
  fst <$> verified_vote v r.

(** ** What follows a superblock *)

(** [try_consolidate_superblock], for the target of the synchronization. *)
Definition try_consolidate_superblock (block_epoch : Z) (target : SyncTarget) (sync_superblock : option SuperBlock) (r : Rounds D)
    : option (Rounds D * list (RoundEffect D) * bool) :=
  '(r, e, built) ← construct_superblock block_epoch sync_superblock r;
  match built with
  | None => Some (r, e, false)
  | Some sb =>
    let target_superblock := Sync.target_superblock target in
    if decide (superblock_hash_of calculate_sha256 sb = hash_prev_block target_superblock) then
      m ← set_highest_superblock (get_beacon (superblock_state (chain_state (manager r)))) (manager r);
      n ← move_chain_state_forward m (snapshot r) (checkpoint target_superblock);
      '(m, n, persisted) ← persist_chain_state m n (Some (checkpoint target_superblock));
      Some (MkRounds m n (temp_superblock_votes r) (last_consensus r),
            e ++ match persisted with Some (s, batch) => [PersistedState s batch] | None => [] end, true)
    else
      let '(r, e') := change_state WaitingConsensus r in Some (r, e ++ e' ++ [RestoreFromStorage], false)
  end.

(** [build_and_vote_candidate_superblock], with the signature manager. *)
Definition build_and_vote_candidate_superblock (bn256_sign : list Z → option (list Z)) (sign_data : Hash → option KeyedSignature)
    (block_epoch : Z) (r : Rounds D) : option (Rounds D * list (RoundEffect D) * bool) :=
  '(r, e, built) ← construct_superblock block_epoch None r;
  match built ≫= own_vote bn256_sign sign_data with
  | Some v => let '(r, _) := receive_vote v r in '(r, e') ← verified_vote v r; Some (r, e ++ e', true)
  | None => Some (r, e, false)
  end.
End rounds.
