(* ===== verification/SuperblockRoundCorrect.v ===== *)
(** * Correctness of superblock rounds

    A synced node confirms a superblock only with the votes of its committee, it persists the state
    of the chain of the superblock that was confirmed, and reverts otherwise. *)

From stdpp Require Import base tactics numbers list gmap strings.
From Stdlib Require Import ZArith Lia.
From S2P Require Import Prelude Stakes Hashes Superblock SuperblockCorrect Versioning Tapi Storage UtxoDb Utxo RepEngine Transaction DataRequest TxPool Consensus.
From S2P Require Import UtxoCorrect SessionsManager Sync.
From S2P Require Import Consolidation ChainManager Snapshot SnapshotCorrect SuperblockRound.
Local Open Scope Z_scope.
Local Open Scope rust_scope.

Section rounds.
Context `{UtxoDb D} `{EqDecision (ChainState D)}.
Context (env : Environment) (calculate_sha256 : list Z → Hash) (to_uncompressed : list Z → option (list Z)).
Context (parse_address : string → option PublicKeyHash) (versioned_hash : Z → BlockHeader → Hash).
Context (votes_iter : gmap Hash (list SuperBlockVote) → list (Hash * list SuperBlockVote)).
Context (votes_drain : gset SuperBlockVote → list SuperBlockVote).
Context (version_code : ProtocolVersion → Z) (stored_header : Hash → option BlockHeader) (bootstrapping_committee : list string).
Implicit Types (m : ChainManager D) (r : Rounds D) (n : ChainStateSnapshot (ChainState D)).

Abbreviation construct :=
  (construct_superblock env calculate_sha256 to_uncompressed parse_address versioned_hash votes_iter votes_drain version_code stored_header
     bootstrapping_committee).
Abbreviation build :=
  (build_next env calculate_sha256 to_uncompressed parse_address versioned_hash votes_drain version_code bootstrapping_committee).

(** ** The pieces *)

(** Equal but for the unspent outputs. *)
Record same_chain m m' : Prop := {
  sc_info : chain_info (chain_state m') = chain_info (chain_state m);
  sc_superblocks : superblock_state (chain_state m') = superblock_state (chain_state m);
  sc_blocks : block_chain (chain_state m') = block_chain (chain_state m);
  sc_state : sm_state m' = sm_state m;
}.

Lemma state_persist_spec m n i m' n' persisted :
  persist_chain_state m n i = Some (m', n', persisted) →
  same_chain m m' ∧ (∀ s batch, persisted = Some (s, batch) → get_superblock_beacon s = get_superblock_beacon (chain_state m)
    ∧ ∀ j, i = Some j → checkpoint <$> get_superblock_beacon (chain_state m) = Some j
         ∧ ∃ s0, previous_chain_state n = Some (s0, j) ∧ get_chain_beacon s = get_chain_beacon s0 ∧ block_chain s = block_chain s0)
  ∧ ∀ j, i = Some j → (n' = n ∧ persisted = None) ∨ (is_Some persisted ∧ previous_chain_state n' = None ∧ highest_persisted_superblock n < j ∧ highest_persisted_superblock n' = j).
Proof.
  unfold persist_chain_state. intros Hp. apply bind_Some in Hp as ([n1 previous] & Hres & Hp).
  destruct previous as [s0|]; [|injection Hp as <- <- <-; split_and!; [done|done|intros j ->; left; by apply (restore_spec (λ _, None)) in Hres as [_ ->]]].
  apply bind_Some in Hp as (sb & Hsb & Hp). apply bind_Some in Hp as (ci & Hci & Hp).
  match type of Hp with context [if ?b then None else _] => destruct b eqn:Hi; [done|] end.
  apply bind_Some in Hp as (utxos & _ & Hp). apply bind_Some in Hp as (batch & _ & Hp). injection Hp as <- <- <-.
  split_and!; [done| |].
  - intros s b [= <- <-]. split; [by rewrite Hsb|]. intros j ->. rewrite bool_decide_eq_false in Hi. apply dec_stable in Hi. split; [rewrite Hsb; simpl; by rewrite Hi|].
    apply (restore_spec (λ _, None)) in Hres as [_ (Hprev & _)]. exists s0. split_and!; [done| |done]. unfold get_chain_beacon. simpl. by rewrite Hci.
  - intros j ->. right. apply (restore_spec (λ _, None)) in Hres as [_ (Hprev & Hlt & _ & Hh & Hnone)]. split_and!; [by eexists|done..].
Qed.

(** A superblock that is confirmed. *)
Lemma confirm_spec voted index r r' e :
  confirm_round voted index r = Some (r', e) →
  ∃ ci, chain_info (chain_state (manager r)) = Some ci
  ∧ chain_info (chain_state (manager r'))
    = Some (MkChainInfo (info_protocol ci) (info_constants ci) (highest_block_checkpoint ci)
              (get_beacon (superblock_state (chain_state (manager r)))) (highest_vrf_output ci))
  ∧ superblock_state (chain_state (manager r')) = superblock_state (chain_state (manager r))
  ∧ sm_state (manager r') = sm_state (manager r)
  ∧ (∀ s batch, PersistedState s batch ∈ e →
       get_superblock_beacon s = Some (get_beacon (superblock_state (chain_state (manager r))))
       ∧ ∃ s0, previous_chain_state (snapshot r) = Some (s0, checkpoint voted) ∧ get_chain_beacon s = get_chain_beacon s0 ∧ block_chain s = block_chain s0)
  ∧ (sm_state (manager r) = Synced ∨ sm_state (manager r) = AlmostSynced →
       previous_chain_state (snapshot r') = Some (chain_state (manager r'), index)
       ∧ (highest_persisted_superblock (snapshot r') = highest_persisted_superblock (snapshot r)
          ∨ highest_persisted_superblock (snapshot r) < checkpoint voted ∧ highest_persisted_superblock (snapshot r') = checkpoint voted)).
Proof.
  unfold confirm_round, set_highest_superblock. intros Hc. apply bind_Some in Hc as (m1 & Hm1 & Hc).
  apply bind_Some in Hm1 as (ci & Hci & [= <-]). exists ci. split; [done|]. set (m1 := with_chain_state _ _) in Hc.
  change (sm_state m1) with (sm_state (manager r)) in Hc. case_decide as Hs.
  - apply bind_Some in Hc as ([[m2 n2] persisted] & Hp & Hc). apply bind_Some in Hc as (n3 & Hn & [= <- <-]). simpl.
    apply state_persist_spec in Hp as ([Hi Hsb _ Hst] & Hper & Hn2). rewrite Hi, Hsb, Hst. split_and!; [done..| |].
    + intros s batch Hin. destruct persisted as [[s1 b1]|]; [|by apply not_elem_of_nil in Hin]. apply list_elem_of_singleton in Hin as [= -> ->].
      destruct (Hper _ _ eq_refl) as [Hb Hall]. destruct (Hall _ eq_refl) as (_ & s0 & ? & ? & ?). split; [by rewrite Hb|by exists s0].
    + intros _. unfold move_chain_state_forward in Hn. destruct (snapshot_take _ n2 index (chain_state m2)) as [[n4 b]|] eqn:Ht; [|done]. injection Hn as <-.
      apply take_spec in Ht as (-> & _ & -> & _). split; [done|]. destruct (Hn2 _ eq_refl) as [[-> _]|(_ & _ & ? & ->)]; [by left|by right].
  - injection Hc as <- <-. split_and!; try done. by intros s batch ?%not_elem_of_nil.
Qed.

Lemma reinsert_beacon i l st st' u :
  reinsert_votes calculate_sha256 st i l = Ret st' u → current_superblock_beacon st' = current_superblock_beacon st ∧ signing_committee st' = signing_committee st.
Proof.
  revert st. induction l as [|v l IH]; intros st Hr; simpl in Hr; [by simplify_eq|]. case_decide; [|by apply IH].
  destruct (insert_vote calculate_sha256 st v) as [st1 x| |] eqn:Hi; [|done..]. simpl in Hr. apply IH in Hr as [-> ->].
  unfold insert_vote in Hi. repeat case_match; simplify_eq; done.
Qed.

Lemma built_beacon st headers ars size index prev keys sync epoch v st' sb :
  build_superblock calculate_sha256 to_uncompressed parse_address versioned_hash votes_drain st headers ars size index prev keys sync epoch env v
    = Ret st' sb → current_superblock_beacon st' = MkBeacon index (superblock_hash_of calculate_sha256 sb).
Proof.
  unfold build_superblock. destruct (hash_key_leaves _ _ _); [|done]. destruct (select_committee _ _ _ _ _ _ _ _) as [committee|]; [|done].
  destruct (match sync with Some _ => _ | None => _ end) as [sb0|]; [|done].
  destruct (clear_and_remove_votes votes_drain (votes_mempool st)) as [mp old].
  destruct (reinsert_votes _ _ _ _) as [st2 u| |] eqn:Hr; [|done..]. simpl. intros [= <- <-]. by apply reinsert_beacon in Hr as [-> _].
Qed.

Lemma superblock_build_spec headers last_hash voted index epoch sync r r' e sb :
  build headers last_hash voted index epoch sync r = Some (r', e, sb) →
  chain_info (chain_state (manager r')) = chain_info (chain_state (manager r))
  ∧ block_chain (chain_state (manager r')) = block_chain (chain_state (manager r))
  ∧ get_beacon (superblock_state (chain_state (manager r'))) = MkBeacon index (superblock_hash_of calculate_sha256 sb)
  ∧ current_superblock (superblock_state (chain_state (manager r'))) = Some sb
  ∧ sm_state (manager r') = sm_state (manager r) ∧ snapshot r' = snapshot r ∧ last_consensus r' = Some voted
  ∧ ∀ s batch, PersistedState s batch ∉ e.
Proof using Type.
  unfold build_next. set (m := match current_superblock _ with Some _ => _ | None => _ end). set (notify := match current_superblock _ with Some _ => _ | None => _ end).
  assert (chain_state m = chain_state (manager r) ∧ sm_state m = sm_state (manager r)) as [Hcs Hsm] by (subst m; by destruct (current_superblock _)).
  intros Hb. apply bind_Some in Hb as (ci & Hci & Hb). apply bind_Some in Hb as (rep & Hrep & Hb). apply bind_Some in Hb as (last & _ & Hb).
  apply bind_Some in Hb as ([rep' members] & _ & Hb). cbn zeta in Hb. apply bind_Some in Hb as (size & _ & Hb).
  destruct (build_superblock _ _ _ _ _ _ _ _ _ _ _ _ _ _ _ _) as [st' sb0| |] eqn:Hbuild; [|done..]. injection Hb as <- <- <-.
  apply built_beacon in Hbuild. simpl. rewrite Hcs, Hsm. split_and!; try done.
  intros s batch. subst notify. rewrite elem_of_app, !elem_of_cons, elem_of_nil.
  destruct (current_superblock _); rewrite ?list_elem_of_singleton, ?elem_of_nil; intros Hin; by destruct_or? Hin.
Qed.

(** ** A round *)

Context (votes_iter_perm : ∀ t, votes_iter t ≡ₚ map_to_list t).



Lemma construct_cases epoch sync r r' e built :
  construct epoch sync r = Some (r', e, built) →
  ∃ cc consolidated, get_consensus_constants (chain_state (manager r)) = Some cc ∧ superblock_period cc ≠ 0
  ∧ get_superblock_beacon (chain_state (manager r)) = Some consolidated
  ∧ let voted := get_beacon (superblock_state (chain_state (manager r))) in
    let index := epoch / superblock_period cc in
    let verdict := superblock_verdict (sm_state (manager r)) voted consolidated index
                     (has_consensus votes_iter (superblock_state (chain_state (manager r)))) in
    match built with
    | Some sb => verdict = SameAsLocal ∧ ∃ headers last_hash r1 e1 e2, confirm_round voted index r = Some (r1, e1)
                 ∧ build headers last_hash voted index epoch sync r1 = Some (r', e2, sb) ∧ e = e1 ++ e2
    | None => verdict ≠ SameAsLocal ∧ revert_round verdict voted (epoch - superblock_period cc) (superblock_period cc) r = (r', e)
    end.
Proof.
  unfold construct_superblock. intros Hc. apply bind_Some in Hc as (cc & Hcc & Hc). case_decide as Hp; [done|].
  apply bind_Some in Hc as (consolidated & Hcon & Hc). apply bind_Some in Hc as (headers & _ & Hc). apply bind_Some in Hc as (last_hash & _ & Hc).
  exists cc, consolidated. split_and!; [done|naive_solver|done|]. cbn zeta.
  destruct (superblock_verdict _ _ _ _ _) eqn:Hv.
  - apply bind_Some in Hc as ([r1 e1] & H1 & Hc). apply bind_Some in Hc as ([[r2 e2] sb] & H2 & [= <- <- <-]).
    split; [done|]. by exists headers, last_hash, r1, e1, e2.
  - destruct (revert_round _ _ _ _ _) as [r1 e1]. by injection Hc as <- <- <-.
  - destruct (revert_round _ _ _ _ _) as [r1 e1]. by injection Hc as <- <- <-.
  - destruct (revert_round _ _ _ _ _) as [r1 e1]. by injection Hc as <- <- <-.
Qed.



(** ** Snapshots in step with superblocks *)

(** The superblock to be voted on is the one that the snapshot waits for, unless it is persisted already. *)
Definition in_step r : Prop :=
  let c := checkpoint (get_beacon (superblock_state (chain_state (manager r)))) in
  let n := snapshot r in
  (∀ s i, previous_chain_state n = Some (s, i) → i ≤ c)
  ∧ (c = 0 ∨ highest_persisted_superblock n = c
     ∨ highest_persisted_superblock n < c ∧ ∃ s, previous_chain_state n = Some (s, c) ∧ is_Some (chain_info s)).
(** The unspent outputs of a pending snapshot can be written and forgotten. *)
Definition outputs_ready r : Prop := ∀ s i, previous_chain_state (snapshot r) = Some (s, i) →
  is_Some (remove_persisted_from_memory (unspent_outputs_pool (chain_state (manager r))) (diff (unspent_outputs_pool s)))
  ∧ is_Some (persist_add_to_batch (unspent_outputs_pool s) []).

(** The assertions of the snapshots hold: in a node in step, confirming the superblock voted on does not panic for a later
    superblock that the tip of the chain is not past. *)
Lemma confirm_total r ci index (voted := get_beacon (superblock_state (chain_state (manager r)))) :
  in_step r → outputs_ready r → chain_info (chain_state (manager r)) = Some ci → checkpoint voted < index →
  checkpoint (highest_block_checkpoint ci) ≤ sat_sub (wmul U32 index (snapshot_period (snapshot r))) 1 →
  is_Some (confirm_round voted index r).
Proof using Type.
  intros [Hle Hstep] Hout Hci Hlt Htip. unfold confirm_round, set_highest_superblock. rewrite Hci. cbn [mbind option_bind].
  set (m1 := with_chain_state _ _). fold voted in Hle, Hstep, m1. case_decide; [|by eexists].
  assert (∀ m2 n2, chain_info (chain_state m2) = chain_info (chain_state m1) → snapshot_period n2 = snapshot_period (snapshot r) →
    (∀ s i, previous_chain_state n2 = Some (s, i) → i ≤ checkpoint voted) → is_Some (move_chain_state_forward m2 n2 index)) as Htake.
  { intros m2 n2 Hi Hper Hprev. unfold move_chain_state_forward, snapshot_take. unfold get_chain_beacon at 1. rewrite Hi. simpl.
    rewrite Hper. rewrite decide_False by lia. destruct (previous_chain_state n2) as [[s i]|]; [|by eexists].
    rewrite (decide_False (P:=i = index)) by (specialize (Hprev s i eq_refl); lia). by eexists. }
  assert (∃ m2 n2 p, persist_chain_state m1 (snapshot r) (Some (checkpoint voted)) = Some (m2, n2, p)
    ∧ chain_info (chain_state m2) = chain_info (chain_state m1) ∧ snapshot_period n2 = snapshot_period (snapshot r)
    ∧ ∀ s i, previous_chain_state n2 = Some (s, i) → i ≤ checkpoint voted) as (m2 & n2 & p & -> & Hi & Hper & Hprev).
  { unfold persist_chain_state, snapshot_restore. case_decide as Hz; [by eexists _, _, _|]. destruct Hstep as [?|[?|(Hlt' & s & Hs & [ci0 Hci0])]]; [by destruct Hz; left|by destruct Hz; right|].
    rewrite decide_False by lia. rewrite Hs, decide_True by done. cbn [mbind option_bind]. unfold get_superblock_beacon at 1. simpl. rewrite Hci0. simpl.
    rewrite bool_decide_eq_false_2 by (intros []; done). destruct (Hout _ _ Hs) as [[u ->] [b ->]]. simpl. by eexists _, _, _. }
  cbn [mbind option_bind]. destruct (Htake m2 n2 Hi Hper Hprev) as [n3 ->]. by eexists.
Qed.

(** ** The target of the synchronization *)

(** At the end of a synchronization, the superblock is consolidated exactly as the target: it gets the index and the hash that the
    peers agreed on, and so does the state that is persisted, with the chain as it is then.  A superblock with another hash leaves the node looking
    for consensus, with its chain to be restored from storage. *)
Theorem target_consolidated target sync r r' e ok cc :
  get_consensus_constants (chain_state (manager r)) = Some cc → sm_state (manager r) = Synchronizing →
  try_consolidate_superblock env calculate_sha256 to_uncompressed parse_address versioned_hash votes_iter votes_drain version_code stored_header
    bootstrapping_committee (checkpoint (target_superblock target) * superblock_period cc) target sync r = Some (r', e, ok) →
  if ok : bool then
    get_superblock_beacon (chain_state (manager r')) = Some (target_superblock target)
    ∧ get_beacon (superblock_state (chain_state (manager r'))) = target_superblock target
    ∧ get_chain_beacon (chain_state (manager r')) = get_chain_beacon (chain_state (manager r))
    ∧ ∀ s batch, PersistedState s batch ∈ e → get_superblock_beacon s = Some (target_superblock target)
                                             ∧ get_chain_beacon s = get_chain_beacon (chain_state (manager r))
  else sm_state (manager r') = WaitingConsensus ∧ RestoreFromStorage ∈ e ∧ ∀ s batch, PersistedState s batch ∉ e.
Proof.
  intros Hcc Hst. unfold try_consolidate_superblock. intros Hr. apply bind_Some in Hr as ([[r1 e1] built] & Hc & Hr).
  apply construct_cases in Hc as (cc' & consolidated & Hcc' & Hp & _ & Hb). rewrite Hcc in Hcc'. injection Hcc' as <-. cbn zeta in Hb.
  rewrite Z.div_mul in Hb by done. unfold superblock_verdict in Hb. rewrite Hst, decide_False in Hb by naive_solver.
  destruct built as [sb|]; [|by destruct Hb]. destruct Hb as (_ & headers & last_hash & r2 & e2 & e3 & Hconf & Hbuild & ->).
  unfold confirm_round, set_highest_superblock in Hconf. apply bind_Some in Hconf as (m1 & Hm1 & Hconf).
  apply bind_Some in Hm1 as (ci & Hci & [= <-]). simpl in Hconf. rewrite Hst, decide_False in Hconf by naive_solver. injection Hconf as <- <-.
  apply superblock_build_spec in Hbuild as (Hi & _ & Hbeacon & _ & Hsm & _ & _ & Hnot). simpl in Hi, Hsm.
  case_decide as Hh.
  - rewrite Hh in Hbeacon. assert (get_beacon (superblock_state (chain_state (manager r1))) = target_superblock target) as Hb by (rewrite Hbeacon; by destruct (target_superblock target)).
    rewrite Hb in Hr. apply bind_Some in Hr as (m2 & Hm2 & Hr). unfold set_highest_superblock in Hm2. rewrite Hi in Hm2. injection Hm2 as <-.
    apply bind_Some in Hr as (n3 & Hn3 & Hr). apply bind_Some in Hr as ([[m4 n4] p] & Hp4 & Hr). injection Hr as <- <- <-.
    apply state_persist_spec in Hp4 as ([Hi4 Hsb4 _ _] & Hper & _). simpl in Hi4, Hsb4 |- *. unfold get_superblock_beacon, get_chain_beacon in *.
    rewrite Hi4, Hsb4, Hci. simpl. split_and!; [done..|]. intros s batch [Hin|Hin]%elem_of_app; [by apply Hnot in Hin|].
    destruct p as [[s1 b1]|]; [|by apply not_elem_of_nil in Hin]. apply list_elem_of_singleton in Hin as [= -> ->].
    destruct (Hper _ _ eq_refl) as [Hsb Hj]. split; [by rewrite Hsb|]. destruct (Hj _ eq_refl) as (_ & s0 & Hs0 & Hcb & _). rewrite Hcb.
    unfold move_chain_state_forward in Hn3. destruct (snapshot_take _ _ _ _) as [[n5 b5]|] eqn:Ht; [|done]. injection Hn3 as <-.
    apply take_spec in Ht as (Hprev & _). simpl in Hprev. rewrite Hprev in Hs0. by injection Hs0 as <-.
  - injection Hr as <- <- <-. simpl. split_and!; [done| |].
    + rewrite !elem_of_app. right. right. by left.
    + intros s batch [Hin|[Hin|Hin]%elem_of_app]%elem_of_app; [by apply Hnot in Hin| |by apply list_elem_of_singleton in Hin].
      apply elem_of_app in Hin as [Hin|Hin]; [case_decide; [by apply list_elem_of_singleton in Hin|by apply not_elem_of_nil in Hin]|by apply list_elem_of_singleton in Hin].
Qed.
End rounds.

(** ** Rounds follow each other *)

Section steady.
Context `{UtxoDbLaws D} `{EqDecision (ChainState D)}.
Context (env : Environment) (calculate_sha256 : list Z → Hash) (to_uncompressed : list Z → option (list Z)).
Context (parse_address : string → option PublicKeyHash) (versioned_hash : Z → BlockHeader → Hash).
Context (votes_iter : gmap Hash (list SuperBlockVote) → list (Hash * list SuperBlockVote)).
Context (votes_drain : gset SuperBlockVote → list SuperBlockVote).
Context (version_code : ProtocolVersion → Z) (stored_header : Hash → option BlockHeader) (bootstrapping_committee : list string).
Implicit Types (m : ChainManager D) (r : Rounds D) (stored : gmap OutputPointer Utxo).

Abbreviation construct :=
  (construct_superblock env calculate_sha256 to_uncompressed parse_address versioned_hash votes_iter votes_drain version_code stored_header
     bootstrapping_committee).
Abbreviation outputs s := (unspent_outputs_pool (s : ChainState D)).
Abbreviation now r := (outputs (chain_state (manager r))).

(** The batch of a round is written to the database, which the copies of the pool of unspent outputs share. *)
Definition over_database (d : D) (s : ChainState D) : ChainState D :=
  MkState (chain_info s) (requests_pool s) (block_chain s) (own_outputs s) (reputation_engine s) (node_stats s) (alt_keys s)
    (superblock_state s) (tapi_engine s) (stakes s) (MkUtxoPool (diff (outputs s)) (Some d)).
Definition batches (e : list (RoundEffect D)) : list (list UtxoWriteBatchItem) :=
  omap (λ x, match x with PersistedState _ batch => Some batch | _ => None end) e.
Definition written (e : list (RoundEffect D)) r : option (Rounds D) :=
  foldl (λ acc batch,
    r ← acc;
    d ← db (now r);
    match utxo_write d batch with
    | Ret d _ =>
        let n := snapshot r in
        Some (MkRounds (with_chain_state (manager r) (over_database d (chain_state (manager r))))
                (MkSnapshot ((λ si, (over_database d si.1, si.2)) <$> previous_chain_state n) (highest_persisted_superblock n) (snapshot_period n))
                (temp_superblock_votes r) (last_consensus r))
    | _ => None
    end) (Some r) (batches e).

(** The snapshot waits for the superblock that is voted on, and its unspent outputs are an older copy of those of the node, over the
    same database, which holds [stored]. *)
Record steady r stored : Prop := {
  sd_step : in_step r;
  sd_high : highest_persisted_superblock (snapshot r) ≤ checkpoint (get_beacon (superblock_state (chain_state (manager r))));
  sd_db : is_Some (db (now r));
  sd_pool : pool_ok (now r) stored;
  sd_copy s i : previous_chain_state (snapshot r) = Some (s, i) →
    db (outputs s) = db (now r) ∧ pool_ok (outputs s) stored ∧ extends (diff (outputs s)) (diff (now r));
}.

Lemma steady_ready r stored : steady r stored → outputs_ready r.
Proof.
  intros [_ _ _ _ Hcopy] s i Hs. destruct (Hcopy s i Hs) as (_ & Hok & Hext).
  destruct (remove_persisted_spec (now r) (diff (outputs s)) Hext) as (p' & -> & _).
  rewrite (persist_add_to_batch_spec _ stored [] Hok). by split; eexists.
Qed.

(** What a confirmed round does to the unspent outputs. *)
Lemma confirm_outputs voted index r r' e :
  sm_state (manager r) = Synced ∨ sm_state (manager r) = AlmostSynced →
  confirm_round voted index r = Some (r', e) →
  (batches e = [] ∧ now r' = now r)
  ∨ ∃ s0 i b, previous_chain_state (snapshot r) = Some (s0, i)
      ∧ remove_persisted_from_memory (now r) (diff (outputs s0)) = Some (now r')
      ∧ persist_add_to_batch (outputs s0) [] = Some b ∧ batches e = [b.2].
Proof.
  intros Hs. unfold confirm_round, set_highest_superblock. intros Hc. apply bind_Some in Hc as (m1 & Hm1 & Hc).
  apply bind_Some in Hm1 as (ci & Hci & [= <-]). set (m1 := with_chain_state _ _) in Hc.
  change (sm_state m1) with (sm_state (manager r)) in Hc. rewrite decide_True in Hc by done.
  apply bind_Some in Hc as ([[m2 n2] persisted] & Hp & Hc). apply bind_Some in Hc as (n3 & Hn & [= <- <-]). simpl.
  unfold persist_chain_state in Hp. apply bind_Some in Hp as ([n1 previous] & Hres & Hp).
  destruct previous as [s0|]; [|injection Hp as <- <- <-; by left].
  apply bind_Some in Hp as (sb & Hsb & Hp). apply bind_Some in Hp as (ci' & Hci' & Hp).
  match type of Hp with context [if ?b then None else _] => destruct b eqn:Hi; [done|] end.
  apply bind_Some in Hp as (utxos & Hu & Hp). apply bind_Some in Hp as (batch & Hb & Hp). injection Hp as <- <- <-.
  right. exists s0. apply (restore_spec (λ _, None)) in Hres as [_ (Hprev & _)]. eexists _, batch. by split_and!.
Qed.

Lemma build_outputs headers last_hash voted index epoch sync r r' e sb :
  build_next env calculate_sha256 to_uncompressed parse_address versioned_hash votes_drain version_code bootstrapping_committee
    headers last_hash voted index epoch sync r = Some (r', e, sb) → now r' = now r.
Proof.
  unfold build_next. set (m := match current_superblock _ with Some _ => _ | None => _ end).
  assert (chain_state m = chain_state (manager r)) as Hcs by (subst m; by destruct (current_superblock _)).
  intros Hb. apply bind_Some in Hb as (ci & Hci & Hb). apply bind_Some in Hb as (rep & Hrep & Hb). apply bind_Some in Hb as (last & _ & Hb).
  apply bind_Some in Hb as ([rep' members] & _ & Hb). cbn zeta in Hb. apply bind_Some in Hb as (size & _ & Hb).
  destruct (build_superblock _ _ _ _ _ _ _ _ _ _ _ _ _ _ _ _) as [st' sb0| |]; [|done..]. injection Hb as <- <- <-. simpl. by rewrite Hcs.
Qed.

Lemma batches_none e : (∀ s batch, PersistedState s batch ∉ e) → batches e = [].
Proof.
  intros Hn. unfold batches. induction e as [|x e IH]; [done|]. cbn [omap list_omap].
  rewrite IH by (intros s b Hin; apply (Hn s b); by right). destruct x; try done. exfalso. eapply Hn. by left.
Qed.

Lemma extends_refl d : extends d d.
Proof. by split. Qed.

(** A round that builds a superblock, once its batch is written. *)
Lemma round_steady epoch sync r r' e sb ci stored :
  sm_state (manager r) = Synced ∨ sm_state (manager r) = AlmostSynced → steady r stored →
  chain_info (chain_state (manager r)) = Some ci →
  checkpoint (get_beacon (superblock_state (chain_state (manager r)))) < epoch / superblock_period (info_constants ci) →
  construct epoch sync r = Some (r', e, Some sb) →
  ∃ r2 stored', written e r' = Some r2 ∧ steady r2 stored' ∧ view (now r2) stored' = view (now r) stored.
Proof.
  intros Hst [Hstep Hhigh [d Hd] Hpool Hcopy] Hci Hlt (cc & consolidated & Hcc & _ & _ & Hb)%construct_cases. cbn zeta in Hb.
  unfold get_consensus_constants in Hcc. rewrite Hci in Hcc. injection Hcc as <-.
  destruct Hb as (_ & headers & last_hash & r1 & e1 & e2 & Hconf & Hbuild & ->).
  pose proof (confirm_outputs _ _ _ _ _ Hst Hconf) as Hout. pose proof (build_outputs _ _ _ _ _ _ _ _ _ _ Hbuild) as Hsame.
  apply confirm_spec in Hconf as (ci1 & Hci1 & Hci' & _ & _ & _ & Hsnap). destruct (Hsnap Hst) as [Hprev Hhi].
  apply superblock_build_spec in Hbuild as (Hi & _ & Hbeacon & _ & _ & Hsn & _ & Hnot).
  assert (batches (e1 ++ e2) = batches e1) as Hbat.
  { unfold batches. rewrite omap_app. fold (batches e2). by rewrite (batches_none e2 Hnot), app_nil_r. }
  assert (in_step r' ∧ highest_persisted_superblock (snapshot r') ≤ checkpoint (get_beacon (superblock_state (chain_state (manager r')))))
    as [Hstep' Hhigh'].
  { unfold in_step. rewrite Hbeacon, Hsn, Hprev. cbn [checkpoint]. split_and!.
    - by intros s i [= _ <-].
    - right. right. split; [lia|]. eexists. split; [done|]. by rewrite Hci'.
    - lia. }
  unfold written. rewrite Hbat. destruct Hout as [[-> Hnow]|(s0 & i & b & Hs0 & Hrem & Hper & ->)]; cbn [foldl mbind option_bind].
  - exists r', stored. split; [done|]. rewrite Hsame, Hnow. split; [|done]. split; [done|done| | |].
    + rewrite Hsame, Hnow. by eexists.
    + by rewrite Hsame, Hnow.
    + rewrite Hsn, Hprev, Hsame, Hnow. intros s i [= <- <-]. rewrite Hnow. split_and!; [done|done|apply extends_refl].
  - destruct (Hcopy s0 i Hs0) as (Hdb0 & Hok0 & Hext).
    destruct (remove_persisted_spec (now r) (diff (outputs s0)) Hext) as (p' & Hrem' & Hdb' & Ha & Hr).
    rewrite Hrem in Hrem'. injection Hrem' as Hp'. rewrite (persist_add_to_batch_spec _ stored [] Hok0) in Hper. injection Hper as <-.
    pose proof (po_stored _ _ Hok0) as Hs. unfold stored_is in Hs. rewrite Hdb0, Hd in Hs.
    destruct (utxo_write_law d stored _ Hs (diff_batch_ok _ _ Hok0)) as (d1 & Hw & Hd1). rewrite (apply_diff_batch _ _ Hok0) in Hd1.
    rewrite Hsame, Hp', Hdb', Hd. cbn [mbind option_bind snd]. rewrite ?app_nil_l, Hw.
    destruct (forgotten_view (now r) (outputs s0) stored p' d1 Hpool Hok0 Hext Ha Hr Hd1) as [Hok Hview].
    eexists _, (view (outputs s0) stored). split; [done|].
    assert (now r' = p') as Hnow' by congruence. cbn. rewrite Hnow'. split; [|done].
    split; cbn; [|done|by eexists|by rewrite Hnow'|].
    + unfold in_step. cbn. destruct Hstep' as [Hle Hor]. rewrite Hsn, Hprev in *. cbn in *. split; [intros s j [= _ <-]; by eapply Hle|].
      destruct Hor as [?|[?|(? & s & [= <- Hidx] & Hsome)]]; [by left|right; by left|right; right]. split; [done|].
      eexists. split; [by rewrite <-Hidx|done].
    + rewrite Hsn, Hprev, Hnow'. cbn. intros s j [= <- <-]. cbn. rewrite Hp'. split_and!; [done|done|apply extends_refl].
Qed.

(** Applying the changes of a block only adds pending changes. *)
Lemma apply_extends d (p p' : UnspentOutputsPool D) : diff_apply d p = Some p' → extends (diff p) (diff p').
Proof.
  unfold diff_apply. intros Ha. apply bind_Some in Ha as (p1 & H1 & H2).
  assert (extends (diff p) (diff p1)) as [Ha1 Hr1].
  { clear H2. revert p H1. generalize (map_to_list (utxos_to_add d)) as l. induction l as [|[k v] l IH]; intros p; cbn [foldl mbind option_bind].
    - intros [= <-]. apply extends_refl.
    - unfold pool_insert at 2. cbn [fst snd]. destruct (utxos_to_add (diff p) !! k) eqn:Hk.
      + intros Hn. exfalso. revert Hn. clear. by induction l.
      + intros [Ha Hr]%IH. cbn in Ha, Hr. split; [|done]. etrans; [|exact Ha]. by apply insert_subseteq. }
  assert (extends (diff p1) (diff p')) as [Ha2 Hr2]; [|split; by etrans].
  clear Ha1 Hr1 H1. revert p1 H2. generalize (elements (utxos_to_remove d)) as l. induction l as [|k l IH]; intros p1; cbn [foldl mbind option_bind].
  - intros [= <-]. apply extends_refl.
  - unfold pool_remove at 2. case_decide.
    + intros Hn. exfalso. revert Hn. clear. by induction l.
    + intros [Ha Hr]%IH. cbn in Ha, Hr. split; [done|]. etrans; [|exact Hr]. set_solver.
Qed.

Lemma block_steady r stored m' (u : UtxoDiff D) cur :
  steady r stored → diff_ok (now r) stored u cur → diff_apply (take_diff u) (now r) = Some (outputs (chain_state m')) →
  get_beacon (superblock_state (chain_state m')) = get_beacon (superblock_state (chain_state (manager r))) →
  steady (with_manager m' r) stored.
Proof.
  intros [Hstep Hhigh Hdb Hpool Hcopy] Hu Ha Hb. destruct (diff_apply_spec _ _ _ _ Hpool Hu) as (p' & Ha' & Hok & _ & Hdb').
  rewrite Ha in Ha'. injection Ha' as Hp'. rewrite <-Hp' in *. pose proof (apply_extends _ _ _ Ha) as [Hea Her].
  unfold in_step in *. split; unfold in_step; cbn; rewrite ?Hb; [done|done|by rewrite Hdb'|done|].
  intros s i Hs. destruct (Hcopy s i Hs) as (Hdb0 & Hok0 & Hea0 & Her0). split_and!; [congruence|done|]. split; by etrans.
Qed.

(** C22. Rounds follow each other without a panic.  In a steady node the snapshot waits for the superblock that is voted on, and its
    unspent outputs are an older copy of those of the node over the same database.  Then the confirmation of a superblock does not panic,
    for a later superblock that the tip of the chain is not past; after a round that builds a superblock, once the batch that it persists
    has been written, the node is steady again and has the same unspent outputs; and it stays steady when the changes of a block
    are applied. *)
Theorem rounds_in_step r stored :
  steady r stored → sm_state (manager r) = Synced ∨ sm_state (manager r) = AlmostSynced →
  (∀ ci epoch, chain_info (chain_state (manager r)) = Some ci →
     let voted := get_beacon (superblock_state (chain_state (manager r))) in
     let index := epoch / superblock_period (info_constants ci) in
     checkpoint voted < index →
     checkpoint (highest_block_checkpoint ci) ≤ sat_sub (wmul U32 index (snapshot_period (snapshot r))) 1 →
     is_Some (confirm_round voted index r)
     ∧ ∀ sync r' e sb, construct epoch sync r = Some (r', e, Some sb) →
       ∃ r2 stored', written e r' = Some r2 ∧ steady r2 stored' ∧ view (now r2) stored' = view (now r) stored)
  ∧ (∀ m' (u : UtxoDiff D) cur,
     diff_ok (now r) stored u cur → diff_apply (take_diff u) (now r) = Some (outputs (chain_state m')) →
     get_beacon (superblock_state (chain_state m')) = get_beacon (superblock_state (chain_state (manager r))) →
     steady (with_manager m' r) stored).
Proof.
  intros Hs Hst. split; [|intros m' u cur; by apply block_steady]. intros ci epoch Hci voted index Hlt Htip. split.
  - eapply confirm_total; [exact (sd_step _ _ Hs)|by eapply steady_ready|done|done|done].
  - intros sync r' e sb Hc. by eapply round_steady.
Qed.
End steady.
