(* ===== verification/RoundExamples.v ===== *)
(** * Superblock rounds of a node

    A round in which a superblock is confirmed and one at the end of a synchronization, on
    which the theorems about rounds are applied. *)

From stdpp Require Import base tactics numbers list gmap strings.
From Stdlib Require Import ZArith Lia ClassicalEpsilon.
From S2P Require Import Prelude Stake Stakes Trs Ars Hashes Superblock SuperblockCorrect Versioning Tapi Merkle Rad Float Priority Storage UtxoDb Utxo.
From S2P Require Import RepEngine Eligibility Epoch RadScript Transaction DataRequest TxPool TxFactory Consensus Validation BlockValidation.
From S2P Require Import UtxoDbCorrect UtxoCorrect BlockExamples SessionsManager Sync.
From S2P Require Import Consolidation ChainManager ChainManagerCorrect Snapshot SnapshotCorrect SuperblockRound SuperblockRoundCorrect.
Local Open Scope Z_scope.

#[local] Existing Instances toy_codecs toy_codec_laws.
(** Equality of states is only asked for when a snapshot is taken twice. *)
#[local] Instance state_eq : EqDecision (ChainState ex_db) := λ x y, excluded_middle_informative (x = y).

(** The committee of superblock 5 has three members; two of them have voted for it. *)
Definition votes5 : list SuperBlockVote := [toy_vote 10 1 0; toy_vote 11 1 0].
Definition superblocks5 : SuperBlockState :=
  let st := toy_state [10; 11; 12] in
  Superblock.MkState (ars_current_identities st) (ars_previous_identities st) None (MkBeacon 5 (toy_hash 1)) (signing_committee st) (toy_mempool [10; 11; 12] votes5).

Definition info4 : ChainInfo := MkChainInfo ex_info ex_constants (MkBeacon 48 [48]) (MkBeacon 4 [44]) (MkVrfInput 48 [7]).
Definition state5 : ChainState ex_db :=
  let s := chain_state node in
  ChainManager.MkState (Some info4) (requests_pool s) (block_chain s) (own_outputs s) (reputation_engine s) (node_stats s) (alt_keys s) superblocks5
    (tapi_engine s) (stakes s) (unspent_outputs_pool s).
Definition rounds5 (st : StateMachine) : Rounds ex_db :=
  MkRounds (in_machine_state st (with_chain_state node state5)) (MkSnapshot (Some (state5, 5)) 4 10) ∅ None.
Abbreviation ex_construct :=
  (construct_superblock Development toy_sha256 (λ k, Some k) (λ _, Some (toy_pkh 10)) (λ _ _, [6]) map_to_list elements (λ _, 0) (λ _, None) ["committee"%string]).


(** [rounds_in_step] on the same round: the node is steady before and, once the coins of the snapshot are written to the database,
    after it. *)
Lemma rounds5_steady : steady (rounds5 Synced) ∅.
Proof.
  assert (pool_ok (unspent_outputs_pool state5) ∅) as Hok.
  { destruct ex_coins_ok as [_ Hf Hr Hv]. split; [|exact Hf|exact Hr|exact Hv]. exact toy_empty_holds. }
  split; [|by cbn|by eexists|exact Hok|].
  - split; [intros s i [= <- <-]; by cbn|]. right. right. split; [by cbn|]. exists state5. split; [reflexivity|by eexists].
  - intros s i [= <- <-]. split_and!; [reflexivity|exact Hok|by split].
Qed.

Lemma rounds_in_step_witness :
  ∃ r' e sb r2 stored, ex_construct 60 None (rounds5 Synced) = Some (r', e, Some sb)
  ∧ length (batches e) = 1%nat ∧ written e r' = Some r2 ∧ steady r2 stored.
Proof.
  assert ((λ x, (bool_decide (is_Some x.2), length (batches x.1.2))) <$> ex_construct 60 None (rounds5 Synced) = Some (true, 1%nat)) as Hsome
    by by vm_compute.
  destruct (ex_construct 60 None (rounds5 Synced)) as [[[r' e] built]|] eqn:Hr; [|done].
  destruct built as [sb|]; [|done].
  destruct (proj1 (rounds_in_step Development toy_sha256 (λ k, Some k) (λ _, Some (toy_pkh 10)) (λ _ _, [6]) map_to_list elements (λ _, 0) (λ _, None)
    ["committee"%string] (rounds5 Synced) ∅ rounds5_steady (or_introl eq_refl)) info4 60 eq_refl) as [_ Hnext].
  - by vm_compute.
  - by vm_compute.
  - destruct (Hnext None r' e sb Hr) as (r2 & stored & Hw & Hs & _). exists r', e, sb, r2, stored.
    split; [done|]. split; [by injection Hsome|]. split; [exact Hw|exact Hs].
Defined.

(** The superblock that the peers have agreed on, and the target with its hash. *)
Definition agreed6 : SuperBlock := MkSuperBlock 3 [1] [2] 6 [3] [4] [5].
Definition target6 : SyncTarget := MkTarget (MkBeacon 62 [62]) (MkBeacon 6 (superblock_hash_of toy_sha256 agreed6)).
Abbreviation ex_consolidate :=
  (try_consolidate_superblock Development toy_sha256 (λ k, Some k) (λ _, Some (toy_pkh 10)) (λ _ _, [6]) map_to_list elements (λ _, 0) (λ _, None) ["committee"%string]).

(** [target_consolidated] on it. *)
Lemma target_consolidated_witness :
  ∃ r' e, ex_consolidate 60 target6 (Some agreed6) (rounds5 Synchronizing) = Some (r', e, true)
  ∧ get_superblock_beacon (chain_state (manager r')) = Some (target_superblock target6).
Proof.
  assert (snd <$> ex_consolidate 60 target6 (Some agreed6) (rounds5 Synchronizing) = Some true) as Hsome by by vm_compute.
  destruct (ex_consolidate 60 target6 (Some agreed6) (rounds5 Synchronizing)) as [[[r' e] ok]|] eqn:Hr; [|done].
  injection Hsome as ->. exists r', e. split; [done|].
  exact (proj1 (target_consolidated Development toy_sha256 (λ k, Some k) (λ _, Some (toy_pkh 10)) (λ _ _, [6]) map_to_list elements (λ _, 0) (λ _, None)
    ["committee"%string] target6 (Some agreed6) (rounds5 Synchronizing) r' e true ex_constants eq_refl eq_refl Hr)).
Defined.
