(* ===== verification/StalledChain.v ===== *)
(** * Requests that nobody can tally

    A request of the pool is tallied by the block after it enters the stage of the tally, and since version 2.0 the number of its
    witnesses is compared again with the number of validators: then the request must be one of the block.  When the
    number of validators falls while a request is open, no block can be accepted any more. *)

From stdpp Require Import base tactics numbers list gmap sorting.
From Stdlib Require Import ZArith Lia.
From S2P Require Import Prelude Stake Stakes Ars Hashes Superblock Versioning Tapi Merkle Rad Float Storage UtxoDb Utxo RepEngine.
From S2P Require Import Eligibility Epoch RadScript Transaction DataRequest TxFactory Consensus Validation BlockValidation BlockRequests.
From S2P Require Import DataRequestCorrect.
Local Open Scope Z_scope.
Local Open Scope rust_scope.

Section stalled.
Context `{UtxoDb D}.
Context (pinfo : ProtocolInfo) (env : Environment) (calculate_sha256 : list Z → Hash).
Context (tx_hash : option ProtocolVersion → Transaction → Hash) (header_hash : option ProtocolVersion → BlockHeader → Hash).
Context (hash_concat : Hash → Hash → Hash) (empty_hash : Hash).
Context (verify : PublicKey → list Z → list Z → bool) (parse_public_key : PublicKey → bool) (parse_signature : list Z → bool).
Context (from_slice : list Z → option Value) (from_value_u8 : Value → option Z).
Context (run_tally_panic_safe : list RevealTransaction → RADTally → f64 → nat → ActiveWips → bool →
                                option TallyMetaData * option (list Z)).
Context (tally_bytes_on_encode_error : list Z).
Implicit Types (x : BlockContext) (q : DataRequestPool) (h : Hash).

Abbreviation tallies x := (tally_loop (D:=D) pinfo calculate_sha256 tx_hash run_tally_panic_safe tally_bytes_on_encode_error x).
Abbreviation validate_transactions :=
  (validate_block_transactions (D:=D) pinfo env calculate_sha256 tx_hash header_hash hash_concat empty_hash verify parse_public_key
     parse_signature from_slice from_value_u8 run_tally_panic_safe tally_bytes_on_encode_error).

(** A request in the stage of the tally, made after the activation of version 2.0, with too many witnesses for the validators. *)
Definition short_of_validators (stakes : StakesTracker) (st : DataRequestState) : Prop :=
  stage st = TALLY
  ∧ get_protocol_version_activation_epoch pinfo V2_0 < DataRequest.epoch st
  ∧ data_request_has_too_many_witnesses (request st) (validator_count stakes)
      (get_protocol_version pinfo (Some (DataRequest.epoch st))) = true.

Lemma short_tally_refused t q cc wips many version st stakes :
  data_request_pool q !! t_dr_pointer t = Some st → short_of_validators stakes st → t_dr_pointer t ∉ many →
  validate_tally_transaction pinfo calculate_sha256 run_tally_panic_safe tally_bytes_on_encode_error t q cc wips many
    (Some (validator_count stakes)) version = Err (TxError (TooManyWitnessesDataRequestNotFound (t_dr_pointer t))).
Proof.
  intros Hst (Hs & He & Hw) Hm. unfold validate_tally_transaction. rewrite Hst. cbn [ok_or rbind default]. unfold tally_of_unsolvable.
  cbn [id]. by rewrite decide_True by done.
Qed.

Lemma short_tally_stops x reset many l : ∀ q s hs expected h st,
  data_request_pool q !! h = Some st → short_of_validators (b_stakes x) st → h ∉ reset → h ∉ many → h ∈ t_dr_pointer <$> l →
  ∀ q' r, tallies x reset many l q s hs expected ≠ Ret q' r.
Proof.
  induction l as [|t l IH]; intros q s hs expected h st Hst Hshort Hr Hm Hin q' r; [by apply elem_of_nil in Hin|].
  cbn [tally_loop]. destruct (decide (t_dr_pointer t = h)) as [<-|Hne]; [by erewrite short_tally_refused|].
  destruct (validate_tally_transaction _ _ _ _ _ _ _ _ _ _ _) as [[outputs fee]|e|]; [|done..].
  do 2 (case_decide; [done|]). destruct (advance _ _ _ _ _ _ _ _ _ _) as [s1|e|]; cbn [lift_exec ebind]; [|done..].
  eapply (IH _ _ _ _ h st); [|done..|].
  - destruct (reset_spec calculate_sha256 hash_concat parse_signature from_slice reset (t_dr_pointer t) q) as [[Hag _ _ _] _].
    rewrite Hag; [done|]. by rewrite elem_of_elements.
  - rewrite fmap_cons in Hin. by apply elem_of_cons in Hin as [->|].
Qed.

Lemma short_request_stalls (p : UnspentOutputsPool D) q b vrf sv rep c n cc wips stakes h st :
  data_request_pool q !! h = Some st → short_of_validators stakes st →
  h ∉ (λ t, tx_hash (Some (get_protocol_version pinfo (Some (checkpoint (beacon (block_header b)))))) (DataRequest t))
        <$> data_request_txns (txns b) →
  ∀ q' r, validate_transactions p q b vrf sv rep c n cc wips stakes ≠ Ret q' r.
Proof.
  intros Hst Hshort Hnew q' r Hacc. assert (in_tally q h) as Hready by (exists st; split; [done|apply Hshort]).
  pose proof Hacc as [_ Hall]%accepted_tallies. assert (h ∈ t_dr_pointer <$> tally_txns (txns b)) as Hin by (apply Hall; by right).
  revert Hacc. unfold validate_block_transactions. destruct (total_block_reward _ _); [|done]. cbn [unwrap lift_exec ebind].
  do 2 (case_decide; [done|]).
  destruct (validate_until_requests _ _ _ _ _ _ _ _ _ _ _ _ _ _ _) as [s1| |]; [|done|done]. cbn [lift_exec ebind].
  match goal with |- context [add_unsolvable _ _ _ ?bx ?bh ?l q ∅ ∅] =>
    destruct (add_unsolvable_spec pinfo calculate_sha256 tx_hash hash_concat parse_signature from_slice bx bh l q ∅ ∅ eq_refl) as [Hq Hret];
    set (x := bx) in * end.
  assert (h ∉ unsolvable_ids pinfo tx_hash x (data_request_txns (txns b))) as Hh.
  { intros (t & -> & [_ Ht]%list_elem_of_filter)%list_elem_of_fmap. apply Hnew, list_elem_of_fmap. by exists t. }
  destruct (add_unsolvable _ _ _ x _ _ q ∅ ∅) as [q1 [reset many]| |]; [|done|done]. cbn [pool_of ebind fst snd] in *.
  destruct (Hret q1 (reset, many) eq_refl) as (_ & Hreset & Hmany). cbn [fst snd] in *.
  destruct (tally_loop _ _ _ _ _ _ _ _ _ _ _ _ _) as [q2 r2| |] eqn:Hl; [|done|done]. intros _.
  revert Hl. apply (short_tally_stops x reset many _ _ _ _ _ h st); [|done|..|done].
  - by rewrite (ae_requests _ _ _ Hq).
  - intros [Hn|?]%Hreset; [by apply elem_of_empty in Hn|done].
  - intros [Hn|?]%Hmany; [by apply elem_of_empty in Hn|done].
Qed.

(** An open request without commits goes to its tally as soon as it has too many witnesses for the validators. *)
Lemma shortfall_enters_tally st extra (stakes : StakesTracker) version :
  stage st = COMMIT → commits (info st) = ∅ → get_protocol_version_activation_epoch pinfo V2_0 < DataRequest.epoch st →
  before_v2 (get_protocol_version pinfo (Some (DataRequest.epoch st))) = false → before_v2 version = false →
  Z.of_nat (validator_count stakes / 4) < witnesses (request st) →
  ∃ st', update_stage st extra (data_request_has_too_many_witnesses (request st) (validator_count stakes) version) = Some st'
    ∧ short_of_validators stakes st'.
Proof.
  intros Hs Hc He Hv Hv' Hw. unfold update_stage, data_request_has_too_many_witnesses. rewrite Hs, Hv', decide_True by done.
  rewrite bool_decide_eq_true_2 by done. eexists. split; [done|]. split; [done|]. split; [done|].
  cbn [set_stage request DataRequest.epoch]. unfold data_request_has_too_many_witnesses. rewrite Hv. by rewrite bool_decide_eq_true_2.
Qed.

(** C8. When validators leave and an open request without commits, made after the activation of version 2.0, has more witnesses than a
    quarter of those that are left, the update of the stages after the block does not panic and leaves a pool with which the
    validation accepts no block, whatever it contains, unless it repeats the request. *)
Theorem shortfall_stalls_chain q h st (stakes : StakesTracker) version :
  pool_ok q → data_request_pool q !! h = Some st → stage st = COMMIT → commits (info st) = ∅ →
  get_protocol_version_activation_epoch pinfo V2_0 < DataRequest.epoch st →
  before_v2 (get_protocol_version pinfo (Some (DataRequest.epoch st))) = false → before_v2 version = false →
  Z.of_nat (validator_count stakes / 4) < witnesses (request st) →
  ∃ q1 sent, update_data_request_stages calculate_sha256 q (Some (validator_count stakes)) version = Some (q1, sent)
  ∧ ∀ (p : UnspentOutputsPool D) b vrf sv rep c n cc wips,
      h ∉ (λ t, tx_hash (Some (get_protocol_version pinfo (Some (checkpoint (beacon (block_header b)))))) (DataRequest t))
            <$> data_request_txns (txns b) →
      ∀ q' r, validate_transactions p q1 b vrf sv rep c n cc wips stakes ≠ Ret q' r.
Proof.
  intros Hok Hst Hs Hc He Hv Hv' Hw. unfold update_data_request_stages. cbn [default id].
  destruct (update_requests_ok calculate_sha256 (λ _ _, []) (λ _ _, []) (λ _ _, []) (λ _, []) (validator_count stakes) version (map_to_list (data_request_pool q)) q Hok)
    as (q1 & sent & Hu & _ & _ & Hin & _); [apply NoDup_fst_map_to_list|by intros h' s Hs'%elem_of_map_to_list|].
  exists q1, sent. split; [done|]. intros p b vrf sv rep c n cc wips Hnew.
  destruct (shortfall_enters_tally st (extra_rounds q) stakes version Hs Hc He Hv Hv' Hw) as (st' & Hst' & Hshort).
  apply (short_request_stalls p q1 b vrf sv rep c n cc wips stakes h st'); [|done|done].
  rewrite (Hin h st); [done|]. by apply elem_of_map_to_list.
Qed.
End stalled.
