(* ===== verification/Mining.v ===== *)
(** * Mining

    Models node/src/actors/chain_manager/mining.rs: how a block is filled from the pool of
    transactions ([build_block]), the tallies that it needs ([create_tally_transactions]), and the conditions and steps of
    proposing it ([try_mine_block]).

    The loops over the pool stop early when no further transaction fits; [fill] is such a loop.  [run_tally]
    decodes the reveals and runs the tally script in the interpreter of RADON; signatures and vrf proofs come from the signature
    manager.  [None] is a panic. *)

From stdpp Require Import base tactics numbers list gmap.
From Stdlib Require Import ZArith Lia.
From S2P Require Import Prelude Stake Stakes Trs Ars Hashes Superblock Versioning Tapi Merkle Rad Float Storage UtxoDb Utxo.
From S2P Require Import RepEngine Eligibility Epoch RadScript Transaction DataRequest TxFactory Consensus Validation BlockValidation TxPool.
From S2P Require Import Consolidation ChainManager.
Local Open Scope Z_scope.
Local Open Scope rust_scope.

(** ** Loops with an early exit *)

(** The body returns whether the loop stops. *)
Fixpoint fill {S T} (body : S → T → option (S * bool)) (l : list T) (s : S) : option S :=
  match l with
  | [] => Some s
  | t :: l => '(s, stop) ← body s t; if stop : bool then Some s else fill body l s
  end.

(** ** Least weights *)

Definition default_input : Input := MkInput (MkPointer hash_default 0).
Definition default_output : ValueTransferOutput := MkOutput (replicate 20 0) 0 0.
Definition default_stake_output : StakeOutput :=
  Build_StakeOutput signature_default (MkKey (replicate 20 0) (replicate 20 0)) 0.
Definition default_request : DataRequestOutput :=
  {| data_request := {| rad_time_lock := 0; retrieve := []; aggregate := Build_RADAggregate [] 0; rad_tally := Build_RADTally [] 0 |};
     witness_reward := 0; witnesses := 1; commit_and_reveal_fee := 0; min_consensus_percentage := 0; dro_collateral := 0 |}.
Definition min_vt_weight : Z := vt_weight (MkVT [default_input] [default_output] []).
Definition min_dr_weight : Z := dr_tx_weight (MkDR [default_input] [] default_request []).
Definition min_st_weight : Z := stake_weight (Build_StakeTransaction [default_input] default_stake_output None []).
Definition min_ut_weight : Z := unstake_weight (Build_UnstakeTransaction (replicate 20 0) default_output 0 0 signature_default).

Section mining.
Context `{UtxoDb D, FloatOrd}.
Context (pinfo : ProtocolInfo) (env : Environment) (calculate_sha256 : list Z → Hash).
Context (tx_hash : option ProtocolVersion → Transaction → Hash) (hash_concat : Hash → Hash → Hash) (empty_hash : Hash).
Context (run_tally : list RevealTransaction → RADTally → f64 → nat → ActiveWips → bool → option (option TallyMetaData * option (list Z))).
Context (unknown_report : bool → nat → option TallyMetaData * option (list Z)).
Context (tally_bytes_on_encode_error : list Z) (visit : ∀ A : Type, list A → list A).

Abbreviation key_pkh := (Hashes.pkh calculate_sha256).
Abbreviation version_of e := (get_protocol_version pinfo (Some e)).
Abbreviation root := (txs_merkle_tree_root hash_concat empty_hash tx_hash).

(** The arguments of [build_block] that do not change. *)
Record MiningContext := MkMining {
  g_epoch : Z;
  g_constants : EpochConstants;
  g_consensus : ConsensusConstants;
  g_wips : ActiveWips;
  g_validators : nat;
  g_stakes : StakesTracker;
}.

(** ** Filling a block *)

(** What the loops share: the unspent outputs, the fees, the weight used and the transactions taken. *)
Record Filled (T : Type) := MkFilled { f_utxo : UtxoDiff D; f_fees : Z; f_weight : Z; f_txs : list T }.
Arguments MkFilled {T} _ _ _ _.
Arguments f_utxo {T} _.
Arguments f_fees {T} _.
Arguments f_weight {T} _.
Arguments f_txs {T} _.

(** A transaction that fits is taken: the outputs are updated and its fee and weight are added. *)
Definition take_tx {T} (g : MiningContext) (wrap : T → Transaction) (t : T) (inputs : list Input) (outputs : list ValueTransferOutput)
    (fee weight : Z) (s : Filled T) : option (Filled T) :=
  u ← update_utxo_diff pinfo (f_utxo s) inputs outputs (tx_hash None (wrap t)) (g_epoch g) (g_constants g)
        (cc_checkpoint_zero_timestamp (g_consensus g));
  Some (MkFilled u (sat_add U64 (f_fees s) fee) weight (f_txs s ++ [t])).

(** Whether the free space is less than the least weight. *)
Definition full {T} (limit least : Z) (s : Filled T) : bool := bool_decide (sat_sub limit least < f_weight s).

(** Value transfers. *)
Definition vt_body (g : MiningContext) (s : Filled VTTransaction) (t : VTTransaction) : option (Filled VTTransaction * bool) :=
  let limit := max_vt_weight (g_consensus g) in
  match vt_transaction_fee t (f_utxo s) (g_epoch g) (g_constants g) with
  | Panic => None
  | Err _ => Some (s, false)
  | Ok fee =>
    let weight := sat_add U32 (f_weight s) (vt_weight t) in
    s ← (if decide (weight ≤ limit) then take_tx g ValueTransfer t (vt_inputs t) (vt_outputs t) fee weight s else Some s);
    Some (s, full limit min_vt_weight s)
  end.

(** The fee that the miner gets for a tally: the remainder of the slashed collateral. *)
Definition tally_fee (g : MiningContext) (t : TallyTransaction) (st : DataRequestState) : option Z :=
  let commits_count := Z.of_nat (size (commits (info st))) in
  let reveals_count := Z.of_nat (size (reveals (info st))) in
  let '(liars_count, errors_count) := calculate_liars_and_errors_count_from_tally t in
  let collateral := if decide (dro_collateral (request st) = 0) then Consensus.collateral_minimum (g_consensus g) else dro_collateral (request st) in
  if after_second_hard_fork (g_epoch g) env then
    Some (calculate_witness_reward commits_count liars_count errors_count (witness_reward (request st)) collateral (wip0023 (g_wips g))).2
  else snd <$> calculate_witness_reward_before_second_hard_fork commits_count reveals_count liars_count errors_count
                 (witness_reward (request st)) collateral.
(** Tallies of requests that the pool knows. *)
Definition add_tallies (g : MiningContext) (dr_pool : DataRequestPool) (l : list TallyTransaction) (fees : Z) : option (list TallyTransaction * Z) :=
  foldl (λ acc t, '(txs, fees) ← acc;
                  match data_request_pool dr_pool !! t_dr_pointer t with
                  | Some st => fee ← tally_fee g t st; Some (txs ++ [t], wadd U64 fees fee)
                  | None => Some (txs, fees)
                  end) (Some ([], fees)) l.

(** The weight of the requests without commits in this block. *)
Definition unsolved_weight (g : MiningContext) (dr_pool : DataRequestPool) (solved : list Hash) : Z :=
  foldl (λ acc dr, match get_dr_output dr_pool dr with
                   | Some dro => sat_add U32 (sat_add U32 acc (dr_weight dro)) (extra_weight dro)
                   | None => acc
                   end) 0
    (visit _ (elements (list_to_set (C:=gset Hash) (get_dr_output_pointers_by_epoch dr_pool (g_epoch g)) ∖ list_to_set solved))).

(** A request with too many witnesses is added to the pool in the stage of the tally, and its tally, an error, is created at once;
    [false] is an error that skips the request. *)
Definition unsolvable_tally (g : MiningContext) (t : DRTransaction) (dr_pool : DataRequestPool)
    : option (DataRequestPool * option TallyTransaction * bool) :=
  if data_request_has_too_many_witnesses (d_output t) (g_validators g) (version_of (g_epoch g)) then
    match pool_process_data_request pinfo calculate_sha256 tx_hash dr_pool t (g_epoch g) None with
    | Crash => None
    | Fail dr_pool _ => Some (dr_pool, None, false)
    | Ret dr_pool _ =>
      let hash := tx_hash None (DataRequest t) in
      match data_request_pool dr_pool !! hash with
      | None => Some (dr_pool, None, false)
      | Some st =>
        st ← update_stage st 0 true;
        '(metadata, encoded) ← run_tally [] (Build_RADTally [] 0) (f64_of 0) 0 (g_wips g) true;
        signature ← head (d_signatures t);
        tally ← create_tally hash (d_output t) (key_pkh (public_key signature)) metadata encoded [] ∅
                  (Consensus.collateral_minimum (g_consensus g)) tally_bytes_on_encode_error (g_wips g) (version_of (g_epoch g));
        Some (with_requests dr_pool (<[hash := st]> (data_request_pool dr_pool)), Some tally, true)
      end
    end
  else Some (dr_pool, None, true).

(** Data requests, with the pool of requests and the tallies. *)
Definition dr_body (g : MiningContext) (s : Filled DRTransaction * DataRequestPool * list TallyTransaction) (t : DRTransaction)
    : option (Filled DRTransaction * DataRequestPool * list TallyTransaction * bool) :=
  let '(s, dr_pool, tallies) := s in
  let limit := max_dr_weight (g_consensus g) in
  match dr_transaction_fee t (f_utxo s) (g_epoch g) (g_constants g) with
  | Panic => None
  | Err _ => Some (s, dr_pool, tallies, false)
  | Ok fee =>
    let weight := sat_add U32 (f_weight s) (dr_tx_weight t) in
    if decide (weight ≤ limit) then
      taken ← take_tx g DataRequest t (d_inputs t) (d_outputs t) fee weight s;
      '(dr_pool, tally, ok) ← unsolvable_tally g t dr_pool;
      if ok : bool then
        Some (taken, dr_pool, tallies ++ option_list tally, full limit min_dr_weight taken)
      else Some (MkFilled (f_utxo taken) (f_fees s) (f_weight s) (f_txs s), dr_pool, tallies, false)
    else Some (s, dr_pool, tallies, full limit min_dr_weight s)
  end.

(** Whether a stake would pass the maximum. *)
Definition overstakes (g : MiningContext) (t : StakeTransaction) : option bool :=
  let key := so_key (s_output t) in
  let max_stake := get_validator_max_stake_nanowits pinfo (g_epoch g) in
  match staked_entry (g_stakes g) (validator key) (withdrawer key) with
  | Ok (Some entry) => Some (bool_decide (max_stake < wadd U64 (so_value (s_output t)) (coins (evalue entry))))
  | Ok None => Some (bool_decide (max_stake < so_value (s_output t)))
  | _ => None
  end.
(** Stakes, with those to remove from the pool and the validators seen. *)
Definition st_body (g : MiningContext) (s : Filled StakeTransaction * list Hash * gset PublicKeyHash) (t : StakeTransaction)
    : option (Filled StakeTransaction * list Hash * gset PublicKeyHash * bool) :=
  let '(s, overstaked, included) := s in
  let limit := get_maximum_stake_block_weight pinfo (g_epoch g) in
  let validator_pkh := key_pkh (public_key (authorization (s_output t))) in
  if decide (validator_pkh ∈ included) then Some (s, overstaked, included, false)
  else
    over ← overstakes g t;
    if over : bool then Some (s, overstaked ++ [tx_hash None (TxStake t)], included, false)
    else
      match st_transaction_fee t (f_utxo s) (g_epoch g) (g_constants g) with
      | Panic => None
      | Err _ => Some (s, overstaked, included, false)
      | Ok fee =>
        let weight := sat_add U32 (f_weight s) (stake_weight t) in
        s ← (if decide (weight ≤ limit) then take_tx g TxStake t (s_inputs t) (option_list (s_change t)) fee weight s else Some s);
        if full limit min_st_weight s then Some (s, overstaked, included, true)
        else Some (s, overstaked, {[ validator_pkh ]} ∪ included, false)
      end.

(** Whether an unstake is still possible: it leaves the minimum, and its nonce is the next one. *)
Definition unstake_possible (g : MiningContext) (t : UnstakeTransaction) : option bool :=
  let min_stake := get_validator_min_stake_nanowits pinfo (g_epoch g) in
  match staked_entry (g_stakes g) (u_operator t) (out_pkh (u_withdrawal t)) with
  | Ok (Some entry) =>
    if decide (wsub U64 (wsub U64 (coins (evalue entry)) (unstake_value t)) (u_fee t) < min_stake) then Some false
    else match query_nonce (g_stakes g) (MkKey (u_operator t) (out_pkh (u_withdrawal t))) with
         | Ok n => Some (bool_decide (u_nonce t = n))
         | Err _ => Some false
         | Panic => None
         end
  | Ok None => Some false
  | _ => None
  end.
Definition ut_body (g : MiningContext) (s : Filled UnstakeTransaction * list Hash * gset PublicKeyHash) (t : UnstakeTransaction)
    : option (Filled UnstakeTransaction * list Hash * gset PublicKeyHash * bool) :=
  let '(s, invalid, included) := s in
  let limit := get_maximum_unstake_block_weight pinfo (g_epoch g) in
  if decide (u_operator t ∈ included) then Some (s, invalid, included, false)
  else
    possible ← unstake_possible g t;
    if possible : bool then
      let weight := sat_add U32 (f_weight s) (unstake_weight t) in
      s ← (if decide (weight ≤ limit) then take_tx g TxUnstake t [] [u_withdrawal t] (u_fee t) weight s else Some s);
      if full limit min_ut_weight s then Some (s, invalid, included, true)
      else Some (s, invalid, {[ u_operator t ]} ∪ included, false)
    else Some (s, invalid ++ [tx_hash None (TxUnstake t)], included, false).

(** The mint transaction: since version 2.0 without outputs. *)
Definition mint_of (g : MiningContext) (own_pkh : PublicKeyHash) (external_address : option PublicKeyHash) (external_percentage fees : Z)
    : option MintTransaction :=
  if decide (version_of (g_epoch g) = V2_0) then Some (MkMint (g_epoch g) [])
  else
    reward ← block_reward (g_epoch g) (initial_block_reward (g_consensus g)) (halving_period (g_consensus g));
    Some (with_external_address (g_epoch g) (wadd U64 reward fees) own_pkh external_address external_percentage).

(** The roots of the header. *)
Definition roots_of (version : ProtocolVersion) (t : BlockTransactions) : option BlockMerkleRoots :=
  vt ← root ValueTransfer (value_transfer_txns t);
  dr ← root DataRequest (data_request_txns t);
  co ← root Commit (commit_txns t);
  re ← root Reveal (reveal_txns t);
  ta ← root Tally (tally_txns t);
  st ← (if decide (version = V1_7) then Some hash_default else root TxStake (stake_txns t));
  ut ← (if before_v2 version then Some hash_default else root TxUnstake (unstake_txns t));
  Some {| mint_hash := tx_hash None (Mint (mint t)); vt_hash_merkle_root := vt; dr_hash_merkle_root := dr;
          commit_hash_merkle_root := co; reveal_hash_merkle_root := re; tally_hash_merkle_root := ta;
          stake_hash_merkle_root := st; unstake_hash_merkle_root := ut |}.
(** ** Blocks *)

(** The stakes of the block, and the pool without those that would pass the maximum. *)
Definition fill_stakes (g : MiningContext) (p : TransactionsPool) (u : UtxoDiff D) (fees : Z)
    : option (Filled StakeTransaction * TransactionsPool) :=
  if version_lt V1_7 (version_of (g_epoch g)) then
    '(s, overstaked, _) ← fill (st_body g) (st_iter p) (MkFilled u fees 0 [], [], ∅);
    p ← remove_overstake_transactions (tx_hash None) p overstaked;
    Some (s, p)
  else Some (MkFilled u fees 0 [], clear_stake_transactions p).

(** The unstakes of the block, and the pool without those that are not possible. *)
Definition fill_unstakes (g : MiningContext) (p : TransactionsPool) (u : UtxoDiff D) (fees : Z)
    : option (Filled UnstakeTransaction * TransactionsPool) :=
  if version_lt V1_8 (version_of (g_epoch g)) then
    '(s, invalid, _) ← fill (ut_body g) (ut_iter p) (MkFilled u fees 0 [], [], ∅);
    Some (s, remove_invalid_unstake_transactions (tx_hash None) p invalid)
  else Some (MkFilled u fees 0 [], clear_unstake_transactions p).

(** The fees of the transactions of a block, the transactions but for the mint, and the pools that are left; the pool of requests
    holds those that were added for their tally. *)
Definition fill_block (g : MiningContext) (p : TransactionsPool) (utxo_set : UnspentOutputsPool D) (dr_pool : DataRequestPool)
    (tally_transactions : list TallyTransaction) (block_number : Z)
    : option (Z * (MintTransaction → BlockTransactions) * TransactionsPool * DataRequestPool) :=
  vt ← fill (vt_body g) (vt_iter p) (MkFilled (utxo_diff_new utxo_set block_number) 0 0 []);
  '(tallies, fees) ← add_tallies g dr_pool tally_transactions (f_fees vt);
  let '(p, (commits, commits_fees, solved)) := remove_commits visit p dr_pool in
  let fees := wadd U64 fees commits_fees in
  '(reveals, reveals_fees) ← TxPool.get_reveals visit p dr_pool;
  let fees := wadd U64 fees reveals_fees in
  '(dr, dr_pool, tallies) ←
    fill (dr_body g) (dr_iter p) (MkFilled (f_utxo vt) fees (unsolved_weight g dr_pool solved) [], dr_pool, tallies);
  '(st, p) ← fill_stakes g p (f_utxo dr) (f_fees dr);
  '(ut, p) ← fill_unstakes g p (f_utxo st) (f_fees st);
  Some (f_fees ut, λ mint, MkTxns mint (f_txs vt) (f_txs dr) commits reveals tallies (f_txs st) (f_txs ut), p, dr_pool).

(** [build_block]: the header and the transactions. *)
Definition build_block (g : MiningContext) (p : TransactionsPool) (utxo_set : UnspentOutputsPool D) (dr_pool : DataRequestPool)
    (hash_prev_block : Hash) (proof : list Z * PublicKey) (tally_transactions : list TallyTransaction) (own_pkh : PublicKeyHash)
    (block_number : Z) (bn256_public_key : option (list Z)) (external_address : option PublicKeyHash) (external_percentage : Z)
    (tapi_signals : Z) : option (BlockHeader * BlockTransactions * TransactionsPool * DataRequestPool) :=
  '(fees, txns, p, dr_pool) ← fill_block g p utxo_set dr_pool tally_transactions block_number;
  mint ← mint_of g own_pkh external_address external_percentage fees;
  roots ← roots_of (version_of (g_epoch g)) (txns mint);
  Some (Superblock.Build_BlockHeader tapi_signals (MkBeacon (g_epoch g) hash_prev_block) roots proof bn256_public_key, txns mint, p, dr_pool).

(** ** Tallies *)

(** [create_tally_transactions]: the tally of each request in the stage of the tally.  The script runs in the [RadManager], which
    survives a panic; the tally is then that of an unknown error, whose report depends on the second hard fork. *)
Definition create_tally_transactions (g : MiningContext) (dr_pool : DataRequestPool) : option (list TallyTransaction) :=
  let wit2 := get_protocol_version_activation_epoch pinfo V2_0 in
  mapM (λ '(dr_pointer, reveals),
          st ← data_request_pool dr_pool !! dr_pointer;
          let committers := dom (commits (info st)) in
          let version := version_of (DataRequest.epoch st) in
          let too_many := data_request_has_too_many_witnesses (request st) (g_validators g) version in
          let '(metadata, encoded) :=
            default (unknown_report (after_second_hard_fork (g_epoch g) env) (length reveals))
              (run_tally reveals (rad_tally (data_request (request st))) (f64_div (f64_of (min_consensus_percentage (request st))) (f64_of 100))
                 (size committers) (g_wips g) too_many) in
          create_tally dr_pointer (request st) (requester st) metadata encoded (r_pkh <$> reveals) committers
            (Consensus.collateral_minimum (g_consensus g)) tally_bytes_on_encode_error (g_wips g) version)
    (visit _ (map_to_list (get_all_reveals calculate_sha256 dr_pool (g_wips g) (Some (g_validators g)) (version_of (g_epoch g)) wit2))).
End mining.
Arguments MkFilled {D T} _ _ _ _.
Arguments f_utxo {D T} _.
Arguments f_fees {D T} _.
Arguments f_weight {D T} _.
Arguments f_txs {D T} _.
