(* ===== verification/MiningCorrect.v ===== *)
(** * Mined blocks

    What the construction of a block promises to its validation: the value transfers are accepted in the order of the block with the
    fees that the miner counted, the tallies are the expected ones, stakes and unstakes keep their limits, and the roots and the
    mint are those that the validation computes. *)

From stdpp Require Import base tactics numbers list gmap sorting.
From Stdlib Require Import ZArith Lia.
From S2P Require Import Prelude Stake Stakes Trs Ars Hashes Superblock Versioning Tapi Merkle Rad Float Storage UtxoDb Utxo.
From S2P Require Import RepEngine Eligibility Epoch RadScript Transaction DataRequest TxFactory Consensus Validation BlockValidation TxPool.
From S2P Require Import TxFactoryCorrect ValidationCorrect BlockRequests Mining.
Local Open Scope Z_scope.
Local Open Scope rust_scope.

(** ** Loops with an early exit *)

(** [I] holds while the loop goes on, [J] when it ends. *)
Lemma fill_invariant {S T} (body : S → T → option (S * bool)) (I J : S → Prop) (l : list T) :
  (∀ s, I s → J s) →
  (∀ s t s' stop, t ∈ l → I s → body s t = Some (s', stop) → if stop : bool then J s' else I s') →
  ∀ s s', I s → fill body l s = Some s' → J s'.
Proof.
  intros HIJ. induction l as [|t l IH]; intros Hstep s s' Hs Hf; cbn [fill] in Hf; [injection Hf as <-; by apply HIJ|].
  destruct (body s t) as [[s1 stop]|] eqn:Hb; cbn [mbind option_bind] in Hf; [|done].
  apply Hstep in Hb; [|by left|done]. destruct stop; [by injection Hf as <-|].
  apply (IH (λ s t s' stop Ht, Hstep s t s' stop (list_elem_of_further _ _ _ Ht)) s1 s' Hb Hf).
Qed.
(** An invariant that the exit keeps too. *)
Lemma fill_preserves {S T} (body : S → T → option (S * bool)) (I : S → Prop) (l : list T) :
  (∀ s t s' stop, t ∈ l → I s → body s t = Some (s', stop) → I s') → ∀ s s', I s → fill body l s = Some s' → I s'.
Proof.
  intros Hstep. apply (fill_invariant body I I l (λ s Hs, Hs)). intros s t s' stop Ht Hs Hb. destruct stop; by eapply Hstep.
Qed.

Lemma each_snoc {S A} (body : S → A → result Failure S) l x s :
  each body (l ++ [x]) s = (let? s := each body l s in body s x).
Proof.
  revert s. induction l as [|y l IH]; intros s; cbn [each app rbind].
  - by destruct (body s x).
  - destruct (body s y); cbn [rbind]; [apply IH|done..].
Qed.

(** The changes of a transaction do not touch the pool below the diff. *)
Lemma removal_keeps_set `{UtxoDb D} (inputs : list Input) : ∀ (u : UtxoDiff D) first who n u' who' n',
  BlockValidation.remove_inputs u inputs first who n = Some (u', who', n') → utxo_set u' = utxo_set u.
Proof.
  assert (∀ (u : UtxoDiff D) k, utxo_set (remove_utxo u k) = utxo_set u) as Hr.
  { intros u k. unfold remove_utxo. by destruct (_ !! _). }
  induction inputs as [|i inputs IH]; intros u first who n u' who' n' Hk; cbn [BlockValidation.remove_inputs] in Hk; [by injection Hk as <- _ _|].
  destruct (negb first && _); [apply IH in Hk; by rewrite Hk|]. destruct (utxo_diff_get _ _); [|done]. cbn [mbind option_bind] in Hk.
  destruct (negb first && _); [apply IH in Hk; by rewrite Hk|]. destruct (utxo_diff_included_in_block_number _ _); [|done].
  cbn [mbind option_bind] in Hk. apply IH in Hk. by rewrite Hk.
Qed.
Lemma update_keeps_set `{UtxoDb D} pinfo (u u' : UtxoDiff D) ins outs h e c z :
  update_utxo_diff pinfo u ins outs h e c z = Some u' → utxo_set u' = utxo_set u.
Proof.
  unfold update_utxo_diff. destruct (BlockValidation.remove_inputs u ins true None 0) as [[[u1 who] n]|] eqn:Hr; [|done]. cbn [mbind option_bind].
  apply removal_keeps_set in Hr. rewrite <-Hr. generalize 0. clear Hr. revert u1.
  induction outs as [|o outs IH]; intros u1 i Hk; cbn [insert_outputs] in Hk; [by injection Hk as <-|].
  case_decide; [done|]. destruct (output_to_insert _ _ _ _ _); [|done]. cbn [mbind option_bind] in Hk. by apply IH in Hk.
Qed.

Section mined.
Context `{UtxoDb D, FloatOrd}.
Context (pinfo : ProtocolInfo) (env : Environment) (calculate_sha256 : list Z → Hash).
Context (tx_hash : option ProtocolVersion → Transaction → Hash) (hash_concat : Hash → Hash → Hash) (empty_hash : Hash).
Context (verify : PublicKey → list Z → list Z → bool) (parse_public_key : PublicKey → bool) (parse_signature : list Z → bool).
Context (run_tally : list RevealTransaction → RADTally → f64 → nat → ActiveWips → bool → option (option TallyMetaData * option (list Z))).
Context (unknown_report : bool → nat → option TallyMetaData * option (list Z)).
Context (tally_bytes_on_encode_error : list Z) (visit : ∀ A : Type, list A → list A).

Abbreviation key_pkh := (Hashes.pkh calculate_sha256).
Abbreviation version_of e := (get_protocol_version pinfo (Some e)).

(** The context of the validation of the block that is mined. *)
Definition validation_context (g : MiningContext) (block_number : Z) : BlockContext :=
  MkContext (g_epoch g) (version_of (g_epoch g)) false (g_constants g) (g_consensus g) (g_wips g) (g_stakes g) block_number.

(** ** Value transfers *)

Section transfers.
Context (g : MiningContext) (pool : list VTTransaction) (u0 : UtxoDiff D).
Abbreviation fee_of t u := (vt_transaction_fee t u (g_epoch g) (g_constants g)).

(** The unspent outputs while the block is filled. *)
Inductive filling : UtxoDiff D → Prop :=
  | filling_start : filling u0
  | filling_next u t u' :
      filling u → t ∈ pool →
      update_utxo_diff pinfo u (vt_inputs t) (vt_outputs t) (tx_hash None (ValueTransfer t)) (g_epoch g) (g_constants g)
        (cc_checkpoint_zero_timestamp (g_consensus g)) = Some u' →
      filling u'.

(** What the admission to the pool checked: inputs, no empty output, and signatures of the owners of the outputs that are spent. *)
Record admitted (t : VTTransaction) : Prop := {
  ad_inputs : vt_inputs t ≠ [];
  ad_outputs : first_zero (vt_outputs t) = None;
  ad_signed u fee sv : filling u → fee_of t u = Ok fee →
    ∃ sv', validate_transaction_signature calculate_sha256 parse_public_key parse_signature (vt_signatures t) (vt_inputs t)
             (tx_hash (Some version_default) (ValueTransfer t)) u sv = Ok sv';
}.

Context (Hpool : Forall admitted pool).
Context (Hhash : ∀ t, t ∈ pool → tx_hash (Some (version_of (g_epoch g))) (ValueTransfer t) = tx_hash None (ValueTransfer t)).

Abbreviation step n m := (vt_step pinfo calculate_sha256 tx_hash parse_public_key parse_signature (validation_context g n) m).

(** The validation of what was taken so far. *)
Definition replayed (n m : Z) (sv : list SignaturesToVerify) (s : Filled VTTransaction) : Prop :=
  f_fees s < U64 - 1 →
  ∃ r, each (step n m) (f_txs s) (MkProgress u0 0 sv [], m, 0) = Ok (r, m, f_weight s)
    ∧ p_utxo r = f_utxo s ∧ p_fee r = f_fees s.
Record fill_ok (n m : Z) (sv : list SignaturesToVerify) (s : Filled VTTransaction) : Prop := {
  fo_utxo : filling (f_utxo s);
  fo_fees : 0 ≤ f_fees s;
  fo_weight : 0 ≤ f_weight s ≤ Z.max 0 (max_vt_weight (g_consensus g));
  fo_replay : replayed n m sv s;
}.

Lemma fee_nonneg t u fee : fee_of t u = Ok fee → 0 ≤ fee.
Proof. unfold vt_transaction_fee. intros Hk. do 3 step_ok Hk. injection Hk as <-. lia. Qed.

Lemma vt_weight_fits t : fits U32 (vt_weight t).
Proof.
  unfold vt_weight, fits, sat_add, sat_mul, len_u32, INPUT_SIZE, OUTPUT_SIZE, GAMMA, U32. split; [|lia].
  apply Z.min_glb; [lia|]. assert (∀ k, 0 ≤ k → 0 ≤ Z.min (2 ^ 32 - 1) k) by (intros; lia). lia.
Qed.

(** The validation of one more transfer does what the miner did. *)
Lemma step_taken n m r t fee sv' weight u' :
  t ∈ pool → fee_of t (p_utxo r) = Ok fee → 0 ≤ fee →
  validate_transaction_signature calculate_sha256 parse_public_key parse_signature (vt_signatures t) (vt_inputs t)
    (tx_hash (Some version_default) (ValueTransfer t)) (p_utxo r) (p_sigs r) = Ok sv' →
  0 ≤ weight → sat_add U32 weight (vt_weight t) ≤ max_vt_weight (g_consensus g) → p_fee r + fee < U64 → 0 ≤ p_fee r →
  update_utxo_diff pinfo (p_utxo r) (vt_inputs t) (vt_outputs t) (tx_hash None (ValueTransfer t)) (g_epoch g) (g_constants g)
    (cc_checkpoint_zero_timestamp (g_consensus g)) = Some u' →
  ∃ r', step n m (r, m, weight) t = Ok (r', m, sat_add U32 weight (vt_weight t)) ∧ p_utxo r' = u' ∧ p_fee r' = p_fee r + fee.
Proof.
  intros Ht Hfee Hf0 Hsig Hw Hlimit Hfit Hr0 Hu. pose proof (vt_weight_fits t) as Hwt.
  destruct (proj1 (Forall_forall _ _) Hpool t Ht) as [Hin Hout _]. unfold vt_step. cbn [validation_context b_genesis b_consensus b_epoch b_constants b_version].
  unfold validate_vt_transaction. rewrite decide_False by (unfold sat_add, fits in *; lia). cbn [default]. rewrite Hsig. cbn [rbind].
  rewrite decide_False by done. unfold no_zero_outputs. rewrite Hout. cbn [rbind]. rewrite Hfee. cbn [rbind].
  rewrite decide_False by lia. unfold advance. cbn [validation_context b_version b_epoch b_constants b_consensus].
  rewrite Hhash by done. rewrite Hu. cbn [unwrap rbind]. eexists. split; [done|]. split; [done|]. cbn [p_fee]. apply wadd_small. lia.
Qed.

Lemma body_keeps n m sv s t s' stop :
  t ∈ pool → fill_ok n m sv s → vt_body pinfo tx_hash g s t = Some (s', stop) → fill_ok n m sv s'.
Proof.
  intros Ht Hok Hb. unfold vt_body in Hb. destruct (fee_of t (f_utxo s)) as [fee|e|] eqn:Hfee; [|by injection Hb as <- _|done].
  case_decide as Hw; [|by injection Hb as <- _]. unfold take_tx in Hb.
  destruct (update_utxo_diff _ _ _ _ _ _ _ _) as [u|] eqn:Hu; [|done]. injection Hb as <- _. destruct Hok as [Hfu Hff Hfw Hfr].
  pose proof (fee_nonneg _ _ _ Hfee). pose proof (vt_weight_fits t) as Hwt. unfold fits, sat_add, U32, U64 in Hwt, Hw |- *.
  split; cbn [f_utxo f_fees f_weight f_txs]; [by eapply filling_next|lia|lia|].
  intros Hmax. cbn [f_fees f_txs f_weight f_utxo] in *. unfold U64 in Hmax. destruct Hfr as (r & Hr & Hru & Hrf); [unfold U64; lia|]. rewrite each_snoc, Hr. cbn [rbind].
  destruct (ad_signed _ (proj1 (Forall_forall _ _) Hpool t Ht) (f_utxo s) fee (p_sigs r) Hfu Hfee) as [sv' Hsig]. rewrite <-Hru in *.
  destruct (step_taken n m r t fee sv' (f_weight s) u Ht Hfee) as (r' & Hstep & Hu' & Hf'); try done; [unfold U64; lia..|].
  exists r'. rewrite Hstep, Hf'. split_and!; [done..|]. unfold U64 in *. lia.
Qed.
End transfers.

(** C6. The value transfers that the miner takes from the pool are accepted by the validation in the order of the block, with the
    outputs, the weight and the fees of the miner; they are within the weight limit of the block. *)
Theorem mined_transfers_accepted g (p : TransactionsPool) (utxo_set : UnspentOutputsPool D) n m sv s :
  let u0 := utxo_diff_new utxo_set n in
  Forall (admitted g (vt_iter p) u0) (vt_iter p) →
  (∀ t, t ∈ vt_iter p → tx_hash (Some (version_of (g_epoch g))) (ValueTransfer t) = tx_hash None (ValueTransfer t)) →
  fill (vt_body pinfo tx_hash g) (vt_iter p) (MkFilled u0 0 0 []) = Some s →
  f_fees s < U64 - 1 →
  ∃ r, each (vt_step pinfo calculate_sha256 tx_hash parse_public_key parse_signature (validation_context g n) m) (f_txs s)
         (MkProgress u0 0 sv [], m, 0) = Ok (r, m, f_weight s)
    ∧ p_utxo r = f_utxo s ∧ p_fee r = f_fees s.
Proof.
  intros u0 Hpool Hhash Hfill Hmax.
  assert (fill_ok g (vt_iter p) u0 n m sv s) as [_ _ _ Hr]; [|by apply Hr].
  revert Hfill. apply fill_preserves; [intros ? ? ? ?; by apply body_keeps|].
  split; cbn [f_utxo f_fees f_weight]; [constructor|lia|lia|]. intros _. by eexists.
Qed.

(** ** Tallies *)

Abbreviation created g q := (create_tally_transactions pinfo env calculate_sha256 run_tally unknown_report tally_bytes_on_encode_error visit g q).
Abbreviation expected := (create_expected_tally_transaction calculate_sha256 (tally_panic_safe run_tally unknown_report) tally_bytes_on_encode_error).

(** When a tally panics, the miner and the validator agree on the report of the error: the second hard fork is the activation of the
    improvement proposals. *)
Definition fallback_agrees g : Prop :=
  ∀ reveals tally min commits many, run_tally reveals tally min commits (g_wips g) many = None →
    after_second_hard_fork (g_epoch g) env = wips_0009_0011_0012 (g_wips g).

(** The requests that the miner tallies: those in the stage of the tally, less the ones with too many witnesses. *)
Definition tallied g (st : DataRequestState) : Prop :=
  stage st = TALLY
  ∧ ¬ (get_protocol_version_activation_epoch pinfo V2_0 ≤ DataRequest.epoch st
       ∧ data_request_has_too_many_witnesses (request st) (g_validators g) (version_of (g_epoch g)) = true).

Lemma all_reveals_lookup g q h l :
  get_all_reveals calculate_sha256 q (g_wips g) (Some (g_validators g)) (version_of (g_epoch g))
    (get_protocol_version_activation_epoch pinfo V2_0) !! h = Some l
  ↔ ∃ st, data_request_pool q !! h = Some st ∧ tallied g st ∧ l = sorted_reveals calculate_sha256 (g_wips g) h st.
Proof.
  unfold get_all_reveals. rewrite map_lookup_imap, bind_Some. cbn [default id]. apply exist_proper. intros st.
  apply and_iff_compat_l. unfold tallied. case_decide as Hs; [|split; [done|by intros [[? _] _]]].
  destruct (bool_decide_reflect (get_protocol_version_activation_epoch pinfo V2_0 ≤ DataRequest.epoch st)) as [He|He];
    destruct (data_request_has_too_many_witnesses _ _ _) eqn:Hm; cbn [andb]; clear hash_concat parse_signature verify tx_hash run_tally; naive_solver.
Qed.

Lemma created_pointer dr_pointer dr who meta enc revealers committers cmin wips v t :
  create_tally dr_pointer dr who meta enc revealers committers cmin tally_bytes_on_encode_error wips v = Some t →
  t_dr_pointer t = dr_pointer.
Proof.
  unfold create_tally. destruct meta; [|done]. do 2 (destruct (negb _); [done|]). destruct (calculate_errors_and_liars_count _ _).
  repeat (match goal with |- context [match (if ?b then _ else _) with _ => _ end] => destruct (if b then _ else _) as [[? ?]|]; [|done] end).
  destruct (if before_v2 v then _ else _) as [[? ?] ?]. intros [= <-]. done.
Qed.

Lemma one_tally_expected g q h l t :
  fallback_agrees g →
  get_all_reveals calculate_sha256 q (g_wips g) (Some (g_validators g)) (version_of (g_epoch g))
    (get_protocol_version_activation_epoch pinfo V2_0) !! h = Some l →
  (st ← data_request_pool q !! h;
   let committers := dom (commits (info st)) in
   let version := version_of (DataRequest.epoch st) in
   let too_many := data_request_has_too_many_witnesses (request st) (g_validators g) version in
   let '(metadata, encoded) :=
     default (unknown_report (after_second_hard_fork (g_epoch g) env) (length l))
       (run_tally l (rad_tally (data_request (request st))) (f64_div (f64_of (min_consensus_percentage (request st))) (f64_of 100))
          (size committers) (g_wips g) too_many) in
   create_tally h (request st) (requester st) metadata encoded (r_pkh <$> l) committers
     (Consensus.collateral_minimum (g_consensus g)) tally_bytes_on_encode_error (g_wips g) version) = Some t →
  t_dr_pointer t = h
  ∧ ∃ st, data_request_pool q !! h = Some st
    ∧ expected t q (Consensus.collateral_minimum (g_consensus g)) (g_wips g)
        (data_request_has_too_many_witnesses (request st) (g_validators g) (version_of (DataRequest.epoch st)))
        (version_of (DataRequest.epoch st)) = Ok (t, st).
Proof.
  intros Hagree (st & Hst & [Hs _] & ->)%all_reveals_lookup Ht. rewrite Hst in Ht. cbn [mbind option_bind] in Ht.
  destruct (default _ (run_tally _ _ _ _ _ _)) as [metadata encoded] eqn:Hrun. pose proof (created_pointer _ _ _ _ _ _ _ _ _ _ _ Ht) as Hp.
  split; [done|]. exists st. split; [done|]. unfold create_expected_tally_transaction. rewrite Hp, Hst. cbn [ok_or rbind].
  rewrite decide_False by (intros Hn; by apply Hn). unfold DataRequest.get_reveals. rewrite Hst. cbn [fmap option_fmap option_map unwrap rbind].
  unfold tally_panic_safe.
  match type of Hrun with default _ ?r = _ => assert (default (unknown_report (wips_0009_0011_0012 (g_wips g))
    (length (sorted_reveals calculate_sha256 (g_wips g) h st))) r = (metadata, encoded)) as -> end.
  { rewrite <-Hrun. destruct (run_tally _ _ _ _ _ _) eqn:Hnone; [done|]. by rewrite (Hagree _ _ _ _ _ Hnone). }
  rewrite Ht. done.
Qed.

(** C7. The miner creates one tally for each request of the pool that it can tally, and each is the tally that the validation expects, the
    one of an unknown error when the script panics; there the gates of the two sides must agree. *)
Theorem created_tallies_expected g q l :
  (∀ A (x : list A), visit A x ≡ₚ x) → fallback_agrees g → created g q = Some l →
  NoDup (t_dr_pointer <$> l)
  ∧ (∀ h, h ∈ t_dr_pointer <$> l ↔ ∃ st, data_request_pool q !! h = Some st ∧ tallied g st)
  ∧ ∀ t, t ∈ l → ∃ st, data_request_pool q !! t_dr_pointer t = Some st
    ∧ expected t q (Consensus.collateral_minimum (g_consensus g)) (g_wips g)
        (data_request_has_too_many_witnesses (request st) (g_validators g) (version_of (DataRequest.epoch st)))
        (version_of (DataRequest.epoch st)) = Ok (t, st).
Proof.
  intros Hvisit Hagree Hl. unfold create_tally_transactions in Hl. apply mapM_Some in Hl.
  set (m := get_all_reveals _ _ _ _ _ _) in Hl. pose proof (Hvisit _ (map_to_list m)) as Hperm.
  assert (Forall2 (λ hl t, t_dr_pointer t = hl.1 ∧ ∃ st, data_request_pool q !! hl.1 = Some st
    ∧ expected t q (Consensus.collateral_minimum (g_consensus g)) (g_wips g)
        (data_request_has_too_many_witnesses (request st) (g_validators g) (version_of (DataRequest.epoch st)))
        (version_of (DataRequest.epoch st)) = Ok (t, st)) (visit _ (map_to_list m)) l) as Hall.
  { apply Forall2_same_length_lookup. split; [by eapply Forall2_length|]. intros i [h x] t Hh Hi.
    pose proof (Forall2_lookup_lr _ _ _ _ _ _ Hl Hh Hi) as Ht. eapply one_tally_expected; [done| |exact Ht].
    fold m. apply elem_of_map_to_list. rewrite <-Hperm. by eapply list_elem_of_lookup_2. }
  assert (t_dr_pointer <$> l = (visit _ (map_to_list m)).*1) as Hptr.
  { clear -Hall. induction Hall as [|hl t hs l [Ht _] _ IH]; [done|]. rewrite !fmap_cons, IH. by f_equal. }
  rewrite Hptr. split; [rewrite Hperm; apply NoDup_fst_map_to_list|]. split.
  - intros h. rewrite Hperm. rewrite list_elem_of_fmap. split.
    + intros ([? x] & -> & Hx%elem_of_map_to_list). apply all_reveals_lookup in Hx as (st & ? & ? & _). by exists st.
    + intros (st & Hst & Ht). exists (h, sorted_reveals calculate_sha256 (g_wips g) h st). split; [done|].
      apply elem_of_map_to_list, all_reveals_lookup. by exists st.
  - intros t Ht. apply list_elem_of_lookup in Ht as [i Hi]. destruct (Forall2_lookup_r _ _ _ _ _ Hall Hi) as ([h x] & _ & Hp & Hst).
    cbn [fst] in *. by rewrite Hp.
Qed.

(** ** The mint and the roots *)

Lemma wadd_comm m a b : wadd m a b = wadd m b a.
Proof. unfold wadd. by rewrite Z.add_comm. Qed.

(** Outputs without the empty ones. *)
Lemma nonempty_outputs_sum o1 o2 (os := (if decide (out_value o1 > 0) then [o1] else []) ++ (if decide (out_value o2 > 0) then [o2] else [])) :
  0 ≤ out_value o1 → 0 ≤ out_value o2 → out_value o1 + out_value o2 < U64 →
  transaction_outputs_sum os = Ok (out_value o1 + out_value o2) ∧ (length os ≤ 2)%nat ∧ first_zero os = None.
Proof.
  intros H1 H2 H3. assert (zsum (out_value <$> os) = out_value o1 + out_value o2) as Hsum.
  { unfold os. repeat case_decide; cbn; lia. }
  assert (Forall (λ o, 0 < out_value o) os) as Hpos by (unfold os; repeat case_decide; repeat constructor; lia).
  split_and!.
  - apply outputs_sum_ok; [|lia]. eapply Forall_impl; [exact Hpos|]. intros o Ho. cbn in *. lia.
  - unfold os. repeat case_decide; cbn; lia.
  - apply first_zero_none. eapply Forall_impl; [exact Hpos|]. intros o Ho. cbn in *. lia.
Qed.

(** The outputs of the mint add up to the reward. *)
Lemma external_outputs_sum epoch reward own external percentage :
  fits U64 reward → 0 ≤ percentage ≤ 100 →
  let t := with_external_address epoch reward own external percentage in
  transaction_outputs_sum (m_outputs t) = Ok reward ∧ (length (m_outputs t) ≤ 2)%nat ∧ first_zero (m_outputs t) = None.
Proof.
  intros Hr Hp. unfold with_external_address. destruct external as [who|].
  - set (ext := sat_mul U64 reward percentage / 100).
    assert (0 ≤ ext ≤ reward) as He.
    { unfold ext, sat_mul, fits, U64 in *. split; [apply Z.div_pos; nia|]. apply Z.div_le_upper_bound; [lia|]. nia. }
    assert (wsub U64 reward ext = reward - ext) as -> by (unfold wsub, fits in *; rewrite Z.mod_small; lia).
    destruct (nonempty_outputs_sum (MkOutput own (reward - ext) 0) (MkOutput who ext 0)) as (Hs & Hl & Hz);
      cbn [out_value] in *; [unfold fits in *; lia..|]. split_and!; [|done..]. cbn [m_outputs]. rewrite Hs. f_equal. lia.
  - destruct (nonempty_outputs_sum (MkOutput own reward 0) (MkOutput (replicate 20 0) 0 0)) as (Hs & Hl & Hz);
      cbn [out_value] in *; [unfold fits in *; lia..|]. split_and!; [|done..]. cbn [m_outputs]. rewrite Hs. f_equal. lia.
Qed.

Lemma mint_accepted g own external percentage fees t :
  0 ≤ percentage ≤ 100 → mint_of pinfo g own external percentage fees = Some t →
  validate_mint_transaction pinfo tx_hash t fees (g_epoch g) (initial_block_reward (g_consensus g)) (halving_period (g_consensus g)) = Ok tt.
Proof.
  intros Hp Ht. unfold mint_of in Ht. unfold validate_mint_transaction. case_decide as Hv.
  - injection Ht as <-. cbn [m_epoch m_outputs]. rewrite decide_False by (intros Hn; by apply Hn).
    by rewrite decide_False by (intros Hn; by apply Hn).
  - destruct (block_reward _ _ _) as [reward|] eqn:Hrw; [|done]. cbn [mbind option_bind] in Ht. injection Ht as <-.
    assert (fits U64 (wadd U64 reward fees)) as Hf by (apply wadd_fits; unfold U64; lia).
    destruct (external_outputs_sum (g_epoch g) _ own external percentage Hf Hp) as (Hs & Hl & Hz).
    set (t := with_external_address _ _ _ _ _) in *.
    assert (m_epoch t = g_epoch g) as Hep by (unfold t, with_external_address; by destruct external).
    rewrite Hep, decide_False by (intros Hn; by apply Hn). rewrite (decide_True (P := _ ≠ V2_0)) by done. rewrite Hs. cbn [tx_err map_err rbind].
    rewrite Hrw. cbn [unwrap rbind]. rewrite wadd_comm, decide_False by (intros Hn; by apply Hn). rewrite decide_False by lia.
    unfold no_zero_outputs. by rewrite Hz.
Qed.

(** The roots of the miner are those of the validation. *)
Lemma mined_roots v txns :
  (∀ t, tx_hash None t = tx_hash (Some v) t) →
  Mining.roots_of tx_hash hash_concat empty_hash v txns = Some (block_roots tx_hash hash_concat empty_hash v txns).
Proof.
  intros Hhash. rewrite <-roots_agree. unfold Mining.roots_of, from_transactions, txs_merkle_tree_root, hash_merkle_tree_root.
  assert (∀ {A} (wrap : A → Transaction) (l : list A), (λ t, tx_hash None (wrap t)) <$> l = (λ t, tx_hash (Some v) (wrap t)) <$> l) as Hl.
  { intros A wrap l. apply list_fmap_ext. intros i x _. apply Hhash. }
  rewrite !Hl, Hhash. by destruct v.
Qed.

(** ** Stakes and unstakes *)

(** The weight that the validation computes for the transactions of a block. *)
Definition block_weight {T} (weight : T → Z) (l : list T) : Z := foldl (λ acc t, sat_add U32 acc (weight t)) 0 l.

(** What was taken: one transaction per validator, within the limit. *)
Record one_each {T} (who : T → PublicKeyHash) (weight : T → Z) (limit : Z) (s : Filled (D:=D) T) : Prop := {
  oe_distinct : NoDup (who <$> f_txs s);
  oe_weight : f_weight s = block_weight weight (f_txs s);
  oe_limit : f_weight s ≤ limit;
}.

Lemma one_each_start {T} (who : T → PublicKeyHash) weight limit u fees :
  0 ≤ limit → one_each who weight limit (MkFilled u fees 0 [] : Filled (D:=D) T).
Proof. split; [apply NoDup_nil_2|done|done]. Qed.

Lemma one_each_taken {T} (who : T → PublicKeyHash) weight limit g wrap (t : T) ins outs fee (s s' : Filled (D:=D) T) :
  one_each who weight limit s → who t ∉ who <$> f_txs s → sat_add U32 (f_weight s) (weight t) ≤ limit →
  take_tx pinfo tx_hash g wrap t ins outs fee (sat_add U32 (f_weight s) (weight t)) s = Some s' →
  one_each who weight limit s' ∧ f_txs s' = f_txs s ++ [t].
Proof.
  intros [Hd Hw Hl] Ht Hlim. unfold take_tx. destruct (update_utxo_diff _ _ _ _ _ _ _ _); [|done]. intros [= <-].
  split; [|done]. split; cbn [f_txs f_weight].
  - rewrite fmap_app. apply NoDup_app. split; [done|]. split; [|apply NoDup_singleton].
    intros x Hx ->%list_elem_of_singleton. done.
  - unfold block_weight in *. rewrite foldl_app. cbn [foldl]. by rewrite <-Hw.
  - done.
Qed.

(** The loops of both kinds: [included] lists the validators of what was taken, except at the exit. *)
Definition each_included {T} (who : T → PublicKeyHash) (weight : T → Z) (limit : Z)
    (s : Filled (D:=D) T * list Hash * gset PublicKeyHash) : Prop :=
  one_each who weight limit s.1.1 ∧ Forall (λ t, who t ∈ s.2) (f_txs s.1.1).

Lemma included_step {T} (who : T → PublicKeyHash) weight limit g wrap (t : T) ins outs fee s gone included s' :
  each_included who weight limit (s, gone, included) → who t ∉ included →
  (if decide (sat_add U32 (f_weight s) (weight t) ≤ limit)
   then take_tx pinfo tx_hash g wrap t ins outs fee (sat_add U32 (f_weight s) (weight t)) s else Some s) = Some s' →
  one_each who weight limit s' ∧ each_included who weight limit (s', gone, {[ who t ]} ∪ included).
Proof.
  intros [Hone Hinc] Ht Hs. cbn [fst snd] in *.
  assert (who t ∉ who <$> f_txs s) as Hnew.
  { intros (t' & Heq & Ht')%list_elem_of_fmap. rewrite Forall_forall in Hinc. apply Ht. rewrite Heq. by apply Hinc. }
  assert (Forall (λ x, who x ∈ {[ who t ]} ∪ included) (f_txs s)) as Hinc'.
  { eapply Forall_impl; [exact Hinc|]. intros x Hx. cbn in *. set_solver. }
  case_decide as Hlim.
  - destruct (one_each_taken _ _ _ _ _ _ _ _ _ _ _ Hone Hnew Hlim Hs) as [Hone' Htx]. split; [done|]. split; [done|]. cbn [fst snd].
    rewrite Htx. apply Forall_app. split; [done|]. constructor; [set_solver|done].
  - injection Hs as <-. split; [done|]. by split.
Qed.

Abbreviation staker := (λ t, key_pkh (public_key (authorization (s_output t)))).

Lemma stakes_one_each g p (u : UtxoDiff D) fees s p' :
  fill_stakes pinfo calculate_sha256 tx_hash g p u fees = Some (s, p') →
  one_each staker stake_weight (get_maximum_stake_block_weight pinfo (g_epoch g)) s
  ∧ (version_of (g_epoch g) = V1_7 → f_txs s = []).
Proof.
  assert (0 ≤ get_maximum_stake_block_weight pinfo (g_epoch g)) as Hlim by (unfold get_maximum_stake_block_weight; by destruct (version_lt _ _)).
  unfold fill_stakes. destruct (version_lt V1_7 _) eqn:Hv; [|intros [= <- _]; split; [by apply one_each_start|done]].
  destruct (fill _ _ _) as [[[s1 over] inc]|] eqn:Hf; [|done]. cbn [mbind option_bind].
  destruct (remove_overstake_transactions _ _ _) as [p1|]; [|done]. intros [= <- _]. split; [|intros Heq; by rewrite Heq in Hv].
  refine (fill_invariant _ (each_included staker stake_weight (get_maximum_stake_block_weight pinfo (g_epoch g)))
    (λ s, one_each staker stake_weight (get_maximum_stake_block_weight pinfo (g_epoch g)) s.1.1) (st_iter p) _ _ _ _ _ Hf);
    [by intros ? [? _]| |split; [by apply one_each_start|by constructor]].
  intros [[s0 o0] i0] t [[s2 o2] i2] stop _ Hin Hb. unfold st_body in Hb. case_decide as Hi; [by injection Hb as <- <- <- <-|].
  destruct (overstakes pinfo g t) as [[]|]; cbn [mbind option_bind] in Hb; [by injection Hb as <- <- <- <-| |done].
  destruct (st_transaction_fee _ _ _ _) as [fee|e|]; [|by injection Hb as <- <- <- <-|done].
  destruct (if decide _ then _ else _) as [s3|] eqn:Hs3; cbn [mbind option_bind] in Hb; [|done].
  destruct (included_step staker _ _ _ _ _ _ _ _ _ _ _ _ Hin Hi Hs3) as [Hone Hnext].
  destruct (full _ _ _); injection Hb as <- <- <- <-; done.
Qed.

Lemma unstakes_one_each g p (u : UtxoDiff D) fees s p' :
  fill_unstakes pinfo tx_hash g p u fees = Some (s, p') →
  one_each u_operator unstake_weight (get_maximum_unstake_block_weight pinfo (g_epoch g)) s
  ∧ (version_of (g_epoch g) ≠ V2_0 → f_txs s = []).
Proof.
  assert (0 ≤ get_maximum_unstake_block_weight pinfo (g_epoch g)) as Hlim by (unfold get_maximum_unstake_block_weight; by destruct (before_v2 _)).
  unfold fill_unstakes. destruct (version_lt V1_8 _) eqn:Hv; [|intros [= <- _]; split; [by apply one_each_start|done]].
  destruct (fill _ _ _) as [[[s1 over] inc]|] eqn:Hf; [|done]. cbn [mbind option_bind]. intros [= <- _].
  split; [|intros Hne; by destruct (version_of (g_epoch g))].
  refine (fill_invariant _ (each_included u_operator unstake_weight (get_maximum_unstake_block_weight pinfo (g_epoch g)))
    (λ s, one_each u_operator unstake_weight (get_maximum_unstake_block_weight pinfo (g_epoch g)) s.1.1) (ut_iter p) _ _ _ _ _ Hf);
    [by intros ? [? _]| |split; [by apply one_each_start|by constructor]].
  intros [[s0 o0] i0] t [[s2 o2] i2] stop _ Hin Hb. unfold ut_body in Hb. case_decide as Hi; [by injection Hb as <- <- <- <-|].
  destruct (unstake_possible pinfo g t) as [[]|]; cbn [mbind option_bind] in Hb; [|by injection Hb as <- <- <- <-|done].
  destruct (if decide _ then _ else _) as [s3|] eqn:Hs3; cbn [mbind option_bind] in Hb; [|done].
  destruct (included_step u_operator _ _ _ _ _ _ _ _ _ _ _ _ Hin Hi Hs3) as [Hone Hnext].
  destruct (full _ _ _); injection Hb as <- <- <- <-; done.
Qed.

Lemma no_duplicate `{EqDecision A} (seen l : list A) : NoDup l → (∀ x, x ∈ l → x ∉ seen) → first_duplicate seen l = None.
Proof.
  revert seen. induction l as [|x l IH]; intros seen Hnd Hs; [done|]. apply NoDup_cons in Hnd as [Hx Hnd]. cbn [first_duplicate].
  rewrite decide_False by (apply Hs; by left). apply IH; [done|]. intros y Hy [->|Hin]%elem_of_cons; [done|].
  revert Hin. apply Hs. by right.
Qed.
Lemma no_duplicate_of `{EqDecision A} {T B} (f : T → A) (h : A → B) (l : list T) :
  NoDup ((λ t, h (f t)) <$> l) → first_duplicate [] (f <$> l) = None.
Proof.
  intros Hnd. apply no_duplicate; [|intros x _; apply not_elem_of_nil]. apply (NoDup_fmap_1 h). by rewrite <-list_fmap_compose.
Qed.

(** ** Blocks *)

Abbreviation built g := (build_block pinfo env calculate_sha256 tx_hash hash_concat empty_hash run_tally tally_bytes_on_encode_error visit g).
Abbreviation filled g := (fill_block pinfo env calculate_sha256 tx_hash run_tally tally_bytes_on_encode_error visit g).

(** C9. A built block passes the checks of the validation on its shape: the header carries the roots of the transactions and the epoch,
    the mint pays the reward and the fees that were counted, there are stakes and unstakes only in the versions that allow them, one per
    validator, within the weight limits. *)
Theorem built_block_shape g p (utxo_set : UnspentOutputsPool D) q prev proof tallies own n bn external percentage tapi hd t p' q'
    (v := version_of (g_epoch g)) :
  (∀ x, tx_hash None x = tx_hash (Some v) x) → 0 ≤ percentage ≤ 100 →
  built g p utxo_set q prev proof tallies own n bn external percentage tapi = Some (hd, t, p', q') →
  beacon hd = MkBeacon (g_epoch g) prev
  ∧ block_roots tx_hash hash_concat empty_hash v t = merkle_roots hd
  ∧ (v = V1_7 → stake_txns t = []) ∧ (v ≠ V2_0 → unstake_txns t = [])
  ∧ first_duplicate [] ((λ x, public_key (authorization (s_output x))) <$> stake_txns t) = None
  ∧ first_duplicate [] (u_operator <$> unstake_txns t) = None
  ∧ block_weight stake_weight (stake_txns t) ≤ get_maximum_stake_block_weight pinfo (g_epoch g)
  ∧ block_weight unstake_weight (unstake_txns t) ≤ get_maximum_unstake_block_weight pinfo (g_epoch g)
  ∧ ∃ fees body, filled g p utxo_set q tallies n = Some (fees, body, p', q') ∧ t = body (mint t)
    ∧ validate_mint_transaction pinfo tx_hash (mint t) fees (g_epoch g) (initial_block_reward (g_consensus g))
        (halving_period (g_consensus g)) = Ok tt.
Proof.
  intros Hhash Hp. unfold build_block. destruct (filled g p utxo_set q tallies n) as [[[[fees body] p1] q1]|] eqn:Hfill; [|done].
  cbn [mbind option_bind]. destruct (mint_of _ _ _ _ _ _) as [mt|] eqn:Hmint; [|done]. cbn [mbind option_bind].
  fold v. rewrite mined_roots by done. cbn [mbind option_bind]. intros [= <- <- <- <-]. pose proof Hfill as Hparts. unfold fill_block in Hparts.
  destruct (fill (vt_body _ _ _) _ _) as [vt|]; [|done]. cbn [mbind option_bind] in Hparts.
  destruct (add_tallies _ _ _ _ _) as [[tl f1]|]; [|done]. cbn [mbind option_bind] in Hparts.
  destruct (remove_commits _ _ _) as [p2 [[co f2] solved]]. destruct (TxPool.get_reveals _ _ _) as [[re f3]|]; [|done]. cbn [mbind option_bind] in Hparts.
  destruct (fill (dr_body _ _ _ _ _ _) _ _) as [[[dr q2] tl2]|]; [|done]. cbn [mbind option_bind] in Hparts.
  destruct (fill_stakes _ _ _ _ _ _ _) as [[st p3]|] eqn:Hst; [|done]. cbn [mbind option_bind] in Hparts.
  destruct (fill_unstakes _ _ _ _ _ _) as [[ut p4]|] eqn:Hut; [|done]. cbn [mbind option_bind] in Hparts. injection Hparts as Hfees Hbody _ _.
  apply stakes_one_each in Hst as [[Hsd Hsw Hsl] Hsv]. apply unstakes_one_each in Hut as [[Hud Huw Hul] Huv].
  subst body. cbn [stake_txns unstake_txns mint]. split_and!; try done.
  - by apply (no_duplicate_of _ key_pkh).
  - by apply (no_duplicate_of u_operator id).
  - by rewrite <-Hsw.
  - by rewrite <-Huw.
  - eexists fees, _. split_and!; [done|done|]. by eapply mint_accepted.
Qed.

(** An unstake that withdraws the whole stake is valid but never mined: the miner compares what is left, nothing, with the minimum,
    and removes the transaction from its pool. *)
Theorem full_unstake_never_mined g t entry r :
  validate_unstake_transaction pinfo calculate_sha256 tx_hash verify parse_public_key parse_signature t (g_epoch g) (g_stakes g)
    (get_validator_min_stake_nanowits pinfo (g_epoch g)) (get_unstaking_delay_seconds pinfo env (g_epoch g)) = Ok r →
  staked_entry (g_stakes g) (u_operator t) (out_pkh (u_withdrawal t)) = Ok (Some entry) →
  coins (evalue entry) = unstake_value t + u_fee t → fits U64 (coins (evalue entry)) → 0 ≤ unstake_value t → 0 ≤ u_fee t →
  unstake_possible pinfo g t = Some false.
Proof.
  intros Hv He Hc Hf H1 H2. unfold unstake_possible. rewrite He. unfold fits in Hf.
  assert (wsub U64 (wsub U64 (coins (evalue entry)) (unstake_value t)) (u_fee t) = 0) as ->.
  { unfold wsub. rewrite (Z.mod_small (coins (evalue entry) - unstake_value t)) by lia. rewrite Z.mod_small; lia. }
  assert (0 < get_validator_min_stake_nanowits pinfo (g_epoch g)); [|by rewrite decide_True].
  unfold validate_unstake_transaction in Hv. destruct (version_le _ _) eqn:Hle; [done|].
  unfold get_validator_min_stake_nanowits. by destruct (version_of (g_epoch g)).
Qed.
End mined.
