(* ===== verification/MiningExamples.v ===== *)
(** * Mining on concrete data

    A request that is short of validators, and blocks that are filled from a pool. *)

From stdpp Require Import base tactics numbers list gmap sorting strings.
From Stdlib Require Import ZArith Lia.
From S2P Require Import Prelude Stake Stakes Ars Hashes Superblock Versioning Tapi Merkle Rad Float Storage UtxoDb UtxoDbCorrect.
From S2P Require Import Utxo UtxoCorrect RepEngine Eligibility Epoch RadScript Transaction DataRequest DataRequestCorrect TxFactory.
From S2P Require Import TxFactoryCorrect Consensus Validation BlockValidation ValidationCorrect BlockValidationCorrect BlockRequests.
From S2P Require Import TxPool TxPoolBlock BlockExamples StalledChain Mining MiningCorrect.
Local Open Scope Z_scope.
Local Open Scope rust_scope.

#[local] Existing Instances toy_codecs toy_codec_laws.

(** ** A request that is short of validators *)

(** A request of epoch 25, when there were four validators; now there are none. *)
Definition short_state : DataRequestState := state_new ex_request [1] 25 None.
Definition short_pool : DataRequestPool := MkPool ∅ {[ 25 := {[ [77] ]} ]} {[ [77] := short_state ]} [] 3.

Lemma short_pool_ok : pool_ok short_pool.
Proof.
  split.
  - intros ep h. unfold short_pool. cbn [data_requests_by_epoch data_request_pool]. split.
    + destruct (decide (ep = 25)) as [->|Hne].
      * rewrite lookup_singleton_eq. cbn [default id]. intros ->%elem_of_singleton. exists short_state. by rewrite lookup_singleton_eq.
      * rewrite lookup_singleton_ne by done. cbn [default id]. by intros ?%elem_of_empty.
    + intros (st & [<- <-]%lookup_singleton_Some & _ & <-). rewrite lookup_singleton_eq. cbn. by apply elem_of_singleton.
  - intros ep hs. cbn [short_pool data_requests_by_epoch]. intros [_ <-]%lookup_singleton_Some. apply non_empty_singleton_L.
  - intros h st. cbn [short_pool data_request_pool]. intros [_ <-]%lookup_singleton_Some. split; cbn; try done; lia.
  - intros h r. cbn [short_pool waiting_for_reveal]. by rewrite lookup_empty.
  - cbn. unfold U16. lia.
Qed.

Lemma shortfall_witness :
  data_request_has_too_many_witnesses ex_request 4 V2_0 = false
  ∧ ∃ q1 sent, update_data_request_stages ex_sha256 short_pool (Some (validator_count (stakes_default : StakesTracker))) V2_0 = Some (q1, sent)
  ∧ ∀ q' r, ex_validate (ex_pool ex_coins) q1 stakes_default (ex_block 26 (MkTxns (MkMint 26 []) [] [] [] [] [] [] [])) ≠ Ret q' r.
Proof.
  split; [reflexivity|].
  destruct (shortfall_stalls_chain (D:=ex_db) ex_info Development ex_sha256 ex_tx_hash ex_header_hash ex_concat [] ex_verify ex_parse_key
    ex_parse_sig ex_from_slice ex_from_value ex_run_tally ex_encode_error short_pool [77] short_state stakes_default V2_0 short_pool_ok)
    as (q1 & sent & Hu & Hall); [apply lookup_singleton_eq|reflexivity|reflexivity|by vm_compute..|].
  exists q1, sent. split; [exact Hu|]. intros q' r. apply Hall. intros Hin. by apply elem_of_nil in Hin.
Defined.

(** ** A block from a pool *)

Definition mi_insert (p : TransactionsPool) (t : Transaction) (fee : Z) : TransactionsPool :=
  match TxPool.insert (ex_tx_hash None) ex_sha256 p t fee with Ret p' _ => p' | _ => p end.
(** The pool has the transfer of 7 of 10 coins, with a fee of 3. *)
Definition mi_pool : TransactionsPool := mi_insert pool_default (ValueTransfer ex_transfer) 3.
Definition mi_context (epoch : Z) (stakes : StakesTracker) : MiningContext :=
  MkMining epoch ex_epochs ex_constants (ex_wips epoch) (validator_count stakes) stakes.

Lemma mi_pool_txs : vt_iter mi_pool = [ex_transfer].
Proof. by vm_compute. Qed.

Definition mi_diff : UtxoDiff ex_db := utxo_diff_new (ex_pool ex_coins) 5.

Lemma mi_admitted stakes :
  admitted (D:=ex_db) ex_info ex_sha256 ex_tx_hash ex_parse_key ex_parse_sig (mi_context 5 stakes) [ex_transfer] mi_diff ex_transfer.
Proof.
  split; [done|by vm_compute|]. intros u fee sv Hu _.
  assert (utxo_set u = ex_pool ex_coins) as Hset.
  { induction Hu as [|u t u' _ IH _ Hup]; [done|]. apply update_keeps_set in Hup. by rewrite Hup. }
  unfold validate_transaction_signature. cbn [ex_transfer vt_signatures vt_inputs length zip_with]. rewrite decide_True by done.
  cbn [collect]. unfold validate_input_signature, validate_pkh_signature, utxo_diff_get. rewrite Hset.
  assert (Utxo.pool_get (ex_pool ex_coins) (ex_pointer 0) = Some (Some (MkOutput [1] 10 0))) as Hget by by vm_compute.
  cbn [fst output_pointer]. rewrite Hget. cbn [mbind option_bind]. case_decide; cbn; by eexists.
Qed.

Lemma mined_transfers_witness :
  vt_iter mi_pool = [ex_transfer]
  ∧ ∃ s r, fill (vt_body ex_info ex_tx_hash (mi_context 5 stakes_default)) (vt_iter mi_pool) (MkFilled mi_diff 0 0 []) = Some s
    ∧ f_txs s = [ex_transfer] ∧ f_fees s = 3
    ∧ each (vt_step ex_info ex_sha256 ex_tx_hash ex_parse_key ex_parse_sig (validation_context ex_info (mi_context 5 stakes_default) 5) 0)
        (f_txs s) (MkProgress mi_diff 0 [] [], 0, 0) = Ok (r, 0, f_weight s)
    ∧ p_utxo r = f_utxo s ∧ p_fee r = f_fees s.
Proof.
  split; [exact mi_pool_txs|].
  destruct (fill (vt_body ex_info ex_tx_hash (mi_context 5 stakes_default)) (vt_iter mi_pool) (MkFilled mi_diff 0 0 [])) as [s|] eqn:Hf.
  2: { exfalso. assert (match fill (vt_body ex_info ex_tx_hash (mi_context 5 stakes_default)) (vt_iter mi_pool) (MkFilled mi_diff 0 0 [])
         with Some _ => true | None => false end = true) as Hn by (vm_compute; reflexivity). rewrite Hf in Hn. discriminate Hn. }
  assert ((λ s, (f_txs s, f_fees s)) <$> fill (vt_body ex_info ex_tx_hash (mi_context 5 stakes_default)) (vt_iter mi_pool) (MkFilled mi_diff 0 0 [])
          = Some ([ex_transfer], 3)) as Hs by (vm_compute; reflexivity).
  rewrite Hf in Hs. cbn [fmap option_fmap option_map] in Hs. injection Hs as Ht Hfee.
  destruct (mined_transfers_accepted (D:=ex_db) ex_info ex_sha256 ex_tx_hash ex_parse_key ex_parse_sig (mi_context 5 stakes_default) mi_pool
    (ex_pool ex_coins) 5 0 [] s) as (r & Hr & Hu & Hp).
  - rewrite mi_pool_txs. apply Forall_singleton. apply mi_admitted.
  - intros t _. reflexivity.
  - exact Hf.
  - rewrite Hfee. unfold U64. lia.
  - exists s, r. split; [reflexivity|]. split; [exact Ht|]. split; [exact Hfee|]. split; [exact Hr|]. split; [exact Hu|exact Hp].
Defined.

(** The tally script does not panic; the report if it did. *)
Definition ex_try_tally reveals tally min commits wips many : option (option TallyMetaData * option (list Z)) :=
  Some (ex_run_tally reveals tally min commits wips many).
Definition ex_unknown (after : bool) (n : nat) : option TallyMetaData * option (list Z) := (None, None).

(** The block that the miner builds from the pool at epoch 5. *)
Definition mi_build :=
  build_block ex_info Development ex_sha256 ex_tx_hash ex_concat [] ex_try_tally ex_encode_error demo_visit (mi_context 5 stakes_default)
    mi_pool (ex_pool ex_coins) (pool_new 3) [9] ([], ex_key 1) [] [3] 5 None (Some [8]) 50 0.

Lemma built_block_witness :
  ∃ hd t p' q', mi_build = Some (hd, t, p', q')
  ∧ value_transfer_txns t = [ex_transfer] ∧ m_outputs (mint t) = [MkOutput [3] 6 0; MkOutput [8] 5 0]
  ∧ block_roots ex_tx_hash ex_concat [] V1_7 t = merkle_roots hd.
Proof.
  destruct mi_build as [[[[hd t] p'] q']|] eqn:Hb.
  2: { exfalso. assert (match mi_build with Some _ => true | None => false end = true) as Hn by (vm_compute; reflexivity).
       rewrite Hb in Hn. discriminate Hn. }
  assert ((λ r : BlockHeader * BlockTransactions * TransactionsPool * DataRequestPool,
             (value_transfer_txns r.1.1.2, m_outputs (mint r.1.1.2))) <$> mi_build
          = Some ([ex_transfer], [MkOutput [3] 6 0; MkOutput [8] 5 0])) as Hs by (vm_compute; reflexivity).
  rewrite Hb in Hs. cbn [fmap option_fmap option_map fst snd] in Hs. injection Hs as Ht Hm.
  exists hd, t, p', q'. split; [reflexivity|]. split; [exact Ht|]. split; [exact Hm|].
  assert (0 ≤ 50 ≤ 100) as Hp by lia.
  exact (proj1 (proj2 (built_block_shape (D:=ex_db) ex_info Development ex_sha256 ex_tx_hash ex_concat [] ex_parse_sig ex_try_tally ex_unknown ex_encode_error demo_visit
    (mi_context 5 stakes_default) mi_pool (ex_pool ex_coins) (pool_new 3) [9] ([], ex_key 1) [] [3] 5 None (Some [8]) 50 0 hd t p' q'
    (λ x, eq_refl) Hp Hb))).
Defined.

(** ** Tallies *)

(** A request whose round of commits ended without any. *)
Definition mi_state : DataRequestState := set_stage (state_new ex_request [1] 3 None) TALLY.
Definition mi_requests : DataRequestPool := MkPool ∅ ∅ {[ [77] := mi_state ]} [] 3.

Lemma created_tallies_witness :
  ∃ l, create_tally_transactions ex_info Development ex_sha256 ex_try_tally ex_unknown ex_encode_error demo_visit (mi_context 5 stakes_default) mi_requests = Some l
  ∧ t_dr_pointer <$> l = [[77]] ∧ NoDup (t_dr_pointer <$> l).
Proof.
  destruct (create_tally_transactions ex_info Development ex_sha256 ex_try_tally ex_unknown ex_encode_error demo_visit (mi_context 5 stakes_default) mi_requests)
    as [l|] eqn:Hl.
  2: { exfalso. assert (match create_tally_transactions ex_info Development ex_sha256 ex_try_tally ex_unknown ex_encode_error demo_visit (mi_context 5 stakes_default) mi_requests
         with Some _ => true | None => false end = true) as Hn by (vm_compute; reflexivity). rewrite Hl in Hn. discriminate Hn. }
  exists l. split; [reflexivity|]. split.
  - assert (match create_tally_transactions ex_info Development ex_sha256 ex_try_tally ex_unknown ex_encode_error demo_visit (mi_context 5 stakes_default) mi_requests
      with Some l => t_dr_pointer <$> l | None => [] end = [[77]]) as Hs by (vm_compute; reflexivity). rewrite Hl in Hs. exact Hs.
  - exact (proj1 (created_tallies_expected ex_info Development ex_sha256 ex_try_tally ex_unknown ex_encode_error demo_visit (mi_context 5 stakes_default) mi_requests l
      demo_visit_perm ltac:(discriminate) Hl)).
Defined.

(** ** Full unstakes *)

(** The withdrawal of the whole stake of validator 4. *)
Definition mi_unstake : UnstakeTransaction :=
  {| u_operator := [4]; u_withdrawal := MkOutput [1] 9999999999999 3600; u_fee := 1; u_nonce := 1; u_signature := ex_sig 1 |}.

Lemma full_unstake_witness :
  ∃ r, validate_unstake_transaction ex_info ex_sha256 ex_tx_hash ex_verify ex_parse_key ex_parse_sig mi_unstake 25 ex_staked
         (get_validator_min_stake_nanowits ex_info 25) (get_unstaking_delay_seconds ex_info Development 25) = Ok r
  ∧ unstake_possible ex_info (mi_context 25 ex_staked) mi_unstake = Some false.
Proof.
  exists (1, unstake_weight mi_unstake, [u_withdrawal mi_unstake]).
  assert (validate_unstake_transaction ex_info ex_sha256 ex_tx_hash ex_verify ex_parse_key ex_parse_sig mi_unstake 25 ex_staked
         (get_validator_min_stake_nanowits ex_info 25) (get_unstaking_delay_seconds ex_info Development 25)
       = Ok (1, unstake_weight mi_unstake, [u_withdrawal mi_unstake])) as Hv by (vm_compute; reflexivity).
  split; [exact Hv|].
  destruct (staked_entry ex_staked [4] [1]) as [[entry|]| |] eqn:He; [|exfalso; revert He; vm_compute; discriminate..].
  assert ((match staked_entry ex_staked [4] [1] with Ok (Some e) => coins (evalue e) | _ => 0 end) = 10000000000000) as Hc by (vm_compute; reflexivity).
  rewrite He in Hc.
  apply (full_unstake_never_mined ex_info Development ex_sha256 ex_tx_hash ex_verify ex_parse_key ex_parse_sig (mi_context 25 ex_staked) mi_unstake entry _ Hv He).
  - rewrite Hc. reflexivity.
  - rewrite Hc. unfold fits, U64. lia.
  - cbn. lia.
  - cbn. lia.
Defined.
