(* ===== verification/Propose.v ===== *)
(** * Proposing blocks

    Models [try_mine_block] of node/src/actors/chain_manager/mining.rs with the functions of chain_manager/mod.rs that it calls,
    [tapi_signals_mask] and [future_process_validations]: a node that is eligible builds a block, validates it as any other node would
    and processes it as a candidate.  The actor waits for the signature manager in between, so that no other message is
    handled meanwhile.  [None] is a panic. *)

From stdpp Require Import base tactics numbers list gmap strings.
From Stdlib Require Import ZArith Lia.
From S2P Require Import Prelude Stake Stakes Trs Ars Hashes Superblock Versioning Tapi Merkle Rad Float Storage UtxoDb Utxo.
From S2P Require Import RepEngine Eligibility Epoch RadScript Transaction DataRequest TxFactory Consensus Validation BlockValidation TxPool.
From S2P Require Import Consolidation ChainManager Mining.
Local Open Scope Z_scope.
Local Open Scope rust_scope.

(** The fields of the chain manager that mining uses. *)
Record Proposer (D : Type) := MkProposer {
  proposer_manager : ChainManager D;
  mining_enabled : bool;
  external_address : option PublicKeyHash;
  external_percentage : Z;
  own_bn256_public_key : option (list Z);
  oppose_wip0028 : bool;
}.
Arguments MkProposer {D} _ _ _ _ _ _.
Arguments proposer_manager {D} _.
Arguments mining_enabled {D} _.
Arguments external_address {D} _.
Arguments external_percentage {D} _.
Arguments own_bn256_public_key {D} _.
Arguments oppose_wip0028 {D} _.

Definition with_proposer_manager {D} (m : ChainManager D) (x : Proposer D) : Proposer D :=
  MkProposer m (mining_enabled x) (external_address x) (external_percentage x) (own_bn256_public_key x) (oppose_wip0028 x).

(** The pools after [build_block]. *)
Definition with_pools {D} (p : TransactionsPool) (q : DataRequestPool) (m : ChainManager D) : ChainManager D :=
  let m := with_requests_of m q in
  MkManager (global_protocol m) (chain_state m) p (manager_pkh m) (epoch_constants m) (sm_state m) (vrf_ctx m)
    (priority_engine m) (current_epoch m) (best_candidate m) (candidates m) (seen_candidates m).

(** The statistics after a proposal. *)
Definition count_proposal {D} (h : Hash) (m : ChainManager D) : ChainManager D :=
  let s := chain_state m in
  let st := node_stats s in
  let st := MkStats (wadd U32 (block_proposed_count st) 1) (block_mined_count st) (dr_eligibility_count st) (commits_proposed_count st)
              (Consolidation.commits_count st) h (slashed_count st) in
  with_chain_state m (MkState (chain_info s) (requests_pool s) (block_chain s) (own_outputs s) (reputation_engine s) st (alt_keys s)
                        (superblock_state s) (tapi_engine s) (stakes s) (unspent_outputs_pool s)).

Inductive MiningError := MiningIsDisabled | MiningNotSynced (current_state : StateMachine) | MiningNotReady.

(** [tapi_signals_mask]: the proposals that are active already, and the one that is voted on. *)
Definition tapi_signals_mask {D} (x : Proposer D) (epoch : Z) : Z :=
  let v := Z.ones 9 in
  if negb (oppose_wip0028 x) && in_voting_range (tapi_engine (chain_state (proposer_manager x))) epoch "WIP0028"
  then Z.lor v (Z.shiftl 1 9) else v.

Section propose.
Context `{UtxoDb D, FloatOrd}.
Context (env : Environment) (calculate_sha256 : list Z → Hash).
Context (tx_hash : option ProtocolVersion → Transaction → Hash) (header_hash : option ProtocolVersion → BlockHeader → Hash).
Context (hash_concat : Hash → Hash → Hash) (empty_hash : Hash).
Context (verify : PublicKey → list Z → list Z → bool) (parse_public_key : PublicKey → bool) (parse_signature : list Z → bool).
Context (verify_block_proof : list Z * PublicKey → CheckpointVRF → option Hash).
Context (verify_v1 : DataRequestEligibilityClaim → CheckpointVRF → Hash → option Hash).
Context (verify_v2 : DataRequestEligibilityClaim → CheckpointVRF → Hash → option PublicKeyHash → option Hash).
Context (proof_to_hash : list Z * PublicKey → option Hash).
Context (from_slice : list Z → option Value) (from_value_u8 : Value → option Z).
Context (run_tally : list RevealTransaction → RADTally → f64 → nat → ActiveWips → bool → option (option TallyMetaData * option (list Z))).
Context (unknown_report : bool → nat → option TallyMetaData * option (list Z)).
Context (tally_bytes_on_encode_error : list Z) (visit : ∀ A : Type, list A → list A).
(** The signature manager: a proof with its hash, and a signature. *)
Context (vrf_prove : CheckpointVRF → option ((list Z * PublicKey) * Hash)) (sign_data : Hash → option KeyedSignature).

Abbreviation verify_all pinfo :=
  (verify_signatures pinfo calculate_sha256 verify parse_public_key parse_signature verify_block_proof verify_v1 verify_v2).

(** What the miner works with: the epoch, its identity, and what it found in the state. *)
Record Round := MkRound {
  r_epoch : Z;
  r_own : PublicKeyHash;
  r_constants : EpochConstants;
  r_info : ChainInfo;
}.

(** The conditions to mine at all. *)
Definition mining_round (x : Proposer D) : result MiningError Round :=
  let m := proposer_manager x in
  if negb (mining_enabled x) then Err MiningIsDisabled
  else if decide (sm_state m ≠ Synced) then Err (MiningNotSynced (sm_state m))
  else
    let? epoch := ok_or (current_epoch m) MiningNotReady in
    let? own := ok_or (manager_pkh m) MiningNotReady in
    let? c := ok_or (epoch_constants m) MiningNotReady in
    let? ci := ok_or (chain_info (chain_state m)) MiningNotReady in
    Ok (MkRound epoch own c ci).

(** The target for the hash of the proof; [None] when the node is not eligible by its stake. *)
Definition mining_target (m : ChainManager D) (r : Round) : result MiningError (option Hash) :=
  let pinfo := global_protocol m in
  let s := chain_state m in
  let cc := info_constants (r_info r) in
  if decide (get_protocol_version pinfo (Some (r_epoch r)) = V2_0) then
    let rf := get_replication_factor pinfo (r_epoch r) (checkpoint (highest_block_checkpoint (r_info r))) in
    if decide (mining_eligibility UNIT (stakes s) (r_own r) (r_epoch r) rf = EligibleYes) then Ok (Some Hash_max) else Ok None
  else
    let? rep := unwrap (reputation_engine s) in
    let n := Z.of_nat (active_identities_number (ars rep)) in
    if decide (U32 ≤ n) then Panic
    else Ok (Some (calculate_randpoe_threshold n (mining_backup_factor cc) (r_epoch r) (minimum_difficulty cc)
                     (epochs_with_minimum_difficulty cc) (MkActive (wip_activation (tapi_engine s)) (r_epoch r))).1).

(** The context of [build_block]. *)
Definition mining_context (m : ChainManager D) (r : Round) : MiningContext :=
  MkMining (r_epoch r) (r_constants r) (info_constants (r_info r)) (MkActive (wip_activation (tapi_engine (chain_state m))) (r_epoch r))
    (validator_count (stakes (chain_state m))) (stakes (chain_state m)).

(** The beacon and the input of the vrf of the block: those of the tip, in the current epoch. *)
Definition mining_beacon (r : Round) : CheckpointBeacon := MkBeacon (r_epoch r) (hash_prev_block (highest_block_checkpoint (r_info r))).
Definition mining_vrf_input (r : Round) : CheckpointVRF := MkVrfInput (r_epoch r) (hash_prev_vrf (highest_vrf_output (r_info r))).

(** [future_process_validations]. *)
Definition future_process_validations (m : ChainManager D) (b : Block) (previous_block_epoch epoch : Z) (vrf_input : CheckpointVRF)
    (chain_beacon : CheckpointBeacon) (c : EpochConstants) : exec DataRequestPool Failure Diff :=
  let pinfo := global_protocol m in
  let s := chain_state m in
  let q := requests_pool s in
  let b_epoch := checkpoint (beacon (block_header b)) in
  match block_number s, get_consensus_constants s, reputation_engine s with
  | Some number, Some cc, Some rep =>
      let wips := MkActive (wip_activation (tapi_engine s)) b_epoch in
      let! (q, _) := lift_exec q
        (let? signatures := validate_block pinfo calculate_sha256 tx_hash header_hash hash_concat empty_hash parse_public_key
                              parse_signature b epoch vrf_input chain_beacon [] rep cc wips (stakes s)
                              (get_protocol_version pinfo (Some b_epoch)) (get_replication_factor pinfo b_epoch previous_block_epoch) in
         verify_all pinfo signatures) in
      let! (q, r) := validate_block_transactions pinfo env calculate_sha256 tx_hash header_hash hash_concat empty_hash verify
                       parse_public_key parse_signature from_slice from_value_u8 (tally_panic_safe run_tally unknown_report)
                       tally_bytes_on_encode_error (unspent_outputs_pool s) q b vrf_input [] rep c number cc wips (stakes s) in
      let '(diff, signatures, _) := r in
      let! (q, _) := lift_exec q (verify_all pinfo signatures) in
      Ret q diff
  | _, _, _ => Crash
  end.

(** The block that an eligible node builds; without a signature there is none, but the pools have changed. *)
Definition mine_block (x : Proposer D) (r : Round) (proof : list Z * PublicKey) : option (Proposer D * option Block) :=
  let m := proposer_manager x in
  let s := chain_state m in
  let pinfo := global_protocol m in
  let g := mining_context m r in
  tallies ← create_tally_transactions pinfo env calculate_sha256 run_tally unknown_report tally_bytes_on_encode_error visit g (requests_pool s);
  number ← block_number s;
  '(header, txns, p, q) ←
    build_block pinfo env calculate_sha256 tx_hash hash_concat empty_hash run_tally tally_bytes_on_encode_error visit g
      (transactions_pool m) (unspent_outputs_pool s) (requests_pool s) (hash_prev_block (mining_beacon r)) proof tallies (r_own r) number
      (own_bn256_public_key x) (external_address x) (external_percentage x) (tapi_signals_mask x (r_epoch r));
  Some (with_proposer_manager (with_pools p q m) x,
        (λ sig, MkBlock header sig txns) <$> sign_data (header_hash (Some (get_protocol_version pinfo (Some (r_epoch r)))) header)).

(** The validation of the block and its processing as a candidate. *)
Definition propose_block (x : Proposer D) (r : Round) (b : Block) : option (Proposer D * list Message * option Block) :=
  let m := proposer_manager x in
  match future_process_validations m b (checkpoint (highest_block_checkpoint (r_info r))) (r_epoch r) (mining_vrf_input r)
          (mining_beacon r) (r_constants r) with
  | Crash => None
  | Fail q _ => Some (with_proposer_manager (with_requests_of m q) x, [], None)
  | Ret q _ =>
      let hash := header_hash (Some (get_protocol_version (global_protocol m) (Some (r_epoch r)))) (block_header b) in
      '(m, messages) ← process_candidate env calculate_sha256 tx_hash header_hash hash_concat empty_hash verify parse_public_key
                         parse_signature verify_block_proof verify_v1 verify_v2 proof_to_hash from_slice from_value_u8
                         (tally_panic_safe run_tally unknown_report) tally_bytes_on_encode_error (count_proposal hash (with_requests_of m q)) b;
      Some (with_proposer_manager m x, messages, Some b)
  end.

(** [try_mine_block]: the state, the messages and the block that was proposed. *)
Definition try_mine_block (x : Proposer D) : result MiningError (Proposer D * list Message * option Block) :=
  let? r := mining_round x in
  let? target := mining_target (proposer_manager x) r in
  match target with
  | None => Ok (x, [], None)
  | Some target =>
      match vrf_prove (mining_vrf_input r) with
      | None => Ok (x, [], None)
      | Some (proof, proof_hash) =>
          if negb (bool_decide (bytes_le proof_hash target)) then Ok (x, [], None)
          else
            let? mined := unwrap (mine_block x r proof) in
            match mined with
            | (x, None) => Ok (x, [], None)
            | (x, Some b) => unwrap (propose_block x r b)
            end
      end
  end.
End propose.

(** ** Proposed blocks

    The header of a block that an eligible node mines passes the validation of headers with the very target that the miner computed;
    and what is proposed was validated on the state of the chain, which mining does not change. *)

Section proposed.
Context `{UtxoDb D, FloatOrd}.
Context (env : Environment) (calculate_sha256 : list Z → Hash).
Context (tx_hash : option ProtocolVersion → Transaction → Hash) (header_hash : option ProtocolVersion → BlockHeader → Hash).
Context (hash_concat : Hash → Hash → Hash) (empty_hash : Hash).
Context (verify : PublicKey → list Z → list Z → bool) (parse_public_key : PublicKey → bool) (parse_signature : list Z → bool).
Context (verify_block_proof : list Z * PublicKey → CheckpointVRF → option Hash).
Context (verify_v1 : DataRequestEligibilityClaim → CheckpointVRF → Hash → option Hash).
Context (verify_v2 : DataRequestEligibilityClaim → CheckpointVRF → Hash → option PublicKeyHash → option Hash).
Context (proof_to_hash : list Z * PublicKey → option Hash).
Context (from_slice : list Z → option Value) (from_value_u8 : Value → option Z).
Context (run_tally : list RevealTransaction → RADTally → f64 → nat → ActiveWips → bool → option (option TallyMetaData * option (list Z))).
Context (unknown_report : bool → nat → option TallyMetaData * option (list Z)).
Context (tally_bytes_on_encode_error : list Z) (visit : ∀ A : Type, list A → list A).
Context (vrf_prove : CheckpointVRF → option ((list Z * PublicKey) * Hash)) (sign_data : Hash → option KeyedSignature).
Implicit Types (x : Proposer D) (m : ChainManager D).

Abbreviation key_pkh := (Hashes.pkh calculate_sha256).
Abbreviation checks := (future_process_validations env calculate_sha256 tx_hash header_hash hash_concat empty_hash verify parse_public_key parse_signature
  verify_block_proof verify_v1 verify_v2 from_slice from_value_u8 run_tally unknown_report tally_bytes_on_encode_error).
Abbreviation mine := (mine_block env calculate_sha256 tx_hash header_hash hash_concat empty_hash run_tally unknown_report tally_bytes_on_encode_error visit sign_data).
Abbreviation propose := (propose_block env calculate_sha256 tx_hash header_hash hash_concat empty_hash verify parse_public_key parse_signature
  verify_block_proof verify_v1 verify_v2 proof_to_hash from_slice from_value_u8 run_tally unknown_report tally_bytes_on_encode_error).
Abbreviation try_mine := (try_mine_block env calculate_sha256 tx_hash header_hash hash_concat empty_hash verify parse_public_key parse_signature
  verify_block_proof verify_v1 verify_v2 proof_to_hash from_slice from_value_u8 run_tally unknown_report tally_bytes_on_encode_error visit vrf_prove sign_data).

(** What mining does not touch. *)
Record same_chain m m' : Prop := {
  sc_info : chain_info (chain_state m') = chain_info (chain_state m);
  sc_blocks : block_chain (chain_state m') = block_chain (chain_state m);
  sc_outputs : unspent_outputs_pool (chain_state m') = unspent_outputs_pool (chain_state m);
  sc_stakes : stakes (chain_state m') = stakes (chain_state m);
  sc_reputation : reputation_engine (chain_state m') = reputation_engine (chain_state m);
  sc_tapi : tapi_engine (chain_state m') = tapi_engine (chain_state m);
  sc_protocol : global_protocol m' = global_protocol m;
}.
Lemma same_chain_trans m1 m2 m3 : same_chain m1 m2 → same_chain m2 m3 → same_chain m1 m3.
Proof. intros [] []. split; congruence. Qed.

Lemma candidate_keeps_chain m b m' messages :
  process_candidate env calculate_sha256 tx_hash header_hash hash_concat empty_hash verify parse_public_key parse_signature verify_block_proof
    verify_v1 verify_v2 proof_to_hash from_slice from_value_u8 (tally_panic_safe run_tally unknown_report) tally_bytes_on_encode_error m b = Some (m', messages) →
  same_chain m m'.
Proof.
  unfold process_candidate. destruct (current_epoch m) as [epoch|]; [|by intros [= <- <-]]. destruct (chain_info _) as [ci|]; [|by intros [= <- <-]].
  destruct (reputation_engine _) as [rep|]; [|by intros [= <- <-]]. destruct (vrf_ctx m); [|by intros [= <- <-]].
  case_decide; [by intros [= <- <-]|]. case_decide; [by intros [= <- <-]|]. case_decide; [by intros [= <- <-]|].
  unfold validate_candidate. case_decide; [done|]. destruct (proof_to_hash _); [|by intros [= <- <-]].
  destruct (beats_best _ _ _ _ _ _ _ _ _ _ _); [|by intros [= <- <-]]. destruct (block_number _); [|done]. cbn [mbind option_bind].
  destruct (epoch_constants _); [|done]. cbn [mbind option_bind].
  destruct (process_validations _ _ _ _ _ _ _ _ _ _ _ _ _ _ _ _ _ _ _ _ _ _ _ _ _ _ _ _ _ _) as [q [diff visits]|q err|]; [by intros [= <- <-]..|done].
Qed.

Lemma mined_keeps_chain x r proof x' b :
  mine x r proof = Some (x', b) →
  same_chain (proposer_manager x) (proposer_manager x') ∧ sm_state (proposer_manager x') = sm_state (proposer_manager x)
  ∧ ∀ blk, b = Some blk → beacon (block_header blk) = mining_beacon r ∧ Superblock.proof (block_header blk) = proof.
Proof.
  unfold mine_block. destruct (create_tally_transactions _ _ _ _ _ _ _ _ _) as [tallies|]; [|done]. cbn [mbind option_bind].
  destruct (block_number _) as [number|]; [|done]. cbn [mbind option_bind].
  destruct (build_block _ _ _ _ _ _ _ _ _ _ _ _ _ _ _ _ _ _ _ _ _ _) as [[[[hd txns] p] q]|] eqn:Hb; [|done]. cbn [mbind option_bind].
  intros [= <- <-]. split; [done|]. split; [done|]. intros blk Hblk. destruct (sign_data _) as [sig|]; [|done]. injection Hblk as <-.
  cbn [block_header]. unfold build_block in Hb. destruct (fill_block _ _ _ _ _ _ _ _ _ _ _ _ _) as [[[[fees body] p1] q1]|]; [|done].
  cbn [mbind option_bind] in Hb. destruct (mint_of _ _ _ _ _ _); [|done]. cbn [mbind option_bind] in Hb.
  destruct (roots_of _ _ _ _ _); [|done]. cbn [mbind option_bind] in Hb. by injection Hb as <- _ _ _.
Qed.

Lemma proposed_keeps_chain x r b x' messages b' :
  propose x r b = Some (x', messages, b') →
  same_chain (proposer_manager x) (proposer_manager x')
  ∧ (b' = None ∨ b' = Some b ∧ ∃ q diff,
       checks (proposer_manager x) b (checkpoint (highest_block_checkpoint (r_info r))) (r_epoch r) (mining_vrf_input r) (mining_beacon r)
         (r_constants r) = Ret q diff).
Proof.
  unfold propose_block. destruct (checks _ _ _ _ _ _ _) as [q diff|q e|] eqn:Hc; [|intros [= <- <- <-]; split; [done|by left]|done].
  destruct (process_candidate _ _ _ _ _ _ _ _ _ _ _ _ _ _ _ _ _ _ _) as [[m1 msgs]|] eqn:Hp; [|done]. cbn [mbind option_bind].
  intros [= <- <- <-]. apply candidate_keeps_chain in Hp. split.
  - eapply same_chain_trans; [|exact Hp]. done.
  - right. split; [done|]. by exists q, diff.
Qed.

(** C16. Mining does not change the chain.  A block is proposed only by a synced node with mining enabled whose proof is within the target;
    it extends the tip in the current epoch with that proof, and it passed the whole validation of blocks on the
    state of the chain. *)
Theorem proposal_sound x x' messages b :
  try_mine x = Ok (x', messages, b) →
  same_chain (proposer_manager x) (proposer_manager x')
  ∧ ∀ blk, b = Some blk →
    mining_enabled x = true ∧ sm_state (proposer_manager x) = Synced
    ∧ ∃ r target hash m1 q diff, mining_round x = Ok r ∧ mining_target (proposer_manager x) r = Ok (Some target)
      ∧ vrf_prove (mining_vrf_input r) = Some (Superblock.proof (block_header blk), hash) ∧ bytes_le hash target
      ∧ beacon (block_header blk) = mining_beacon r ∧ same_chain (proposer_manager x) m1
      ∧ checks m1 blk (checkpoint (highest_block_checkpoint (r_info r))) (r_epoch r) (mining_vrf_input r) (mining_beacon r) (r_constants r)
        = Ret q diff.
Proof.
  unfold try_mine_block. destruct (mining_round x) as [r| |] eqn:Hr; [|done|done]. cbn [rbind].
  destruct (mining_target _ r) as [[target|]| |] eqn:Ht; cbn [rbind]; [|by intros [= <- <- <-]|done|done].
  destruct (vrf_prove _) as [[proof hash]|] eqn:Hv; [|by intros [= <- <- <-]].
  destruct (bool_decide_reflect (bytes_le hash target)) as [Hle|]; cbn [negb]; [|by intros [= <- <- <-]].
  destruct (mine x r proof) as [[x1 [b1|]]|] eqn:Hm; cbn [unwrap rbind]; [|intros [= <- <- <-]|done];
    apply mined_keeps_chain in Hm as (Hkeep & _ & Hhd); [|by split].
  destruct (propose x1 r b1) as [[[x2 msgs] b2]|] eqn:Hp; [|done]. cbn [unwrap]. intros [= <- <- <-].
  apply proposed_keeps_chain in Hp as [Hkeep2 Hb]. split; [by eapply same_chain_trans|]. intros blk ->.
  destruct Hb as [?|([= ->] & q & diff & Hc)]; [done|]. destruct (Hhd b1 eq_refl) as [Hbeacon <-].
  unfold mining_round in Hr. destruct (mining_enabled x) eqn:He; [|done]. cbn [negb] in Hr. case_decide as Hs; [done|].
  split_and!; [done..|]. by exists r, target, hash, (proposer_manager x1), q, diff.
Qed.

(** The validation of the header accepts the block of an eligible miner, and the target that it asks the proof to meet is the one that
    the miner computed. *)
Theorem mined_header_accepted x r target b rep (m := proposer_manager x) (s := chain_state m) (ci := r_info r) :
  mining_round x = Ok r → mining_target m r = Ok (Some target) → reputation_engine s = Some rep →
  beacon (block_header b) = mining_beacon r →
  key_pkh (public_key (block_sig b)) = r_own r → key_pkh (Superblock.proof (block_header b)).2 = r_own r →
  parse_signature (signature (block_sig b)) = true → parse_public_key (public_key (block_sig b)) = true →
  hash_prev_block (highest_block_checkpoint ci) ≠ bootstrap_hash (info_constants ci) →
  validate_block (global_protocol m) calculate_sha256 tx_hash header_hash hash_concat empty_hash parse_public_key parse_signature b (r_epoch r)
    (mining_vrf_input r) (mining_beacon r) [] rep (info_constants ci) (MkActive (wip_activation (tapi_engine s)) (r_epoch r)) (stakes s)
    (get_protocol_version (global_protocol m) (Some (r_epoch r)))
    (get_replication_factor (global_protocol m) (r_epoch r) (checkpoint (highest_block_checkpoint ci)))
  = Ok [VrfBlock (Superblock.proof (block_header b)) (mining_vrf_input r) target;
        SecpBlock (public_key (block_sig b)) (header_hash (Some (get_protocol_version (global_protocol m) (Some (r_epoch r)))) (block_header b))
          (signature (block_sig b))].
Proof.
  intros Hr Ht Hrep Hb Hsig Hproof Hps Hpk Hboot. unfold validate_block. rewrite Hb. cbn [mining_beacon checkpoint hash_prev_block].
  rewrite !(decide_False (P := r_epoch r < r_epoch r)) by lia.
  rewrite (decide_False (P := hash_prev_block _ ≠ hash_prev_block _)) by (intros Hn; by apply Hn). rewrite decide_False by done.
  unfold mining_target in Ht. fold m s in Ht.
  assert (validate_block_signature (global_protocol m) calculate_sha256 header_hash parse_public_key parse_signature b
    ([] ++ [VrfBlock (Superblock.proof (block_header b)) (mining_vrf_input r) target])
    = Ok [VrfBlock (Superblock.proof (block_header b)) (mining_vrf_input r) target;
          SecpBlock (public_key (block_sig b)) (header_hash (Some (get_protocol_version (global_protocol m) (Some (r_epoch r)))) (block_header b))
            (signature (block_sig b))]) as Hs.
  { unfold validate_block_signature. rewrite Hsig, Hproof, decide_False by (intros Hn; by apply Hn). rewrite Hps, Hpk, Hb. done. }
  case_decide as Hv.
  - rewrite Hsig. case_decide as He; [|done]. injection Ht as <-. rewrite decide_True by done. cbn [rbind]. exact Hs.
  - rewrite Hrep in Ht. cbn [unwrap rbind] in Ht. case_decide as Hn; [done|]. injection Ht as <-. cbn [rbind]. exact Hs.
Qed.
End proposed.
