(* ===== verification/Witnessing.v ===== *)
(** * Witnessing

    Models [try_mine_data_request] of node/src/actors/chain_manager/mining.rs.  A first part, [plan], goes through the open requests and
    decides for which of them the node asks for a proof of eligibility; each of them then goes on by itself, in any order with the
    others, when the proof and later the result of the request arrive.  They share the counter of
    retrievals and the outputs of the node; the available stake is copied by each.  [None] is a panic.

    The retrievals of an epoch stay within their limit, and the commit of a witness with one stake entry is accepted by the validation. *)

From stdpp Require Import base tactics numbers list gmap.
From Stdlib Require Import ZArith Lia.
From S2P Require Import Prelude Stake Stakes Trs Ars Hashes Superblock Versioning Tapi Merkle Rad Float Storage UtxoDb Utxo.
From S2P Require Import RepEngine Eligibility Epoch RadScript Transaction DataRequest TxFactory Consensus Validation BlockValidation TxPool.
From S2P Require Import Consolidation ChainManager Propose TxFactoryCorrect.
Local Open Scope Z_scope.
Local Open Scope rust_scope.

(** The message that a proof covers. *)
Inductive VrfMessage :=
  | DataRequestV1 (vrf : CheckpointVRF) (dr_hash : Hash)
  | DataRequestV2 (vrf : CheckpointVRF) (dr_hash : Hash) (withdrawer : option PublicKeyHash).

(** A request that the node tries to resolve, with what the closures captured. *)
Record Attempt := MkAttempt {
  a_pointer : Hash;
  a_state : DataRequestState;
  a_version : ProtocolVersion;
  a_target : Hash;
  a_message : VrfMessage;
  a_retrievals : Z;
  a_collateral : Z;
  a_available_stake : Z;
  a_minimum_stake : Z;
  a_period : Z;
  a_block_limit : Z;
  a_timestamp : Z;
}.

Inductive WitnessError := WitnessDisabled | WitnessNotReady | WitnessStaking (e : StakesError PublicKeyHash).
(** What is decided for one request. *)
Inductive Choice := Skip | Attempting (a : Attempt) | Stop (e : option WitnessError).

Section witnessing.
Context `{UtxoDb D, FloatOrd}.
Context (env : Environment) (calculate_sha256 : list Z → Hash).

(** The fixed part of a round: the epoch, the identity, the stake and the time. *)
Record WitnessRound := MkWitness {
  w_epoch : Z;
  w_own : PublicKeyHash;
  w_vrf : CheckpointVRF;
  w_info : ChainInfo;
  w_withdrawer : option PublicKeyHash;
  w_available : Z;
  w_minimum : Z;
  w_timestamp : Z;
}.

(** The conditions to resolve requests. *)
Definition witness_round (x : Proposer D) (timestamp : Z) : result WitnessError WitnessRound :=
  let m := proposer_manager x in
  if negb (mining_enabled x) then Err WitnessDisabled
  else
    let? ci := ok_or (chain_info (chain_state m)) WitnessNotReady in
    let? own := ok_or (manager_pkh m) WitnessNotReady in
    let? epoch := ok_or (current_epoch m) WitnessNotReady in
    let? entries := unwrap (entries_of (stakes (chain_state m)) own) in
    Ok (MkWitness epoch own (MkVrfInput epoch (hash_prev_vrf (highest_vrf_output ci))) ci ((λ e, withdrawer (ekey e)) <$> head entries)
          (totalize_stakes (evalue <$> entries)) (get_validator_min_stake_nanowits (global_protocol m) epoch) timestamp).

(** The node as a source of outputs for a collateral. *)
Definition node_outputs (m : ChainManager D) (own : PublicKeyHash) : NodeUtxos D :=
  {| all_utxos := unspent_outputs_pool (chain_state m); own_utxos := own_outputs (chain_state m); node_pkh := own |}.

(** Whether the collateral is there, before anything is retrieved. *)
Definition collateral_available (m : ChainManager D) (w : WitnessRound) (v2 : bool) (collateral limit : Z) : option bool :=
  if v2 then Some (negb (bool_decide (wsub U64 (w_available w) (w_minimum w) < collateral)))
  else check_commit_collateral (node_outputs m (w_own w)) collateral (w_timestamp w) limit.

(** The target of the proof for a request: by stake since version 2.0, by reputation before; the engine carries its cache.  A node
    that is not eligible by its stake stops here, also for the requests that are left. *)
Definition request_target (m : ChainManager D) (w : WitnessRound) (rep : ReputationEngine) (st : DataRequestState) (v2 : bool)
    : option (ReputationEngine * (Hash + option WitnessError)) :=
  let s := chain_state m in
  let cc := info_constants (w_info w) in
  if v2 then
    match witnessing_eligibility UNIT (stakes s) (w_own w) (w_epoch w) (witnesses (request st)) (current_commit_round (info st))
            (wadd U16 (cc_extra_rounds cc) 1) with
    | Panic => None
    | Err e => Some (rep, inr (Some (WitnessStaking e)))
    | Ok (EligibleNo _, _, _) => Some (rep, inr None)
    | Ok (EligibleYes, target, _) => Some (rep, inl target)
    end
  else
    '(rep, target) ← calculate_reppoe_threshold calculate_sha256 rep (w_own w) (wadd U16 (witnesses (request st)) (backup_witnesses st))
                       (minimum_difficulty cc) (MkActive (wip_activation (tapi_engine s)) (w_epoch w));
    Some (rep, inl target.1).

(** One request. *)
Definition choose (m : ChainManager D) (w : WitnessRound) (rep : ReputationEngine) (dr_pointer : Hash) (st : DataRequestState)
    : option (ReputationEngine * Choice) :=
  let s := chain_state m in
  let version := get_protocol_version (global_protocol m) (Some (DataRequest.epoch st)) in
  if data_request_has_too_many_witnesses (request st) (validator_count (stakes s)) version then Some (rep, Skip)
  else
    c ← epoch_constants m;
    period ← (match get_epoch_period c (w_epoch w) with Ok p => Some p | _ => None end);
    let v2 := negb (before_v2 version) in
    '(rep, target) ← request_target m w rep st v2;
    match target with
    | inr e => Some (rep, Stop e)
    | inl target =>
        let collateral := effective_collateral (request st) (Consensus.collateral_minimum (info_constants (w_info w))) in
        number ← block_number s;
        let limit := sat_sub number (get_collateral_age env (MkActive (wip_activation (tapi_engine s)) (w_epoch w))) in
        enough ← collateral_available m w v2 collateral limit;
        if enough : bool then
          let message := if v2 then DataRequestV2 (w_vrf w) dr_pointer (w_withdrawer w) else DataRequestV1 (w_vrf w) dr_pointer in
          Some (rep, Attempting (MkAttempt dr_pointer st version target message
                                   (Z.min (U16 - 1) (Z.of_nat (length (retrieve (data_request (request st)))))) collateral (w_available w)
                                   (w_minimum w) period limit (w_timestamp w)))
        else Some (rep, Skip)
    end.

(** The loop: the attempts that were started, also when it stops. *)
Fixpoint choose_all (m : ChainManager D) (w : WitnessRound) (rep : ReputationEngine) (l : list (Hash * DataRequestState))
    : option (ReputationEngine * list Attempt * option WitnessError) :=
  match l with
  | [] => Some (rep, [], None)
  | (h, st) :: l =>
      '(rep, choice) ← choose m w rep h st;
      match choice with
      | Skip => choose_all m w rep l
      | Stop e => Some (rep, [], e)
      | Attempting a =>
          '(rep, attempts, e) ← choose_all m w rep l;
          Some (rep, a :: attempts, e)
      end
  end.

(** The open requests of the epoch. *)
Definition open_requests (m : ChainManager D) (epoch : Z) : list (Hash * DataRequestState) :=
  let q := requests_pool (chain_state m) in
  omap (λ h, (λ st, (h, st)) <$> data_request_pool q !! h) (get_dr_output_pointers_by_epoch q epoch).

(** The first part of [try_mine_data_request]: the attempts, and whether members of the active set may leave out their key. *)
Definition plan (x : Proposer D) (timestamp : Z) : result WitnessError (list Attempt * option WitnessError * bool) :=
  let? w := witness_round x timestamp in
  let m := proposer_manager x in
  let? rep := unwrap (reputation_engine (chain_state m)) in
  if decide (U32 ≤ Z.of_nat (active_identities_number (ars rep))) then Panic
  else
    let? r := unwrap (choose_all m w rep (open_requests m (w_epoch w))) in
    let '(_, attempts, e) := r in
    Ok (attempts, e, is_ars_member rep (w_own w)).

(** ** After the plan *)

(** How far an attempt has come. *)
Inductive Phase :=
  | Proving
  | Resolving (proof : VrfProof) (collateral : list Input * list ValueTransferOutput)
  | Committed
  | Dropped.
(** What the attempts share: the manager, the counter of retrievals and its limit. *)
Record Work := MkWork {
  wk_manager : ChainManager D;
  wk_count : Z;
  wk_max : Z;
  wk_attempts : list (Attempt * Phase);
}.
Definition work_of (m : ChainManager D) (maximum_retrieval_count : Z) (attempts : list Attempt) : Work :=
  MkWork m 0 maximum_retrieval_count ((λ a, (a, Proving)) <$> attempts).

Definition with_own_outputs (own : OwnUnspentOutputsPool) (m : ChainManager D) : ChainManager D :=
  let s := chain_state m in
  with_chain_state m (MkState (chain_info s) (requests_pool s) (block_chain s) own (reputation_engine s) (node_stats s) (alt_keys s)
                        (superblock_state s) (tapi_engine s) (stakes s) (unspent_outputs_pool s)).
Definition with_node_stats (st : NodeStats) (m : ChainManager D) : ChainManager D :=
  let s := chain_state m in
  with_chain_state m (MkState (chain_info s) (requests_pool s) (block_chain s) (own_outputs s) (reputation_engine s) st (alt_keys s)
                        (superblock_state s) (tapi_engine s) (stakes s) (unspent_outputs_pool s)).
Definition count_eligibility (st : NodeStats) : NodeStats :=
  MkStats (block_proposed_count st) (block_mined_count st) (wadd U32 (dr_eligibility_count st) 1) (commits_proposed_count st)
    (Consolidation.commits_count st) (last_block_proposed st) (slashed_count st).
Definition count_commit (st : NodeStats) : NodeStats :=
  MkStats (block_proposed_count st) (block_mined_count st) (dr_eligibility_count st) (wadd U32 (commits_proposed_count st) 1)
    (Consolidation.commits_count st) (last_block_proposed st) (slashed_count st).

(** The collateral once retrievals are reserved: the manager, the counter and the phase. *)
Definition take_collateral (own : PublicKeyHash) (a : Attempt) (proof : VrfProof) (m : ChainManager D) (count : Z)
    : option (ChainManager D * Z * Phase) :=
  if before_v2 (a_version a) then
    match build_commit_collateral (node_outputs m own) (a_collateral a) own (a_timestamp a) (a_period a) (a_block_limit a) with
    | Ret c collateral => Some (with_own_outputs (own_utxos c) m, count, Resolving proof collateral)
    | Fail _ (NoMoney _ _ _) => Some (m, wsub U16 count (a_retrievals a), Dropped)
    | Fail _ _ => Some (m, count, Dropped)
    | Crash => None
    end
  else if decide (a_minimum_stake a < wsub U64 (a_available_stake a) (a_collateral a))
  then Some (m, count, Resolving proof ([], []))
  else Some (m, count, Dropped).

(** The proof arrives: an eligible node reserves its retrievals and its collateral. *)
Definition proof_arrived (own : PublicKeyHash) (a : Attempt) (answer : option (VrfProof * Hash)) (m : ChainManager D) (count maximum : Z)
    : option (ChainManager D * Z * Phase) :=
  match answer with
  | None => Some (m, count, Dropped)
  | Some (proof, proof_hash) =>
      if negb (bool_decide (bytes_le proof_hash (a_target a))) then Some (m, count, Dropped)
      else
        let m := with_node_stats (count_eligibility (node_stats (chain_state m))) m in
        let final_retrieval_count := sat_add U16 count (a_retrievals a) in
        if decide (maximum < final_retrieval_count) then Some (m, count, Dropped)
        else take_collateral own a proof m final_retrieval_count
  end.

(** The answer of the rad manager: an error, sources that disagree, or a value that may not have an encoding. *)
Inductive Retrieved := RetrievalFailed | InconsistentSources | Retrieval (encoded : option (list Z)).
(** What the node sends: a request to resolve, whose sources the rad manager retrieves, or the commit with its reveal. *)
Inductive WitnessEffect := ResolveRA (rad_request : RADRequest) | AddCommitReveal (c : CommitTransaction) (r : RevealTransaction).

(** The bytes to commit to. *)
Definition reveal_bytes (active : ActiveWips) (encode_reveal_error : list Z) (answer : Retrieved) : option (list Z) :=
  match answer with
  | Retrieval (Some bytes) => Some bytes
  | Retrieval None => if wip0026 active then Some encode_reveal_error else None
  | _ => None
  end.

(** The commit and the reveal; each is signed by the signature manager. *)
Definition make_commit (sign : Transaction → option KeyedSignature) (own : PublicKeyHash) (bn256 : option (list Z)) (a : Attempt)
    (proof : VrfProof) (collateral : list Input * list ValueTransferOutput) (bytes : list Z) : option (CommitTransaction * RevealTransaction) :=
  let reveal sigs := Build_RevealTransaction (a_pointer a) bytes own sigs in
  reveal_signature ← sign (Reveal (reveal []));
  let commit sigs :=
    Build_CommitTransaction (a_pointer a) (signature_hash calculate_sha256 reveal_signature) (Build_DataRequestEligibilityClaim proof)
      collateral.1 collateral.2 bn256 sigs in
  commit_signature ← sign (Commit (commit []));
  Some (commit [commit_signature], reveal [reveal_signature]).

(** The result arrives. *)
Definition result_arrived (sign : Transaction → option KeyedSignature) (encode_reveal_error : list Z) (own : PublicKeyHash)
    (bn256 : option (list Z)) (active : ActiveWips) (a : Attempt) (proof : VrfProof) (collateral : list Input * list ValueTransferOutput)
    (answer : Retrieved) (m : ChainManager D) : ChainManager D * Phase * list WitnessEffect :=
  match reveal_bytes active encode_reveal_error answer with
  | None => (m, Dropped, [])
  | Some bytes =>
      match make_commit sign own bn256 a proof collateral bytes with
      | None => (m, Dropped, [])
      | Some (c, r) => (with_node_stats (count_commit (node_stats (chain_state m))) m, Committed, [AddCommitReveal c r])
      end
  end.

Inductive WitnessEvent :=
  | ProofArrived (i : nat) (answer : option (VrfProof * Hash))
  | ResultArrived (i : nat) (answer : Retrieved).

(** One event for one of the attempts. *)
Definition witness_step (sign : Transaction → option KeyedSignature) (encode_reveal_error : list Z) (own : PublicKeyHash)
    (bn256 : option (list Z)) (active : ActiveWips) (e : WitnessEvent) (k : Work) : option (Work * list WitnessEffect) :=
  match e with
  | ProofArrived i answer =>
      match wk_attempts k !! i with
      | Some (a, Proving) =>
          '(m, count, phase) ← proof_arrived own a answer (wk_manager k) (wk_count k) (wk_max k);
          Some (MkWork m count (wk_max k) (<[i := (a, phase)]> (wk_attempts k)),
                match phase with Resolving _ _ => [ResolveRA (data_request (request (a_state a)))] | _ => [] end)
      | _ => Some (k, [])
      end
  | ResultArrived i answer =>
      match wk_attempts k !! i with
      | Some (a, Resolving proof collateral) =>
          let '(m, phase, effects) := result_arrived sign encode_reveal_error own bn256 active a proof collateral answer (wk_manager k) in
          Some (MkWork m (wk_count k) (wk_max k) (<[i := (a, phase)]> (wk_attempts k)), effects)
      | _ => Some (k, [])
      end
  end.
Fixpoint witness_run (sign : Transaction → option KeyedSignature) (encode_reveal_error : list Z) (own : PublicKeyHash)
    (bn256 : option (list Z)) (active : ActiveWips) (l : list WitnessEvent) (k : Work) : option (Work * list WitnessEffect) :=
  match l with
  | [] => Some (k, [])
  | e :: l =>
      '(k, effects) ← witness_step sign encode_reveal_error own bn256 active e k;
      '(k, rest) ← witness_run sign encode_reveal_error own bn256 active l k;
      Some (k, effects ++ rest)
  end.
End witnessing.

(** ** Witnesses

    The retrievals of an epoch stay within their limit in whatever order proofs and results arrive, and the commit of a witness with
    one stake entry is accepted by the validation, with the target that the witness computed. *)

Section witnesses.
Context `{UtxoDb D, FloatOrd}.
Context (env : Environment) (calculate_sha256 : list Z → Hash).
Context (tx_hash : option ProtocolVersion → Transaction → Hash).
Context (parse_public_key : PublicKey → bool) (parse_signature : list Z → bool).
Context (sign : Transaction → option KeyedSignature) (encode_reveal_error : list Z) (own : PublicKeyHash) (bn256 : option (list Z)).
Context (active : ActiveWips).
Implicit Types (a : Attempt) (k : Work (D:=D)).

Abbreviation key_pkh := (Hashes.pkh calculate_sha256).
Abbreviation step := (witness_step calculate_sha256 sign encode_reveal_error own bn256 active).
Abbreviation run := (witness_run calculate_sha256 sign encode_reveal_error own bn256 active).

(** ** Retrievals *)

(** The sources of the requests that were sent to be resolved. *)
Definition sources (r : RADRequest) : Z := Z.of_nat (length (retrieve r)).
Definition sources_sent (effects : list WitnessEffect) : Z :=
  zsum ((λ e, match e with ResolveRA r => sources r | AddCommitReveal _ _ => 0 end) <$> effects).
(** The retrievals of the attempts that were given up; a part of them may have been reserved and never released. *)
Definition giving_up (x : Attempt * Phase) : Z := match x.2 with Dropped => a_retrievals x.1 | _ => 0 end.
Definition given_up k : Z := zsum (giving_up <$> wk_attempts k).

Lemma sources_sent_app l1 l2 : sources_sent (l1 ++ l2) = sources_sent l1 + sources_sent l2.
Proof. unfold sources_sent. by rewrite fmap_app, zsum_app. Qed.

Lemma zsum_insert (f : Attempt * Phase → Z) l i x y :
  l !! i = Some x → zsum (f <$> <[i := y]> l) = zsum (f <$> l) - f x + f y.
Proof.
  revert i. induction l as [|z l IH]; intros [|i] Hi; [done|done| |].
  - injection Hi as ->. change (<[0%nat := y]> (x :: l)) with (y :: l). rewrite !zsum_cons. lia.
  - change (<[S i := y]> (z :: l)) with (z :: <[i := y]> l). rewrite !zsum_cons, (IH i) by done. lia.
Qed.

Definition attempt_typed a : Prop := a_retrievals a = Z.min (U16 - 1) (sources (data_request (request (a_state a)))).
Record work_ok (sent : Z) k : Prop := {
  wo_count : 0 ≤ wk_count k ≤ wk_max k;
  wo_sum : sent ≤ wk_count k ≤ sent + given_up k;
  wo_typed : Forall (λ x, attempt_typed x.1) (wk_attempts k);
}.

Lemma collateral_counts a proof (m : ChainManager D) count m' count' phase :
  0 ≤ a_retrievals a ≤ count → count < U16 →
  take_collateral own a proof m count = Some (m', count', phase) →
  phase = Dropped ∧ (count' = count ∨ count' = count - a_retrievals a) ∨ count' = count ∧ ∃ c, phase = Resolving proof c.
Proof.
  intros Hr Hc. unfold take_collateral. destruct (before_v2 _).
  - destruct (build_commit_collateral _ _ _ _ _ _) as [c col|c e|]; [intros [= <- <- <-]; right; split; [done|by eexists]| |done].
    destruct e; intros [= <- <- <-]; left; (split; [done|]); try (by left). right. unfold wsub. rewrite Z.mod_small; lia.
  - case_decide; intros [= <- <- <-]; [right; split; [done|by eexists]|left; split; [done|by left]].
Qed.

Lemma proof_counts a answer (m : ChainManager D) count maximum m' count' phase :
  0 ≤ a_retrievals a < U16 → 0 ≤ count ≤ maximum → maximum < U16 - 1 →
  proof_arrived own a answer m count maximum = Some (m', count', phase) →
  (phase = Dropped ∧ count ≤ count' ≤ maximum ∧ count' ≤ count + a_retrievals a) ∨ (∃ p c, phase = Resolving p c ∧ count' = count + a_retrievals a ∧ count' ≤ maximum).
Proof.
  intros Ha Hc Hmax. unfold proof_arrived. destruct answer as [[proof hash]|]; [|intros [= <- <- <-]; left; split_and!; [done|lia..]].
  destruct (bool_decide _); cbn [negb]; [|intros [= <- <- <-]; left; split_and!; [done|lia..]].
  case_decide as Hm; [intros [= <- <- <-]; left; split_and!; [done|lia..]|].
  assert (sat_add U16 count (a_retrievals a) = count + a_retrievals a) as Hs by (unfold sat_add, U16 in *; lia). rewrite Hs in *.
  intros [[-> Hcnt]|[-> [c ->]]]%collateral_counts; [| |lia|unfold U16 in *; lia].
  - left. split; [done|]. destruct Hcnt as [->| ->]; lia.
  - right. exists proof, c. split_and!; [done|done|lia].
Qed.

Lemma step_counts sent e k k' effects :
  wk_max k < U16 - 1 → work_ok sent k → step e k = Some (k', effects) →
  work_ok (sent + sources_sent effects) k' ∧ wk_max k' = wk_max k.
Proof.
  intros Hmax Hok Hs. pose proof Hok as [Hc Hsum Ht].
  assert (∀ k0, Some (k, []) = Some (k0, effects) → work_ok (sent + sources_sent effects) k0 ∧ wk_max k0 = wk_max k) as Hsame.
  { intros k0 [= <- <-]. change (sources_sent []) with 0. by rewrite Z.add_0_r. }
  destruct e as [i answer|i answer]; unfold witness_step in Hs;
    (destruct (wk_attempts k !! i) as [[a ph]|] eqn:Hi; [|by apply Hsame]);
    pose proof (proj1 (Forall_lookup _ _) Ht i _ Hi) as Ha; cbn [fst] in Ha; unfold attempt_typed in Ha;
    (assert (0 ≤ a_retrievals a < U16) as Hr by (rewrite Ha; unfold sources, U16; lia)).
  - destruct ph; [|by apply Hsame..].
    destruct (proof_arrived own a answer (wk_manager k) (wk_count k) (wk_max k)) as [[[m c] phase]|] eqn:Hp; [|done].
    cbn [mbind option_bind] in Hs. injection Hs as <- <-.
    pose proof (proof_counts _ _ _ _ _ _ _ _ Hr Hc Hmax Hp) as Hcase. split; [|done].
    split; cbn [wk_count wk_max wk_attempts]; [| |by apply Forall_insert].
    + destruct Hcase as [(_ & ? & _)|(? & ? & _ & -> & ?)]; lia.
    + unfold given_up in *. cbn [wk_attempts]. rewrite (zsum_insert _ _ _ _ _ Hi). change (giving_up (a, Proving)) with 0.
      destruct Hcase as [(-> & ? & ?)|(p' & c' & -> & -> & ?)].
      * change (giving_up (a, Dropped)) with (a_retrievals a). change (sources_sent []) with 0. lia.
      * change (giving_up (a, Resolving p' c')) with 0.
        assert (sources_sent [ResolveRA (data_request (request (a_state a)))] = a_retrievals a) as ->; [|lia].
        unfold sources_sent. cbn. rewrite Ha. unfold sources in *. unfold U16 in *. lia.
  - destruct ph as [|proof col| |]; [by apply Hsame| |by apply Hsame..].
    destruct (result_arrived _ _ _ _ _ _ _ _ _ _ _) as [[m phase] eff] eqn:Hres. injection Hs as <- <-.
    assert ((phase = Committed ∨ phase = Dropped) ∧ sources_sent eff = 0) as [Hph ->].
    { revert Hres. unfold result_arrived. destruct (reveal_bytes _ _ _); [|intros [= <- <- <-]; by split; [right|]].
      destruct (make_commit _ _ _ _ _ _ _ _) as [[c r]|]; intros [= <- <- <-]; (split; [by (left + right)|done]). }
    rewrite Z.add_0_r. split; [|done]. split; cbn [wk_count wk_max wk_attempts]; [done| |by apply Forall_insert].
    unfold given_up in *. cbn [wk_attempts]. rewrite (zsum_insert _ _ _ _ _ Hi). change (giving_up (a, Resolving proof col)) with 0.
    destruct Hph as [->| ->]; [change (giving_up (a, Committed)) with 0|change (giving_up (a, Dropped)) with (a_retrievals a)]; lia.
Qed.

Lemma run_counts l : ∀ sent k k' effects,
  wk_max k < U16 - 1 → work_ok sent k → run l k = Some (k', effects) →
  work_ok (sent + sources_sent effects) k' ∧ wk_max k' = wk_max k.
Proof.
  induction l as [|e l IH]; intros sent k k' effects Hm Hok Hr; cbn [witness_run] in Hr.
  { injection Hr as <- <-. change (sources_sent []) with 0. by rewrite Z.add_0_r. }
  destruct (step e k) as [[k2 eff2]|] eqn:Hs; [|done]. cbn [mbind option_bind] in Hr.
  destruct (run l k2) as [[k3 eff3]|] eqn:Hr2; [|done]. cbn [mbind option_bind] in Hr. injection Hr as <- <-.
  apply (step_counts sent) in Hs as [Hok2 Hm2]; [|lia|done]. rewrite <-Hm2, sources_sent_app, Z.add_assoc.
  apply (IH _ k2); [lia|done|done].
Qed.

(** The attempts of a plan count the sources of their requests. *)
Lemma choose_typed m w rep h st rep' a : choose env calculate_sha256 m w rep h st = Some (rep', Attempting a) → attempt_typed a.
Proof.
  unfold choose. destruct (data_request_has_too_many_witnesses _ _ _); [done|]. intros Hc.
  destruct (epoch_constants m) as [c|]; [|done]. cbn [mbind option_bind] in Hc.
  destruct (match get_epoch_period _ _ with Ok _ => _ | _ => _ end); [|done]. cbn [mbind option_bind] in Hc.
  destruct (request_target _ _ _ _ _ _) as [[rep1 [target|err]]|]; [|done|done]. cbn [mbind option_bind] in Hc.
  destruct (block_number _); [|done]. cbn [mbind option_bind] in Hc.
  destruct (collateral_available _ _ _ _ _) as [[]|]; [|done|done]. by injection Hc as <- <-.
Qed.

Lemma choose_all_typed m w l : ∀ rep rep' attempts e,
  choose_all env calculate_sha256 m w rep l = Some (rep', attempts, e) → Forall attempt_typed attempts.
Proof.
  induction l as [|[h st] l IH]; intros rep rep' attempts e; cbn [choose_all]; [intros [= _ <- _]; constructor|].
  destruct (choose _ _ _ _ _ _ _) as [[rep1 ch]|] eqn:Hc; [|done]. cbn [mbind option_bind].
  destruct ch as [|a|e']; [apply IH| |intros [= _ <- _]; constructor].
  destruct (choose_all _ _ _ _ rep1 l) as [[[rep2 as2] e2]|] eqn:Ha; [|done]. intros [= _ <- _].
  constructor; [by eapply choose_typed|by eapply IH].
Qed.

Lemma plan_typed x timestamp attempts e ars : plan env calculate_sha256 x timestamp = Ok (attempts, e, ars) → Forall attempt_typed attempts.
Proof.
  unfold plan. destruct (witness_round x timestamp) as [w| |]; [|done..]. cbn [rbind].
  destruct (reputation_engine _); [|done]. cbn [unwrap rbind]. case_decide; [done|].
  destruct (choose_all _ _ _ _ _ _) as [[[rep' as'] e']|] eqn:Ha; [|done]. cbn [unwrap rbind]. intros [= <- _ _].
  by eapply choose_all_typed.
Qed.

(** C35. In whatever order proofs and results arrive for the attempts of a plan, the sources of all the requests that the node asks to
    resolve stay within the limit, for every limit below the largest number of 16 bits (at which the counter saturates).  The counter is
    never less than these sources, and exceeds them at most by the retrievals of attempts that were given up: it neither wraps nor is
    it released for sources that were retrieved. *)
Theorem retrievals_limited x timestamp attempts e ars maximum l k effects :
  plan env calculate_sha256 x timestamp = Ok (attempts, e, ars) → 0 ≤ maximum < U16 - 1 →
  run l (work_of (proposer_manager x) maximum attempts) = Some (k, effects) →
  sources_sent effects ≤ wk_count k ≤ sources_sent effects + given_up k ∧ wk_count k ≤ maximum.
Proof.
  intros Hp%plan_typed Hmax Hr.
  destruct (run_counts l 0 (work_of (proposer_manager x) maximum attempts) k effects) as [[Hc Hs _] Hm]; [simpl; lia| |exact Hr|].
  - split; cbn [work_of wk_count wk_max wk_attempts]; [lia| |by apply Forall_fmap].
    unfold given_up. cbn [work_of wk_attempts]. rewrite <-list_fmap_compose.
    change (giving_up ∘ _) with (λ _ : Attempt, 0). rewrite zsum_const. lia.
  - rewrite Z.add_0_l in Hs. cbn [work_of wk_max] in Hm. lia.
Qed.

(** ** The commit *)

(** What an attempt of version 2.0 has captured. *)
Lemma choose_v2 m w rep h st rep' a (version := get_protocol_version (global_protocol m) (Some (DataRequest.epoch st))) :
  choose env calculate_sha256 m w rep h st = Some (rep', Attempting a) → before_v2 version = false →
  (∃ p, witnessing_eligibility UNIT (stakes (chain_state m)) (w_own w) (w_epoch w) (witnesses (request st)) (current_commit_round (info st))
          (wadd U16 (cc_extra_rounds (info_constants (w_info w))) 1) = Ok (EligibleYes, a_target a, p))
  ∧ a_pointer a = h ∧ a_state a = st ∧ a_version a = version ∧ a_message a = DataRequestV2 (w_vrf w) h (w_withdrawer w)
  ∧ a_collateral a = effective_collateral (request st) (Consensus.collateral_minimum (info_constants (w_info w)))
  ∧ a_available_stake a = w_available w ∧ a_minimum_stake a = w_minimum w
  ∧ a_collateral a ≤ wsub U64 (w_available w) (w_minimum w) ∧ 0 ≤ a_retrievals a < U16.
Proof.
  intros Hc Hv. unfold choose in Hc. fold version in Hc. destruct (data_request_has_too_many_witnesses _ _ _); [done|].
  destruct (epoch_constants m) as [c|]; [|done]. cbn [mbind option_bind] in Hc.
  destruct (get_epoch_period c _) as [period| |]; [|done|done]. cbn [mbind option_bind] in Hc. rewrite Hv in Hc. cbn [negb] in Hc.
  unfold request_target in Hc. destruct (witnessing_eligibility _ _ _ _ _ _ _) as [[[[|] target] p]| |] eqn:He; [|done|done|done].
  cbn [mbind option_bind] in Hc. destruct (block_number _) as [n|]; [|done]. cbn [mbind option_bind] in Hc.
  unfold collateral_available in Hc. cbn [mbind option_bind] in Hc. case_bool_decide as Henough; [done|]. injection Hc as <- <-.
  cbn [a_target a_pointer a_state a_version a_message a_collateral a_available_stake a_minimum_stake a_retrievals].
  split_and!; [by exists p|done..|lia|unfold U16; lia|unfold U16; lia].
Qed.

(** C17. The commit that a witness of version 2.0 makes is accepted with the request as it was, when the witness has a single stake entry:
    the signatures that are left to verify are its own, and the proof is checked against the target that it was compared with and for
    the message that was proved, which names the request, the epoch and the withdrawer of the entry. *)
Theorem witness_commit_accepted x timestamp w entry rep rep' h st a proof bytes c reveal sigs reputation u ec age
    number difficulty period (m := proposer_manager x) (s := chain_state m) (cc := info_constants (w_info w)) :
  witness_round x timestamp = Ok w → entries_of (stakes s) (w_own w) = Some [entry] → w_minimum w ≤ coins (evalue entry) < U64 →
  data_request_pool (requests_pool s) !! h = Some st → stage st = COMMIT →
  0 ≤ effective_collateral (request st) (Consensus.collateral_minimum cc) < U64 → 0 ≤ w_minimum w →
  before_v2 (get_protocol_version (global_protocol m) (Some (DataRequest.epoch st))) = false →
  choose env calculate_sha256 m w rep h st = Some (rep', Attempting a) →
  make_commit calculate_sha256 sign (w_own w) bn256 a proof ([], []) bytes = Some (c, reveal) →
  key_pkh (vrf_public_key proof) = w_own w → c_signatures c = [sigs] → key_pkh (public_key sigs) = w_own w →
  parse_signature (signature sigs) = true → parse_public_key (public_key sigs) = true → wip_0008 active = true →
  a_message a = DataRequestV2 (w_vrf w) h (w_withdrawer w) ∧ w_withdrawer w = Some (withdrawer (ekey entry)) ∧
  validate_commit_transaction calculate_sha256 tx_hash parse_public_key parse_signature c (requests_pool s) (w_vrf w) [] reputation
    (w_epoch w) ec u (Consensus.collateral_minimum cc) age number difficulty active period (a_version a) (stakes s)
    (wadd U16 (cc_extra_rounds cc) 1) (w_minimum w)
  = Ok (h, witnesses (request st), commit_and_reveal_fee (request st),
        [SecpTx (public_key sigs) (tx_hash None (Commit c)) (signature sigs);
         VrfDr (c_proof c) (w_vrf w) h (a_target a) (w_withdrawer w) (Some (DataRequest.epoch st))]).
Proof.
  intros Hw He Hcoins Hst Hstage Hcol Hmin Hv2 Hch Hmake Hproof Hsigs Hsign Hps Hpk Hwip. subst s cc m.
  apply choose_v2 in Hch as ((p & Helig) & Ha1 & Ha2 & Hav & Hmsg & Hac & Has & Ham & Hle & _); [|done].
  assert (w_available w = coins (evalue entry) ∧ w_withdrawer w = Some (withdrawer (ekey entry))) as [Hav' Hwd].
  { revert Hw. unfold witness_round. destruct (mining_enabled x); [|done]. cbn [negb].
    destruct (chain_info _) as [ci|]; [|done]. destruct (manager_pkh _) as [own'|]; [|done]. destruct (current_epoch _) as [epoch|]; [|done].
    cbn [rbind ok_or]. destruct (entries_of _ own') as [l|] eqn:Hl; [|done]. cbn [rbind unwrap]. intros [= <-].
    cbn [w_own w_available w_withdrawer] in *. rewrite He in Hl. injection Hl as <-. split; [|done].
    cbn. unfold wit_add. rewrite wadd_small; lia. }
  split; [done|]. split; [done|].
  assert (get_protocol_version (global_protocol (proposer_manager x)) (Some (DataRequest.epoch st)) = V2_0) as Hver by (revert Hv2; by destruct (get_protocol_version _ _)).
  assert (w_minimum w + a_collateral a ≤ coins (evalue entry)) as Hcov.
  { rewrite Hav' in Hle. unfold wsub in Hle. rewrite Z.mod_small in Hle; lia. }
  rewrite Hav, Hver. revert Hmake. unfold make_commit. destruct (sign (Reveal _)) as [rs|]; [|done]. cbn [mbind option_bind].
  destruct (sign (Commit _)) as [cs|]; [|done]. cbn [mbind option_bind]. intros [= <- _].
  cbn [c_signatures] in Hsigs. injection Hsigs as ->.
  unfold validate_commit_transaction. cbn [c_dr_pointer c_proof c_signatures claim_proof]. rewrite Ha1, Hst. cbn [ok_or rbind].
  rewrite (decide_False (P := stage st ≠ COMMIT)) by (intros Hn; by apply Hn).
  unfold commit_eligibility. change (before_v2 V2_0) with false. cbn [rbind]. rewrite Hproof, Helig. cbn [map_err rbind].
  rewrite He. cbn [unwrap rbind head fmap option_fmap option_map].
  unfold validate_commit_change. cbn [c_outputs rbind fst snd]. rewrite <-Hac in *.
  unfold validate_commit_collateral. cbn [c_proof claim_proof c_collateral c_outputs]. change (before_v2 V2_0) with false.
  rewrite Hproof, He. cbn [unwrap rbind head]. rewrite wadd_small by lia. rewrite decide_False by lia. cbn [rbind collateral_sum].
  change (tx_err (transaction_outputs_sum [])) with (Ok 0 : result Failure Z). cbn [rbind]. rewrite decide_False by lia.
  rewrite Hwip, Hwd. unfold validate_commit_reveal_signature. rewrite Hps, Hpk. cbn [negb rbind fst snd app].
  repeat case_decide; done.
Qed.
End witnesses.
