(* ===== verification/Admission.v ===== *)
(** * Admission of transactions

    Models [ChainManager::add_transaction] of node/src/actors/chain_manager/mod.rs: a transaction that arrives is validated against the
    state of the chain, its signatures are verified by another actor while the node goes on with other messages, and then it is
    inserted into the pool.  The two halves are two steps, and [Elsewhere] is whatever other messages do in between.
    [None] is a panic. *)

From stdpp Require Import base tactics numbers list gmap.
From Stdlib Require Import ZArith Lia.
From S2P Require Import Prelude Stake Stakes Trs Ars Hashes Superblock Versioning Tapi Merkle Rad Float Storage UtxoDb Utxo.
From S2P Require Import RepEngine Eligibility Epoch RadScript Transaction DataRequest TxFactory Consensus Validation BlockValidation TxPool.
From S2P Require Import Consolidation ChainManager.
Local Open Scope Z_scope.
Local Open Scope rust_scope.

#[export] Instance Transaction_eq_dec : EqDecision Transaction.
Proof. solve_decision. Defined.

(** The fields of the chain manager that only this function uses. *)
Record Node (D : Type) := MkNode {
  node_manager : ChainManager D;
  seen_transactions : list Transaction;
  temp_reveals : list RevealTransaction;
}.
Arguments MkNode {D} _ _ _.
Arguments node_manager {D} _.
Arguments seen_transactions {D} _.
Arguments temp_reveals {D} _.

Definition with_mempool {D} (p : TransactionsPool) (n : Node D) : Node D :=
  let m := node_manager n in
  MkNode (MkManager (global_protocol m) (chain_state m) p (manager_pkh m) (epoch_constants m) (sm_state m) (vrf_ctx m)
            (priority_engine m) (current_epoch m) (best_candidate m) (candidates m) (seen_candidates m))
    (seen_transactions n) (temp_reveals n).

Inductive AddError := NotSynced (s : StateMachine) | NotReady | PoolRefused (e : TransactionError) | Invalid (e : Failure).
(** The answer of the first half: an error, nothing to do, or signatures to verify. *)
Inductive Answer := Failed (e : AddError) | Done | Verifying (fee : Z) (signatures : list SignaturesToVerify).

Section admission.
Context `{UtxoDb D, FloatOrd}.
Context (env : Environment) (calculate_sha256 : list Z → Hash).
Context (tx_hash : option ProtocolVersion → Transaction → Hash).
Context (verify : PublicKey → list Z → list Z → bool) (parse_public_key : PublicKey → bool) (parse_signature : list Z → bool).
Context (verify_block_proof : list Z * PublicKey → CheckpointVRF → option Hash).
Context (verify_v1 : DataRequestEligibilityClaim → CheckpointVRF → Hash → option Hash).
Context (verify_v2 : DataRequestEligibilityClaim → CheckpointVRF → Hash → option PublicKeyHash → option Hash).
Context (from_slice : list Z → option Value) (from_value_u8 : Value → option Z).

Abbreviation verify_all pinfo :=
  (verify_signatures pinfo calculate_sha256 verify parse_public_key parse_signature verify_block_proof verify_v1 verify_v2).

(** The version under which a transaction is validated: for a commit, that of its request. *)
Definition admission_version (m : ChainManager D) (epoch : Z) (t : Transaction) : ProtocolVersion :=
  let version_of e := get_protocol_version (global_protocol m) (Some e) in
  match t with
  | Commit c =>
      match data_request_pool (requests_pool (chain_state m)) !! c_dr_pointer c with
      | Some st => version_of (DataRequest.epoch st)
      | None => version_of epoch
      end
  | _ => version_of epoch
  end.

(** [validate_new_transaction] on the state of the node; the block number is an [unwrap]. *)
Definition validate_on (m : ChainManager D) (ci : ChainInfo) (rep : ReputationEngine) (epoch : Z) (c : EpochConstants) (t : Transaction)
    : result Failure (Z * list SignaturesToVerify) :=
  let s := chain_state m in
  let cc := info_constants ci in
  let wips := MkActive (wip_activation (tapi_engine s)) epoch in
  let? number := unwrap (block_number s) in
  validate_new_transaction (global_protocol m) env calculate_sha256 tx_hash verify parse_public_key parse_signature from_slice from_value_u8
    t rep (unspent_outputs_pool s) (requests_pool s) (MkVrfInput epoch (hash_prev_vrf (highest_vrf_output ci))) epoch c number []
    (Consensus.collateral_minimum cc) (get_collateral_age env wips) (max_vt_weight cc) (max_dr_weight cc) (minimum_difficulty cc)
    PSEUDO_CONSENSUS_CONSTANTS_WIP0022_REWARD_COLLATERAL_RATIO wips (superblock_period cc) (stakes s) (admission_version m epoch t)
    (wadd U16 (cc_extra_rounds cc) 1).

(** Transactions are taken once the node is synced; the reveals of the node itself always are. *)
Definition takes (m : ChainManager D) (t : Transaction) : bool :=
  match sm_state m with
  | Synced | AlmostSynced => true
  | _ => match t, manager_pkh m with
         | Reveal r, Some own => bool_decide (r_pkh r = own)
         | _, _ => false
         end
  end.

(** Commits and reveals that arrive after the time to mine. *)
Definition too_late (c : EpochConstants) (epoch timestamp_now : Z) (t : Transaction) : option bool :=
  match t with
  | Commit _ | Reveal _ =>
      match block_mining_timestamp c epoch with
      | Ok timestamp_mining => Some (bool_decide (timestamp_mining < timestamp_now))
      | _ => None
      end
  | _ => Some false
  end.

(** The first half of [add_transaction]. *)
Definition add_transaction (t : Transaction) (timestamp_now : Z) (n : Node D) : option (Node D * Answer) :=
  let m := node_manager n in
  if negb (takes m t) then Some (n, Failed (NotSynced (sm_state m)))
  else if decide (t ∈ seen_transactions n) then Some (n, Done)
  else
    let n := MkNode m (t :: seen_transactions n) (temp_reveals n) in
    match contains (tx_hash None) calculate_sha256 (transactions_pool m) t with
    | Panic => None
    | Err e => Some (n, Failed (PoolRefused e))
    | Ok true => Some (n, Done)
    | Ok false =>
        let n := with_mempool (insert_unconfirmed_transactions (transactions_pool m) (tx_hash None t)) n in
        match chain_info (chain_state m), reputation_engine (chain_state m), current_epoch m, epoch_constants m with
        | Some ci, Some rep, Some epoch, Some c =>
            late ← too_late c epoch timestamp_now t;
            if late : bool then
              Some (match t with Reveal r => MkNode (node_manager n) (seen_transactions n) (temp_reveals n ++ [r]) | _ => n end, Done)
            else
              match validate_on m ci rep epoch c t with
              | Panic => None
              | Err e => Some (n, Failed (Invalid e))
              | Ok (fee, signatures) => Some (n, Verifying fee signatures)
              end
        | _, _, _, _ => Some (n, Failed NotReady)
        end
    end.

(** ** Runs *)

(** A transaction whose signatures are being verified. *)
Record Pending := MkPending { p_tx : Transaction; p_tx_fee : Z; p_signatures : list SignaturesToVerify; p_broadcast : bool }.

Inductive AddEvent :=
  | Receive (t : Transaction) (timestamp_now : Z) (broadcast_flag : bool)
  | SignaturesVerified (i : nat)
  | Elsewhere (m : ChainManager D)
  | NewEpoch.
Inductive AddEffect := BroadcastTransaction (t : Transaction) | InsertedTransaction (t : Transaction) (fee : Z).

(** The second half: a valid transaction is broadcast and inserted. *)
Definition after_verification (p : Pending) (n : Node D) : option (Node D * list AddEffect) :=
  match verify_all (global_protocol (node_manager n)) (p_signatures p) with
  | Panic => None
  | Err _ => Some (n, [])
  | Ok _ =>
      match insert (tx_hash None) calculate_sha256 (transactions_pool (node_manager n)) (p_tx p) (p_tx_fee p) with
      | Ret pool _ => Some (with_mempool pool n, (if p_broadcast p then [BroadcastTransaction (p_tx p)] else []) ++ [InsertedTransaction (p_tx p) (p_tx_fee p)])
      | _ => None
      end
  end.

Definition add_step (e : AddEvent) (s : Node D * list Pending) : option (Node D * list Pending * list AddEffect) :=
  let '(n, pending) := s in
  match e with
  | Receive t now broadcast =>
      '(n, answer) ← add_transaction t now n;
      Some (n, match answer with Verifying fee sigs => pending ++ [MkPending t fee sigs broadcast] | _ => pending end, [])
  | SignaturesVerified i =>
      match pending !! i with
      | Some p => '(n, effects) ← after_verification p n; Some (n, delete i pending, effects)
      | None => Some (n, pending, [])
      end
  | Elsewhere m => Some (MkNode m (seen_transactions n) (temp_reveals n), pending, [])
  | NewEpoch => Some (MkNode (node_manager n) [] (temp_reveals n), pending, [])
  end.
Fixpoint add_run (l : list AddEvent) (s : Node D * list Pending) : option (Node D * list Pending * list AddEffect) :=
  match l with
  | [] => Some (s, [])
  | e :: l =>
      '(s, effects) ← add_step e s;
      '(s, rest) ← add_run l s;
      Some (s, effects ++ rest)
  end.
End admission.

(** ** Admitted transactions

    Whatever other messages do between the validation of a transaction and the verification of its signatures, what enters the pool
    was validated with the fee that it is inserted with, and it enters at most as often as there were epochs. *)

Section admitted.
Context `{UtxoDb D, FloatOrd}.
Context (env : Environment) (calculate_sha256 : list Z → Hash).
Context (tx_hash : option ProtocolVersion → Transaction → Hash).
Context (verify : PublicKey → list Z → list Z → bool) (parse_public_key : PublicKey → bool) (parse_signature : list Z → bool).
Context (verify_block_proof : list Z * PublicKey → CheckpointVRF → option Hash).
Context (verify_v1 : DataRequestEligibilityClaim → CheckpointVRF → Hash → option Hash).
Context (verify_v2 : DataRequestEligibilityClaim → CheckpointVRF → Hash → option PublicKeyHash → option Hash).
Context (from_slice : list Z → option Value) (from_value_u8 : Value → option Z).
Implicit Types (n : Node D) (t : Transaction).

Abbreviation verify_all pinfo :=
  (verify_signatures pinfo calculate_sha256 verify parse_public_key parse_signature verify_block_proof verify_v1 verify_v2).
Abbreviation add := (add_transaction env calculate_sha256 tx_hash verify parse_public_key parse_signature from_slice from_value_u8).
Abbreviation validated := (validate_on env calculate_sha256 tx_hash verify parse_public_key parse_signature from_slice from_value_u8).
Abbreviation step :=
  (add_step env calculate_sha256 tx_hash verify parse_public_key parse_signature verify_block_proof verify_v1 verify_v2 from_slice from_value_u8).
Abbreviation run :=
  (add_run env calculate_sha256 tx_hash verify parse_public_key parse_signature verify_block_proof verify_v1 verify_v2 from_slice from_value_u8).

(** The transactions that were inserted. *)
Definition inserted (effects : list AddEffect) : list Transaction :=
  omap (λ e, match e with InsertedTransaction t _ => Some t | _ => None end) effects.

(** How often a transaction is in a list, and the epochs that a run saw after the first one. *)
Definition occurrences t (l : list Transaction) : nat := length (filter (λ x, x = t) l).
Definition new_epochs (l : list (AddEvent (D:=D))) : nat :=
  length (omap (λ e, match e with NewEpoch => Some tt | _ => None end) l).

Lemma occurrences_app t l k : occurrences t (l ++ k) = (occurrences t l + occurrences t k)%nat.
Proof. unfold occurrences. by rewrite filter_app, length_app. Qed.
Lemma occurrences_perm t l k : l ≡ₚ k → occurrences t l = occurrences t k.
Proof. intros Hp. unfold occurrences. by rewrite Hp. Qed.
Lemma new_epochs_app l k : new_epochs (l ++ k) = (new_epochs l + new_epochs k)%nat.
Proof. unfold new_epochs. by rewrite omap_app, length_app. Qed.

(** The node took the transaction and it was valid on the state of that moment. *)
Definition valid_now n t (fee : Z) (sigs : list SignaturesToVerify) : Prop :=
  let m := node_manager n in
  takes m t = true ∧ t ∉ seen_transactions n
  ∧ ∃ ci rep epoch c, chain_info (chain_state m) = Some ci ∧ reputation_engine (chain_state m) = Some rep
    ∧ current_epoch m = Some epoch ∧ epoch_constants m = Some c ∧ validated m ci rep epoch c t = Ok (fee, sigs).
(** It was received in the run [l] from [n0] and was valid then. *)
Definition was_valid n0 (l : list AddEvent) t (fee : Z) (sigs : list SignaturesToVerify) : Prop :=
  ∃ l1 now broadcast l2 n1 pending1 effects1,
    l = l1 ++ Receive t now broadcast :: l2 ∧ run l1 (n0, []) = Some (n1, pending1, effects1) ∧ valid_now n1 t fee sigs.

Lemma was_valid_later n0 l e t fee sigs : was_valid n0 l t fee sigs → was_valid n0 (l ++ [e]) t fee sigs.
Proof.
  intros (l1 & now & bc & l2 & n1 & p1 & e1 & -> & Hr & Hv). exists l1, now, bc, (l2 ++ [e]), n1, p1, e1. split; [|done].
  by rewrite <-app_assoc.
Qed.

Lemma run_snoc l e s :
  run (l ++ [e]) s = ('(s1, eff1) ← run l s; '(s2, eff2) ← step e s1; Some (s2, eff1 ++ eff2)).
Proof.
  revert s. induction l as [|x l IH]; intros s; cbn [app add_run].
  - cbn [mbind option_bind]. destruct (step e s) as [[s2 eff2]|]; [|done]. cbn [mbind option_bind]. by rewrite app_nil_r.
  - destruct (step x s) as [[s1 eff1]|]; [|done]. cbn [mbind option_bind]. rewrite IH.
    destruct (run l s1) as [[s2 eff2]|]; [|done]. cbn [mbind option_bind].
    destruct (step e s2) as [[s3 eff3]|]; [|done]. cbn [mbind option_bind]. by rewrite app_assoc.
Qed.

(** What the first half does to the transactions that were seen. *)
Lemma add_spec t now n n' answer :
  add t now n = Some (n', answer) →
  (seen_transactions n' = seen_transactions n ∨ seen_transactions n' = t :: seen_transactions n)
  ∧ ∀ fee sigs, answer = Verifying fee sigs → valid_now n t fee sigs ∧ seen_transactions n' = t :: seen_transactions n.
Proof.
  unfold add_transaction. destruct (takes (node_manager n) t) eqn:Ht; cbn [negb]; [|intros [= <- <-]; by split; [left|]].
  case_decide as Hs; [intros [= <- <-]; by split; [left|]|].
  destruct (contains _ _ _ _) as [[]|e|]; [intros [= <- <-]; by split; [right|]| |intros [= <- <-]; by split; [right|]|done].
  destruct (chain_info _) as [ci|] eqn:Hci; [|intros [= <- <-]; by split; [right|]].
  destruct (reputation_engine _) as [rep|] eqn:Hrep; [|intros [= <- <-]; by split; [right|]].
  destruct (current_epoch _) as [epoch|] eqn:He; [|intros [= <- <-]; by split; [right|]].
  destruct (epoch_constants _) as [c|] eqn:Hc; [|intros [= <- <-]; by split; [right|]].
  destruct (too_late _ _ _ _) as [[]|]; cbn [mbind option_bind]; [intros [= <- <-]; split; [right; by destruct t|done]| |done].
  destruct (validated _ _ _ _ _ _) as [[fee sigs]|e|] eqn:Hv; [|intros [= <- <-]; by split; [right|]|done].
  intros [= <- <-]. split; [by right|]. intros fee' sigs' [= <- <-]. split; [|done]. split; [done|]. split; [done|].
  by exists ci, rep, epoch, c.
Qed.

Lemma verification_spec p n n' effects :
  after_verification calculate_sha256 tx_hash verify parse_public_key parse_signature verify_block_proof verify_v1 verify_v2 p n
    = Some (n', effects) →
  seen_transactions n' = seen_transactions n
  ∧ (inserted effects = [] ∨ inserted effects = [p_tx p])
  ∧ ∀ t fee, InsertedTransaction t fee ∈ effects → t = p_tx p ∧ fee = p_tx_fee p ∧ ∃ pinfo hs, verify_all pinfo (p_signatures p) = Ok hs.
Proof.
  unfold after_verification. destruct (verify_all _ _) as [hs|e|] eqn:Hv; [|intros [= <- <-]; split_and!; [done|by left|by intros ? ? ?%elem_of_nil]|done].
  destruct (insert _ _ _ _ _) as [pool x| |]; [|done|done]. intros [= <- <-]. split; [done|]. split.
  - right. unfold inserted. rewrite omap_app. by destruct (p_broadcast p).
  - intros t fee Hin. apply elem_of_app in Hin as [Hin|Hin].
    + destruct (p_broadcast p); [|by apply elem_of_nil in Hin]. by apply list_elem_of_singleton in Hin.
    + apply list_elem_of_singleton in Hin as [= -> ->]. split_and!; [done|done|]. by exists (global_protocol (node_manager n)), hs.
Qed.

(** What holds after a run [l] from [n0] without pending transactions. *)
Record run_ok n0 (l : list AddEvent) n (pending : list Pending) (effects : list AddEffect) : Prop := {
  ro_pending p : p ∈ pending → was_valid n0 l (p_tx p) (p_tx_fee p) (p_signatures p);
  ro_inserted t fee : InsertedTransaction t fee ∈ effects →
    ∃ sigs pinfo hs, was_valid n0 l t fee sigs ∧ verify_all pinfo sigs = Ok hs;
  ro_once t : (occurrences t ((p_tx <$> pending) ++ inserted effects)
               ≤ new_epochs l + if decide (t ∈ seen_transactions n) then 1 else 0)%nat;
}.

Lemma receive_ok n0 l n pending effects t now broadcast n' answer :
  run l (n0, []) = Some (n, pending, effects) → run_ok n0 l n pending effects → add t now n = Some (n', answer) →
  run_ok n0 (l ++ [Receive t now broadcast]) n'
    (match answer with Verifying fee sigs => pending ++ [MkPending t fee sigs broadcast] | _ => pending end) effects.
Proof.
  intros Hrun [Hp Hi Ho] [Hseen Hver]%add_spec.
  assert (∀ x, x ∈ seen_transactions n → x ∈ seen_transactions n') as Hmono.
  { intros x Hx. destruct Hseen as [->| ->]; [done|by right]. }
  split.
  - intros p Hin. destruct answer as [e| |fee sigs]; [by apply was_valid_later, Hp..|].
    apply elem_of_app in Hin as [Hin|Hin]; [by apply was_valid_later, Hp|]. apply list_elem_of_singleton in Hin as ->.
    exists l, now, broadcast, [], n, pending, effects. destruct (Hver fee sigs eq_refl). by split_and!.
  - intros t' fee Hin. destruct (Hi t' fee Hin) as (sigs & pinfo & hs & Hw & Hv). exists sigs, pinfo, hs. split; [by apply was_valid_later|done].
  - intros t'. rewrite new_epochs_app. change (new_epochs [Receive t now broadcast]) with 0%nat. specialize (Ho t').
    assert (∀ k : nat, k ≤ new_epochs l + (if decide (t' ∈ seen_transactions n) then 1 else 0) →
              k ≤ new_epochs l + 0 + (if decide (t' ∈ seen_transactions n') then 1 else 0))%nat as Hgrow.
    { intros k Hk. destruct (decide (t' ∈ seen_transactions n)) as [Hin%Hmono|]; [rewrite decide_True by done; lia|]. case_decide; lia. }
    destruct answer as [e| |fee sigs]; [by apply Hgrow..|].
    destruct (Hver fee sigs eq_refl) as [(_ & Hnew & _) Hs']. rewrite fmap_app, <-app_assoc. cbn [fmap list_fmap p_tx app].
    rewrite (occurrences_perm t' _ (t :: (p_tx <$> pending) ++ inserted effects)) by (by rewrite Permutation_middle).
    unfold occurrences in *. rewrite filter_cons. destruct (decide (t = t')) as [<-|Hne]; [|by apply Hgrow].
    rewrite decide_False in Ho by done. rewrite Hs', decide_True by left. simpl. lia.
Qed.

Lemma settle_ok n0 l n pending effects i p n' eff :
  run_ok n0 l n pending effects → pending !! i = Some p →
  after_verification calculate_sha256 tx_hash verify parse_public_key parse_signature verify_block_proof verify_v1 verify_v2 p n = Some (n', eff) →
  run_ok n0 (l ++ [SignaturesVerified i]) n' (delete i pending) (effects ++ eff).
Proof.
  intros [Hp Hi Ho] Hpi (Hseen & Hins & Hnew)%verification_spec.
  assert (p ∈ pending) as Hin by (by eapply list_elem_of_lookup_2).
  assert (pending ≡ₚ p :: delete i pending) as Hperm by (by apply delete_Permutation).
  split.
  - intros p' Hp'. apply was_valid_later, Hp. rewrite Hperm. by right.
  - intros t fee [Hold|He]%elem_of_app.
    + destruct (Hi t fee Hold) as (sigs & pinfo & hs & Hw & Hv). exists sigs, pinfo, hs. split; [by apply was_valid_later|done].
    + destruct (Hnew t fee He) as (-> & -> & pinfo & hs & Hv). exists (p_signatures p), pinfo, hs. split; [by apply was_valid_later, Hp|done].
  - intros t. rewrite Hseen, new_epochs_app. change (new_epochs [SignaturesVerified i]) with 0%nat. specialize (Ho t).
    rewrite (occurrences_perm t _ ((p_tx <$> delete i pending) ++ inserted effects ++ [p_tx p])) in Ho
      by (rewrite Hperm at 1; rewrite fmap_cons, app_assoc; apply Permutation_cons_append).
    rewrite !occurrences_app in Ho. rewrite occurrences_app. unfold inserted in *. rewrite omap_app.
    fold (inserted effects) in *. fold (inserted eff) in *. rewrite occurrences_app.
    destruct Hins as [->| ->]; [change (occurrences t []) with 0%nat|]; lia.
Qed.

Lemma run_ok_other n0 l n n' pending effects e :
  run_ok n0 l n pending effects →
  seen_transactions n' = seen_transactions n ∧ new_epochs [e] = 0%nat ∨ e = NewEpoch ∧ seen_transactions n' = [] →
  run_ok n0 (l ++ [e]) n' pending effects.
Proof.
  intros [Hp Hi Ho] Hs. split.
  - intros p Hin. by apply was_valid_later, Hp.
  - intros t fee Hin. destruct (Hi t fee Hin) as (sigs & pinfo & hs & Hw & Hv). exists sigs, pinfo, hs. split; [by apply was_valid_later|done].
  - intros t. specialize (Ho t). rewrite new_epochs_app. destruct Hs as [[-> ->]|[-> ->]]; [by rewrite Nat.add_0_r|].
    rewrite (decide_False (P := t ∈ [])) by apply not_elem_of_nil. change (new_epochs [NewEpoch]) with 1%nat. case_decide; lia.
Qed.

Lemma run_valid n0 l n pending effects : run l (n0, []) = Some (n, pending, effects) → run_ok n0 l n pending effects.
Proof.
  revert n pending effects. induction l as [|e l IH] using rev_ind; intros n pending effects Hrun.
  { injection Hrun as <- <- <-. split; [by intros p ?%elem_of_nil|by intros t fee ?%elem_of_nil|]. intros t. apply Nat.le_0_l. }
  rewrite run_snoc in Hrun. destruct (run l (n0, [])) as [[[n1 p1] e1]|] eqn:Hl; [|done]. cbn [mbind option_bind] in Hrun.
  specialize (IH _ _ _ eq_refl). destruct e as [t now bc|i|m|]; cbn [add_step] in Hrun.
  - destruct (add t now n1) as [[n2 answer]|] eqn:Ha; [|done]. cbn [mbind option_bind] in Hrun. injection Hrun as <- <- <-.
    rewrite app_nil_r. by eapply receive_ok.
  - destruct (p1 !! i) as [p|] eqn:Hpi.
    + destruct (after_verification _ _ _ _ _ _ _ _ p n1) as [[n2 eff]|] eqn:Hv; [|done]. cbn [mbind option_bind] in Hrun.
      injection Hrun as <- <- <-. by eapply settle_ok.
    + cbn [mbind option_bind] in Hrun. injection Hrun as <- <- <-. rewrite app_nil_r. apply (run_ok_other n0 l n1); [done|by left].
  - cbn [mbind option_bind] in Hrun. injection Hrun as <- <- <-. rewrite app_nil_r. apply (run_ok_other n0 l n1); [done|by left].
  - cbn [mbind option_bind] in Hrun. injection Hrun as <- <- <-. rewrite app_nil_r. apply (run_ok_other n0 l n1); [done|by right].
Qed.

(** C18. From the start of the node, when no verification is pending, a transaction enters the pool only with the fee for which it was
    valid on the state of the node when it was received, with the signatures collected then verified, whatever happens in between.  It
    enters at most as often as epochs have started: what was seen is forgotten at each epoch, and the pool is not asked again. *)
Theorem admission_sound n0 l n pending effects :
  run l (n0, []) = Some (n, pending, effects) →
  (∀ t fee, InsertedTransaction t fee ∈ effects →
     ∃ sigs pinfo hs, was_valid n0 l t fee sigs ∧ verify_all pinfo sigs = Ok hs)
  ∧ ∀ t, (occurrences t (inserted effects) ≤ 1 + new_epochs l)%nat.
Proof.
  intros [_ Hi Ho]%run_valid. split; [done|]. intros t. specialize (Ho t). rewrite occurrences_app in Ho. case_decide; lia.
Qed.
End admitted.
