(* ===== verification/NodeExamples.v ===== *)
(** * A node at work

    A transfer that is admitted and mined, and requests that a witness resolves: the theorems on these parts of the chain manager at
    concrete inputs, and what the parts do outside their hypotheses. *)

From stdpp Require Import base tactics numbers list gmap sorting strings.
From Stdlib Require Import ZArith Lia.
From S2P Require Import Prelude Stake Stakes Trs Ars Hashes Superblock Versioning Tapi Merkle Rad Float Priority Storage UtxoDb Utxo.
From S2P Require Import RepEngine Eligibility Epoch RadScript Transaction DataRequest TxPool TxFactory Consensus Validation BlockValidation.
From S2P Require Import UtxoDbCorrect UtxoCorrect SuperblockCorrect BlockExamples Consolidation ChainManager ChainManagerCorrect.
From S2P Require Import TxPoolBlock Mining MiningExamples Propose Witnessing Admission.
Local Open Scope Z_scope.
Local Open Scope rust_scope.

#[local] Existing Instances toy_codecs toy_codec_laws.

(** ** A transfer is admitted *)

Abbreviation ex_admit := (add_run Development ex_sha256 ex_tx_hash ex_verify ex_parse_key ex_parse_sig (λ _ _, Some [0]) (λ _ _ _, None)
  (λ _ _ _ _, None) ex_from_slice ex_from_value).
Definition ex_events : list (AddEvent (D:=ex_db)) :=
  [Receive (ValueTransfer ex_transfer) 0 true; Receive (ValueTransfer ex_transfer) 0 true; SignaturesVerified 0].
Definition ex_node : Node ex_db := MkNode node [] [].

(** [admission_sound] on it: the second copy is seen already. *)
Lemma admission_sound_witness :
  ∃ n pending effects, ex_admit ex_events (ex_node, []) = Some (n, pending, effects)
  ∧ InsertedTransaction (ValueTransfer ex_transfer) 3 ∈ effects
  ∧ (occurrences (ValueTransfer ex_transfer) (inserted effects) ≤ 1)%nat.
Proof.
  assert (snd <$> ex_admit ex_events (ex_node, [])
    = Some [BroadcastTransaction (ValueTransfer ex_transfer); InsertedTransaction (ValueTransfer ex_transfer) 3]) as He by (vm_compute; reflexivity).
  destruct (ex_admit ex_events (ex_node, [])) as [[[n pending] effects]|] eqn:Hr; [|discriminate He].
  exists n, pending, effects. split; [reflexivity|]. split.
  - cbn [fmap option_fmap option_map snd] in He. injection He as ->. right. left.
  - exact (proj2 (admission_sound Development ex_sha256 ex_tx_hash ex_verify ex_parse_key ex_parse_sig (λ _ _, Some [0]) (λ _ _ _, None)
      (λ _ _ _ _, None) ex_from_slice ex_from_value ex_node ex_events n pending effects Hr) (ValueTransfer ex_transfer)).
Defined.

(** A transaction that is received again in the next epoch, while its signatures are still being verified, is verified twice and then
    inserted twice: its weight is counted twice in the pool, which holds it once. *)
Example admitted_twice :
  (λ r, let p := transactions_pool (node_manager r.1.1) in
        (occurrences (ValueTransfer ex_transfer) (inserted r.2), size (entries (vts p)), total_weight (vts p)))
    <$> ex_admit [Receive (ValueTransfer ex_transfer) 0 true; NewEpoch; Receive (ValueTransfer ex_transfer) 0 true;
                  SignaturesVerified 0; SignaturesVerified 0] (ex_node, [])
  = Some (2%nat, 1%nat, 2 * vt_weight ex_transfer).
Proof. by vm_compute. Qed.

(** ** The node proposes a block *)

Abbreviation ex_try_mine := (try_mine_block Development ex_sha256 ex_tx_hash ex_header_hash ex_concat [] ex_verify ex_parse_key ex_parse_sig
  (λ _ _, Some [0]) (λ _ _ _, None) (λ _ _ _ _, None) (λ _, Some [5]) ex_from_slice ex_from_value ex_try_tally ex_unknown ex_encode_error demo_visit
  (λ _, Some (([], ex_key 3), [0])) (λ _, Some (ex_sig 3))).
Definition ex_proposer : Proposer ex_db :=
  MkProposer (with_pools mi_pool (requests_pool (chain_state node)) node) true (Some [8]) 50 None false.
Definition ex_round : Round := MkRound 6 [3] ex_epochs node_info.

Lemma proposal_sound_witness :
  ∃ x' messages b, ex_try_mine ex_proposer = Ok (x', messages, Some b)
  ∧ value_transfer_txns (txns b) = [ex_transfer] ∧ sm_state (proposer_manager ex_proposer) = Synced
  ∧ same_chain (proposer_manager ex_proposer) (proposer_manager x').
Proof.
  assert (match ex_try_mine ex_proposer with Ok (_, _, Some b) => value_transfer_txns (txns b) | _ => [] end = [ex_transfer]) as Hb
    by (vm_compute; reflexivity).
  destruct (ex_try_mine ex_proposer) as [[[x' messages] [b|]]| |] eqn:Hr; [|discriminate Hb..].
  exists x', messages, b. split; [reflexivity|]. split; [exact Hb|].
  destruct (proposal_sound Development ex_sha256 ex_tx_hash ex_header_hash ex_concat [] ex_verify ex_parse_key ex_parse_sig
    (λ _ _, Some [0]) (λ _ _ _, None) (λ _ _ _ _, None) (λ _, Some [5]) ex_from_slice ex_from_value ex_try_tally ex_unknown ex_encode_error demo_visit
    (λ _, Some (([], ex_key 3), [0])) (λ _, Some (ex_sig 3)) ex_proposer x' messages (Some b) Hr) as [Hsame Hall].
  destruct (Hall b eq_refl) as (_ & Hst & _). split; [exact Hst|exact Hsame].
Defined.

(** The header that the miner signs. *)
Definition ex_own_block : Block :=
  MkBlock {| signals := 511; beacon := MkBeacon 6 [9]; merkle_roots := block_roots ex_tx_hash ex_concat [] V1_7 (no_txns 6 []);
             Superblock.proof := ([], ex_key 3); bn256_public_key := None |} (ex_sig 3) (no_txns 6 []).
Lemma mined_header_witness :
  validate_block ex_info ex_sha256 ex_tx_hash ex_header_hash ex_concat [] ex_parse_key ex_parse_sig ex_own_block 6 (MkVrfInput 6 [7])
    (MkBeacon 6 [9]) [] (engine_new 10) ex_constants (MkActive {[ "WIP0008"%string := 0 ]} 6) stakes_default V1_7
    (get_replication_factor ex_info 6 4)
  = Ok [VrfBlock ([], ex_key 3) (MkVrfInput 6 [7]) (replicate 32 255); SecpBlock (ex_key 3) (replicate 32 6) [3]].
Proof.
  exact (mined_header_accepted ex_sha256 ex_tx_hash ex_header_hash ex_concat [] ex_parse_key ex_parse_sig ex_proposer ex_round (replicate 32 255)
    ex_own_block (engine_new 10) eq_refl eq_refl eq_refl eq_refl eq_refl eq_refl eq_refl eq_refl ltac:(discriminate)).
Defined.

(** ** The node is a witness *)

(** Stakes from epoch 1: the validator, the withdrawer and the coins. *)
Definition ex_stakes (l : list (Z * Z * Z)) : StakesTracker :=
  foldl (λ st x, match add_stake UNIT st (MkKey [x.1.1] [x.1.2]) x.2 1 true 10000000000000 with Ret st' _ => st' | _ => st end)
    stakes_default l.
Definition ex_asked (witnesses collateral : Z) : DataRequestOutput :=
  {| data_request := data_request ex_request; witness_reward := 1; witnesses := witnesses; commit_and_reveal_fee := 1;
     min_consensus_percentage := 51; dro_collateral := collateral |}.
(** Requests that wait for commits, with the epochs in which they were included. *)
Definition ex_open (l : list (Z * Hash * DataRequestOutput)) : DataRequestPool :=
  MkPool ∅ (foldr (λ x g, <[x.1.1 := {[ x.1.2 ]} ∪ default ∅ (g !! x.1.1)]> g) ∅ l)
    (list_to_map ((λ x, (x.1.2, state_new x.2 [1] x.1.1 None)) <$> l)) [] 3.
(** Epoch 25, in which version 2.0 is in force; the node is validator 4. *)
Definition ex_witness (st : StakesTracker) (q : DataRequestPool) : Proposer ex_db :=
  let s := chain_state node in
  let s := ChainManager.MkState (chain_info s) q (block_chain s) (own_outputs s) (reputation_engine s) (node_stats s) (alt_keys s) (superblock_state s)
             (tapi_engine s) st (unspent_outputs_pool s) in
  MkProposer (MkManager ex_info s pool_default (Some [4]) (Some ex_epochs) Synced true (priority_engine node) (Some 25) None ∅ [])
    true None 0 None false.

(** Four validators; the node has the most coins, 10 trillion above the minimum, and each request asks for 6 of them. *)
Definition ex_others : list (Z * Z * Z) := [(5, 1, 11000000000000); (6, 1, 11000000000000); (7, 1, 11000000000000)].
Definition ex_single : Proposer ex_db :=
  ex_witness (ex_stakes ((4, 1, 20000000000000) :: ex_others))
    (ex_open [(23, [77], ex_asked 1 6000000000000); (24, [78], ex_asked 1 6000000000000)]).
Definition ex_attempts (x : Proposer ex_db) : list Attempt :=
  match plan Development ex_sha256 x 0 with Ok (l, _, _) => l | _ => [] end.
Definition ex_vrf_proof : VrfProof := {| vrf_proof := []; vrf_public_key := ex_key 4 |}.
Abbreviation ex_witnessing := (witness_run ex_sha256 (λ _, Some (ex_sig 4)) [2] [4] None (ex_wips 25)).
(** The proofs arrive before the results. *)
Definition ex_arrivals : list WitnessEvent :=
  [ProofArrived 0 (Some (ex_vrf_proof, [0])); ProofArrived 1 (Some (ex_vrf_proof, [0])); ResultArrived 1 (Retrieval (Some [1]));
   ResultArrived 0 (Retrieval (Some [1]))].
Definition ex_committed (maximum : Z) (x : Proposer ex_db) : option (list Hash * Z) :=
  match ex_witnessing ex_arrivals (work_of (proposer_manager x) maximum (ex_attempts x)) with
  | Some (k, effects) =>
      Some (omap (λ e, match e with AddCommitReveal c _ => Some (c_dr_pointer c) | ResolveRA _ => None end) effects, wk_count k)
  | None => None
  end.

(** With a limit of one retrieval, one of the requests is resolved. *)
Example one_retrieval : ex_committed 1 ex_single = Some ([[77]], 1).
Proof. by vm_compute. Qed.

(** Each attempt has its own copy of the available stake: both requests are committed to, with twice 6 trillion as collateral where
    there are 10 above the minimum. *)
Example stake_counted_twice :
  ex_committed 10 ex_single = Some ([[78]; [77]], 2)
  ∧ a_collateral <$> ex_attempts ex_single = [6000000000000; 6000000000000]
  ∧ (λ a, a_available_stake a - a_minimum_stake a) <$> ex_attempts ex_single = [10000000000000; 10000000000000].
Proof. by vm_compute. Qed.

(** A node that is not eligible for a request does not look at those that follow: it would be eligible for the second. *)
Definition ex_eight : StakesTracker :=
  ex_stakes ([(4, 1, 11000000000000); (8, 1, 20000000000000); (9, 1, 15000000000000); (10, 1, 11000000000000); (11, 1, 11000000000000)] ++ ex_others).
Example ineligible_stops :
  ex_attempts (ex_witness ex_eight (ex_open [(23, [77], ex_asked 2 1000000); (24, [78], ex_asked 1 1000000)])) = []
  ∧ a_pointer <$> ex_attempts (ex_witness ex_eight (ex_open [(24, [78], ex_asked 1 1000000)])) = [[78]].
Proof. by vm_compute. Qed.

(** A witness counts all the stake entries of its validator, the validation of commits only the first: with two entries of 12 trillion,
    the commit with a collateral of 5 is made, and it is refused. *)
Definition ex_split : Proposer ex_db :=
  ex_witness (ex_stakes ([(4, 1, 12000000000000); (4, 2, 12000000000000)] ++ ex_others)) (ex_open [(24, [78], ex_asked 1 5000000000000)]).
Definition ex_own_commit : CommitTransaction :=
  {| c_dr_pointer := [78]; c_commitment := [4]; c_proof := {| claim_proof := ex_vrf_proof |}; c_collateral := []; c_outputs := [];
     c_bn256_public_key := None; c_signatures := [ex_sig 4] |}.
Definition ex_validate_commit (x : Proposer ex_db) (c : CommitTransaction) :=
  let s := chain_state (proposer_manager x) in
  validate_commit_transaction ex_sha256 ex_tx_hash ex_parse_key ex_parse_sig c (requests_pool s) (MkVrfInput 25 [7]) [] (engine_new 10) 25
    ex_epochs (utxo_diff_new (ex_pool ex_coins) 5) 1 1000 5 1 (ex_wips 25) 10 V2_0 (stakes s) 4 10000000000000.
Example split_stake_refused :
  (match ex_witnessing [ProofArrived 0 (Some (ex_vrf_proof, [0])); ResultArrived 0 (Retrieval (Some [1]))]
           (work_of (proposer_manager ex_split) 10 (ex_attempts ex_split)) with
   | Some (_, effects) => omap (λ e, match e with AddCommitReveal c _ => Some c | ResolveRA _ => None end) effects | None => [] end)
  = [ex_own_commit]
  ∧ ex_validate_commit ex_split ex_own_commit = Err (TxError (CollateralBelowMinimumStake 5000000000000 [4])).
Proof. by vm_compute. Qed.

(** [retrievals_limited] with a limit of one: one of the two requests, of one source each, is resolved. *)
Lemma retrievals_limited_witness :
  ∃ k effects, ex_witnessing ex_arrivals (work_of (proposer_manager ex_single) 1 (ex_attempts ex_single)) = Some (k, effects)
  ∧ length effects = 2%nat ∧ sources_sent effects ≤ wk_count k ≤ 1.
Proof.
  assert (match ex_witnessing ex_arrivals (work_of (proposer_manager ex_single) 1 (ex_attempts ex_single)) with
          | Some (_, effects) => length effects | None => 0%nat end = 2%nat) as Hn by (vm_compute; reflexivity).
  destruct (ex_witnessing ex_arrivals (work_of (proposer_manager ex_single) 1 (ex_attempts ex_single))) as [[k effects]|] eqn:Hr; [|discriminate Hn].
  exists k, effects. split; [reflexivity|]. split; [exact Hn|].
  assert (match plan Development ex_sha256 ex_single 0 with Ok _ => true | _ => false end = true) as Hok by (vm_compute; reflexivity).
  unfold ex_attempts in Hr. destruct (plan Development ex_sha256 ex_single 0) as [[[l e] ars]| |] eqn:Hp; [|discriminate Hok..].
  assert (0 ≤ 1 < U16 - 1) as Hmax by (unfold U16; lia).
  destruct (retrievals_limited Development ex_sha256 (λ _, Some (ex_sig 4)) [2] [4] None (ex_wips 25) ex_single 0 l e ars 1
    ex_arrivals k effects Hp Hmax Hr) as [Hle Hc]. lia.
Defined.

(** A limit of 65535 is none: the counter saturates there, and two requests of 40000 sources are both resolved. *)
Example largest_limit_saturates :
  (λ r, (wk_count r.1, length r.2))
    <$> ex_witnessing [ProofArrived 0 (Some (ex_vrf_proof, [0])); ProofArrived 1 (Some (ex_vrf_proof, [0]))]
          (work_of (proposer_manager ex_single) 65535
             ((λ a, MkAttempt (a_pointer a) (a_state a) (a_version a) (a_target a) (a_message a) 40000 (a_collateral a) (a_available_stake a)
                      (a_minimum_stake a) (a_period a) (a_block_limit a) (a_timestamp a)) <$> ex_attempts ex_single))
  = Some (65535, 2%nat).
Proof. by vm_compute. Qed.

(** [witness_commit_accepted] on the second request. *)
Definition ex_state78 : DataRequestState := state_new (ex_asked 1 6000000000000) [1] 24 None.
Definition ex_entry : StakeEntry (Address:=PublicKeyHash) :=
  {| ekey := MkKey [4] [1]; evalue := {| coins := 20000000000000; epochs := {| mining := 1; witnessing := 1 |}; nonce := 1 |} |}.
Definition ex_round25 : WitnessRound := MkWitness 25 [4] (MkVrfInput 25 [7]) node_info (Some [1]) 20000000000000 10000000000000 0.
Definition ex_reveal78 : RevealTransaction := {| r_dr_pointer := [78]; r_reveal := [1]; r_pkh := [4]; r_signatures := [ex_sig 4] |}.
Definition ex_attempt78 : Attempt :=
  MkAttempt [78] ex_state78 V2_0 (replicate 32 255) (DataRequestV2 (MkVrfInput 25 [7]) [78] (Some [1])) 1 6000000000000 20000000000000
    10000000000000 45 0 0.
Lemma witness_commit_witness :
  a_message ex_attempt78 = DataRequestV2 (MkVrfInput 25 [7]) [78] (Some [1]) ∧ Some [1] = Some (withdrawer (ekey ex_entry))
  ∧ ex_validate_commit ex_single ex_own_commit
  = Ok ([78], 1, 1, [SecpTx (ex_key 4) (ex_tx_hash None (Commit ex_own_commit)) [4];
                     VrfDr {| claim_proof := ex_vrf_proof |} (MkVrfInput 25 [7]) [78] (replicate 32 255) (Some [1]) (Some 24)]).
Proof.
  assert (choose Development ex_sha256 (proposer_manager ex_single) ex_round25 (engine_new 10) [78] ex_state78
          = Some (engine_new 10, Attempting ex_attempt78)) as Hc by (vm_compute; reflexivity).
  refine (witness_commit_accepted Development ex_sha256 ex_tx_hash ex_parse_key ex_parse_sig (λ _, Some (ex_sig 4)) None (ex_wips 25) ex_single 0
    ex_round25 ex_entry (engine_new 10) (engine_new 10) [78] ex_state78 ex_attempt78 ex_vrf_proof [1] ex_own_commit ex_reveal78 (ex_sig 4) (engine_new 10)
    (utxo_diff_new (ex_pool ex_coins) 5) ex_epochs 1000 5 1 10 _ _ _ _ eq_refl _ _ _ Hc eq_refl eq_refl eq_refl eq_refl eq_refl eq_refl _).
  - vm_compute. reflexivity.
  - vm_compute. reflexivity.
  - cbn [ex_entry evalue coins ex_round25 w_minimum]. unfold U64. lia.
  - vm_compute. reflexivity.
  - vm_compute. split; [discriminate|reflexivity].
  - cbn. lia.
  - vm_compute. reflexivity.
  - vm_compute. reflexivity.
Defined.
